(* ===== verification/_CoqProject ===== *)
-Q . S2P
Prelude.v
Str.v
Bytes.v
BTree.v
Numeral.v
Text.v
Bignum.v
Bencode.v
Dicts.v
Io.v
Mse.v
Message.v
Handshake.v
PeerState.v
Sha256.v
Merkle.v
V2Hashes.v
V2Tree.v
PieceAssembler.v
Partial.v
Queue.v
Choker.v
Net.v
Tracker.v
PeerExt.v
PeerPool.v
FileWriter.v
Torrent.v
Metadata.v
Serving.v
MagnetFetch.v
Layers.v
WebSeed.v
Announce.v
Routing.v
Krpc.v
SecureId.v
DhtStore.v
DhtNode.v
DhtLookup.v
UtpPacket.v
F64.v
Pipeline.v
UtpConn.v
Worker.v
WorkerFacts.v
Rendezvous.v
Create.v
CreateFacts.v
Resume.v
Selection.v
Prepare.v
Magnet.v
Json.v
Utf8.v
Entries.v
Manager.v
Control.v
