(* ===== verification/Prelude.v ===== *)
(** * bittorrent-rs: prelude

    The program is a BitTorrent client and daemon in Rust.  This library models
    the parts of it that carry its logic: everything that reads what a peer, a
    tracker, a DHT node or a torrent file says, and every state machine that
    decides what the client does next.

    ** The program

    A torrent file ([torrent.rs], made by [create.rs]) or a magnet link
    ([magnet.rs]) names a torrent by its info hash.  A magnet link's info
    dictionary is fetched from peers first ([metadata.rs], [magnet_fetch.rs]),
    and the piece layers of a v2 torrent after it ([session/layers.rs]).  A
    session finds what is already on disk and plans what to fetch
    ([session/prepare.rs], [downloader/resume.rs], [selection.rs],
    [session/plan.rs]).  Peers come from trackers ([tracker/],
    [tracker_discovery.rs], [session/announce.rs]), the DHT ([dht/]) and other
    peers ([peer/pex.rs]) into the pool ([session/peer_pool.rs]); a connection
    to one, plain or encrypted ([peer/mse.rs]) and over TCP or uTP ([utp/]),
    carries messages ([peer/]).  Workers, each on a connection or a web seed
    ([downloader/worker/], [webseed.rs]), take pieces from a shared queue,
    assemble and verify them and write them to disk ([downloader/], [v2.rs]).
    What is verified is served to peers the choker lets ([serving.rs],
    [choker.rs]).  A daemon runs many torrents so, and remembers them
    ([daemon/]).

    ** Files and the code they model

    - [Prelude]: results, machine integers, lists as arrays, tactics.
    - [Str], [Text], [BTree], [Numeral], [Io], [Net], [F64]: what the code uses
      of the Rust standard library (strings and their searches, ordered maps,
      numerals, readers, socket addresses, [f64]); [Str] also has the names a
      torrent may use ([torrent.rs], [is_safe_component]).
    - [Bytes]: [src/src/bytes.rs].
    - [Bencode]: [src/src/bencode.rs], the codec of torrents, trackers, the DHT
      and the extension protocol; [Dicts]: lemmas on building and reading
      dictionaries that its clients share.
    - [Bignum], [Mse]: [src/src/peer/mse.rs]; 768-bit Montgomery arithmetic and
      the Diffie-Hellman group, then RC4, the two ends of the encrypted
      handshake and the stream it sets up.
    - [Message], [Handshake], [PeerState]: [src/src/peer/message.rs],
      [handshake.rs], [state.rs].
    - [PeerExt]: [src/src/peer/extension.rs], [pex.rs], [holepunch.rs],
      [fast.rs], a [Module] each.
    - [Sha256], [Merkle], [V2Hashes], [V2Tree]: [src/src/sha256.rs] and the
      trees, proofs, piece plans, hash requests and file trees of
      [src/src/v2.rs].
    - [Torrent]: [src/src/torrent.rs], v1, hybrid and v2 torrents.
    - [PieceAssembler], [Partial], [Queue], [FileWriter]: the downloader
      ([src/src/downloader/]): a piece from its blocks, the file of unfinished
      pieces, the queue the workers share, pieces on disk.
    - [Choker]: [src/src/choker.rs], who is uploaded to.
    - [PeerPool]: [src/src/session/peer_pool.rs], who is dialed.
    - [Tracker]: [src/src/tracker/]; announces and scrapes over HTTP, HTTPS and
      UDP.
    - [Metadata], [Serving], [MagnetFetch]: [src/src/metadata.rs], then the
      seeding side of a connection ([src/src/serving.rs] and the shared state of
      [seeder.rs]) and the fetching side ([src/src/magnet_fetch.rs]), put
      against each other.
    - [Routing], [Krpc], [SecureId], [DhtStore], [DhtNode], [DhtLookup]:
      [src/src/dht/]: the routing table, messages, secure ids, stored items and
      tokens, the request handler ([mod.rs], [responder.rs]) and the iterative
      lookup.
    - [UtpPacket], [UtpConn]: [src/src/utp/packet.rs] and [conn.rs].
    - [Pipeline], [Worker], [WorkerFacts], [Rendezvous]: a download worker
      ([src/src/downloader/worker/]): how many requests it keeps in flight; the
      worker itself, which composes the queue, the assembler, the peer's state,
      the serving side, hole punching and the disk in a state and error monad;
      the theorems about it; and the introductions of peers to each other.
    - [WebSeed]: [src/src/webseed.rs], the worker that fetches from a mirror.
    - [Layers]: [src/src/session/layers.rs], a v2 torrent's piece layers from
      peers.
    - [Announce]: [src/src/tracker_discovery.rs] and
      [src/src/session/announce.rs], which trackers are told what, and when.
    - [Create], [CreateFacts]: [src/src/create.rs], making and saving torrents;
      that they parse back.
    - [Resume], [Selection], [Prepare]: the resume file
      ([src/src/downloader/resume.rs]), the files selected and the plan
      ([src/src/selection.rs], [session/plan.rs]), and the start of a session
      ([session/prepare.rs], [session/progress.rs]).
    - [Magnet]: [src/src/magnet.rs]; [Json]: [src/src/json.rs]; [Utf8]: text and
      its bytes.
    - [Entries], [Manager], [Control]: the daemon ([src/src/daemon/]): what it
      remembers ([state.rs]), the torrents it runs ([manager.rs], and a job as
      [job.rs] shows it to the manager), and the requests it is sent
      ([control.rs]).

    ** What the theorems show

    - Codecs: decoders return on every input, accept exactly (or at least) what
      the encoders produce, and give it back ([Bencode], [Message], [Handshake],
      [Krpc], [UtpPacket], [Partial], [PeerExt], [Metadata], [Tracker], [Magnet],
      [Json], [Entries], [Control]).
    - Untrusted input: no panic, and bounded state, whatever a peer, a node or
      a server sends ([PeerState], [Torrent], [V2Tree], [Metadata],
      [MagnetFetch], [Serving], [DhtNode], [DhtStore], [UtpConn], [Tracker],
      [Magnet], [Layers], [WorkerFacts], [WebSeed]).
      Where the code does panic the theorem says exactly when
      ([PieceAssembler.record_block_panics_iff]).
    - Hashes and arithmetic: the hasher computes the published SHA-256, tree
      proofs are complete and sound up to a collision, Montgomery
      exponentiation is exponentiation ([Sha256], [Merkle], [V2Hashes],
      [Bignum]).
    - State machines: invariants of every reachable state, and progress
      ([Queue], [Choker], [PeerPool], [PieceAssembler], [Routing], [DhtLookup],
      [UtpConn], [Announce]).
    - Downloading: a worker ends, reports only verified pieces, each once, and
      gives back what it claimed ([WorkerFacts.worker_safe],
      [worker_gives_back], [WebSeed.web_worker_safe]); a healthy web seed alone
      completes a torrent ([WebSeed.web_seed_suffices]); a selection and a
      restart account for every piece ([Selection.plan_accounts],
      [Prepare.restart_sound], [Prepare.restart_continues]).
    - The daemon: what it runs and what it remembers stay the same, and a
      restart has it all back ([Manager.daemon_remembers],
      [Entries.state_survives]); where they part, when a write fails or two
      commands cross ([Manager.failed_add_is_kept], [added_while_removed]).
    - Two ends together: what one of our ends sends the other understands
      ([MagnetFetch.magnet_from_seeder], [Layers.layers_from_seeder],
      [CreateFacts.create_parses], [CreateFacts.magnet_torrent_kept],
      [Mse.mse_handshake_agrees],
      [Mse.stream_faithful], [V2Hashes.hash_requests_served],
      [DhtLookup.published_item_found], [FileWriter.write_then_read],
      [UtpConn.utp_delivers_in_order]).

    ** Conventions

    A [u8], [u16], [u32], [u64] or [usize] is a [Z], reduced by [wrap] where the
    code wraps and compared by checked operations where it checks.  A slice or
    a [Vec] is a list.  A [Result] is a [result], an [Option] an [option]; a
    panic is the [None] of an enclosing [option].  A method of [&mut self] takes
    the state and returns it.  A component behind a lock that every method
    holds for its whole body has one step per method, and what threads do is a
    sequence of steps in any order.  Loops whose recursion is not structural
    take fuel, and a theorem shows the fuel the caller supplies is enough: the
    bencode decoder's is twice the input's length, a chunked body's its length,
    a lookup's the number of addresses it may still ask, a worker's a bound on
    its passes computed from the pieces and the messages that arrive
    ([WorkerFacts.enough_fuel]), a JSON text's its length; the digests of the
    allowed fast set have no bound in the code, and its theorem is about the
    rounds that suffice.

    SHA-1, Ed25519 and randomness are not in the repository: they are arguments
    of the definitions that use them, with what is relied on (the length of a
    digest, that a signature made verifies) as hypotheses.  A connection is the
    bytes or messages that will arrive before it fails and how much more it
    takes; a network is the datagrams that arrive; a disk is a map from paths to
    contents; time is an argument.

    ** Not modelled

    Sockets, TLS, threads and timers themselves, that is the start-up, the main
    loop and the shutdown of a session ([session/run.rs], [services.rs],
    [network.rs], [workers.rs]), [dht/service.rs], [utp/socket.rs], the
    listener of [seeder.rs], multicast and gateways ([lsd.rs], [portmap.rs]):
    their effects are the arguments above.  The rate limiter and the seeding
    limits, which are averages of floating-point numbers over wall-clock time
    and sleeps.  The daemon's control socket and the lines of its
    answers, terminal output, configuration and signals, and the test
    harnesses. *)

From Stdlib Require Export ZArith Lia.
From stdpp Require Export prelude gmap.

#[export] Set Default Goal Selector "!".
Open Scope Z_scope.

#[global] Arguments Nat.div : simpl never.
#[global] Arguments Nat.modulo : simpl never.

Declare Scope rust_scope.
Delimit Scope rust_scope with rust.
Open Scope rust_scope.

(** ** Results

    [Result<A, E>] of the source.  A panic (an index out of range, a
    subtraction below zero on an unsigned type) is modelled by [None] of an
    enclosing [option], so that "does not panic" is a statement about the
    model and not a convention. *)

Inductive result (A E : Type) : Type :=
| Ok (a : A)
| Err (e : E).
Arguments Ok {A E} a.
Arguments Err {A E} e.

Definition result_bind {A B E} (r : result A E) (k : A -> result B E) : result B E :=
  match r with
  | Ok a => k a
  | Err e => Err e
  end.

Definition ok_or {A E} (o : option A) (e : E) : result A E :=
  match o with
  | Some a => Ok a
  | None => Err e
  end.

(** The [?] operator: [let? x := e in k]. *)
Notation "'let?' x ':=' e 'in' k" :=
  (result_bind e (fun x => k))
  (at level 10, x pattern, e at level 200, k at level 200) : rust_scope.

#[export] Instance result_eq_dec `{EqDecision A, EqDecision E} : EqDecision (result A E).
Proof. solve_decision. Defined.

Lemma result_bind_Ok {A B E} (r : result A E) (k : A -> result B E) b :
  result_bind r k = Ok b <-> exists a, r = Ok a /\ k a = Ok b.
Proof. destruct r; simpl; naive_solver. Qed.

Lemma ok_or_Ok {A E} (o : option A) (e : E) a : ok_or o e = Ok a <-> o = Some a.
Proof. destruct o; simpl; naive_solver. Qed.

(** The [?] operator inside a computation that may also panic or run out of
    fuel, which is [None]: [let! x := e in k]. *)
Definition fuelled_bind {A B E} (r : option (result A E)) (k : A -> option (result B E)) : option (result B E) :=
  match r with
  | None => None
  | Some (Err e) => Some (Err e)
  | Some (Ok a) => k a
  end.

Notation "'let!' x ':=' e 'in' k" :=
  (fuelled_bind e (fun x => k))
  (at level 10, x pattern, e at level 200, k at level 200) : rust_scope.

Lemma fuelled_bind_Ok {A B E} (r : option (result A E)) (k : A -> option (result B E)) b :
  fuelled_bind r k = Some (Ok b) <-> exists a, r = Some (Ok a) /\ k a = Some (Ok b).
Proof. destruct r as [[] |]; simpl; naive_solver. Qed.

(** A computation that returns goes on to one that does. *)
Lemma fuelled_bind_total {A B E} (r : option (result A E)) (k : A -> option (result B E)) :
  is_Some r -> (forall a, r = Some (Ok a) -> is_Some (k a)) -> is_Some (fuelled_bind r k).
Proof. intros [[a | e] ->] Hk; simpl; eauto. Qed.

(** Unfolds a successful bind in [H] into the result of its first step. *)
Tactic Notation "bind_ok" hyp(H) "as" simple_intropattern(p) ident(E) :=
  apply fuelled_bind_Ok in H; destruct H as (p & E & H).

(** ** Machine integers

    A [w]-bit unsigned integer is a [Z] in [0, 2^w); wrapping operations
    reduce modulo [2^w], checked ones return [None] out of range. *)

Definition u_max (w : Z) : Z := 2 ^ w - 1.
Definition u_ok (w z : Z) : Prop := 0 <= z < 2 ^ w.
Definition wrap (w z : Z) : Z := z mod 2 ^ w.
Definition u_checked_add (w a b : Z) : option Z :=
  if a + b <=? u_max w then Some (a + b) else None.
Definition u_saturating_sub (a b : Z) : Z := Z.max 0 (a - b).
Definition div_ceil (a b : Z) : Z := (a + b - 1) / b.

Abbreviation byte_ok := (u_ok 8).
Abbreviation bytes_ok := (Forall (u_ok 8)).

Definition i64_min : Z := - 2 ^ 63.
Definition i64_max : Z := 2 ^ 63 - 1.
Definition i64_ok (z : Z) : Prop := i64_min <= z <= i64_max.

#[export] Instance u_ok_dec w z : Decision (u_ok w z).
Proof. unfold u_ok. apply _. Defined.

(** The length of a [Vec] or slice, as the [usize] the code computes with. *)
Definition zlen {A} (l : list A) : Z := Z.of_nat (length l).

Lemma zlen_nonneg {A} (l : list A) : 0 <= zlen l.
Proof. unfold zlen. lia. Qed.

Lemma zlen_app {A} (l k : list A) : zlen (l ++ k) = zlen l + zlen k.
Proof. unfold zlen. rewrite length_app. lia. Qed.

Lemma zlen_cons {A} (x : A) (l : list A) : zlen (x :: l) = 1 + zlen l.
Proof. unfold zlen. simpl. lia. Qed.

Lemma zlen_nil {A} : zlen (@nil A) = 0.
Proof. reflexivity. Qed.

Lemma zlen_replicate {A} n (x : A) : zlen (replicate n x) = Z.of_nat n.
Proof. unfold zlen. by rewrite length_replicate. Qed.

Lemma zlen_0_nil {A} (l : list A) : zlen l = 0 -> l = [].
Proof. destruct l; unfold zlen; simpl; [done | lia]. Qed.

Create Rewrite HintDb zlen.
#[export] Hint Rewrite @zlen_app @zlen_cons @zlen_nil @zlen_replicate : zlen.

(** Normalises lengths and closes linear goals about them. *)
Ltac zlen_lia :=
  repeat match goal with
  | l : list _ |- _ =>
      lazymatch goal with
      | _ : 0 <= zlen l |- _ => fail
      | _ => pose proof (zlen_nonneg l)
      end
  end;
  autorewrite with zlen in *; try lia.

(** Splits the head [match] or [if] of a hypothesis, keeping the equation. *)
Ltac case_match_in H :=
  match type of H with
  | context [match ?x with _ => _ end] => destruct x eqn:?
  end.

(** Turns boolean tests of the code into the propositions they decide. *)
Ltac bool_to_prop :=
  repeat match goal with
  | H : (_ <=? _) = true |- _ => apply Z.leb_le in H
  | H : (_ <=? _) = false |- _ => apply Z.leb_gt in H
  | H : (_ <? _) = true |- _ => apply Z.ltb_lt in H
  | H : (_ <? _) = false |- _ => apply Z.ltb_ge in H
  | H : (_ =? _) = true |- _ => apply Z.eqb_eq in H
  | H : (_ =? _) = false |- _ => apply Z.eqb_neq in H
  | H : (_ && _)%bool = true |- _ => apply andb_true_iff in H as [? ?]
  | H : (_ && _)%bool = false |- _ => apply andb_false_iff in H
  | H : (_ || _)%bool = true |- _ => apply orb_true_iff in H
  | H : (_ || _)%bool = false |- _ => apply orb_false_iff in H as [? ?]
  | H : negb _ = true |- _ => apply negb_true_iff in H
  | H : negb _ = false |- _ => apply negb_false_iff in H
  end.

(** ** Lists used as arrays *)

(** [&l[a..b]] for indices already checked by the code. *)
Definition slice {A} (l : list A) (a b : Z) : list A :=
  take (Z.to_nat (b - a)) (drop (Z.to_nat a) l).

(** [l.get(i)], and [l[i]], where [None] is the panic. *)
Definition zget {A} (l : list A) (i : Z) : option A :=
  if i <? 0 then None else l !! Z.to_nat i.

(** [l[i] = x], where [None] is the panic. *)
Definition zset {A} (l : list A) (i : Z) (x : A) : option (list A) :=
  if (0 <=? i) && (i <? zlen l) then Some (<[Z.to_nat i := x]> l) else None.

(** [l[a..a+|d|].copy_from_slice(d)] for a range inside [l]. *)
Definition splice {A} (l : list A) (a : Z) (d : list A) : list A :=
  take (Z.to_nat a) l ++ d ++ drop (Z.to_nat (a + zlen d)) l.

Lemma zget_app_r {A} (l k : list A) : zget (l ++ k) (zlen l) = k !! 0%nat.
Proof.
  unfold zget, zlen. destruct (Z.ltb_spec (Z.of_nat (length l)) 0); [lia |].
  rewrite Nat2Z.id, lookup_app_r by lia. by rewrite Nat.sub_diag.
Qed.

Lemma zget_Some {A} (l : list A) i x :
  zget l i = Some x -> 0 <= i < zlen l /\ l !! Z.to_nat i = Some x.
Proof.
  unfold zget, zlen. destruct (Z.ltb_spec i 0); [done |]. intros Hx.
  split; [| done]. apply lookup_lt_Some in Hx. lia.
Qed.

Lemma zget_lt {A} (l : list A) i : 0 <= i < zlen l -> is_Some (zget l i).
Proof.
  unfold zget, zlen. intros ?. destruct (Z.ltb_spec i 0); [lia |].
  apply lookup_lt_is_Some. lia.
Qed.

Lemma zlen_slice {A} (l : list A) a b :
  0 <= a <= b -> b <= zlen l -> zlen (slice l a b) = b - a.
Proof.
  unfold slice, zlen. intros. rewrite length_take, length_drop. lia.
Qed.

Lemma slice_app_mid {A} (pre mid post : list A) :
  slice (pre ++ mid ++ post) (zlen pre) (zlen pre + zlen mid) = mid.
Proof.
  unfold slice, zlen. rewrite Nat2Z.id, drop_app_length.
  replace (Z.to_nat _) with (length mid) by lia. apply take_app_length.
Qed.

Lemma zlen_splice {A} (l : list A) a d :
  0 <= a -> a + zlen d <= zlen l -> zlen (splice l a d) = zlen l.
Proof.
  unfold splice, zlen. intros.
  rewrite !length_app, length_take, length_drop. lia.
Qed.

Lemma take_drop_split {A} (l : list A) n : l = take n l ++ drop n l.
Proof. symmetry. apply take_drop. Qed.

(** A list cut at a position inside it. *)
Lemma zget_split {A} (l : list A) i x :
  zget l i = Some x -> exists pre post, l = pre ++ x :: post /\ zlen pre = i.
Proof.
  intros [Hi Hx]%zget_Some.
  exists (take (Z.to_nat i) l), (drop (S (Z.to_nat i)) l). split.
  - symmetry. by apply take_drop_middle.
  - unfold zlen in *. rewrite length_take. lia.
Qed.

Lemma slice_cut {A} (l : list A) a b c :
  0 <= a <= b -> b <= c -> slice l a c = slice l a b ++ slice l b c.
Proof.
  intros. unfold slice.
  replace (Z.to_nat (c - a)) with (Z.to_nat (b - a) + Z.to_nat (c - b))%nat by lia.
  rewrite <- take_take_drop, drop_drop. do 3 f_equal. lia.
Qed.

Lemma zget_nat {A} (l : list A) (i : Z) : 0 <= i -> zget l i = l !! Z.to_nat i.
Proof. intros. unfold zget. by rewrite (proj2 (Z.ltb_ge _ _)). Qed.

Lemma zget_None {A} (l : list A) i : zlen l <= i -> zget l i = None.
Proof.
  unfold zlen. intros. rewrite zget_nat by lia. apply lookup_ge_None. lia.
Qed.

Lemma zget_slice {A} (l : list A) a b i :
  0 <= a -> 0 <= i < b - a -> zget (slice l a b) i = zget l (a + i).
Proof.
  intros. unfold slice. rewrite !zget_nat by lia. rewrite lookup_take_lt by lia.
  rewrite lookup_drop. f_equal. lia.
Qed.

Lemma zget_splice {A} (l d : list A) a i :
  0 <= a -> a + zlen d <= zlen l -> 0 <= i ->
  zget (splice l a d) i = if (a <=? i) && (i <? a + zlen d) then zget d (i - a) else zget l i.
Proof.
  unfold zlen. intros. unfold splice. rewrite (zget_nat _ i) by lia.
  destruct (Z.leb_spec a i); simpl.
  - rewrite lookup_app_r by (rewrite length_take; lia). rewrite length_take.
    destruct (Z.ltb_spec i (a + Z.of_nat (length d))).
    + rewrite lookup_app_l, zget_nat by lia. f_equal. lia.
    + rewrite lookup_app_r by lia. rewrite lookup_drop, zget_nat by lia. f_equal. unfold zlen. lia.
  - rewrite lookup_app_l by (rewrite length_take; lia). rewrite lookup_take_lt by lia.
    by rewrite zget_nat by lia.
Qed.

(** Two lists of one length with the same elements at every index. *)
Lemma zget_ext {A} (l k : list A) :
  zlen l = zlen k -> (forall i, 0 <= i < zlen l -> zget l i = zget k i) -> l = k.
Proof.
  unfold zlen. intros Hlen H. apply list_eq. intros i.
  destruct (decide (i < length l)%nat) as [Hi | Hi].
  - specialize (H (Z.of_nat i) ltac:(lia)). rewrite !zget_nat, !Nat2Z.id in H by lia. done.
  - rewrite !lookup_ge_None_2 by lia. done.
Qed.

Lemma zset_Some {A} (l l' : list A) i x :
  zset l i x = Some l' <-> 0 <= i < zlen l /\ l' = <[Z.to_nat i := x]> l.
Proof.
  unfold zset. destruct (Z.leb_spec 0 i), (Z.ltb_spec i (zlen l)); simpl; naive_solver lia.
Qed.

Lemma zget_insert {A} (l : list A) i j x :
  0 <= i < zlen l -> 0 <= j -> zget (<[Z.to_nat i := x]> l) j = if j =? i then Some x else zget l j.
Proof.
  unfold zlen. intros. rewrite !zget_nat by lia.
  destruct (Z.eqb_spec j i) as [-> |]; [by rewrite list_lookup_insert_eq by lia |].
  rewrite list_lookup_insert_ne by lia. done.
Qed.

Lemma zlen_insert {A} (l : list A) i x : zlen (<[i := x]> l) = zlen l.
Proof. unfold zlen. by rewrite length_insert. Qed.

#[export] Hint Rewrite @zlen_insert : zlen.

(** Blocks of [b] bytes in [len]. *)
Lemma lt_div_ceil i len b : 0 < b -> i < div_ceil len b <-> i * b < len.
Proof.
  intros Hb. unfold div_ceil. pose proof (Z.div_mod (len + b - 1) b). 
  pose proof (Z.mod_pos_bound (len + b - 1) b Hb). nia.
Qed.

Lemma div_ceil_nonneg len b : 0 <= len -> 0 < b -> 0 <= div_ceil len b.
Proof. intros. apply Z.div_pos; lia. Qed.

Lemma zget_app {A} (l k : list A) i :
  0 <= i -> zget (l ++ k) i = if i <? zlen l then zget l i else zget k (i - zlen l).
Proof.
  intros Hi. unfold zlen. rewrite (zget_nat _ i Hi). destruct (Z.ltb_spec i (Z.of_nat (length l))).
  - rewrite lookup_app_l, zget_nat by lia. done.
  - rewrite lookup_app_r, zget_nat by lia. f_equal. lia.
Qed.

Lemma zget_replicate {A} (n : nat) (x : A) i : 0 <= i < Z.of_nat n -> zget (replicate n x) i = Some x.
Proof. intros. rewrite zget_nat by lia. apply lookup_replicate_2. lia. Qed.

Lemma zlen_take {A} (l : list A) n : 0 <= n <= zlen l -> zlen (take (Z.to_nat n) l) = n.
Proof. unfold zlen. intros. rewrite length_take. lia. Qed.

Lemma zlen_drop {A} (l : list A) n : 0 <= n <= zlen l -> zlen (drop (Z.to_nat n) l) = zlen l - n.
Proof. unfold zlen. intros. rewrite length_drop. lia. Qed.

Lemma zget_take {A} (l : list A) n i : 0 <= i < n -> zget (take (Z.to_nat n) l) i = zget l i.
Proof. intros. rewrite !zget_nat by lia. apply lookup_take_lt. lia. Qed.

Lemma zget_drop {A} (l : list A) n i : 0 <= n -> 0 <= i -> zget (drop (Z.to_nat n) l) i = zget l (n + i).
Proof. intros. rewrite !zget_nat by lia. rewrite lookup_drop. f_equal. lia. Qed.
