(* ===== verification/Str.v ===== *)
(** * Strings

    What the code uses of [str] and [String]: a string is its UTF-8 bytes, a
    literal of the source is [str] of it.  [from_utf8_lossy], and which names
    are one plain component of a path. *)

From Stdlib Require Ascii Strings.String.
From S2P Require Import Prelude.
Export String.StringSyntax.

(** The bytes of an ASCII literal: [b"..."] and the keys of the wire formats. *)
Definition str (s : String.string) : list Z :=
  (fun a => Z.of_N (Ascii.N_of_ascii a)) <$> String.list_ascii_of_string s.
Arguments str s%_string_scope.

(** A continuation byte, and a second byte after the lead [b]. *)
Definition utf8_tail (c : Z) : bool := (128 <=? c) && (c <=? 191).

Definition utf8_second (b c : Z) : bool :=
  if b =? 224 then (160 <=? c) && (c <=? 191)
  else if b =? 237 then (128 <=? c) && (c <=? 159)
  else if b =? 240 then (144 <=? c) && (c <=? 191)
  else if b =? 244 then (128 <=? c) && (c <=? 143)
  else utf8_tail c.

(** How many of the bytes [b :: r] one step of the standard decoder takes, and
    whether they are a character: an ill-formed sequence is taken up to the
    first byte that could not continue it. *)
Definition utf8_step (b : Z) (r : list Z) : nat * bool :=
  if b <? 128 then (1%nat, true)
  else if (194 <=? b) && (b <=? 223) then
    match r with
    | c1 :: _ => if utf8_tail c1 then (2%nat, true) else (1%nat, false)
    | [] => (1%nat, false)
    end
  else if (224 <=? b) && (b <=? 239) then
    match r with
    | c1 :: r1 =>
        if utf8_second b c1 then
          match r1 with
          | c2 :: _ => if utf8_tail c2 then (3%nat, true) else (2%nat, false)
          | [] => (2%nat, false)
          end
        else (1%nat, false)
    | [] => (1%nat, false)
    end
  else if (240 <=? b) && (b <=? 244) then
    match r with
    | c1 :: r1 =>
        if utf8_second b c1 then
          match r1 with
          | c2 :: r2 =>
              if utf8_tail c2 then
                match r2 with
                | c3 :: _ => if utf8_tail c3 then (4%nat, true) else (3%nat, false)
                | [] => (3%nat, false)
                end
              else (2%nat, false)
          | [] => (2%nat, false)
          end
        else (1%nat, false)
    | [] => (1%nat, false)
    end
  else (1%nat, false).

(** [String::from_utf8_lossy]: U+FFFD in place of each ill-formed sequence. *)
Fixpoint lossy (fuel : nat) (bs : list Z) : list Z :=
  match fuel, bs with
  | S fuel', b :: r =>
      let '(n, ok) := utf8_step b r in
      (if ok then take n bs else [239; 191; 189]) ++ lossy fuel' (drop n bs)
  | _, _ => []
  end.

Definition from_utf8_lossy (bs : list Z) : list Z := lossy (length bs) bs.

(** [str::from_utf8(bs).is_ok()]. *)
Fixpoint utf8_valid (fuel : nat) (bs : list Z) : bool :=
  match bs with
  | [] => true
  | b :: r =>
      match fuel with
      | O => false
      | S fuel' => let '(n, ok) := utf8_step b r in ok && utf8_valid fuel' (drop n bs)
      end
  end.

(** [torrent::is_safe_component], on Unix: [Path::components] of a name without
    a separator is one [Normal] component unless it is [.] or [..]. *)
Definition is_safe_component (part : list Z) : bool :=
  negb (bool_decide (part = [])) && negb (existsb (fun b => (b =? 47) || (b =? 92) || (b =? 0)) part)
  && negb (bool_decide (part = str ".")) && negb (bool_decide (part = str "..")).

Lemma lossy_valid fuel bs : utf8_valid fuel bs = true -> lossy fuel bs = bs.
Proof.
  revert bs. induction fuel as [| fuel IH]; intros [| b r]; try done. cbn [utf8_valid lossy].
  destruct (utf8_step b r) as [n ok]. intros [-> H]%andb_true_iff. rewrite (IH _ H). apply take_drop.
Qed.
