(* ===== verification/Bytes.v ===== *)
(** * Bounds-checked reads and fixed-width encodings

    Models [src/src/bytes.rs] ([array_at], [be_u16], [be_u32], [be_u64]) and
    the [to_be_bytes]/[from_be_bytes] conversions every wire format of the
    program uses, with the round trips the codecs share. *)

From S2P Require Import Prelude.

(** [uN::to_be_bytes] for a value of [n] bytes. *)
Fixpoint to_be_bytes (n : nat) (z : Z) : list Z :=
  match n with
  | O => []
  | S n' => (z / 256 ^ Z.of_nat n') mod 256 :: to_be_bytes n' z
  end.

(** [uN::from_be_bytes]. *)
Definition from_be_bytes (bs : list Z) : Z :=
  fold_left (fun acc b => acc * 256 + b) bs 0.

(** [array_at]: [buf.get(at..at.checked_add(N)?)?.try_into().ok()]. *)
Definition array_at (n : Z) (buf : list Z) (at_ : Z) : option (list Z) :=
  match u_checked_add 64 at_ n with
  | None => None
  | Some end_ =>
      if (at_ <=? end_) && (end_ <=? zlen buf)
      then Some (slice buf at_ end_)
      else None
  end.

Definition be_u16 (buf : list Z) (at_ : Z) : option Z := from_be_bytes <$> array_at 2 buf at_.
Definition be_u32 (buf : list Z) (at_ : Z) : option Z := from_be_bytes <$> array_at 4 buf at_.
Definition be_u64 (buf : list Z) (at_ : Z) : option Z := from_be_bytes <$> array_at 8 buf at_.

Abbreviation be16 := (to_be_bytes 2).
Abbreviation be32 := (to_be_bytes 4).

(** [slice::as_chunks::<n>().0]: the whole chunks of [n] bytes. *)
Fixpoint as_chunks (fuel n : nat) (l : list Z) : list (list Z) :=
  match fuel with
  | O => []
  | S fuel' => if (length l <? n)%nat then [] else take n l :: as_chunks fuel' n (drop n l)
  end.

(** ** Lemmas *)

Lemma length_to_be_bytes n z : length (to_be_bytes n z) = n.
Proof. induction n; simpl; auto. Qed.

Lemma zlen_to_be_bytes n z : zlen (to_be_bytes n z) = Z.of_nat n.
Proof. unfold zlen. by rewrite length_to_be_bytes. Qed.

#[export] Hint Rewrite zlen_to_be_bytes : zlen.

Lemma to_be_bytes_ok n z : bytes_ok (to_be_bytes n z).
Proof.
  induction n; simpl; constructor; [| done].
  unfold u_ok. change (2 ^ 8) with 256. apply Z.mod_pos_bound. lia.
Qed.

Lemma from_be_bytes_acc bs acc :
  fold_left (fun a b => a * 256 + b) bs acc = acc * 256 ^ zlen bs + from_be_bytes bs.
Proof.
  unfold from_be_bytes. revert acc. induction bs as [| b bs IH]; intros acc; simpl.
  - rewrite zlen_nil. lia.
  - rewrite IH, (IH (0 * 256 + b)). zlen_lia.
    rewrite Z.add_comm, Z.pow_add_r by (pose proof (zlen_nonneg bs); lia). lia.
Qed.

Lemma from_be_bytes_cons b bs : from_be_bytes (b :: bs) = b * 256 ^ zlen bs + from_be_bytes bs.
Proof. unfold from_be_bytes at 1. simpl. rewrite from_be_bytes_acc. lia. Qed.

Lemma from_to_be_bytes n z : from_be_bytes (to_be_bytes n z) = z mod 256 ^ Z.of_nat n.
Proof.
  induction n as [| n IH]; simpl.
  - by rewrite Z.mod_1_r.
  - rewrite from_be_bytes_cons, IH, zlen_to_be_bytes.
    rewrite Nat2Z.inj_succ, Z.pow_succ_r by lia.
    rewrite (Z.mul_comm 256), Z.rem_mul_r by (try apply Z.pow_nonzero; lia). lia.
Qed.

Lemma from_to_be_bytes_ok n z : 0 <= z < 256 ^ Z.of_nat n -> from_be_bytes (to_be_bytes n z) = z.
Proof. intros. rewrite from_to_be_bytes. by apply Z.mod_small. Qed.

Lemma from_be_bytes_bound bs : bytes_ok bs -> 0 <= from_be_bytes bs < 256 ^ zlen bs.
Proof.
  induction 1 as [| b bs Hb Hbs IH].
  - done.
  - rewrite from_be_bytes_cons. autorewrite with zlen.
    rewrite Z.pow_add_r by (pose proof (zlen_nonneg bs); lia).
    unfold u_ok in Hb. change (2 ^ 8) with 256 in Hb. nia.
Qed.

Lemma array_at_ok n buf at_ bs :
  array_at n buf at_ = Some bs -> 0 <= at_ -> 0 <= n ->
  zlen bs = n /\ (bytes_ok buf -> bytes_ok bs).
Proof.
  unfold array_at, u_checked_add.
  destruct (at_ + n <=? u_max 64) eqn:?; [| done].
  destruct ((at_ <=? at_ + n) && (at_ + n <=? zlen buf))%bool eqn:?; [| done].
  intros [= <-] ??. bool_to_prop.
  split; [rewrite zlen_slice; lia |].
  intros ?. unfold slice. by apply Forall_take, Forall_drop.
Qed.

(** Reading back a field that was written between [pre] and [post]. *)
Lemma array_at_app pre mid post :
  zlen pre + zlen mid <= u_max 64 ->
  array_at (zlen mid) (pre ++ mid ++ post) (zlen pre) = Some mid.
Proof.
  intros. unfold array_at, u_checked_add.
  pose proof (zlen_nonneg pre); pose proof (zlen_nonneg mid); pose proof (zlen_nonneg post).
  rewrite (proj2 (Z.leb_le _ _)) by lia.
  rewrite !(proj2 (Z.leb_le _ _)) by zlen_lia. simpl. by rewrite slice_app_mid.
Qed.

Lemma be_u32_app pre z post :
  u_ok 32 z -> zlen pre <= 2 ^ 62 -> be_u32 (pre ++ be32 z ++ post) (zlen pre) = Some z.
Proof.
  intros Hz ?. unfold be_u32.
  pose proof (array_at_app pre (be32 z) post) as H'. rewrite zlen_to_be_bytes in H'.
  change (Z.of_nat 4) with 4 in H'. rewrite H' by (unfold u_max; lia). cbn [fmap option_fmap option_map].
  f_equal. by apply from_to_be_bytes_ok.
Qed.

Lemma be_u16_app pre z post :
  u_ok 16 z -> zlen pre <= 2 ^ 62 -> be_u16 (pre ++ be16 z ++ post) (zlen pre) = Some z.
Proof.
  intros Hz ?. unfold be_u16.
  pose proof (array_at_app pre (be16 z) post) as H'. rewrite zlen_to_be_bytes in H'.
  change (Z.of_nat 2) with 2 in H'. rewrite H' by (unfold u_max; lia). cbn [fmap option_fmap option_map].
  f_equal. by apply from_to_be_bytes_ok.
Qed.

Lemma be_u32_bound buf at_ z :
  bytes_ok buf -> 0 <= at_ -> be_u32 buf at_ = Some z -> u_ok 32 z.
Proof.
  intros Hb Ha. unfold be_u32. destruct (array_at _ _ _) as [bs |] eqn:E; [| done].
  intros [= <-]. apply array_at_ok in E as [Hl Hok]; [| lia..].
  specialize (from_be_bytes_bound bs (Hok Hb)) as ?. by rewrite Hl in *.
Qed.

Lemma be_u32_some buf at_ :
  0 <= at_ -> at_ + 4 <= zlen buf -> zlen buf <= 2 ^ 62 -> exists z, be_u32 buf at_ = Some z.
Proof.
  intros. unfold be_u32, array_at, u_checked_add.
  rewrite (proj2 (Z.leb_le _ (u_max 64))) by (unfold u_max; lia).
  rewrite !(proj2 (Z.leb_le _ _)) by lia. simpl. eauto.
Qed.

Lemma to_be_bytes_add n z k : to_be_bytes n (z + k * 256 ^ Z.of_nat n) = to_be_bytes n z.
Proof.
  revert z k. induction n as [| n IH]; intros z k; cbn [to_be_bytes]; [done |].
  rewrite Nat2Z.inj_succ, Z.pow_succ_r by lia. replace (k * (256 * 256 ^ Z.of_nat n)) with (k * 256 * 256 ^ Z.of_nat n) by lia.
  rewrite IH, Z.div_add by (apply Z.pow_nonzero; lia). by rewrite Z.mod_add.
Qed.

(** Bytes are the big-endian form of their value. *)
Lemma to_from_be_bytes b : bytes_ok b -> to_be_bytes (length b) (from_be_bytes b) = b.
Proof.
  induction 1 as [| x b Hx Hb IH]; [done |]. rewrite from_be_bytes_cons. cbn [length to_be_bytes].
  rewrite Z.add_comm. unfold zlen. rewrite to_be_bytes_add, IH. f_equal.
  pose proof (from_be_bytes_bound b Hb) as Hf. unfold zlen in Hf. rewrite Z.div_add by (apply Z.pow_nonzero; lia).
  rewrite Z.div_small, Z.add_0_l by done. by apply Z.mod_small.
Qed.

(** A field read at an offset is there in big-endian form. *)
Lemma be_u32_split buf at_ z :
  bytes_ok buf -> 0 <= at_ -> be_u32 buf at_ = Some z ->
  exists pre post, buf = pre ++ be32 z ++ post /\ zlen pre = at_.
Proof.
  unfold be_u32, array_at. intros Hb Ha. destruct (u_checked_add 64 at_ 4) as [e |] eqn:E; [| done].
  unfold u_checked_add in E. destruct (at_ + 4 <=? u_max 64); [| done]. injection E as <-.
  destruct ((at_ <=? at_ + 4) && (at_ + 4 <=? zlen buf))%bool eqn:Hc; [| done]. bool_to_prop. intros [= <-].
  exists (take (Z.to_nat at_) buf), (drop (Z.to_nat (at_ + 4)) buf).
  assert (length (slice buf at_ (at_ + 4)) = 4%nat) as Hl.
  { assert (zlen (slice buf at_ (at_ + 4)) = 4) as Hz by (rewrite zlen_slice; lia). unfold zlen in Hz. lia. }
  split; [| apply zlen_take; lia]. rewrite <- Hl at 1. rewrite to_from_be_bytes by by apply Forall_take, Forall_drop.
  unfold slice. replace (Z.to_nat (at_ + 4 - at_)) with 4%nat by lia. replace (Z.to_nat (at_ + 4)) with (4 + Z.to_nat at_)%nat by lia.
  rewrite Nat.add_comm, <- drop_drop, take_drop. by rewrite take_drop.
Qed.

Lemma as_chunks_concat_len (n : nat) (ls : list (list Z)) fuel :
  (0 < n)%nat -> Forall (fun x => length x = n) ls -> (length ls <= fuel)%nat -> as_chunks fuel n (concat ls) = ls.
Proof.
  intros Hn Hls. revert fuel. induction Hls as [| x ls Hx Hls IH]; intros fuel Hf.
  - destruct fuel; [done |]. cbn [as_chunks concat]. rewrite (proj2 (Nat.ltb_lt _ _)) by (simpl; lia). done.
  - destruct fuel as [| fuel]; [simpl in Hf; lia |]. cbn [as_chunks concat]. rewrite length_app, Hx.
    rewrite (proj2 (Nat.ltb_ge _ _)) by lia. rewrite take_app_length', drop_app_length' by done.
    f_equal. apply IH. simpl in Hf. lia.
Qed.

Lemma zlen_concat_len (n : Z) (ls : list (list Z)) : Forall (fun x => zlen x = n) ls -> zlen (concat ls) = n * zlen ls.
Proof. induction 1 as [| x ls Hx Hls IH]; [unfold zlen; simpl; lia |]. cbn [concat]. rewrite zlen_app, zlen_cons. lia. Qed.

Lemma as_chunks_each n fuel l :
  bytes_ok l ->
  Forall (fun c => length c = n /\ bytes_ok c) (as_chunks fuel n l) /\ (n * length (as_chunks fuel n l) <= length l)%nat.
Proof.
  intros Hb. revert l Hb. induction fuel as [| fuel IH]; intros l Hb; cbn [as_chunks]; [cbn; split; [done | lia] |].
  destruct (Nat.ltb_spec (length l) n); [cbn; split; [done | lia] |].
  destruct (IH (drop n l)) as [H1 H2]; [by apply Forall_drop |]. rewrite length_drop in H2. split.
  - constructor; [| done]. rewrite length_take. split; [lia | by apply Forall_take].
  - cbn [length]. lia.
Qed.

(** Whole chunks: nothing is left over. *)
Lemma concat_as_chunks n fuel l :
  (0 < n)%nat -> (length l <= n * fuel)%nat -> zlen l mod Z.of_nat n = 0 -> concat (as_chunks fuel n l) = l.
Proof.
  intros Hn. revert l. induction fuel as [| fuel IH]; intros l Hf Hm; cbn [as_chunks].
  - destruct l; [done |]. simpl in Hf. lia.
  - destruct (Nat.ltb_spec (length l) n) as [Hlt | Hge].
    + destruct l; [done |]. unfold zlen in Hm. rewrite Z.mod_small in Hm; simpl in *; lia.
    + cbn [concat]. rewrite IH; [apply take_drop | rewrite length_drop; lia |].
      unfold zlen in *. rewrite length_drop, Nat2Z.inj_sub by done.
      rewrite <- (Z.mod_add _ 1) by lia. replace (Z.of_nat (length l) - Z.of_nat n + 1 * Z.of_nat n) with (Z.of_nat (length l)) by lia. done.
Qed.

#[global] Opaque to_be_bytes from_be_bytes.
