(* ===== verification/BTree.v ===== *)
(** * Ordered maps

    The program keeps what must be iterated in key order in
    [std::collections::BTreeMap] (bencode dictionaries, the choker's peers).
    Such a map is modelled by the list of its entries in strictly increasing
    key order, which is what its iterators yield; equality of lists is then
    equality of maps. *)

From S2P Require Import Prelude.

(** ** Ordered keys: what [BTreeMap] requires of [K : Ord] *)

Class OrdKey (K : Type) := kcmp : K -> K -> comparison.

Class OrdKeyLaws (K : Type) `{OrdKey K} : Prop := {
  kcmp_eq_iff : forall x y, kcmp x y = Eq <-> x = y;
  kcmp_antisym : forall x y, kcmp y x = CompOpp (kcmp x y);
  kcmp_lt_trans : forall x y z, kcmp x y = Lt -> kcmp y z = Lt -> kcmp x z = Lt
}.

#[export] Instance ordkey_Z : OrdKey Z := Z.compare.
#[export] Instance ordkey_Z_laws : OrdKeyLaws Z.
Proof.
  split; unfold kcmp, ordkey_Z.
  - apply Z.compare_eq_iff.
  - intros. apply Z.compare_antisym.
  - intros x y z. rewrite !Z.compare_lt_iff. lia.
Qed.

(** [Vec<u8>] compares lexicographically. *)
Fixpoint lex_cmp (a b : list Z) : comparison :=
  match a, b with
  | [], [] => Eq
  | [], _ :: _ => Lt
  | _ :: _, [] => Gt
  | x :: a', y :: b' => match Z.compare x y with Eq => lex_cmp a' b' | c => c end
  end.

#[export] Instance ordkey_bytes : OrdKey (list Z) := lex_cmp.
#[export] Instance ordkey_bytes_laws : OrdKeyLaws (list Z).
Proof.
  split; unfold kcmp, ordkey_bytes.
  - intros a. induction a as [| x a IH]; intros [| y b]; simpl; [done.. |].
    destruct (Z.compare_spec x y) as [-> | |]; [rewrite IH | |]; split; intros; simplify_eq; done || lia.
  - intros a. induction a as [| x a IH]; intros [| y b]; simpl; [done.. |].
    rewrite (Z.compare_antisym x y). destruct (x ?= y); simpl; auto.
  - intros a. induction a as [| x a IH]; intros [| y b] [| z c]; simpl; [done.. |].
    destruct (Z.compare_spec x y), (Z.compare_spec y z), (Z.compare_spec x z);
      intros; subst; try done; try lia. by eapply IH.
Qed.

Section btree.
Context {K : Type} `{OrdKeyLaws K} {V : Type}.
Implicit Types (m : list (K * V)) (k : K) (v : V).

(** [map.get(k)]. *)
Fixpoint bt_get (m : list (K * V)) (k : K) : option V :=
  match m with
  | [] => None
  | (k', v) :: m' => match kcmp k k' with Eq => Some v | Lt => None | Gt => bt_get m' k end
  end.

(** [map.insert(k, v)]. *)
Fixpoint bt_insert (m : list (K * V)) (k : K) (v : V) : list (K * V) :=
  match m with
  | [] => [(k, v)]
  | (k', v') :: m' =>
      match kcmp k k' with
      | Lt => (k, v) :: m
      | Eq => (k, v) :: m'
      | Gt => (k', v') :: bt_insert m' k v
      end
  end.

(** [map.entry(k).or_insert(v)]: an entry already there is kept. *)
Definition bt_or_insert (m : list (K * V)) (k : K) (v : V) : list (K * V) :=
  match bt_get m k with
  | Some _ => m
  | None => bt_insert m k v
  end.

(** [map.remove(k)], the map that is left. *)
Fixpoint bt_remove (m : list (K * V)) (k : K) : list (K * V) :=
  match m with
  | [] => []
  | (k', v') :: m' =>
      match kcmp k k' with
      | Lt => m
      | Eq => m'
      | Gt => (k', v') :: bt_remove m' k
      end
  end.

(** [if let Some(v) = map.get_mut(k) { *v = f(v) }]. *)
Fixpoint bt_alter (f : V -> V) (m : list (K * V)) (k : K) : list (K * V) :=
  match m with
  | [] => []
  | (k', v') :: m' =>
      match kcmp k k' with
      | Lt => m
      | Eq => (k', f v') :: m'
      | Gt => (k', v') :: bt_alter f m' k
      end
  end.

(** The invariant of the representation: keys strictly increase. *)
Fixpoint bt_sorted (m : list (K * V)) : Prop :=
  match m with
  | [] => True
  | (k, _) :: m' => Forall (fun e => kcmp k e.1 = Lt) m' /\ bt_sorted m'
  end.

(** ** Order facts *)

Lemma kcmp_refl k : kcmp k k = Eq.
Proof. by apply kcmp_eq_iff. Qed.

Lemma kcmp_gt_lt k1 k2 : kcmp k1 k2 = Gt <-> kcmp k2 k1 = Lt.
Proof. rewrite (kcmp_antisym k1 k2). destruct (kcmp k1 k2); done. Qed.

Lemma kcmp_lt_ne k1 k2 : kcmp k1 k2 = Lt -> k1 <> k2.
Proof. intros Hlt ->. rewrite kcmp_refl in Hlt. done. Qed.

(** [kcmp_cases a b] splits on the order of two keys, replacing equal ones. *)
Ltac kcmp_cases a b :=
  let E := fresh "Hcmp" in
  destruct (kcmp a b) eqn:E;
  [apply kcmp_eq_iff in E; subst | | apply kcmp_gt_lt in E].

(** ** Invariant preservation *)

Lemma bt_insert_Forall (P : K * V -> Prop) m k v :
  P (k, v) -> Forall P m -> Forall P (bt_insert m k v).
Proof.
  intros Hk Hm. induction Hm as [| [k' v'] m Hk' Hm IH]; simpl; [by constructor |].
  destruct (kcmp k k'); by repeat constructor.
Qed.

Lemma bt_insert_sorted m k v : bt_sorted m -> bt_sorted (bt_insert m k v).
Proof.
  induction m as [| [k' v'] m IH]; simpl; [by repeat constructor |].
  intros [Hk' Hm]. kcmp_cases k k'; simpl.
  - done.
  - split; [| done]. constructor; [done |].
    eapply Forall_impl; [exact Hk' |]. intros [] ?. by eapply kcmp_lt_trans.
  - split; [by apply bt_insert_Forall | auto].
Qed.

Lemma bt_or_insert_sorted m k v : bt_sorted m -> bt_sorted (bt_or_insert m k v).
Proof. unfold bt_or_insert. destruct (bt_get m k); auto using bt_insert_sorted. Qed.

Lemma bt_remove_Forall (P : K * V -> Prop) m k : Forall P m -> Forall P (bt_remove m k).
Proof.
  intros Hm. induction Hm as [| [k' v'] m Hk' Hm IH]; simpl; [done |].
  destruct (kcmp k k'); [done | by constructor | by constructor].
Qed.

Lemma bt_remove_sorted m k : bt_sorted m -> bt_sorted (bt_remove m k).
Proof.
  induction m as [| [k' v'] m IH]; simpl; [done |]. intros [Hk' Hm].
  destruct (kcmp k k'); simpl; auto using bt_remove_Forall.
Qed.

Lemma bt_alter_keys f m k : (bt_alter f m k).*1 = m.*1.
Proof.
  induction m as [| [k' v'] m IH]; simpl; [done |].
  destruct (kcmp k k'); simpl; by f_equal.
Qed.

(** Sortedness is a property of the key sequence. *)
Lemma bt_sorted_keys m m' : m.*1 = m'.*1 -> bt_sorted m -> bt_sorted m'.
Proof.
  revert m'. induction m as [| [k v] m IH]; intros [| [k' v'] m']; simpl; [done.. |].
  intros [= <- Hk] [Hall Hs]. split; [| by apply IH].
  change (Forall ((fun x => kcmp k x = Lt) ∘ fst) m) in Hall.
  change (Forall ((fun x => kcmp k x = Lt) ∘ fst) m').
  apply Forall_fmap. apply Forall_fmap in Hall. assert (m.*1 = m'.*1) as <- by exact Hk. done.
Qed.

Lemma bt_alter_sorted f m k : bt_sorted m -> bt_sorted (bt_alter f m k).
Proof. intros. apply (bt_sorted_keys m); [by rewrite bt_alter_keys | done]. Qed.

(** ** Lookup laws *)

Lemma bt_get_above m k : Forall (fun e => kcmp k e.1 = Lt) m -> bt_get m k = None.
Proof. destruct 1 as [| [k' v'] m Hk]; simpl in *; [done | by rewrite Hk]. Qed.

Lemma bt_sorted_get_None m k : bt_sorted m -> bt_get m k = None <-> k ∉ m.*1.
Proof.
  induction m as [| [k' v'] m IH]; simpl; [set_solver |]. intros [Hk' Hm].
  rewrite not_elem_of_cons. kcmp_cases k k'.
  - naive_solver.
  - split; [| done]. intros _. split; [by apply kcmp_lt_ne |].
    intros [[k2 v2] [-> Hin]]%list_elem_of_fmap. rewrite Forall_forall in Hk'.
    specialize (Hk' _ Hin). simpl in *.
    pose proof (kcmp_lt_trans _ _ _ Hcmp Hk') as Hx. by rewrite kcmp_refl in Hx.
  - rewrite IH by done. apply kcmp_lt_ne in Hcmp. naive_solver.
Qed.

Lemma bt_get_elem m k v : bt_sorted m -> bt_get m k = Some v <-> (k, v) ∈ m.
Proof.
  induction m as [| [k' v'] m IH]; simpl; [set_solver |]. intros [Hk' Hm].
  rewrite elem_of_cons. kcmp_cases k k'.
  - split; [naive_solver |]. intros [[= ->] | Hin]; [done |].
    rewrite Forall_forall in Hk'. apply Hk' in Hin. simpl in Hin. by rewrite kcmp_refl in Hin.
  - split; [done |]. intros [[= -> ->] | Hin]; [by rewrite kcmp_refl in Hcmp |].
    rewrite Forall_forall in Hk'. apply Hk' in Hin. simpl in Hin.
    pose proof (kcmp_lt_trans _ _ _ Hcmp Hin) as Hx. by rewrite kcmp_refl in Hx.
  - rewrite IH by done. split; [naive_solver |].
    intros [[= -> ->] | Hin]; [by rewrite kcmp_refl in Hcmp | done].
Qed.

Lemma bt_get_insert_eq m k v : bt_get (bt_insert m k v) k = Some v.
Proof.
  induction m as [| [k' v'] m IH]; simpl; [by rewrite kcmp_refl |].
  destruct (kcmp k k') eqn:E; simpl; rewrite ?kcmp_refl, ?E; done.
Qed.

Lemma bt_get_insert_ne m k k2 v : bt_sorted m -> k <> k2 -> bt_get (bt_insert m k v) k2 = bt_get m k2.
Proof.
  intros Hs Hne. induction m as [| [k' v'] m IH]; simpl.
  - kcmp_cases k2 k; done || (simpl; by rewrite ?(proj2 (kcmp_gt_lt _ _) Hcmp)).
  - destruct Hs as [Hk' Hm]. kcmp_cases k k'; simpl.
    + kcmp_cases k2 k'; done.
    + kcmp_cases k2 k; [done | | done].
      pose proof (kcmp_lt_trans _ _ _ Hcmp0 Hcmp) as Hx. by rewrite Hx.
    + destruct (kcmp k2 k'); auto.
Qed.

Lemma bt_get_or_insert m k k2 v :
  bt_sorted m ->
  bt_get (bt_or_insert m k v) k2 =
    match bt_get m k2 with
    | Some w => Some w
    | None => match kcmp k k2 with Eq => Some v | _ => None end
    end.
Proof.
  intros Hs. unfold bt_or_insert. destruct (kcmp k k2) eqn:E.
  - apply kcmp_eq_iff in E as <-. destruct (bt_get m k) eqn:Eg; [by rewrite Eg |].
    apply bt_get_insert_eq.
  - assert (k <> k2) by (by apply kcmp_lt_ne).
    destruct (bt_get m k); rewrite ?bt_get_insert_ne by done; by destruct (bt_get m k2).
  - assert (k <> k2) by (intros ->; by rewrite kcmp_refl in E).
    destruct (bt_get m k); rewrite ?bt_get_insert_ne by done; by destruct (bt_get m k2).
Qed.

Lemma bt_get_remove_eq m k : bt_sorted m -> bt_get (bt_remove m k) k = None.
Proof.
  induction m as [| [k' v'] m IH]; simpl; [done |]. intros [Hk' Hm].
  destruct (kcmp k k') eqn:E; simpl; rewrite ?E; [| done | auto].
  apply kcmp_eq_iff in E as ->. by apply bt_get_above.
Qed.

Lemma bt_get_remove_ne m k k2 : bt_sorted m -> k <> k2 -> bt_get (bt_remove m k) k2 = bt_get m k2.
Proof.
  intros Hs Hne. induction m as [| [k' v'] m IH]; simpl; [done |].
  destruct Hs as [Hk' Hm]. kcmp_cases k k'; simpl; [| done |].
  - kcmp_cases k2 k'; [done | | done]. apply bt_get_above.
    eapply Forall_impl; [exact Hk' |]. intros [] ?. by eapply kcmp_lt_trans.
  - destruct (kcmp k2 k'); auto.
Qed.

Lemma bt_get_alter f m k k2 :
  bt_get (bt_alter f m k) k2 = match kcmp k k2 with Eq => f <$> bt_get m k2 | _ => bt_get m k2 end.
Proof.
  induction m as [| [k' v'] m IH]; simpl; [by destruct (kcmp k k2) |].
  kcmp_cases k k'; simpl.
  - kcmp_cases k' k2.
    + by rewrite kcmp_refl.
    + by rewrite (proj2 (kcmp_gt_lt _ _) Hcmp).
    + by rewrite Hcmp.
  - kcmp_cases k k2; [by rewrite Hcmp | done..].
  - kcmp_cases k k2; [| destruct (kcmp k2 k'); auto..].
    by rewrite IH, (proj2 (kcmp_gt_lt _ _) Hcmp).
Qed.

(** A new largest key goes at the end. *)
Lemma bt_insert_snoc m k v :
  Forall (fun e => kcmp e.1 k = Lt) m -> bt_insert m k v = m ++ [(k, v)].
Proof.
  induction 1 as [| [k' v'] m Hk' Hm IH]; simpl in *; [done |].
  rewrite (proj2 (kcmp_gt_lt _ _) Hk'). by f_equal.
Qed.

Lemma bt_get_below m k : Forall (fun e => kcmp e.1 k = Lt) m -> bt_get m k = None.
Proof.
  induction 1 as [| [k' v'] m Hk' Hm IH]; simpl in *; [done |].
  by rewrite (proj2 (kcmp_gt_lt _ _) Hk').
Qed.

Lemma bt_or_insert_snoc m k v :
  Forall (fun e => kcmp e.1 k = Lt) m -> bt_or_insert m k v = m ++ [(k, v)].
Proof. intros. unfold bt_or_insert. rewrite bt_get_below by done. by apply bt_insert_snoc. Qed.

Lemma bt_sorted_snoc m k v :
  bt_sorted (m ++ [(k, v)]) <-> bt_sorted m /\ Forall (fun e => kcmp e.1 k = Lt) m.
Proof.
  induction m as [| [k' v'] m IH]; simpl; [naive_solver |].
  rewrite IH, Forall_app, Forall_singleton, Forall_cons. naive_solver.
Qed.

Lemma bt_sorted_app_cons m k v m' :
  bt_sorted (m ++ (k, v) :: m') ->
  bt_sorted m /\ Forall (fun e => kcmp e.1 k = Lt) m /\ bt_sorted ((k, v) :: m').
Proof.
  induction m as [| [k' v'] m IH]; simpl; [naive_solver |].
  rewrite Forall_app, !Forall_cons. naive_solver.
Qed.

Lemma bt_sorted_nodup m : bt_sorted m -> NoDup m.*1.
Proof.
  induction m as [| [k v] m IH]; simpl; [constructor |]. intros [Hk Hm]. constructor; [| auto].
  intros (e & -> & He)%list_elem_of_fmap. pose proof (proj1 (Forall_forall _ _) Hk e He) as Hlt.
  by apply kcmp_lt_ne in Hlt.
Qed.

(** How many entries satisfy a test. *)
Definition bt_count (P : V -> bool) m : nat := length (filter (fun e => P e.2 = true) m).

Lemma bt_count_cons P k v m : bt_count P ((k, v) :: m) = ((if P v then 1 else 0) + bt_count P m)%nat.
Proof.
  unfold bt_count. rewrite filter_cons. simpl. destruct (P v) eqn:E.
  - by rewrite decide_True.
  - by rewrite decide_False.
Qed.

Lemma bt_count_insert P m k v : P v = false -> (bt_count P (bt_insert m k v) <= bt_count P m)%nat.
Proof.
  intros Hv. induction m as [| [k' v'] m IH]; simpl; [rewrite bt_count_cons, Hv; lia |].
  destruct (kcmp k k'); rewrite !bt_count_cons, ?Hv; lia.
Qed.

Lemma bt_count_remove P m k : (bt_count P (bt_remove m k) <= bt_count P m)%nat.
Proof.
  induction m as [| [k' v'] m IH]; simpl; [done |].
  destruct (kcmp k k'); rewrite ?bt_count_cons; lia.
Qed.

Lemma bt_count_alter_le P f m k :
  (forall v, P (f v) = true -> P v = true) -> (bt_count P (bt_alter f m k) <= bt_count P m)%nat.
Proof.
  intros Hf. induction m as [| [k' v'] m IH]; simpl; [done |]. specialize (Hf v').
  destruct (kcmp k k'); rewrite !bt_count_cons; [| lia.. ].
  destruct (P (f v')) eqn:E; [rewrite Hf by done; lia | destruct (P v'); lia].
Qed.

Lemma bt_count_alter_S P f m k : (bt_count P (bt_alter f m k) <= S (bt_count P m))%nat.
Proof.
  induction m as [| [k' v'] m IH]; simpl; [lia |].
  destruct (kcmp k k'); rewrite !bt_count_cons; [| lia.. ]. destruct (P (f v')), (P v'); lia.
Qed.

Lemma bt_alter_Forall (P : K * V -> Prop) f m k :
  (forall e, P e -> P (e.1, f e.2)) -> Forall P m -> Forall P (bt_alter f m k).
Proof.
  intros Hf Hm. induction Hm as [| [k' v'] m Hk' Hm IH]; simpl; [done |].
  destruct (kcmp k k'); constructor; auto. apply (Hf (k', v') Hk').
Qed.

(** Alters that only touch the entry of [k], known to be [v]. *)
Lemma bt_alter_at_Forall (P : K * V -> Prop) f m k v :
  bt_get m k = Some v -> P (k, f v) -> Forall P m -> Forall P (bt_alter f m k).
Proof.
  intros Hget Hf Hm. induction Hm as [| [k' v'] m Hk' Hm IH]; simpl in *; [done |].
  kcmp_cases k k'; try (by constructor; auto). injection Hget as ->. by constructor.
Qed.
End btree.

#[export] Hint Resolve bt_insert_sorted bt_or_insert_sorted bt_remove_sorted bt_alter_sorted : core.
