(* ===== verification/Numeral.v ===== *)
(** * Decimal numerals

    What the standard library does when the code says [n.to_string()] and
    [s.parse::<i64>()], and the ASCII classes the parsers test.  Used by the
    bencode codec and by every textual format of the program. *)

From S2P Require Import Prelude.

(** [u8::is_ascii_digit]. *)
Definition is_ascii_digit (b : Z) : bool := (48 <=? b) && (b <=? 57).

(** Decimal digits of a non-negative integer, most significant first.  The
    fuel bounds the number of digits; [u_to_string] gives it the number of
    bits, which is never less. *)
Fixpoint print_digits (fuel : nat) (z : Z) : list Z :=
  match fuel with
  | O => [48 + z mod 10]
  | S fuel' =>
      if z <? 10 then [48 + z] else print_digits fuel' (z / 10) ++ [48 + z mod 10]
  end.

Definition u_to_string (z : Z) : list Z := print_digits (Z.to_nat (Z.log2 z)) z.

(** [i64::to_string]. *)
Definition i64_to_string (z : Z) : list Z :=
  if z <? 0 then 45 :: u_to_string (- z) else u_to_string z.

(** The value of a digit string. *)
Definition digits_value (ds : list Z) : Z := fold_left (fun acc d => acc * 10 + (d - 48)) ds 0.

Definition parse_digits (ds : list Z) : option Z :=
  match ds with
  | [] => None
  | _ => if forallb is_ascii_digit ds then Some (digits_value ds) else None
  end.

(** [str::parse::<i64>]: an optional sign, at least one digit, and a value in
    range. *)
Definition parse_i64 (s : list Z) : option Z :=
  let parsed :=
    match s with
    | c :: rest =>
        if c =? 45 then Z.opp <$> parse_digits rest
        else if c =? 43 then parse_digits rest
        else parse_digits s
    | [] => None
    end in
  match parsed with
  | Some z => if (i64_min <=? z) && (z <=? i64_max) then Some z else None
  | None => None
  end.

(** A digit string with no superfluous zero: what [u_to_string] prints. *)
Definition canonical (ds : list Z) : Prop :=
  ds <> [] /\ Forall (fun d => is_ascii_digit d = true) ds /\
  (forall r, ds = 48 :: r -> r = []).

(** ** Lemmas *)

Lemma is_ascii_digit_iff b : is_ascii_digit b = true <-> 48 <= b <= 57.
Proof. unfold is_ascii_digit. rewrite andb_true_iff, !Z.leb_le. done. Qed.

Lemma digits_value_snoc ds d : digits_value (ds ++ [d]) = digits_value ds * 10 + (d - 48).
Proof. unfold digits_value. by rewrite fold_left_app. Qed.

Lemma digits_value_nonneg ds : Forall (fun d => is_ascii_digit d = true) ds -> 0 <= digits_value ds.
Proof.
  induction ds as [| d ds IH] using rev_ind; [done |].
  rewrite Forall_app, Forall_singleton, is_ascii_digit_iff, digits_value_snoc. intros [? ?].
  specialize (IH H). lia.
Qed.

Lemma print_digits_fuel f1 f2 z :
  0 <= z < 2 ^ Z.of_nat (S f1) -> z < 2 ^ Z.of_nat (S f2) -> print_digits f1 z = print_digits f2 z.
Proof.
  revert f2 z. induction f1 as [| f1 IH]; intros f2 z Hz Hz2.
  - change (2 ^ Z.of_nat 1) with 2 in Hz. destruct f2; simpl; [done |].
    rewrite (proj2 (Z.ltb_lt _ _)), Z.mod_small by lia. done.
  - destruct f2 as [| f2].
    + change (2 ^ Z.of_nat 1) with 2 in Hz2. simpl.
      rewrite (proj2 (Z.ltb_lt _ _)), Z.mod_small by lia. done.
    + simpl. destruct (Z.ltb_spec z 10); [done |].
      rewrite (Nat2Z.inj_succ (S f1)), Z.pow_succ_r in Hz by lia.
      rewrite (Nat2Z.inj_succ (S f2)), Z.pow_succ_r in Hz2 by lia.
      f_equal. apply IH; [split; [apply Z.div_pos; lia |]|]; apply Z.div_lt_upper_bound; lia.
Qed.

Lemma u_to_string_eq z : 0 <= z ->
  u_to_string z = if z <? 10 then [48 + z] else u_to_string (z / 10) ++ [48 + z mod 10].
Proof.
  intros Hz. unfold u_to_string.
  assert (forall x, 0 <= x -> x < 2 ^ Z.of_nat (S (Z.to_nat (Z.log2 x)))) as Hlog.
  { intros x ?. rewrite Nat2Z.inj_succ, Z2Nat.id by apply Z.log2_nonneg.
    destruct (Z.eq_dec x 0) as [-> |]; [done |]. apply Z.log2_spec. lia. }
  rewrite (print_digits_fuel _ (S (Z.to_nat (Z.log2 z)))); [| by auto |].
  - simpl. destruct (Z.ltb_spec z 10); [done |]. f_equal.
    assert (0 <= z / 10) by (apply Z.div_pos; lia).
    apply print_digits_fuel; [| by auto]. split; [done |].
    apply Z.div_lt_upper_bound; [lia |]. specialize (Hlog z Hz). lia.
  - specialize (Hlog z Hz). rewrite Nat2Z.inj_succ, Z.pow_succ_r by lia. lia.
Qed.

(** Strong induction on the number of decimal digits. *)
Lemma decimal_ind (P : Z -> Prop) :
  (forall z, 0 <= z < 10 -> P z) ->
  (forall z, 10 <= z -> P (z / 10) -> P z) ->
  forall z, 0 <= z -> P z.
Proof.
  intros Hsmall Hstep z Hz. revert z Hz. apply (Zlt_0_ind P). intros z IH Hz.
  destruct (Z_lt_ge_dec z 10); [by apply Hsmall |].
  apply Hstep; [lia |]. apply IH. split; [apply Z.div_pos; lia |]. apply Z.div_lt; lia.
Qed.

Lemma u_to_string_value z : 0 <= z -> digits_value (u_to_string z) = z.
Proof.
  revert z. apply decimal_ind; intros z Hz.
  - rewrite u_to_string_eq by lia. rewrite (proj2 (Z.ltb_lt _ _)) by lia.
    unfold digits_value. simpl. lia.
  - intros IH. rewrite u_to_string_eq by lia. rewrite (proj2 (Z.ltb_ge _ _)) by lia.
    rewrite digits_value_snoc, IH. pose proof (Z.div_mod z 10). lia.
Qed.

Lemma canonical_snoc ds d :
  canonical ds -> ds <> [48] -> is_ascii_digit d = true -> canonical (ds ++ [d]).
Proof.
  intros (Hne & Hall & H0) Hnz Hd. split; [by destruct ds |]. split.
  - by apply Forall_app_2, Forall_singleton.
  - intros r. destruct ds as [| x ds]; [done |]. intros [= -> Hr].
    destruct (H0 ds); [done |]. done.
Qed.

Lemma u_to_string_canonical z : 0 <= z -> canonical (u_to_string z).
Proof.
  revert z. apply decimal_ind; intros z Hz.
  - rewrite u_to_string_eq by lia. rewrite (proj2 (Z.ltb_lt _ _)) by lia.
    split; [done |]. split; [| by intros r [= _ <-]].
    apply Forall_singleton, is_ascii_digit_iff. lia.
  - intros IH. rewrite u_to_string_eq by lia. rewrite (proj2 (Z.ltb_ge _ _)) by lia.
    apply canonical_snoc; [done | |].
    + intros E. pose proof (u_to_string_value (z / 10)) as Hv. rewrite E in Hv.
      unfold digits_value in Hv. simpl in Hv.
      assert (1 <= z / 10) by (apply Z.div_le_lower_bound; lia). lia.
    + apply is_ascii_digit_iff. pose proof (Z.mod_pos_bound z 10). lia.
Qed.

Lemma canonical_positive ds : canonical ds -> ds <> [48] -> 1 <= digits_value ds.
Proof.
  induction ds as [| d ds IH] using rev_ind; intros (Hne & Hall & H0) Hnz; [done |].
  apply Forall_app in Hall as [Hds Hd]. apply Forall_singleton, is_ascii_digit_iff in Hd.
  rewrite digits_value_snoc. destruct ds as [| x ds].
  - unfold digits_value. simpl. destruct (decide (d = 48)) as [-> |]; [done | lia].
  - assert (x <> 48) by (intros ->; specialize (H0 (ds ++ [d]) eq_refl); by destruct ds).
    assert (1 <= digits_value (x :: ds)); [| lia]. apply IH; [| congruence].
    split; [done |]. split; [done |]. intros r [= -> ->]. done.
Qed.

Lemma u_to_string_of_value ds : canonical ds -> u_to_string (digits_value ds) = ds.
Proof.
  induction ds as [| d ds IH] using rev_ind; intros (Hne & Hall & H0); [done |].
  pose proof Hall as Hall'.
  apply Forall_app in Hall as [Hds Hd]. apply Forall_singleton, is_ascii_digit_iff in Hd.
  rewrite u_to_string_eq by (by apply digits_value_nonneg).
  rewrite digits_value_snoc. destruct ds as [| x ds].
  - unfold digits_value. simpl. rewrite (proj2 (Z.ltb_lt _ _)) by lia. f_equal. lia.
  - assert (x <> 48) by (intros ->; specialize (H0 (ds ++ [d]) eq_refl); by destruct ds).
    assert (canonical (x :: ds)) as Hc.
    { split; [done |]. split; [done |]. intros r [= -> ->]. done. }
    assert (1 <= digits_value (x :: ds)) by (apply canonical_positive; [done | congruence]).
    rewrite (proj2 (Z.ltb_ge _ _)) by lia.
    rewrite (Z.mul_comm _ 10), Z.add_comm, Z.mul_comm.
    rewrite Z.div_add, (Z.div_small (d - 48)), Z.add_0_l, IH by (lia || done).
    rewrite Z.add_comm, Z.mod_add, Z.mod_small by lia. do 2 f_equal. lia.
Qed.

Lemma parse_digits_canonical ds : canonical ds -> parse_digits ds = Some (digits_value ds).
Proof.
  intros (Hne & Hall & _). unfold parse_digits. destruct ds as [| d ds]; [done |].
  assert (forallb is_ascii_digit (d :: ds) = true) as ->; [| done].
  apply forallb_forall. intros x Hx%list_elem_of_In. rewrite Forall_forall in Hall. auto.
Qed.

Lemma canonical_head ds : canonical ds ->
  exists d r, ds = d :: r /\ is_ascii_digit d = true.
Proof.
  intros (Hne & Hall & _). destruct ds as [| d r]; [done |].
  apply Forall_cons in Hall as [? _]. eauto.
Qed.

Lemma parse_i64_to_string z : i64_ok z -> parse_i64 (i64_to_string z) = Some z.
Proof.
  intros Hz. unfold parse_i64, i64_to_string, i64_ok in *.
  assert (forall x, (if (i64_min <=? x) && (x <=? i64_max) then Some x else None) = Some x
    \/ ~ (i64_min <= x <= i64_max)) as Hrange.
  { intros x. destruct (Z.leb_spec i64_min x), (Z.leb_spec x i64_max); simpl; auto; right; lia. }
  destruct (Z.ltb_spec z 0).
  - simpl. rewrite parse_digits_canonical, u_to_string_value by (try apply u_to_string_canonical; lia).
    simpl. rewrite Z.opp_involutive. by destruct (Hrange z).
  - pose proof (u_to_string_canonical z ltac:(lia)) as Hc.
    pose proof (canonical_head _ Hc) as (d & r & Hdr & Hd). rewrite Hdr in *.
    apply is_ascii_digit_iff in Hd.
    rewrite !(proj2 (Z.eqb_neq _ _)) by lia.
    rewrite parse_digits_canonical by done. rewrite <- Hdr, u_to_string_value by lia.
    by destruct (Hrange z).
Qed.

(** A parsed number is in range, and is what its sign and digits say. *)
Lemma parse_i64_Some s z :
  parse_i64 s = Some z ->
  i64_ok z /\
  match s with
  | c :: rest =>
      if c =? 45 then Z.opp <$> parse_digits rest
      else if c =? 43 then parse_digits rest
      else parse_digits s
  | [] => None
  end = Some z.
Proof.
  unfold parse_i64. intros Hz.
  destruct (match s with [] => None | _ => _ end) as [y |]; [| done].
  destruct (Z.leb_spec i64_min y), (Z.leb_spec y i64_max); simplify_eq/=. unfold i64_ok. done.
Qed.

(** A 64-bit number prints in at most 65 characters (in fact 20). *)
Lemma print_digits_length fuel z : (length (print_digits fuel z) <= S fuel)%nat.
Proof.
  revert z. induction fuel as [| fuel IH]; intros z; cbn [print_digits]; [done |].
  destruct (z <? 10); [simpl; lia |]. rewrite length_app. specialize (IH (z / 10)). simpl. lia.
Qed.

Lemma u_to_string_length z : z < 2 ^ 64 -> zlen (u_to_string z) <= 64.
Proof.
  intros Hz. unfold u_to_string, zlen. pose proof (print_digits_length (Z.to_nat (Z.log2 z)) z) as H.
  assert (Z.log2 z < 64); [| lia]. destruct (Z.le_gt_cases z 0); [rewrite Z.log2_nonpos by lia; lia |].
  apply Z.log2_lt_pow2; lia.
Qed.

Lemma i64_to_string_length z : i64_ok z -> zlen (i64_to_string z) <= 65.
Proof.
  unfold i64_ok, i64_min, i64_max, i64_to_string. intros Hz. destruct (z <? 0).
  - rewrite zlen_cons. pose proof (u_to_string_length (- z)). lia.
  - pose proof (u_to_string_length z). lia.
Qed.
