(* ===== verification/Text.v ===== *)
(** * Text

    What the code uses of [str] when it reads text: prefixes, searching and
    splitting, white space, lines, numbers, IPv4 literals.  A string is its
    UTF-8 bytes ([Str]); the separators the code looks for are ASCII, so that
    working on bytes and on characters is the same. *)

From S2P Require Import Prelude Str Numeral.

(** [str::strip_prefix] and [str::starts_with]. *)
Fixpoint strip_prefix (p s : list Z) : option (list Z) :=
  match p, s with
  | [], _ => Some s
  | x :: p', y :: s' => if x =? y then strip_prefix p' s' else None
  | _ :: _, [] => None
  end.

Definition starts_with (p s : list Z) : bool := match strip_prefix p s with Some _ => true | None => false end.

(** [str::find] of a string, and [windows(n).position(|w| w == p)]. *)
Fixpoint find_sub (p s : list Z) : option nat :=
  if starts_with p s then Some O
  else match s with [] => None | _ :: s' => S <$> find_sub p s' end.

Definition contains (p s : list Z) : bool := match find_sub p s with Some _ => true | None => false end.

(** [str::find] of a character that satisfies a predicate. *)
Fixpoint find_byte (f : Z -> bool) (s : list Z) : option nat :=
  match s with
  | [] => None
  | b :: s' => if f b then Some O else S <$> find_byte f s'
  end.

(** [str::rfind] of an ASCII character. *)
Fixpoint rfind_byte (c : Z) (s : list Z) : option nat :=
  match s with
  | [] => None
  | b :: s' => match rfind_byte c s' with Some i => Some (S i) | None => if b =? c then Some O else None end
  end.

(** [str::split_once] and [str::rsplit_once]. *)
Definition split_once (p s : list Z) : option (list Z * list Z) :=
  i ← find_sub p s; Some (take i s, drop (i + length p) s).

Definition rsplit_once (c : Z) (s : list Z) : option (list Z * list Z) :=
  i ← rfind_byte c s; Some (take i s, drop (S i) s).

(** [str::split] of an ASCII character: always at least one part. *)
Fixpoint split_on (c : Z) (s : list Z) : list (list Z) :=
  match s with
  | [] => [[]]
  | b :: s' =>
      if b =? c then [] :: split_on c s'
      else match split_on c s' with part :: parts => (b :: part) :: parts | [] => [[b]] end
  end.

(** ** White space *)

(** How many bytes of white space ([char::is_whitespace]) a string begins
    with, at most one character's. *)
Definition ws_len (s : list Z) : nat :=
  match s with
  | b :: r =>
      if ((9 <=? b) && (b <=? 13)) || (b =? 32) then 1%nat
      else match r with
           | c :: r' =>
               if (b =? 194) && ((c =? 133) || (c =? 160)) then 2%nat
               else match r' with
                    | d :: _ =>
                        if ((b =? 225) && (c =? 154) && (d =? 128))
                           || ((b =? 226) && (c =? 128) && (((128 <=? d) && (d <=? 138)) || (d =? 168) || (d =? 169) || (d =? 175)))
                           || ((b =? 226) && (c =? 129) && (d =? 159)) || ((b =? 227) && (c =? 128) && (d =? 128))
                        then 3%nat else 0%nat
                    | [] => 0%nat
                    end
           | [] => 0%nat
           end
  | [] => 0%nat
  end.

(** The same at the end of a string, given reversed. *)
Definition ws_len_rev (s : list Z) : nat :=
  if (ws_len (reverse (take 1 s)) =? 1)%nat then 1%nat
  else if (ws_len (reverse (take 2 s)) =? 2)%nat then 2%nat
  else if (ws_len (reverse (take 3 s)) =? 3)%nat then 3%nat
  else 0%nat.

Fixpoint trim_by (len : list Z -> nat) (fuel : nat) (s : list Z) : list Z :=
  match fuel, len s with
  | S fuel', S n => trim_by len fuel' (drop (S n) s)
  | _, _ => s
  end.

(** [str::trim]. *)
Definition trim_start (s : list Z) : list Z := trim_by ws_len (length s) s.
Definition trim_end (s : list Z) : list Z := reverse (trim_by ws_len_rev (length s) (reverse s)).
Definition trim (s : list Z) : list Z := trim_end (trim_start s).

(** [str::split_whitespace]. *)
Fixpoint split_ws (fuel : nat) (word s : list Z) : list (list Z) :=
  let done := match word with [] => [] | _ => [reverse word] end in
  match fuel, s with
  | S fuel', b :: r =>
      match ws_len s with
      | O => split_ws fuel' (b :: word) r
      | S n => done ++ split_ws fuel' [] (drop (S n) s)
      end
  | _, _ => done
  end.

Definition split_whitespace (s : list Z) : list (list Z) := split_ws (length s) [] s.

(** ** Lines *)

Definition strip_cr (s : list Z) : list Z :=
  match last s with Some 13 => take (length s - 1) s | _ => s end.

(** [str::lines]: parts that end in a line feed, without it or the carriage
    return before it, and what is left after the last. *)
Fixpoint lines_of (parts : list (list Z)) : list (list Z) :=
  match parts with
  | [] => []
  | [part] => match part with [] => [] | _ => [part] end
  | part :: parts' => strip_cr part :: lines_of parts'
  end.

Definition lines (s : list Z) : list (list Z) := lines_of (split_on 10 s).

(** ** Characters *)

Definition to_ascii_lowercase (s : list Z) : list Z := (fun b => if (65 <=? b) && (b <=? 90) then b + 32 else b) <$> s.

Definition eq_ignore_ascii_case (a b : list Z) : bool := bool_decide (to_ascii_lowercase a = to_ascii_lowercase b).

Definition is_ascii_alphanumeric (b : Z) : bool :=
  is_ascii_digit b || ((65 <=? b) && (b <=? 90)) || ((97 <=? b) && (b <=? 122)).

(** ** Numbers *)

(** [str::parse] for an unsigned type of [w] bits. *)
Definition parse_u (w : Z) (s : list Z) : option Z :=
  let digits := match s with 43 :: r => r | _ => s end in
  match parse_digits digits with
  | Some z => if z <=? u_max w then Some z else None
  | None => None
  end.

Definition hex_value (b : Z) : option Z :=
  if is_ascii_digit b then Some (b - 48)
  else if (97 <=? b) && (b <=? 102) then Some (b - 87)
  else if (65 <=? b) && (b <=? 70) then Some (b - 55)
  else None.

Fixpoint hex_digits (acc : Z) (s : list Z) : option Z :=
  match s with
  | [] => Some acc
  | b :: r => match hex_value b with Some d => hex_digits (acc * 16 + d) r | None => None end
  end.

(** [from_str_radix(s, 16)] for an unsigned type of [w] bits. *)
Definition parse_hex (w : Z) (s : list Z) : option Z :=
  let digits := match s with 43 :: r => r | _ => s end in
  match digits with
  | [] => None
  | _ => match hex_digits 0 digits with Some z => if z <=? u_max w then Some z else None | None => None end
  end.

(** [str::parse::<Ipv4Addr>]: four decimal octets of at most three digits with
    no leading zero. *)
Definition parse_octet (s : list Z) : option Z :=
  if (length s <=? 3)%nat && forallb is_ascii_digit s && negb (match s with 48 :: _ :: _ => true | _ => false end)
  then match parse_digits s with Some z => if z <=? 255 then Some z else None | None => None end
  else None.

Definition parse_ipv4 (s : list Z) : option (list Z) :=
  match split_on 46 s with
  | [a; b; c; d] => x ← parse_octet a; y ← parse_octet b; z ← parse_octet c; w ← parse_octet d; Some [x; y; z; w]
  | _ => None
  end.

(** [{:02x}] and [{:02X}] of a byte. *)
Definition hex_upper (d : Z) : Z := if d <? 10 then 48 + d else 55 + d.

(** ** Lemmas *)

Lemma strip_prefix_app p s : strip_prefix p (p ++ s) = Some s.
Proof. induction p as [| x p IH]; [done |]. cbn. by rewrite Z.eqb_refl. Qed.

Lemma strip_prefix_Some p s r : strip_prefix p s = Some r <-> s = p ++ r.
Proof.
  split; [| intros ->; apply strip_prefix_app].
  revert s. induction p as [| x p IH]; intros [| y s]; cbn; [by intros [= ->].. | done |].
  destruct (Z.eqb_spec x y) as [-> |]; [| done]. by intros ->%IH.
Qed.

Lemma starts_with_iff p s : starts_with p s = true <-> exists r, s = p ++ r.
Proof.
  unfold starts_with. destruct (strip_prefix p s) as [r |] eqn:E.
  - apply strip_prefix_Some in E. naive_solver.
  - split; [done |]. intros [r ->]. by rewrite strip_prefix_app in E.
Qed.

Lemma find_sub_Some p s i :
  find_sub p s = Some i -> exists r, s = take i s ++ p ++ r /\ (i + length p <= length s)%nat.
Proof.
  revert i. induction s as [| b s IH]; intros i; cbn [find_sub].
  - destruct (starts_with p []) eqn:E; [| done]. intros [= <-]. apply starts_with_iff in E as [r Hr].
    exists r. split; [done |]. apply (f_equal length) in Hr. rewrite length_app in Hr. simpl in *. lia.
  - destruct (starts_with p (b :: s)) eqn:E.
    + intros [= <-]. apply starts_with_iff in E as [r Hr]. exists r. split; [done |].
      apply (f_equal length) in Hr. rewrite length_app in Hr. lia.
    + destruct (find_sub p s) as [j |]; [| done]. intros [= <-]. destruct (IH j eq_refl) as (r & Hr & Hl).
      exists r. cbn [take app length]. split; [by f_equal | lia].
Qed.
