(* ===== verification/Bignum.v ===== *)
(** * 768-bit arithmetic

    Models the big-integer half of [src/src/peer/mse.rs]: [Big], the
    conversions from and to bytes, comparison, subtraction, and [Montgomery]
    multiplication and exponentiation modulo the group's prime.

    A [Big] is a list of 32-bit limbs, least significant first.  Casts and
    machine arithmetic keep their widths: [as u32] is [wrap 32], and the 64-bit
    sums of the inner loops are [wrap 64]. *)

From S2P Require Import Prelude Str Bytes Numeral Text.

Definition LIMBS : nat := 24.
Definition KEY_BYTES : nat := 96.

Abbreviation Big := (list Z).

(** A number of one small limb, such as [one] and [two] of the code. *)
Definition small_big (z : Z) : Big := z :: replicate (LIMBS - 1) 0.

(** ** Bytes *)

(** The body of the loop of [from_be_bytes] for the [i]-th byte from the end. *)
Definition set_byte (out : Big) (i : nat) (byte : Z) : Big :=
  if (i / 4 <? LIMBS)%nat then alter (fun limb => Z.lor limb (wrap 32 (Z.shiftl byte (8 * Z.of_nat (i mod 4))))) (i / 4)%nat out else out.

Fixpoint set_bytes (out : Big) (i : nat) (reversed : list Z) : Big :=
  match reversed with
  | [] => out
  | byte :: rest => set_bytes (set_byte out i byte) (S i) rest
  end.

Definition from_be_bytes (bytes : list Z) : Big := set_bytes (replicate LIMBS 0) 0 (rev bytes).

(** Byte [i], from the least significant. *)
Definition get_byte (n : Big) (i : nat) : Z := wrap 8 (Z.shiftr (nth (i / 4) n 0) (8 * Z.of_nat (i mod 4))).

Definition to_be_bytes (n : Big) : list Z := rev (map (get_byte n) (seq 0 KEY_BYTES)).

(** ** Comparison and subtraction *)

(** From the most significant limb down. *)
Fixpoint cmp_down (a b : list Z) : comparison :=
  match a, b with
  | x :: a', y :: b' => match x ?= y with Eq => cmp_down a' b' | other => other end
  | _, _ => Eq
  end.

Definition cmp (a b : Big) : comparison := cmp_down (rev a) (rev b).

Fixpoint sub_loop (a b : list Z) (borrow : Z) : list Z :=
  match a, b with
  | x :: a', y :: b' => let d := x - y - borrow in wrap 32 d :: sub_loop a' b' (if d <? 0 then 1 else 0)
  | _, _ => []
  end.

Definition sub (a b : Big) : Big := sub_loop a b 0.

(** ** Montgomery arithmetic *)

Record Montgomery : Type := mkMontgomery {
  modulus : Big;
  n0 : Z;
  r2 : Big
}.

(** [carry == 1 || cmp(..) != Less], then [sub]. *)
Definition reduce (m : Big) (top : bool) (x : Big) : Big :=
  if top || match cmp x m with Lt => false | _ => true end then sub x m else x.

Definition inverse_step (m0 inv : Z) : Z := wrap 32 (inv * wrap 32 (2 - wrap 32 (m0 * inv))).

(** One left shift of a limb array, and the bit shifted out. *)
Fixpoint double_loop (limbs : list Z) (carry : Z) : list Z * Z :=
  match limbs with
  | [] => ([], carry)
  | limb :: rest =>
      let next := Z.shiftr limb 31 in
      let '(out, last) := double_loop rest next in
      (Z.lor (wrap 32 (Z.shiftl limb 1)) carry :: out, last)
  end.

Definition double_step (m r : Big) : Big :=
  let '(out, carry) := double_loop r 0 in reduce m (carry =? 1) out.

Definition new (m : Big) : Montgomery :=
  let m0 := nth 0 m 0 in
  let inv := Nat.iter 5 (inverse_step m0) 1 in
  mkMontgomery m (wrap 32 (- inv)) (Nat.iter (2 * 32 * LIMBS) (double_step m) (small_big 1)).

(** [t[j] + a[j] * b + carry] along two arrays: the limbs, and the carry out. *)
Fixpoint mac_loop (t a : list Z) (b carry : Z) : list Z * Z :=
  match t, a with
  | x :: t', y :: a' =>
      let v := wrap 64 (x + y * b + carry) in
      let '(out, last) := mac_loop t' a' b (Z.shiftr v 32) in
      (wrap 32 v :: out, last)
  | _, _ => ([], carry)
  end.

(** The accumulator [t] of [mul]: its low [LIMBS] limbs and the two above. *)
Record Acc : Type := mkAcc {
  low : list Z;
  high : Z;
  over : Z
}.

(** The body of [mul]'s outer loop: one limb of [b] multiplied in, one limb of
    the sum made zero and shifted out. *)
Definition mul_row (g : Montgomery) (a : Big) (t : Acc) (bi : Z) : Acc :=
  let '(lo, carry) := mac_loop (low t) a bi 0 in
  let v := wrap 64 (high t + carry) in
  let hi := wrap 32 v in
  let ov := wrap 32 (Z.shiftr v 32) in
  let q := wrap 32 (nth 0 lo 0 * n0 g) in
  let v := wrap 64 (nth 0 lo 0 + q * nth 0 (modulus g) 0) in
  let '(shifted, carry) := mac_loop (tail lo) (tail (modulus g)) q (Z.shiftr v 32) in
  let v := wrap 64 (hi + carry) in
  mkAcc (shifted ++ [wrap 32 v]) (wrap 32 (ov + wrap 32 (Z.shiftr v 32))) ov.

Definition mul (g : Montgomery) (a b : Big) : Big :=
  let t := foldl (mul_row g a) (mkAcc (replicate LIMBS 0) 0 0) b in
  reduce (modulus g) (negb (high t =? 0)) (low t).

Definition pow_bit (g : Montgomery) (base_m : Big) (byte : Z) (result : Big) (bit : Z) : Big :=
  let result := mul g result result in
  if Z.land (Z.shiftr byte bit) 1 =? 1 then mul g result base_m else result.

Definition pow_byte (g : Montgomery) (base_m result : Big) (byte : Z) : Big :=
  foldl (pow_bit g base_m byte) result [7; 6; 5; 4; 3; 2; 1; 0].

Definition pow (g : Montgomery) (base : Big) (exponent : list Z) : Big :=
  let one := small_big 1 in
  let base_m := mul g base (r2 g) in
  let result := mul g one (r2 g) in
  mul g (foldl (pow_byte g base_m) result exponent) one.

(** ** The group *)

Definition PRIME_HEX : list Z :=
  str "FFFFFFFFFFFFFFFFC90FDAA22168C234C4C6628B80DC1CD129024E088A67CC74020BBEA63B139B22514A08798E3404DDEF9519B3CD3A431B302B0A6DF25F14374FE1356D6D51C245E485B576625E7EC6F44C42E9A63A36210000000000090563".

Definition prime_bytes : list Z :=
  map (fun i => default 0 (parse_hex 8 (slice PRIME_HEX (2 * i) (2 * i + 2)))) (seqZ 0 (zlen PRIME_HEX / 2)).

Definition group : Montgomery := new (from_be_bytes prime_bytes).

Definition public_key (private : list Z) : list Z := to_be_bytes (pow group (small_big 2) private).

Definition shared_secret (peer_public private : list Z) : option (list Z) :=
  let y := from_be_bytes peer_public in
  let prime_minus_one := alter (fun limb => limb - 1) 0%nat (modulus group) in
  if match cmp y (small_big 1) with Gt => false | _ => true end || match cmp y prime_minus_one with Lt => false | _ => true end then None
  else Some (to_be_bytes (pow group y private)).

(** ** The number a limb array stands for *)

Fixpoint val (l : list Z) : Z :=
  match l with
  | [] => 0
  | x :: l' => x + 2 ^ 32 * val l'
  end.

Abbreviation limbs_ok := (Forall (u_ok 32)).

Definition B (n : nat) : Z := 2 ^ (32 * Z.of_nat n).

Lemma B_succ n : B (S n) = 2 ^ 32 * B n.
Proof. unfold B. rewrite <- Z.pow_add_r by lia. f_equal. lia. Qed.

Lemma B_pos n : 0 < B n.
Proof. unfold B. apply Z.pow_pos_nonneg; lia. Qed.

Lemma val_app l k : val (l ++ k) = val l + B (length l) * val k.
Proof.
  induction l as [| x l IH]; cbn [val app length]; [change (B 0) with 1; lia |]. rewrite IH, B_succ. lia.
Qed.

Lemma val_bound l : limbs_ok l -> 0 <= val l < B (length l).
Proof.
  induction 1 as [| x l Hx Hl IH]; cbn [val length]; [change (B 0) with 1; lia |]. unfold u_ok in Hx. rewrite B_succ. lia.
Qed.

Lemma val_zeros n : val (replicate n 0) = 0.
Proof. induction n as [| n IH]; cbn [replicate val]; lia. Qed.

Lemma zeros_ok n : limbs_ok (replicate n 0).
Proof. apply Forall_replicate. unfold u_ok. lia. Qed.

(** A carry chain: the low 32 bits of a sum and the rest. *)
Lemma split_low v : wrap 32 v + 2 ^ 32 * Z.shiftr v 32 = v.
Proof. unfold wrap. rewrite Z.shiftr_div_pow2 by lia. pose proof (Z.div_mod v (2 ^ 32)). lia. Qed.

Lemma wrap_ok w v : 0 <= w -> u_ok w (wrap w v).
Proof. intros. unfold u_ok, wrap. apply Z.mod_pos_bound. by apply Z.pow_pos_nonneg. Qed.

Lemma wrap_small w v : u_ok w v -> wrap w v = v.
Proof. intros. by apply Z.mod_small. Qed.

(** ** Comparison and subtraction are those of the numbers *)

Lemma cmp_down_spec a : forall b,
  length a = length b -> limbs_ok a -> limbs_ok b -> cmp_down a b = (val (rev a) ?= val (rev b)).
Proof.
  induction a as [| x a IH]; intros [| y b] Hl Ha Hb; try done. injection Hl as Hl.
  apply Forall_cons in Ha as [Hx Ha]. apply Forall_cons in Hb as [Hy Hb]. cbn [cmp_down rev]. rewrite !val_app, !length_rev, <- Hl. cbn [val].
  pose proof (val_bound (rev a) (Forall_rev Ha)) as Ba. pose proof (val_bound (rev b) (Forall_rev Hb)) as Bb.
  rewrite length_rev in Ba, Bb. rewrite <- Hl in Bb. symmetry. destruct (Z.compare_spec x y) as [-> | Hlt | Hgt].
  - rewrite IH by done. destruct (Z.compare_spec (val (rev a)) (val (rev b))); [apply Z.compare_eq_iff | apply Z.compare_lt_iff | apply Z.compare_gt_iff]; lia.
  - apply Z.compare_lt_iff. nia.
  - apply Z.compare_gt_iff. nia.
Qed.

Lemma cmp_spec a b : length a = length b -> limbs_ok a -> limbs_ok b -> cmp a b = (val a ?= val b).
Proof.
  intros Hl Ha Hb. unfold cmp. rewrite cmp_down_spec by (rewrite ?length_rev; auto; by apply Forall_rev). by rewrite !rev_involutive.
Qed.

Lemma sub_loop_spec a : forall b borrow,
  length a = length b -> limbs_ok a -> limbs_ok b -> 0 <= borrow <= 1 ->
  limbs_ok (sub_loop a b borrow) /\ length (sub_loop a b borrow) = length a /\
  exists out, 0 <= out <= 1 /\ val (sub_loop a b borrow) = val a - val b - borrow + B (length a) * out.
Proof.
  induction a as [| x a IH]; intros [| y b] borrow Hl Ha Hb Hw; try done.
  - split_and!; [constructor | done |]. exists borrow. split; [done |]. cbn [sub_loop val length]. change (B 0) with 1. lia.
  - injection Hl as Hl. apply Forall_cons in Ha as [Hx Ha]. apply Forall_cons in Hb as [Hy Hb]. cbn [sub_loop]. cbv zeta.
    set (d := x - y - borrow). set (w := if d <? 0 then 1 else 0).
    destruct (IH b w Hl Ha Hb) as (Ho & Hn & out & Hout & Hv); [subst w; destruct (_ <? _); lia |].
    assert (wrap 32 d = d + 2 ^ 32 * w) as Hd.
    { unfold u_ok in Hx, Hy. subst w. unfold wrap. destruct (Z.ltb_spec d 0); subst d; symmetry; [apply (Z.mod_unique_pos _ _ (-1)) | apply (Z.mod_unique_pos _ _ 0)]; lia. }
    split_and!; [apply Forall_cons; split; [by apply wrap_ok | done] | cbn [length]; lia |]. exists out. split; [done |].
    cbn [val length]. rewrite Hv, Hd, B_succ. subst d. lia.
Qed.

(** Subtraction, modulo the size of the array. *)
Lemma sub_spec a b : length a = length b -> limbs_ok a -> limbs_ok b ->
  limbs_ok (sub a b) /\ length (sub a b) = length a /\ val (sub a b) = (val a - val b) mod B (length a).
Proof.
  intros Hl Ha Hb. destruct (sub_loop_spec a b 0 Hl Ha Hb) as (Ho & Hn & out & Hout & Hv); [lia |]. unfold sub. split_and!; [done.. |].
  pose proof (val_bound _ Ho) as Hbd. rewrite Hn in Hbd. apply (Z.mod_unique_pos _ _ (- out)); lia.
Qed.

(** One conditional subtraction reduces a number below twice the modulus whose
    top bit is kept apart. *)
Lemma reduce_spec m (top : bool) x :
  length m = length x -> limbs_ok m -> limbs_ok x -> val x + B (length x) * Z.b2z top < 2 * val m ->
  limbs_ok (reduce m top x) /\ length (reduce m top x) = length x /\
  val (reduce m top x) = (val x + B (length x) * Z.b2z top) mod val m /\ val (reduce m top x) < val m.
Proof.
  intros Hl Hm Hx Hlt. unfold reduce. rewrite (cmp_spec x m) by done.
  destruct (sub_spec x m) as (Hs & Hn & Hv); [done.. |].
  pose proof (val_bound m Hm) as Bm. pose proof (val_bound x Hx) as Bx. rewrite Hl in Bm.
  assert (0 < val m) as Hpos by (destruct top; cbn [Z.b2z] in Hlt; lia).
  destruct (top || _) eqn:E.
  - assert (val m <= val x + B (length x) * Z.b2z top) as Hle.
    { destruct top; cbn [Z.b2z orb] in *; [lia |]. destruct (Z.compare_spec (val x) (val m)); [lia | done | lia]. }
    assert (val (sub x m) = val x + B (length x) * Z.b2z top - val m) as Hval.
    { rewrite Hv. symmetry. apply (Z.mod_unique_pos _ _ (- Z.b2z top)); lia. }
    split_and!; [done | done | | lia]. rewrite Hval. apply (Z.mod_unique_pos _ _ 1); lia.
  - apply orb_false_iff in E as [-> E]. cbn [Z.b2z]. assert (val x < val m) by (destruct (Z.compare_spec (val x) (val m)); done).
    split_and!; [done | done | | lia]. rewrite Z.mul_0_r, Z.add_0_r, Z.mod_small by lia. done.
Qed.

(** ** Multiply and add along an array *)

Lemma mac_loop_spec t : forall a b carry,
  length t = length a -> limbs_ok t -> limbs_ok a -> u_ok 32 b -> u_ok 32 carry ->
  let '(out, last) := mac_loop t a b carry in
  limbs_ok out /\ length out = length t /\ u_ok 32 last /\ val out + B (length t) * last = val t + val a * b + carry.
Proof.
  induction t as [| x t IH]; intros [| y a] b carry Hl Ht Ha Hb Hc; try done.
  - cbn [mac_loop val length]. change (B 0) with 1. split; [by apply Forall_nil |]. split; [done |]. split; [done | lia].
  - injection Hl as Hl. apply Forall_cons in Ht as [Hx Ht]. apply Forall_cons in Ha as [Hy Ha]. cbn [mac_loop]. cbv zeta.
    assert (wrap 64 (x + y * b + carry) = x + y * b + carry) as -> by (apply wrap_small; unfold u_ok in *; nia).
    set (v := x + y * b + carry). assert (u_ok 32 (Z.shiftr v 32)) as Hs.
    { unfold u_ok in *. rewrite Z.shiftr_div_pow2 by lia. split; [apply Z.div_pos; nia | apply Z.div_lt_upper_bound; nia]. }
    specialize (IH a b (Z.shiftr v 32) Hl Ht Ha Hb Hs). destruct (mac_loop t a b (Z.shiftr v 32)) as [out last].
    destruct IH as (Ho & Hn & Hlast & Hv). pose proof (split_low v) as Hsplit.
    split_and!; [apply Forall_cons; split; [by apply wrap_ok | done] | cbn [length]; lia | done |].
    cbn [val length]. rewrite B_succ. subst v. nia.
Qed.

Lemma double_loop_spec l : forall carry,
  limbs_ok l -> 0 <= carry <= 1 ->
  let '(out, last) := double_loop l carry in
  limbs_ok out /\ length out = length l /\ 0 <= last <= 1 /\ val out + B (length l) * last = 2 * val l + carry.
Proof.
  induction l as [| x l IH]; intros carry Hl Hc; cbn [double_loop].
  - cbn [val length]. change (B 0) with 1. split; [by apply Forall_nil |]. split; [done | lia].
  - apply Forall_cons in Hl as [Hx Hl]. unfold u_ok in Hx. assert (0 <= Z.shiftr x 31 <= 1) as Hs.
    { rewrite Z.shiftr_div_pow2 by lia. split; [apply Z.div_pos; lia | apply Z.lt_succ_r, Z.div_lt_upper_bound; lia]. }
    specialize (IH (Z.shiftr x 31) Hl Hs). destruct (double_loop l (Z.shiftr x 31)) as [out last]. destruct IH as (Ho & Hn & Hlast & Hv).
    assert (Z.lor (wrap 32 (Z.shiftl x 1)) carry = 2 * x - 2 ^ 32 * Z.shiftr x 31 + carry) as Hlow.
    { rewrite Z.shiftr_div_pow2, Z.shiftl_mul_pow2 in * by lia. unfold wrap.
      assert ((x * 2 ^ 1) mod 2 ^ 32 = 2 * (x mod 2 ^ 31)) as ->.
      { change (2 ^ 32) with (2 ^ 31 * 2 ^ 1). rewrite Z.mul_mod_distr_r by lia. lia. }
      pose proof (Z.div_mod x (2 ^ 31)) as Hdm. assert (carry = 0 \/ carry = 1) as [-> | ->] by lia; [rewrite Z.lor_0_r; lia |].
      assert (Z.lor (2 * (x mod 2 ^ 31)) 1 = 2 * (x mod 2 ^ 31) + 1) as E by (pose proof (Z.mod_pos_bound x (2 ^ 31)); destruct (x mod 2 ^ 31) as [| p | p]; [reflexivity.. | lia]).
      rewrite E. lia. }
    split_and!; [| cbn [length]; lia | lia | lia |].
    + apply Forall_cons. split; [| done]. rewrite Hlow. unfold u_ok. rewrite Z.shiftr_div_pow2 by lia. pose proof (Z.div_mod x (2 ^ 31)). pose proof (Z.mod_pos_bound x (2 ^ 31)). lia.
    + cbn [val length]. rewrite Hlow, B_succ. lia.
Qed.

(** ** Congruence *)

Definition cong (m a b : Z) : Prop := (m | a - b).

#[export] Instance cong_equiv m : Equivalence (cong m).
Proof.
  unfold cong. split.
  - intros a. exists 0. lia.
  - intros a b [k Hk]. exists (- k). lia.
  - intros a b c [k Hk] [j Hj]. exists (k + j). lia.
Qed.

#[export] Instance cong_add m : Proper (cong m ==> cong m ==> cong m) Z.add.
Proof. intros a b [k Hk] c d [j Hj]. exists (k + j). lia. Qed.

#[export] Instance cong_mul m : Proper (cong m ==> cong m ==> cong m) Z.mul.
Proof. intros a b [k Hk] c d [j Hj]. exists (k * c + b * j). replace (a * c - b * d) with ((a - b) * c + b * (c - d)) by lia. rewrite Hk, Hj. lia. Qed.

#[export] Instance cong_opp m : Proper (cong m ==> cong m) Z.opp.
Proof. intros a b [k Hk]. exists (- k). lia. Qed.

#[export] Instance cong_sub m : Proper (cong m ==> cong m ==> cong m) Z.sub.
Proof. intros a b H c d H'. rewrite <- !Z.add_opp_r, H, H'. done. Qed.

Lemma cong_mod m a : m <> 0 -> cong m (a mod m) a.
Proof. intros Hm. exists (- (a / m)). pose proof (Z.div_mod a m Hm). lia. Qed.

Lemma cong_wrap w a : 0 <= w -> cong (2 ^ w) (wrap w a) a.
Proof. intros. apply cong_mod. pose proof (Z.pow_pos_nonneg 2 w). lia. Qed.

Lemma cong_times m a k : cong m (a + k * m) a.
Proof. exists k. lia. Qed.

Lemma cong_mod_eq m a b : 0 < m -> cong m a b -> a mod m = b mod m.
Proof. intros Hm [k Hk]. replace a with (b + k * m) by lia. apply Z.mod_add. lia. Qed.

Lemma cong_weaken k m a b : (k | m) -> cong m a b -> cong k a b.
Proof. unfold cong. intros. by transitivity m. Qed.

Lemma cong_cancel m r a b : Z.gcd m r = 1 -> cong m (a * r) (b * r) -> cong m a b.
Proof.
  intros Hg H. apply (Z.gauss m r (a - b)); [| done]. unfold cong in H. by replace (r * (a - b)) with (a * r - b * r) by lia.
Qed.

(** ** Newton's iteration *)

(** Each step squares the error, so five give an inverse modulo [2^32]. *)
Lemma inverse_step_spec m0 x k : 0 <= k -> 2 * k <= 32 ->
  cong (2 ^ k) (m0 * x) 1 -> cong (2 ^ (2 * k)) (m0 * inverse_step m0 x) 1.
Proof.
  intros Hk Hk2 [e He]. transitivity (m0 * (x * (2 - m0 * x))).
  - apply (cong_weaken _ (2 ^ 32)).
    { exists (2 ^ (32 - 2 * k)). rewrite <- Z.pow_add_r by lia. f_equal. lia. }
    unfold inverse_step. by rewrite !cong_wrap.
  - exists (- (e * e)). replace (2 * k) with (k + k) by lia. rewrite Z.pow_add_r by lia. nia.
Qed.

Lemma inverse_spec m0 : Z.odd m0 = true -> cong (2 ^ 32) (m0 * Nat.iter 5 (inverse_step m0) 1) 1.
Proof.
  intros [j ->]%Z.odd_spec. set (m0 := 2 * j + 1). cbn [Nat.iter].
  change (2 ^ 32) with (2 ^ (2 * 16)). apply inverse_step_spec; [lia.. |].
  change (2 ^ 16) with (2 ^ (2 * 8)). apply inverse_step_spec; [lia.. |].
  change (2 ^ 8) with (2 ^ (2 * 4)). apply inverse_step_spec; [lia.. |].
  change (2 ^ 4) with (2 ^ (2 * 2)). apply inverse_step_spec; [lia.. |].
  change (2 ^ 2) with (2 ^ (2 * 1)). apply inverse_step_spec; [lia.. |].
  exists j. subst m0. lia.
Qed.

(** ** Multiplication *)

(** A number below [m] in a limb array of the right length. *)
Definition big_ok (n : nat) (x : Big) : Prop := limbs_ok x /\ length x = n.

(** What [Montgomery::new] establishes of the modulus and [n0]. *)
Record mont_ok (g : Montgomery) : Prop := {
  mod_big : big_ok LIMBS (modulus g);
  mod_big_enough : 2 <= val (modulus g);
  n0_inverse : cong (2 ^ 32) (nth 0 (modulus g) 0 * n0 g) (-1)
}.

Definition total (t : Acc) : Z := val (low t) + B (length (low t)) * high t.

Lemma B_limbs : B LIMBS = 2 ^ 32 * B 23.
Proof. apply B_succ. Qed.

Section montgomery.

Context (g : Montgomery) (Hg : mont_ok g) (a : Big) (Ha : big_ok LIMBS a) (Ham : val a < val (modulus g)).

Local Notation m := (val (modulus g)).

Definition acc_ok (t : Acc) : Prop := big_ok LIMBS (low t) /\ 0 <= high t /\ total t < val a + val (modulus g).

Lemma sum_small x y : 0 <= x <= 1 -> u_ok 32 y ->
  wrap 64 (x + y) = x + y /\ u_ok 32 (wrap 32 (x + y)) /\ 0 <= Z.shiftr (x + y) 32 <= 1.
Proof using Type.
  unfold u_ok. intros Hx Hy. split; [apply wrap_small; unfold u_ok; lia |]. split; [by apply wrap_ok |]. rewrite Z.shiftr_div_pow2 by lia.
  split; [apply Z.div_pos; lia | apply Z.lt_succ_r, Z.div_lt_upper_bound; lia].
Qed.

Lemma mul_row_spec t bi : acc_ok t -> u_ok 32 bi ->
  acc_ok (mul_row g a t bi) /\ exists q, 2 ^ 32 * total (mul_row g a t bi) = total t + val a * bi + q * m.
Proof using Hg Ha Ham.
  intros ([Htl Htn] & Hhi & Htot) Hbi. destruct Ha as [Hal Han]. destruct (mod_big g Hg) as [Hml Hmn]. unfold total in Htot. rewrite Htn in Htot.
  pose proof (val_bound _ Htl) as Bt. pose proof (val_bound _ Hml) as Bm. pose proof (val_bound _ Hal) as Ba. rewrite Htn in Bt. rewrite Hmn in Bm. rewrite Han in Ba.
  assert (0 <= high t <= 1) as Hh1 by nia.
  unfold mul_row. pose proof (mac_loop_spec (low t) a bi 0 ltac:(congruence) Htl Hal Hbi ltac:(unfold u_ok; lia)) as H1.
  destruct (mac_loop (low t) a bi 0) as [lo carry]. destruct H1 as (Hlo & Hlon & Hc & H1). rewrite Htn in Hlon, H1.
  destruct (sum_small (high t) carry Hh1 Hc) as (-> & Hhi' & Hov). pose proof (split_low (high t + carry)) as Sv.
  set (hi := wrap 32 (high t + carry)) in *. rewrite (wrap_small 32 (Z.shiftr _ 32)) by (unfold u_ok; lia). set (ov := Z.shiftr (high t + carry) 32) in *.
  destruct (modulus g) as [| m0 ms] eqn:Em; [done |]. destruct lo as [| l0 ls]; [done |]. cbn [nth tail]. pose proof (n0_inverse g Hg) as Hinv. rewrite Em in Hinv. cbn [nth] in Hinv.
  apply Forall_cons in Hlo as [Hl0 Hls]. apply Forall_cons in Hml as [Hm0 Hms]. set (q := wrap 32 (l0 * n0 g)). assert (u_ok 32 q) as Hq by by apply wrap_ok.
  assert (wrap 64 (l0 + q * m0) = l0 + q * m0) as -> by (apply wrap_small; unfold u_ok in *; nia).
  assert (u_ok 32 (Z.shiftr (l0 + q * m0) 32)) as Hc2.
  { unfold u_ok in *. rewrite Z.shiftr_div_pow2 by lia. split; [apply Z.div_pos; nia | apply Z.div_lt_upper_bound; nia]. }
  assert (wrap 32 (l0 + q * m0) = 0) as Hz.
  { unfold wrap. apply Z.mod_divide; [lia |]. rewrite <- (Z.sub_0_r (l0 + q * m0)). change (cong (2 ^ 32) (l0 + q * m0) 0). subst q. rewrite cong_wrap by lia.
    replace (l0 + l0 * n0 g * m0) with (l0 * (1 + m0 * n0 g)) by lia. rewrite Hinv. by rewrite Z.mul_0_r. }
  pose proof (split_low (l0 + q * m0)) as Sv2. rewrite Hz in Sv2.
  injection Hlon as Hlsn. injection Hmn as Hmsn.
  pose proof (mac_loop_spec ls ms q (Z.shiftr (l0 + q * m0) 32) ltac:(congruence) Hls Hms Hq Hc2) as H2.
  destruct (mac_loop ls ms q _) as [shifted carry2]. destruct H2 as (Hsh & Hshn & Hc3 & H2). rewrite Hlsn in Hshn, H2.
  assert (wrap 64 (hi + carry2) = hi + carry2) as -> by (apply wrap_small; unfold u_ok in *; lia).
  pose proof (split_low (hi + carry2)) as Sv3. assert (0 <= Z.shiftr (hi + carry2) 32 <= 1) as Hs3.
  { unfold u_ok in *. rewrite Z.shiftr_div_pow2 by lia. split; [apply Z.div_pos; lia | apply Z.lt_succ_r, Z.div_lt_upper_bound; lia]. }
  rewrite (wrap_small 32 (Z.shiftr _ 32)) by (unfold u_ok; lia). rewrite (wrap_small 32 (ov + _)) by (unfold u_ok; lia).
  change 24%nat with LIMBS in *. rewrite B_limbs in *. cbn [val] in *.
  assert (2 ^ 32 * total (mkAcc (shifted ++ [wrap 32 (hi + carry2)]) (ov + Z.shiftr (hi + carry2) 32) ov) = val (low t) + 2 ^ 32 * B 23 * high t + val a * bi + q * (m0 + 2 ^ 32 * val ms)) as Htotal.
  { unfold total. cbn [low high]. rewrite val_app, length_app. cbn [val length]. rewrite Hshn. change (B (23 + 1)) with (B LIMBS). rewrite B_limbs.
    pose proof (f_equal (Z.mul (B 23)) Sv). pose proof (f_equal (Z.mul (B 23)) Sv3).  lia. }
  split.
  - split_and!; cbn [low high].
    + split; [| by rewrite length_app, Hshn]. apply Forall_app. split; [done |]. apply Forall_cons. split; [by apply wrap_ok | by apply Forall_nil].
    + lia.
    + rewrite ?Em. cbn [val]. unfold u_ok in Hq, Hbi. pose proof (Z.mul_le_mono_nonneg_l bi (2 ^ 32 - 1) (val a)).
      pose proof (Z.mul_le_mono_nonneg_r q (2 ^ 32 - 1) (m0 + 2 ^ 32 * val ms)). lia.
  - exists q. rewrite ?Em. cbn [val]. rewrite Htotal. unfold total. rewrite Htn, B_limbs. lia.
Qed.

Lemma mul_rows_spec b : forall t, acc_ok t -> limbs_ok b ->
  acc_ok (foldl (mul_row g a) t b) /\ exists k, B (length b) * total (foldl (mul_row g a) t b) = total t + val a * val b + k * m.
Proof using Hg Ha Ham.
  induction b as [| bi b IH]; intros t Ht Hb; cbn [foldl].
  - split; [done |]. exists 0. cbn [length val]. change (B 0) with 1. lia.
  - apply Forall_cons in Hb as [Hbi Hb]. destruct (mul_row_spec t bi Ht Hbi) as [Ht1 [q Hq]]. destruct (IH _ Ht1 Hb) as [Ht2 [k Hk]].
    split; [done |]. exists (q + 2 ^ 32 * k). cbn [length val]. rewrite B_succ. nia.
Qed.

(** [mul] is the product times the inverse of [R = 2^768]. *)
Lemma mul_spec b : big_ok LIMBS b ->
  big_ok LIMBS (mul g a b) /\ 0 <= val (mul g a b) < m /\ cong m (val (mul g a b) * B LIMBS) (val a * val b).
Proof using Hg Ha Ham.
  intros [Hb Hbn]. destruct (mod_big g Hg) as [Hml Hmn]. pose proof (mod_big_enough g Hg) as Hm2. pose proof (val_bound a (proj1 Ha)) as Ba. unfold mul.
  destruct (mul_rows_spec b (mkAcc (replicate LIMBS 0) 0 0)) as [Hok [k Hk]].
  { split; [split; [apply zeros_ok | done] |]. unfold total. cbn [low high]. rewrite val_zeros. lia. }
  { done. }
  set (t := foldl _ _ _) in *. destruct Hok as ([Htl Htn] & Hhi & Htot). unfold total in Hk at 2. cbn [low high] in Hk. rewrite val_zeros, Hbn in Hk.
  pose proof (val_bound _ Htl) as Bt. pose proof (val_bound _ Hml) as Bm. rewrite Htn in Bt. rewrite Hmn in Bm. unfold total in Htot. rewrite Htn in Htot.
  assert (Z.b2z (negb (high t =? 0)) = high t) as Hbit by (destruct (Z.eqb_spec (high t) 0); cbn; nia).
  destruct (reduce_spec (modulus g) (negb (high t =? 0)) (low t)) as (Hr & Hrn & Hrv & Hrm); [congruence | done | done | rewrite Hbit, Htn; lia |].
  pose proof (val_bound _ Hr) as Br. split; [split; [done | congruence] |]. split; [lia |].
  rewrite Hrv, Hbit. rewrite cong_mod by lia. rewrite Z.mul_comm. change (val (low t) + B (length (low t)) * high t) with (total t).
  rewrite Hk. replace (0 + B (length (replicate LIMBS 0)) * 0 + val a * val b + k * val (modulus g)) with (val a * val b + k * val (modulus g)) by lia. apply cong_times.
Qed.

End montgomery.

(** ** Setting up *)

Lemma small_big_ok z : u_ok 32 z -> big_ok LIMBS (small_big z).
Proof. intros Hz. split; [| done]. unfold small_big. apply Forall_cons. split; [done | apply zeros_ok]. Qed.

Lemma val_small_big z : val (small_big z) = z.
Proof. unfold small_big. cbn [val]. rewrite val_zeros. lia. Qed.

(** A modulus [Montgomery::new] may be given. *)
Definition modulus_ok (m : Big) : Prop := big_ok LIMBS m /\ 2 <= val m /\ Z.odd (nth 0 m 0) = true.

Lemma double_step_spec m r : modulus_ok m -> big_ok LIMBS r -> val r < val m ->
  big_ok LIMBS (double_step m r) /\ val (double_step m r) = (2 * val r) mod val m /\ val (double_step m r) < val m.
Proof.
  intros ([Hm Hmn] & Hm2 & _) [Hr Hrn] Hlt. unfold double_step. pose proof (double_loop_spec r 0 Hr ltac:(lia)) as H.
  destruct (double_loop r 0) as [out c]. destruct H as (Ho & Hn & Hc & Hv).
  assert (Z.b2z (c =? 1) = c) as Hbit by (assert (c = 0 \/ c = 1) as [-> | ->] by lia; done).
  destruct (reduce_spec m (c =? 1) out) as (H1 & H2 & H3 & H4); [congruence | done | done | rewrite Hbit, Hn; lia |].
  split; [split; [done | congruence] |]. split; [| done]. rewrite H3, Hbit, Hn, Hv. f_equal. lia.
Qed.

Lemma doublings_spec m k : modulus_ok m ->
  big_ok LIMBS (Nat.iter k (double_step m) (small_big 1)) /\
  val (Nat.iter k (double_step m) (small_big 1)) = 2 ^ Z.of_nat k mod val m /\ val (Nat.iter k (double_step m) (small_big 1)) < val m.
Proof.
  intros Hm. pose proof Hm as (_ & Hm2 & _). induction k as [| k (IH1 & IH2 & IH3)].
  - change (Nat.iter 0 (double_step m) (small_big 1)) with (small_big 1). rewrite val_small_big. split; [apply small_big_ok; unfold u_ok; lia |]. rewrite Z.mod_small; lia.
  - rewrite Nat.iter_succ. destruct (double_step_spec m _ Hm IH1 IH3) as (H1 & H2 & H3). split; [done |]. split; [| done].
    rewrite H2, IH2, Z.mul_mod_idemp_r by lia. f_equal. rewrite Nat2Z.inj_succ, Z.pow_succ_r by lia. done.
Qed.

Lemma montgomery_new_ok m : modulus_ok m -> mont_ok (new m) /\
  big_ok LIMBS (r2 (new m)) /\ val (r2 (new m)) < val m /\ cong (val m) (val (r2 (new m))) (B LIMBS * B LIMBS).
Proof.
  intros Hm. pose proof Hm as (Hb & Hm2 & Hodd). split.
  - split; [done | done |]. cbn [modulus n0 new]. rewrite cong_wrap by lia. by rewrite Z.mul_opp_r, inverse_spec.
  - unfold new. cbn [r2]. destruct (doublings_spec m (2 * 32 * LIMBS) Hm) as (H1 & H2 & H3). split; [done |]. split; [done |].
    rewrite H2, cong_mod by lia. unfold B. rewrite <- Z.pow_add_r by lia. done.
Qed.

(** ** Exponentiation *)

Section power.

Context (g : Montgomery) (Hg : mont_ok g).
Local Notation m := (val (modulus g)).

(** [2^32] has an inverse modulo the modulus, so [R] can be cancelled. *)
Lemma limb_inverse : exists j, cong m (2 ^ 32 * j) 1.
Proof using Hg.
  destruct (n0_inverse g Hg) as [k Hk]. destruct (mod_big g Hg) as [_ Hn]. destruct (modulus g) as [| m0 ms]; [done |]. cbn [nth val] in *.
  exists (k + val ms * n0 g). exists (n0 g). lia.
Qed.

Lemma R_inverse n : exists j, cong m (B n * j) 1.
Proof using Hg.
  destruct limb_inverse as [i Hi]. induction n as [| n [j Hj]]; [by exists 1 |]. exists (i * j). rewrite B_succ.
  replace (2 ^ 32 * B n * (i * j)) with ((2 ^ 32 * i) * (B n * j)) by lia. rewrite Hi, Hj. done.
Qed.

Lemma R_cancel a b : cong m (a * B LIMBS) (b * B LIMBS) -> cong m a b.
Proof using Hg.
  intros H. destruct (R_inverse LIMBS) as [j Hj]. rewrite <- (Z.mul_1_r a), <- (Z.mul_1_r b), <- Hj, !Z.mul_assoc, H. done.
Qed.

(** [x] holds [v] in Montgomery form. *)
Definition mont (x : Big) (v : Z) : Prop := big_ok LIMBS x /\ val x < m /\ cong m (val x) (v * B LIMBS).

Lemma mont_mul x y u v : mont x u -> mont y v -> mont (mul g x y) (u * v).
Proof using Hg.
  intros (Hx & Hxm & Hxc) (Hy & Hym & Hyc). destruct (mul_spec g Hg x Hx Hxm y Hy) as (H1 & H2 & H3). split; [done |]. split; [lia |].
  apply R_cancel. rewrite H3, Hxc, Hyc. by replace (u * B LIMBS * (v * B LIMBS)) with (u * v * B LIMBS * B LIMBS) by lia.
Qed.

Lemma pow_bit_spec base_m result byte bit b e :
  mont base_m b -> mont result (b ^ e) -> 0 <= e -> 0 <= bit ->
  mont (pow_bit g base_m byte result bit) (b ^ (2 * e + (byte / 2 ^ bit) mod 2)).
Proof using Hg.
  intros Hb Hr He Hbit. unfold pow_bit. cbv zeta. rewrite (Z.land_ones _ 1), Z.shiftr_div_pow2 by lia. change (2 ^ 1) with 2.
  pose proof (Z.mod_pos_bound (byte / 2 ^ bit) 2 ltac:(lia)). assert (mont (mul g result result) (b ^ (2 * e))) as H2.
  { replace (2 * e) with (e + e) by lia. rewrite Z.pow_add_r by lia. by apply mont_mul. }
  destruct (Z.eqb_spec ((byte / 2 ^ bit) mod 2) 1) as [E | E].
  - rewrite E. rewrite Z.pow_add_r, Z.pow_1_r by lia. by apply mont_mul.
  - replace ((byte / 2 ^ bit) mod 2) with 0 by lia. by rewrite Z.add_0_r.
Qed.

Lemma pow_byte_spec base_m result byte b e :
  mont base_m b -> mont result (b ^ e) -> 0 <= e -> byte_ok byte ->
  mont (pow_byte g base_m result byte) (b ^ (256 * e + byte)).
Proof using Hg.
  intros Hb Hr He Hbyte. unfold u_ok in Hbyte. unfold pow_byte. cbn [foldl].
  assert (forall bit x r, 0 <= bit -> 0 <= x -> mont r (b ^ (x + byte / 2 ^ (bit + 1))) -> mont (pow_bit g base_m byte r bit) (b ^ (2 * x + byte / 2 ^ bit))) as step.
  { intros bit x r Hbit Hx Hm. assert (0 <= byte / 2 ^ (bit + 1)) by (apply Z.div_pos; [lia | by apply Z.pow_pos_nonneg; lia]).
    replace (2 * x + byte / 2 ^ bit) with (2 * (x + byte / 2 ^ (bit + 1)) + (byte / 2 ^ bit) mod 2); [apply pow_bit_spec; [done.. | lia | done] |].
    rewrite Z.pow_add_r, <- Z.div_div by (try lia; by apply Z.pow_pos_nonneg). change (2 ^ 1) with 2. pose proof (Z.div_mod (byte / 2 ^ bit) 2). lia. }
  replace (256 * e + byte) with (2 * (2 * (2 * (2 * (2 * (2 * (2 * (2 * e))))))) + byte / 2 ^ 0) by (change (2 ^ 0) with 1; rewrite Z.div_1_r; lia).
  do 8 (apply step; [lia.. |]; cbn [Z.add Pos.add Pos.succ]). rewrite Z.div_small by lia. by rewrite Z.add_0_r.
Qed.

Lemma pow_bytes_spec base_m b exponent : forall result e,
  mont base_m b -> mont result (b ^ e) -> 0 <= e -> bytes_ok exponent ->
  mont (foldl (pow_byte g base_m) result exponent) (b ^ (e * 256 ^ zlen exponent + Bytes.from_be_bytes exponent)).
Proof using Hg.
  induction exponent as [| byte rest IH]; intros result e Hb Hr He Hok; cbn [foldl].
  - by replace (e * 256 ^ zlen [] + Bytes.from_be_bytes []) with e
      by (change (zlen (@nil Z)) with 0; change (Bytes.from_be_bytes []) with 0; rewrite Z.pow_0_r; lia).
  - apply Forall_cons in Hok as [Hbyte Hok]. pose proof Hbyte as Hbd. unfold u_ok in Hbd. rewrite Bytes.from_be_bytes_cons, zlen_cons, (Z.pow_add_r 256) by (try lia; apply zlen_nonneg).
    replace (e * (256 ^ 1 * 256 ^ zlen rest) + (byte * 256 ^ zlen rest + Bytes.from_be_bytes rest)) with ((256 * e + byte) * 256 ^ zlen rest + Bytes.from_be_bytes rest) by ring.
    apply IH; [done | by apply pow_byte_spec | lia | done].
Qed.

(** [pow] is exponentiation modulo the modulus. *)
Lemma pow_spec base exponent :
  big_ok LIMBS (r2 g) -> val (r2 g) < m -> cong m (val (r2 g)) (B LIMBS * B LIMBS) ->
  big_ok LIMBS base -> val base < m -> bytes_ok exponent ->
  big_ok LIMBS (pow g base exponent) /\ val (pow g base exponent) = val base ^ Bytes.from_be_bytes exponent mod m.
Proof using Hg.
  intros Hr Hrm Hrc Hb Hbm He. pose proof (mod_big_enough g Hg) as Hm2. assert (big_ok LIMBS (small_big 1)) as H1 by (apply small_big_ok; unfold u_ok; lia).
  assert (forall x, big_ok LIMBS x -> val x < m -> mont (mul g x (r2 g)) (val x)) as enter.
  { intros x Hx Hxm. destruct (mul_spec g Hg x Hx Hxm (r2 g) Hr) as (E1 & E2 & E3). split; [done |]. split; [lia |]. apply R_cancel.
    rewrite E3, Hrc. by replace (val x * (B LIMBS * B LIMBS)) with (val x * B LIMBS * B LIMBS) by lia. }
  unfold pow. cbv zeta.
  assert (mont (foldl (pow_byte g (mul g base (r2 g))) (mul g (small_big 1) (r2 g)) exponent) (val base ^ Bytes.from_be_bytes exponent)) as (Hx & Hxm & Hxc).
  { replace (Bytes.from_be_bytes exponent) with (0 * 256 ^ zlen exponent + Bytes.from_be_bytes exponent) by lia. apply pow_bytes_spec; [by apply enter | | done | done].
    change (val base ^ 0) with 1. rewrite <- (val_small_big 1) at 2. apply enter; [done |]. rewrite val_small_big. lia. }
  set (x := foldl _ _ _) in *. destruct (mul_spec g Hg x Hx Hxm (small_big 1) H1) as (E1 & E2 & E3). split; [done |].
  rewrite <- (Z.mod_small (val (mul g x (small_big 1))) m) by lia. apply cong_mod_eq; [lia |]. apply R_cancel. rewrite E3, val_small_big, Z.mul_1_r. done.
Qed.

End power.

(** ** Bytes and limbs *)

Lemma val_alter f l : forall k x, l !! k = Some x -> val (alter f k l) = val l + (f x - x) * B k.
Proof.
  induction l as [| y l IH]; intros [| k] x Hx; try done.
  - injection Hx as ->. cbn. change (B 0) with 1. lia.
  - change (alter f (S k) (y :: l)) with (y :: alter f k l). cbn [val]. rewrite (IH k x Hx), B_succ. lia.
Qed.

Lemma val_split l k x : l !! k = Some x -> val l = val (take k l) + B k * (x + 2 ^ 32 * val (drop (S k) l)).
Proof.
  intros Hx. rewrite <- (take_drop_middle l k x Hx) at 1. rewrite val_app, length_take. cbn [val]. apply lookup_lt_Some in Hx.
  by replace (k `min` length l)%nat with k by lia.
Qed.

Lemma val_nth l k x : limbs_ok l -> l !! k = Some x -> (val l / B k) mod 2 ^ 32 = x.
Proof.
  intros Hl Hx. rewrite (val_split l k x Hx). pose proof (val_bound (take k l) (Forall_take _ k l Hl)) as Hb. pose proof (lookup_lt_Some _ _ _ Hx).
  rewrite length_take in Hb. replace (k `min` length l)%nat with k in Hb by lia. pose proof (Forall_lookup_1 _ _ _ _ Hl Hx) as Hxo. unfold u_ok in Hxo.
  rewrite (Z.mul_comm (B k)), Z.div_add, Z.div_small by (pose proof (B_pos k); lia). rewrite Z.add_0_l, (Z.mul_comm (2 ^ 32)), Z.mod_add by lia. by apply Z.mod_small.
Qed.

Lemma lor_high x b s : 0 <= s -> 0 <= x < 2 ^ s -> Z.lor x (Z.shiftl b s) = x + b * 2 ^ s.
Proof.
  intros Hs Hx. pose proof (Z.add_lor_land x (Z.shiftl b s)) as H. assert (Z.land x (Z.shiftl b s) = 0) as E; [| rewrite <- Z.shiftl_mul_pow2 by lia; lia].
  apply Z.bits_inj'. intros n Hn. rewrite Z.land_spec, Z.shiftl_spec, Z.bits_0 by done. destruct (Z.ltb_spec n s).
  - rewrite (Z.testbit_neg_r b) by lia. by rewrite andb_false_r.
  - rewrite <- (Z.mod_small x (2 ^ s)) by done. rewrite Z.mod_pow2_bits_high by lia. done.
Qed.

Lemma byte_split (i : nat) : 256 ^ Z.of_nat i = B (i / 4) * 2 ^ (8 * Z.of_nat (i mod 4)).
Proof.
  unfold B. rewrite <- Z.pow_add_r by lia. change 256 with (2 ^ 8). rewrite <- Z.pow_mul_r by lia. f_equal.
  pose proof (Nat.div_mod_eq i 4). lia.
Qed.

Lemma set_byte_spec out i byte :
  big_ok LIMBS out -> val out < 256 ^ Z.of_nat i -> (i < KEY_BYTES)%nat -> byte_ok byte ->
  big_ok LIMBS (set_byte out i byte) /\ val (set_byte out i byte) = val out + byte * 256 ^ Z.of_nat i.
Proof.
  intros [Ho Hn] Hv Hi Hb. unfold KEY_BYTES in Hi. unfold set_byte. assert (i / 4 < LIMBS)%nat as Hk by (unfold LIMBS; apply Nat.Div0.div_lt_upper_bound; lia).
  rewrite (proj2 (Nat.ltb_lt _ _) Hk). destruct (lookup_lt_is_Some_2 out (i / 4)) as [x Hx]; [by rewrite Hn |].
  pose proof (Nat.mod_upper_bound i 4 ltac:(lia)) as Hm. rewrite byte_split in *. set (k := (i / 4)%nat) in *. set (r := (i mod 4)%nat) in *.
  assert (0 <= x < 2 ^ (8 * Z.of_nat r)) as Hxr.
  { split; [apply (Forall_lookup_1 _ _ _ _ Ho Hx) |]. rewrite (val_split out k x Hx) in Hv. pose proof (B_pos k).
    pose proof (val_bound _ (Forall_take _ k out Ho)). pose proof (val_bound _ (Forall_drop _ (S k) out Ho)). nia. }
  assert (8 * Z.of_nat r <= 24) as Hr by lia. assert (0 < 2 ^ (8 * Z.of_nat r) <= 2 ^ 24) as Hp by (split; [apply Z.pow_pos_nonneg | apply Z.pow_le_mono_r]; lia).
  unfold u_ok in Hb. assert (u_ok 32 (Z.shiftl byte (8 * Z.of_nat r))) as Hw by (rewrite Z.shiftl_mul_pow2 by lia; unfold u_ok; nia).
  rewrite (wrap_small 32 _ Hw). split.
  - split; [| by rewrite length_alter]. apply Forall_alter; [done |]. intros y Hy _. rewrite Hx in Hy. injection Hy as <-. rewrite lor_high by lia.
    unfold u_ok. change (2 ^ 32) with (2 ^ 8 * 2 ^ 24). nia.
  - rewrite (val_alter _ out k x Hx), lor_high by lia. lia.
Qed.

Lemma from_be_snoc l b : Bytes.from_be_bytes (l ++ [b]) = 256 * Bytes.from_be_bytes l + b.
Proof.
  induction l as [| x l IH]; [rewrite app_nil_l, from_be_bytes_cons; change (zlen (@nil Z)) with 0; change (Bytes.from_be_bytes []) with 0; lia |].
  rewrite <- app_comm_cons, !from_be_bytes_cons, IH, zlen_app, zlen_cons, zlen_nil, (Z.pow_add_r 256) by (try lia; apply zlen_nonneg).
  change (256 ^ (1 + 0)) with 256. ring.
Qed.

Lemma set_bytes_spec l : forall out i,
  big_ok LIMBS out -> 0 <= val out < 256 ^ Z.of_nat i -> (i + length l <= KEY_BYTES)%nat -> bytes_ok l ->
  big_ok LIMBS (set_bytes out i l) /\ val (set_bytes out i l) = val out + 256 ^ Z.of_nat i * Bytes.from_be_bytes (rev l).
Proof.
  induction l as [| b l IH]; intros out i Ho Hv Hi Hl; cbn [set_bytes rev length] in *.
  - split; [done |]. change (Bytes.from_be_bytes []) with 0. lia.
  - apply Forall_cons in Hl as [Hb Hl]. destruct (set_byte_spec out i b Ho) as [H1 H2]; [lia | lia | done |]. unfold u_ok in Hb.
    rewrite from_be_snoc. pose proof (Nat2Z.inj_succ i) as Es. assert (256 ^ Z.of_nat (S i) = 256 * 256 ^ Z.of_nat i) as Ep by (rewrite Es, Z.pow_succ_r; lia).
    destruct (IH (set_byte out i b) (S i) H1) as [H3 H4]; [rewrite H2, Ep; nia | lia | done |]. split; [done |]. rewrite H4, H2, Ep. lia.
Qed.

Lemma from_be_bytes_spec bs : bytes_ok bs -> (length bs <= KEY_BYTES)%nat ->
  big_ok LIMBS (from_be_bytes bs) /\ val (from_be_bytes bs) = Bytes.from_be_bytes bs.
Proof.
  intros Hb Hn. unfold from_be_bytes. destruct (set_bytes_spec (rev bs) (replicate LIMBS 0) 0) as [H1 H2].
  - split; [apply zeros_ok | done].
  - rewrite val_zeros. cbn. lia.
  - by rewrite length_rev.
  - by apply Forall_rev.
  - split; [done |]. rewrite H2, val_zeros, rev_involutive. change (256 ^ Z.of_nat 0) with 1. lia.
Qed.

Lemma get_byte_spec n i : big_ok LIMBS n -> (i < KEY_BYTES)%nat -> get_byte n i = (val n / 256 ^ Z.of_nat i) mod 256.
Proof.
  intros [Ho Hn] Hi. unfold KEY_BYTES in Hi. unfold get_byte. destruct (lookup_lt_is_Some_2 n (i / 4)) as [x Hx].
  { rewrite Hn. unfold LIMBS. apply Nat.Div0.div_lt_upper_bound. lia. }
  rewrite (nth_lookup_Some _ _ _ _ Hx), byte_split. pose proof (val_bound n Ho) as Hv. pose proof (B_pos (i / 4)) as Hp.
  rewrite <- Z.div_div by (try lia; apply Z.pow_pos_nonneg; lia). rewrite <- (val_nth n (i / 4) x Ho Hx). set (w := val n / B (i / 4)).
  pose proof (Nat.mod_upper_bound i 4 ltac:(lia)) as Hm. rewrite Z.shiftr_div_pow2 by lia. unfold wrap. change 256 with (2 ^ 8).
  apply Z.bits_inj'. intros j Hj. destruct (Z.ltb_spec j 8); [| by rewrite !Z.mod_pow2_bits_high by lia].
  rewrite !Z.mod_pow2_bits_low, !Z.div_pow2_bits, Z.mod_pow2_bits_low by lia. done.
Qed.

Lemma to_be_bytes_spec n : big_ok LIMBS n -> to_be_bytes n = Bytes.to_be_bytes KEY_BYTES (val n).
Proof.
  intros Hn. unfold to_be_bytes. assert (forall k, (k <= KEY_BYTES)%nat -> rev (map (get_byte n) (seq 0 k)) = Bytes.to_be_bytes k (val n)) as H; [| by apply H].
  induction k as [| k IH]; intros Hk; [done |]. rewrite seq_S, map_app, rev_app_distr. cbn [map rev app Bytes.to_be_bytes Nat.add].
  rewrite get_byte_spec by (done || lia). rewrite IH by lia. done.
Qed.

(** ** The group *)

(** The prime of the specification. *)
Definition P : Z :=
  0xFFFFFFFFFFFFFFFFC90FDAA22168C234C4C6628B80DC1CD129024E088A67CC74020BBEA63B139B22514A08798E3404DDEF9519B3CD3A431B302B0A6DF25F14374FE1356D6D51C245E485B576625E7EC6F44C42E9A63A36210000000000090563.

Lemma prime_bytes_P : prime_bytes = Bytes.to_be_bytes KEY_BYTES P.
Proof.
  unfold prime_bytes. let digits := eval vm_compute in PRIME_HEX in assert (PRIME_HEX = digits) as -> by reflexivity.
  let bytes := eval vm_compute in (Bytes.to_be_bytes KEY_BYTES P) in transitivity bytes; [reflexivity |];
    rewrite <- (to_from_be_bytes bytes) at 1 by (repeat (apply Forall_cons; split; [unfold u_ok; lia |]); by apply Forall_nil).
  apply (f_equal (Bytes.to_be_bytes KEY_BYTES)). vm_compute. reflexivity.
Qed.

Lemma P_bound : 2 ^ 64 < P < 256 ^ Z.of_nat KEY_BYTES.
Proof. split; vm_compute; reflexivity. Qed.

Lemma group_modulus_eq : modulus group = from_be_bytes prime_bytes.
Proof. reflexivity. Qed.

Lemma P_low : P mod 2 ^ 32 = 0x90563.
Proof. vm_compute. reflexivity. Qed.

#[local] Opaque P group prime_bytes.

Lemma group_modulus : big_ok LIMBS (modulus group) /\ val (modulus group) = P.
Proof.
  rewrite group_modulus_eq, prime_bytes_P. pose proof P_bound.
  destruct (from_be_bytes_spec (Bytes.to_be_bytes KEY_BYTES P)) as [H1 H2]; [apply to_be_bytes_ok | by rewrite length_to_be_bytes |].
  split; [exact H1 |]. rewrite H2, from_to_be_bytes_ok by lia. reflexivity.
Qed.

Lemma group_low_limb : exists l, modulus group = 0x90563 :: l.
Proof.
  destruct group_modulus as [[Hl Hn] HP]. destruct (modulus group) as [| x l]; [discriminate Hn |]. exists l. f_equal. rewrite <- P_low, <- HP. cbn [val].
  apply Forall_cons in Hl as [Hx _]. rewrite (Z.mul_comm (2 ^ 32)), Z.mod_add by lia. symmetry. apply Z.mod_small. exact Hx.
Qed.

Lemma group_modulus_ok : modulus_ok (from_be_bytes prime_bytes).
Proof.
  destruct group_modulus as [H1 H2], group_low_limb as [l Hl]. rewrite group_modulus_eq in *. pose proof P_bound.
  split; [done |]. split; [lia |]. by rewrite Hl.
Qed.

(** The group's power function, on numbers below [P]. *)
Lemma group_pow base exponent : big_ok LIMBS base -> val base < P -> bytes_ok exponent ->
  to_be_bytes (pow group base exponent) = Bytes.to_be_bytes KEY_BYTES (val base ^ Bytes.from_be_bytes exponent mod P).
Proof.
  intros Hb Hp He. destruct (montgomery_new_ok _ group_modulus_ok) as (Hg & Hr & Hrm & Hrc). 
  change (new (from_be_bytes prime_bytes)) with group in *. rewrite <- group_modulus_eq in *. destruct group_modulus as [_ HP].
  destruct (pow_spec group Hg base exponent Hr Hrm Hrc Hb) as [H1 H2]; [rewrite HP; exact Hp | exact He |].
  rewrite (to_be_bytes_spec _ H1), H2, HP. reflexivity.
Qed.

Lemma public_key_spec a : bytes_ok a -> public_key a = Bytes.to_be_bytes KEY_BYTES (2 ^ Bytes.from_be_bytes a mod P).
Proof.
  intros Ha. unfold public_key. pose proof P_bound. rewrite group_pow; [by rewrite val_small_big | apply small_big_ok; unfold u_ok; lia | rewrite val_small_big; lia | done].
Qed.

Lemma compare_gtb a b : match a ?= b with Gt => false | _ => true end = negb (b <? a).
Proof. unfold Z.ltb. rewrite (Z.compare_antisym a b). by destruct (a ?= b). Qed.

(** Which keys are refused, and what the others give. *)
Lemma shared_secret_spec y b : bytes_ok y -> length y = KEY_BYTES -> bytes_ok b ->
  shared_secret y b =
  if (1 <? Bytes.from_be_bytes y) && (Bytes.from_be_bytes y <? P - 1)
  then Some (Bytes.to_be_bytes KEY_BYTES (Bytes.from_be_bytes y ^ Bytes.from_be_bytes b mod P)) else None.
Proof.
  intros Hy Hn Hb. destruct (from_be_bytes_spec y Hy) as [[Hyl Hyn] Hyv]; [by rewrite Hn |]. destruct group_modulus as [[Hm Hmn] HP].
  unfold shared_secret. cbv zeta. set (pm := alter _ _ _).
  assert (big_ok LIMBS pm /\ val pm = P - 1) as [[Hpl Hpn] Hpv].
  { destruct group_low_limb as [l Hl]. subst pm. rewrite Hl in *. apply Forall_cons in Hm as [_ Hm]. change (alter _ 0%nat _) with (0x90562 :: l).
    split; [split; [apply Forall_cons; split; [unfold u_ok; lia | done] | done] |]. cbn [val] in *. lia. }
  destruct (small_big_ok 1) as [H1 H1n]; [unfold u_ok; lia |]. rewrite !cmp_spec by (done || congruence). rewrite val_small_big, Hyv, Hpv, compare_gtb.
  destruct (Z.ltb_spec 1 (Bytes.from_be_bytes y)); cbn [negb orb andb]; [| done].
  destruct (Z.compare_spec (Bytes.from_be_bytes y) (P - 1)) as [E | E | E]; destruct (Z.ltb_spec (Bytes.from_be_bytes y) (P - 1)); try lia; try reflexivity.
  rewrite (group_pow _ b (conj Hyl Hyn)); [rewrite Hyv; reflexivity | rewrite Hyv; lia | exact Hb].
Qed.

(** The secret from a public key. *)
Lemma public_secret_spec x y : bytes_ok x -> bytes_ok y ->
  shared_secret (public_key x) y =
  if (1 <? 2 ^ Bytes.from_be_bytes x mod P) && (2 ^ Bytes.from_be_bytes x mod P <? P - 1)
  then Some (Bytes.to_be_bytes KEY_BYTES (2 ^ (Bytes.from_be_bytes x * Bytes.from_be_bytes y) mod P)) else None.
Proof.
  intros Hx Hy. pose proof P_bound. pose proof (from_be_bytes_bound x Hx) as Bx. pose proof (from_be_bytes_bound y Hy) as By.
  rewrite public_key_spec by exact Hx. rewrite shared_secret_spec by (exact Hy || apply to_be_bytes_ok || apply length_to_be_bytes).
  pose proof (Z.mod_pos_bound (2 ^ Bytes.from_be_bytes x) P ltac:(lia)). rewrite from_to_be_bytes_ok by lia.
  rewrite Z.pow_mul_r by lia. by rewrite Z.mod_pow_l.
Qed.

Lemma public_secret x y : bytes_ok x -> bytes_ok y -> 1 < 2 ^ Bytes.from_be_bytes x mod P < P - 1 ->
  shared_secret (public_key x) y = Some (Bytes.to_be_bytes KEY_BYTES (2 ^ (Bytes.from_be_bytes x * Bytes.from_be_bytes y) mod P)).
Proof. intros Hx Hy [H1 H2]. rewrite public_secret_spec by done. by rewrite (proj2 (Z.ltb_lt _ _) H1), (proj2 (Z.ltb_lt _ _) H2). Qed.

(** ** Properties *)

(** C11: Montgomery exponentiation is exponentiation.  For every odd modulus
    of at most 768 bits above one, every base below it and every exponent, the
    limb-by-limb loops of [new], [mul] and [pow], carries and wrap-around
    included, compute the power modulo the modulus. *)
Theorem montgomery_pow (m base : Big) (exponent : list Z)
    (Hm : modulus_ok m) (Hb : big_ok LIMBS base) (Hlt : val base < val m) (He : bytes_ok exponent) :
  big_ok LIMBS (pow (new m) base exponent) /\
  val (pow (new m) base exponent) = val base ^ Bytes.from_be_bytes exponent mod val m.
Proof. destruct (montgomery_new_ok m Hm) as (Hg & Hr & Hrm & Hrc). by apply (pow_spec (new m) Hg). Qed.

(** The two ends of a Diffie-Hellman exchange agree.  The public key of
    [a] is refused exactly when it is 0, 1 or [P - 1]; and when neither key is
    refused, both sides compute the same 96-byte secret, [2^(a*b)] modulo the
    prime. *)
Theorem key_exchange_agrees (a b : list Z) (Ha : bytes_ok a) (Hb : bytes_ok b) :
  (is_Some (shared_secret (public_key a) b) <-> 1 < 2 ^ Bytes.from_be_bytes a mod P < P - 1) /\
  (is_Some (shared_secret (public_key a) b) -> is_Some (shared_secret (public_key b) a) ->
   shared_secret (public_key a) b = shared_secret (public_key b) a /\
   shared_secret (public_key a) b = Some (Bytes.to_be_bytes KEY_BYTES (2 ^ (Bytes.from_be_bytes a * Bytes.from_be_bytes b) mod P))).
Proof.
  rewrite !public_secret_spec by done. split.
  - destruct (Z.ltb_spec 1 (2 ^ Bytes.from_be_bytes a mod P)), (Z.ltb_spec (2 ^ Bytes.from_be_bytes a mod P) (P - 1)); cbn [andb];
      (split; [intros [? ?]; (done || lia) | intros; try lia; by eexists]).
  - destruct (_ && _); intros [? E]; [| done]. destruct (_ && _); intros [? E2]; [| done]. by rewrite (Z.mul_comm (Bytes.from_be_bytes b)).
Qed.

(** ** The theorems at concrete inputs *)

Definition nine : Big := small_big 9.

Lemma montgomery_pow_witness : modulus_ok nine /\ val (pow (new nine) (small_big 2) [1; 0]) = 2 ^ 256 mod 9.
Proof.
  assert (modulus_ok nine) as H by (split; [apply small_big_ok; unfold u_ok; lia | split; [unfold nine; rewrite val_small_big; lia | reflexivity]]).
  split; [exact H |]. apply (montgomery_pow nine (small_big 2) [1; 0] H); [apply small_big_ok; unfold u_ok; lia | vm_compute; reflexivity | repeat constructor; vm_compute; congruence].
Defined.

Lemma small_key (z : Z) : 1 < z < 32 -> 1 < 2 ^ Bytes.from_be_bytes [z] mod P < P - 1.
Proof.
  intros Hz. rewrite from_be_bytes_cons. change (z * 256 ^ zlen (@nil Z) + Bytes.from_be_bytes []) with (z * 1 + 0). rewrite Z.mul_1_r, Z.add_0_r.
  pose proof P_bound. assert (2 ^ 1 < 2 ^ z < 2 ^ 32) by (split; apply Z.pow_lt_mono_r; lia). rewrite Z.mod_small by lia. lia.
Qed.

Lemma key_exchange_agrees_witness :
  shared_secret (public_key [2]) [3] = shared_secret (public_key [3]) [2] /\ is_Some (shared_secret (public_key [2]) [3]).
Proof.
  assert (bytes_ok [2]) as H2 by (repeat constructor; vm_compute; congruence). assert (bytes_ok [3]) as H3 by (repeat constructor; vm_compute; congruence).
  assert (is_Some (shared_secret (public_key [2]) [3])) as E by (apply (proj1 (key_exchange_agrees [2] [3] H2 H3)); apply small_key; lia).
  assert (is_Some (shared_secret (public_key [3]) [2])) as E' by (apply (proj1 (key_exchange_agrees [3] [2] H3 H2)); apply small_key; lia).
  split; [exact (proj1 (proj2 (key_exchange_agrees [2] [3] H2 H3) E E')) | exact E].
Defined.
