(* ===== verification/Bencode.v ===== *)
(** * Bencode (BEP 3)

    Models [src/src/bencode.rs]: the value type, the single-pass decoder with
    its cursor, its strict and lenient modes and its nesting limit, and the
    canonical encoder.

    The decoder is recursive ([decode_value] calls [decode_list] and
    [decode_dict], which call it back), so its model takes fuel; [None] is
    "out of fuel".  [decode] supplies [2 * |data| + 2], and [decode_terminates]
    shows that this is always enough. *)

From S2P Require Import Prelude Numeral BTree.

(** ** Values *)

Inductive Bencode : Type :=
| Int (i : Z)
| Bytes (b : list Z)
| List (items : list Bencode)
| Dict (m : list (list Z * Bencode)).

(** UTF-8 validity, as [std::str::from_utf8] decides it. *)
Definition utf8_cont (b : Z) : bool := (128 <=? b) && (b <=? 191).

Fixpoint from_utf8_ok (bs : list Z) : bool :=
  match bs with
  | [] => true
  | b :: r =>
      if b <? 128 then from_utf8_ok r
      else if (194 <=? b) && (b <=? 223) then
        match r with
        | c1 :: r1 => utf8_cont c1 && from_utf8_ok r1
        | _ => false
        end
      else if (224 <=? b) && (b <=? 239) then
        match r with
        | c1 :: c2 :: r2 =>
            (if b =? 224 then (160 <=? c1) && (c1 <=? 191)
             else if b =? 237 then (128 <=? c1) && (c1 <=? 159)
             else utf8_cont c1) && utf8_cont c2 && from_utf8_ok r2
        | _ => false
        end
      else if (240 <=? b) && (b <=? 244) then
        match r with
        | c1 :: c2 :: c3 :: r3 =>
            (if b =? 240 then (144 <=? c1) && (c1 <=? 191)
             else if b =? 244 then (128 <=? c1) && (c1 <=? 143)
             else utf8_cont c1) && utf8_cont c2 && utf8_cont c3 && from_utf8_ok r3
        | _ => false
        end
      else false
  end.

Definition as_bytes (v : Bencode) : option (list Z) :=
  match v with Bytes b => Some b | _ => None end.

Definition as_str (v : Bencode) : option (list Z) :=
  match as_bytes v with
  | Some b => if from_utf8_ok b then Some b else None
  | None => None
  end.

Definition as_int (v : Bencode) : option Z :=
  match v with Int i => Some i | _ => None end.

Definition as_list (v : Bencode) : option (list Bencode) :=
  match v with List l => Some l | _ => None end.

Definition as_dict (v : Bencode) : option (list (list Z * Bencode)) :=
  match v with Dict d => Some d | _ => None end.

(** [Bencode::get]: a dictionary entry by key. *)
Definition get (v : Bencode) (key : list Z) : option Bencode :=
  match as_dict v with Some d => bt_get d key | None => None end.

Inductive DecodeError : Type :=
| TooDeep
| UnexpectedEof
| InvalidDigit (b : Z)
| InvalidTag (b : Z)
| LeadingZero
| LengthMismatch (expected remaining : Z)
| TrailingGarbage (pos : Z)
| NonUtf8Int
| UnsortedOrDuplicateKey.

(** ** The decoder *)

Record Decoder : Type := mkDecoder {
  data : list Z;
  pos : Z;
  strict : bool;
  depth : Z
}.

Definition MAX_DEPTH : Z := 100.

Definition new (d : list Z) : Decoder := mkDecoder d 0 true 0.
Definition new_lenient (d : list Z) : Decoder := mkDecoder d 0 false 0.

(** [self.pos += n]. *)
Definition bump (d : Decoder) (n : Z) : Decoder :=
  mkDecoder (data d) (pos d + n) (strict d) (depth d).

Definition with_depth (d : Decoder) (n : Z) : Decoder :=
  mkDecoder (data d) (pos d) (strict d) n.

Definition peek (d : Decoder) : result Z DecodeError :=
  ok_or (zget (data d) (pos d)) UnexpectedEof.

Definition advance (d : Decoder) (n : Z) : result (list Z * Decoder) DecodeError :=
  match u_checked_add 64 (pos d) n with
  | None => Err UnexpectedEof
  | Some end_ =>
      if zlen (data d) <? end_ then Err (LengthMismatch n (zlen (data d) - pos d))
      else Ok (slice (data d) (pos d) end_, mkDecoder (data d) end_ (strict d) (depth d))
  end.

(** The digit loop of [parse_signed_until] over what is left of the input:
    how many digits precede the terminator. *)
Fixpoint scan_digits (terminator : Z) (rest : list Z) : result Z DecodeError :=
  match rest with
  | [] => Err UnexpectedEof
  | b :: rest' =>
      if b =? terminator then Ok 0
      else if negb (is_ascii_digit b) then Err (InvalidDigit b)
      else let? n := scan_digits terminator rest' in Ok (1 + n)
  end.

Definition parse_signed_until (d : Decoder) (terminator : Z) : result (Z * Decoder) DecodeError :=
  let start := pos d in
  let? first := peek d in
  let negative := first =? 45 in
  let digits_start := if negative then start + 1 else start in
  let? n := scan_digits terminator (drop (Z.to_nat digits_start) (data d)) in
  let stop := digits_start + n in
  let digits := slice (data d) digits_start stop in
  if bool_decide (digits = []) then Err (InvalidDigit terminator)
  else if (1 <? zlen digits) && bool_decide (zget digits 0 = Some 48) then Err LeadingZero
  else if bool_decide (digits = [48]) && negative then Err LeadingZero
  else
    let s := slice (data d) start stop in
    if negb (from_utf8_ok s) then Err NonUtf8Int
    else
      let? i := ok_or (parse_i64 s) (InvalidDigit terminator) in
      Ok (i, mkDecoder (data d) (stop + 1) (strict d) (depth d)).

Definition decode_int (d : Decoder) : result (Z * Decoder) DecodeError :=
  parse_signed_until (bump d 1) 101.

Definition decode_bytes (d : Decoder) : result (list Z * Decoder) DecodeError :=
  let? (len, d1) := parse_signed_until d 58 in
  if len <? 0 then Err (InvalidDigit 58) else advance d1 len.

(** The [strict] check of [decode_dict] on a key just read. *)
Definition key_out_of_order (d : Decoder) (last_key : option (list Z)) (key : list Z) : bool :=
  strict d &&
  match last_key with
  | Some prev => match lex_cmp key prev with Gt => false | _ => true end
  | None => false
  end.

Abbreviation fuelled A := (option (result A DecodeError)).

Fixpoint decode_value (fuel : nat) (d : Decoder) : fuelled (Bencode * Decoder) :=
  match fuel with
  | O => None
  | S fuel' =>
      let! tag := Some (peek d) in
      if (tag =? 108) || (tag =? 100) then
        if MAX_DEPTH <=? depth d then Some (Err TooDeep)
        else
          let d1 := with_depth d (depth d + 1) in
          let! (v, d2) :=
            (if tag =? 108
             then let! (items, d2) := decode_list fuel' [] (bump d1 1) in Some (Ok (List items, d2))
             else let! (m, d2) := decode_dict fuel' [] None (bump d1 1) in Some (Ok (Dict m, d2))) in
          Some (Ok (v, with_depth d2 (depth d2 - 1)))
      else if tag =? 105 then
        let! (i, d1) := Some (decode_int d) in Some (Ok (Int i, d1))
      else if is_ascii_digit tag then
        let! (b, d1) := Some (decode_bytes d) in Some (Ok (Bytes b, d1))
      else Some (Err (InvalidTag tag))
  end

(** The loop of [decode_list], after the ['l'] was consumed. *)
with decode_list (fuel : nat) (items : list Bencode) (d : Decoder) : fuelled (list Bencode * Decoder) :=
  match fuel with
  | O => None
  | S fuel' =>
      let! b := Some (peek d) in
      if b =? 101 then Some (Ok (items, bump d 1))
      else
        let! (v, d1) := decode_value fuel' d in
        decode_list fuel' (items ++ [v]) d1
  end

(** The loop of [decode_dict], after the ['d'] was consumed. *)
with decode_dict (fuel : nat) (m : list (list Z * Bencode)) (last_key : option (list Z)) (d : Decoder)
    : fuelled (list (list Z * Bencode) * Decoder) :=
  match fuel with
  | O => None
  | S fuel' =>
      let! b := Some (peek d) in
      if b =? 101 then Some (Ok (m, bump d 1))
      else
        let! (key, d1) := Some (decode_bytes d) in
        if key_out_of_order d last_key key then Some (Err UnsortedOrDuplicateKey)
        else
          let last_key' := if strict d then Some key else last_key in
          let! (v, d2) := decode_value fuel' d1 in
          decode_dict fuel' (bt_or_insert m key v) last_key' d2
  end.

Definition decode_top_level (fuel : nat) (d : Decoder) : fuelled Bencode :=
  let! (v, d1) := decode_value fuel d in
  if negb (pos d1 =? zlen (data d1)) then Some (Err (TrailingGarbage (pos d1)))
  else Some (Ok v).

Definition decode_value_with_span (fuel : nat) (d : Decoder) : fuelled ((Bencode * (Z * Z)) * Decoder) :=
  let start := pos d in
  let! (v, d1) := decode_value fuel d in
  Some (Ok ((v, (start, pos d1)), d1)).

Definition decode_fuel (bs : list Z) : nat := (2 * length bs + 2)%nat.

Definition decode (bs : list Z) : fuelled Bencode := decode_top_level (decode_fuel bs) (new bs).

Definition decode_lenient (bs : list Z) : fuelled Bencode :=
  decode_top_level (decode_fuel bs) (new_lenient bs).

(** ** The encoder *)

Definition encode_bytes (b : list Z) : list Z := u_to_string (zlen b) ++ [58] ++ b.

Fixpoint encode_into (v : Bencode) : list Z :=
  match v with
  | Int i => [105] ++ i64_to_string i ++ [101]
  | Bytes b => encode_bytes b
  | List items => [108] ++ flat_map encode_into items ++ [101]
  | Dict m => [100] ++ flat_map (fun kv => encode_bytes kv.1 ++ encode_into kv.2) m ++ [101]
  end.

Definition encode (v : Bencode) : list Z := encode_into v.

(** ** Well-formed values: what the Rust type can hold *)

Fixpoint wf (v : Bencode) : Prop :=
  match v with
  | Int i => i64_ok i
  | Bytes b => zlen b <= i64_max
  | List items => foldr (fun x P => wf x /\ P) True items
  | Dict m => bt_sorted m /\ foldr (fun kv P => (zlen kv.1 <= i64_max /\ wf kv.2) /\ P) True m
  end.

(** How deeply lists and dictionaries nest in a value. *)
Fixpoint nesting (v : Bencode) : Z :=
  match v with
  | Int _ | Bytes _ => 0
  | List items => 1 + foldr (fun x n => Z.max (nesting x) n) 0 items
  | Dict m => 1 + foldr (fun kv n => Z.max (nesting kv.2) n) 0 m
  end.

(** ** Induction over values *)

Section bencode_ind.
Variable P : Bencode -> Prop.
Hypothesis HInt : forall i, P (Int i).
Hypothesis HBytes : forall b, P (Bytes b).
Hypothesis HList : forall items, Forall P items -> P (List items).
Hypothesis HDict : forall m, Forall (fun kv => P kv.2) m -> P (Dict m).

Fixpoint Bencode_ind_nested (v : Bencode) : P v :=
  match v with
  | Int i => HInt i
  | Bytes b => HBytes b
  | List items =>
      HList items
        ((fix go (l : list Bencode) : Forall P l :=
            match l with
            | [] => Forall_nil_2 _
            | x :: l' => Forall_cons_2 _ _ _ (Bencode_ind_nested x) (go l')
            end) items)
  | Dict m =>
      HDict m
        ((fix go (l : list (list Z * Bencode)) : Forall (fun kv => P kv.2) l :=
            match l with
            | [] => Forall_nil_2 _
            | kv :: l' => Forall_cons_2 _ _ _ (Bencode_ind_nested kv.2) (go l')
            end) m)
  end.
End bencode_ind.

Lemma wf_List items : wf (List items) <-> Forall wf items.
Proof. simpl. induction items; simpl; rewrite ?Forall_cons, ?Forall_nil; naive_solver. Qed.

Lemma wf_Dict m :
  wf (Dict m) <-> bt_sorted m /\ Forall (fun kv => zlen kv.1 <= i64_max /\ wf kv.2) m.
Proof.
  simpl. apply and_iff_compat_l.
  induction m; simpl; rewrite ?Forall_cons, ?Forall_nil; naive_solver.
Qed.

Lemma nesting_container v :
  match v with Int _ | Bytes _ => nesting v = 0 | _ => 1 <= nesting v end.
Proof.
  destruct v; simpl; [done | done | |].
  - assert (0 <= foldr (fun x n => Z.max (nesting x) n) 0 items); [| lia].
    induction items; simpl; lia.
  - assert (0 <= foldr (fun (kv : list Z * Bencode) n => Z.max (nesting kv.2) n) 0 m); [| lia].
    induction m; simpl; lia.
Qed.

Lemma nesting_List items n :
  0 <= n -> nesting (List items) <= 1 + n <-> Forall (fun x => nesting x <= n) items.
Proof.
  intros Hn. simpl. induction items as [| x items IH]; simpl.
  - rewrite Forall_nil. naive_solver lia.
  - rewrite Forall_cons, <- IH. lia.
Qed.

Lemma nesting_Dict m n :
  0 <= n -> nesting (Dict m) <= 1 + n <-> Forall (fun kv => nesting kv.2 <= n) m.
Proof.
  intros Hn. simpl. induction m as [| x m IH]; simpl.
  - rewrite Forall_nil. naive_solver lia.
  - rewrite Forall_cons, <- IH. lia.
Qed.

(** ** What is left to read

    [in_range d]: the cursor is inside the input, and the input is no longer
    than a Rust slice can be ([isize::MAX] bytes).  [consumes d bs d']: the
    decoder went from [d] to [d'] by reading exactly the bytes [bs]. *)

Definition rest (d : Decoder) : list Z := drop (Z.to_nat (pos d)) (data d).
Definition in_range (d : Decoder) : Prop :=
  0 <= pos d <= zlen (data d) /\ zlen (data d) <= i64_max.
Definition consumes (d : Decoder) (bs : list Z) (d' : Decoder) : Prop :=
  rest d = bs ++ rest d' /\ d' = bump d (zlen bs).

Lemma bump_bump d a b : bump (bump d a) b = bump d (a + b).
Proof. unfold bump. simpl. f_equal. lia. Qed.

Lemma bump_0 d : bump d 0 = d.
Proof. destruct d. unfold bump. simpl. f_equal. lia. Qed.

Lemma rest_bump d bs post :
  in_range d -> rest d = bs ++ post -> rest (bump d (zlen bs)) = post /\ in_range (bump d (zlen bs)).
Proof.
  unfold rest, in_range, bump. intros Hr Hd. simpl.
  assert (length (rest d) = length bs + length post)%nat as Hlen
    by (unfold rest; by rewrite Hd, length_app).
  unfold rest in Hlen. rewrite length_drop in Hlen. unfold zlen in *. split; [| lia].
  rewrite Z2Nat.inj_add, Nat2Z.id by lia.
  rewrite <- drop_drop, Hd. apply drop_app_length.
Qed.

Lemma rest_length d : in_range d -> zlen (rest d) = zlen (data d) - pos d.
Proof. unfold rest, in_range, zlen. intros. rewrite length_drop. lia. Qed.

Lemma consumes_intro d bs post :
  in_range d -> rest d = bs ++ post -> consumes d bs (bump d (zlen bs)).
Proof. intros Hr Hd. split; [| done]. destruct (rest_bump d bs post) as [-> _]; done. Qed.

Lemma consumes_in_range d bs d' : in_range d -> consumes d bs d' -> in_range d'.
Proof. intros Hr [Hd ->]. by eapply rest_bump. Qed.

Lemma consumes_app d b1 d1 b2 d2 :
  consumes d b1 d1 -> consumes d1 b2 d2 -> consumes d (b1 ++ b2) d2.
Proof.
  intros [H1 ->] [H2 ->]. split.
  - by rewrite H1, H2, app_assoc.
  - rewrite bump_bump. f_equal. by rewrite zlen_app.
Qed.

Lemma consumes_nil d : consumes d [] d.
Proof. split; [done |]. by rewrite zlen_nil, bump_0. Qed.

Lemma peek_rest d b : in_range d -> peek d = Ok b <-> exists post, rest d = b :: post.
Proof.
  intros Hr. unfold peek, zget, rest, in_range in *. rewrite ok_or_Ok.
  rewrite (proj2 (Z.ltb_ge _ _)) by lia. split.
  - intros Hb. eexists. by apply drop_S.
  - intros [post Hp]. rewrite <- (Nat.add_0_r (Z.to_nat (pos d))), <- lookup_drop, Hp. done.
Qed.

Lemma consumes_byte d b : in_range d -> peek d = Ok b -> consumes d [b] (bump d 1).
Proof. intros Hr [post Hp]%peek_rest; [| done]. by apply (consumes_intro d [b] post). Qed.

Lemma rest_with_depth d n : rest (with_depth d n) = rest d.
Proof. done. Qed.

(** ** Numbers *)

Lemma scan_digits_Ok term l n :
  is_ascii_digit term = false ->
  scan_digits term l = Ok n <->
  exists ds post, l = ds ++ term :: post /\ Forall (fun d => is_ascii_digit d = true) ds /\ zlen ds = n.
Proof.
  intros Ht. revert n. induction l as [| b l IH]; intros n; simpl.
  - split; [done |]. by intros ([|] & ? & ? & _).
  - destruct (Z.eqb_spec b term) as [-> | Hne].
    + split.
      * intros [= <-]. by exists [], l.
      * intros ([| x ds] & post & Hl & Hds & <-); [done |].
        injection Hl as -> _. apply Forall_cons in Hds as [? _]. congruence.
    + destruct (is_ascii_digit b) eqn:Eb; simpl.
      * rewrite result_bind_Ok. split.
        -- intros (m & (ds & post & -> & Hds & <-)%IH & [= <-]).
           exists (b :: ds), post. rewrite zlen_cons. auto.
        -- intros ([| x ds] & post & [= -> ->] & Hds & <-); [done |].
           apply Forall_cons in Hds as [_ Hds]. exists (zlen ds). rewrite zlen_cons.
           split; [| done]. apply IH. eauto.
      * split; [done |]. intros ([| x ds] & post & [= -> ->] & Hds & _); [done |].
        apply Forall_cons in Hds as [? _]. congruence.
Qed.

Lemma slice_of_drop {A} (l ds post : list A) a :
  drop (Z.to_nat a) l = ds ++ post -> slice l a (a + zlen ds) = ds.
Proof.
  intros Hd. unfold slice. rewrite Hd. replace (Z.to_nat _) with (length ds) by (unfold zlen; lia).
  apply take_app_length.
Qed.

Lemma from_utf8_ascii s : Forall (fun b => b < 128) s -> from_utf8_ok s = true.
Proof. induction 1; simpl; [done |]. by rewrite (proj2 (Z.ltb_lt _ _)). Qed.

Lemma digits_ascii ds : Forall (fun d => is_ascii_digit d = true) ds -> Forall (fun b => b < 128) ds.
Proof. intros H. eapply Forall_impl; [exact H |]. intros x Hx%is_ascii_digit_iff. lia. Qed.

(** The three rejections of [parse_signed_until] are exactly what makes the
    digits canonical. *)
Lemma canonical_checks ds :
  Forall (fun d => is_ascii_digit d = true) ds ->
  canonical ds <->
  bool_decide (ds = []) = false /\ ((1 <? zlen ds) && bool_decide (zget ds 0 = Some 48))%bool = false.
Proof.
  intros Hds. unfold canonical. rewrite bool_decide_eq_false, andb_false_iff, bool_decide_eq_false, Z.ltb_ge.
  destruct ds as [| x ds]; [naive_solver |]. unfold zget. simpl. rewrite zlen_cons. split.
  - intros (_ & _ & H0). split; [done |]. destruct (decide (x = 48)) as [-> |]; [| right; congruence].
    left. rewrite (H0 ds eq_refl), zlen_nil. lia.
  - intros [_ H0]. split; [done |]. split; [done |]. intros r [= -> ->].
    destruct H0 as [H0 | H0]; [| done]. apply zlen_0_nil. pose proof (zlen_nonneg r). lia.
Qed.

(** What [parse_signed_until] does with a sign and digits in front of it. *)
Lemma parse_signed_eval d term (neg : bool) ds post :
  in_range d -> is_ascii_digit term = false -> term <> 45 ->
  Forall (fun x => is_ascii_digit x = true) ds ->
  rest d = (if neg then [45] else []) ++ ds ++ term :: post ->
  parse_signed_until d term =
    if bool_decide (ds = []) then Err (InvalidDigit term)
    else if (1 <? zlen ds) && bool_decide (zget ds 0 = Some 48) then Err LeadingZero
    else if bool_decide (ds = [48]) && neg then Err LeadingZero
    else
      let? i := ok_or (parse_i64 ((if neg then [45] else []) ++ ds)) (InvalidDigit term) in
      Ok (i, bump d (zlen ((if neg then [45] else []) ++ ds ++ [term]))).
Proof.
  intros Hr Hterm H45 Hds Hrest. set (sign := if neg then [45] else []) in *.
  assert (exists first, peek d = Ok first /\ (first =? 45) = neg) as (first & Hpeek & Hfirst).
  { subst sign. destruct neg; simpl in Hrest.
    - exists 45. split; [| done]. apply peek_rest; eauto.
    - destruct ds as [| x ds]; simpl in Hrest.
      + exists term. split; [apply peek_rest; eauto |]. by apply Z.eqb_neq.
      + exists x. split; [apply peek_rest; eauto |]. apply Forall_cons in Hds as [Hx _].
        apply is_ascii_digit_iff in Hx. apply Z.eqb_neq. lia. }
  unfold parse_signed_until. rewrite Hpeek. cbn [result_bind]. rewrite Hfirst.
  assert ((if neg then pos d + 1 else pos d) = pos d + zlen sign) as ->.
  { subst sign. destruct neg; rewrite ?zlen_cons, ?zlen_nil; lia. }
  destruct (rest_bump d sign (ds ++ term :: post)) as [Hrest1 Hr1]; [done.. |].
  unfold rest in Hrest1. simpl in Hrest1. rewrite Hrest1.
  assert (scan_digits term (ds ++ term :: post) = Ok (zlen ds)) as ->
    by (apply scan_digits_Ok; eauto).
  cbn [result_bind]. rewrite (slice_of_drop _ ds (term :: post)) by done.
  replace (pos d + zlen sign + zlen ds) with (pos d + zlen (sign ++ ds)) by (rewrite zlen_app; lia).
  rewrite (slice_of_drop _ (sign ++ ds) (term :: post))
    by (unfold rest in Hrest; rewrite Hrest, app_assoc; done).
  rewrite (from_utf8_ascii (sign ++ ds)).
  - cbn [negb]. repeat (case_match; [done |]). destruct (parse_i64 _); [| done]. cbn [ok_or result_bind].
    do 2 f_equal. unfold bump. f_equal. zlen_lia.
  - apply Forall_app. split; [| by apply digits_ascii]. subst sign. destruct neg; repeat constructor.
Qed.

Lemma parse_signed_Ok d term i d' :
  in_range d -> is_ascii_digit term = false -> term <> 45 ->
  parse_signed_until d term = Ok (i, d') ->
  i64_ok i /\ consumes d (i64_to_string i ++ [term]) d'.
Proof.
  intros Hr Hterm H45 Hp.
  assert (exists (neg : bool) ds post, rest d = (if neg then [45] else []) ++ ds ++ term :: post /\
    Forall (fun x => is_ascii_digit x = true) ds) as (neg & ds & post & Hrest & Hds).
  { pose proof Hp as Hp'. unfold parse_signed_until in Hp'.
    apply result_bind_Ok in Hp' as (first & Hpeek & Hp').
    apply result_bind_Ok in Hp' as (n & Hscan & _).
    apply scan_digits_Ok in Hscan as (ds & post & Hdrop & Hds & _); [| done].
    apply peek_rest in Hpeek as [post0 Hpost0]; [| done].
    exists (first =? 45), ds, post. split; [| done].
    destruct (Z.eqb_spec first 45) as [-> |]; [| exact Hdrop].
    rewrite Hpost0. simpl. f_equal. rewrite <- Hdrop.
    destruct (rest_bump d [45] post0) as [<- _]; done. }
  rewrite (parse_signed_eval d term neg ds post) in Hp by done.
  destruct (bool_decide (ds = [])) eqn:E1; [done |].
  destruct ((1 <? zlen ds) && _)%bool eqn:E2; [done |].
  assert (canonical ds) as Hcan by (apply canonical_checks; auto).
  destruct (bool_decide (ds = [48]) && neg)%bool eqn:E3; [done |].
  apply result_bind_Ok in Hp as (j & Hj%ok_or_Ok & [= <- <-]).
  apply parse_i64_Some in Hj as [Hi Hj].
  enough (i64_to_string j = (if neg then [45] else []) ++ ds) as Hstr.
  { split; [done |]. rewrite Hstr, <- app_assoc. eapply consumes_intro; [done |].
    rewrite Hrest. by rewrite <- !app_assoc. }
  pose proof (canonical_head _ Hcan) as (x & r & Hx & Hdig). apply is_ascii_digit_iff in Hdig.
  unfold i64_to_string. destruct neg.
  - simpl in Hj. rewrite parse_digits_canonical in Hj by done. injection Hj as <-.
    assert (1 <= digits_value ds).
    { apply canonical_positive; [done |]. rewrite andb_true_r in E3. by apply bool_decide_eq_false in E3. }
    rewrite (proj2 (Z.ltb_lt _ _)) by lia. rewrite Z.opp_involutive. simpl. f_equal.
    by apply u_to_string_of_value.
  - simpl in *. rewrite Hx in Hj. rewrite !(proj2 (Z.eqb_neq x _)), <- Hx in Hj by lia.
    rewrite parse_digits_canonical in Hj by done. injection Hj as <-.
    rewrite (proj2 (Z.ltb_ge _ _)) by (apply digits_value_nonneg; done).
    by apply u_to_string_of_value.
Qed.

Lemma parse_signed_of_string d term i post :
  in_range d -> is_ascii_digit term = false -> term <> 45 -> i64_ok i ->
  rest d = i64_to_string i ++ term :: post ->
  parse_signed_until d term = Ok (i, bump d (zlen (i64_to_string i ++ [term]))).
Proof.
  intros Hr Hterm H45 Hi Hrest. pose proof (parse_i64_to_string i Hi) as Hp.
  unfold i64_to_string in *. destruct (Z.ltb_spec i 0).
  - pose proof (u_to_string_canonical (- i) ltac:(lia)) as Hc. pose proof Hc as (_ & Hds & _).
    rewrite (parse_signed_eval d term true (u_to_string (- i)) post) by done.
    apply canonical_checks in Hc as [-> ->]; [| done].
    destruct (bool_decide _) eqn:E; [| simpl; by rewrite Hp].
    apply bool_decide_eq_true in E. pose proof (u_to_string_value (- i) ltac:(lia)) as Hv.
    rewrite E in Hv. unfold digits_value in Hv. simpl in Hv. lia.
  - pose proof (u_to_string_canonical i ltac:(lia)) as Hc. pose proof Hc as (_ & Hds & _).
    rewrite (parse_signed_eval d term false (u_to_string i) post) by done.
    apply canonical_checks in Hc as [-> ->]; [| done].
    rewrite andb_false_r. simpl. by rewrite Hp.
Qed.

(** ** Byte strings *)

Lemma decode_bytes_Ok d b d' :
  in_range d -> decode_bytes d = Ok (b, d') ->
  zlen b <= i64_max /\ consumes d (encode_bytes b) d'.
Proof.
  intros Hr Hd. unfold decode_bytes in Hd.
  apply result_bind_Ok in Hd as ([len d1] & Hp & Hd).
  apply parse_signed_Ok in Hp as [Hlen Hc]; [| done..].
  destruct (Z.ltb_spec len 0); [done |].
  pose proof (consumes_in_range _ _ _ Hr Hc) as Hr1.
  unfold advance, u_checked_add in Hd. destruct (pos d1 + len <=? u_max 64); [| done].
  destruct (Z.ltb_spec (zlen (data d1)) (pos d1 + len)) as [| Hfit]; [done |].
  injection Hd as <- <-.
  assert (zlen (slice (data d1) (pos d1) (pos d1 + len)) = len) as Hb
    by (rewrite zlen_slice; unfold in_range in Hr1; lia).
  split; [unfold i64_ok in Hlen; lia |].
  unfold encode_bytes. rewrite Hb. rewrite app_assoc. eapply consumes_app.
  - unfold i64_to_string in Hc. rewrite (proj2 (Z.ltb_ge _ _)) in Hc by lia. exact Hc.
  - set (b := slice _ _ _) in *. rewrite <- Hb.
    apply (consumes_intro d1 b (drop (Z.to_nat len) (rest d1))); [done |].
    subst b. unfold slice, rest.
    replace (Z.to_nat (pos d1 + len - pos d1)) with (Z.to_nat len) by lia.
    symmetry. apply take_drop.
Qed.

Lemma decode_bytes_of_encode d b post :
  in_range d -> zlen b <= i64_max -> rest d = encode_bytes b ++ post ->
  decode_bytes d = Ok (b, bump d (zlen (encode_bytes b))).
Proof.
  intros Hr Hb Hrest. unfold decode_bytes.
  assert (i64_to_string (zlen b) = u_to_string (zlen b)) as Hstr.
  { unfold i64_to_string. rewrite (proj2 (Z.ltb_ge _ _)) by apply zlen_nonneg. done. }
  assert (rest d = (u_to_string (zlen b) ++ [58]) ++ (b ++ post)) as Hrest'.
  { rewrite Hrest. unfold encode_bytes. by rewrite <- !app_assoc. }
  destruct (rest_bump d _ _ Hr Hrest') as [Hrest1 Hr1].
  rewrite (parse_signed_of_string d 58 (zlen b) (b ++ post)); [| done.. | |].
  2: { unfold i64_ok, i64_min. pose proof (zlen_nonneg b). lia. }
  2: { rewrite Hstr, Hrest'. by rewrite <- app_assoc. }
  rewrite Hstr. cbn [result_bind]. rewrite (proj2 (Z.ltb_ge _ _)) by apply zlen_nonneg.
  set (d1 := bump d _) in *. unfold advance, u_checked_add.
  assert (pos d1 + zlen b <= zlen (data d1)).
  { pose proof (rest_length _ Hr1) as Hl. rewrite Hrest1, zlen_app in Hl.
    pose proof (zlen_nonneg post). lia. }
  rewrite (proj2 (Z.leb_le _ _)) by (unfold in_range, i64_max, u_max in *; lia).
  rewrite (proj2 (Z.ltb_ge _ _)) by lia.
  unfold rest in Hrest1. rewrite (slice_of_drop _ b post) by done.
  do 2 f_equal. subst d1. unfold bump. simpl. f_equal. unfold encode_bytes. zlen_lia.
Qed.

Lemma encode_bytes_head b : exists x r, encode_bytes b = x :: r /\ is_ascii_digit x = true.
Proof.
  unfold encode_bytes.
  destruct (canonical_head (u_to_string (zlen b))) as (x & r & -> & Hx).
  - apply u_to_string_canonical, zlen_nonneg.
  - simpl. eauto.
Qed.

(** Every encoding begins with a tag that is not the list terminator. *)
Lemma encode_head v : exists x r, encode_into v = x :: r /\ x <> 101.
Proof.
  destruct v; simpl; try (by eauto).
  destruct (encode_bytes_head b) as (x & r & -> & Hx%is_ascii_digit_iff).
  exists x, r. split; [done | lia].
Qed.

Lemma length_encode_pos v : (1 <= length (encode_into v))%nat.
Proof. destruct (encode_head v) as (x & r & -> & _). simpl. lia. Qed.

(** ** Decoding what was encoded *)

Lemma with_depth_back d n m :
  with_depth (bump (bump (with_depth d (depth d + 1)) n) m) (depth d + 1 - 1) = bump d (n + m).
Proof. destruct d. unfold with_depth, bump. simpl. f_equal; lia. Qed.

Definition decodes (v : Bencode) : Prop :=
  forall fuel d post,
    in_range d -> depth d + nesting v <= MAX_DEPTH ->
    (2 * length (encode_into v) <= fuel)%nat ->
    rest d = encode_into v ++ post ->
    decode_value fuel d = Some (Ok (v, bump d (zlen (encode_into v)))).

Lemma decode_list_encode items :
  Forall decodes items ->
  forall acc fuel d post,
    in_range d -> Forall (fun x => depth d + nesting x <= MAX_DEPTH) items ->
    (2 * length (flat_map encode_into items) + 1 <= fuel)%nat ->
    rest d = flat_map encode_into items ++ 101 :: post ->
    decode_list fuel acc d = Some (Ok (acc ++ items, bump d (zlen (flat_map encode_into items) + 1))).
Proof.
  induction 1 as [| v items Hv Hitems IH]; intros acc fuel d post Hr Hn Hf Hrest;
    (destruct fuel as [| fuel]; [lia |]); cbn [decode_list fuelled_bind].
  - simpl in Hrest. rewrite (proj2 (peek_rest d 101 Hr)) by eauto. simpl. by rewrite app_nil_r.
  - simpl in Hrest, Hf. rewrite length_app in Hf. rewrite <- app_assoc in Hrest.
    apply Forall_cons in Hn as [Hnv Hn].
    destruct (encode_head v) as (x & r & Hx & Hx101).
    assert (peek d = Ok x) as ->.
    { apply peek_rest; [done |]. rewrite Hrest, Hx. simpl. eauto. }
    simpl. rewrite (proj2 (Z.eqb_neq _ _)) by done.
    pose proof (length_encode_pos v).
    rewrite (Hv fuel d (flat_map encode_into items ++ 101 :: post)) by (done || lia).
    simpl. destruct (rest_bump d _ _ Hr Hrest) as [Hrest1 Hr1].
    rewrite (IH (acc ++ [v]) fuel _ post) by (done || lia).
    rewrite <- app_assoc, bump_bump. simpl. do 4 f_equal. rewrite zlen_app. lia.
Qed.

Definition encode_entry (kv : list Z * Bencode) : list Z := encode_bytes kv.1 ++ encode_into kv.2.

Definition after_last (last_key : option (list Z)) (kv : list Z * Bencode) : Prop :=
  match last_key with Some p => lex_cmp p kv.1 = Lt | None => True end.

Lemma decode_dict_encode m :
  Forall (fun kv => decodes kv.2) m ->
  forall acc last_key fuel d post,
    in_range d -> Forall (fun kv => depth d + nesting kv.2 <= MAX_DEPTH) m ->
    Forall (fun kv => zlen kv.1 <= i64_max) m ->
    bt_sorted (acc ++ m) -> Forall (after_last last_key) m ->
    (2 * length (flat_map encode_entry m) + 1 <= fuel)%nat ->
    rest d = flat_map encode_entry m ++ 101 :: post ->
    decode_dict fuel acc last_key d = Some (Ok (acc ++ m, bump d (zlen (flat_map encode_entry m) + 1))).
Proof.
  induction 1 as [| [k v] m Hv Hm IH]; intros acc last_key fuel d post Hr Hn Hk Hs Hlast Hf Hrest;
    (destruct fuel as [| fuel]; [lia |]); cbn [decode_dict fuelled_bind].
  - simpl in Hrest. rewrite (proj2 (peek_rest d 101 Hr)) by eauto. simpl. by rewrite app_nil_r.
  - simpl in *. change (encode_entry (k, v)) with (encode_bytes k ++ encode_into v) in *.
    rewrite !length_app in Hf. rewrite <- !app_assoc in Hrest.
    apply Forall_cons in Hn as [Hnv Hn], Hk as [Hkk Hk], Hlast as [Hl _]. simpl in *.
    destruct (encode_bytes_head k) as (x & r & Hx & Hdig%is_ascii_digit_iff).
    assert (peek d = Ok x) as ->.
    { apply peek_rest; [done |]. rewrite Hrest, Hx. simpl. eauto. }
    simpl. rewrite (proj2 (Z.eqb_neq _ _)) by lia.
    rewrite (decode_bytes_of_encode d k _ Hr Hkk Hrest). simpl.
    assert (key_out_of_order d last_key k = false) as ->.
    { unfold key_out_of_order, after_last in *. destruct (strict d), last_key as [p |]; try done. simpl in *.
      change (kcmp p k = Lt) in Hl. apply kcmp_gt_lt in Hl. change (lex_cmp k p = Gt) in Hl. by rewrite Hl. }
    destruct (rest_bump d _ _ Hr Hrest) as [Hrest1 Hr1].
    pose proof (length_encode_pos v).
    rewrite (Hv fuel (bump d _) (flat_map encode_entry m ++ 101 :: post)) by (done || lia). simpl.
    destruct (rest_bump _ _ _ Hr1 Hrest1) as [Hrest2 Hr2].
    apply bt_sorted_app_cons in Hs as Hs'. destruct Hs' as (Hs1 & Hlow & Hkm & Hs2).
    rewrite bt_or_insert_snoc by done.
    rewrite (IH (acc ++ [(k, v)]) _ fuel _ post); try done; [| by rewrite <- app_assoc | | lia].
    + rewrite <- app_assoc, !bump_bump. simpl. do 4 f_equal.
      rewrite !zlen_app. lia.
    + destruct (strict d); [done |]. destruct last_key as [p |].
      * eapply Forall_impl; [exact Hkm |]. intros [k2 v2] Hlt. simpl in *.
        by eapply (kcmp_lt_trans (K := list Z)).
      * apply Forall_true. done.
Qed.

Lemma decode_value_encode v : wf v -> decodes v.
Proof.
  induction v as [i | b | items IH | m IH] using Bencode_ind_nested; intros Hwf fuel d post Hr Hn Hf Hrest;
    (destruct fuel as [| fuel];
     [exfalso; match type of Hrest with _ = encode_into ?v ++ _ => pose proof (length_encode_pos v) end; lia |]);
    cbn [decode_value fuelled_bind].
  - simpl in Hrest. rewrite (proj2 (peek_rest d 105 Hr)) by eauto. simpl. rewrite <- app_assoc in Hrest.
    destruct (rest_bump d [105] (i64_to_string i ++ [101] ++ post)) as [Hrest1 Hr1];
      [done.. |].
    unfold decode_int. change (bump d 1) with (bump d (zlen [105])).
    rewrite (parse_signed_of_string _ 101 i post) by done. simpl. rewrite bump_bump. do 4 f_equal. zlen_lia.
  - simpl in Hrest. destruct (encode_bytes_head b) as (x & r & Hx & Hdig).
    assert (peek d = Ok x) as ->.
    { apply peek_rest; [done |]. rewrite Hrest, Hx. simpl. eauto. }
    pose proof Hdig as Hd%is_ascii_digit_iff. simpl.
    rewrite !(proj2 (Z.eqb_neq x _)) by lia. simpl. rewrite Hdig.
    by rewrite (decode_bytes_of_encode d b post Hr).
  - pose proof (nesting_container (List items)) as Hpos. simpl in Hrest, Hf. rewrite <- app_assoc in Hrest.
    rewrite (proj2 (peek_rest d 108 Hr)) by eauto. simpl.
    rewrite (proj2 (Z.leb_gt _ _)) by (unfold MAX_DEPTH in *; lia).
    destruct (rest_bump (with_depth d (depth d + 1)) [108] (flat_map encode_into items ++ 101 :: post))
      as [Hrest1 Hr1]; [done.. |].
    rewrite (decode_list_encode items) with (post := post); try done.
    + simpl. rewrite with_depth_back. do 4 f_equal. zlen_lia.
    + apply wf_List in Hwf. rewrite !Forall_forall in *. auto.
    + apply (Forall_impl (fun x => nesting x <= MAX_DEPTH - depth d - 1)); [| simpl; lia].
      apply nesting_List; unfold MAX_DEPTH in *; lia.
    + rewrite length_app in Hf. simpl in Hf. lia.
  - pose proof (nesting_container (Dict m)) as Hpos. simpl in Hrest, Hf. rewrite <- app_assoc in Hrest.
    rewrite (proj2 (peek_rest d 100 Hr)) by eauto. simpl.
    rewrite (proj2 (Z.leb_gt _ _)) by (unfold MAX_DEPTH in *; lia).
    destruct (rest_bump (with_depth d (depth d + 1)) [100] (flat_map encode_entry m ++ 101 :: post))
      as [Hrest1 Hr1]; [done.. |].
    apply wf_Dict in Hwf as [Hs Hwf].
    rewrite (decode_dict_encode m) with (post := post); try done.
    + simpl. rewrite with_depth_back. do 4 f_equal. unfold encode_entry. zlen_lia.
    + rewrite !Forall_forall in *. naive_solver.
    + apply (Forall_impl (fun x => nesting x.2 <= MAX_DEPTH - depth d - 1)); [| simpl; lia].
      apply nesting_Dict; unfold MAX_DEPTH in *; lia.
    + eapply Forall_impl; [exact Hwf |]. naive_solver.
    + by apply Forall_true.
    + unfold encode_entry. rewrite length_app in Hf. simpl in Hf. lia.
Qed.

(** ** What a successful decode says about its input

    [moved d d']: the cursor went forward over the same input, in the same
    mode and at the same nesting depth. *)

Definition moved (d d' : Decoder) : Prop :=
  exists n, 0 < n /\ d' = bump d n /\ in_range d'.

Lemma moved_trans d1 d2 d3 : moved d1 d2 -> moved d2 d3 -> moved d1 d3.
Proof.
  intros (n & ? & -> & _) (m & ? & -> & Hr). rewrite bump_bump in *. exists (n + m).
  split; [lia | done].
Qed.

Lemma moved_depth d d' : moved d d' -> depth d' = depth d /\ strict d' = strict d /\ in_range d'.
Proof. intros (n & _ & -> & Hr). done. Qed.

Lemma consumes_moved d bs d' : in_range d -> bs <> [] -> consumes d bs d' -> moved d d'.
Proof.
  intros Hr Hne Hc. pose proof (consumes_in_range _ _ _ Hr Hc). destruct Hc as [_ ->].
  exists (zlen bs). split; [| done]. destruct bs; [done |]. rewrite zlen_cons. pose proof (zlen_nonneg bs). lia.
Qed.

Lemma decode_bytes_moved d b d' : in_range d -> decode_bytes d = Ok (b, d') -> moved d d'.
Proof.
  intros Hr [_ Hc]%decode_bytes_Ok; [| done]. eapply consumes_moved; [done | | done].
  destruct (encode_bytes_head b) as (x & r & -> & _). done.
Qed.

Lemma decode_int_Ok d i d' :
  in_range d -> peek d = Ok 105 -> decode_int d = Ok (i, d') ->
  i64_ok i /\ consumes d (encode_into (Int i)) d'.
Proof.
  intros Hr Hp Hd. pose proof (consumes_byte d 105 Hr Hp) as Hc.
  apply parse_signed_Ok in Hd as [Hi Hc2]; [| by eapply consumes_in_range | done..].
  split; [done |]. by apply (consumes_app d [105] (bump d 1)).
Qed.

(** Leaving a container restores the depth. *)
Lemma moved_container d d2 :
  in_range d -> moved (bump (with_depth d (depth d + 1)) 1) d2 -> moved d (with_depth d2 (depth d2 - 1)).
Proof.
  intros Hr (n & ? & -> & Hr2). exists (1 + n). split; [lia |].
  unfold in_range, with_depth, bump in *. destruct d; simpl in *. split; [f_equal; lia | done].
Qed.

(** The invariants of the three mutually recursive functions, in either mode:
    a decoded value is one the Rust type can hold, its nesting is within the
    limit, and the cursor moved forward. *)
Definition value_ok (dep : Z) (v : Bencode) : Prop := wf v /\ dep + nesting v <= MAX_DEPTH.
Definition entry_ok (dep : Z) (kv : list Z * Bencode) : Prop :=
  zlen kv.1 <= i64_max /\ value_ok dep kv.2.

Definition value_inv (fuel : nat) : Prop := forall d v d',
  in_range d -> depth d <= MAX_DEPTH -> decode_value fuel d = Some (Ok (v, d')) ->
  moved d d' /\ value_ok (depth d) v.

Definition list_inv (fuel : nat) : Prop := forall acc d items d',
  in_range d -> depth d <= MAX_DEPTH -> Forall (value_ok (depth d)) acc ->
  decode_list fuel acc d = Some (Ok (items, d')) ->
  moved d d' /\ Forall (value_ok (depth d)) items.

Definition dict_inv (fuel : nat) : Prop := forall acc last d m d',
  in_range d -> depth d <= MAX_DEPTH -> bt_sorted acc -> Forall (entry_ok (depth d)) acc ->
  decode_dict fuel acc last d = Some (Ok (m, d')) ->
  moved d d' /\ bt_sorted m /\ Forall (entry_ok (depth d)) m.

Lemma value_ok_List dep items :
  dep + 1 <= MAX_DEPTH -> Forall (value_ok (dep + 1)) items -> value_ok dep (List items).
Proof.
  intros Hd Hall. apply Forall_and in Hall as [Hwf Hn]. split; [by apply wf_List |].
  assert (nesting (List items) <= 1 + (MAX_DEPTH - dep - 1)); [| lia].
  apply nesting_List; [lia |]. eapply Forall_impl; [exact Hn |]. simpl. lia.
Qed.

Lemma value_ok_Dict dep m :
  dep + 1 <= MAX_DEPTH -> bt_sorted m -> Forall (entry_ok (dep + 1)) m -> value_ok dep (Dict m).
Proof.
  intros Hd Hs Hall. split.
  - apply wf_Dict. split; [done |]. eapply Forall_impl; [exact Hall |]. by intros kv (? & ? & ?).
  - assert (nesting (Dict m) <= 1 + (MAX_DEPTH - dep - 1)); [| lia].
    apply nesting_Dict; [lia |]. eapply Forall_impl; [exact Hall |]. intros kv (? & ? & ?). lia.
Qed.

Lemma value_inv_step fuel : list_inv fuel -> dict_inv fuel -> value_inv (S fuel).
Proof.
  intros IHl IHd d v d' Hr Hdep H. cbn [decode_value] in H.
  bind_ok H as tag Htag. injection Htag as Htag.
  pose proof (consumes_byte d tag Hr Htag) as Hbyte.
  pose proof (consumes_in_range _ _ _ Hr Hbyte) as Hr1.
  change (in_range (bump (with_depth d (depth d + 1)) 1)) in Hr1.
  destruct ((tag =? 108) || (tag =? 100))%bool.
  - destruct (Z.leb_spec MAX_DEPTH (depth d)); [done |].
    bind_ok H as [v1 d2] Ep. injection H as <- <-.
    destruct (tag =? 108); bind_ok Ep as [x d3] Eq; injection Ep as <- <-.
    + apply IHl in Eq as [Hm Hall]; [| done | simpl; lia | done].
      split; [by eapply moved_container |]. apply value_ok_List; [lia | done].
    + apply IHd in Eq as (Hm & Hs & Hall); [| done | simpl; lia | done..].
      split; [by eapply moved_container |]. apply value_ok_Dict; [lia | done | done].
  - destruct (Z.eqb_spec tag 105) as [-> |].
    { bind_ok H as [i d2] Ep. injection H as <- <-. injection Ep as Ep.
      apply decode_int_Ok in Ep as [Hi Hc]; [| done..].
      split; [eapply consumes_moved; [done | | exact Hc]; done |].
      split; [done |]. simpl. lia. }
    destruct (is_ascii_digit tag); [| done].
    bind_ok H as [b d2] Ep. injection H as <- <-. injection Ep as Ep.
    pose proof (decode_bytes_Ok _ _ _ Hr Ep) as [Hb _].
    split; [by eapply decode_bytes_moved |]. split; [done |]. simpl. lia.
Qed.

Lemma list_inv_step fuel : value_inv fuel -> list_inv fuel -> list_inv (S fuel).
Proof.
  intros IHv IHl acc d items d' Hr Hdep Hacc H. cbn [decode_list] in H.
  bind_ok H as b Hb. injection Hb as Hb. destruct (b =? 101).
  - injection H as <- <-. split; [| done].
    eapply consumes_moved; [done | | by apply consumes_byte]. done.
  - bind_ok H as [v d1] Ep. apply IHv in Ep as (Hm & Hv); [| done..].
    pose proof (moved_depth _ _ Hm) as (Hd1 & _ & Hr1). rewrite <- Hd1 in *.
    apply IHl in H as [Hm2 Hall]; [| done.. | by apply Forall_app; auto].
    split; [by eapply moved_trans | done].
Qed.

Lemma dict_inv_step fuel : value_inv fuel -> dict_inv fuel -> dict_inv (S fuel).
Proof.
  intros IHv IHd acc last d m d' Hr Hdep Hs Hacc H. cbn [decode_dict] in H.
  bind_ok H as b Hb. injection Hb as Hb. destruct (b =? 101).
  - injection H as <- <-. split; [| done].
    eapply consumes_moved; [done | | by apply consumes_byte]. done.
  - bind_ok H as [key d1] Ep. injection Ep as Ep.
    destruct (key_out_of_order d last key); [done |].
    bind_ok H as [v d2] Ep2.
    pose proof (decode_bytes_Ok _ _ _ Hr Ep) as [Hk _].
    pose proof (decode_bytes_moved _ _ _ Hr Ep) as Hm1.
    pose proof (moved_depth _ _ Hm1) as (Hd1 & _ & Hr1). rewrite <- Hd1 in *.
    apply IHv in Ep2 as (Hm2 & Hv); [| done..].
    pose proof (moved_depth _ _ Hm2) as (Hd2 & _ & Hr2). rewrite <- Hd2 in *.
    apply IHd in H as (Hm3 & Hs3 & Hall); [| done | done | by apply bt_or_insert_sorted |].
    + split; [by do 2 (eapply moved_trans; [done |]) | done].
    + unfold bt_or_insert. destruct (bt_get acc key); [done | by apply bt_insert_Forall].
Qed.

Lemma decode_inv fuel : value_inv fuel /\ list_inv fuel /\ dict_inv fuel.
Proof.
  induction fuel as [| fuel (IHv & IHl & IHd)]; [by repeat split |].
  auto using value_inv_step, list_inv_step, dict_inv_step.
Qed.

(** ** Strict mode accepts only canonical encodings *)

Definition value_canon (fuel : nat) : Prop := forall d v d',
  in_range d -> depth d <= MAX_DEPTH -> strict d = true ->
  decode_value fuel d = Some (Ok (v, d')) -> consumes d (encode_into v) d'.

Definition list_canon (fuel : nat) : Prop := forall acc d items d',
  in_range d -> depth d <= MAX_DEPTH -> strict d = true ->
  decode_list fuel acc d = Some (Ok (items, d')) ->
  exists new, items = acc ++ new /\ consumes d (flat_map encode_into new ++ [101]) d'.

Definition keys_upto (acc : list (list Z * Bencode)) (last : option (list Z)) : Prop :=
  Forall (fun e => match last with Some p => kcmp e.1 p <> Gt | None => False end) acc.

Definition dict_canon (fuel : nat) : Prop := forall acc last d m d',
  in_range d -> depth d <= MAX_DEPTH -> strict d = true -> keys_upto acc last ->
  decode_dict fuel acc last d = Some (Ok (m, d')) ->
  exists new, m = acc ++ new /\ consumes d (flat_map encode_entry new ++ [101]) d'.

Lemma key_in_order d acc last key :
  strict d = true -> keys_upto acc last -> key_out_of_order d last key = false ->
  Forall (fun e => kcmp e.1 key = Lt) acc.
Proof.
  intros Hs Hup Hk. unfold key_out_of_order in Hk. rewrite Hs in Hk. simpl in Hk.
  eapply Forall_impl; [exact Hup |]. intros [k v] Hle. simpl in *.
  destruct last as [p |]; [| done]. change (lex_cmp key p) with (kcmp key p) in Hk.
  destruct (kcmp key p) eqn:E; [done.. |]. apply kcmp_gt_lt in E.
  destruct (kcmp k p) eqn:E2; [by apply kcmp_eq_iff in E2 as -> | | done].
  by eapply kcmp_lt_trans.
Qed.

Lemma consumes_container d tag bs d2 :
  in_range d -> peek d = Ok tag -> consumes (bump (with_depth d (depth d + 1)) 1) bs d2 ->
  consumes d (tag :: bs) (with_depth d2 (depth d2 - 1)).
Proof.
  intros Hr Hp [Hc ->]. pose proof (consumes_byte d tag Hr Hp) as [Hb _]. split.
  - rewrite rest_with_depth. change (rest (bump (with_depth d (depth d + 1)) 1)) with (rest (bump d 1)) in Hc.
    rewrite Hb. simpl. by rewrite Hc.
  - simpl. rewrite with_depth_back. by rewrite zlen_cons.
Qed.

Lemma value_canon_step fuel : list_canon fuel -> dict_canon fuel -> value_canon (S fuel).
Proof.
  intros IHl IHd d v d' Hr Hdep Hs H. cbn [decode_value] in H.
  bind_ok H as tag Htag. injection Htag as Htag.
  pose proof (consumes_in_range _ _ _ Hr (consumes_byte d tag Hr Htag)) as Hr1.
  change (in_range (bump (with_depth d (depth d + 1)) 1)) in Hr1.
  destruct ((tag =? 108) || (tag =? 100))%bool eqn:Etag.
  - destruct (Z.leb_spec MAX_DEPTH (depth d)); [done |].
    bind_ok H as [v1 d2] Ep. injection H as <- <-.
    destruct (Z.eqb_spec tag 108) as [-> | Hne]; bind_ok Ep as [x d3] Eq; injection Ep as <- <-.
    + apply IHl in Eq as (new & -> & Hc); [| done | simpl; lia | done].
      simpl. by apply consumes_container.
    + assert (tag = 100) as -> by (simpl in Etag; by apply Z.eqb_eq in Etag).
      apply IHd in Eq as (new & -> & Hc); [| done | simpl; lia | done | by constructor].
      simpl. by apply consumes_container.
  - destruct (Z.eqb_spec tag 105) as [-> |].
    { bind_ok H as [i d2] Ep. injection H as <- <-. injection Ep as Ep.
      by apply decode_int_Ok in Ep as [Hi Hc]. }
    destruct (is_ascii_digit tag); [| done].
    bind_ok H as [b d2] Ep. injection H as <- <-. injection Ep as Ep.
    by apply decode_bytes_Ok in Ep as [_ Hc].
Qed.

Lemma list_canon_step fuel : value_canon fuel -> list_canon fuel -> list_canon (S fuel).
Proof.
  intros IHv IHl acc d items d' Hr Hdep Hs H. cbn [decode_list] in H.
  bind_ok H as b Hb. injection Hb as Hb. destruct (Z.eqb_spec b 101) as [-> |].
  - injection H as <- <-. exists []. rewrite app_nil_r. split; [done | by apply consumes_byte].
  - bind_ok H as [v d1] Ep. pose proof Ep as Ep'. apply IHv in Ep; [| done..].
    apply (proj1 (decode_inv fuel)) in Ep' as (Hm & _); [| done..].
    pose proof (moved_depth _ _ Hm) as (Hd1 & Hs1 & Hr1).
    apply IHl in H as (new & -> & Hc); [| done | lia | congruence].
    exists (v :: new). split; [by rewrite <- app_assoc |].
    simpl. rewrite <- app_assoc. by eapply consumes_app.
Qed.

Lemma dict_canon_step fuel : value_canon fuel -> dict_canon fuel -> dict_canon (S fuel).
Proof.
  intros IHv IHd acc last d m d' Hr Hdep Hs Hup H. cbn [decode_dict] in H.
  bind_ok H as b Hb. injection Hb as Hb. destruct (Z.eqb_spec b 101) as [-> |].
  - injection H as <- <-. exists []. rewrite app_nil_r. split; [done | by apply consumes_byte].
  - bind_ok H as [key d1] Ep. injection Ep as Ep.
    destruct (key_out_of_order d last key) eqn:Ekey; [done |].
    pose proof (key_in_order _ _ _ _ Hs Hup Ekey) as Hlow. rewrite Hs in H.
    bind_ok H as [v d2] Ep2. pose proof (decode_bytes_Ok _ _ _ Hr Ep) as [_ Hc1].
    pose proof (decode_bytes_moved _ _ _ Hr Ep) as Hm1.
    pose proof (moved_depth _ _ Hm1) as (Hd1 & Hs1 & Hr1).
    pose proof Ep2 as Ep2'. apply IHv in Ep2; [| done | lia | congruence].
    apply (proj1 (decode_inv fuel)) in Ep2' as (Hm2 & _); [| done | lia].
    pose proof (moved_depth _ _ Hm2) as (Hd2 & Hs2 & Hr2).
    rewrite bt_or_insert_snoc in H by done.
    apply IHd in H as (new & -> & Hc3); [| done | lia | congruence |].
    + exists ((key, v) :: new). split; [by rewrite <- app_assoc |]. simpl.
      unfold encode_entry at 1. simpl. rewrite <- !app_assoc.
      eapply consumes_app; [exact Hc1 |]. by eapply consumes_app.
    + apply Forall_app. split.
      * eapply Forall_impl; [exact Hlow |]. intros e He. by rewrite He.
      * apply Forall_singleton. simpl. by rewrite kcmp_refl.
Qed.

Lemma decode_canon fuel : value_canon fuel /\ list_canon fuel /\ dict_canon fuel.
Proof.
  induction fuel as [| fuel (IHv & IHl & IHd)]; [by repeat split |].
  auto using value_canon_step, list_canon_step, dict_canon_step.
Qed.

(** ** Fuel: two units for each byte left are enough *)

Definition remaining (d : Decoder) : Z := zlen (data d) - pos d.

Definition value_total (fuel : nat) : Prop := forall d,
  in_range d -> depth d <= MAX_DEPTH -> 2 * remaining d + 1 <= Z.of_nat fuel ->
  decode_value fuel d <> None.

Definition list_total (fuel : nat) : Prop := forall acc d,
  in_range d -> depth d <= MAX_DEPTH -> 2 * remaining d + 2 <= Z.of_nat fuel ->
  decode_list fuel acc d <> None.

Definition dict_total (fuel : nat) : Prop := forall acc last d,
  in_range d -> depth d <= MAX_DEPTH -> 2 * remaining d + 2 <= Z.of_nat fuel ->
  decode_dict fuel acc last d <> None.

Lemma moved_remaining d d' : moved d d' -> remaining d' < remaining d.
Proof. intros (n & ? & -> & _). unfold remaining, bump. simpl. lia. Qed.

Lemma value_total_step fuel : list_total fuel -> dict_total fuel -> value_total (S fuel).
Proof.
  intros IHl IHd d Hr Hdep Hf. cbn [decode_value fuelled_bind].
  destruct (peek d) as [tag |] eqn:Htag; [| done].
  pose proof (consumes_in_range _ _ _ Hr (consumes_byte d tag Hr Htag)) as Hr1.
  set (d1 := bump (with_depth d (depth d + 1)) 1).
  change (in_range d1) in Hr1.
  assert (remaining d1 = remaining d - 1) as Hrem by (unfold d1, remaining, bump; simpl; lia).
  destruct ((tag =? 108) || (tag =? 100))%bool.
  - destruct (Z.leb_spec MAX_DEPTH (depth d)); [done |].
    destruct (tag =? 108).
    + specialize (IHl [] d1 Hr1 ltac:(simpl; lia) ltac:(lia)).
      unfold d1 in IHl. by destruct (decode_list _ _ _) as [[[] |] |].
    + specialize (IHd [] None d1 Hr1 ltac:(simpl; lia) ltac:(lia)).
      unfold d1 in IHd. by destruct (decode_dict _ _ _ _) as [[[] |] |].
  - destruct (tag =? 105); [by destruct (decode_int d) as [[] |] |].
    destruct (is_ascii_digit tag); [by destruct (decode_bytes d) as [[] |] | done].
Qed.

Lemma list_total_step fuel : value_total fuel -> list_total fuel -> list_total (S fuel).
Proof.
  intros IHv IHl acc d Hr Hdep Hf. cbn [decode_list fuelled_bind].
  destruct (peek d) as [b |]; [| done]. destruct (b =? 101); [done |].
  specialize (IHv d Hr Hdep ltac:(lia)).
  destruct (decode_value fuel d) as [[[v d1] |] |] eqn:E; [| done..]. simpl.
  apply (proj1 (decode_inv fuel)) in E as (Hm & _); [| done..].
  pose proof (moved_depth _ _ Hm) as (Hd1 & _ & Hr1). pose proof (moved_remaining _ _ Hm).
  apply IHl; [done | lia..].
Qed.

Lemma dict_total_step fuel : value_total fuel -> dict_total fuel -> dict_total (S fuel).
Proof.
  intros IHv IHd acc last d Hr Hdep Hf. cbn [decode_dict fuelled_bind].
  destruct (peek d) as [b |]; [| done]. destruct (b =? 101); [done |].
  destruct (decode_bytes d) as [[key d1] |] eqn:Ek; [| done].
  destruct (key_out_of_order d last key); [done |].
  apply decode_bytes_moved in Ek as Hm1; [| done].
  pose proof (moved_depth _ _ Hm1) as (Hd1 & _ & Hr1). pose proof (moved_remaining _ _ Hm1).
  specialize (IHv d1 Hr1 ltac:(lia) ltac:(lia)).
  destruct (decode_value fuel d1) as [[[v d2] |] |] eqn:E; [| done..]. simpl.
  apply (proj1 (decode_inv fuel)) in E as (Hm & _); [| done | lia].
  pose proof (moved_depth _ _ Hm) as (Hd2 & _ & Hr2). pose proof (moved_remaining _ _ Hm).
  apply IHd; [done | lia..].
Qed.

Lemma decode_total fuel : value_total fuel /\ list_total fuel /\ dict_total fuel.
Proof.
  induction fuel as [| fuel (IHv & IHl & IHd)].
  - repeat split; repeat intro; unfold in_range, remaining in *; lia.
  - auto using value_total_step, list_total_step, dict_total_step.
Qed.

Lemma new_in_range bs s : zlen bs <= i64_max -> in_range (mkDecoder bs 0 s 0).
Proof. intros. pose proof (zlen_nonneg bs). unfold in_range. simpl. lia. Qed.

(** ** A decoded value is made of the input's bytes *)

Fixpoint byte_value (v : Bencode) : Prop :=
  match v with
  | Int _ => True
  | Bytes b => bytes_ok b
  | List items => foldr (fun x P => byte_value x /\ P) True items
  | Dict m => foldr (fun kv P => (bytes_ok kv.1 /\ byte_value kv.2) /\ P) True m
  end.

Lemma byte_value_List items : byte_value (List items) <-> Forall byte_value items.
Proof. simpl. induction items; simpl; rewrite ?Forall_cons, ?Forall_nil; naive_solver. Qed.

Lemma byte_value_Dict m : byte_value (Dict m) <-> Forall (fun kv => bytes_ok kv.1 /\ byte_value kv.2) m.
Proof. simpl. induction m; simpl; rewrite ?Forall_cons, ?Forall_nil; naive_solver. Qed.

Lemma moved_data d d' : moved d d' -> data d' = data d.
Proof. by intros (n & _ & -> & _). Qed.

Lemma decode_bytes_made d b d' : in_range d -> bytes_ok (data d) -> decode_bytes d = Ok (b, d') -> bytes_ok b.
Proof.
  intros Hr Hd [_ [Hc _]]%decode_bytes_Ok; [| done].
  assert (bytes_ok (rest d)) as Hrest by by apply Forall_drop.
  rewrite Hc in Hrest. unfold encode_bytes in Hrest. rewrite !Forall_app in Hrest. naive_solver.
Qed.

Definition value_made (fuel : nat) : Prop := forall d v d',
  in_range d -> depth d <= MAX_DEPTH -> bytes_ok (data d) ->
  decode_value fuel d = Some (Ok (v, d')) -> byte_value v.

Definition list_made (fuel : nat) : Prop := forall acc d items d',
  in_range d -> depth d <= MAX_DEPTH -> bytes_ok (data d) -> Forall byte_value acc ->
  decode_list fuel acc d = Some (Ok (items, d')) -> byte_value (List items).

Definition dict_made (fuel : nat) : Prop := forall acc last d m d',
  in_range d -> depth d <= MAX_DEPTH -> bytes_ok (data d) -> Forall (fun kv => bytes_ok kv.1 /\ byte_value kv.2) acc ->
  decode_dict fuel acc last d = Some (Ok (m, d')) -> byte_value (Dict m).

Lemma value_made_step fuel : list_made fuel -> dict_made fuel -> value_made (S fuel).
Proof.
  intros IHl IHd d v d' Hr Hdep Hb H. cbn [decode_value] in H. bind_ok H as tag Htag. injection Htag as Htag.
  pose proof (consumes_in_range _ _ _ Hr (consumes_byte d tag Hr Htag)) as Hr1.
  change (in_range (bump (with_depth d (depth d + 1)) 1)) in Hr1.
  destruct ((tag =? 108) || (tag =? 100))%bool.
  - destruct (Z.leb_spec MAX_DEPTH (depth d)); [done |]. bind_ok H as [v1 d2] Ep. injection H as <- <-.
    destruct (tag =? 108); bind_ok Ep as [x d3] Eq; injection Ep as <- <-.
    + apply IHl in Eq; [done | done | simpl; lia | done..].
    + apply IHd in Eq; [done | done | simpl; lia | done..].
  - destruct (tag =? 105); [bind_ok H as [i d2] Ep; by injection H as <- <- |].
    destruct (is_ascii_digit tag); [| done]. bind_ok H as [b d2] Ep. injection H as <- <-. injection Ep as Ep.
    exact (decode_bytes_made _ _ _ Hr Hb Ep).
Qed.

Lemma list_made_step fuel : value_made fuel -> list_made fuel -> list_made (S fuel).
Proof.
  intros IHv IHl acc d items d' Hr Hdep Hb Hacc H. cbn [decode_list] in H. bind_ok H as b Hp.
  destruct (b =? 101); [injection H as <- <-; by apply byte_value_List |].
  bind_ok H as [v d1] Ep. pose proof Ep as Ep'. apply (proj1 (decode_inv fuel)) in Ep' as (Hm & _); [| done..].
  pose proof (moved_depth _ _ Hm) as (Hd1 & _ & Hr1). apply IHv in Ep; [| done..].
  apply IHl in H; [done | done | lia | by rewrite (moved_data _ _ Hm) |]. apply Forall_app. auto.
Qed.

Lemma dict_made_step fuel : value_made fuel -> dict_made fuel -> dict_made (S fuel).
Proof.
  intros IHv IHd acc last d m d' Hr Hdep Hb Hacc H. cbn [decode_dict] in H. bind_ok H as b Hp.
  destruct (b =? 101); [injection H as <- <-; by apply byte_value_Dict |].
  bind_ok H as [key d1] Ek. injection Ek as Ek. destruct (key_out_of_order d last key); [done |].
  bind_ok H as [v d2] Ep. pose proof (decode_bytes_moved _ _ _ Hr Ek) as Hm1.
  pose proof (moved_depth _ _ Hm1) as (Hd1 & _ & Hr1). pose proof Ep as Ep'.
  apply (proj1 (decode_inv fuel)) in Ep' as (Hm2 & _); [| done | lia].
  pose proof (moved_depth _ _ Hm2) as (Hd2 & _ & Hr2).
  apply IHv in Ep; [| done | lia | by rewrite (moved_data _ _ Hm1)].
  apply IHd in H; [done | done | lia | by rewrite (moved_data _ _ Hm2), (moved_data _ _ Hm1) |].
  apply decode_bytes_made in Ek; [| done..].
  unfold bt_or_insert. destruct (bt_get acc key); [done | by apply bt_insert_Forall].
Qed.

Lemma decode_made fuel : value_made fuel /\ list_made fuel /\ dict_made fuel.
Proof.
  induction fuel as [| fuel (IHv & IHl & IHd)]; [by repeat split |].
  auto using value_made_step, list_made_step, dict_made_step.
Qed.

Lemma decode_top_made bs s v :
  zlen bs <= i64_max -> bytes_ok bs ->
  decode_top_level (decode_fuel bs) (mkDecoder bs 0 s 0) = Some (Ok v) -> byte_value v.
Proof.
  intros Hlen Hb H. unfold decode_top_level in H. bind_ok H as [v1 d1] E.
  apply (proj1 (decode_made _)) in E; [| by apply new_in_range | done..].
  destruct (negb _); [done |]. by injection H as <-.
Qed.

(** Decoding from the start of [encode v], in either mode. *)
Lemma decode_top_encode v s :
  wf v -> nesting v <= MAX_DEPTH -> zlen (encode v) <= i64_max ->
  decode_top_level (decode_fuel (encode v)) (mkDecoder (encode v) 0 s 0) = Some (Ok v).
Proof.
  intros Hwf Hn Hlen. unfold decode_top_level, decode_fuel.
  rewrite (decode_value_encode v Hwf _ _ []); [| by apply new_in_range | done | unfold encode; lia |].
  - simpl. rewrite Z.eqb_refl. done.
  - unfold rest. simpl. by rewrite app_nil_r.
Qed.

Lemma decode_top_sound bs s v :
  zlen bs <= i64_max -> decode_top_level (decode_fuel bs) (mkDecoder bs 0 s 0) = Some (Ok v) ->
  wf v /\ nesting v <= MAX_DEPTH /\ (s = true -> encode v = bs).
Proof.
  intros Hlen H. unfold decode_top_level in H. bind_ok H as [w d1] E.
  destruct (Z.eqb_spec (pos d1) (zlen (data d1))) as [Hend |]; [| done]. injection H as <-.
  pose proof (new_in_range bs s Hlen) as Hr.
  pose proof E as E'. apply (proj1 (decode_inv _)) in E' as (_ & Hwf & Hn); [| done..].
  split; [done |]. split; [done |]. intros ->.
  apply (proj1 (decode_canon _)) in E as [Hc ->]; [| done..].
  unfold rest in Hc. simpl in *. rewrite Hend in Hc.
  unfold zlen in Hc. rewrite Nat2Z.id, drop_all, app_nil_r in Hc. done.
Qed.

(** The fuel of [decode] is enough, in either mode. *)
Lemma decode_top_total bs s :
  zlen bs <= i64_max -> is_Some (decode_top_level (decode_fuel bs) (mkDecoder bs 0 s 0)).
Proof.
  intros Hlen. unfold decode_top_level.
  pose proof (proj1 (decode_total (decode_fuel bs)) (mkDecoder bs 0 s 0)) as Ht.
  destruct (decode_value _ _) as [[[v d1] |] |] eqn:E.
  - simpl. destruct (negb _); eauto.
  - simpl. eauto.
  - exfalso. apply Ht; [by apply new_in_range | done | | done].
    unfold remaining, decode_fuel, zlen. simpl. lia.
Qed.

(** ** Properties *)

(** C6: [decode] is exactly the inverse of [encode].  A buffer decodes (in
    strict mode) to [v] if and only if [v] is a value of the Rust type, nests
    no deeper than [MAX_DEPTH], and the buffer is the canonical encoding of
    [v].  In particular strict decoding accepts one encoding of each value. *)
Theorem decode_iff_encode (bs : list Z) (v : Bencode) (Hlen : zlen bs <= i64_max) :
  decode bs = Some (Ok v) <-> wf v /\ nesting v <= MAX_DEPTH /\ encode v = bs.
Proof.
  split.
  - intros H. apply decode_top_sound in H as (? & ? & Henc); auto.
  - intros (Hwf & Hn & <-). by apply decode_top_encode.
Qed.

Definition example_value : Bencode :=
  Dict [([97], List [Int (-12); Bytes [255; 0]]); ([98], Int 0)].

(** [d1:ali-12e2:\xff\x00e1:bi0ee] *)
Definition example_bytes : list Z :=
  [100; 49; 58; 97; 108; 105; 45; 49; 50; 101; 50; 58; 255; 0; 101; 49; 58; 98; 105; 48; 101; 101].

Lemma decode_iff_encode_witness :
  zlen example_bytes <= i64_max /\
  (decode example_bytes = Some (Ok example_value) <->
   wf example_value /\ nesting example_value <= MAX_DEPTH /\ encode example_value = example_bytes).
Proof.
  assert (zlen example_bytes <= i64_max) as H by (vm_compute; discriminate).
  split; [exact H | exact (decode_iff_encode example_bytes example_value H)].
Defined.

Example decode_example : decode example_bytes = Some (Ok example_value).
Proof. vm_compute. reflexivity. Qed.

(** Decoding always ends: for every input, in either mode, the decoder
    returns a value or an error, never running out of the fuel that stands for
    its recursion. *)
Theorem decode_terminates (bs : list Z) (Hlen : zlen bs <= i64_max) :
  is_Some (decode bs) /\ is_Some (decode_lenient bs).
Proof. split; by apply decode_top_total. Qed.

Lemma decode_terminates_witness :
  zlen example_bytes <= i64_max /\ is_Some (decode example_bytes) /\ is_Some (decode_lenient example_bytes).
Proof.
  assert (zlen example_bytes <= i64_max) as H by (vm_compute; discriminate).
  split; [exact H | exact (decode_terminates example_bytes H)].
Defined.

(** The lenient mode, used on wire data, only adds to the strict one: what
    strict mode accepts it accepts with the same value, and whatever it accepts
    is a well-formed value (dictionaries in key order without duplicates)
    nested no deeper than [MAX_DEPTH]. *)
Theorem decode_lenient_extends (bs : list Z) (v : Bencode) (Hlen : zlen bs <= i64_max) :
  (decode bs = Some (Ok v) -> decode_lenient bs = Some (Ok v)) /\
  (decode_lenient bs = Some (Ok v) -> wf v /\ nesting v <= MAX_DEPTH).
Proof.
  split.
  - intros H. apply decode_top_sound in H as (Hwf & Hn & Henc); [| done].
    rewrite <- Henc by done. apply decode_top_encode; [done.. |]. by rewrite Henc.
  - intros H. by apply decode_top_sound in H as (Hwf & Hn & _).
Qed.

Lemma decode_lenient_extends_witness :
  zlen example_bytes <= i64_max /\
  ((decode example_bytes = Some (Ok example_value) -> decode_lenient example_bytes = Some (Ok example_value)) /\
   (decode_lenient example_bytes = Some (Ok example_value) ->
    wf example_value /\ nesting example_value <= MAX_DEPTH)).
Proof.
  assert (zlen example_bytes <= i64_max) as H by (vm_compute; discriminate).
  split; [exact H | exact (decode_lenient_extends example_bytes example_value H)].
Defined.

(** A value read in the middle of a buffer comes with its exact byte span:
    the bytes from [start] to [end] are the canonical encoding of the value,
    so a hash of that slice (the info hash) is a hash of the value's encoding,
    without re-serialising. *)
Theorem span_is_encoding (fuel : nat) (d d' : Decoder) (v : Bencode) (start stop : Z)
    (Hr : in_range d) (Hdep : depth d <= MAX_DEPTH) (Hs : strict d = true)
    (H : decode_value_with_span fuel d = Some (Ok ((v, (start, stop)), d'))) :
  start = pos d /\ stop = pos d' /\ slice (data d) start stop = encode v.
Proof.
  unfold decode_value_with_span in H. bind_ok H as [w d1] E. injection H as <- <- <- <-.
  split; [done |]. split; [done |].
  apply (proj1 (decode_canon _)) in E as [Hc ->]; [| done..].
  by apply (slice_of_drop _ _ (rest (bump d (zlen (encode_into w))))).
Qed.

(** The value of key [a] of [example_bytes], read in place. *)
Lemma span_is_encoding_witness :
  let d := mkDecoder example_bytes 4 true 1 in
  let v := List [Int (-12); Bytes [255; 0]] in
  decode_value_with_span 40 d = Some (Ok ((v, (4, 15)), mkDecoder example_bytes 15 true 1)) /\
  (4 = pos d /\ 15 = pos (mkDecoder example_bytes 15 true 1) /\ slice (data d) 4 15 = encode v).
Proof.
  assert (decode_value_with_span 40 (mkDecoder example_bytes 4 true 1) =
    Some (Ok ((List [Int (-12); Bytes [255; 0]], (4, 15)), mkDecoder example_bytes 15 true 1))) as H
    by (vm_compute; reflexivity).
  split; [exact H |].
  assert (in_range (mkDecoder example_bytes 4 true 1)) as Hr
    by (split; [split |]; vm_compute; discriminate).
  assert (depth (mkDecoder example_bytes 4 true 1) <= MAX_DEPTH) as Hd by (vm_compute; discriminate).
  exact (span_is_encoding 40 _ _ _ _ _ Hr Hd eq_refl H).
Defined.

(** In lenient mode the first occurrence of a duplicate key wins: an entry
    already in the dictionary when the loop goes on is still there, with its
    value, when the loop ends. *)
Theorem first_key_wins (fuel : nat) (acc m : list (list Z * Bencode)) (last : option (list Z))
    (d d' : Decoder) (k : list Z) (v : Bencode)
    (Hsorted : bt_sorted acc) (Hk : bt_get acc k = Some v)
    (H : decode_dict fuel acc last d = Some (Ok (m, d'))) :
  bt_get m k = Some v.
Proof.
  revert acc last d Hsorted Hk H. induction fuel as [| fuel IH]; intros acc last d Hs Hk H; [done |].
  cbn [decode_dict] in H. bind_ok H as b Hb. destruct (b =? 101).
  - by injection H as <- <-.
  - bind_ok H as [key d1] Ep. destruct (key_out_of_order d last key); [done |].
    bind_ok H as [w d2] Ep2. eapply IH; [| | exact H]; [by apply bt_or_insert_sorted |].
    by rewrite bt_get_or_insert, Hk.
Qed.

(** The rest of [d1:ai1e1:ai2ee] after its first entry. *)
Lemma first_key_wins_witness :
  let acc := [([97], Int 1)] in
  let d := mkDecoder [49; 58; 97; 105; 50; 101; 101] 0 false 0 in
  decode_dict 10 acc None d = Some (Ok (acc, mkDecoder [49; 58; 97; 105; 50; 101; 101] 7 false 0)) /\
  bt_get acc [97] = Some (Int 1).
Proof.
  assert (decode_dict 10 [([97], Int 1)] None (mkDecoder [49; 58; 97; 105; 50; 101; 101] 0 false 0) =
    Some (Ok ([([97], Int 1)], mkDecoder [49; 58; 97; 105; 50; 101; 101] 7 false 0))) as H
    by (vm_compute; reflexivity).
  split; [exact H |].
  refine (first_key_wins 10 _ _ _ _ _ [97] (Int 1) _ _ H); [repeat constructor | reflexivity].
Defined.
