(* ===== verification/Dicts.v ===== *)
(** * Dictionaries built by insertion

    The bencoded dictionaries the program sends (DHT messages, the extension
    handshake, metadata messages) are built key by key in a [BTreeMap] and read
    back with [dict.get(key).and_then(Bencode::as_int)] and the like.  The
    lemmas and tactics every such codec shares: a key just inserted is read
    back, the others are not disturbed, and the dictionary is a value
    [Bencode.encode] and [Bencode.decode] carry. *)

From S2P Require Import Prelude Str BTree Bencode.

Abbreviation Entries := (list (list Z * Bencode)).

(** [if let Some(v) = o { m.insert(k, v) }]. *)
Definition insert_opt (m : Entries) (k : list Z) (o : option Bencode) : Entries :=
  match o with Some v => bt_insert m k v | None => m end.

(** A byte string unless it is empty. *)
Definition unless_empty (b : list Z) : option Bencode := match b with [] => None | _ => Some (Bytes b) end.

Definition opt_int (m : Entries) (k : String.string) : option Z := v ← bt_get m (str k); as_int v.
Definition opt_bytes (m : Entries) (k : String.string) : option (list Z) := v ← bt_get m (str k); as_bytes v.
Arguments opt_int m k%_string_scope.
Arguments opt_bytes m k%_string_scope.

(** ** Dictionaries built by insertion *)

Lemma get_insert_eq (m : Entries) k v : bt_get (bt_insert m k v) k = Some v.
Proof. apply bt_get_insert_eq. Qed.

Lemma get_insert_ne (m : Entries) k v k2 :
  bool_decide (k = k2) = false -> bt_sorted m -> bt_get (bt_insert m k v) k2 = bt_get m k2.
Proof. intros Hk%bool_decide_eq_false_1 Hs. by apply bt_get_insert_ne. Qed.

Lemma get_insert_opt_eq (m : Entries) k o :
  bt_get (insert_opt m k o) k = match o with Some v => Some v | None => bt_get m k end.
Proof. destruct o; [apply get_insert_eq | done]. Qed.

Lemma get_insert_opt_ne (m : Entries) k o k2 :
  bool_decide (k = k2) = false -> bt_sorted m -> bt_get (insert_opt m k o) k2 = bt_get m k2.
Proof. destruct o; [apply get_insert_ne | done]. Qed.

Lemma insert_opt_sorted (m : Entries) k o : bt_sorted m -> bt_sorted (insert_opt m k o).
Proof. intros Hs. destruct o; [by apply bt_insert_sorted | done]. Qed.

Lemma insert_sorted (m : Entries) k v : bt_sorted m -> bt_sorted (bt_insert m k v).
Proof. apply bt_insert_sorted. Qed.

Lemma empty_sorted : bt_sorted ([] : Entries).
Proof. exact I. Qed.

Create HintDb dicts.
#[export] Hint Resolve insert_sorted insert_opt_sorted empty_sorted : dicts.

Lemma some_or_none {A} (o : option A) : match o with Some v => Some v | None => None end = o.
Proof. by destruct o. Qed.

(** Reads keys of a dictionary built by insertions; literal keys and names are
    compared by computation. *)
Ltac read_keys :=
  repeat match goal with
  | |- context [bool_decide (str ?a = str ?b)] =>
      let r := eval vm_compute in (bool_decide (str a = str b)) in
      change (bool_decide (str a = str b)) with r; cbv iota
  | |- context [bt_get (bt_insert ?m (str ?a) ?v) (str ?b)] =>
      tryif constr_eq a b then rewrite (get_insert_eq m (str a) v)
      else rewrite (get_insert_ne m (str a) v (str b)) by first [exact (eq_refl false) | auto 20 with dicts]
  | |- context [bt_get (insert_opt ?m (str ?a) ?o) (str ?b)] =>
      tryif constr_eq a b then rewrite (get_insert_opt_eq m (str a) o)
      else rewrite (get_insert_opt_ne m (str a) o (str b)) by first [exact (eq_refl false) | auto 20 with dicts]
  end;
  cbn [bt_get mbind option_bind fmap option_fmap option_map as_bytes as_int as_dict as_list ok_or result_bind default];
  rewrite ?some_or_none.

(** ** What fits *)

Definition small (b : list Z) : Prop := zlen b <= i64_max.

Definition opt_ok {A} (P : A -> Prop) (o : option A) : Prop := match o with Some x => P x | None => True end.

(** ** Dictionaries the codec carries *)

(** A dictionary the decoder accepts [n] levels below the limit. *)
Definition entries_ok (n : Z) (m : Entries) : Prop :=
  bt_sorted m /\ Forall (fun kv => zlen kv.1 <= i64_max /\ wf kv.2 /\ nesting kv.2 <= n) m.

Definition fits_at (n : Z) (v : Bencode) : Prop := wf v /\ nesting v <= n.

Lemma entries_ok_nil n : entries_ok n [].
Proof. split; [exact I | constructor]. Qed.

Lemma entries_ok_insert n m k v :
  zlen (str k) <= i64_max -> fits_at n v -> entries_ok n m -> entries_ok n (bt_insert m (str k) v).
Proof. intros Hk [Hwf Hn] [Hs Hm]. split; [by apply bt_insert_sorted | by apply bt_insert_Forall]. Qed.

Lemma entries_ok_insert_opt n m k o :
  zlen (str k) <= i64_max -> opt_ok (fits_at n) o -> entries_ok n m -> entries_ok n (insert_opt m (str k) o).
Proof. intros Hk Ho Hm. destruct o; [by apply entries_ok_insert | done]. Qed.

Lemma fits_dict n m : 0 <= n -> entries_ok n m -> fits_at (1 + n) (Dict m).
Proof.
  intros Hn [Hs Hm]. split.
  - apply wf_Dict. split; [done |]. apply (Forall_impl _ _ _ Hm). naive_solver.
  - apply nesting_Dict; [done |]. apply (Forall_impl _ _ _ Hm). naive_solver.
Qed.

Lemma fits_bytes n b : 0 <= n -> small b -> fits_at n (Bytes b).
Proof. done. Qed.

Lemma fits_int n i : 0 <= n -> i64_ok i -> fits_at n (Int i).
Proof. done. Qed.

Lemma small_of_len b n : zlen b = n -> n <= i64_max -> small b.
Proof. unfold small. lia. Qed.

Lemma fits_list n l : 0 <= n -> Forall (fits_at n) l -> fits_at (1 + n) (List l).
Proof.
  intros Hn Hl. split; [apply wf_List | apply nesting_List; [done |]]; apply (Forall_impl _ _ _ Hl); by intros x [].
Qed.

#[export] Hint Resolve entries_ok_nil entries_ok_insert entries_ok_insert_opt : dicts.

(** Reduces [entries_ok] of a dictionary built by insertions to its values. *)
Ltac entries :=
  repeat first [apply entries_ok_insert; [vm_compute; discriminate | |] | apply entries_ok_insert_opt; [vm_compute; discriminate | |] | apply entries_ok_nil].

(** What a field holds is an entry: bytes that fit, an integer, a value. *)
Ltac entry :=
  unfold opt_ok, unless_empty in *;
  repeat match goal with |- context [_ <$> ?o] => is_var o; destruct o end;
  try match goal with |- context [if ?b then 1 else 0] => destruct b end;
  cbn [fmap option_fmap option_map];
  try match goal with
  | |- fits_at _ (Bytes _) => apply fits_bytes; [vm_compute; discriminate | first [assumption | eapply small_of_len; [eassumption | vm_compute; discriminate]]]
  | |- fits_at _ (Int _) => apply fits_int; [vm_compute; discriminate | first [assumption | unfold i64_ok, i64_min, i64_max, u_ok in *; lia]]
  end; try done.
