(* ===== verification/Io.v ===== *)
(** * Input and output

    What the modelled code uses of [std::io]: the kinds of error it tells
    apart, and a blocking reader as the bytes that will arrive before the
    connection fails, with the error it then fails with. *)

From S2P Require Import Prelude.

(** The [io::ErrorKind]s the code names; [OtherError] stands for the rest. *)
Inductive ErrorKind : Type :=
| UnexpectedEof
| TimedOut
| ConnectionRefused
| ConnectionReset
| ConnectionAborted
| InvalidInput
| NotFound
| OtherError.

#[export] Instance ErrorKind_eq_dec : EqDecision ErrorKind.
Proof. solve_decision. Defined.

Record Reader : Type := mkReader {
  avail : list Z;
  fails_with : ErrorKind
}.

(** [Read::read_exact] of [n] bytes. *)
Definition read_exact (r : Reader) (n : Z) : result (list Z * Reader) ErrorKind :=
  if n <=? zlen (avail r)
  then Ok (take (Z.to_nat n) (avail r), mkReader (drop (Z.to_nat n) (avail r)) (fails_with r))
  else Err (fails_with r).

Lemma read_exact_app bs rest k :
  read_exact (mkReader (bs ++ rest) k) (zlen bs) = Ok (bs, mkReader rest k).
Proof.
  unfold read_exact. simpl. rewrite (proj2 (Z.leb_le _ _)) by zlen_lia.
  unfold zlen. rewrite Nat2Z.id, take_app_length, drop_app_length. done.
Qed.

Lemma read_exact_Ok r n bs r' :
  0 <= n -> read_exact r n = Ok (bs, r') ->
  avail r = bs ++ avail r' /\ zlen bs = n /\ fails_with r' = fails_with r.
Proof.
  unfold read_exact. intros Hn. destruct (Z.leb_spec n (zlen (avail r))); [| done].
  intros [= <- <-]. simpl. split; [by rewrite take_drop |].
  split; [| done]. unfold zlen in *. rewrite length_take. lia.
Qed.
