(* ===== verification/Mse.v ===== *)
(** * Message stream encryption

    Models the rest of [src/src/peer/mse.rs]: RC4, the encrypted stream, and
    both ends of the exchange that sets it up ([initiate], [respond] and
    [accept]), over the Diffie-Hellman group of [Bignum].

    SHA-1 is a parameter.  What the code draws at random (private keys and
    pads) is an argument of the operation that draws it. *)

From S2P Require Import Bignum.
From S2P Require Import Prelude Str Bytes Numeral Text Io.

Inductive Encryption : Type :=
| Off
| Prefer
| Required.

#[export] Instance Encryption_eq_dec : EqDecision Encryption.
Proof. solve_decision. Defined.

(** [Encryption::parse]; the error is the text refused. *)
Definition parse_encryption (text : list Z) : result Encryption (list Z) :=
  let t := to_ascii_lowercase text in
  if bool_decide (t = str "off") || bool_decide (t = str "no") || bool_decide (t = str "false") then Ok Off
  else if bool_decide (t = str "prefer") || bool_decide (t = str "on") || bool_decide (t = str "true") then Ok Prefer
  else if bool_decide (t = str "require") || bool_decide (t = str "force") then Ok Required
  else Err t.

(** ** RC4 *)

Record Rc4 : Type := mkRc4 {
  s : list Z;
  i : Z;
  j : Z
}.

(** [s[k]] and [s.swap(a, b)] of a 256-entry array at [u8] indices. *)
Definition at_ (s : list Z) (k : Z) : Z := nth (Z.to_nat k) s 0.
Definition swap (s : list Z) (a b : Z) : list Z := <[Z.to_nat b := at_ s a]> (<[Z.to_nat a := at_ s b]> s).

(** One step of the key schedule. *)
Definition schedule_step (key : list Z) (st : list Z * Z) (i : Z) : list Z * Z :=
  let '(s, j) := st in
  let j := wrap 8 (wrap 8 (j + at_ s i) + at_ key (i mod zlen key)) in
  (swap s i j, j).

(** [Rc4::new]; an empty key is the panic. *)
Definition rc4_new (key : list Z) : option Rc4 :=
  match key with
  | [] => None
  | _ => let '(s, _) := foldl (schedule_step key) (seqZ 0 256, 0) (seqZ 0 256) in Some (mkRc4 s 0 0)
  end.

(** The state after one byte, and the keystream byte. *)
Definition next (c : Rc4) : Rc4 * Z :=
  let i := wrap 8 (i c + 1) in
  let j := wrap 8 (j c + at_ (s c) i) in
  let s := swap (s c) i j in
  (mkRc4 s i j, at_ s (wrap 8 (at_ s i + at_ s j))).

Fixpoint apply (c : Rc4) (data : list Z) : list Z * Rc4 :=
  match data with
  | [] => ([], c)
  | byte :: rest =>
      let '(c1, k) := next c in
      let '(out, c2) := apply c1 rest in
      (Z.lxor byte k :: out, c2)
  end.

Definition keyed_for_mse (key : list Z) : option Rc4 :=
  match rc4_new key with
  | None => None
  | Some c => Some (apply c (replicate 1024 0)).2
  end.

(** ** The connection underneath

    The bytes that will arrive, and how many more writes it takes. *)

Record Conn : Type := mkConn {
  reader : Reader;
  written : list Z;
  writes : nat
}.

Inductive MseError : Type :=
| IoErr (k : ErrorKind)
| Protocol (what : list Z)
| UnknownTorrent
| NoCommonMethod.

Abbreviation mse A := (option (result A MseError)).

Definition read_n (c : Conn) (n : Z) : mse (list Z * Conn) :=
  Some (match read_exact (reader c) n with
        | Ok (bs, r) => Ok (bs, mkConn r (written c) (writes c))
        | Err k => Err (IoErr k)
        end).

Definition write_all (c : Conn) (data : list Z) : mse Conn :=
  Some (match writes c with
        | O => Err (IoErr (fails_with (reader c)))
        | S n => Ok (mkConn (reader c) (written c ++ data) n)
        end).

(** [scan_for]: the last [pattern.len()] bytes read are kept in [window]. *)
Fixpoint scan_loop (pattern window : list Z) (c : Conn) (limit : nat) : mse Conn :=
  match limit with
  | O => Some (Err (Protocol (str "did not find where the pad ends")))
  | S limit' =>
      let! (byte, c) := read_n c 1 in
      let window := (if (length window =? length pattern)%nat then tail window else window) ++ byte in
      if (length window =? length pattern)%nat && bool_decide (window = pattern) then Some (Ok c)
      else scan_loop pattern window c limit'
  end.

Definition scan_for (c : Conn) (pattern : list Z) (limit : nat) : mse Conn := scan_loop pattern [] c limit.

(** ** The encrypted stream *)

Record MseStream : Type := mkMseStream {
  inner : Conn;
  encrypt : option Rc4;
  decrypt : option Rc4;
  replay : list Z
}.

Definition plain (c : Conn) : MseStream := mkMseStream c None None [].

Definition is_encrypted (st : MseStream) : bool := match encrypt st with Some _ => true | None => false end.

(** [read] of the connection into a buffer of [len] bytes: up to [n] of what
    has arrived, at least one if there is any and room for it; nothing at the
    end of the stream. *)
Definition inner_read (c : Conn) (len n : Z) : result (list Z * Conn) ErrorKind :=
  match avail (reader c) with
  | [] => if decide (fails_with (reader c) = UnexpectedEof) then Ok ([], c) else Err (fails_with (reader c))
  | bytes => let k := Z.to_nat (Z.min len (Z.max 1 n)) in
      Ok (take k bytes, mkConn (mkReader (drop k bytes) (fails_with (reader c))) (written c) (writes c))
  end.

Definition stream_read (st : MseStream) (len n : Z) : result (list Z * MseStream) ErrorKind :=
  match replay st with
  | _ :: _ =>
      let k := Z.to_nat (Z.min len (zlen (replay st))) in
      Ok (take k (replay st), mkMseStream (inner st) (encrypt st) (decrypt st) (drop k (replay st)))
  | [] =>
      let? (bytes, c) := inner_read (inner st) len n in
      match decrypt st with
      | Some cipher => let '(clear, cipher) := apply cipher bytes in Ok (clear, mkMseStream c (encrypt st) (Some cipher) [])
      | None => Ok (bytes, mkMseStream c (encrypt st) None [])
      end
  end.

(** [write] of the connection takes [n] bytes of a non-empty buffer. *)
Definition inner_write (c : Conn) (buf : list Z) (n : Z) : result (Z * Conn) ErrorKind :=
  match writes c with
  | O => Err (fails_with (reader c))
  | S n' => let k := Z.min (zlen buf) (Z.max 1 n) in Ok (k, mkConn (reader c) (written c ++ take (Z.to_nat k) buf) n')
  end.

Definition stream_write (st : MseStream) (buf : list Z) (n : Z) : result (Z * MseStream) ErrorKind :=
  match encrypt st with
  | None => let? (k, c) := inner_write (inner st) buf n in Ok (k, mkMseStream c None (decrypt st) (replay st))
  | Some cipher =>
      let '(sealed, cipher) := apply cipher buf in
      match writes (inner st) with
      | O => Err (fails_with (reader (inner st)))
      | S n' => Ok (zlen buf, mkMseStream (mkConn (reader (inner st)) (written (inner st) ++ sealed) n') (Some cipher) (decrypt st) (replay st))
      end
  end.

(** ** The exchange *)

Section exchange.

Context (sha1 : list Z -> list Z).

Definition CRYPTO_PLAINTEXT : Z := 1.
Definition CRYPTO_RC4 : Z := 2.
Definition MAX_PAD : nat := 512.

Definition hash (parts : list (list Z)) : list Z := sha1 (concat parts).

(** The length [random_pad_len] makes of two random bytes. *)
Definition random_pad_len (n : list Z) : Z := from_be_bytes n mod (Z.of_nat MAX_PAD + 1).

Record Ciphers : Type := mkCiphers {
  c_encrypt : Rc4;
  c_decrypt : Rc4
}.

Definition ciphers (secret skey : list Z) (initiator : bool) : option Ciphers :=
  match keyed_for_mse (hash [str "keyA"; secret; skey]), keyed_for_mse (hash [str "keyB"; secret; skey]) with
  | Some key_a, Some key_b => Some (if initiator then mkCiphers key_a key_b else mkCiphers key_b key_a)
  | _, _ => None
  end.

(** A panic, or a value. *)
Definition no_panic {A} (x : option A) : mse A := Ok <$> x.

Definition fail {A} (what : String.string) : mse A := Some (Err (Protocol (str what))).
Arguments fail {A} what%_string_scope.

Definition usable_secret (theirs private : list Z) : mse (list Z) :=
  Some (ok_or (shared_secret theirs private) (Protocol (str "the peer's public key is not usable"))).

(** The proof that the torrent is known, hidden by the secret. *)
Definition hidden_hash (secret info_hash : list Z) : list Z :=
  zip_with Z.lxor (hash [str "req2"; info_hash]) (hash [str "req3"; secret]).

Definition crypto_provide (allow_plaintext : bool) : Z := Z.lor CRYPTO_RC4 (if allow_plaintext then CRYPTO_PLAINTEXT else 0).

Definition initiate_with_pads (private pad_a pad_c : list Z) (stream : Conn) (info_hash : list Z) (allow_plaintext : bool) (payload : list Z) : mse MseStream :=
  let! stream := write_all stream (public_key private ++ pad_a) in
  let! (theirs, stream) := read_n stream (Z.of_nat KEY_BYTES) in
  let! secret := usable_secret theirs private in
  let! c := no_panic (ciphers secret info_hash true) in
  let clear := replicate 8 0 ++ to_be_bytes 4 (crypto_provide allow_plaintext) ++ to_be_bytes 2 (wrap 16 (zlen pad_c)) ++ pad_c ++
    to_be_bytes 2 (wrap 16 (zlen payload)) ++ payload in
  let '(sealed, enc) := apply (c_encrypt c) clear in
  let! stream := write_all stream (hash [str "req1"; secret] ++ hidden_hash secret info_hash ++ sealed) in
  let '(pattern, _) := apply (c_decrypt c) (replicate 8 0) in
  let! stream := scan_for stream pattern (MAX_PAD + 8) in
  let '(_, dec) := apply (c_decrypt c) (replicate 8 0) in
  let! (head, stream) := read_n stream 6 in
  let '(head, dec) := apply dec head in
  let select := from_be_bytes (slice head 0 4) in
  let pad_d := from_be_bytes (slice head 4 6) in
  if Z.of_nat MAX_PAD <? pad_d then fail "the peer's pad is longer than allowed" else
  let! (skip, stream) := read_n stream pad_d in
  let '(_, dec) := apply dec skip in
  if select =? CRYPTO_RC4 then Some (Ok (mkMseStream stream (Some enc) (Some dec) []))
  else if (select =? CRYPTO_PLAINTEXT) && allow_plaintext then Some (Ok (mkMseStream stream None None []))
  else Some (Err NoCommonMethod).

Record Accept : Type := mkAccept {
  allow_rc4 : bool;
  allow_plaintext : bool
}.

(** The method chosen from what the peer provides. *)
Definition choose_method (accept : Accept) (provide : Z) : option Z :=
  if negb (Z.land provide CRYPTO_RC4 =? 0) && allow_rc4 accept then Some CRYPTO_RC4
  else if negb (Z.land provide CRYPTO_PLAINTEXT =? 0) && allow_plaintext accept then Some CRYPTO_PLAINTEXT
  else None.

Definition respond_with_pad (private pad_b pad_d : list Z) (stream : Conn) (already_read : list Z) (known : list (list Z)) (accept : Accept) :
    mse (MseStream * list Z) :=
  let have := take KEY_BYTES already_read in
  let! (more, stream) := read_n stream (Z.of_nat KEY_BYTES - zlen have) in
  let theirs := have ++ more in
  let! stream := write_all stream (public_key private ++ pad_b) in
  let! secret := usable_secret theirs private in
  let! stream := scan_for stream (hash [str "req1"; secret]) (MAX_PAD + 20) in
  let! (proof, stream) := read_n stream 20 in
  let! skey := Some (ok_or (List.find (fun candidate => bool_decide (hidden_hash secret candidate = proof)) known) UnknownTorrent) in
  let! c := no_panic (ciphers secret skey false) in
  let! (head, stream) := read_n stream 14 in
  let '(head, dec) := apply (c_decrypt c) head in
  if negb (bool_decide (slice head 0 8 = replicate 8 0)) then fail "the verification constant is wrong" else
  let provide := from_be_bytes (slice head 8 12) in
  let pad_c := from_be_bytes (slice head 12 14) in
  if Z.of_nat MAX_PAD <? pad_c then fail "the peer's pad is longer than allowed" else
  let! (skip, stream) := read_n stream (pad_c + 2) in
  let '(skip, dec) := apply dec skip in
  let payload_len := from_be_bytes (slice skip pad_c (pad_c + 2)) in
  let! (payload, stream) := read_n stream payload_len in
  let '(payload, dec) := apply dec payload in
  let! select := Some (ok_or (choose_method accept provide) NoCommonMethod) in
  let '(answer, enc) := apply (c_encrypt c) (replicate 8 0 ++ to_be_bytes 4 select ++ to_be_bytes 2 (wrap 16 (zlen pad_d)) ++ pad_d) in
  let! stream := write_all stream answer in
  Some (Ok (if select =? CRYPTO_RC4 then mkMseStream stream (Some enc) (Some dec) payload else mkMseStream stream None None payload, skey)).

Definition PLAINTEXT_PREFIX : list Z := 19 :: str "BitTorrent protocol".

Definition accept (private pad_b pad_d : list Z) (stream : Conn) (known : list (list Z)) (mode : Encryption) : mse (MseStream * bool) :=
  let! (first, stream) := read_n stream 20 in
  if bool_decide (first = PLAINTEXT_PREFIX) then
    if bool_decide (mode = Required) then Some (Err NoCommonMethod)
    else Some (Ok (mkMseStream stream None None first, false))
  else if bool_decide (mode = Off) then fail "not a BitTorrent handshake, and encryption is off" else
  let! (stream, _) := respond_with_pad private pad_b pad_d stream first known (mkAccept true (negb (bool_decide (mode = Required)))) in
  Some (Ok (stream, is_encrypted stream)).

End exchange.
Arguments fail {A} what%_string_scope.

(** ** RC4 is a permutation, and its own inverse *)

(** A cipher state as RC4 keeps it: every byte value once, and two indices. *)
Record rc4_ok (c : Rc4) : Prop := {
  s_perm : s c ≡ₚ seqZ 0 256;
  i_byte : byte_ok (i c);
  j_byte : byte_ok (j c)
}.

Lemma perm_at l k : l ≡ₚ seqZ 0 256 -> byte_ok k -> l !! Z.to_nat k = Some (at_ l k) /\ byte_ok (at_ l k).
Proof.
  intros Hp Hk. unfold u_ok in Hk. destruct (lookup_lt_is_Some_2 l (Z.to_nat k)) as [x Hx].
  { rewrite (Permutation_length Hp), length_seqZ. lia. }
  unfold at_. rewrite (nth_lookup_Some _ _ _ _ Hx). split; [done |]. apply list_elem_of_lookup_2 in Hx. rewrite Hp in Hx. by apply elem_of_seqZ in Hx.
Qed.

Lemma swap_perm l a b : l ≡ₚ seqZ 0 256 -> byte_ok a -> byte_ok b -> swap l a b ≡ₚ seqZ 0 256.
Proof.
  intros Hp Ha Hb. destruct (perm_at l a Hp Ha) as [Hx _], (perm_at l b Hp Hb) as [Hy _]. unfold swap.
  etransitivity; [by apply Permutation_insert_swap | done].
Qed.

Lemma next_ok c : rc4_ok c -> rc4_ok (next c).1 /\ byte_ok (next c).2.
Proof.
  intros [Hs Hi Hj]. unfold next. cbn [fst snd]. assert (byte_ok (wrap 8 (i c + 1))) as Hi1 by (by apply wrap_ok).
  set (j1 := wrap 8 (j c + _)). assert (byte_ok j1) as Hj1 by (by apply wrap_ok). pose proof (swap_perm _ _ _ Hs Hi1 Hj1) as Hsw.
  split; [done |]. apply perm_at; [done |]. by apply wrap_ok.
Qed.

Lemma schedule_ok key l : forall st, Forall byte_ok l -> st.1 ≡ₚ seqZ 0 256 -> (foldl (schedule_step key) st l).1 ≡ₚ seqZ 0 256.
Proof.
  induction l as [| x l IH]; intros [st jj] Hl Hst; cbn [foldl]; [done |]. apply Forall_cons in Hl as [Hx Hl]. apply IH; [done |].
  cbn [schedule_step fst]. apply swap_perm; [done | done |]. by apply wrap_ok.
Qed.

Lemma rc4_new_ok key c : rc4_new key = Some c -> rc4_ok c.
Proof.
  unfold rc4_new. destruct key as [| k key]; [done |]. destruct (foldl _ _ _) as [st jj] eqn:E. intros [= <-]. split; cbn [s i j]; [| unfold u_ok; lia..].
  change st with (st, jj).1. rewrite <- E. apply schedule_ok; [| reflexivity]. apply Forall_forall. intros x Hx%elem_of_seqZ. unfold u_ok. lia.
Qed.

Lemma apply_ok c x : rc4_ok c -> rc4_ok (apply c x).2 /\ (bytes_ok x -> bytes_ok (apply c x).1).
Proof.
  revert c. induction x as [| b x IH]; intros c Hc; cbn [apply]; [split; [done | by intros; apply Forall_nil] |].
  pose proof (next_ok c Hc) as [Hn Hk]. destruct (next c) as [c1 k]. cbn [fst snd] in *. destruct (IH c1 Hn) as [H1 H2].
  destruct (apply c1 x) as [out c2]. cbn [fst snd] in *. split; [done |]. intros [Hb Hx]%Forall_cons. apply Forall_cons. split; [| auto].
  unfold u_ok in *. split; [apply Z.lxor_nonneg; lia |].
  destruct (Z.eq_dec (Z.lxor b k) 0) as [-> | Hne]; [lia |]. apply Z.log2_lt_pow2; [pose proof (proj2 (Z.lxor_nonneg b k)); lia |].
  eapply Z.le_lt_trans; [apply Z.log2_lxor; lia |]. apply Z.max_lub_lt; [destruct (Z.eq_dec b 0) as [-> |]; [done |] | destruct (Z.eq_dec k 0) as [-> |]; [done |]]; apply Z.log2_lt_pow2; lia.
Qed.

Lemma apply_length c x : length (apply c x).1 = length x.
Proof.
  revert c. induction x as [| b x IH]; intros c; cbn [apply]; [done |]. destruct (next c) as [c1 k]. specialize (IH c1).
  destruct (apply c1 x) as [out c2]. cbn [fst length] in *. by rewrite IH.
Qed.

Lemma apply_app c x y :
  apply c (x ++ y) = ((apply c x).1 ++ (apply (apply c x).2 y).1, (apply (apply c x).2 y).2).
Proof.
  revert c. induction x as [| b x IH]; intros c; cbn [apply app fst snd]; [by destruct (apply c y) |]. destruct (next c) as [c1 k]. rewrite IH.
  by destruct (apply c1 x) as [out c2].
Qed.

(** Deciphering with the state the sender had. *)
Lemma apply_twice c x : apply c (apply c x).1 = (x, (apply c x).2).
Proof.
  revert c. induction x as [| b x IH]; intros c; cbn [apply]; [done |]. destruct (next c) as [c1 k] eqn:En. specialize (IH c1).
  destruct (apply c1 x) as [out c2]. cbn [fst snd apply] in *. rewrite En, IH. by rewrite Z.lxor_assoc, Z.lxor_nilpotent, Z.lxor_0_r.
Qed.

(** The state moves on by the number of bytes. *)
Lemma apply_state c x y : length x = length y -> (apply c x).2 = (apply c y).2.
Proof.
  revert c y. induction x as [| b x IH]; intros c [| b' y] Hl; try done. injection Hl as Hl. cbn [apply]. destruct (next c) as [c1 k].
  specialize (IH c1 y Hl). by destruct (apply c1 x), (apply c1 y).
Qed.

(** ** The stream carries bytes unchanged *)

(** What is still to be read: bytes kept for replay, then what has arrived,
    deciphered. *)
Definition arrived (st : MseStream) : list Z := avail (reader (inner st)).

Definition pending (st : MseStream) : list Z :=
  replay st ++ match decrypt st with Some c => (apply c (arrived st)).1 | None => arrived st end.

(** The sender's cipher is where the receiver's will be once it has read all
    that has arrived. *)
Definition linked (a b : MseStream) : Prop :=
  match encrypt a, decrypt b with
  | Some e, Some d => (apply d (arrived b)).2 = e
  | None, None => True
  | _, _ => False
  end.

(** Bytes put on the wire arrive. *)
Definition deliver (st : MseStream) (bytes : list Z) : MseStream :=
  let c := inner st in
  mkMseStream (mkConn (mkReader (avail (reader c) ++ bytes) (fails_with (reader c))) (written c) (writes c)) (encrypt st) (decrypt st) (replay st).

Inductive LinkStep : Type :=
| Write (buf : list Z) (n : Z)
| Read (len n : Z).

Record Link : Type := mkLink {
  sender : MseStream;
  receiver : MseStream;
  accepted : list Z;
  got : list Z
}.

(** A write at one end, delivered to the other; or a read there, which blocks
    (does nothing) when there is nothing to read. *)
Definition link_step (l : Link) (step : LinkStep) : result Link ErrorKind :=
  match step with
  | Write buf n =>
      let? (k, a) := stream_write (sender l) buf n in
      let fresh := drop (length (written (inner (sender l)))) (written (inner a)) in
      Ok (mkLink a (deliver (receiver l) fresh) (accepted l ++ take (Z.to_nat k) buf) (got l))
  | Read len n =>
      match pending (receiver l) with
      | [] => Ok l
      | _ => let? (bytes, b) := stream_read (receiver l) len n in Ok (mkLink (sender l) b (accepted l) (got l ++ bytes))
      end
  end.

Fixpoint link_run (l : Link) (steps : list LinkStep) : result Link ErrorKind :=
  match steps with
  | [] => Ok l
  | step :: rest => let? l := link_step l step in link_run l rest
  end.

(** A read of at least one byte returns the next of what is pending. *)
Lemma read_pending st len n : pending st <> [] -> 1 <= len ->
  exists out st', stream_read st len n = Ok (out, st') /\ out ++ pending st' = pending st /\ 1 <= zlen out <= len /\ encrypt st' = encrypt st /\
    (forall a, linked a st -> linked a st').
Proof.
  intros Hp Hlen. unfold stream_read. destruct (replay st) as [| r0 rs] eqn:Er.
  - unfold inner_read. unfold pending in Hp. rewrite Er in Hp. cbn [app] in Hp. destruct (avail (reader (inner st))) as [| b0 bs] eqn:Ea.
    { exfalso. apply Hp. unfold arrived. rewrite Ea. by destruct (decrypt st). }
    set (k := Z.to_nat (Z.min len (Z.max 1 n))). assert (1 <= zlen (take k (b0 :: bs)) <= len) as Hk by (unfold zlen; rewrite length_take; cbn [length]; lia).
    cbn [result_bind]. destruct (decrypt st) as [d |] eqn:Ed.
    + pose proof (apply_app d (take k (b0 :: bs)) (drop k (b0 :: bs))) as Happ. rewrite take_drop in Happ.
      pose proof (apply_length d (take k (b0 :: bs))) as Hl. destruct (apply d (take k (b0 :: bs))) as [clear d'] eqn:E. cbn [fst snd] in *.
      eexists _, _. split; [reflexivity |]. split_and!; [| unfold zlen in *; rewrite Hl; lia.. | done |].
      * unfold pending, arrived. cbn [replay decrypt inner reader avail app]. rewrite Er, Ed, Ea, Happ. done.
      * intros a. unfold linked, arrived. cbn [decrypt inner reader avail]. rewrite Ed, Ea, Happ. done.
    + eexists _, _. split; [reflexivity |]. split_and!; [| lia.. | done |].
      * unfold pending, arrived. cbn [replay decrypt inner reader avail app]. rewrite Er, Ed, Ea. apply take_drop.
      * intros a. unfold linked. cbn [decrypt]. by rewrite Ed.
  - eexists _, _. split; [reflexivity |]. set (k := Z.to_nat _). assert (1 <= zlen (take k (r0 :: rs)) <= len) as Hk.
    { subst k. unfold zlen. rewrite length_take. cbn [length]. lia. }
    split_and!; [| lia.. | done | done]. unfold pending, arrived. cbn [replay decrypt inner]. rewrite app_assoc, take_drop, Er. done.
Qed.

Lemma linked_write a b buf n : linked a b -> (0 < writes (inner a))%nat ->
  exists k a' fresh, stream_write a buf n = Ok (k, a') /\ written (inner a') = written (inner a) ++ fresh /\
    linked a' (deliver b fresh) /\ pending (deliver b fresh) = pending b ++ take (Z.to_nat k) buf /\ writes (inner a') = pred (writes (inner a)).
Proof.
  intros Hl Hw. unfold linked in Hl. unfold stream_write, inner_write. destruct (writes (inner a)) as [| w] eqn:Ew; [lia |].
  destruct (encrypt a) as [e |] eqn:Ee, (decrypt b) as [d |] eqn:Ed; [| done | done |].
  - pose proof (apply_app d (arrived b) (apply e buf).1) as Happ. rewrite Hl, apply_twice in Happ.
    destruct (apply e buf) as [sealed e'] eqn:E. cbn [fst snd] in *. eexists _, _, sealed. split; [reflexivity |]. split; [done |]. split_and!.
    + unfold linked, arrived, deliver. cbn [encrypt decrypt inner reader avail]. rewrite Ed. unfold arrived in Happ. by rewrite Happ.
    + unfold pending, arrived, deliver. cbn [decrypt inner reader avail replay]. rewrite Ed. unfold arrived in Happ. rewrite Happ. cbn [fst].
      unfold zlen. rewrite Nat2Z.id, firstn_all, app_assoc. done.
    + done.
  - cbn [result_bind]. eexists _, _, _. split; [reflexivity |]. split; [done |]. split_and!; [by unfold linked; cbn [encrypt]; cbn; rewrite Ed | | done].
    unfold pending, arrived, deliver. cbn [decrypt inner reader avail replay]. rewrite Ed. by rewrite app_assoc.
Qed.

(** ** Scanning past a pad *)

(** The pattern does not turn up before the end of the pad. *)
Definition not_early (pattern pad : list Z) : Prop :=
  forall k, (k < length pad)%nat -> take (length pattern) (drop k (pad ++ pattern)) <> pattern.

Lemma read_n_at bs rest k w m len : zlen bs = len ->
  read_n (mkConn (mkReader (bs ++ rest) k) w m) len = Some (Ok (bs, mkConn (mkReader rest k) w m)).
Proof. intros <-. unfold read_n. cbn [reader]. by rewrite read_exact_app. Qed.

Lemma not_early_tail pattern x pad : not_early pattern (x :: pad) -> not_early pattern pad.
Proof. intros H k Hk. apply (H (S k)). cbn [length]. lia. Qed.

Lemma scan_found pattern k w m rest d : forall pre window limit,
  pattern <> [] -> (length window <= length pattern)%nat -> window ++ d = pre ++ pattern -> d <> [] -> not_early pattern pre -> (length d <= limit)%nat ->
  scan_loop pattern window (mkConn (mkReader (d ++ rest) k) w m) limit = Some (Ok (mkConn (mkReader rest k) w m)).
Proof.
  induction d as [| x d IH]; intros pre window limit Hne Hw E Hd Hearly Hlim; [done |]. destruct limit as [| limit]; [cbn in Hlim; lia |].
  cbn [scan_loop]. rewrite <- app_comm_cons. change (x :: d ++ rest) with ([x] ++ (d ++ rest)). rewrite read_n_at by done. cbn [fuelled_bind].
  set (window' := (if (length window =? length pattern)%nat then tail window else window) ++ [x]).
  assert (exists pre', window' ++ d = pre' ++ pattern /\ not_early pattern pre' /\ (length window' <= length pattern)%nat) as (pre' & E' & Hearly' & Hw').
  { subst window'. destruct (Nat.eqb_spec (length window) (length pattern)) as [Hf | Hf].
    - destruct window as [| y window]; [destruct pattern; done |]. destruct pre as [| z pre].
      { exfalso. apply (f_equal length) in E. rewrite !length_app in E. cbn [length] in *. lia. }
      injection E as -> E. exists pre. cbn [tail]. rewrite <- app_assoc. split; [done |]. split; [by eapply not_early_tail |].
      rewrite length_app. cbn [length] in *. lia.
    - exists pre. rewrite <- app_assoc. split; [done |]. split; [done |]. rewrite length_app. cbn [length]. lia. }
  cbv zeta. destruct (Nat.eqb_spec (length window') (length pattern)) as [Hf | Hf]; cbn [andb].
  - case_bool_decide as Hm.
    + assert (d = []) as ->; [| done]. destruct pre' as [| z pre'].
      * apply (f_equal length) in E'. rewrite !length_app in E'. apply length_zero_iff_nil. cbn [length] in E'. lia.
      * exfalso. apply (Hearly' 0%nat); [cbn [length]; lia |]. rewrite drop_0, <- E', <- Hf, take_app_length. done.
    + apply (IH pre'); try done; [| cbn [length] in Hlim; lia]. intros ->. rewrite app_nil_r in E'. apply Hm.
      destruct pre'; [done |]. exfalso. rewrite E' in Hf. rewrite length_app in Hf. cbn [length] in Hf. lia.
  - apply (IH pre'); try done; [| cbn [length] in Hlim; lia]. intros ->. apply (f_equal length) in E'. rewrite !length_app in E'. cbn [length] in E'. lia.
Qed.

Lemma scan_for_found pattern pad rest k w m limit : pattern <> [] -> not_early pattern pad -> (length pad + length pattern <= limit)%nat ->
  scan_for (mkConn (mkReader (pad ++ pattern ++ rest) k) w m) pattern limit = Some (Ok (mkConn (mkReader rest k) w m)).
Proof.
  intros Hne Hp Hl. unfold scan_for. rewrite app_assoc. apply (scan_found pattern k w m rest (pad ++ pattern) pad []); try done; [cbn; lia | | by rewrite length_app].
  destruct pad; [by destruct pattern | done].
Qed.

(** ** Both ends of the exchange *)

#[local] Opaque P group prime_bytes.

Lemma select_method acc allow select : choose_method acc (crypto_provide allow) = Some select ->
  (select = CRYPTO_RC4 \/ select = CRYPTO_PLAINTEXT) /\ (select = CRYPTO_PLAINTEXT -> allow = true).
Proof.
  unfold choose_method, crypto_provide, CRYPTO_RC4, CRYPTO_PLAINTEXT.
  destruct allow, (allow_rc4 acc), (allow_plaintext acc); cbn; intros [= <-]; (split; [auto | discriminate || auto]).
Qed.

Lemma pad_len (p : list Z) : (length p <= MAX_PAD)%nat -> from_be_bytes (to_be_bytes 2 (wrap 16 (zlen p))) = zlen p /\ (Z.of_nat MAX_PAD <? zlen p) = false.
Proof.
  intros Hp. assert (zlen p <= 512) as Hz by (unfold zlen; unfold MAX_PAD in Hp; lia). pose proof (zlen_nonneg p). split; [| apply Z.ltb_ge; unfold MAX_PAD; lia].
  rewrite wrap_small by (unfold u_ok; lia). apply from_to_be_bytes_ok. change (256 ^ Z.of_nat 2) with 65536. lia.
Qed.

Lemma zlen_apply c x : zlen (apply c x).1 = zlen x.
Proof. unfold zlen. by rewrite apply_length. Qed.

Lemma public_key_length x : bytes_ok x -> length (public_key x) = KEY_BYTES.
Proof. intros Hx. rewrite public_key_spec by done. apply length_to_be_bytes. Qed.

Lemma keyed_total key : key <> [] -> is_Some (keyed_for_mse key).
Proof.
  intros Hk. unfold keyed_for_mse, rc4_new. destruct key; [done |]. destruct (foldl _ _ _). by eexists.
Qed.

Lemma lxor_cancel (m : list Z) : forall x y, length x = length m -> length y = length m -> zip_with Z.lxor x m = zip_with Z.lxor y m -> x = y.
Proof.
  induction m as [| k m IH]; intros [| a x] [| b y] Hx Hy E; try done. injection Hx as Hx. injection Hy as Hy. cbn in E. injection E as E1 E2.
  f_equal; [| by apply IH]. apply (f_equal (fun z => Z.lxor z k)) in E1. by rewrite !Z.lxor_assoc, !Z.lxor_nilpotent, !Z.lxor_0_r in E1.
Qed.

Section two_ends.

Context (sha1 : list Z -> list Z) (Hsha : forall x, length (sha1 x) = 20%nat).

Lemma hash_length parts : length (hash sha1 parts) = 20%nat.
Proof using Hsha. apply Hsha. Qed.

Lemma hash_nonempty parts : hash sha1 parts <> [].
Proof using Hsha. intros E. pose proof (hash_length parts) as Hl. rewrite E in Hl. discriminate Hl. Qed.

Lemma ciphers_total secret skey : exists a b, ciphers sha1 secret skey true = Some (mkCiphers a b) /\ ciphers sha1 secret skey false = Some (mkCiphers b a).
Proof using Hsha.
  unfold ciphers. assert (forall parts, is_Some (keyed_for_mse (hash sha1 parts))) as H.
  { intros parts. apply keyed_total, hash_nonempty. }
  destruct (H [str "keyA"; secret; skey]) as [a ->], (H [str "keyB"; secret; skey]) as [b ->]. by exists a, b.
Qed.

Lemma hidden_length secret info : length (hidden_hash sha1 secret info) = 20%nat.
Proof using Hsha. unfold hidden_hash. rewrite length_zip_with, !hash_length. done. Qed.

(** The proof picks the torrent meant, among known ones whose hashes differ. *)
Lemma find_known secret info known :
  info ∈ known -> (forall x, x ∈ known -> hash sha1 [str "req2"; x] = hash sha1 [str "req2"; info] -> x = info) ->
  List.find (fun x => bool_decide (hidden_hash sha1 secret x = hidden_hash sha1 secret info)) known = Some info.
Proof using Hsha.
  intros Hin Huniq. induction known as [| y known IH]; [by apply not_elem_of_nil in Hin |]. cbn [List.find]. case_bool_decide as E.
  - f_equal. apply Huniq; [apply elem_of_cons; by left |]. apply (lxor_cancel (hash sha1 [str "req3"; secret])); [by rewrite !hash_length.. | exact E].
  - apply IH; [| intros x Hx; apply Huniq, elem_of_cons; by right]. apply elem_of_cons in Hin as [-> | ?]; done.
Qed.

(** The parties and their choices. *)
Context (a b pad_a pad_b pad_c pad_d payload info : list Z) (known : list (list Z)) (allow : bool) (acc : Accept).
Context (Ha : bytes_ok a) (Hb : bytes_ok b).
Context (Hka : 1 < 2 ^ from_be_bytes a mod P < P - 1) (Hkb : 1 < 2 ^ from_be_bytes b mod P < P - 1).
Context (Hpa : (length pad_a <= MAX_PAD)%nat) (Hpb : (length pad_b <= MAX_PAD)%nat) (Hpc : (length pad_c <= MAX_PAD)%nat) (Hpd : (length pad_d <= MAX_PAD)%nat).
Context (Hpay : zlen payload < 2 ^ 16).
Context (Hin : info ∈ known) (Huniq : forall x, x ∈ known -> hash sha1 [str "req2"; x] = hash sha1 [str "req2"; info] -> x = info).

(** The secret the keys determine. *)
Definition the_secret : list Z := to_be_bytes KEY_BYTES (2 ^ (from_be_bytes a * from_be_bytes b) mod P).

Lemma both_secrets : shared_secret (public_key a) b = Some the_secret /\ shared_secret (public_key b) a = Some the_secret.
Proof using Ha Hb Hka Hkb.
  unfold the_secret. pose proof (public_secret a b Ha Hb Hka) as E1. pose proof (public_secret b a Hb Ha Hkb) as E2.
  by rewrite (Z.mul_comm (from_be_bytes b)) in E2.
Qed.

Context (ka kb : Rc4) (Hc : ciphers sha1 the_secret info true = Some (mkCiphers ka kb)).
Context (Hearly_a : not_early (hash sha1 [str "req1"; the_secret]) pad_a) (Hearly_b : not_early (apply kb (replicate 8 0)).1 pad_b).
Context (select : Z) (Hsel : choose_method acc (crypto_provide allow) = Some select).

(** What [A] says after the keys, in the clear and on the wire. *)
Definition request_head : list Z := replicate 8 0 ++ to_be_bytes 4 (crypto_provide allow) ++ to_be_bytes 2 (wrap 16 (zlen pad_c)).
Definition request_mid : list Z := pad_c ++ to_be_bytes 2 (wrap 16 (zlen payload)).
Definition to_responder : list Z :=
  (public_key a ++ pad_a) ++ hash sha1 [str "req1"; the_secret] ++ hidden_hash sha1 the_secret info ++ (apply ka (request_head ++ request_mid ++ payload)).1.

(** What [B] answers. *)
Definition answer_head : list Z := to_be_bytes 4 select ++ to_be_bytes 2 (wrap 16 (zlen pad_d)).
Definition to_initiator : list Z := (public_key b ++ pad_b) ++ (apply kb (replicate 8 0 ++ answer_head ++ pad_d)).1.

(** The ciphers once the exchange is over. *)
Definition ka_after : Rc4 := (apply ka (request_head ++ request_mid ++ payload)).2.
Definition kb_after : Rc4 := (apply kb (replicate 8 0 ++ answer_head ++ pad_d)).2.
Definition cipher_of (c : Rc4) : option Rc4 := if select =? CRYPTO_RC4 then Some c else None.

(** The request's ciphertext, cut where [B] reads it. *)
Lemma request_pieces :
  (apply ka (request_head ++ request_mid ++ payload)).1 =
  (apply ka request_head).1 ++ (apply (apply ka request_head).2 request_mid).1 ++ (apply (apply (apply ka request_head).2 request_mid).2 payload).1 /\
  ka_after = (apply (apply (apply ka request_head).2 request_mid).2 payload).2.
Proof using Type. unfold ka_after. rewrite !apply_app. cbn [fst snd]. done. Qed.

Lemma request_fields :
  slice request_head 0 8 = replicate 8 0 /\ from_be_bytes (slice request_head 8 12) = crypto_provide allow /\
  from_be_bytes (slice request_head 12 14) = zlen pad_c /\ from_be_bytes (slice request_mid (zlen pad_c) (zlen pad_c + 2)) = zlen payload.
Proof using All.
  destruct (pad_len pad_c Hpc) as [Hlen _]. split; [done |]. split.
  { change (slice request_head 8 12) with (to_be_bytes 4 (crypto_provide allow)). apply from_to_be_bytes_ok. unfold crypto_provide. destruct allow; vm_compute; split; congruence. }
  split.
  - change (slice request_head 12 14) with (to_be_bytes 2 (wrap 16 (zlen pad_c))). exact Hlen.
  - unfold request_mid. rewrite <- (app_nil_r (to_be_bytes 2 _)). change (zlen pad_c + 2) with (zlen pad_c + zlen (to_be_bytes 2 (wrap 16 (zlen payload)))).
    rewrite slice_app_mid. pose proof (zlen_nonneg payload). rewrite wrap_small by (unfold u_ok; lia). apply from_to_be_bytes_ok. change (256 ^ Z.of_nat 2) with (2 ^ 16). lia.
Qed.

(** [B], given what [A] sends. *)
Lemma responder_side already avail more k w m :
  (length already <= KEY_BYTES)%nat -> already ++ avail = to_responder ++ more ->
  respond_with_pad sha1 b pad_b pad_d (mkConn (mkReader avail k) w (S (S m))) already known acc =
  Some (Ok (mkMseStream (mkConn (mkReader more k) (w ++ to_initiator) m) (cipher_of kb_after) (cipher_of ka_after) payload, info)).
Proof using All.
  intros Hal E. pose proof (public_key_length a Ha) as Hpk. destruct both_secrets as [Hsec _]. destruct request_pieces as [Hpieces Hafter].
  destruct request_fields as (Hvc & Hprov & Hplen & Hpayl). destruct (pad_len pad_c Hpc) as [_ Hpcl].
  unfold to_responder in E. rewrite Hpieces, <- !app_assoc in E.
  assert (already = take (length already) (public_key a)) as Hal1.
  { apply (f_equal (take (length already))) in E. rewrite take_app_length, take_app_le in E by lia. done. }
  assert (avail = drop (length already) (public_key a) ++ drop KEY_BYTES (public_key a ++ pad_a ++ hash sha1 [str "req1"; the_secret] ++ hidden_hash sha1 the_secret info ++
    (apply ka request_head).1 ++ (apply (apply ka request_head).2 request_mid).1 ++ (apply (apply (apply ka request_head).2 request_mid).2 payload).1 ++ more)) as ->.
  { apply (f_equal (drop (length already))) in E. rewrite drop_app_length, drop_app_le in E by lia. rewrite <- Hpk, drop_app_length. done. }
  rewrite <- Hpk, drop_app_length. unfold respond_with_pad. cbv zeta. rewrite (take_ge already) by lia.
  rewrite (read_n_at (drop (length already) (public_key a))) by (unfold zlen; rewrite length_drop; lia). cbn [fuelled_bind].
  assert (already ++ drop (length already) (public_key a) = public_key a) as -> by (rewrite Hal1 at 1; apply take_drop). unfold write_all at 1. cbn [writes fuelled_bind written reader].
  unfold usable_secret. rewrite Hsec. cbn [ok_or fuelled_bind].
  rewrite scan_for_found; [| apply hash_nonempty | exact Hearly_a | rewrite hash_length; unfold MAX_PAD in *; lia]. cbn [fuelled_bind].
  rewrite read_n_at by (unfold zlen; rewrite hidden_length; reflexivity). cbn [fuelled_bind].
  rewrite (find_known the_secret info known Hin Huniq). cbn [ok_or fuelled_bind].
  destruct (ciphers_total the_secret info) as (x & y & Hx & ->). rewrite Hc in Hx. injection Hx as <- <-. cbn [no_panic fmap option_fmap option_map fuelled_bind c_decrypt c_encrypt].
  rewrite read_n_at by (rewrite zlen_apply; reflexivity). cbn [fuelled_bind]. rewrite apply_twice. rewrite Hvc, bool_decide_true by reflexivity. cbn [negb].
  rewrite Hprov, Hplen, Hpcl. rewrite read_n_at by (rewrite zlen_apply; unfold request_mid; rewrite zlen_app, zlen_to_be_bytes; reflexivity).
  cbn [fuelled_bind]. rewrite apply_twice, Hpayl. rewrite read_n_at by (rewrite zlen_apply; reflexivity). cbn [fuelled_bind]. rewrite apply_twice, Hsel. cbn [ok_or fuelled_bind].
  unfold to_initiator, answer_head, kb_after, cipher_of, answer_head. rewrite <- !app_assoc.
  destruct (apply kb (replicate 8 0 ++ to_be_bytes 4 select ++ to_be_bytes 2 (wrap 16 (zlen pad_d)) ++ pad_d)) as [answer enc]. cbn [fst snd].
  unfold write_all. cbn [writes fuelled_bind written reader]. rewrite <- Hafter. rewrite <- ?app_assoc. destruct (select =? CRYPTO_RC4); reflexivity.
Qed.

(** The answer's ciphertext, cut where [A] reads it. *)
Lemma answer_pieces :
  (apply kb (replicate 8 0 ++ answer_head ++ pad_d)).1 =
  (apply kb (replicate 8 0)).1 ++ (apply (apply kb (replicate 8 0)).2 answer_head).1 ++ (apply (apply (apply kb (replicate 8 0)).2 answer_head).2 pad_d).1 /\
  kb_after = (apply (apply (apply kb (replicate 8 0)).2 answer_head).2 pad_d).2.
Proof using Type. unfold kb_after. rewrite !apply_app. cbn [fst snd]. done. Qed.

Lemma answer_fields : from_be_bytes (slice answer_head 0 4) = select /\ from_be_bytes (slice answer_head 4 6) = zlen pad_d.
Proof using All.
  destruct (pad_len pad_d Hpd) as [Hlen _]. split; [| exact Hlen]. change (slice answer_head 0 4) with (to_be_bytes 4 select).
  destruct (select_method acc allow select Hsel) as [[-> | ->] _]; apply from_to_be_bytes_ok; vm_compute; split; congruence.
Qed.

(** [A], given what [B] sends. *)
Lemma initiator_side more k w m :
  initiate_with_pads sha1 a pad_a pad_c (mkConn (mkReader (to_initiator ++ more) k) w (S (S m))) info allow payload =
  Some (Ok (mkMseStream (mkConn (mkReader more k) (w ++ to_responder) m) (cipher_of ka_after) (cipher_of kb_after) [])).
Proof using All.
  pose proof (public_key_length b Hb) as Hpk. destruct both_secrets as [_ Hsec]. destruct answer_pieces as [Hpieces Hafter].
  destruct answer_fields as [Hsl Hplen]. destruct (pad_len pad_d Hpd) as [_ Hpdl]. destruct (select_method acc allow select Hsel) as [Hm Hallow].
  unfold to_initiator. rewrite Hpieces, <- !app_assoc. unfold initiate_with_pads. unfold write_all at 1. cbn [writes fuelled_bind written reader].
  rewrite read_n_at by (unfold zlen; rewrite Hpk; reflexivity). cbn [fuelled_bind]. unfold usable_secret. rewrite Hsec. cbn [ok_or fuelled_bind].
  rewrite Hc. cbn [no_panic fmap option_fmap option_map fuelled_bind c_decrypt c_encrypt]. cbv zeta.
  unfold cipher_of, to_responder, ka_after, request_head, request_mid. rewrite <- !app_assoc.
  destruct (apply ka (replicate 8 0 ++ _)) as [sealed enc]. cbn [fst snd]. unfold write_all. cbn [writes fuelled_bind written reader].
  destruct (apply kb (replicate 8 0)) as [vc dec] eqn:Evc. cbn [fst snd] in *.
  assert (length vc = 8%nat) as Hvc by (pose proof (apply_length kb (replicate 8 0)) as Hl; rewrite Evc in Hl; exact Hl).
  rewrite scan_for_found; [| by destruct vc | exact Hearly_b | rewrite Hvc; unfold MAX_PAD in *; lia]. cbn [fuelled_bind].
  rewrite read_n_at by (rewrite zlen_apply; reflexivity). cbn [fuelled_bind]. rewrite apply_twice, Hsl, Hplen, Hpdl.
  rewrite read_n_at by (rewrite zlen_apply; reflexivity). cbn [fuelled_bind]. rewrite apply_twice, <- Hafter. rewrite <- !app_assoc.
  destruct Hm as [Em | Em]; rewrite Em in *; [reflexivity |]. rewrite Hallow by reflexivity. reflexivity.
Qed.

End two_ends.

(** A responder's ciphers come in pairs, and it answers in the clear only if
    that is accepted. *)
Lemma respond_method sha1 private pad_b pad_d c already known acc st skey :
  respond_with_pad sha1 private pad_b pad_d c already known acc = Some (Ok (st, skey)) ->
  (is_encrypted st = true -> is_Some (decrypt st)) /\ (allow_plaintext acc = false -> is_encrypted st = true).
Proof.
  unfold respond_with_pad. cbv zeta. intros H.
  bind_ok H as [more c1] E1. bind_ok H as c2 E2. bind_ok H as secret E3. bind_ok H as c3 E4. bind_ok H as [proof c4] E5. bind_ok H as sk E6.
  bind_ok H as cs E7. bind_ok H as [head c5] E8. destruct (apply (c_decrypt cs) head) as [hd d1]. destruct (negb _); [done |]. destruct (_ <? _); [done |].
  bind_ok H as [skip c6] E9. destruct (apply d1 skip) as [sk2 d2]. bind_ok H as [pay c7] E10. destruct (apply d2 pay) as [pl d3]. bind_ok H as sel E11.
  destruct (apply (c_encrypt cs) _) as [ans enc]. bind_ok H as c8 E12. injection H as <- <-.
  destruct (Z.eqb_spec sel CRYPTO_RC4) as [_ | Hn]; [by split; [eexists |] |]. split; [done |]. intros Hp. exfalso.
  injection E11 as E11. apply ok_or_Ok in E11. unfold choose_method in E11. destruct (negb _ && _) in E11; [injection E11; congruence |].
  rewrite Hp, andb_false_r in E11. done.
Qed.

Lemma initiate_method sha1 a pad_a pad_c c info payload st :
  initiate_with_pads sha1 a pad_a pad_c c info false payload = Some (Ok st) -> is_encrypted st = true.
Proof.
  unfold initiate_with_pads. cbv zeta. intros H. bind_ok H as c1 E1. bind_ok H as [theirs c2] E2. bind_ok H as secret E3. bind_ok H as cs E4.
  destruct (apply (c_encrypt cs) _) as [sealed enc]. bind_ok H as c3 E5. destruct (apply (c_decrypt cs) (replicate 8 0)) as [vc dec]. bind_ok H as c4 E6.
  bind_ok H as [head c5] E7. destruct (apply dec head) as [hd d1]. destruct (_ <? _); [done |]. bind_ok H as [skip c6] E8. destruct (apply d1 skip) as [sk d2].
  destruct (_ =? CRYPTO_RC4); [by injection H as <- |]. rewrite andb_false_r in H. done.
Qed.

(** ** Properties *)

(** C40: RC4's state stays a permutation.  For every non-empty key the
    scheduled cipher, the one with 1024 bytes dropped, and every state reached
    by ciphering data hold each byte value exactly once and two byte indices,
    so no lookup is out of range and bytes are ciphered to bytes; ciphering
    again from the same state gives the data back. *)
Theorem rc4_well_formed (key data : list Z) (Hkey : key <> []) (Hdata : bytes_ok data) :
  exists c, keyed_for_mse key = Some c /\ rc4_ok c /\ rc4_ok (apply c data).2 /\ bytes_ok (apply c data).1 /\ apply c (apply c data).1 = (data, (apply c data).2).
Proof.
  destruct (keyed_total key Hkey) as [c Hc]. exists c. assert (rc4_ok c) as Hok.
  { unfold keyed_for_mse in Hc. destruct (rc4_new key) as [c0 |] eqn:E; [| discriminate Hc]. destruct (apply_ok c0 (replicate 1024 0) (rc4_new_ok key c0 E)) as [H _].
    revert H Hc. generalize (apply c0 (replicate 1024 0)).2. by intros c1 H [= <-]. }
  destruct (apply_ok c data Hok) as [H1 H2]. split_and!; [done.. | by apply H2 | apply apply_twice].
Qed.

(** C12: an encrypted (or plain) stream carries bytes unchanged and in order.
    However writes at one end and reads of any size at the other are
    interleaved, no step fails while the connection lasts, what has been read
    followed by what is pending is what was written, and the two ciphers stay
    in step. *)
Theorem stream_faithful (steps : list LinkStep) (a b : MseStream)
    (Hlink : linked a b) (Hroom : (length steps <= writes (inner a))%nat)
    (Hsizes : Forall (fun step => match step with Read len _ => 1 <= len | Write _ _ => True end) steps) :
  exists l, link_run (mkLink a b [] []) steps = Ok l /\ linked (sender l) (receiver l) /\
    pending b ++ accepted l = got l ++ pending (receiver l).
Proof.
  assert (forall steps l, linked (sender l) (receiver l) -> (length steps <= writes (inner (sender l)))%nat ->
    Forall (fun step => match step with Read len _ => 1 <= len | Write _ _ => True end) steps ->
    pending b ++ accepted l = got l ++ pending (receiver l) ->
    exists l', link_run l steps = Ok l' /\ linked (sender l') (receiver l') /\ pending b ++ accepted l' = got l' ++ pending (receiver l')) as H;
    [| by apply H; [| | | by rewrite app_nil_r]].
  clear. intros steps. induction steps as [| step steps IH]; intros l Hl Hr Hs Hp; [by exists l |].
  apply Forall_cons in Hs as [Hstep Hs]. cbn [length] in Hr. destruct step as [buf n | len n]; cbn [link_run link_step].
  - destruct (linked_write (sender l) (receiver l) buf n Hl) as (k & a' & fresh & -> & Hw & Hl' & Hp' & Hwr); [lia |].
    cbn [result_bind]. apply IH; cbn [sender receiver accepted got]; [| lia | done |]; rewrite Hw, drop_app_length; [done |]. rewrite Hp', !app_assoc, Hp. done.
  - destruct (pending (receiver l)) as [| p0 ps] eqn:Ep; [cbn [result_bind]; apply IH; try done; [lia | by rewrite Ep] |]. rewrite <- Ep in Hp.
    destruct (read_pending (receiver l) len n) as (out & b' & -> & Ho & Hlen & _ & Hlk); [by rewrite Ep | done |].
    cbn [result_bind]. apply IH; cbn [sender receiver accepted got]; [by apply Hlk | lia | done |]. by rewrite <- app_assoc, Ho.
Qed.

(** C10: the two ends of an encrypted handshake agree.  When both public keys
    are usable, the torrent is known to the responder, the pads are within
    bounds and do not contain by chance what the other side scans for, and the
    responder accepts a method the initiator offers, then from what the other
    sends each side finishes: the responder with the torrent meant and the
    initial payload to hand out first, both with the same method, each one's
    encrypting cipher the other's deciphering one, and neither reading past
    the exchange (whatever more has already arrived). *)
Theorem mse_handshake_agrees (sha1 : list Z -> list Z) (a b pad_a pad_b pad_c pad_d payload info : list Z) (known : list (list Z))
    (allow : bool) (acc : Accept) (ka kb : Rc4) (select : Z)
    (Hsha : forall x, length (sha1 x) = 20%nat) (Ha : bytes_ok a) (Hb : bytes_ok b)
    (Hka : 1 < 2 ^ from_be_bytes a mod P < P - 1) (Hkb : 1 < 2 ^ from_be_bytes b mod P < P - 1)
    (Hpads : Forall (fun pad : list Z => (length pad <= MAX_PAD)%nat) [pad_a; pad_b; pad_c; pad_d]) (Hpay : zlen payload < 2 ^ 16)
    (Hin : info ∈ known) (Huniq : forall x, x ∈ known -> hash sha1 [str "req2"; x] = hash sha1 [str "req2"; info] -> x = info)
    (Hc : ciphers sha1 (the_secret a b) info true = Some (mkCiphers ka kb))
    (Hearly_a : not_early (hash sha1 [str "req1"; the_secret a b]) pad_a) (Hearly_b : not_early (apply kb (replicate 8 0)).1 pad_b)
    (Hsel : choose_method acc (crypto_provide allow) = Some select) :
  exists to_b to_a ea eb, (is_Some ea <-> select = CRYPTO_RC4) /\ (is_Some eb <-> select = CRYPTO_RC4) /\
    (forall already rest more_a k n, (length already <= KEY_BYTES)%nat -> already ++ rest = to_b ++ more_a ->
      respond_with_pad sha1 b pad_b pad_d (mkConn (mkReader rest k) [] (2 + n)) already known acc =
      Some (Ok (mkMseStream (mkConn (mkReader more_a k) to_a n) eb ea payload, info))) /\
    (forall more_b k n,
      initiate_with_pads sha1 a pad_a pad_c (mkConn (mkReader (to_a ++ more_b) k) [] (2 + n)) info allow payload =
      Some (Ok (mkMseStream (mkConn (mkReader more_b k) to_b n) ea eb []))).
Proof.
  apply Forall_cons in Hpads as [Hpa Hpads]. apply Forall_cons in Hpads as [Hpb Hpads]. apply Forall_cons in Hpads as [Hpc Hpads]. apply Forall_cons in Hpads as [Hpd _].
  exists (to_responder sha1 a b pad_a pad_c payload info allow ka), (to_initiator b pad_b pad_d kb select).
  exists (cipher_of select (ka_after pad_c payload allow ka)), (cipher_of select (kb_after pad_d kb select)).
  assert (forall c, is_Some (cipher_of select c) <-> select = CRYPTO_RC4) as Hcs.
  { intros c. unfold cipher_of. destruct (Z.eqb_spec select CRYPTO_RC4) as [E | E].
    - split; [intros _; exact E | intros _; by exists c].
    - split; [intros [? H]; discriminate H | intros H; contradiction]. }
  split; [apply Hcs |]. split; [apply Hcs |]. split.
  - intros already rest more k n Hal E.
    change (2 + n)%nat with (S (S n)). rewrite (responder_side sha1 Hsha a b pad_a pad_b pad_c pad_d payload info known allow acc Ha Hb Hka Hkb Hpa Hpb Hpc Hpd Hpay Hin Huniq ka kb Hc Hearly_a Hearly_b select Hsel already rest more k [] n Hal E), app_nil_l. reflexivity.
  - intros more k n.
    change (2 + n)%nat with (S (S n)). rewrite (initiator_side sha1 Hsha a b pad_a pad_b pad_c pad_d payload info known allow acc Ha Hb Hka Hkb Hpa Hpb Hpc Hpd Hpay Hin Huniq ka kb Hc Hearly_a Hearly_b select Hsel more k [] n), app_nil_l. reflexivity.
Qed.

(** The encryption mode is honoured.  A mode that requires encryption
    never ends in a plain stream; encryption that is off never ends in an
    encrypted one, and a plaintext connection it accepts reads exactly the
    bytes the peer sent; and an initiator that does not allow plaintext never
    gets it, whatever the peer answers. *)
Theorem encryption_mode_honoured (sha1 : list Z -> list Z) (private pad_b pad_d : list Z) (c : Conn) (known : list (list Z)) (mode : Encryption)
    (st : MseStream) (encrypted : bool) (Hacc : accept sha1 private pad_b pad_d c known mode = Some (Ok (st, encrypted))) :
  encrypted = is_encrypted st /\ (encrypted = true -> is_Some (decrypt st)) /\ (mode = Required -> encrypted = true) /\
  (mode = Off -> encrypted = false /\ pending st = avail (reader c) /\ take 20 (pending st) = PLAINTEXT_PREFIX) /\
  (forall a pad_a pad_c c' info payload st', initiate_with_pads sha1 a pad_a pad_c c' info false payload = Some (Ok st') -> is_encrypted st' = true).
Proof.
  cut (encrypted = is_encrypted st /\ (encrypted = true -> is_Some (decrypt st)) /\ (mode = Required -> encrypted = true) /\
    (mode = Off -> encrypted = false /\ pending st = avail (reader c) /\ take 20 (pending st) = PLAINTEXT_PREFIX)).
  { intros (? & ? & ? & ?). split_and!; try assumption. exact (initiate_method sha1). }
  unfold accept in Hacc. bind_ok Hacc as [first c1] Hr.
  assert (avail (reader c) = first ++ avail (reader c1) /\ zlen first = 20) as [Hav Hlen].
  { unfold read_n in Hr. destruct (read_exact (reader c) 20) as [[bs r] | k] eqn:E; [| done]. injection Hr as <- <-. apply read_exact_Ok in E as (H1 & H2 & _); [| lia]. done. }
  case_bool_decide as Hf; [case_bool_decide as Hq; [done |]; injection Hacc as <- <- |].
  - split_and!; [done | done | done |]. intros _. unfold pending, arrived. cbn [replay decrypt inner]. split_and!; [done | done |].
    replace 20%nat with (length first) by (unfold zlen in Hlen; lia). by rewrite take_app_length.
  - case_bool_decide as Ho; [done |]. bind_ok Hacc as [st' skey] Hresp. injection Hacc as <- <-. apply respond_method in Hresp as [H1 H2]. split_and!; [done | | | done].
    + unfold is_encrypted in *. intros He. by apply H1.
    + intros ->. by apply H2.
Qed.

(** ** The theorems at concrete inputs *)

Lemma rc4_well_formed_witness : exists c, keyed_for_mse [1] = Some c /\ rc4_ok c /\ bytes_ok (apply c [5]).1.
Proof.
  destruct (rc4_well_formed [1] [5]) as (c & H1 & H2 & _ & H3 & _); [discriminate | repeat constructor; vm_compute; congruence |].
  exists c. split; [exact H1 |]. split; [exact H2 | exact H3].
Defined.

Definition example_cipher : Rc4 := mkRc4 (seqZ 0 256) 0 0.
Definition example_writer : MseStream := mkMseStream (mkConn (mkReader [] TimedOut) [] 9) (Some example_cipher) None [].
Definition example_reader : MseStream := mkMseStream (mkConn (mkReader [] TimedOut) [] 9) None (Some example_cipher) [8].

Lemma stream_faithful_witness :
  exists l, link_run (mkLink example_writer example_reader [] []) [Write [1; 2; 3] 0; Read 2 1; Read 2 1; Read 5 9] = Ok l /\
    [8] ++ accepted l = got l ++ pending (receiver l).
Proof.
  destruct (stream_faithful [Write [1; 2; 3] 0; Read 2 1; Read 2 1; Read 5 9] example_writer example_reader) as (l & H1 & _ & H2).
  - reflexivity.
  - cbn. lia.
  - repeat (apply Forall_cons; split; [exact I || lia |]). apply Forall_nil. exact I.
  - exists l. split; [exact H1 | exact H2].
Defined.

(** A digest of constant bytes stands in for SHA-1. *)
Definition constant_digest (_ : list Z) : list Z := replicate 20 7.

Lemma mse_handshake_agrees_witness :
  exists to_b to_a ea eb, is_Some ea /\
    respond_with_pad constant_digest [3] [] [] (mkConn (mkReader to_b TimedOut) [] 2) [] [[9]] (mkAccept true false) =
    Some (Ok (mkMseStream (mkConn (mkReader [] TimedOut) to_a 0) eb ea [1; 2], [9])) /\
    initiate_with_pads constant_digest [2] [] [] (mkConn (mkReader to_a TimedOut) [] 2) [9] false [1; 2] =
    Some (Ok (mkMseStream (mkConn (mkReader [] TimedOut) to_b 0) ea eb [])).
Proof.
  assert (forall x, length (constant_digest x) = 20%nat) as Hsha by reflexivity.
  destruct (ciphers_total constant_digest Hsha (the_secret [2] [3]) [9]) as (ka & kb & Hc & _).
  destruct (mse_handshake_agrees constant_digest [2] [3] [] [] [] [] [1; 2] [9] [[9]] false (mkAccept true false) ka kb CRYPTO_RC4) as (to_b & to_a & ea & eb & H1 & _ & H2 & H3).
  - exact Hsha.
  - repeat constructor; vm_compute; congruence.
  - repeat constructor; vm_compute; congruence.
  - apply small_key. lia.
  - apply small_key. lia.
  - repeat (apply Forall_cons; split; [unfold MAX_PAD; cbn; lia |]). apply Forall_nil. exact I.
  - vm_compute. reflexivity.
  - apply elem_of_cons. left. reflexivity.
  - intros x Hx _. apply list_elem_of_singleton in Hx. exact Hx.
  - exact Hc.
  - intros k Hk. cbn in Hk. lia.
  - intros k Hk. cbn in Hk. lia.
  - reflexivity.
  - exists to_b, to_a, ea, eb. split; [apply H1; reflexivity |]. split.
    + apply (H2 [] to_b [] TimedOut 0%nat); [cbn; lia | rewrite app_nil_r; reflexivity].
    + rewrite <- (app_nil_r to_a) at 1. exact (H3 [] TimedOut 0%nat).
Defined.

Lemma encryption_mode_honoured_witness :
  exists st, accept constant_digest [] [] [] (mkConn (mkReader (PLAINTEXT_PREFIX ++ [1; 2]) TimedOut) [] 0) [] Off = Some (Ok (st, false)) /\
    pending st = PLAINTEXT_PREFIX ++ [1; 2].
Proof.
  eexists. split; [reflexivity |].
  exact (proj1 (proj2 (proj1 (proj2 (proj2 (proj2 (encryption_mode_honoured constant_digest [] [] []
    (mkConn (mkReader (PLAINTEXT_PREFIX ++ [1; 2]) TimedOut) [] 0) [] Off _ false eq_refl)))) eq_refl))).
Defined.
