(* ===== verification/Message.v ===== *)
(** * Peer wire messages (BEP 3, 6, 10, 52)

    Models [src/src/peer/message.rs]: the message type, its encoding with the
    length prefix, and the reader that takes one frame off a stream.  The
    reader's result is an [option] whose [None] is a panic. *)

From S2P Require Import Prelude Bytes Io.

Definition MSG_CHOKE : Z := 0.
Definition MSG_UNCHOKE : Z := 1.
Definition MSG_INTERESTED : Z := 2.
Definition MSG_NOT_INTERESTED : Z := 3.
Definition MSG_HAVE : Z := 4.
Definition MSG_BITFIELD : Z := 5.
Definition MSG_REQUEST : Z := 6.
Definition MSG_PIECE : Z := 7.
Definition MSG_CANCEL : Z := 8.
Definition MSG_PORT : Z := 9.
Definition MSG_SUGGEST : Z := 13.
Definition MSG_HAVE_ALL : Z := 14.
Definition MSG_HAVE_NONE : Z := 15.
Definition MSG_REJECT_REQUEST : Z := 16.
Definition MSG_ALLOWED_FAST : Z := 17.
Definition MSG_EXTENDED : Z := 20.
Definition MSG_HASH_REQUEST : Z := 21.
Definition MSG_HASHES : Z := 22.
Definition MSG_HASH_REJECT : Z := 23.

Definition MAX_MESSAGE_LEN : Z := 2 ^ 20.

Record HashRequest : Type := mkHashRequest {
  root : list Z;
  base_layer : Z;
  hr_index : Z;
  hr_length : Z;
  proof_layers : Z
}.

Definition HASH_REQUEST_LEN : Z := 32 + 4 * 4.

Inductive Message : Type :=
| KeepAlive
| Choke
| Unchoke
| Interested
| NotInterested
| Have (piece_index : Z)
| Bitfield (bits : list Z)
| Request (index begin length : Z)
| Piece (index begin : Z) (block : list Z)
| Cancel (index begin length : Z)
| Port (port : Z)
| Suggest (piece_index : Z)
| HaveAll
| HaveNone
| RejectRequest (index begin length : Z)
| AllowedFast (piece_index : Z)
| Extended (id : Z) (payload : list Z)
| HashRequestMsg (request : HashRequest)
| Hashes (request : HashRequest) (hashes : list (list Z))
| HashReject (request : HashRequest).

Inductive WireError : Type :=
| IoErr (e : ErrorKind)
| MessageTooLarge (n : Z)
| UnknownMessageId (id : Z)
| Truncated (expected got : Z).

(** [read_u32]. *)
Definition read_u32 (payload : list Z) (offset : Z) : result Z WireError :=
  ok_or (be_u32 payload offset) (Truncated (Z.min (offset + 4) (u_max 64)) (zlen payload)).

(** [HashRequest::write], the bytes it appends. *)
Definition hash_request_write (h : HashRequest) : list Z :=
  root h ++ be32 (base_layer h) ++ be32 (hr_index h) ++ be32 (hr_length h) ++ be32 (proof_layers h).

(** [HashRequest::read]. *)
Definition hash_request_read (payload : list Z) : result HashRequest WireError :=
  if zlen payload <? HASH_REQUEST_LEN then Err (Truncated HASH_REQUEST_LEN (zlen payload))
  else
    let? b := read_u32 payload 32 in
    let? i := read_u32 payload 36 in
    let? l := read_u32 payload 40 in
    let? p := read_u32 payload 44 in
    Ok (mkHashRequest (slice payload 0 32) b i l p).

(** [Message::id]. *)
Definition message_id (m : Message) : option Z :=
  match m with
  | KeepAlive => None
  | Choke => Some MSG_CHOKE
  | Unchoke => Some MSG_UNCHOKE
  | Interested => Some MSG_INTERESTED
  | NotInterested => Some MSG_NOT_INTERESTED
  | Have _ => Some MSG_HAVE
  | Bitfield _ => Some MSG_BITFIELD
  | Request _ _ _ => Some MSG_REQUEST
  | Piece _ _ _ => Some MSG_PIECE
  | Cancel _ _ _ => Some MSG_CANCEL
  | Port _ => Some MSG_PORT
  | Suggest _ => Some MSG_SUGGEST
  | HaveAll => Some MSG_HAVE_ALL
  | HaveNone => Some MSG_HAVE_NONE
  | RejectRequest _ _ _ => Some MSG_REJECT_REQUEST
  | AllowedFast _ => Some MSG_ALLOWED_FAST
  | Extended _ _ => Some MSG_EXTENDED
  | HashRequestMsg _ => Some MSG_HASH_REQUEST
  | Hashes _ _ => Some MSG_HASHES
  | HashReject _ => Some MSG_HASH_REJECT
  end.

(** The [match self] of [to_bytes] that fills [payload]. *)
Definition message_payload (m : Message) : list Z :=
  match m with
  | Have i | Suggest i | AllowedFast i => be32 i
  | Bitfield bits => bits
  | Request i b l | Cancel i b l | RejectRequest i b l => be32 i ++ be32 b ++ be32 l
  | Piece i b block => be32 i ++ be32 b ++ block
  | Port port => be16 port
  | Extended ext_id ext_payload => ext_id :: ext_payload
  | HashRequestMsg request | HashReject request => hash_request_write request
  | Hashes request hashes => hash_request_write request ++ concat hashes
  | Choke | Unchoke | Interested | NotInterested | HaveAll | HaveNone | KeepAlive => []
  end.

(** [Message::to_bytes]. *)
Definition to_bytes (m : Message) : list Z :=
  match message_id m with
  | None => be32 0
  | Some id =>
      let payload := message_payload m in
      let len := wrap 32 (1 + wrap 32 (zlen payload)) in
      be32 len ++ [id] ++ payload
  end.

Definition read_three (payload : list Z) (k : Z -> Z -> Z -> Message) : result Message WireError :=
  let? index := read_u32 payload 0 in
  let? begin := read_u32 payload 4 in
  let? length := read_u32 payload 8 in
  Ok (k index begin length).

(** The [match id] of [read_from]: a message from its id and payload. *)
Definition parse_body (id : Z) (payload : list Z) : result Message WireError :=
  if id =? MSG_CHOKE then Ok Choke
  else if id =? MSG_UNCHOKE then Ok Unchoke
  else if id =? MSG_INTERESTED then Ok Interested
  else if id =? MSG_NOT_INTERESTED then Ok NotInterested
  else if id =? MSG_HAVE then let? i := read_u32 payload 0 in Ok (Have i)
  else if id =? MSG_BITFIELD then Ok (Bitfield payload)
  else if id =? MSG_REQUEST then read_three payload Request
  else if id =? MSG_PIECE then
    if zlen payload <? 8 then Err (Truncated 8 (zlen payload))
    else
      let? index := read_u32 payload 0 in
      let? begin := read_u32 payload 4 in
      Ok (Piece index begin (drop 8 payload))
  else if id =? MSG_CANCEL then read_three payload Cancel
  else if id =? MSG_SUGGEST then let? i := read_u32 payload 0 in Ok (Suggest i)
  else if id =? MSG_HAVE_ALL then Ok HaveAll
  else if id =? MSG_HAVE_NONE then Ok HaveNone
  else if id =? MSG_REJECT_REQUEST then read_three payload RejectRequest
  else if id =? MSG_ALLOWED_FAST then let? i := read_u32 payload 0 in Ok (AllowedFast i)
  else if id =? MSG_PORT then
    if zlen payload <? 2 then Err (Truncated 2 (zlen payload))
    else Ok (Port (from_be_bytes (take 2 payload)))
  else if id =? MSG_HASH_REQUEST then let? h := hash_request_read payload in Ok (HashRequestMsg h)
  else if id =? MSG_HASH_REJECT then let? h := hash_request_read payload in Ok (HashReject h)
  else if id =? MSG_HASHES then
    let? request := hash_request_read payload in
    let rest := drop (Z.to_nat HASH_REQUEST_LEN) payload in
    if negb (Z.land (zlen rest) 31 =? 0)
    then Err (Truncated (HASH_REQUEST_LEN + div_ceil (zlen rest) 32 * 32) (zlen payload))
    else Ok (Hashes request (as_chunks (length rest) 32 rest))
  else if id =? MSG_EXTENDED then
    match payload with
    | [] => Err (Truncated 1 0)
    | ext_id :: ext_payload => Ok (Extended ext_id ext_payload)
    end
  else Err (UnknownMessageId id).

Definition io_result {A} (r : result A ErrorKind) : result A WireError :=
  match r with Ok a => Ok a | Err e => Err (IoErr e) end.

(** [Message::read_from]. *)
Definition read_from (r : Reader) : option (result (Message * Reader) WireError) :=
  match io_result (read_exact r 4) with
  | Err e => Some (Err e)
  | Ok (len_buf, r1) =>
      let len := from_be_bytes len_buf in
      if len =? 0 then Some (Ok (KeepAlive, r1))
      else if MAX_MESSAGE_LEN <? len then Some (Err (MessageTooLarge len))
      else
        match io_result (read_exact r1 len) with
        | Err e => Some (Err e)
        | Ok ([], _) => None
        | Ok (id :: payload, r2) => Some (let? m := parse_body id payload in Ok (m, r2))
        end
  end.

(** ** What the Rust types can hold *)

Definition wf_hash_request (h : HashRequest) : Prop :=
  zlen (root h) = 32 /\ u_ok 32 (base_layer h) /\ u_ok 32 (hr_index h) /\
  u_ok 32 (hr_length h) /\ u_ok 32 (proof_layers h).

Definition wf_message (m : Message) : Prop :=
  match m with
  | Have i | Suggest i | AllowedFast i => u_ok 32 i
  | Request i b l | Cancel i b l | RejectRequest i b l => u_ok 32 i /\ u_ok 32 b /\ u_ok 32 l
  | Piece i b _ => u_ok 32 i /\ u_ok 32 b
  | Port p => u_ok 16 p
  | HashRequestMsg h | HashReject h => wf_hash_request h
  | Hashes h hs => wf_hash_request h /\ Forall (fun x => zlen x = 32) hs
  | _ => True
  end.

(** ** Lemmas *)

Lemma read_u32_at pre z post off :
  u_ok 32 z -> zlen pre = off -> off <= 2 ^ 62 -> read_u32 (pre ++ be32 z ++ post) off = Ok z.
Proof. intros Hz <- ?. unfold read_u32. by rewrite be_u32_app. Qed.

Lemma read_u32_head z post : u_ok 32 z -> read_u32 (be32 z ++ post) 0 = Ok z.
Proof. intros. by apply (read_u32_at []). Qed.

Lemma read_u32_only z : u_ok 32 z -> read_u32 (be32 z) 0 = Ok z.
Proof. intros. rewrite <- (app_nil_r (be32 z)). by apply read_u32_head. Qed.

Lemma read_u32_bound payload off z :
  bytes_ok payload -> 0 <= off -> read_u32 payload off = Ok z -> u_ok 32 z.
Proof. unfold read_u32. intros ??. rewrite ok_or_Ok. by apply be_u32_bound. Qed.

Lemma hash_request_read_write h post :
  wf_hash_request h -> hash_request_read (hash_request_write h ++ post) = Ok h.
Proof.
  intros (Hroot & H1 & H2 & H3 & H4). unfold hash_request_read, hash_request_write.
  rewrite (proj2 (Z.ltb_ge _ _)) by (unfold HASH_REQUEST_LEN; zlen_lia).
  rewrite <- !app_assoc. set (r := root h) in *. set (tail := be32 (base_layer h) ++ _).
  assert (slice (r ++ tail) 0 32 = r) as Hs.
  { unfold slice. rewrite drop_0. replace (Z.to_nat (32 - 0)) with (length r) by (unfold zlen in Hroot; lia).
    apply take_app_length. }
  rewrite Hs. subst tail.
  rewrite (read_u32_at r) by (done || lia). simpl.
  rewrite (app_assoc r), (read_u32_at (r ++ be32 (base_layer h))) by (done || zlen_lia). simpl.
  rewrite (app_assoc (r ++ _)), (read_u32_at ((r ++ _) ++ be32 (hr_index h))) by (done || zlen_lia). simpl.
  rewrite (app_assoc ((r ++ _) ++ _)),
    (read_u32_at (((r ++ _) ++ _) ++ be32 (hr_length h))) by (done || zlen_lia). simpl.
  subst r. by destruct h.
Qed.

Lemma as_chunks_concat (hs : list (list Z)) fuel :
  Forall (fun x => zlen x = 32) hs -> (length hs <= fuel)%nat -> as_chunks fuel 32 (concat hs) = hs.
Proof.
  intros Hall. revert fuel. induction Hall as [| h hs Hh Hall IH]; intros fuel Hf.
  - by destruct fuel.
  - destruct fuel as [| fuel]; [simpl in Hf; lia |]. simpl in Hf |- *.
    assert (length h = 32)%nat as Hl by (unfold zlen in Hh; lia).
    rewrite (proj2 (Nat.ltb_ge _ _)) by (rewrite length_app; lia).
    rewrite take_app_length', drop_app_length' by lia. f_equal. apply IH. lia.
Qed.

Lemma zlen_concat_chunks (hs : list (list Z)) : Forall (fun x => zlen x = 32) hs -> zlen (concat hs) = 32 * zlen hs.
Proof. induction 1 as [| h hs Hh _ IH]; simpl; [done |]. rewrite zlen_app, zlen_cons, IH, Hh. lia. Qed.

Lemma read_three_payload i b l k :
  u_ok 32 i -> u_ok 32 b -> u_ok 32 l ->
  read_three (be32 i ++ be32 b ++ be32 l) k = Ok (k i b l).
Proof.
  intros. unfold read_three.
  rewrite read_u32_head by done. simpl.
  rewrite (read_u32_at (be32 i)) by (done || zlen_lia). simpl.
  rewrite app_assoc, <- (app_nil_r (be32 l)), (read_u32_at (be32 i ++ be32 b)) by (done || zlen_lia). done.
Qed.

Lemma hash_request_write_len h : wf_hash_request h -> zlen (hash_request_write h) = HASH_REQUEST_LEN.
Proof. intros (Hr & _). unfold hash_request_write, HASH_REQUEST_LEN. zlen_lia. Qed.

(** A body is parsed back to the message it was made from. *)
Lemma parse_body_payload m id :
  wf_message m -> message_id m = Some id -> parse_body id (message_payload m) = Ok m.
Proof.
  intros Hwf Hid. destruct m; simpl in Hid; [done | injection Hid as <-; cbn in *; try done ..];
    try (by rewrite read_u32_only);
    try (by apply read_three_payload; naive_solver).
  - destruct Hwf as [Hi Hb]. rewrite (proj2 (Z.ltb_ge _ _)) by zlen_lia.
    rewrite read_u32_head by done. simpl.
    rewrite (read_u32_at (be32 index)) by (done || zlen_lia). done.
  - rewrite (proj2 (Z.ltb_ge _ _)) by zlen_lia.
    rewrite take_ge by (by rewrite length_to_be_bytes). do 2 f_equal.
    by apply (from_to_be_bytes_ok 2).
  - rewrite <- (app_nil_r (hash_request_write request)). by rewrite hash_request_read_write.
  - destruct Hwf as [Hh Hhs]. rewrite hash_request_read_write by done. simpl.
    assert (length (hash_request_write request) = Z.to_nat HASH_REQUEST_LEN) as Hlen
      by (pose proof (hash_request_write_len _ Hh); unfold zlen in *; lia).
    rewrite <- Hlen, drop_app_length, zlen_concat_chunks by done.
    change 31 with (Z.ones 5). rewrite Z.land_ones by lia. change (2 ^ 5) with 32.
    rewrite Z.mul_comm, Z.mod_mul by lia. simpl.
    rewrite as_chunks_concat; [done.. |].
    pose proof (zlen_concat_chunks _ Hhs). unfold zlen in *. lia.
  - rewrite <- (app_nil_r (hash_request_write request)). by rewrite hash_request_read_write.
Qed.

Lemma as_chunks_wf fuel l :
  Forall (fun x => zlen x = 32) (as_chunks fuel 32 l) /\ zlen (concat (as_chunks fuel 32 l)) <= zlen l.
Proof.
  revert l. induction fuel as [| fuel IH]; intros l; simpl.
  - split; [constructor | apply zlen_nonneg].
  - destruct (Nat.ltb_spec (length l) 32).
    + split; [constructor | apply zlen_nonneg].
    + destruct (IH (drop 32 l)) as [Hall Hlen]. simpl. rewrite zlen_app. unfold zlen in *.
      rewrite length_take, length_drop in *. split; [constructor; [| done] | lia].
      rewrite length_take. lia.
Qed.

Lemma read_u32_len payload off z :
  0 <= off -> read_u32 payload off = Ok z -> off + 4 <= zlen payload.
Proof.
  intros Hoff. unfold read_u32, be_u32, array_at, u_checked_add. rewrite ok_or_Ok.
  destruct (off + 4 <=? u_max 64); [| done].
  destruct (Z.leb_spec off (off + 4)), (Z.leb_spec (off + 4) (zlen payload)); simpl; done || lia.
Qed.

(** Splits a chain of binds that succeeded. *)
Ltac bind_inv H :=
  repeat match type of H with
  | result_bind _ _ = Ok _ =>
      let x := fresh "x" in let E := fresh "E" in
      apply result_bind_Ok in H as (x & E & H)
  end.

Lemma hash_request_read_wf payload h :
  bytes_ok payload -> hash_request_read payload = Ok h ->
  wf_hash_request h /\ HASH_REQUEST_LEN <= zlen payload.
Proof.
  intros Hb H. unfold hash_request_read in H.
  destruct (Z.ltb_spec (zlen payload) HASH_REQUEST_LEN) as [| Hlen]; [done |].
  bind_inv H. injection H as <-. split; [| done].
  unfold wf_hash_request. simpl. unfold HASH_REQUEST_LEN in Hlen.
  rewrite zlen_slice by lia. split; [lia |].
  split_and!; by (eapply read_u32_bound; [exact Hb | | eassumption]).
Qed.

Lemma read_three_wf payload k m :
  bytes_ok payload -> read_three payload k = Ok m ->
  exists i b l, m = k i b l /\ u_ok 32 i /\ u_ok 32 b /\ u_ok 32 l /\ 12 <= zlen payload.
Proof.
  intros Hb H. unfold read_three in H. bind_inv H. injection H as <-.
  exists x, x0, x1. split; [done |].
  split_and!; try by (eapply read_u32_bound; [exact Hb | | eassumption]).
  apply read_u32_len in E1; lia.
Qed.

Lemma parse_body_wf id payload m :
  bytes_ok payload -> parse_body id payload = Ok m ->
  wf_message m /\ message_id m <> None /\ zlen (message_payload m) <= zlen payload.
Proof.
  intros Hb H. pose proof (zlen_nonneg payload). unfold parse_body in H.
  repeat match type of H with
  | (if ?x =? ?y then _ else _) = Ok _ => destruct (Z.eqb_spec x y) as [_ | _]
  end; try (injection H as <-; simpl; rewrite ?zlen_nil; done).
  all: try (apply read_three_wf in H as (i & b & l & -> & ? & ? & ? & ?); [| done];
            simpl; split; [done |]; split; [done |]; zlen_lia).
  all: try (bind_inv H; injection H as <-; simpl;
            assert (u_ok 32 x) by (by eapply read_u32_bound; [exact Hb | | eassumption]);
            apply read_u32_len in E; [| lia]; split; [done |]; split; [done |]; zlen_lia).
  all: try (bind_inv H; injection H as <-; simpl;
            apply hash_request_read_wf in E as [Hh Hlen]; [| done];
            split; [done |]; split; [done |]; by rewrite hash_request_write_len).
  - destruct (Z.ltb_spec (zlen payload) 8); [done |]. bind_inv H. injection H as <-. simpl.
    split; [split; by (eapply read_u32_bound; [exact Hb | | eassumption]) |]. split; [done |].
    rewrite !zlen_app, !zlen_to_be_bytes. unfold zlen in *. rewrite length_drop. lia.
  - destruct (Z.ltb_spec (zlen payload) 2); [done |]. injection H as <-. simpl.
    split; [| split; [done | zlen_lia]].
    assert (zlen (take 2 payload) = 2) as Hl by (unfold zlen in *; rewrite length_take; lia).
    pose proof (from_be_bytes_bound (take 2 payload) (Forall_take _ _ _ Hb)) as Hbound.
    by rewrite Hl in Hbound.
  - bind_inv H. set (rest := drop _ _) in *. destruct (negb _); [done |]. injection H as <-. simpl.
    apply hash_request_read_wf in E as [Hh Hlen]; [| done].
    destruct (as_chunks_wf (length rest) rest) as [Hall Hconcat].
    split; [done |]. split; [done |]. rewrite zlen_app, hash_request_write_len by done.
    assert (zlen rest = zlen payload - HASH_REQUEST_LEN); [| lia].
    subst rest. unfold zlen, HASH_REQUEST_LEN in *. rewrite length_drop. lia.
  - destruct payload as [| ext_id ext]; [done |]. injection H as <-. simpl. done.
  - done.
Qed.

Lemma to_bytes_frame m id :
  message_id m = Some id -> 1 + zlen (message_payload m) <= MAX_MESSAGE_LEN ->
  to_bytes m = be32 (1 + zlen (message_payload m)) ++ id :: message_payload m.
Proof.
  intros Hid Hlen. unfold to_bytes. rewrite Hid. unfold wrap, MAX_MESSAGE_LEN in *.
  pose proof (zlen_nonneg (message_payload m)).
  rewrite (Z.mod_small (zlen _)), Z.mod_small by lia. done.
Qed.

(** ** Properties *)

(** C26: writing a message and reading it back gives the message and leaves the
    stream exactly behind it, for every message no longer than the cap. *)
Theorem read_from_to_bytes (m : Message) (rest : list Z) (k : ErrorKind)
    (Hwf : wf_message m) (Hlen : 1 + zlen (message_payload m) <= MAX_MESSAGE_LEN) :
  read_from (mkReader (to_bytes m ++ rest) k) = Some (Ok (m, mkReader rest k)).
Proof.
  unfold read_from. destruct (message_id m) as [id |] eqn:Hid.
  - rewrite (to_bytes_frame m id) by done. set (n := 1 + zlen (message_payload m)) in *.
    assert (0 < n) by (subst n; pose proof (zlen_nonneg (message_payload m)); lia).
    rewrite <- app_assoc.
    replace 4 with (zlen (be32 n)) by (by rewrite zlen_to_be_bytes).
    rewrite read_exact_app. cbn [io_result].
    rewrite from_to_be_bytes_ok by (unfold MAX_MESSAGE_LEN in Hlen; lia).
    rewrite (proj2 (Z.eqb_neq n 0)), (proj2 (Z.ltb_ge _ _)) by lia.
    replace n with (zlen (id :: message_payload m)) by (by rewrite zlen_cons).
    rewrite read_exact_app. cbn [io_result]. by rewrite parse_body_payload.
  - destruct m; try done. unfold to_bytes. simpl.
    replace 4 with (zlen (be32 0)) by done. rewrite read_exact_app. done.
Qed.

Lemma read_from_to_bytes_witness :
  let m := Piece 3 16384 [1; 2; 255] in
  (wf_message m /\ 1 + zlen (message_payload m) <= MAX_MESSAGE_LEN) /\
  read_from (mkReader (to_bytes m ++ [0; 0]) UnexpectedEof) = Some (Ok (m, mkReader [0; 0] UnexpectedEof)).
Proof.
  assert (wf_message (Piece 3 16384 [1; 2; 255])) as Hwf by (simpl; unfold u_ok; lia).
  assert (1 + zlen (message_payload (Piece 3 16384 [1; 2; 255])) <= MAX_MESSAGE_LEN) as Hlen
    by (vm_compute; congruence).
  split; [split; [exact Hwf | exact Hlen] |].
  exact (read_from_to_bytes _ [0; 0] UnexpectedEof Hwf Hlen).
Defined.

(** Reading a frame from untrusted bytes never panics, reads at most the
    length prefix and [MAX_MESSAGE_LEN] bytes, and what it accepts is a
    well-formed message no longer on the wire than the frame it came from, so
    it can be sent on. *)
Theorem read_from_safe (r : Reader) (Hb : bytes_ok (avail r)) :
  exists res, read_from r = Some res /\
  forall m r', res = Ok (m, r') ->
    wf_message m /\
    exists frame, avail r = frame ++ avail r' /\ zlen frame <= 4 + MAX_MESSAGE_LEN /\
      zlen (to_bytes m) <= zlen frame.
Proof.
  unfold read_from. destruct (read_exact r 4) as [[len_buf r1] |] eqn:E1; simpl; [| by eexists; split].
  apply read_exact_Ok in E1 as (Hav & Hlen & _); [| lia].
  rewrite Hav in Hb. apply Forall_app in Hb as [Hb1 Hb2].
  pose proof (from_be_bytes_bound _ Hb1) as Hn. rewrite Hlen in Hn.
  set (n := from_be_bytes len_buf) in *.
  destruct (Z.eqb_spec n 0).
  { eexists. split; [done |]. intros m r' [= <- <-]. split; [done |]. exists len_buf.
    split; [done |]. rewrite Hlen. split; [vm_compute; congruence |]. by vm_compute. }
  destruct (Z.ltb_spec MAX_MESSAGE_LEN n); [by eexists; split |].
  destruct (read_exact r1 n) as [[body r2] |] eqn:E2; simpl; [| by eexists; split].
  apply read_exact_Ok in E2 as (Hav2 & Hlen2 & _); [| lia].
  destruct body as [| id payload]; [rewrite zlen_nil in Hlen2; lia |].
  eexists. split; [done |]. intros m r' Hm. bind_inv Hm. injection Hm as -> <-.
  rewrite Hav2 in Hb2. apply Forall_app in Hb2 as [Hbody _]. apply Forall_cons in Hbody as [_ Hpay].
  apply parse_body_wf in E as (Hwf & Hid & Hle); [| done]. split; [done |].
  exists (len_buf ++ id :: payload). split; [by rewrite Hav, Hav2, <- app_assoc |].
  rewrite zlen_app, Hlen, Hlen2. split; [lia |]. rewrite zlen_cons in Hlen2.
  destruct (message_id m) as [mid |] eqn:Emid; [| done].
  rewrite (to_bytes_frame m mid) by (done || lia). zlen_lia.
Qed.

Lemma read_from_safe_witness :
  bytes_ok (avail (mkReader [0; 0; 0; 1; 99] UnexpectedEof)) /\
  exists res, read_from (mkReader [0; 0; 0; 1; 99] UnexpectedEof) = Some res /\
  forall m r', res = Ok (m, r') ->
    wf_message m /\
    exists frame, avail (mkReader [0; 0; 0; 1; 99] UnexpectedEof) = frame ++ avail r' /\
      zlen frame <= 4 + MAX_MESSAGE_LEN /\ zlen (to_bytes m) <= zlen frame.
Proof.
  assert (bytes_ok (avail (mkReader [0; 0; 0; 1; 99] UnexpectedEof))) as H
    by (repeat constructor; unfold u_ok; lia).
  split; [exact H | exact (read_from_safe _ H)].
Defined.
