(* ===== verification/Handshake.v ===== *)
(** * The peer handshake (BEP 3)

    Models [src/src/peer/handshake.rs]: the fixed 68-byte handshake and the
    reserved bits for the extension protocol and the Fast Extension. *)

From S2P Require Import Prelude.

(** [b"BitTorrent protocol"]. *)
Definition PSTR : list Z :=
  [66; 105; 116; 84; 111; 114; 114; 101; 110; 116; 32; 112; 114; 111; 116; 111; 99; 111; 108].
Definition HANDSHAKE_LEN : Z := 1 + 19 + 8 + 20 + 20.

Definition EXTENSION_PROTOCOL_BIT_BYTE : nat := 5.
Definition EXTENSION_PROTOCOL_BIT_MASK : Z := 16.
Definition FAST_EXTENSION_BIT_BYTE : nat := 7.
Definition FAST_EXTENSION_BIT_MASK : Z := 4.

Record Handshake : Type := mkHandshake {
  reserved : list Z;
  info_hash : list Z;
  peer_id : list Z
}.

Inductive HandshakeError : Type :=
| TooShort
| BadPstrLen (n : Z)
| BadPstr.

(** [Handshake::new]. *)
Definition new (info_hash peer_id : list Z) (support_extensions : bool) : Handshake :=
  let reserved := replicate 8 0 in
  let reserved :=
    if support_extensions
    then alter (fun b => Z.lor b EXTENSION_PROTOCOL_BIT_MASK) EXTENSION_PROTOCOL_BIT_BYTE reserved
    else reserved in
  mkHandshake reserved info_hash peer_id.

(** [!mask] on a [u8]. *)
Definition u8_not (b : Z) : Z := Z.lxor b 255.

Definition with_fast (h : Handshake) (fast : bool) : Handshake :=
  mkHandshake
    (if fast
     then alter (fun b => Z.lor b FAST_EXTENSION_BIT_MASK) FAST_EXTENSION_BIT_BYTE (reserved h)
     else alter (fun b => Z.land b (u8_not FAST_EXTENSION_BIT_MASK)) FAST_EXTENSION_BIT_BYTE (reserved h))
    (info_hash h) (peer_id h).

(** A reserved byte; the array has 8 of them, so the default is never used. *)
Definition reserved_byte (h : Handshake) (i : nat) : Z := nth i (reserved h) 0.

Definition supports_fast (h : Handshake) : bool :=
  negb (Z.land (reserved_byte h FAST_EXTENSION_BIT_BYTE) FAST_EXTENSION_BIT_MASK =? 0).

Definition supports_extensions (h : Handshake) : bool :=
  negb (Z.land (reserved_byte h EXTENSION_PROTOCOL_BIT_BYTE) EXTENSION_PROTOCOL_BIT_MASK =? 0).

(** [Handshake::to_bytes]: the five ranges of the buffer, in order. *)
Definition to_bytes (h : Handshake) : list Z :=
  [19] ++ PSTR ++ reserved h ++ info_hash h ++ peer_id h.

(** [Handshake::from_bytes]. *)
Definition from_bytes (buf : list Z) : result Handshake HandshakeError :=
  if zlen buf <? HANDSHAKE_LEN then Err TooShort
  else
    let first := nth 0 buf 0 in
    if negb (first =? 19) then Err (BadPstrLen first)
    else if negb (bool_decide (slice buf 1 20 = PSTR)) then Err BadPstr
    else Ok (mkHandshake (slice buf 20 28) (slice buf 28 48) (slice buf 48 68)).

(** The array lengths the Rust type fixes. *)
Definition wf (h : Handshake) : Prop :=
  length (reserved h) = 8%nat /\ length (info_hash h) = 20%nat /\ length (peer_id h) = 20%nat.

(** ** Lemmas *)

Lemma lor_land_same b m : Z.land (Z.lor b m) m = m.
Proof.
  apply Z.bits_inj'. intros n _. rewrite Z.land_spec, Z.lor_spec.
  by destruct (Z.testbit b n), (Z.testbit m n).
Qed.

(** A handshake buffer cut into its five fields. *)
Lemma take_handshake (buf : list Z) :
  HANDSHAKE_LEN <= zlen buf ->
  take 68 buf = [nth 0 buf 0] ++ slice buf 1 20 ++ slice buf 20 28 ++ slice buf 28 48 ++ slice buf 48 68.
Proof.
  intros Hlen. unfold HANDSHAKE_LEN in Hlen.
  transitivity (slice buf 0 68); [unfold slice; by rewrite drop_0 |].
  rewrite (slice_cut buf 0 1 68), (slice_cut buf 1 20 68), (slice_cut buf 20 28 68),
    (slice_cut buf 28 48 68) by lia.
  f_equal. destruct buf as [| x buf]; [rewrite zlen_nil in Hlen; lia | done].
Qed.

Lemma length_slice {A} (l : list A) a b :
  0 <= a <= b -> b <= zlen l -> length (slice l a b) = Z.to_nat (b - a).
Proof. intros. pose proof (zlen_slice l a b). unfold zlen in *. lia. Qed.

Lemma handshake_fields_inj (x x' : Z) (p r i d p' r' i' d' : list Z) :
  length p = length p' -> length r = length r' -> length i = length i' ->
  [x] ++ p ++ r ++ i ++ d = [x'] ++ p' ++ r' ++ i' ++ d' ->
  x = x' /\ p = p' /\ r = r' /\ i = i' /\ d = d'.
Proof.
  intros Hp Hr Hi [= -> H]. apply app_inj_1 in H as [-> H]; [| done].
  apply app_inj_1 in H as [-> H]; [| done]. apply app_inj_1 in H as [-> ->]; done.
Qed.

(** ** Properties *)

(** A buffer is accepted as the handshake [h] exactly when it is at least
    68 bytes long and its first 68 bytes are [h.to_bytes()]: the parser and the
    printer are inverse, and every other buffer is refused. *)
Theorem from_bytes_iff (buf : list Z) (h : Handshake) :
  from_bytes buf = Ok h <-> HANDSHAKE_LEN <= zlen buf /\ wf h /\ take 68 buf = to_bytes h.
Proof.
  unfold from_bytes. split.
  - destruct (Z.ltb_spec (zlen buf) HANDSHAKE_LEN) as [| Hlen]; [done |].
    destruct (Z.eqb_spec (nth 0 buf 0) 19) as [Hfirst |]; [| done]. simpl.
    destruct (bool_decide (slice buf 1 20 = PSTR)) eqn:Hp; [| done]. simpl.
    apply bool_decide_eq_true in Hp. intros [= <-]. split; [done |]. split.
    + unfold wf, HANDSHAKE_LEN in *. simpl. rewrite !length_slice by lia. done.
    + rewrite take_handshake by done. unfold to_bytes. simpl. by rewrite Hfirst, Hp.
  - intros (Hlen & (Hr & Hi & Hd) & Htake). rewrite (proj2 (Z.ltb_ge _ _)) by lia.
    rewrite take_handshake in Htake by done. unfold to_bytes in Htake.
    apply handshake_fields_inj in Htake as (-> & -> & Hr2 & Hi2 & Hd2);
      [| rewrite length_slice by (unfold HANDSHAKE_LEN in *; lia) ..].
    + rewrite bool_decide_eq_true_2 by done. simpl. rewrite Hr2, Hi2, Hd2. by destruct h.
    + done.
    + by rewrite Hr.
    + by rewrite Hi.
Qed.

(** The capability bits: [with_fast] sets or clears exactly the Fast
    Extension bit, leaving the extension-protocol bit and the identities as
    they were, and [new] advertises the extension protocol as it was told. *)
Theorem handshake_flags (h : Handshake) (info peer : list Z) (fast ext : bool)
    (Hwf : length (reserved h) = 8%nat) :
  supports_fast (with_fast h fast) = fast /\
  supports_extensions (with_fast h fast) = supports_extensions h /\
  info_hash (with_fast h fast) = info_hash h /\ peer_id (with_fast h fast) = peer_id h /\
  supports_extensions (new info peer ext) = ext /\ supports_fast (new info peer ext) = false.
Proof.
  assert (is_Some (reserved h !! 7%nat)) as [b Hb] by (apply lookup_lt_is_Some; lia).
  repeat split.
  - unfold supports_fast, reserved_byte, with_fast, FAST_EXTENSION_BIT_BYTE. simpl.
    destruct fast; rewrite nth_lookup, list_lookup_alter_eq, Hb; simpl.
    + by rewrite lor_land_same.
    + rewrite <- Z.land_assoc. change (Z.land _ FAST_EXTENSION_BIT_MASK) with 0. by rewrite Z.land_0_r.
  - unfold supports_extensions, reserved_byte, with_fast, EXTENSION_PROTOCOL_BIT_BYTE. simpl.
    destruct fast; by rewrite !nth_lookup, list_lookup_alter_ne.
  - by destruct ext.
  - by destruct ext.
Qed.

Lemma handshake_flags_witness :
  let h := mkHandshake (replicate 8 0) (replicate 20 1) (replicate 20 2) in
  length (reserved h) = 8%nat /\
  (supports_fast (with_fast h true) = true /\
   supports_extensions (with_fast h true) = supports_extensions h /\
   info_hash (with_fast h true) = info_hash h /\ peer_id (with_fast h true) = peer_id h /\
   supports_extensions (new [] [] true) = true /\ supports_fast (new [] [] true) = false).
Proof.
  split; [reflexivity |].
  exact (handshake_flags (mkHandshake (replicate 8 0) (replicate 20 1) (replicate 20 2)) [] [] true true eq_refl).
Defined.
