(* ===== verification/PeerState.v ===== *)
(** * Per-peer connection state

    Models [src/src/peer/state.rs]: the choke and interest flags, what pieces
    the peer says it has, the Fast Extension's allowed pieces, and how each
    incoming message changes them; with the bitfield codec. *)

From S2P Require Import Prelude Message.

Record PeerState : Type := mkPeerState {
  am_choking : bool;
  am_interested : bool;
  peer_choking : bool;
  peer_interested : bool;
  peer_has_pieces : list bool;
  supports_extensions : bool;
  peer_request_limit : option Z;
  fast : bool;
  allowed_fast : gset Z;
  piece_limit : Z
}.

Definition MAX_ALLOWED_FAST : nat := 64.
Definition MAX_TRACKED_PIECES : Z := 2 ^ 24.

Definition default_state : PeerState :=
  mkPeerState true false true false [] false None false ∅ MAX_TRACKED_PIECES.

(** [PeerState::for_torrent]. *)
Definition for_torrent (piece_count : Z) : PeerState :=
  mkPeerState true false true false [] false None false ∅ (Z.min piece_count MAX_TRACKED_PIECES).

Definition may_request (s : PeerState) (piece : Z) : bool :=
  negb (peer_choking s) || (fast s && bool_decide (piece ∈ allowed_fast s)).

Definition has_allowed_pieces (s : PeerState) : bool :=
  fast s && negb (bool_decide (allowed_fast s = ∅)).

(** Field updates ([self.peer_choking = b] and the like). *)
Definition set_peer_choking (s : PeerState) (b : bool) : PeerState :=
  mkPeerState (am_choking s) (am_interested s) b (peer_interested s) (peer_has_pieces s)
    (supports_extensions s) (peer_request_limit s) (fast s) (allowed_fast s) (piece_limit s).
Definition set_peer_interested (s : PeerState) (b : bool) : PeerState :=
  mkPeerState (am_choking s) (am_interested s) (peer_choking s) b (peer_has_pieces s)
    (supports_extensions s) (peer_request_limit s) (fast s) (allowed_fast s) (piece_limit s).
Definition set_pieces (s : PeerState) (l : list bool) : PeerState :=
  mkPeerState (am_choking s) (am_interested s) (peer_choking s) (peer_interested s) l
    (supports_extensions s) (peer_request_limit s) (fast s) (allowed_fast s) (piece_limit s).
Definition set_allowed (s : PeerState) (a : gset Z) : PeerState :=
  mkPeerState (am_choking s) (am_interested s) (peer_choking s) (peer_interested s) (peer_has_pieces s)
    (supports_extensions s) (peer_request_limit s) (fast s) a (piece_limit s).

(** [ensure_capacity]: grow with [false] so that [piece_index] is an index. *)
Definition ensure_capacity (s : PeerState) (piece_index : Z) : PeerState :=
  if zlen (peer_has_pieces s) <=? piece_index
  then set_pieces s (resize (Z.to_nat (piece_index + 1)) false (peer_has_pieces s))
  else s.

(** [bytes_to_bitfield]: most significant bit of each byte first. *)
Definition byte_bits (byte : Z) : list bool :=
  map (fun bit => Z.land (Z.shiftr byte bit) 1 =? 1) [7; 6; 5; 4; 3; 2; 1; 0].

Definition bytes_to_bitfield (bytes : list Z) : list bool := flat_map byte_bits bytes.

(** [bitfield_to_bytes]: the loop sets bit [7 - i % 8] of byte [i / 8]. *)
Definition set_bit (st : nat * list Z) (has_it : bool) : nat * list Z :=
  let '(i, out) := st in
  (S i, if has_it
        then alter (fun b => Z.lor b (Z.shiftl 1 (7 - Z.of_nat (i mod 8)))) (i / 8)%nat out
        else out).

Definition bitfield_to_bytes (have : list bool) : list Z :=
  let num_bytes := Z.to_nat (div_ceil (zlen have) 8) in
  (foldl set_bit (0%nat, replicate num_bytes 0) have).2.

(** [PeerState::encode_bitfield]. *)
Definition encode_bitfield (have : list bool) : list Z := bitfield_to_bytes have.

(** [apply_message]: the new state, and whether the message was handled. *)
Definition apply_message (s : PeerState) (msg : Message) : PeerState * bool :=
  match msg with
  | Choke => (set_peer_choking s true, true)
  | Unchoke => (set_peer_choking s false, true)
  | Interested => (set_peer_interested s true, true)
  | NotInterested => (set_peer_interested s false, true)
  | Have index =>
      if piece_limit s <=? index then (s, false)
      else
        let s1 := ensure_capacity s index in
        (set_pieces s1 (<[Z.to_nat index := true]> (peer_has_pieces s1)), true)
  | Bitfield bits => (set_pieces s (take (Z.to_nat (piece_limit s)) (bytes_to_bitfield bits)), true)
  | HaveAll => (set_pieces s (replicate (Z.to_nat (piece_limit s)) true), true)
  | HaveNone => (set_pieces s [], true)
  | AllowedFast index =>
      if (index <? piece_limit s) && (size (allowed_fast s) <? MAX_ALLOWED_FAST)%nat
      then (set_allowed s ({[index]} ∪ allowed_fast s), true)
      else (s, true)
  | _ => (s, false)
  end.

(** What the state of a connection is after a sequence of messages. *)
Definition apply_messages (s : PeerState) (msgs : list Message) : PeerState :=
  foldl (fun s m => (apply_message s m).1) s msgs.

(** Whether the peer is recorded as having a piece:
    [peer_has_pieces.get(i).copied().unwrap_or(false)]. *)
Definition peer_has (s : PeerState) (index : Z) : bool :=
  default false (zget (peer_has_pieces s) index).

(** ** The bound on what a peer can make the client remember *)

Record bounded (s : PeerState) : Prop := {
  bounded_limit : 0 <= piece_limit s <= MAX_TRACKED_PIECES;
  bounded_pieces : zlen (peer_has_pieces s) <= piece_limit s;
  bounded_allowed : (size (allowed_fast s) <= MAX_ALLOWED_FAST)%nat;
  bounded_allowed_index : forall i, i ∈ allowed_fast s -> i < piece_limit s
}.

Lemma for_torrent_bounded n : 0 <= n -> bounded (for_torrent n).
Proof.
  intros. split; simpl; unfold MAX_TRACKED_PIECES, MAX_ALLOWED_FAST;
    [lia | rewrite zlen_nil; lia | change (size (∅ : gset Z) <= 64)%nat; rewrite size_empty; lia | set_solver].
Qed.

Lemma zlen_ensure_capacity s i :
  0 <= i -> zlen (peer_has_pieces (ensure_capacity s i)) = Z.max (zlen (peer_has_pieces s)) (i + 1).
Proof.
  intros. unfold ensure_capacity. destruct (Z.leb_spec (zlen (peer_has_pieces s)) i); simpl; [| lia].
  unfold zlen in *. rewrite length_resize. lia.
Qed.

Lemma ensure_capacity_limit s i :
  piece_limit (ensure_capacity s i) = piece_limit s /\ allowed_fast (ensure_capacity s i) = allowed_fast s.
Proof. unfold ensure_capacity. by destruct (_ <=? _). Qed.

Lemma apply_message_bounded s m : wf_message m -> bounded s -> bounded (apply_message s m).1.
Proof.
  intros Hwf [H1 H2 H3 H4].
  destruct m; simpl in *; try (by split).
  - unfold u_ok in Hwf. destruct (Z.leb_spec (piece_limit s) piece_index); simpl; [by split |].
    pose proof (ensure_capacity_limit s piece_index) as [Hl Ha].
    split; simpl; rewrite ?Hl, ?Ha; try done.
    unfold zlen at 1. rewrite length_insert. fold (zlen (peer_has_pieces (ensure_capacity s piece_index))).
    rewrite zlen_ensure_capacity by lia. lia.
  - split; simpl; try done. unfold zlen. rewrite length_take. lia.
  - split; simpl; try done. rewrite zlen_replicate. lia.
  - split; simpl; try done. rewrite zlen_nil. lia.
  - destruct (Z.ltb_spec piece_index (piece_limit s)), (Nat.ltb_spec (size (allowed_fast s)) MAX_ALLOWED_FAST);
      simpl; try (by split). split; simpl; try done.
    + rewrite size_union_alt, size_singleton.
      assert (size (allowed_fast s ∖ {[piece_index]}) <= size (allowed_fast s))%nat; [| lia].
      apply subseteq_size. set_solver.
    + intros i [->%elem_of_singleton | Hi]%elem_of_union; auto.
Qed.

(** ** The bitfield codec *)

Lemma land_1_odd x : (Z.land x 1 =? 1) = Z.odd x.
Proof.
  change 1 with (Z.ones 1) at 1. rewrite Z.land_ones by lia. change (2 ^ 1) with 2.
  rewrite Zmod_odd. by destruct (Z.odd x).
Qed.

Lemma byte_bits_lookup b i :
  (i < 8)%nat -> byte_bits b !! i = Some (Z.testbit b (7 - Z.of_nat i)).
Proof.
  assert (forall k : Z, 0 <= k -> (Z.land (Z.shiftr b k) 1 =? 1) = Z.testbit b k) as Hbit.
  { intros k ?. rewrite land_1_odd, <- Z.bit0_odd, Z.shiftr_spec by lia. by rewrite Z.add_0_l. }
  intros Hi. unfold byte_bits. cbn [map]. rewrite !Hbit by lia.
  do 8 (destruct i as [| i]; [done |]). lia.
Qed.

Lemma bytes_to_bitfield_lookup bs i :
  bytes_to_bitfield bs !! i = (fun b => Z.testbit b (7 - Z.of_nat (i mod 8))) <$> bs !! (i / 8)%nat.
Proof.
  revert i. induction bs as [| b bs IH]; intros i; [done |].
  change (bytes_to_bitfield (b :: bs)) with (byte_bits b ++ bytes_to_bitfield bs).
  destruct (decide (i < 8)%nat) as [Hi | Hi].
  - rewrite lookup_app_l, byte_bits_lookup by done. by rewrite Nat.div_small, Nat.mod_small by lia.
  - rewrite lookup_app_r by (cbn; lia). change (length (byte_bits b)) with 8%nat. rewrite IH.
    assert (i / 8 = S ((i - 8) / 8))%nat as ->
      by (replace i with ((i - 8) + 1 * 8)%nat at 1 by lia; rewrite Nat.div_add by lia; lia).
    assert (i mod 8 = (i - 8) mod 8)%nat as ->
      by (replace i with ((i - 8) + 1 * 8)%nat at 1 by lia; by rewrite Nat.Div0.mod_add).
    done.
Qed.

Lemma bytes_to_bitfield_length bs : length (bytes_to_bitfield bs) = (8 * length bs)%nat.
Proof. induction bs as [| b bs IH]; [done |]. cbn [bytes_to_bitfield flat_map]. rewrite length_app.
  unfold bytes_to_bitfield in IH. rewrite IH. cbn [length byte_bits map]. lia. Qed.

Lemma default_lookup_snoc (l : list bool) (b : bool) i :
  default false ((l ++ [b]) !! i) = if decide (i = length l) then b else default false (l !! i).
Proof.
  destruct (decide (i = length l)) as [-> | Hne]; [by rewrite list_lookup_middle |].
  destruct (decide (i < length l)%nat).
  - by rewrite lookup_app_l.
  - rewrite !lookup_ge_None_2 by (rewrite ?length_app; simpl; lia). done.
Qed.

(** The loop invariant of [bitfield_to_bytes]: after the first pieces, each
    bit of the buffer says whether its piece is held. *)
Lemma set_bits_invariant n have :
  let st := foldl set_bit (0%nat, replicate n 0) have in
  st.1 = length have /\ length st.2 = n /\
  forall k x t, st.2 !! k = Some x -> (t < 8)%nat ->
    Z.testbit x (Z.of_nat t) = default false (have !! (8 * k + 7 - t)%nat).
Proof.
  induction have as [| h have IH] using rev_ind.
  - split; [done |]. split; [apply length_replicate |].
    intros k x t [-> _]%lookup_replicate_1 _. by rewrite Z.bits_0.
  - rewrite foldl_app. cbn [foldl]. destruct IH as (Hi & Hl & Hbits).
    destruct (foldl set_bit _ have) as [i out]. cbn [fst snd set_bit] in *. subst i.
    rewrite length_app, Nat.add_1_r. split; [done |].
    split; [destruct h; rewrite ?length_alter; done |]. intros k x t Hk Ht.
    rewrite default_lookup_snoc. set (i := length have) in *.
    pose proof (Nat.div_mod_eq i 8) as Hdiv. pose proof (Nat.mod_upper_bound i 8).
    destruct h.
    + rewrite list_lookup_alter in Hk. destruct (decide (i / 8 = k)%nat) as [<- | Hne].
      * destruct (out !! (i / 8)%nat) as [y |] eqn:Ey; [| done].
        cbn [fmap option_fmap option_map] in Hk. apply (inj Some) in Hk as <-.
        rewrite Z.lor_spec, (Hbits _ _ _ Ey Ht), Z.shiftl_1_l, Z.pow2_bits_eqb by lia.
        destruct (Z.eqb_spec (7 - Z.of_nat (i mod 8)) (Z.of_nat t)).
        -- rewrite orb_true_r. by rewrite decide_True by lia.
        -- rewrite orb_false_r. by rewrite decide_False by lia.
      * rewrite (Hbits _ _ _ Hk Ht), decide_False by lia. done.
    + rewrite (Hbits _ _ _ Hk Ht). destruct (decide _) as [E |]; [| done].
      rewrite E. by rewrite lookup_ge_None_2.
Qed.

Lemma bitfield_bytes_length have :
  length (bitfield_to_bytes have) = Z.to_nat (div_ceil (zlen have) 8).
Proof. apply (set_bits_invariant _ have). Qed.

(** Decoding an encoded bitfield gives it back, padded to whole bytes. *)
Lemma bitfield_roundtrip have :
  bytes_to_bitfield (bitfield_to_bytes have) =
  have ++ replicate (8 * length (bitfield_to_bytes have) - length have) false.
Proof.
  set (out := bitfield_to_bytes have). set (n := length out).
  assert (length have <= 8 * n)%nat as Hn.
  { subst n out. rewrite bitfield_bytes_length. unfold div_ceil, zlen.
    pose proof (Z.div_mod (Z.of_nat (length have) + 8 - 1) 8).
    pose proof (Z.mod_pos_bound (Z.of_nat (length have) + 8 - 1) 8). lia. }
  apply list_eq. intros i. rewrite bytes_to_bitfield_lookup.
  pose proof (Nat.div_mod_eq i 8) as Hdiv. pose proof (Nat.mod_upper_bound i 8).
  destruct (out !! (i / 8)%nat) as [x |] eqn:Ex; cbn [fmap option_fmap option_map].
  - pose proof (lookup_lt_Some _ _ _ Ex) as Hlt. fold n in Hlt.
    replace (7 - Z.of_nat (i mod 8)) with (Z.of_nat (7 - i mod 8)) by lia.
    destruct (set_bits_invariant (Z.to_nat (div_ceil (zlen have) 8)) have) as (_ & _ & Hbits).
    rewrite (Hbits _ _ _ Ex) by lia.
    replace (8 * (i / 8) + 7 - (7 - i mod 8))%nat with i by lia.
    destruct (decide (i < length have)%nat) as [Hi | Hi].
    + rewrite lookup_app_l by done. destruct (lookup_lt_is_Some_2 have i Hi) as [b ->]. done.
    + rewrite lookup_app_r, lookup_replicate_2 by lia. by rewrite lookup_ge_None_2 by lia.
  - apply lookup_ge_None in Ex. fold n in Ex. symmetry. apply lookup_ge_None.
    rewrite length_app, length_replicate. lia.
Qed.

(** ** What the peer is recorded as having *)

Lemma peer_has_set s l i : peer_has (set_pieces s l) i = default false (zget l i).
Proof. done. Qed.

Lemma peer_has_ensure s i j : peer_has (ensure_capacity s i) j = peer_has s j.
Proof.
  unfold ensure_capacity. destruct (Z.leb_spec (zlen (peer_has_pieces s)) i); [| done].
  rewrite peer_has_set. unfold peer_has, zget. destruct (Z.ltb_spec j 0); [done |].
  unfold zlen in *. destruct (decide (Z.to_nat j < length (peer_has_pieces s))%nat) as [Hj | Hj].
  - rewrite lookup_resize by lia. done.
  - rewrite (lookup_ge_None_2 (peer_has_pieces s)) by lia.
    destruct (decide (Z.to_nat j < Z.to_nat (i + 1))%nat).
    + rewrite lookup_resize_new by lia. done.
    + rewrite lookup_resize_old by lia. done.
Qed.

Lemma peer_has_Have s i j :
  u_ok 32 i -> 0 <= j ->
  peer_has (apply_message s (Have i)).1 j =
    if (j =? i) && (i <? piece_limit s) then true else peer_has s j.
Proof.
  intros Hi Hj. unfold u_ok in Hi. simpl.
  destruct (Z.leb_spec (piece_limit s) i) as [Hl | Hl]; simpl.
  - rewrite (proj2 (Z.ltb_ge i _)), andb_false_r by lia. done.
  - rewrite (proj2 (Z.ltb_lt i _)), andb_true_r by lia. rewrite peer_has_set.
    unfold zget. rewrite (proj2 (Z.ltb_ge j 0)) by lia.
    pose proof (zlen_ensure_capacity s i ltac:(lia)) as Hlen. unfold zlen in Hlen.
    destruct (Z.eqb_spec j i) as [-> | Hne].
    + rewrite list_lookup_insert_eq by lia. done.
    + rewrite list_lookup_insert_ne by lia. rewrite <- (peer_has_ensure s i j).
      unfold peer_has, zget. by rewrite (proj2 (Z.ltb_ge j 0)) by lia.
Qed.

(** ** Properties *)

(** Whatever a peer sends, in any order, what the client remembers of it
    stays bounded by the torrent: no more availability flags than pieces, at
    most 64 allowed-fast pieces, all of them pieces of the torrent. *)
Theorem peer_state_bounded (piece_count : Z) (msgs : list Message)
    (Hn : 0 <= piece_count) (Hmsgs : Forall wf_message msgs) :
  let s := apply_messages (for_torrent piece_count) msgs in
  bounded s /\ zlen (peer_has_pieces s) <= piece_count.
Proof.
  assert (forall s0, bounded s0 -> bounded (apply_messages s0 msgs) /\
    piece_limit (apply_messages s0 msgs) = piece_limit s0) as Hall.
  { unfold apply_messages. induction Hmsgs as [| m msgs Hm Hmsgs IH]; intros s0 Hs0; [done |].
    simpl. destruct (IH (apply_message s0 m).1) as [Hb Hl]; [by apply apply_message_bounded |].
    split; [done |]. rewrite Hl. destruct m; simpl; try done.
    - destruct (_ <=? _); [done |]. simpl. apply ensure_capacity_limit.
    - by destruct (_ && _)%bool. }
  destruct (Hall _ (for_torrent_bounded _ Hn)) as [Hb Hl]. split; [done |].
  pose proof (bounded_pieces _ Hb). rewrite Hl in *. simpl in *. lia.
Qed.

Lemma peer_state_bounded_witness :
  let msgs := [HaveAll; Have 4294967295; AllowedFast 7; Bitfield [255; 255; 255]] in
  (0 <= 10 /\ Forall wf_message msgs) /\
  let s := apply_messages (for_torrent 10) msgs in
  bounded s /\ zlen (peer_has_pieces s) <= 10.
Proof.
  assert (0 <= 10) as H0 by lia.
  assert (Forall wf_message [HaveAll; Have 4294967295; AllowedFast 7; Bitfield [255; 255; 255]]) as Hm
    by (repeat constructor; unfold u_ok; lia).
  split; [split; [exact H0 | exact Hm] | exact (peer_state_bounded 10 _ H0 Hm)].
Defined.

(** A bitfield sent by one client is understood by another: applying the
    message made by [encode_bitfield have] to the state of a peer of the same
    torrent records exactly the pieces of [have]. *)
Theorem bitfield_understood (s : PeerState) (have : list bool)
    (Hlimit : piece_limit s = zlen have) :
  peer_has_pieces (apply_message s (Bitfield (encode_bitfield have))).1 = have.
Proof.
  simpl. unfold encode_bitfield. rewrite bitfield_roundtrip, Hlimit.
  unfold zlen. rewrite Nat2Z.id. apply take_app_length.
Qed.

Lemma bitfield_understood_witness :
  let have := [true; false; false; true; true; false; true; true; true; false] in
  piece_limit (for_torrent 10) = zlen have /\
  peer_has_pieces (apply_message (for_torrent 10) (Bitfield (encode_bitfield have))).1 = have.
Proof.
  split; [reflexivity |].
  exact (bitfield_understood (for_torrent 10)
    [true; false; false; true; true; false; true; true; true; false] eq_refl).
Defined.

(** Availability messages mean what the protocol says: [have] adds one
    piece of the torrent and changes nothing else, [have all] is every piece of
    the torrent, [have none] is none. *)
Theorem availability_messages (s : PeerState) (i j : Z)
    (Hi : u_ok 32 i) (Hj : 0 <= j) (Hlimit : 0 <= piece_limit s) :
  peer_has (apply_message s (Have i)).1 j =
    (if (j =? i) && (i <? piece_limit s) then true else peer_has s j) /\
  peer_has (apply_message s HaveAll).1 j = (j <? piece_limit s) /\
  peer_has (apply_message s HaveNone).1 j = false.
Proof.
  split; [by apply peer_has_Have |]. simpl. rewrite !peer_has_set. unfold zget.
  rewrite (proj2 (Z.ltb_ge j 0)) by lia. split; [| done].
  destruct (Z.ltb_spec j (piece_limit s)).
  - by rewrite lookup_replicate_2 by lia.
  - by rewrite lookup_ge_None_2 by (rewrite length_replicate; lia).
Qed.

Lemma availability_messages_witness :
  (u_ok 32 3 /\ 0 <= 3 /\ 0 <= piece_limit (for_torrent 10)) /\
  (peer_has (apply_message (for_torrent 10) (Have 3)).1 3 =
    (if (3 =? 3) && (3 <? piece_limit (for_torrent 10)) then true else peer_has (for_torrent 10) 3) /\
   peer_has (apply_message (for_torrent 10) HaveAll).1 3 = (3 <? piece_limit (for_torrent 10)) /\
   peer_has (apply_message (for_torrent 10) HaveNone).1 3 = false).
Proof.
  assert (u_ok 32 3) as H1 by (unfold u_ok; lia). assert (0 <= 3) as H2 by lia.
  assert (0 <= piece_limit (for_torrent 10)) as H3 by (vm_compute; congruence).
  split; [auto |]. exact (availability_messages (for_torrent 10) 3 3 H1 H2 H3).
Defined.
