(* ===== verification/Sha256.v ===== *)
(** * SHA-256 (FIPS 180-4)

    Models [src/src/sha256.rs]: the compression function and the incremental
    hasher with its block buffer.  The buffer discipline is proved against the
    standard's definition: pad the whole message, cut it into 64-byte blocks,
    compress them in turn. *)

From S2P Require Import Prelude Bytes.

(** The eight 32-bit words of a row of the table of constants. *)
Definition row_words (row : Z) : list Z :=
  (fun i => Z.land (Z.shiftr row (32 * (7 - i))) 0xffffffff) <$> [0; 1; 2; 3; 4; 5; 6; 7].

Definition K : list Z := Eval cbv in flat_map row_words
  [0x428a2f98_71374491_b5c0fbcf_e9b5dba5_3956c25b_59f111f1_923f82a4_ab1c5ed5;
   0xd807aa98_12835b01_243185be_550c7dc3_72be5d74_80deb1fe_9bdc06a7_c19bf174;
   0xe49b69c1_efbe4786_0fc19dc6_240ca1cc_2de92c6f_4a7484aa_5cb0a9dc_76f988da;
   0x983e5152_a831c66d_b00327c8_bf597fc7_c6e00bf3_d5a79147_06ca6351_14292967;
   0x27b70a85_2e1b2138_4d2c6dfc_53380d13_650a7354_766a0abb_81c2c92e_92722c85;
   0xa2bfe8a1_a81a664b_c24b8b70_c76c51a3_d192e819_d6990624_f40e3585_106aa070;
   0x19a4c116_1e376c08_2748774c_34b0bcb5_391c0cb3_4ed8aa4a_5b9cca4f_682e6ff3;
   0x748f82ee_78a5636f_84c87814_8cc70208_90befffa_a4506ceb_bef9a3f7_c67178f2].

Definition INITIAL : list Z :=
  [0x6a09e667; 0xbb67ae85; 0x3c6ef372; 0xa54ff53a; 0x510e527f; 0x9b05688c; 0x1f83d9ab; 0x5be0cd19].

(** [u32::rotate_right], [wrapping_add], [!]. *)
Definition rotr (x n : Z) : Z := Z.lor (Z.shiftr x n) (wrap 32 (Z.shiftl x (32 - n))).
Definition add32 (a b : Z) : Z := wrap 32 (a + b).
Definition not32 (a : Z) : Z := Z.lxor a (u_max 32).

(** The message schedule: [w[i]] for [i] in [16..64] from the words before. *)
Definition schedule_step (w : list Z) (i : nat) : list Z :=
  let w15 := nth (i - 15) w 0 in
  let w2 := nth (i - 2) w 0 in
  let s0 := Z.lxor (Z.lxor (rotr w15 7) (rotr w15 18)) (Z.shiftr w15 3) in
  let s1 := Z.lxor (Z.lxor (rotr w2 17) (rotr w2 19)) (Z.shiftr w2 10) in
  w ++ [add32 (add32 (add32 (nth (i - 16) w 0) s0) (nth (i - 7) w 0)) s1].

Definition schedule (block : list Z) : list Z :=
  foldl schedule_step (from_be_bytes <$> as_chunks 16 4 block) (seq 16 48).

(** One round on the working variables [a..h]. *)
Definition round (w : list Z) (v : list Z) (i : nat) : list Z :=
  match v with
  | [a; b; c; d; e; f; g; h] =>
      let s1 := Z.lxor (Z.lxor (rotr e 6) (rotr e 11)) (rotr e 25) in
      let ch := Z.lxor (Z.land e f) (Z.land (not32 e) g) in
      let t1 := add32 (add32 (add32 (add32 h s1) ch) (nth i K 0)) (nth i w 0) in
      let s0 := Z.lxor (Z.lxor (rotr a 2) (rotr a 13)) (rotr a 22) in
      let maj := Z.lxor (Z.lxor (Z.land a b) (Z.land a c)) (Z.land b c) in
      let t2 := add32 s0 maj in
      [add32 t1 t2; a; b; c; add32 d t1; e; f; g]
  | _ => v
  end.

Definition compress (state block : list Z) : list Z :=
  let w := schedule block in
  zip_with add32 state (foldl (round w) state (seq 0 64)).

(** The incremental hasher.  [buffer] is the 64-byte array; its first
    [buffered] bytes are input not yet compressed. *)
Record Sha256 : Type := mkSha256 {
  state : list Z;
  buffer : list Z;
  buffered : nat;
  length_ : Z
}.

Definition new : Sha256 := mkSha256 INITIAL (replicate 64 0) 0 0.

(** [buffer[at..at + src.len()].copy_from_slice(src)]. *)
Definition copy_at (buf : list Z) (at_ : nat) (src : list Z) : list Z :=
  take at_ buf ++ src ++ drop (at_ + length src) buf.

(** The end of [update]: whole blocks straight from the input, the rest kept. *)
Definition update_blocks (h : Sha256) (data : list Z) : Sha256 :=
  let blocks := as_chunks (length data) 64 data in
  let rest := drop (64 * (length data / 64)) data in
  mkSha256 (foldl compress (state h) blocks) (copy_at (buffer h) 0 rest) (length rest) (length_ h).

Definition update (h : Sha256) (data : list Z) : Sha256 :=
  let h := mkSha256 (state h) (buffer h) (buffered h) (wrap 64 (length_ h + zlen data)) in
  if (0 <? buffered h)%nat then
    let take_ := Nat.min (64 - buffered h) (length data) in
    let buffer' := copy_at (buffer h) (buffered h) (take take_ data) in
    let buffered' := (buffered h + take_)%nat in
    let data' := drop take_ data in
    if (buffered' <? 64)%nat then mkSha256 (state h) buffer' buffered' (length_ h)
    else update_blocks (mkSha256 (compress (state h) buffer') buffer' 0 (length_ h)) data'
  else update_blocks h data.

(** The padding [finalize] appends. *)
Definition tail_of (h : Sha256) : list Z :=
  let bits := wrap 64 (length_ h * 8) in
  0x80 :: replicate ((119 - buffered h) mod 64) 0 ++ to_be_bytes 8 bits.

Definition finalize (h : Sha256) : list Z :=
  flat_map be32 (state (update h (tail_of h))).

Definition sha256 (data : list Z) : list Z := finalize (update new data).

(** ** The standard's definition *)

(** The message, a one bit, zeros, and the length in bits: a whole number of
    blocks. *)
Definition fips_pad (msg : list Z) : list Z :=
  msg ++ 0x80 :: replicate ((119 - length msg mod 64) mod 64) 0 ++ to_be_bytes 8 (wrap 64 (zlen msg * 8)).

Definition fips_sha256 (msg : list Z) : list Z :=
  let padded := fips_pad msg in
  flat_map be32 (foldl compress INITIAL (as_chunks (length padded) 64 padded)).

(** ** The hasher represents what it was fed *)

Record absorbed (h : Sha256) (msg : list Z) : Prop := {
  absorbed_state : state h = foldl compress INITIAL (as_chunks (length msg) 64 msg);
  absorbed_buffered : buffered h = (length msg mod 64)%nat;
  absorbed_buffer : take (buffered h) (buffer h) = drop (64 * (length msg / 64)) msg;
  absorbed_capacity : length (buffer h) = 64%nat;
  absorbed_length : length_ h = wrap 64 (zlen msg)
}.

(** ** Blocks of a message *)

Definition blocks (l : list Z) : list (list Z) := as_chunks (length l) 64 l.

Lemma as_chunks_fuel f1 f2 n l :
  (0 < n)%nat -> (length l <= f1)%nat -> (length l <= f2)%nat -> as_chunks f1 n l = as_chunks f2 n l.
Proof.
  intros Hn. revert f2 l. induction f1 as [| f1 IH]; intros f2 l H1 H2.
  - destruct l; [| simpl in H1; lia]. destruct f2; [done |]. simpl.
    by rewrite (proj2 (Nat.ltb_lt _ _)) by lia.
  - destruct f2 as [| f2].
    + destruct l; [| simpl in H2; lia]. simpl. by rewrite (proj2 (Nat.ltb_lt _ _)) by lia.
    + simpl. destruct (Nat.ltb_spec (length l) n); [done |]. f_equal.
      apply IH; rewrite length_drop; lia.
Qed.

Lemma blocks_short l : (length l < 64)%nat -> blocks l = [].
Proof.
  intros. unfold blocks. destruct (length l) as [| k] eqn:E; [done |].
  simpl. rewrite E. by rewrite (proj2 (Nat.ltb_lt _ _)) by lia.
Qed.

Lemma blocks_cons b l : length b = 64%nat -> blocks (b ++ l) = b :: blocks l.
Proof.
  intros Hb. unfold blocks. rewrite length_app, Hb.
  assert (exists f, 64 + length l = S f /\ length l <= f)%nat as (f & -> & Hf)
    by (exists (63 + length l)%nat; lia).
  cbn [as_chunks]. rewrite length_app, Hb. rewrite (proj2 (Nat.ltb_ge _ _)) by lia.
  rewrite take_app_length', drop_app_length' by lia. f_equal. apply as_chunks_fuel; lia.
Qed.

Lemma blocks_app q a l : length a = (64 * q)%nat -> blocks (a ++ l) = blocks a ++ blocks l.
Proof.
  revert a. induction q as [| q IH]; intros a Ha.
  - assert (a = []) as -> by (apply length_zero_iff_nil; lia). done.
  - rewrite <- (take_drop 64 a), <- app_assoc.
    assert (length (take 64 a) = 64%nat) by (rewrite length_take; lia).
    rewrite blocks_cons, IH by (done || rewrite length_drop; lia). by rewrite blocks_cons.
Qed.

(** A message is its whole blocks and a remainder. *)
Lemma message_split (msg : list Z) :
  exists a r, msg = a ++ r /\ length a = (64 * (length msg / 64))%nat /\
    length r = (length msg mod 64)%nat /\ r = drop (64 * (length msg / 64)) msg.
Proof.
  pose proof (Nat.div_mod_eq (length msg) 64). pose proof (Nat.mod_upper_bound (length msg) 64).
  exists (take (64 * (length msg / 64)) msg), (drop (64 * (length msg / 64)) msg).
  rewrite length_take, length_drop. split_and!; [by rewrite take_drop | lia | lia | done].
Qed.

Lemma div_mod_blocks q n m : (n < 64)%nat -> m = (64 * q + n)%nat -> (m / 64 = q /\ m mod 64 = n)%nat.
Proof.
  intros Hn ->. rewrite (Nat.mul_comm 64), Nat.add_comm, Nat.div_add, Nat.Div0.mod_add by lia.
  rewrite Nat.div_small, Nat.mod_small by lia. lia.
Qed.

Lemma length_copy_at buf at_ src :
  (at_ + length src <= length buf)%nat -> length (copy_at buf at_ src) = length buf.
Proof. intros. unfold copy_at. rewrite !length_app, length_take, length_drop. lia. Qed.

Lemma take_copy_at buf at_ src :
  (at_ <= length buf)%nat -> take (at_ + length src) (copy_at buf at_ src) = take at_ buf ++ src.
Proof.
  intros. unfold copy_at. rewrite app_assoc. apply take_app_length'.
  rewrite length_app, length_take. lia.
Qed.

(** After whole blocks, the input is compressed block by block and what is
    left is buffered. *)
Lemma update_blocks_absorbed h q a data :
  length a = (64 * q)%nat -> state h = foldl compress INITIAL (blocks a) ->
  length (buffer h) = 64%nat -> length_ h = wrap 64 (zlen (a ++ data)) ->
  absorbed (update_blocks h data) (a ++ data).
Proof.
  intros Ha Hst Hcap Hlen. destruct (message_split data) as (b & r & Hd & Hb & Hr & Hdrop).
  pose proof (Nat.mod_upper_bound (length data) 64).
  set (qd := (length data / 64)%nat) in *.
  assert (length (a ++ data) = 64 * (q + qd) + length r)%nat as Hl
    by (rewrite length_app, Hd, length_app; lia).
  destruct (div_mod_blocks (q + qd) (length r) (length (a ++ data))) as [Hdiv Hmod]; [lia | done |].
  split; cbn [update_blocks state buffer buffered length_].
  - fold (blocks (a ++ data)) (blocks data). by rewrite Hst, <- foldl_app, <- (blocks_app q).
  - fold qd. rewrite <- Hdrop. lia.
  - fold qd. rewrite <- Hdrop, Hdiv.
    pose proof (take_copy_at (buffer h) 0 r ltac:(lia)) as Htc. cbn in Htc. rewrite Htc.
    rewrite Hd, app_assoc. symmetry. apply drop_app_length'. rewrite length_app. lia.
  - fold qd. rewrite <- Hdrop. rewrite length_copy_at; lia.
  - done.
Qed.

Lemma wrap_add_l w a b : wrap w (wrap w a + b) = wrap w (a + b).
Proof. unfold wrap. by rewrite Zplus_mod_idemp_l. Qed.

Lemma update_absorbed h msg data : absorbed h msg -> absorbed (update h data) (msg ++ data).
Proof.
  intros [Hst Hbuf Hbuffer Hcap Hlen]. destruct (message_split msg) as (a & r & Hm & Ha & Hr & Hdrop).
  pose proof (Nat.mod_upper_bound (length msg) 64). set (q := (length msg / 64)%nat) in *.
  assert (wrap 64 (length_ h + zlen data) = wrap 64 (zlen (msg ++ data))) as Hlen'
    by (by rewrite Hlen, wrap_add_l, zlen_app).
  assert (state h = foldl compress INITIAL (blocks a)) as Hsta.
  { fold (blocks msg) in Hst. rewrite Hst, Hm, (blocks_app q), (blocks_short r) by lia. by rewrite app_nil_r. }
  rewrite <- Hdrop in Hbuffer. rewrite <- Hr in Hbuf.
  unfold update. cbn [state buffer buffered length_].
  destruct (Nat.ltb_spec 0 (buffered h)) as [Hpos | Hzero].
  - set (t := Nat.min (64 - buffered h) (length data)).
    assert (length (take t data) = t) as Ht by (rewrite length_take; lia).
    assert (take (buffered h + t) (copy_at (buffer h) (buffered h) (take t data)) = r ++ take t data) as Hc
      by (rewrite <- Ht at 1; rewrite take_copy_at by lia; by rewrite Hbuffer).
    assert (length (copy_at (buffer h) (buffered h) (take t data)) = 64%nat) as Hcl
      by (rewrite length_copy_at; lia).
    destruct (Nat.ltb_spec (buffered h + t) 64) as [Hsmall | Hfull].
    + assert (take t data = data) as Htd by (apply take_ge; lia). rewrite Htd in *.
      destruct (div_mod_blocks q (buffered h + t) (length (msg ++ data))) as [Hdiv Hmod];
        [lia | rewrite length_app, Hm, length_app; lia |].
      split; cbn [state buffer buffered length_]; try done.
      * fold (blocks (msg ++ data)). rewrite Hsta, Hm, <- app_assoc, (blocks_app q) by done.
        rewrite (blocks_short (r ++ data)) by (rewrite length_app; lia). by rewrite app_nil_r.
      * rewrite Hc, Hdiv, Hm, <- app_assoc. symmetry. by apply drop_app_length'.
    + assert (copy_at (buffer h) (buffered h) (take t data) = r ++ take t data) as Hblk
        by (rewrite <- Hc; symmetry; apply take_ge; lia).
      assert (length (r ++ take t data) = 64%nat) by (by rewrite <- Hblk).
      assert (msg ++ data = (a ++ r ++ take t data) ++ drop t data) as ->
        by (rewrite Hm, <- !app_assoc; by rewrite take_drop).
      apply (update_blocks_absorbed _ (q + 1)); cbn [state buffer length_]; [| | done |].
      * rewrite length_app. lia.
      * rewrite Hblk, Hsta, (blocks_app q) by done. rewrite foldl_app.
        rewrite <- (app_nil_r (r ++ take t data)) at 2. rewrite blocks_cons by done. done.
      * rewrite Hlen'. do 2 f_equal. rewrite Hm, <- !app_assoc. by rewrite take_drop.
  - assert (r = []) as -> by (apply length_zero_iff_nil; lia). rewrite app_nil_r in Hm. subst a.
    by apply (update_blocks_absorbed _ q).
Qed.

Lemma new_absorbed : absorbed new [].
Proof. by split. Qed.

Lemma finalize_absorbed h msg : absorbed h msg -> finalize h = fips_sha256 msg.
Proof.
  intros Hab. pose proof (update_absorbed h msg (tail_of h) Hab) as [Hst _ _ _ _].
  unfold finalize, fips_sha256. rewrite Hst.
  assert (tail_of h = 0x80 :: replicate ((119 - length msg mod 64) mod 64) 0
            ++ to_be_bytes 8 (wrap 64 (zlen msg * 8))) as Htail.
  { unfold tail_of. rewrite (absorbed_buffered _ _ Hab), (absorbed_length _ _ Hab).
    unfold wrap. by rewrite Zmult_mod_idemp_l. }
  by rewrite Htail.
Qed.

(** ** Properties *)


(** The standard's test vector: SHA-256 of [abc], fed in two parts. *)
Example sha256_abc :
  finalize (update (update new [97]) [98; 99]) =
  [0xba; 0x78; 0x16; 0xbf; 0x8f; 0x01; 0xcf; 0xea; 0x41; 0x41; 0x40; 0xde; 0x5d; 0xae; 0x22; 0x23;
   0xb0; 0x03; 0x61; 0xa3; 0x96; 0x17; 0x7a; 0x9c; 0xb4; 0x10; 0xff; 0x61; 0xf2; 0x00; 0x15; 0xad].
Proof. vm_compute. reflexivity. Qed.
