(* ===== verification/Merkle.v ===== *)
(** * BitTorrent v2 merkle trees (BEP 52)

    Models the trees and hash-request proofs of [src/src/v2.rs]: [parent],
    [zero_subtree], [merkle_root], [block_hashes], [piece_hash],
    [merkle_matches], [upper_layers], [hash_range] and [verify_range].  A
    [None] of [merkle_root] and of the level loop is a panic (an index into a
    pair or level that is not there). *)

From Stdlib Require Import ArithRing.
From S2P Require Import Prelude Bytes Sha256.

Definition BLOCK : Z := 16 * 1024.

(** [Hash = [u8; 32]]. *)
Abbreviation Hash := (list Z).

Definition parent (left right : Hash) : Hash :=
  finalize (update (update new left) right).

Definition zero_hash : Hash := replicate 32 0.

Definition zero_subtree (height : nat) : Hash :=
  Nat.iter height (fun hash => parent hash hash) zero_hash.

(** [usize::is_power_of_two] and [u32::trailing_zeros] of a positive number. *)
Fixpoint pos_is_power_of_two (p : positive) : bool :=
  match p with
  | xH => true
  | xO p' => pos_is_power_of_two p'
  | xI _ => false
  end.

Fixpoint pos_trailing_zeros (p : positive) : nat :=
  match p with
  | xO p' => S (pos_trailing_zeros p')
  | _ => O
  end.

Definition is_power_of_two (z : Z) : bool :=
  match z with Zpos p => pos_is_power_of_two p | _ => false end.

Definition trailing_zeros (z : Z) : nat :=
  match z with Zpos p => pos_trailing_zeros p | _ => 32%nat end.

(** [level.chunks(2).map(|pair| parent(&pair[0], &pair[1]))]: an odd level
    would index past its last pair. *)
Fixpoint next_level (level : list Hash) : option (list Hash) :=
  match level with
  | [] => Some []
  | [_] => None
  | l :: r :: rest => next ← next_level rest; Some (parent l r :: next)
  end.

(** [while level.len() > 1 { level = ... } level[0]]; each pass halves the
    level, so its length bounds the passes. *)
Fixpoint reduce_level (fuel : nat) (level : list Hash) : option Hash :=
  match level with
  | [] => None
  | [h] => Some h
  | _ => match fuel with
         | O => None
         | S fuel' => next ← next_level level; reduce_level fuel' next
         end
  end.

Definition merkle_root (leaves : list Hash) (width : Z) (pad : Hash) : option Hash :=
  let level := resize (Z.to_nat (Z.max width 1)) pad leaves in
  reduce_level (length level) level.

(** [data.chunks(BLOCK)]: the last chunk as short as it is. *)
Fixpoint chunks (fuel n : nat) (l : list Z) : list (list Z) :=
  match fuel, l with
  | O, _ | _, [] => []
  | S fuel', _ => take n l :: chunks fuel' n (drop n l)
  end.

Definition block_hashes (data : list Z) : list Hash :=
  sha256 <$> chunks (length data) (Z.to_nat BLOCK) data.

Definition piece_hash (data : list Z) (piece_length : Z) : option Hash :=
  merkle_root (block_hashes data) (piece_length / BLOCK) zero_hash.

Definition merkle_matches (data : list Z) (width : Z) (root : Hash) : bool :=
  if negb (is_power_of_two width) || (Z.min (width * BLOCK) (u_max 64) <? zlen data) then false
  else bool_decide (merkle_root (block_hashes data) width zero_hash = Some root).

(** The [while] loop of [upper_layers]: every layer from [level] to the root. *)
Fixpoint layers_from (fuel : nat) (level : list Hash) : option (list (list Hash)) :=
  if (length level <=? 1)%nat then Some [level]
  else match fuel with
       | O => None
       | S fuel' =>
           next ← next_level level;
           above ← layers_from fuel' next;
           Some (level :: above)
       end.

Definition upper_layers (layer : list Hash) (layer_number height : nat) : option (list (list Hash)) :=
  let level := resize (2 ^ (height - layer_number)) (zero_subtree layer_number) layer in
  layers_from (length level) level.

Record HashRange : Type := mkHashRange {
  hashes : list Hash;
  uncles : list Hash
}.

Fixpoint take_while (p : nat -> bool) (l : list nat) : list nat :=
  match l with
  | [] => []
  | x :: l' => if p x then x :: take_while p l' else []
  end.

(** [(below..=proof_layers).take_while(|j| layer_number + j < height)]. *)
Definition proof_steps (below proof_layers layer_number height : nat) : list nat :=
  take_while (fun j => layer_number + j <? height)%nat (seq below (S proof_layers - below)).

(** The guard [hash_range] and [verify_range] share on the range asked for. *)
Definition range_refused (layer_number height : nat) (index length : Z) : bool :=
  (height <=? layer_number)%nat || (length <? 2) || negb (is_power_of_two length)
  || negb (Z.land index (length - 1) =? 0)
  || (2 ^ Z.of_nat (height - layer_number) <? index + length).

Definition hash_range (layer : list Hash) (layer_number height : nat) (index length : Z)
    (proof_layers : nat) : option HashRange :=
  if range_refused layer_number height index length then None
  else if (2 ^ (height - layer_number) <? List.length layer)%nat then None
  else
    layers ← upper_layers layer layer_number height;
    level0 ← layers !! 0%nat;
    let below := trailing_zeros length in
    us ← mapM (fun j => level ← layers !! j; level !! Z.to_nat (Z.lxor (Z.shiftr index (Z.of_nat j)) 1))
           (proof_steps below proof_layers layer_number height);
    Some (mkHashRange (slice level0 index (index + length)) us).

(** The loop of [verify_range]: combine with each uncle on the way up. *)
Fixpoint climb (node : Hash) (position : Z) (uncles : list Hash) : Hash :=
  match uncles with
  | [] => node
  | uncle :: rest =>
      climb (if Z.land position 1 =? 0 then parent node uncle else parent uncle node)
        (Z.shiftr position 1) rest
  end.

Definition verify_range (root : Hash) (layer_number height : nat) (index : Z)
    (hashes uncles : list Hash) (proof_layers : nat) : bool :=
  let length := wrap 32 (zlen hashes) in
  if range_refused layer_number height index length then false
  else
    let below := trailing_zeros length in
    let expected := List.length (proof_steps below proof_layers layer_number height) in
    if negb (List.length uncles =? expected)%nat then false
    else
      match merkle_root hashes length zero_hash with
      | None => false
      | Some node =>
          let node := climb node (Z.shiftr index (Z.of_nat below)) uncles in
          (layer_number + below + List.length uncles =? height)%nat && bool_decide (node = root)
      end.

(** ** The reference tree *)

(** The root of a perfect tree over [2^n] leaves, by halves. *)
Fixpoint tree_root (n : nat) (leaves : list Hash) : Hash :=
  match n with
  | O => nth 0 leaves []
  | S n' => parent (tree_root n' (take (2 ^ n') leaves)) (tree_root n' (drop (2 ^ n') leaves))
  end.

(** The node at height [j] and position [p] of the tree over [leaves]. *)
Definition node (leaves : list Hash) (j p : nat) : Hash :=
  tree_root j (take (2 ^ j) (drop (p * 2 ^ j) leaves)).

(** Two different pairs with the same parent: a SHA-256 collision. *)
Definition collision : Prop :=
  exists a b c d, (a, b) <> (c, d) /\ parent a b = parent c d.

(** ** Levels *)

Lemma next_level_total k l :
  length l = (2 * k)%nat -> exists l', next_level l = Some l' /\ length l' = k.
Proof.
  revert l. induction k as [| k IH]; intros l Hl.
  - destruct l; [| simpl in Hl; lia]. by exists [].
  - destruct l as [| x [| y l]]; simpl in Hl; [lia.. |].
    destruct (IH l) as (l' & Hl' & Hlen); [lia |].
    exists (parent x y :: l'). simpl. rewrite Hl'. simpl. by rewrite Hlen.
Qed.

(** Aligned parts of a level give aligned parts of the next. *)
Lemma next_level_cut k l l' :
  next_level l = Some l' ->
  next_level (take (2 * k) l) = Some (take k l') /\ next_level (drop (2 * k) l) = Some (drop k l').
Proof.
  revert l l'. induction k as [| k IH]; intros l l' H; [done |].
  replace (2 * S k)%nat with (S (S (2 * k))) by lia.
  destruct l as [| x [| y l]]; simpl in H; [by simplify_eq | done |].
  destruct (next_level l) as [m |] eqn:Em; simpl in H; [| done]. injection H as <-.
  destruct (IH _ _ Em) as [Ht Hd]. cbn [take drop next_level]. rewrite Ht. done.
Qed.

Lemma pow2_S n : (2 ^ S n = 2 * 2 ^ n)%nat.
Proof. done. Qed.

Lemma tree_root_next n l l' :
  length l = (2 ^ S n)%nat -> next_level l = Some l' -> tree_root n l' = tree_root (S n) l.
Proof.
  revert l l'. induction n as [| n IH]; intros l l' Hl H.
  - destruct l as [| x [| y [| z l]]]; try (simpl in Hl; lia). by injection H as <-.
  - destruct (next_level_cut (2 ^ n) l l' H) as [Ht Hd]. rewrite <- pow2_S in Ht, Hd.
    rewrite pow2_S in Hl.
    change (tree_root (S (S n)) l) with
      (parent (tree_root (S n) (take (2 ^ S n) l)) (tree_root (S n) (drop (2 ^ S n) l))).
    change (tree_root (S n) l') with (parent (tree_root n (take (2 ^ n) l')) (tree_root n (drop (2 ^ n) l'))).
    rewrite (IH (take (2 ^ S n) l)), (IH (drop (2 ^ S n) l)); try done.
    + rewrite length_drop. lia.
    + rewrite length_take. lia.
Qed.

(** The level loop computes the root of the reference tree, without a panic. *)
Lemma reduce_level_root n fuel l :
  length l = (2 ^ n)%nat -> (n <= fuel)%nat -> reduce_level fuel l = Some (tree_root n l).
Proof.
  revert fuel l. induction n as [| n IH]; intros fuel l Hl Hf.
  - destruct l as [| x [| y l]]; try (simpl in Hl; lia). by destruct fuel.
  - destruct fuel as [| fuel]; [lia |].
    destruct (next_level_total (2 ^ n) l) as (l' & Hnext & Hl'); [done |].
    pose proof (Nat.pow_nonzero 2 n ltac:(lia)).
    destruct l as [| x [| y l]]; [rewrite pow2_S in Hl; cbn [length] in Hl; lia.. |].
    cbn [reduce_level]. rewrite Hnext. simpl. rewrite (IH fuel l') by (done || lia).
    f_equal. by apply tree_root_next.
Qed.

Lemma power_of_two_spec z : is_power_of_two z = true <-> z = 2 ^ Z.of_nat (trailing_zeros z) /\ 0 < z.
Proof.
  destruct z as [| p | p]; simpl; [split; [done | lia] | | split; [done | lia]].
  assert (forall q, pos_is_power_of_two q = true <-> Zpos q = 2 ^ Z.of_nat (pos_trailing_zeros q)) as H.
  { induction q as [q IH | q IH |]; cbn [pos_is_power_of_two pos_trailing_zeros].
    - split; [done |]. cbn. lia.
    - rewrite IH, Nat2Z.inj_succ, Z.pow_succ_r by lia. lia.
    - done. }
  rewrite H. lia.
Qed.

Lemma log2_lt_pow n : (n <= 2 ^ n)%nat.
Proof. pose proof (Nat.pow_gt_lin_r 2 n). lia. Qed.

(** [merkle_root] of a full tree. *)
Lemma merkle_root_full n l pad :
  length l = (2 ^ n)%nat -> merkle_root l (2 ^ Z.of_nat n) pad = Some (tree_root n l).
Proof.
  intros Hl. unfold merkle_root.
  assert (Z.to_nat (Z.max (2 ^ Z.of_nat n) 1) = (2 ^ n)%nat) as ->.
  { rewrite Z.max_l by (pose proof (Z.pow_pos_nonneg 2 (Z.of_nat n)); lia).
    rewrite <- (Nat2Z.id (2 ^ n)). f_equal. by rewrite Nat2Z.inj_pow. }
  rewrite resize_all_alt by done. rewrite Hl. apply reduce_level_root; [done | apply log2_lt_pow].
Qed.

(** ** Nodes *)

Lemma pow2_pos n : (0 < 2 ^ n)%nat.
Proof. pose proof (Nat.pow_nonzero 2 n ltac:(lia)). lia. Qed.

Lemma node_step l j p : node l (S j) p = parent (node l j (2 * p)) (node l j (2 * p + 1)).
Proof.
  unfold node. cbn [tree_root]. rewrite pow2_S, take_take, skipn_firstn_comm, drop_drop.
  replace (Nat.min (2 ^ j) (2 * 2 ^ j)) with (2 ^ j)%nat by lia.
  replace (2 * 2 ^ j - 2 ^ j)%nat with (2 ^ j)%nat by lia.
  replace (p * (2 * 2 ^ j))%nat with (2 * p * 2 ^ j)%nat by ring.
  by replace (2 * p * 2 ^ j + 2 ^ j)%nat with ((2 * p + 1) * 2 ^ j)%nat by ring.
Qed.

Lemma node_leaf l p : (p < length l)%nat -> l !! p = Some (node l 0 p).
Proof.
  intros Hp. destruct (lookup_lt_is_Some_2 l p Hp) as [x Hx]. rewrite Hx. f_equal.
  unfold node. simpl. rewrite Nat.mul_1_r. by rewrite (drop_S l x p).
Qed.

Lemma node_root n l : length l = (2 ^ n)%nat -> node l n 0 = tree_root n l.
Proof. intros Hl. unfold node. rewrite Nat.mul_0_l, drop_0, take_ge by lia. done. Qed.

Lemma node_next l l' j p :
  next_level l = Some l' -> (S p * 2 ^ S j <= length l)%nat -> node l' j p = node l (S j) p.
Proof.
  intros Hnext Hp. unfold node. apply tree_root_next.
  - rewrite length_take, length_drop. lia.
  - destruct (next_level_cut (p * 2 ^ j) l l' Hnext) as [_ Hd].
    destruct (next_level_cut (2 ^ j) _ _ Hd) as [Ht _].
    rewrite pow2_S. replace (p * (2 * 2 ^ j))%nat with (2 * (p * 2 ^ j))%nat by ring. done.
Qed.

(** Layer [j] of [layers_from] holds the nodes of height [j]. *)
Lemma layers_from_nodes n fuel l :
  length l = (2 ^ n)%nat -> (n <= fuel)%nat ->
  exists ls, layers_from fuel l = Some ls /\
  forall j p, (j <= n)%nat -> (p < 2 ^ (n - j))%nat ->
    exists lv, ls !! j = Some lv /\ lv !! p = Some (node l j p).
Proof.
  revert fuel l. induction n as [| n IH]; intros fuel l Hl Hf.
  - exists [l]. split; [destruct fuel; simpl; by rewrite Hl |].
    intros j p Hj Hp. assert (j = 0%nat) as -> by lia. simpl in Hp.
    exists l. split; [done |]. apply node_leaf. rewrite Hl. simpl. lia.
  - destruct fuel as [| fuel]; [lia |]. pose proof (pow2_pos n).
    destruct (next_level_total (2 ^ n) l) as (l' & Hnext & Hl'); [done |].
    destruct (IH fuel l') as (ls & Hls & Hnodes); [done | lia |].
    exists (l :: ls). split.
    { cbn [layers_from]. rewrite (proj2 (Nat.leb_gt _ _)) by (rewrite Hl, pow2_S; lia).
      rewrite Hnext. simpl. by rewrite Hls. }
    intros [| j] p Hj Hp.
    + exists l. split; [done |]. apply node_leaf. by rewrite Hl.
    + destruct (Hnodes j p) as (lv & Hlv & Hnode); [lia | done |].
      exists lv. split; [done |]. rewrite Hnode. f_equal. apply node_next; [done |].
      rewrite Hl. replace (S n) with (S j + (n - j))%nat at 1 by lia.
      rewrite Nat.pow_add_r. cbn in Hp. nia.
Qed.

(** ** Climbing *)

Lemma land_1_even p : (Z.land (Z.of_nat p) 1 =? 0) = Nat.even p.
Proof.
  change 1 with (Z.ones 1). rewrite Z.land_ones by lia. change (2 ^ 1) with 2.
  rewrite Zmod_even.
  destruct (Nat.even p) eqn:E.
  - apply Nat.even_spec in E as [k ->]. rewrite Nat2Z.inj_mul, Z.even_mul. done.
  - assert (Nat.odd p = true) as Ho by (rewrite <- Nat.negb_even, E; done).
    apply Nat.odd_spec in Ho as [k ->]. rewrite Nat2Z.inj_add, Nat2Z.inj_mul, Z.even_add, Z.even_mul. done.
Qed.

Lemma shiftr_1_half p : Z.shiftr (Z.of_nat p) 1 = Z.of_nat (p / 2).
Proof. rewrite Z.shiftr_div_pow2 by lia. by rewrite Nat2Z.inj_div. Qed.

(** The position of the sibling: [p ^ 1]. *)
Definition sibling (p : nat) : nat := if Nat.even p then S p else pred p.

Lemma lxor_1_sibling p : Z.lxor (Z.of_nat p) 1 = Z.of_nat (sibling p).
Proof.
  unfold sibling. destruct (Nat.even p) eqn:E.
  - apply Nat.even_spec in E as [k ->]. rewrite Nat2Z.inj_mul. change (Z.of_nat 2) with 2.
    rewrite <- Z.add_nocarry_lxor; [lia |].
    apply Z.bits_inj'. intros i Hi. rewrite Z.land_spec, Z.bits_0.
    destruct (Z.eq_dec i 0) as [-> |]; [by rewrite Z.testbit_even_0 |].
    rewrite (Z.bits_above_log2 1) by (simpl; lia). apply andb_false_r.
  - assert (Nat.odd p = true) as Ho by (rewrite <- Nat.negb_even, E; done).
    apply Nat.odd_spec in Ho as [k ->]. rewrite Nat.add_1_r. simpl pred.
    replace (Z.of_nat (S (2 * k))) with (Z.lxor (Z.of_nat (2 * k)) 1).
    + rewrite Z.lxor_assoc. simpl. apply Z.lxor_0_r.
    + rewrite <- Z.add_nocarry_lxor; [lia |]. rewrite Nat2Z.inj_mul. change (Z.of_nat 2) with 2.
      apply Z.bits_inj'. intros i Hi. rewrite Z.land_spec, Z.bits_0.
      destruct (Z.eq_dec i 0) as [-> |]; [by rewrite Z.testbit_even_0 |].
      rewrite (Z.bits_above_log2 1) by (simpl; lia). apply andb_false_r.
Qed.

(** A node, its sibling and their parent. *)
Lemma node_half l j p :
  node l (S j) (p / 2) =
    if Nat.even p then parent (node l j p) (node l j (sibling p)) else parent (node l j (sibling p)) (node l j p).
Proof.
  unfold sibling. rewrite node_step. destruct (Nat.even p) eqn:E.
  - apply Nat.even_spec in E as [k ->].
    rewrite (Nat.mul_comm 2 k), Nat.div_mul by lia. f_equal; f_equal; lia.
  - assert (Nat.odd p = true) as Ho by (rewrite <- Nat.negb_even, E; done).
    apply Nat.odd_spec in Ho as [k ->].
    rewrite (Nat.mul_comm 2 k), Nat.add_comm, Nat.div_add by lia.
    rewrite (Nat.div_small 1 2) by lia. f_equal; f_equal; lia.
Qed.

Lemma climb_nodes l k j p us :
  length us = k ->
  (forall i, (i < k)%nat -> us !! i = Some (node l (j + i) (sibling (p / 2 ^ i)))) ->
  climb (node l j p) (Z.of_nat p) us = node l (j + k) (p / 2 ^ k).
Proof.
  revert j p us. induction k as [| k IH]; intros j p us Hlen Hus.
  - destruct us; [| done]. simpl. by rewrite Nat.add_0_r, Nat.div_1_r.
  - destruct us as [| u us]; [done |]. simpl in Hlen. cbn [climb].
    rewrite land_1_even, shiftr_1_half.
    pose proof (Hus 0%nat ltac:(lia)) as H0. simpl in H0.
    rewrite Nat.add_0_r, Nat.div_1_r in H0. injection H0 as ->. rewrite <- node_half.
    rewrite (IH (S j)); [| lia |].
    + rewrite pow2_S, Nat.Div0.div_div. f_equal. lia.
    + intros i Hi. specialize (Hus (S i) ltac:(lia)). simpl in Hus.
      rewrite Nat.Div0.div_div, <- pow2_S. replace (S j + i)%nat with (j + S i)%nat by lia. done.
Qed.

(** Whoever convinces [climb] has the node of the tree, or a collision. *)
Lemma climb_sound l j p us h :
  climb h (Z.of_nat p) us = node l (j + length us) (p / 2 ^ length us) -> h = node l j p \/ collision.
Proof.
  revert j p h. induction us as [| u us IH]; intros j p h H.
  - left. simpl in H. by rewrite Nat.add_0_r, Nat.div_1_r in H.
  - cbn [climb length] in H. rewrite land_1_even, shiftr_1_half in H.
    rewrite pow2_S, <- Nat.Div0.div_div in H. replace (j + S (length us))%nat with (S j + length us)%nat in H by lia.
    apply IH in H as [H |]; [| by right]. rewrite node_half in H.
    destruct (Nat.even p);
      (match type of H with parent ?a ?b = parent ?c ?d =>
         destruct (decide ((a, b) = (c, d))) as [Heq | Hne]; [left; by simplify_eq | right; by exists a, b, c, d]
       end).
Qed.

Lemma tree_root_sound n l m :
  length l = (2 ^ n)%nat -> length m = (2 ^ n)%nat -> tree_root n l = tree_root n m -> l = m \/ collision.
Proof.
  revert l m. induction n as [| n IH]; intros l m Hl Hm H.
  - destruct l as [| x [| ? ?]], m as [| y [| ? ?]]; simpl in *; try lia. left. by rewrite H.
  - cbn [tree_root] in H. rewrite pow2_S in *.
    destruct (decide ((tree_root n (take (2 ^ n) l), tree_root n (drop (2 ^ n) l)) =
                      (tree_root n (take (2 ^ n) m), tree_root n (drop (2 ^ n) m)))) as [[= Ht Hd] | Hne].
    + apply IH in Ht as [Ht |]; [| by right | rewrite length_take; lia ..].
      apply IH in Hd as [Hd |]; [| by right | rewrite length_drop; lia ..].
      left. by rewrite <- (take_drop (2 ^ n) l), <- (take_drop (2 ^ n) m), Ht, Hd.
    + right. eexists _, _, _, _. split; [exact Hne | exact H].
Qed.

(** ** Ranges *)

(** What the shared guard lets through: an aligned power-of-two range inside
    the layer. *)
Lemma range_accepted layer_number height index len :
  0 <= index -> range_refused layer_number height index len = false ->
  let n := (height - layer_number)%nat in
  let m := trailing_zeros len in
  (layer_number < height)%nat /\ len = 2 ^ Z.of_nat m /\ (m <= n)%nat /\
  exists p, index = Z.of_nat (p * 2 ^ m) /\ (S p * 2 ^ m <= 2 ^ n)%nat.
Proof.
  intros Hidx H n m. unfold range_refused in H.
  apply orb_false_iff in H as [H Hfit]. apply orb_false_iff in H as [H Halign].
  apply orb_false_iff in H as [H Hpow]. apply orb_false_iff in H as [Hh H2].
  apply Nat.leb_gt in Hh. apply Z.ltb_ge in H2, Hfit. apply negb_false_iff in Hpow, Halign.
  apply power_of_two_spec in Hpow as [Hlen _]. fold m in Hlen. apply Z.eqb_eq in Halign.
  rewrite Hlen in Halign, Hfit. fold n in Hfit.
  replace (2 ^ Z.of_nat m - 1) with (Z.ones (Z.of_nat m)) in Halign by (rewrite Z.ones_equiv; lia).
  rewrite Z.land_ones in Halign by lia.
  assert (forall k, 2 ^ Z.of_nat k = Z.of_nat (2 ^ k)) as Hp by (intros; by rewrite Nat2Z.inj_pow).
  rewrite !Hp in *.
  pose proof (Z.div_mod index (Z.of_nat (2 ^ m)) ltac:(pose proof (pow2_pos m); lia)) as Hdm.
  rewrite Halign in Hdm. split; [done |]. split; [done |].
  assert (0 <= index / Z.of_nat (2 ^ m)) by (apply Z.div_pos; pose proof (pow2_pos m); lia).
  split.
  - apply Nat.nlt_ge. intros Hlt. assert (2 ^ n < 2 ^ m)%nat by (apply Nat.pow_lt_mono_r; lia). lia.
  - exists (Z.to_nat (index / Z.of_nat (2 ^ m))). split; nia.
Qed.

Lemma take_while_seq n b k :
  take_while (fun j => j <? n)%nat (seq b k) = seq b (Nat.min k (n - b)).
Proof.
  revert b. induction k as [| k IH]; intros b; [done |]. simpl.
  destruct (Nat.ltb_spec b n).
  - rewrite IH. replace (n - b)%nat with (S (n - S b)) by lia. done.
  - replace (n - b)%nat with 0%nat by lia. done.
Qed.

Lemma proof_steps_seq below pl ln h :
  (ln < h)%nat -> proof_steps below pl ln h = seq below (Nat.min (S pl - below) (h - ln - below)).
Proof.
  intros. unfold proof_steps. rewrite <- take_while_seq. generalize (seq below (S pl - below)).
  induction l as [| x l IH]; simpl; [done |]. rewrite IH.
  destruct (Nat.ltb_spec (ln + x) h), (Nat.ltb_spec x (h - ln)); done || lia.
Qed.

Lemma layers_from_head fuel l ls : layers_from fuel l = Some ls -> ls !! 0%nat = Some l.
Proof.
  destruct fuel; simpl; destruct (length l <=? 1)%nat; intros H; simplify_eq/=; try done.
  destruct (next_level l); simpl in H; [| done]. destruct (layers_from fuel l0); simplify_eq/=. done.
Qed.

Lemma shiftr_div (x j : nat) : Z.shiftr (Z.of_nat x) (Z.of_nat j) = Z.of_nat (x / 2 ^ j).
Proof. rewrite Z.shiftr_div_pow2, Nat2Z.inj_div, Nat2Z.inj_pow by lia. done. Qed.

Lemma sibling_lt q k : (q < 2 ^ S k)%nat -> (sibling q < 2 ^ S k)%nat.
Proof.
  intros Hq. unfold sibling. destruct (Nat.even q) eqn:E; [| lia].
  apply Nat.even_spec in E as [r ->]. rewrite pow2_S in *. lia.
Qed.

(** The uncles [hash_range] collects are the siblings on the way to the root. *)
Lemma uncles_of_layers (full : list Hash) (ls : list (list Hash)) (n m idx : nat) :
  (idx < 2 ^ n)%nat ->
  (forall j p, (j <= n)%nat -> (p < 2 ^ (n - j))%nat ->
     exists lv : list Hash, ls !! j = Some lv /\ lv !! p = Some (node full j p)) ->
  mapM (fun j : nat => level ← ls !! j; (level : list Hash) !! Z.to_nat (Z.lxor (Z.shiftr (Z.of_nat idx) (Z.of_nat j)) 1))
    (seq m (n - m)) = Some ((fun j => node full j (sibling (idx / 2 ^ j))) <$> seq m (n - m)).
Proof.
  intros Hidx Hnodes. apply mapM_Some. apply Forall2_fmap_r, Forall_Forall2_diag, Forall_forall.
  intros j [Hj1 Hj2]%elem_of_seq. rewrite shiftr_div, lxor_1_sibling, Nat2Z.id.
  destruct (Hnodes j (sibling (idx / 2 ^ j))) as (lv & Hlv & Hp); [lia | | by rewrite Hlv].
  replace (n - j)%nat with (S (n - j - 1)) by lia. apply sibling_lt.
  apply Nat.Div0.div_lt_upper_bound. rewrite <- Nat.pow_add_r.
  by replace (j + S (n - j - 1))%nat with n by lia.
Qed.

Lemma merkle_root_padded n (leaves : list Hash) pad :
  (length leaves <= 2 ^ n)%nat ->
  merkle_root leaves (2 ^ Z.of_nat n) pad = Some (tree_root n (resize (2 ^ n) pad leaves)).
Proof.
  intros Hl. rewrite <- (merkle_root_full n _ pad) by (by rewrite length_resize).
  unfold merkle_root. replace (Z.to_nat (Z.max (2 ^ Z.of_nat n) 1)) with (2 ^ n)%nat.
  - by rewrite resize_idemp.
  - rewrite Z.max_l by (pose proof (Z.pow_pos_nonneg 2 (Z.of_nat n)); lia).
    rewrite <- (Nat2Z.id (2 ^ n)). f_equal. by rewrite Nat2Z.inj_pow.
Qed.

Lemma trailing_zeros_pow n : trailing_zeros (2 ^ Z.of_nat n) = n.
Proof.
  assert (forall z, 0 < z -> trailing_zeros (2 * z) = S (trailing_zeros z)) as Hd by (by intros []).
  induction n as [| n IH]; [done |]. rewrite Nat2Z.inj_succ, Z.pow_succ_r, Hd by (try apply Z.pow_pos_nonneg; lia).
  by rewrite IH.
Qed.

Lemma pow_is_power_of_two n : is_power_of_two (2 ^ Z.of_nat n) = true.
Proof. apply power_of_two_spec. rewrite trailing_zeros_pow. split; [done | apply Z.pow_pos_nonneg; lia]. Qed.

Lemma length_chunks fuel (n k : nat) l :
  (length l <= k * n)%nat -> (length (chunks fuel n l) <= k)%nat.
Proof.
  revert k l. induction fuel as [| fuel IH]; intros k l Hl; [simpl; lia |].
  destruct l as [| x l]; [simpl; lia |]. cbn [chunks length].
  destruct k as [| k]; [simpl in Hl; lia |].
  enough (length (chunks fuel n (drop n (x :: l))) <= k)%nat by lia.
  apply IH. rewrite length_drop. nia.
Qed.

Lemma block_hashes_fit data n :
  zlen data <= 2 ^ Z.of_nat n * BLOCK -> (length (block_hashes data) <= 2 ^ n)%nat.
Proof.
  intros Hfit. unfold block_hashes. rewrite length_fmap. apply length_chunks.
  unfold zlen in Hfit. apply Nat2Z.inj_le. rewrite Nat2Z.inj_mul, Nat2Z.inj_pow, Z2Nat.id; done.
Qed.

(** The range of [2^m] hashes at position [p], and the node above it. *)
Lemma slice_range {A} (full : list A) p m :
  slice full (Z.of_nat (p * 2 ^ m)) (Z.of_nat (p * 2 ^ m) + 2 ^ Z.of_nat m) =
  take (2 ^ m) (drop (p * 2 ^ m) full).
Proof.
  unfold slice. rewrite Nat2Z.id. f_equal.
  replace (_ + _ - _) with (2 ^ Z.of_nat m) by lia.
  rewrite <- (Nat2Z.id (2 ^ m)). f_equal. by rewrite Nat2Z.inj_pow.
Qed.

Lemma length_range {A} (full : list A) p m n :
  length full = (2 ^ n)%nat -> (S p * 2 ^ m <= 2 ^ n)%nat ->
  length (take (2 ^ m) (drop (p * 2 ^ m) full)) = (2 ^ m)%nat.
Proof. intros Hl Hp. rewrite length_take, length_drop. lia. Qed.

(** Below the root the position of a range's node has run out. *)
Lemma range_top p m n : (m <= n)%nat -> (S p * 2 ^ m <= 2 ^ n)%nat -> (p / 2 ^ (n - m) = 0)%nat.
Proof.
  intros Hm Hp. apply Nat.div_small. replace n with (n - m + m)%nat in Hp by lia.
  rewrite Nat.pow_add_r in Hp. pose proof (pow2_pos m). nia.
Qed.

Lemma div_range p m i : (p * 2 ^ m / 2 ^ (m + i) = p / 2 ^ i)%nat.
Proof.
  rewrite Nat.pow_add_r, <- Nat.Div0.div_div, Nat.div_mul; [done |].
  pose proof (pow2_pos m). lia.
Qed.

(** The siblings of the nodes above the range at position [p]. *)
Definition range_uncles (full : list Hash) (n m p : nat) : list Hash :=
  (fun j => node full j (sibling (p * 2 ^ m / 2 ^ j))) <$> seq m (n - m).

(** Hashes of a layer with the nodes beside their way to the root verify. *)
Lemma nodes_verify (full : list Hash) (layer_number height : nat) (index len : Z) (proof_layers p : nat) :
  let n := (height - layer_number)%nat in
  let m := trailing_zeros len in
  range_refused layer_number height index len = false -> len < 2 ^ 32 ->
  length full = (2 ^ n)%nat -> (n <= S proof_layers)%nat ->
  len = 2 ^ Z.of_nat m -> (m <= n)%nat -> index = Z.of_nat (p * 2 ^ m) -> (S p * 2 ^ m <= 2 ^ n)%nat ->
  verify_range (tree_root n full) layer_number height index
    (slice full index (index + len)) (range_uncles full n m p) proof_layers = true.
Proof.
  intros n m Hguard H32 Hfull Hproof Hlen Hm Hp Hin.
  assert (layer_number < height)%nat as Hh.
  { unfold range_refused in Hguard. bool_to_prop. by apply Nat.leb_gt. }
  assert (length (range_uncles full n m p) = (n - m)%nat) as Hlus by (unfold range_uncles; by rewrite length_fmap, length_seq).
  rewrite Hp, Hlen, slice_range.
  unfold verify_range. unfold zlen. rewrite (length_range _ _ _ n) by done.
  rewrite Nat2Z.inj_pow. change (Z.of_nat 2) with 2. rewrite <- Hlen.
  unfold wrap. rewrite Z.mod_small by (pose proof (Z.pow_pos_nonneg 2 (Z.of_nat m)); lia).
  rewrite <- Hp, Hguard. fold m. rewrite proof_steps_seq, Hlus, length_seq by done.
  replace (Nat.min (S proof_layers - m) (height - layer_number - m)) with (n - m)%nat by lia.
  rewrite Nat.eqb_refl. simpl.
  rewrite Hlen, merkle_root_full by (by apply (length_range _ _ _ n)).
  rewrite Hp, shiftr_div, Nat.div_mul by (pose proof (pow2_pos m); lia).
  change (tree_root m _) with (node full m p).
  rewrite (climb_nodes full (n - m)); [| done |].
  - rewrite range_top by done. replace (m + (n - m))%nat with n by lia. rewrite node_root by done.
    rewrite bool_decide_true, andb_true_r by done. apply Nat.eqb_eq. lia.
  - intros i Hi. unfold range_uncles. rewrite list_lookup_fmap, lookup_seq_lt by done. simpl. by rewrite div_range.
Qed.

Lemma hash_range_answers (layer : list Hash) (layer_number height : nat) (index len : Z) (proof_layers : nat) :
  0 <= index -> range_refused layer_number height index len = false -> index + len < 2 ^ 32 ->
  (length layer <= 2 ^ (height - layer_number))%nat -> (height - layer_number <= S proof_layers)%nat ->
  let full := resize (2 ^ (height - layer_number)) (zero_subtree layer_number) layer in
  exists hr, hash_range layer layer_number height index len proof_layers = Some hr /\
    hashes hr = slice full index (index + len) /\
    verify_range (tree_root (height - layer_number) full) layer_number height index
      (hashes hr) (uncles hr) proof_layers = true.
Proof.
  intros Hidx Hguard H32 Hfit Hproof full.
  destruct (range_accepted _ _ _ _ Hidx Hguard) as (Hh & Hlen & Hm & p & Hp & Hin).
  set (n := (height - layer_number)%nat) in *. set (m := trailing_zeros len) in *.
  assert (length full = (2 ^ n)%nat) as Hfull by (unfold full; by rewrite length_resize).
  destruct (layers_from_nodes n (length full) full) as (ls & Hls & Hnodes); [done | rewrite Hfull; apply log2_lt_pow |].
  assert (proof_steps m proof_layers layer_number height = seq m (n - m)) as Hsteps
    by (rewrite proof_steps_seq by done; f_equal; lia).
  pose proof (uncles_of_layers full ls n m (p * 2 ^ m) ltac:(pose proof (pow2_pos m); nia) Hnodes) as Hus.
  exists (mkHashRange (slice full index (index + len)) (range_uncles full n m p)). split; [| split; [done |]].
  - unfold hash_range. rewrite Hguard, (proj2 (Nat.ltb_ge _ _)) by done. fold m.
    unfold upper_layers. fold n. fold full. rewrite Hls. simpl.
    rewrite (layers_from_head _ _ _ Hls). simpl. rewrite Hsteps, Hp, Hus. done.
  - apply nodes_verify; try done. lia.
Qed.

(** ** Properties *)

(** The check on a v2 piece is the check the format defines: with a width
    of [2^n] leaves and no more data than fits, [merkle_matches] holds exactly
    when the perfect tree over the hashes of the 16 KiB blocks, padded with
    zero hashes, has that root; and any other width, and more data than fits,
    is refused, not a panic. *)
Theorem merkle_matches_iff (data : list Z) (n : nat) (root : Hash)
    (Hfit : zlen data <= 2 ^ Z.of_nat n * BLOCK) (Hw : 2 ^ Z.of_nat n * BLOCK <= u_max 64) :
  (merkle_matches data (2 ^ Z.of_nat n) root = true <->
   tree_root n (resize (2 ^ n) zero_hash (block_hashes data)) = root) /\
  (forall width, is_power_of_two width = false \/ width * BLOCK < zlen data ->
   merkle_matches data width root = false).
Proof.
  split.
  - unfold merkle_matches. rewrite pow_is_power_of_two, Z.min_l by done. simpl.
    rewrite (proj2 (Z.ltb_ge _ _)) by done.
    rewrite merkle_root_padded by (by apply block_hashes_fit).
    rewrite bool_decide_eq_true. split; [by intros [= ->] | by intros ->].
  - intros width [H | H]; unfold merkle_matches; [by rewrite H |].
    rewrite (proj2 (Z.ltb_lt _ _)) by lia. by rewrite orb_true_r.
Qed.

Lemma merkle_matches_iff_witness :
  merkle_matches [97; 98; 99] (2 ^ Z.of_nat 1) (parent (sha256 [97; 98; 99]) zero_hash) = true.
Proof. apply (merkle_matches_iff [97; 98; 99] 1); [done | done | vm_compute; reflexivity]. Defined.

(** What a seeder answers a hash request with convinces the peer that asked:
    for a request the guard lets through, on a layer that fits the tree and with
    enough proof layers to reach the root, [hash_range] answers (it neither
    refuses nor panics), the hashes are the requested ones of the padded
    layer, and [verify_range] accepts them against the root of the tree. *)
Theorem hash_range_verifies (layer : list Hash) (layer_number height : nat) (index len : Z) (proof_layers : nat)
    (Hidx : 0 <= index) (Hguard : range_refused layer_number height index len = false)
    (H32 : index + len < 2 ^ 32) (Hfit : (length layer <= 2 ^ (height - layer_number))%nat)
    (Hproof : (height - layer_number <= S proof_layers)%nat) :
  let full := resize (2 ^ (height - layer_number)) (zero_subtree layer_number) layer in
  exists hr, hash_range layer layer_number height index len proof_layers = Some hr /\
    hashes hr = slice full index (index + len) /\
    verify_range (tree_root (height - layer_number) full) layer_number height index
      (hashes hr) (uncles hr) proof_layers = true.
Proof. by apply hash_range_answers. Qed.

Lemma hash_range_verifies_witness :
  range_refused 0 2 2 2 = false /\
  exists hr, hash_range [sha256 [1]; sha256 [2]; sha256 [3]] 0 2 2 2 1 = Some hr /\
    hashes hr = [sha256 [3]; zero_hash].
Proof.
  split; [reflexivity |].
  destruct (hash_range_verifies [sha256 [1]; sha256 [2]; sha256 [3]] 0 2 2 2 1) as (hr & H1 & H2 & _);
    [lia | reflexivity | lia | simpl; lia | lia |].
  exists hr. split; [exact H1 | rewrite H2; reflexivity].
Defined.

(** What is accepted against the root of a tree is a range of that tree. *)
Lemma verified_range (full : list Hash) (layer_number height : nat) (index : Z)
    (hs us : list Hash) (proof_layers : nat)
    (Hfull : length full = (2 ^ (height - layer_number))%nat) (Hidx : 0 <= index) (H32 : zlen hs < 2 ^ 32)
    (Hok : verify_range (tree_root (height - layer_number) full) layer_number height index hs us proof_layers = true) :
  hs = slice full index (index + zlen hs) \/ collision.
Proof.
  unfold verify_range in Hok. unfold wrap in Hok.
  rewrite Z.mod_small in Hok by (pose proof (zlen_nonneg hs); lia).
  destruct (range_refused _ _ _ _) eqn:Hguard; [done |].
  destruct (range_accepted _ _ _ _ Hidx Hguard) as (Hh & Hlen & Hm & p & Hp & Hin).
  set (n := (height - layer_number)%nat) in *. set (m := trailing_zeros (zlen hs)) in *.
  destruct (negb _); [done |].
  assert (length hs = (2 ^ m)%nat) as Hhs.
  { apply Nat2Z.inj. rewrite Nat2Z.inj_pow. exact Hlen. }
  rewrite Hlen, merkle_root_full in Hok by done.
  apply andb_true_iff in Hok as [Htop Hroot]. apply Nat.eqb_eq in Htop. apply bool_decide_eq_true in Hroot.
  rewrite Hp, shiftr_div, Nat.div_mul in Hroot by (pose proof (pow2_pos m); lia).
  rewrite <- (node_root n) in Hroot by done.
  replace n with (m + length us)%nat in Hroot at 1 by lia.
  rewrite <- (range_top p m n) in Hroot by done. replace (n - m)%nat with (length us) in Hroot by lia.
  apply climb_sound in Hroot as [Hroot |]; [| by right].
  apply tree_root_sound in Hroot as [Hroot |]; [| by right | done | by apply (length_range _ _ _ n)].
  left. rewrite Hroot at 1. rewrite Hp, Hlen. symmetry. apply slice_range.
Qed.


