(* ===== verification/V2Hashes.v ===== *)
(** * The hashes of a v2 torrent's files (BEP 52)

    Models the rest of the hashing side of [src/src/v2.rs]: building a file's
    tree a piece at a time ([hash_file]), the pieces a torrent is cut into and
    what each must hash to ([plan_pieces]), the check of the piece layers
    ([validate_layers]), and the seeder's answers to hash requests
    ([HashSource]).  Numbers are [u64] unless said otherwise.  A [None] of an
    outer [option] is a panic or a loop that never ends. *)

From Stdlib Require Strings.String.
From S2P Require Import Prelude BTree Io Merkle.

(** [u64::next_power_of_two], and [u64::trailing_zeros]. *)
Definition next_power_of_two (z : Z) : Z := if z <=? 1 then 1 else 2 ^ Z.log2_up z.

Definition trailing_zeros64 (z : Z) : nat :=
  match z with Zpos p => pos_trailing_zeros p | _ => 64%nat end.

(** ** Metadata *)

Record V2File : Type := mkV2File {
  path : list (list Z);
  file_length : Z;
  root : option Hash
}.

Inductive V2Error : Type :=
| BadTree (what : String.string)
| UnsafePath (part : list Z)
| TooDeep
| TooManyFiles
| BadLength
| BadRoot
| BadLayer
| BadPieceLength.
Arguments BadTree what%_string_scope.

(** [BTreeMap<Hash, Vec<Hash>>]. *)
Abbreviation Layers := (list (Hash * list Hash)).

Record V2Meta : Type := mkV2Meta {
  files : list V2File;
  layers : Layers;
  info_hash : Hash
}.

(** [self.info_hash[..20]]. *)
Definition short_hash (m : V2Meta) : list Z := take 20 (info_hash m).

Definition layer_of (m : V2Meta) (f : V2File) : option (list Hash) :=
  r ← root f; bt_get (layers m) r.

Definition valid_piece_length (piece_length : Z) : bool :=
  (BLOCK <=? piece_length) && is_power_of_two piece_length.

Definition expected_piece_hash (f : V2File) (layer : option (list Hash)) (piece_in_file : nat) : option Hash :=
  match layer with
  | Some hs => hs !! piece_in_file
  | None => if (piece_in_file =? 0)%nat then root f else None
  end.

(** ** Pieces *)

Record V2Piece : Type := mkV2Piece {
  p_file : nat;
  p_offset : Z;
  p_length : Z;
  p_root : Hash;
  p_width : Z
}.

(** The inner loop of [plan_pieces]; [file.length - offset] panics below zero. *)
Fixpoint plan_layer (index : nat) (len piece_length : Z) (n : Z) (layer : list Hash) : option (list V2Piece) :=
  match layer with
  | [] => Some []
  | hash :: rest =>
      let offset := n * piece_length in
      if len <? offset then None
      else
        ps ← plan_layer index len piece_length (n + 1) rest;
        Some (mkV2Piece index offset (wrap 32 (Z.min (len - offset) piece_length)) hash
                (wrap 32 (piece_length / BLOCK)) :: ps)
  end.

Fixpoint plan_from (index : nat) (fs : list V2File) (ls : Layers) (piece_length : Z)
  : option (option (list V2Piece)) :=
  match fs with
  | [] => Some (Some [])
  | f :: rest =>
      match root f with
      | None => plan_from (S index) rest ls piece_length
      | Some r =>
          let more ps := match plan_from (S index) rest ls piece_length with
                         | Some (Some qs) => Some (Some (ps ++ qs))
                         | other => other
                         end in
          if file_length f <=? piece_length then
            let blocks := div_ceil (file_length f) BLOCK in
            more [mkV2Piece index 0 (wrap 32 (file_length f)) r (wrap 32 (next_power_of_two blocks))]
          else
            match bt_get ls r with
            | None => Some None
            | Some layer => ps ← plan_layer index (file_length f) piece_length 0 layer; more ps
            end
      end
  end.

Definition plan_pieces (fs : list V2File) (ls : Layers) (piece_length : Z) : option (option (list V2Piece)) :=
  plan_from 0 fs ls piece_length.

(** ** A file's tree *)

Record FileHashes : Type := mkFileHashes {
  fh_root : option Hash;
  fh_layer : list Hash
}.

Definition layer_pad (piece_length : Z) : Hash := zero_subtree (trailing_zeros64 (piece_length / BLOCK)).

(** The [while left > 0] loop: a piece at a time. *)
Fixpoint hash_pieces (fuel : nat) (r : Reader) (left piece_length : Z) (layer : list Hash)
  : option (result (list Hash) ErrorKind) :=
  if left <=? 0 then Some (Ok layer)
  else
    match fuel with
    | O => None
    | S fuel' =>
        let n := Z.min left piece_length in
        match read_exact r n with
        | Err e => Some (Err e)
        | Ok (buf, r') =>
            h ← piece_hash buf piece_length;
            hash_pieces fuel' r' (left - n) piece_length (layer ++ [h])
        end
    end.

Definition hash_file (r : Reader) (len piece_length : Z) : option (result FileHashes ErrorKind) :=
  if len =? 0 then Some (Ok (mkFileHashes None []))
  else if len <=? piece_length then
    match read_exact r len with
    | Err e => Some (Err e)
    | Ok (data, _) =>
        let leaves := block_hashes data in
        h ← merkle_root leaves (next_power_of_two (zlen leaves)) zero_hash;
        Some (Ok (mkFileHashes (Some h) []))
    end
  else
    hashed ← hash_pieces (Z.to_nat len) r len piece_length [];
    match hashed with
    | Err e => Some (Err e)
    | Ok layer =>
        h ← merkle_root layer (next_power_of_two (zlen layer)) (layer_pad piece_length);
        Some (Ok (mkFileHashes (Some h) layer))
    end.

(** [validate_layers], file by file; a [None] is a panic of [merkle_root]. *)
Fixpoint validate_each (fs : list V2File) (ls : Layers) (piece_length : Z) : option (result unit V2Error) :=
  match fs with
  | [] => Some (Ok tt)
  | f :: rest =>
      if piece_length <? file_length f then
        match root f, (r ← root f; bt_get ls r) with
        | Some r, Some layer =>
            if negb (zlen layer =? div_ceil (file_length f) piece_length) then Some (Err BadLayer)
            else
              h ← merkle_root layer (next_power_of_two (zlen layer)) (layer_pad piece_length);
              if bool_decide (h = r) then validate_each rest ls piece_length else Some (Err BadLayer)
        | _, _ => validate_each rest ls piece_length
        end
      else validate_each rest ls piece_length
  end.

Definition validate_layers (fs : list V2File) (ls : Layers) (piece_length : Z) : option (result unit V2Error) :=
  if negb (valid_piece_length piece_length) then Some (Err BadPieceLength)
  else validate_each fs ls piece_length.

(** ** Answering hash requests *)

Definition piece_layer (piece_length : Z) : nat := trailing_zeros64 (piece_length / BLOCK).

Definition file_height (len piece_length : Z) : nat :=
  piece_layer piece_length + trailing_zeros64 (next_power_of_two (div_ceil len piece_length)).

Definition MAX_HASHES_PER_REQUEST : Z := 512.

Record SourceFile : Type := mkSourceFile {
  s_length : Z;
  first_piece : Z;
  s_layer : list Hash
}.

Record HashSource : Type := mkHashSource {
  s_piece_length : Z;
  s_files : list (Hash * SourceFile)
}.

(** The loop of [HashSource::new]; dividing by a zero piece length and a piece
    count past [u32] panic. *)
Fixpoint collect_sources (fs : list V2File) (ls : Layers) (piece_length next_piece : Z)
    (sources : list (Hash * SourceFile)) : option (list (Hash * SourceFile)) :=
  match fs with
  | [] => Some sources
  | f :: rest =>
      match root f with
      | None => collect_sources rest ls piece_length next_piece sources
      | Some r =>
          if piece_length =? 0 then None
          else
            let pieces := wrap 32 (div_ceil (file_length f) piece_length) in
            let layer := if piece_length <? file_length f then bt_get ls r else Some [] in
            let sources := match layer with
                           | Some l => bt_insert sources r (mkSourceFile (file_length f) next_piece l)
                           | None => sources
                           end in
            next ← u_checked_add 32 next_piece pieces;
            collect_sources rest ls piece_length next sources
      end
  end.

Definition new (fs : list V2File) (ls : Layers) (piece_length : Z) : option (option HashSource) :=
  sources ← collect_sources fs ls piece_length 0 [];
  Some (match sources with [] => None | _ => Some (mkHashSource piece_length sources) end).

Definition answer (s : HashSource) (r : Hash) (base_layer : nat) (index len : Z) (proof_layers : nat)
  : option HashRange :=
  file ← bt_get (s_files s) r;
  match s_layer file with
  | [] => None
  | _ =>
      let height := file_height (s_length file) (s_piece_length s) in
      let pieces_at := piece_layer (s_piece_length s) in
      if (base_layer <? pieces_at)%nat || (MAX_HASHES_PER_REQUEST <? len) || (height <=? base_layer)%nat then None
      else if (base_layer =? pieces_at)%nat then
        hash_range (s_layer file) base_layer height index len proof_layers
      else
        above ← (ls ← upper_layers (s_layer file) pieces_at height; ls !! (base_layer - pieces_at)%nat);
        hash_range above base_layer height index len proof_layers
  end.

Section answer_leaves.
(** What the caller reads pieces with; the store does not change during a call. *)
Context (read_piece : Z -> option (list Z)).
Implicit Types (cache : option (Z * list Hash)).

(** The closure [leaf]: the hash of one block, and the piece now cached. *)
Definition leaf (file : SourceFile) (blocks blocks_per_piece : Z) (cache : option (Z * list Hash)) (block : Z)
  : option (Hash * option (Z * list Hash)) :=
  if blocks <=? block then Some (zero_hash, cache)
  else
    let piece := block / blocks_per_piece in
    held ← (if bool_decide (fst <$> cache = Some piece) then cache
            else
              number ← u_checked_add 32 (first_piece file) (wrap 32 piece);
              data ← read_piece number;
              Some (piece, block_hashes data));
    h ← zget held.2 (block mod blocks_per_piece);
    Some (h, Some held).

(** [(first..first + n).map(&mut leaf).collect::<Option<_>>()]. *)
Fixpoint leaves_from (file : SourceFile) (blocks blocks_per_piece : Z) (cache : option (Z * list Hash))
    (first : Z) (n : nat) : option (list Hash * option (Z * list Hash)) :=
  match n with
  | O => Some ([], cache)
  | S n' =>
      '(h, cache) ← leaf file blocks blocks_per_piece cache first;
      '(hs, cache) ← leaves_from file blocks blocks_per_piece cache (first + 1) n';
      Some (h :: hs, cache)
  end.

(** The loop over the proof layers. *)
Fixpoint leaf_uncles (file : SourceFile) (blocks blocks_per_piece : Z) (pieces_at : nat)
    (pieces_tree : option (list (list Hash))) (index : Z) (cache : option (Z * list Hash)) (js : list nat)
  : option (list Hash) :=
  match js with
  | [] => Some []
  | j :: rest =>
      let sib := Z.lxor (Z.shiftr index (Z.of_nat j)) 1 in
      let from_leaves :=
        '(hs, cache) ← leaves_from file blocks blocks_per_piece cache (Z.shiftl sib (Z.of_nat j)) (2 ^ j);
        h ← merkle_root hs (zlen hs) zero_hash;
        Some (h, cache) in
      '(uncle, cache) ←
        (match pieces_tree with
         | Some tree =>
             if (pieces_at <=? j)%nat then
               level ← tree !! (j - pieces_at)%nat; h ← zget level sib; Some (h, cache)
             else from_leaves
         | None => from_leaves
         end);
      us ← leaf_uncles file blocks blocks_per_piece pieces_at pieces_tree index cache rest;
      Some (uncle :: us)
  end.

Definition answer_leaves (s : HashSource) (r : Hash) (index len : Z) (proof_layers : nat) : option HashRange :=
  file ← bt_get (s_files s) r;
  let blocks := div_ceil (s_length file) BLOCK in
  let blocks_per_piece := s_piece_length s / BLOCK in
  let single_piece := match s_layer file with [] => true | _ => false end in
  let pieces_at := piece_layer (s_piece_length s) in
  let height := if single_piece then trailing_zeros64 (next_power_of_two blocks)
                else file_height (s_length file) (s_piece_length s) in
  if (height =? 0)%nat || (len <? 2) || negb (is_power_of_two len) || (MAX_HASHES_PER_REQUEST <? len)
     || negb (Z.land index (len - 1) =? 0) || (2 ^ Z.of_nat height <? index + len) then None
  else
    '(hs, cache) ← leaves_from file blocks blocks_per_piece None index (Z.to_nat len);
    let below := trailing_zeros len in
    pieces_tree ← (if single_piece then Some None
                   else ls ← upper_layers (s_layer file) pieces_at height; Some (Some ls));
    us ← leaf_uncles file blocks blocks_per_piece pieces_at pieces_tree index cache
           (proof_steps below proof_layers 0 height);
    Some (mkHashRange hs us).

End answer_leaves.

(** ** Powers of two *)

Lemma trailing_zeros64_pow n : trailing_zeros64 (2 ^ Z.of_nat n) = n.
Proof.
  rewrite <- (trailing_zeros_pow n) at 2. pose proof (Z.pow_pos_nonneg 2 (Z.of_nat n)).
  destruct (2 ^ Z.of_nat n); [lia | done | lia].
Qed.

Lemma next_power_of_two_spec z :
  exists b, next_power_of_two z = 2 ^ Z.of_nat b /\ z <= 2 ^ Z.of_nat b /\
    trailing_zeros64 (next_power_of_two z) = b.
Proof.
  unfold next_power_of_two. destruct (Z.leb_spec z 1).
  - exists 0%nat. done.
  - exists (Z.to_nat (Z.log2_up z)). rewrite Z2Nat.id by apply Z.log2_up_nonneg.
    split_and!; [done | apply Z.log2_up_spec; lia |].
    rewrite <- (trailing_zeros64_pow (Z.to_nat _)). by rewrite Z2Nat.id by apply Z.log2_up_nonneg.
Qed.

Lemma valid_piece_length_spec pl :
  valid_piece_length pl = true -> pl = 2 ^ Z.of_nat (piece_layer pl) * BLOCK /\ BLOCK <= pl.
Proof.
  intros [Hge Hpow]%andb_true_iff. apply Z.leb_le in Hge. apply power_of_two_spec in Hpow as [Hpow _].
  set (t := trailing_zeros pl) in *.
  assert (14 <= t)%nat as Ht.
  { apply Nat.nlt_ge. intros Hlt. assert (2 ^ Z.of_nat t < 2 ^ 14) by (apply Z.pow_lt_mono_r; lia).
    unfold BLOCK in Hge. lia. }
  assert (pl = 2 ^ Z.of_nat (t - 14) * BLOCK) as Hpl.
  { rewrite Hpow. change BLOCK with (2 ^ 14). rewrite <- Z.pow_add_r by lia. f_equal. lia. }
  split; [| done]. unfold piece_layer. rewrite Hpl at 2. rewrite Z.div_mul by done. by rewrite trailing_zeros64_pow.
Qed.

(** ** Blocks and pieces of the data *)

Section chunks.
Context (n : nat) (Hn : (0 < n)%nat).

Lemma chunks_fuel fuel fuel' (l : list Z) :
  (length l <= fuel)%nat -> (length l <= fuel')%nat -> chunks fuel n l = chunks fuel' n l.
Proof using Hn.
  revert fuel' l. induction fuel as [| fuel IH]; intros fuel' l Hl Hl'.
  - destruct l; [| simpl in Hl; lia]. by destruct fuel'.
  - destruct l as [| x l]; [by destruct fuel' |]. destruct fuel' as [| fuel']; [simpl in Hl'; lia |].
    cbn [chunks]. f_equal. apply IH; rewrite length_drop; simpl in *; lia.
Qed.

Lemma chunks_cons fuel (l : list Z) :
  l <> [] -> (length l <= fuel)%nat -> chunks fuel n l = take n l :: chunks (length (drop n l)) n (drop n l).
Proof using Hn.
  intros Hne Hl. destruct fuel as [| fuel]; destruct l as [| x l]; try done; [simpl in Hl; lia |].
  cbn [chunks]. f_equal. apply chunks_fuel; [rewrite length_drop; simpl in *; lia | done].
Qed.

Lemma drop_chunks j (l : list Z) :
  drop j (chunks (length l) n l) = chunks (length (drop (j * n) l)) n (drop (j * n) l).
Proof using Hn.
  revert l. induction j as [| j IH]; intros l; [by rewrite drop_0 |].
  destruct (decide (l = [])) as [-> | Hne]; [by rewrite !drop_nil |].
  rewrite chunks_cons by done. cbn [drop]. rewrite IH, drop_drop.
  by replace (n + j * n)%nat with (S j * n)%nat by lia.
Qed.

Lemma take_chunks j (l : list Z) :
  take j (chunks (length l) n l) = chunks (length (take (j * n) l)) n (take (j * n) l).
Proof using Hn.
  revert l. induction j as [| j IH]; intros l; [done |].
  destruct (decide (l = [])) as [-> | Hne]; [by rewrite !take_nil |].
  rewrite chunks_cons by done. cbn [take]. rewrite IH.
  assert (take (S j * n) l <> []) as Hne'.
  { destruct l; [done |]. destruct n; [lia | done]. }
  rewrite (chunks_cons (length (take (S j * n) l))) by done. f_equal.
  - rewrite take_take. f_equal. lia.
  - replace (S j * n)%nat with (n + j * n)%nat by lia. by rewrite <- take_drop_commute.
Qed.

Lemma length_chunks_eq (l : list Z) : zlen (chunks (length l) n l) = div_ceil (zlen l) (Z.of_nat n).
Proof using Hn.
  remember (length l) as m eqn:Hm. revert l Hm.
  induction (lt_wf m) as [m _ IH]. intros l ->.
  destruct (decide (l = [])) as [-> | Hne].
  { symmetry. unfold div_ceil. rewrite zlen_nil. apply Z.div_small. lia. }
  assert (0 < length l)%nat by (destruct l; [done | simpl; lia]).
  rewrite chunks_cons by done. rewrite zlen_cons, (IH (length (drop n l))); [| rewrite length_drop; lia | done].
  unfold div_ceil, zlen. rewrite length_drop.
  destruct (decide (n <= length l)%nat).
  - replace (Z.of_nat (length l) + Z.of_nat n - 1) with (Z.of_nat (length l - n) + Z.of_nat n - 1 + 1 * Z.of_nat n) by lia.
    rewrite Z.div_add by lia. lia.
  - replace (length l - n)%nat with 0%nat by lia. rewrite (Z.div_small (Z.of_nat 0 + _ - 1)) by lia.
    replace (Z.of_nat (length l) + Z.of_nat n - 1) with (Z.of_nat (length l) - 1 + 1 * Z.of_nat n) by lia.
    rewrite Z.div_add, Z.div_small by lia. lia.
Qed.

Lemma lookup_chunks p (l : list Z) :
  Z.of_nat p < div_ceil (zlen l) (Z.of_nat n) -> chunks (length l) n l !! p = Some (take n (drop (p * n) l)).
Proof using Hn.
  intros Hp. rewrite <- (Nat.add_0_r p) at 1. rewrite <- lookup_drop, drop_chunks.
  rewrite lt_div_ceil in Hp by lia. unfold zlen in Hp.
  rewrite chunks_cons; [done | | done]. intros H. apply (f_equal length) in H. rewrite length_drop in H. cbn in H. nia.
Qed.

End chunks.

(** ** Trees over the data *)

(** The tree of height [n] over the blocks of [d], padded with zero hashes. *)
Definition padded_leaves (n : nat) (d : list Z) : list Hash := resize (2 ^ n) zero_hash (block_hashes d).
Definition block_tree (n : nat) (d : list Z) : Hash := tree_root n (padded_leaves n d).

(** The bytes under a node of height [k]. *)
Definition span (k : nat) : nat := (2 ^ k * Z.to_nat BLOCK)%nat.

(** The piece layer: the tree of each piece of [2^k] blocks. *)
Definition piece_roots (k : nat) (d : list Z) : list Hash :=
  block_tree k <$> chunks (length d) (span k) d.

Lemma span_pos k : (0 < span k)%nat.
Proof. unfold span. pose proof (pow2_pos k). assert (0 < Z.to_nat BLOCK)%nat by (unfold BLOCK; lia). nia. Qed.

Lemma of_nat_span k : Z.of_nat (span k) = 2 ^ Z.of_nat k * BLOCK.
Proof. unfold span. rewrite Nat2Z.inj_mul, Nat2Z.inj_pow, Z2Nat.id; done. Qed.

Lemma BLOCK_nat_pos : (0 < Z.to_nat BLOCK)%nat.
Proof. unfold BLOCK. lia. Qed.

Lemma length_padded_leaves n d : length (padded_leaves n d) = (2 ^ n)%nat.
Proof. unfold padded_leaves. apply length_resize. Qed.

Lemma drop_block_hashes j d : drop j (block_hashes d) = block_hashes (drop (j * Z.to_nat BLOCK) d).
Proof. unfold block_hashes. rewrite <- fmap_drop, (drop_chunks _ BLOCK_nat_pos). done. Qed.

Lemma take_block_hashes j d : take j (block_hashes d) = block_hashes (take (j * Z.to_nat BLOCK) d).
Proof. unfold block_hashes. rewrite <- fmap_take, (take_chunks _ BLOCK_nat_pos). done. Qed.

(** A node of the whole tree is the tree of the data under it. *)
Lemma node_blocks n k p d :
  (S p * 2 ^ k <= 2 ^ n)%nat -> node (padded_leaves n d) k p = block_tree k (take (span k) (drop (p * span k) d)).
Proof.
  intros Hp. unfold node, block_tree, padded_leaves.
  rewrite drop_resize_le, take_resize_le by (simpl in Hp; lia).
  rewrite <- (resize_take_eq (drop _ _)), drop_block_hashes, take_block_hashes.
  unfold span. by rewrite Nat.mul_assoc.
Qed.

Lemma block_tree_nil k : block_tree k [] = zero_subtree k.
Proof.
  unfold block_tree, padded_leaves. change (block_hashes []) with (@nil Hash). rewrite resize_nil.
  induction k as [| k IH]; [done |]. cbn [tree_root].
  rewrite take_replicate, drop_replicate, pow2_S.
  replace (2 ^ k `min` (2 * 2 ^ k))%nat with (2 ^ k)%nat by lia.
  replace (2 * 2 ^ k - 2 ^ k)%nat with (2 ^ k)%nat by lia. rewrite IH.
  unfold zero_subtree. cbn [Nat.iter nat_rect]. exact (eq_refl _).
Qed.

(** The nodes of height [a] as a layer: the tree over them is the upper part of
    the whole. *)
Lemma node_compose (l : list Hash) a b i p :
  (S p * 2 ^ i <= 2 ^ b)%nat -> node (node l a <$> seq 0 (2 ^ b)) i p = node l (a + i) p.
Proof.
  revert p. induction i as [| i IH]; intros p Hp.
  - rewrite Nat.add_0_r. assert (p < length (node l a <$> seq 0 (2 ^ b)))%nat as Hlt.
    { rewrite length_fmap, length_seq. simpl in Hp. lia. }
    pose proof (node_leaf _ _ Hlt) as H. rewrite list_lookup_fmap, lookup_seq_lt in H by (simpl in Hp; lia).
    simpl in H. congruence.
  - rewrite node_step, !IH by (rewrite pow2_S in Hp; lia). rewrite (Nat.add_succ_r a i). symmetry. apply node_step.
Qed.

(** The padded piece layer is the layer of the whole tree at that height. *)
Lemma piece_layer_nodes k b d :
  div_ceil (zlen d) (Z.of_nat (span k)) <= 2 ^ Z.of_nat b ->
  resize (2 ^ b) (zero_subtree k) (piece_roots k d) = node (padded_leaves (k + b) d) k <$> seq 0 (2 ^ b).
Proof.
  intros Hfit. pose proof (length_chunks_eq (span k) (span_pos k) d) as Hlen.
  assert (length (piece_roots k d) <= 2 ^ b)%nat as Hle.
  { unfold piece_roots. rewrite length_fmap. apply Nat2Z.inj_le. rewrite Nat2Z.inj_pow. unfold zlen at 1 in Hlen. lia. }
  apply list_eq. intros p. destruct (decide (p < 2 ^ b)%nat) as [Hp | Hp].
  2: { rewrite !lookup_ge_None_2; [done | |]; rewrite ?length_resize, ?length_fmap, ?length_seq; lia. }
  rewrite list_lookup_fmap, lookup_seq_lt by done. cbn [fmap option_fmap option_map]. rewrite Nat.add_0_l.
  rewrite node_blocks by (rewrite Nat.pow_add_r; pose proof (pow2_pos k); nia).
  destruct (decide (p < length (piece_roots k d))%nat) as [Hin | Hout].
  - rewrite lookup_resize by lia. unfold piece_roots in *. rewrite length_fmap in Hin.
    rewrite list_lookup_fmap, lookup_chunks; [done | apply span_pos | rewrite <- Hlen; unfold zlen; lia].
  - rewrite lookup_resize_new by lia. f_equal. rewrite drop_ge, take_nil; [by rewrite block_tree_nil |].
    unfold piece_roots in Hout. rewrite length_fmap in Hout. unfold zlen at 1 in Hlen.
    assert (~ Z.of_nat p < div_ceil (zlen d) (Z.of_nat (span k))) as Hge by lia.
    rewrite lt_div_ceil in Hge by (pose proof (span_pos k); lia). unfold zlen in Hge. lia.
Qed.

Lemma piece_layer_root k b d :
  div_ceil (zlen d) (Z.of_nat (span k)) <= 2 ^ Z.of_nat b ->
  tree_root b (resize (2 ^ b) (zero_subtree k) (piece_roots k d)) = block_tree (k + b) d.
Proof.
  intros Hfit. rewrite <- (node_root b) by (by rewrite length_resize).
  rewrite piece_layer_nodes, node_compose by (done || lia). by apply node_root, length_padded_leaves.
Qed.

(** ** Hashing a file *)

Lemma piece_hash_tree k buf :
  zlen buf <= Z.of_nat (span k) -> piece_hash buf (Z.of_nat (span k)) = Some (block_tree k buf).
Proof.
  intros Hfit. rewrite of_nat_span in Hfit. unfold piece_hash.
  rewrite of_nat_span, Z.div_mul by done. apply merkle_root_padded. by apply block_hashes_fit.
Qed.

Lemma read_exact_take bs rest n e :
  0 <= n <= zlen bs ->
  read_exact (mkReader (bs ++ rest) e) n = Ok (take (Z.to_nat n) bs, mkReader (drop (Z.to_nat n) bs ++ rest) e).
Proof.
  intros Hn. pose proof (read_exact_app (take (Z.to_nat n) bs) (drop (Z.to_nat n) bs ++ rest) e) as H.
  rewrite app_assoc, take_drop, zlen_take in H by done. exact H.
Qed.

(** The loop builds the piece layer. *)
Lemma hash_pieces_spec k fuel d rest e acc :
  (length d <= fuel)%nat ->
  hash_pieces fuel (mkReader (d ++ rest) e) (zlen d) (Z.of_nat (span k)) acc = Some (Ok (acc ++ piece_roots k d)).
Proof.
  revert d acc. induction fuel as [| fuel IH]; intros d acc Hd.
  { destruct d; [| simpl in Hd; lia]. cbn. by rewrite app_nil_r. }
  destruct (decide (d = [])) as [-> | Hne]; [cbn; by rewrite app_nil_r |].
  pose proof (span_pos k) as Hs. assert (0 < length d)%nat by (destruct d; [done | simpl; lia]).
  cbn [hash_pieces]. rewrite (proj2 (Z.leb_gt _ _)) by (unfold zlen; lia).
  set (n := Z.min (zlen d) (Z.of_nat (span k))).
  assert (0 < n <= zlen d) as Hn by (unfold n, zlen; lia).
  rewrite read_exact_take by lia.
  rewrite piece_hash_tree by (rewrite zlen_take by lia; unfold n; lia). cbn [mbind option_bind].
  rewrite <- zlen_drop by lia. rewrite IH by (rewrite length_drop; lia).
  assert (take (Z.to_nat n) d = take (span k) d /\ drop (Z.to_nat n) d = drop (span k) d) as [-> ->].
  { unfold n, zlen. destruct (decide (span k <= length d)%nat).
    - rewrite Z.min_r, Nat2Z.id by lia. done.
    - rewrite Z.min_l, Nat2Z.id by lia. rewrite !take_ge, !drop_ge by lia. done. }
  unfold piece_roots. rewrite (chunks_cons (span k) Hs (length d) d) by done. rewrite fmap_cons, <- app_assoc. done.
Qed.

(** The height of a file's tree, and the tree. *)
Definition tree_height (len piece_length : Z) : nat :=
  if len <=? piece_length then trailing_zeros64 (next_power_of_two (div_ceil len BLOCK))
  else file_height len piece_length.

Lemma zlen_block_hashes d : zlen (block_hashes d) = div_ceil (zlen d) BLOCK.
Proof.
  unfold block_hashes. unfold zlen at 1. rewrite length_fmap.
  change (Z.of_nat (length ?l)) with (zlen l). rewrite length_chunks_eq by apply BLOCK_nat_pos. by rewrite Z2Nat.id.
Qed.

Lemma zlen_piece_roots k d : zlen (piece_roots k d) = div_ceil (zlen d) (Z.of_nat (span k)).
Proof.
  unfold piece_roots. unfold zlen at 1. rewrite length_fmap.
  change (Z.of_nat (length ?l)) with (zlen l). apply length_chunks_eq, span_pos.
Qed.

Lemma layer_root k d :
  merkle_root (piece_roots k d) (next_power_of_two (zlen (piece_roots k d))) (layer_pad (Z.of_nat (span k))) =
  Some (block_tree (file_height (zlen d) (Z.of_nat (span k))) d).
Proof.
  destruct (next_power_of_two_spec (zlen (piece_roots k d))) as (b & Hb & Hle & Htz).
  assert (piece_layer (Z.of_nat (span k)) = k) as Hk.
  { unfold piece_layer. rewrite of_nat_span, Z.div_mul by done. apply trailing_zeros64_pow. }
  unfold file_height. rewrite Hk, <- zlen_piece_roots, Htz, Hb.
  rewrite merkle_root_padded.
  - unfold layer_pad. fold (piece_layer (Z.of_nat (span k))). rewrite Hk.
    f_equal. apply piece_layer_root. by rewrite <- zlen_piece_roots.
  - unfold zlen in Hle. apply Nat2Z.inj_le. by rewrite Nat2Z.inj_pow.
Qed.

Lemma hash_file_spec k d rest e :
  let pl := Z.of_nat (span k) in
  0 < zlen d ->
  hash_file (mkReader (d ++ rest) e) (zlen d) pl =
  Some (Ok (mkFileHashes (Some (block_tree (tree_height (zlen d) pl) d))
              (if zlen d <=? pl then [] else piece_roots k d))).
Proof.
  intros pl Hd. unfold hash_file, tree_height. rewrite (proj2 (Z.eqb_neq _ _)) by lia.
  destruct (Z.leb_spec (zlen d) pl) as [Hle | Hgt].
  - rewrite read_exact_app. rewrite zlen_block_hashes.
    destruct (next_power_of_two_spec (div_ceil (zlen d) BLOCK)) as (b & Hb & Hfit & Htz).
    rewrite Htz, Hb, merkle_root_padded; [done |].
    apply Nat2Z.inj_le. change (Z.of_nat (length (block_hashes d))) with (zlen (block_hashes d)).
    by rewrite zlen_block_hashes, Nat2Z.inj_pow.
  - unfold pl. rewrite hash_pieces_spec by (unfold zlen; lia). cbn [mbind option_bind]. rewrite app_nil_l.
    rewrite layer_root. done.
Qed.

(** ** Torrents made from files *)

(** A path and what the file holds. *)
Abbreviation Content := (list (list Z) * list Z)%type.

Definition root_of (piece_length : Z) (d : list Z) : Hash := block_tree (tree_height (zlen d) piece_length) d.

(** The entry of the metadata [hash_file] gives for a file. *)
Definition file_of (piece_length : Z) (c : Content) : V2File :=
  mkV2File c.1 (zlen c.2) (if zlen c.2 =? 0 then None else Some (root_of piece_length c.2)).

(** The layers the metadata carries are the ones of the files. *)
Definition layers_of (k : nat) (cs : list Content) (ls : Layers) : Prop :=
  Forall (fun c : Content => Z.of_nat (span k) < zlen c.2 ->
            bt_get ls (root_of (Z.of_nat (span k)) c.2) = Some (piece_roots k c.2)) cs.

(** The bytes of a piece. *)
Definition piece_data (cs : list Content) (p : V2Piece) : list Z :=
  match cs !! p_file p with
  | Some c => slice c.2 (p_offset p) (p_offset p + p_length p)
  | None => []
  end.

(** The data cut into pieces of [2^k] blocks. *)
Definition pieces_of (k : nat) (d : list Z) : list (list Z) := chunks (length d) (span k) d.

Definition piece_matches (cs : list Content) (p : V2Piece) : Prop :=
  merkle_matches (piece_data cs p) (p_width p) (p_root p) = true.

Lemma matches_tree n d :
  zlen d <= 2 ^ Z.of_nat n * BLOCK -> 2 ^ Z.of_nat n * BLOCK <= u_max 64 ->
  merkle_matches d (2 ^ Z.of_nat n) (block_tree n d) = true.
Proof.
  intros Hfit Hw. unfold merkle_matches. rewrite pow_is_power_of_two, Z.min_l by done. simpl.
  rewrite (proj2 (Z.ltb_ge _ _)) by done. rewrite merkle_root_padded by (by apply block_hashes_fit).
  by apply bool_decide_eq_true.
Qed.

Lemma validate_each_ok k cs ls :
  layers_of k cs ls ->
  validate_each (file_of (Z.of_nat (span k)) <$> cs) ls (Z.of_nat (span k)) = Some (Ok tt).
Proof.
  unfold layers_of. pose proof (span_pos k) as Hs.
  induction 1 as [| c cs Hc Hcs IH]; [done |]. rewrite fmap_cons. cbn [validate_each file_of file_length root].
  destruct (Z.ltb_spec (Z.of_nat (span k)) (zlen c.2)) as [Hgt | Hle]; [| exact IH].
  rewrite (proj2 (Z.eqb_neq (zlen c.2) 0)) by lia. cbn [mbind option_bind].
  rewrite (Hc Hgt), (proj2 (Z.eqb_eq _ _) (zlen_piece_roots k c.2)). cbn [negb].
  rewrite layer_root. cbn [mbind option_bind].
  unfold root_of, tree_height. rewrite (proj2 (Z.leb_gt _ _)) by done. by rewrite bool_decide_true.
Qed.

Lemma slice_tail {A} (d : list A) (n s : nat) :
  slice d (Z.of_nat n) (Z.of_nat n + Z.min (zlen d - Z.of_nat n) (Z.of_nat s)) = take s (drop n d).
Proof.
  unfold slice, zlen. rewrite Nat2Z.id. destruct (decide (n + s <= length d)%nat).
  - f_equal. lia.
  - by rewrite !take_ge by (rewrite length_drop; lia).
Qed.

(** What the plan says of one file's layer, from piece [n] on. *)
Lemma plan_layer_ok k cs index (c : Content) (n m : nat) :
  cs !! index = Some c -> 2 ^ Z.of_nat k * BLOCK < 2 ^ 32 ->
  length (drop (n * span k) c.2) = m -> Z.of_nat (n * span k) <= zlen c.2 ->
  exists ps,
    plan_layer index (zlen c.2) (Z.of_nat (span k)) (Z.of_nat n) (piece_roots k (drop (n * span k) c.2)) = Some ps /\
    Forall (piece_matches cs) ps /\ piece_data cs <$> ps = pieces_of k (drop (n * span k) c.2).
Proof.
  intros Hc H32. revert n. induction (lt_wf m) as [m _ IH]. intros n Hm Hn.
  pose proof (span_pos k) as Hs. set (d := drop (n * span k) c.2) in *.
  destruct (decide (d = [])) as [-> | Hne]; [by exists [] |].
  assert (0 < length d)%nat by (destruct d; [done | simpl; lia]).
  assert (length d = length c.2 - n * span k)%nat as Hld by (unfold d; by rewrite length_drop).
  unfold piece_roots. rewrite (chunks_cons (span k) Hs (length d) d) by done.
  rewrite fmap_cons. cbn [plan_layer]. fold (piece_roots k (drop (span k) d)).
  replace (Z.of_nat n * Z.of_nat (span k)) with (Z.of_nat (n * span k)) by lia.
  rewrite (proj2 (Z.ltb_ge _ _)) by lia.
  set (p := mkV2Piece _ _ _ _ _).
  assert (0 < Z.of_nat (span k) < 2 ^ 32) as Hs32 by (rewrite of_nat_span; rewrite of_nat_span in *; split; [unfold BLOCK; pose proof (Z.pow_pos_nonneg 2 (Z.of_nat k)); lia | done]).
  assert (p_length p = Z.min (zlen c.2 - Z.of_nat (n * span k)) (Z.of_nat (span k))) as Hpl.
  { cbn [p p_length]. unfold wrap. apply Z.mod_small. unfold zlen in *. lia. }
  assert (p_width p = 2 ^ Z.of_nat k) as Hpw.
  { cbn [p p_width]. rewrite of_nat_span, Z.div_mul by done. unfold wrap. apply Z.mod_small.
    rewrite of_nat_span in Hs32. unfold BLOCK in Hs32. pose proof (Z.pow_pos_nonneg 2 (Z.of_nat k)). lia. }
  assert (piece_data cs p = take (span k) d) as Hpd.
  { unfold piece_data. replace (cs !! p_file p) with (Some c) by done. rewrite Hpl. apply slice_tail. }
  assert (piece_matches cs p) as Hpm.
  { unfold piece_matches. rewrite Hpd, Hpw. apply matches_tree.
    - rewrite <- of_nat_span. unfold zlen. rewrite length_take. lia.
    - unfold u_max. lia. }
  destruct (decide (span k <= length d)%nat) as [Hfull | Hlast].
  - assert (drop (span k) d = drop (S n * span k) c.2) as Hnext.
    { unfold d. rewrite drop_drop. f_equal. lia. }
    rewrite Hnext. replace (Z.of_nat n + 1) with (Z.of_nat (S n)) by lia.
    destruct (IH (length (drop (S n * span k) c.2))) with (n := S n) as (ps & -> & Hps & Hcat).
    + rewrite <- Hnext, length_drop. lia.
    + done.
    + unfold zlen in *. lia.
    + exists (p :: ps). split_and!; [done | by constructor |].
      rewrite fmap_cons, Hpd, Hcat. unfold pieces_of. by rewrite (chunks_cons (span k) Hs (length d) d), Hnext by done.
  - rewrite (drop_ge d) by lia. cbn. exists [p]. split_and!; [done | by constructor |].
    unfold pieces_of. rewrite (chunks_cons (span k) Hs (length d) d), (drop_ge d) by (done || lia). cbn. by rewrite Hpd.
Qed.

Lemma next_power_of_two_le z k : z <= 2 ^ Z.of_nat k -> next_power_of_two z <= 2 ^ Z.of_nat k.
Proof.
  intros Hz. unfold next_power_of_two. pose proof (Z.pow_pos_nonneg 2 (Z.of_nat k)).
  destruct (Z.leb_spec z 1); [lia |]. apply Z.pow_le_mono_r; [lia |]. apply Z.log2_up_le_pow2; lia.
Qed.

Lemma div_ceil_le len b n : 0 < b -> div_ceil len b <= n <-> len <= n * b.
Proof. intros Hb. pose proof (lt_div_ceil n len b Hb). lia. Qed.

(** A file no longer than a piece is one piece, checked against its root. *)
Lemma single_piece_ok k cs index (c : Content) :
  cs !! index = Some c -> 2 ^ Z.of_nat k * BLOCK < 2 ^ 32 -> zlen c.2 <= Z.of_nat (span k) ->
  let p := mkV2Piece index 0 (wrap 32 (zlen c.2)) (root_of (Z.of_nat (span k)) c.2)
             (wrap 32 (next_power_of_two (div_ceil (zlen c.2) BLOCK))) in
  piece_matches cs p /\ piece_data cs p = c.2.
Proof.
  intros Hc H32 Hle p. rewrite of_nat_span in *. pose proof (zlen_nonneg c.2).
  destruct (next_power_of_two_spec (div_ceil (zlen c.2) BLOCK)) as (b & Hb & Hfit & Htz).
  assert (next_power_of_two (div_ceil (zlen c.2) BLOCK) <= 2 ^ Z.of_nat k) as Hbk.
  { apply next_power_of_two_le. apply div_ceil_le; done. }
  rewrite Hb in Hbk. apply div_ceil_le in Hfit; [| done]. pose proof (Z.pow_pos_nonneg 2 (Z.of_nat b)).
  assert (piece_data cs p = c.2) as Hpd.
  { unfold piece_data. replace (cs !! p_file p) with (Some c) by done. cbn [p p_offset p_length].
    unfold wrap. rewrite Z.mod_small by lia. unfold slice, zlen. rewrite drop_0. apply take_ge. lia. }
  split; [| done]. unfold piece_matches. rewrite Hpd. cbn [p p_width p_root].
  unfold root_of, tree_height. rewrite (proj2 (Z.leb_le _ _)) by (by rewrite ?of_nat_span). rewrite Htz, Hb.
  unfold wrap. rewrite Z.mod_small by (unfold BLOCK in *; lia). apply matches_tree; [done |].
  unfold u_max. unfold BLOCK in *. lia.
Qed.

(** The pieces of a torrent: those of its files, in order; none spans two. *)
Definition torrent_pieces (k : nat) (cs : list Content) : list (list Z) := concat ((fun c : Content => pieces_of k c.2) <$> cs).

Lemma pieces_of_short k d : d <> [] -> zlen d <= Z.of_nat (span k) -> pieces_of k d = [d].
Proof.
  intros Hne Hle. unfold zlen in Hle. unfold pieces_of.
  rewrite (chunks_cons (span k) (span_pos k) (length d) d), take_ge, drop_ge by (done || lia). done.
Qed.

Lemma plan_from_ok k cs pre rest ls :
  cs = pre ++ rest -> 2 ^ Z.of_nat k * BLOCK < 2 ^ 32 -> layers_of k rest ls ->
  exists ps, plan_from (length pre) (file_of (Z.of_nat (span k)) <$> rest) ls (Z.of_nat (span k)) = Some (Some ps) /\
    Forall (piece_matches cs) ps /\ piece_data cs <$> ps = torrent_pieces k rest.
Proof.
  intros Hcs H32 Hls. revert pre Hcs. induction Hls as [| c rest Hc Hrest IH]; intros pre Hcs; [by exists [] |].
  assert (cs !! length pre = Some c) as Hlook by (rewrite Hcs; by apply list_lookup_middle).
  destruct (IH (pre ++ [c])) as (qs & Hqs & Hqm & Hqd); [by rewrite <- app_assoc |].
  rewrite length_app, Nat.add_1_r in Hqs. rewrite fmap_cons. cbn [plan_from file_of file_length root].
  unfold torrent_pieces. rewrite fmap_cons. cbn [concat]. fold (torrent_pieces k rest).
  destruct (Z.eqb_spec (zlen c.2) 0) as [H0 | Hne].
  { apply zlen_0_nil in H0. rewrite H0, Hqs. by exists qs. }
  destruct (Z.leb_spec (zlen c.2) (Z.of_nat (span k))) as [Hle | Hgt].
  - destruct (single_piece_ok k cs _ c Hlook H32 Hle) as [Hpm Hpd]. rewrite Hqs. eexists. split; [done |].
    split; [by apply Forall_cons |]. rewrite fmap_app, Hqd. f_equal. cbn. rewrite Hpd.
    rewrite pieces_of_short; [done | intros H; by rewrite H in Hne | done].
  - rewrite (Hc Hgt). destruct (plan_layer_ok k cs (length pre) c 0 _ Hlook H32 eq_refl) as (ps & Hps & Hpm & Hpd).
    { pose proof (zlen_nonneg c.2). lia. }
    rewrite Nat.mul_0_l, drop_0 in Hps, Hpd. change (Z.of_nat 0) with 0 in Hps. rewrite Hps. cbn [mbind option_bind].
    rewrite Hqs. eexists. split; [done |]. split; [by apply Forall_app |].
    by rewrite fmap_app, Hpd, Hqd.
Qed.

(** ** Answers *)

Lemma layers_from_lengths n fuel l ls j lv :
  length l = (2 ^ n)%nat -> layers_from fuel l = Some ls -> ls !! j = Some lv -> length lv = (2 ^ (n - j))%nat.
Proof.
  revert fuel l ls j. induction n as [| n IH]; intros fuel l ls j Hl Hls Hj.
  - assert (ls = [l]) as -> by (destruct fuel; simpl in Hls; rewrite Hl in Hls; by injection Hls as <-).
    destruct j; [by injection Hj as <- | done].
  - pose proof (pow2_pos n). destruct fuel as [| fuel]; cbn [layers_from] in Hls;
      rewrite (proj2 (Nat.leb_gt _ _)) in Hls by (rewrite Hl, pow2_S; lia); [done |].
    destruct (next_level_total (2 ^ n) l) as (l' & Hnext & Hl'); [done |]. rewrite Hnext in Hls. cbn in Hls.
    destruct (layers_from fuel l') as [above |] eqn:Ha; [| done]. injection Hls as <-.
    destruct j as [| j]; [by injection Hj as <- |]. exact (IH fuel l' above j Hl' Ha Hj).
Qed.

(** Layer [j] above the piece layer, as the nodes of the file's tree. *)
Lemma upper_layer_nodes k b d j :
  div_ceil (zlen d) (Z.of_nat (span k)) <= 2 ^ Z.of_nat b -> (j <= b)%nat ->
  exists ls, upper_layers (piece_roots k d) k (k + b) = Some ls /\
    ls !! j = Some (node (padded_leaves (k + b) d) (k + j) <$> seq 0 (2 ^ (b - j))).
Proof.
  intros Hfit Hj. unfold upper_layers. replace (k + b - k)%nat with b by lia.
  rewrite piece_layer_nodes by done. set (full := node _ k <$> _).
  assert (length full = (2 ^ b)%nat) as Hfull by (unfold full; by rewrite length_fmap, length_seq).
  destruct (layers_from_nodes b (length full) full Hfull) as (ls & Hls & Hn); [rewrite Hfull; apply log2_lt_pow |].
  exists ls. split; [done |]. destruct (Hn j 0%nat Hj) as (lv & Hlv & _); [apply pow2_pos |]. rewrite Hlv. f_equal.
  pose proof (layers_from_lengths b _ full ls j lv Hfull Hls Hlv) as Hlen.
  apply list_eq. intros p. destruct (decide (p < 2 ^ (b - j))%nat) as [Hp | Hp].
  - destruct (Hn j p Hj Hp) as (lv' & Hlv' & Hnode). rewrite Hlv in Hlv'. injection Hlv' as <-.
    rewrite Hnode, list_lookup_fmap, lookup_seq_lt by done. cbn [fmap option_fmap option_map]. f_equal.
    unfold full. apply node_compose. assert (2 ^ b = 2 ^ (b - j) * 2 ^ j)%nat as Hpow.
    { rewrite <- Nat.pow_add_r. f_equal. lia. }
    pose proof (pow2_pos j). nia.
  - rewrite !lookup_ge_None_2; [done | |]; rewrite ?Hlen, ?length_fmap, ?length_seq; lia.
Qed.

(** The height of a file of several pieces: the pieces', and what is above. *)
Lemma file_height_split k len :
  exists b, file_height len (Z.of_nat (span k)) = (k + b)%nat /\
    div_ceil len (Z.of_nat (span k)) <= 2 ^ Z.of_nat b.
Proof.
  destruct (next_power_of_two_spec (div_ceil len (Z.of_nat (span k)))) as (b & _ & Hle & Htz).
  exists b. split; [| done]. unfold file_height, piece_layer.
  by rewrite Htz, of_nat_span, Z.div_mul, trailing_zeros64_pow by done.
Qed.

Lemma piece_layer_span k : piece_layer (Z.of_nat (span k)) = k.
Proof. unfold piece_layer. by rewrite of_nat_span, Z.div_mul, trailing_zeros64_pow by done. Qed.

Lemma piece_roots_cons k d : Z.of_nat (span k) < zlen d -> exists h hs, piece_roots k d = h :: hs.
Proof.
  intros Hd. pose proof (zlen_piece_roots k d) as Hl. destruct (piece_roots k d) as [| h hs]; [| by exists h, hs].
  exfalso. pose proof (proj2 (lt_div_ceil 0 (zlen d) (Z.of_nat (span k)) ltac:(pose proof (span_pos k); lia))).
  rewrite zlen_nil in Hl. lia.
Qed.

(** Layer [base] of the file's tree, whichever way the source gets it. *)
Lemma answer_layer k b d base index len proof_layers :
  div_ceil (zlen d) (Z.of_nat (span k)) <= 2 ^ Z.of_nat b ->
  (k <= base < k + b)%nat -> 0 <= index -> index + len < 2 ^ 32 ->
  range_refused base (k + b) index len = false -> (k + b - base <= S proof_layers)%nat ->
  let lv := node (padded_leaves (k + b) d) base <$> seq 0 (2 ^ (k + b - base)) in
  exists hr, hash_range lv base (k + b) index len proof_layers = Some hr /\
    hashes hr = slice lv index (index + len) /\
    verify_range (block_tree (k + b) d) base (k + b) index (hashes hr) (uncles hr) proof_layers = true.
Proof.
  intros Hfit Hbase Hidx H32 Hguard Hproof lv.
  assert (length lv = (2 ^ (k + b - base))%nat) as Hlen by (unfold lv; by rewrite length_fmap, length_seq).
  destruct (hash_range_answers lv base (k + b) index len proof_layers) as (hr & Hhr & Hhs & Hv);
    [done | done | done | lia | done |].
  rewrite resize_all_alt in Hhs, Hv by done. exists hr. split_and!; [done | done |].
  replace (block_tree (k + b) d) with (tree_root (k + b - base) lv); [done |].
  rewrite <- (node_root _ lv Hlen). unfold lv. rewrite node_compose by lia.
  replace (base + (k + b - base))%nat with (k + b)%nat by lia. apply node_root, length_padded_leaves.
Qed.

(** What a source knows of a file with the contents [d]. *)
Definition source_of (k : nat) (s : HashSource) (d : list Z) (first : Z) : Prop :=
  s_piece_length s = Z.of_nat (span k) /\
  bt_get (s_files s) (root_of (Z.of_nat (span k)) d) =
    Some (mkSourceFile (zlen d) first (if Z.of_nat (span k) <? zlen d then piece_roots k d else [])).

Lemma answer_spec k s d first base index len proof_layers :
  source_of k s d first -> Z.of_nat (span k) < zlen d ->
  let height := file_height (zlen d) (Z.of_nat (span k)) in
  (k <= base)%nat -> len <= MAX_HASHES_PER_REQUEST -> 0 <= index -> index + len < 2 ^ 32 ->
  range_refused base height index len = false -> (height - base <= S proof_layers)%nat ->
  exists hr, answer s (root_of (Z.of_nat (span k)) d) base index len proof_layers = Some hr /\
    hashes hr = slice (node (padded_leaves height d) base <$> seq 0 (2 ^ (height - base))) index (index + len) /\
    verify_range (root_of (Z.of_nat (span k)) d) base height index (hashes hr) (uncles hr) proof_layers = true.
Proof.
  intros [Hpl Hget] Hd height Hbase Hmax Hidx H32 Hguard Hproof.
  assert (base < height)%nat as Hlt by (unfold range_refused in Hguard; bool_to_prop; by apply Nat.leb_gt).
  unfold answer. rewrite Hget, (proj2 (Z.ltb_lt _ _) Hd), Hpl. cbn [mbind option_bind s_layer s_length]. fold height.
  destruct (piece_roots_cons k d Hd) as (h & hs & Hcons).
  assert (forall A (x y : A), match piece_roots k d with [] => x | _ => y end = y) as Hm by (intros; by rewrite Hcons).
  rewrite Hm. clear Hm.
  rewrite piece_layer_span, (proj2 (Nat.ltb_ge _ _) Hbase), (proj2 (Z.ltb_ge _ _) Hmax), (proj2 (Nat.leb_gt _ _) Hlt).
  cbn [orb]. unfold root_of, tree_height. rewrite (proj2 (Z.leb_gt _ _) Hd). fold height.
  destruct (file_height_split k (zlen d)) as (b & Hb & Hfit). fold height in Hb.
  rewrite Hb in *. destruct (answer_layer k b d base index len proof_layers) as (hr & Hhr & Hhs & Hv); [done | lia | done.. |].
  exists hr. split_and!; [| done | done]. destruct (Nat.eqb_spec base k) as [-> | Hne].
  - rewrite <- Hhr. unfold hash_range. rewrite Hguard.
    assert (length (piece_roots k d) <= 2 ^ b)%nat as Hle.
    { apply Nat2Z.inj_le. change (Z.of_nat (length ?l)) with (zlen l). by rewrite zlen_piece_roots, Nat2Z.inj_pow. }
    unfold upper_layers. rewrite length_fmap, length_seq. replace (k + b - k)%nat with b by lia.
    rewrite !(proj2 (Nat.ltb_ge _ _)) by lia. rewrite <- piece_layer_nodes by done. by rewrite resize_idemp.
  - destruct (upper_layer_nodes k b d (base - k) Hfit ltac:(lia)) as (ls & -> & Hls). cbn [mbind option_bind].
    rewrite Hls. cbn [mbind option_bind]. replace (k + (base - k))%nat with base by lia.
    replace (b - (base - k))%nat with (k + b - base)%nat by lia. exact Hhr.
Qed.

(** ** Answers from the data *)

Section leaves.
Context (read_piece : Z -> option (list Z)) (k h : nat) (d : list Z) (file : SourceFile).

(** The bytes of piece [p] of the file. *)
Definition nth_piece (p : nat) : list Z := take (span k) (drop (p * span k) d).

(** The store has the pieces of the file where the source numbers them. *)
Definition has_pieces : Prop :=
  0 <= first_piece file /\ first_piece file + div_ceil (zlen d) (Z.of_nat (span k)) <= u_max 32 /\
  forall p : nat, Z.of_nat p < div_ceil (zlen d) (Z.of_nat (span k)) ->
    read_piece (first_piece file + Z.of_nat p) = Some (nth_piece p).

(** What is cached is the hashes of the blocks of the piece it says. *)
Definition cache_ok (cache : option (Z * list Hash)) : Prop :=
  match cache with
  | None => True
  | Some (p, hs) => exists n : nat, p = Z.of_nat n /\ hs = block_hashes (nth_piece n)
  end.

Context (Hhas : has_pieces) (Hfit : div_ceil (zlen d) BLOCK <= 2 ^ Z.of_nat h).

Lemma nth_piece_blocks p : block_hashes (nth_piece p) = take (2 ^ k) (drop (p * 2 ^ k) (block_hashes d)).
Proof using Type.
  unfold nth_piece. rewrite drop_block_hashes, take_block_hashes. unfold span. by rewrite Nat.mul_assoc.
Qed.

Lemma leaf_block cache (n : nat) :
  cache_ok cache -> (n < 2 ^ h)%nat ->
  exists cache', cache_ok cache' /\
    leaf read_piece file (div_ceil (zlen d) BLOCK) (2 ^ Z.of_nat k) cache (Z.of_nat n) =
    Some (node (padded_leaves h d) 0 n, cache').
Proof using Hhas Hfit.
  intros Hcache Hn. unfold leaf.
  assert (padded_leaves h d !! n = Some (node (padded_leaves h d) 0 n)) as Hnode
    by (apply node_leaf; by rewrite length_padded_leaves).
  pose proof (zlen_block_hashes d) as Hbl. unfold zlen at 1 in Hbl.
  destruct (Z.leb_spec (div_ceil (zlen d) BLOCK) (Z.of_nat n)) as [Hpad | Hin].
  { exists cache. split; [done |]. unfold padded_leaves in Hnode at 1. rewrite lookup_resize_new in Hnode by lia. congruence. }
  unfold padded_leaves in Hnode at 1. rewrite lookup_resize in Hnode by lia.
  pose proof (pow2_pos k) as Hk. set (p := (n / 2 ^ k)%nat).
  assert (Z.of_nat n / 2 ^ Z.of_nat k = Z.of_nat p) as ->.
  { unfold p. by rewrite Nat2Z.inj_div, Nat2Z.inj_pow. }
  assert (Z.of_nat n mod 2 ^ Z.of_nat k = Z.of_nat (n mod 2 ^ k)) as -> by (by rewrite Nat2Z.inj_mod, Nat2Z.inj_pow).
  assert (zget (block_hashes (nth_piece p)) (Z.of_nat (n mod 2 ^ k)) = Some (node (padded_leaves h d) 0 n)) as Hget.
  { rewrite zget_nat, Nat2Z.id, nth_piece_blocks by lia.
    rewrite lookup_take_lt by (apply Nat.mod_upper_bound; lia). rewrite lookup_drop, <- Hnode. f_equal.
    unfold p. rewrite Nat.mul_comm. symmetry. apply Nat.div_mod. lia. }
  assert (exists held, (if bool_decide (fst <$> cache = Some (Z.of_nat p)) then cache
            else number ← u_checked_add 32 (first_piece file) (wrap 32 (Z.of_nat p));
                 data ← read_piece number; Some (Z.of_nat p, block_hashes data)) = Some held /\
          held = (Z.of_nat p, block_hashes (nth_piece p))) as (held & -> & ->).
  { case_bool_decide as Hheld.
    - destruct cache as [[q hs] |]; [| done]. injection Hheld as ->.
      destruct Hcache as (m & Hm & ->). apply Nat2Z.inj in Hm as <-. by eexists.
    - destruct Hhas as (H0 & Hmax & Hread).
      assert (Z.of_nat p < div_ceil (zlen d) (Z.of_nat (span k))) as Hp.
      { apply lt_div_ceil; [pose proof (span_pos k); lia |]. apply lt_div_ceil in Hin; [| done].
        assert (p * 2 ^ k <= n)%nat by (unfold p; rewrite Nat.mul_comm; apply Nat.mul_div_le; lia).
        rewrite of_nat_span. unfold BLOCK in *.
        replace (2 ^ Z.of_nat k) with (Z.of_nat (2 ^ k)) by (by rewrite Nat2Z.inj_pow). nia. }
      unfold u_max in Hmax. unfold wrap. rewrite Z.mod_small by lia. unfold u_checked_add.
      rewrite (proj2 (Z.leb_le _ _)) by (unfold u_max; lia). cbn [mbind option_bind].
      rewrite (Hread p Hp). cbn [mbind option_bind]. by eexists. }
  cbn [mbind option_bind snd]. rewrite Hget. cbn [mbind option_bind].
  eexists. split; [| done]. by exists p.
Qed.

Lemma leaves_from_blocks cache (first n : nat) :
  cache_ok cache -> (first + n <= 2 ^ h)%nat ->
  exists cache', cache_ok cache' /\
    leaves_from read_piece file (div_ceil (zlen d) BLOCK) (2 ^ Z.of_nat k) cache (Z.of_nat first) n =
    Some (take n (drop first (padded_leaves h d)), cache').
Proof using Hhas Hfit.
  revert cache first. induction n as [| n IH]; intros cache first Hc Hn; [by exists cache |].
  cbn [leaves_from]. destruct (leaf_block cache first Hc ltac:(lia)) as (c1 & Hc1 & ->). cbn [mbind option_bind].
  replace (Z.of_nat first + 1) with (Z.of_nat (S first)) by lia.
  destruct (IH c1 (S first) Hc1 ltac:(lia)) as (c2 & Hc2 & ->). cbn [mbind option_bind]. exists c2. split; [done |].
  do 2 f_equal. rewrite (drop_S (padded_leaves h d) (node (padded_leaves h d) 0 first) first); [done |].
  apply node_leaf. rewrite length_padded_leaves. lia.
Qed.

(** The tree above the pieces, where there is one, holds the nodes of the file's tree. *)
Definition tree_ok (pieces_tree : option (list (list Hash))) : Prop :=
  match pieces_tree with
  | None => True
  | Some tree => (k <= h)%nat /\ forall j, (k <= j <= h)%nat ->
      tree !! (j - k)%nat = Some (node (padded_leaves h d) j <$> seq 0 (2 ^ (h - j)))
  end.

Lemma leaf_uncles_nodes pieces_tree (idx : nat) cache js :
  tree_ok pieces_tree -> (idx < 2 ^ h)%nat -> cache_ok cache -> Forall (fun j => j < h)%nat js ->
  leaf_uncles read_piece file (div_ceil (zlen d) BLOCK) (2 ^ Z.of_nat k) k pieces_tree (Z.of_nat idx) cache js =
  Some ((fun j => node (padded_leaves h d) j (sibling (idx / 2 ^ j))) <$> js).
Proof using Hhas Hfit.
  intros Htree Hidx Hcache Hjs. revert cache Hcache. induction Hjs as [| j js Hj Hjs IH]; intros cache Hcache; [done |].
  cbn [leaf_uncles]. rewrite shiftr_div, lxor_1_sibling. set (sib := sibling (idx / 2 ^ j)).
  assert (sib < 2 ^ (h - j))%nat as Hsib.
  { unfold sib. replace (h - j)%nat with (S (h - j - 1)) by lia. apply sibling_lt.
    apply Nat.Div0.div_lt_upper_bound. rewrite <- Nat.pow_add_r. by replace (j + S (h - j - 1))%nat with h by lia. }
  assert (2 ^ h = 2 ^ (h - j) * 2 ^ j)%nat as Hpow by (rewrite <- Nat.pow_add_r; f_equal; lia).
  assert (exists cache', cache_ok cache' /\
    ('(hs, c) ← leaves_from read_piece file (div_ceil (zlen d) BLOCK) (2 ^ Z.of_nat k) cache
                 (Z.shiftl (Z.of_nat sib) (Z.of_nat j)) (2 ^ j);
     x ← merkle_root hs (zlen hs) zero_hash; Some (x, c)) = Some (node (padded_leaves h d) j sib, cache')) as Hleaves.
  { rewrite Z.shiftl_mul_pow2 by lia.
    replace (Z.of_nat sib * 2 ^ Z.of_nat j) with (Z.of_nat (sib * 2 ^ j)) by (by rewrite Nat2Z.inj_mul, Nat2Z.inj_pow).
    destruct (leaves_from_blocks cache (sib * 2 ^ j) (2 ^ j) Hcache ltac:(nia)) as (c' & Hc' & ->).
    cbn [mbind option_bind]. exists c'. split; [done |].
    assert (length (take (2 ^ j) (drop (sib * 2 ^ j) (padded_leaves h d))) = (2 ^ j)%nat) as Hlen.
    { rewrite length_take, length_drop, length_padded_leaves. nia. }
    unfold zlen. rewrite Hlen, Nat2Z.inj_pow, merkle_root_full by done. done. }
  assert (exists cache', cache_ok cache' /\
    match pieces_tree with
    | Some tree =>
        if (k <=? j)%nat then level ← tree !! (j - k)%nat; x ← zget level (Z.of_nat sib); Some (x, cache)
        else '(hs, c) ← leaves_from read_piece file (div_ceil (zlen d) BLOCK) (2 ^ Z.of_nat k) cache
                 (Z.shiftl (Z.of_nat sib) (Z.of_nat j)) (2 ^ j);
             x ← merkle_root hs (zlen hs) zero_hash; Some (x, c)
    | None => '(hs, c) ← leaves_from read_piece file (div_ceil (zlen d) BLOCK) (2 ^ Z.of_nat k) cache
                 (Z.shiftl (Z.of_nat sib) (Z.of_nat j)) (2 ^ j);
             x ← merkle_root hs (zlen hs) zero_hash; Some (x, c)
    end = Some (node (padded_leaves h d) j sib, cache')) as (c' & Hc' & ->).
  { destruct pieces_tree as [tree |]; [| exact Hleaves]. destruct (Nat.leb_spec k j); [| exact Hleaves].
    destruct Htree as [_ Htree]. rewrite (Htree j) by lia. cbn [mbind option_bind].
    rewrite zget_nat, Nat2Z.id, list_lookup_fmap, lookup_seq_lt by lia. cbn. by exists cache. }
  cbn [mbind option_bind]. rewrite (IH c' Hc'). done.
Qed.

End leaves.

Lemma tree_height_fits k (d : list Z) :
  div_ceil (zlen d) BLOCK <= 2 ^ Z.of_nat (tree_height (zlen d) (Z.of_nat (span k))).
Proof.
  unfold tree_height. destruct (Z.leb _ _).
  - destruct (next_power_of_two_spec (div_ceil (zlen d) BLOCK)) as (b & _ & Hle & ->). done.
  - destruct (file_height_split k (zlen d)) as (b & -> & Hle). rewrite div_ceil_le in Hle by (pose proof (span_pos k); lia).
    apply div_ceil_le; [done |]. rewrite of_nat_span in Hle. rewrite Nat2Z.inj_add, Z.pow_add_r by lia. lia.
Qed.

Lemma upper_layers_tree_ok k b d :
  div_ceil (zlen d) (Z.of_nat (span k)) <= 2 ^ Z.of_nat b ->
  exists ls, upper_layers (piece_roots k d) k (k + b) = Some ls /\ tree_ok k (k + b) d (Some ls).
Proof.
  intros Hfit. destruct (upper_layer_nodes k b d 0 Hfit ltac:(lia)) as (ls & Hls & _). exists ls. split; [done |].
  split; [lia |]. intros j Hj. destruct (upper_layer_nodes k b d (j - k) Hfit ltac:(lia)) as (ls' & Hls' & Hlv).
  rewrite Hls in Hls'. injection Hls' as <-. replace (k + (j - k))%nat with j in Hlv by lia.
  by replace (b - (j - k))%nat with (k + b - j)%nat in Hlv by lia.
Qed.

Lemma answer_leaves_spec read_piece k s d first index len proof_layers :
  source_of k s d first ->
  has_pieces read_piece k d (mkSourceFile (zlen d) first (if Z.of_nat (span k) <? zlen d then piece_roots k d else [])) ->
  let height := tree_height (zlen d) (Z.of_nat (span k)) in
  len <= MAX_HASHES_PER_REQUEST -> 0 <= index ->
  range_refused 0 height index len = false -> (height <= S proof_layers)%nat ->
  exists hr, answer_leaves read_piece s (root_of (Z.of_nat (span k)) d) index len proof_layers = Some hr /\
    hashes hr = slice (padded_leaves height d) index (index + len) /\
    verify_range (root_of (Z.of_nat (span k)) d) 0 height index (hashes hr) (uncles hr) proof_layers = true.
Proof.
  intros [Hpl Hget] Hhas height Hmax Hidx Hguard Hproof.
  destruct (range_accepted 0 height index len Hidx Hguard) as (Hh & Hlen & Hm & p & Hp & Hin).
  rewrite Nat.sub_0_r in *. set (m := trailing_zeros len) in *.
  pose proof (tree_height_fits k d) as Hfit. fold height in Hfit.
  unfold answer_leaves. rewrite Hget, Hpl. cbn [mbind option_bind s_layer s_length].
  assert (match (if Z.of_nat (span k) <? zlen d then piece_roots k d else []) with [] => true | _ => false end =
          (zlen d <=? Z.of_nat (span k))) as ->.
  { destruct (Z.ltb_spec (Z.of_nat (span k)) (zlen d)) as [Hgt | Hle].
    - destruct (piece_roots_cons k d Hgt) as (h & hs & ->). symmetry. by apply Z.leb_gt.
    - symmetry. by apply Z.leb_le. }
  fold (tree_height (zlen d) (Z.of_nat (span k))). fold height.
  unfold range_refused in Hguard. rewrite Nat.sub_0_r in Hguard.
  assert ((height =? 0)%nat = false) as -> by (apply Nat.eqb_neq; lia).
  assert ((MAX_HASHES_PER_REQUEST <? len) = false) as -> by (by apply Z.ltb_ge).
  apply orb_false_iff in Hguard as [Hg1 Hg2]. apply orb_false_iff in Hg1 as [Hg1 Hg3].
  apply orb_false_iff in Hg1 as [Hg1 Hg4]. apply orb_false_iff in Hg1 as [Hg0 Hg5].
  rewrite Hg2, Hg3, Hg4, Hg5. cbn [orb].
  rewrite piece_layer_span. replace (Z.of_nat (span k) / BLOCK) with (2 ^ Z.of_nat k) by (by rewrite of_nat_span, Z.div_mul).
  assert (Z.to_nat len = (2 ^ m)%nat) as Hnat by (rewrite Hlen, <- (Nat2Z.id (2 ^ m)); f_equal; by rewrite Nat2Z.inj_pow).
  rewrite Hnat, Hp.
  destruct (leaves_from_blocks read_piece k height d _ Hhas Hfit None (p * 2 ^ m) (2 ^ m)) as (c1 & Hc1 & ->); [done | lia |].
  cbn [mbind option_bind].
  assert (exists t, (if zlen d <=? Z.of_nat (span k) then Some None
            else ls ← upper_layers (if Z.of_nat (span k) <? zlen d then piece_roots k d else []) k height; Some (Some ls)) = Some t
          /\ tree_ok k height d t) as (t & -> & Ht).
  { destruct (Z.leb_spec (zlen d) (Z.of_nat (span k))) as [Hle | Hgt]; [by exists None |].
    rewrite (proj2 (Z.ltb_lt _ _)) by done. unfold height, tree_height. rewrite (proj2 (Z.leb_gt _ _)) by done.
    destruct (file_height_split k (zlen d)) as (b & -> & Hb). destruct (upper_layers_tree_ok k b d Hb) as (ls & -> & Hls).
    by exists (Some ls). }
  cbn [mbind option_bind]. change (trailing_zeros len) with m. rewrite proof_steps_seq, Nat.sub_0_r by lia.
  replace (Nat.min (S proof_layers - m) (height - m)) with (height - m)%nat by lia.
  rewrite (leaf_uncles_nodes read_piece k height d _ Hhas Hfit); [| done | pose proof (pow2_pos m); nia | done |].
  2: { apply Forall_forall. intros j [? ?]%elem_of_seq. lia. }
  cbn [mbind option_bind]. eexists. split; [done |]. cbn [hashes uncles].
  rewrite Hlen, slice_range. split; [done |].
  rewrite <- slice_range, <- Hlen, <- Hp. fold (range_uncles (padded_leaves height d) height m p).
  unfold root_of. fold height. unfold block_tree.
  pose proof (nodes_verify (padded_leaves height d) 0 height index len proof_layers p) as Hv.
  rewrite Nat.sub_0_r in Hv. apply Hv; try done.
  - unfold range_refused. rewrite Nat.sub_0_r, Hg0, Hg2, Hg3, Hg4, Hg5. done.
  - unfold MAX_HASHES_PER_REQUEST in Hmax. lia.
  - by rewrite length_padded_leaves.
Qed.

(** ** The source a torrent's files give *)

Section source.
Context (k : nat) (cs : list Content) (ls : Layers).

Abbreviation pl := (Z.of_nat (span k)).

(** The pieces of the torrent by their number. *)
Definition piece_store (n : Z) : option (list Z) := zget (torrent_pieces k cs) n.

(** Files with one root have one content. *)
Definition roots_distinct : Prop :=
  forall c c' : Content, c ∈ cs -> c' ∈ cs -> c.2 <> [] -> c'.2 <> [] -> root_of pl c.2 = root_of pl c'.2 -> c.2 = c'.2.

Definition entry_of (d : list Z) (first : Z) : SourceFile :=
  mkSourceFile (zlen d) first (if pl <? zlen d then piece_roots k d else []).

(** The sources collected from the files so far. *)
Definition sources_ok (pre : list Content) (sources : list (Hash * SourceFile)) : Prop :=
  bt_sorted sources /\
  forall c : Content, c ∈ pre -> c.2 <> [] -> exists first,
    bt_get sources (root_of pl c.2) = Some (entry_of c.2 first) /\ has_pieces piece_store k c.2 (entry_of c.2 first).

Context (Hroots : roots_distinct) (Hls : layers_of k cs ls) (Hmany : zlen (torrent_pieces k cs) <= u_max 32).

Lemma zlen_pieces_of d : zlen (pieces_of k d) = div_ceil (zlen d) pl.
Proof using Type. apply length_chunks_eq, span_pos. Qed.

Lemma torrent_pieces_app pre rest : torrent_pieces k (pre ++ rest) = torrent_pieces k pre ++ torrent_pieces k rest.
Proof using Type. unfold torrent_pieces. by rewrite fmap_app, concat_app. Qed.

Lemma torrent_pieces_cons (c : Content) rest : torrent_pieces k (c :: rest) = pieces_of k c.2 ++ torrent_pieces k rest.
Proof using Type. done. Qed.

(** A file's pieces are numbered from the count of those before it. *)
Lemma numbered pre (c : Content) rest :
  cs = pre ++ c :: rest -> has_pieces piece_store k c.2 (entry_of c.2 (zlen (torrent_pieces k pre))).
Proof using Hmany.
  intros Hcs. rewrite Hcs, torrent_pieces_app, torrent_pieces_cons, !zlen_app, zlen_pieces_of in Hmany.
  unfold entry_of. split; [apply zlen_nonneg |].
  pose proof (zlen_nonneg (torrent_pieces k rest)). split; [cbn [first_piece]; lia |].
  intros p Hp. cbn [first_piece]. unfold piece_store. rewrite Hcs, torrent_pieces_app, torrent_pieces_cons.
  pose proof (zlen_nonneg (torrent_pieces k pre)).
  rewrite zget_app, (proj2 (Z.ltb_ge _ _)) by lia. replace (_ + _ - _) with (Z.of_nat p) by lia.
  rewrite zget_app, (proj2 (Z.ltb_lt _ _)) by (rewrite ?zlen_pieces_of; lia).
  rewrite zget_nat, Nat2Z.id by lia. unfold pieces_of, nth_piece. by apply lookup_chunks; [apply span_pos |].
Qed.

Lemma collect_sources_ok pre rest sources :
  cs = pre ++ rest -> sources_ok pre sources ->
  exists sources', collect_sources (file_of pl <$> rest) ls pl (zlen (torrent_pieces k pre)) sources = Some sources' /\
    sources_ok cs sources'.
Proof using Hroots Hls Hmany.
  revert pre sources. induction rest as [| c rest IH]; intros pre sources Hcs Hsrc.
  { exists sources. split; [done |]. by rewrite Hcs, app_nil_r. }
  assert (c ∈ cs) as Hin by (rewrite Hcs, elem_of_app; right; by left).
  assert (cs = (pre ++ [c]) ++ rest) as Hcs' by (by rewrite <- app_assoc).
  rewrite fmap_cons. cbn [collect_sources file_of root file_length]. pose proof (span_pos k) as Hs.
  destruct (Z.eqb_spec (zlen c.2) 0) as [H0 | Hne].
  { apply zlen_0_nil in H0.
    replace (torrent_pieces k pre) with (torrent_pieces k (pre ++ [c])).
    - apply IH; [done |]. destruct Hsrc as [Hsort Hget]. split; [done |]. intros c' [Hc' | ->%list_elem_of_singleton]%elem_of_app; [auto | done].
    - rewrite torrent_pieces_app, torrent_pieces_cons, H0. cbn. by rewrite !app_nil_r. }
  assert (c.2 <> []) as Hdata by (intros H; by rewrite H in Hne).
  rewrite (proj2 (Z.eqb_neq _ _)) by lia.
  assert ((if pl <? zlen c.2 then bt_get ls (root_of pl c.2) else Some []) = Some (s_layer (entry_of c.2 0))) as ->.
  { cbn [entry_of s_layer]. destruct (Z.ltb_spec pl (zlen c.2)) as [Hgt | Hle]; [| done].
    exact (proj1 (Forall_forall _ _) Hls c Hin Hgt). }
  pose proof (numbered pre c rest Hcs) as Hnum. pose proof Hmany as Hm.
  rewrite Hcs, torrent_pieces_app, torrent_pieces_cons, !zlen_app, zlen_pieces_of in Hm.
  pose proof (zlen_nonneg (torrent_pieces k rest)). pose proof (zlen_nonneg (torrent_pieces k pre)).
  assert (0 <= div_ceil (zlen c.2) pl) by (apply div_ceil_nonneg; [apply zlen_nonneg | lia]).
  unfold wrap. rewrite Z.mod_small by (unfold u_max in *; lia).
  unfold u_checked_add. rewrite (proj2 (Z.leb_le _ _)) by lia. cbn [mbind option_bind].
  replace (zlen (torrent_pieces k pre) + div_ceil (zlen c.2) pl) with (zlen (torrent_pieces k (pre ++ [c]))).
  2: { rewrite torrent_pieces_app, torrent_pieces_cons. cbn. by rewrite app_nil_r, zlen_app, zlen_pieces_of. }
  apply IH; [done |]. destruct Hsrc as [Hsort Hget]. split; [by apply bt_insert_sorted |].
  intros c' Hc' Hd'. destruct (decide (root_of pl c.2 = root_of pl c'.2)) as [Heq | Hneq].
  - assert (c'.2 = c.2) as ->.
    { symmetry. apply Hroots; [done | | done | done | done]. rewrite Hcs'. apply elem_of_app. by left. }
    exists (zlen (torrent_pieces k pre)). rewrite bt_get_insert_eq. done.
  - apply elem_of_app in Hc' as [Hc' | ->%list_elem_of_singleton]; [| done].
    destruct (Hget c' Hc' Hd') as (first & Hf & Hp). exists first. rewrite bt_get_insert_ne by done. done.
Qed.

(** The source that [new] builds answers for every file of the torrent. *)
Lemma new_sources :
  (exists c, c ∈ cs /\ c.2 <> []) -> exists s, new (file_of pl <$> cs) ls pl = Some (Some s) /\
  forall c : Content, c ∈ cs -> c.2 <> [] -> exists first,
    source_of k s c.2 first /\ has_pieces piece_store k c.2 (entry_of c.2 first).
Proof using Hroots Hls Hmany.
  intros (c0 & Hc0 & Hd0). unfold new.
  destruct (collect_sources_ok [] cs []) as (sources & Hcol & _ & Hget); [done | |].
  { split; [done |]. by intros c ?%not_elem_of_nil. }
  change (zlen (torrent_pieces k [])) with 0 in Hcol. rewrite Hcol. cbn [mbind option_bind].
  destruct sources as [| e sources]; [destruct (Hget c0 Hc0 Hd0) as (? & [=] & _) |].
  eexists. split; [done |]. intros c Hc Hd. destruct (Hget c Hc Hd) as (first & Hf & Hp). exists first.
  split; [by split | done].
Qed.

End source.

Lemma valid_span pl : valid_piece_length pl = true -> pl = Z.of_nat (span (piece_layer pl)).
Proof. intros [H _]%valid_piece_length_spec. by rewrite of_nat_span. Qed.

(** ** Properties *)

(** C29: a torrent made from files checks out: for a valid piece length,
    [hash_file] computes, reading a piece at a time, the root of the tree over
    all the 16 KiB blocks of a file and the layer of its pieces; the metadata
    made of those passes [validate_layers]; and [plan_pieces] cuts the torrent
    into exactly the pieces of its files, none spanning two of them, each of
    which passes the merkle check it will be held to when downloaded. *)
Theorem v2_torrent_checks (pl : Z) (cs : list Content) (ls : Layers)
    (Hv : valid_piece_length pl = true) (H32 : pl < 2 ^ 32) (Hls : layers_of (piece_layer pl) cs ls) :
  (forall (c : Content) rest e, c ∈ cs ->
     hash_file (mkReader (c.2 ++ rest) e) (zlen c.2) pl =
     Some (Ok (mkFileHashes (root (file_of pl c)) (if zlen c.2 <=? pl then [] else piece_roots (piece_layer pl) c.2)))) /\
  validate_layers (file_of pl <$> cs) ls pl = Some (Ok tt) /\
  exists ps, plan_pieces (file_of pl <$> cs) ls pl = Some (Some ps) /\
    piece_data cs <$> ps = torrent_pieces (piece_layer pl) cs /\ Forall (piece_matches cs) ps.
Proof.
  pose proof (valid_span pl Hv) as Hpl. set (k := piece_layer pl) in *.
  assert (2 ^ Z.of_nat k * BLOCK < 2 ^ 32) as Hk by (rewrite <- of_nat_span; lia).
  split_and!.
  - intros c rest e _. cbn [file_of root]. destruct (Z.eqb_spec (zlen c.2) 0) as [H0 | Hne].
    + unfold hash_file. rewrite H0. pose proof (span_pos k). rewrite (proj2 (Z.leb_le _ _)) by lia. done.
    + rewrite Hpl. apply hash_file_spec. pose proof (zlen_nonneg c.2). lia.
  - unfold validate_layers. rewrite Hv, Hpl. by apply validate_each_ok.
  - destruct (plan_from_ok k cs [] cs ls) as (ps & Hps & Hm & Hd); [done | done | done |].
    exists ps. unfold plan_pieces. rewrite Hpl. done.
Qed.

(** A file of two pieces. *)
Definition example_data : list Z := replicate (Z.to_nat 20000) 7.
Definition example_contents : list Content := [([[97]], example_data)].
Definition example_layers : Layers := bt_insert [] (root_of 16384 example_data) (piece_roots 0 example_data).

Lemma zlen_example_data : zlen example_data = 20000.
Proof. unfold example_data. by rewrite zlen_replicate, Z2Nat.id. Qed.

Lemma example_layers_of : layers_of 0 example_contents example_layers.
Proof.
  apply Forall_singleton. intros _. unfold example_layers. change (span 0) with (Z.to_nat 16384).
  rewrite Z2Nat.id by lia. apply bt_get_insert_eq.
Qed.

Lemma example_pieces : zlen (torrent_pieces 0 example_contents) <= u_max 32.
Proof.
  unfold torrent_pieces, example_contents. rewrite list_fmap_singleton. cbn [concat snd]. rewrite app_nil_r, zlen_pieces_of.
  rewrite zlen_example_data. vm_compute. discriminate.
Qed.

Lemma v2_torrent_checks_witness :
  validate_layers (file_of 16384 <$> example_contents) example_layers 16384 = Some (Ok tt).
Proof.
  refine (proj1 (proj2 (v2_torrent_checks 16384 example_contents example_layers _ _ _)));
    [reflexivity | lia | exact example_layers_of].
Defined.

(** A seeder's answers convince: in a torrent made from files, the source
    [HashSource::new] builds answers every admissible hash request, for the
    leaves from the pieces as [plan_pieces] numbers them, for the piece layer
    and those above from the layers it keeps; it neither refuses nor panics,
    the hashes are those of the file's tree, and [verify_range] accepts them
    against the file's root. *)
Theorem hash_requests_served (pl : Z) (cs : list Content) (ls : Layers) (c : Content)
    (Hv : valid_piece_length pl = true) (Hls : layers_of (piece_layer pl) cs ls)
    (Hroots : roots_distinct (piece_layer pl) cs) (Hmany : zlen (torrent_pieces (piece_layer pl) cs) <= u_max 32)
    (Hc : c ∈ cs) (Hd : c.2 <> []) :
  let k := piece_layer pl in
  let root := root_of pl c.2 in
  let h := tree_height (zlen c.2) pl in
  exists s, new (file_of pl <$> cs) ls pl = Some (Some s) /\
  (forall index len proof_layers,
     0 <= index -> len <= MAX_HASHES_PER_REQUEST -> range_refused 0 h index len = false -> (h <= S proof_layers)%nat ->
     exists hr, answer_leaves (piece_store k cs) s root index len proof_layers = Some hr /\
       hashes hr = slice (padded_leaves h c.2) index (index + len) /\
       verify_range root 0 h index (hashes hr) (uncles hr) proof_layers = true) /\
  (pl < zlen c.2 -> forall base index len proof_layers,
     (k <= base)%nat -> 0 <= index -> index + len < 2 ^ 32 -> len <= MAX_HASHES_PER_REQUEST ->
     range_refused base h index len = false -> (h - base <= S proof_layers)%nat ->
     exists hr, answer s root base index len proof_layers = Some hr /\
       hashes hr = slice (node (padded_leaves h c.2) base <$> seq 0 (2 ^ (h - base))) index (index + len) /\
       verify_range root base h index (hashes hr) (uncles hr) proof_layers = true).
Proof.
  pose proof (valid_span pl Hv) as Hpl. intros k root h. subst root h. fold k in Hpl. rewrite Hpl.
  destruct (new_sources k cs ls Hroots Hls Hmany) as (s & Hnew & Hs); [by exists c |].
  exists s. destruct (Hs c Hc Hd) as (first & Hsrc & Hhas). split_and!; [done | |].
  - intros index len proof_layers Hidx Hmax Hg Hp. by apply (answer_leaves_spec _ k s c.2 first).
  - intros Hgt base index len proof_layers Hbase Hidx H32 Hmax. unfold tree_height. rewrite (proj2 (Z.leb_gt _ _)) by done.
    intros Hg Hp. by apply (answer_spec k s c.2 first).
Qed.

Lemma hash_requests_served_witness :
  exists s hr, new (file_of 16384 <$> example_contents) example_layers 16384 = Some (Some s) /\
    answer_leaves (piece_store 0 example_contents) s (root_of 16384 example_data) 0 2 1 = Some hr.
Proof.
  destruct (hash_requests_served 16384 example_contents example_layers ([[97]], example_data)) as (s & Hs & Hleaves & _).
  - reflexivity.
  - exact example_layers_of.
  - intros c c' ->%list_elem_of_singleton ->%list_elem_of_singleton _ _ _. reflexivity.
  - exact example_pieces.
  - by left.
  - cbn [snd]. intros H. pose proof zlen_example_data as Hz. rewrite H in Hz. discriminate Hz.
  - cbn [snd] in Hleaves. rewrite zlen_example_data in Hleaves.
    destruct (Hleaves 0 2 1%nat) as (hr & Hhr & _); [lia | unfold MAX_HASHES_PER_REQUEST; lia | reflexivity | vm_compute; lia |].
    exists s, hr. split; [exact Hs | exact Hhr].
Defined.
