(* ===== verification/V2Tree.v ===== *)
(** * The metadata of a v2 torrent (BEP 52)

    Models the parsing side of [src/src/v2.rs]: the file tree of an info
    dictionary ([parse_file_tree]) and the piece layers beside it
    ([parse_layers]).  Both run on a torrent someone else made. *)

From S2P Require Import Prelude Str Bytes BTree Bencode Message Merkle V2Hashes.

Definition MAX_DEPTH : Z := 64.
Definition MAX_FILES : Z := 2 ^ 20.

(** The part of [walk] that reads a file's description. *)
Definition read_leaf (leaf : Bencode) (path : list (list Z)) (files : list V2File) : result (list V2File) V2Error :=
  let? len := ok_or (v ← get leaf (str "length"); as_int v) (BadTree "a file without a length") in
  let? len := (if len <? 0 then Err BadLength else Ok len) in
  let? r := (match get leaf (str "pieces root") with
             | Some v =>
                 let? bytes := ok_or (as_bytes v) BadRoot in
                 if zlen bytes =? 32 then Ok (Some bytes) else Err BadRoot
             | None => Ok None
             end) in
  if negb (Bool.eqb (0 <? len) (bool_decide (is_Some r))) then Err BadRoot
  else Ok (files ++ [mkV2File path len r]).

Fixpoint walk (node : Bencode) (path : list (list Z)) (files : list V2File) : result (list V2File) V2Error :=
  match node with
  | Dict entries =>
      match bt_get entries [] with
      | Some leaf =>
          if negb (zlen entries =? 1) || bool_decide (path = []) then
            Err (BadTree "a file entry with other entries beside it, or at the top")
          else if MAX_FILES <=? zlen files then Err TooManyFiles
          else read_leaf leaf path files
      | None =>
          if MAX_DEPTH <=? zlen path then Err TooDeep
          else
            (fix walk_entries (es : list (list Z * Bencode)) (files : list V2File) : result (list V2File) V2Error :=
               match es with
               | [] => Ok files
               | (name, child) :: rest =>
                   if negb (from_utf8_ok name) then Err (UnsafePath (from_utf8_lossy name))
                   else if negb (is_safe_component name) then Err (UnsafePath name)
                   else
                     let? files := walk child (path ++ [name]) files in
                     walk_entries rest files
               end) entries files
      end
  | _ => Err (BadTree "an entry is not a dictionary")
  end.

Definition parse_file_tree (tree : Bencode) : result (list V2File) V2Error := walk tree [] [].

(** The loop of [parse_layers]. *)
Fixpoint parse_layer_entries (es : list (list Z * Bencode)) (out : Layers) : result Layers V2Error :=
  match es with
  | [] => Ok out
  | (root, hashes) :: rest =>
      if negb (zlen root =? 32) then Err BadLayer
      else
        let? bytes := ok_or (as_bytes hashes) BadLayer in
        if negb (zlen bytes mod 32 =? 0) then Err BadLayer
        else parse_layer_entries rest (bt_insert out root (as_chunks (length bytes) 32 bytes))
  end.

Definition parse_layers (layers : option Bencode) : result Layers V2Error :=
  match layers with
  | None => Ok []
  | Some v => let? es := ok_or (as_dict v) BadLayer in parse_layer_entries es []
  end.

(** The loop of [walk] over a directory's entries. *)
Fixpoint walk_entries (path : list (list Z)) (es : list (list Z * Bencode)) (files : list V2File) :
    result (list V2File) V2Error :=
  match es with
  | [] => Ok files
  | (name, child) :: rest =>
      if negb (from_utf8_ok name) then Err (UnsafePath (from_utf8_lossy name))
      else if negb (is_safe_component name) then Err (UnsafePath name)
      else
        let? files := walk child (path ++ [name]) files in
        walk_entries path rest files
  end.

Lemma walk_Dict entries path files :
  walk (Dict entries) path files =
  match bt_get entries [] with
  | Some leaf =>
      if negb (zlen entries =? 1) || bool_decide (path = []) then
        Err (BadTree "a file entry with other entries beside it, or at the top")
      else if MAX_FILES <=? zlen files then Err TooManyFiles
      else read_leaf leaf path files
  | None => if MAX_DEPTH <=? zlen path then Err TooDeep else walk_entries path entries files
  end.
Proof.
  cbn [walk]. destruct (bt_get entries []); [done |]. destruct (MAX_DEPTH <=? zlen path); [done |].
  revert files. induction entries as [| [name child] es IH]; intros files; [done |]. cbn [walk_entries].
  destruct (negb (from_utf8_ok name)); [done |]. destruct (negb (is_safe_component name)); [done |].
  destruct (walk child (path ++ [name]) files); [apply IH | done].
Qed.

(** ** What the walk lets through *)

Definition component_ok (c : list Z) : Prop := from_utf8_ok c = true /\ is_safe_component c = true.

Definition file_ok (f : V2File) : Prop :=
  path f <> [] /\ zlen (path f) <= MAX_DEPTH /\ Forall component_ok (path f) /\ 0 <= file_length f <= i64_max /\
  match root f with Some r => 0 < file_length f /\ zlen r = 32 | None => file_length f = 0 end.

(** Neither path leads through the other. *)
Definition apart (f g : V2File) : Prop := ~ path f `prefix_of` path g /\ ~ path g `prefix_of` path f.

Fixpoint pairwise {A} (R : A -> A -> Prop) (l : list A) : Prop :=
  match l with
  | [] => True
  | x :: l' => Forall (R x) l' /\ pairwise R l'
  end.

Lemma pairwise_app {A} (R : A -> A -> Prop) l k :
  pairwise R l -> pairwise R k -> Forall (fun x => Forall (R x) k) l -> pairwise R (l ++ k).
Proof.
  induction l as [| x l IH]; [done |]. intros [Hx Hl] Hk [Hxk Hlk]%Forall_cons. split; [by apply Forall_app | auto].
Qed.

Lemma pairwise_lookup {A} (R : A -> A -> Prop) l i j x y :
  pairwise R l -> (i < j)%nat -> l !! i = Some x -> l !! j = Some y -> R x y.
Proof.
  revert i j. induction l as [| z l IH]; intros i j; [done |]. intros [Hz Hl] Hij Hi Hj.
  destruct j as [| j]; [lia |]. destruct i as [| i]; [| by apply (IH i j); [| lia | |]].
  injection Hi as <-. rewrite Forall_forall in Hz. apply Hz. by eapply list_elem_of_lookup_2.
Qed.

(** Files under different entries of a directory are apart. *)
Lemma apart_under (p : list (list Z)) (n1 n2 : list Z) f g :
  n1 <> n2 -> (p ++ [n1]) `prefix_of` path f -> (p ++ [n2]) `prefix_of` path g -> apart f g.
Proof.
  intros Hne Hf Hg.
  assert (forall (q : list (list Z)), (p ++ [n1]) `prefix_of` q -> (p ++ [n2]) `prefix_of` q -> False) as Hq.
  { intros q [k1 ->] [k2 H]. rewrite <- !app_assoc in H. apply app_inv_head in H. by injection H as H _. }
  split; intros H; [apply (Hq (path g)) | apply (Hq (path f))]; try done; by etransitivity.
Qed.

Definition grown (p : list (list Z)) (files files' : list V2File) : Prop :=
  exists new, files' = files ++ new /\ Forall file_ok new /\ Forall (fun f => p `prefix_of` path f) new /\
    pairwise apart new /\ (zlen files <= MAX_FILES -> zlen files' <= MAX_FILES).

Lemma wf_get v k x : wf v -> get v k = Some x -> wf x.
Proof.
  unfold get. destruct v as [| | | m]; try done. intros [Hs Hm]%wf_Dict Hx. cbn in Hx.
  apply bt_get_elem in Hx; [| done]. rewrite Forall_forall in Hm. exact (proj2 (Hm _ Hx)).
Qed.

Lemma read_leaf_ok leaf p files files' :
  wf leaf -> p <> [] -> zlen p <= MAX_DEPTH -> Forall component_ok p -> zlen files < MAX_FILES ->
  read_leaf leaf p files = Ok files' -> grown p files files'.
Proof.
  intros Hwf Hp Hlen Hc Hfew H. unfold read_leaf in H.
  apply result_bind_Ok in H as (len & Hl & H). apply ok_or_Ok, bind_Some in Hl as (v & Hv & Hi).
  destruct v; try done. injection Hi as <-. pose proof (wf_get _ _ _ Hwf Hv) as Hwfi. cbn in Hwfi.
  apply result_bind_Ok in H as (len & Hl & H). destruct (Z.ltb_spec i 0); [done |]. injection Hl as <-.
  apply result_bind_Ok in H as (r & Hr & H).
  destruct (negb _) eqn:Hb; [done |]. injection H as <-. apply negb_false_iff, Bool.eqb_prop in Hb.
  exists [mkV2File p i r]. split_and!; [done | | by apply Forall_singleton | done | ].
  - apply Forall_singleton. split_and!; try done; [destruct Hwfi; cbn; lia |]. cbn [root file_length].
    destruct (get leaf (str "pieces root")) as [x |].
    + apply result_bind_Ok in Hr as (bytes & _ & Hr). destruct (Z.eqb_spec (zlen bytes) 32); [| done].
      injection Hr as <-. rewrite bool_decide_true in Hb by done. apply Z.ltb_lt in Hb. done.
    + injection Hr as <-. rewrite bool_decide_false in Hb by (by intros [? [=]]). apply Z.ltb_ge in Hb. lia.
  - intros _. rewrite zlen_app, zlen_cons, zlen_nil. lia.
Qed.

Lemma walk_entries_ok p es files files' :
  NoDup es.*1 -> Forall component_ok p -> zlen p < MAX_DEPTH ->
  Forall (fun e : list Z * Bencode => forall q fs fs', Forall component_ok q -> zlen q <= MAX_DEPTH -> walk e.2 q fs = Ok fs' -> grown q fs fs') es ->
  walk_entries p es files = Ok files' ->
  exists new, files' = files ++ new /\ Forall file_ok new /\
    Forall (fun f => exists n, n ∈ es.*1 /\ (p ++ [n]) `prefix_of` path f) new /\ pairwise apart new /\
    (zlen files <= MAX_FILES -> zlen files' <= MAX_FILES).
Proof.
  intros Hnd Hp Hlen Hes. revert files. induction Hes as [| [name child] es Hchild Hes IH]; intros files H.
  { injection H as <-. exists []. rewrite app_nil_r. split_and!; done || constructor. }
  cbn [walk_entries] in H. destruct (from_utf8_ok name) eqn:Hu; [| done]. destruct (is_safe_component name) eqn:Hsafe; [| done].
  cbn [negb] in H. apply result_bind_Ok in H as (fs & Hw & H).
  apply Hchild in Hw as (new1 & -> & Hok1 & Hpre1 & Hap1 & Hm1); cycle 1.
  { apply Forall_app. split; [done |]. by apply Forall_singleton. }
  { rewrite zlen_app, zlen_cons, zlen_nil. lia. }
  rewrite fmap_cons in Hnd. apply NoDup_cons in Hnd as [Hnotin Hnd].
  destruct (IH Hnd _ H) as (new2 & -> & Hok2 & Hpre2 & Hap2 & Hm2). exists (new1 ++ new2).
  rewrite fmap_cons. split_and!; [by rewrite app_assoc | by apply Forall_app | | | auto].
  - apply Forall_app. split.
    + apply (Forall_impl _ _ _ Hpre1). intros f Hf. exists name. split; [by left | done].
    + apply (Forall_impl _ _ _ Hpre2). intros f (n & Hn & Hf). exists n. split; [by right | done].
  - apply pairwise_app; [done | done |]. apply (Forall_impl _ _ _ Hpre1). intros f Hf.
    apply (Forall_impl _ _ _ Hpre2). intros g (n & Hn & Hg). apply (apart_under p name n); [| done | done].
    intros ->. exact (Hnotin Hn).
Qed.

Lemma walk_ok node p files files' :
  wf node -> Forall component_ok p -> zlen p <= MAX_DEPTH -> walk node p files = Ok files' -> grown p files files'.
Proof.
  revert p files files'. induction node as [| | | es IH] using Bencode_ind_nested; intros p files files'; try done.
  intros [Hs Hwf]%wf_Dict Hp Hlen. rewrite walk_Dict. destruct (bt_get es []) as [leaf |] eqn:Hleaf.
  - destruct (negb _ || bool_decide (p = [])) eqn:Hb; [done |]. apply orb_false_iff in Hb as [_ Hb].
    apply bool_decide_eq_false in Hb. destruct (Z.leb_spec MAX_FILES (zlen files)); [done |].
    apply read_leaf_ok; try done. by apply (wf_get (Dict es) []); [apply wf_Dict |].
  - destruct (Z.leb_spec MAX_DEPTH (zlen p)) as [? | Hlt]; [done |]. intros H.
    apply walk_entries_ok in H as (new & -> & Hok & Hpre & Hap & Hm); [| by apply bt_sorted_nodup | done | done |].
    + exists new. split_and!; try done. apply (Forall_impl _ _ _ Hpre). intros f (n & _ & Hf).
      etransitivity; [| exact Hf]. by exists [n].
    + rewrite Forall_forall in *. intros e He q fs fs' Hq Hql. apply (IH e He); [exact (proj2 (Hwf e He)) | done | done].
Qed.

Lemma parse_layer_entries_ok (ls out : Layers) :
  Forall (fun e : Hash * list Hash => zlen e.1 = 32 /\ Forall (fun x => zlen x = 32) e.2) ls ->
  bt_sorted (out ++ ls) ->
  parse_layer_entries ((fun e : Hash * list Hash => (e.1, Bytes (concat e.2))) <$> ls) out = Ok (out ++ ls).
Proof.
  intros Hls. revert out. induction Hls as [| [r hs] ls [Hr Hhs] Hls IH]; intros out Hsort; [by rewrite app_nil_r |].
  rewrite fmap_cons. cbn [parse_layer_entries fst snd as_bytes ok_or result_bind]. cbn [fst snd] in Hr, Hhs.
  rewrite Hr, Z.eqb_refl. cbn [negb].
  assert (zlen (concat hs) = 32 * zlen hs) as Hlen.
  { clear -Hhs. induction Hhs as [| x hs Hx Hhs IH]; [done |]. cbn [concat]. rewrite zlen_app, zlen_cons. lia. }
  rewrite Hlen, Z.mul_comm, Z.mod_mul by lia. cbn [Z.eqb negb].
  rewrite as_chunks_concat by first [done | unfold zlen in Hlen; lia].
  destruct (bt_sorted_app_cons _ _ _ _ Hsort) as (_ & Hbelow & _).
  rewrite bt_insert_snoc by done. rewrite IH by (by rewrite <- app_assoc). by rewrite <- app_assoc.
Qed.

(** ** Properties *)

(** What a hostile torrent's file tree can name: every file
    [parse_file_tree] returns has a non-empty path at most 64 deep whose parts
    are plain UTF-8 names (no separators, no NUL, neither [.] nor [..]), a
    length that fits an [i64], and a 32-byte root exactly when it is not
    empty; no file's path leads through another's, so no two are the same and
    none is both a file and a directory; and there are at most 2^20. *)
Theorem file_tree_safe (tree : Bencode) (files : list V2File)
    (Hwf : wf tree) (Hok : parse_file_tree tree = Ok files) :
  Forall file_ok files /\ zlen files <= MAX_FILES /\
  forall i j f g, i <> j -> files !! i = Some f -> files !! j = Some g -> apart f g.
Proof.
  destruct (walk_ok tree [] [] files) as (new & -> & Hfiles & _ & Hap & Hm); try done.
  split_and!; [done | by apply Hm |]. intros i j f g Hij Hi Hj. cbn [app] in *.
  destruct (decide (i < j)%nat) as [Hlt | Hge]; [by apply (pairwise_lookup apart new i j) |].
  assert (apart g f) as [H1 H2]; [| done]. apply (pairwise_lookup apart new j i); try done. lia.
Qed.

Definition example_leaf : Bencode := Dict [(str "length", Int 3); (str "pieces root", Bytes (replicate 32 7))].
Definition example_tree : Bencode :=
  Dict [(str "a", Dict [(str "b", Dict [([], example_leaf)])]); (str "c", Dict [([], example_leaf)])].

Lemma file_tree_safe_witness :
  exists files, parse_file_tree example_tree = Ok files /\ zlen files = 2 /\ Forall file_ok files.
Proof.
  eexists. split; [vm_compute; reflexivity |]. split; [reflexivity |].
  refine (proj1 (file_tree_safe example_tree _ _ _)); [| vm_compute; reflexivity].
  vm_compute. repeat split; by repeat constructor || discriminate.
Defined.

(** Piece layers survive the torrent file: the [piece layers] dictionary
    made of a map from roots to hashes (32 bytes each) parses back to it. *)
Theorem parse_layers_roundtrip (ls : Layers) (Hs : bt_sorted ls)
    (Hls : Forall (fun e : Hash * list Hash => zlen e.1 = 32 /\ Forall (fun x => zlen x = 32) e.2) ls) :
  parse_layers (Some (Dict ((fun e : Hash * list Hash => (e.1, Bytes (concat e.2))) <$> ls))) = Ok ls.
Proof. by apply (parse_layer_entries_ok ls []). Qed.
