(* ===== verification/PieceAssembler.v ===== *)
(** * Assembling a piece from blocks

    Models [src/src/downloader/piece_assembler.rs]: the request cursor, the
    refused requests to hand out again, and the buffer the 16 KiB blocks are
    copied into; [record_block] runs on what an untrusted peer sends, so a
    panic of it is a value of the model ([None]).  SHA-1 is a third-party
    function: the parameter [sha1]. *)

From S2P Require Import Prelude Merkle.

Definition BLOCK_SIZE : Z := 16 * 1024.

Record Merkle : Type := mkMerkle {
  root : list Z;
  width : Z
}.

Record PieceWork : Type := mkPieceWork {
  pw_index : Z;
  pw_hash : list Z;
  pw_length : Z;
  pw_merkle : option Merkle
}.

Inductive AssemblerError : Type :=
| AlreadyComplete
| BlockOutOfRange (begin len piece_length : Z)
| UnexpectedBlockSize (begin expected got : Z)
| HashMismatch.

(** [(piece_index, begin, length)]. *)
Definition BlockRequest : Type := Z * Z * Z.

Record PartialPiece : Type := mkPartialPiece {
  pp_data : list Z;
  pp_received : list bool
}.

Definition count_true (l : list bool) : Z := zlen (filter (fun b => b = true) l).

Definition blocks_held (p : PartialPiece) : Z := count_true (pp_received p).

Definition partial_size (p : PartialPiece) : Z := zlen (pp_data p).

Definition from_parts (data : list Z) (received : list bool) : option PartialPiece :=
  let blocks := div_ceil (zlen data) BLOCK_SIZE in
  if (zlen received =? blocks) && existsb id received
  then Some (mkPartialPiece data received) else None.

(** [refused] holds the elements of the source's [Vec], its last one (the one
    [pop] returns) first. *)
Record PieceAssembler : Type := mkPieceAssembler {
  work : PieceWork;
  buf : list Z;
  received : list bool;
  next_unrequested_block : Z;
  refused : list Z
}.

Definition new (w : PieceWork) : PieceAssembler :=
  let num_blocks := div_ceil (pw_length w) BLOCK_SIZE in
  mkPieceAssembler w (replicate (Z.to_nat (pw_length w)) 0)
    (replicate (Z.to_nat num_blocks) false) 0 [].

Definition resume (w : PieceWork) (partial : PartialPiece) : PieceAssembler :=
  let fresh := new w in
  if (zlen (pp_data partial) =? zlen (buf fresh)) && (zlen (pp_received partial) =? zlen (received fresh))
  then mkPieceAssembler (work fresh) (pp_data partial) (pp_received partial)
         (next_unrequested_block fresh) (refused fresh)
  else fresh.

Definition into_partial (a : PieceAssembler) : option PartialPiece :=
  let partial := mkPartialPiece (buf a) (received a) in
  if 0 <? blocks_held partial then Some partial else None.

Definition num_blocks (a : PieceAssembler) : Z := zlen (received a).

(** [block_len]: [None] where the subtraction would go below zero. *)
Definition block_len (a : PieceAssembler) (block_idx : Z) : option Z :=
  let begin := block_idx * BLOCK_SIZE in
  if pw_length (work a) <? begin then None
  else Some (Z.min (pw_length (work a) - begin) BLOCK_SIZE).

(** The request [next_requests] sends for a block. *)
Definition request_for (a : PieceAssembler) (block_idx : Z) : option BlockRequest :=
  len ← block_len a block_idx;
  Some (pw_index (work a), block_idx * BLOCK_SIZE, len).

(** The first loop of [next_requests]: refused blocks, while any are left and
    more requests are wanted. *)
Fixpoint pop_refused (a : PieceAssembler) (max_new : nat) (refused : list Z) (out : list BlockRequest) :
    option (list Z * list BlockRequest) :=
  if (length out <? max_new)%nat then
    match refused with
    | [] => Some ([], out)
    | block_idx :: rest =>
        got ← zget (received a) block_idx;
        if (got : bool) then pop_refused a max_new rest out
        else r ← request_for a block_idx; pop_refused a max_new rest (out ++ [r])
    end
  else Some (refused, out).

(** The second loop: blocks from the cursor on.  [fuel] bounds the passes. *)
Fixpoint fresh_requests (fuel : nat) (a : PieceAssembler) (max_new : nat) (next : Z) (out : list BlockRequest) :
    option (Z * list BlockRequest) :=
  if (length out <? max_new)%nat && (next <? num_blocks a) then
    match fuel with
    | O => None
    | S fuel' =>
        got ← zget (received a) next;
        if (got : bool) then fresh_requests fuel' a max_new (next + 1) out
        else r ← request_for a next; fresh_requests fuel' a max_new (next + 1) (out ++ [r])
    end
  else Some (next, out).

Definition next_requests (a : PieceAssembler) (max_new : nat) : option (PieceAssembler * list BlockRequest) :=
  '(refused', out) ← pop_refused a max_new (refused a) [];
  '(next', out') ← fresh_requests (length (received a)) a max_new (next_unrequested_block a) out;
  Some (mkPieceAssembler (work a) (buf a) (received a) next' refused', out').

Definition forget_requests (a : PieceAssembler) : PieceAssembler :=
  mkPieceAssembler (work a) (buf a) (received a) 0 [].

(** [refuse_request]: the conditions are tested from the left, so that
    [received] is only indexed for a block that was asked for. *)
Definition refuse_request (a : PieceAssembler) (begin : Z) : option PieceAssembler :=
  let block_idx := begin / BLOCK_SIZE in
  let asked := block_idx <? next_unrequested_block a in
  let on_a_boundary := block_idx * BLOCK_SIZE =? begin in
  if asked && on_a_boundary then
    got ← zget (received a) block_idx;
    if negb got && negb (bool_decide (block_idx ∈ refused a))
    then Some (mkPieceAssembler (work a) (buf a) (received a) (next_unrequested_block a) (block_idx :: refused a))
    else Some a
  else Some a.

Definition is_complete (a : PieceAssembler) : bool := forallb id (received a).

Definition missing_block_count (a : PieceAssembler) : Z := zlen (filter (fun b => b = false) (received a)).

(** [record_block]: [None] is a panic ([copy_from_slice] on lengths that
    differ, or [received] indexed past its end). *)
Definition record_block (a : PieceAssembler) (begin : Z) (data : list Z) :
    option (result PieceAssembler AssemblerError) :=
  if is_complete a then Some (Err AlreadyComplete)
  else
    let len32 := wrap 32 (zlen data) in
    match u_checked_add 32 begin len32 with
    | None => Some (Err (BlockOutOfRange begin len32 (pw_length (work a))))
    | Some end_ =>
        if pw_length (work a) <? end_ then Some (Err (BlockOutOfRange begin len32 (pw_length (work a))))
        else
          let block_idx := begin / BLOCK_SIZE in
          expected_len ← block_len a block_idx;
          if negb (len32 =? expected_len) then Some (Err (UnexpectedBlockSize begin expected_len len32))
          else if negb (zlen data =? end_ - begin) then None
          else
            received' ← zset (received a) block_idx true;
            Some (Ok (mkPieceAssembler (work a) (splice (buf a) begin data) received'
                        (next_unrequested_block a) (refused a)))
    end.

Section Sha1.
Context (sha1 : list Z -> list Z).

(** [PieceWork::matches]. *)
Definition matches (w : PieceWork) (data : list Z) : bool :=
  match pw_merkle w with
  | Some m => merkle_matches data (width m) (root m)
  | None => bool_decide (sha1 data = pw_hash w)
  end.

Definition finish (a : PieceAssembler) : result (list Z) AssemblerError :=
  if negb (is_complete a) then Err AlreadyComplete
  else if negb (matches (work a) (buf a)) then Err HashMismatch
  else Ok (buf a).

End Sha1.

(** ** Well-formedness *)

Record wf (a : PieceAssembler) : Prop := {
  wf_length : u_ok 32 (pw_length (work a));
  wf_buf : zlen (buf a) = pw_length (work a);
  wf_received : zlen (received a) = div_ceil (pw_length (work a)) BLOCK_SIZE;
  wf_next : 0 <= next_unrequested_block a <= zlen (received a);
  wf_nodup : NoDup (refused a);
  wf_asked : Forall (fun b => 0 <= b < next_unrequested_block a) (refused a)
}.

(** What [next_requests] has yet to hand out, in the order it will: the
    refused blocks, then those from the cursor on, less what has arrived. *)
Definition missing (a : PieceAssembler) (b : Z) : Prop := zget (received a) b = Some false.

#[export] Instance missing_dec a b : Decision (missing a b).
Proof. unfold missing. apply _. Defined.

Definition to_ask (a : PieceAssembler) : list Z :=
  filter (missing a) (refused a) ++
  filter (missing a) (seqZ (next_unrequested_block a) (num_blocks a - next_unrequested_block a)).

(** The request for block [b] of a piece of [len] bytes. *)
Definition the_request (w : PieceWork) (b : Z) : BlockRequest :=
  (pw_index w, b * BLOCK_SIZE, Z.min (pw_length w - b * BLOCK_SIZE) BLOCK_SIZE).

Lemma new_wf w : u_ok 32 (pw_length w) -> wf (new w).
Proof.
  intros Hw. pose proof Hw as [? ?].
  assert (0 <= div_ceil (pw_length w) BLOCK_SIZE) by (apply div_ceil_nonneg; [lia | done]).
  split; simpl; rewrite ?zlen_replicate, ?Z2Nat.id by lia; (done || lia || constructor).
Qed.

Lemma resume_wf w p : u_ok 32 (pw_length w) -> wf (resume w p).
Proof.
  intros Hw. pose proof (new_wf w Hw) as Hnew. unfold resume.
  destruct (Z.eqb_spec (zlen (pp_data p)) (zlen (buf (new w)))); cbn [andb]; [| done].
  destruct (Z.eqb_spec (zlen (pp_received p)) (zlen (received (new w)))); [| done].
  destruct Hnew. split; simpl in *; (done || lia || congruence || constructor).
Qed.

Lemma block_in_piece a b : wf a -> b < num_blocks a <-> b * BLOCK_SIZE < pw_length (work a).
Proof. intros Ha. unfold num_blocks. rewrite (wf_received a Ha). by apply lt_div_ceil. Qed.

Lemma request_for_block a b :
  wf a -> 0 <= b < num_blocks a -> request_for a b = Some (the_request (work a) b).
Proof.
  intros Ha [Hb0 Hb]. apply (block_in_piece a b Ha) in Hb. unfold request_for, block_len.
  by rewrite (proj2 (Z.ltb_ge _ _)) by lia.
Qed.

(** ** Handing out requests *)

Lemma take_cons_pos {A} k (x : A) l : (0 < k)%nat -> take k (x :: l) = x :: take (k - 1) l.
Proof. intros. destruct k as [| k]; [lia |]. simpl. by rewrite Nat.sub_0_r. Qed.

Lemma drop_cons_pos {A} k (x : A) l : (0 < k)%nat -> drop k (x :: l) = drop (k - 1) l.
Proof. intros. destruct k as [| k]; [lia |]. simpl. by rewrite Nat.sub_0_r. Qed.

Lemma received_cases a b :
  0 <= b < num_blocks a -> {zget (received a) b = Some true} + {missing a b}.
Proof.
  intros Hb. unfold missing. destruct (zget (received a) b) as [[] |] eqn:E; [by left | by right |].
  exfalso. apply zget_lt in Hb as [? ?]. congruence.
Qed.

Lemma pop_refused_spec a max_new l out :
  wf a -> Forall (fun b => 0 <= b < num_blocks a) l ->
  let k := (max_new - length out)%nat in
  exists l', pop_refused a max_new l out =
      Some (l', out ++ (the_request (work a) <$> take k (filter (missing a) l))) /\
    filter (missing a) l' = drop k (filter (missing a) l) /\ l' `suffix_of` l.
Proof.
  intros Ha Hl. revert out. induction l as [| b l IH]; intros out k.
  - exists []. rewrite filter_nil, take_nil, drop_nil. cbn [fmap list_fmap pop_refused]. rewrite app_nil_r.
    split; [by destruct (_ <? _)%nat | done].
  - apply Forall_cons in Hl as [Hb Hl]. specialize (IH Hl). cbn [pop_refused].
    destruct (Nat.ltb_spec (length out) max_new) as [Hk | Hk].
    + destruct (received_cases a b Hb) as [Hgot | Hgot]; rewrite Hgot; cbn [mbind option_bind].
      * rewrite filter_cons_False by (unfold missing; congruence).
        destruct (IH out) as (l' & H1 & H2 & H3). exists l'. split_and!; [done | done |].
        by apply suffix_cons_r.
      * rewrite filter_cons_True, (request_for_block a b) by done. cbn [mbind option_bind].
        destruct (IH (out ++ [the_request (work a) b])) as (l' & H1 & H2 & H3).
        rewrite length_app in H1, H2. cbn [length] in H1, H2.
        exists l'. subst k. rewrite take_cons_pos, drop_cons_pos by lia.
        replace (max_new - length out - 1)%nat with (max_new - (length out + 1))%nat by lia.
        split_and!; [| done | by apply suffix_cons_r].
        rewrite H1. by rewrite <- app_assoc.
    + exists (b :: l). subst k. replace (max_new - length out)%nat with 0%nat by lia.
      by rewrite take_0, drop_0, app_nil_r.
Qed.

Lemma fresh_requests_spec a max_new fuel next out :
  wf a -> 0 <= next <= num_blocks a -> num_blocks a - next <= Z.of_nat fuel ->
  let rest n := filter (missing a) (seqZ n (num_blocks a - n)) in
  let k := (max_new - length out)%nat in
  exists next', fresh_requests fuel a max_new next out =
      Some (next', out ++ (the_request (work a) <$> take k (rest next))) /\
    rest next' = drop k (rest next) /\ next <= next' <= num_blocks a.
Proof.
  intros Ha. revert next out. induction fuel as [| fuel IH]; intros next out Hnext Hf rest k.
  { exists next. assert (rest next = []) as ->.
    { unfold rest. by replace (num_blocks a - next) with 0 by lia. }
    cbn [fresh_requests]. rewrite (proj2 (Z.ltb_ge next _)) by lia. rewrite andb_false_r.
    rewrite take_nil, drop_nil, app_nil_r. split_and!; done || lia. }
  cbn [fresh_requests]. destruct (Z.ltb_spec next (num_blocks a)) as [Hlt | Hge].
  2: { exists next. rewrite andb_false_r. assert (rest next = []) as ->.
    { unfold rest. by replace (num_blocks a - next) with 0 by lia. }
    rewrite take_nil, drop_nil, app_nil_r. split_and!; done || lia. }
  assert (seqZ next (num_blocks a - next) = next :: seqZ (next + 1) (num_blocks a - (next + 1))) as Hseq.
  { rewrite seqZ_cons by lia. f_equal. f_equal; lia. }
  destruct (Nat.ltb_spec (length out) max_new) as [Hk | Hk]; cbn [andb].
  - destruct (received_cases a next ltac:(lia)) as [Hgot | Hgot]; rewrite Hgot; cbn [mbind option_bind].
    + assert (rest next = rest (next + 1)) as ->.
      { unfold rest. rewrite Hseq. by rewrite filter_cons_False by (unfold missing; congruence). }
      destruct (IH (next + 1) out) as (n' & H1 & H2 & H3); [lia | lia |].
      exists n'. split_and!; done || lia.
    + rewrite (request_for_block a next) by (done || lia). cbn [mbind option_bind].
      assert (rest next = next :: rest (next + 1)) as ->.
      { unfold rest. rewrite Hseq. by rewrite filter_cons_True by done. }
      destruct (IH (next + 1) (out ++ [the_request (work a) next])) as (n' & H1 & H2 & H3); [lia | lia |].
      rewrite length_app in H1, H2. cbn [length] in H1, H2.
      exists n'. subst k. rewrite take_cons_pos, drop_cons_pos by lia.
      replace (max_new - length out - 1)%nat with (max_new - (length out + 1))%nat by lia.
      split_and!; [| done | lia | lia]. rewrite H1. by rewrite <- app_assoc.
  - exists next. subst k. replace (max_new - length out)%nat with 0%nat by lia.
    rewrite take_0, drop_0, app_nil_r. split_and!; done || lia.
Qed.

Lemma wf_refused_in a : wf a -> Forall (fun b => 0 <= b < num_blocks a) (refused a).
Proof.
  intros Ha. apply (Forall_impl _ _ _ (wf_asked a Ha)). intros b. pose proof (wf_next a Ha).
  unfold num_blocks. lia.
Qed.

Lemma to_ask_nodup a : wf a -> NoDup (to_ask a).
Proof.
  intros Ha. unfold to_ask. apply NoDup_app. split_and!.
  - apply NoDup_filter, Ha.
  - intros b [_ Hb]%list_elem_of_filter [_ Hs]%list_elem_of_filter. apply elem_of_seqZ in Hs.
    pose proof (proj1 (Forall_forall _ _) (wf_asked a Ha) b Hb). simpl in *. lia.
  - apply NoDup_filter, NoDup_seqZ.
Qed.

Lemma to_ask_in a b : wf a -> b ∈ to_ask a -> 0 <= b < num_blocks a /\ missing a b.
Proof.
  intros Ha. pose proof (wf_next a Ha). unfold to_ask.
  intros [[? Hb]%list_elem_of_filter | [? Hb]%list_elem_of_filter]%elem_of_app; (split; [| done]).
  - by apply (proj1 (Forall_forall _ _) (wf_refused_in a Ha)).
  - apply elem_of_seqZ in Hb. lia.
Qed.

Lemma next_requests_spec a n :
  wf a ->
  exists a', next_requests a n = Some (a', the_request (work a) <$> take n (to_ask a)) /\
    to_ask a' = drop n (to_ask a) /\ wf a' /\
    work a' = work a /\ buf a' = buf a /\ received a' = received a.
Proof.
  intros Ha. unfold next_requests.
  destruct (pop_refused_spec a n (refused a) [] Ha (wf_refused_in a Ha)) as (l' & Hpop & Hl' & Hsuf).
  rewrite Hpop. cbn [mbind option_bind app length] in *. rewrite Nat.sub_0_r in *.
  set (A := filter (missing a) (refused a)) in *.
  destruct (fresh_requests_spec a n (length (received a)) (next_unrequested_block a)
              (the_request (work a) <$> take n A)) as (n' & Hfresh & Hn' & Hle);
    [done | apply Ha | pose proof (wf_next a Ha); unfold num_blocks, zlen; lia |].
  rewrite Hfresh. cbn [mbind option_bind]. rewrite length_fmap, length_take in *.
  replace (n - Nat.min n (length A))%nat with (n - length A)%nat in * by lia.
  exists (mkPieceAssembler (work a) (buf a) (received a) n' l'). split; [| split; [| split; [| done]]].
  - unfold to_ask. fold A. rewrite take_app, fmap_app. reflexivity.
  - unfold to_ask at 1. simpl. unfold to_ask. fold A. rewrite drop_app, <- Hl'. f_equal. exact Hn'.
  - destruct Ha. split; simpl; try done.
    + unfold num_blocks in Hle. lia.
    + destruct Hsuf as [pre Hpre]. rewrite Hpre in wf_nodup0. by apply NoDup_app in wf_nodup0 as (_ & _ & ?).
    + destruct Hsuf as [pre Hpre]. rewrite Hpre in wf_asked0. apply Forall_app in wf_asked0 as [_ H].
      apply (Forall_impl _ _ _ H). lia.
Qed.

Lemma forget_requests_wf a : wf a -> wf (forget_requests a).
Proof. intros []. split; simpl; (done || lia || constructor). Qed.

Lemma refuse_request_spec a begin :
  wf a -> 0 <= begin ->
  exists a', refuse_request a begin = Some a' /\ wf a' /\
    work a' = work a /\ buf a' = buf a /\ received a' = received a /\
    (to_ask a' = to_ask a \/
     exists b, begin = b * BLOCK_SIZE /\ 0 <= b < next_unrequested_block a /\ b ∉ refused a /\
       missing a b /\ to_ask a' = b :: to_ask a).
Proof.
  intros Ha Hbegin. unfold refuse_request. set (b := begin / BLOCK_SIZE).
  assert (0 <= b) by (apply Z.div_pos; [done | done]).
  destruct (Z.ltb_spec b (next_unrequested_block a)) as [Hasked | _]; cbn [andb]; [| by exists a; auto 10].
  destruct (Z.eqb_spec (b * BLOCK_SIZE) begin) as [Hb | _]; [| by exists a; auto 10].
  pose proof (wf_next a Ha).
  destruct (received_cases a b) as [Hgot | Hgot]; [unfold num_blocks; lia | |]; rewrite Hgot; cbn [mbind option_bind negb andb].
  { by exists a; auto 10. }
  destruct (bool_decide_reflect (b ∈ refused a)) as [Hin | Hin]; cbn [negb]; [by exists a; auto 10 |].
  eexists. split; [done |]. split_and!; try done.
  - destruct Ha. split; simpl; try done; [by constructor |]. constructor; [lia | done].
  - right. exists b. split_and!; try done. unfold to_ask. cbn [refused next_unrequested_block].
    by rewrite filter_cons_True by done.
Qed.

(** ** Recording blocks *)

Lemma is_complete_spec a : is_complete a = true <-> forall b, 0 <= b < num_blocks a -> zget (received a) b = Some true.
Proof.
  unfold is_complete, num_blocks. rewrite forallb_forall. split.
  - intros H b Hb. apply zget_lt in Hb as [x Hx]. rewrite Hx. f_equal.
    apply H. apply zget_Some in Hx as [_ Hx]. apply list_elem_of_In. by eapply list_elem_of_lookup_2.
  - intros H x Hx%list_elem_of_In. apply list_elem_of_lookup_1 in Hx as [i Hi].
    specialize (H (Z.of_nat i)). pose proof (lookup_lt_Some _ _ _ Hi).
    rewrite zget_nat, Nat2Z.id, Hi in H by lia. injection H; [by intros -> | unfold zlen; lia].
Qed.

(** The block of [begin], where [begin] is in the piece. *)
Lemma block_of_begin a begin :
  wf a -> 0 <= begin < pw_length (work a) ->
  let b := begin / BLOCK_SIZE in 0 <= b < num_blocks a /\ b * BLOCK_SIZE <= begin < (b + 1) * BLOCK_SIZE.
Proof.
  intros Ha Hb b. pose proof (Z.div_mod begin BLOCK_SIZE ltac:(done)) as Hdm. fold b in Hdm.
  pose proof (Z.mod_pos_bound begin BLOCK_SIZE ltac:(done)).
  assert (0 <= b) by (apply Z.div_pos; [lia | done]).
  rewrite (block_in_piece a b Ha). lia.
Qed.

(** When [record_block] takes a block, and what it does with it. *)
Definition accepts (a : PieceAssembler) (begin : Z) (data : list Z) : Prop :=
  is_complete a = false /\ begin + zlen data <= pw_length (work a) /\
  zlen data = Z.min (pw_length (work a) - begin / BLOCK_SIZE * BLOCK_SIZE) BLOCK_SIZE.

Lemma record_block_cases a begin data :
  wf a -> u_ok 32 begin -> zlen data < 2 ^ 32 ->
  let b := begin / BLOCK_SIZE in
  (accepts a begin data /\ b < num_blocks a /\
   record_block a begin data = Some (Ok (mkPieceAssembler (work a) (splice (buf a) begin data)
     (<[Z.to_nat b := true]> (received a)) (next_unrequested_block a) (refused a)))) \/
  (accepts a begin data /\ num_blocks a <= b /\ record_block a begin data = None) \/
  (~ accepts a begin data /\ exists e, record_block a begin data = Some (Err e)).
Proof.
  intros Ha [Hb0 Hb] Hlen b. unfold record_block, accepts, u_checked_add, block_len. fold b.
  pose proof (zlen_nonneg data). pose proof (wf_length a Ha) as [Hl0 Hl].
  assert (wrap 32 (zlen data) = zlen data) as -> by (apply Z.mod_small; lia).
  pose proof (Z.mul_div_le begin BLOCK_SIZE ltac:(done)) as Hdiv. fold b in Hdiv.
  assert (0 <= b) by (apply Z.div_pos; [done | done]).
  destruct (is_complete a); [right; right; split; [by intros [? _] | by eexists] |].
  destruct (Z.leb_spec (begin + zlen data) (u_max 32)) as [Hfit | Hfit].
  2: { right; right. unfold u_max in Hfit. split; [lia | by eexists]. }
  destruct (Z.ltb_spec (pw_length (work a)) (begin + zlen data)).
  { right; right. split; [lia | by eexists]. }
  rewrite (proj2 (Z.ltb_ge _ _)) by lia. cbn [mbind option_bind].
  destruct (Z.eqb_spec (zlen data) (Z.min (pw_length (work a) - b * BLOCK_SIZE) BLOCK_SIZE)) as [He | He]; cbn [negb].
  2: { right; right. split; [tauto | by eexists]. }
  rewrite (proj2 (Z.eqb_eq _ _)) by lia. cbn [negb]. unfold zset, num_blocks.
  destruct (Z.ltb_spec b (zlen (received a))).
  - left. rewrite (proj2 (Z.leb_le _ _)) by done. done.
  - right; left. rewrite andb_false_r. done.
Qed.

(** A block that is taken lies in the piece. *)
Lemma accepts_in_piece a begin data :
  wf a -> u_ok 32 begin -> accepts a begin data ->
  num_blocks a <= begin / BLOCK_SIZE <->
  begin = pw_length (work a) /\ data = [] /\ pw_length (work a) mod BLOCK_SIZE = 0.
Proof.
  intros Ha [Hb0 Hb] (_ & Hend & Hsize).
  set (b := begin / BLOCK_SIZE) in *. pose proof (zlen_nonneg data).
  pose proof (Z.div_mod begin BLOCK_SIZE ltac:(done)) as Hdm. fold b in Hdm.
  pose proof (Z.mod_pos_bound begin BLOCK_SIZE ltac:(done)).
  pose proof (block_in_piece a b Ha) as Hin.
  split.
  - intros Hge. assert (pw_length (work a) <= b * BLOCK_SIZE) by lia.
    assert (begin = pw_length (work a)) as Heq by lia. split_and!; [done | apply zlen_0_nil; lia |].
    rewrite <- Heq. lia.
  - intros (Heq & _ & Hmod). rewrite <- Heq in Hmod. lia.
Qed.

Lemma record_block_wf a begin data a' :
  wf a -> u_ok 32 begin -> zlen data < 2 ^ 32 -> record_block a begin data = Some (Ok a') -> wf a'.
Proof.
  intros Ha Hb Hlen H.
  destruct (record_block_cases a begin data Ha Hb Hlen) as
    [((_ & Hend & _) & _ & Hr) | [(_ & _ & Hr) | (_ & e & Hr)]]; rewrite Hr in H; simplify_eq.
  destruct Ha, Hb. split; simpl; rewrite ?zlen_insert; try done. by rewrite zlen_splice by lia.
Qed.

(** ** An honest download *)

(** Block [b] of [data]. *)
Definition block_of (data : list Z) (b : Z) : list Z :=
  slice data (b * BLOCK_SIZE) (b * BLOCK_SIZE + Z.min (zlen data - b * BLOCK_SIZE) BLOCK_SIZE).

(** What a connection does to the assembler, where the peer has [data]. *)
Inductive Op : Type :=
| Ask (n : nat)
| Choked
| Refused (begin : Z)
| Deliver (b : Z).

Definition apply_op (data : list Z) (a : PieceAssembler) (op : Op) : option PieceAssembler :=
  match op with
  | Ask n => fst <$> next_requests a n
  | Choked => Some (forget_requests a)
  | Refused begin => refuse_request a begin
  | Deliver b =>
      r ← record_block a (b * BLOCK_SIZE) (block_of data b);
      match r with Ok a' => Some a' | Err _ => Some a end
  end.

Fixpoint run (data : list Z) (a : PieceAssembler) (ops : list Op) : option PieceAssembler :=
  match ops with
  | [] => Some a
  | op :: ops' => a' ← apply_op data a op; run data a' ops'
  end.

Definition op_ok (w : PieceWork) (op : Op) : Prop :=
  match op with
  | Refused begin => 0 <= begin
  | Deliver b => 0 <= b < div_ceil (pw_length w) BLOCK_SIZE
  | _ => True
  end.

(** The blocks marked as received hold [data]. *)
Definition holds (data : list Z) (a : PieceAssembler) : Prop :=
  forall i, 0 <= i < zlen data ->
    zget (received a) (i / BLOCK_SIZE) = Some true -> zget (buf a) i = zget data i.

Lemma zlen_block_of data b :
  0 <= b -> b * BLOCK_SIZE < zlen data ->
  zlen (block_of data b) = Z.min (zlen data - b * BLOCK_SIZE) BLOCK_SIZE.
Proof. intros. unfold block_of. rewrite zlen_slice; unfold BLOCK_SIZE in *; lia. Qed.

Lemma deliver_step data a b :
  wf a -> holds data a -> zlen data = pw_length (work a) -> 0 <= b < num_blocks a ->
  exists a', apply_op data a (Deliver b) = Some a' /\ wf a' /\ holds data a' /\ work a' = work a /\
    forall c, 0 <= c < num_blocks a ->
      zget (received a') c = Some true <-> zget (received a) c = Some true \/ c = b.
Proof.
  intros Ha Hdata Hlen [Hb0 Hb]. pose proof (wf_length a Ha) as [_ Hmax].
  pose proof (proj1 (block_in_piece a b Ha) Hb) as Hin. simpl.
  assert (zlen (block_of data b) = Z.min (zlen data - b * BLOCK_SIZE) BLOCK_SIZE) as Hz
    by (apply zlen_block_of; lia).
  assert (b * BLOCK_SIZE / BLOCK_SIZE = b) as Hdiv by (by apply Z.div_mul).
  assert (u_ok 32 (b * BLOCK_SIZE)) as Hu by (split; unfold BLOCK_SIZE in *; lia).
  assert (zlen (block_of data b) < 2 ^ 32) as Hd by (unfold BLOCK_SIZE in *; lia).
  destruct (record_block_cases a (b * BLOCK_SIZE) (block_of data b) Ha Hu Hd) as
    [(Hacc & _ & Hr) | [(_ & Hge & Hr) | (Hnot & e & Hr)]]; rewrite ?Hdiv in Hr; [| rewrite Hdiv in Hge; lia |].
  - eexists. rewrite Hr. split; [done |].
    split; [exact (record_block_wf _ _ _ _ Ha Hu Hd Hr) |]. split_and!; try done.
    + intros i Hi. simpl. rewrite zget_insert by (unfold num_blocks in Hb; try apply Z.div_pos; done || lia).
      rewrite zget_splice by (rewrite ?(wf_buf a Ha); lia || (unfold BLOCK_SIZE; lia)).
      pose proof (Z.div_mod i BLOCK_SIZE ltac:(done)). pose proof (Z.mod_pos_bound i BLOCK_SIZE ltac:(done)).
      destruct (Z.eqb_spec (i / BLOCK_SIZE) b) as [Hib | Hib].
      * intros _. rewrite (proj2 (Z.leb_le _ _)), (proj2 (Z.ltb_lt _ _)) by lia. cbn [andb].
        unfold block_of. rewrite zget_slice by (unfold BLOCK_SIZE in *; lia). f_equal. lia.
      * intros Hgot. rewrite <- (Hdata i Hi Hgot).
        destruct (Z.leb_spec (b * BLOCK_SIZE) i), (Z.ltb_spec i (b * BLOCK_SIZE + zlen (block_of data b)));
          cbn [andb]; try done.
        exfalso. apply Hib. symmetry. apply Z.div_unique with (i - b * BLOCK_SIZE); unfold BLOCK_SIZE in *; lia.
    + intros c Hc. simpl. rewrite zget_insert by (unfold num_blocks in *; lia).
      destruct (Z.eqb_spec c b); naive_solver.
  - exists a. rewrite Hr. split_and!; try done. intros c Hc. split; [tauto |]. intros [| ->]; [done |].
    destruct (is_complete a) eqn:Hcomp; [by apply is_complete_spec |].
    exfalso. apply Hnot. unfold accepts. rewrite Hdiv, Hz, Hlen. split_and!; [done | lia | done].
Qed.

Lemma run_spec data a ops :
  wf a -> holds data a -> zlen data = pw_length (work a) -> Forall (op_ok (work a)) ops ->
  exists a', run data a ops = Some a' /\ wf a' /\ holds data a' /\ work a' = work a /\
    forall c, 0 <= c < num_blocks a ->
      zget (received a') c = Some true <-> zget (received a) c = Some true \/ Deliver c ∈ ops.
Proof.
  intros Ha Hh Hlen Hops. revert a Ha Hh Hlen Hops.
  induction ops as [| op ops IH]; intros a Ha Hh Hlen Hops.
  { exists a. split_and!; try done. intros c _. set_solver. }
  apply Forall_cons in Hops as [Hop Hops].
  assert (exists a1, apply_op data a op = Some a1 /\ wf a1 /\ holds data a1 /\ work a1 = work a /\
    num_blocks a1 = num_blocks a /\ forall c, 0 <= c < num_blocks a ->
      zget (received a1) c = Some true <-> zget (received a) c = Some true \/ Deliver c = op) as
    (a1 & Hstep & Ha1 & Hh1 & Hw1 & Hn1 & Hr1).
  { destruct op as [n | | begin | b].
    - destruct (next_requests_spec a n Ha) as (a1 & H1 & _ & Hwf & Hw & Hb & Hr).
      exists a1. simpl. rewrite H1. unfold holds, num_blocks. rewrite Hb, Hr, Hw. split_and!; try done. naive_solver.
    - exists (forget_requests a). split_and!; try done; [by apply forget_requests_wf | naive_solver].
    - destruct (refuse_request_spec a begin Ha Hop) as (a1 & H1 & Hwf & Hw & Hb & Hr & _).
      exists a1. simpl. rewrite H1. unfold holds, num_blocks. rewrite Hb, Hr, Hw. split_and!; try done. naive_solver.
    - assert (num_blocks a = div_ceil (pw_length (work a)) BLOCK_SIZE) as Hnb by apply (wf_received a Ha).
      destruct (deliver_step data a b Ha Hh Hlen) as (a1 & H1 & Hwf & Hh1 & Hw & Hr); [by rewrite Hnb |].
      exists a1. split_and!; try done.
      + rewrite Hnb. unfold num_blocks. by rewrite (wf_received a1 Hwf), Hw.
      + intros c Hc. rewrite (Hr c Hc). naive_solver. }
  destruct (IH a1 Ha1 Hh1) as (a' & Hrun & Ha' & Hh' & Hw' & Hr'); [by rewrite Hw1 | by rewrite Hw1 |].
  exists a'. simpl. rewrite Hstep. simpl. split_and!; try done; [by rewrite Hw' |].
  intros c Hc. rewrite Hr', Hr1, elem_of_cons by (rewrite ?Hn1; done). tauto.
Qed.

(** A complete assembler that holds [data] has it in its buffer. *)
Lemma complete_holds data a :
  wf a -> holds data a -> zlen data = pw_length (work a) -> is_complete a = true -> buf a = data.
Proof.
  intros Ha Hh Hlen Hc. apply zget_ext; [by rewrite (wf_buf a Ha) |].
  intros i Hi. rewrite (wf_buf a Ha) in Hi. apply Hh; [lia |].
  apply (proj1 (is_complete_spec a) Hc). by apply (block_of_begin a i Ha Hi).
Qed.

(** ** Properties *)

(** The requests a connection sends: [next_requests] does not panic and
    hands out the first [n] of the blocks still to be asked for, leaving the
    rest in order, so that no block is asked for twice; each is a block that
    has not arrived, of a size the wire allows and inside the piece; and after
    [forget_requests] exactly the missing blocks are to be asked for. *)
Theorem next_requests_hand_out (a : PieceAssembler) (n : nat) (Ha : wf a) :
  (exists a', next_requests a n = Some (a', the_request (work a) <$> take n (to_ask a)) /\
     to_ask a' = drop n (to_ask a) /\ wf a' /\ received a' = received a /\ buf a' = buf a) /\
  NoDup (to_ask a) /\
  (forall b, b ∈ to_ask a -> missing a b /\
     let '(_, begin, len) := the_request (work a) b in
     0 <= begin /\ 0 < len <= BLOCK_SIZE /\ begin + len <= pw_length (work a)) /\
  (forall b, b ∈ to_ask (forget_requests a) <-> missing a b).
Proof.
  split_and!.
  - destruct (next_requests_spec a n Ha) as (a' & H1 & H2 & H3 & _ & H4 & H5). by exists a'.
  - by apply to_ask_nodup.
  - intros b Hb. destruct (to_ask_in a b Ha Hb) as [[Hb0 Hn] Hm]. split; [done |].
    apply (block_in_piece a b Ha) in Hn. unfold the_request, BLOCK_SIZE in *. lia.
  - intros b. split; [intros Hb; by apply (to_ask_in _ _ (forget_requests_wf a Ha)) in Hb as [_ ?] |].
    intros Hm. unfold to_ask. simpl. apply list_elem_of_filter. split; [done |].
    apply elem_of_seqZ. apply zget_Some in Hm as [Hm _]. unfold num_blocks. simpl. lia.
Qed.

Definition example_work : PieceWork := mkPieceWork 3 (replicate 20 0) 32768 None.

Lemma next_requests_hand_out_witness :
  exists a', next_requests (new example_work) 1 = Some (a', [(3, 0, 16384)]) /\ to_ask a' = [1].
Proof.
  destruct (next_requests_hand_out (new example_work) 1) as [(a' & H1 & H2 & _) _];
    [apply new_wf; done |].
  exists a'. split; [rewrite H1; vm_compute; reflexivity | rewrite H2; vm_compute; reflexivity].
Defined.

(** C39: what an untrusted [piece] message can do: whatever its offset and
    payload, [record_block] either takes the block, leaving the assembler
    well formed, or refuses it, with one exception: an empty block at the end
    of an unfinished piece whose length is a multiple of the block size passes
    every check and indexes [received] one past its end. *)
Theorem record_block_panics_iff (a : PieceAssembler) (begin : Z) (data : list Z)
    (Ha : wf a) (Hb : u_ok 32 begin) (Hd : zlen data < 2 ^ 32) :
  (record_block a begin data = None <->
   is_complete a = false /\ begin = pw_length (work a) /\ data = [] /\ pw_length (work a) mod BLOCK_SIZE = 0) /\
  (forall a', record_block a begin data = Some (Ok a') -> wf a' /\
     received a' = <[Z.to_nat (begin / BLOCK_SIZE) := true]> (received a) /\
     buf a' = splice (buf a) begin data).
Proof.
  destruct (record_block_cases a begin data Ha Hb Hd) as
    [(Hacc & Hlt & Hr) | [(Hacc & Hge & Hr) | (Hnot & e & Hr)]]; rewrite Hr; split; try done.
  - split; [done |]. intros (_ & H). apply (accepts_in_piece a begin data Ha Hb Hacc) in H. lia.
  - intros a' [= <-]. split; [by eapply record_block_wf | done].
  - split; [| done]. intros _. split; [apply Hacc |]. by apply (accepts_in_piece a begin data Ha Hb Hacc).
  - split; [done |]. intros (Hc & -> & -> & Hm). exfalso. apply Hnot. split_and!; [done | rewrite zlen_nil; lia |].
    rewrite zlen_nil. pose proof (Z.div_mod (pw_length (work a)) BLOCK_SIZE ltac:(done)).
    rewrite Z.min_l; unfold BLOCK_SIZE in *; lia.
Qed.

Lemma record_block_panics_iff_witness : record_block (new example_work) 32768 [] = None.
Proof.
  apply (record_block_panics_iff (new example_work) 32768 []);
    [apply new_wf; done | done | reflexivity | done].
Defined.

(** A piece fetched from a peer that has it: whatever requests, chokes,
    refusals and block arrivals happen, in whatever order and with whatever
    repetitions, nothing panics, exactly the delivered blocks are marked as
    received, and once all of them are, [finish] gives the data if it has the
    hash of the torrent and a hash mismatch if it has not. *)
Theorem honest_download_finishes (sha1 : list Z -> list Z) (w : PieceWork) (data : list Z) (ops : list Op)
    (Hw : u_ok 32 (pw_length w)) (Hlen : zlen data = pw_length w) (Hops : Forall (op_ok w) ops) :
  exists a, run data (new w) ops = Some a /\
    (forall b, 0 <= b < div_ceil (pw_length w) BLOCK_SIZE ->
       zget (received a) b = Some true <-> Deliver b ∈ ops) /\
    ((forall b, 0 <= b < div_ceil (pw_length w) BLOCK_SIZE -> Deliver b ∈ ops) ->
     finish sha1 a = if matches sha1 w data then Ok data else Err HashMismatch).
Proof.
  pose proof (new_wf w Hw) as Hnew.
  assert (num_blocks (new w) = div_ceil (pw_length w) BLOCK_SIZE) as Hnb by apply (wf_received _ Hnew).
  assert (forall b, zget (received (new w)) b <> Some true) as Hnone.
  { intros b Hb. apply zget_Some in Hb as [_ Hb]. simpl in Hb. apply lookup_replicate in Hb as [? _]. done. }
  destruct (run_spec data (new w) ops Hnew) as (a & Hrun & Ha & Hh & Hwork & Hr); [| done | done |].
  { intros i _ Hgot. by apply Hnone in Hgot. }
  rewrite Hnb in Hr. exists a. split; [done |].
  assert (forall b, 0 <= b < div_ceil (pw_length w) BLOCK_SIZE ->
       zget (received a) b = Some true <-> Deliver b ∈ ops) as Hiff.
  { intros b Hb. rewrite (Hr b Hb). specialize (Hnone b). naive_solver. }
  split; [done |]. intros Hall. simpl in Hwork.
  assert (is_complete a = true) as Hc.
  { apply is_complete_spec. intros b Hb. unfold num_blocks in Hb. rewrite (wf_received a Ha), Hwork in Hb.
    apply Hiff; [done |]. by apply Hall. }
  unfold finish. rewrite Hc, (complete_holds data a Ha Hh), Hwork by (rewrite ?Hwork; done).
  by destruct (matches sha1 w data).
Qed.

Lemma honest_download_finishes_witness :
  exists a, run [7; 8; 9] (new (mkPieceWork 0 [24] 3 None)) [Ask 4; Choked; Deliver 0] = Some a /\
    finish (fun d => [foldr Z.add 0 d]) a = Ok [7; 8; 9].
Proof.
  destruct (honest_download_finishes (fun d => [foldr Z.add 0 d]) (mkPieceWork 0 [24] 3 None) [7; 8; 9]
              [Ask 4; Choked; Deliver 0]) as (a & Hrun & _ & Hfin);
    [done | done | repeat (constructor; [done |]); constructor |].
  exists a. split; [exact Hrun |]. rewrite Hfin; [reflexivity |].
  intros b Hb. cbn in Hb. assert (b = 0) as -> by (change (0 <= b < 1) in Hb; lia). set_solver.
Defined.
