(* ===== verification/Partial.v ===== *)
(** * The file of unfinished pieces

    Models the format of [src/src/downloader/partial.rs]: the bytes [save]
    writes and [parse], which reads them back.  Creating, renaming and reading
    the file itself is not modelled. *)

From S2P Require Import Prelude Bytes PeerState PieceAssembler.

(** [b"BTRSPRT1"]. *)
Definition MAGIC : list Z := [66; 84; 82; 83; 80; 82; 84; 49].

(** The loop of [save] over the received blocks:
    [bitmap[block / 8] |= 0x80 >> (block % 8)]. *)
Definition set_block (st : nat * list Z) (got : bool) : nat * list Z :=
  let '(block, bitmap) := st in
  (S block, if got
            then alter (fun b => Z.lor b (Z.shiftr 128 (Z.of_nat (block mod 8)))) (block / 8)%nat bitmap
            else bitmap).

Definition block_bitmap (received : list bool) : list Z :=
  (foldl set_block (0%nat, replicate (Z.to_nat (div_ceil (zlen received) 8)) 0) received).2.

Definition piece_bytes (entry : Z * PartialPiece) : list Z :=
  let '(index, partial) := entry in
  be32 index ++ be32 (zlen (pp_data partial)) ++ pp_data partial ++ block_bitmap (pp_received partial).

(** The bytes [save] writes. *)
Definition save_bytes (partials : list (Z * PartialPiece)) : list Z :=
  MAGIC ++ be32 (zlen partials) ++ flat_map piece_bytes partials.

Definition take_u32 (bytes : list Z) : option (Z * list Z) :=
  if zlen bytes <? 4 then None
  else Some (from_be_bytes (take 4 bytes), drop 4 bytes).

(** [(0..blocks).map(|block| bitmap[block / 8] & (0x80 >> (block % 8)) != 0)];
    [None] is an index past the bitmap. *)
Definition read_flags (blocks : nat) (bitmap : list Z) : option (list bool) :=
  mapM (fun block : nat =>
          byte ← bitmap !! (block / 8)%nat;
          Some (negb (Z.land byte (Z.shiftr 128 (Z.of_nat (block mod 8))) =? 0)))
    (seq 0 blocks).

(** One pass of the loop of [parse]. *)
Definition parse_piece (rest : list Z) : option ((Z * PartialPiece) * list Z) :=
  '(index, r) ← take_u32 rest;
  '(length, r) ← take_u32 r;
  let blocks := div_ceil length BLOCK_SIZE in
  let bitmap_len := div_ceil blocks 8 in
  total ← u_checked_add 64 length bitmap_len;
  if zlen r <? total then None
  else
    let data := take (Z.to_nat length) r in
    let r := drop (Z.to_nat length) r in
    let bitmap := take (Z.to_nat bitmap_len) r in
    let r := drop (Z.to_nat bitmap_len) r in
    received ← read_flags (Z.to_nat blocks) bitmap;
    partial ← from_parts data received;
    Some ((index, partial), r).

Fixpoint parse_pieces (count : nat) (rest : list Z) : option (list (Z * PartialPiece)) :=
  match count with
  | O => match rest with [] => Some [] | _ => None end
  | S count' =>
      '(piece, r) ← parse_piece rest;
      pieces ← parse_pieces count' r;
      Some (piece :: pieces)
  end.

Definition parse (bytes : list Z) : option (list (Z * PartialPiece)) :=
  if bool_decide (take (length MAGIC) bytes = MAGIC) then
    '(count, rest) ← take_u32 (drop (length MAGIC) bytes);
    parse_pieces (Z.to_nat count) rest
  else None.

(** ** Lemmas *)

(** The entries the queue hands to [save]. *)
Definition partial_ok (p : PartialPiece) : Prop :=
  zlen (pp_received p) = div_ceil (zlen (pp_data p)) BLOCK_SIZE /\ true ∈ pp_received p.

Definition entry_ok (e : Z * PartialPiece) : Prop :=
  u_ok 32 (fst e) /\ u_ok 32 (zlen (pp_data (snd e))) /\ partial_ok (snd e).

Lemma shiftr_128 k : (k < 8)%nat -> Z.shiftr 128 (Z.of_nat k) = Z.shiftl 1 (7 - Z.of_nat k).
Proof. intros. do 8 (destruct k as [| k]; [done |]). lia. Qed.

Lemma block_bitmap_bitfield received : block_bitmap received = bitfield_to_bytes received.
Proof.
  unfold block_bitmap, bitfield_to_bytes. f_equal.
  generalize (0%nat, replicate (Z.to_nat (div_ceil (zlen received) 8)) 0).
  induction received as [| b l IH]; intros [i out]; [done |]. cbn [foldl]. rewrite IH. f_equal.
  unfold set_block, set_bit. by rewrite shiftr_128 by (apply Nat.mod_upper_bound; lia).
Qed.

Lemma land_flag byte k :
  (k < 8)%nat -> negb (Z.land byte (Z.shiftr 128 (Z.of_nat k)) =? 0) = Z.testbit byte (7 - Z.of_nat k).
Proof.
  intros Hk. rewrite shiftr_128, Z.shiftl_1_l by done. set (j := 7 - Z.of_nat k). assert (0 <= j) by lia.
  assert (forall i, Z.testbit (Z.land byte (2 ^ j)) i = Z.testbit byte i && (j =? i)) as Hbit.
  { intros i. by rewrite Z.land_spec, Z.pow2_bits_eqb. }
  destruct (Z.eqb_spec (Z.land byte (2 ^ j)) 0) as [E | E]; simpl.
  - specialize (Hbit j). rewrite E, Z.bits_0, Z.eqb_refl, andb_true_r in Hbit. done.
  - destruct (Z.testbit byte j) eqn:Ht; [done |]. exfalso. apply E. apply Z.bits_inj'. intros i _.
    rewrite Hbit, Z.bits_0. destruct (Z.eqb_spec j i) as [<- |]; [by rewrite Ht | apply andb_false_r].
Qed.

(** Reading the flags is decoding the bitfield, cut to the blocks. *)
Lemma read_flags_bitfield blocks bitmap :
  (blocks <= 8 * length bitmap)%nat ->
  read_flags blocks bitmap = Some (take blocks (bytes_to_bitfield bitmap)).
Proof.
  intros Hb. unfold read_flags. apply mapM_Some. apply Forall2_same_length_lookup_2.
  { rewrite length_seq, length_take, bytes_to_bitfield_length. lia. }
  intros i block flag Hi Hf. apply lookup_seq in Hi as [-> Hlt]. rewrite Nat.add_0_l.
  rewrite lookup_take_lt, bytes_to_bitfield_lookup in Hf by done.
  destruct (bitmap !! (i / 8)%nat) as [byte |]; [| done].
  cbn [fmap option_fmap option_map mbind option_bind] in *. apply (inj Some) in Hf as <-.
  by rewrite land_flag by (apply Nat.mod_upper_bound; lia).
Qed.

Lemma take_u32_app z r : u_ok 32 z -> take_u32 (be32 z ++ r) = Some (z, r).
Proof.
  intros Hz. unfold take_u32. rewrite (proj2 (Z.ltb_ge _ _)) by zlen_lia.
  rewrite take_app_length', drop_app_length' by (by rewrite length_to_be_bytes).
  by rewrite from_to_be_bytes_ok.
Qed.

Lemma take_u32_Some bytes z r : bytes_ok bytes -> take_u32 bytes = Some (z, r) -> u_ok 32 z /\ bytes_ok r.
Proof.
  unfold take_u32. intros Hb. destruct (Z.ltb_spec (zlen bytes) 4) as [| Hl]; [done |].
  intros [= <- <-]. split; [| by apply Forall_drop].
  pose proof (from_be_bytes_bound (take 4 bytes) ltac:(by apply Forall_take)) as Hz.
  unfold zlen in *. rewrite length_take in Hz. replace (Nat.min 4 (length bytes)) with 4%nat in Hz by lia.
  exact Hz.
Qed.

Lemma from_parts_Some data received p :
  from_parts data received = Some p <-> p = mkPartialPiece data received /\ partial_ok p.
Proof.
  assert (existsb id received = true <-> true ∈ received) as Hex.
  { rewrite existsb_exists. setoid_rewrite list_elem_of_In. split; [| intros; by exists true].
    intros ([] & H & Hid); done. }
  unfold from_parts. destruct (Z.eqb_spec (zlen received) (div_ceil (zlen data) BLOCK_SIZE)) as [He | He]; cbn [andb].
  - destruct (existsb id received) eqn:E.
    + split; [intros [= <-] | by intros [-> _]]. split; [done |]. split; [done | by apply Hex].
    + split; [done |]. intros [-> [_ Ht]]. apply Hex in Ht. congruence.
  - split; [done |]. by intros [-> [? _]].
Qed.

Lemma parse_piece_bytes e r : entry_ok e -> parse_piece (piece_bytes e ++ r) = Some (e, r).
Proof.
  destruct e as [index [data received]]. intros (Hi & Hd & Hp). pose proof Hp as [Hr _]. cbn in Hi, Hd, Hr.
  unfold parse_piece, piece_bytes. rewrite <- app_assoc, take_u32_app by done. cbn [mbind option_bind].
  rewrite <- app_assoc, take_u32_app by done. cbn [mbind option_bind pp_data pp_received].
  rewrite <- app_assoc, block_bitmap_bitfield.
  pose proof (bitfield_bytes_length received) as Hbl.
  assert (0 <= div_ceil (zlen received) 8) by (apply div_ceil_nonneg; [apply zlen_nonneg | lia]).
  assert (zlen (bitfield_to_bytes received) = div_ceil (zlen received) 8) as Hbz by (unfold zlen at 1; lia).
  rewrite <- Hr, <- Hbz. unfold u_checked_add.
  assert (zlen (bitfield_to_bytes received) <= zlen data + 8) as Hsmall.
  { rewrite Hbz, Hr. unfold div_ceil, BLOCK_SIZE. apply Z.div_le_upper_bound; [lia |].
    pose proof (zlen_nonneg data).
    pose proof (Z.div_le_upper_bound (zlen data + 16 * 1024 - 1) (16 * 1024) (zlen data + 1)). lia. }
  rewrite (proj2 (Z.leb_le _ _)) by (destruct Hd; unfold u_max; lia). cbn [mbind option_bind].
  rewrite (proj2 (Z.ltb_ge _ _)) by zlen_lia.
  assert (Z.to_nat (zlen data) = length data) as -> by (unfold zlen; lia).
  rewrite take_app_length, drop_app_length.
  assert (Z.to_nat (zlen (bitfield_to_bytes received)) = length (bitfield_to_bytes received)) as -> by (unfold zlen; lia).
  rewrite take_app_length, drop_app_length.
  pose proof (bitfield_roundtrip received) as Hround.
  rewrite read_flags_bitfield.
  - rewrite Hround. cbn [mbind option_bind].
    rewrite take_app_length' by (unfold zlen; lia).
    rewrite (proj2 (from_parts_Some data received (mkPartialPiece data received))) by done. done.
  - apply (f_equal length) in Hround. rewrite bytes_to_bitfield_length, length_app in Hround. unfold zlen. lia.
Qed.

Lemma parse_pieces_bytes es :
  Forall entry_ok es -> parse_pieces (length es) (flat_map piece_bytes es) = Some es.
Proof.
  induction 1 as [| e es He Hes IH]; [done |]. cbn [length parse_pieces flat_map].
  rewrite parse_piece_bytes by done. cbn [mbind option_bind]. by rewrite IH.
Qed.

Lemma parse_piece_ok bytes e r :
  bytes_ok bytes -> parse_piece bytes = Some (e, r) -> entry_ok e /\ bytes_ok r.
Proof.
  intros Hb H. unfold parse_piece in H.
  destruct (take_u32 bytes) as [[index r1] |] eqn:E1; [| done]. cbn [mbind option_bind] in H.
  destruct (take_u32_Some _ _ _ Hb E1) as [Hi Hr1].
  destruct (take_u32 r1) as [[len r2] |] eqn:E2; [| done]. cbn [mbind option_bind] in H.
  destruct (take_u32_Some _ _ _ Hr1 E2) as [Hlen Hr2]. pose proof Hlen as [? ?].
  destruct (u_checked_add _ _ _) as [total |] eqn:E3; [| done]. cbn [mbind option_bind] in H.
  unfold u_checked_add in E3. destruct (_ <=? _); [| done]. apply (inj Some) in E3 as <-.
  destruct (Z.ltb_spec (zlen r2) (len + div_ceil (div_ceil len BLOCK_SIZE) 8)); [done |].
  destruct (read_flags _ _) as [received |]; [| done]. cbn [mbind option_bind] in H.
  destruct (from_parts _ received) as [p |] eqn:E4; [| done]. cbn [mbind option_bind] in H.
  apply (inj Some) in H. injection H as <- <-. apply from_parts_Some in E4 as [-> Hp].
  split; [| by do 2 apply Forall_drop]. split; [done |]. split; [| done]. simpl.
  assert (0 <= div_ceil (div_ceil len BLOCK_SIZE) 8) by (repeat apply div_ceil_nonneg; done).
  unfold zlen in *. rewrite length_take, Nat.min_l, Z2Nat.id by lia. done.
Qed.

Lemma parse_pieces_ok count bytes es :
  bytes_ok bytes -> parse_pieces count bytes = Some es -> Forall entry_ok es /\ length es = count.
Proof.
  revert bytes es. induction count as [| count IH]; intros bytes es Hb H; cbn [parse_pieces] in H.
  - destruct bytes; [| done]. by injection H as <-.
  - destruct (parse_piece bytes) as [[e r] |] eqn:E; [| done]. cbn [mbind option_bind] in H.
    destruct (parse_pieces count r) as [es' |] eqn:E'; [| done]. cbn [mbind option_bind] in H.
    injection H as <-. destruct (parse_piece_ok _ _ _ Hb E) as [He Hr].
    destruct (IH _ _ Hr E') as [Hes Hl]. split; [by constructor | simpl; by rewrite Hl].
Qed.

(** ** Properties *)

(** What a stopped run keeps, the next one gets back: [parse] reads exactly
    the pieces [save] wrote, and of any bytes at all it only ever returns
    pieces with one flag for each block of their data and a block held. *)
Theorem partial_file_roundtrip (ps : list (Z * PartialPiece)) (bytes : list Z)
    (Hps : Forall entry_ok ps) (Hn : zlen ps < 2 ^ 32) (Hb : bytes_ok bytes) :
  parse (save_bytes ps) = Some ps /\
  (forall qs, parse bytes = Some qs -> Forall entry_ok qs).
Proof.
  split.
  - unfold parse, save_bytes. rewrite take_app_length, drop_app_length, bool_decide_true by done.
    rewrite take_u32_app by (split; [apply zlen_nonneg | done]). cbn [mbind option_bind].
    unfold zlen. rewrite Nat2Z.id. by apply parse_pieces_bytes.
  - intros qs. unfold parse. destruct (bool_decide _); [| done].
    destruct (take_u32 (drop (length MAGIC) bytes)) as [[count rest] |] eqn:E; [| done]. cbn [mbind option_bind].
    apply take_u32_Some in E as [_ Hrest]; [| by apply Forall_drop].
    intros H. by apply (parse_pieces_ok (Z.to_nat count) rest).
Qed.

Lemma partial_file_roundtrip_witness :
  parse (save_bytes [(5, mkPartialPiece [1; 2; 3] [true])]) = Some [(5, mkPartialPiece [1; 2; 3] [true])].
Proof.
  apply (partial_file_roundtrip [(5, mkPartialPiece [1; 2; 3] [true])] []); [| done | constructor].
  constructor; [| constructor]. split; [done |]. split; [done |]. split; [reflexivity | constructor].
Defined.
