(* ===== verification/Queue.v ===== *)
(** * The work queue

    Models [src/src/downloader/queue.rs]: the pieces pending, claimed and done,
    the stash of partly fetched pieces, the rarest-first choice and endgame
    mode.  Every method takes the lock for its whole body, so a method is one
    step and what the worker threads do is a sequence of steps, in any order.
    A [None] of [take] is a panic ([swap_remove] out of range). *)

From stdpp Require Import sorting.
From S2P Require Import Prelude PieceAssembler.

Inductive Order : Type := RarestFirst | Sequential.

Inductive Take : Type :=
| Piece (w : PieceWork)
| NothingForThisPeer
| Done.

Definition MAX_STASHED_BYTES : Z := 64 * 2 ^ 20.

(** [WorkQueue], with the fields of [Inner] in place. *)
Record WorkQueue : Type := mkWorkQueue {
  pending : list PieceWork;
  claimed : gmap Z PieceWork;
  done_ : gset Z;
  partial : gmap Z PartialPiece;
  availability : list Z;
  order : Order;
  preferred : gset Z
}.

Definition new (pieces : list PieceWork) (total_pieces : nat) : WorkQueue :=
  mkWorkQueue pieces ∅ ∅ ∅ (replicate total_pieces 0) RarestFirst ∅.

Definition with_preferred (q : WorkQueue) (p : gset Z) : WorkQueue :=
  mkWorkQueue (pending q) (claimed q) (done_ q) (partial q) (availability q) (order q) p.

Definition with_order (q : WorkQueue) (o : Order) : WorkQueue :=
  mkWorkQueue (pending q) (claimed q) (done_ q) (partial q) (availability q) o (preferred q).

(** The rank of a piece: lower comes first. *)
Definition Rank : Type := Z * Z * Z.

Definition rank (q : WorkQueue) (w : PieceWork) : Rank :=
  let later := if bool_decide (pw_index w ∈ preferred q) then 0 else 1 in
  match order q with
  | RarestFirst => (later, default 0 (zget (availability q) (pw_index w)), pw_index w)
  | Sequential => (later, 0, pw_index w)
  end.

(** The order of the tuples [rank] gives. *)
Definition rank_ltb (a b : Rank) : bool :=
  let '(a1, a2, a3) := a in
  let '(b1, b2, b3) := b in
  (a1 <? b1) || ((a1 =? b1) && ((a2 <? b2) || ((a2 =? b2) && (a3 <? b3)))).

(** [Iterator::min_by_key]: the first of the least elements. *)
Fixpoint min_by_key {A} (key : A -> Rank) (l : list A) : option A :=
  match l with
  | [] => None
  | x :: l' =>
      match min_by_key key l' with
      | None => Some x
      | Some y => if rank_ltb (key y) (key x) then Some y else Some x
      end
  end.

(** [Vec::swap_remove]: the element, and the vector with its last element in
    that place. *)
Definition swap_remove {A} (l : list A) (i : nat) : option (A * list A) :=
  x ← l !! i;
  y ← last l;
  Some (x, take (length l - 1) (<[i := y]> l)).

Definition enumerate {A} (l : list A) : list (nat * A) := imap pair l.

Definition take_work (q : WorkQueue) (has : Z -> bool) (endgame_duplicates : bool) : option (WorkQueue * Take) :=
  let first_offered :=
    fst <$> min_by_key (fun iw : nat * PieceWork => rank q (snd iw))
              (filter (fun iw : nat * PieceWork => has (pw_index (snd iw)) = true) (enumerate (pending q))) in
  match first_offered with
  | Some index =>
      '(work, rest) ← swap_remove (pending q) index;
      Some (mkWorkQueue rest (<[pw_index work := work]> (claimed q)) (done_ q) (partial q)
              (availability q) (order q) (preferred q), Piece work)
  | None =>
      let duplicate :=
        if endgame_duplicates && bool_decide (pending q = []) then
          min_by_key (rank q)
            (filter (fun w => has (pw_index w) = true) (snd <$> map_to_list (claimed q)))
        else None in
      match duplicate with
      | Some work => Some (q, Piece work)
      | None =>
          Some (q, if bool_decide (pending q = []) && bool_decide (claimed q = ∅)
                   then Done else NothingForThisPeer)
      end
  end.

Definition take_for (q : WorkQueue) (has : Z -> bool) : option (WorkQueue * Take) := take_work q has true.

Definition pop (q : WorkQueue) : option (WorkQueue * option PieceWork) :=
  '(q', t) ← take_for q (fun _ => true);
  Some (q', match t with Piece work => Some work | _ => None end).

Definition take_pending_for (q : WorkQueue) (has : Z -> bool) : option (WorkQueue * option PieceWork) :=
  '(q', t) ← take_work q has false;
  Some (q', match t with Piece work => Some work | _ => None end).

Definition push_back (q : WorkQueue) (w : PieceWork) : WorkQueue :=
  if bool_decide (pw_index w ∈ done_ q) then q
  else
    mkWorkQueue
      (if bool_decide (Exists (fun v => pw_index v = pw_index w) (pending q)) then pending q else pending q ++ [w])
      (delete (pw_index w) (claimed q)) (done_ q) (partial q) (availability q) (order q) (preferred q).

(** The bytes the stashes hold. *)
Definition stash_bytes (m : gmap Z PartialPiece) : Z := map_fold (fun _ p acc => partial_size p + acc) 0 m.

Definition set_partial (q : WorkQueue) (m : gmap Z PartialPiece) : WorkQueue :=
  mkWorkQueue (pending q) (claimed q) (done_ q) m (availability q) (order q) (preferred q).

Definition stash_partial (q : WorkQueue) (index : Z) (p : PartialPiece) : WorkQueue :=
  if bool_decide (index ∈ done_ q) then q
  else
    let held := stash_bytes (delete index (partial q)) in
    if MAX_STASHED_BYTES <? held + partial_size p then q
    else
      match partial q !! index with
      | Some existing =>
          if blocks_held p <=? blocks_held existing then q
          else set_partial q (<[index := p]> (partial q))
      | None => set_partial q (<[index := p]> (partial q))
      end.

Definition take_partial (q : WorkQueue) (index : Z) : WorkQueue * option PartialPiece :=
  (set_partial q (delete index (partial q)), partial q !! index).

Definition entry_le (a b : Z * PartialPiece) : Prop := fst a <= fst b.

#[export] Instance entry_le_dec a b : Decision (entry_le a b).
Proof. unfold entry_le. apply _. Defined.

Definition partials (q : WorkQueue) : list (Z * PartialPiece) := merge_sort entry_le (map_to_list (partial q)).

Definition is_wanted (q : WorkQueue) (index : Z) : bool :=
  negb (bool_decide (index ∈ done_ q)) &&
  (bool_decide (is_Some (claimed q !! index)) || bool_decide (Exists (fun w => pw_index w = index) (pending q))).

Definition any_wanted_in (q : WorkQueue) (has : list bool) : bool :=
  let held index := default false (zget has index) in
  existsb (fun w => held (pw_index w)) (pending q) ||
  existsb (fun kw => negb (bool_decide (fst kw ∈ done_ q)) && held (fst kw)) (map_to_list (claimed q)).

Definition mark_done (q : WorkQueue) (index : Z) : WorkQueue * bool :=
  let newly_done := negb (bool_decide (index ∈ done_ q)) in
  (mkWorkQueue (filter (fun w => pw_index w <> index) (pending q)) (delete index (claimed q))
     ({[index]} ∪ done_ q) (delete index (partial q)) (availability q) (order q) (preferred q), newly_done).

Definition is_done (q : WorkQueue) (index : Z) : bool := bool_decide (index ∈ done_ q).

Definition is_empty (q : WorkQueue) : bool := bool_decide (pending q = []) && bool_decide (claimed q = ∅).

Definition len (q : WorkQueue) : nat := (length (pending q) + size (claimed q))%nat.

Definition in_endgame (q : WorkQueue) : bool := bool_decide (pending q = []) && negb (bool_decide (claimed q = ∅)).

Definition set_availability (q : WorkQueue) (av : list Z) : WorkQueue :=
  mkWorkQueue (pending q) (claimed q) (done_ q) (partial q) av (order q) (preferred q).

(** Counts wrap at [u32], as the release build's additions do. *)
Definition note_have (q : WorkQueue) (piece_index : Z) : WorkQueue :=
  match zget (availability q) piece_index with
  | Some count => set_availability q (<[Z.to_nat piece_index := wrap 32 (count + 1)]> (availability q))
  | None => q
  end.

Fixpoint count_bits (av : list Z) (have : list bool) : list Z :=
  match av, have with
  | count :: av', has_it :: have' => (if has_it then wrap 32 (count + 1) else count) :: count_bits av' have'
  | _, _ => av
  end.

Definition note_bitfield (q : WorkQueue) (have : list bool) : WorkQueue :=
  set_availability q (count_bits (availability q) have).

Definition total_pieces (q : WorkQueue) : nat := length (availability q).

(** ** Steps

    What the workers of a download of [pieces] do to the queue: each works on
    a piece it was handed, gives it back or retires it. *)

#[export] Instance merkle_eq_dec : EqDecision Merkle.
Proof. solve_decision. Defined.
#[export] Instance work_eq_dec : EqDecision PieceWork.
Proof. solve_decision. Defined.

Inductive step (pieces : list PieceWork) : WorkQueue -> WorkQueue -> Prop :=
| step_take q q' has dup t : take_work q has dup = Some (q', t) -> step pieces q q'
| step_push_back q w : w ∈ pieces -> step pieces q (push_back q w)
| step_done q w : w ∈ pieces -> step pieces q (mark_done q (pw_index w)).1
| step_stash q i p : step pieces q (stash_partial q i p)
| step_take_partial q i : step pieces q (take_partial q i).1
| step_have q i : step pieces q (note_have q i)
| step_bitfield q have : step pieces q (note_bitfield q have).

Definition reachable (pieces : list PieceWork) (total : nat) (o : Order) (p : gset Z) : WorkQueue -> Prop :=
  rtc (step pieces) (with_preferred (with_order (new pieces total) o) p).

(** ** The invariant *)

Definition indices (l : list PieceWork) : list Z := pw_index <$> l.

(** Where the pieces of the download are: each in exactly one of the three
    places, under its index, and nothing else anywhere. *)
Record partitioned (pieces : list PieceWork) (q : WorkQueue) : Prop := {
  part_nodup : NoDup (indices (pending q));
  part_pending : forall w, w ∈ pending q -> w ∈ pieces /\ claimed q !! pw_index w = None /\ pw_index w ∉ done_ q;
  part_claimed : forall i w, claimed q !! i = Some w -> w ∈ pieces /\ pw_index w = i /\ i ∉ done_ q;
  part_all : forall w, w ∈ pieces -> w ∈ pending q \/ claimed q !! pw_index w = Some w \/ pw_index w ∈ done_ q;
  part_done : forall i, i ∈ done_ q -> i ∈ indices pieces
}.

Record stash_ok (q : WorkQueue) : Prop := {
  stash_wanted : forall i, is_Some (partial q !! i) -> i ∉ done_ q;
  stash_bound : stash_bytes (partial q) <= MAX_STASHED_BYTES
}.

Definition inv (pieces : list PieceWork) (q : WorkQueue) : Prop := partitioned pieces q /\ stash_ok q.

(** ** The choice of a piece *)

Lemma rank_ltb_lt a b :
  rank_ltb a b = true <->
  a.1.1 < b.1.1 \/ a.1.1 = b.1.1 /\ (a.1.2 < b.1.2 \/ a.1.2 = b.1.2 /\ a.2 < b.2).
Proof.
  destruct a as [[a1 a2] a3], b as [[b1 b2] b3]. cbn [rank_ltb fst snd].
  rewrite orb_true_iff, andb_true_iff, orb_true_iff, andb_true_iff, !Z.ltb_lt, !Z.eqb_eq. done.
Qed.

Lemma rank_ltb_ge a b : rank_ltb a b = false <-> ~ rank_ltb a b = true.
Proof. destruct (rank_ltb a b); naive_solver. Qed.

Lemma rank_le_trans a b c : rank_ltb b a = false -> rank_ltb c b = false -> rank_ltb c a = false.
Proof. rewrite !rank_ltb_ge, !rank_ltb_lt. lia. Qed.

Lemma rank_lt_le a b : rank_ltb a b = true -> rank_ltb b a = false.
Proof. rewrite rank_ltb_ge, !rank_ltb_lt. lia. Qed.

Lemma min_by_key_Some {A} (key : A -> Rank) l x :
  min_by_key key l = Some x -> x ∈ l /\ forall y, y ∈ l -> rank_ltb (key y) (key x) = false.
Proof.
  revert x. induction l as [| z l IH]; intros x; [done |]. cbn [min_by_key].
  destruct (min_by_key key l) as [y |] eqn:E.
  - specialize (IH y eq_refl) as [Hy Hmin]. destruct (rank_ltb (key y) (key z)) eqn:Hlt; intros [= <-].
    + split; [by right |]. intros u [-> | Hu]%elem_of_cons; [by apply rank_lt_le | by apply Hmin].
    + split; [by left |]. intros u [-> | Hu]%elem_of_cons; [rewrite rank_ltb_ge, rank_ltb_lt; lia |].
      eapply rank_le_trans; [exact Hlt | by apply Hmin].
  - intros [= <-]. destruct l as [| u l].
    + split; [by left |]. intros y ->%list_elem_of_singleton. rewrite rank_ltb_ge, rank_ltb_lt. lia.
    + cbn [min_by_key] in E. destruct (min_by_key key l); [by destruct (rank_ltb _ _) | done].
Qed.

Lemma min_by_key_None {A} (key : A -> Rank) l : min_by_key key l = None <-> l = [].
Proof.
  destruct l as [| x l]; [done |]. cbn [min_by_key]. split; [| done].
  destruct (min_by_key key l); [by destruct (rank_ltb _ _) | done].
Qed.

Lemma swap_remove_perm {A} (l : list A) i x :
  l !! i = Some x -> exists rest, swap_remove l i = Some (x, rest) /\ l ≡ₚ x :: rest.
Proof.
  intros Hx. destruct l as [| y l' _] using rev_ind; [done |].
  unfold swap_remove. rewrite Hx, last_snoc. cbn [mbind option_bind].
  eexists. split; [done |]. rewrite length_app, Nat.add_sub.
  apply lookup_app_Some in Hx as [Hx | [Hi Hx]].
  - pose proof (lookup_lt_Some _ _ _ Hx) as Hlt.
    rewrite insert_app_l, take_app_length' by (rewrite ?length_insert; done).
    rewrite <- (take_drop_middle l' i x Hx) at 1. rewrite insert_take_drop by done.
    rewrite <- app_assoc. cbn [app].
    rewrite <- (Permutation_middle (take i l') _ x). constructor. apply Permutation_app_head.
    by rewrite Permutation_app_comm.
  - assert (i = length l') as -> by (apply lookup_lt_Some in Hx; simpl in Hx; lia).
    rewrite Nat.sub_diag in Hx. injection Hx as <-.
    rewrite insert_app_r_alt, Nat.sub_diag by done. simpl. rewrite take_app_length. by rewrite Permutation_app_comm.
Qed.

(** ** What [take] does *)

Definition offered (has : Z -> bool) (l : list PieceWork) : list PieceWork :=
  filter (fun w => has (pw_index w) = true) l.

Definition best (q : WorkQueue) (w : PieceWork) (l : list PieceWork) : Prop :=
  w ∈ l /\ forall v, v ∈ l -> rank_ltb (rank q v) (rank q w) = false.

Definition claimed_works (q : WorkQueue) : list PieceWork := snd <$> map_to_list (claimed q).

Inductive take_outcome (q : WorkQueue) (has : Z -> bool) (dup : bool) : WorkQueue -> Take -> Prop :=
| took_pending w rest :
    best q w (offered has (pending q)) -> pending q ≡ₚ w :: rest ->
    take_outcome q has dup
      (mkWorkQueue rest (<[pw_index w := w]> (claimed q)) (done_ q) (partial q) (availability q) (order q) (preferred q))
      (Piece w)
| took_duplicate w :
    dup = true -> pending q = [] -> best q w (offered has (claimed_works q)) ->
    take_outcome q has dup q (Piece w)
| took_nothing :
    offered has (pending q) = [] -> (dup = true -> pending q = [] -> offered has (claimed_works q) = []) ->
    ~ (pending q = [] /\ claimed q = ∅) -> take_outcome q has dup q NothingForThisPeer
| took_done : pending q = [] -> claimed q = ∅ -> take_outcome q has dup q Done.

Lemma offered_enumerate has (l : list PieceWork) (iw : nat * PieceWork) :
  iw ∈ filter (fun iw : nat * PieceWork => has (pw_index (snd iw)) = true) (enumerate l) <->
  has (pw_index (snd iw)) = true /\ l !! fst iw = Some (snd iw).
Proof.
  rewrite list_elem_of_filter. unfold enumerate. rewrite elem_of_lookup_imap.
  destruct iw as [i w]. simpl. split; [intros [H (j & v & [= <- <-] & Hj)]; done |].
  intros [H Hi]. split; [done |]. by exists i, w.
Qed.

Lemma take_work_outcome q has dup :
  exists q' t, take_work q has dup = Some (q', t) /\ take_outcome q has dup q' t.
Proof.
  unfold take_work. set (cands := filter _ (enumerate (pending q))).
  destruct (min_by_key _ cands) as [[i w] |] eqn:E; cbn [fmap option_fmap option_map].
  - apply min_by_key_Some in E as [Hin Hmin]. apply offered_enumerate in Hin as [Hhas Hi].
    cbn [fst snd] in *. destruct (swap_remove_perm _ _ _ Hi) as (rest & -> & Hperm). cbn [mbind option_bind].
    eexists _, _. split; [done |]. apply took_pending; [| done]. split.
    + apply list_elem_of_filter. split; [done |]. by eapply list_elem_of_lookup_2.
    + intros v [Hv Hv']%list_elem_of_filter. apply list_elem_of_lookup_1 in Hv' as [j Hj].
      by apply (Hmin (j, v)), offered_enumerate.
  - apply min_by_key_None in E.
    assert (offered has (pending q) = []) as Hnone.
    { apply elem_of_nil_inv. intros w [Hw Hw']%list_elem_of_filter.
      apply list_elem_of_lookup_1 in Hw' as [j Hj]. apply (not_elem_of_nil (j, w)). rewrite <- E.
      by apply offered_enumerate. }
    destruct (dup && bool_decide (pending q = [])) eqn:Hdup.
    + apply andb_true_iff in Hdup as [-> Hp%bool_decide_eq_true].
      destruct (min_by_key (rank q) _) as [w |] eqn:Ec.
      * exists q, (Piece w). split; [done |]. by apply took_duplicate, min_by_key_Some.
      * apply min_by_key_None in Ec. eexists _, _. split; [done |]. rewrite bool_decide_true by done. cbn [andb].
        case_bool_decide as Hc; [by apply took_done |]. apply took_nothing; [done | done | tauto].
    + eexists _, _. split; [done |].
      destruct (bool_decide (pending q = [])) eqn:Hp; cbn [andb].
      * apply bool_decide_eq_true in Hp. rewrite andb_true_r in Hdup. subst dup.
        case_bool_decide as Hc; [by apply took_done |]. apply took_nothing; [done | done | tauto].
      * apply bool_decide_eq_false in Hp. apply took_nothing; [done | | tauto]. intros -> ?. done.
Qed.

(** ** Preservation *)

Lemma index_inj pieces v w :
  NoDup (indices pieces) -> v ∈ pieces -> w ∈ pieces -> pw_index v = pw_index w -> v = w.
Proof.
  intros Hnd [i Hi]%list_elem_of_lookup_1 [j Hj]%list_elem_of_lookup_1 Heq.
  assert (i = j) as ->; [| by rewrite Hi in Hj; injection Hj].
  apply (NoDup_lookup (indices pieces) i j (pw_index w)); [done | |];
    unfold indices; rewrite list_lookup_fmap, ?Hi, ?Hj; simpl; by rewrite ?Heq.
Qed.

Lemma in_indices l w : w ∈ l -> pw_index w ∈ indices l.
Proof. intros. unfold indices. by apply list_elem_of_fmap_2. Qed.

Lemma take_partitioned pieces q has dup q' t :
  partitioned pieces q -> take_outcome q has dup q' t -> partitioned pieces q'.
Proof.
  intros Hp Hout. destruct Hout as [w rest [Hw _] Hperm | | |]; try done.
  assert (w ∈ pending q) as Hwp by (by apply list_elem_of_filter in Hw as [_ ?]).
  destruct (part_pending _ _ Hp w Hwp) as (Hwin & Hwc & Hwd).
  assert (NoDup (indices (w :: rest))) as Hnd.
  { unfold indices. rewrite <- Hperm. apply Hp. }
  apply NoDup_cons in Hnd as [Hnotin Hnd].
  assert (forall v, v ∈ pending q <-> v = w \/ v ∈ rest) as Hmem.
  { intros v. rewrite Hperm. apply elem_of_cons. }
  split; simpl; [done | | | | apply Hp].
  - intros v Hv. destruct (part_pending _ _ Hp v) as (H1 & H2 & H3); [apply Hmem; tauto |].
    split_and!; try done. rewrite lookup_insert_ne; [done |].
    intros Heq. apply Hnotin. rewrite Heq. by apply in_indices.
  - intros i v. rewrite lookup_insert_Some. intros [[<- <-] | [_ Hv]]; [done |]. by apply (part_claimed _ _ Hp).
  - intros v Hv. destruct (part_all _ _ Hp v Hv) as [Hin | [Hc | Hd]]; [| | tauto].
    + apply Hmem in Hin as [-> | Hin]; [right; left; by rewrite lookup_insert_eq | tauto].
    + right; left. rewrite lookup_insert_ne; [done |]. intros Heq. rewrite Heq in Hwc. congruence.
Qed.

Lemma push_back_partitioned pieces q w :
  NoDup (indices pieces) -> partitioned pieces q -> w ∈ pieces -> partitioned pieces (push_back q w).
Proof.
  intros Hnd Hp Hw. unfold push_back. case_bool_decide as Hdone; [done |].
  assert (forall v, v ∈ pieces -> v ∈ pending q \/ claimed q !! pw_index v = Some v \/ pw_index v ∈ done_ q ->
    forall pend : list PieceWork, (forall u, u ∈ pending q -> u ∈ pend) -> w ∈ pend ->
    v ∈ pend \/ delete (pw_index w) (claimed q) !! pw_index v = Some v \/ pw_index v ∈ done_ q) as Hall.
  { intros v Hv Hcase pend Hsub Hin. destruct Hcase as [H | [H | H]]; [left; auto | | tauto].
    destruct (decide (pw_index v = pw_index w)) as [Heq | Hne].
    - left. by rewrite (index_inj pieces v w).
    - right; left. by rewrite lookup_delete_ne. }
  case_bool_decide as Hex.
  - apply Exists_exists in Hex as (u & Hu & Heq).
    assert (u = w) as -> by (apply (index_inj pieces); [done | by apply (part_pending _ _ Hp) | done..]).
    destruct Hp. split; simpl; [done | | | | done].
    + intros v Hv. rewrite lookup_delete_None. naive_solver.
    + intros i v [_ Hv]%lookup_delete_Some. auto.
    + intros v Hv. apply Hall; auto.
  - rewrite <- Forall_Exists_neg, Forall_forall in Hex.
    destruct Hp. split; simpl; [| | | | done].
    + unfold indices. rewrite fmap_app. apply NoDup_app. split_and!; [done | | apply NoDup_singleton].
      intros i [v [-> Hv]]%list_elem_of_fmap Hi%list_elem_of_singleton. by apply (Hex v).
    + intros v [Hv | ->%list_elem_of_singleton]%elem_of_app; rewrite lookup_delete_None; naive_solver.
    + intros i v [_ Hv]%lookup_delete_Some. auto.
    + intros v Hv. apply Hall; auto; intros; rewrite elem_of_app, ?list_elem_of_singleton; auto.
Qed.

Lemma mark_done_partitioned pieces q w :
  partitioned pieces q -> w ∈ pieces -> partitioned pieces (mark_done q (pw_index w)).1.
Proof.
  intros [H1 H2 H3 H4 H5] Hw. split; simpl.
  - unfold indices in *. eapply sublist_NoDup; [exact H1 |]. apply fmap_sublist, sublist_filter.
  - intros v [Hne Hv]%list_elem_of_filter. rewrite lookup_delete_None. set_solver.
  - intros i v [Hne Hv]%lookup_delete_Some. set_solver.
  - intros v Hv. destruct (decide (pw_index v = pw_index w)) as [Heq | Hne]; [set_solver |].
    rewrite list_elem_of_filter, lookup_delete_ne by done. destruct (H4 v Hv) as [? | [? | ?]]; set_solver.
  - intros i [->%elem_of_singleton | Hi]%elem_of_union; [by apply in_indices | auto].
Qed.

Lemma partial_size_nonneg p : 0 <= partial_size p.
Proof. apply zlen_nonneg. Qed.

Lemma stash_bytes_insert m i p :
  stash_bytes (<[i := p]> m) = partial_size p + stash_bytes (delete i m).
Proof.
  rewrite <- insert_delete_eq. unfold stash_bytes at 1. rewrite map_fold_insert_L; [done | lia | apply lookup_delete_eq].
Qed.

Lemma stash_bytes_delete m i : stash_bytes (delete i m) <= stash_bytes m.
Proof.
  destruct (m !! i) as [p |] eqn:E.
  - rewrite <- (insert_id m i p E) at 2. rewrite stash_bytes_insert. pose proof (partial_size_nonneg p). lia.
  - by rewrite delete_id.
Qed.

Lemma stash_partial_ok q i p : stash_ok q -> stash_ok (stash_partial q i p).
Proof.
  intros Hq. unfold stash_partial. case_bool_decide as Hd; [done |].
  destruct (Z.ltb_spec MAX_STASHED_BYTES (stash_bytes (delete i (partial q)) + partial_size p)); [done |].
  assert (stash_ok (set_partial q (<[i := p]> (partial q)))) as Hset.
  { destruct Hq as [Hw _]. split; simpl.
    - intros j. rewrite lookup_insert_is_Some. intros [<- | [_ Hj]]; auto.
    - rewrite stash_bytes_insert. lia. }
  destruct (partial q !! i); [by destruct (_ <=? _) | done].
Qed.

Lemma delete_stash_ok q i m :
  stash_ok q -> m = delete i (partial q) ->
  (forall j, is_Some (m !! j) -> j ∉ done_ q) /\ stash_bytes m <= MAX_STASHED_BYTES.
Proof.
  intros [Hw Hb] ->. split.
  - intros j. rewrite lookup_delete_is_Some. intros [_ ?]. auto.
  - pose proof (stash_bytes_delete (partial q) i). lia.
Qed.

Lemma step_inv pieces q q' : NoDup (indices pieces) -> inv pieces q -> step pieces q q' -> inv pieces q'.
Proof.
  intros Hnd [Hp Hs] Hstep. destruct Hstep as [q q' has dup t Ht | q w Hw | q w Hw | q i p | q i | q i | q have].
  - destruct (take_work_outcome q has dup) as (q1 & t1 & E & Hout). rewrite Ht in E. injection E as <- <-.
    split; [by eapply take_partitioned |]. destruct Hout; try done. destruct Hs. by split.
  - split; [by apply push_back_partitioned |]. unfold push_back. case_bool_decide; [done |]. destruct Hs. by split.
  - split; [by apply mark_done_partitioned |]. split; simpl.
    + intros i [Hne Hi]%lookup_delete_is_Some. pose proof (stash_wanted _ Hs i Hi). set_solver.
    + by eapply delete_stash_ok.
  - split; [| by apply stash_partial_ok]. unfold stash_partial. case_bool_decide; [done |].
    destruct (_ <? _); [done |]. destruct Hp. destruct (partial q !! i); [destruct (_ <=? _) |]; by split.
  - split; [destruct Hp; by split |]. by split; simpl; eapply delete_stash_ok.
  - unfold note_have. destruct (zget _ _); [| done]. split; [destruct Hp; by split | destruct Hs; by split].
  - split; [destruct Hp; by split | destruct Hs; by split].
Qed.

Lemma reachable_inv pieces total o p q :
  NoDup (indices pieces) -> reachable pieces total o p q -> inv pieces q.
Proof.
  intros Hnd Hr. unfold reachable in Hr.
  assert (inv pieces (with_preferred (with_order (new pieces total) o) p)) as Hinit.
  { split; split; simpl; try set_solver. done. }
  induction Hr as [| q1 q2 q3 Hs _ IH]; [done |]. apply IH. by eapply step_inv.
Qed.

(** ** What is left to do *)

Definition todo (pieces : list PieceWork) (q : WorkQueue) : list PieceWork :=
  filter (fun w => pw_index w ∉ done_ q) pieces.

Lemma elem_of_claimed_works q w : w ∈ claimed_works q <-> exists i, claimed q !! i = Some w.
Proof.
  unfold claimed_works. rewrite list_elem_of_fmap. split.
  - intros ([i v] & -> & Hi%elem_of_map_to_list). by exists i.
  - intros [i Hi]. exists (i, w). by rewrite elem_of_map_to_list.
Qed.

Lemma claimed_works_nodup pieces q : partitioned pieces q -> NoDup (claimed_works q).
Proof.
  intros Hp. apply (NoDup_fmap_1 pw_index). unfold claimed_works. rewrite <- list_fmap_compose.
  rewrite (list_fmap_ext _ fst).
  - apply NoDup_fst_map_to_list.
  - intros k [i w] Hk%list_elem_of_lookup_2%elem_of_map_to_list. simpl. by apply (part_claimed _ _ Hp).
Qed.

Lemma todo_split pieces q :
  NoDup (indices pieces) -> partitioned pieces q -> todo pieces q ≡ₚ pending q ++ claimed_works q.
Proof.
  intros Hnd Hp. apply NoDup_Permutation.
  - apply NoDup_filter. by apply NoDup_fmap_1 in Hnd.
  - apply NoDup_app. split_and!.
    + eapply NoDup_fmap_1, Hp.
    + intros w Hw [i Hi]%elem_of_claimed_works.
      destruct (part_claimed _ _ Hp i w Hi) as (_ & <- & _). destruct (part_pending _ _ Hp w Hw) as (_ & ? & _).
      congruence.
    + by eapply claimed_works_nodup.
  - intros w. unfold todo. rewrite list_elem_of_filter, elem_of_app, elem_of_claimed_works. split.
    + intros [Hd Hin]. destruct (part_all _ _ Hp w Hin) as [? | [? | ?]]; [by left | right; eauto | done].
    + intros [Hw | [i Hi]].
      * destruct (part_pending _ _ Hp w Hw) as (? & _ & ?). done.
      * destruct (part_claimed _ _ Hp i w Hi) as (? & <- & ?). done.
Qed.

Lemma len_todo pieces q : NoDup (indices pieces) -> partitioned pieces q -> len q = length (todo pieces q).
Proof.
  intros Hnd Hp. rewrite (todo_split pieces q Hnd Hp), length_app. unfold len, claimed_works.
  by rewrite length_fmap, length_map_to_list.
Qed.

(** What [take] hands out is still to do. *)
Lemma take_piece_todo pieces q has dup q' w :
  partitioned pieces q -> take_outcome q has dup q' (Piece w) -> w ∈ todo pieces q /\ has (pw_index w) = true /\ done_ q' = done_ q.
Proof.
  intros Hp Hout. inversion Hout as [v rest [Hw _] | v _ _ [Hw _] | |]; subst;
    apply list_elem_of_filter in Hw as [Hhas Hw]; (split; [| done]); apply list_elem_of_filter.
  - by destruct (part_pending _ _ Hp w Hw) as (? & _ & ?).
  - apply elem_of_claimed_works in Hw as [i Hi]. by destruct (part_claimed _ _ Hp i w Hi) as (? & <- & ?).
Qed.

Lemma todo_mark_done pieces q w :
  NoDup (indices pieces) -> w ∈ todo pieces q ->
  todo pieces q ≡ₚ w :: todo pieces (mark_done q (pw_index w)).1.
Proof.
  intros Hnd [Hd Hw]%list_elem_of_filter. pose proof (NoDup_fmap_1 _ _ Hnd) as Hnd'.
  apply NoDup_Permutation.
  - by apply NoDup_filter.
  - constructor; [| by apply NoDup_filter]. unfold todo. rewrite list_elem_of_filter. simpl. set_solver.
  - intros v. unfold todo. rewrite elem_of_cons, !list_elem_of_filter. simpl. split.
    + intros [Hvd Hv]. destruct (decide (v = w)) as [-> | Hne]; [by left |]. right. split; [| done].
      intros [Heq%elem_of_singleton | ?]%elem_of_union; [| done]. by apply Hne, (index_inj pieces).
    + intros [-> | [Hvd Hv]]; [done |]. set_solver.
Qed.

(** A worker that takes pieces and finishes them until there are none. *)
Fixpoint drain (fuel : nat) (q : WorkQueue) : option (list PieceWork) :=
  match fuel with
  | O => None
  | S fuel' =>
      '(q', r) ← pop q;
      match r with
      | None => Some []
      | Some w => ws ← drain fuel' (mark_done q' (pw_index w)).1; Some (w :: ws)
      end
  end.

Lemma drain_todo pieces fuel q :
  NoDup (indices pieces) -> partitioned pieces q -> (len q < fuel)%nat ->
  exists ws, drain fuel q = Some ws /\ ws ≡ₚ todo pieces q.
Proof.
  intros Hnd. revert q. induction fuel as [| fuel IH]; intros q Hp Hf; [lia |].
  cbn [drain]. unfold pop, take_for.
  destruct (take_work_outcome q (fun _ => true) true) as (q' & t & -> & Hout). cbn [mbind option_bind].
  pose proof (take_partitioned _ _ _ _ _ _ Hp Hout) as Hp'.
  destruct t as [w | |].
  - destruct (take_piece_todo _ _ _ _ _ _ Hp Hout) as (Hw & _ & Hdone).
    assert (todo pieces q' = todo pieces q) as Hsame by (unfold todo; by rewrite Hdone).
    assert (w ∈ todo pieces q') as Hw' by (by rewrite Hsame).
    pose proof (todo_mark_done _ _ _ Hnd Hw') as Hperm.
    pose proof (proj2 (proj1 (list_elem_of_filter _ _ _) Hw')) as Hin.
    pose proof (mark_done_partitioned _ _ _ Hp' Hin) as Hp2.
    destruct (IH (mark_done q' (pw_index w)).1 Hp2) as (ws & -> & Hws).
    { rewrite (len_todo pieces) in * by done. rewrite <- Hsame, Hperm in Hf. simpl in Hf. simpl. lia. }
    exists (w :: ws). split; [done |]. by rewrite <- Hsame, Hperm, Hws.
  - inversion Hout as [| | Hpend Hclaim Hne |]; subst. exfalso. apply Hne.
    assert (pending q' = []) as Hnil.
    { destruct (pending q') as [| w l] eqn:E; [done |]. by cbn in Hpend. }
    split; [done |]. specialize (Hclaim eq_refl Hnil). apply map_eq. intros i. rewrite lookup_empty.
    destruct (claimed q' !! i) as [w |] eqn:Ei; [| done]. exfalso.
    apply (not_elem_of_nil w). rewrite <- Hclaim. apply list_elem_of_filter. split; [done |].
    apply elem_of_claimed_works. by exists i.
  - inversion Hout as [| | | Hpend Hclaim]; subst. exists []. split; [done |].
    rewrite (todo_split pieces q' Hnd Hp). unfold claimed_works. by rewrite Hpend, Hclaim, map_to_list_empty.
Qed.

Lemma done_stays pieces q q' i : rtc (step pieces) q q' -> i ∈ done_ q -> i ∈ done_ q'.
Proof.
  induction 1 as [| q1 q2 q3 Hs _ IH]; [done |]. intros Hi. apply IH. clear IH.
  destruct Hs as [q q' has dup t Ht | q w Hw | q w Hw | q j p | q j | q j | q have]; simpl; try done.
  - destruct (take_work_outcome q has dup) as (q1 & t1 & E & Hout). rewrite Ht in E. injection E as <- <-.
    by destruct Hout.
  - unfold push_back. by case_bool_decide.
  - set_solver.
  - unfold stash_partial. case_bool_decide; [done |]. destruct (_ <? _); [done |].
    destruct (partial q !! j); [by destruct (_ <=? _) | done].
  - unfold note_have. by destruct (zget _ _).
Qed.

(** ** Properties *)

(** C24: no piece is ever lost, duplicated or invented, whatever the workers do
    and in whatever order: in every reachable state each piece of the download
    is pending, claimed or done, and only one of them; [len] counts the pieces
    not yet done and [is_empty] holds exactly when all are; and the stash of
    partial pieces stays within its bound, none of it for a piece that is
    done. *)
Theorem queue_partition (pieces : list PieceWork) (total : nat) (o : Order) (p : gset Z) (q : WorkQueue)
    (Hnd : NoDup (indices pieces)) (Hr : reachable pieces total o p q) :
  partitioned pieces q /\
  len q = length (todo pieces q) /\
  (is_empty q = true <-> forall w, w ∈ pieces -> is_done q (pw_index w) = true) /\
  stash_bytes (partial q) <= MAX_STASHED_BYTES /\
  (forall i, is_Some (partial q !! i) -> is_done q i = false).
Proof.
  destruct (reachable_inv _ _ _ _ _ Hnd Hr) as [Hp Hs]. split_and!; [done | by apply len_todo | | apply Hs |].
  - assert (is_empty q = true <-> len q = 0%nat) as ->.
    { unfold is_empty, len. rewrite andb_true_iff, !bool_decide_eq_true, Nat.eq_add_0, map_size_empty_iff, length_zero_iff_nil. done. }
    rewrite (len_todo pieces q Hnd Hp), length_zero_iff_nil. unfold is_done. setoid_rewrite bool_decide_eq_true. split.
    + intros Hnil w Hw. destruct (decide (pw_index w ∈ done_ q)); [done |]. exfalso.
      apply (not_elem_of_nil w). rewrite <- Hnil. by apply list_elem_of_filter.
    + intros Hall. apply elem_of_nil_inv. intros w [Hd Hw]%list_elem_of_filter. auto.
  - intros i Hi. apply bool_decide_eq_false. by apply (stash_wanted _ Hs).
Qed.

Definition two_pieces : list PieceWork := [mkPieceWork 0 [] 5 None; mkPieceWork 1 [] 5 None].

Lemma queue_partition_witness :
  len (mark_done (new two_pieces 2) 0).1 = length (todo two_pieces (mark_done (new two_pieces 2) 0).1).
Proof.
  refine (proj1 (proj2 (queue_partition two_pieces 2 RarestFirst ∅ (mark_done (new two_pieces 2) 0).1 _ _))).
  - by apply (bool_decide_unpack _).
  - eapply rtc_l; [| apply rtc_refl]. apply (step_done two_pieces (new two_pieces 2) (mkPieceWork 0 [] 5 None)). left.
Defined.

(** What a peer is given: [take_for] and [take_pending_for] never panic;
    a pending piece is one the peer has, of least rank (preferred first, then
    rarest, then lowest index) among those, and moves to the claimed ones; a
    duplicate is only handed out in endgame, when asked for and nothing is
    pending, and is the best of the claimed pieces the peer has; "nothing"
    means the peer has none of them, and "done" that every piece is; and no
    piece that is done is ever handed out again. *)
Theorem take_work_choice (pieces : list PieceWork) (total : nat) (o : Order) (p : gset Z) (q : WorkQueue)
    (has : Z -> bool) (dup : bool)
    (Hnd : NoDup (indices pieces)) (Hr : reachable pieces total o p q) :
  exists q' t, take_work q has dup = Some (q', t) /\ take_outcome q has dup q' t /\
    (forall w, t = Piece w -> w ∈ todo pieces q /\ has (pw_index w) = true) /\
    (t = Done -> todo pieces q = []).
Proof.
  destruct (reachable_inv _ _ _ _ _ Hnd Hr) as [Hp _].
  destruct (take_work_outcome q has dup) as (q' & t & Ht & Hout). exists q', t. split_and!; try done.
  - intros w ->. by destruct (take_piece_todo _ _ _ _ _ _ Hp Hout) as (? & ? & _).
  - intros ->. inversion Hout as [| | | Hpend Hclaim]; subst.
    apply Permutation_nil_r. rewrite (todo_split pieces q' Hnd Hp). unfold claimed_works.
    by rewrite Hpend, Hclaim, map_to_list_empty.
Qed.

Lemma take_work_choice_witness :
  exists q' t, take_work (new two_pieces 2) (fun i => i =? 1) true = Some (q', t) /\
    forall w, t = Piece w -> w ∈ todo two_pieces (new two_pieces 2) /\ (pw_index w =? 1) = true.
Proof.
  destruct (take_work_choice two_pieces 2 RarestFirst ∅ (new two_pieces 2) (fun i => i =? 1) true)
    as (q' & t & H1 & _ & H2 & _); [by apply (bool_decide_unpack _) | apply rtc_refl |].
  exists q', t. split; [exact H1 | exact H2].
Defined.

(** The download ends: from any state the workers can reach, whoever else
    has stopped, one worker that takes pieces and finishes them takes each
    piece not yet done exactly once (those claimed by the others too, through
    endgame duplicates) and is then told there are none. *)
Theorem drain_finishes (pieces : list PieceWork) (total : nat) (o : Order) (p : gset Z) (q : WorkQueue)
    (Hnd : NoDup (indices pieces)) (Hr : reachable pieces total o p q) :
  exists ws, drain (S (len q)) q = Some ws /\ ws ≡ₚ todo pieces q /\ NoDup (indices ws).
Proof.
  destruct (reachable_inv _ _ _ _ _ Hnd Hr) as [Hp _].
  destruct (drain_todo pieces (S (len q)) q Hnd Hp) as (ws & Hd & Hperm); [lia |].
  exists ws. split_and!; [done | done |]. unfold indices. rewrite Hperm.
  eapply sublist_NoDup; [exact Hnd |]. apply fmap_sublist, sublist_filter.
Qed.

Lemma drain_finishes_witness :
  exists ws, drain (S (len (new two_pieces 2))) (new two_pieces 2) = Some ws /\ ws ≡ₚ two_pieces.
Proof.
  destruct (drain_finishes two_pieces 2 RarestFirst ∅ (new two_pieces 2)) as (ws & H1 & H2 & _);
    [by apply (bool_decide_unpack _) | apply rtc_refl |].
  exists ws. split; [exact H1 | exact H2].
Defined.

(** A piece is counted once and never comes back: once [mark_done] has
    retired a piece, every later call for it says it was not the first,
    [push_back] of it is ignored, and it is neither wanted nor stashed again in
    any later state. *)
Theorem done_is_final (pieces : list PieceWork) (total : nat) (o : Order) (p : gset Z) (q q' : WorkQueue) (w : PieceWork)
    (Hnd : NoDup (indices pieces)) (Hr : reachable pieces total o p q) (Hw : w ∈ pieces)
    (Hsteps : rtc (step pieces) (mark_done q (pw_index w)).1 q') :
  (mark_done q' (pw_index w)).2 = false /\ push_back q' w = q' /\
  is_wanted q' (pw_index w) = false /\ (take_partial q' (pw_index w)).2 = None.
Proof.
  assert (pw_index w ∈ done_ q') as Hd.
  { eapply done_stays; [exact Hsteps |]. simpl. set_solver. }
  assert (inv pieces q') as [_ Hs].
  { apply (reachable_inv pieces total o p); [done |]. unfold reachable in *. etrans; [exact Hr |].
    eapply rtc_l; [| exact Hsteps]. by constructor. }
  split_and!; simpl.
  - by rewrite bool_decide_true.
  - unfold push_back. by rewrite bool_decide_true.
  - unfold is_wanted. by rewrite bool_decide_true.
  - apply eq_None_not_Some. intros Hsome. by apply (stash_wanted _ Hs) in Hsome.
Qed.

Lemma done_is_final_witness :
  (mark_done (mark_done (new two_pieces 2) 0).1 0).2 = false.
Proof.
  refine (proj1 (done_is_final two_pieces 2 RarestFirst ∅ (new two_pieces 2)
                   (mark_done (new two_pieces 2) 0).1 (mkPieceWork 0 [] 5 None) _ _ _ _)).
  - by apply (bool_decide_unpack _).
  - apply rtc_refl.
  - left.
  - apply rtc_refl.
Defined.
