(* ===== verification/Choker.v ===== *)
(** * Choking: who is uploaded to

    Models [src/src/choker.rs]: [choose], which picks the peers of a round, and
    [Choker], the record of who is interested and unchoked.  The peers are a
    [BTreeMap] in the source, here its list of entries in the order of the
    ids.  Every method holds the lock for its whole body. *)

From stdpp Require Import sorting.
From S2P Require Import Prelude BTree.

Definition DEFAULT_SLOTS : nat := 4.
Definition OPTIMISTIC_EVERY : Z := 3.

Record Candidate : Type := mkCandidate {
  id : Z;
  interested : bool;
  uploaded : Z;
  downloaded : Z
}.

(** [b.downloaded.cmp(&a.downloaded).then(b.uploaded.cmp(&a.uploaded)).then(a.id.cmp(&b.id))]. *)
Definition cand_cmp (a b : Candidate) : comparison :=
  match Z.compare (downloaded b) (downloaded a) with
  | Eq =>
      match Z.compare (uploaded b) (uploaded a) with
      | Eq => Z.compare (id a) (id b)
      | c => c
      end
  | c => c
  end.

Definition cand_le (a b : Candidate) : Prop := cand_cmp a b <> Gt.

#[export] Instance cand_le_dec a b : Decision (cand_le a b).
Proof. unfold cand_le. destruct (cand_cmp a b); [left | left | right]; naive_solver. Defined.

Definition choose (peers : list Candidate) (slots : nat) (optimistic : option Z) : gset Z :=
  if (slots =? 0)%nat then ∅
  else
    let interested := merge_sort cand_le (filter (fun p => interested p = true) peers) in
    let regular := if (slots =? 1)%nat then 1%nat else (slots - 1)%nat in
    let chosen : gset Z := list_to_set (id <$> take regular interested) in
    if (1 <? slots)%nat then
      match (o ← optimistic;
             if existsb (fun p => id p =? o) interested && negb (bool_decide (o ∈ chosen))
             then Some o else None) with
      | Some o => {[o]} ∪ chosen
      | None =>
          match List.find (fun p => negb (bool_decide (id p ∈ chosen))) interested with
          | Some next => {[id next]} ∪ chosen
          | None => chosen
          end
      end
    else chosen.

Record Slot : Type := mkSlot {
  s_interested : bool;
  s_unchoked : bool;
  s_uploaded : Z;
  s_downloaded : Z
}.

Record Choker : Type := mkChoker {
  slots : nat;
  peers : list (Z * Slot);
  next_id : Z;
  optimistic : option Z;
  round : Z
}.

Definition new (slots : nat) : Choker := mkChoker slots [] 0 None 0.

(** Additions wrap at [u64], as the release build's do. *)
Definition register (c : Choker) : Choker * Z :=
  let i := next_id c in
  (mkChoker (slots c) (bt_insert (peers c) i (mkSlot false false 0 0)) (wrap 64 (next_id c + 1))
     (optimistic c) (round c), i).

Definition unregister (c : Choker) (i : Z) : Choker :=
  mkChoker (slots c) (bt_remove (peers c) i) (next_id c)
    (if bool_decide (optimistic c = Some i) then None else optimistic c) (round c).

Definition set_peers (c : Choker) (ps : list (Z * Slot)) : Choker :=
  mkChoker (slots c) ps (next_id c) (optimistic c) (round c).

Definition set_interested (c : Choker) (i : Z) (interested : bool) : Choker :=
  set_peers c (bt_alter (fun s => mkSlot interested (if interested then s_unchoked s else false)
                                    (s_uploaded s) (s_downloaded s)) (peers c) i).

(** [peers.values().filter(|p| p.unchoked).count()]. *)
Definition unchoked_count (c : Choker) : nat := bt_count s_unchoked (peers c).

Definition grant_if_free (c : Choker) (i : Z) : Choker * bool :=
  let held := unchoked_count c in
  match bt_get (peers c) i with
  | None => (c, false)
  | Some slot =>
      if s_unchoked slot then (c, true)
      else if s_interested slot && (held <? slots c)%nat
      then (set_peers c (bt_alter (fun s => mkSlot (s_interested s) true (s_uploaded s) (s_downloaded s)) (peers c) i), true)
      else (c, false)
  end.

Definition record_upload (c : Choker) (i bytes : Z) : Choker :=
  set_peers c (bt_alter (fun s => mkSlot (s_interested s) (s_unchoked s) (wrap 64 (s_uploaded s + bytes)) (s_downloaded s))
                 (peers c) i).

Definition record_download (c : Choker) (i bytes : Z) : Choker :=
  set_peers c (bt_alter (fun s => mkSlot (s_interested s) (s_unchoked s) (s_uploaded s) (wrap 64 (s_downloaded s + bytes)))
                 (peers c) i).

Definition is_unchoked (c : Choker) (i : Z) : bool :=
  match bt_get (peers c) i with Some s => s_unchoked s | None => false end.

(** Who has the optimistic slot in the round being started. *)
Definition next_optimistic (c : Choker) (round : Z) : option Z :=
  let idle :=
    match optimistic c with
    | None => true
    | Some i => negb (match bt_get (peers c) i with Some s => s_interested s | None => false end)
    end in
  if (1 <? slots c)%nat && ((round mod OPTIMISTIC_EVERY =? 1) || idle) then
    let candidates := (filter (fun e : Z * Slot => s_interested e.2 = true) (peers c)).*1 in
    match List.find (fun i => match optimistic c with None => true | Some a => a <? i end) candidates with
    | Some i => Some i
    | None => head candidates
    end
  else optimistic c.

Definition candidate (e : Z * Slot) : Candidate :=
  mkCandidate e.1 (s_interested e.2) (s_uploaded e.2) (s_downloaded e.2).

Definition rechoke (c : Choker) : Choker :=
  let round := wrap 64 (round c + 1) in
  let optimistic := next_optimistic c round in
  let chosen := choose (candidate <$> peers c) (slots c) optimistic in
  mkChoker (slots c)
    ((fun e : Z * Slot => (e.1, mkSlot (s_interested e.2) (bool_decide (e.1 ∈ chosen)) 0 0)) <$> peers c)
    (next_id c) optimistic round.

(** ** The order of the candidates *)

Lemma cand_le_spec a b :
  cand_le a b <-> downloaded b < downloaded a \/ downloaded b = downloaded a /\
    (uploaded b < uploaded a \/ uploaded b = uploaded a /\ id a <= id b).
Proof.
  unfold cand_le, cand_cmp.
  destruct (Z.compare_spec (downloaded b) (downloaded a)) as [H1 | H1 | H1];
    [destruct (Z.compare_spec (uploaded b) (uploaded a)) as [H2 | H2 | H2];
     [destruct (Z.compare_spec (id a) (id b)) as [H3 | H3 | H3] | |] | |];
    (split; [intros ?; try congruence; lia | intros ?; try done; lia]).
Qed.

#[export] Instance cand_le_trans : Transitive cand_le.
Proof. intros a b c. rewrite !cand_le_spec. lia. Qed.

#[export] Instance cand_le_total : Total cand_le.
Proof. intros a b. rewrite !cand_le_spec. lia. Qed.

Lemma cand_le_antisym a b : cand_le a b -> cand_le b a -> id a = id b.
Proof. rewrite !cand_le_spec. lia. Qed.

Definition interested_of (ps : list Candidate) : list Candidate := filter (fun p => interested p = true) ps.

(** The interested peers, best first. *)
Definition ranked (ps : list Candidate) : list Candidate := merge_sort cand_le (interested_of ps).

Lemma ranked_perm ps : ranked ps ≡ₚ interested_of ps.
Proof. apply merge_sort_Permutation. Qed.

Lemma ranked_sorted ps : StronglySorted cand_le (ranked ps).
Proof. apply Sorted_StronglySorted; [apply _ |]. apply Sorted_merge_sort. apply _. Qed.

Lemma ranked_nodup ps : NoDup (id <$> ps) -> NoDup (id <$> ranked ps).
Proof.
  intros H. rewrite ranked_perm. eapply sublist_NoDup; [exact H |]. apply fmap_sublist, sublist_filter.
Qed.

(** The first [k] of a sorted list come before the others. *)
Lemma sorted_take_le k l a b :
  StronglySorted cand_le l -> a ∈ take k l -> b ∈ drop k l -> cand_le a b.
Proof.
  intros Hs. revert k. induction Hs as [| x l Hs IH Hx]; intros [| k] Ha Hb; simpl in *; try set_solver.
  apply elem_of_cons in Ha as [-> | Ha]; [| by apply (IH k)].
  eapply (proj1 (Forall_forall _ _) Hx). rewrite <- (take_drop k l). apply elem_of_app. by right.
Qed.

Lemma id_inj (l : list Candidate) a b : NoDup (id <$> l) -> a ∈ l -> b ∈ l -> id a = id b -> a = b.
Proof.
  intros Hnd [i Hi]%list_elem_of_lookup_1 [j Hj]%list_elem_of_lookup_1 Heq.
  assert (i = j) as ->; [| by rewrite Hi in Hj; injection Hj].
  apply (NoDup_lookup (id <$> l) i j (id b)); [done | |]; rewrite list_lookup_fmap, ?Hi, ?Hj; simpl; by rewrite ?Heq.
Qed.

(** Sorting forgets the order the peers came in. *)
Lemma sorted_unique l1 l2 :
  NoDup (id <$> l1) -> StronglySorted cand_le l1 -> StronglySorted cand_le l2 -> l1 ≡ₚ l2 -> l1 = l2.
Proof.
  revert l2. induction l1 as [| x l1 IH]; intros l2 Hnd H1 H2 Hp; [by apply Permutation_nil_l in Hp |].
  destruct l2 as [| y l2]; [by apply Permutation_nil_r in Hp |].
  apply StronglySorted_inv in H1 as [H1 Hx]. apply StronglySorted_inv in H2 as [H2 Hy].
  assert (x = y) as ->.
  { assert (y ∈ x :: l1) as Hyin by (rewrite Hp; left).
    assert (x ∈ y :: l2) as Hxin by (rewrite <- Hp; left).
    apply elem_of_cons in Hyin as [-> | Hyin]; [done |].
    apply elem_of_cons in Hxin as [-> | Hxin]; [done |].
    apply (id_inj (x :: l1)); [done | left | by right |].
    apply cand_le_antisym; [by apply (proj1 (Forall_forall _ _) Hx) | by apply (proj1 (Forall_forall _ _) Hy)]. }
  f_equal. apply IH; try done; [by apply NoDup_cons in Hnd as [_ ?] |]. by apply Permutation_cons_inv in Hp.
Qed.

Lemma ranked_proper ps ps' : NoDup (id <$> ps) -> ps ≡ₚ ps' -> ranked ps = ranked ps'.
Proof.
  intros Hnd Hp. apply sorted_unique; [by apply ranked_nodup | apply ranked_sorted | apply ranked_sorted |].
  rewrite !ranked_perm. unfold interested_of. by rewrite Hp.
Qed.

(** ** The choice *)

Definition regular_slots (slots : nat) : nat := if (slots =? 1)%nat then 1%nat else (slots - 1)%nat.

Definition best_ids (ps : list Candidate) (k : nat) : gset Z := list_to_set (id <$> take k (ranked ps)).

Lemma best_ids_elem ps k i : i ∈ best_ids ps k <-> exists p, p ∈ take k (ranked ps) /\ id p = i.
Proof. unfold best_ids. rewrite elem_of_list_to_set, list_elem_of_fmap. naive_solver. Qed.

Lemma best_ids_size ps k :
  NoDup (id <$> ps) -> size (best_ids ps k) = Nat.min k (length (interested_of ps)).
Proof.
  intros Hnd. unfold best_ids. rewrite size_list_to_set.
  - by rewrite length_fmap, length_take, ranked_perm.
  - eapply sublist_NoDup; [by apply (ranked_nodup ps) |]. apply fmap_sublist, sublist_take.
Qed.

Lemma in_ranked ps p : p ∈ ranked ps <-> p ∈ interested_of ps.
Proof. by rewrite ranked_perm. Qed.

Lemma in_take_ranked ps k p : p ∈ take k (ranked ps) -> p ∈ interested_of ps.
Proof. intros Hp. apply in_ranked. by eapply elem_of_sublist; [| apply sublist_take]. Qed.

(** A candidate that is not among the best [k] ranks after all of them. *)
Lemma best_ids_le ps k p c :
  p ∈ interested_of ps -> id p ∉ best_ids ps k -> c ∈ take k (ranked ps) -> cand_le c p.
Proof.
  intros Hp Hn Hc. apply (sorted_take_le k (ranked ps)); [apply ranked_sorted | done |].
  apply in_ranked in Hp. rewrite <- (take_drop k (ranked ps)) in Hp.
  apply elem_of_app in Hp as [Hp | Hp]; [| done]. exfalso. apply Hn, best_ids_elem. by exists p.
Qed.

(** The first of a sorted list that a test holds of ranks before the others. *)
Lemma find_first_le (f : Candidate -> bool) l x y :
  StronglySorted cand_le l -> List.find f l = Some x -> y ∈ l -> f y = true -> cand_le x y.
Proof.
  intros Hs. induction Hs as [| z l Hs IH Hz]; [done |]. simpl. destruct (f z) eqn:Ez.
  - intros [= <-] [-> | Hy]%elem_of_cons _; [rewrite cand_le_spec; lia | by apply (proj1 (Forall_forall _ _) Hz)].
  - intros Hf [-> | Hy]%elem_of_cons Hfy; [congruence | auto].
Qed.

(** The three ways the last slot is filled. *)
Lemma choose_cases ps slots o :
  (0 < slots)%nat ->
  let chosen := best_ids ps (regular_slots slots) in
  (slots = 1%nat /\ choose ps slots o = chosen) \/
  ((1 < slots)%nat /\ exists i, o = Some i /\ i ∉ chosen /\ (exists p, p ∈ interested_of ps /\ id p = i) /\
     choose ps slots o = {[i]} ∪ chosen) \/
  ((1 < slots)%nat /\ (forall i p, o = Some i -> p ∈ interested_of ps -> id p = i -> i ∈ chosen) /\
     ((exists p, p ∈ interested_of ps /\ id p ∉ chosen /\ choose ps slots o = {[id p]} ∪ chosen /\
        forall q, q ∈ interested_of ps -> id q ∉ chosen -> cand_le p q) \/
      (choose ps slots o = chosen /\ forall p, p ∈ interested_of ps -> id p ∈ chosen))).
Proof.
  intros Hs chosen. unfold choose. rewrite (proj2 (Nat.eqb_neq slots 0)) by lia.
  fold (interested_of ps). fold (ranked ps). fold (regular_slots slots). fold (best_ids ps (regular_slots slots)).
  fold chosen. destruct (Nat.ltb_spec 1 slots) as [H1 | H1]; [| left; split; [lia | done]]. right.
  assert (forall i, existsb (fun p => id p =? i) (ranked ps) = true <-> exists p, p ∈ interested_of ps /\ id p = i) as Hex.
  { intros i. rewrite existsb_exists. setoid_rewrite <- list_elem_of_In. setoid_rewrite in_ranked.
    by setoid_rewrite Z.eqb_eq. }
  destruct (o ≫= _) as [i |] eqn:Eo.
  - left. split; [done |]. exists i. destruct o as [j |]; [| done]. simpl in Eo.
    destruct (existsb _ _) eqn:E1; [| done]. simpl in Eo.
    destruct (bool_decide (j ∈ chosen)) eqn:E2; [done |]. injection Eo as ->.
    apply bool_decide_eq_false in E2. split_and!; try done. by apply Hex.
  - right. split; [done |]. split.
    { intros i p -> Hp Hid. simpl in Eo. rewrite (proj2 (Hex i)) in Eo by eauto. simpl in Eo.
      by destruct (bool_decide_reflect (i ∈ chosen)). }
    destruct (List.find _ (ranked ps)) as [p |] eqn:Ef.
    + left. exists p. pose proof (List.find_some _ _ Ef) as [Hin Hn].
      apply list_elem_of_In, in_ranked in Hin. apply negb_true_iff, bool_decide_eq_false in Hn.
      split_and!; try done. intros q Hq Hqn. eapply find_first_le; [apply ranked_sorted | exact Ef | by apply in_ranked |].
      apply negb_true_iff. by apply bool_decide_eq_false.
    + right. split; [done |]. intros p Hp.
      pose proof (List.find_none _ _ Ef p (proj1 (list_elem_of_In _ _) (proj2 (in_ranked ps p) Hp))) as Hn.
      apply negb_false_iff in Hn. by apply bool_decide_eq_true in Hn.
Qed.

Lemma regular_slots_bound slots : (1 < slots)%nat -> S (regular_slots slots) = slots.
Proof. intros. unfold regular_slots. rewrite (proj2 (Nat.eqb_neq _ _)) by lia. lia. Qed.

Lemma choose_interested ps slots o i :
  i ∈ choose ps slots o -> exists p, p ∈ interested_of ps /\ id p = i.
Proof.
  destruct (decide (slots = 0%nat)) as [-> | Hs]; [unfold choose; simpl; set_solver |].
  assert (forall j, j ∈ best_ids ps (regular_slots slots) -> exists p, p ∈ interested_of ps /\ id p = j) as Hb.
  { intros j (p & Hp & <-)%best_ids_elem. exists p. split; [by eapply in_take_ranked | done]. }
  destruct (choose_cases ps slots o ltac:(lia)) as
    [[-> ->] | [(_ & j & _ & _ & Hj & ->) | (_ & _ & [(p & Hp & _ & -> & _) | [-> _]])]]; auto;
    (intros [->%elem_of_singleton | Hi]%elem_of_union; [| by auto]); eauto.
Qed.

Lemma choose_size ps slots o :
  NoDup (id <$> ps) -> size (choose ps slots o) = Nat.min slots (length (interested_of ps)).
Proof.
  intros Hnd. destruct (decide (slots = 0%nat)) as [-> | Hs]; [change (size (∅ : gset Z) = 0%nat); apply size_empty |].
  pose proof (best_ids_size ps (regular_slots slots) Hnd) as Hsize.
  (* an interested peer outside the best means there are more of them than regular slots *)
  assert (forall p, p ∈ interested_of ps -> id p ∉ best_ids ps (regular_slots slots) ->
            (regular_slots slots < length (interested_of ps))%nat) as Hroom.
  { intros p Hp Hn. apply Nat.nle_gt. intros Hle. apply Hn, best_ids_elem. exists p. split; [| done].
    rewrite take_ge by (by rewrite ranked_perm). by apply in_ranked. }
  destruct (choose_cases ps slots o ltac:(lia)) as
    [[-> ->] | [(H1 & j & _ & Hn & (p & Hp & <-) & ->) | (H1 & _ & [(p & Hp & Hn & -> & _) | [-> Hall]])]].
  - done.
  - rewrite size_union, size_singleton, Hsize by set_solver. specialize (Hroom p Hp Hn).
    pose proof (regular_slots_bound slots H1). lia.
  - rewrite size_union, size_singleton, Hsize by set_solver. specialize (Hroom p Hp Hn).
    pose proof (regular_slots_bound slots H1). lia.
  - rewrite Hsize. pose proof (regular_slots_bound slots H1).
    assert (length (interested_of ps) <= size (best_ids ps (regular_slots slots)))%nat; [| lia].
    assert (size (list_to_set (id <$> interested_of ps) : gset Z) = length (interested_of ps)) as <-.
    { rewrite size_list_to_set, length_fmap; [done |]. eapply sublist_NoDup; [exact Hnd |].
      apply fmap_sublist, sublist_filter. }
    apply subseteq_size. intros i. rewrite elem_of_list_to_set, list_elem_of_fmap. intros (p & -> & Hp). auto.
Qed.

(** ** The record of the peers *)

Record choker_ok (c : Choker) : Prop := {
  ok_sorted : bt_sorted (peers c);
  ok_interested : Forall (fun e : Z * Slot => s_unchoked e.2 = true -> s_interested e.2 = true) (peers c);
  ok_slots : (unchoked_count c <= slots c)%nat
}.

(** How many peers are interested. *)
Definition interested_count (c : Choker) : nat := bt_count s_interested (peers c).

Lemma candidate_ids (l : list (Z * Slot)) : id <$> (candidate <$> l) = l.*1.
Proof. induction l as [| e l IH]; [done |]. rewrite !fmap_cons. by f_equal. Qed.

Lemma candidates_interested (l : list (Z * Slot)) :
  interested_of (candidate <$> l) = candidate <$> filter (fun e : Z * Slot => s_interested e.2 = true) l.
Proof.
  induction l as [| [i s] l IH]; [done |]. unfold interested_of in *.
  rewrite fmap_cons, !filter_cons. simpl. destruct (s_interested s); simpl; by rewrite IH.
Qed.

Lemma interested_count_candidates c : interested_count c = length (interested_of (candidate <$> peers c)).
Proof. by rewrite candidates_interested, length_fmap. Qed.

(** The peers of a set of their ids, counted. *)
Lemma filter_in_size (l : list (Z * Slot)) (X : gset Z) :
  NoDup l.*1 -> (forall i, i ∈ X -> i ∈ l.*1) -> length (filter (fun e : Z * Slot => e.1 ∈ X) l) = size X.
Proof.
  intros Hnd Hsub. rewrite <- (length_fmap fst).
  rewrite <- (size_list_to_set (C := gset Z)).
  - f_equal. apply leibniz_equiv, set_equiv. intros i. rewrite elem_of_list_to_set, list_elem_of_fmap. split.
    + by intros (e & -> & [? _]%list_elem_of_filter).
    + intros Hi. destruct (proj1 (list_elem_of_fmap _ _ _) (Hsub i Hi)) as (e & -> & He).
      exists e. by rewrite list_elem_of_filter.
  - eapply sublist_NoDup; [exact Hnd |]. apply fmap_sublist, sublist_filter.
Qed.

Definition chosen_in (c : Choker) : gset Z :=
  choose (candidate <$> peers c) (slots c) (next_optimistic c (wrap 64 (round c + 1))).

Lemma chosen_interested c i : i ∈ chosen_in c -> exists s, (i, s) ∈ peers c /\ s_interested s = true.
Proof.
  intros (p & Hp & <-)%choose_interested. rewrite candidates_interested in Hp.
  apply list_elem_of_fmap in Hp as ([j s] & -> & [Hs Hin]%list_elem_of_filter). by exists s.
Qed.

Lemma rechoke_count c : bt_sorted (peers c) -> unchoked_count (rechoke c) = Nat.min (slots c) (interested_count c).
Proof.
  intros Hs. pose proof (bt_sorted_nodup _ Hs) as Hnd.
  rewrite interested_count_candidates, <- (choose_size _ _ (next_optimistic c (wrap 64 (round c + 1)))) by (by rewrite candidate_ids).
  fold (chosen_in c). rewrite <- (filter_in_size (peers c)); [| done |].
  - unfold unchoked_count, rechoke. cbn [peers]. fold (chosen_in c). unfold bt_count.
    generalize (peers c). induction l as [| e l IH]; [done |].
    rewrite fmap_cons, !filter_cons. cbn [fst snd s_unchoked].
    destruct (decide (e.1 ∈ chosen_in c)) as [Hin | Hin].
    + rewrite decide_True by (by apply bool_decide_eq_true). cbn [length]. by rewrite IH.
    + rewrite decide_False by (by rewrite bool_decide_eq_true). by rewrite IH.
  - intros i (s & Hin & _)%chosen_interested. by apply list_elem_of_fmap_2' with (i, s).
Qed.

Lemma rechoke_ok c : choker_ok c -> choker_ok (rechoke c).
Proof.
  intros [Hs _ _]. split.
  - apply (bt_sorted_keys (peers c)); [| done]. simpl. rewrite <- list_fmap_compose. done.
  - apply Forall_forall. intros e. simpl. fold (chosen_in c).
    intros (e' & -> & He')%list_elem_of_fmap. simpl. intros Hin%bool_decide_eq_true.
    apply chosen_interested in Hin as (s & Hin & Hint). destruct e' as [i s']. simpl in *.
    apply (bt_get_elem _ _ _ Hs) in Hin, He'. congruence.
  - rewrite rechoke_count by done. simpl. lia.
Qed.

(** What the connections and the round timer do. *)
Inductive ChokerOp : Type :=
| Register | Unregister (i : Z) | SetInterested (i : Z) (b : bool) | Grant (i : Z)
| Uploaded (i bytes : Z) | Downloaded (i bytes : Z) | Rechoke.

Definition choker_step (c : Choker) (op : ChokerOp) : Choker :=
  match op with
  | Register => (register c).1
  | Unregister i => unregister c i
  | SetInterested i b => set_interested c i b
  | Grant i => (grant_if_free c i).1
  | Uploaded i n => record_upload c i n
  | Downloaded i n => record_download c i n
  | Rechoke => rechoke c
  end.

Lemma choker_step_ok c op : choker_ok c -> choker_ok (choker_step c op).
Proof.
  intros Hok. pose proof Hok as [Hs Hi Hn]. unfold unchoked_count in Hn.
  destruct op as [| i | i b | i | i n | i n |]; simpl; [| | | | | | by apply rechoke_ok].
  - split; simpl; [by apply bt_insert_sorted | by apply bt_insert_Forall |]. unfold unchoked_count. simpl.
    pose proof (bt_count_insert s_unchoked (peers c) (next_id c) (mkSlot false false 0 0) eq_refl). lia.
  - split; simpl; [by apply bt_remove_sorted | by apply bt_remove_Forall |]. unfold unchoked_count. simpl.
    pose proof (bt_count_remove s_unchoked (peers c) i). lia.
  - split; simpl; [by apply bt_alter_sorted | apply bt_alter_Forall; [| done]; intros [? ?] ?; by destruct b |].
    unfold unchoked_count. simpl. etrans; [apply bt_count_alter_le | exact Hn]. intros s. by destruct b.
  - unfold grant_if_free. destruct (bt_get (peers c) i) as [s |] eqn:Eg; [| done].
    destruct (s_unchoked s); [done |]. destruct (s_interested s) eqn:Ei; [| done]. simpl.
    destruct (Nat.ltb_spec (unchoked_count c) (slots c)) as [Hlt |]; [| done]. split; simpl.
    + by apply bt_alter_sorted.
    + by eapply bt_alter_at_Forall.
    + unfold unchoked_count in *. simpl. etrans; [apply bt_count_alter_S | lia].
  - split; simpl; [by apply bt_alter_sorted | apply bt_alter_Forall; [| done]; by intros [? ?] |].
    unfold unchoked_count. simpl. etrans; [by apply bt_count_alter_le | exact Hn].
  - split; simpl; [by apply bt_alter_sorted | apply bt_alter_Forall; [| done]; by intros [? ?] |].
    unfold unchoked_count. simpl. etrans; [by apply bt_count_alter_le | exact Hn].
Qed.

Lemma choker_run_ok c ops : choker_ok c -> choker_ok (foldl choker_step c ops).
Proof. revert c. induction ops as [| op ops IH]; intros c Hc; [done |]. by apply IH, choker_step_ok. Qed.

(** ** The optimistic slot goes round *)

Definition interested_ids (c : Choker) : list Z := (filter (fun e : Z * Slot => s_interested e.2 = true) (peers c)).*1.

Definition above (after : option Z) (i : Z) : bool := match after with None => true | Some a => a <? i end.

Definition pick (after : option Z) (ids : list Z) : option Z :=
  match List.find (above after) ids with Some i => Some i | None => head ids end.

(** How many moves the slot is from peer [i], at most. *)
Definition moves (ids : list Z) (i : Z) (after : option Z) : nat :=
  match after with
  | Some a => if a <? i then length (filter (fun j => a < j <= i) ids)
              else (length (filter (fun j => (a < j)%Z) ids) + length ids + 1)%nat
  | None => (length ids + 1)%nat
  end.

Lemma filter_lt_length (P Q : Z -> Prop) `{forall x, Decision (P x)} `{forall x, Decision (Q x)} (l : list Z) x :
  (forall y, P y -> Q y) -> x ∈ l -> Q x -> ~ P x -> (length (filter P l) < length (filter Q l))%nat.
Proof.
  intros HPQ Hx HQ HP.
  assert (forall k : list Z, length (filter P k) <= length (filter Q k))%nat as Hle.
  { induction k as [| y k IHk]; [done |]. rewrite !filter_cons.
    destruct (decide (P y)) as [Hy |]; [rewrite decide_True by auto; simpl; lia |].
    destruct (decide (Q y)); simpl; lia. }
  induction l as [| y l IH]; [set_solver |]. rewrite !filter_cons.
  apply elem_of_cons in Hx as [<- | Hx].
  - rewrite decide_False, decide_True by done. simpl. specialize (Hle l). lia.
  - specialize (IH Hx). destruct (decide (P y)) as [Hy |]; [rewrite decide_True by auto; simpl; lia |].
    destruct (decide (Q y)); simpl; lia.
Qed.

Lemma moves_pos ids i after : i ∈ ids -> (0 < moves ids i after)%nat.
Proof.
  intros Hi. unfold moves. destruct after as [a |]; [| lia]. destruct (Z.ltb_spec a i); [| lia].
  eapply Nat.le_lt_trans; [apply Nat.le_0_l |].
  apply (filter_lt_length (fun _ => False) _ ids i); done || lia.
Qed.

Lemma sorted_head_le ids i h :
  StronglySorted Z.lt ids -> i ∈ ids -> head ids = Some h -> h <= i.
Proof.
  intros Hs Hi Hh. destruct Hs as [| x l _ Hx]; [done |]. injection Hh as ->.
  apply elem_of_cons in Hi as [-> | Hi]; [lia |]. pose proof (proj1 (Forall_forall _ _) Hx i Hi). lia.
Qed.

(** The first above [a] in increasing order is the least above it. *)
Lemma find_above_least ids a i b :
  StronglySorted Z.lt ids -> List.find (above (Some a)) ids = Some b -> i ∈ ids -> a < i -> a < b <= i /\ b ∈ ids.
Proof.
  intros Hs. induction Hs as [| x l Hs IH Hx]; [done |]. simpl. destruct (Z.ltb_spec a x).
  - intros [= <-] [-> | Hi]%elem_of_cons ?; [split; [lia | left] |].
    pose proof (proj1 (Forall_forall _ _) Hx i Hi). split; [lia | left].
  - intros Hf [-> | Hi]%elem_of_cons Ha; [lia |]. destruct (IH Hf Hi Ha) as [? ?]. split; [lia | by right].
Qed.

Lemma filter_le_length (P : Z -> Prop) `{forall x, Decision (P x)} (l : list Z) : (length (filter P l) <= length l)%nat.
Proof. apply length_filter. Qed.

(** A move brings the slot to [i] or nearer to it. *)
Lemma pick_moves ids i after :
  StronglySorted Z.lt ids -> i ∈ ids ->
  pick after ids = Some i \/ (moves ids i (pick after ids) < moves ids i after)%nat.
Proof.
  intros Hs Hi. unfold pick.
  (* the head, where the slot wraps round *)
  assert (forall n, (length ids < n)%nat -> head ids = Some i \/ (moves ids i (head ids) < n)%nat) as Hhead.
  { intros n Hn. destruct (head ids) as [h |] eqn:Eh; [| destruct ids; set_solver].
    pose proof (sorted_head_le ids i h Hs Hi Eh). destruct (decide (h = i)) as [-> |]; [by left |]. right.
    unfold moves. rewrite (proj2 (Z.ltb_lt _ _)) by lia.
    pose proof (filter_le_length (fun j => h < j <= i) ids). lia. }
  destruct after as [a |].
  2: { destruct ids as [| h l]; [set_solver |]. cbn [List.find above]. apply (Hhead _). unfold moves. lia. }
  destruct (List.find (above (Some a)) ids) as [b |] eqn:Ef.
  - pose proof (List.find_some _ _ Ef) as [Hb Hab%Z.ltb_lt]. apply list_elem_of_In in Hb.
    destruct (decide (a < i)) as [Hai | Hai].
    + destruct (find_above_least ids a i b Hs Ef Hi Hai) as [Hle _].
      destruct (decide (b = i)) as [-> |]; [by left |]. right. unfold moves.
      rewrite !(proj2 (Z.ltb_lt _ _)) by lia. apply filter_lt_length with b; lia || done.
    + right. unfold moves. rewrite !(proj2 (Z.ltb_ge _ _)) by lia.
      assert (length (filter (fun j => (b < j)%Z) ids) < length (filter (fun j => (a < j)%Z) ids))%nat; [| lia].
      apply filter_lt_length with b; lia || done.
  - assert (~ a < i) as Hai.
    { intros Hai. pose proof (List.find_none _ _ Ef i (proj1 (list_elem_of_In _ _) Hi)) as Hn.
      apply Z.ltb_ge in Hn. lia. }
    unfold moves at 2. rewrite (proj2 (Z.ltb_ge a i)) by lia.
    apply Hhead. lia.
Qed.

Lemma rechoke_interested c : interested_ids (rechoke c) = interested_ids c.
Proof.
  unfold interested_ids, rechoke. cbn [peers]. fold (chosen_in c). generalize (peers c). induction l as [| e l IH]; [done |].
  rewrite fmap_cons, !filter_cons. cbn [fst snd s_interested].
  destruct (decide (s_interested e.2 = true)); rewrite ?fmap_cons; by rewrite IH.
Qed.

Lemma rechoke_sorted c : bt_sorted (peers c) -> bt_sorted (peers (rechoke c)).
Proof.
  intros Hs. apply (bt_sorted_keys (peers c)); [| done]. unfold rechoke. cbn [peers].
  by rewrite <- list_fmap_compose.
Qed.

Lemma interested_ids_sorted c : bt_sorted (peers c) -> StronglySorted Z.lt (interested_ids c).
Proof.
  unfold interested_ids. generalize (peers c). induction l as [| [k s] l IH]; [constructor |].
  intros [Hk Hl]. rewrite filter_cons. destruct (decide _); [| auto]. rewrite fmap_cons. constructor; [auto |].
  apply Forall_forall. intros j (e1 & -> & [_ He]%list_elem_of_filter)%list_elem_of_fmap.
  apply Z.compare_lt_iff. by apply (proj1 (Forall_forall _ _) Hk e1 He).
Qed.

Lemma in_interested_ids c i :
  bt_sorted (peers c) -> i ∈ interested_ids c <-> exists s, bt_get (peers c) i = Some s /\ s_interested s = true.
Proof.
  intros Hs. unfold interested_ids. rewrite list_elem_of_fmap. setoid_rewrite list_elem_of_filter. split.
  - intros ([j s] & -> & Hint & Hin). exists s. split; [by apply bt_get_elem | done].
  - intros (s & Hg & Hint). apply bt_get_elem in Hg; [| done]. by exists (i, s).
Qed.

(** The slot moves in the rounds it has to, else stays or moves. *)
Lemma rechoke_optimistic c :
  (1 < slots c)%nat ->
  optimistic (rechoke c) = pick (optimistic c) (interested_ids c) \/
  (optimistic (rechoke c) = optimistic c /\ wrap 64 (round c + 1) mod OPTIMISTIC_EVERY <> 1).
Proof.
  intros Hs. unfold rechoke. cbn [optimistic]. unfold next_optimistic.
  rewrite (proj2 (Nat.ltb_lt _ _)) by done. cbn [andb].
  destruct (Z.eqb_spec (wrap 64 (round c + 1) mod OPTIMISTIC_EVERY) 1); cbn [orb]; [by left |].
  destruct (match optimistic c with None => true | Some _ => _ end); [by left | by right].
Qed.

Lemma slot_progress c i :
  (1 < slots c)%nat -> bt_sorted (peers c) -> i ∈ interested_ids c ->
  0 <= round c -> round c + 3 < 2 ^ 64 ->
  exists k, (1 <= k <= 3)%nat /\
    (optimistic (Nat.iter k rechoke c) = Some i \/
     (moves (interested_ids c) i (optimistic (Nat.iter k rechoke c)) < moves (interested_ids c) i (optimistic c))%nat).
Proof.
  intros Hs Hb Hi Hr0 Hr. set (ids := interested_ids c) in *.
  assert (StronglySorted Z.lt ids) as Hsort by (by apply interested_ids_sorted).
  assert (forall r, 0 <= r -> r + 1 < 2 ^ 64 -> wrap 64 (r + 1) = r + 1) as Hw by (intros; apply Z.mod_small; lia).
  set (c1 := rechoke c). set (c2 := rechoke c1).
  assert (interested_ids c1 = ids) as H1 by apply rechoke_interested.
  assert (interested_ids c2 = ids) as H2 by (unfold c2; rewrite rechoke_interested; exact H1).
  assert (round c1 = round c + 1) as R1 by (unfold c1; cbn; apply Hw; lia).
  assert (round c2 = round c + 2) as R2 by (unfold c2; cbn [rechoke round]; rewrite R1, Hw; lia).
  pose proof (rechoke_optimistic c Hs) as O1. fold c1 in O1. fold ids in O1.
  pose proof (rechoke_optimistic c1 Hs) as O2. fold c2 in O2. rewrite H1 in O2.
  pose proof (rechoke_optimistic c2 Hs) as O3. rewrite H2 in O3.
  pose proof (pick_moves ids i (optimistic c) Hsort Hi) as Hp.
  destruct O1 as [O1 | [O1 M1]]; [exists 1%nat; split; [lia |]; change (Nat.iter 1 rechoke c) with c1; by rewrite O1 |].
  rewrite O1 in O2.
  destruct O2 as [O2 | [O2 M2]]; [exists 2%nat; split; [lia |]; change (Nat.iter 2 rechoke c) with c2; by rewrite O2 |].
  rewrite O2 in O3.
  destruct O3 as [O3 | [O3 M3]];
    [exists 3%nat; split; [lia |]; change (Nat.iter 3 rechoke c) with (rechoke c2); by rewrite O3 |].
  exfalso. rewrite R1 in M2. rewrite R2 in M3. rewrite !Hw in * by lia. unfold OPTIMISTIC_EVERY in *.
  pose proof (Z.div_mod (round c) 3). pose proof (Z.mod_pos_bound (round c) 3).
  pose proof (Z.div_mod (round c + 1) 3). pose proof (Z.mod_pos_bound (round c + 1) 3).
  pose proof (Z.div_mod (round c + 1 + 1) 3). pose proof (Z.mod_pos_bound (round c + 1 + 1) 3).
  pose proof (Z.div_mod (round c + 2 + 1) 3). pose proof (Z.mod_pos_bound (round c + 2 + 1) 3). lia.
Qed.

Lemma iter_rechoke_frame k c :
  bt_sorted (peers c) ->
  slots (Nat.iter k rechoke c) = slots c /\ bt_sorted (peers (Nat.iter k rechoke c)) /\
  interested_ids (Nat.iter k rechoke c) = interested_ids c.
Proof.
  intros Hs. induction k as [| k (H1 & H2 & H3)]; [done |].
  change (Nat.iter (S k) rechoke c) with (rechoke (Nat.iter k rechoke c)). split_and!.
  - exact H1.
  - by apply rechoke_sorted.
  - by rewrite rechoke_interested.
Qed.

Lemma iter_rechoke_round k c :
  0 <= round c -> round c + Z.of_nat k < 2 ^ 64 -> round (Nat.iter k rechoke c) = round c + Z.of_nat k.
Proof.
  intros H0. induction k as [| k IH]; intros Hk; [cbn; lia |].
  change (Nat.iter (S k) rechoke c) with (rechoke (Nat.iter k rechoke c)). cbn [rechoke round].
  rewrite IH by lia. unfold wrap. rewrite Z.mod_small; lia.
Qed.

Lemma slot_reaches c i n :
  (moves (interested_ids c) i (optimistic c) <= n)%nat ->
  (1 < slots c)%nat -> bt_sorted (peers c) -> i ∈ interested_ids c ->
  0 <= round c -> round c + 3 * Z.of_nat n < 2 ^ 64 ->
  exists k, (1 <= k <= 3 * n)%nat /\ optimistic (Nat.iter k rechoke c) = Some i.
Proof.
  revert c. induction n as [| n IH]; intros c Hm Hs Hb Hi Hr0 Hr.
  { pose proof (moves_pos (interested_ids c) i (optimistic c) Hi). lia. }
  destruct (slot_progress c i Hs Hb Hi Hr0 ltac:(lia)) as (k & Hk & [Hdone | Hless]).
  { exists k. split; [lia | done]. }
  destruct (iter_rechoke_frame k c Hb) as (F1 & F2 & F3).
  pose proof (iter_rechoke_round k c Hr0 ltac:(lia)) as FR.
  destruct (IH (Nat.iter k rechoke c)) as (k' & Hk' & Hd).
  - rewrite F3. lia.
  - by rewrite F1.
  - done.
  - by rewrite F3.
  - lia.
  - lia.
  - exists (k' + k)%nat. split; [lia |]. by rewrite Nat.iter_add.
Qed.

Lemma optimistic_unchoked c i :
  (1 < slots c)%nat -> bt_sorted (peers c) -> i ∈ interested_ids c -> optimistic (rechoke c) = Some i ->
  is_unchoked (rechoke c) i = true.
Proof.
  intros Hs Hb Hi Ho. apply in_interested_ids in Hi as (s & Hg & Hint); [| done].
  assert (candidate (i, s) ∈ interested_of (candidate <$> peers c)) as Hcand.
  { rewrite candidates_interested. apply list_elem_of_fmap_2, list_elem_of_filter. split; [done |]. by apply bt_get_elem. }
  assert (i ∈ chosen_in c) as Hin.
  { unfold chosen_in. cbn in Ho. rewrite Ho.
    destruct (choose_cases (candidate <$> peers c) (slots c) (Some i) ltac:(lia)) as
      [[Hone _] | [(_ & j & [= <-] & _ & _ & ->) | (_ & Hall & H)]]; [lia | set_solver |].
    specialize (Hall i _ eq_refl Hcand eq_refl). destruct H as [(p & _ & _ & -> & _) | [-> _]]; set_solver. }
  unfold is_unchoked. assert (bt_get (peers (rechoke c)) i = Some (mkSlot true true 0 0)) as ->; [| done].
  apply bt_get_elem; [by apply rechoke_sorted |]. unfold rechoke. cbn [peers]. fold (chosen_in c).
  apply list_elem_of_fmap. exists (i, s). cbn [fst snd]. rewrite bool_decide_true, Hint by done.
  split; [done |]. by apply bt_get_elem.
Qed.

(** ** Properties *)

(** Who a round serves: [choose] picks only interested peers and fills as
    many slots as there are peers for; a peer left out ranks after every peer
    picked on merit (what it gave, then what it took, then its id); the
    optimistic peer is among them when it is interested and there is more than
    one slot; and the order the peers come in does not matter. *)
Theorem choose_spec (ps : list Candidate) (slots : nat) (o : option Z) (Hnd : NoDup (id <$> ps)) :
  let chosen := choose ps slots o in
  (forall i, i ∈ chosen -> exists p, p ∈ ps /\ interested p = true /\ id p = i) /\
  size chosen = Nat.min slots (length (interested_of ps)) /\
  (forall p c, p ∈ interested_of ps -> c ∈ interested_of ps -> id p ∉ chosen -> id c ∈ chosen ->
     o <> Some (id c) -> cand_le c p) /\
  (forall i p, (1 < slots)%nat -> o = Some i -> p ∈ interested_of ps -> id p = i -> i ∈ chosen) /\
  (forall ps', ps ≡ₚ ps' -> choose ps' slots o = chosen).
Proof.
  intros chosen. assert (NoDup (id <$> interested_of ps)) as Hndi.
  { eapply sublist_NoDup; [exact Hnd |]. apply fmap_sublist, sublist_filter. }
  assert (forall c, c ∈ interested_of ps -> id c ∈ best_ids ps (regular_slots slots) -> c ∈ take (regular_slots slots) (ranked ps)) as Hback.
  { intros c Hc (c' & Hc' & Heq)%best_ids_elem.
    assert (c = c') as -> by (apply (id_inj (interested_of ps)); done || by eapply in_take_ranked). done. }
  split_and!.
  - intros i (p & [Hint Hp]%list_elem_of_filter & Hid)%choose_interested. by exists p.
  - by apply choose_size.
  - intros p c Hp Hc Hpn Hcin Ho. unfold chosen in *.
    destruct (decide (slots = 0%nat)) as [-> | Hs]; [unfold choose in Hcin; simpl in Hcin; set_solver |].
    assert (id c ∈ best_ids ps (regular_slots slots) -> id p ∉ best_ids ps (regular_slots slots) -> cand_le c p) as Hreg.
    { intros Hcb Hpb. by apply (best_ids_le ps (regular_slots slots)), Hback. }
    destruct (choose_cases ps slots o ltac:(lia)) as
      [[_ E] | [(_ & j & -> & _ & _ & E) | (_ & _ & [(x & Hx & _ & E & Hmin) | [E _]])]]; rewrite E in *.
    + auto.
    + apply elem_of_union in Hcin as [Heq%elem_of_singleton | Hcin]; [by rewrite Heq in Ho | set_solver].
    + apply elem_of_union in Hcin as [Heq%elem_of_singleton | Hcin]; [| set_solver].
      assert (c = x) as -> by (by apply (id_inj (interested_of ps))). apply Hmin; [done | set_solver].
    + auto.
  - intros i p Hs -> Hp Hid. unfold chosen. destruct (choose_cases ps slots (Some i) ltac:(lia)) as
      [[Hone _] | [(_ & j & [= <-] & _ & _ & ->) | (_ & Hall & [(x & _ & _ & -> & _) | [-> _]])]]; [lia | set_solver | |];
      specialize (Hall i p eq_refl Hp Hid); set_solver.
  - intros ps' Hperm. unfold chosen, choose. fold (interested_of ps). fold (interested_of ps').
    fold (ranked ps). fold (ranked ps'). by rewrite (ranked_proper ps ps').
Qed.

Lemma choose_spec_witness :
  size (choose [mkCandidate 1 true 5 0; mkCandidate 2 true 0 9; mkCandidate 3 true 0 0] 2 (Some 3)) = 2%nat.
Proof.
  refine (proj1 (proj2 (choose_spec [mkCandidate 1 true 5 0; mkCandidate 2 true 0 9; mkCandidate 3 true 0 0] 2 (Some 3) _))).
  by apply (bool_decide_unpack _).
Defined.

(** The upload slots are never overrun: after any sequence of connections,
    disconnections, changes of interest, grants, transfers and rounds, no
    more peers are unchoked than there are slots and only interested peers
    are; and a round leaves no slot idle while an interested peer waits. *)
Theorem choker_slots (n : nat) (ops : list ChokerOp) :
  let c := foldl choker_step (new n) ops in
  (unchoked_count c <= slots c)%nat /\
  (forall i s, bt_get (peers c) i = Some s -> s_unchoked s = true -> s_interested s = true) /\
  unchoked_count (rechoke c) = Nat.min (slots c) (interested_count c).
Proof.
  intros c. assert (choker_ok c) as [Hs Hi Hn].
  { apply choker_run_ok. split; simpl; [done | constructor | unfold unchoked_count, bt_count; simpl; lia]. }
  split_and!; [done | | by apply rechoke_count].
  intros i s Hg. apply bt_get_elem in Hg; [| done]. exact (proj1 (Forall_forall _ _) Hi (i, s) Hg).
Qed.

(** Every interested peer is tried: with more than one slot, and as long as
    the same peers stay interested, each of them is unchoked in one of the next
    rounds, however it ranks; the optimistic slot needs at most three rounds a
    move and no more moves than twice the interested peers and one. *)
Theorem optimistic_slot_fair (c : Choker) (i : Z) (s : Slot)
    (Hslots : (1 < slots c)%nat) (Hc : bt_sorted (peers c))
    (Hi : bt_get (peers c) i = Some s) (Hint : s_interested s = true)
    (Hr0 : 0 <= round c) (Hr : round c + 3 * Z.of_nat (2 * interested_count c + 1) < 2 ^ 64) :
  exists k, (1 <= k <= 3 * (2 * interested_count c + 1))%nat /\ is_unchoked (Nat.iter k rechoke c) i = true.
Proof.
  assert (i ∈ interested_ids c) as Hin by (apply in_interested_ids; eauto).
  assert (length (interested_ids c) = interested_count c) as Hlen by (unfold interested_ids; by rewrite length_fmap).
  destruct (slot_reaches c i (2 * interested_count c + 1)) as (k & Hk & Ho); try done.
  { unfold moves. destruct (optimistic c) as [a |]; [destruct (_ <? _) |]; rewrite ?Hlen; try lia.
    - pose proof (filter_le_length (fun j => a < j <= i) (interested_ids c)). lia.
    - pose proof (filter_le_length (fun j => a < j) (interested_ids c)). lia. }
  exists k. split; [done |]. destruct k as [| k]; [lia |].
  change (Nat.iter (S k) rechoke c) with (rechoke (Nat.iter k rechoke c)) in *.
  destruct (iter_rechoke_frame k c Hc) as (F1 & F2 & F3).
  apply optimistic_unchoked; [by rewrite F1 | done | by rewrite F3 | done].
Qed.

Lemma optimistic_slot_fair_witness :
  exists k, is_unchoked (Nat.iter k rechoke
    (mkChoker 2 [(0, mkSlot true true 0 9); (1, mkSlot true false 0 5); (2, mkSlot true false 0 0)] 3 (Some 0) 4)) 2 = true.
Proof.
  destruct (optimistic_slot_fair
    (mkChoker 2 [(0, mkSlot true true 0 9); (1, mkSlot true false 0 5); (2, mkSlot true false 0 0)] 3 (Some 0) 4)
    2 (mkSlot true false 0 0)) as (k & _ & Hk);
    [simpl; lia | by repeat constructor | reflexivity | reflexivity | done | reflexivity |].
  exists k. exact Hk.
Defined.
