(* ===== verification/Net.v ===== *)
(** * Socket addresses

    The [std::net::SocketAddr] the components keep in sets and maps: the
    octets of the address and the port, and for IPv6 the flow label and the
    scope, which count for equality. *)

From S2P Require Import Prelude.

Inductive SocketAddr : Type :=
| V4 (ip : list Z) (port_ : Z)
| V6 (ip : list Z) (port_ : Z) (flowinfo scope_id : Z).

Definition port (a : SocketAddr) : Z :=
  match a with V4 _ p => p | V6 _ p _ _ => p end.

Definition is_ipv6 (a : SocketAddr) : bool :=
  match a with V4 _ _ => false | V6 _ _ _ _ => true end.

#[export] Instance socket_addr_eq_dec : EqDecision SocketAddr.
Proof. solve_decision. Defined.

#[export] Instance socket_addr_countable : Countable SocketAddr.
Proof.
  apply (inj_countable'
    (fun a => match a with V4 ip p => inl (ip, p) | V6 ip p f s => inr (ip, p, f, s) end)
    (fun x => match x with inl (ip, p) => V4 ip p | inr (ip, p, f, s) => V6 ip p f s end)).
  by intros [].
Defined.

(** [std::net::IpAddr]: the octets alone. *)
Inductive IpAddr : Type :=
| Ip4 (octets : list Z)
| Ip6 (octets : list Z).

#[export] Instance ip_addr_eq_dec : EqDecision IpAddr.
Proof. solve_decision. Defined.

#[export] Instance ip_addr_countable : Countable IpAddr.
Proof.
  apply (inj_countable' (fun a => match a with Ip4 o => inl o | Ip6 o => inr o end)
    (fun x => match x with inl o => Ip4 o | inr o => Ip6 o end)).
  by intros [].
Defined.

(** [SocketAddr::ip]. *)
Definition ip_of (a : SocketAddr) : IpAddr := match a with V4 o _ => Ip4 o | V6 o _ _ _ => Ip6 o end.

(** [SocketAddr::new]. *)
Definition socket_addr (i : IpAddr) (p : Z) : SocketAddr := match i with Ip4 o => V4 o p | Ip6 o => V6 o p 0 0 end.

Definition ip_is_v6 (i : IpAddr) : bool := match i with Ip4 _ => false | Ip6 _ => true end.

Lemma ip_of_socket_addr i p : ip_of (socket_addr i p) = i.
Proof. by destruct i. Qed.
