(* ===== verification/Tracker.v ===== *)
(** * Trackers (BEP 3, 7, 15, 23, 48)

    Models [src/src/tracker/]: the compact peer lists, percent-encoding and
    redirects of [mod.rs], the HTTP exchange of [http.rs] and [https.rs], the
    packets and retries of [udp.rs], and [scrape.rs].

    The network is a parameter: what a server sends back to a request, after
    the requests made so far.  TCP, TLS ([rustls]) and name resolution are
    behind it; the bytes of the request, and everything made of the answer,
    are modelled. *)

From S2P Require Import Prelude Str Numeral Text Bytes BTree Bencode Io Net Dicts.

Inductive Event : Type := Started | Stopped | Completed.

Definition event_str (e : Event) : list Z :=
  match e with Started => str "started" | Stopped => str "stopped" | Completed => str "completed" end.

Record AnnounceRequest : Type := mkAnnounceRequest {
  info_hash : list Z;
  peer_id : list Z;
  req_port : Z;
  uploaded : Z;
  downloaded : Z;
  left : Z;
  compact : bool;
  event : option Event;
  numwant : option Z
}.

Record AnnounceResponse : Type := mkAnnounceResponse {
  interval : Z;
  min_interval : option Z;
  complete : option Z;
  incomplete : option Z;
  peers : list SocketAddr
}.

Inductive TrackerError : Type :=
| IoError (e : ErrorKind)
| DecodeErr (e : DecodeError)
| BadUrl (url : list Z)
| UnsupportedScheme (scheme : list Z)
| MalformedResponse (what : String.string)
| TrackerFailure (reason : list Z)
| Timeout
| Tls (what : list Z)
| HttpStatus (code : Z)
| Redirect (location : list Z)
| TooManyRedirects.
Arguments MalformedResponse what%_string_scope.

Abbreviation tracked A := (result A TrackerError).

Definition MAX_REDIRECTS : nat := 5.

(** ** Compact peers and percent-encoding *)

Definition parse_compact_peers (data : list Z) : tracked (list SocketAddr) :=
  if negb (zlen data mod 6 =? 0) then Err (MalformedResponse "compact peers length not a multiple of 6")
  else Ok ((fun c => V4 (take 4 c) (from_be_bytes (drop 4 c))) <$> as_chunks (length data) 6 data).

Definition parse_compact_peers_v6 (data : list Z) : tracked (list SocketAddr) :=
  if negb (zlen data mod 18 =? 0) then Err (MalformedResponse "compact peers6 length not a multiple of 18")
  else Ok ((fun c => V6 (take 16 c) (from_be_bytes (drop 16 c)) 0 0) <$> as_chunks (length data) 18 data).

Definition unreserved (b : Z) : bool :=
  is_ascii_alphanumeric b || (b =? 45) || (b =? 95) || (b =? 46) || (b =? 126).

Definition percent_encode_bytes (bs : list Z) : list Z :=
  flat_map (fun b => if unreserved b then [b] else [37; hex_upper (b / 16); hex_upper (b mod 16)]) bs.

(** ** Redirects *)

Definition check_redirect_allowed (from to : list Z) : tracked unit :=
  if starts_with (str "https://") from && starts_with (str "http://") to
  then Err (BadUrl (str "refusing a redirect from https to http: " ++ to))
  else Ok tt.

Definition scheme_char (b : Z) : bool := is_ascii_alphanumeric b || (b =? 43) || (b =? 45) || (b =? 46).

Definition other_scheme (location : list Z) : option (list Z) :=
  match split_once (str "://") location with
  | Some (scheme, _) => if negb (bool_decide (scheme = [])) && forallb scheme_char scheme then Some scheme else None
  | None => None
  end.

Definition resolve_redirect (base location0 : list Z) : tracked (list Z) :=
  let location := trim location0 in
  if bool_decide (location = []) then Err (MalformedResponse "empty redirect location")
  else if starts_with (str "http://") location || starts_with (str "https://") location then Ok location
  else match other_scheme location with
  | Some scheme => Err (UnsupportedScheme scheme)
  | None =>
      let? (scheme, rest) := ok_or (split_once (str "://") base) (BadUrl base) in
      match strip_prefix (str "//") location with
      | Some rest_of_location => Ok (scheme ++ str "://" ++ rest_of_location)
      | None =>
          let authority_end := default (length rest) (find_byte (fun b => (b =? 47) || (b =? 63)) rest) in
          let authority := take authority_end rest in
          let path_and_query := drop authority_end rest in
          if starts_with (str "/") location then Ok (scheme ++ str "://" ++ authority ++ location)
          else
            let path := default [] (head (split_on 63 path_and_query)) in
            let directory := take (match rfind_byte 47 path with Some i => S i | None => O end) path in
            let directory := if bool_decide (directory = []) then str "/" else directory in
            Ok (scheme ++ str "://" ++ authority ++ directory ++ location)
      end
  end.

(** ** HTTP *)

Record ParsedUrl : Type := mkParsedUrl {
  host : list Z;
  authority : list Z;
  url_port : Z;
  path_and_query : list Z
}.

(** [url.split("://").next()]. *)
Definition scheme_of (url : list Z) : list Z :=
  match split_once (str "://") url with Some (scheme, _) => scheme | None => url end.

Definition bracketed_host (bad : TrackerError) (default_port : Z) (bracketed : list Z) : tracked (list Z * Z) :=
  let? (address, after) := ok_or (split_once (str "]") bracketed) bad in
  let? port := (match after with
                | [] => Ok default_port
                | _ => ok_or (p ← strip_prefix (str ":") after; parse_u 16 p) bad
                end) in
  if bool_decide (address = []) then Err bad else Ok (address, port).

Definition parse_authority_and_path (full_url rest : list Z) (default_port : Z) : tracked ParsedUrl :=
  let '(auth, path) := match find_byte (fun b => b =? 47) rest with
                       | Some idx => (take idx rest, drop idx rest)
                       | None => (rest, str "/")
                       end in
  let bad := BadUrl full_url in
  if bool_decide (auth = []) then Err bad
  else
    let? (h, p) := (match strip_prefix (str "[") auth with
                    | Some bracketed => bracketed_host bad default_port bracketed
                    | None =>
                        match rsplit_once 58 auth with
                        | Some (h, p) => let? port := ok_or (parse_u 16 p) bad in Ok (h, port)
                        | None => Ok (auth, default_port)
                        end
                    end) in
    if bool_decide (h = []) then Err bad else Ok (mkParsedUrl h auth p path).

Definition parse_http_url (url : list Z) : tracked ParsedUrl :=
  let? rest := ok_or (strip_prefix (str "http://") url) (UnsupportedScheme (scheme_of url)) in
  parse_authority_and_path url rest 80.

Definition parse_https_url (url : list Z) : tracked ParsedUrl :=
  let? rest := ok_or (strip_prefix (str "https://") url) (UnsupportedScheme (scheme_of url)) in
  parse_authority_and_path url rest 443.

Definition build_query (req : AnnounceRequest) : list Z :=
  str "info_hash=" ++ percent_encode_bytes (info_hash req) ++
  str "&peer_id=" ++ percent_encode_bytes (peer_id req) ++
  str "&port=" ++ u_to_string (req_port req) ++
  str "&uploaded=" ++ u_to_string (uploaded req) ++
  str "&downloaded=" ++ u_to_string (downloaded req) ++
  str "&left=" ++ u_to_string (left req) ++
  str "&compact=" ++ u_to_string (if compact req then 1 else 0) ++
  match event req with Some e => str "&event=" ++ event_str e | None => [] end ++
  match numwant req with Some n => str "&numwant=" ++ u_to_string n | None => [] end.

(** What one [read] of the connection gives: bytes, a timeout, or an error.
    The end of the list is the end of the stream. *)
Inductive ReadResult : Type :=
| ReadBytes (bs : list Z)
| WouldBlock
| ReadFailed (e : ErrorKind).

Definition MAX_RESPONSE_BYTES : Z := 4 * 2 ^ 20.

(** The read loop of [read_http_response_body]. *)
Fixpoint read_all (buf : list Z) (reads : list ReadResult) : tracked (list Z) :=
  match reads with
  | [] | ReadBytes [] :: _ | WouldBlock :: _ => Ok buf
  | ReadFailed e :: _ => Err (IoError e)
  | ReadBytes bs :: reads' =>
      let buf' := buf ++ bs in
      if MAX_RESPONSE_BYTES <? zlen buf' then Err (MalformedResponse "tracker response too large") else read_all buf' reads'
  end.

Definition header_value (header_text name : list Z) : option (list Z) :=
  head (omap (fun line => '(key, value) ← split_once (str ":") line;
                          if eq_ignore_ascii_case (trim key) name then Some (trim value) else None)
             (drop 1 (lines header_text))).

(** [decode_chunked_body]; the fuel bounds the number of chunks. *)
Fixpoint decode_chunked (fuel : nat) (out data : list Z) : option (tracked (list Z)) :=
  match fuel with
  | O => None
  | S fuel' =>
      match find_sub [13; 10] data with
      | None => Some (Err (MalformedResponse "bad chunk size line"))
      | Some line_end =>
          let size_line := take line_end data in
          if negb (utf8_valid (length size_line) size_line) then Some (Err (MalformedResponse "non-utf8 chunk size"))
          else
            let size_str := trim (default size_line (head (split_on 59 size_line))) in
            match parse_hex 64 size_str with
            | None => Some (Err (MalformedResponse "invalid chunk size hex"))
            | Some size =>
                let data := drop (line_end + 2) data in
                if size =? 0 then Some (Ok out)
                else if match u_checked_add 64 size 2 with None => true | Some needed => zlen data <? needed end
                then Some (Err (MalformedResponse "chunk body truncated"))
                else decode_chunked fuel' (out ++ take (Z.to_nat size) data) (drop (Z.to_nat (size + 2)) data)
            end
      end
  end.

Definition decode_chunked_body (data : list Z) : option (tracked (list Z)) := decode_chunked (S (length data)) [] data.

(** [read_http_response_body] once everything has been read. *)
Definition response_body (buf : list Z) : option (tracked (list Z)) :=
  match find_sub [13; 10; 13; 10] buf with
  | None => Some (Err (MalformedResponse "no header/body separator"))
  | Some header_end =>
      let header_text := from_utf8_lossy (take header_end buf) in
      let status_line := default [] (head (lines header_text)) in
      let status_code := default 0 (s ← split_whitespace status_line !! 1%nat; parse_u 16 s) in
      if existsb (Z.eqb status_code) [301; 302; 303; 307; 308] then
        Some (Err (match header_value header_text (str "location") with
                   | Some location => Redirect location
                   | None => HttpStatus status_code
                   end))
      else if negb ((200 <=? status_code) && (status_code <? 300)) then Some (Err (HttpStatus status_code))
      else
        let is_chunked := contains (str "transfer-encoding: chunked") (to_ascii_lowercase header_text) in
        let content_length :=
          l ← head (filter (fun l => starts_with (str "content-length:") (to_ascii_lowercase l) = true) (lines header_text));
          v ← split_on 58 l !! 1%nat; parse_u 64 (trim v) in
        let raw_body := drop (header_end + 4) buf in
        if is_chunked then decode_chunked_body raw_body
        else match content_length with
        | Some len =>
            if zlen raw_body <? len then Some (Err (MalformedResponse "response truncated before Content-Length"))
            else Some (Ok (take (Z.to_nat len) raw_body))
        | None => Some (Ok raw_body)
        end
  end.

Definition read_http_response_body (reads : list ReadResult) : option (tracked (list Z)) :=
  match read_all [] reads with Err e => Some (Err e) | Ok buf => response_body buf end.

(** One peer of the non-compact list. *)
Definition peer_of_dict (p : Bencode) : option SocketAddr :=
  ip ← (v ← get p (str "ip"); as_str v) ≫= parse_ipv4;
  port ← v ← get p (str "port"); as_int v;
  Some (V4 ip (wrap 16 port)).

Definition get_int (value : Bencode) (k : String.string) : option Z := v ← get value (str k); as_int v.
Arguments get_int value k%_string_scope.

Definition parse_announce_body (body : list Z) : option (tracked AnnounceResponse) :=
  match decode_lenient body with
  | None => None
  | Some (Err e) => Some (Err (DecodeErr e))
  | Some (Ok value) => Some (
      let? dict := ok_or (as_dict value) (MalformedResponse "response is not a dict") in
      match (v ← bt_get dict (str "failure reason"); as_str v) with
      | Some reason => Err (TrackerFailure reason)
      | None =>
          let? interval := ok_or (get_int value "interval") (MalformedResponse "missing interval") in
          let? ps := (match get value (str "peers") with
                      | Some (Bytes data) => parse_compact_peers data
                      | Some (List l) => Ok (omap peer_of_dict l)
                      | _ => Err (MalformedResponse "missing or malformed peers")
                      end) in
          let ps6 := match get value (str "peers6") with
                     | Some (Bytes data) => match parse_compact_peers_v6 data with Ok ps => ps | Err _ => [] end
                     | _ => []
                     end in
          Ok (mkAnnounceResponse (wrap 32 interval) (wrap 32 <$> get_int value "min interval")
                (wrap 32 <$> get_int value "complete") (wrap 32 <$> get_int value "incomplete") (ps ++ ps6))
      end)
  end.

(** ** The HTTP exchange

    A request as it goes out: over TLS or not, to whom, and its bytes. *)
Record HttpRequest : Type := mkHttpRequest {
  tls : bool;
  to_host : list Z;
  to_port : Z;
  sent : list Z
}.

Definition CRLF : list Z := [13; 10].

(** The request [get_body] writes. *)
Definition http_request (url : ParsedUrl) (query : list Z) : list Z :=
  let separator := if contains (str "?") (path_and_query url) then str "&" else str "?" in
  str "GET " ++ path_and_query url ++ separator ++ query ++ str " HTTP/1.1" ++ CRLF ++
  str "Host: " ++ authority url ++ CRLF ++ str "User-Agent: bittorrent-rs/0.1" ++ CRLF ++
  str "Connection: close" ++ CRLF ++ str "Accept: */*" ++ CRLF ++ CRLF.

Section http.

(** What a server answers, given the requests made before. *)
Context (serve : list HttpRequest -> HttpRequest -> tracked (list ReadResult)).

Abbreviation Log := (list HttpRequest).

Definition get_body (is_tls : bool) (log : Log) (url : ParsedUrl) (query : list Z) : Log * option (tracked (list Z)) :=
  let r := mkHttpRequest is_tls (host url) (url_port url) (http_request url query) in
  (log ++ [r], match serve log r with Err e => Some (Err e) | Ok reads => read_http_response_body reads end).

(** [http::get] and [https::get]. *)
Definition http_get (log : Log) (url query : list Z) : Log * option (tracked (list Z)) :=
  match parse_http_url url with Err e => (log, Some (Err e)) | Ok u => get_body false log u query end.

Definition https_get (log : Log) (url query : list Z) : Log * option (tracked (list Z)) :=
  match parse_https_url url with Err e => (log, Some (Err e)) | Ok u => get_body true log u query end.

(** [http::announce] and [https::announce]. *)
Definition perform_request_and_parse (is_tls : bool) (log : Log) (url : ParsedUrl) (req : AnnounceRequest) :
    Log * option (tracked AnnounceResponse) :=
  let '(log', body) := get_body is_tls log url (build_query req) in
  (log', match body with
         | None => None
         | Some (Err e) => Some (Err e)
         | Some (Ok b) => parse_announce_body b
         end).

Definition http_announce (log : Log) (url : list Z) (req : AnnounceRequest) : Log * option (tracked AnnounceResponse) :=
  match parse_http_url url with Err e => (log, Some (Err e)) | Ok u => perform_request_and_parse false log u req end.

Definition https_announce (log : Log) (url : list Z) (req : AnnounceRequest) : Log * option (tracked AnnounceResponse) :=
  match parse_https_url url with Err e => (log, Some (Err e)) | Ok u => perform_request_and_parse true log u req end.

(** Where a redirect leads, or the error that ends the announce. *)
Definition next_url (current location : list Z) : tracked (list Z) :=
  let? next := resolve_redirect current location in
  let? _ := check_redirect_allowed current next in
  Ok next.

(** The loop of [announce_http] and of [scrape]: [ask] makes one request. *)
Fixpoint follow {A} (ask : Log -> list Z -> Log * option (tracked A)) (n : nat) (log : Log) (current : list Z) :
    Log * option (tracked A) :=
  match n with
  | O => (log, Some (Err TooManyRedirects))
  | S n' =>
      let '(log', result) := ask log current in
      match result with
      | Some (Err (Redirect location)) =>
          match next_url current location with
          | Ok next => follow ask n' log' next
          | Err e => (log', Some (Err e))
          end
      | other => (log', other)
      end
  end.

Definition announce_http (log : Log) (url : list Z) (req : AnnounceRequest) : Log * option (tracked AnnounceResponse) :=
  follow (fun log u => if starts_with (str "https://") u then https_announce log u req else http_announce log u req)
    (S MAX_REDIRECTS) log url.

(** ** Scrapes over HTTP *)

Record ScrapeStats : Type := mkScrapeStats {
  s_complete : Z;
  s_downloaded : Z;
  s_incomplete : Z
}.

Definition scrape_url (announce_url : list Z) : option (list Z) :=
  let '(path, query) := match split_once (str "?") announce_url with
                        | Some (path, query) => (path, Some query)
                        | None => (announce_url, None)
                        end in
  let authority_end := match find_sub (str "://") path with Some at_ => (at_ + 3)%nat | None => O end in
  i ← rfind_byte 47 (drop authority_end path);
  let last_slash := (i + authority_end)%nat in
  rest ← strip_prefix (str "announce") (drop (S last_slash) path);
  Some (take last_slash path ++ str "/scrape" ++ rest ++ match query with Some q => str "?" ++ q | None => [] end).

(** [n.clamp(0, u32::MAX) as u32], 0 if there is none. *)
Definition scrape_count (entry : Bencode) (k : String.string) : Z :=
  match get_int entry k with Some n => Z.min (Z.max n 0) (u_max 32) | None => 0 end.
Arguments scrape_count entry k%_string_scope.

Definition parse_scrape_body (body info_hash : list Z) : option (tracked ScrapeStats) :=
  match decode_lenient body with
  | None => None
  | Some (Err e) => Some (Err (DecodeErr e))
  | Some (Ok value) => Some (
      let? dict := ok_or (as_dict value) (MalformedResponse "scrape response is not a dict") in
      match (v ← bt_get dict (str "failure reason"); as_str v) with
      | Some reason => Err (TrackerFailure reason)
      | None =>
          let? files := ok_or (v ← get value (str "files"); as_dict v) (MalformedResponse "scrape response has no files") in
          let? entry := ok_or (bt_get files info_hash) (TrackerFailure (str "it does not know this torrent")) in
          Ok (mkScrapeStats (scrape_count entry "complete") (scrape_count entry "downloaded") (scrape_count entry "incomplete"))
      end)
  end.

(** [scrape] of an [http://] or [https://] tracker. *)
Definition scrape_http (log : Log) (announce_url info_hash : list Z) : Log * option (tracked ScrapeStats) :=
  if negb (starts_with (str "http://") announce_url) && negb (starts_with (str "https://") announce_url)
  then (log, Some (Err (UnsupportedScheme (scheme_of announce_url))))
  else match scrape_url announce_url with
  | None => (log, Some (Err (BadUrl (announce_url ++ str ": not an announce URL that has a scrape (BEP 48)"))))
  | Some url =>
      let query := str "info_hash=" ++ percent_encode_bytes info_hash in
      let '(log', body) :=
        follow (fun log u => if starts_with (str "https://") u then https_get log u query else http_get log u query)
          (S MAX_REDIRECTS) log url in
      (log', match body with
             | None => None
             | Some (Err e) => Some (Err e)
             | Some (Ok b) => parse_scrape_body b info_hash
             end)
  end.

End http.

(** ** UDP (BEP 15) *)

Definition PROTOCOL_ID : Z := 0x41727101980.
Definition ACTION_CONNECT : Z := 0.
Definition ACTION_ANNOUNCE : Z := 1.
Definition ACTION_SCRAPE : Z := 2.
Definition ACTION_ERROR : Z := 3.

Abbreviation be64 := (to_be_bytes 8).

Definition build_connect_request (transaction_id : Z) : list Z :=
  be64 PROTOCOL_ID ++ be32 ACTION_CONNECT ++ be32 transaction_id.

Definition field_u32 (resp : list Z) (at_ : Z) : tracked Z :=
  ok_or (be_u32 resp at_) (MalformedResponse "response too short for its fields").

Definition parse_connect_response (resp : list Z) (expected_txn : Z) : tracked Z :=
  if zlen resp <? 16 then Err (MalformedResponse "connect response too short")
  else
    let? action := field_u32 resp 0 in
    let? txn := field_u32 resp 4 in
    if negb (txn =? expected_txn) then Err (MalformedResponse "connect response transaction_id mismatch")
    else if action =? ACTION_ERROR then Err (TrackerFailure (from_utf8_lossy (drop 8 resp)))
    else if negb (action =? ACTION_CONNECT) then Err (MalformedResponse "unexpected action in connect response")
    else ok_or (be_u64 resp 8) (MalformedResponse "connect response too short").

Definition event_code (e : option Event) : Z :=
  match e with None => 0 | Some Completed => 1 | Some Started => 2 | Some Stopped => 3 end.

(** [numwant.map(|n| n as i32).unwrap_or(-1).to_be_bytes()]: the bits of the
    [u32], or of -1. *)
Definition build_announce_request (connection_id transaction_id : Z) (req : AnnounceRequest) : list Z :=
  be64 connection_id ++ be32 ACTION_ANNOUNCE ++ be32 transaction_id ++ info_hash req ++ peer_id req ++
  be64 (downloaded req) ++ be64 (left req) ++ be64 (uploaded req) ++ be32 (event_code (event req)) ++
  be32 0 ++ be32 0 ++ be32 (match numwant req with Some n => n | None => -1 end) ++ be16 (req_port req).

Definition parse_announce_response (resp : list Z) (expected_txn : Z) : tracked AnnounceResponse :=
  if zlen resp <? 20 then Err (MalformedResponse "announce response too short")
  else
    let? action := field_u32 resp 0 in
    let? txn := field_u32 resp 4 in
    if negb (txn =? expected_txn) then Err (MalformedResponse "announce response transaction_id mismatch")
    else if action =? ACTION_ERROR then Err (TrackerFailure (from_utf8_lossy (drop 8 resp)))
    else if negb (action =? ACTION_ANNOUNCE) then Err (MalformedResponse "unexpected action in announce response")
    else
      let? interval := field_u32 resp 8 in
      let? incomplete := field_u32 resp 12 in
      let? complete := field_u32 resp 16 in
      let? ps := parse_compact_peers (drop 20 resp) in
      Ok (mkAnnounceResponse interval None (Some complete) (Some incomplete) ps).

Definition build_scrape_request (connection_id transaction_id : Z) (info_hash : list Z) : list Z :=
  be64 connection_id ++ be32 ACTION_SCRAPE ++ be32 transaction_id ++ info_hash.

Definition parse_scrape_response (resp : list Z) (expected_txn : Z) : tracked ScrapeStats :=
  if zlen resp <? 8 then Err (MalformedResponse "scrape response too short")
  else
    let? action := field_u32 resp 0 in
    let? txn := field_u32 resp 4 in
    if negb (txn =? expected_txn) then Err (MalformedResponse "scrape response transaction_id mismatch")
    else if action =? ACTION_ERROR then Err (TrackerFailure (from_utf8_lossy (drop 8 resp)))
    else if negb (action =? ACTION_SCRAPE) then Err (MalformedResponse "unexpected action in scrape response")
    else
      let? complete := field_u32 resp 8 in
      let? downloaded := field_u32 resp 12 in
      let? incomplete := field_u32 resp 16 in
      Ok (mkScrapeStats complete downloaded incomplete).

(** A connected UDP socket: what has been sent, with the timeout each packet
    was given, and what each [recv] will find, datagrams in order of arrival;
    past the end nothing arrives. *)
Inductive Recv : Type :=
| Datagram (bs : list Z)
| RecvTimeout
| RecvFailed (e : ErrorKind).

Record UdpSock : Type := mkUdpSock {
  packets : list (list Z * Z);
  arriving : list Recv
}.

Definition recv (s : UdpSock) : Recv * UdpSock :=
  match arriving s with
  | [] => (RecvTimeout, s)
  | r :: rest => (r, mkUdpSock (packets s) rest)
  end.

Definition RECV_BUFFER : nat := 4096.

(** [send_with_retries] from try [n], with [tries] left: sends, waits
    [15 * 2^n] seconds, and tries again if nothing came. *)
Fixpoint send_tries (tries : nat) (n : Z) (packet : list Z) (s : UdpSock) : UdpSock * tracked (list Z) :=
  match tries with
  | O => (s, Err Timeout)
  | S tries' =>
      let s := mkUdpSock (packets s ++ [(packet, 15 * Z.shiftl 1 n)]) (arriving s) in
      let '(r, s) := recv s in
      match r with
      | Datagram bs => (s, Ok (take RECV_BUFFER bs))
      | RecvTimeout => send_tries tries' (n + 1) packet s
      | RecvFailed e => (s, Err (IoError e))
      end
  end.

Definition send_with_retries (s : UdpSock) (packet : list Z) (max_retries : nat) : UdpSock * tracked (list Z) :=
  send_tries (S max_retries) 0 packet s.

(** The rest of [connect] once the socket is connected; [txn] is the random
    transaction id. *)
Definition udp_connect (s : UdpSock) (txn : Z) : UdpSock * tracked Z :=
  let '(s, r) := send_with_retries s (build_connect_request txn) 4 in
  (s, let? resp := r in parse_connect_response resp txn).

(** [udp::announce]. *)
Definition udp_announce (s : UdpSock) (connect_txn announce_txn : Z) (req : AnnounceRequest) : UdpSock * tracked AnnounceResponse :=
  let '(s, c) := udp_connect s connect_txn in
  match c with
  | Err e => (s, Err e)
  | Ok connection_id =>
      let '(s, r) := send_with_retries s (build_announce_request connection_id announce_txn req) 4 in
      (s, let? resp := r in parse_announce_response resp announce_txn)
  end.

(** [udp::scrape]. *)
Definition udp_scrape (s : UdpSock) (connect_txn txn : Z) (info_hash : list Z) : UdpSock * tracked ScrapeStats :=
  let '(s, c) := udp_connect s connect_txn in
  match c with
  | Err e => (s, Err e)
  | Ok connection_id =>
      let '(s, r) := send_with_retries s (build_scrape_request connection_id txn info_hash) 4 in
      (s, let? resp := r in parse_scrape_response resp txn)
  end.

(** ** Compact lists, exactly *)

Definition addr4_ok (a : SocketAddr) : Prop :=
  match a with V4 ip p => zlen ip = 4 /\ bytes_ok ip /\ u_ok 16 p | V6 _ _ _ _ => False end.

Definition compact4 (a : SocketAddr) : list Z :=
  match a with V4 ip p => ip ++ be16 p | V6 ip p _ _ => ip ++ be16 p end.

Lemma to_from_be16 b : length b = 2%nat -> bytes_ok b -> be16 (from_be_bytes b) = b.
Proof. intros <-. apply to_from_be_bytes. Qed.

Lemma parse_compact4 c :
  length c = 6%nat -> bytes_ok c ->
  addr4_ok (V4 (take 4 c) (from_be_bytes (drop 4 c))) /\ compact4 (V4 (take 4 c) (from_be_bytes (drop 4 c))) = c.
Proof.
  intros Hl Hb. assert (bytes_ok (drop 4 c)) as Hd by by apply Forall_drop.
  assert (length (drop 4 c) = 2%nat) as Hdl by (rewrite length_drop; lia). split.
  - split_and!; [unfold zlen; rewrite length_take; lia | by apply Forall_take |].
    pose proof (from_be_bytes_bound _ Hd) as H. unfold zlen in H. rewrite Hdl in H. exact H.
  - cbn [compact4]. rewrite to_from_be16 by done. apply take_drop.
Qed.

(** A list is accepted exactly when it is the compact form of IPv4 peers, and
    then gives those peers. *)
Lemma parse_compact_peers_iff data ps :
  bytes_ok data -> parse_compact_peers data = Ok ps <-> Forall addr4_ok ps /\ data = concat (compact4 <$> ps).
Proof.
  intros Hb. unfold parse_compact_peers. split.
  - destruct (Z.eqb_spec (zlen data mod 6) 0) as [Hm |]; [| done]. cbn [negb]. intros [= <-].
    destruct (as_chunks_each 6 (length data) data Hb) as [Hc _]. split.
    + apply Forall_fmap. apply (Forall_impl _ _ _ Hc). intros c [Hl Hbc]. by apply parse_compact4.
    + rewrite <- list_fmap_compose. rewrite <- (concat_as_chunks 6 (length data) data) at 1; [| lia | lia | done]. f_equal.
      induction Hc as [| c l [Hl Hbc] Hc IH]; [done |]. rewrite fmap_cons, <- IH. f_equal. symmetry. by apply parse_compact4.
  - intros [Hps ->].
    assert (Forall (fun c => length c = 6%nat) (compact4 <$> ps)) as Hls.
    { apply Forall_fmap. apply (Forall_impl _ _ _ Hps). intros [ip p |] H; [| done]. destruct H as [Hip _].
      cbn. rewrite length_app, length_to_be_bytes. unfold zlen in Hip. lia. }
    assert (zlen (concat (compact4 <$> ps)) = 6 * zlen (compact4 <$> ps)) as Hlen.
    { apply (zlen_concat_len 6). apply (Forall_impl _ _ _ Hls). unfold zlen. lia. }
    rewrite Hlen, Z.mul_comm, Z.mod_mul by lia. cbn [Z.eqb negb].
    rewrite as_chunks_concat_len; [| lia | done | unfold zlen in Hlen; lia]. f_equal. rewrite <- list_fmap_compose.
    clear Hls Hlen Hb. induction Hps as [| [ip p |] ps H Hps IH]; [done | | done]. destruct H as (Hip & _ & Hp).
    rewrite fmap_cons, IH. f_equal. cbn. rewrite take_app_length', drop_app_length' by (unfold zlen in Hip; lia).
    by rewrite from_to_be_bytes_ok.
Qed.

(** ** Percent-encoding *)

(** Reading a percent-encoded string, as a server does (RFC 3986). *)
Fixpoint percent_decode (s : list Z) : option (list Z) :=
  match s with
  | [] => Some []
  | 37 :: r =>
      match r with
      | h :: l :: r' => a ← hex_value h; b ← hex_value l; t ← percent_decode r'; Some (a * 16 + b :: t)
      | _ => None
      end
  | b :: r => t ← percent_decode r; Some (b :: t)
  end.

Lemma hex_value_upper d : 0 <= d < 16 -> hex_value (hex_upper d) = Some d.
Proof.
  intros Hd. unfold hex_upper, hex_value, is_ascii_digit. destruct (Z.ltb_spec d 10).
  - rewrite !(proj2 (Z.leb_le _ _)) by lia. cbn. f_equal. lia.
  - rewrite (proj2 (Z.leb_gt (55 + d) 57)) by lia. rewrite andb_false_r.
    rewrite (proj2 (Z.leb_gt 97 (55 + d))) by lia. cbn [andb]. rewrite !(proj2 (Z.leb_le _ _)) by lia. cbn. f_equal. lia.
Qed.

Lemma hex_upper_unreserved d : 0 <= d < 16 -> unreserved (hex_upper d) = true.
Proof.
  intros Hd. assert (forallb (fun d => unreserved (hex_upper d)) (seqZ 0 16) = true) as H by done.
  rewrite forallb_forall in H. apply H. apply list_elem_of_In, elem_of_seqZ. lia.
Qed.

Lemma percent_decode_other b r : b <> 37 -> percent_decode (b :: r) = (t ← percent_decode r; Some (b :: t)).
Proof.
  intros Hb. cbn [percent_decode]. do 6 (destruct b as [| b | b]; try done; destruct b as [b | b |]; try done).
Qed.

Lemma unreserved_not_percent b : unreserved b = true -> b <> 37.
Proof. by intros H ->. Qed.

Lemma percent_step b s :
  u_ok 8 b ->
  percent_decode ((if unreserved b then [b] else [37; hex_upper (b / 16); hex_upper (b mod 16)]) ++ s) =
  (t ← percent_decode s; Some (b :: t)).
Proof.
  intros Hb. unfold u_ok in Hb. change (2 ^ 8) with 256 in Hb. destruct (unreserved b) eqn:E.
  - apply percent_decode_other. by apply unreserved_not_percent.
  - assert (0 <= b / 16 < 16) by (split; [apply Z.div_pos; lia | apply Z.div_lt_upper_bound; lia]).
    cbn [app percent_decode]. rewrite !hex_value_upper by (try apply Z.mod_pos_bound; lia). cbn [mbind option_bind].
    replace (b / 16 * 16 + b mod 16) with b; [done |]. pose proof (Z.div_mod b 16). lia.
Qed.

(** ** Redirects stay on TLS *)

Abbreviation https := (str "https://").

Lemma https_scheme r : split_once (str "://") (https ++ r) = Some (str "https", r).
Proof. unfold split_once. by vm_compute. Qed.

Lemma https_app s : starts_with https (str "https" ++ str "://" ++ s) = true.
Proof. apply starts_with_iff. by exists s. Qed.

Lemma next_url_https current location next :
  starts_with https current = true -> next_url current location = Ok next -> starts_with https next = true.
Proof.
  intros Hc H. unfold next_url in H. apply result_bind_Ok in H as (n & Hr & H).
  apply result_bind_Ok in H as (u & Hchk & H). injection H as <-.
  unfold check_redirect_allowed in Hchk. rewrite Hc in Hchk. destruct (starts_with (str "http://") n) eqn:Hp; [done |].
  clear Hchk. pose proof Hc as [r ->]%starts_with_iff. unfold resolve_redirect in Hr. cbv zeta in Hr.
  destruct (bool_decide (trim location = [])); [done |].
  destruct (starts_with (str "http://") (trim location) || starts_with https (trim location))%bool eqn:E.
  { injection Hr as <-. by rewrite Hp in E. }
  destruct (other_scheme (trim location)); [done |]. rewrite https_scheme in Hr. cbn [ok_or result_bind] in Hr.
  destruct (strip_prefix (str "//") (trim location)); [by injection Hr as <-; apply https_app |].
  destruct (starts_with (str "/") (trim location)); injection Hr as <-; apply https_app.
Qed.

Section redirects.
Context (serve : list HttpRequest -> HttpRequest -> tracked (list ReadResult)).

(** [ask] makes at most one request, over TLS when the URL says so. *)
Definition asks_once {A} (ask : list HttpRequest -> list Z -> list HttpRequest * option (tracked A)) : Prop :=
  forall log u, exists new, (ask log u).1 = log ++ new /\ (length new <= 1)%nat /\
    Forall (fun r => tls r = starts_with https u) new.

Lemma follow_tls {A} (ask : list HttpRequest -> list Z -> list HttpRequest * option (tracked A)) n log u :
  asks_once ask -> starts_with https u = true ->
  exists new, (follow ask n log u).1 = log ++ new /\ (length new <= n)%nat /\ Forall (fun r => tls r = true) new.
Proof using Type.
  intros Hask. revert log u. induction n as [| n IH]; intros log u Hu; cbn [follow].
  - exists []. rewrite app_nil_r. done.
  - destruct (Hask log u) as (new & Hn & Hl & Ht). rewrite Hu in Ht.
    destruct (ask log u) as [log' r]. cbn [fst] in Hn. subst log'.
    assert (exists new0, log ++ new = log ++ new0 /\ (length new0 <= S n)%nat /\ Forall (fun r => tls r = true) new0) as Hdone
      by (exists new; split_and!; [done | lia | done]).
    destruct r as [[v | e] |]; [exact Hdone | | exact Hdone]. destruct e; try exact Hdone.
    destruct (next_url u location) as [next | e'] eqn:En; [| exact Hdone].
    destruct (IH (log ++ new) next) as (more & Hm & Hlm & Htm); [by eapply next_url_https |].
    exists (new ++ more). rewrite Hm, app_assoc, length_app. split_and!; [done | lia | by apply Forall_app].
Qed.

Lemma get_body_once b log u q : exists r, (get_body serve b log u q).1 = log ++ [r] /\ tls r = b.
Proof using Type. eexists. split; [reflexivity | done]. Qed.

Lemma announce_asks_once req :
  asks_once (fun log u => if starts_with https u then https_announce serve log u req else http_announce serve log u req).
Proof using Type.
  intros log u. unfold https_announce, http_announce, perform_request_and_parse.
  destruct (starts_with https u); [destruct (parse_https_url u) as [p |] | destruct (parse_http_url u) as [p |]].
  2, 4: exists []; rewrite app_nil_r; split_and!; [done | simpl; lia | done].
  - destruct (get_body_once true log p (build_query req)) as (r & Hr & Ht). exists [r].
    destruct (get_body _ _ _ _ _). cbn [fst] in *. rewrite Hr. split_and!; [done | done | by apply Forall_singleton].
  - destruct (get_body_once false log p (build_query req)) as (r & Hr & Ht). exists [r].
    destruct (get_body _ _ _ _ _). cbn [fst] in *. rewrite Hr. split_and!; [done | done | by apply Forall_singleton].
Qed.

Lemma scrape_asks_once q :
  asks_once (fun log u => if starts_with https u then https_get serve log u q else http_get serve log u q).
Proof using Type.
  intros log u. unfold https_get, http_get.
  destruct (starts_with https u); [destruct (parse_https_url u) as [p |] | destruct (parse_http_url u) as [p |]].
  2, 4: exists []; rewrite app_nil_r; split_and!; [done | simpl; lia | done].
  - destruct (get_body_once true log p q) as (r & Hr & Ht). exists [r].
    rewrite Hr. split_and!; [done | done | by apply Forall_singleton].
  - destruct (get_body_once false log p q) as (r & Hr & Ht). exists [r].
    rewrite Hr. split_and!; [done | done | by apply Forall_singleton].
Qed.

End redirects.

Lemma https_split_query r :
  exists path, match split_once (str "?") (https ++ r) with Some (p, q) => (p, Some q) | None => (https ++ r, None) end =
               (https ++ path, match split_once (str "?") (https ++ r) with Some (p, q) => Some q | None => None end).
Proof.
  unfold split_once. destruct (find_sub (str "?") (https ++ r)) as [i |] eqn:E; cbn [mbind option_bind]; [| by exists r].
  assert (exists j, i = (8 + j)%nat) as [j ->].
  { change (find_sub (str "?") (https ++ r)) with
      (S <$> (S <$> (S <$> (S <$> (S <$> (S <$> (S <$> (S <$> find_sub (str "?") r)))))))) in E.
    destruct (find_sub (str "?") r) as [j |]; [| done]. injection E as <-. by exists j. }
  exists (take j r). f_equal.
Qed.

Lemma scrape_url_https u s : starts_with https u = true -> scrape_url u = Some s -> starts_with https s = true.
Proof.
  intros [r ->]%starts_with_iff. unfold scrape_url. destruct (https_split_query r) as [path ->].
  change (find_sub (str "://") (https ++ path)) with (Some 5%nat). cbv iota. change (5 + 3)%nat with 8%nat.
  destruct (rfind_byte 47 (drop 8 (https ++ path))) as [i |]; [| done]. cbn [mbind option_bind].
  destruct (strip_prefix (str "announce") _) as [rest |]; [| done]. cbn [mbind option_bind]. intros [= <-].
  apply starts_with_iff. rewrite Nat.add_comm. eexists (take i path ++ _). rewrite app_assoc. f_equal.
Qed.

(** ** UDP packets *)

Lemma field_u32_Ok resp at_ z : field_u32 resp at_ = Ok z <-> be_u32 resp at_ = Some z.
Proof. apply ok_or_Ok. Qed.

(** A field that was read is the next four bytes. *)
Lemma read_field resp (at_ : nat) z :
  bytes_ok resp -> field_u32 resp (Z.of_nat at_) = Ok z -> drop at_ resp = be32 z ++ drop (4 + at_) resp /\ u_ok 32 z.
Proof.
  intros Hb H%field_u32_Ok. split; [| by eapply be_u32_bound; [done | | exact H]; lia].
  apply be_u32_split in H as (p & q & -> & Hl); [| done | lia]. unfold zlen in Hl.
  rewrite (drop_app_length' p) by lia. f_equal. rewrite app_assoc. symmetry. apply drop_app_length'.
  rewrite length_app, length_to_be_bytes. lia.
Qed.

(** A field that was written is read back. *)
Lemma written_field pre z rest at_ :
  u_ok 32 z -> zlen pre = at_ -> at_ <= 2 ^ 62 -> field_u32 (pre ++ be32 z ++ rest) at_ = Ok z.
Proof. intros ? <- ?. apply field_u32_Ok. by apply be_u32_app. Qed.

Definition reply (action txn a b c : Z) (rest : list Z) : list Z :=
  be32 action ++ be32 txn ++ be32 a ++ be32 b ++ be32 c ++ rest.

Lemma reply_fields action txn a b c rest :
  u_ok 32 action -> u_ok 32 txn -> u_ok 32 a -> u_ok 32 b -> u_ok 32 c ->
  let resp := reply action txn a b c rest in
  field_u32 resp 0 = Ok action /\ field_u32 resp 4 = Ok txn /\ field_u32 resp 8 = Ok a /\ field_u32 resp 12 = Ok b /\
  field_u32 resp 16 = Ok c /\ drop 20 resp = rest /\ 20 <= zlen resp.
Proof.
  intros Hac Ht Ha Hb Hc resp.
  assert (resp = [] ++ be32 action ++ be32 txn ++ be32 a ++ be32 b ++ be32 c ++ rest) as E0 by done.
  assert (resp = (be32 action) ++ be32 txn ++ be32 a ++ be32 b ++ be32 c ++ rest) as E1 by done.
  assert (resp = (be32 action ++ be32 txn) ++ be32 a ++ be32 b ++ be32 c ++ rest) as E2 by (unfold resp, reply; by rewrite <- !app_assoc).
  assert (resp = (be32 action ++ be32 txn ++ be32 a) ++ be32 b ++ be32 c ++ rest) as E3 by (unfold resp, reply; by rewrite <- !app_assoc).
  assert (resp = (be32 action ++ be32 txn ++ be32 a ++ be32 b) ++ be32 c ++ rest) as E4 by (unfold resp, reply; by rewrite <- !app_assoc).
  assert (resp = (be32 action ++ be32 txn ++ be32 a ++ be32 b ++ be32 c) ++ rest) as E5 by (unfold resp, reply; by rewrite <- !app_assoc).
  split_and!.
  - rewrite E0. by apply written_field.
  - rewrite E1. by apply written_field.
  - rewrite E2. by apply written_field.
  - rewrite E3. by apply written_field.
  - rewrite E4. by apply written_field.
  - rewrite E5. by apply drop_app_length'.
  - rewrite E5, zlen_app. change (zlen (be32 action ++ be32 txn ++ be32 a ++ be32 b ++ be32 c)) with 20. pose proof (zlen_nonneg rest). lia.
Qed.

(** The shape of every reply, from its fields. *)
Lemma reply_of_fields resp action txn a b c :
  bytes_ok resp -> field_u32 resp 0 = Ok action -> field_u32 resp 4 = Ok txn -> field_u32 resp 8 = Ok a ->
  field_u32 resp 12 = Ok b -> field_u32 resp 16 = Ok c ->
  resp = reply action txn a b c (drop 20 resp) /\ u_ok 32 a /\ u_ok 32 b /\ u_ok 32 c.
Proof.
  intros Hr E0 E1 E2 E3 E4.
  apply (read_field resp 0) in E0 as [E0 _]; [| done]. apply (read_field resp 4) in E1 as [E1 _]; [| done].
  apply (read_field resp 8) in E2 as [E2 ?]; [| done]. apply (read_field resp 12) in E3 as [E3 ?]; [| done].
  apply (read_field resp 16) in E4 as [E4 ?]; [| done]. split; [| done]. unfold reply.
  change (drop 0 resp) with resp in E0. rewrite E0 at 1.
  cbn [Nat.add] in *. by rewrite E1, E2, E3, E4.
Qed.

Lemma parse_announce_response_iff resp txn r :
  bytes_ok resp -> u_ok 32 txn ->
  parse_announce_response resp txn = Ok r <->
  exists i l s ps, u_ok 32 i /\ u_ok 32 l /\ u_ok 32 s /\ Forall addr4_ok ps /\
    resp = reply ACTION_ANNOUNCE txn i l s (concat (compact4 <$> ps)) /\ r = mkAnnounceResponse i None (Some s) (Some l) ps.
Proof.
  intros Hb Ht. unfold parse_announce_response. split.
  - intros H. destruct (zlen resp <? 20); [done |].
    apply result_bind_Ok in H as (action & E0 & H). apply result_bind_Ok in H as (t & E1 & H).
    destruct (Z.eqb_spec t txn) as [-> |]; [| done]. cbn [negb] in H. destruct (action =? ACTION_ERROR); [done |].
    destruct (Z.eqb_spec action ACTION_ANNOUNCE) as [-> |]; [| done]. cbn [negb] in H.
    apply result_bind_Ok in H as (i & E2 & H). apply result_bind_Ok in H as (l & E3 & H).
    apply result_bind_Ok in H as (s & E4 & H). apply result_bind_Ok in H as (ps & Eps & H). injection H as <-.
    destruct (reply_of_fields resp _ _ _ _ _ Hb E0 E1 E2 E3 E4) as (Hs & ? & ? & ?).
    apply parse_compact_peers_iff in Eps as [Hps Hd]; [| by apply Forall_drop].
    exists i, l, s, ps. rewrite <- Hd. done.
  - intros (i & l & s & ps & Hi & Hl & Hs & Hps & -> & ->).
    destruct (reply_fields ACTION_ANNOUNCE txn i l s (concat (compact4 <$> ps))) as (-> & -> & -> & -> & -> & -> & Hlen); [done.. |].
    rewrite (proj2 (Z.ltb_ge _ _)) by lia. cbn [result_bind]. rewrite Z.eqb_refl. cbn [negb].
    change (ACTION_ANNOUNCE =? ACTION_ERROR) with false. change (ACTION_ANNOUNCE =? ACTION_ANNOUNCE) with true. cbn [negb].
    unfold reply in Hb. rewrite !Forall_app in Hb. destruct Hb as (_ & _ & _ & _ & _ & Hb).
    assert (parse_compact_peers (concat (compact4 <$> ps)) = Ok ps) as -> by by apply parse_compact_peers_iff. done.
Qed.

(** What [k] lost tries and the one that is answered send, from try [n] on. *)
Definition tries_sent (packet : list Z) (n : Z) (k : nat) : list (list Z * Z) :=
  (fun i => (packet, 15 * 2 ^ (n + i))) <$> seqZ 0 (Z.of_nat (S k)).

Lemma tries_sent_S packet n k : tries_sent packet n (S k) = (packet, 15 * 2 ^ n) :: tries_sent packet (n + 1) k.
Proof.
  unfold tries_sent. rewrite (seqZ_cons 0 (Z.of_nat (S (S k)))) by lia. rewrite fmap_cons. f_equal; [do 3 f_equal; lia |].
  replace (Z.pred (Z.of_nat (S (S k)))) with (Z.of_nat (S k)) by lia. change (Z.succ 0) with (1 + 0).
  rewrite <- fmap_add_seqZ, <- list_fmap_compose. apply list_fmap_ext. intros i x Hx. cbn. do 3 f_equal. lia.
Qed.

Lemma tries_sent_0 packet n : tries_sent packet n 0 = [(packet, 15 * 2 ^ n)].
Proof. unfold tries_sent. change (seqZ 0 (Z.of_nat 1)) with [0]. cbn [fmap list_fmap]. do 4 f_equal. lia. Qed.

Lemma send_tries_answered tries n packet pk k d rest :
  0 <= n -> (k < tries)%nat ->
  send_tries tries n packet (mkUdpSock pk (replicate k RecvTimeout ++ Datagram d :: rest)) =
  (mkUdpSock (pk ++ tries_sent packet n k) rest, Ok (take RECV_BUFFER d)).
Proof.
  intros Hn. revert tries n pk Hn. induction k as [| k IH]; intros [| tries] n pk Hn Hk; try lia; cbn [send_tries replicate app].
  - cbn [recv arriving packets]. rewrite Z.shiftl_1_l, tries_sent_0. done.
  - cbn [recv arriving packets]. rewrite IH by lia. rewrite Z.shiftl_1_l, tries_sent_S, <- app_assoc. done.
Qed.

Lemma send_tries_inv tries n packet s s' bs :
  0 <= n -> send_tries tries n packet s = (s', Ok bs) ->
  exists k d, (k < tries)%nat /\ arriving s = replicate k RecvTimeout ++ Datagram d :: arriving s' /\
    bs = take RECV_BUFFER d /\ packets s' = packets s ++ tries_sent packet n k.
Proof.
  revert n s. induction tries as [| tries IH]; intros n [pk arr] Hn; cbn [send_tries]; [done |].
  unfold recv. cbn [arriving packets]. destruct arr as [| [d | | e] arr].
  - intros H. apply IH in H as (k & d & _ & H & _); [| lia]. by destruct k.
  - intros [= <- <-]. exists O, d. rewrite tries_sent_0, Z.shiftl_1_l. split_and!; [lia | done..].
  - intros H. apply IH in H as (k & d & Hk & Ha & Hbs & Hp); [| lia]. exists (S k), d.
    cbn [arriving packets] in *. rewrite Ha, Hp, tries_sent_S, Z.shiftl_1_l, <- app_assoc. split_and!; [lia | done..].
  - done.
Qed.

(** ** Chunked bodies *)

(** The chunk size as a server writes it. *)
Fixpoint print_hex (fuel : nat) (z : Z) : list Z :=
  match fuel with
  | O => [hex_upper (z mod 16)]
  | S fuel' => if z <? 16 then [hex_upper z] else print_hex fuel' (z / 16) ++ [hex_upper (z mod 16)]
  end.

Definition chunk (c : list Z) : list Z := print_hex 16 (zlen c) ++ CRLF ++ c ++ CRLF.
Definition chunked (cs : list (list Z)) : list Z := concat (chunk <$> cs) ++ [48] ++ CRLF ++ CRLF.

Definition is_hex (b : Z) : Prop := exists d, 0 <= d < 16 /\ b = hex_upper d.

Lemma print_hex_digits fuel z : 0 <= z -> Forall is_hex (print_hex fuel z) /\ print_hex fuel z <> [].
Proof.
  revert z. induction fuel as [| fuel IH]; intros z Hz; cbn [print_hex].
  - split; [| done]. apply Forall_singleton. eexists. split; [| done]. apply Z.mod_pos_bound. lia.
  - destruct (Z.ltb_spec z 16).
    + split; [| done]. apply Forall_singleton. by exists z.
    + destruct (IH (z / 16)) as [H1 H2]; [apply Z.div_pos; lia |]. split; [| by destruct (print_hex fuel (z / 16))].
      apply Forall_app. split; [done |]. apply Forall_singleton. eexists. split; [| done]. apply Z.mod_pos_bound. lia.
Qed.

Lemma hex_digits_app acc a b : hex_digits acc (a ++ b) = match hex_digits acc a with Some x => hex_digits x b | None => None end.
Proof. revert acc. induction a as [| x a IH]; intros acc; [done |]. cbn. destruct (hex_value x); [apply IH | done]. Qed.

Lemma hex_digits_print fuel z : 0 <= z < 16 ^ Z.of_nat (S fuel) -> hex_digits 0 (print_hex fuel z) = Some z.
Proof.
  revert z. induction fuel as [| fuel IH]; intros z Hz; cbn [print_hex].
  - change (16 ^ Z.of_nat 1) with 16 in Hz. rewrite Z.mod_small by done. cbn. rewrite hex_value_upper by done. f_equal.
  - destruct (Z.ltb_spec z 16); [cbn; rewrite hex_value_upper by lia; f_equal |].
    rewrite Nat2Z.inj_succ, Z.pow_succ_r in Hz by lia.
    rewrite hex_digits_app, IH by (split; [apply Z.div_pos | apply Z.div_lt_upper_bound]; lia).
    cbn. rewrite hex_value_upper by (apply Z.mod_pos_bound; lia). f_equal. pose proof (Z.div_mod z 16). lia.
Qed.

(** A hexadecimal digit is neither white space, nor a separator, nor a sign. *)
Lemma is_hex_char b : is_hex b ->
  ws_len [b] = O /\ (b =? 59) = false /\ (b =? 43) = false /\ (b =? 13) = false /\ b <? 128 = true /\ 0 <= b.
Proof.
  intros (d & Hd & ->).
  assert (forallb (fun d => let b := hex_upper d in
    (ws_len [b] =? 0)%nat && negb (b =? 59) && negb (b =? 43) && negb (b =? 13) && (b <? 128) && (0 <=? b)) (seqZ 0 16) = true) as H by done.
  rewrite forallb_forall in H. specialize (H d). rewrite !andb_true_iff, !negb_true_iff, Nat.eqb_eq, Z.leb_le in H.
  destruct H as (((((?&?)&?)&?)&?)&?); [apply list_elem_of_In, elem_of_seqZ; lia |]. done.
Qed.

Lemma find_crlf h x : Forall (fun b => (b =? 13) = false) h -> find_sub CRLF (h ++ CRLF ++ x) = Some (length h).
Proof.
  induction 1 as [| b h Hb Hh IH]; [done |]. cbn [app find_sub length]. unfold starts_with at 1, CRLF at 1 2.
  cbn [strip_prefix]. rewrite Z.eqb_sym, Hb. fold CRLF. by rewrite IH.
Qed.

Lemma split_on_none c h : Forall (fun b => (b =? c) = false) h -> split_on c h = [h].
Proof. induction 1 as [| b h Hb Hh IH]; [done |]. cbn [split_on]. by rewrite Hb, IH. Qed.

Lemma ws_len_hex h : Forall is_hex h -> ws_len h = O.
Proof.
  intros Hh. destruct Hh as [| b r Hb _]; [done |]. destruct (is_hex_char b Hb) as (Hw & _ & _ & _ & H128 & H0).
  apply Z.ltb_lt in H128. unfold ws_len in *. destruct (((9 <=? b) && (b <=? 13)) || (b =? 32))%bool; [done |].
  rewrite !(proj2 (Z.eqb_neq b _)) by lia. cbn [andb orb]. destruct r as [| ? []]; done.
Qed.

Lemma trim_hex h : Forall is_hex h -> trim h = h.
Proof.
  intros Hh. unfold trim. assert (trim_start h = h) as ->.
  { unfold trim_start. destruct h; [done |]. cbn [length trim_by]. by rewrite ws_len_hex. }
  unfold trim_end. assert (ws_len_rev (reverse h) = O) as E.
  { unfold ws_len_rev. rewrite !ws_len_hex; [done | apply Forall_reverse, Forall_take, Forall_reverse, Hh..]. }
  assert (forall n, trim_by ws_len_rev n (reverse h) = reverse h) as -> by (intros []; cbn; by rewrite ?E).
  apply reverse_involutive.
Qed.

Lemma not_plus (b : Z) (r : list Z) : b <> 43 -> match b :: r with 43 :: r' => r' | _ => b :: r end = b :: r.
Proof. intros Hb. do 6 (destruct b as [| b | b]; try done; destruct b as [b | b |]; try done). Qed.

Lemma parse_hex_print z : 0 <= z <= u_max 64 -> parse_hex 64 (print_hex 16 z) = Some z.
Proof.
  intros Hz. destruct (print_hex_digits 16 z) as [Hh Hne]; [lia |].
  pose proof (hex_digits_print 16 z) as Hv. destruct (print_hex 16 z) as [| b r]; [done |].
  unfold parse_hex. rewrite not_plus.
  - cbv zeta. rewrite Hv by (unfold u_max in Hz; lia). by rewrite (proj2 (Z.leb_le _ _)) by lia.
  - apply Forall_cons in Hh as [(_ & _ & H & _)%is_hex_char _]. by apply Z.eqb_neq in H.
Qed.

Lemma utf8_valid_hex h : Forall is_hex h -> utf8_valid (length h) h = true.
Proof.
  induction 1 as [| b r Hb Hr IH]; [done |]. cbn [length utf8_valid].
  apply is_hex_char in Hb as (_ & _ & _ & _ & H & _). unfold utf8_step. rewrite H. exact IH.
Qed.

Lemma decode_chunk fuel out c rest :
  c <> [] -> zlen c <= 2 ^ 62 -> decode_chunked (S fuel) out (chunk c ++ rest) = decode_chunked fuel (out ++ c) rest.
Proof.
  intros Hne Hlen. pose proof (zlen_nonneg c) as Hpos. destruct (print_hex_digits 16 (zlen c)) as [Hh _]; [done |].
  cbn [decode_chunked]. unfold chunk. rewrite <- !app_assoc. fold CRLF.
  rewrite find_crlf by (apply (Forall_impl _ _ _ Hh); intros b Hb; by destruct (is_hex_char b Hb) as (? & ? & ? & ? & ?)).
  rewrite take_app_length, utf8_valid_hex by done. cbn [negb].
  rewrite split_on_none by (apply (Forall_impl _ _ _ Hh); intros b Hb; by destruct (is_hex_char b Hb) as (? & ? & ? & ? & ?)). cbn [head from_option id].
  rewrite trim_hex, parse_hex_print by (done || (unfold u_max; lia)).
  assert (forall x, drop (length (print_hex 16 (zlen c)) + 2) (print_hex 16 (zlen c) ++ CRLF ++ x) = x) as ->.
  { intros x. rewrite app_assoc. apply drop_app_length'. by rewrite length_app. }
  destruct (Z.eqb_spec (zlen c) 0) as [E |]; [by apply zlen_0_nil in E |].
  unfold u_checked_add. rewrite (proj2 (Z.leb_le _ _)) by (unfold u_max; lia).
  assert (zlen (c ++ CRLF ++ rest) <? zlen c + 2 = false) as ->.
  { apply Z.ltb_ge. rewrite !zlen_app. change (zlen CRLF) with 2. pose proof (zlen_nonneg rest). lia. }
  rewrite take_app_length' by (unfold zlen; lia). f_equal.
  rewrite app_assoc. apply drop_app_length'. rewrite length_app. unfold zlen, CRLF. simpl length. lia.
Qed.

Lemma decode_chunks cs fuel out :
  Forall (fun c => c <> [] /\ zlen c <= 2 ^ 62) cs -> (length cs < fuel)%nat ->
  decode_chunked fuel out (chunked cs) = Some (Ok (out ++ concat cs)).
Proof.
  intros Hcs. unfold chunked. revert fuel out. induction Hcs as [| c cs [Hne Hl] Hcs IH]; intros [| fuel] out Hf; try (simpl in Hf; lia).
  - rewrite app_nil_r. reflexivity.
  - rewrite fmap_cons. cbn [concat]. rewrite <- app_assoc, decode_chunk by done. rewrite IH by (simpl in Hf; lia).
    by rewrite app_assoc.
Qed.

(** The fuel is enough for any input: every chunk takes at least its line. *)
Lemma decode_chunked_total fuel out data : (length data < fuel)%nat -> is_Some (decode_chunked fuel out data).
Proof.
  revert out data. induction fuel as [| fuel IH]; intros out data Hf; [lia |]. cbn [decode_chunked].
  destruct (find_sub [13; 10] data) as [i |] eqn:E; [| by eexists]. apply find_sub_Some in E as (r & _ & Hl). simpl in Hl.
  destruct (negb _); [by eexists |]. destruct (parse_hex 64 _) as [size |]; [| by eexists].
  destruct (Z.eqb_spec size 0); [by eexists |]. destruct (match u_checked_add 64 size 2 with Some _ => _ | None => _ end); [by eexists |].
  apply IH. rewrite length_drop, length_drop. lia.
Qed.

Lemma read_http_response_total reads : is_Some (read_http_response_body reads).
Proof.
  unfold read_http_response_body. destruct (read_all [] reads) as [buf |]; [| by eexists]. unfold response_body.
  destruct (find_sub _ buf); [| by eexists]. cbv zeta. destruct (existsb _ _); [by eexists |].
  destruct (negb _); [by eexists |]. destruct (contains _ _).
  - apply decode_chunked_total. lia.
  - destruct (head _ ≫= _) as [len |]; [destruct (_ <? len) |]; by eexists.
Qed.

Lemma be_u64_app pre z post :
  u_ok 64 z -> zlen pre <= 2 ^ 62 -> be_u64 (pre ++ be64 z ++ post) (zlen pre) = Some z.
Proof.
  intros Hz ?. unfold be_u64. pose proof (array_at_app pre (be64 z) post) as H'. rewrite zlen_to_be_bytes in H'.
  change (Z.of_nat 8) with 8 in H'. rewrite H' by (unfold u_max; lia). cbn [fmap option_fmap option_map].
  f_equal. by apply from_to_be_bytes_ok.
Qed.

Lemma read_u64 resp z :
  bytes_ok resp -> be_u64 resp 8 = Some z -> drop 8 resp = be64 z ++ drop 16 resp /\ u_ok 64 z.
Proof.
  intros Hb H. unfold be_u64 in H. destruct (array_at 8 resp 8) as [bs |] eqn:E; [| done]. injection H as <-.
  pose proof (array_at_ok _ _ _ _ E ltac:(lia) ltac:(lia)) as [Hl Hbs]. specialize (Hbs Hb).
  unfold array_at in E. change (u_checked_add 64 8 8) with (Some 16) in E. cbv iota in E. change (8 <=? 16) with true in E. cbn [andb] in E.
  destruct (16 <=? zlen resp); [| done]. injection E as <-.
  assert (length (slice resp 8 16) = 8%nat) as Hn by (unfold zlen in Hl; lia). split.
  - pose proof (to_from_be_bytes _ Hbs) as Hbe. rewrite Hn in Hbe. rewrite Hbe. unfold slice. change (Z.to_nat (16 - 8)) with 8%nat.
    change (Z.to_nat 8) with 8%nat. assert (drop 16 resp = drop 8 (drop 8 resp)) as -> by by rewrite drop_drop. by rewrite take_drop.
  - pose proof (from_be_bytes_bound _ Hbs) as H. rewrite Hl in H. exact H.
Qed.

Definition connect_reply (txn cid : Z) (extra : list Z) : list Z := be32 ACTION_CONNECT ++ be32 txn ++ be64 cid ++ extra.

Lemma parse_connect_response_iff resp txn cid :
  bytes_ok resp -> u_ok 32 txn ->
  parse_connect_response resp txn = Ok cid <-> u_ok 64 cid /\ exists extra, resp = connect_reply txn cid extra.
Proof.
  intros Hb Ht. unfold parse_connect_response. split.
  - intros H. destruct (zlen resp <? 16); [done |].
    apply result_bind_Ok in H as (action & E0 & H). apply result_bind_Ok in H as (t & E1 & H).
    destruct (Z.eqb_spec t txn) as [-> |]; [| done]. cbn [negb] in H. destruct (action =? ACTION_ERROR); [done |].
    destruct (Z.eqb_spec action ACTION_CONNECT) as [-> |]; [| done]. cbn [negb] in H. apply ok_or_Ok in H.
    apply (read_field resp 0) in E0 as [E0 _]; [| done]. apply (read_field resp 4) in E1 as [E1 _]; [| done].
    apply read_u64 in H as [H Hc]; [| done]. split; [done |]. exists (drop 16 resp). unfold connect_reply.
    change (drop 0 resp) with resp in E0. rewrite E0 at 1. cbn [Nat.add] in *. by rewrite E1, H.
  - intros [Hc [extra ->]]. unfold connect_reply.
    rewrite (proj2 (Z.ltb_ge _ _)) by (rewrite !zlen_app, !zlen_to_be_bytes; pose proof (zlen_nonneg extra); lia).
    pose proof (written_field [] ACTION_CONNECT (be32 txn ++ be64 cid ++ extra) 0) as H0. cbn [app] in H0. rewrite H0 by done. clear H0. cbn [result_bind].
    rewrite (written_field (be32 ACTION_CONNECT) txn _ 4) by done. cbn [result_bind]. rewrite Z.eqb_refl. cbn [negb].
    change (ACTION_CONNECT =? ACTION_ERROR) with false. change (ACTION_CONNECT =? ACTION_CONNECT) with true. cbn [negb].
    rewrite (app_assoc (be32 ACTION_CONNECT)). pose proof (be_u64_app (be32 ACTION_CONNECT ++ be32 txn) cid extra Hc) as H.
    change (zlen (be32 ACTION_CONNECT ++ be32 txn)) with 8 in H. by rewrite H.
Qed.

(** The answers of a tracker: what arrived within the receive buffer. *)
Definition recv_ok (r : Recv) : Prop := match r with Datagram d => bytes_ok d | _ => True end.

Lemma connect_answered s s' txn cid :
  udp_connect s txn = (s', Ok cid) <->
  exists k d, (k <= 4)%nat /\ arriving s = replicate k RecvTimeout ++ Datagram d :: arriving s' /\
    packets s' = packets s ++ tries_sent (build_connect_request txn) 0 k /\ parse_connect_response (take RECV_BUFFER d) txn = Ok cid.
Proof.
  unfold udp_connect, send_with_retries. split.
  - destruct (send_tries 5 0 (build_connect_request txn) s) as [s1 [bs | e]] eqn:E; [| done]. intros [= <- H].
    apply send_tries_inv in E as (k & d & Hk & Ha & -> & Hp); [| done]. exists k, d. split_and!; [lia | done..].
  - destruct s as [pk arr], s' as [pk' arr']. cbn [arriving packets]. intros (k & d & Hk & -> & -> & H).
    rewrite send_tries_answered by lia. cbn [result_bind]. by rewrite H.
Qed.

(** ** Properties *)

(** C37: an announce or a scrape that starts at an [https://] URL makes at
    most six requests, and every one of them, through whatever redirects the
    servers answer with, goes out over TLS: the passkey in a private tracker's
    URL is never sent in the clear. *)
Theorem https_never_downgraded (serve : list HttpRequest -> HttpRequest -> tracked (list ReadResult)) (log : list HttpRequest)
    (url hash : list Z) (req : AnnounceRequest) (Hurl : starts_with https url = true) :
  (exists new, (announce_http serve log url req).1 = log ++ new /\ (length new <= 6)%nat /\ Forall (fun r => tls r = true) new) /\
  (exists new, (scrape_http serve log url hash).1 = log ++ new /\ (length new <= 6)%nat /\ Forall (fun r => tls r = true) new).
Proof.
  split; [apply (follow_tls _ (S MAX_REDIRECTS)); [apply announce_asks_once | done] |].
  assert (exists new, log = log ++ new /\ (length new <= 6)%nat /\ Forall (fun r => tls r = true) new) as Hnone.
  { exists []. rewrite app_nil_r. split_and!; [done | simpl; lia | done]. }
  unfold scrape_http. rewrite Hurl. cbn [negb andb]. rewrite andb_false_r. destruct (scrape_url url) as [u |] eqn:Eu; [| exact Hnone].
  destruct (follow_tls _ (S MAX_REDIRECTS) log u (scrape_asks_once serve (str "info_hash=" ++ percent_encode_bytes hash))
    (scrape_url_https _ _ Hurl Eu)) as (new & Hn & Hl & Ht).
  destruct (follow _ _ _ _) as [log' body]. cbn [fst] in *. by exists new.
Qed.

(** A server that redirects to plain HTTP. *)
Definition downgrading (log : list HttpRequest) (r : HttpRequest) : tracked (list ReadResult) :=
  Ok [ReadBytes (str "HTTP/1.1 301 Moved" ++ CRLF ++ str "Location: http://t/announce" ++ CRLF ++ CRLF)].

Definition example_request : AnnounceRequest :=
  mkAnnounceRequest (replicate 20 170) (replicate 20 45) 6881 0 0 1 true (Some Started) None.

Lemma https_never_downgraded_witness :
  (announce_http downgrading [] (str "https://t/announce") example_request).2 =
    Some (Err (BadUrl (str "refusing a redirect from https to http: http://t/announce"))) /\
  exists new, (announce_http downgrading [] (str "https://t/announce") example_request).1 = [] ++ new /\
    (length new <= 6)%nat /\ Forall (fun r => tls r = true) new.
Proof.
  split; [vm_compute; reflexivity |].
  exact (proj1 (https_never_downgraded downgrading [] (str "https://t/announce") [] example_request eq_refl)).
Defined.

(** What goes into a query is URL-safe (unreserved characters and
    percent signs only) and a server that decodes it gets the bytes back. *)
Theorem percent_encoding_safe (bs : list Z) (Hb : bytes_ok bs) :
  Forall (fun b => unreserved b = true \/ b = 37) (percent_encode_bytes bs) /\
  percent_decode (percent_encode_bytes bs) = Some bs.
Proof.
  induction Hb as [| b bs Hb Hbs [IH1 IH2]]; [done |]. unfold percent_encode_bytes in *. cbn [flat_map]. split.
  - apply Forall_app. split; [| done]. destruct (unreserved b) eqn:E; [apply Forall_singleton; by left |].
    unfold u_ok in Hb. change (2 ^ 8) with 256 in Hb.
    assert (0 <= b / 16 < 16) by (split; [apply Z.div_pos; lia | apply Z.div_lt_upper_bound; lia]).
    rewrite !Forall_cons, Forall_nil. split_and!; [by right | left; by apply hex_upper_unreserved | | done].
    left. apply hex_upper_unreserved, Z.mod_pos_bound. lia.
  - rewrite percent_step, IH2 by done. done.
Qed.

Lemma percent_encoding_safe_witness :
  percent_encode_bytes [0; 97; 255; 37] = str "%00a%FF%25" /\ percent_decode (percent_encode_bytes [0; 97; 255; 37]) = Some [0; 97; 255; 37].
Proof.
  split; [vm_compute; reflexivity |]. apply (percent_encoding_safe [0; 97; 255; 37]). repeat constructor; unfold u_ok; lia.
Defined.

(** A UDP announce succeeds exactly when the tracker's answers arrive in
    time: a connect reply under the first transaction id within five tries,
    then an announce reply under the second within five more.  The result is
    that reply's fields and peers, the announce carries the connection id the
    tracker gave, and what was sent is each packet once per try with BEP 15's
    doubling timeout.  A datagram under another id, an error, a packet cut
    short or a peer list of the wrong length is never a success. *)
Theorem udp_announce_iff (s s' : UdpSock) (connect_txn txn : Z) (req : AnnounceRequest) (r : AnnounceResponse)
    (Harr : Forall recv_ok (arriving s)) (Hc : u_ok 32 connect_txn) (Ht : u_ok 32 txn) :
  udp_announce s connect_txn txn req = (s', Ok r) <->
  exists k1 d1 cid extra k2 d2 i l c ps,
    (k1 <= 4)%nat /\ (k2 <= 4)%nat /\
    arriving s = replicate k1 RecvTimeout ++ Datagram d1 :: replicate k2 RecvTimeout ++ Datagram d2 :: arriving s' /\
    packets s' = packets s ++ tries_sent (build_connect_request connect_txn) 0 k1 ++ tries_sent (build_announce_request cid txn req) 0 k2 /\
    take RECV_BUFFER d1 = connect_reply connect_txn cid extra /\ u_ok 64 cid /\
    take RECV_BUFFER d2 = reply ACTION_ANNOUNCE txn i l c (concat (compact4 <$> ps)) /\
    u_ok 32 i /\ u_ok 32 l /\ u_ok 32 c /\ Forall addr4_ok ps /\
    r = mkAnnounceResponse i None (Some c) (Some l) ps.
Proof.
  unfold udp_announce. split.
  - destruct (udp_connect s connect_txn) as [s1 [cid | e]] eqn:E; [| done].
    apply connect_answered in E as (k1 & d1 & Hk1 & Ha1 & Hp1 & H1).
    unfold send_with_retries. destruct (send_tries 5 0 _ s1) as [s2 [bs | e]] eqn:E2; [| done]. intros [= <- H2].
    apply send_tries_inv in E2 as (k2 & d2 & Hk2 & Ha2 & -> & Hp2); [| done].
    rewrite Ha1, Ha2 in Harr. rewrite !Forall_app, !Forall_cons, !Forall_app, !Forall_cons in Harr.
    destruct Harr as (_ & Hb1 & _ & Hb2 & _). cbn [recv_ok] in Hb1, Hb2.
    apply parse_connect_response_iff in H1 as [Hcid [extra H1]]; [| by apply Forall_take | done].
    apply parse_announce_response_iff in H2 as (i & l & c & ps & Hi & Hl & Hcc & Hps & H2 & ->); [| by apply Forall_take | done].
    exists k1, d1, cid, extra, k2, d2, i, l, c, ps. rewrite Ha1, Ha2, Hp2, Hp1, <- app_assoc. split_and!; try done; lia.
  - intros (k1 & d1 & cid & extra & k2 & d2 & i & l & c & ps & Hk1 & Hk2 & Ha & Hp & H1 & Hcid & H2 & Hi & Hl & Hcc & Hps & ->).
    rewrite Ha in Harr. rewrite !Forall_app, !Forall_cons, !Forall_app, !Forall_cons in Harr.
    destruct Harr as (_ & Hb1 & _ & Hb2 & _). cbn [recv_ok] in Hb1, Hb2.
    assert (udp_connect s connect_txn = (mkUdpSock (packets s ++ tries_sent (build_connect_request connect_txn) 0 k1)
      (replicate k2 RecvTimeout ++ Datagram d2 :: arriving s'), Ok cid)) as ->.
    { apply connect_answered. exists k1, d1. split_and!; [done | done | done |].
      apply parse_connect_response_iff; [by apply Forall_take | done | eauto]. }
    unfold send_with_retries. rewrite send_tries_answered by lia. cbn [result_bind]. f_equal.
    + destruct s'. cbn in *. by rewrite Hp, <- app_assoc.
    + apply parse_announce_response_iff; [by apply Forall_take | done |]. exists i, l, c, ps. done.
Qed.

(** One connect packet is lost; the tracker then answers with one peer. *)
Lemma udp_announce_iff_witness :
  let peer := V4 [10; 0; 0; 1] 6881 in
  let s := mkUdpSock [] [RecvTimeout; Datagram (connect_reply 7 99 []); Datagram (reply ACTION_ANNOUNCE 8 1800 2 3 (compact4 peer))] in
  exists k1 d1 cid extra k2 d2 i l c ps,
    (k1 <= 4)%nat /\ (k2 <= 4)%nat /\
    arriving s = replicate k1 RecvTimeout ++ Datagram d1 :: replicate k2 RecvTimeout ++ Datagram d2 :: [] /\
    packets (udp_announce s 7 8 example_request).1 =
      packets s ++ tries_sent (build_connect_request 7) 0 k1 ++ tries_sent (build_announce_request cid 8 example_request) 0 k2 /\
    take RECV_BUFFER d1 = connect_reply 7 cid extra /\ u_ok 64 cid /\
    take RECV_BUFFER d2 = reply ACTION_ANNOUNCE 8 i l c (concat (compact4 <$> ps)) /\
    u_ok 32 i /\ u_ok 32 l /\ u_ok 32 c /\ Forall addr4_ok ps /\
    mkAnnounceResponse 1800 None (Some 3) (Some 2) [peer] = mkAnnounceResponse i None (Some c) (Some l) ps.
Proof.
  intros peer s.
  assert (forall d, forallb (fun b => (0 <=? b) && (b <? 256)) d = true -> recv_ok (Datagram d)) as Hb.
  { intros d H. cbn. apply Forall_forall. intros b Hin. rewrite forallb_forall in H. apply list_elem_of_In in Hin. apply H in Hin.
    apply andb_true_iff in Hin as [H1%Z.leb_le H2%Z.ltb_lt]. by split. }
  assert (Forall recv_ok (arriving s)) as Harr.
  { constructor; [exact I |]. constructor; [apply Hb; vm_compute; reflexivity |].
    constructor; [apply Hb; vm_compute; reflexivity | constructor]. }
  assert (udp_announce s 7 8 example_request =
    (mkUdpSock (packets (udp_announce s 7 8 example_request).1) [], Ok (mkAnnounceResponse 1800 None (Some 3) (Some 2) [peer]))) as E
    by (vm_compute; reflexivity).
  assert (u_ok 32 7) as H7 by (unfold u_ok; lia). assert (u_ok 32 8) as H8 by (unfold u_ok; lia).
  exact (proj1 (udp_announce_iff s _ 7 8 example_request _ Harr H7 H8) E).
Defined.

(** Reading an HTTP answer ends on every sequence of reads, and a chunked
    body, whatever the chunks, decodes to their concatenation. *)
Theorem chunked_body_roundtrip (cs : list (list Z)) (Hcs : Forall (fun c => c <> [] /\ zlen c <= 2 ^ 62) cs) :
  decode_chunked_body (chunked cs) = Some (Ok (concat cs)) /\
  forall reads, is_Some (read_http_response_body reads).
Proof.
  split; [| apply read_http_response_total]. unfold decode_chunked_body. apply (decode_chunks cs _ []); [done |].
  unfold chunked. rewrite length_app. cut (length cs <= length (concat (chunk <$> cs)))%nat; [lia |].
  clear Hcs. induction cs as [| c cs IH]; [done |]. rewrite fmap_cons. cbn [concat length]. rewrite length_app.
  assert (1 <= length (chunk c))%nat; [| lia]. unfold chunk. rewrite !length_app. simpl. lia.
Qed.

Lemma chunked_body_roundtrip_witness :
  chunked [str "d8:inter"; str "vali1800ee"] = str "8" ++ CRLF ++ str "d8:inter" ++ CRLF ++ str "A" ++ CRLF ++ str "vali1800ee" ++ CRLF ++ str "0" ++ CRLF ++ CRLF /\
  decode_chunked_body (chunked [str "d8:inter"; str "vali1800ee"]) = Some (Ok (str "d8:intervali1800ee")).
Proof.
  split; [vm_compute; reflexivity |].
  apply (chunked_body_roundtrip [str "d8:inter"; str "vali1800ee"]).
  repeat constructor; try discriminate; vm_compute; discriminate.
Defined.

(** The redirect the tests of [mod.rs] give: relative to the directory. *)
Example redirect_relative :
  resolve_redirect (str "https://t.example/a/b?x=1") (str "c?y=2") = Ok (str "https://t.example/a/c?y=2").
Proof. vm_compute. reflexivity. Qed.
