(* ===== verification/PeerExt.v ===== *)
(** * Peer extensions (BEP 6, 10, 11, 55)

    Models [src/src/peer/extension.rs] (the extended handshake), [pex.rs] (peer
    exchange), [holepunch.rs] and [fast.rs] (the allowed fast set).  SHA-1, a
    third-party crate, is a parameter of the last. *)

From S2P Require Import Prelude Str Numeral Text Bytes BTree Bencode Io Net Dicts Tracker.

Module Extension.

Definition EXTENDED_HANDSHAKE_ID : Z := 0.
Definition UT_METADATA : list Z := str "ut_metadata".
Definition UT_PEX : list Z := str "ut_pex".
Definition OUR_UT_PEX_ID : Z := 2.
Definition UT_HOLEPUNCH : list Z := str "ut_holepunch".
Definition OUR_UT_HOLEPUNCH_ID : Z := 3.

Record ExtendedHandshake : Type := mkExtendedHandshake {
  m : list (list Z * Z);
  metadata_size : option Z;
  client_version : option (list Z);
  listen_port : option Z;
  reqq : option Z;
  upload_only : bool
}.

Inductive ExtensionError : Type :=
| Decode (e : DecodeError)
| NotADict
| MissingMDict.

Definition VERSION : list Z := str "bittorrent-rs/0.1".

(** The dictionary of [build_with_pex]. *)
Definition handshake_dict (our_ut_metadata_id : Z) (size : option Z) (advertise_pex : bool) : Entries :=
  let m := bt_insert [] (str "ut_metadata") (Int our_ut_metadata_id) in
  let m := insert_opt m (str "ut_pex") (if advertise_pex then Some (Int OUR_UT_PEX_ID) else None) in
  let m := bt_insert m (str "ut_holepunch") (Int OUR_UT_HOLEPUNCH_ID) in
  let top := bt_insert [] (str "m") (Dict m) in
  let top := insert_opt top (str "metadata_size") (Int <$> size) in
  bt_insert top (str "v") (Bytes VERSION).

Definition build_with_pex (our_ut_metadata_id : Z) (size : option Z) (advertise_pex : bool) : list Z :=
  encode (Dict (handshake_dict our_ut_metadata_id size advertise_pex)).

Definition build (our_ut_metadata_id : Z) (size : option Z) : list Z := build_with_pex our_ut_metadata_id size true.

(** The dictionary of [build_for_seeding]; [usize as i64] is the same number
    for any length in memory. *)
Definition seeding_dict (our_ut_metadata_id size : Z) (upload_only : bool) : Entries :=
  let m := bt_insert [] (str "ut_metadata") (Int our_ut_metadata_id) in
  let top := bt_insert [] (str "m") (Dict m) in
  let top := bt_insert top (str "metadata_size") (Int size) in
  let top := insert_opt top (str "upload_only") (if upload_only then Some (Int 1) else None) in
  bt_insert top (str "v") (Bytes VERSION).

Definition build_for_seeding (our_ut_metadata_id size : Z) (upload_only : bool) : list Z :=
  encode (Dict (seeding_dict our_ut_metadata_id size upload_only)).

(** One entry of the peer's [m]: [v.as_int()? as u8] under a UTF-8 name. *)
Definition extension_of (kv : list Z * Bencode) : option (list Z * Z) :=
  if from_utf8_ok kv.1 then id ← as_int kv.2; Some (kv.1, wrap 8 id) else None.

Definition collect (l : list (list Z * Z)) : list (list Z * Z) := fold_left (fun m kv => bt_insert m kv.1 kv.2) l [].

Definition handshake_of (value : Bencode) : result ExtendedHandshake ExtensionError :=
  let? dict := ok_or (as_dict value) NotADict in
  let? m_dict := ok_or (v ← bt_get dict (str "m"); as_dict v) MissingMDict in
  Ok (mkExtendedHandshake (collect (omap extension_of m_dict))
        (get_int value "metadata_size") (v ← get value (str "v"); as_str v)
        (wrap 16 <$> get_int value "p")
        (n ← get_int value "reqq"; if 0 <? n then Some (Z.min n (u_max 32)) else None)
        (match get_int value "upload_only" with Some v => negb (v =? 0) | None => false end)).

Definition parse (payload : list Z) : option (result ExtendedHandshake ExtensionError) :=
  match decode_lenient payload with
  | None => None
  | Some (Err e) => Some (Err (Decode e))
  | Some (Ok value) => Some (handshake_of value)
  end.

Definition peer_ut_metadata_id (h : ExtendedHandshake) : option Z := bt_get (m h) UT_METADATA.
Definition peer_ut_pex_id (h : ExtendedHandshake) : option Z := bt_get (m h) UT_PEX.
Definition peer_ut_holepunch_id (h : ExtendedHandshake) : option Z := bt_get (m h) UT_HOLEPUNCH.

End Extension.

Module Pex.

Inductive PexError : Type :=
| Decode (e : DecodeError)
| NotADict
| MalformedCompactPeers.

(** [if let Some(x) = dict.get(key).and_then(as_bytes) { peers.extend(parse(x)?) }]. *)
Definition added_by (parse : list Z -> tracked (list SocketAddr)) (dict : Entries) (key : list Z) : result (list SocketAddr) PexError :=
  match (v ← bt_get dict key; as_bytes v) with
  | Some data => match parse data with Ok ps => Ok ps | Err _ => Err MalformedCompactPeers end
  | None => Ok []
  end.

Definition pex_of (value : Bencode) : result (list SocketAddr) PexError :=
  let? dict := ok_or (as_dict value) NotADict in
  let? v4 := added_by parse_compact_peers dict (str "added") in
  let? v6 := added_by parse_compact_peers_v6 dict (str "added6") in
  Ok (filter (fun p => port p <> 0) (v4 ++ v6)).

Definition parse_ut_pex (payload : list Z) : option (result (list SocketAddr) PexError) :=
  match decode_lenient payload with
  | None => None
  | Some (Err e) => Some (Err (Decode e))
  | Some (Ok value) => Some (pex_of value)
  end.

End Pex.

Module Holepunch.

Definition MSG_RENDEZVOUS : Z := 0.
Definition MSG_CONNECT : Z := 1.
Definition MSG_ERROR : Z := 2.
Definition ADDR_V4 : Z := 0.
Definition ADDR_V6 : Z := 1.

Inductive ErrorCode : Type := NoSuchPeer | NotConnected | NoSupport | NoSelf.

Definition to_u32 (c : ErrorCode) : Z := match c with NoSuchPeer => 1 | NotConnected => 2 | NoSupport => 3 | NoSelf => 4 end.

Definition from_u32 (n : Z) : option ErrorCode :=
  if n =? 1 then Some NoSuchPeer else if n =? 2 then Some NotConnected
  else if n =? 3 then Some NoSupport else if n =? 4 then Some NoSelf else None.

Inductive HolepunchMessage : Type :=
| Rendezvous (target : SocketAddr)
| Connect (endpoint : SocketAddr)
| Error (target : SocketAddr) (code : ErrorCode).

Inductive HolepunchError : Type :=
| TooShort
| UnknownMessageType (n : Z)
| UnknownAddressType (n : Z)
| UnknownErrorCode (n : Z).

Definition encode (msg : HolepunchMessage) : list Z :=
  let '(msg_type, addr, err_code) :=
    match msg with
    | Rendezvous target => (MSG_RENDEZVOUS, target, 0)
    | Connect endpoint => (MSG_CONNECT, endpoint, 0)
    | Error target code => (MSG_ERROR, target, to_u32 code)
    end in
  [msg_type] ++ match ip_of addr with Ip4 o => ADDR_V4 :: o | Ip6 o => ADDR_V6 :: o end ++
  be16 (port addr) ++ be32 err_code.

(** A [None] is an index out of range. *)
Definition decode (payload : list Z) : option (result HolepunchMessage HolepunchError) :=
  if zlen payload <? 2 then Some (Err TooShort)
  else
    msg_type ← zget payload 0;
    addr_type ← zget payload 1;
    if negb ((addr_type =? ADDR_V4) || (addr_type =? ADDR_V6)) then Some (Err (UnknownAddressType addr_type))
    else
      let addr_len := if addr_type =? ADDR_V4 then 4 else 16 in
      if zlen payload <? 2 + addr_len + 2 + 4 then Some (Err TooShort)
      else
        addr_bytes ← array_at addr_len payload 2;
        let ip := if addr_type =? ADDR_V4 then Ip4 addr_bytes else Ip6 addr_bytes in
        let port_at := 2 + addr_len in
        p ← be_u16 payload port_at;
        let err_at := port_at + 2 in
        err_code ← be_u32 payload err_at;
        let endpoint := socket_addr ip p in
        Some (if msg_type =? MSG_RENDEZVOUS then Ok (Rendezvous endpoint)
              else if msg_type =? MSG_CONNECT then Ok (Connect endpoint)
              else if msg_type =? MSG_ERROR then
                let? code := ok_or (from_u32 err_code) (UnknownErrorCode err_code) in Ok (Error endpoint code)
              else Err (UnknownMessageType msg_type)).

End Holepunch.

Module Fast.
Section fast.

Context (sha1 : list Z -> list Z).

(** The [for] loop over the words of one digest. *)
Fixpoint take_words (count : nat) (piece_count : Z) (set : list Z) (words : list (list Z)) : list Z :=
  match words with
  | [] => set
  | w :: ws =>
      if (length set =? count)%nat then set
      else
        let index := from_be_bytes w mod piece_count in
        take_words count piece_count (if bool_decide (index ∈ set) then set else set ++ [index]) ws
  end.

(** The [while] loop; [None] when [rounds] digests do not give enough pieces. *)
Fixpoint fast_loop (rounds count : nat) (piece_count : Z) (set x : list Z) : option (list Z) :=
  if (length set <? count)%nat then
    match rounds with
    | O => None
    | S rounds' =>
        let x := sha1 x in
        fast_loop rounds' count piece_count (take_words count piece_count set (as_chunks (length x) 4 x)) x
    end
  else Some set.

Definition fast_seed (ip info_hash : list Z) : list Z := be32 (Z.land (from_be_bytes ip) 0xFFFFFF00) ++ info_hash.

Definition allowed_fast_set (rounds : nat) (ip info_hash : list Z) (piece_count : Z) (count : nat) : option (list Z) :=
  if piece_count =? 0 then Some []
  else fast_loop rounds (Nat.min count (Z.to_nat piece_count)) piece_count [] (fast_seed ip info_hash).

End fast.
End Fast.

(** ** The extended handshake *)

Lemma decode_lenient_encode v :
  fits_at MAX_DEPTH v -> zlen (encode v) <= i64_max -> decode_lenient (encode v) = Some (Ok v).
Proof. intros [Hwf Hn] Hlen. by apply decode_top_encode. Qed.

Module ExtensionFacts.
Import Extension.

(** The extensions we advertise, in the order of their names. *)
Definition advertised (our_ut_metadata_id : Z) (pex : bool) : list (list Z * Z) :=
  [(UT_HOLEPUNCH, OUR_UT_HOLEPUNCH_ID); (UT_METADATA, our_ut_metadata_id)] ++ (if pex then [(UT_PEX, OUR_UT_PEX_ID)] else []).

Lemma handshake_dict_eq id size pex :
  handshake_dict id size pex =
  (str "m", Dict ((fun kv => (kv.1, Int kv.2)) <$> advertised id pex)) ::
  match size with Some s => [(str "metadata_size", Int s)] | None => [] end ++ [(str "v", Bytes VERSION)].
Proof. by destruct size, pex. Qed.

Lemma seeding_dict_eq id size up :
  seeding_dict id size up =
  [(str "m", Dict [(UT_METADATA, Int id)]); (str "metadata_size", Int size)] ++
  (if up then [(str "upload_only", Int 1)] else []) ++ [(str "v", Bytes VERSION)].
Proof. by destruct up. Qed.

Lemma handshake_dict_fits id size pex : u_ok 8 id -> opt_ok i64_ok size -> fits_at MAX_DEPTH (Dict (handshake_dict id size pex)).
Proof.
  intros Hid Hs. apply (fits_dict 99); [done |]. unfold handshake_dict. cbv zeta. entries; try entry.
  apply (fits_dict 98); [done |]. destruct pex; entries; entry.
Qed.

Lemma seeding_dict_fits id size up : u_ok 8 id -> i64_ok size -> fits_at MAX_DEPTH (Dict (seeding_dict id size up)).
Proof.
  intros Hid Hs. apply (fits_dict 99); [done |]. unfold seeding_dict. cbv zeta. destruct up; entries; try entry;
    apply (fits_dict 98); try done; entries; entry.
Qed.

Lemma encode_dict_len m n :
  Forall (fun kv => zlen (encode_bytes kv.1 ++ encode_into kv.2) <= n) m -> zlen (encode (Dict m)) <= 2 + n * zlen m.
Proof.
  intros Hm. unfold encode. cbn [encode_into]. rewrite !zlen_app. change (zlen [100]) with 1. change (zlen [101]) with 1.
  cut (zlen (flat_map (fun kv => encode_bytes kv.1 ++ encode_into kv.2) m) <= n * zlen m); [lia |].
  induction Hm as [| kv m Hkv Hm IH]; [unfold zlen; simpl; lia |]. cbn [flat_map]. rewrite zlen_app, zlen_cons. lia.
Qed.

Lemma encode_int_entry k i : i64_ok i -> zlen (encode_bytes (str k) ++ encode_into (Int i)) <= zlen (encode_bytes (str k)) + 67.
Proof.
  intros Hi. cbn [encode_into]. rewrite !zlen_app. pose proof (i64_to_string_length i Hi).
  change (zlen [105]) with 1. change (zlen [101]) with 1. lia.
Qed.

Lemma encode_dict_entry k m n :
  Forall (fun kv => zlen (encode_bytes kv.1 ++ encode_into kv.2) <= n) m ->
  zlen (encode_bytes (str k) ++ encode_into (Dict m)) <= zlen (encode_bytes (str k)) + (2 + n * zlen m).
Proof. intros Hm. apply encode_dict_len in Hm. unfold encode in Hm. rewrite zlen_app. lia. Qed.

Lemma i64_of_u8 id : u_ok 8 id -> i64_ok id.
Proof. unfold u_ok, i64_ok, i64_min, i64_max. lia. Qed.

(** Every entry of these dictionaries is short. *)
Ltac short_entry :=
  cbn [fst snd];
  first [ etransitivity; [apply encode_int_entry; solve [assumption | by apply i64_of_u8 | vm_compute; split; discriminate] | vm_compute; discriminate]
        | vm_compute; discriminate ].
Ltac short_entries := repeat (apply Forall_cons; split; [short_entry |]); constructor.

Lemma handshake_len id size pex : u_ok 8 id -> opt_ok i64_ok size -> zlen (build_with_pex id size pex) <= i64_max.
Proof.
  intros Hid Hs. unfold build_with_pex. rewrite handshake_dict_eq.
  assert (zlen (encode_bytes (str "m") ++ encode_into (Dict ((fun kv => (kv.1, Int kv.2)) <$> advertised id pex))) <= 1000) as Hm.
  { etransitivity; [apply (encode_dict_entry _ _ 200) |].
    - destruct pex; cbn [advertised fmap list_fmap app]; short_entries.
    - destruct pex; vm_compute; discriminate. }
  etransitivity; [apply (encode_dict_len _ 2000) |].
  - apply Forall_cons. split; [cbn [fst snd]; lia |]. destruct size; cbn [app]; short_entries.
  - destruct size; vm_compute; discriminate.
Qed.

Lemma seeding_len id size up : u_ok 8 id -> i64_ok size -> zlen (build_for_seeding id size up) <= i64_max.
Proof.
  intros Hid Hs. unfold build_for_seeding. rewrite seeding_dict_eq.
  assert (zlen (encode_bytes (str "m") ++ encode_into (Dict [(UT_METADATA, Int id)])) <= 1000) as Hm.
  { etransitivity; [apply (encode_dict_entry _ _ 200); short_entries | vm_compute; discriminate]. }
  etransitivity; [apply (encode_dict_len _ 2000) |].
  - cbn [app]. apply Forall_cons. split; [cbn [fst snd]; lia |]. destruct up; cbn [app]; short_entries.
  - destruct up; vm_compute; discriminate.
Qed.

Lemma wrap8 id : u_ok 8 id -> wrap 8 id = id.
Proof. intros H. by apply Z.mod_small. Qed.

Lemma collect_advertised l :
  Forall (fun kv => from_utf8_ok kv.1 = true /\ u_ok 8 kv.2) l -> omap extension_of ((fun kv => (kv.1, Int kv.2)) <$> l) = l.
Proof.
  induction 1 as [| [k i] l [Hk Hi] Hl IH]; [done |]. rewrite fmap_cons. cbn [omap list_omap fst snd] in *.
  unfold extension_of at 1. cbn [fst snd as_int mbind option_bind]. rewrite Hk, wrap8 by done. by rewrite IH.
Qed.

Lemma advertised_ok id pex : u_ok 8 id -> Forall (fun kv => from_utf8_ok kv.1 = true /\ u_ok 8 kv.2) (advertised id pex).
Proof. intros Hid. destruct pex; repeat constructor; try done; apply Hid. Qed.

Lemma parse_built id size pex :
  u_ok 8 id -> opt_ok i64_ok size ->
  parse (build_with_pex id size pex) =
  Some (Ok (mkExtendedHandshake (advertised id pex) size (Some VERSION) None None false)).
Proof.
  intros Hid Hs. unfold parse. unfold build_with_pex at 1.
  rewrite decode_lenient_encode; [| by apply handshake_dict_fits | by apply handshake_len].
  do 2 f_equal. unfold handshake_of, get_int, get, handshake_dict. cbv zeta. cbn [as_dict mbind option_bind ok_or result_bind]. read_keys.
  do 2 f_equal; [| by destruct size].
  transitivity (collect (omap extension_of ((fun kv => (kv.1, Int kv.2)) <$> advertised id pex))); [by destruct pex |].
  rewrite collect_advertised by by apply advertised_ok. by destruct pex.
Qed.

Lemma parse_seeding id size up :
  u_ok 8 id -> i64_ok size ->
  parse (build_for_seeding id size up) =
  Some (Ok (mkExtendedHandshake [(UT_METADATA, id)] (Some size) (Some VERSION) None None up)).
Proof.
  intros Hid Hs. unfold parse. unfold build_for_seeding at 1.
  rewrite decode_lenient_encode; [| by apply seeding_dict_fits | by apply seeding_len].
  do 2 f_equal. unfold handshake_of, get_int, get, seeding_dict. cbv zeta. cbn [as_dict mbind option_bind ok_or result_bind]. read_keys.
  do 2 f_equal; [| by destruct up].
  transitivity (collect (omap extension_of ((fun kv => (kv.1, Int kv.2)) <$> [(UT_METADATA, id)]))); [done |].
  rewrite collect_advertised by (repeat constructor; apply Hid). done.
Qed.

End ExtensionFacts.

(** ** The allowed fast set *)

Module FastFacts.
Import Fast.

(** Adding a value that is not there yet, and the distinct values of a list in
    the order they first occur. *)
Definition push_new (set : list Z) (x : Z) : list Z := if bool_decide (x ∈ set) then set else set ++ [x].
Definition first_seen (l : list Z) : list Z := fold_left push_new l [].

Lemma push_new_prefix set x : set `prefix_of` push_new set x.
Proof. unfold push_new. case_bool_decide; [done | by apply prefix_app_r]. Qed.

Lemma fold_push_prefix set l : set `prefix_of` fold_left push_new l set.
Proof. revert set. induction l as [| x l IH]; intros set; [done |]. cbn. etrans; [apply push_new_prefix | apply IH]. Qed.

Lemma push_new_nodup set x : NoDup set -> NoDup (push_new set x).
Proof.
  intros Hs. unfold push_new. case_bool_decide; [done |]. apply NoDup_app. split_and!; [done | | apply NoDup_singleton].
  intros y Hy Hyx. apply list_elem_of_singleton in Hyx as ->. done.
Qed.

Lemma first_seen_nodup l : NoDup (first_seen l).
Proof.
  unfold first_seen. assert (forall set, NoDup set -> NoDup (fold_left push_new l set)) as H; [| apply H, NoDup_nil_2].
  induction l as [| x l IH]; intros set Hs; [done |]. by apply IH, push_new_nodup.
Qed.

Lemma first_seen_elem l x : x ∈ first_seen l <-> x ∈ l.
Proof.
  unfold first_seen. assert (forall set, x ∈ fold_left push_new l set <-> x ∈ set \/ x ∈ l) as ->; [| set_solver].
  induction l as [| y l IH]; intros set; cbn [fold_left]; [set_solver |]. rewrite IH. unfold push_new.
  case_bool_decide; set_solver.
Qed.

(** A prefix of [l] with [n] elements is what [take] gives. *)
Lemma prefix_take {A} (l k : list A) : l `prefix_of` k -> take (length l) k = l.
Proof. intros [r ->]. apply take_app_length. Qed.

Section fast.
Context (sha1 : list Z -> list Z).

(** The words of a digest as piece numbers, and of the first [n] digests. *)
Definition indices (piece_count : Z) (x : list Z) : list Z :=
  (fun w => from_be_bytes w mod piece_count) <$> as_chunks (length x) 4 x.

Fixpoint stream (piece_count : Z) (n : nat) (x : list Z) : list Z :=
  match n with
  | O => []
  | S n' => indices piece_count (sha1 x) ++ stream piece_count n' (sha1 x)
  end.

Lemma take_words_full count pc set ws : length set = count -> take_words count pc set ws = set.
Proof using Type. intros Hl. destruct ws; [done |]. cbn. by rewrite (proj2 (Nat.eqb_eq _ _)). Qed.

(** The loop stops once it has [count]: the first [count] of what it would
    have collected. *)
Lemma take_words_spec count pc set ws :
  (length set <= count)%nat ->
  take_words count pc set ws = take count (fold_left push_new ((fun w => from_be_bytes w mod pc) <$> ws) set).
Proof using Type.
  revert set. induction ws as [| w ws IH]; intros set Hl.
  - cbn. by rewrite take_ge.
  - cbn [take_words]. destruct (Nat.eqb_spec (length set) count) as [<- | Hne].
    + symmetry. apply prefix_take, fold_push_prefix.
    + cbv zeta. rewrite fmap_cons. cbn [fold_left]. change (if bool_decide _ then set else _) with (push_new set (from_be_bytes w mod pc)).
      apply IH. unfold push_new. case_bool_decide; rewrite ?length_app; simpl; lia.
Qed.

Lemma take_fold_take count l set :
  take count (fold_left push_new l (take count set)) = take count (fold_left push_new l set).
Proof using Type.
  destruct (Nat.le_gt_cases (length set) count) as [Hle | Hgt]; [by rewrite (take_ge set) by lia |].
  pose proof (fold_push_prefix (take count set) l) as [r Hr]. pose proof (fold_push_prefix set l) as [r' Hr'].
  assert (length (take count set) = count) as Hl by (rewrite length_take; lia).
  rewrite Hr, Hr', (take_app_length' _ _ count) by lia. rewrite take_app_le by lia. done.
Qed.

Lemma fast_loop_spec rounds count pc l0 x :
  let all := fold_left push_new (stream pc rounds x) l0 in
  (count <= length all)%nat ->
  fast_loop sha1 rounds count pc (take count l0) x = Some (take count all).
Proof using Type.
  revert l0 x. induction rounds as [| n IH]; intros l0 x all Hall; cbn [fast_loop].
  - cbn in all. subst all. rewrite length_take. rewrite (proj2 (Nat.ltb_ge _ _)) by lia. done.
  - destruct (Nat.ltb_spec (length (take count l0)) count) as [Hlt | Hge].
    + cbv zeta. rewrite take_words_spec by (rewrite length_take; lia). fold (indices pc (sha1 x)).
      rewrite take_fold_take. rewrite (IH (fold_left push_new (indices pc (sha1 x)) l0)).
      * subst all. cbn [stream]. by rewrite fold_left_app.
      * subst all. cbn [stream] in Hall. by rewrite fold_left_app in Hall.
    + f_equal. rewrite length_take in Hge. subst all. symmetry.
      destruct (fold_push_prefix l0 (stream pc (S n) x)) as [r ->]. rewrite take_app_le by lia. done.
Qed.

End fast.

Lemma stream_bound sha1 pc n x : 0 < pc -> Forall (fun i => 0 <= i < pc) (stream sha1 pc n x).
Proof.
  intros Hpc. revert x. induction n as [| n IH]; intros x; cbn [stream]; [done |]. apply Forall_app. split; [| apply IH].
  apply Forall_fmap, Forall_forall. intros w _. cbn. by apply Z.mod_pos_bound.
Qed.

(** The seed depends on the first three octets only. *)
Lemma fast_seed_24 a b c d d' h : Forall (u_ok 8) [a; b; c; d; d'] -> fast_seed [a; b; c; d] h = fast_seed [a; b; c; d'] h.
Proof.
  intros Hb. unfold fast_seed. do 2 f_equal. rewrite !Forall_cons in Hb. unfold u_ok in Hb. change (2 ^ 8) with 256 in Hb.
  assert (forall e, 0 <= e < 256 -> Z.land (from_be_bytes [a; b; c; e]) 0xFFFFFF00 = Z.shiftl (Z.land (from_be_bytes [a; b; c]) 0xFFFFFF) 8) as H.
  { intros e He. with_strategy transparent [from_be_bytes] unfold from_be_bytes. cbn [fold_left].
    replace ((((0 * 256 + a) * 256 + b) * 256 + c) * 256 + e) with (e + Z.shiftl (((0 * 256 + a) * 256 + b) * 256 + c) 8)
      by (rewrite Z.shiftl_mul_pow2 by lia; lia).
    apply Z.bits_inj'. intros n Hn. rewrite Z.land_spec, Z.shiftl_spec by done.
    change 0xFFFFFF00 with (Z.shiftl 0xFFFFFF 8). rewrite Z.shiftl_spec by done.
    destruct (Z.ltb_spec n 8).
    - rewrite !(Z.testbit_neg_r _ (n - 8)) by lia. by rewrite andb_false_r.
    - rewrite Z.land_spec. f_equal.
      replace n with (n - 8 + 8) at 1 by lia. rewrite <- Z.shiftr_spec by lia.
      rewrite Z.shiftr_div_pow2, Z.shiftl_mul_pow2 by lia. change (2 ^ 8) with 256. rewrite Z.div_add, Z.div_small by lia. done. }
  rewrite !H by lia. done.
Qed.

End FastFacts.

(** ** Peer exchange and hole punching *)

Definition addr6_ok (a : SocketAddr) : Prop :=
  match a with V6 ip p f s => zlen ip = 16 /\ bytes_ok ip /\ u_ok 16 p /\ f = 0 /\ s = 0 | V4 _ _ => False end.

Lemma parse_compact_v6_encode ps : Forall addr6_ok ps -> parse_compact_peers_v6 (concat (compact4 <$> ps)) = Ok ps.
Proof.
  intros Hps. unfold parse_compact_peers_v6.
  assert (Forall (fun c => length c = 18%nat) (compact4 <$> ps)) as Hls.
  { apply Forall_fmap. apply (Forall_impl _ _ _ Hps). intros [| ip p f s] H; [done |]. destruct H as [Hip _].
    cbn. rewrite length_app, length_to_be_bytes. unfold zlen in Hip. lia. }
  assert (zlen (concat (compact4 <$> ps)) = 18 * zlen (compact4 <$> ps)) as Hlen.
  { apply (zlen_concat_len 18). apply (Forall_impl _ _ _ Hls). unfold zlen. lia. }
  rewrite Hlen, Z.mul_comm, Z.mod_mul by lia. cbn [Z.eqb negb].
  rewrite as_chunks_concat_len; [| lia | done | unfold zlen in Hlen; lia]. f_equal. rewrite <- list_fmap_compose.
  clear Hls Hlen. induction Hps as [| [| ip p f s] ps H Hps IH]; [done | done |]. destruct H as (Hip & _ & Hp & -> & ->).
  rewrite fmap_cons, IH. f_equal. cbn. rewrite take_app_length', drop_app_length' by (unfold zlen in Hip; lia).
  by rewrite from_to_be_bytes_ok.
Qed.

(** The message a peer sends for the addresses it has learned. *)
Definition pex_dict (v4 v6 : list SocketAddr) : Entries :=
  bt_insert (bt_insert [] (str "added") (Bytes (concat (compact4 <$> v4)))) (str "added6") (Bytes (concat (compact4 <$> v6))).

Module HolepunchFacts.
Import Holepunch.

Definition addr_bytes_ok (a : SocketAddr) : Prop :=
  match ip_of a with Ip4 o => zlen o = 4 | Ip6 o => zlen o = 16 end /\ u_ok 16 (port a).

Definition about (msg : HolepunchMessage) : SocketAddr :=
  match msg with Rendezvous a | Connect a | Error a _ => a end.

(** What the receiver makes of a message: an IPv6 address without its flow
    label and scope, which are not sent. *)
Definition plain_addr (a : SocketAddr) : SocketAddr := socket_addr (ip_of a) (port a).
Definition received (msg : HolepunchMessage) : HolepunchMessage :=
  match msg with
  | Rendezvous a => Rendezvous (plain_addr a)
  | Connect a => Connect (plain_addr a)
  | Error a c => Error (plain_addr a) c
  end.

Lemma from_to_u32 c : from_u32 (to_u32 c) = Some c.
Proof. by destruct c. Qed.

Definition wire (ty at_ : Z) (o : list Z) (p e : Z) (extra : list Z) : list Z := ty :: at_ :: o ++ be16 p ++ be32 e ++ extra.

(** Reading the fixed layout. *)
Lemma read_layout ty at_ o p e extra n :
  zlen o = n -> u_ok 16 p -> u_ok 32 e -> n <= 16 ->
  let w := wire ty at_ o p e extra in
  2 <= zlen w /\ zget w 0 = Some ty /\ zget w 1 = Some at_ /\ 2 + n + 2 + 4 <= zlen w /\
  array_at n w 2 = Some o /\ be_u16 w (2 + n) = Some p /\ be_u32 w (2 + n + 2) = Some e.
Proof.
  intros Ho Hp He Hn w. pose proof (zlen_nonneg extra). pose proof (zlen_nonneg o).
  assert (zlen w = 2 + n + 6 + zlen extra) as Hl.
  { unfold w, wire. rewrite !zlen_cons, !zlen_app, !zlen_to_be_bytes. lia. }
  split_and!; [lia | done | done | lia | ..].
  - unfold w, wire. pose proof (array_at_app [ty; at_] o (be16 p ++ be32 e ++ extra)) as H'. rewrite Ho in H'.
    apply H'. change (zlen [ty; at_]) with 2. unfold u_max. lia.
  - pose proof (be_u16_app ([ty; at_] ++ o) p (be32 e ++ extra) Hp) as H'. rewrite zlen_app in H'.
    change (zlen [ty; at_]) with 2 in H'. rewrite Ho, <- app_assoc in H'. apply H'. lia.
  - pose proof (be_u32_app ([ty; at_] ++ o ++ be16 p) e extra He) as H'. rewrite !zlen_app, zlen_to_be_bytes in H'.
    change (zlen [ty; at_]) with 2 in H'. rewrite Ho, <- !app_assoc in H'.
    replace (2 + (n + Z.of_nat 2)) with (2 + n + 2) in H' by lia. apply H'. lia.
Qed.

Lemma decode_wire ty a e extra :
  addr_bytes_ok a -> u_ok 32 e ->
  decode (wire ty (if ip_is_v6 (ip_of a) then ADDR_V6 else ADDR_V4) (match ip_of a with Ip4 o | Ip6 o => o end) (port a) e extra) =
  Some (if ty =? MSG_RENDEZVOUS then Ok (Rendezvous (plain_addr a))
        else if ty =? MSG_CONNECT then Ok (Connect (plain_addr a))
        else if ty =? MSG_ERROR then let? c := ok_or (from_u32 e) (UnknownErrorCode e) in Ok (Error (plain_addr a) c)
        else Err (UnknownMessageType ty)).
Proof.
  intros [Ha Hp] He. unfold decode, plain_addr. destruct (ip_of a) as [o | o]; cbn [ip_is_v6].
  - destruct (read_layout ty ADDR_V4 o (port a) e extra 4 Ha Hp He) as (H1 & -> & -> & H4 & H5 & H6 & H7); [done |].
    rewrite (proj2 (Z.ltb_ge _ 2)) by lia. cbn [mbind option_bind]. change (ADDR_V4 =? ADDR_V4) with true. cbn [orb negb].
    rewrite (proj2 (Z.ltb_ge _ _)) by lia. rewrite H5. cbn [mbind option_bind]. rewrite H6. cbn [mbind option_bind]. rewrite H7. done.
  - destruct (read_layout ty ADDR_V6 o (port a) e extra 16 Ha Hp He) as (H1 & -> & -> & H4 & H5 & H6 & H7); [done |].
    rewrite (proj2 (Z.ltb_ge _ 2)) by lia. cbn [mbind option_bind]. change (ADDR_V6 =? ADDR_V4) with false.
    change (ADDR_V6 =? ADDR_V6) with true. cbn [orb negb].
    rewrite (proj2 (Z.ltb_ge _ _)) by lia. rewrite H5. cbn [mbind option_bind]. rewrite H6. cbn [mbind option_bind]. rewrite H7. done.
Qed.

Lemma array_at_some n buf at_ : 0 <= at_ -> 0 <= n -> at_ + n <= zlen buf -> zlen buf <= 2 ^ 62 -> is_Some (array_at n buf at_).
Proof.
  intros. unfold array_at, u_checked_add. rewrite (proj2 (Z.leb_le _ (u_max 64))) by (unfold u_max; lia).
  rewrite !(proj2 (Z.leb_le _ _)) by lia. by eexists.
Qed.

Lemma decode_no_panic payload : zlen payload <= 2 ^ 62 -> is_Some (decode payload).
Proof.
  intros Hl. unfold decode. destruct (Z.ltb_spec (zlen payload) 2); [by eexists |].
  destruct (zget_lt payload 0) as [ty ->]; [lia |]. destruct (zget_lt payload 1) as [at_ ->]; [lia |]. cbn [mbind option_bind].
  destruct (negb _); [by eexists |].
  assert (forall n, 0 <= n -> is_Some (if zlen payload <? 2 + n + 2 + 4 then Some (Err TooShort)
    else addr_bytes ← array_at n payload 2;
         let ip := if at_ =? ADDR_V4 then Ip4 addr_bytes else Ip6 addr_bytes in
         p ← be_u16 payload (2 + n);
         err_code ← be_u32 payload (2 + n + 2);
         let endpoint := socket_addr ip p in
         Some (if ty =? MSG_RENDEZVOUS then Ok (Rendezvous endpoint) else if ty =? MSG_CONNECT then Ok (Connect endpoint)
               else if ty =? MSG_ERROR then let? code := ok_or (from_u32 err_code) (UnknownErrorCode err_code) in Ok (Error endpoint code)
               else Err (UnknownMessageType ty)))) as Hn.
  { intros n Hn. destruct (Z.ltb_spec (zlen payload) (2 + n + 2 + 4)); [by eexists |].
    destruct (array_at_some n payload 2) as [b ->]; [lia.. |]. cbn [mbind option_bind]. unfold be_u16.
    destruct (array_at_some 2 payload (2 + n)) as [p ->]; [lia.. |]. cbn [mbind option_bind fmap option_fmap option_map].
    destruct (be_u32_some payload (2 + n + 2)) as [e ->]; [lia.. |]. by eexists. }
  destruct (at_ =? ADDR_V4); apply Hn; lia.
Qed.

End HolepunchFacts.

(** ** Properties *)

(** What a peer reads in our extended handshakes is what was put in:
    the id we gave [ut_metadata], hole punching always, peer exchange exactly
    when it was advertised (so never on a private torrent), the size of the
    info dictionary if it is known; and from a seeding client the size and
    whether it only uploads, with no peer exchange. *)
Theorem extended_handshake_read (id n : Z) (size : option Z) (pex up : bool)
    (Hid : u_ok 8 id) (Hsize : opt_ok i64_ok size) (Hn : i64_ok n) :
  (exists h, Extension.parse (Extension.build_with_pex id size pex) = Some (Ok h) /\
     Extension.peer_ut_metadata_id h = Some id /\ Extension.peer_ut_holepunch_id h = Some 3 /\
     Extension.peer_ut_pex_id h = (if pex then Some 2 else None) /\
     Extension.metadata_size h = size /\ Extension.upload_only h = false) /\
  (exists h, Extension.parse (Extension.build_for_seeding id n up) = Some (Ok h) /\
     Extension.peer_ut_metadata_id h = Some id /\ Extension.peer_ut_pex_id h = None /\
     Extension.metadata_size h = Some n /\ Extension.upload_only h = up).
Proof.
  split.
  - rewrite ExtensionFacts.parse_built by done. eexists. split; [reflexivity |]. by destruct pex.
  - rewrite ExtensionFacts.parse_seeding by done. eexists. split; [reflexivity |]. done.
Qed.

Lemma extended_handshake_read_witness :
  Extension.parse (str "d1:md11:ut_metadatai2e6:ut_pexi1ee13:metadata_sizei34521e1:pi6881e4:reqqi500e1:v12:libtorrent/1e") =
    Some (Ok (Extension.mkExtendedHandshake [(str "ut_metadata", 2); (str "ut_pex", 1)] (Some 34521) (Some (str "libtorrent/1"))
      (Some 6881) (Some 500) false)) /\
  exists h, Extension.parse (Extension.build_with_pex 1 (Some 48213) false) = Some (Ok h) /\
    Extension.peer_ut_metadata_id h = Some 1 /\ Extension.peer_ut_holepunch_id h = Some 3 /\ Extension.peer_ut_pex_id h = None /\
    Extension.metadata_size h = Some 48213 /\ Extension.upload_only h = false.
Proof.
  split; [vm_compute; reflexivity |].
  refine (proj1 (extended_handshake_read 1 48213 (Some 48213) false true _ _ _)); vm_compute; split; congruence.
Defined.

(** A peer exchange message gives the addresses it lists, IPv4 first,
    without those on port 0; and whatever a peer sends, parsing ends, and no
    address on port 0 comes of it. *)
Theorem pex_understood (v4 v6 : list SocketAddr) (payload : list Z) (ps : list SocketAddr)
    (H4 : Forall addr4_ok v4) (H6 : Forall addr6_ok v6)
    (Hlen : zlen (encode (Dict (pex_dict v4 v6))) <= i64_max) (Hpay : zlen payload <= i64_max) :
  Pex.parse_ut_pex (encode (Dict (pex_dict v4 v6))) = Some (Ok (filter (fun p => port p <> 0) (v4 ++ v6))) /\
  is_Some (Pex.parse_ut_pex payload) /\
  (Pex.parse_ut_pex payload = Some (Ok ps) -> Forall (fun p => port p <> 0) ps).
Proof.
  assert (forall b, zlen b <= zlen (encode_into (Bytes b))) as Hin.
  { intros b. cbn [encode_into]. unfold encode_bytes. rewrite !zlen_app. pose proof (zlen_nonneg (u_to_string (zlen b))).
    pose proof (zlen_nonneg [58]). lia. }
  assert (bytes_ok (concat (compact4 <$> v4))) as Hb4.
  { apply Forall_concat, Forall_fmap. apply (Forall_impl _ _ _ H4). intros [ip p |] H; [| done]. destruct H as (_ & Hb & _).
    apply Forall_app. split; [done | apply to_be_bytes_ok]. }
  split_and!.
  - unfold Pex.parse_ut_pex. rewrite decode_lenient_encode; [| | done].
    + do 2 f_equal. unfold Pex.pex_of, Pex.added_by. cbn [as_dict ok_or result_bind]. unfold pex_dict. read_keys.
      assert (parse_compact_peers (concat (compact4 <$> v4)) = Ok v4) as -> by by apply parse_compact_peers_iff.
      rewrite parse_compact_v6_encode by done. done.
    + unfold encode in Hlen. change (pex_dict v4 v6) with
        [(str "added", Bytes (concat (compact4 <$> v4))); (str "added6", Bytes (concat (compact4 <$> v6)))] in Hlen.
      cbn [encode_into flat_map fst snd] in Hlen. rewrite !zlen_app in Hlen.
      pose proof (Hin (concat (compact4 <$> v4))) as I4. pose proof (Hin (concat (compact4 <$> v6))) as I6. cbn [encode_into] in I4, I6.
      pose proof (zlen_nonneg (encode_bytes (str "added"))). pose proof (zlen_nonneg (encode_bytes (str "added6"))).
      pose proof (zlen_nonneg (concat (compact4 <$> v4))). pose proof (zlen_nonneg (concat (compact4 <$> v6))).
      apply (fits_dict 99); [done |]. unfold pex_dict. change (zlen [100]) with 1 in Hlen. change (zlen [101]) with 1 in Hlen.
      change (zlen (@nil Z)) with 0 in Hlen. entries; apply fits_bytes; try done; unfold small; lia.
  - unfold Pex.parse_ut_pex. destruct (decode_top_total payload false Hpay) as [[v | e] E]; unfold decode_lenient, new_lenient; rewrite E; by eexists.
  - unfold Pex.parse_ut_pex. destruct (decode_lenient payload) as [[v | e] |]; [| done..]. intros [= H]. unfold Pex.pex_of in H.
    apply result_bind_Ok in H as (d & _ & H). apply result_bind_Ok in H as (a & _ & H). apply result_bind_Ok in H as (b & _ & H).
    injection H as <-. apply Forall_forall. intros p Hp. by apply list_elem_of_filter in Hp as [? _].
Qed.

Lemma pex_understood_witness :
  let v4 := [V4 [10; 0; 0; 1] 0; V4 [10; 0; 0; 2] 6881] in
  encode (Dict (pex_dict v4 [])) = str "d5:added12:" ++ [10; 0; 0; 1; 0; 0; 10; 0; 0; 2; 26; 225] ++ str "6:added60:e" /\
  Pex.parse_ut_pex (encode (Dict (pex_dict v4 []))) = Some (Ok [V4 [10; 0; 0; 2] 6881]).
Proof.
  split; [vm_compute; reflexivity |].
  refine (proj1 (pex_understood [V4 [10; 0; 0; 1] 0; V4 [10; 0; 0; 2] 6881] [] [] [] _ _ _ _)).
  - repeat constructor; try (vm_compute; congruence).
  - constructor.
  - vm_compute. discriminate.
  - vm_compute. discriminate.
Defined.

(** Every hole punching message is read back by its receiver, with
    anything after it ignored, and no payload makes the decoder index out of
    range. *)
Theorem holepunch_roundtrip (msg : Holepunch.HolepunchMessage) (extra payload : list Z)
    (Hmsg : HolepunchFacts.addr_bytes_ok (HolepunchFacts.about msg)) (Hlen : zlen payload <= 2 ^ 62) :
  Holepunch.decode (Holepunch.encode msg ++ extra) = Some (Ok (HolepunchFacts.received msg)) /\
  is_Some (Holepunch.decode payload).
Proof.
  split; [| by apply HolepunchFacts.decode_no_panic].
  assert (forall ty a e, HolepunchFacts.addr_bytes_ok a ->
    ([ty] ++ match ip_of a with Ip4 o => Holepunch.ADDR_V4 :: o | Ip6 o => Holepunch.ADDR_V6 :: o end ++ be16 (port a) ++ be32 e) ++ extra =
    HolepunchFacts.wire ty (if ip_is_v6 (ip_of a) then Holepunch.ADDR_V6 else Holepunch.ADDR_V4)
      (match ip_of a with Ip4 o | Ip6 o => o end) (port a) e extra) as Hw.
  { intros ty a e _. unfold HolepunchFacts.wire. destruct (ip_of a); cbn [ip_is_v6 app]; by rewrite <- !app_assoc. }
  destruct msg as [a | a | a c]; cbn [HolepunchFacts.about] in Hmsg; unfold Holepunch.encode; cbv iota beta; rewrite Hw, HolepunchFacts.decode_wire; try done.
  - cbn. by rewrite HolepunchFacts.from_to_u32.
  - by destruct c.
Qed.

Lemma holepunch_roundtrip_witness :
  Holepunch.encode (Holepunch.Rendezvous (V4 [10; 0; 0; 1] 6881)) = [0; 0; 10; 0; 0; 1; 26; 225; 0; 0; 0; 0] /\
  Holepunch.decode (Holepunch.encode (Holepunch.Rendezvous (V4 [10; 0; 0; 1] 6881)) ++ [9]) =
    Some (Ok (Holepunch.Rendezvous (V4 [10; 0; 0; 1] 6881))).
Proof.
  split; [vm_compute; reflexivity |].
  refine (proj1 (holepunch_roundtrip (Holepunch.Rendezvous (V4 [10; 0; 0; 1] 6881)) [9] [] _ _)); vm_compute; [repeat split; congruence | discriminate].
Defined.

(** The allowed fast set is BEP 6's: the first [count] (or as many as
    there are pieces) distinct piece numbers in the stream of words of the
    repeated digest, whenever that many turn up within [rounds] digests.  They
    are distinct and within the torrent, and peers of one /24 share them. *)
Theorem allowed_fast_spec (sha1 : list Z -> list Z) (rounds : nat) (a b c d d' : Z) (hash : list Z) (piece_count : Z) (count : nat)
    (Hip : Forall (u_ok 8) [a; b; c; d; d']) (Hpc : 0 < piece_count)
    (Hstream : (Nat.min count (Z.to_nat piece_count) <=
      length (FastFacts.first_seen (FastFacts.stream sha1 piece_count rounds (Fast.fast_seed [a; b; c; d] hash))))%nat) :
  exists set, Fast.allowed_fast_set sha1 rounds [a; b; c; d] hash piece_count count = Some set /\
    set = take (Nat.min count (Z.to_nat piece_count))
            (FastFacts.first_seen (FastFacts.stream sha1 piece_count rounds (Fast.fast_seed [a; b; c; d] hash))) /\
    length set = Nat.min count (Z.to_nat piece_count) /\ NoDup set /\ Forall (fun i => 0 <= i < piece_count) set /\
    Fast.allowed_fast_set sha1 rounds [a; b; c; d'] hash piece_count count = Some set.
Proof.
  set (n := Nat.min count (Z.to_nat piece_count)) in *.
  set (all := FastFacts.first_seen (FastFacts.stream sha1 piece_count rounds (Fast.fast_seed [a; b; c; d] hash))) in *.
  assert (Fast.allowed_fast_set sha1 rounds [a; b; c; d] hash piece_count count = Some (take n all)) as E.
  { unfold Fast.allowed_fast_set. rewrite (proj2 (Z.eqb_neq _ _)) by lia.
    pose proof (FastFacts.fast_loop_spec sha1 rounds n piece_count [] (Fast.fast_seed [a; b; c; d] hash)) as H.
    cbv zeta in H. rewrite take_nil in H. by apply H. }
  exists (take n all). split_and!; [exact E | done | rewrite length_take; lia | | |].
  - eapply sublist_NoDup; [apply FastFacts.first_seen_nodup | apply sublist_take].
  - apply Forall_take, Forall_forall. intros i Hi. unfold all in Hi. rewrite FastFacts.first_seen_elem in Hi.
    pose proof (FastFacts.stream_bound sha1 piece_count rounds (Fast.fast_seed [a; b; c; d] hash) Hpc) as H.
    rewrite Forall_forall in H. by apply H.
  - rewrite <- E. unfold Fast.allowed_fast_set. by rewrite (FastFacts.fast_seed_24 a b c d d' hash Hip).
Qed.

(** A stand-in digest whose words keep changing. *)
Definition mixing (x : list Z) : list Z := (fun b => (b * 5 + 3) mod 256) <$> take 20 x.

Lemma allowed_fast_spec_witness :
  Fast.allowed_fast_set mixing 10 [80; 4; 4; 200] (replicate 20 170) 1313 7 =
    Fast.allowed_fast_set mixing 10 [80; 4; 4; 1] (replicate 20 170) 1313 7 /\
  exists set, Fast.allowed_fast_set mixing 10 [80; 4; 4; 200] (replicate 20 170) 1313 7 = Some set /\
    length set = 7%nat /\ NoDup set.
Proof.
  assert (Forall (u_ok 8) [80; 4; 4; 200; 1]) as Hip by (repeat constructor; unfold u_ok; lia).
  assert (0 < 1313) as Hpc by lia.
  assert (le (Nat.min 7 (Z.to_nat 1313))
      (length (FastFacts.first_seen (FastFacts.stream mixing 1313 10 (Fast.fast_seed [80; 4; 4; 200] (replicate 20 170)))))) as Hs
    by (vm_compute; repeat constructor).
  destruct (allowed_fast_spec mixing 10 80 4 4 200 1 (replicate 20 170) 1313 7 Hip Hpc Hs) as (set & E & _ & Hl & Hnd & _ & E').
  split; [by rewrite E, E' |]. exists set. split; [exact E |]. split; [exact Hl | exact Hnd].
Defined.
