(* ===== verification/PeerPool.v ===== *)
(** * The pool of peers to dial

    Models [src/src/session/peer_pool.rs]: the addresses known, the queue of
    those not yet dialed, the retries waiting out a delay and what is held
    against each peer.  A [Duration] and an [Instant] are numbers of
    nanoseconds; [None] of [next_to_dial] is the panic of [swap_remove]. *)

From S2P Require Import Prelude Net Queue.

Inductive Outcome : Type := Finished | Unreachable | Dropped | BadData | Local.

Record RetryPolicy : Type := mkRetryPolicy {
  after_drop : list Z;
  after_unreachable : list Z
}.

Definition with_base (base : Z) : RetryPolicy :=
  mkRetryPolicy [base; base * 3; base * 9] [base; base * 3].

Definition no_retries : RetryPolicy := mkRetryPolicy [] [].

(** [RetryPolicy::default()]: a base of 15 seconds. *)
Definition default_policy : RetryPolicy := with_base (15 * 10 ^ 9).

(** [Record] of the source. *)
Record PeerRecord : Type := mkPeerRecord {
  drops : nat;
  unreachable : nat;
  banned : bool
}.

Definition default_record : PeerRecord := mkPeerRecord 0 0 false.

Record PeerPool : Type := mkPeerPool {
  known : gset SocketAddr;
  reserve : list SocketAddr;
  retry : list (SocketAddr * Z);
  records : gmap SocketAddr PeerRecord;
  policy : RetryPolicy;
  allow_ipv6 : bool;
  skipped_ipv6 : nat
}.

Inductive Decision : Type :=
| NoRetry
| RetryIn (delay : Z)
| GiveUp
| Banned.

Definition with_policy (allow : bool) (p : RetryPolicy) : PeerPool := mkPeerPool ∅ [] [] ∅ p allow 0.

Definition new_pool (allow : bool) : PeerPool := with_policy allow default_policy.

(** One pass of the loop of [add]. *)
Definition add_one (st : PeerPool * nat) (addr : SocketAddr) : PeerPool * nat :=
  let '(p, fresh) := st in
  if port addr =? 0 then (p, fresh)
  else if is_ipv6 addr && negb (allow_ipv6 p) then
    (mkPeerPool (known p) (reserve p) (retry p) (records p) (policy p) (allow_ipv6 p) (S (skipped_ipv6 p)), fresh)
  else if bool_decide (addr ∈ known p) then (p, fresh)
  else
    (mkPeerPool ({[addr]} ∪ known p) (reserve p ++ [addr]) (retry p) (records p) (policy p) (allow_ipv6 p)
       (skipped_ipv6 p), S fresh).

Definition add (p : PeerPool) (addrs : list SocketAddr) : PeerPool * nat := foldl add_one (p, 0%nat) addrs.

Definition set_waiting (p : PeerPool) (res : list SocketAddr) (ret : list (SocketAddr * Z)) : PeerPool :=
  mkPeerPool (known p) res ret (records p) (policy p) (allow_ipv6 p) (skipped_ipv6 p).

Definition next_to_dial (p : PeerPool) (now : Z) : option (PeerPool * option SocketAddr) :=
  match reserve p with
  | addr :: rest => Some (set_waiting p rest (retry p), Some addr)
  | [] =>
      match list_find (fun e : SocketAddr * Z => e.2 <= now) (retry p) with
      | None => Some (p, None)
      | Some (due, _) =>
          '(e, rest) ← swap_remove (retry p) due;
          Some (set_waiting p (reserve p) rest, Some e.1)
      end
  end.

Definition record_of (p : PeerPool) (addr : SocketAddr) : PeerRecord := default default_record (records p !! addr).

Definition set_record (p : PeerPool) (addr : SocketAddr) (r : PeerRecord) (ret : list (SocketAddr * Z)) : PeerPool :=
  mkPeerPool (known p) (reserve p) ret (<[addr := r]> (records p)) (policy p) (allow_ipv6 p) (skipped_ipv6 p).

(** The retry a failure earns: [delays.get(failures - 1)]. *)
Definition schedule (p : PeerPool) (addr : SocketAddr) (r : PeerRecord) (failures : nat) (delays : list Z) (now : Z) :
    PeerPool * Decision :=
  match delays !! (failures - 1)%nat with
  | Some delay =>
      if negb (banned r) then (set_record p addr r (retry p ++ [(addr, now + delay)]), RetryIn delay)
      else (set_record p addr r (retry p), GiveUp)
  | None => (set_record p addr r (retry p), GiveUp)
  end.

Definition record_outcome (p : PeerPool) (addr : SocketAddr) (outcome : Outcome) (now : Z) : PeerPool * Decision :=
  let record := record_of p addr in
  match outcome with
  | Finished | Local => (set_record p addr record (retry p), NoRetry)
  | BadData =>
      (set_record p addr (mkPeerRecord (drops record) (unreachable record) true)
         (filter (fun e : SocketAddr * Z => e.1 <> addr) (retry p)), Banned)
  | Dropped =>
      let r := mkPeerRecord (S (drops record)) (unreachable record) (banned record) in
      schedule p addr r (drops r) (after_drop (policy p)) now
  | Unreachable =>
      let r := mkPeerRecord (drops record) (S (unreachable record)) (banned record) in
      schedule p addr r (unreachable r) (after_unreachable (policy p)) now
  end.

Definition reserve_is_empty (p : PeerPool) : bool :=
  bool_decide (reserve p = []) && bool_decide (retry p = []).

Definition is_banned (p : PeerPool) (addr : SocketAddr) : bool :=
  match records p !! addr with Some r => banned r | None => false end.

Definition banned_count (p : PeerPool) : nat :=
  length (filter (fun e : SocketAddr * PeerRecord => banned e.2 = true) (map_to_list (records p))).

Definition known_count (p : PeerPool) : nat := size (known p).

(** [known.len() - reserve.len()]; [None] where it would go below zero. *)
Definition dialed (p : PeerPool) : option nat :=
  if (length (reserve p) <=? size (known p))%nat then Some (size (known p) - length (reserve p))%nat else None.

Definition known_addresses (p : PeerPool) : list SocketAddr :=
  filter (fun a => is_banned p a = false) (elements (known p)).

(** ** What a session does with the pool

    The pool, and the addresses dialed so far: outcomes are of connections
    that were dialed. *)

Definition PoolState : Type := PeerPool * list SocketAddr.

Inductive pool_step : PoolState -> PoolState -> Prop :=
| step_add p d addrs : pool_step (p, d) ((add p addrs).1, d)
| step_dial p d now p' r :
    next_to_dial p now = Some (p', r) -> pool_step (p, d) (p', match r with Some a => d ++ [a] | None => d end)
| step_ended p d a outcome now : a ∈ d -> pool_step (p, d) ((record_outcome p a outcome now).1, d).

Definition pool_reachable (allow : bool) (pol : RetryPolicy) : PoolState -> Prop :=
  rtc pool_step (with_policy allow pol, []).

Definition occurs (a : SocketAddr) (l : list SocketAddr) : nat := length (filter (fun b => b = a) l).

(** Retries the policy has granted a peer so far. *)
Definition granted (p : PeerPool) (a : SocketAddr) : nat :=
  let r := record_of p a in
  (Nat.min (drops r) (length (after_drop (policy p))) + Nat.min (unreachable r) (length (after_unreachable (policy p))))%nat.

(** A first dial for each address known, a further one for each retry granted. *)
Definition within_grants (p : PeerPool) (d : list SocketAddr) (a : SocketAddr) : Prop :=
  (occurs a d + occurs a (reserve p) + occurs a (retry p).*1 <=
   (if bool_decide (a ∈ known p) then 1 else 0) + granted p a)%nat.

Record pool_inv (st : PoolState) : Prop := {
  inv_reserve : NoDup (reserve st.1);
  inv_known : forall a, a ∈ reserve st.1 -> a ∈ known st.1 /\ a ∉ st.2;
  inv_dialed : forall a, a ∈ st.2 -> a ∈ known st.1;
  inv_retry : forall a, a ∈ (retry st.1).*1 -> a ∈ st.2 /\ is_banned st.1 a = false;
  inv_known_ok : forall a, a ∈ known st.1 -> port a <> 0 /\ (is_ipv6 a = true -> allow_ipv6 st.1 = true);
  inv_bound : forall a, within_grants st.1 st.2 a
}.

Lemma occurs_app a l k : occurs a (l ++ k) = (occurs a l + occurs a k)%nat.
Proof. unfold occurs. by rewrite filter_app, length_app. Qed.

Lemma occurs_cons a b l : occurs a (b :: l) = ((if decide (b = a) then 1 else 0) + occurs a l)%nat.
Proof. unfold occurs. rewrite filter_cons. by destruct (decide (b = a)). Qed.

Lemma occurs_notin a l : a ∉ l -> occurs a l = 0%nat.
Proof.
  intros Hn. unfold occurs. apply length_zero_iff_nil. apply elem_of_nil_inv.
  by intros b [-> Hb]%list_elem_of_filter.
Qed.

#[export] Instance occurs_perm a : Proper ((≡ₚ) ==> (=)) (occurs a).
Proof. intros l k H. unfold occurs. by rewrite H. Qed.

Lemma occurs_filter a (P : SocketAddr * Z -> Prop) `{forall x, base.Decision (P x)} l :
  (occurs a (filter P l).*1 <= occurs a l.*1)%nat.
Proof.
  induction l as [| e l IH]; [done |]. rewrite filter_cons. destruct (decide (P e));
    rewrite ?fmap_cons, ?occurs_cons; lia.
Qed.

(** What [add_one] does to an address it takes. *)
Lemma add_one_inv p d n addr : pool_inv (p, d) -> pool_inv ((add_one (p, n) addr).1, d).
Proof.
  intros Hinv. unfold add_one. destruct (Z.eqb_spec (port addr) 0) as [| Hport]; [done |].
  destruct (is_ipv6 addr && negb (allow_ipv6 p)) eqn:E6; [destruct Hinv; by split |].
  case_bool_decide as Hk; [done |]. destruct Hinv as [H1 H2 H3 H4 H5 H6]. cbn [fst snd] in *. split; cbn [fst snd].
  - simpl. apply NoDup_app. split_and!; [done | | apply NoDup_singleton].
    intros a Ha ->%list_elem_of_singleton. by apply Hk, H2.
  - simpl. intros a [Ha | ->%list_elem_of_singleton]%elem_of_app.
    + destruct (H2 a Ha). split; [set_solver | done].
    + split; [set_solver |]. intros Hd. by apply Hk, H3.
  - simpl. set_solver.
  - done.
  - simpl. intros a [->%elem_of_singleton | Ha]%elem_of_union; [| auto]. split; [done |].
    intros H6'. rewrite H6' in E6. by destruct (allow_ipv6 p).
  - intros a. specialize (H6 a). unfold within_grants in *. simpl. rewrite occurs_app, occurs_cons.
    change (occurs a []) with 0%nat. fold (granted p a). unfold granted, record_of in *. simpl.
    destruct (decide (addr = a)) as [<- | Hne].
    + rewrite (bool_decide_false _ Hk) in H6. rewrite (bool_decide_true (addr ∈ {[addr]} ∪ known p)) by set_solver. lia.
    + rewrite (bool_decide_ext (a ∈ {[addr]} ∪ known p) (a ∈ known p)) by set_solver. lia.
Qed.

Lemma add_inv p d addrs : pool_inv (p, d) -> pool_inv ((add p addrs).1, d).
Proof.
  unfold add. generalize 0%nat. revert p. induction addrs as [| a addrs IH]; intros p n Hinv; [done |].
  cbn [foldl]. destruct (add_one (p, n) a) as [p' n'] eqn:E. apply IH.
  pose proof (add_one_inv p d n a Hinv) as H. by rewrite E in H.
Qed.

Lemma next_to_dial_cases p now :
  (exists a rest, reserve p = a :: rest /\ next_to_dial p now = Some (set_waiting p rest (retry p), Some a)) \/
  (exists a t rest, reserve p = [] /\ t <= now /\ retry p ≡ₚ (a, t) :: rest /\
     next_to_dial p now = Some (set_waiting p [] rest, Some a)) \/
  (reserve p = [] /\ Forall (fun e => now < e.2) (retry p) /\ next_to_dial p now = Some (p, None)).
Proof.
  unfold next_to_dial. destruct (reserve p) as [| a rest] eqn:Er; [right | left; by exists a, rest].
  destruct (list_find _ (retry p)) as [[due e] |] eqn:Ef.
  - left. apply list_find_Some in Ef as (Hlook & Hdue & _). destruct e as [a t].
    destruct (swap_remove_perm _ _ _ Hlook) as (rest & -> & Hperm). by exists a, t, rest.
  - right. split_and!; try done. apply list_find_None in Ef. apply (Forall_impl _ _ _ Ef). intros [a t]. simpl. lia.
Qed.

Lemma dial_inv p d now p' r :
  pool_inv (p, d) -> next_to_dial p now = Some (p', r) ->
  pool_inv (p', match r with Some a => d ++ [a] | None => d end).
Proof.
  intros Hinv Hdial. pose proof Hinv as [H1 H2 H3 H4 H5 H6]. cbn [fst snd] in *.
  destruct (next_to_dial_cases p now) as
    [(a & rest & Er & E) | [(a & t & rest & Er & _ & Hperm & E) | (_ & _ & E)]]; rewrite Hdial in E; simplify_eq; [| | done].
  - rewrite Er in *. apply NoDup_cons in H1 as [Hnot H1]. split; cbn [fst snd set_waiting reserve known retry]; try done.
    + intros b Hb. destruct (H2 b ltac:(by right)) as [? ?]. split; [done |]. set_solver.
    + intros b [Hb | ->%list_elem_of_singleton]%elem_of_app; [auto | apply H2; left].
    + intros b Hb. destruct (H4 b Hb). split; [set_solver | done].
    + intros b. specialize (H6 b). unfold within_grants, granted, record_of in *. simpl. rewrite Er in H6.
      rewrite occurs_app, !occurs_cons in *. change (occurs b []) with 0%nat. destruct (decide (a = b)); lia.
  - assert (forall b, b ∈ (retry p).*1 <-> b = a \/ b ∈ rest.*1) as Hmem.
    { intros b. rewrite Hperm, fmap_cons. apply elem_of_cons. }
    split; cbn [fst snd set_waiting reserve known retry]; try done; [constructor | set_solver | | |].
    + intros b [Hb | ->%list_elem_of_singleton]%elem_of_app; [auto |]. apply H3, H4, Hmem. by left.
    + intros b Hb. destruct (H4 b) as [? ?]; [apply Hmem; by right |]. split; [set_solver | done].
    + intros b. specialize (H6 b). unfold within_grants, granted, record_of in *. simpl. rewrite Er in H6.
      rewrite Hperm, fmap_cons in H6. rewrite occurs_app, !occurs_cons in *. simpl in *.
      change (occurs b []) with 0%nat in *. destruct (decide (a = b)); lia.
Qed.

(** A new record for a dialed peer, with the retries it leaves. *)
Lemma set_record_inv p d addr r ret :
  pool_inv (p, d) -> addr ∈ d ->
  (forall a, a ∈ ret.*1 -> (a <> addr /\ a ∈ (retry p).*1) \/ (a = addr /\ banned r = false)) ->
  (forall a, a <> addr -> (occurs a ret.*1 <= occurs a (retry p).*1)%nat) ->
  (occurs addr d + occurs addr (reserve p) + occurs addr ret.*1 <=
     (if bool_decide (addr ∈ known p) then 1 else 0) +
     (Nat.min (drops r) (length (after_drop (policy p))) + Nat.min (unreachable r) (length (after_unreachable (policy p)))))%nat ->
  pool_inv (set_record p addr r ret, d).
Proof.
  intros [H1 H2 H3 H4 H5 H6] Hd Hret Hocc Hb. cbn [fst snd] in *.
  split; cbn [fst snd set_record reserve known retry allow_ipv6]; try done.
  - intros a Ha. unfold is_banned. simpl. destruct (Hret a Ha) as [[Hne Hin] | [-> Hban]].
    + destruct (H4 a Hin). split; [done |]. by rewrite lookup_insert_ne.
    + split; [done |]. by rewrite lookup_insert_eq.
  - intros a. unfold within_grants, granted, record_of. simpl. destruct (decide (addr = a)) as [<- | Hne].
    + rewrite lookup_insert_eq. exact Hb.
    + rewrite lookup_insert_ne by done. specialize (H6 a). specialize (Hocc a ltac:(done)).
      unfold within_grants, granted, record_of in H6. lia.
Qed.

Lemma schedule_inv p d addr r failures delays now :
  pool_inv (p, d) -> addr ∈ d -> banned r = banned (record_of p addr) ->
  (Nat.min (drops r) (length (after_drop (policy p))) + Nat.min (unreachable r) (length (after_unreachable (policy p))) =
   granted p addr + (if decide (failures - 1 < length delays) then 1 else 0))%nat ->
  pool_inv ((schedule p addr r failures delays now).1, d).
Proof.
  intros Hinv Hd Hban Hgrant. pose proof (inv_bound _ Hinv addr) as Hb. unfold within_grants in Hb. cbn [fst snd] in Hb.
  assert (forall a, a ∈ (retry p).*1 -> (a <> addr /\ a ∈ (retry p).*1) \/ (a = addr /\ banned r = false)) as Hkeep.
  { intros a Ha. destruct (decide (a = addr)) as [-> |]; [right | by left]. split; [done |]. rewrite Hban.
    destruct (inv_retry _ Hinv addr Ha) as [_ Hnb]. unfold is_banned in Hnb. cbn [fst snd] in Hnb.
    unfold record_of. by destruct (records p !! addr). }
  unfold schedule. destruct (delays !! (failures - 1)%nat) as [delay |] eqn:El.
  - destruct (banned r) eqn:Er; cbn [negb].
    + simpl. apply set_record_inv; try done; [by rewrite Er | lia].
    + simpl. apply lookup_lt_Some in El. rewrite decide_True in Hgrant by done. apply set_record_inv; try done.
      * intros a. rewrite fmap_app, Er. intros [Ha | ->%list_elem_of_singleton]%elem_of_app; [auto | by right].
      * intros a Hne. rewrite fmap_app, occurs_app. simpl. rewrite occurs_cons, decide_False by done.
        change (occurs a []) with 0%nat. lia.
      * rewrite fmap_app, occurs_app. simpl. rewrite occurs_cons, decide_True by done.
        change (occurs addr []) with 0%nat. lia.
  - simpl. by apply set_record_inv; try done; intros; lia.
Qed.

Lemma record_outcome_inv p d addr outcome now :
  pool_inv (p, d) -> addr ∈ d -> pool_inv ((record_outcome p addr outcome now).1, d).
Proof.
  intros Hinv Hd. pose proof (inv_bound _ Hinv addr) as Hb. unfold within_grants in Hb. cbn [fst snd] in Hb.
  assert (pool_inv (set_record p addr (record_of p addr) (retry p), d)) as Hsame.
  { apply set_record_inv; try done.
    intros a Ha. destruct (decide (a = addr)) as [-> |]; [right | by left]. split; [done |].
    destruct (inv_retry _ Hinv addr Ha) as [_ Hnb]. unfold is_banned in Hnb. cbn [fst snd] in Hnb.
    unfold record_of. by destruct (records p !! addr). }
  destruct outcome; cbn [record_outcome]; [done | | | | done].
  - apply schedule_inv; try done. unfold granted. cbn [drops unreachable]. destruct (decide _); lia.
  - apply schedule_inv; try done. unfold granted. cbn [drops unreachable]. destruct (decide _); lia.
  - simpl. apply set_record_inv; try done.
    + intros a (e & -> & [Hne He]%list_elem_of_filter)%list_elem_of_fmap. left. split; [done |]. by apply list_elem_of_fmap_2.
    + intros a _. apply occurs_filter.
    + simpl. pose proof (occurs_filter addr (fun e : SocketAddr * Z => e.1 <> addr) (retry p)).
      unfold granted in Hb. simpl in *. lia.
Qed.

Lemma pool_reachable_inv allow pol st : pool_reachable allow pol st -> pool_inv st.
Proof.
  intros Hr. unfold pool_reachable in Hr.
  assert (pool_inv (with_policy allow pol, [])) as Hinit.
  { split; simpl; try set_solver; [constructor |]. intros a. unfold within_grants. simpl.
    change (occurs a []) with 0%nat. lia. }
  induction Hr as [| s1 s2 s3 Hs _ IH]; [done |]. apply IH. destruct Hs as [p d addrs | p d now p' r Hd | p d a o now Ha].
  - by apply add_inv.
  - by eapply dial_inv.
  - by apply record_outcome_inv.
Qed.

Lemma schedule_policy p addr r failures delays now : policy (schedule p addr r failures delays now).1 = policy p.
Proof. unfold schedule. destruct (delays !! _); [by destruct (negb _) | done]. Qed.

Lemma pool_step_policy st st' : pool_step st st' -> policy st'.1 = policy st.1 /\ allow_ipv6 st'.1 = allow_ipv6 st.1.
Proof.
  assert (forall addrs p n, policy (foldl add_one (p, n) addrs).1 = policy p /\
            allow_ipv6 (foldl add_one (p, n) addrs).1 = allow_ipv6 p) as Hadd.
  { induction addrs as [| a addrs IH]; intros p n; [done |]. cbn [foldl].
    destruct (add_one (p, n) a) as [p' n'] eqn:E. rewrite !(proj1 (IH p' n')), !(proj2 (IH p' n')).
    unfold add_one in E. repeat case_match; by simplify_eq. }
  destruct 1 as [p d addrs | p d now p' r Hd | p d a o now Ha]; cbn [fst snd].
  - apply Hadd.
  - destruct (next_to_dial_cases p now) as
      [(a & rest & _ & E) | [(a & t & rest & _ & _ & _ & E) | (_ & _ & E)]]; rewrite Hd in E; by simplify_eq.
  - destruct o; cbn [record_outcome]; try done; split; try apply schedule_policy;
      unfold schedule; destruct (_ !! _); try destruct (negb _); done.
Qed.

Lemma pool_reachable_policy allow pol st : pool_reachable allow pol st -> policy st.1 = pol /\ allow_ipv6 st.1 = allow.
Proof.
  intros Hr. unfold pool_reachable in Hr.
  assert (forall s1 s2 : PoolState, rtc pool_step s1 s2 -> policy s2.1 = policy s1.1 /\ allow_ipv6 s2.1 = allow_ipv6 s1.1) as Hk.
  { induction 1 as [| s1 s2 s3 Hs _ [IH1 IH2]]; [done |]. apply pool_step_policy in Hs as [E1 E2].
    by rewrite IH1, IH2, E1, E2. }
  by apply Hk in Hr.
Qed.

(** A banned peer, once dialed, is not waiting anywhere, and stays banned. *)
Lemma banned_step st st' a :
  pool_inv st -> pool_step st st' -> a ∈ st.2 -> is_banned st.1 a = true ->
  is_banned st'.1 a = true /\ occurs a st'.2 = occurs a st.2 /\ a ∈ st'.2.
Proof.
  intros Hinv Hs Hd Hban.
  assert (forall (p : PeerPool) (addr : SocketAddr) r ret, is_banned p a = true -> (addr = a -> banned r = banned (record_of p addr)) ->
            is_banned (set_record p addr r ret) a = true) as Hset.
  { intros p addr r ret Hb Hr. unfold is_banned. simpl. destruct (decide (addr = a)) as [-> | Hne].
    - rewrite lookup_insert_eq, Hr by done. unfold record_of, is_banned in *. by destruct (records p !! a).
    - by rewrite lookup_insert_ne. }
  destruct Hs as [p d addrs | p d now p' r Hdial | p d addr o now Ha]; cbn [fst snd] in *.
  - split; [| done]. unfold add. generalize 0%nat. clear Hinv. revert p Hban.
    induction addrs as [| b addrs IH]; intros p Hban n; [done |]. cbn [foldl].
    destruct (add_one (p, n) b) as [p' n'] eqn:E. apply IH. unfold add_one in E. repeat case_match; by simplify_eq.
  - destruct (next_to_dial_cases p now) as
      [(b & rest & Er & E) | [(b & t & rest & Er & _ & Hperm & E) | (_ & _ & E)]]; rewrite Hdial in E; simplify_eq; [| | done].
    + assert (b <> a) as Hne.
      { intros ->. destruct (inv_known _ Hinv a) as [_ Hn]; [cbn [fst snd]; rewrite Er; left | by apply Hn]. }
      rewrite occurs_app, occurs_cons, decide_False by done. split_and!; [done | change (occurs a []) with 0%nat; lia | set_solver].
    + assert (b <> a) as Hne.
      { intros ->. destruct (inv_retry _ Hinv a) as [_ Hn]; [| cbn [fst snd] in Hn; congruence].
        cbn [fst snd]. rewrite Hperm. left. }
      rewrite occurs_app, occurs_cons, decide_False by done. split_and!; [done | change (occurs a []) with 0%nat; lia | set_solver].
  - split; [| done]. destruct o; cbn [record_outcome]; try (by apply Hset; [done | intros; simpl]).
    + unfold schedule. destruct (_ !! _); [destruct (negb _) |]; by apply Hset.
    + unfold schedule. destruct (_ !! _); [destruct (negb _) |]; by apply Hset.
    + simpl. unfold is_banned. simpl. destruct (decide (addr = a)) as [-> | Hne].
      * by rewrite lookup_insert_eq.
      * by rewrite lookup_insert_ne.
Qed.

(** ** Properties *)

(** How often a peer is dialed: whatever is discovered and however the
    connections end, in any order, a peer is dialed at most once, and once
    more for each retry its policy has; only addresses that were accepted (a
    port other than 0, no IPv6 where it is not allowed) are dialed; choosing
    whom to dial never panics, and a peer that was never dialed comes before
    any retry, which is only made when its delay has passed. *)
Theorem dials_bounded (allow : bool) (pol : RetryPolicy) (p : PeerPool) (d : list SocketAddr) (a : SocketAddr) (now : Z)
    (Hr : pool_reachable allow pol (p, d)) :
  (occurs a d <= 1 + length (after_drop pol) + length (after_unreachable pol))%nat /\
  (a ∈ d -> port a <> 0 /\ (is_ipv6 a = true -> allow = true)) /\
  ((exists b rest, reserve p = b :: rest /\ b ∉ d /\
      next_to_dial p now = Some (set_waiting p rest (retry p), Some b)) \/
   (exists b t rest, reserve p = [] /\ t <= now /\ retry p ≡ₚ (b, t) :: rest /\ is_banned p b = false /\
      next_to_dial p now = Some (set_waiting p [] rest, Some b)) \/
   (reserve p = [] /\ Forall (fun e => now < e.2) (retry p) /\ next_to_dial p now = Some (p, None))).
Proof.
  pose proof (pool_reachable_inv _ _ _ Hr) as Hinv. destruct (pool_reachable_policy _ _ _ Hr) as [Hpol Hall].
  cbn [fst snd] in *. split_and!.
  - pose proof (inv_bound _ Hinv a) as Hb. unfold within_grants, granted in Hb. cbn [fst snd] in Hb.
    rewrite Hpol in Hb. destruct (bool_decide _); lia.
  - intros Hd. pose proof (inv_known_ok _ Hinv a (inv_dialed _ Hinv a Hd)) as Hok. cbn [fst snd] in Hok. by rewrite Hall in Hok.
  - destruct (next_to_dial_cases p now) as
      [(b & rest & Er & E) | [(b & t & rest & Er & Ht & Hperm & E) | H]]; [left | right; left | by right; right].
    + exists b, rest. split_and!; try done. apply (inv_known _ Hinv b). cbn [fst]. rewrite Er. left.
    + exists b, t, rest. split_and!; try done. apply (inv_retry _ Hinv b). cbn [fst]. rewrite Hperm. left.
Qed.

Definition example_peer : SocketAddr := V4 [10; 0; 0; 1] 6881.

Lemma example_reachable :
  pool_reachable false default_policy
    (set_waiting (add (new_pool false) [example_peer]).1 [] [], [example_peer]).
Proof.
  unfold pool_reachable. eapply rtc_l; [apply (step_add _ _ [example_peer]) |].
  eapply rtc_l; [| apply rtc_refl].
  apply (step_dial (add (new_pool false) [example_peer]).1 [] 0 _ (Some example_peer)). reflexivity.
Qed.

Lemma dials_bounded_witness : (occurs example_peer [example_peer] <= 6)%nat.
Proof.
  exact (proj1 (dials_bounded false default_policy _ [example_peer] example_peer 0 example_reachable)).
Defined.

(** A ban is for the session: from the moment a peer it dialed is recorded
    as having sent bad data, whatever happens after, the peer stays banned and
    is never dialed again. *)
Theorem ban_is_final (allow : bool) (pol : RetryPolicy) (p p' : PeerPool) (d d' : list SocketAddr) (a : SocketAddr) (now : Z)
    (Hr : pool_reachable allow pol (p, d)) (Ha : a ∈ d)
    (Hs : rtc pool_step ((record_outcome p a BadData now).1, d) (p', d')) :
  is_banned p' a = true /\ occurs a d' = occurs a d /\ a ∉ known_addresses p'.
Proof.
  assert (is_banned p' a = true /\ occurs a d' = occurs a d) as [H1 H2].
  { pose proof (pool_reachable_inv _ _ _ Hr) as Hinv.
    pose proof (record_outcome_inv p d a BadData now Hinv Ha) as Hinv1.
    assert (is_banned (record_outcome p a BadData now).1 a = true) as Hban.
    { unfold is_banned. simpl. by rewrite lookup_insert_eq. }
    assert (forall s1 s2 : PoolState, rtc pool_step s1 s2 -> pool_inv s1 -> a ∈ s1.2 -> is_banned s1.1 a = true ->
      is_banned s2.1 a = true /\ occurs a s2.2 = occurs a s1.2) as Hrun.
    { induction 1 as [| s1 s2 s3 Hstep _ IH]; [done |]. intros Hi1 Hd1 Hb1.
      destruct (banned_step s1 s2 a Hi1 Hstep Hd1 Hb1) as (Hb2 & Ho & Hd2).
      rewrite <- Ho. apply IH; try done. destruct Hstep as [q e addrs | q e t q' r Hd | q e b o t Hb].
      - by apply add_inv.
      - by eapply dial_inv.
      - by apply record_outcome_inv. }
    by apply (Hrun _ _ Hs). }
  split_and!; try done. unfold known_addresses. rewrite list_elem_of_filter. intros [Hn _]. congruence.
Qed.

Lemma ban_is_final_witness :
  is_banned (record_outcome (set_waiting (add (new_pool false) [example_peer]).1 [] []) example_peer BadData 5).1 example_peer = true.
Proof.
  refine (proj1 (ban_is_final false default_policy _ _ [example_peer] [example_peer] example_peer 5 example_reachable _ _)).
  - left.
  - apply rtc_refl.
Defined.
