(* ===== verification/FileWriter.v ===== *)
(** * Pieces on disk

    Models [src/src/downloader/file_writer.rs]: the table of spans that maps a
    torrent's byte space onto its files, and the reads and writes that go
    through it.  The file system is a map from paths to contents; writing
    creates a file, a write past its end fills the gap with zeros, reading a
    file that is missing or too short fails.  Directories, permissions and a
    full disk are not modelled. *)

From S2P Require Import Prelude Io.

(** A path, as bytes; [Path::join] puts an absolute part in place of the base. *)
Abbreviation Path := (list Z).

Definition slash : Z := 47.

Definition join (base part : Path) : Path :=
  match part with
  | c :: _ =>
      if c =? slash then part
      else match last base with
           | None => part
           | Some l => if l =? slash then base ++ part else base ++ slash :: part
           end
  | [] => match last base with
          | None => []
          | Some l => if l =? slash then base else base ++ [slash]
          end
  end.

Record FileSpan : Type := mkFileSpan {
  path : Path;
  start : Z;
  end_ : Z;
  padding : bool
}.

(** Additions wrap at [u64], as the release build's do. *)
Fixpoint spans_padded (base_dir : Path) (files : list (list Path * Z)) (pads : list bool) (index : nat) (cursor : Z) :
    list FileSpan :=
  match files with
  | [] => []
  | (path_parts, length) :: files' =>
      let p := fold_left join path_parts base_dir in
      let len := wrap 64 length in
      mkFileSpan p cursor (wrap 64 (cursor + len)) (default false (pads !! index)) ::
      spans_padded base_dir files' pads (S index) (wrap 64 (cursor + len))
  end.

Definition build_file_spans_padded (base_dir : Path) (files : list (list Path * Z)) (pads : list bool) : list FileSpan :=
  spans_padded base_dir files pads 0 0.

Definition build_file_spans (base_dir : Path) (files : list (list Path * Z)) : list FileSpan :=
  build_file_spans_padded base_dir files [].

(** [u64::next_multiple_of]. *)
Definition next_multiple_of (x m : Z) : Z := wrap 64 (div_ceil x m * m).

Fixpoint spans_aligned (base_dir : Path) (files : list (list Path * Z)) (piece_length cursor : Z) : list FileSpan :=
  match files with
  | [] => []
  | (path_parts, length) :: files' =>
      let p := fold_left join path_parts base_dir in
      let len := wrap 64 length in
      mkFileSpan p cursor (wrap 64 (cursor + len)) false ::
      spans_aligned base_dir files' piece_length (next_multiple_of (wrap 64 (cursor + len)) (Z.max piece_length 1))
  end.

Definition build_file_spans_aligned (base_dir : Path) (files : list (list Path * Z)) (piece_length : Z) : list FileSpan :=
  spans_aligned base_dir files piece_length 0.

(** [spans.partition_point(|s| s.end <= offset)]. *)
Fixpoint partition_point (spans : list FileSpan) (offset : Z) : nat :=
  match spans with
  | s :: spans' => if end_ s <=? offset then S (partition_point spans' offset) else O
  | [] => O
  end.

Definition span_at (spans : list FileSpan) (offset : Z) : option FileSpan :=
  match spans !! partition_point spans offset with
  | Some s => if start s <=? offset then Some s else None
  | None => None
  end.

(** ** The file system *)

Abbreviation Fs := (gmap (list Z) (list Z)).

(** [open(create, write, no truncate); seek(at); write_all(data)]. *)
Definition write_file (content : list Z) (at_ : Z) (data : list Z) : list Z :=
  splice (resize (Z.to_nat (Z.max (zlen content) (at_ + zlen data))) 0 content) at_ data.

(** [open; seek(at); read_exact(len bytes)]. *)
Definition read_file (fs : Fs) (p : Path) (at_ len : Z) : result (list Z) ErrorKind :=
  match fs !! p with
  | None => Err NotFound
  | Some content =>
      if zlen content <? at_ + len then Err UnexpectedEof else Ok (slice content at_ (at_ + len))
  end.

(** The loop of [write_at_global_offset]: each pass writes at least a byte, so
    the length of the data bounds the passes.  What was written before an
    error stays written. *)
Fixpoint write_loop (fuel : nat) (spans : list FileSpan) (fs : Fs) (offset : Z) (remaining : list Z) :
    option (Fs * result unit ErrorKind) :=
  match remaining with
  | [] => Some (fs, Ok ())
  | _ =>
      match fuel with
      | O => None
      | S fuel' =>
          match span_at spans offset with
          | None => Some (fs, Err InvalidInput)
          | Some span =>
              let file_offset := offset - start span in
              let available_in_file := end_ span - offset in
              let chunk_len := Z.min (zlen remaining) available_in_file in
              let chunk := take (Z.to_nat chunk_len) remaining in
              let fs' :=
                if padding span then fs
                else <[path span := write_file (default [] (fs !! path span)) file_offset chunk]> fs in
              write_loop fuel' spans fs' (offset + chunk_len) (drop (Z.to_nat chunk_len) remaining)
          end
      end
  end.

Definition write_at_global_offset (spans : list FileSpan) (fs : Fs) (global_offset : Z) (data : list Z) :
    option (Fs * result unit ErrorKind) :=
  write_loop (length data) spans fs global_offset data.

Definition write_piece (spans : list FileSpan) (fs : Fs) (piece_index piece_length : Z) (data : list Z) :
    option (Fs * result unit ErrorKind) :=
  write_at_global_offset spans fs (wrap 64 (piece_index * piece_length)) data.

(** The loop of [read_at_global_offset]. *)
Fixpoint read_loop (fuel : nat) (spans : list FileSpan) (fs : Fs) (offset remaining : Z) (out : list Z) :
    option (result (list Z) ErrorKind) :=
  if remaining <=? 0 then Some (Ok out)
  else
    match fuel with
    | O => None
    | S fuel' =>
        match span_at spans offset with
        | None => Some (Err InvalidInput)
        | Some span =>
            let file_offset := offset - start span in
            let available_in_file := end_ span - offset in
            let chunk_len := Z.min remaining available_in_file in
            if padding span then
              read_loop fuel' spans fs (offset + chunk_len) (remaining - chunk_len) (out ++ replicate (Z.to_nat chunk_len) 0)
            else
              match read_file fs (path span) file_offset chunk_len with
              | Err e => Some (Err e)
              | Ok chunk => read_loop fuel' spans fs (offset + chunk_len) (remaining - chunk_len) (out ++ chunk)
              end
        end
    end.

Definition read_at_global_offset (spans : list FileSpan) (fs : Fs) (global_offset len : Z) :
    option (result (list Z) ErrorKind) :=
  read_loop (Z.to_nat len) spans fs global_offset len [].

Definition read_block (spans : list FileSpan) (fs : Fs) (piece_index piece_length begin length : Z) :
    option (result (list Z) ErrorKind) :=
  read_at_global_offset spans fs (wrap 64 (piece_index * piece_length + begin)) length.

(** [create_empty_files]: the files, and how many were created. *)
Fixpoint create_empty_from (spans : list FileSpan) (wanted : nat -> bool) (index : nat) (st : Fs * nat) : Fs * nat :=
  match spans with
  | [] => st
  | span :: spans' =>
      let '(fs, created) := st in
      let st' :=
        if padding span || negb (start span =? end_ span) || negb (wanted index) || bool_decide (is_Some (fs !! path span))
        then st else (<[path span := []]> fs, S created) in
      create_empty_from spans' wanted (S index) st'
  end.

Definition create_empty_files (spans : list FileSpan) (wanted : nat -> bool) (fs : Fs) : Fs * nat :=
  create_empty_from spans wanted 0 (fs, 0%nat).

(** ** Spans in order *)

Fixpoint ordered (lo : Z) (spans : list FileSpan) : Prop :=
  match spans with
  | [] => True
  | s :: spans' => lo <= start s <= end_ s /\ ordered (end_ s) spans'
  end.

Definition covers (s : FileSpan) (offset : Z) : Prop := start s <= offset < end_ s.

Lemma ordered_weaken lo lo' spans : lo' <= lo -> ordered lo spans -> ordered lo' spans.
Proof. destruct spans as [| s spans]; simpl; [done |]. intros ? [? ?]. split; [lia | done]. Qed.

Lemma ordered_after lo spans s : ordered lo spans -> s ∈ spans -> lo <= start s /\ start s <= end_ s.
Proof.
  revert lo. induction spans as [| t spans IH]; intros lo; [set_solver |]. simpl.
  intros [Ht Hrest] [-> | Hs]%elem_of_cons; [lia |]. specialize (IH _ Hrest Hs). lia.
Qed.

Lemma span_at_cons s spans offset :
  span_at (s :: spans) offset =
    if end_ s <=? offset then span_at spans offset else if start s <=? offset then Some s else None.
Proof. unfold span_at. simpl. by destruct (end_ s <=? offset). Qed.

Lemma span_at_after spans offset s : span_at spans offset = Some s -> offset < end_ s.
Proof.
  induction spans as [| t spans IH]; [done |]. rewrite span_at_cons.
  destruct (Z.leb_spec (end_ t) offset); [done |]. destruct (_ <=? _); [by intros [= <-] | done].
Qed.

(** Every pass of the loops takes a byte or more: they end. *)
Lemma read_loop_total fuel spans fs offset rem out : rem <= Z.of_nat fuel -> is_Some (read_loop fuel spans fs offset rem out).
Proof.
  revert offset rem out. induction fuel as [| fuel IH]; intros offset rem out Hf; cbn [read_loop];
    (destruct (Z.leb_spec rem 0); [eauto |]); [lia |].
  destruct (span_at spans offset) as [s |] eqn:E; [| eauto]. apply span_at_after in E.
  destruct (padding s); [apply IH; lia |]. destruct (read_file _ _ _ _); [apply IH; lia | eauto].
Qed.

Lemma write_loop_total fuel spans fs offset data : (length data <= fuel)%nat -> is_Some (write_loop fuel spans fs offset data).
Proof.
  revert fs offset data. induction fuel as [| fuel IH]; intros fs offset data Hf; destruct data as [| x data]; cbn [write_loop]; [eauto | cbn in Hf; lia | eauto |].
  destruct (span_at spans offset) as [s |] eqn:E; [| eauto]. apply span_at_after in E.
  apply IH. rewrite length_drop. unfold zlen. cbn [length] in *. lia.
Qed.

(** The binary search finds the span that holds the byte, if there is one. *)
Lemma span_at_iff lo spans offset s :
  ordered lo spans -> span_at spans offset = Some s <-> s ∈ spans /\ covers s offset.
Proof.
  revert lo. induction spans as [| t spans IH]; intros lo; [cbn; set_solver |].
  intros [Ht Hrest]. rewrite span_at_cons, elem_of_cons. unfold covers in *.
  destruct (Z.leb_spec (end_ t) offset) as [He | He].
  - rewrite (IH _ Hrest). split; [tauto |]. intros [[-> | Hs] Hc]; [lia | done].
  - destruct (Z.leb_spec (start t) offset) as [Hst | Hst].
    + split; [intros [= <-]; split; [by left | lia] |]. intros [[-> | Hs] Hc]; [done |].
      pose proof (ordered_after _ _ _ Hrest Hs). lia.
    + split; [done |]. intros [[-> | Hs] Hc]; [lia |]. pose proof (ordered_after _ _ _ Hrest Hs). lia.
Qed.

(** What the files of a torrent add up to. *)
Definition total_length (files : list (list Path * Z)) : Z := foldr (fun f acc => snd f + acc) 0 files.

Lemma total_length_nonneg files : Forall (fun f => 0 <= snd f) files -> 0 <= total_length files.
Proof. induction 1; simpl; lia. Qed.

Lemma spans_padded_ordered base files pads index cursor :
  Forall (fun f => 0 <= snd f) files -> 0 <= cursor -> cursor + total_length files < 2 ^ 64 ->
  ordered cursor (spans_padded base files pads index cursor) /\
  (forall offset, cursor <= offset < cursor + total_length files ->
     exists s, s ∈ spans_padded base files pads index cursor /\ covers s offset).
Proof.
  intros Hf. revert index cursor. induction Hf as [| [parts len] files Hl Hf IH]; intros index cursor Hc Hfit.
  { simpl in *. split; [done | lia]. }
  pose proof (total_length_nonneg files Hf). simpl in Hl, Hfit. cbn [spans_padded total_length foldr snd].
  fold (total_length files).
  assert (wrap 64 len = len) as -> by (apply Z.mod_small; lia).
  assert (wrap 64 (cursor + len) = cursor + len) as -> by (apply Z.mod_small; lia).
  destruct (IH (S index) (cursor + len)) as [IH1 IH2]; [lia | lia |].
  split; [split; [simpl; lia | exact IH1] |].
  intros offset Ho. destruct (decide (offset < cursor + len)).
  - eexists. split; [left |]. unfold covers. simpl. lia.
  - destruct (IH2 offset) as (s & Hs & Hcov); [lia |]. exists s. split; [by right | done].
Qed.

Lemma next_multiple_ge x m : 0 <= x -> 0 < m -> x + m <= 2 ^ 64 -> x <= next_multiple_of x m.
Proof.
  intros Hx Hm Hfit. unfold next_multiple_of, div_ceil, wrap.
  pose proof (Z.div_mod (x + m - 1) m). pose proof (Z.mod_pos_bound (x + m - 1) m).
  rewrite Z.mod_small; nia.
Qed.

(** The end of the aligned layout: every file starts at a multiple of the piece
    length. *)
Definition aligned_length (files : list (list Path * Z)) (m : Z) : Z :=
  foldr (fun f acc => snd f + m + acc) 0 files.

Lemma spans_aligned_ordered base files m cursor :
  Forall (fun f => 0 <= snd f) files -> 0 <= cursor -> cursor mod Z.max m 1 = 0 ->
  cursor + aligned_length files (Z.max m 1) < 2 ^ 64 ->
  ordered cursor (spans_aligned base files m cursor) /\
  Forall (fun s => start s mod Z.max m 1 = 0) (spans_aligned base files m cursor).
Proof.
  intros Hf. revert cursor. set (k := Z.max m 1). assert (0 < k) by lia.
  assert (forall fs, Forall (fun f : list Path * Z => 0 <= snd f) fs -> 0 <= aligned_length fs k) as Hnn.
  { induction 1; simpl; lia. }
  induction Hf as [| [parts len] files Hl Hf IH]; intros cursor Hc Hmod Hfit; [done |].
  pose proof (Hnn _ Hf). simpl in Hl, Hfit. cbn [spans_aligned]. fold k.
  assert (wrap 64 len = len) as -> by (apply Z.mod_small; lia).
  assert (wrap 64 (cursor + len) = cursor + len) as -> by (apply Z.mod_small; lia).
  pose proof (next_multiple_ge (cursor + len) k ltac:(lia) ltac:(lia) ltac:(lia)) as Hge.
  assert (next_multiple_of (cursor + len) k < cursor + len + k /\ next_multiple_of (cursor + len) k mod k = 0) as [Hlt Hm].
  { unfold next_multiple_of, div_ceil, wrap in *.
    pose proof (Z.div_mod (cursor + len + k - 1) k). pose proof (Z.mod_pos_bound (cursor + len + k - 1) k).
    rewrite (Z.mod_small _ (2 ^ 64)) by nia. split; [nia | by apply Z.mod_mul; lia]. }
  destruct (IH (next_multiple_of (cursor + len) k)) as [IH1 IH2]; [lia | done | lia |].
  split; [split; [simpl; lia | simpl; by eapply ordered_weaken] |]. by constructor.
Qed.

(** ** Bytes through the table *)

Section Table.
Context (spans : list FileSpan) (lo : Z).
Context (Hord : ordered lo spans).
(** Two spans on disk never share a file. *)
Context (Hpaths : forall s t, s ∈ spans -> t ∈ spans -> padding s = false -> padding t = false ->
  path s = path t -> s = t).

(** The byte of the torrent at [offset], as the files have it. *)
Definition byte_at (fs : Fs) (offset : Z) : option Z :=
  s ← span_at spans offset;
  if padding s then Some 0 else content ← fs !! path s; zget content (offset - start s).

Definition is_padding (offset : Z) : bool :=
  match span_at spans offset with Some s => padding s | None => false end.

Lemma zget_write_file content at_ data i :
  0 <= at_ -> 0 <= i ->
  zget (write_file content at_ data) i =
    if (at_ <=? i) && (i <? at_ + zlen data) then zget data (i - at_)
    else if i <? zlen content then zget content i
    else if i <? at_ then Some 0 else None.
Proof.
  intros Ha Hi. unfold write_file. set (n := Z.to_nat (Z.max (zlen content) (at_ + zlen data))).
  pose proof (zlen_nonneg content). pose proof (zlen_nonneg data).
  assert (zlen (resize n 0 content) = Z.of_nat n) as Hn by (unfold zlen; by rewrite length_resize).
  rewrite zget_splice by lia. destruct ((at_ <=? i) && (i <? at_ + zlen data)) eqn:Ein; [done |].
  rewrite (zget_nat (resize n 0 content)) by lia.
  destruct (Z.ltb_spec i (zlen content)).
  - rewrite lookup_resize by (unfold zlen in *; lia). by rewrite zget_nat by lia.
  - destruct (Z.ltb_spec i at_).
    + rewrite lookup_resize_new by (unfold zlen in *; lia). done.
    + apply lookup_resize_old. bool_to_prop. destruct Ein; bool_to_prop; lia.
Qed.

(** One chunk written inside a span. *)
Lemma byte_at_chunk fs s offset chunk g :
  s ∈ spans -> padding s = false -> covers s offset -> offset + zlen chunk <= end_ s -> 0 <= offset -> 0 <= g ->
  let fs' := <[path s := write_file (default [] (fs !! path s)) (offset - start s) chunk]> fs in
  (offset <= g < offset + zlen chunk -> byte_at fs' g = zget chunk (g - offset)) /\
  (~ (offset <= g < offset + zlen chunk) -> forall x, byte_at fs g = Some x -> byte_at fs' g = Some x).
Proof.
  intros Hs Hp Hc Hend Ho Hg fs'. unfold covers in Hc. split.
  - intros Hin. unfold byte_at. rewrite (proj2 (span_at_iff lo spans g s Hord)) by (split; [done | unfold covers; lia]).
    simpl. rewrite Hp. unfold fs'. rewrite lookup_insert_eq. simpl. rewrite zget_write_file by lia.
    rewrite (proj2 (Z.leb_le _ _)), (proj2 (Z.ltb_lt _ _)) by lia. simpl. f_equal. lia.
  - intros Hout x. unfold byte_at. destruct (span_at spans g) as [t |] eqn:Et; [| done]. simpl.
    apply (span_at_iff lo) in Et as [Ht Hct]; [| done]. destruct (padding t) eqn:Hpt; [done |]. unfold fs', covers in *.
    destruct (decide (path s = path t)) as [Heq | Hne]; [| by rewrite lookup_insert_ne].
    assert (s = t) as <- by (by apply Hpaths). rewrite lookup_insert_eq. simpl.
    destruct (fs !! path s) as [content |] eqn:Ef; [| done]. simpl. intros Hx. rewrite zget_write_file by lia.
    destruct ((offset - start s <=? g - start s) && (g - start s <? offset - start s + zlen chunk)) eqn:Ein.
    { bool_to_prop. lia. }
    pose proof (zget_Some _ _ _ Hx) as [Hlen _]. by rewrite (proj2 (Z.ltb_lt _ _)) by lia.
Qed.

Lemma write_loop_spec fuel fs offset rem :
  0 <= offset -> (length rem <= fuel)%nat ->
  (forall g, offset <= g < offset + zlen rem -> is_Some (span_at spans g)) ->
  exists fs', write_loop fuel spans fs offset rem = Some (fs', Ok ()) /\
    forall g, 0 <= g ->
      (offset <= g < offset + zlen rem -> is_padding g = false -> byte_at fs' g = zget rem (g - offset)) /\
      (~ (offset <= g < offset + zlen rem) -> forall x, byte_at fs g = Some x -> byte_at fs' g = Some x).
Proof.
  revert fs offset rem. induction fuel as [| fuel IH]; intros fs offset rem Ho Hf Hcov.
  { destruct rem; [| simpl in Hf; lia]. exists fs. split; [done |]. intros g _. rewrite zlen_nil. split; [lia | done]. }
  destruct rem as [| b rem0]; [exists fs; split; [done |]; intros g _; rewrite zlen_nil; split; [lia | done] |].
  cbn [write_loop]. set (rem := b :: rem0) in *.
  assert (0 < zlen rem) as Hpos by (unfold rem; zlen_lia).
  destruct (Hcov offset ltac:(lia)) as [s Hs]. rewrite Hs.
  pose proof (proj1 (span_at_iff lo spans offset s Hord) Hs) as [Hin Hc]. pose proof Hc as [Hc1 Hc2].
  set (n := Z.min (zlen rem) (end_ s - offset)). assert (0 < n <= zlen rem) as Hn by lia.
  set (fs1 := if padding s then fs else _).
  pose proof (zlen_drop rem n ltac:(lia)) as Hdrop. pose proof (zlen_take rem n ltac:(lia)) as Htake.
  destruct (IH fs1 (offset + n) (drop (Z.to_nat n) rem)) as (fs' & Hw & Hbytes); [lia | | |].
  { unfold zlen in Hdrop, Hn. rewrite length_drop. lia. }
  { intros g Hg. apply Hcov. lia. }
  exists fs'. split; [exact Hw |]. intros g Hg. destruct (Hbytes g Hg) as [Hnew Hold]. rewrite Hdrop in *. split.
  - intros Hr Hpad. destruct (decide (offset + n <= g)) as [Hge | Hlt].
    + rewrite Hnew by (done || lia). rewrite zget_drop by lia. f_equal. lia.
    + assert (span_at spans g = Some s) as Hsg by (apply (span_at_iff lo); [done |]; split; [done | unfold covers; lia]).
      unfold is_padding in Hpad. rewrite Hsg in Hpad.
      destruct (zget_lt rem (g - offset) ltac:(lia)) as [x Hx]. rewrite Hx. apply Hold; [lia |].
      unfold fs1. rewrite Hpad. rewrite (proj1 (byte_at_chunk fs s offset (take (Z.to_nat n) rem) g Hin Hpad Hc ltac:(lia) Ho Hg)) by lia.
      rewrite zget_take by lia. exact Hx.
  - intros Hr x Hx. apply Hold; [lia |]. unfold fs1. destruct (padding s) eqn:Hpad; [done |].
    apply (byte_at_chunk fs s offset (take (Z.to_nat n) rem) g Hin Hpad Hc ltac:(lia) Ho Hg); [lia | done].
Qed.

Lemma byte_at_padding fs g : is_padding g = true -> byte_at fs g = Some 0.
Proof. unfold is_padding, byte_at. destruct (span_at spans g) as [s |]; [| done]. simpl. by intros ->. Qed.

Lemma byte_at_span fs g x : byte_at fs g = Some x -> is_Some (span_at spans g).
Proof. unfold byte_at. destruct (span_at spans g); [eauto | done]. Qed.

(** A readable chunk inside a file. *)
Lemma read_file_chunk fs s offset n :
  s ∈ spans -> padding s = false -> covers s offset -> 0 < n <= end_ s - offset ->
  (forall g, offset <= g < offset + n -> is_Some (byte_at fs g)) ->
  exists chunk, read_file fs (path s) (offset - start s) n = Ok chunk /\ zlen chunk = n /\
    forall i, 0 <= i < n -> zget chunk i = byte_at fs (offset + i).
Proof.
  intros Hs Hp Hc Hn Hread. unfold covers in Hc.
  assert (forall g, offset <= g < offset + n -> byte_at fs g = (content ← fs !! path s; zget content (g - start s))) as Hb.
  { intros g Hg. unfold byte_at. rewrite (proj2 (span_at_iff lo spans g s Hord)) by (split; [done | unfold covers; lia]).
    simpl. by rewrite Hp. }
  unfold read_file. destruct (fs !! path s) as [content |] eqn:Ef.
  - destruct (Hread (offset + n - 1) ltac:(lia)) as [x Hx]. rewrite Hb in Hx by lia. simpl in Hx.
    apply zget_Some in Hx as [Hlen _]. rewrite (proj2 (Z.ltb_ge _ _)) by lia.
    eexists. split; [done |]. split; [rewrite zlen_slice; lia |].
    intros i Hi. rewrite zget_slice by lia. rewrite Hb by lia. simpl. f_equal. lia.
  - destruct (Hread offset ltac:(lia)) as [x Hx]. rewrite Hb in Hx by lia. done.
Qed.

Lemma read_loop_spec fuel fs offset rem out :
  0 <= offset -> 0 <= rem <= Z.of_nat fuel ->
  (forall g, offset <= g < offset + rem -> is_Some (byte_at fs g)) ->
  exists bytes, read_loop fuel spans fs offset rem out = Some (Ok (out ++ bytes)) /\ zlen bytes = rem /\
    forall i, 0 <= i < rem -> zget bytes i = byte_at fs (offset + i).
Proof.
  revert offset rem out. induction fuel as [| fuel IH]; intros offset rem out Ho Hf Hread.
  { exists []. cbn [read_loop]. rewrite (proj2 (Z.leb_le _ _)), app_nil_r, zlen_nil by lia. split_and!; [done | lia | lia]. }
  cbn [read_loop]. destruct (Z.leb_spec rem 0).
  { exists []. rewrite app_nil_r, zlen_nil. split_and!; [done | lia | lia]. }
  destruct (Hread offset ltac:(lia)) as [x Hx]. destruct (byte_at_span _ _ _ Hx) as [s Hs]. rewrite Hs.
  pose proof (proj1 (span_at_iff lo spans offset s Hord) Hs) as [Hin Hc]. pose proof Hc as [Hc1 Hc2].
  set (n := Z.min rem (end_ s - offset)). assert (0 < n <= rem) as Hn by lia.
  assert (forall chunk, zlen chunk = n -> (forall i, 0 <= i < n -> zget chunk i = byte_at fs (offset + i)) ->
    exists bytes, read_loop fuel spans fs (offset + n) (rem - n) (out ++ chunk) = Some (Ok (out ++ bytes)) /\ zlen bytes = rem /\
      forall i, 0 <= i < rem -> zget bytes i = byte_at fs (offset + i)) as Hgo.
  { intros chunk Hl Hch. destruct (IH (offset + n) (rem - n) (out ++ chunk)) as (bytes & Hr & Hlb & Hb); [lia | lia | |].
    { intros g Hg. apply Hread. lia. }
    exists (chunk ++ bytes). rewrite Hr, app_assoc, zlen_app. split_and!; [done | lia |].
    intros i Hi. rewrite zget_app, Hl by lia. destruct (Z.ltb_spec i n); [apply Hch; lia |].
    rewrite Hb by lia. f_equal. lia. }
  destruct (padding s) eqn:Hpad.
  - apply Hgo; [rewrite zlen_replicate; lia |]. intros i Hi. rewrite zget_replicate by lia. symmetry.
    apply byte_at_padding. unfold is_padding.
    rewrite (proj2 (span_at_iff lo spans (offset + i) s Hord)) by (split; [done | unfold covers; lia]). done.
  - destruct (read_file_chunk fs s offset n Hin Hpad Hc ltac:(lia)) as (chunk & -> & Hl & Hch).
    { intros g Hg. apply Hread. lia. }
    by apply Hgo.
Qed.

(** What a read that succeeds returned. *)
Lemma read_loop_inv fuel fs offset rem out res :
  0 <= offset -> 0 <= rem -> read_loop fuel spans fs offset rem out = Some (Ok res) ->
  exists bytes, res = out ++ bytes /\ zlen bytes = rem /\
    forall i, 0 <= i < rem -> zget bytes i = byte_at fs (offset + i).
Proof.
  revert offset rem out. induction fuel as [| fuel IH]; intros offset rem out Ho Hrem Hr; cbn [read_loop] in Hr;
    (destruct (Z.leb_spec rem 0); [injection Hr as <-; exists []; rewrite app_nil_r, zlen_nil; split_and!; [done | lia | lia] |]).
  { done. }
  destruct (span_at spans offset) as [s |] eqn:Hs; [| done].
  pose proof (proj1 (span_at_iff lo spans offset s Hord) Hs) as [Hin Hc]. pose proof Hc as [Hc1 Hc2].
  set (n := Z.min rem (end_ s - offset)) in *. assert (0 < n <= rem) as Hn by lia.
  assert (forall i, 0 <= i < n -> span_at spans (offset + i) = Some s) as Hspan.
  { intros i Hi. apply (span_at_iff lo); [done |]. split; [done | unfold covers; lia]. }
  assert (forall chunk, zlen chunk = n -> (forall i, 0 <= i < n -> zget chunk i = byte_at fs (offset + i)) ->
    read_loop fuel spans fs (offset + n) (rem - n) (out ++ chunk) = Some (Ok res) ->
    exists bytes, res = out ++ bytes /\ zlen bytes = rem /\
      forall i, 0 <= i < rem -> zget bytes i = byte_at fs (offset + i)) as Hgo.
  { intros chunk Hl Hch H'. destruct (IH (offset + n) (rem - n) (out ++ chunk) ltac:(lia) ltac:(lia) H') as (bytes & -> & Hlb & Hb).
    exists (chunk ++ bytes). rewrite app_assoc, zlen_app. split_and!; [done | lia |].
    intros i Hi. rewrite zget_app, Hl by lia. destruct (Z.ltb_spec i n); [apply Hch; lia |].
    rewrite Hb by lia. f_equal. lia. }
  destruct (padding s) eqn:Hpad.
  - eapply Hgo; [| | exact Hr]; [rewrite zlen_replicate; lia |]. intros i Hi. rewrite zget_replicate by lia.
    symmetry. apply byte_at_padding. unfold is_padding. by rewrite Hspan.
  - unfold read_file in Hr. destruct (fs !! path s) as [content |] eqn:Ef; [| done].
    destruct (Z.ltb_spec (zlen content) (offset - start s + n)); [done |].
    eapply Hgo; [| | exact Hr]; [rewrite zlen_slice; lia |]. intros i Hi. rewrite zget_slice by lia.
    unfold byte_at. rewrite Hspan by done. simpl. rewrite Hpad, Ef. simpl. f_equal. lia.
Qed.

(** Reading a range, exactly. *)
Lemma read_iff fs offset len bytes :
  0 <= offset -> 0 <= len ->
  read_at_global_offset spans fs offset len = Some (Ok bytes) <->
  zlen bytes = len /\ forall i, 0 <= i < len -> zget bytes i = byte_at fs (offset + i).
Proof.
  intros Ho Hl. unfold read_at_global_offset. split.
  - intros H. apply read_loop_inv in H as (b & -> & Hlen & Hb); done.
  - intros [Hlen Hb]. destruct (read_loop_spec (Z.to_nat len) fs offset len [] Ho ltac:(lia)) as (b & Hr & Hlb & Hbb).
    { intros g Hg. replace g with (offset + (g - offset)) by lia. rewrite <- Hb by lia. apply zget_lt. lia. }
    rewrite Hr. cbn [app]. f_equal. f_equal. apply zget_ext; [lia |]. intros i Hi.
    rewrite Hbb, Hb by lia. done.
Qed.

(** What a table says of [data] at [offset]: zeros where there is padding. *)
Definition fits_padding (offset : Z) (data : list Z) : Prop :=
  forall i, 0 <= i < zlen data -> is_padding (offset + i) = true -> zget data i = Some 0.

Lemma write_span_spec fs offset data :
  0 <= offset -> fits_padding offset data ->
  (forall g, offset <= g < offset + zlen data -> is_Some (span_at spans g)) ->
  exists fs', write_at_global_offset spans fs offset data = Some (fs', Ok ()) /\
    (forall i, 0 <= i < zlen data -> byte_at fs' (offset + i) = zget data i) /\
    (forall g x, 0 <= g -> ~ (offset <= g < offset + zlen data) -> byte_at fs g = Some x -> byte_at fs' g = Some x).
Proof.
  intros Ho Hpad Hcov. destruct (write_loop_spec (length data) fs offset data Ho ltac:(lia) Hcov) as (fs' & Hw & Hb).
  exists fs'. split; [exact Hw |]. split.
  - intros i Hi. destruct (is_padding (offset + i)) eqn:Ep.
    + rewrite (Hpad i Hi Ep). by apply byte_at_padding.
    + destruct (Hb (offset + i) ltac:(lia)) as [Hn _]. rewrite Hn by (done || lia). f_equal. lia.
  - intros g x Hg Hout Hx. by apply (Hb g Hg).
Qed.

(** The pieces of [data], written in the order of [idxs]. *)
Definition piece_of (data : list Z) (piece_length k : Z) : list Z :=
  slice data (k * piece_length) (Z.min ((k + 1) * piece_length) (zlen data)).

Fixpoint write_pieces (fs : Fs) (data : list Z) (piece_length : Z) (idxs : list Z) : option (Fs * result unit ErrorKind) :=
  match idxs with
  | [] => Some (fs, Ok ())
  | k :: idxs' =>
      '(fs', r) ← write_piece spans fs k piece_length (piece_of data piece_length k);
      match r with
      | Ok _ => write_pieces fs' data piece_length idxs'
      | Err e => Some (fs', Err e)
      end
  end.

Lemma write_pieces_spec fs data pl idxs :
  0 < pl -> zlen data < 2 ^ 64 -> fits_padding 0 data ->
  (forall g, 0 <= g < zlen data -> is_Some (span_at spans g)) ->
  Forall (fun k => 0 <= k /\ k * pl < zlen data) idxs ->
  exists fs', write_pieces fs data pl idxs = Some (fs', Ok ()) /\
    forall g, 0 <= g < zlen data -> (g / pl ∈ idxs \/ byte_at fs g = zget data g) -> byte_at fs' g = zget data g.
Proof.
  intros Hpl Hmax Hpad Hcov Hidx. revert fs. induction Hidx as [| k idxs [Hk0 Hk] Hidx IH]; intros fs.
  { exists fs. split; [done |]. intros g _. set_solver. }
  assert (0 <= k * pl) as Hkpl by nia.
  set (n := Z.min ((k + 1) * pl) (zlen data)). assert (k * pl < n <= zlen data) as Hn by lia.
  assert (zlen (piece_of data pl k) = n - k * pl) as Hlen
    by (unfold piece_of; fold n; apply zlen_slice; lia).
  assert (forall i, 0 <= i < n - k * pl -> zget (piece_of data pl k) i = zget data (k * pl + i)) as Hget.
  { intros i Hi. unfold piece_of. by rewrite zget_slice by lia. }
  destruct (write_span_spec fs (k * pl) (piece_of data pl k)) as (fs1 & Hw & Hnew & Hold); [lia | | |].
  { intros i Hi Hp. rewrite Hlen in Hi. rewrite Hget by done. apply (Hpad (k * pl + i)); [lia | exact Hp]. }
  { intros g Hg. apply Hcov. lia. }
  destruct (IH fs1) as (fs' & Hws & Hall). exists fs'. split.
  { cbn [write_pieces]. unfold write_piece, wrap. rewrite Z.mod_small by lia. rewrite Hw. exact Hws. }
  intros g Hg Hcase. apply Hall; [done |].
  destruct (decide (k * pl <= g < n)) as [Hin | Hout].
  - right. replace g with (k * pl + (g - k * pl)) by lia. rewrite Hnew by lia. by rewrite Hget by lia.
  - destruct Hcase as [[Heq | Hi]%elem_of_cons | Hb]; [| by left | right].
    + exfalso. pose proof (Z.div_mod g pl ltac:(lia)). pose proof (Z.mod_pos_bound g pl ltac:(lia)).
      rewrite Heq in *. lia.
    + destruct (zget_lt data g Hg) as [x Hx]. rewrite Hx in *. apply Hold; [lia | lia | done].
Qed.
End Table.

(** [create_empty_files] creates the wanted files that are empty and missing,
    and leaves every file there is as it was. *)
Lemma create_empty_spec spans wanted index fs created fs' created' :
  create_empty_from spans wanted index (fs, created) = (fs', created') ->
  (forall p content, fs !! p = Some content -> fs' !! p = Some content) /\
  (forall i s, spans !! i = Some s -> padding s = false -> start s = end_ s -> wanted (index + i)%nat = true ->
     is_Some (fs' !! path s)).
Proof.
  revert index fs created. induction spans as [| s spans IH]; intros index fs created H; cbn [create_empty_from] in H.
  { injection H as <- <-. split; [done |]. intros i s. by rewrite lookup_nil. }
  set (skip := padding s || negb (start s =? end_ s) || negb (wanted index) || bool_decide (is_Some (fs !! path s))) in H.
  destruct (if skip then _ else _) as [fs1 created1] eqn:E. destruct (IH _ _ _ H) as [Hkeep Hmade].
  assert (forall p content, fs !! p = Some content -> fs1 !! p = Some content) as Hkeep1.
  { intros p content Hp. unfold skip in E.
    destruct (decide (is_Some (fs !! path s))) as [Hs | Hs].
    - rewrite bool_decide_true, orb_true_r in E by done. by injection E as <- <-.
    - destruct (_ || _); injection E as <- <-; [done |].
      rewrite lookup_insert_ne; [done |]. intros Heq. apply Hs. by rewrite Heq, Hp. }
  split; [auto |]. intros [| i] t Ht Hpad Hempty Hwant; cbn in Ht.
  - injection Ht as ->. rewrite Nat.add_0_r in Hwant. unfold skip in E.
    rewrite Hpad, Hempty, Z.eqb_refl, Hwant in E. cbn [negb orb] in E.
    destruct (decide (is_Some (fs !! path t))) as [[content Hc] | Hs].
    + exists content. auto.
    + rewrite bool_decide_false in E by done. injection E as <- <-. exists []. apply Hkeep. apply lookup_insert_eq.
  - apply (Hmade i t); try done. by replace (S index + i)%nat with (index + S i)%nat by lia.
Qed.

(** ** The tables the client builds *)

Definition files_ok (files : list (list Path * Z)) : Prop :=
  Forall (fun f => 0 <= snd f) files /\ total_length files < 2 ^ 64.

(** No two files on disk have one path. *)
Definition distinct_paths (spans : list FileSpan) : Prop :=
  NoDup (path <$> filter (fun s => padding s = false) spans).

Lemma distinct_paths_inj spans s t :
  distinct_paths spans -> s ∈ spans -> t ∈ spans -> padding s = false -> padding t = false -> path s = path t -> s = t.
Proof.
  unfold distinct_paths. set (l := filter _ spans). intros Hnd Hs Ht Hps Hpt Heq.
  assert (s ∈ l) as [i Hi]%list_elem_of_lookup_1 by (by apply list_elem_of_filter).
  assert (t ∈ l) as [j Hj]%list_elem_of_lookup_1 by (by apply list_elem_of_filter).
  assert (i = j) as ->; [| by rewrite Hi in Hj; injection Hj].
  apply (NoDup_lookup (path <$> l) i j (path t)); [done | |]; rewrite list_lookup_fmap, ?Hi, ?Hj; simpl; by rewrite ?Heq.
Qed.

Lemma built_ordered base files pads :
  files_ok files -> ordered 0 (build_file_spans_padded base files pads).
Proof. intros [Hf Ht]. apply spans_padded_ordered; done || lia. Qed.

Lemma built_covers base files pads g :
  files_ok files -> 0 <= g < total_length files -> is_Some (span_at (build_file_spans_padded base files pads) g).
Proof.
  intros Hok Hg. pose proof Hok as [Hf Ht].
  destruct (spans_padded_ordered base files pads 0 0 Hf ltac:(lia) ltac:(lia)) as [_ Hcov].
  destruct (Hcov g ltac:(lia)) as (s & Hs & Hc). exists s. apply (span_at_iff 0); [by apply built_ordered | done].
Qed.

(** ** Properties *)

(** What is written is what is read: through the table of any torrent whose
    files have distinct paths, [write_at_global_offset] writes data anywhere in
    the torrent, across as many files as it spans, without an error; reading
    the same range gives the data back; and any other range that could be read
    before reads as it did. *)
Theorem write_then_read (base : Path) (files : list (list Path * Z)) (pads : list bool) (fs : Fs)
    (offset : Z) (data : list Z)
    (Hok : files_ok files) (Hpaths : distinct_paths (build_file_spans_padded base files pads))
    (Ho : 0 <= offset) (Hfit : offset + zlen data <= total_length files)
    (Hpad : fits_padding (build_file_spans_padded base files pads) offset data) :
  let spans := build_file_spans_padded base files pads in
  exists fs', write_at_global_offset spans fs offset data = Some (fs', Ok ()) /\
    read_at_global_offset spans fs' offset (zlen data) = Some (Ok data) /\
    forall o bytes, 0 <= o -> (o + zlen bytes <= offset \/ offset + zlen data <= o) ->
      read_at_global_offset spans fs o (zlen bytes) = Some (Ok bytes) ->
      read_at_global_offset spans fs' o (zlen bytes) = Some (Ok bytes).
Proof.
  intros spans. pose proof (built_ordered base files pads Hok) as Hord. fold spans in Hord.
  pose proof (distinct_paths_inj spans) as Hinj. pose proof (zlen_nonneg data).
  destruct (write_span_spec spans 0 Hord (fun s t => Hinj s t Hpaths) fs offset data Ho Hpad) as (fs' & Hw & Hnew & Hold).
  { intros g Hg. apply built_covers; [done | lia]. }
  exists fs'. split_and!; [done | |].
  - apply (read_iff spans 0 Hord); [done | done |]. split; [done |]. intros i Hi. symmetry. by apply Hnew.
  - intros o bytes Hoo Hdisj. pose proof (zlen_nonneg bytes). rewrite !(read_iff spans 0 Hord) by done.
    intros [Hl Hb]. split; [done |]. intros i Hi. specialize (Hb i Hi).
    destruct (zget_lt bytes i Hi) as [x Hx]. rewrite Hx in *. symmetry. apply Hold; [lia | lia | done].
Qed.

Definition two_files : list (list Path * Z) := [([[97]], 3); ([[98]], 2)].

Lemma write_then_read_witness :
  exists fs', write_at_global_offset (build_file_spans_padded [] two_files []) ∅ 1 [7; 8; 9; 10] = Some (fs', Ok ()) /\
    read_at_global_offset (build_file_spans_padded [] two_files []) fs' 1 4 = Some (Ok [7; 8; 9; 10]).
Proof.
  destruct (write_then_read [] two_files [] ∅ 1 [7; 8; 9; 10]) as (fs' & H1 & H2 & _).
  - split; [by repeat constructor | reflexivity].
  - by apply (bool_decide_unpack _).
  - done.
  - done.
  - intros i Hi Hp. exfalso. change (zlen [7; 8; 9; 10]) with 4 in Hi.
    assert (i = 0 \/ i = 1 \/ i = 2 \/ i = 3) as [-> | [-> | [-> | ->]]] by lia; done.
  - exists fs'. split; [exact H1 | exact H2].
Defined.

(** A download is complete when every piece has been written, whatever the
    order they arrive in and however often: after [write_piece] of each piece
    of [data] (padding zeros where the torrent has padding files), in the
    order of [idxs], reading the whole torrent gives [data]. *)
Theorem pieces_any_order (base : Path) (files : list (list Path * Z)) (pads : list bool) (fs : Fs)
    (data : list Z) (piece_length : Z) (idxs : list Z)
    (Hok : files_ok files) (Hpaths : distinct_paths (build_file_spans_padded base files pads))
    (Hpl : 0 < piece_length) (Hlen : zlen data = total_length files)
    (Hpad : fits_padding (build_file_spans_padded base files pads) 0 data)
    (Hidx : forall k, k ∈ idxs <-> 0 <= k /\ k * piece_length < zlen data) :
  let spans := build_file_spans_padded base files pads in
  exists fs', write_pieces spans fs data piece_length idxs = Some (fs', Ok ()) /\
    read_at_global_offset spans fs' 0 (zlen data) = Some (Ok data).
Proof.
  intros spans. pose proof (built_ordered base files pads Hok) as Hord. fold spans in Hord.
  pose proof (distinct_paths_inj spans) as Hinj. pose proof (zlen_nonneg data).
  destruct (write_pieces_spec spans 0 Hord (fun s t => Hinj s t Hpaths) fs data piece_length idxs Hpl) as (fs' & Hw & Hall).
  - destruct Hok. lia.
  - exact Hpad.
  - intros g Hg. apply built_covers; [done | lia].
  - apply Forall_forall. intros k Hk. by apply Hidx.
  - exists fs'. split; [done |]. apply (read_iff spans 0 Hord); [done | done |]. split; [done |].
    intros i Hi. rewrite Z.add_0_l. symmetry. apply Hall; [done |]. left. apply Hidx.
    pose proof (Z.div_mod i piece_length). pose proof (Z.mod_pos_bound i piece_length).
    split; [apply Z.div_pos; lia | lia].
Qed.

Lemma pieces_any_order_witness :
  exists fs', write_pieces (build_file_spans_padded [] two_files []) ∅ [1; 2; 3; 4; 5] 2 [2; 0; 1; 0] = Some (fs', Ok ()) /\
    read_at_global_offset (build_file_spans_padded [] two_files []) fs' 0 5 = Some (Ok [1; 2; 3; 4; 5]).
Proof.
  apply (pieces_any_order [] two_files [] ∅ [1; 2; 3; 4; 5] 2 [2; 0; 1; 0]).
  - split; [by repeat constructor | reflexivity].
  - by apply (bool_decide_unpack _).
  - done.
  - reflexivity.
  - intros i Hi Hp. exfalso. change (zlen [1; 2; 3; 4; 5]) with 5 in Hi.
    assert (i = 0 \/ i = 1 \/ i = 2 \/ i = 3 \/ i = 4) as [-> | [-> | [-> | [-> | ->]]]] by lia; done.
  - intros k. change (zlen [1; 2; 3; 4; 5]) with 5. rewrite !elem_of_cons. set_solver by lia.
Defined.

(** The table of a v2 torrent: each file begins on a piece boundary, so no
    piece holds bytes of two files, and looking a byte up finds the file that
    holds it and nothing in the gaps between files. *)
Theorem aligned_spans_isolate (base : Path) (files : list (list Path * Z)) (piece_length : Z) (o1 o2 : Z) (s t : FileSpan)
    (Hf : Forall (fun f => 0 <= snd f) files) (Hpl : 0 < piece_length)
    (Hfit : aligned_length files piece_length < 2 ^ 64)
    (Hpiece : o1 / piece_length = o2 / piece_length)
    (Hs : span_at (build_file_spans_aligned base files piece_length) o1 = Some s)
    (Ht : span_at (build_file_spans_aligned base files piece_length) o2 = Some t) :
  s = t /\ covers s o1 /\ start s mod piece_length = 0.
Proof.
  destruct (spans_aligned_ordered base files piece_length 0) as [Hord Hal]; [done | done | | |].
  { apply Z.mod_0_l. lia. }
  { by rewrite Z.max_l by lia. }
  fold (build_file_spans_aligned base files piece_length) in *. rewrite Z.max_l in Hal by lia.
  pose proof (proj1 (span_at_iff 0 _ _ _ Hord) Hs) as [Hsin Hsc]. pose proof (proj1 (span_at_iff 0 _ _ _ Hord) Ht) as [Htin Htc].
  pose proof (proj1 (Forall_forall _ _) Hal s Hsin) as Hsa. pose proof (proj1 (Forall_forall _ _) Hal t Htin) as Hta.
  split_and!; [| done | done].
  assert (forall (a b : FileSpan) x y, start b mod piece_length = 0 -> x / piece_length = y / piece_length ->
            covers b y -> start b <= x) as Hin.
  { intros a b x y Hb Hxy [Hy _]. pose proof (Z.div_mod (start b) piece_length).
    pose proof (Z.div_mod x piece_length). pose proof (Z.mod_pos_bound x piece_length).
    pose proof (Z.div_le_mono (start b) y piece_length Hpl Hy). nia. }
  assert (start t <= o1) as H1 by (by apply (Hin s t o1 o2)).
  assert (start s <= o2) as H2 by (by apply (Hin t s o2 o1)).
  destruct (decide (o1 < end_ t)) as [Hlt | Hge].
  - assert (span_at (build_file_spans_aligned base files piece_length) o1 = Some t) as E
      by (apply (span_at_iff 0); [done |]; split; [done | unfold covers; lia]).
    congruence.
  - assert (span_at (build_file_spans_aligned base files piece_length) o2 = Some s) as E.
    { apply (span_at_iff 0); [done |]. split; [done |]. unfold covers in *. lia. }
    congruence.
Qed.

Lemma aligned_spans_isolate_witness :
  covers (mkFileSpan [98] 4 6 false) 5 /\ 4 mod 4 = 0.
Proof.
  apply (aligned_spans_isolate [] two_files 4 5 4 (mkFileSpan [98] 4 6 false) (mkFileSpan [98] 4 6 false));
    [by repeat constructor | lia | reflexivity | reflexivity | reflexivity | reflexivity].
Defined.
