(* ===== verification/Torrent.v ===== *)
(** * Torrent files

    Models [src/src/torrent.rs]: reading a [.torrent] file or the info
    dictionary of a magnet link, with the checks everything downstream trusts,
    and what a torrent answers about its trackers, files and pieces.  SHA-1 is
    a third-party function: the parameter [sha1].  A [None] of the outer option
    is a panic or a loop that never ends. *)

From stdpp Require Import sorting.
From S2P Require Import Prelude Str Bytes BTree Numeral Bencode Sha256 Merkle V2Hashes V2Tree FileWriter.

Record TorrentFile : Type := mkTorrentFile {
  announce : option (list Z);
  announce_list : list (list (list Z));
  t_info : Bencode;
  t_info_hash : list Z;
  t_piece_length : Z;
  pieces : list (list Z);
  t_name : list Z;
  t_files : list (list (list Z) * Z);
  t_padding : list bool;
  multi_file : bool;
  url_list : list (list Z);
  private : bool;
  v2 : option V2Meta;
  v2_pieces : list V2Piece
}.

Inductive TorrentError : Type :=
| DecodeErr (e : DecodeError)
| NotADict
| MissingKey (k : String.string)
| WrongType (k : String.string)
| PiecesLengthNotMultipleOf20
| InvalidLength (k : String.string)
| InfoHashMismatch
| UnsafeName (p : list Z)
| PieceCountMismatch (n expected : Z)
| TooLarge (what : String.string)
| V2Err (e : V2Error)
| UnsupportedVersion (v : Z).
Arguments MissingKey k%_string_scope.
Arguments WrongType k%_string_scope.
Arguments InvalidLength k%_string_scope.
Arguments TooLarge what%_string_scope.

Definition MAX_PIECE_LENGTH : Z := 128 * 2 ^ 20.

(** [.map_err(...)] and [.ok_or(...)?]. *)
Definition map_err {A E F} (f : E -> F) (r : option (result A E)) : option (result A F) :=
  match r with
  | None => None
  | Some (Ok a) => Some (Ok a)
  | Some (Err e) => Some (Err (f e))
  end.

Definition need {A} (o : option A) (e : TorrentError) : option (result A TorrentError) := Some (ok_or o e).

(** [info.get(k).and_then(Bencode::as_int)] and the like. *)
Definition get_int (v : Bencode) (k : String.string) : option Z := x ← get v (str k); as_int x.
Definition get_str (v : Bencode) (k : String.string) : option (list Z) := x ← get v (str k); as_str x.
Definition get_bytes (v : Bencode) (k : String.string) : option (list Z) := x ← get v (str k); as_bytes x.
Definition get_list (v : Bencode) (k : String.string) : option (list Bencode) := x ← get v (str k); as_list x.
Arguments get_int v k%_string_scope.
Arguments get_str v k%_string_scope.
Arguments get_bytes v k%_string_scope.
Arguments get_list v k%_string_scope.

(** ** The exact bytes of the info dictionary *)

(** The loop of [find_key_span]; each pass reads a key and a value. *)
Fixpoint key_span_loop (fuel : nat) (data key : list Z) (pos : Z) : option (result (Z * Z) TorrentError) :=
  match fuel with
  | O => None
  | S fuel' =>
      match zget data pos with
      | None => Some (Err (DecodeErr UnexpectedEof))
      | Some b =>
          if b =? 101 then Some (Err (MissingKey "info"))
          else
            let kdata := drop (Z.to_nat pos) data in
            let! ((kval, kspan), _) := map_err DecodeErr (decode_value_with_span (decode_fuel kdata) (Bencode.new kdata)) in
            match kval with
            | Bytes key_bytes =>
                let key_abs_end := pos + kspan.2 in
                let vdata := drop (Z.to_nat key_abs_end) data in
                let! ((_, vspan), _) := map_err DecodeErr (decode_value_with_span (decode_fuel vdata) (Bencode.new vdata)) in
                if bool_decide (key_bytes = key) then Some (Ok (key_abs_end + vspan.1, key_abs_end + vspan.2))
                else key_span_loop fuel' data key (key_abs_end + vspan.2)
            | _ => Some (Err (WrongType "dict key"))
            end
      end
  end.

Definition find_key_span (data key : list Z) : option (result (Z * Z) TorrentError) :=
  if bool_decide (head data = Some 100) then key_span_loop (length data) data key 1
  else Some (Err NotADict).

Section torrent.
Context (sha1 : list Z -> list Z).

(** ** Building the torrent *)

Definition v2_meta (info tree : Bencode) (raw_info : list Z) (ls : option Bencode) : option (result V2Meta TorrentError) :=
  let! files := map_err V2Err (Some (parse_file_tree tree)) in
  let! ls := map_err V2Err (Some (parse_layers ls)) in
  let! piece_length := need (get_int info "piece length") (MissingKey "piece length") in
  let! _ := map_err V2Err (validate_layers files ls piece_length) in
  Some (Ok (mkV2Meta files ls (sha256 raw_info))).

(** The loop over a v2 torrent's files: their total, and the entries. *)
Fixpoint v2_entries (fs : list V2File) (total : Z) : result (list (list (list Z) * Z)) TorrentError :=
  match fs with
  | [] => Ok []
  | f :: rest =>
      let? total := ok_or (u_checked_add 64 total (file_length f)) (TooLarge "total length") in
      let? len := (if file_length f <=? i64_max then Ok (file_length f) else Err (TooLarge "length")) in
      let? entries := v2_entries rest total in
      Ok ((V2Hashes.path f, len) :: entries)
  end.

Definition is_private (info : Bencode) : bool :=
  match get_int info "private" with Some v => negb (v =? 0) | None => false end.

Definition build_v2_only_torrent (info tree : Bencode) (raw_info : list Z) (ann : option (list Z))
    (ann_list : list (list (list Z))) (urls : list (list Z)) (ls : option Bencode) : option (result TorrentFile TorrentError) :=
  let! piece_length := need (get_int info "piece length") (MissingKey "piece length") in
  if negb (valid_piece_length piece_length) then Some (Err (V2Err BadPieceLength))
  else if MAX_PIECE_LENGTH <? piece_length then Some (Err (TooLarge "piece length"))
  else
    let! name := need (get_str info "name") (MissingKey "name") in
    if negb (is_safe_component name) then Some (Err (UnsafeName name))
    else
      let! meta := v2_meta info tree raw_info ls in
      let! entries := Some (v2_entries (files meta) 0) in
      let multi := negb (bool_decide (V2Hashes.path <$> files meta = [[name]])) in
      plan ← plan_pieces (files meta) (layers meta) piece_length;
      let vps := default [] plan in
      Some (Ok (mkTorrentFile ann ann_list info (short_hash meta) piece_length ((fun p => take 20 (p_root p)) <$> vps)
                  name entries (replicate (length entries) false) multi urls (is_private info) (Some meta) vps)).

(** The [filter_map] over the parts of a path. *)
Definition path_parts (l : list Bencode) : list (list Z) := omap as_str l.

(** One entry of a multi-file torrent's [files]: its path and length, and
    whether it is padding. *)
Definition file_entry (f : Bencode) : result ((list (list Z) * Z) * bool) TorrentError :=
  let is_padding := match get_str f "attr" with Some attr => existsb (Z.eqb 112) attr | None => false end in
  let? len := ok_or (get_int f "length") (MissingKey "length") in
  if len <? 0 then Err (InvalidLength "length")
  else
    let? parts := ok_or (get_list f "path") (MissingKey "path") in
    let path := path_parts parts in
    if bool_decide (path = []) then Err (UnsafeName [])
    else
      match list_find (fun part => is_safe_component part = false) path with
      | Some (_, bad) => Err (UnsafeName bad)
      | None => Ok ((path, len), is_padding)
      end.

Fixpoint file_entries (fs : list Bencode) : result (list ((list (list Z) * Z) * bool)) TorrentError :=
  match fs with
  | [] => Ok []
  | f :: rest => let? e := file_entry f in let? es := file_entries rest in Ok (e :: es)
  end.

(** The files of a v1 torrent, in either form, with the padding flags. *)
Definition v1_files (info : Bencode) (name : list Z) : result (list ((list (list Z) * Z) * bool)) TorrentError :=
  match get_int info "length" with
  | Some len => if len <? 0 then Err (InvalidLength "length") else Ok [(([name], len), false)]
  | None =>
      match get_list info "files" with
      | Some file_list => file_entries file_list
      | None => Err (MissingKey "length|files")
      end
  end.

(** [try_fold] of [checked_add] over the lengths. *)
Fixpoint checked_total (sum : Z) (lens : list Z) : option Z :=
  match lens with
  | [] => Some sum
  | len :: rest => sum' ← u_checked_add 64 sum len; checked_total sum' rest
  end.

Definition build_v1_torrent (info : Bencode) (raw_info : list Z) (ann : option (list Z))
    (ann_list : list (list (list Z))) (urls : list (list Z)) (meta : option V2Meta) : result TorrentFile TorrentError :=
  let? piece_length := ok_or (get_int info "piece length") (MissingKey "piece length") in
  if piece_length <=? 0 then Err (InvalidLength "piece length")
  else
    let? pieces_raw := ok_or (get_bytes info "pieces") (MissingKey "pieces") in
    if negb (zlen pieces_raw mod 20 =? 0) then Err PiecesLengthNotMultipleOf20
    else
      let hashes := as_chunks (length pieces_raw) 20 pieces_raw in
      if MAX_PIECE_LENGTH <? piece_length then Err (TooLarge "piece length")
      else
        let? name := ok_or (get_str info "name") (MissingKey "name") in
        if negb (is_safe_component name) then Err (UnsafeName name)
        else
          let multi := bool_decide (get_int info "length" = None) && bool_decide (is_Some (get info (str "files"))) in
          let? entries := v1_files info name in
          let? total := ok_or (checked_total 0 (snd <$> (fst <$> entries))) (TooLarge "total length") in
          let expected := div_ceil total piece_length in
          if negb (zlen hashes =? expected) then Err (PieceCountMismatch (zlen hashes) expected)
          else
            Ok (mkTorrentFile ann ann_list info (sha1 raw_info) piece_length hashes name (fst <$> entries) (snd <$> entries)
                  multi urls (is_private info) meta []).

Definition build_torrent_from_info (info : Bencode) (raw_info : list Z) (ann : option (list Z))
    (ann_list : list (list (list Z))) (urls : list (list Z)) (ls : option Bencode) : option (result TorrentFile TorrentError) :=
  let version := get_int info "meta version" in
  match version with
  | Some v => if negb (v =? 2) then Some (Err (UnsupportedVersion v)) else
      match get info (str "file tree"), get info (str "pieces") with
      | Some tree, None => build_v2_only_torrent info tree raw_info ann ann_list urls ls
      | Some tree, Some _ =>
          m ← v2_meta info tree raw_info ls;
          Some (build_v1_torrent info raw_info ann ann_list urls (match m with Ok meta => Some meta | Err _ => None end))
      | None, _ => Some (build_v1_torrent info raw_info ann ann_list urls None)
      end
  | None => Some (build_v1_torrent info raw_info ann ann_list urls None)
  end.

Definition parse_torrent_file (data : list Z) : option (result TorrentFile TorrentError) :=
  let! top := map_err DecodeErr (decode data) in
  let! dict := need (as_dict top) NotADict in
  let! info := need (bt_get dict (str "info")) (MissingKey "info") in
  let! span := find_key_span data (str "info") in
  let raw_info := slice data span.1 span.2 in
  let ann := v ← bt_get dict (str "announce"); as_str v in
  let ann_list :=
    match (v ← bt_get dict (str "announce-list"); as_list v) with
    | Some tiers => omap as_str <$> omap as_list tiers
    | None => []
    end in
  let urls :=
    match bt_get dict (str "url-list") with
    | Some (Bytes b) => match as_str (Bytes b) with Some u => [u] | None => [] end
    | Some (List l) => omap as_str l
    | _ => []
    end in
  build_torrent_from_info info raw_info ann ann_list urls (bt_get dict (str "piece layers")).

Definition info_hash_matches (raw_info expected : list Z) : bool :=
  bool_decide (sha1 raw_info = expected) || bool_decide (take 20 (sha256 raw_info) = expected).

Definition from_info_dict_bytes (raw_info expected : list Z) (ann : option (list Z)) (ann_list : list (list (list Z))) :
    option (result TorrentFile TorrentError) :=
  if negb (info_hash_matches raw_info expected) then Some (Err InfoHashMismatch)
  else
    let! info := map_err DecodeErr (decode raw_info) in
    build_torrent_from_info info raw_info ann ann_list [] None.

End torrent.

(** ** What a torrent answers *)

(** [{:02x}] of every byte. *)
Definition hex_digit (d : Z) : Z := if d <? 10 then 48 + d else 87 + d.
Definition info_hash_hex (hash : list Z) : list Z := flat_map (fun b => [hex_digit (b / 16); hex_digit (b mod 16)]) hash.

(** The order of [String]s: by bytes. *)
Definition str_le (a b : list Z) : Prop := lex_cmp a b <> Gt.
#[export] Instance str_le_dec : RelDecision str_le.
Proof. intros a b. unfold str_le. apply _. Defined.

(** [Vec::dedup]. *)
Fixpoint dedup (l : list (list Z)) : list (list Z) :=
  match l with
  | [] => []
  | x :: l' => match l' with
               | y :: _ => if bool_decide (x = y) then dedup l' else x :: dedup l'
               | [] => [x]
               end
  end.

Definition tracker_urls (t : TorrentFile) : list (list Z) :=
  dedup (merge_sort str_le (option_list (announce t) ++ concat (announce_list t))).

Definition tracker_tiers (t : TorrentFile) : list (list (list Z)) :=
  let tiers := filter (fun tier => tier <> []) (announce_list t) in
  match announce t with
  | Some a => if negb (bool_decide (Exists (fun tier => a ∈ tier) tiers)) then [a] :: tiers else tiers
  | None => tiers
  end.

Definition install_layers (t : TorrentFile) (ls : Layers) : option (result TorrentFile V2Error) :=
  match v2 t with
  | None => Some (Err BadLayer)
  | Some meta =>
      let! _ := validate_layers (files meta) ls (t_piece_length t) in
      let combined := foldl (fun m e => bt_insert m e.1 e.2) (layers meta) ls in
      plan ← plan_pieces (files meta) combined (t_piece_length t);
      let! vps := Some (ok_or plan BadLayer) in
      Some (Ok (mkTorrentFile (announce t) (announce_list t) (t_info t) (t_info_hash t) (t_piece_length t)
                  ((fun p => take 20 (p_root p)) <$> vps) (t_name t) (t_files t) (t_padding t) (multi_file t) (url_list t)
                  (private t) (Some (mkV2Meta (files meta) combined (info_hash meta))) vps))
  end.

Definition missing_layers (t : TorrentFile) : list (Hash * Z) :=
  match v2 t with
  | None => []
  | Some meta =>
      omap (fun f => match root f with
                     | Some r => match bt_get (layers meta) r with Some _ => None | None => Some (r, file_length f) end
                     | None => None
                     end)
        (filter (fun f => t_piece_length t < file_length f) (files meta))
  end.

Definition is_v2_only (t : TorrentFile) : bool :=
  bool_decide (is_Some (v2 t)) && bool_decide (get (t_info t) (str "pieces") = None).

(** [iter().map(|(_, len)| *len as u64).sum()]: a debug build panics on
    overflow, which the parser's check rules out. *)
Definition total_length (t : TorrentFile) : Z := foldr Z.add 0 (snd <$> t_files t).

Definition v2_ready (t : TorrentFile) : bool :=
  is_v2_only t && (negb (bool_decide (v2_pieces t = [])) || (total_length t =? 0)).

Definition file_spans (t : TorrentFile) (base_dir : Path) : list FileSpan :=
  if is_v2_only t then build_file_spans_aligned base_dir (t_files t) (t_piece_length t)
  else build_file_spans_padded base_dir (t_files t) (t_padding t).

Definition visible_files (t : TorrentFile) : list (list (list Z) * Z) :=
  fst <$> filter (fun e : (list (list Z) * Z) * bool => e.2 = false) (zip (t_files t) (t_padding t)).

(** [layout_mask] takes the next flag of the selection for each file that is
    not padding. *)
Fixpoint spread (pads visible : list bool) : list bool :=
  match pads with
  | [] => []
  | true :: pads' => false :: spread pads' visible
  | false :: pads' =>
      match visible with
      | v :: visible' => v :: spread pads' visible'
      | [] => false :: spread pads' []
      end
  end.

Definition layout_mask (t : TorrentFile) (visible : list bool) : list bool := spread (t_padding t) visible.

Definition visible_mask (t : TorrentFile) (layout : list bool) : list bool :=
  (fun e : nat * bool => default false (layout !! e.1)) <$>
    filter (fun e : nat * bool => e.2 = false) (imap pair (t_padding t)).

Definition selects_everything (t : TorrentFile) (layout : list bool) : bool :=
  forallb (fun e : nat * bool => e.2 || default false (layout !! e.1)) (imap pair (t_padding t)).

(** [piece_len]: [None] is a subtraction below zero. *)
Definition piece_len (t : TorrentFile) (index : Z) : option Z :=
  match v2_pieces t with
  | _ :: _ => Some (match zget (v2_pieces t) index with Some p => p_length p | None => 0 end)
  | [] =>
      let last_index := u_saturating_sub (zlen (pieces t)) 1 in
      if index =? last_index then
        let rest := total_length t - t_piece_length t * last_index in
        if rest <? 0 then None else Some rest
      else Some (t_piece_length t)
  end.

(** ** The span of the info dictionary *)

Lemma with_span_encode v post :
  wf v -> nesting v <= Bencode.MAX_DEPTH -> zlen (encode_into v ++ post) <= i64_max ->
  let bs := encode_into v ++ post in
  exists d, decode_value_with_span (decode_fuel bs) (Bencode.new bs) = Some (Ok ((v, (0, zlen (encode_into v))), d)).
Proof.
  intros Hwf Hn Hlen bs. unfold decode_value_with_span.
  rewrite (decode_value_encode v Hwf _ _ post); cbn [fuelled_bind].
  - eexists. done.
  - by apply new_in_range.
  - cbn. lia.
  - unfold decode_fuel, bs. rewrite length_app. lia.
  - done.
Qed.

Lemma encode_entry_pos e : 0 < zlen (encode_entry e).
Proof.
  unfold encode_entry. rewrite zlen_app. pose proof (length_encode_pos e.2). pose proof (zlen_nonneg (encode_bytes e.1)).
  unfold zlen in *. lia.
Qed.

Lemma drop_after {A} (pre post : list A) (n : Z) : n = zlen pre -> drop (Z.to_nat n) (pre ++ post) = post.
Proof. intros ->. unfold zlen. rewrite Nat2Z.id. apply drop_app_length. Qed.

(** Scanning the entries of a canonical dictionary finds the value of a key
    that is there. *)
Lemma key_span_loop_finds key v fuel (m : list (list Z * Bencode)) before :
  let data := before ++ flat_map encode_entry m ++ [101] in
  zlen data <= i64_max -> NoDup m.*1 ->
  Forall (fun e => zlen e.1 <= i64_max /\ wf e.2 /\ nesting e.2 <= Bencode.MAX_DEPTH) m ->
  (key, v) ∈ m -> (length m <= fuel)%nat ->
  exists a b, key_span_loop fuel data key (zlen before) = Some (Ok (a, b)) /\ slice data a b = encode v.
Proof.
  revert before fuel. induction m as [| [k w] m IH]; intros before fuel data Hlen Hnd Hm Hin Hfuel.
  { by apply not_elem_of_nil in Hin. }
  destruct fuel as [| fuel]; [simpl in Hfuel; lia |].
  apply Forall_cons in Hm as [(Hk & Hw & Hnw) Hm]. cbn [fst snd] in *. rewrite fmap_cons in Hnd. apply NoDup_cons in Hnd as [Hni Hnd].
  set (tail := flat_map encode_entry m ++ [101]).
  assert (data = before ++ encode_bytes k ++ encode_into w ++ tail) as Hdata.
  { unfold data, tail. change (flat_map encode_entry ((k, w) :: m)) with ((encode_bytes k ++ encode_into w) ++ flat_map encode_entry m).
    by rewrite <- !app_assoc. }
  destruct (encode_bytes_head k) as (x & r & Hx & Hdig).
  assert ((x =? 101) = false) as Hx101 by (apply is_ascii_digit_iff in Hdig; apply Z.eqb_neq; lia).
  assert (drop (Z.to_nat (zlen before)) data = encode_into (Bytes k) ++ encode_into w ++ tail) as Hk1
    by (rewrite Hdata; by apply drop_after).
  assert (zlen data = zlen before + zlen (encode_bytes k) + zlen (encode_into w) + zlen tail) as Hzl
    by (rewrite Hdata, !zlen_app; lia).
  pose proof (zlen_nonneg before). pose proof (zlen_nonneg (encode_bytes k)). pose proof (zlen_nonneg (encode_into w)).
  assert (zget data (zlen before) = Some x) as Hget by (by rewrite Hdata, zget_app_r, Hx).
  cbn [key_span_loop]. rewrite Hget, Hx101, Hk1.
  destruct (with_span_encode (Bytes k) (encode_into w ++ tail)) as (d1 & ->);
    [done | cbn; unfold Bencode.MAX_DEPTH; lia | change (encode_into (Bytes k)) with (encode_bytes k); rewrite !zlen_app; lia |].
  cbn [map_err fuelled_bind fst snd]. change (encode_into (Bytes k)) with (encode_bytes k).
  assert (drop (Z.to_nat (zlen before + zlen (encode_bytes k))) data = encode_into w ++ tail) as Hk2.
  { rewrite Hdata, app_assoc. apply drop_after. by rewrite zlen_app. }
  rewrite Hk2. destruct (with_span_encode w tail) as (d2 & ->); [done | done | rewrite zlen_app; lia |].
  cbn [map_err fuelled_bind fst snd]. case_bool_decide as Heq.
  - subst k. eexists _, _. split; [done |]. rewrite Z.add_0_r.
    assert (w = v) as ->.
    { apply elem_of_cons in Hin as [[= ->] | Hin]; [done |]. exfalso. apply Hni. by apply (list_elem_of_fmap_2 fst _ (key, v)). }
    rewrite Hdata, app_assoc, <- zlen_app. apply slice_app_mid.
  - apply elem_of_cons in Hin as [[= -> ->] | Hin]; [done |].
    destruct (IH (before ++ encode_bytes k ++ encode_into w) fuel) as (a & b & Hab & Hs); [| done | done | done | simpl in Hfuel; lia |].
    + rewrite <- !app_assoc. fold tail. by rewrite <- Hdata.
    + exists a, b. rewrite <- !app_assoc in Hab, Hs. fold tail in Hab, Hs. rewrite <- Hdata in Hab, Hs.
      split; [| done]. rewrite <- Hab. f_equal. rewrite !zlen_app. lia.
Qed.

Lemma length_flat_map_entries (m : list (list Z * Bencode)) : (length m <= length (flat_map encode_entry m))%nat.
Proof.
  induction m as [| e m IH]; [simpl; lia |]. cbn [flat_map length]. rewrite length_app.
  pose proof (encode_entry_pos e). unfold zlen in *. lia.
Qed.

(** In a canonical dictionary the scan finds what the decoder found. *)
Lemma find_key_span_encode m key v :
  wf (Dict m) -> nesting (Dict m) <= Bencode.MAX_DEPTH -> zlen (encode (Dict m)) <= i64_max -> bt_get m key = Some v ->
  exists a b, find_key_span (encode (Dict m)) key = Some (Ok (a, b)) /\ slice (encode (Dict m)) a b = encode v.
Proof.
  intros Hwf Hn Hlen Hget. apply wf_Dict in Hwf as [Hs Hm].
  assert (encode (Dict m) = [100] ++ flat_map encode_entry m ++ [101]) as Henc by done.
  unfold find_key_span. rewrite Henc in Hlen |- *. rewrite bool_decide_true by done.
  apply (key_span_loop_finds key v _ m [100]); [done | by apply bt_sorted_nodup | | by apply bt_get_elem |].
  - assert (Forall (fun e => nesting e.2 <= Bencode.MAX_DEPTH - 1) m) as Hn'
      by (apply nesting_Dict; [unfold Bencode.MAX_DEPTH; lia | lia]).
    rewrite Forall_forall in *. intros e He. destruct (Hm e He). split_and!; [done | done |]. specialize (Hn' e He). cbn in Hn'. lia.
  - pose proof (length_flat_map_entries m). rewrite !length_app. simpl. lia.
Qed.

(** ** The checks never panic *)

Lemma merkle_root_total (leaves : list Hash) pad : is_Some (merkle_root leaves (next_power_of_two (zlen leaves)) pad).
Proof.
  destruct (next_power_of_two_spec (zlen leaves)) as (b & -> & Hle & _). rewrite merkle_root_padded; [done |].
  unfold zlen in Hle. apply Nat2Z.inj_le. by rewrite Nat2Z.inj_pow.
Qed.

Lemma validate_each_total fs ls pl : is_Some (validate_each fs ls pl).
Proof.
  induction fs as [| f fs IH]; [done |]. cbn [validate_each]. destruct (pl <? file_length f); [| done].
  destruct (root f) as [r |]; [| done]. cbn [mbind option_bind]. destruct (bt_get ls r) as [layer |]; [| done].
  destruct (negb _); [done |]. destruct (merkle_root_total layer (layer_pad pl)) as [h ->]. cbn [mbind option_bind].
  by destruct (bool_decide _).
Qed.

Lemma validate_layers_total fs ls pl : is_Some (validate_layers fs ls pl).
Proof. unfold validate_layers. destruct (negb _); [done | apply validate_each_total]. Qed.

(** What validation establishes of each layer it finds. *)
Lemma validate_each_layer fs ls pl f r layer :
  validate_each fs ls pl = Some (Ok tt) -> f ∈ fs -> root f = Some r -> pl < file_length f -> bt_get ls r = Some layer ->
  zlen layer = div_ceil (file_length f) pl /\ merkle_root layer (next_power_of_two (zlen layer)) (layer_pad pl) = Some r.
Proof.
  intros H Hf Hr Hgt Hl. induction fs as [| g fs IH]; [by apply not_elem_of_nil in Hf |].
  cbn [validate_each] in H. apply elem_of_cons in Hf as [<- | Hf].
  - rewrite (proj2 (Z.ltb_lt _ _)) in H by done. rewrite Hr in H. cbn [mbind option_bind] in H. rewrite Hl in H.
    destruct (Z.eqb_spec (zlen layer) (div_ceil (file_length f) pl)); [| done]. cbn [negb] in H. split; [done |].
    destruct (merkle_root _ _ _) as [h |]; [| done]. cbn [mbind option_bind] in H. case_bool_decide; [by subst | done].
  - apply IH; [| done]. destruct (pl <? file_length g); [| done]. destruct (root g) as [r' |]; [| done].
    cbn [mbind option_bind] in H. destruct (bt_get ls r'); [| done]. destruct (negb _); [done |].
    destruct (merkle_root _ _ _); [| done]. cbn [mbind option_bind] in H. by destruct (bool_decide _).
Qed.

Definition sum_lengths (ps : list V2Piece) : Z := foldr (fun p acc => p_length p + acc) 0 ps.

Lemma sum_lengths_app ps qs : sum_lengths (ps ++ qs) = sum_lengths ps + sum_lengths qs.
Proof. induction ps as [| p ps IH]; simpl; lia. Qed.

Definition length_ok (pl : Z) (p : V2Piece) : Prop := 0 < p_length p <= pl.

Lemma plan_layer_lengths index len pl n layer :
  0 < pl < 2 ^ 32 -> n + zlen layer = div_ceil len pl ->
  exists ps, plan_layer index len pl n layer = Some ps /\ Forall (length_ok pl) ps /\ sum_lengths ps = Z.max 0 (len - n * pl).
Proof.
  intros Hpl. revert n. induction layer as [| h layer IH]; intros n Hn.
  - exists []. split_and!; [done | done |]. rewrite zlen_nil, Z.add_0_r in Hn.
    pose proof (proj1 (div_ceil_le len pl n ltac:(lia))). cbn. lia.
  - rewrite zlen_cons in Hn. cbn [plan_layer]. pose proof (zlen_nonneg layer).
    assert (n * pl < len) as Hlt by (apply lt_div_ceil; lia).
    rewrite (proj2 (Z.ltb_ge _ _)) by lia. destruct (IH (n + 1) ltac:(lia)) as (ps & -> & Hps & Hsum).
    cbn [mbind option_bind]. eexists. split; [done |]. unfold wrap. rewrite Z.mod_small by lia. split.
    + constructor; [| done]. unfold length_ok. cbn [p_length]. lia.
    + cbn [sum_lengths foldr p_length]. fold (sum_lengths ps). lia.
Qed.

(** A file whose root and length agree, as the parser of the tree ensures. *)
Definition root_fits (f : V2File) : Prop :=
  0 <= file_length f /\ (root f = None <-> file_length f = 0).

Lemma file_ok_root_fits f : file_ok f -> root_fits f.
Proof. intros (_ & _ & _ & Hlen & Hr). split; [lia |]. destruct (root f); [| done]. split; [done | lia]. Qed.

Definition sum_files (fs : list V2File) : Z := foldr (fun f acc => file_length f + acc) 0 fs.

(** On validated metadata the plan does not panic, and its pieces tile the files. *)
Lemma plan_from_lengths index fs ls pl :
  0 < pl < 2 ^ 32 -> Forall root_fits fs ->
  (forall f r layer, f ∈ fs -> root f = Some r -> pl < file_length f -> bt_get ls r = Some layer ->
     zlen layer = div_ceil (file_length f) pl) ->
  exists plan, plan_from index fs ls pl = Some plan /\
    match plan with
    | Some ps => Forall (length_ok pl) ps /\ sum_lengths ps = sum_files fs
    | None => True
    end.
Proof.
  intros Hpl Hfs. revert index. induction Hfs as [| f fs [H0 Hroot] Hfs IH]; intros index Hls; [by exists (Some []) |].
  destruct (IH (S index)) as (plan & Hplan & Hok); [intros g r layer Hg; apply Hls; by right |].
  cbn [plan_from sum_files foldr]. fold (sum_files fs). destruct (root f) as [r |] eqn:Hr.
  2: { rewrite Hplan. exists plan. split; [done |]. destruct plan; [| done].
       assert (file_length f = 0) as -> by (by apply Hroot). by rewrite Z.add_0_l. }
  assert (file_length f <> 0) as Hne by (intros H; by apply Hroot in H).
  assert (forall qs, Forall (length_ok pl) qs -> sum_lengths qs = file_length f ->
    exists plan', match plan_from (S index) fs ls pl with Some (Some rest) => Some (Some (qs ++ rest)) | other => other end = Some plan' /\
      match plan' with
      | Some ps => Forall (length_ok pl) ps /\ sum_lengths ps = file_length f + sum_files fs
      | None => True
      end) as Hmore.
  { intros qs Hqs Hsum. rewrite Hplan. destruct plan as [rest |]; [| by exists None]. exists (Some (qs ++ rest)).
    split; [done |]. destruct Hok as [Hrest Hsr]. rewrite sum_lengths_app. split; [by apply Forall_app | lia]. }
  destruct (Z.leb_spec (file_length f) pl) as [Hle | Hgt].
  - apply Hmore; [constructor; [| constructor] |]; unfold length_ok, sum_lengths; cbn [p_length foldr];
      unfold wrap; rewrite Z.mod_small by lia; lia.
  - destruct (bt_get ls r) as [layer |] eqn:Hl; [| by exists None].
    destruct (plan_layer_lengths index (file_length f) pl 0 layer Hpl) as (ps & -> & Hps & Hsum).
    { rewrite Z.add_0_l. apply (Hls f r); [by left | done | lia | done]. }
    cbn [mbind option_bind]. apply Hmore; [done | lia].
Qed.

Lemma map_err_total {A E F} (f : E -> F) (r : option (result A E)) : is_Some r -> is_Some (map_err f r).
Proof. intros [[a | e] ->]; done. Qed.

Lemma map_err_Ok {A E F} (f : E -> F) (r : option (result A E)) a : map_err f r = Some (Ok a) <-> r = Some (Ok a).
Proof. destruct r as [[] |]; simpl; naive_solver. Qed.

Lemma need_Ok {A} (o : option A) e a : need o e = Some (Ok a) <-> o = Some a.
Proof. unfold need. destruct o; simpl; naive_solver. Qed.

Lemma parse_layer_entries_sorted es out ls :
  bt_sorted out -> parse_layer_entries es out = Ok ls -> bt_sorted ls.
Proof.
  revert out. induction es as [| [r v] es IH]; intros out Hout H; [by injection H as <- |].
  cbn [parse_layer_entries] in H. destruct (negb _); [done |]. apply result_bind_Ok in H as (bytes & _ & H).
  destruct (negb _); [done |]. apply IH in H; [done | by apply bt_insert_sorted].
Qed.

(** The v2 side of a torrent: its files are those of a safe tree and its layers
    add up to their roots. *)
Record meta_ok (piece_length : Z) (m : V2Meta) : Prop := {
  mok_files : Forall file_ok (files m);
  mok_layers : validate_layers (files m) (layers m) piece_length = Some (Ok tt);
  mok_sorted : bt_sorted (layers m)
}.

Lemma v2_meta_ok info tree raw_info ls m :
  wf tree -> v2_meta info tree raw_info ls = Some (Ok m) ->
  exists pl, get_int info "piece length" = Some pl /\ meta_ok pl m /\ info_hash m = sha256 raw_info.
Proof.
  intros Hwf H. unfold v2_meta in H. bind_ok H as fs Ef. bind_ok H as lm El. bind_ok H as pl Ep. bind_ok H as u Ev.
  injection H as <-. apply map_err_Ok in Ef, El, Ev. apply need_Ok in Ep. exists pl. split_and!; [done | | done].
  destruct u. split; cbn [files layers]; [| done |].
  - injection Ef as Ef. by apply walk_ok in Ef as (new & -> & Hnew & _).
  - injection El as El. unfold parse_layers in El. destruct ls as [v |]; [| by injection El as <-].
    apply result_bind_Ok in El as (es & _ & El). by apply parse_layer_entries_sorted in El.
Qed.

Lemma v2_meta_total info tree raw_info ls : is_Some (v2_meta info tree raw_info ls).
Proof.
  unfold v2_meta. apply fuelled_bind_total; [apply map_err_total; by eexists |]. intros fs _.
  apply fuelled_bind_total; [apply map_err_total; by eexists |]. intros lm _.
  apply fuelled_bind_total; [by eexists |]. intros pl _.
  apply fuelled_bind_total; [apply map_err_total, validate_layers_total |]. by eexists.
Qed.

Lemma v2_entries_ok fs total es :
  0 <= total -> Forall file_ok fs -> v2_entries fs total = Ok es ->
  es = (fun f => (V2Hashes.path f, file_length f)) <$> fs /\ total + sum_files fs <= Z.max total (u_max 64).
Proof.
  intros Ht Hfs. revert total es Ht. induction Hfs as [| f fs Hf Hfs IH]; intros total es Ht H.
  - injection H as <-. cbn. split; [done | lia].
  - cbn [v2_entries] in H. apply result_bind_Ok in H as (t & Htot & H). apply ok_or_Ok in Htot. unfold u_checked_add in Htot.
    destruct (Z.leb_spec (total + file_length f) (u_max 64)); [| done]. injection Htot as <-.
    apply result_bind_Ok in H as (len & Hlen & H). apply result_bind_Ok in H as (rest & Hrest & H). injection H as <-.
    destruct (Z.leb_spec (file_length f) i64_max); [| done]. injection Hlen as <-.
    destruct Hf as (_ & _ & _ & Hf & _). apply IH in Hrest as [-> Hsum]; [| lia]. split; [done |].
    cbn [sum_files foldr]. fold (sum_files fs). lia.
Qed.

Lemma validate_layers_Ok fs ls pl :
  validate_layers fs ls pl = Some (Ok tt) -> valid_piece_length pl = true /\ validate_each fs ls pl = Some (Ok tt).
Proof. unfold validate_layers. by destruct (valid_piece_length pl). Qed.

(** The plan of validated metadata. *)
Lemma meta_plan pl m :
  meta_ok pl m -> pl <= MAX_PIECE_LENGTH -> exists plan, plan_pieces (files m) (layers m) pl = Some plan /\
    match plan with
    | Some ps => Forall (length_ok pl) ps /\ sum_lengths ps = sum_files (files m)
    | None => True
    end.
Proof.
  intros [Hf Hl _] Hpl. apply validate_layers_Ok in Hl as [Hv Hl].
  apply valid_piece_length_spec in Hv as [_ Hv]. unfold MAX_PIECE_LENGTH in Hpl. unfold BLOCK in Hv.
  apply plan_from_lengths; [lia | |].
  - apply (Forall_impl _ _ _ Hf). apply file_ok_root_fits.
  - intros f r layer Hin Hr Hgt Hget. by apply (validate_each_layer _ _ _ f r layer Hl).
Qed.

(** ** What an accepted torrent is *)

Definition entry_safe (f : list (list Z) * Z) : Prop :=
  f.1 <> [] /\ Forall (fun part => is_safe_component part = true) f.1 /\ 0 <= f.2 <= i64_max.

Record torrent_ok (t : TorrentFile) : Prop := {
  tok_piece_length : 0 < t_piece_length t <= MAX_PIECE_LENGTH;
  tok_name : is_safe_component (t_name t) = true;
  tok_files : Forall entry_safe (t_files t);
  tok_padding : length (t_padding t) = length (t_files t);
  tok_total : total_length t <= u_max 64;
  tok_meta : match v2 t with Some m => meta_ok (t_piece_length t) m | None => True end;
  tok_v1 : is_v2_only t = false ->
    v2_pieces t = [] /\ zlen (pieces t) = div_ceil (total_length t) (t_piece_length t);
  tok_v2 : is_v2_only t = true ->
    pieces t = (fun p => take 20 (p_root p)) <$> v2_pieces t /\ Forall (length_ok (t_piece_length t)) (v2_pieces t) /\
    (v2_pieces t <> [] -> sum_lengths (v2_pieces t) = total_length t) /\
    (forall m, v2 t = Some m -> t_files t = (fun f => (V2Hashes.path f, file_length f)) <$> files m)
}.

Lemma sum_files_entries fs :
  foldr Z.add 0 (snd <$> ((fun f => (V2Hashes.path f, file_length f)) <$> fs)) = sum_files fs.
Proof. induction fs as [| f fs IH]; [done |]. rewrite !fmap_cons. cbn [foldr snd sum_files]. by rewrite IH. Qed.

Lemma file_ok_entry f : file_ok f -> entry_safe (V2Hashes.path f, file_length f).
Proof.
  intros (Hp & _ & Hc & Hl & _). split; [exact Hp |]. split; [| exact Hl]. apply (Forall_impl _ _ _ Hc). by intros part [_ ?].
Qed.

Lemma build_v2_ok info tree raw_info ann al urls ls t :
  wf tree -> get info (str "pieces") = None ->
  build_v2_only_torrent info tree raw_info ann al urls ls = Some (Ok t) ->
  torrent_ok t /\ t_info t = info /\ is_v2_only t = true /\ t_info_hash t = take 20 (sha256 raw_info).
Proof.
  intros Hwf Hnp H. unfold build_v2_only_torrent in H. bind_ok H as pl Ep. apply need_Ok in Ep.
  destruct (valid_piece_length pl) eqn:Hv; [| done]. cbn [negb] in H.
  destruct (Z.ltb_spec MAX_PIECE_LENGTH pl); [done |]. bind_ok H as name En.
  destruct (is_safe_component name) eqn:Hname; [| done]. cbn [negb] in H. bind_ok H as m Em. bind_ok H as es Ee.
  injection Ee as Ee. apply v2_meta_ok in Em as (pl' & Hpl' & Hm & Hih); [| done]. rewrite Ep in Hpl'. injection Hpl' as <-.
  destruct (meta_plan pl m Hm) as (plan & Hplan & Hok); [lia |]. rewrite Hplan in H. cbn [mbind option_bind] in H.
  injection H as <-. apply v2_entries_ok in Ee as [-> Hsum]; [| lia | apply Hm].
  assert (is_v2_only (mkTorrentFile ann al info (short_hash m) pl ((fun p => take 20 (p_root p)) <$> default [] plan) name
     ((fun f => (V2Hashes.path f, file_length f)) <$> files m) (replicate (length ((fun f => (V2Hashes.path f, file_length f)) <$> files m)) false)
     (negb (bool_decide (V2Hashes.path <$> files m = [[name]]))) urls (is_private info) (Some m) (default [] plan)) = true) as Hv2.
  { unfold is_v2_only. cbn [v2 t_info]. by rewrite Hnp, !bool_decide_true by eauto. }
  split_and!; [| done | exact Hv2 | unfold short_hash; cbn [t_info_hash]; by rewrite Hih].
  split; rewrite ?Hv2; cbn [t_piece_length t_name t_files t_padding v2 pieces v2_pieces]; try done.
  - apply valid_piece_length_spec in Hv as [_ Hv]. unfold BLOCK in Hv. lia.
  - apply Forall_fmap, (Forall_impl _ _ _ (mok_files _ _ Hm)). apply file_ok_entry.
  - apply length_replicate.
  - unfold total_length. cbn [t_files]. rewrite sum_files_entries. unfold u_max in *. lia.
  - intros _. split; [done |]. unfold total_length. cbn [t_files]. rewrite sum_files_entries.
    split_and!; [by destruct plan as [ps |]; [apply Hok |] | | by intros m' [= <-]].
    destruct plan as [ps |]; [intros _; apply Hok | done].
Qed.

Lemma file_entries_ok fs es :
  file_entries fs = Ok es -> Forall (fun f => wf f) fs -> Forall entry_safe (fst <$> es).
Proof.
  revert es. induction fs as [| f fs IH]; intros es H Hwf; [injection H as <-; constructor |].
  cbn [file_entries] in H. apply result_bind_Ok in H as (e & He & H). apply result_bind_Ok in H as (rest & Hr & H).
  injection H as <-. apply Forall_cons in Hwf as [Hf Hwf]. rewrite fmap_cons. constructor; [| by apply IH].
  unfold file_entry in He. apply result_bind_Ok in He as (len & Hlen & He). apply ok_or_Ok in Hlen.
  destruct (Z.ltb_spec len 0); [done |]. apply result_bind_Ok in He as (parts & _ & He).
  case_bool_decide as Hne; [done |]. destruct (list_find _ _) as [[i bad] |] eqn:Hfind; [done |]. injection He as <-.
  split; [done |]. split.
  - apply list_find_None in Hfind. apply (Forall_impl _ _ _ Hfind). intros part Hp. by destruct (is_safe_component part).
  - unfold get_int in Hlen. apply bind_Some in Hlen as (v & Hv & Hi). pose proof (wf_get _ _ _ Hf Hv) as Hwv.
    destruct v; try done. injection Hi as <-. destruct Hwv as [_ Hmax]. done.
Qed.

Lemma v1_files_ok info name es :
  wf info -> is_safe_component name = true -> v1_files info name = Ok es -> Forall entry_safe (fst <$> es).
Proof.
  intros Hwf Hname H. unfold v1_files in H. destruct (get_int info "length") as [len |] eqn:Hlen.
  - destruct (Z.ltb_spec len 0); [done |]. injection H as <-. apply Forall_singleton.
    unfold get_int in Hlen. apply bind_Some in Hlen as (v & Hv & Hi). pose proof (wf_get _ _ _ Hwf Hv) as Hwv.
    destruct v; try done. injection Hi as <-. destruct Hwv as [_ Hmax]. split; [done |]. split; [by apply Forall_singleton | done].
  - destruct (get_list info "files") as [l |] eqn:Hl; [| done]. apply file_entries_ok in H; [done |].
    unfold get_list in Hl. apply bind_Some in Hl as (v & Hv & Hi). pose proof (wf_get _ _ _ Hwf Hv) as Hwv.
    destruct v; try done. injection Hi as <-. by apply wf_List in Hwv.
Qed.

Lemma checked_total_ok sum lens total :
  Forall (fun l => 0 <= l) lens -> checked_total sum lens = Some total ->
  total = sum + foldr Z.add 0 lens /\ total <= Z.max sum (u_max 64).
Proof.
  intros Hl. revert sum. induction Hl as [| l lens H0 Hl IH]; intros sum H.
  - injection H as <-. cbn. lia.
  - cbn [checked_total] in H. unfold u_checked_add in H. destruct (Z.leb_spec (sum + l) (u_max 64)); [| done].
    cbn [mbind option_bind] in H. apply IH in H as [-> Hmax]. cbn [foldr]. lia.
Qed.

Section accepted.
Context (sha1 : list Z -> list Z).

Lemma build_v1_ok info raw_info ann al urls meta t :
  wf info -> (is_Some meta -> is_Some (get info (str "pieces"))) ->
  (forall m pl, meta = Some m -> get_int info "piece length" = Some pl -> meta_ok pl m) ->
  build_v1_torrent sha1 info raw_info ann al urls meta = Ok t ->
  torrent_ok t /\ t_info t = info /\ is_v2_only t = false /\ t_info_hash t = sha1 raw_info.
Proof using Type.
  intros Hwf Hmp Hmeta H. unfold build_v1_torrent in H.
  apply result_bind_Ok in H as (pl & Hpl & H). apply ok_or_Ok in Hpl. destruct (Z.leb_spec pl 0); [done |].
  apply result_bind_Ok in H as (raw & Hraw & H). apply ok_or_Ok in Hraw.
  destruct (negb _); [done |]. destruct (Z.ltb_spec MAX_PIECE_LENGTH pl); [done |].
  apply result_bind_Ok in H as (name & _ & H). destruct (is_safe_component name) eqn:Hname; [| done]. cbn [negb] in H.
  apply result_bind_Ok in H as (es & Hes & H). apply result_bind_Ok in H as (total & Htot & H). apply ok_or_Ok in Htot.
  destruct (Z.eqb_spec (zlen (as_chunks (length raw) 20 raw)) (div_ceil total pl)) as [Hcount |]; [| done]. cbn [negb] in H.
  injection H as <-. pose proof (v1_files_ok info name es Hwf Hname Hes) as Hsafe.
  apply checked_total_ok in Htot as [-> Hmax].
  2: { apply Forall_fmap, (Forall_impl _ _ _ Hsafe). intros f (_ & _ & ? & _). done. }
  assert (is_Some (get info (str "pieces"))) as Hp.
  { unfold get_bytes in Hraw. apply bind_Some in Hraw as (v & Hv & _). by exists v. }
  assert (forall b, is_v2_only (mkTorrentFile ann al info (sha1 raw_info) pl (as_chunks (length raw) 20 raw) name (fst <$> es)
            (snd <$> es) b urls (is_private info) meta []) = false) as Hv2.
  { intros b. unfold is_v2_only. cbn [v2 t_info]. rewrite (bool_decide_false (get info _ = None)); [apply andb_false_r |].
    destruct Hp as [v Hv]. by rewrite Hv. }
  split_and!; [| done | by rewrite Hv2 | done].
  split; rewrite ?Hv2; cbn [t_piece_length t_name t_files t_padding v2 pieces v2_pieces]; try done.
  - by rewrite !length_fmap.
  - destruct meta as [m |]; [| done]. by apply Hmeta.
Qed.

Lemma build_torrent_ok info raw_info ann al urls ls t :
  wf info -> build_torrent_from_info sha1 info raw_info ann al urls ls = Some (Ok t) ->
  torrent_ok t /\ t_info t = info /\
  t_info_hash t = if is_v2_only t then take 20 (sha256 raw_info) else sha1 raw_info.
Proof using Type.
  intros Hwf H. unfold build_torrent_from_info in H.
  assert (forall meta, (is_Some meta -> is_Some (get info (str "pieces"))) ->
    (forall m pl, meta = Some m -> get_int info "piece length" = Some pl -> meta_ok pl m) ->
    build_v1_torrent sha1 info raw_info ann al urls meta = Ok t ->
    torrent_ok t /\ t_info t = info /\ t_info_hash t = if is_v2_only t then take 20 (sha256 raw_info) else sha1 raw_info) as Hv1.
  { intros meta H1 H2 H3. destruct (build_v1_ok info raw_info ann al urls meta t Hwf H1 H2 H3) as (Hok & Hi & Hv & Hh).
    by rewrite Hv. }
  assert (forall m : V2Meta, None = Some m -> False) as Hnone by done.
  destruct (get_int info "meta version") as [v |]; [| injection H as H; by apply (Hv1 None); [intros [? [=]] | |]].
  destruct (negb (v =? 2)); [done |]. destruct (get info (str "file tree")) as [tree |] eqn:Htree.
  2: { injection H as H. by apply (Hv1 None); [intros [? [=]] | |]. }
  pose proof (wf_get _ _ _ Hwf Htree) as Hwt. destruct (get info (str "pieces")) as [pv |] eqn:Hp.
  - destruct (v2_meta info tree raw_info ls) as [[m | e] |] eqn:Hm; [| | done]; cbn [mbind option_bind] in H; injection H as H.
    + apply (Hv1 (Some m)); [by eexists | | done]. intros m' pl [= <-] Hpl.
      apply v2_meta_ok in Hm as (pl' & Hpl' & Hok & _); [| done]. rewrite Hpl in Hpl'. by injection Hpl' as <-.
    + by apply (Hv1 None); [intros [? [=]] | |].
  - destruct (build_v2_ok info tree raw_info ann al urls ls t Hwt Hp H) as (Hok & Hi & Hv & Hh). by rewrite Hv.
Qed.

Lemma build_torrent_total info raw_info ann al urls ls :
  wf info -> is_Some (build_torrent_from_info sha1 info raw_info ann al urls ls).
Proof using Type.
  intros Hwf. unfold build_torrent_from_info. destruct (get_int info "meta version") as [v |]; [| done].
  destruct (negb (v =? 2)); [done |]. destruct (get info (str "file tree")) as [tree |] eqn:Htree; [| done].
  pose proof (wf_get _ _ _ Hwf Htree) as Hwt. destruct (get info (str "pieces")) as [pv |].
  { destruct (v2_meta_total info tree raw_info ls) as [r ->]. done. }
  unfold build_v2_only_torrent. apply fuelled_bind_total; [by eexists |]. intros pl Hpl. apply need_Ok in Hpl.
  destruct (negb _); [done |]. destruct (Z.ltb_spec MAX_PIECE_LENGTH pl); [done |].
  apply fuelled_bind_total; [by eexists |]. intros name _. destruct (negb _); [done |].
  apply fuelled_bind_total; [apply v2_meta_total |]. intros m Hm.
  apply v2_meta_ok in Hm as (pl' & Hpl' & Hok & _); [| done]. rewrite Hpl in Hpl'. injection Hpl' as <-.
  apply fuelled_bind_total; [by eexists |]. intros es _.
  destruct (meta_plan pl m Hok ltac:(lia)) as (plan & -> & _). done.
Qed.

(** A buffer that decodes to a dictionary with an info entry. *)
Lemma parse_torrent_inv data :
  zlen data <= i64_max -> forall top dict info,
  decode data = Some (Ok top) -> as_dict top = Some dict -> bt_get dict (str "info") = Some info ->
  exists a b, find_key_span data (str "info") = Some (Ok (a, b)) /\ slice data a b = encode info /\ wf info.
Proof using Type.
  intros Hlen top dict info Hdec Hdict Hinfo. destruct top; try done. injection Hdict as ->.
  apply decode_top_sound in Hdec as (Hwf & Hn & Henc); [| done]. specialize (Henc eq_refl). subst data.
  destruct (find_key_span_encode dict (str "info") info Hwf Hn Hlen Hinfo) as (a & b & Hspan & Hslice).
  exists a, b. split_and!; [done | done |]. apply (wf_get (Dict dict) (str "info")); done.
Qed.

(** The info dictionary decodes from its own bytes. *)
Lemma decode_info data top dict info :
  zlen data <= i64_max -> decode data = Some (Ok top) -> as_dict top = Some dict -> bt_get dict (str "info") = Some info ->
  decode (encode info) = Some (Ok info).
Proof using Type.
  intros Hlen Hdec Hdict Hinfo. destruct top; try done. injection Hdict as ->.
  apply decode_top_sound in Hdec as (Hwf & Hn & Henc); [| done]. specialize (Henc eq_refl).
  destruct (find_key_span_encode dict (str "info") info Hwf Hn ltac:(by rewrite Henc) Hinfo) as (a & b & _ & Hslice).
  apply decode_top_encode.
  - by apply (wf_get (Dict dict) (str "info")).
  - assert (Forall (fun e => nesting e.2 <= Bencode.MAX_DEPTH - 1) dict) as Hn'
      by (apply nesting_Dict; [unfold Bencode.MAX_DEPTH; lia | lia]).
    apply wf_Dict in Hwf as [Hs _]. apply bt_get_elem in Hinfo; [| done]. rewrite Forall_forall in Hn'.
    specialize (Hn' _ Hinfo). cbn in Hn'. lia.
  - rewrite <- Hslice, Henc. unfold slice, zlen in *. rewrite length_take, length_drop. lia.
Qed.

End accepted.

(** ** Pieces *)

(** The lengths of the pieces, as the downloader asks for them one by one. *)
Definition piece_lens (t : TorrentFile) : option (list Z) := mapM (piece_len t) (seqZ 0 (zlen (pieces t))).

Lemma piece_lens_lookup t (lens : list Z) :
  zlen lens = zlen (pieces t) -> (forall (i : nat) l, lens !! i = Some l -> piece_len t (Z.of_nat i) = Some l) ->
  piece_lens t = Some lens.
Proof.
  intros Hlen H. apply mapM_Some. apply Forall2_same_length_lookup_2.
  - rewrite length_seqZ. unfold zlen in *. lia.
  - intros i x y Hx Hy. apply lookup_seqZ in Hx as [-> _]. rewrite Z.add_0_l. by apply H.
Qed.

Definition length_in (pl l : Z) : Prop := 0 < l <= pl.

Lemma sum_replicate n (x : Z) : foldr Z.add 0 (replicate n x) = Z.of_nat n * x.
Proof. induction n as [| n IH]; [done |]. cbn [replicate foldr]. rewrite IH. lia. Qed.

Lemma sum_app l k : foldr Z.add 0 (l ++ k) = foldr Z.add 0 l + foldr Z.add 0 k.
Proof. induction l as [| x l IH]; cbn; lia. Qed.

Lemma v1_piece_lens t :
  torrent_ok t -> is_v2_only t = false ->
  exists lens, piece_lens t = Some lens /\ Forall (length_in (t_piece_length t)) lens /\ foldr Z.add 0 lens = total_length t.
Proof.
  intros Hok Hv. destruct (tok_v1 t Hok Hv) as [Hp Hn]. destruct (tok_piece_length t Hok) as [Hpl _].
  assert (0 <= total_length t) as H0.
  { unfold total_length. pose proof (tok_files t Hok) as Hf. clear -Hf. induction Hf as [| f fs (_ & _ & H & _) Hf IH]; cbn; lia. }
  set (pl := t_piece_length t) in *. set (n := div_ceil (total_length t) pl) in *.
  destruct (decide (n = 0)) as [Hz | Hz].
  - exists []. split; [| split; [constructor |]].
    + apply piece_lens_lookup; [by rewrite Hn, Hz | done].
    + assert (total_length t <= 0 * pl) by (apply div_ceil_le; [done | fold n; lia]). cbn [foldr]. lia.
  - assert (0 <= n) by (by apply div_ceil_nonneg).
    assert (pl * (n - 1) < total_length t) as Hlo by (rewrite Z.mul_comm; apply lt_div_ceil; [done | fold n; lia]).
    assert (total_length t <= n * pl) as Hhi by (by apply div_ceil_le).
    exists (replicate (Z.to_nat (n - 1)) pl ++ [total_length t - pl * (n - 1)]). split; [| split].
    + apply piece_lens_lookup.
      * rewrite zlen_app, zlen_replicate, zlen_cons, zlen_nil. lia.
      * intros i l Hl. unfold piece_len. rewrite Hp, Hn. unfold u_saturating_sub. rewrite Z.max_r by lia.
        apply lookup_app_Some in Hl as [Hl | [Hge Hl]].
        -- apply lookup_replicate in Hl as [-> Hi]. rewrite (proj2 (Z.eqb_neq _ _)) by lia. done.
        -- rewrite length_replicate in Hge, Hl. destruct (i - Z.to_nat (n - 1))%nat eqn:E; [| done]. injection Hl as <-.
           rewrite (proj2 (Z.eqb_eq _ _)) by lia. fold pl. by rewrite (proj2 (Z.ltb_ge _ _)) by lia.
    + apply Forall_app. split; [apply Forall_replicate; unfold length_in; lia |]. apply Forall_singleton. unfold length_in. lia.
    + rewrite sum_app, sum_replicate, Z2Nat.id by lia. cbn [foldr]. lia.
Qed.

Lemma v2_piece_lens t :
  torrent_ok t -> v2_ready t = true ->
  exists lens, piece_lens t = Some lens /\ Forall (length_in (t_piece_length t)) lens /\ foldr Z.add 0 lens = total_length t.
Proof.
  intros Hok Hr. unfold v2_ready in Hr. apply andb_true_iff in Hr as [Hv Hr].
  destruct (tok_v2 t Hok Hv) as (Hp & Hl & Hsum & _). exists (p_length <$> v2_pieces t). split; [| split].
  - apply piece_lens_lookup; [rewrite Hp; unfold zlen; by rewrite !length_fmap |].
    intros i l Hi. rewrite list_lookup_fmap in Hi. destruct (v2_pieces t !! i) as [p |] eqn:Hpi; [| done]. injection Hi as <-.
    unfold piece_len. destruct (v2_pieces t) as [| q qs] eqn:Eq; [done |]. by rewrite zget_nat, Nat2Z.id, Hpi by lia.
  - apply Forall_fmap. exact Hl.
  - assert (foldr Z.add 0 (p_length <$> v2_pieces t) = sum_lengths (v2_pieces t)) as ->.
    { generalize (v2_pieces t). induction l as [| p l IH]; [done |]. rewrite fmap_cons. cbn. by rewrite IH. }
    apply orb_true_iff in Hr as [Hr | Hr].
    + apply Hsum. by apply negb_true_iff, bool_decide_eq_false in Hr.
    + apply Z.eqb_eq in Hr. destruct (decide (v2_pieces t = [])) as [E | E]; [rewrite E; cbn; lia | by apply Hsum].
Qed.

(** ** Layers fetched later *)

Lemma bt_get_extend (ls m : Layers) r :
  bt_sorted m -> bt_sorted ls ->
  bt_get (foldl (fun m e => bt_insert m e.1 e.2) m ls) r = match bt_get ls r with Some l => Some l | None => bt_get m r end
  /\ bt_sorted (foldl (fun m e => bt_insert m e.1 e.2) m ls).
Proof.
  revert m. induction ls as [| [k l] ls IH]; intros m Hm Hls; [done |]. destruct Hls as [Hk Hls]. cbn [foldl fst snd].
  destruct (IH (bt_insert m k l)) as [IH1 IH2]; [by apply bt_insert_sorted | done |]. rewrite IH1. split; [| done].
  cbn [bt_get]. destruct (kcmp r k) eqn:E.
  - apply kcmp_eq_iff in E as ->. rewrite bt_get_above by done. by rewrite bt_get_insert_eq.
  - rewrite bt_get_above. 2: { apply (Forall_impl _ _ _ Hk). intros e He. by apply (kcmp_lt_trans r k). }
    rewrite bt_get_insert_ne; [done | done |]. intros ->. by rewrite kcmp_refl in E.
  - destruct (bt_get ls r); [done |]. rewrite bt_get_insert_ne; [done | done |]. intros ->. by rewrite kcmp_refl in E.
Qed.

Lemma validate_each_iff fs ls pl :
  (forall f r layer, f ∈ fs -> root f = Some r -> pl < file_length f -> bt_get ls r = Some layer ->
     zlen layer = div_ceil (file_length f) pl /\ merkle_root layer (next_power_of_two (zlen layer)) (layer_pad pl) = Some r) ->
  validate_each fs ls pl = Some (Ok tt).
Proof.
  induction fs as [| f fs IH]; intros H; [done |]. cbn [validate_each].
  assert (validate_each fs ls pl = Some (Ok tt)) as Hrest by (apply IH; intros g r layer Hg; apply H; by right).
  destruct (Z.ltb_spec pl (file_length f)); [| done]. destruct (root f) as [r |] eqn:Hr; [| done]. cbn [mbind option_bind].
  destruct (bt_get ls r) as [layer |] eqn:Hl; [| done].
  destruct (H f r layer ltac:(by left) Hr ltac:(done) Hl) as [Hz Hm].
  rewrite (proj2 (Z.eqb_eq _ _) Hz), Hm. cbn [negb mbind option_bind].
  by rewrite bool_decide_true.
Qed.

Lemma extend_meta_ok pl m ls :
  meta_ok pl m -> bt_sorted ls -> validate_layers (files m) ls pl = Some (Ok tt) ->
  meta_ok pl (mkV2Meta (files m) (foldl (fun m e => bt_insert m e.1 e.2) (layers m) ls) (info_hash m)).
Proof.
  intros [Hf Hl Hs] Hls Hv. pose proof (validate_layers_Ok _ _ _ Hl) as [Hpl Hold]. apply validate_layers_Ok in Hv as [_ Hnew].
  split; cbn [files layers]; [done | | by apply (bt_get_extend ls (layers m) [])].
  unfold validate_layers. rewrite Hpl. cbn [negb]. apply validate_each_iff. intros f r layer Hin Hr Hgt Hget.
  rewrite (proj1 (bt_get_extend ls (layers m) r Hs Hls)) in Hget.
  destruct (bt_get ls r) as [l |] eqn:E; [injection Hget as <-; by apply (validate_each_layer _ _ _ f r l Hnew) |].
  by apply (validate_each_layer _ _ _ f r layer Hold).
Qed.

(** ** The same torrent from a metadata exchange *)

(** What does not depend on where the info dictionary came from. *)
Definition same_torrent (t t' : TorrentFile) : Prop :=
  t_info t' = t_info t /\ t_info_hash t' = t_info_hash t /\ t_name t' = t_name t /\ t_files t' = t_files t /\
  t_padding t' = t_padding t /\ t_piece_length t' = t_piece_length t /\ multi_file t' = multi_file t /\ private t' = private t /\
  is_v2_only t' = is_v2_only t /\ (is_v2_only t = false -> pieces t' = pieces t).

Section same.
Context (sha1 : list Z -> list Z).

Lemma build_v1_same info raw_info ann al urls meta t ann' al' urls' meta' :
  build_v1_torrent sha1 info raw_info ann al urls meta = Ok t ->
  exists t', build_v1_torrent sha1 info raw_info ann' al' urls' meta' = Ok t' /\ same_torrent t t'.
Proof using Type.
  intros H. unfold build_v1_torrent in *.
  apply result_bind_Ok in H as (pl & -> & H). cbn [result_bind]. destruct (pl <=? 0); [done |].
  apply result_bind_Ok in H as (raw & Hraw & H). rewrite Hraw. cbn [result_bind].
  destruct (negb _); [done |]. destruct (MAX_PIECE_LENGTH <? pl); [done |].
  apply result_bind_Ok in H as (name & -> & H). cbn [result_bind]. destruct (negb (is_safe_component name)); [done |].
  apply result_bind_Ok in H as (es & -> & H). cbn [result_bind].
  apply result_bind_Ok in H as (total & -> & H). cbn [result_bind].
  destruct (negb _); [done |]. injection H as <-. eexists. split; [done |].
  assert (get info (str "pieces") <> None) as Hp.
  { apply ok_or_Ok in Hraw. unfold get_bytes in Hraw. apply bind_Some in Hraw as (v & Hv & _). by rewrite Hv. }
  split_and!; try done. unfold is_v2_only. cbn [v2 t_info]. rewrite (bool_decide_false (get info _ = None)) by done.
  by rewrite !andb_false_r.
Qed.

Lemma v2_meta_without_layers info tree raw_info ls m :
  v2_meta info tree raw_info ls = Some (Ok m) ->
  v2_meta info tree raw_info None = Some (Ok (mkV2Meta (files m) [] (info_hash m))).
Proof using Type.
  intros H. unfold v2_meta in *. bind_ok H as fs Ef. bind_ok H as lm El. bind_ok H as pl Ep. bind_ok H as u Ev.
  injection H as <-. rewrite Ef. cbn [fuelled_bind parse_layers map_err]. rewrite Ep. cbn [fuelled_bind].
  apply map_err_Ok in Ev. destruct u. apply validate_layers_Ok in Ev as [Hv _].
  unfold validate_layers. rewrite Hv. cbn [negb]. rewrite validate_each_iff; [done |]. done.
Qed.

Lemma build_torrent_same info raw_info ann al urls ls t ann' al' :
  wf info -> build_torrent_from_info sha1 info raw_info ann al urls ls = Some (Ok t) ->
  exists t', build_torrent_from_info sha1 info raw_info ann' al' [] None = Some (Ok t') /\ same_torrent t t'.
Proof using Type.
  intros Hwf H. pose proof (build_torrent_ok sha1 _ _ _ _ _ _ _ Hwf H) as (Hok & Hinfo & Hhash).
  assert (forall meta meta', build_v1_torrent sha1 info raw_info ann al urls meta = Ok t ->
    exists t', Some (build_v1_torrent sha1 info raw_info ann' al' [] meta') = Some (Ok t') /\ same_torrent t t') as Hv1.
  { intros meta meta' H1. destruct (build_v1_same _ _ _ _ _ _ _ ann' al' [] meta' H1) as (t' & -> & Hs). by exists t'. }
  unfold build_torrent_from_info in *. destruct (get_int info "meta version") as [v |]; [| injection H as H; by eapply Hv1].
  destruct (negb (v =? 2)); [done |]. destruct (get info (str "file tree")) as [tree |] eqn:Ht; [| injection H as H; by eapply Hv1].
  destruct (get info (str "pieces")) as [pv |] eqn:Hp.
  { destruct (v2_meta_total info tree raw_info None) as [r ->].
    destruct (v2_meta info tree raw_info ls) as [r' |]; [| done]. injection H as H. by eapply Hv1. }
  unfold build_v2_only_torrent in *. bind_ok H as pl Ep. rewrite Ep. cbn [fuelled_bind]. apply need_Ok in Ep.
  destruct (negb _); [done |]. destruct (Z.ltb_spec MAX_PIECE_LENGTH pl); [done |].
  bind_ok H as name En. rewrite En. cbn [fuelled_bind]. destruct (negb _); [done |]. bind_ok H as m Em.
  pose proof (v2_meta_without_layers _ _ _ _ _ Em) as Em'. rewrite Em'. cbn [fuelled_bind files layers].
  apply v2_meta_ok in Em' as (pl' & Hpl' & Hm & _); [| by apply (wf_get info (str "file tree"))].
  rewrite Ep in Hpl'. injection Hpl' as <-. destruct (meta_plan pl _ Hm) as (plan' & Hplan' & _); [lia |].
  cbn [files layers] in Hplan'. bind_ok H as es Ee. injection Ee as Ee. rewrite Ee. cbn [fuelled_bind]. rewrite Hplan'. cbn [mbind option_bind].
  destruct (plan_pieces (files m) (layers m) pl) as [plan |]; [| done]. cbn [mbind option_bind] in H. injection H as <-.
  eexists. split; [done |].
  assert (forall t', v2 t' = Some m \/ v2 t' = Some (mkV2Meta (files m) [] (V2Hashes.info_hash m)) -> t_info t' = info -> is_v2_only t' = true) as Hv2.
  { intros t' Hv Hi. unfold is_v2_only. rewrite Hi, Hp. destruct Hv as [-> | ->]; done. }
  split_and!; try done. by rewrite !Hv2 by auto.
Qed.

End same.

(** ** Selections *)

Definition shown (pads : list bool) : nat := length (filter (fun b => b = false) pads).

Lemma spread_length pads v : length (spread pads v) = length pads.
Proof. revert v. induction pads as [| [] pads IH]; intros v; [done | cbn; by rewrite IH |]. destruct v; cbn; by rewrite IH. Qed.

(** The flags of the files from some place on, read at their indices. *)
Definition flags_from (n : nat) (pads : list bool) : list (nat * bool) := imap (fun i b => ((n + i)%nat, b)) pads.

Lemma flags_from_cons n b pads : flags_from n (b :: pads) = (n, b) :: flags_from (S n) pads.
Proof.
  unfold flags_from. rewrite imap_cons. rewrite Nat.add_0_r. f_equal. apply imap_ext. intros i x _. cbn. f_equal. lia.
Qed.

Lemma spread_visible pads v pre :
  length v = shown pads ->
  (fun e : nat * bool => default false ((pre ++ spread pads v) !! e.1)) <$>
    filter (fun e : nat * bool => e.2 = false) (flags_from (length pre) pads) = v.
Proof.
  revert v pre. induction pads as [| p pads IH]; intros v pre Hv.
  { unfold shown in Hv. cbn in Hv. by destruct v. }
  rewrite flags_from_cons. unfold shown in Hv.
  assert (forall x w, S (length pre) = length (pre ++ [x]) /\ pre ++ x :: w = (pre ++ [x]) ++ w) as Hcut.
  { intros x w. rewrite length_app, Nat.add_1_r, <- app_assoc. done. }
  destruct p.
  - rewrite filter_cons_False by done. rewrite filter_cons_False in Hv by done. cbn [spread].
    destruct (Hcut false (spread pads v)) as [-> ->]. by apply IH.
  - rewrite filter_cons_True by done. rewrite filter_cons_True in Hv by done. destruct v as [| x v]; [done |].
    cbn [spread]. rewrite fmap_cons. cbn [fst]. f_equal.
    + by rewrite list_lookup_middle.
    + destruct (Hcut x (spread pads v)) as [-> ->]. apply IH. by injection Hv.
Qed.

Lemma spread_everything pads v pre :
  length v = shown pads ->
  forallb (fun e : nat * bool => e.2 || default false ((pre ++ spread pads v) !! e.1)) (flags_from (length pre) pads) = true
  <-> Forall (fun b => b = true) v.
Proof.
  revert v pre. induction pads as [| p pads IH]; intros v pre Hv.
  { unfold shown in Hv. cbn in Hv. destruct v; [| done]. split; [constructor | done]. }
  rewrite flags_from_cons. unfold shown in Hv.
  assert (forall x w, S (length pre) = length (pre ++ [x]) /\ pre ++ x :: w = (pre ++ [x]) ++ w) as Hcut.
  { intros x w. rewrite length_app, Nat.add_1_r, <- app_assoc. done. }
  destruct p.
  - rewrite filter_cons_False in Hv by done. cbn [spread forallb fst snd orb andb].
    destruct (Hcut false (spread pads v)) as [-> ->]. by apply IH.
  - rewrite filter_cons_True in Hv by done. destruct v as [| x v]; [done |]. cbn [spread forallb fst snd orb].
    rewrite list_lookup_middle by done. cbn [default]. rewrite andb_true_iff, Forall_cons.
    destruct (Hcut x (spread pads v)) as [-> ->]. rewrite IH by (by injection Hv). done.
Qed.

Lemma visible_count t : length (t_padding t) = length (t_files t) -> length (visible_files t) = shown (t_padding t).
Proof.
  unfold visible_files, shown. rewrite length_fmap. generalize (t_files t). induction (t_padding t) as [| p pads IH]; intros fs Hl.
  - by destruct fs.
  - destruct fs as [| f fs]; [done |]. cbn [zip zip_with]. injection Hl as Hl. destruct p.
    + rewrite !filter_cons_False by done. by apply IH.
    + rewrite !filter_cons_True by done. cbn. f_equal. by apply IH.
Qed.

Lemma flags_from_0 pads : imap pair pads = flags_from 0 pads.
Proof. unfold flags_from. apply imap_ext. done. Qed.

(** ** Properties *)

(** Parsing ends, and what it accepts is a good torrent with the hash of its info
    dictionary. *)
Lemma parse_torrent_ok (sha1 : list Z -> list Z) (data : list Z) : zlen data <= i64_max ->
  exists r, parse_torrent_file sha1 data = Some r /\
  forall t, r = Ok t -> torrent_ok t /\ exists raw, t_info_hash t = if is_v2_only t then take 20 (sha256 raw) else sha1 raw.
Proof.
  intros Hlen. assert (is_Some (parse_torrent_file sha1 data)) as [r Hr].
  { unfold parse_torrent_file. apply fuelled_bind_total; [by apply map_err_total, decode_top_total |].
    intros top Htop. apply map_err_Ok in Htop. apply fuelled_bind_total; [by eexists |]. intros dict Hd. apply need_Ok in Hd.
    apply fuelled_bind_total; [by eexists |]. intros info Hi. apply need_Ok in Hi.
    destruct (parse_torrent_inv data Hlen top dict info Htop Hd Hi) as (a & b & Hs & _ & Hwf).
    rewrite Hs. cbn [fuelled_bind]. by apply build_torrent_total. }
  exists r. split; [done |]. intros t ->. unfold parse_torrent_file in Hr. bind_ok Hr as top Htop. bind_ok Hr as dict Hd. bind_ok Hr as info Hi.
  apply map_err_Ok in Htop. apply need_Ok in Hd, Hi.
  destruct (parse_torrent_inv data Hlen top dict info Htop Hd Hi) as (a & b & Hs & _ & Hwf).
  rewrite Hs in Hr. cbn [fuelled_bind] in Hr. apply (build_torrent_ok sha1) in Hr as (Hok & _ & Hh); [| done]. split; [done | by eexists].
Qed.

(** C5: whatever bytes are given as a torrent file, reading them ends without a
    panic, and a torrent that is accepted is one the rest of the program can
    trust: a piece length between 1 byte and 128 MiB, names and paths made of
    plain components only, lengths that are not negative and whose total does
    not overflow, a padding flag per file, as many v1 piece hashes as the total
    needs, v2 layers that add up to their files' roots, and v2 pieces that tile
    the files. *)
Theorem torrent_accepted (sha1 : list Z -> list Z) (data : list Z) (Hlen : zlen data <= i64_max) :
  is_Some (parse_torrent_file sha1 data) /\
  forall t, parse_torrent_file sha1 data = Some (Ok t) -> torrent_ok t.
Proof.
  destruct (parse_torrent_ok sha1 data Hlen) as (r & -> & Hr). split; [by eexists |]. intros t [= ->]. by apply Hr.
Qed.

Definition example_info : Bencode :=
  Dict [(str "length", Int 20000); (str "name", Bytes (str "a")); (str "piece length", Int 16384);
        (str "pieces", Bytes (replicate 40 7))].
Definition example_torrent : list Z := encode (Dict [(str "announce", Bytes (str "http://t")); (str "info", example_info)]).

Definition no_sha1 (_ : list Z) : list Z := replicate 20 0.

Lemma torrent_accepted_witness :
  exists t, parse_torrent_file no_sha1 example_torrent = Some (Ok t) /\ torrent_ok t /\ piece_lens t = Some [16384; 3616].
Proof.
  eexists. split; [vm_compute; reflexivity |]. split; [| vm_compute; reflexivity].
  refine (proj2 (torrent_accepted no_sha1 example_torrent _) _ _); vm_compute; [discriminate | reflexivity].
Defined.

Lemma info_dict_rebuilt (sha1 : list Z -> list Z) (data : list Z) (t : TorrentFile)
    (Hlen : zlen data <= i64_max) (H : parse_torrent_file sha1 data = Some (Ok t)) :
  exists a b, find_key_span data (str "info") = Some (Ok (a, b)) /\ slice data a b = encode (t_info t) /\
    t_info_hash t = (if is_v2_only t then take 20 (sha256 (slice data a b)) else sha1 (slice data a b)) /\
    forall ann al, exists t', from_info_dict_bytes sha1 (slice data a b) (t_info_hash t) ann al = Some (Ok t') /\ same_torrent t t'.
Proof.
  unfold parse_torrent_file in H. bind_ok H as top Htop. bind_ok H as dict Hd. bind_ok H as info Hi.
  apply map_err_Ok in Htop. apply need_Ok in Hd, Hi.
  destruct (parse_torrent_inv data Hlen top dict info Htop Hd Hi) as (a & b & Hs & Hsl & Hwf).
  rewrite Hs in H. cbn [fuelled_bind fst snd] in H. pose proof (build_torrent_ok sha1 _ _ _ _ _ _ _ Hwf H) as (_ & Hinfo & Hh).
  exists a, b. rewrite Hinfo. split_and!; [done | done | done |]. intros ann al. unfold from_info_dict_bytes.
  assert (info_hash_matches sha1 (slice data a b) (t_info_hash t) = true) as ->.
  { rewrite Hh. unfold info_hash_matches. destruct (is_v2_only t); apply orb_true_iff; [right | left]; by apply bool_decide_eq_true. }
  cbn [negb]. rewrite Hsl in H |- *. rewrite (decode_info data top dict info) by done. cbn [map_err fuelled_bind].
  exact (build_torrent_same sha1 _ _ _ _ _ _ t ann al Hwf H).
Qed.

(** C25: the info hash is the hash of the exact bytes of the info dictionary: in
    an accepted torrent file the scan finds the span of the [info] value, the
    bytes there are the encoding of the dictionary that was parsed, and the
    info hash is their SHA-1, or the start of their SHA-256 if the torrent is
    v2 only; a client given those bytes by a magnet link's metadata exchange
    accepts them under that hash and gets the same torrent: name, files,
    padding, piece length and, for a v1 torrent, piece hashes. *)
Theorem info_hash_exact (sha1 : list Z -> list Z) (data : list Z) (t : TorrentFile)
    (Hlen : zlen data <= i64_max) (H : parse_torrent_file sha1 data = Some (Ok t)) :
  exists a b, find_key_span data (str "info") = Some (Ok (a, b)) /\ slice data a b = encode (t_info t) /\
    t_info_hash t = (if is_v2_only t then take 20 (sha256 (slice data a b)) else sha1 (slice data a b)) /\
    forall ann al, exists t', from_info_dict_bytes sha1 (slice data a b) (t_info_hash t) ann al = Some (Ok t') /\ same_torrent t t'.
Proof. by apply info_dict_rebuilt. Qed.

Lemma info_hash_exact_witness :
  exists a b, find_key_span example_torrent (str "info") = Some (Ok (a, b)) /\ slice example_torrent a b = encode example_info.
Proof.
  destruct (info_hash_exact no_sha1 example_torrent
    (mkTorrentFile (Some (str "http://t")) [] example_info (replicate 20 0) 16384 [replicate 20 7; replicate 20 7] (str "a")
       [([str "a"], 20000)] [false] false [] false None [])) as (a & b & H1 & H2 & _).
  - vm_compute. discriminate.
  - vm_compute. reflexivity.
  - exists a, b. split; [exact H1 | exact H2].
Defined.

(** The piece arithmetic is sound: in an accepted torrent (a v1 or hybrid
    one, or a v2 one whose layers are there) every piece has a length between
    1 and the piece length, computing it never underflows, and the pieces add
    up to exactly the torrent's bytes. *)
Theorem pieces_tile (t : TorrentFile) (Hok : torrent_ok t) (Hready : is_v2_only t = true -> v2_ready t = true) :
  exists lens, piece_lens t = Some lens /\ Forall (length_in (t_piece_length t)) lens /\ foldr Z.add 0 lens = total_length t.
Proof. destruct (is_v2_only t) eqn:E; [by apply v2_piece_lens, Hready | by apply v1_piece_lens]. Qed.

Definition example_parsed : TorrentFile :=
  mkTorrentFile None [] example_info (replicate 20 0) 16384 [replicate 20 7; replicate 20 7] (str "a")
    [([str "a"], 20000)] [false] false [] false None [].

Lemma example_info_wf : wf example_info.
Proof.
  apply wf_Dict. split; [vm_compute; by repeat constructor |].
  repeat (apply Forall_cons; split; [split; vm_compute; by try split |]). constructor.
Qed.

Lemma example_parsed_ok : torrent_ok example_parsed.
Proof.
  refine (proj1 (build_torrent_ok no_sha1 example_info [] None [] [] None example_parsed example_info_wf _)).
  vm_compute. reflexivity.
Qed.

Lemma pieces_tile_witness : exists lens, piece_lens example_parsed = Some lens /\ foldr Z.add 0 lens = 20000.
Proof.
  destruct (pieces_tile example_parsed) as (lens & H1 & _ & H2).
  - exact example_parsed_ok.
  - intros H. vm_compute in H. discriminate H.
  - exists lens. split; [exact H1 | exact H2].
Defined.

(** Layers fetched from peers only ever complete a torrent: whatever layers
    are offered, [install_layers] does not panic; layers that do not add up to
    the files' roots, or leave a file without one, change nothing; otherwise
    the torrent is still a good one, with the same files, name and info hash. *)
Theorem install_layers_safe (t : TorrentFile) (ls : Layers) (Hok : torrent_ok t) (Hv : is_v2_only t = true) (Hls : bt_sorted ls) :
  is_Some (install_layers t ls) /\
  forall t', install_layers t ls = Some (Ok t') ->
    torrent_ok t' /\ t_info t' = t_info t /\ t_info_hash t' = t_info_hash t /\ t_files t' = t_files t /\ t_name t' = t_name t /\
    is_v2_only t' = true.
Proof.
  pose proof (tok_meta t Hok) as Hm. unfold install_layers. destruct (v2 t) as [m |] eqn:Ev.
  2: { exfalso. unfold is_v2_only in Hv. rewrite Ev in Hv. done. }
  destruct (validate_layers_total (files m) ls (t_piece_length t)) as [[[] | e] Hval]; rewrite Hval; cbn [fuelled_bind].
  2: { split; [done |]. done. }
  pose proof (extend_meta_ok _ m ls Hm Hls Hval) as Hm'. destruct (tok_piece_length t Hok) as [Hpl Hmax].
  destruct (meta_plan _ _ Hm' Hmax) as (plan & Hplan & Hps). cbn [files layers] in Hplan, Hps. rewrite Hplan.
  cbn [mbind option_bind]. destruct plan as [ps |]; cbn [ok_or fuelled_bind]; [| done].
  split; [done |]. intros t' [= <-]. destruct Hps as [Hps Hsum].
  assert (forall p q, is_v2_only (mkTorrentFile (announce t) (announce_list t) (t_info t) (t_info_hash t) (t_piece_length t) p
     (t_name t) (t_files t) (t_padding t) (multi_file t) (url_list t) (private t)
     (Some (mkV2Meta (files m) (foldl (fun m e => bt_insert m e.1 e.2) (layers m) ls) (info_hash m))) q) = true) as Hv'.
  { intros p q. unfold is_v2_only in *. cbn [v2 t_info]. apply andb_true_iff in Hv as [_ ->]. done. }
  split_and!; try done; try apply Hv'. split; rewrite ?Hv'; cbn [t_piece_length t_name t_files t_padding v2 pieces v2_pieces];
    try (by apply Hok); try done.
  intros _. destruct (tok_v2 t Hok Hv) as (_ & _ & _ & Hfiles). specialize (Hfiles m Ev).
  split_and!; [done | done | | by intros m' [= <-]].
  intros _. rewrite Hsum. unfold total_length. cbn [t_files]. by rewrite Hfiles, sum_files_entries.
Qed.

Definition example_v2_info : Bencode :=
  Dict [(str "file tree", Dict [(str "a", Dict [([], Dict [(str "length", Int 3); (str "pieces root", Bytes (replicate 32 7))])])]);
        (str "meta version", Int 2); (str "name", Bytes (str "a")); (str "piece length", Int 16384)].

Definition example_v2 : TorrentFile :=
  match build_torrent_from_info no_sha1 example_v2_info [] None [] [] None with Some (Ok t) => t | _ => example_parsed end.

Lemma example_v2_ok : torrent_ok example_v2.
Proof.
  refine (proj1 (build_torrent_ok no_sha1 example_v2_info [] None [] [] None example_v2 _ _)); [| vm_compute; reflexivity].
  vm_compute. repeat split; by repeat constructor || discriminate.
Qed.

Lemma install_layers_safe_witness : exists t', install_layers example_v2 [] = Some (Ok t') /\ torrent_ok t'.
Proof.
  eexists. split; [vm_compute; reflexivity |].
  refine (proj1 (proj2 (install_layers_safe example_v2 [] example_v2_ok _ _) _ _)); vm_compute; done || reflexivity.
Defined.

(** Choosing files counts the visible ones: a mask over the files a person
    sees, spread over all of them, is one flag per file and comes back when
    read at the visible files; it selects everything exactly when every
    visible file is chosen. *)
Theorem selection_masks (t : TorrentFile) (visible : list bool)
    (Hpad : length (t_padding t) = length (t_files t)) (Hlen : length visible = length (visible_files t)) :
  length (layout_mask t visible) = length (t_files t) /\
  visible_mask t (layout_mask t visible) = visible /\
  (selects_everything t (layout_mask t visible) = true <-> Forall (fun b => b = true) visible).
Proof.
  rewrite visible_count in Hlen by done. unfold layout_mask, visible_mask, selects_everything. rewrite flags_from_0.
  split_and!; [by rewrite spread_length | by apply (spread_visible _ _ []) | by apply (spread_everything _ _ [])].
Qed.

Lemma selection_masks_witness :
  visible_mask example_parsed (layout_mask example_parsed [true]) = [true].
Proof. exact (proj1 (proj2 (selection_masks example_parsed [true] eq_refl eq_refl))). Defined.
