(* ===== verification/Metadata.v ===== *)
(** * Metadata exchange (BEP 9)

    Models [src/src/metadata.rs]: the messages, a bencoded header that raw bytes
    may follow, and the assembler that puts the info dictionary together from
    its 16 KiB pieces and checks it against the info hash a magnet link
    promised. *)

From S2P Require Import Torrent.
From S2P Require Import Prelude Str Numeral Text Bytes BTree Bencode Io Net Dicts Tracker PeerExt.

Definition METADATA_PIECE_SIZE : Z := 16 * 1024.
Definition MSG_TYPE_REQUEST : Z := 0.
Definition MSG_TYPE_DATA : Z := 1.
Definition MSG_TYPE_REJECT : Z := 2.

Inductive MetadataMessage : Type :=
| Request (piece : Z)
| Data (piece total_size : Z) (data : list Z)
| Reject (piece : Z).

Inductive MetadataError : Type :=
| Decode (e : DecodeError)
| NotADict
| MissingField (name : String.string)
| UnknownMsgType (n : Z)
| PieceOutOfRange (index count : Z)
| PieceSizeMismatch (index expected got : Z)
| IncompleteAssembly
| InfoHashMismatch
| SizeNotAcceptable (n : Z).
Arguments MissingField name%_string_scope.

(** ** Messages *)

(** The local encoder, [encode_value] and [encode_bencode_dict]. *)
Fixpoint encode_value (v : Bencode) : list Z :=
  match v with
  | Int i => [105] ++ i64_to_string i ++ [101]
  | Bytes b => u_to_string (zlen b) ++ [58] ++ b
  | List items => [108] ++ flat_map encode_value items ++ [101]
  | Dict map => [100] ++ flat_map (fun kv => (u_to_string (zlen kv.1) ++ [58] ++ kv.1) ++ encode_value kv.2) map ++ [101]
  end.

Definition encode_bencode_dict (dict : Entries) : list Z := encode_value (Dict dict).

Definition header (msg_type piece : Z) : Entries :=
  bt_insert (bt_insert [] (str "msg_type") (Int msg_type)) (str "piece") (Int piece).

Definition encode_msg (m : MetadataMessage) : list Z :=
  match m with
  | Request piece => encode_bencode_dict (header MSG_TYPE_REQUEST piece)
  | Data piece total_size data =>
      encode_bencode_dict (bt_insert (header MSG_TYPE_DATA piece) (str "total_size") (Int total_size)) ++ data
  | Reject piece => encode_bencode_dict (header MSG_TYPE_REJECT piece)
  end.

(** What the header says, with the bytes after it. *)
Definition message_of (value : Bencode) (raw : list Z) : result MetadataMessage MetadataError :=
  let? dict := ok_or (as_dict value) NotADict in
  let? msg_type := ok_or (opt_int dict "msg_type") (MissingField "msg_type") in
  let? piece := ok_or (opt_int dict "piece") (MissingField "piece") in
  let piece := wrap 32 piece in
  if msg_type =? MSG_TYPE_REQUEST then Ok (Request piece)
  else if msg_type =? MSG_TYPE_REJECT then Ok (Reject piece)
  else if msg_type =? MSG_TYPE_DATA then
    let? total_size := ok_or (opt_int dict "total_size") (MissingField "total_size") in
    Ok (Data piece (wrap 32 total_size) raw)
  else Err (UnknownMsgType msg_type).

Definition decode_msg (payload : list Z) : option (result MetadataMessage MetadataError) :=
  match decode_value_with_span (decode_fuel payload) (new_lenient payload) with
  | None => None
  | Some (Err e) => Some (Err (Decode e))
  | Some (Ok ((value, (_, end_)), _)) => Some (message_of value (drop (Z.to_nat end_) payload))
  end.

(** ** The assembler *)

Record MetadataAssembler : Type := mkMetadataAssembler {
  total_size : Z;
  num_pieces : Z;
  pieces : list (option (list Z))
}.

Definition MAX_METADATA_SIZE : Z := Z.shiftl 16 20.

Definition new_assembler (size : Z) : MetadataAssembler :=
  let n := Z.max (div_ceil size METADATA_PIECE_SIZE) 1 in
  mkMetadataAssembler size n (replicate (Z.to_nat n) None).

Definition for_claimed_size (claimed : Z) : result MetadataAssembler MetadataError :=
  if negb ((1 <=? claimed) && (claimed <=? MAX_METADATA_SIZE)) then Err (SizeNotAcceptable claimed)
  else Ok (new_assembler claimed).

(** How long piece [index] must be. *)
Definition expected_len (a : MetadataAssembler) (index : Z) : Z :=
  if index =? num_pieces a - 1 then
    let rem := total_size a mod METADATA_PIECE_SIZE in
    if rem =? 0 then METADATA_PIECE_SIZE else rem
  else METADATA_PIECE_SIZE.

(** A [None] is an index out of range. *)
Definition add_piece (a : MetadataAssembler) (index : Z) (data : list Z) : option (MetadataAssembler * result unit MetadataError) :=
  if num_pieces a <=? index then Some (a, Err (PieceOutOfRange index (num_pieces a)))
  else if negb (zlen data =? expected_len a index) then Some (a, Err (PieceSizeMismatch index (expected_len a index) (zlen data)))
  else
    ps ← zset (pieces a) index (Some data);
    Some (mkMetadataAssembler (total_size a) (num_pieces a) ps, Ok tt).

Definition is_complete (a : MetadataAssembler) : bool := forallb (fun p => bool_decide (is_Some p)) (pieces a).

Definition missing_pieces (a : MetadataAssembler) : list Z :=
  omap (fun ip => match ip.2 with None => Some ip.1 | Some _ => None end) (zip (seqZ 0 (zlen (pieces a))) (pieces a)).

Fixpoint concat_pieces (ps : list (option (list Z))) : result (list Z) MetadataError :=
  match ps with
  | [] => Ok []
  | None :: _ => Err IncompleteAssembly
  | Some p :: ps' => let? rest := concat_pieces ps' in Ok (p ++ rest)
  end.

Definition assemble (a : MetadataAssembler) : result (list Z) MetadataError := concat_pieces (pieces a).

Definition assemble_and_verify (sha1 : list Z -> list Z) (a : MetadataAssembler) (expected : list Z) : result (list Z) MetadataError :=
  let? raw := assemble a in
  if negb (Torrent.info_hash_matches sha1 raw expected) then Err InfoHashMismatch else Ok raw.

(** ** Messages are read back *)

Lemma encode_value_eq v : encode_value v = encode_into v.
Proof. reflexivity. Qed.

Definition message_ok (m : MetadataMessage) : Prop :=
  match m with
  | Request piece | Reject piece => u_ok 32 piece
  | Data piece size _ => u_ok 32 piece /\ u_ok 32 size
  end.

Lemma header_ok n ty piece : 0 <= n -> i64_ok ty -> u_ok 32 piece -> entries_ok n (header ty piece).
Proof.
  intros Hn Ht Hp. unfold header. entries; apply fits_int; try done. unfold i64_ok, i64_min, i64_max, u_ok in *. lia.
Qed.

(** A header, and the raw bytes after it. *)
Lemma decode_header d raw :
  fits_at MAX_DEPTH (Dict d) -> zlen (encode (Dict d) ++ raw) <= i64_max ->
  decode_msg (encode_bencode_dict d ++ raw) = Some (message_of (Dict d) raw).
Proof.
  intros [Hwf Hn] Hlen. unfold decode_msg, encode_bencode_dict. rewrite encode_value_eq. change (encode_into (Dict d)) with (encode (Dict d)).
  unfold decode_value_with_span.
  rewrite (decode_value_encode _ Hwf _ _ raw);
    [| by apply new_in_range | done | unfold decode_fuel; rewrite length_app; unfold encode; lia | done].
  cbn [fuelled_bind]. do 2 f_equal. cbn [bump new_lenient pos]. rewrite Z.add_0_l. unfold zlen. rewrite Nat2Z.id.
  apply drop_app_length.
Qed.

Lemma wrap32 z : u_ok 32 z -> wrap 32 z = z.
Proof. intros H. by apply Z.mod_small. Qed.

Lemma decode_encode_msg m :
  message_ok m -> zlen (encode_msg m) <= i64_max -> decode_msg (encode_msg m) = Some (Ok m).
Proof.
  intros Hm Hlen. destruct m as [piece | piece size data | piece]; cbn [encode_msg message_ok] in *.
  - rewrite <- (app_nil_r (encode_bencode_dict _)) in Hlen |- *. rewrite decode_header; [| by apply (fits_dict 99), header_ok | done].
    f_equal. unfold message_of, header, opt_int. cbn [as_dict ok_or result_bind]. read_keys. cbn. by rewrite wrap32.
  - destruct Hm as [Hp Hs]. rewrite decode_header; [| | done].
    + f_equal. unfold message_of, header, opt_int. cbn [as_dict ok_or result_bind]. read_keys. cbn. by rewrite !wrap32.
    + apply (fits_dict 99); [done |]. apply entries_ok_insert; [vm_compute; discriminate | | by apply header_ok].
      apply fits_int; [done |]. unfold i64_ok, i64_min, i64_max, u_ok in *. lia.
  - rewrite <- (app_nil_r (encode_bencode_dict _)) in Hlen |- *. rewrite decode_header; [| by apply (fits_dict 99), header_ok | done].
    f_equal. unfold message_of, header, opt_int. cbn [as_dict ok_or result_bind]. read_keys. cbn. by rewrite wrap32.
Qed.

Lemma decode_msg_total payload : zlen payload <= i64_max -> is_Some (decode_msg payload).
Proof.
  intros Hlen. unfold decode_msg, decode_value_with_span.
  pose proof (proj1 (decode_total (decode_fuel payload)) (new_lenient payload)) as Ht.
  destruct (decode_value _ _) as [[[v d1] |] |] eqn:E; [by eexists.. |].
  exfalso. apply Ht; [by apply new_in_range | done | | done]. unfold remaining, decode_fuel, zlen. simpl. lia.
Qed.

(** ** The assembler *)

Record assembler_ok (a : MetadataAssembler) : Prop := {
  ok_size : 1 <= total_size a <= MAX_METADATA_SIZE;
  ok_count : num_pieces a = div_ceil (total_size a) METADATA_PIECE_SIZE;
  ok_table : zlen (pieces a) = num_pieces a;
  ok_pieces : forall i p, pieces a !! i = Some (Some p) -> zlen p = expected_len a (Z.of_nat i)
}.

Lemma div_ceil_pos size : 1 <= size -> 1 <= div_ceil size METADATA_PIECE_SIZE.
Proof. intros H. unfold div_ceil. apply Z.div_le_lower_bound; unfold METADATA_PIECE_SIZE; lia. Qed.

Lemma claimed_ok claimed a : for_claimed_size claimed = Ok a -> assembler_ok a /\ total_size a = claimed.
Proof.
  unfold for_claimed_size. destruct ((1 <=? claimed) && (claimed <=? MAX_METADATA_SIZE))%bool eqn:E; [| done]. cbn [negb].
  intros [= <-]. bool_to_prop. split; [| done]. pose proof (div_ceil_pos claimed ltac:(lia)).
  split; cbn [new_assembler total_size num_pieces pieces]; [lia | lia | |].
  - rewrite zlen_replicate. lia.
  - intros i p H'. apply lookup_replicate in H' as [H' _]. done.
Qed.

Lemma add_piece_ok a i data :
  assembler_ok a -> 0 <= i -> exists a' r, add_piece a i data = Some (a', r) /\ assembler_ok a' /\ total_size a' = total_size a.
Proof.
  intros Ha Hi. unfold add_piece. destruct (Z.leb_spec (num_pieces a) i) as [| Hlt]; [by eexists _, _ |].
  destruct (Z.eqb_spec (zlen data) (expected_len a i)) as [Hl |]; [| by eexists _, _]. cbn [negb].
  pose proof (ok_table a Ha) as Ht. unfold zset. rewrite (proj2 (Z.ltb_lt _ _)), (proj2 (Z.leb_le _ _)) by lia. cbn [andb mbind option_bind].
  eexists _, _. split; [done |]. split; [| done]. split; cbn [total_size num_pieces pieces]; [apply Ha | apply Ha | by rewrite zlen_insert |].
  intros j p Hp. apply list_lookup_insert_Some in Hp as [(<- & [= <-] & _) | [_ Hp]].
  - rewrite Z2Nat.id by lia. exact Hl.
  - exact (ok_pieces a Ha j p Hp).
Qed.

(** Pieces fed in one after the other, refused ones passed over; [None] if the
    code panics on the way. *)
Fixpoint feed (a : MetadataAssembler) (adds : list (Z * list Z)) : option MetadataAssembler :=
  match adds with
  | [] => Some a
  | (i, data) :: adds' => '(a', _) ← add_piece a i data; feed a' adds'
  end.

Lemma feed_ok a adds :
  assembler_ok a -> Forall (fun add => 0 <= add.1) adds ->
  exists a', feed a adds = Some a' /\ assembler_ok a' /\ total_size a' = total_size a.
Proof.
  intros Ha Hadds. revert a Ha. induction Hadds as [| [i data] adds Hi Hadds IH]; intros a Ha; cbn [feed]; [by exists a |].
  destruct (add_piece_ok a i data Ha Hi) as (a1 & r & -> & Ha1 & Hs). cbn [mbind option_bind].
  destruct (IH a1 Ha1) as (a2 & -> & Ha2 & Hs2). exists a2. split_and!; [done | done | lia].
Qed.

(** Piece [i] of the info dictionary [raw]. *)
Definition cut (raw : list Z) (i : Z) : list Z :=
  slice raw (i * METADATA_PIECE_SIZE) (Z.min ((i + 1) * METADATA_PIECE_SIZE) (zlen raw)).

Lemma piece_size_pos : 0 < METADATA_PIECE_SIZE.
Proof. reflexivity. Qed.

Lemma expected_len_min a i :
  assembler_ok a -> 0 <= i < num_pieces a ->
  expected_len a i = Z.min ((i + 1) * METADATA_PIECE_SIZE) (total_size a) - i * METADATA_PIECE_SIZE.
Proof.
  intros Ha Hi. pose proof (ok_size a Ha) as Hs. rewrite (ok_count a Ha) in Hi. unfold expected_len. rewrite (ok_count a Ha).
  pose proof (proj1 (lt_div_ceil i (total_size a) METADATA_PIECE_SIZE piece_size_pos) (proj2 Hi)) as Hlt.
  assert (METADATA_PIECE_SIZE = 16384) as HP by done.
  destruct (Z.eqb_spec i (div_ceil (total_size a) METADATA_PIECE_SIZE - 1)) as [Hlast | Hne].
  - assert (total_size a <= (i + 1) * METADATA_PIECE_SIZE) as Hle.
    { apply Z.nlt_ge. intros Hc. apply (proj2 (lt_div_ceil _ _ _ piece_size_pos)) in Hc. lia. }
    rewrite Z.min_r by lia. cbv zeta. assert (total_size a = i * METADATA_PIECE_SIZE + (total_size a - i * METADATA_PIECE_SIZE)) as E by lia.
    destruct (Z.eq_dec (total_size a) ((i + 1) * METADATA_PIECE_SIZE)) as [Ee | Hnf].
    + rewrite Ee, Z.mod_mul by lia. cbn [Z.eqb]. lia.
    + assert (total_size a mod METADATA_PIECE_SIZE = total_size a - i * METADATA_PIECE_SIZE) as ->.
      { symmetry. apply (Z.mod_unique_pos _ _ i); lia. }
      rewrite (proj2 (Z.eqb_neq _ _)) by lia. done.
  - assert ((i + 1) * METADATA_PIECE_SIZE < total_size a) by (apply (proj1 (lt_div_ceil _ _ _ piece_size_pos)); lia). rewrite Z.min_l by lia. lia.
Qed.

Lemma cut_len a raw i : assembler_ok a -> zlen raw = total_size a -> 0 <= i < num_pieces a -> zlen (cut raw i) = expected_len a i.
Proof.
  intros Ha Hr Hi. rewrite expected_len_min by done. unfold cut. rewrite (ok_count a Ha) in Hi.
  pose proof (proj1 (lt_div_ceil i (total_size a) METADATA_PIECE_SIZE piece_size_pos) (proj2 Hi)).
  assert (METADATA_PIECE_SIZE = 16384) as HP by done. rewrite zlen_slice by lia. lia.
Qed.

(** The first [n] pieces are the first [n * 16384] bytes. *)
Lemma concat_cuts raw n :
  concat (cut raw <$> seqZ 0 (Z.of_nat n)) = take (Z.to_nat (Z.of_nat n * METADATA_PIECE_SIZE)) raw.
Proof.
  assert (METADATA_PIECE_SIZE = 16384) as HP by done.
  induction n as [| n IH]; [by rewrite take_0 |].
  replace (Z.of_nat (S n)) with (Z.of_nat n + 1) by lia. rewrite seqZ_app, fmap_app, concat_app, IH by lia.
  change (seqZ (0 + Z.of_nat n) 1) with [0 + Z.of_nat n]. rewrite Z.add_0_l. cbn [fmap list_fmap concat]. rewrite app_nil_r.
  unfold cut, slice. destruct (Z.le_gt_cases (zlen raw) (Z.of_nat n * METADATA_PIECE_SIZE)) as [Hle | Hgt].
  - rewrite (drop_ge raw), take_nil, app_nil_r by (unfold zlen in Hle; lia). rewrite !take_ge by (unfold zlen in Hle; lia). done.
  - rewrite take_take_drop. destruct (Z.le_gt_cases ((Z.of_nat n + 1) * METADATA_PIECE_SIZE) (zlen raw)).
    + f_equal. lia.
    + rewrite !take_ge by (unfold zlen in *; lia). done.
Qed.

Lemma concat_pieces_Ok ps raw : concat_pieces ps = Ok raw <-> exists ds, ps = Some <$> ds /\ raw = concat ds.
Proof.
  revert raw. induction ps as [| [p |] ps IH]; intros raw; cbn [concat_pieces].
  - split; [intros [= <-]; by exists [] | intros (ds & Hds & ->); by destruct ds].
  - rewrite result_bind_Ok. split.
    + intros (rest & Hr & [= <-]). apply IH in Hr as (ds & -> & ->). by exists (p :: ds).
    + intros (ds & Hds & ->). destruct ds as [| d ds]; [done |]. injection Hds as -> ->. exists (concat ds). split; [| done]. apply IH. by exists ds.
  - split; [done |]. intros (ds & Hds & _). by destruct ds.
Qed.

Lemma complete_iff a : is_complete a = true <-> exists ds, pieces a = Some <$> ds.
Proof.
  unfold is_complete. rewrite forallb_forall. split.
  - intros H. exists (omap id (pieces a)). revert H. induction (pieces a) as [| p ps IH]; intros H; [done |].
    pose proof (H p (or_introl eq_refl)) as Hp. apply bool_decide_eq_true in Hp as [d ->]. cbn. f_equal. apply IH.
    intros x Hx. apply H. by right.
  - intros [ds ->] x Hx. apply list_elem_of_In, list_elem_of_fmap in Hx as (d & -> & _). apply bool_decide_eq_true. by eexists.
Qed.

Lemma missing_none ps k : omap (fun ip : Z * option (list Z) => match ip.2 with None => Some ip.1 | Some _ => None end) (zip (seqZ k (zlen ps)) ps) = [] <->
  Forall is_Some ps.
Proof.
  revert k. induction ps as [| p ps IH]; intros k; [done |]. rewrite seqZ_cons by (rewrite zlen_cons; pose proof (zlen_nonneg ps); lia).
  rewrite zlen_cons. replace (Z.pred (1 + zlen ps)) with (zlen ps) by lia. cbn [zip zip_with omap list_omap snd fst].
  destruct p as [d |].
  - rewrite Forall_cons. rewrite IH. split; [intros; split; [by eexists | done] | by intros [_ ?]].
  - rewrite Forall_cons. split; [done |]. by intros [[] _].
Qed.

Lemma sum_pieces T (ds : list (list Z)) k :
  0 <= k -> (ds <> [] -> (k + zlen ds - 1) * METADATA_PIECE_SIZE < T) ->
  (forall i p, ds !! i = Some p -> zlen p = Z.min ((k + Z.of_nat i + 1) * METADATA_PIECE_SIZE) T - (k + Z.of_nat i) * METADATA_PIECE_SIZE) ->
  ds <> [] -> zlen (concat ds) = Z.min ((k + zlen ds) * METADATA_PIECE_SIZE) T - k * METADATA_PIECE_SIZE.
Proof.
  pose proof piece_size_pos. revert k. induction ds as [| d ds IH]; intros k Hk Hlt Hl Hne; [done |]. cbn [concat]. rewrite zlen_app.
  rewrite (Hl 0%nat d eq_refl). destruct ds as [| d' ds].
  - cbn [concat]. change (zlen (@nil Z)) with 0. change (zlen [d]) with 1. rewrite !Z.add_0_r. lia.
  - specialize (Hlt Hne). rewrite !zlen_cons in *. rewrite (IH (k + 1)); [| lia | | | done].
    + pose proof (zlen_nonneg ds). change (Z.of_nat 0) with 0. rewrite Z.add_0_r.
      rewrite (Z.min_l ((k + 1) * METADATA_PIECE_SIZE)) by nia. replace (k + (1 + (1 + zlen ds))) with (k + 1 + (1 + zlen ds)) by lia. lia.
    + intros _. replace (k + 1 + (1 + zlen ds) - 1) with (k + (1 + (1 + zlen ds)) - 1) by lia. done.
    + intros i p Hp. rewrite (Hl (S i) p Hp). rewrite Nat2Z.inj_succ. f_equal; [f_equal |]; f_equal; lia.
Qed.

(** Whatever is assembled has exactly the claimed size. *)
Lemma assembled_size a raw : assembler_ok a -> assemble a = Ok raw -> zlen raw = total_size a.
Proof.
  intros Ha H. unfold assemble in H. apply concat_pieces_Ok in H as (ds & Hds & ->).
  pose proof (ok_table a Ha) as Ht. pose proof (ok_size a Ha) as Hs. pose proof (ok_count a Ha) as Hc. pose proof (div_ceil_pos _ (proj1 Hs)) as Hp.
  assert (zlen ds = num_pieces a) as Hl by (rewrite <- Ht, Hds; unfold zlen; by rewrite length_fmap).
  pose proof piece_size_pos as HP.
  assert ((num_pieces a - 1) * METADATA_PIECE_SIZE < total_size a) as Hlast by (apply (proj1 (lt_div_ceil _ _ _ HP)); lia).
  assert (total_size a <= num_pieces a * METADATA_PIECE_SIZE) as Hge.
  { apply Z.nlt_ge. intros Hlt. apply (proj2 (lt_div_ceil _ _ _ HP)) in Hlt. lia. }
  rewrite (sum_pieces (total_size a) ds 0); [rewrite Hl; lia | lia | rewrite Hl; intros _; replace (0 + num_pieces a - 1) with (num_pieces a - 1) by lia; done | | ].
  - intros i p Hi. rewrite Z.add_0_l. rewrite (ok_pieces a Ha i p); [| by rewrite Hds, list_lookup_fmap, Hi].
    rewrite expected_len_min; [done | done |]. apply lookup_lt_Some in Hi. unfold zlen in Hl. lia.
  - intros ->. unfold zlen in Hl. simpl in Hl. lia.
Qed.

(** Every piece held is the right one. *)
Definition honest (raw : list Z) (a : MetadataAssembler) : Prop :=
  forall i p, pieces a !! i = Some (Some p) -> p = cut raw (Z.of_nat i).

(** A piece that is right, or that the size check refuses. *)
Definition fair (raw : list Z) (add : Z * list Z) : Prop :=
  0 <= add.1 /\ (add.2 = cut raw add.1 \/ zlen add.2 <> zlen (cut raw add.1) \/ zlen raw <= add.1 * METADATA_PIECE_SIZE).

Definition held (a : MetadataAssembler) (i : Z) : Prop := exists p, 0 <= i /\ pieces a !! Z.to_nat i = Some (Some p).

Lemma add_fair raw a i d :
  assembler_ok a -> zlen raw = total_size a -> honest raw a -> fair raw (i, d) ->
  exists a' r, add_piece a i d = Some (a', r) /\ assembler_ok a' /\ total_size a' = total_size a /\ honest raw a' /\
    (forall j, held a j -> held a' j) /\ (0 <= i < num_pieces a -> d = cut raw i -> held a' i).
Proof.
  intros Ha Hr Hh [Hi Hf]. cbn [fst snd] in *. destruct (add_piece_ok a i d Ha Hi) as (a' & r & E & Ha' & Hs).
  exists a', r. split; [done |]. split; [done |]. split; [done |]. unfold add_piece in E.
  destruct (Z.leb_spec (num_pieces a) i) as [| Hlt]; [injection E as <- <-; split_and!; [done | done | lia] |].
  pose proof (cut_len a raw i Ha Hr (conj Hi Hlt)) as Hc.
  destruct (Z.eqb_spec (zlen d) (expected_len a i)) as [Hl | Hne]; cbn [negb] in E.
  - assert (d = cut raw i) as ->.
    { destruct Hf as [-> | [Hf | Hf]]; [done | lia |]. pose proof (ok_count a Ha) as Hn. rewrite Hn in Hlt.
      apply (proj1 (lt_div_ceil _ _ _ piece_size_pos)) in Hlt. lia. }
    pose proof (ok_table a Ha) as Ht. unfold zset in E. rewrite (proj2 (Z.ltb_lt _ _)), (proj2 (Z.leb_le _ _)) in E by lia.
    cbn [andb mbind option_bind] in E. injection E as <- <-. cbn [pieces]. unfold honest, held. cbn [pieces]. split_and!.
    + intros j p Hp. apply list_lookup_insert_Some in Hp as [(<- & [= <-] & _) | [_ Hp]]; [by rewrite Z2Nat.id by lia | by apply Hh].
    + intros j (p & Hj & Hp). destruct (decide (Z.to_nat i = Z.to_nat j)) as [-> | Hne].
      * exists (cut raw i). rewrite list_lookup_insert_eq; [done | by eapply lookup_lt_Some].
      * exists p. rewrite list_lookup_insert_ne; done.
    + intros _ _. exists (cut raw i). rewrite list_lookup_insert_eq; [done | unfold zlen in Ht; lia].
  - injection E as <- <-. split_and!; [done | done |]. intros _ ->. done.
Qed.

Lemma feed_fair raw a adds :
  assembler_ok a -> zlen raw = total_size a -> honest raw a -> Forall (fair raw) adds ->
  exists a', feed a adds = Some a' /\ assembler_ok a' /\ total_size a' = total_size a /\ honest raw a' /\
    (forall j, held a j -> held a' j) /\ (forall i, 0 <= i < num_pieces a -> (i, cut raw i) ∈ adds -> held a' i).
Proof.
  intros Ha Hr Hh Hadds. revert a Ha Hr Hh. induction Hadds as [| [i d] adds Hf Hadds IH]; intros a Ha Hr Hh; cbn [feed].
  - exists a. split_and!; try done. intros i _ Hin. by apply not_elem_of_nil in Hin.
  - destruct (add_fair raw a i d Ha Hr Hh Hf) as (a1 & r & -> & Ha1 & Hs1 & Hh1 & Hm1 & Hn1). cbn [mbind option_bind].
    destruct (IH a1 Ha1) as (a2 & -> & Ha2 & Hs2 & Hh2 & Hm2 & Hn2); [lia | done |]. exists a2.
    assert (num_pieces a1 = num_pieces a) as Hc by (rewrite (ok_count a Ha), (ok_count a1 Ha1), Hs1; done).
    split_and!; [done | done | lia | done | auto |].
    intros j Hj Hin. apply elem_of_cons in Hin as [[= <- <-] | Hin]; [by apply Hm2, Hn1 | apply Hn2; [lia | done]].
Qed.

(** With every piece held and right, the dictionary is back. *)
Lemma assemble_all raw a :
  assembler_ok a -> zlen raw = total_size a -> honest raw a -> (forall i, 0 <= i < num_pieces a -> held a i) ->
  is_complete a = true /\ missing_pieces a = [] /\ assemble a = Ok raw.
Proof.
  intros Ha Hr Hh Hall. pose proof (ok_table a Ha) as Ht. pose proof (ok_size a Ha) as Hs. pose proof (div_ceil_pos _ (proj1 Hs)) as Hp.
  rewrite <- (ok_count a Ha) in Hp.
  assert (pieces a = Some <$> (cut raw <$> seqZ 0 (num_pieces a))) as E.
  { apply list_eq. intros i. rewrite !list_lookup_fmap. destruct (decide (Z.of_nat i < num_pieces a)) as [Hi | Hi].
    - rewrite lookup_seqZ_lt by lia. cbn [fmap option_fmap option_map]. destruct (Hall (Z.of_nat i)) as (p & _ & Hpi); [lia |].
      rewrite Nat2Z.id in Hpi. rewrite Hpi. by rewrite (Hh i p Hpi).
    - rewrite lookup_seqZ_ge by lia. cbn. apply lookup_ge_None. unfold zlen in Ht. lia. }
  split; [apply complete_iff; eauto |]. split.
  - unfold missing_pieces. apply missing_none. rewrite E. apply Forall_fmap, Forall_forall. intros x _. by eexists.
  - unfold assemble. apply concat_pieces_Ok. eexists. split; [exact E |].
    pose proof (concat_cuts raw (Z.to_nat (num_pieces a))) as Hcat. rewrite Z2Nat.id in Hcat by lia. rewrite Hcat. symmetry. apply take_ge.
    assert (zlen raw <= num_pieces a * METADATA_PIECE_SIZE); [| unfold zlen in *; lia].
    apply Z.nlt_ge. intros Hlt. rewrite Hr in Hlt. apply (proj2 (lt_div_ceil _ _ _ piece_size_pos)) in Hlt. rewrite (ok_count a Ha) in Hlt. lia.
Qed.

Lemma claimed_fresh claimed a raw : for_claimed_size claimed = Ok a -> honest raw a.
Proof.
  unfold for_claimed_size. destruct (negb _); [done |]. intros [= <-] i p H. cbn [new_assembler pieces] in H.
  by apply lookup_replicate in H as [H _].
Qed.

(** ** Properties *)

(** Every message is read back, a data message with the raw bytes that
    follow its header whatever they are, and no payload keeps the decoder
    running. *)
Theorem metadata_message_roundtrip (m : MetadataMessage) (payload : list Z)
    (Hm : message_ok m) (Hlen : zlen (encode_msg m) <= i64_max) (Hpay : zlen payload <= i64_max) :
  decode_msg (encode_msg m) = Some (Ok m) /\ is_Some (decode_msg payload).
Proof. split; [by apply decode_encode_msg | by apply decode_msg_total]. Qed.

Lemma metadata_message_roundtrip_witness :
  encode_msg (Data 2 100 [101; 101]) = str "d8:msg_typei1e5:piecei2e10:total_sizei100eeee" /\
  decode_msg (encode_msg (Data 2 100 [101; 101])) = Some (Ok (Data 2 100 [101; 101])).
Proof.
  split; [vm_compute; reflexivity |].
  refine (proj1 (metadata_message_roundtrip (Data 2 100 [101; 101]) [] _ _ _)).
  - split; unfold u_ok; lia.
  - vm_compute. discriminate.
  - vm_compute. discriminate.
Defined.

(** What a peer claims and sends is never trusted.  A claimed size is
    accepted only from 1 byte to 16 MiB, so the table has at most 1024 entries;
    no sequence of pieces makes the assembler panic; and what comes out of
    [assemble_and_verify] has exactly the claimed size and the promised hash. *)
Theorem metadata_trusted (sha1 : list Z -> list Z) (claimed : Z) (a : MetadataAssembler) (adds : list (Z * list Z)) (hash : list Z)
    (Hnew : for_claimed_size claimed = Ok a) (Hadds : Forall (fun add => 0 <= add.1) adds) :
  1 <= claimed <= 16777216 /\ zlen (pieces a) <= 1024 /\
  exists a', feed a adds = Some a' /\ zlen (pieces a') = zlen (pieces a) /\
    forall raw, assemble_and_verify sha1 a' hash = Ok raw -> zlen raw = claimed /\ Torrent.info_hash_matches sha1 raw hash = true.
Proof.
  apply claimed_ok in Hnew as [Ha <-]. destruct (feed_ok a adds Ha Hadds) as (a' & Hf & Ha' & Hs).
  split; [exact (ok_size a Ha) |]. split.
  - rewrite (ok_table a Ha), (ok_count a Ha). pose proof (ok_size a Ha) as Hb. change MAX_METADATA_SIZE with 16777216 in Hb.
    apply Z.nlt_ge. intros Hlt. apply (proj1 (lt_div_ceil _ _ _ piece_size_pos)) in Hlt. change METADATA_PIECE_SIZE with 16384 in Hlt. lia.
  - exists a'. split; [done |]. split; [by rewrite (ok_table a Ha), (ok_table a' Ha'), (ok_count a Ha), (ok_count a' Ha'), Hs |].
    intros raw H. unfold assemble_and_verify in H. apply result_bind_Ok in H as (r & Hr & H).
    destruct (Torrent.info_hash_matches sha1 r hash) eqn:E; [| done]. injection H as <-.
    split; [rewrite <- Hs; by apply assembled_size | done].
Qed.

Lemma metadata_trusted_witness :
  for_claimed_size 5 = Ok (new_assembler 5) /\
  exists a', feed (new_assembler 5) [(0, [1; 2]); (3, []); (0, [1; 2; 3; 4; 5])] = Some a' /\
    zlen (pieces a') = zlen (pieces (new_assembler 5)) /\
    forall raw, assemble_and_verify Torrent.no_sha1 a' (replicate 20 0) = Ok raw ->
      zlen raw = 5 /\ Torrent.info_hash_matches Torrent.no_sha1 raw (replicate 20 0) = true.
Proof.
  split; [vm_compute; reflexivity |].
  refine (proj2 (proj2 (metadata_trusted Torrent.no_sha1 5 (new_assembler 5) [(0, [1; 2]); (3, []); (0, [1; 2; 3; 4; 5])] (replicate 20 0) _ _))).
  - vm_compute. reflexivity.
  - repeat constructor; cbn; lia.
Defined.

(** A magnet link resolves.  Take any torrent file with an info
    dictionary of at most 16 MiB.  If the pieces of that dictionary reach an
    assembler for its size, in any order and any number of times, among others
    of the wrong size or out of range, then the assembler is complete, the
    dictionary verifies against the torrent's info hash, and the torrent built
    from it is the one the file describes. *)
Theorem metadata_reassembled (sha1 : list Z -> list Z) (data : list Z) (t : Torrent.TorrentFile) (lo hi : Z) (a : MetadataAssembler)
    (adds : list (Z * list Z)) (ann : option (list Z)) (al : list (list (list Z)))
    (Hlen : zlen data <= i64_max) (Ht : Torrent.parse_torrent_file sha1 data = Some (Ok t))
    (Hspan : Torrent.find_key_span data (str "info") = Some (Ok (lo, hi)))
    (Hnew : for_claimed_size (zlen (slice data lo hi)) = Ok a)
    (Hfair : Forall (fair (slice data lo hi)) adds)
    (Hall : forall i, 0 <= i < num_pieces a -> (i, cut (slice data lo hi) i) ∈ adds) :
  exists a' t', feed a adds = Some a' /\ is_complete a' = true /\ missing_pieces a' = [] /\
    assemble_and_verify sha1 a' (Torrent.t_info_hash t) = Ok (slice data lo hi) /\
    Torrent.from_info_dict_bytes sha1 (slice data lo hi) (Torrent.t_info_hash t) ann al = Some (Ok t') /\ Torrent.same_torrent t t'.
Proof.
  destruct (Torrent.info_dict_rebuilt sha1 data t Hlen Ht) as (lo' & hi' & Hs & _ & _ & Hbuild). rewrite Hspan in Hs. injection Hs as <- <-.
  destruct (Hbuild ann al) as (t' & Ht' & Hsame). set (raw := slice data lo hi) in *.
  pose proof (claimed_fresh _ _ raw Hnew) as Hfresh. apply claimed_ok in Hnew as [Ha Hts].
  destruct (feed_fair raw a adds Ha) as (a' & Hf & Ha' & Hs' & Hh & _ & Hheld); [by rewrite Hts | done | done |].
  exists a', t'. destruct (assemble_all raw a' Ha') as (Hc & Hm & Has); [by rewrite Hs', Hts | done | |].
  { intros i Hi. rewrite (ok_count a' Ha'), Hs', <- (ok_count a Ha) in Hi. auto. }
  split_and!; try done. unfold assemble_and_verify. rewrite Has. cbn [result_bind].
  unfold Torrent.from_info_dict_bytes in Ht'. destruct (Torrent.info_hash_matches sha1 raw (Torrent.t_info_hash t)); [done |]. done.
Qed.

Lemma metadata_reassembled_witness :
  let raw := encode Torrent.example_info in
  exists a' t', feed (new_assembler (zlen raw)) [(5, []); (0, raw); (0, [1])] = Some a' /\ is_complete a' = true /\ missing_pieces a' = [] /\
    assemble_and_verify Torrent.no_sha1 a' (replicate 20 0) = Ok raw /\
    Torrent.from_info_dict_bytes Torrent.no_sha1 raw (replicate 20 0) None [] = Some (Ok t') /\
    Torrent.same_torrent
      (Torrent.mkTorrentFile (Some (str "http://t")) [] Torrent.example_info (replicate 20 0) 16384 [replicate 20 7; replicate 20 7] (str "a")
         [([str "a"], 20000)] [false] false [] false None []) t'.
Proof.
  intros raw.
  assert (exists lo hi, Torrent.find_key_span Torrent.example_torrent (str "info") = Some (Ok (lo, hi)) /\ slice Torrent.example_torrent lo hi = raw) as (lo & hi & Hspan & Hsl)
    by (eexists _, _; split; vm_compute; reflexivity).
  rewrite <- Hsl.
  refine (metadata_reassembled Torrent.no_sha1 Torrent.example_torrent
    (Torrent.mkTorrentFile (Some (str "http://t")) [] Torrent.example_info (replicate 20 0) 16384 [replicate 20 7; replicate 20 7] (str "a")
         [([str "a"], 20000)] [false] false [] false None []) lo hi _ _ None [] _ _ Hspan _ _ _).
  - vm_compute. discriminate.
  - vm_compute. reflexivity.
  - rewrite Hsl. vm_compute. reflexivity.
  - rewrite Hsl. apply Forall_cons. split; [split; [cbn [fst]; lia | right; right; vm_compute; discriminate] |].
    apply Forall_cons. split; [split; [cbn [fst]; lia | left; vm_compute; reflexivity] |].
    apply Forall_cons. split; [split; [cbn [fst]; lia | right; left; vm_compute; discriminate] | constructor].
  - rewrite Hsl. intros i Hi. change (num_pieces (new_assembler (zlen raw))) with 1 in Hi. assert (i = 0) as -> by lia.
    replace (cut raw 0) with raw by (vm_compute; reflexivity). right. left.
Defined.
