(* ===== verification/Serving.v ===== *)
(** * Serving a peer

    Models [src/src/serving.rs], the upload side of a connection, with the
    [HaveMap] and the shared state of [src/src/seeder.rs].  It composes the
    choker, the bitfield, the allowed fast set, the pieces on disk, the
    extended handshake, metadata exchange and hash requests.

    The connection takes [room] more messages before a write fails; what was
    written so far is [out].  Between two calls the other threads verify
    pieces, write files and run the choker: those are steps of the
    environment.  The upload rate limit only delays a reply, and is left out.
    A [None] of the outer option is a panic or a loop that never ends. *)

From S2P Require Import Torrent.
From S2P Require Import Prelude Str Numeral Text Bytes BTree Bencode Io Net Dicts Tracker PeerExt Metadata.
From S2P Require Import Sha256 Merkle V2Hashes FileWriter Choker PeerState Handshake Message.

(** ** Which pieces are verified *)

Record HaveMap : Type := mkHaveMap {
  bits : list bool;
  version : Z
}.

Definition have_new (total_pieces : nat) : HaveMap := mkHaveMap (replicate total_pieces false) 0.

Definition have_set (h : HaveMap) (index : Z) : HaveMap :=
  match zget (bits h) index with
  | Some false => mkHaveMap (<[Z.to_nat index := true]> (bits h)) (wrap 64 (version h + 1))
  | _ => h
  end.

Definition have_get (h : HaveMap) (index : Z) : bool := default false (zget (bits h) index).
Definition have_count (h : HaveMap) : Z := zlen (filter (fun b => b = true) (bits h)).
Definition have_total (h : HaveMap) : Z := zlen (bits h).

(** ** The state of a connection *)

Record SeederShared : Type := mkSeederShared {
  sh_info_hash : list Z;
  spans : list FileSpan;
  piece_length : Z;
  sh_total_length : Z;
  have : HaveMap;
  uploaded : Z;
  choker : Choker;
  metadata : option (list Z);
  piece_lengths : option (list Z);
  hash_source : option HashSource
}.

Definition piece_len (sh : SeederShared) (piece_index : Z) : Z :=
  match piece_lengths sh with
  | Some lengths => default 0 (zget lengths piece_index)
  | None => Z.min (piece_length sh) (u_saturating_sub (sh_total_length sh) (wrap 64 (piece_index * piece_length sh)))
  end.

Definition MAX_REQUEST_LEN : Z := 128 * 1024.
Definition UT_METADATA_ID : Z := 1.
Definition ALLOWED_FAST_PIECES : nat := 5.

Record Serving : Type := mkServing {
  choker_id : Z;
  fast : bool;
  allowed_fast : gset Z;
  told_unchoked : bool;
  seen_version : Z;
  advertised : list bool;
  speaks_extensions : bool;
  peer_metadata_id : option Z;
  metadata_requests : Z;
  last_sent : Z
}.

Record World : Type := mkWorld {
  sv : Serving;
  sh : SeederShared;
  disk : Fs;
  out : list Message;
  room : nat
}.

Inductive ServeError : Type :=
| WriteFailed
| ReadError (e : ErrorKind)
| InvalidData (what : String.string).
Arguments InvalidData what%_string_scope.

(** Updates of one field. *)
Definition set_choker (w : World) (c : Choker) : World :=
  let s := sh w in
  mkWorld (sv w) (mkSeederShared (sh_info_hash s) (spans s) (piece_length s) (sh_total_length s) (have s) (uploaded s) c
    (metadata s) (piece_lengths s) (hash_source s)) (disk w) (out w) (room w).
Definition set_have (w : World) (h : HaveMap) : World :=
  let s := sh w in
  mkWorld (sv w) (mkSeederShared (sh_info_hash s) (spans s) (piece_length s) (sh_total_length s) h (uploaded s) (choker s)
    (metadata s) (piece_lengths s) (hash_source s)) (disk w) (out w) (room w).
Definition add_uploaded (w : World) (n : Z) : World :=
  let s := sh w in
  mkWorld (sv w) (mkSeederShared (sh_info_hash s) (spans s) (piece_length s) (sh_total_length s) (have s) (wrap 64 (uploaded s + n)) (choker s)
    (metadata s) (piece_lengths s) (hash_source s)) (disk w) (out w) (room w).
Definition set_disk (w : World) (fs : Fs) : World := mkWorld (sv w) (sh w) fs (out w) (room w).
Definition set_sv (w : World) (s : Serving) : World := mkWorld s (sh w) (disk w) (out w) (room w).

Definition touched (s : Serving) (now : Z) : Serving :=
  mkServing (choker_id s) (fast s) (allowed_fast s) (told_unchoked s) (seen_version s) (advertised s) (speaks_extensions s)
    (peer_metadata_id s) (metadata_requests s) now.
Definition set_told (s : Serving) (b : bool) : Serving :=
  mkServing (choker_id s) (fast s) (allowed_fast s) b (seen_version s) (advertised s) (speaks_extensions s)
    (peer_metadata_id s) (metadata_requests s) (last_sent s).
Definition set_advertised (s : Serving) (l : list bool) : Serving :=
  mkServing (choker_id s) (fast s) (allowed_fast s) (told_unchoked s) (seen_version s) l (speaks_extensions s)
    (peer_metadata_id s) (metadata_requests s) (last_sent s).
Definition set_seen (s : Serving) (v : Z) : Serving :=
  mkServing (choker_id s) (fast s) (allowed_fast s) (told_unchoked s) v (advertised s) (speaks_extensions s)
    (peer_metadata_id s) (metadata_requests s) (last_sent s).
Definition set_peer_metadata (s : Serving) (id : option Z) : Serving :=
  mkServing (choker_id s) (fast s) (allowed_fast s) (told_unchoked s) (seen_version s) (advertised s) (speaks_extensions s)
    id (metadata_requests s) (last_sent s).
Definition set_requests (s : Serving) (n : Z) : Serving :=
  mkServing (choker_id s) (fast s) (allowed_fast s) (told_unchoked s) (seen_version s) (advertised s) (speaks_extensions s)
    (peer_metadata_id s) n (last_sent s).

Definition touch (w : World) (now : Z) : World := set_sv w (touched (sv w) now).

(** [message.write_to(stream)]. *)
Definition write (w : World) (m : Message) : World * result unit ServeError :=
  match room w with
  | O => (w, Err WriteFailed)
  | S n => (mkWorld (sv w) (sh w) (disk w) (out w ++ [m]) n, Ok tt)
  end.

Abbreviation outcome A := (option (World * result A ServeError)).

(** [write_to(stream)?], then the rest. *)
Definition write_then {A} (w : World) (m : Message) (k : World -> outcome A) : outcome A :=
  match write w m with
  | (w', Ok _) => k w'
  | (w', Err e) => Some (w', Err e)
  end.

(** ** Between messages *)

(** The loop of [announce_new_pieces] from piece [index]; [told] is what is
    left of [advertised] with what has been gone through before it. *)
Fixpoint announce_loop (w : World) (index : Z) (now_ : list bool) (done_ told : list bool) (sent : bool) : World * result bool ServeError :=
  match now_, told with
  | has :: now', t :: told' =>
      if has && negb t then
        match write w (Have index) with
        | (w', Ok _) =>
            let w' := set_sv w' (set_advertised (sv w') (done_ ++ true :: told')) in
            announce_loop w' (index + 1) now' (done_ ++ [true]) told' true
        | (w', Err e) => (w', Err e)
        end
      else announce_loop w (index + 1) now' (done_ ++ [t]) told' sent
  | _, _ => (w, Ok sent)
  end.

Definition announce_new_pieces (w : World) : World * result bool ServeError :=
  let v := version (have (sh w)) in
  if v =? seen_version (sv w) then (w, Ok false)
  else
    let w := set_sv w (set_seen (sv w) v) in
    announce_loop w 0 (bits (have (sh w))) [] (advertised (sv w)) false.

Definition tick (now : Z) (w : World) : World * result unit ServeError :=
  let '(w, r) := announce_new_pieces w in
  match r with
  | Err e => (w, Err e)
  | Ok sent =>
      let w := if sent then touch w now else w in
      let allowed := Choker.is_unchoked (choker (sh w)) (choker_id (sv w)) in
      if Bool.eqb allowed (told_unchoked (sv w)) then (w, Ok tt)
      else
        match write w (if allowed then Unchoke else Choke) with
        | (w, Err e) => (w, Err e)
        | (w, Ok _) => (touch (set_sv w (set_told (sv w) allowed)) now, Ok tt)
        end
  end.

(** ** A message from the peer *)

(** The closure [reject]. *)
Definition reject (w : World) (index begin length : Z) : outcome bool :=
  if fast (sv w) then write_then w (RejectRequest index begin length) (fun w => Some (w, Ok true)) else Some (w, Ok true).

Definition handle_request (now : Z) (w : World) (index begin length : Z) : outcome bool :=
  let s := sh w in
  if negb (Choker.is_unchoked (choker s) (choker_id (sv w))) && negb (bool_decide (index ∈ allowed_fast (sv w)))
  then reject w index begin length
  else if MAX_REQUEST_LEN <? length then Some (w, Err (InvalidData "oversized block request"))
  else if negb (have_get (have s) index && (Z.min (begin + length) (u_max 64) <=? piece_len s index))
  then reject w index begin length
  else
    match read_block (spans s) (disk w) index (piece_length s) begin length with
    | None => None
    | Some (Err e) => Some (w, Err (ReadError e))
    | Some (Ok block) =>
        write_then w (Piece index begin block) (fun w =>
          let w := add_uploaded w length in
          let w := set_choker w (Choker.record_upload (choker (sh w)) (choker_id (sv w)) length) in
          Some (touch w now, Ok true))
    end.

(** How many requests for the metadata a peer may make. *)
Definition metadata_limit (info : list Z) : Z := 2 * div_ceil (zlen info) METADATA_PIECE_SIZE + 8.

(** The reply to a request for piece [piece] of the info dictionary. *)
Definition metadata_reply (info : list Z) (piece : Z) : MetadataMessage :=
  let start := piece * METADATA_PIECE_SIZE in
  if start <? zlen info
  then Metadata.Data piece (wrap 32 (zlen info)) (slice info start (Z.min (start + METADATA_PIECE_SIZE) (zlen info)))
  else Metadata.Reject piece.

Definition handle_metadata (now : Z) (w : World) (payload : list Z) : outcome bool :=
  match metadata (sh w), peer_metadata_id (sv w) with
  | Some info, Some reply_id =>
      match decode_msg payload with
      | None => None
      | Some (Ok (Metadata.Request piece)) =>
          let w := set_sv w (set_requests (sv w) (metadata_requests (sv w) + 1)) in
          if metadata_limit info <? metadata_requests (sv w) then Some (w, Err (InvalidData "too many requests for the metadata"))
          else write_then w (Extended reply_id (encode_msg (metadata_reply info piece))) (fun w => Some (touch w now, Ok true))
      | Some _ => Some (w, Ok true)
      end
  | _, _ => Some (w, Ok true)
  end.

(** What [answer_leaves] reads pieces with. *)
Definition read_held (w : World) (piece : Z) : option (list Z) :=
  if have_get (have (sh w)) piece then
    match read_block (spans (sh w)) (disk w) piece (piece_length (sh w)) 0 (wrap 32 (piece_len (sh w) piece)) with
    | Some (Ok data) => Some data
    | _ => None
    end
  else None.

Definition hash_answer (w : World) (r : HashRequest) : option HashRange :=
  source ← hash_source (sh w);
  match answer source (Message.root r) (Z.to_nat (base_layer r)) (hr_index r) (hr_length r) (Z.to_nat (proof_layers r)) with
  | Some range => Some range
  | None =>
      if base_layer r =? 0
      then answer_leaves (read_held w) source (Message.root r) (hr_index r) (hr_length r) (Z.to_nat (proof_layers r))
      else None
  end.

Definition handle (now : Z) (msg : Message) (w : World) : outcome bool :=
  match msg with
  | Interested =>
      let c := Choker.set_interested (choker (sh w)) (choker_id (sv w)) true in
      Some (set_choker w (Choker.grant_if_free c (choker_id (sv w))).1, Ok true)
  | NotInterested => Some (set_choker w (Choker.set_interested (choker (sh w)) (choker_id (sv w)) false), Ok true)
  | Request index begin length => handle_request now w index begin length
  | Extended id payload =>
      if (id =? Extension.EXTENDED_HANDSHAKE_ID) && speaks_extensions (sv w) then
        match Extension.parse payload with
        | None => None
        | Some r =>
            let theirs := match r with Ok hs => Extension.peer_ut_metadata_id hs | Err _ => None end in
            Some (set_sv w (set_peer_metadata (sv w) theirs), Ok false)
        end
      else if (id =? UT_METADATA_ID) && speaks_extensions (sv w) then handle_metadata now w payload
      else Some (w, Ok false)
  | HashRequestMsg request =>
      let reply := match hash_answer w request with
                   | Some range => Hashes request (Merkle.hashes range ++ Merkle.uncles range)
                   | None => HashReject request
                   end in
      write_then w reply (fun w => Some (touch w now, Ok true))
  | _ => Some (w, Ok false)
  end.

(** ** The beginning of a connection *)

(** A stream before there is a [Serving]: what was written, and how much more
    it takes. *)
Abbreviation Stream := (list Message * nat)%type.

Definition send (st : Stream) (m : Message) : Stream * result unit ServeError :=
  match st.2 with
  | O => (st, Err WriteFailed)
  | S n => ((st.1 ++ [m], n), Ok tt)
  end.

(** The bitfield, or what the Fast Extension says in its place. *)
Definition first_message (fast_ : bool) (adv : list bool) : Message :=
  if negb fast_ then Bitfield (encode_bitfield adv)
  else if forallb (fun has : bool => has) adv && negb (bool_decide (adv = [])) then HaveAll
  else if forallb negb adv then HaveNone
  else Bitfield (encode_bitfield adv).

(** The loop over the allowed fast set. *)
Fixpoint allow_loop (adv : list bool) (set : list Z) (st : Stream) (allowed : gset Z) : option (Stream * result (gset Z) ServeError) :=
  match set with
  | [] => Some (st, Ok allowed)
  | piece :: rest =>
      match zget adv piece with
      | None => None
      | Some true =>
          match send st (AllowedFast piece) with
          | (st, Ok _) => allow_loop adv rest st ({[piece]} ∪ allowed)
          | (st, Err e) => Some (st, Err e)
          end
      | Some false => allow_loop adv rest st allowed
      end
  end.

Section begin.
Context (sha1 : list Z -> list Z).

(** [rounds] bounds the digests the allowed fast set takes. *)
Definition allow_fast (rounds : nat) (s : SeederShared) (fast_ : bool) (peer_ip : option IpAddr) (adv : list bool) (st : Stream) :
    option (Stream * result (gset Z) ServeError) :=
  match fast_, peer_ip with
  | true, Some (Ip4 ip) =>
      set ← Fast.allowed_fast_set sha1 rounds ip (sh_info_hash s) (wrap 32 (zlen adv)) ALLOWED_FAST_PIECES;
      allow_loop adv set st ∅
  | _, _ => Some (st, Ok ∅)
  end.

Definition begin (rounds : nat) (s : SeederShared) (fs : Fs) (hs : Handshake) (peer_ip : option IpAddr) (extended : bool) (now : Z) (st : Stream) :
    option (Stream * result World ServeError) :=
  let fast_ := supports_fast hs in
  let speaks := bool_decide (is_Some (metadata s)) && supports_extensions hs in
  let seen := version (have s) in
  let adv := bits (have s) in
  match send st (first_message fast_ adv) with
  | (st, Err e) => Some (st, Err e)
  | (st, Ok _) =>
      '(st, r) ← allow_fast rounds s fast_ peer_ip adv st;
      match r with
      | Err e => Some (st, Err e)
      | Ok allowed =>
          let '(st, r) :=
            match extended && speaks, metadata s with
            | true, Some info =>
                let seed := have_count (have s) =? have_total (have s) in
                send st (Extended Extension.EXTENDED_HANDSHAKE_ID (Extension.build_for_seeding UT_METADATA_ID (zlen info) seed))
            | _, _ => (st, Ok tt)
            end in
          match r with
          | Err e => Some (st, Err e)
          | Ok _ =>
              let '(c, id) := Choker.register (choker s) in
              let w := mkWorld (mkServing id fast_ allowed false seen adv speaks None 0 now) s fs st.1 st.2 in
              Some (st, Ok (set_choker w c))
          end
      end
  end.

End begin.

(** [Serving::metadata_size], [record_download] and [Drop]. *)
Definition metadata_size (w : World) : option Z :=
  if speaks_extensions (sv w) then zlen <$> metadata (sh w) else None.

Definition record_download (w : World) (bytes : Z) : World :=
  set_choker w (Choker.record_download (choker (sh w)) (choker_id (sv w)) bytes).

Definition dropped (w : World) : SeederShared :=
  sh (set_choker w (Choker.unregister (choker (sh w)) (choker_id (sv w)))).

(** ** Everything that happens on a connection

    The peer's messages, the ticks between them, and what other threads do in
    the meantime. *)
Inductive ServeStep : Type :=
| OnMessage (now : Z) (m : Message)
| OnTick (now : Z)
| Credit (bytes : Z)
| Verified (piece : Z) (fs : Fs)
| Wrote (fs : Fs)
| ChokerActs (op : Choker.ChokerOp).

(** The world after a step; the connection ends with the first error. *)
Definition step (w : World) (s : ServeStep) : outcome unit :=
  match s with
  | OnMessage now m => '(w', r) ← handle now m w; Some (w', match r with Ok _ => Ok tt | Err e => Err e end)
  | OnTick now => Some (tick now w)
  | Credit bytes => Some (record_download w bytes, Ok tt)
  | Verified piece fs => Some (set_have (set_disk w fs) (have_set (have (sh w)) piece), Ok tt)
  | Wrote fs => Some (set_disk w fs, Ok tt)
  | ChokerActs op => Some (set_choker w (Choker.choker_step (choker (sh w)) op), Ok tt)
  end.

Fixpoint run (w : World) (steps : list ServeStep) : outcome unit :=
  match steps with
  | [] => Some (w, Ok tt)
  | s :: rest =>
      '(w', r) ← step w s;
      match r with Ok _ => run w' rest | Err e => Some (w', Err e) end
  end.

(** ** Verified pieces *)

(** The version counts the pieces verified. *)
Definition have_ok (h : HaveMap) : Prop := version h = have_count h /\ zlen (bits h) <= MAX_TRACKED_PIECES.

Lemma have_count_bound h : 0 <= have_count h <= zlen (bits h).
Proof.
  assert (length (filter (fun b => b = true) (bits h)) <= length (bits h))%nat as Hf by apply length_filter. unfold have_count, zlen. lia.
Qed.

Lemma count_insert (l : list bool) i : l !! i = Some false -> zlen (filter (fun b => b = true) (<[i := true]> l)) = zlen (filter (fun b => b = true) l) + 1.
Proof.
  revert i. induction l as [| b l IH]; intros [| i] H; try done.
  - injection H as ->. change (<[0%nat := true]> (false :: l)) with (true :: l).
    rewrite filter_cons_True, filter_cons_False by done. rewrite zlen_cons. lia.
  - cbn in H. change (<[S i := true]> (b :: l)) with (b :: <[i := true]> l). specialize (IH i H). destruct b.
    + rewrite !filter_cons_True by done. rewrite !zlen_cons. lia.
    + rewrite !filter_cons_False by done. exact IH.
Qed.

Lemma have_set_cases h i :
  have_set h i = h \/
  (exists k, i = Z.of_nat k /\ bits h !! k = Some false /\ have_set h i = mkHaveMap (<[k := true]> (bits h)) (wrap 64 (version h + 1))).
Proof.
  unfold have_set. destruct (zget (bits h) i) as [[] |] eqn:E; [by left | | by left]. right.
  apply zget_Some in E as [Hi E]. exists (Z.to_nat i). split_and!; [lia | | done].
  unfold zget in E. done.
Qed.

Lemma have_set_ok h i : have_ok h -> have_ok (have_set h i) /\ zlen (bits (have_set h i)) = zlen (bits h) /\
  (forall j, have_get h j = true -> have_get (have_set h i) j = true) /\
  (have_set h i = h \/ version (have_set h i) = version h + 1).
Proof.
  intros [Hv Hl]. destruct (have_set_cases h i) as [-> | (k & -> & Hk & E)]; [split_and!; auto; by split |]. rewrite E.
  pose proof (have_count_bound h) as Hb. unfold MAX_TRACKED_PIECES in Hl.
  assert (wrap 64 (version h + 1) = version h + 1) as Hw by (apply Z.mod_small; lia).
  unfold have_ok, have_count in *. cbn [bits version]. rewrite zlen_insert, count_insert, Hw by done.
  split_and!; [lia | unfold MAX_TRACKED_PIECES; lia | done | | by right].
  intros j Hj. unfold have_get in *. cbn [bits]. destruct (zget (bits h) j) as [b |] eqn:Ej; [| done].
  apply zget_Some in Ej as [Hj0 Ej]. unfold zget. rewrite (proj2 (Z.ltb_ge j 0)) by lia.
  destruct (decide (k = Z.to_nat j)) as [-> | Hne].
  - rewrite list_lookup_insert_eq; [done | by eapply lookup_lt_Some].
  - rewrite list_lookup_insert_ne by done. unfold zget in Ej. by rewrite Ej.
Qed.

(** ** What may be said to a peer *)

Section promise.

(** The torrent's pieces, as they are known to be. *)
Context (truth : Z -> list Z).

(** Every verified piece is on disk: any part of it can be read. *)
Definition intact (s : SeederShared) (fs : Fs) : Prop := forall i b l,
  have_get (have s) i = true -> 0 <= b -> 0 <= l -> b + l <= piece_len s i ->
  read_block (spans s) fs i (piece_length s) b l = Some (Ok (slice (truth i) b (b + l))).

Definition sized (s : SeederShared) : Prop := forall i, have_get (have s) i = true -> zlen (truth i) = piece_len s i.

(** A message that says nothing false: pieces offered are verified ones, a
    block is the torrent's, what goes under the peer's [ut_metadata] id is a
    reply made from the info dictionary. *)
Definition good (s : SeederShared) (m : Message) : Prop :=
  match m with
  | Have i | AllowedFast i => have_get (have s) i = true /\ 0 <= i < zlen (bits (have s))
  | Piece i b block =>
      have_get (have s) i = true /\ zlen block <= MAX_REQUEST_LEN /\ b + zlen block <= piece_len s i /\
      block = slice (truth i) b (b + zlen block)
  | Extended id p =>
      exists info, metadata s = Some info /\
        (p = Extension.build_for_seeding UT_METADATA_ID (zlen info) true \/ p = Extension.build_for_seeding UT_METADATA_ID (zlen info) false \/
         exists piece, p = encode_msg (metadata_reply info piece))
  | _ => True
  end.

(** What never changes while a torrent is served, and what only grows. *)
Definition grows (s s' : SeederShared) : Prop :=
  spans s' = spans s /\ piece_length s' = piece_length s /\ sh_total_length s' = sh_total_length s /\
  metadata s' = metadata s /\ piece_lengths s' = piece_lengths s /\ zlen (bits (have s')) = zlen (bits (have s)) /\
  (forall i, have_get (have s) i = true -> have_get (have s') i = true).

Lemma grows_refl s : grows s s.
Proof using Type. unfold grows. auto 10. Qed.

Lemma piece_len_grows s s' i : grows s s' -> piece_len s' i = piece_len s i.
Proof using Type. intros (_ & Hp & Ht & _ & Hl & _). unfold piece_len. by rewrite Hp, Ht, Hl. Qed.

Lemma good_grows s s' m : grows s s' -> good s m -> good s' m.
Proof using Type.
  intros Hg. pose proof Hg as (_ & _ & _ & Hm & _ & Hz & Hh). destruct m; cbn [good]; try done.
  - intros [? ?]. rewrite Hz. auto.
  - rewrite (piece_len_grows s s' _ Hg). intros (? & ? & ? & ?). auto.
  - intros [? ?]. rewrite Hz. auto.
  - by rewrite Hm.
Qed.

(** The peer's own record of us, from all it has been sent. *)
Definition view (w : World) : PeerState := apply_messages (for_torrent (zlen (bits (have (sh w))))) (out w).

Record safe (w : World) : Prop := {
  safe_have : have_ok (have (sh w));
  safe_disk : intact (sh w) (disk w);
  safe_sized : sized (sh w);
  safe_out : Forall (good (sh w)) (out w);
  safe_len : zlen (advertised (sv w)) = zlen (bits (have (sh w)));
  safe_adv : forall i, default false (zget (advertised (sv w)) i) = true -> have_get (have (sh w)) i = true;
  safe_view : forall i, 0 <= i -> peer_has (view w) i = default false (zget (advertised (sv w)) i);
  safe_told : peer_choking (view w) = negb (told_unchoked (sv w));
  safe_fast : forall i, i ∈ allowed_fast (sv w) -> have_get (have (sh w)) i = true;
  safe_limit : piece_limit (view w) = zlen (bits (have (sh w)))
}.

(** Nothing is owed to the peer unless the version says so. *)
Definition fresh (w : World) : Prop :=
  seen_version (sv w) <= version (have (sh w)) /\
  (seen_version (sv w) = version (have (sh w)) -> advertised (sv w) = bits (have (sh w))).

Lemma safe_set_choker w c : safe w -> safe (set_choker w c).
Proof using Type. intros []. constructor; assumption. Qed.

Lemma safe_add_uploaded w n : safe w -> safe (add_uploaded w n).
Proof using Type. intros []. constructor; assumption. Qed.

(** A change of the connection's state that leaves what the peer was told. *)
Definition same_told (s s' : Serving) : Prop :=
  advertised s' = advertised s /\ told_unchoked s' = told_unchoked s /\ allowed_fast s' = allowed_fast s.

Lemma safe_set_sv w s : same_told (sv w) s -> safe w -> safe (set_sv w s).
Proof using Type.
  intros (Ha & Ht & Hf) []. constructor; cbn [sv sh disk out set_sv]; rewrite ?Ha, ?Ht, ?Hf; assumption.
Qed.

Lemma same_touched s now : same_told s (touched s now). Proof using Type. done. Qed.
Lemma same_seen s v : same_told s (set_seen s v). Proof using Type. done. Qed.
Lemma same_peer_metadata s i : same_told s (set_peer_metadata s i). Proof using Type. done. Qed.
Lemma same_requests s n : same_told s (set_requests s n). Proof using Type. done. Qed.

Hint Resolve safe_set_choker safe_add_uploaded safe_set_sv same_touched same_seen same_peer_metadata same_requests : core.

Lemma write_cases w m :
  (exists n, room w = S n /\ write w m = (mkWorld (sv w) (sh w) (disk w) (out w ++ [m]) n, Ok tt)) \/
  (room w = O /\ write w m = (w, Err WriteFailed)).
Proof using Type. unfold write. destruct (room w) as [| n]; [by right | left; eauto]. Qed.

(** A message that does not change the peer's record of what we have or whom
    we choke. *)
Definition neutral (m : Message) : Prop :=
  match m with Piece _ _ _ | RejectRequest _ _ _ | Extended _ _ | Hashes _ _ | HashReject _ => True | _ => False end.

Lemma view_write w m n : view (mkWorld (sv w) (sh w) (disk w) (out w ++ [m]) n) = (apply_message (view w) m).1.
Proof using Type. unfold view, apply_messages. cbn [sh out]. by rewrite foldl_app. Qed.

Lemma safe_write w m n :
  neutral m -> good (sh w) m -> safe w -> safe (mkWorld (sv w) (sh w) (disk w) (out w ++ [m]) n).
Proof using Type.
  intros Hn Hg Hw. pose proof Hw as []. assert (view (mkWorld (sv w) (sh w) (disk w) (out w ++ [m]) n) = view w) as Hv.
  { rewrite view_write. by destruct m. }
  constructor; rewrite ?Hv; cbn [sv sh disk out]; try assumption. apply Forall_app. split; [done |]. by apply Forall_singleton.
Qed.

Lemma grows_same s s' :
  spans s' = spans s -> piece_length s' = piece_length s -> sh_total_length s' = sh_total_length s ->
  metadata s' = metadata s -> piece_lengths s' = piece_lengths s -> have s' = have s -> grows s s'.
Proof using Type. intros. unfold grows. replace (have s') with (have s) by done. auto 10. Qed.

Lemma grows_trans a b c : grows a b -> grows b c -> grows a c.
Proof using Type.
  intros (? & ? & ? & ? & ? & ? & Hab) (? & ? & ? & ? & ? & ? & Hbc). unfold grows. split_and!; try congruence. auto.
Qed.

(** A call that leaves what is advertised and which pieces are verified. *)
Definition onward (w w2 : World) : Prop :=
  grows (sh w) (sh w2) /\ have (sh w2) = have (sh w) /\ advertised (sv w2) = advertised (sv w) /\
  seen_version (sv w2) = seen_version (sv w).

Lemma onward_refl w : onward w w.
Proof using Type. split; [apply grows_refl | done]. Qed.

Lemma onward_same w w2 :
  spans (sh w2) = spans (sh w) -> piece_length (sh w2) = piece_length (sh w) -> sh_total_length (sh w2) = sh_total_length (sh w) ->
  metadata (sh w2) = metadata (sh w) -> piece_lengths (sh w2) = piece_lengths (sh w) -> have (sh w2) = have (sh w) ->
  advertised (sv w2) = advertised (sv w) -> seen_version (sv w2) = seen_version (sv w) -> onward w w2.
Proof using Type. intros. split; [by apply grows_same | done]. Qed.

(** A write that is followed by something safe. *)
Lemma write_then_safe {A} w m (k : World -> outcome A) :
  neutral m -> good (sh w) m -> safe w ->
  (forall w', safe w' -> sh w' = sh w -> sv w' = sv w -> exists w2 r, k w' = Some (w2, r) /\ safe w2 /\ onward w w2) ->
  exists w2 r, write_then w m k = Some (w2, r) /\ safe w2 /\ onward w w2.
Proof using Type.
  intros Hn Hg Hw Hk. unfold write_then. destruct (write_cases w m) as [(n & _ & ->) | [_ ->]].
  - apply Hk; [by apply safe_write | done | done].
  - eexists _, _. split; [done |]. split; [done | apply onward_refl].
Qed.

(** ** Handling a message *)

(** What the peer may send: fields of their width, payloads of a message. *)
Definition heard (m : Message) : Prop :=
  wf_message m /\ match m with Extended _ p => zlen p <= MAX_MESSAGE_LEN | _ => True end.

Definition handled (w : World) (o : outcome bool) : Prop :=
  exists w2 r, o = Some (w2, r) /\ safe w2 /\ onward w w2.

Lemma handled_here w r : safe w -> handled w (Some (w, r)).
Proof using Type. intros Hw. exists w, r. split; [done |]. split; [done | apply onward_refl]. Qed.

Lemma reject_handled w i b l : safe w -> handled w (reject w i b l).
Proof using Type.
  intros Hw. unfold reject. destruct (fast (sv w)); [| by apply handled_here].
  apply write_then_safe; [done | done | done |]. intros w' Hw' Hs Hsv. eexists _, _. split; [done |]. split; [done |]. apply onward_same; by rewrite ?Hs, ?Hsv.
Qed.

Lemma request_handled now w i b l : u_ok 32 b -> u_ok 32 l -> safe w -> handled w (handle_request now w i b l).
Proof using Type.
  intros Hb Hl Hw. unfold handle_request. cbv zeta. destruct (negb _ && negb _)%bool; [by apply reject_handled |].
  destruct (Z.ltb_spec MAX_REQUEST_LEN l); [by apply handled_here |].
  destruct (have_get (have (sh w)) i) eqn:Hi; cbn [andb negb]; [| by apply reject_handled].
  destruct (Z.leb_spec (Z.min (b + l) (u_max 64)) (piece_len (sh w) i)) as [Hin |]; cbn [negb]; [| by apply reject_handled].
  unfold u_ok, u_max in *. rewrite Z.min_l in Hin by lia.
  rewrite (safe_disk w Hw i b l Hi) by lia. pose proof (safe_sized w Hw i Hi) as Hsz.
  assert (zlen (slice (truth i) b (b + l)) = l) as Hlen by (rewrite zlen_slice; lia).
  apply write_then_safe; [done | | done |].
  - cbn [good]. rewrite Hlen. done.
  - intros w' Hw' Hs Hsv. eexists _, _. split; [done |]. split; [unfold touch; auto |].
    apply onward_same; unfold touch, set_sv, set_choker, add_uploaded; cbn; by rewrite ?Hs, ?Hsv.
Qed.

Lemma metadata_handled now w p : zlen p <= MAX_MESSAGE_LEN -> safe w -> handled w (handle_metadata now w p).
Proof using Type.
  intros Hp Hw. unfold handle_metadata. destruct (metadata (sh w)) as [info |] eqn:Em; [| by apply handled_here].
  destruct (peer_metadata_id (sv w)) as [id |]; [| by apply handled_here].
  destruct (decode_msg_total p) as [r ->]; [unfold MAX_MESSAGE_LEN, i64_max in *; lia |].
  destruct r as [[piece | |] |]; try (by apply handled_here). cbv zeta.
  set (w1 := set_sv w _). assert (safe w1) as Hw1 by (unfold w1; auto).
  match goal with |- handled w ?o => change (handled w1 o) end. destruct (_ <? _); [by apply handled_here |].
  apply write_then_safe; [done | | done |].
  - cbn [good]. exists info. split; [done |]. right. right. eauto.
  - intros w' Hw' Hs Hsv. eexists _, _. split; [done |]. split; [unfold touch; auto |].
    apply onward_same; unfold touch, set_sv; cbn; by rewrite ?Hs, ?Hsv.
Qed.

Lemma handle_handled now m w : heard m -> safe w -> handled w (handle now m w).
Proof using Type.
  intros [Hm Hp] Hw. destruct m; cbn [handle wf_message] in *; try (by apply handled_here).
  - eexists _, _. split; [done |]. split; [auto | by apply onward_same].
  - eexists _, _. split; [done |]. split; [auto | by apply onward_same].
  - destruct Hm as (_ & Hb & Hl). by apply request_handled.
  - destruct (_ && _)%bool.
    + unfold Extension.parse. destruct (decode_top_total payload false) as [r E]; [unfold MAX_MESSAGE_LEN, i64_max in *; lia |].
      unfold decode_lenient, new_lenient. rewrite E. destruct r; (eexists _, _; split; [done |]; split; [auto | by apply onward_same]).
    + destruct (_ && _)%bool; [by apply metadata_handled | by apply handled_here].
  - apply write_then_safe; [by destruct (hash_answer w request) | by destruct (hash_answer w request) | done |].
    intros w' Hw' Hs Hsv. eexists _, _. split; [done |]. split; [unfold touch; auto |].
    apply onward_same; unfold touch, set_sv; cbn; by rewrite ?Hs, ?Hsv.
Qed.

(** ** The tick *)

Lemma apply_have_fields s i : peer_choking (apply_message s (Have i)).1 = peer_choking s /\ piece_limit (apply_message s (Have i)).1 = piece_limit s.
Proof using Type. cbn. destruct (_ <=? _); [done |]. unfold ensure_capacity. by destruct (_ <=? _). Qed.

Lemma zget_mid {A} (l : list A) x k : zget (l ++ x :: k) (zlen l) = Some x.
Proof using Type. by rewrite zget_app_r. Qed.

Lemma zget_mid_ne {A} (l : list A) x y k j : j <> zlen l -> zget (l ++ x :: k) j = zget (l ++ y :: k) j.
Proof using Type.
  intros Hj. unfold zget. destruct (Z.ltb_spec j 0); [done |]. unfold zlen in Hj.
  destruct (decide (Z.to_nat j < length l)%nat); [by rewrite !lookup_app_l by done |]. rewrite !lookup_app_r by lia.
  destruct (Z.to_nat j - length l)%nat as [| q] eqn:E; [lia | done].
Qed.

(** Announcing a piece: the peer's record and ours move together. *)
Lemma safe_announce w done_ rest n :
  safe w -> advertised (sv w) = done_ ++ false :: rest -> have_get (have (sh w)) (zlen done_) = true ->
  safe (set_sv (mkWorld (sv w) (sh w) (disk w) (out w ++ [Have (zlen done_)]) n) (set_advertised (sv w) (done_ ++ true :: rest))).
Proof using Type.
  intros Hw Ha Hi. pose proof (safe_have w Hw) as [_ Hmax]. pose proof (safe_len w Hw) as Hlen. pose proof (zlen_nonneg done_) as H0.
  assert (zlen done_ < zlen (bits (have (sh w)))) as Hlt.
  { rewrite <- Hlen, Ha, zlen_app, zlen_cons. pose proof (zlen_nonneg rest). lia. }
  set (w1 := mkWorld (sv w) (sh w) (disk w) (out w ++ [Have (zlen done_)]) n).
  assert (view (set_sv w1 (set_advertised (sv w) (done_ ++ true :: rest))) = (apply_message (view w) (Have (zlen done_))).1) as Hv
    by apply (view_write w (Have (zlen done_)) n).
  destruct (apply_have_fields (view w) (zlen done_)) as [Hch Hlim]. pose proof (safe_limit w Hw) as Hl.
  constructor; rewrite ?Hv; cbn [sv sh disk out set_sv advertised allowed_fast told_unchoked set_advertised w1]; try apply Hw.
  - apply Forall_app. split; [apply Hw |]. apply Forall_singleton. split; [exact Hi | lia].
  - rewrite <- Hlen, Ha, !zlen_app, !zlen_cons. done.
  - intros j Hj. destruct (decide (j = zlen done_)) as [-> | Hne]; [done |].
    apply (safe_adv w Hw). rewrite Ha. by rewrite (zget_mid_ne done_ false true rest j Hne).
  - intros j Hj. rewrite peer_has_Have by (unfold u_ok, MAX_TRACKED_PIECES in *; lia). rewrite Hl.
    rewrite (proj2 (Z.ltb_lt (zlen done_) _)), andb_true_r by lia. destruct (Z.eqb_spec j (zlen done_)) as [-> | Hne].
    + by rewrite zget_mid.
    + rewrite (safe_view w Hw j Hj), Ha. by rewrite (zget_mid_ne done_ true false rest j Hne).
  - rewrite Hch. apply Hw.
  - rewrite Hlim. apply Hw.
Qed.

Definition same_but_told (w w2 : World) : Prop :=
  sh w2 = sh w /\ disk w2 = disk w /\ told_unchoked (sv w2) = told_unchoked (sv w) /\ choker_id (sv w2) = choker_id (sv w) /\
  seen_version (sv w2) = seen_version (sv w).

Lemma announce_loop_safe now_ : forall w done_ told sent,
  safe w -> advertised (sv w) = done_ ++ told -> bits (have (sh w)) = done_ ++ now_ ->
  exists w2 r, announce_loop w (zlen done_) now_ done_ told sent = (w2, r) /\ safe w2 /\ same_but_told w w2 /\
    (forall b, r = Ok b -> advertised (sv w2) = bits (have (sh w2))).
Proof using Type.
  induction now_ as [| has now' IH]; intros w done_ told sent Hw Ha Hb.
  - pose proof (safe_len w Hw) as Hl. rewrite Ha, Hb, !zlen_app in Hl. assert (told = []) as -> by (apply zlen_0_nil; unfold zlen in *; simpl in *; lia).
    exists w, (Ok sent). split; [done |]. split; [done |]. split; [by repeat split |]. intros _ _. by rewrite Ha, Hb.
  - pose proof (safe_len w Hw) as Hl. rewrite Ha, Hb, !zlen_app, zlen_cons in Hl.
    destruct told as [| t told']; [unfold zlen in Hl; simpl in Hl; lia |].
    assert (have_get (have (sh w)) (zlen done_) = has) as Hget by (unfold have_get; by rewrite Hb, zget_mid).
    pose proof (safe_adv w Hw (zlen done_)) as Hadv. rewrite Ha, zget_mid, Hget in Hadv. cbn [default from_option id] in Hadv.
    cbn [announce_loop]. assert (forall x, zlen (done_ ++ [x : bool]) = zlen done_ + 1) as Hz by (intros; by rewrite zlen_app).
    destruct (has && negb t)%bool eqn:Eht.
    + apply andb_true_iff in Eht as [-> ->%negb_true_iff].
      destruct (write_cases w (Have (zlen done_))) as [(n & _ & ->) | [_ ->]].
      * set (w1 := set_sv _ _). assert (safe w1) as Hw1 by exact (safe_announce w done_ told' n Hw Ha Hget).
        destruct (IH w1 (done_ ++ [true]) told' true Hw1) as (w2 & r & E & Hw2 & Hs & Hr); [by rewrite <- app_assoc.. |].
        rewrite Hz in E. exists w2, r. done.
      * eexists _, _. split; [done |]. split; [done |]. split; [by repeat split | done].
    + assert (t = has) as -> by (destruct has, t; naive_solver).
      destruct (IH w (done_ ++ [has]) told' sent Hw) as (w2 & r & E & Hw2 & Hs & Hr); [by rewrite <- app_assoc.. |].
      rewrite Hz in E. exists w2, r. done.
Qed.

(** Choking and unchoking. *)
Lemma safe_choke w (allowed : bool) n :
  safe w -> safe (set_sv (mkWorld (sv w) (sh w) (disk w) (out w ++ [if allowed then Unchoke else Choke]) n) (set_told (sv w) allowed)).
Proof using Type.
  intros Hw. set (m := if allowed then Unchoke else Choke).
  assert (view (set_sv (mkWorld (sv w) (sh w) (disk w) (out w ++ [m]) n) (set_told (sv w) allowed)) = (apply_message (view w) m).1) as Hv
    by apply (view_write w m n).
  constructor; rewrite ?Hv; cbn [sv sh disk out set_sv advertised allowed_fast told_unchoked set_told]; try apply Hw.
  - apply Forall_app. split; [apply Hw |]. apply Forall_singleton. by destruct allowed.
  - intros i Hi. transitivity (peer_has (view w) i); [by destruct allowed | by apply Hw].
  - by destruct allowed.
  - transitivity (piece_limit (view w)); [by destruct allowed | apply Hw].
Qed.

Lemma tick_safe now w :
  safe w -> fresh w ->
  exists w2 r, tick now w = (w2, r) /\ safe w2 /\ sh w2 = sh w /\
    (r = Ok tt -> fresh w2 /\ advertised (sv w2) = bits (have (sh w2)) /\
       told_unchoked (sv w2) = Choker.is_unchoked (choker (sh w2)) (choker_id (sv w2))).
Proof using Type.
  intros Hw [Hle Hfr]. unfold tick.
  assert (exists w1 r1, announce_new_pieces w = (w1, r1) /\ safe w1 /\ sh w1 = sh w /\
    (forall b, r1 = Ok b -> advertised (sv w1) = bits (have (sh w1)) /\ seen_version (sv w1) = version (have (sh w1)))) as (w1 & r1 & -> & Hw1 & Hs1 & Hr1).
  { unfold announce_new_pieces. cbv zeta. destruct (Z.eqb_spec (version (have (sh w))) (seen_version (sv w))) as [Ev |].
    - eexists _, _. split; [done |]. split; [done |]. split; [done |]. intros _ _. split; [by apply Hfr | done].
    - set (w0 := set_sv w _). assert (safe w0) as Hw0 by (unfold w0; auto).
      destruct (announce_loop_safe (bits (have (sh w0))) w0 [] (advertised (sv w0)) false Hw0) as (w1 & r1 & E & Hw1 & (Hs & _ & _ & _ & Hseen) & Hr); [done.. |].
      exists w1, r1. split; [exact E |]. split; [done |]. split; [by rewrite Hs |]. intros b Hb. split; [by eapply Hr |].
      rewrite Hseen, Hs. done. }
  destruct r1 as [sent | e]; [| by exists w1, (Err e)]. destruct (Hr1 sent eq_refl) as [Ha Hv]. clear Hr1.
  assert (exists wt, (if sent then touch w1 now else w1) = wt /\ safe wt /\ sh wt = sh w /\ advertised (sv wt) = bits (have (sh wt)) /\
    seen_version (sv wt) = version (have (sh wt))) as (wt & -> & Hwt & Hst & Hat & Hvt).
  { destruct sent; eexists; (split; [done |]); unfold touch; split_and!; auto. }
  cbv zeta. destruct (Bool.eqb _ _) eqn:Eb.
  - apply Bool.eqb_prop in Eb. exists wt, (Ok tt). split; [done |]. split; [done |]. split; [done |]. intros _. split_and!; auto.
    split; [lia | done].
  - destruct (write_cases wt (if Choker.is_unchoked (choker (sh wt)) (choker_id (sv wt)) then Unchoke else Choke)) as [(n & _ & ->) | [_ ->]].
    + eexists _, _. split; [done |]. split; [apply safe_set_sv; [done |]; exact (safe_choke wt _ n Hwt) |]. split; [done |]. intros _.
      split; [split; cbn; [lia | done] |]. done.
    + eexists _, _. split; [done |]. split; [done |]. split; [done |]. done.
Qed.

(** ** Whole connections *)

(** What the peer and the other threads may do: messages of the wire format,
    and a disk on which the verified pieces stay as they are. *)
Definition legal (w : World) (st : ServeStep) : Prop :=
  match st with
  | OnMessage _ m => heard m
  | Verified i fs => let s' := sh (set_have w (have_set (have (sh w)) i)) in intact s' fs /\ sized s'
  | Wrote fs => intact (sh w) fs
  | _ => True
  end.

Fixpoint legal_run (w : World) (steps : list ServeStep) : Prop :=
  match steps with
  | [] => True
  | st :: rest => legal w st /\ forall w', step w st = Some (w', Ok tt) -> legal_run w' rest
  end.

Lemma safe_set_have w i fs :
  safe w -> let w' := set_have (set_disk w fs) (have_set (have (sh w)) i) in
  intact (sh w') fs -> sized (sh w') -> safe w' /\ grows (sh w) (sh w').
Proof using Type.
  intros Hw w' Hi Hz. destruct (have_set_ok (have (sh w)) i (safe_have w Hw)) as (Hok & Hlen & Hmono & _).
  assert (grows (sh w) (sh w')) as Hg by (unfold grows; cbn; auto 10). split; [| done].
  assert (view w' = view w) as Hv by (unfold view; cbn [w' sh have set_have set_disk out]; by rewrite Hlen).
  constructor; rewrite ?Hv; cbn [w' sv sh disk out have set_have set_disk]; rewrite ?Hlen; try apply Hw; try done.
  - apply (Forall_impl _ _ _ (safe_out w Hw)). intros m. by apply good_grows.
  - intros j Hj. apply Hmono. by apply (safe_adv w Hw).
  - intros j Hj. apply Hmono. by apply (safe_fast w Hw).
Qed.

Lemma fresh_set_have w i fs : have_ok (have (sh w)) -> fresh w -> fresh (set_have (set_disk w fs) (have_set (have (sh w)) i)).
Proof using Type.
  intros Hok [Hle Hfr]. destruct (have_set_ok (have (sh w)) i Hok) as (_ & _ & _ & [E | E]); unfold fresh; cbn [sv sh set_have set_disk have].
  - by rewrite E.
  - rewrite E. split; [lia |]. intros H. lia.
Qed.

(** The outcome of a step or a run: never a panic, and nothing false said. *)
Definition went_well (w : World) (o : outcome unit) : Prop :=
  exists w2 r, o = Some (w2, r) /\ safe w2 /\ grows (sh w) (sh w2) /\ (r = Ok tt -> fresh w2).

Lemma step_well w st : safe w -> fresh w -> legal w st -> went_well w (step w st).
Proof using Type.
  intros Hw Hf Hl. destruct st as [now m | now | n | i fs | fs | op]; cbn [step legal] in *.
  - destruct (handle_handled now m w Hl Hw) as (w2 & r & -> & Hw2 & Hg & Hh & Ha & Hs). cbn [mbind option_bind].
    eexists _, _. split; [done |]. split; [done |]. split; [done |]. intros _. destruct Hf as [Hle Hfr]. split; rewrite Hs, Hh; [done |]. by rewrite Ha.
  - destruct (tick_safe now w Hw Hf) as (w2 & r & -> & Hw2 & Hs & Hr). exists w2, r. split; [done |]. split; [done |].
    split; [rewrite Hs; apply grows_refl |]. intros H. by destruct (Hr H).
  - eexists _, _. split; [done |]. split; [unfold record_download; auto |]. split; [by apply grows_same | done].
  - destruct Hl as [Hi Hz]. destruct (safe_set_have w i fs Hw Hi Hz) as [Hw2 Hg]. eexists _, _. split; [done |]. split; [done |]. split; [done |].
    intros _. apply fresh_set_have; [apply Hw | done].
  - eexists _, _. split; [done |]. split; [| split; [by apply grows_same | done]]. destruct Hw. constructor; assumption.
  - eexists _, _. split; [done |]. split; [auto |]. split; [by apply grows_same | done].
Qed.

Lemma run_well steps w : safe w -> fresh w -> legal_run w steps -> went_well w (run w steps).
Proof using Type.
  revert w. induction steps as [| st steps IH]; intros w Hw Hf Hl; cbn [run legal_run] in *.
  - eexists _, _. split; [done |]. split; [done |]. split; [apply grows_refl | done].
  - destruct Hl as [Hl Hrest]. destruct (step_well w st Hw Hf Hl) as (w1 & r & E & Hw1 & Hg1 & Hf1). rewrite E. cbn [mbind option_bind].
    destruct r as [[] | e].
    + destruct (IH w1 Hw1 (Hf1 eq_refl) (Hrest w1 E)) as (w2 & r2 & E2 & Hw2 & Hg2 & Hf2). exists w2, r2. split; [done |].
      split; [done |]. split; [by eapply grows_trans | done].
    + exists w1, (Err e). split; [done |]. split; [done |]. split; [done | done].
Qed.

(** ** The beginning *)

Lemma first_view fast_ adv :
  zlen adv <= MAX_TRACKED_PIECES ->
  let v := (apply_message (for_torrent (zlen adv)) (first_message fast_ adv)).1 in
  (forall i, 0 <= i -> peer_has v i = default false (zget adv i)) /\ peer_choking v = true /\ piece_limit v = zlen adv.
Proof using Type.
  intros Hl. assert (piece_limit (for_torrent (zlen adv)) = zlen adv) as Hlim by (cbn; lia).
  assert (let v := (apply_message (for_torrent (zlen adv)) (Bitfield (encode_bitfield adv))).1 in
    (forall i, 0 <= i -> peer_has v i = default false (zget adv i)) /\ peer_choking v = true /\ piece_limit v = zlen adv) as Hbits.
  { cbv zeta. split; [| done]. intros i _. unfold peer_has. by rewrite bitfield_understood. }
  unfold first_message. destruct fast_; cbn [negb]; [| exact Hbits].
  destruct (forallb (fun has => has) adv && negb (bool_decide (adv = [])))%bool eqn:E.
  - apply andb_true_iff in E as [E _]. rewrite forallb_forall in E. cbv zeta. split; [| done]. intros i Hi. cbn [apply_message fst].
    rewrite peer_has_set, Hlim. unfold zget. destruct (Z.ltb_spec i 0); [lia |].
    destruct (decide (Z.to_nat i < length adv)%nat) as [Hlt | Hge].
    + rewrite lookup_replicate_2 by (unfold zlen; lia). destruct (lookup_lt_is_Some_2 adv _ Hlt) as [b Hb]. rewrite Hb. cbn.
      symmetry. apply E. apply list_elem_of_In. by eapply list_elem_of_lookup_2.
    + rewrite !lookup_ge_None_2; [done | lia | rewrite length_replicate; unfold zlen; lia].
  - destruct (forallb negb adv) eqn:E2; [| exact Hbits]. rewrite forallb_forall in E2. cbv zeta. split; [| done].
    intros i Hi. cbn [apply_message fst]. rewrite peer_has_set. unfold zget. destruct (Z.ltb_spec i 0); [done |]. rewrite lookup_nil. cbn.
    destruct (adv !! Z.to_nat i) as [b |] eqn:Hb; [| done]. cbn. symmetry. apply negb_true_iff, E2, list_elem_of_In. by eapply list_elem_of_lookup_2.
Qed.

(** The messages after the first say nothing new of what we have. *)
Definition quiet (m : Message) : Prop := neutral m \/ match m with AllowedFast _ => True | _ => False end.

Lemma quiet_view s m :
  quiet m -> peer_has_pieces (apply_message s m).1 = peer_has_pieces s /\ peer_choking (apply_message s m).1 = peer_choking s /\
  piece_limit (apply_message s m).1 = piece_limit s.
Proof using Type. intros [Hm | Hm]; destruct m; try done. cbn. by destruct (_ && _)%bool. Qed.

Lemma quiet_views ms s :
  Forall quiet ms -> peer_has_pieces (apply_messages s ms) = peer_has_pieces s /\ peer_choking (apply_messages s ms) = peer_choking s /\
  piece_limit (apply_messages s ms) = piece_limit s.
Proof using Type.
  intros Hms. revert s. induction Hms as [| m ms Hm Hms IH]; intros s; [done |]. unfold apply_messages in *. cbn [foldl].
  destruct (IH (apply_message s m).1) as (-> & -> & ->). by apply quiet_view.
Qed.

Lemma allow_loop_spec adv set : forall st allowed,
  Forall (fun i => 0 <= i < zlen adv) set ->
  exists st' r ms, allow_loop adv set st allowed = Some (st', r) /\ st'.1 = st.1 ++ ms /\
    Forall (fun m => exists i, m = AllowedFast i /\ zget adv i = Some true) ms /\
    (forall a, r = Ok a -> forall i, i ∈ a -> i ∈ allowed \/ zget adv i = Some true).
Proof using Type.
  induction set as [| p set IH]; intros st allowed Hset; cbn [allow_loop].
  - eexists _, _, []. split; [done |]. rewrite app_nil_r. split; [done |]. split; [done |]. intros a [= <-]. auto.
  - apply Forall_cons in Hset as [Hp Hset]. destruct (zget_lt adv p Hp) as [b Hb]. rewrite Hb. destruct b; [| by apply IH].
    unfold send. destruct st as [o [| n]]; cbn [snd fst].
    + eexists _, _, []. split; [done |]. rewrite app_nil_r. split; [done |]. split; [done |]. done.
    + destruct (IH (o ++ [AllowedFast p], n) ({[p]} ∪ allowed) Hset) as (st' & r & ms & E & Ho & Hms & Ha).
      eexists st', r, (AllowedFast p :: ms). split; [done |]. cbn [fst] in *. rewrite Ho, <- app_assoc. split; [done |]. split; [constructor; eauto |].
      intros a Hr i Hi. destruct (Ha a Hr i Hi) as [[->%elem_of_singleton | ?]%elem_of_union | ?]; auto.
Qed.

Lemma take_words_range count pc set ws : 0 < pc -> Forall (fun i => 0 <= i < pc) set -> Forall (fun i => 0 <= i < pc) (Fast.take_words count pc set ws).
Proof using Type.
  intros Hpc. revert set. induction ws as [| w ws IH]; intros set Hs; cbn [Fast.take_words]; [done |].
  destruct (_ =? _)%nat; [done |]. cbv zeta. apply IH. case_bool_decide; [done |]. apply Forall_app. split; [done |].
  apply Forall_singleton. by apply Z.mod_pos_bound.
Qed.

Lemma fast_loop_range sha1 rounds count pc set x res :
  0 < pc -> Forall (fun i => 0 <= i < pc) set -> Fast.fast_loop sha1 rounds count pc set x = Some res -> Forall (fun i => 0 <= i < pc) res.
Proof using Type.
  intros Hpc. revert set x. induction rounds as [| n IH]; intros set x Hs; cbn [Fast.fast_loop]; destruct (_ <? _)%nat; try done.
  - by intros [= <-].
  - apply IH. by apply take_words_range.
  - by intros [= <-].
Qed.

Lemma allowed_range sha1 rounds ip hash pc count set :
  0 <= pc -> Fast.allowed_fast_set sha1 rounds ip hash pc count = Some set -> Forall (fun i => 0 <= i < pc) set.
Proof using Type.
  intros Hpc. unfold Fast.allowed_fast_set. destruct (Z.eqb_spec pc 0); [by intros [= <-] |]. apply fast_loop_range; [lia | done].
Qed.

(** A fast peer's set is found within [rounds] digests. *)
Definition fast_set_found (sha1 : list Z -> list Z) (rounds : nat) (s : SeederShared) (peer_ip : option IpAddr) : Prop :=
  match peer_ip with
  | Some (Ip4 ip) => is_Some (Fast.allowed_fast_set sha1 rounds ip (sh_info_hash s) (zlen (bits (have s))) ALLOWED_FAST_PIECES)
  | _ => True
  end.

Lemma allow_fast_spec sha1 rounds s fast_ peer_ip st :
  zlen (bits (have s)) <= MAX_TRACKED_PIECES -> fast_set_found sha1 rounds s peer_ip ->
  exists st' r ms, allow_fast sha1 rounds s fast_ peer_ip (bits (have s)) st = Some (st', r) /\ st'.1 = st.1 ++ ms /\
    Forall (fun m => exists i, m = AllowedFast i /\ zget (bits (have s)) i = Some true) ms /\
    (forall a, r = Ok a -> forall i, i ∈ a -> zget (bits (have s)) i = Some true).
Proof using Type.
  intros Hl Hf. pose proof (zlen_nonneg (bits (have s))). unfold allow_fast.
  assert (exists st' r ms, Some (st, Ok ∅ : result (gset Z) ServeError) = Some (st', r) /\ st'.1 = st.1 ++ ms /\
    Forall (fun m => exists i, m = AllowedFast i /\ zget (bits (have s)) i = Some true) ms /\
    (forall a, r = Ok a -> forall i, i ∈ a -> zget (bits (have s)) i = Some true)) as Hnone.
  { eexists _, _, []. split; [done |]. rewrite app_nil_r. split; [done |]. split; [done |]. intros a [= <-] i Hi. by apply elem_of_empty in Hi. }
  destruct fast_; [| done]. destruct peer_ip as [[ip | ip] |]; [| done..]. cbn [fast_set_found] in Hf.
  unfold wrap. rewrite Z.mod_small by (unfold MAX_TRACKED_PIECES in Hl; lia). destruct Hf as [set Hset]. rewrite Hset. cbn [mbind option_bind].
  destruct (allow_loop_spec (bits (have s)) set st ∅) as (st' & r & ms & E & Ho & Hms & Ha); [by eapply allowed_range |].
  exists st', r, ms. split_and!; try done. intros a Hr i Hi. destruct (Ha a Hr i Hi) as [Hin | ?]; [by apply elem_of_empty in Hin | done].
Qed.

Lemma have_of_bit s i : zget (bits (have s)) i = Some true -> have_get (have s) i = true /\ 0 <= i < zlen (bits (have s)).
Proof using Type. intros E. unfold have_get. rewrite E. split; [done |]. by apply zget_Some in E as [? _]. Qed.

(** The state a connection begins in, whatever was said so far: one first
    message, then quiet and good ones. *)
Lemma begun_safe s fs now id fast_ allowed speaks c ms n :
  have_ok (have s) -> intact s fs -> sized s -> Forall quiet ms -> Forall (good s) ms ->
  (forall i, i ∈ allowed -> zget (bits (have s)) i = Some true) ->
  let w := set_choker (mkWorld (mkServing id fast_ allowed false (version (have s)) (bits (have s)) speaks None 0 now) s fs
             (first_message fast_ (bits (have s)) :: ms) n) c in
  safe w /\ fresh w /\ grows s (sh w).
Proof using Type.
  intros Hok Hi Hz Hq Hg Ha w.
  destruct (first_view fast_ (bits (have s)) (proj2 Hok)) as (Hv & Hc & Hl).
  assert (view w = apply_messages (apply_message (for_torrent (zlen (bits (have s)))) (first_message fast_ (bits (have s)))).1 ms) as Ev by done.
  destruct (quiet_views ms (apply_message (for_torrent (zlen (bits (have s)))) (first_message fast_ (bits (have s)))).1 Hq) as (Hp & Hch & Hlim).
  rewrite <- Ev in Hp, Hch, Hlim.
  split; [| split; [split; [done | done] | by apply grows_same]]. constructor; try assumption.
  - constructor; [| exact Hg]. unfold first_message. by repeat case_match.
  - done.
  - intros i Hb. exact Hb.
  - intros i H0. unfold peer_has. rewrite Hp. by apply Hv.
  - by rewrite Hch.
  - intros i Hin. by apply have_of_bit, Ha.
  - by rewrite Hlim.
Qed.

Lemma begin_well sha1 rounds s fs hs peer_ip extended now n :
  have_ok (have s) -> intact s fs -> sized s -> fast_set_found sha1 rounds s peer_ip ->
  exists st r, begin sha1 rounds s fs hs peer_ip extended now ([], n) = Some (st, r) /\
    forall w, r = Ok w -> safe w /\ fresh w /\ grows s (sh w).
Proof using Type.
  intros Hok Hi Hz Hf. unfold begin. cbv zeta. unfold send at 1. cbn [snd fst]. destruct n as [| n]; [by eexists _, _ |]. cbn [app].
  destruct (allow_fast_spec sha1 rounds s (supports_fast hs) peer_ip ([first_message (supports_fast hs) (bits (have s))], n) (proj2 Hok) Hf)
    as (st1 & r1 & ms & -> & Ho & Hms & Ha). cbn [mbind option_bind].
  destruct r1 as [allowed | e]; [| by eexists _, _].
  set (speaks := (bool_decide _ && _)%bool).
  assert (Forall quiet ms /\ Forall (good s) ms) as [Hq Hg].
  { split; apply (Forall_impl _ _ _ Hms); intros m (i & -> & Hb); [by right | by apply have_of_bit]. }
  assert (exists st2 r2, (match extended && speaks, metadata s with
    | true, Some info => send st1 (Extended Extension.EXTENDED_HANDSHAKE_ID
        (Extension.build_for_seeding UT_METADATA_ID (zlen info) (have_count (have s) =? have_total (have s))))
    | _, _ => (st1, Ok tt) end) = (st2, r2) /\
    exists ms', st2.1 = first_message (supports_fast hs) (bits (have s)) :: ms' /\ Forall quiet ms' /\ Forall (good s) ms') as (st2 & r2 & -> & ms' & Ho2 & Hq2 & Hg2).
  { cbn [fst app] in Ho. destruct (extended && speaks)%bool; [| by eexists _, _; split; [done |]; exists ms].
    destruct (metadata s) as [info |] eqn:Em; [| by eexists _, _; split; [done |]; exists ms].
    unfold send. destruct st1 as [o [| k]]; cbn [snd fst] in *; [by eexists _, _; split; [done |]; exists ms |].
    eexists _, _. split; [done |]. cbn [fst]. rewrite Ho. eexists (ms ++ [_]). split; [done |]. split; apply Forall_app; (split; [done |]); apply Forall_singleton.
    - left. exact I.
    - exists info. split; [done |]. destruct (_ =? _); auto. }
  destruct r2 as [u | e]; [| by eexists _, _]. destruct (Choker.register (choker s)) as [c id]. eexists _, _. split; [done |].
  intros w [= <-]. rewrite Ho2. apply begun_safe; try done. intros i Hin. by eapply Ha.
Qed.

End promise.

(** ** Properties *)


(** A tick that succeeds tells the peer everything: at its end the
    peer's record of us has exactly the verified pieces, and the peer knows
    whether it is unchoked. *)
Theorem tick_informs (truth : Z -> list Z) (sha1 : list Z -> list Z) (rounds : nat) (s : SeederShared) (fs : Fs) (hs : Handshake)
    (peer_ip : option IpAddr) (extended : bool) (now later : Z) (n : nat) (st : Stream) (w w1 w2 : World) (steps : list ServeStep)
    (Hhave : have_ok (have s)) (Hdisk : intact truth s fs) (Hsized : sized truth s) (Hfast : fast_set_found sha1 rounds s peer_ip)
    (Hbegin : begin sha1 rounds s fs hs peer_ip extended now ([], n) = Some (st, Ok w))
    (Hlegal : legal_run truth w steps) (Hrun : run w steps = Some (w1, Ok tt)) (Htick : tick later w1 = (w2, Ok tt)) :
  (forall i, 0 <= i -> peer_has (view w2) i = have_get (have (sh w2)) i) /\
  peer_choking (view w2) = negb (Choker.is_unchoked (choker (sh w2)) (choker_id (sv w2))) /\ have (sh w2) = have (sh w1).
Proof.
  destruct (begin_well truth sha1 rounds s fs hs peer_ip extended now n Hhave Hdisk Hsized Hfast) as (st' & r' & E & Hw).
  rewrite Hbegin in E. injection E as <- <-. destruct (Hw w eq_refl) as (Hsafe & Hfresh & _).
  destruct (run_well truth steps w Hsafe Hfresh Hlegal) as (w1' & r & E & Hw1 & _ & Hf). rewrite Hrun in E. injection E as <- <-.
  destruct (tick_safe truth later w1 Hw1 (Hf eq_refl)) as (w2' & r2 & E & Hw2 & Hs & Hr). rewrite Htick in E. injection E as <- <-.
  destruct (Hr eq_refl) as (_ & Ha & Ht). split_and!.
  - intros i Hi. rewrite (safe_view truth w2 Hw2 i Hi), Ha. done.
  - rewrite (safe_told truth w2 Hw2), Ht. done.
  - by rewrite Hs.
Qed.

(** Two files of three and two bytes in pieces of three, the first piece
    verified; the peer, interested, asks for it. *)
Definition example_disk : Fs := {[ [47; 97] := [1; 2; 3] ]}.
Definition example_truth (i : Z) : list Z := if i =? 0 then [1; 2; 3] else [4; 5].
Definition example_shared : SeederShared :=
  mkSeederShared (replicate 20 0) (build_file_spans [47] two_files) 3 5 (mkHaveMap [true; false] 1) 0 (Choker.new 4) None None None.
Definition example_hs : Handshake := Handshake.new (replicate 20 0) (replicate 20 1) false.
Definition example_steps : list ServeStep := [OnMessage 1 Interested; OnTick 2; OnMessage 3 (Request 0 1 2)].

Lemma example_have : have_ok (have example_shared).
Proof. split; vm_compute; congruence. Qed.

Lemma example_get i : have_get (have example_shared) i = true -> i = 0.
Proof.
  unfold have_get. destruct (zget _ i) as [b |] eqn:E; [| done]. apply zget_Some in E as [Hi E]. change (zlen (bits (have example_shared))) with 2 in Hi.
  assert (i = 0 \/ i = 1) as [-> | ->] by lia; [done |]. by injection E as <-.
Qed.

Lemma example_intact : intact example_truth example_shared example_disk.
Proof.
  intros i b l ->%example_get Hb Hl Hbl. change (piece_len example_shared 0) with 3 in Hbl.
  assert (b = 0 \/ b = 1 \/ b = 2 \/ b = 3) as Hbs by lia. assert (l = 0 \/ l = 1 \/ l = 2 \/ l = 3) as Hls by lia.
  destruct Hbs as [-> | [-> | [-> | ->]]], Hls as [-> | [-> | [-> | ->]]]; try lia; vm_compute; reflexivity.
Qed.

Lemma example_sized : sized example_truth example_shared.
Proof. intros i ->%example_get. vm_compute. reflexivity. Qed.

Lemma example_legal w : legal_run example_truth w example_steps.
Proof.
  split; [by split |]. intros w1 _. split; [exact I |]. intros w2 _. split; [| intros w3 _; exact I].
  split; [repeat split; unfold u_ok; lia | exact I].
Qed.


Lemma tick_informs_witness :
  exists w1 w2, (forall i, 0 <= i -> peer_has (view w2) i = have_get (have (sh w2)) i) /\
    peer_choking (view w2) = negb (Choker.is_unchoked (choker (sh w2)) (choker_id (sv w2))) /\ have (sh w2) = have (sh w1).
Proof.
  destruct (begin mixing 0 example_shared example_disk example_hs None true 0 ([], 9%nat)) as [[st [w | e]] |] eqn:E;
    [| vm_compute in E; discriminate..].
  destruct (run w example_steps) as [[w1 [[] | e]] |] eqn:Er; [| vm_compute in E; injection E as <- <-; vm_compute in Er; discriminate..].
  destruct (tick 4 w1) as [w2 [[] | e]] eqn:Et;
    [| vm_compute in E; injection E as <- <-; vm_compute in Er; injection Er as <-; vm_compute in Et; discriminate].
  exists w1, w2. exact (tick_informs example_truth mixing 0 example_shared example_disk example_hs None true 0 4 9 st w w1 w2 example_steps
    example_have example_intact example_sized I E (example_legal w) Er Et).
Defined.
