(* ===== verification/MagnetFetch.v ===== *)
(** * Fetching metadata from a peer

    Models [fetch_metadata_from_peer] of [src/src/magnet_fetch.rs] from the
    point where the connection is made and the peer's handshake is read, and
    puts it against the seeder of [Serving]: one client's magnet link resolved
    by another's info dictionary.

    The connection is the messages that will arrive before it fails, and how
    many more it takes. *)

From S2P Require Import Torrent.
From S2P Require Import Prelude Str Numeral Text Bytes BTree Bencode Io Net Dicts Tracker PeerExt Metadata.
From S2P Require Import Sha256 Merkle V2Hashes FileWriter Choker PeerState Handshake Message Serving.

Definition OUR_UT_METADATA_ID : Z := 1.

Inductive MetadataFetchError : Type :=
| Connection
| ExtensionErr (e : Extension.ExtensionError)
| MetadataErr (e : MetadataError)
| PeerLacksExtensionProtocol
| PeerLacksUtMetadata
| PeerDoesNotKnowMetadataSizeYet
| PeerRejectedPiece (piece : Z).

Abbreviation fetched A := (result A MetadataFetchError).

(** The first loop: until the peer's extended handshake, what it calls
    [ut_metadata] and how large its info dictionary is, and what arrives after. *)
Fixpoint await_handshake (incoming : list Message) : option (fetched ((Z * Z) * list Message)) :=
  match incoming with
  | [] => Some (Err Connection)
  | Extended id payload :: rest =>
      if id =? 0 then
        match Extension.parse payload with
        | None => None
        | Some (Err e) => Some (Err (ExtensionErr e))
        | Some (Ok hs) => Some (
            let? their_id := ok_or (Extension.peer_ut_metadata_id hs) PeerLacksUtMetadata in
            let? size := ok_or (Extension.metadata_size hs) PeerDoesNotKnowMetadataSizeYet in
            Ok ((their_id, size), rest))
        end
      else await_handshake rest
  | _ :: rest => await_handshake rest
  end.

(** The second loop: until every piece is there. *)
Fixpoint collect_pieces (a : MetadataAssembler) (incoming : list Message) : option (fetched MetadataAssembler) :=
  if is_complete a then Some (Ok a)
  else match incoming with
  | [] => Some (Err Connection)
  | Extended id payload :: rest =>
      if id =? OUR_UT_METADATA_ID then
        match decode_msg payload with
        | None => None
        | Some (Err e) => Some (Err (MetadataErr e))
        | Some (Ok (Metadata.Data piece _ data)) =>
            match add_piece a piece data with
            | None => None
            | Some (a', Ok _) => collect_pieces a' rest
            | Some (_, Err e) => Some (Err (MetadataErr e))
            end
        | Some (Ok (Metadata.Reject piece)) => Some (Err (PeerRejectedPiece piece))
        | Some (Ok (Metadata.Request _)) => collect_pieces a rest
        end
      else collect_pieces a rest
  | _ :: rest => collect_pieces a rest
  end.

(** [send_message]s in a row, as far as the connection takes them. *)
Definition send_all (room : nat) (ms : list Message) : list Message * fetched unit :=
  if (length ms <=? room)%nat then (ms, Ok tt) else (take room ms, Err Connection).

Definition our_handshake : Message := Extended 0 (Extension.build OUR_UT_METADATA_ID None).

Definition requests (their_id n : Z) : list Message :=
  (fun piece => Extended their_id (encode_msg (Metadata.Request piece))) <$> seqZ 0 n.

(** What was sent, and the outcome. *)
Definition fetch_metadata (sha1 : list Z -> list Z) (hs : Handshake) (hash : list Z) (incoming : list Message) (room : nat) :
    list Message * option (fetched (list Z)) :=
  if negb (Handshake.supports_extensions hs) then ([], Some (Err PeerLacksExtensionProtocol))
  else
    let '(sent, r) := send_all room [our_handshake] in
    match r with
    | Err e => (sent, Some (Err e))
    | Ok _ =>
        match await_handshake incoming with
        | None => (sent, None)
        | Some (Err e) => (sent, Some (Err e))
        | Some (Ok ((their_id, size), rest)) =>
            match for_claimed_size size with
            | Err e => (sent, Some (Err (MetadataErr e)))
            | Ok a =>
                let '(more, r) := send_all (room - 1) (requests their_id (wrap 32 (num_pieces a))) in
                (sent ++ more,
                 match r with
                 | Err e => Some (Err e)
                 | Ok _ =>
                     match collect_pieces a rest with
                     | None => None
                     | Some (Err e) => Some (Err e)
                     | Some (Ok a') =>
                         Some (match assemble_and_verify sha1 a' hash with Ok raw => Ok raw | Err e => Err (MetadataErr e) end)
                     end
                 end)
            end
        end
    end.

(** ** What a peer sends is never trusted *)

(** Payloads of the wire format. *)
Definition payload_ok (m : Message) : Prop := match m with Extended _ p => zlen p <= MAX_MESSAGE_LEN | _ => True end.

Lemma small_payload (p : list Z) : zlen p <= MAX_MESSAGE_LEN -> zlen p <= i64_max.
Proof. unfold MAX_MESSAGE_LEN, i64_max. lia. Qed.

Lemma parse_total p : zlen p <= MAX_MESSAGE_LEN -> is_Some (Extension.parse p).
Proof.
  intros Hp. unfold Extension.parse. destruct (decode_top_total p false (small_payload p Hp)) as [[v | e] E];
    unfold decode_lenient, new_lenient; rewrite E; by eexists.
Qed.

Lemma decoded_piece p m : decode_msg p = Some (Ok m) -> match m with Metadata.Data i _ _ => 0 <= i | _ => True end.
Proof.
  unfold decode_msg. destruct (decode_value_with_span _ _) as [[[[v [s1 s2]] dd] | e] |]; [| done..]. intros [= H]. unfold message_of in H.
  apply result_bind_Ok in H as (dict & _ & H). apply result_bind_Ok in H as (ty & _ & H). apply result_bind_Ok in H as (i & _ & H). cbv zeta in H.
  destruct (ty =? MSG_TYPE_REQUEST); [by injection H as <- |]. destruct (ty =? MSG_TYPE_REJECT); [by injection H as <- |].
  destruct (ty =? MSG_TYPE_DATA); [| done]. apply result_bind_Ok in H as (sz & _ & H). injection H as <-.
  unfold wrap. by apply Z.mod_pos_bound.
Qed.

Lemma collect_safe incoming : forall a,
  assembler_ok a -> Forall payload_ok incoming ->
  exists r, collect_pieces a incoming = Some r /\ forall a', r = Ok a' -> assembler_ok a' /\ total_size a' = total_size a.
Proof.
  induction incoming as [| m rest IH]; intros a Ha Hin; cbn [collect_pieces].
  - destruct (is_complete a); eexists; (split; [done |]); [by intros a' [= <-] | done].
  - apply Forall_cons in Hin as [Hm Hin]. destruct (is_complete a); [eexists; split; [done |]; by intros a' [= <-] |].
    destruct m; try (by apply IH). destruct (_ =? _); [| by apply IH]. cbn [payload_ok] in Hm.
    destruct (decode_msg_total payload (small_payload _ Hm)) as [r Er]. rewrite Er. destruct r as [[p | p sz d | p] | e]; [by apply IH | | by eexists | by eexists].
    apply decoded_piece in Er. destruct (add_piece_ok a p d Ha Er) as (a1 & r1 & -> & Ha1 & Hs1). destruct r1 as [u | e]; [| by eexists].
    destruct (IH a1 Ha1 Hin) as (r & E & Hr). exists r. split; [done |]. intros a' Ha'. destruct (Hr a' Ha') as [? ?]. split; [done | lia].
Qed.

Lemma await_safe incoming : Forall payload_ok incoming ->
  exists r, await_handshake incoming = Some r /\ forall x rest, r = Ok (x, rest) -> Forall payload_ok rest.
Proof.
  induction 1 as [| m rest Hm Hrest IH]; cbn [await_handshake]; [by eexists |]. destruct m; try done. destruct (_ =? _); [| done].
  destruct (parse_total payload Hm) as [[h | e] ->]; [| by eexists]. eexists. split; [done |]. intros x rest' Hr.
  apply result_bind_Ok in Hr as (i & _ & Hr). apply result_bind_Ok in Hr as (sz & _ & Hr). by injection Hr as <- <-.
Qed.

(** ** Against our own seeder *)

Definition is_extended (m : Message) : bool := match m with Extended _ _ => true | _ => false end.

(** Only the extended messages matter. *)
Lemma await_filter incoming :
  match await_handshake incoming with
  | Some (Ok (x, rest)) => await_handshake (filter (fun m => is_extended m = true) incoming) = Some (Ok (x, filter (fun m => is_extended m = true) rest))
  | other => await_handshake (filter (fun m => is_extended m = true) incoming) = other
  end.
Proof.
  induction incoming as [| m rest IH]; [done |].
  destruct m; try (rewrite filter_cons_False by done; exact IH). rewrite filter_cons_True by done. cbn [await_handshake].
  destruct (_ =? _); [| exact IH]. destruct (Extension.parse payload) as [[h | e] |]; [| done..].
  destruct (Extension.peer_ut_metadata_id h); [| done]. cbn [ok_or result_bind]. by destruct (Extension.metadata_size h).
Qed.

Lemma collect_filter incoming : forall a, collect_pieces a (filter (fun m => is_extended m = true) incoming) = collect_pieces a incoming.
Proof.
  induction incoming as [| m rest IH]; intros a; [done |].
  destruct m; try (rewrite filter_cons_False by done; rewrite IH; cbn [collect_pieces]; destruct (is_complete a) eqn:E; destruct rest; cbn [collect_pieces]; by rewrite ?E).
  rewrite filter_cons_True by done. cbn [collect_pieces]. destruct (is_complete a); [done |].
  destruct (_ =? _); [| apply IH]. destruct (decode_msg payload) as [[[] |] |]; try done.
  destruct (add_piece a piece data) as [[a' []] |]; done.
Qed.

Lemma u32_i64 z : u_ok 32 z -> i64_ok z.
Proof. unfold u_ok, i64_ok, i64_min, i64_max. lia. Qed.

Lemma header_entry_len k z : u_ok 32 z -> zlen (encode_bytes (str k)) <= 100 -> zlen (encode_bytes (str k) ++ encode_into (Int z)) <= 200.
Proof. intros Hz Hk. pose proof (ExtensionFacts.encode_int_entry k z (u32_i64 z Hz)). lia. Qed.

Lemma request_len p : u_ok 32 p -> zlen (encode_msg (Metadata.Request p)) <= 1000.
Proof.
  intros Hp. cbn [encode_msg]. unfold encode_bencode_dict. rewrite encode_value_eq. etransitivity; [apply (ExtensionFacts.encode_dict_len _ 200) |].
  - apply Forall_cons. split; [cbn [fst snd]; apply header_entry_len; [done | vm_compute; discriminate] |].
    apply Forall_cons. split; [cbn [fst snd]; apply header_entry_len; [done | vm_compute; discriminate] | constructor].
  - vm_compute. discriminate.
Qed.

Lemma data_len p t d : u_ok 32 p -> u_ok 32 t -> zlen (encode_msg (Metadata.Data p t d)) <= 1000 + zlen d.
Proof.
  intros Hp Ht. cbn [encode_msg]. rewrite zlen_app. unfold encode_bencode_dict. rewrite encode_value_eq.
  cut (zlen (encode (Dict (bt_insert (header MSG_TYPE_DATA p) (str "total_size") (Int t)))) <= 1000); [unfold encode; lia |].
  etransitivity; [apply (ExtensionFacts.encode_dict_len _ 200) |].
  - apply Forall_cons. split; [cbn [fst snd]; apply header_entry_len; [done | vm_compute; discriminate] |].
    apply Forall_cons. split; [cbn [fst snd]; apply header_entry_len; [done | vm_compute; discriminate] |].
    apply Forall_cons. split; [cbn [fst snd]; apply header_entry_len; [done | vm_compute; discriminate] | constructor].
  - vm_compute. discriminate.
Qed.

Section seeder.

(** The seeder's info dictionary, of an acceptable size. *)
Context (info : list Z) (Hinfo : 1 <= zlen info <= MAX_METADATA_SIZE).

Definition count : Z := div_ceil (zlen info) METADATA_PIECE_SIZE.

Lemma count_bound : 1 <= count <= 1024.
Proof using Hinfo.
  split; [apply div_ceil_pos; lia |]. apply Z.nlt_ge. intros Hlt. apply (proj1 (lt_div_ceil _ _ _ piece_size_pos)) in Hlt.
  change METADATA_PIECE_SIZE with 16384 in Hlt. change MAX_METADATA_SIZE with 16777216 in Hinfo. lia.
Qed.

Lemma reply_is_data p : 0 <= p < count -> metadata_reply info p = Metadata.Data p (zlen info) (cut info p).
Proof using Hinfo.
  intros Hp. unfold metadata_reply. pose proof (proj1 (lt_div_ceil _ _ _ piece_size_pos) (proj2 Hp)) as Hlt. cbv zeta.
  rewrite (proj2 (Z.ltb_lt _ _)) by done. unfold wrap, cut. change MAX_METADATA_SIZE with 16777216 in Hinfo. rewrite Z.mod_small by lia.
  by replace ((p + 1) * METADATA_PIECE_SIZE) with (p * METADATA_PIECE_SIZE + METADATA_PIECE_SIZE) by lia.
Qed.

Lemma decode_reply p : 0 <= p < count -> decode_msg (encode_msg (metadata_reply info p)) = Some (Ok (Metadata.Data p (zlen info) (cut info p))).
Proof using Hinfo.
  intros Hp. rewrite reply_is_data by done. pose proof count_bound as Hc. change MAX_METADATA_SIZE with 16777216 in Hinfo.
  assert (u_ok 32 p) by (unfold u_ok; lia). assert (u_ok 32 (zlen info)) by (unfold u_ok; lia).
  apply decode_encode_msg; [done |]. etransitivity; [by apply data_len |].
  assert (zlen (cut info p) <= zlen info); [| unfold i64_max; lia]. unfold cut, slice, zlen. rewrite length_take, length_drop. lia.
Qed.

Definition reply_msg (p : Z) : Message := Extended OUR_UT_METADATA_ID (encode_msg (metadata_reply info p)).

Lemma complete_held a : assembler_ok a -> is_complete a = true -> forall i, 0 <= i < num_pieces a -> held a i.
Proof using Type.
  intros Ha [ds Hds]%complete_iff i Hi. pose proof (ok_table a Ha) as Ht. rewrite Hds in Ht. unfold zlen in Ht. rewrite length_fmap in Ht.
  destruct (lookup_lt_is_Some_2 ds (Z.to_nat i)) as [d Hd]; [lia |]. exists d. split; [lia |]. by rewrite Hds, list_lookup_fmap, Hd.
Qed.

Lemma add_right a p :
  assembler_ok a -> zlen info = total_size a -> honest info a -> 0 <= p < num_pieces a ->
  exists a', add_piece a p (cut info p) = Some (a', Ok tt) /\ assembler_ok a' /\ total_size a' = total_size a /\ honest info a' /\
    (forall j, held a j -> held a' j) /\ held a' p.
Proof using Type.
  intros Ha Hi Hh Hp. destruct (add_fair info a p (cut info p) Ha Hi Hh) as (a' & r & E & Ha' & Hs & Hh' & Hm & Hn); [split; [cbn; lia | by left] |].
  exists a'. assert (r = Ok tt) as ->; [| split_and!; auto].
  unfold add_piece in E. rewrite (proj2 (Z.leb_gt _ _)) in E by lia. rewrite (cut_len a info p Ha Hi Hp), Z.eqb_refl in E. cbn [negb] in E.
  destruct (zset (pieces a) p (Some (cut info p))); [| done]. by injection E as _ <-.
Qed.

(** Replies for every piece not yet there complete the assembler. *)
Lemma collect_replies ps : forall a,
  assembler_ok a -> zlen info = total_size a -> honest info a -> Forall (fun p => 0 <= p < count) ps ->
  (forall i, 0 <= i < count -> held a i \/ i ∈ ps) ->
  exists a', collect_pieces a (reply_msg <$> ps) = Some (Ok a') /\ assemble a' = Ok info.
Proof using Hinfo.
  induction ps as [| p ps IH]; intros a Ha Hi Hh Hps Hall.
  - assert (num_pieces a = count) as Hn by (rewrite (ok_count a Ha); unfold count; by rewrite Hi).
    destruct (assemble_all info a Ha Hi Hh) as (Hc & _ & Has).
    { intros i Hlt. rewrite Hn in Hlt. destruct (Hall i Hlt) as [? | Hin]; [done | by apply not_elem_of_nil in Hin]. }
    cbn [fmap list_fmap collect_pieces]. rewrite Hc. eauto.
  - assert (num_pieces a = count) as Hn by (rewrite (ok_count a Ha); unfold count; by rewrite Hi).
    apply Forall_cons in Hps as [Hp Hps]. rewrite fmap_cons. unfold reply_msg at 1. cbn [collect_pieces].
    destruct (is_complete a) eqn:Ec.
    + exists a. split; [done |]. apply (assemble_all info a Ha Hi Hh). by apply complete_held.
    + rewrite Z.eqb_refl, decode_reply by done. destruct (add_right a p Ha Hi Hh) as (a1 & -> & Ha1 & Hs1 & Hh1 & Hm1 & Hp1); [by rewrite Hn |].
      apply IH; [done | by rewrite Hs1 | done | done |]. intros i Hlt. destruct (Hall i Hlt) as [? | Hin]; [auto |].
      apply elem_of_cons in Hin as [-> | ?]; auto.
Qed.

(** The seeder answers each request in turn. *)
Lemma serve_requests now ps : forall w,
  metadata (sh w) = Some info -> speaks_extensions (sv w) = true -> peer_metadata_id (sv w) = Some OUR_UT_METADATA_ID ->
  Forall (u_ok 32) ps -> (length ps <= room w)%nat -> metadata_requests (sv w) + zlen ps <= metadata_limit info ->
  exists w', run w ((fun p => OnMessage now (Extended UT_METADATA_ID (encode_msg (Metadata.Request p)))) <$> ps) = Some (w', Ok tt) /\
    out w' = out w ++ (reply_msg <$> ps).
Proof using Type.
  induction ps as [| p ps IH]; intros w Hm Hs Hid Hps Hroom Hlim.
  - exists w. split; [done |]. by rewrite app_nil_r.
  - apply Forall_cons in Hps as [Hp Hps]. rewrite !fmap_cons. rewrite zlen_cons in Hlim. cbn [run step handle].
    change (UT_METADATA_ID =? Extension.EXTENDED_HANDSHAKE_ID) with false. cbn [andb]. rewrite Z.eqb_refl, Hs. cbn [andb].
    unfold handle_metadata. rewrite Hm, Hid.
    rewrite decode_encode_msg; [| done | etransitivity; [by apply request_len | vm_compute; discriminate]]. cbv zeta.
    cbn [sv set_sv set_requests metadata_requests]. pose proof (zlen_nonneg ps). rewrite (proj2 (Z.ltb_ge _ _)) by lia.
    unfold write_then, write. cbn [room set_sv]. destruct (room w) as [| n] eqn:Er; [simpl in Hroom; lia |]. cbn [mbind option_bind].
    match goal with |- context [run ?x _] => destruct (IH x) as (w' & E & Ho) end; try done.
    + cbn. simpl in Hroom. lia.
    + cbn. lia.
    + exists w'. split; [exact E |]. rewrite Ho. cbn. by rewrite <- app_assoc.
Qed.

Lemma serve_conversation now w :
  metadata (sh w) = Some info -> speaks_extensions (sv w) = true -> metadata_requests (sv w) = 0 -> (Z.to_nat count <= room w)%nat ->
  exists w', run w (OnMessage now <$> (our_handshake :: requests UT_METADATA_ID count)) = Some (w', Ok tt) /\
    out w' = out w ++ (reply_msg <$> seqZ 0 count).
Proof using Hinfo.
  intros Hm Hs Hr Hroom. pose proof count_bound as Hc. rewrite fmap_cons. cbn [run step handle our_handshake].
  change (0 =? Extension.EXTENDED_HANDSHAKE_ID) with true. rewrite Hs. cbn [andb]. unfold Extension.build.
  rewrite ExtensionFacts.parse_built by (unfold u_ok; vm_compute; repeat split; congruence). cbn [mbind option_bind].
  unfold requests. rewrite <- list_fmap_compose.
  match goal with |- context [run ?x _] => destruct (serve_requests now (seqZ 0 count) x) as (w' & E & Ho) end; try done.
  - apply Forall_forall. intros p Hp%elem_of_seqZ. unfold u_ok. lia.
  - cbn. rewrite length_seqZ. done.
  - cbn [sv set_sv set_peer_metadata metadata_requests]. rewrite Hr. unfold zlen. rewrite length_seqZ. unfold metadata_limit. fold count. lia.
  - exists w'. split; [exact E | exact Ho].
Qed.

End seeder.

(** ** Properties *)

(** Whatever a peer sends, fetching ends without a panic, nothing is
    requested past the claimed size, and what it returns is between 1 byte and
    16 MiB long and has the info hash of the magnet link. *)
Theorem fetched_metadata_trusted (sha1 : list Z -> list Z) (hs : Handshake) (hash : list Z) (incoming : list Message) (room : nat)
    (Hin : Forall payload_ok incoming) :
  is_Some (fetch_metadata sha1 hs hash incoming room).2 /\ zlen (fetch_metadata sha1 hs hash incoming room).1 <= 1025 /\
  forall raw, (fetch_metadata sha1 hs hash incoming room).2 = Some (Ok raw) ->
    1 <= zlen raw <= 16777216 /\ Torrent.info_hash_matches sha1 raw hash = true.
Proof.
  unfold fetch_metadata. destruct (negb _); [split_and!; [by eexists | vm_compute; discriminate | done] |].
  assert (zlen (send_all room [our_handshake]).1 <= 1) as Hs1 by (destruct room; vm_compute; discriminate).
  destruct (send_all room [our_handshake]) as [sent [u | e]]; cbn [fst] in Hs1; [| split_and!; [by eexists | cbn; lia | done]].
  destruct (await_safe incoming Hin) as (r & -> & Hr). destruct r as [[[id size] rest] | e]; [| split_and!; [by eexists | cbn; lia | done]].
  specialize (Hr _ _ eq_refl). destruct (for_claimed_size size) as [a | e] eqn:Ea; [| split_and!; [by eexists | cbn; lia | done]].
  apply claimed_ok in Ea as [Ha Hsz]. pose proof (ok_size a Ha) as Hb. change MAX_METADATA_SIZE with 16777216 in Hb.
  assert (num_pieces a <= 1024) as Hn.
  { rewrite (ok_count a Ha). apply Z.nlt_ge. intros Hlt. apply (proj1 (lt_div_ceil _ _ _ piece_size_pos)) in Hlt. change METADATA_PIECE_SIZE with 16384 in Hlt. lia. }
  pose proof (div_ceil_pos _ (proj1 Hb)) as Hpos. rewrite <- (ok_count a Ha) in Hpos.
  assert (zlen (send_all (room - 1) (requests id (wrap 32 (num_pieces a)))).1 <= 1024) as Hs2.
  { unfold wrap. rewrite Z.mod_small by lia. unfold send_all. assert (length (requests id (num_pieces a)) = Z.to_nat (num_pieces a)) as El
      by (unfold requests; by rewrite length_fmap, length_seqZ).
    destruct (_ <=? _)%nat; cbn [fst]; unfold zlen; rewrite ?length_take, El; lia. }
  destruct (send_all (room - 1) _) as [more r2]. cbn [fst snd] in *. rewrite zlen_app.
  destruct r2 as [u2 | e2]; [| split_and!; [by eexists | lia | done]].
  destruct (collect_safe rest a Ha Hr) as (r3 & -> & H3). destruct r3 as [a' | e3]; [| split_and!; [by eexists | lia | done]].
  destruct (H3 a' eq_refl) as [Ha' Hsz']. split_and!; [by eexists | lia |]. intros raw [= E].
  destruct (assemble_and_verify sha1 a' hash) as [r4 |] eqn:Ev; [| done]. injection E as ->.
  unfold assemble_and_verify in Ev. apply result_bind_Ok in Ev as (r5 & H5 & Ev).
  destruct (Torrent.info_hash_matches sha1 r5 hash) eqn:Eh; [| done]. injection Ev as <-.
  rewrite (assembled_size a' r5 Ha' H5), Hsz'. done.
Qed.

(** C17: a magnet link is resolved by our own seeder.  A client that fetches
    from a seeding connection sends its handshake and one request per piece;
    the seeder answers each with that piece; and from the seeder's handshake
    and those answers, with any other messages in between, the client puts the
    info dictionary together and verifies it. *)
Theorem magnet_from_seeder (sha1 : list Z -> list Z) (info hash : list Z) (hs : Handshake) (w : World) (now : Z) (client_room : nat)
    (Hinfo : 1 <= zlen info <= MAX_METADATA_SIZE) (Hhash : Torrent.info_hash_matches sha1 info hash = true)
    (Hext : Handshake.supports_extensions hs = true) (Hroom : (Z.to_nat (1 + count info) <= client_room)%nat)
    (Hmeta : metadata (sh w) = Some info) (Hspeaks : speaks_extensions (sv w) = true) (Hnone : metadata_requests (sv w) = 0)
    (Hsroom : (Z.to_nat (count info) <= room w)%nat) :
  let sent := our_handshake :: requests UT_METADATA_ID (count info) in
  let replies := reply_msg info <$> seqZ 0 (count info) in
  (exists w', run w (OnMessage now <$> sent) = Some (w', Ok tt) /\ out w' = out w ++ replies) /\
  forall incoming seed,
    filter (fun m => is_extended m = true) incoming = Extended 0 (Extension.build_for_seeding UT_METADATA_ID (zlen info) seed) :: replies ->
    fetch_metadata sha1 hs hash incoming client_room = (sent, Some (Ok info)).
Proof.
  intros sent replies. pose proof (count_bound info Hinfo) as Hc. split; [by apply serve_conversation |].
  intros incoming seed Hin. unfold fetch_metadata. rewrite Hext. cbn [negb].
  assert (send_all client_room [our_handshake] = ([our_handshake], Ok tt)) as ->.
  { unfold send_all. rewrite (proj2 (Nat.leb_le _ _)); [done | simpl; lia]. }
  assert (await_handshake (filter (fun m => is_extended m = true) incoming) = Some (Ok ((UT_METADATA_ID, zlen info), replies))) as Ha.
  { rewrite Hin. cbn [await_handshake]. change (0 =? 0) with true. cbv iota. change MAX_METADATA_SIZE with 16777216 in Hinfo.
    assert (u_ok 8 UT_METADATA_ID) by (unfold u_ok, UT_METADATA_ID; lia).
    assert (i64_ok (zlen info)) by (unfold i64_ok, i64_min, i64_max; lia).
    rewrite ExtensionFacts.parse_seeding by done. done. }
  pose proof (await_filter incoming) as Hf. destruct (await_handshake incoming) as [[[[id size] rest] | e] |]; [| congruence..].
  rewrite Ha in Hf. injection Hf as <- <- Hrest.
  unfold for_claimed_size. rewrite (proj2 (Z.leb_le 1 _)), (proj2 (Z.leb_le (zlen info) _)) by lia. cbn [andb negb].
  assert (for_claimed_size (zlen info) = Ok (new_assembler (zlen info))) as Hnew.
  { unfold for_claimed_size. rewrite (proj2 (Z.leb_le 1 _)), (proj2 (Z.leb_le (zlen info) _)) by lia. done. }
  assert (num_pieces (new_assembler (zlen info)) = count info) as Hn by (cbn; unfold count in *; lia).
  rewrite Hn. unfold wrap. rewrite Z.mod_small by lia.
  assert (send_all (client_room - 1) (requests UT_METADATA_ID (count info)) = (requests UT_METADATA_ID (count info), Ok tt)) as ->.
  { unfold send_all. rewrite (proj2 (Nat.leb_le _ _)); [done |]. unfold requests. rewrite length_fmap, length_seqZ. lia. }
  cbn [app]. f_equal. destruct (claimed_ok _ _ Hnew) as [Hok Hsz].
  destruct (collect_replies info Hinfo (seqZ 0 (count info)) (new_assembler (zlen info)) Hok) as (a' & Hcol & Has); [done | by eapply claimed_fresh | | |].
  - apply Forall_forall. intros p Hp%elem_of_seqZ. lia.
  - intros i Hi. right. apply elem_of_seqZ. lia.
  - rewrite <- (collect_filter rest), <- Hrest. fold replies in Hcol. rewrite Hcol. unfold assemble_and_verify. rewrite Has. cbn [result_bind].
    by rewrite Hhash.
Qed.

(** ** The theorems at concrete inputs *)

(** A peer that claims a dictionary and then sends the wrong byte for it. *)
Definition junk : list Message := [Extended 0 (Extension.build_for_seeding 5 1 false); Extended 1 (encode_msg (Metadata.Data 0 1 [7]))].

Lemma fetched_metadata_trusted_witness :
  Forall payload_ok junk /\ zlen (fetch_metadata mixing (Handshake.new [] [] true) (replicate 20 0) junk 9).1 <= 1025.
Proof.
  assert (Forall payload_ok junk) as H by (repeat constructor; vm_compute; discriminate). split; [exact H |].
  exact (proj1 (proj2 (fetched_metadata_trusted mixing (Handshake.new [] [] true) (replicate 20 0) junk 9 H))).
Defined.

(** A seeder of the two-piece torrent of [Torrent], freshly connected. *)
Definition seeded_info : list Z := encode Torrent.example_info.

Definition seeding_world : World :=
  mkWorld (mkServing 0 false ∅ true 0 [] true None 0 0)
    (mkSeederShared (replicate 20 0) [] 16384 20000 (mkHaveMap [true; true] 2) 0 (Choker.new 4) (Some seeded_info) None None) ∅ [] 9.

Lemma magnet_from_seeder_witness :
  fetch_metadata Torrent.no_sha1 (Handshake.new [] [] true) (replicate 20 0)
    (Extended 0 (Extension.build_for_seeding UT_METADATA_ID (zlen seeded_info) true) :: KeepAlive :: (reply_msg seeded_info <$> seqZ 0 (count seeded_info))) 9 =
  (our_handshake :: requests UT_METADATA_ID (count seeded_info), Some (Ok seeded_info)).
Proof.
  refine (proj2 (magnet_from_seeder Torrent.no_sha1 seeded_info (replicate 20 0) (Handshake.new [] [] true) seeding_world 0 9 _ _ _ _ _ _ _ _) _ true _);
    try reflexivity; vm_compute; first [split; discriminate | lia].
Defined.
