(* ===== verification/Layers.v ===== *)
(** * Piece layers from peers

    Models [src/src/session/layers.rs]: asking a peer for the piece layers a v2
    torrent lacks ([fetch_from_peer]), going from peer to peer until all are
    there ([fetch_layers]), and completing the torrent ([complete_torrent]).

    The connection to a peer is the messages that will arrive before it fails,
    how many more it takes, and what each look at the stop flag finds.  The
    texts of errors are constructors.  A [None] is a panic. *)

From stdpp Require Import gmap.
From S2P Require Import Torrent.
From S2P Require Import Prelude Str Bytes BTree Bencode Net Sha256 Merkle V2Hashes Message Serving.

Definition MAX_PIECES_PER_FILE : Z := 2 ^ 22.

#[export] Instance HashRequest_eq_dec : EqDecision HashRequest.
Proof. solve_decision. Defined.

(** Why a peer was left. *)
Inductive LayerFailure : Type :=
| Connecting
| TooLarge (pieces : Z)
| Stopped
| SendFailed
| WouldNotSend
| Waiting
| DoNotLead.

Record Conn : Type := mkConn {
  arriving : list Message;
  takes : nat;
  asked : list Message;
  stops : list bool
}.

Definition set_arriving (ms : list Message) (c : Conn) : Conn := mkConn ms (takes c) (asked c) (stops c).

(** [stop.load]; once the list is out the flag is not set. *)
Definition stopped (c : Conn) : bool * Conn :=
  match stops c with
  | [] => (false, c)
  | b :: rest => (b, mkConn (arriving c) (takes c) (asked c) rest)
  end.

Definition write_to (m : Message) (c : Conn) : Conn * bool :=
  match takes c with
  | O => (c, false)
  | S n => (mkConn (arriving c) n (asked c ++ [m]) (stops c), true)
  end.

(** The inner loop: until the answer to this request, and what arrives after. *)
Fixpoint await_hashes (request : HashRequest) (incoming : list Message) : result (list Hash * list Message) LayerFailure :=
  match incoming with
  | [] => Err Waiting
  | Hashes answered hs :: rest => if bool_decide (answered = request) then Ok (hs, rest) else await_hashes request rest
  | HashReject rejected :: rest => if bool_decide (rejected = request) then Err WouldNotSend else await_hashes request rest
  | _ :: rest => await_hashes request rest
  end.

(** One pass of the loop over a file's ranges. *)
Definition fetch_range (root : Hash) (at_layer height : nat) (per_request index : Z) (c : Conn) : Conn * result (list Hash) LayerFailure :=
  let '(stop, c) := stopped c in
  if stop then (c, Err Stopped)
  else
    let proof := (height - at_layer - 1)%nat in
    let request := mkHashRequest root (Z.of_nat at_layer) index per_request (Z.of_nat proof) in
    let '(c, sent) := write_to (HashRequestMsg request) c in
    if negb sent then (c, Err SendFailed)
    else
      match await_hashes request (arriving c) with
      | Err e => (c, Err e)
      | Ok (hs, rest) =>
          let c := set_arriving rest c in
          let n := Z.to_nat per_request in
          if (zlen hs <? per_request) || negb (verify_range root at_layer height index (take n hs) (drop n hs) proof)
          then (c, Err DoNotLead)
          else (c, Ok (take n hs))
      end.

Fixpoint fetch_ranges (root : Hash) (at_layer height : nat) (per_request : Z) (indices : list Z) (layer : list Hash) (c : Conn) :
    Conn * result (list Hash) LayerFailure :=
  match indices with
  | [] => (c, Ok layer)
  | index :: rest =>
      match fetch_range root at_layer height per_request index c with
      | (c, Err e) => (c, Err e)
      | (c, Ok hs) => fetch_ranges root at_layer height per_request rest (layer ++ hs) c
      end
  end.

(** [(0..end_).step_by(n)]. *)
Definition step_by (end_ n : Z) : list Z := (fun i => i * n) <$> seqZ 0 (div_ceil end_ n).

(** One file's layer; its [None] is [height - at_layer - 1] below zero. *)
Definition fetch_layer (piece_length : Z) (root : Hash) (len : Z) (c : Conn) : option (Conn * result (list Hash) LayerFailure) :=
  let pieces := div_ceil len piece_length in
  let height := file_height len piece_length in
  let at_layer := piece_layer piece_length in
  if MAX_PIECES_PER_FILE <? pieces then Some (c, Err (TooLarge pieces))
  else if (height <=? at_layer)%nat then None
  else
    let padded := 2 ^ Z.of_nat (height - at_layer) in
    let per_request := Z.min padded MAX_HASHES_PER_REQUEST in
    match fetch_ranges root at_layer height per_request (step_by padded per_request) [] c with
    | (c, Err e) => Some (c, Err e)
    | (c, Ok layer) => Some (c, Ok (take (Z.to_nat pieces) layer))
    end.

Fixpoint fetch_files (piece_length : Z) (missing : list (Hash * Z)) (got : Layers) (c : Conn) : option (Conn * (Layers * option LayerFailure)) :=
  match missing with
  | [] => Some (c, (got, None))
  | (root, len) :: rest =>
      '(c, r) ← fetch_layer piece_length root len c;
      match r with
      | Err e => Some (c, (got, Some e))
      | Ok layer => fetch_files piece_length rest (bt_insert got root layer) c
      end
  end.

(** What was sent, what checks out, and why it stopped; without a connection,
    [Connecting]. *)
Definition fetch_from_peer (piece_length : Z) (missing : list (Hash * Z)) (connected : option Conn) :
    option (list Message * (Layers * option LayerFailure)) :=
  match connected with
  | None => Some ([], ([], Some Connecting))
  | Some c => '(c, r) ← fetch_files piece_length missing [] c; Some (asked c, r)
  end.

(** ** Peer after peer *)

(** One pass of the loop: the peers named, each with what a look at the stop
    flag finds when it is its turn, and whether the flag is set at the end. *)
Record Round : Type := mkRound {
  named : list (SocketAddr * bool);
  stop_after : bool
}.

Inductive FetchError : Type :=
| FetchStopped
| NoPeerSent (files : nat)
| DoNotFit (e : V2Error).

Record Fetch : Type := mkFetch {
  missing : list (Hash * Z);
  got : Layers;
  tried : gset SocketAddr
}.

Definition extend (m ls : Layers) : Layers := foldl (fun m e => bt_insert m e.1 e.2) m ls.

(** [missing.retain(|(root, _)| !got.contains_key(root))]. *)
Definition still_missing (got : Layers) (missing : list (Hash * Z)) : list (Hash * Z) :=
  filter (fun e : Hash * Z => bt_get got e.1 = None) missing.

(** The [for] loop over the peers; each is tried once, so [dial] says what
    connecting to it gives. *)
Fixpoint try_peers (piece_length : Z) (dial : SocketAddr -> option Conn) (peers : list (SocketAddr * bool)) (st : Fetch) : option Fetch :=
  match peers with
  | [] => Some st
  | (addr, stop) :: rest =>
      if bool_decide (addr ∈ tried st) then try_peers piece_length dial rest st
      else
        let st := mkFetch (missing st) (got st) ({[addr]} ∪ tried st) in
        if stop then try_peers piece_length dial rest st
        else
          '(_, (layers, _)) ← fetch_from_peer piece_length (missing st) (dial addr);
          let got := extend (got st) layers in
          let missing := still_missing got (missing st) in
          let st := mkFetch missing got (tried st) in
          match missing with
          | [] => Some st
          | _ => try_peers piece_length dial rest st
          end
  end.

(** The [while] loop: its passes until the deadline, of which the last finds it
    gone by. *)
Fixpoint fetch_rounds (piece_length : Z) (dial : SocketAddr -> option Conn) (rounds : list Round) (st : Fetch) : option (result Layers FetchError) :=
  match missing st with
  | [] => Some (Ok (got st))
  | _ =>
      match rounds with
      | [] => Some (Err (NoPeerSent (length (missing st))))
      | round :: rest =>
          st ← try_peers piece_length dial (named round) st;
          match missing st with
          | [] => Some (Ok (got st))
          | _ => if stop_after round then Some (Err FetchStopped) else fetch_rounds piece_length dial rest st
          end
      end
  end.

Definition fetch_layers (t : TorrentFile) (dial : SocketAddr -> option Conn) (rounds : list Round) : option (result Layers FetchError) :=
  fetch_rounds (t_piece_length t) dial rounds (mkFetch (missing_layers t) [] ∅).

Definition complete_torrent (t : TorrentFile) (dial : SocketAddr -> option Conn) (rounds : list Round) : option (result TorrentFile FetchError) :=
  match missing_layers t with
  | [] => Some (Ok t)
  | _ =>
      r ← fetch_layers t dial rounds;
      match r with
      | Err e => Some (Err e)
      | Ok layers =>
          r ← install_layers t layers;
          match r with Err e => Some (Err (DoNotFit e)) | Ok t' => Some (Ok t') end
      end
  end.

(** ** What is kept checks out *)

Lemma await_hashes_answer request incoming hs rest :
  await_hashes request incoming = Ok (hs, rest) -> Hashes request hs ∈ incoming.
Proof.
  induction incoming as [| m incoming IH]; [done |]. intros H.
  destruct m; cbn [await_hashes] in H; try (apply elem_of_cons; right; by apply IH); case_bool_decide; try done;
    try (apply elem_of_cons; right; by apply IH).
  injection H as -> ->. subst. apply elem_of_cons. by left.
Qed.

(** A range that is kept was verified against the root. *)
Lemma fetch_range_ok root at_layer height n index c c' hs :
  0 <= n -> fetch_range root at_layer height n index c = (c', Ok hs) ->
  zlen hs = n /\ exists us, verify_range root at_layer height index hs us (height - at_layer - 1) = true.
Proof.
  intros Hn. unfold fetch_range. destruct (stopped c) as [[] c1]; [done |]. destruct (write_to _ c1) as [c2 []]; [| done]. cbn [negb].
  destruct (await_hashes _ _) as [[all rest] | e]; [| done]. destruct (Z.ltb_spec (zlen all) n); [done |]. cbn [orb].
  destruct (verify_range _ _ _ _ _ _ _) eqn:E; [| done]. intros [= <- <-]. split; [| eauto]. apply zlen_take. lia.
Qed.

Section sound.
Context (r : Hash) (at_layer height : nat) (n : Z) (Hn : 0 < n < 2 ^ 32).

Lemma fetch_ranges_length m : forall s layer c c' out, zlen layer = s * n ->
  fetch_ranges r at_layer height n ((fun i => i * n) <$> seqZ s (Z.of_nat m)) layer c = (c', Ok out) -> zlen out = (s + Z.of_nat m) * n.
Proof using Hn.
  induction m as [| m IH]; intros s layer c c' out Hl H.
  - cbn in H. injection H as <- <-. by rewrite Z.add_0_r.
  - rewrite Nat2Z.inj_succ, seqZ_cons, fmap_cons in H by lia. cbn [fetch_ranges] in H.
    destruct (fetch_range _ _ _ _ _ _) as [c1 [hs | e]] eqn:E; [| done]. apply fetch_range_ok in E as [Hhs _]; [| lia].
    rewrite Z.pred_succ in H. apply IH in H; [lia |]. rewrite zlen_app. lia.
Qed.

Context (full : list Hash).
Context (Hfull : length full = (2 ^ (height - at_layer))%nat) (Hroot : r = tree_root (height - at_layer) full).

Lemma fetch_ranges_ok m : forall s c c' out, 0 <= s ->
  fetch_ranges r at_layer height n ((fun i => i * n) <$> seqZ s (Z.of_nat m)) (take (Z.to_nat (s * n)) full) c = (c', Ok out) ->
  out = take (Z.to_nat ((s + Z.of_nat m) * n)) full \/ collision.
Proof using All.
  induction m as [| m IH]; intros s c c' out Hs H.
  - cbn in H. injection H as <- <-. rewrite Z.add_0_r. by left.
  - rewrite Nat2Z.inj_succ, seqZ_cons, fmap_cons in H by lia. cbn [fetch_ranges] in H.
    destruct (fetch_range _ _ _ _ _ _) as [c1 [hs | e]] eqn:E; [| done]. apply fetch_range_ok in E as [Hhs (us & Hv)]; [| lia].
    rewrite Z.pred_succ in H. replace (s + Z.of_nat (S m)) with (Z.succ s + Z.of_nat m) by lia.
    rewrite Hroot in Hv. apply verified_range in Hv; [| done | nia | lia]. destruct Hv as [Hv |]; [| by right].
    apply (IH (Z.succ s) c1 c'); [lia |]. rewrite <- H. f_equal.
    rewrite Hv, Hhs. unfold slice. rewrite take_take_drop. f_equal. lia.
Qed.
End sound.

(** The layer of a file: as long as the file has pieces, and whatever contents
    have that root it is the layer of those, unless SHA-256 collides. *)
Definition vouched (pl : Z) (r : Hash) (len : Z) (layer : list Hash) : Prop :=
  zlen layer = div_ceil len pl /\ forall d, zlen d = len -> r = root_of pl d -> layer = piece_roots (piece_layer pl) d \/ collision.

(** The tree of a file of several pieces is taller than a piece's. *)
Lemma tall_split k len : Z.of_nat (span k) < len ->
  exists b, file_height len (Z.of_nat (span k)) = (k + b)%nat /\ (1 <= b)%nat /\ 2 <= div_ceil len (Z.of_nat (span k)) <= 2 ^ Z.of_nat b.
Proof.
  intros Hlen. destruct (file_height_split k len) as (b & Hb & Hle). exists b. split; [done |].
  pose proof (proj2 (lt_div_ceil 1 len (Z.of_nat (span k)) ltac:(pose proof (span_pos k); lia)) ltac:(lia)).
  split; [| lia]. destruct b; [cbn in Hle; lia | lia].
Qed.

(** The requests for a padded layer meet at its end. *)
Lemma steps_cover b : let n := Z.min (2 ^ Z.of_nat b) MAX_HASHES_PER_REQUEST in
  exists m, div_ceil (2 ^ Z.of_nat b) n = Z.of_nat m /\ Z.of_nat m * n = 2 ^ Z.of_nat b /\ 0 < n <= 512.
Proof.
  intros n. unfold MAX_HASHES_PER_REQUEST in n. destruct (Z.le_gt_cases (2 ^ Z.of_nat b) 512) as [Hle | Hgt].
  - exists 1%nat. assert (0 < 2 ^ Z.of_nat b) by lia. unfold n. rewrite Z.min_l by lia. split; [| lia].
    unfold div_ceil. replace (2 ^ Z.of_nat b + 2 ^ Z.of_nat b - 1) with (1 * 2 ^ Z.of_nat b + (2 ^ Z.of_nat b - 1)) by lia.
    rewrite Z.div_add_l, Z.div_small by lia. done.
  - assert (9 <= Z.of_nat b) as Hb.
    { apply Z.nlt_ge. intros Hlt. assert (2 ^ Z.of_nat b <= 2 ^ 9) as H9 by (apply Z.pow_le_mono_r; lia). change (2 ^ 9) with 512 in H9. lia. }
    exists (2 ^ (b - 9))%nat. unfold n. rewrite Z.min_r by lia. rewrite Nat2Z.inj_pow. change (Z.of_nat 2) with 2.
    assert (2 ^ Z.of_nat b = 2 ^ Z.of_nat (b - 9) * 512) as E.
    { change 512 with (2 ^ 9). rewrite <- Z.pow_add_r by lia. f_equal. lia. }
    rewrite E. split; [| lia]. unfold div_ceil. rewrite <- Z.add_sub_assoc, Z.div_add_l by lia. change ((512 - 1) / 512) with 0. lia.
Qed.

Lemma fetch_layer_ok pl r len c : valid_piece_length pl = true -> pl < len ->
  exists c' out, fetch_layer pl r len c = Some (c', out) /\ forall layer, out = Ok layer -> vouched pl r len layer.
Proof.
  intros Hv Hlen. pose proof (valid_span pl Hv) as Hpl. set (k := piece_layer pl) in *. unfold fetch_layer.
  destruct (_ <? _); [eexists _, _; by split |].
  rewrite Hpl in Hlen. destruct (tall_split k len Hlen) as (b & Hh & Hb & Hpc). rewrite <- Hpl in Hh, Hpc. rewrite Hh. fold k.
  rewrite (proj2 (Nat.leb_gt _ _)) by lia. replace (k + b - k)%nat with b by lia.
  destruct (steps_cover b) as (m & Hm & Hmn & Hn). set (n := Z.min (2 ^ Z.of_nat b) MAX_HASHES_PER_REQUEST) in *.
  unfold step_by. rewrite Hm.
  destruct (fetch_ranges _ _ _ _ _ _ _) as [c' [layer | e]] eqn:E; [| eexists _, _; by split].
  eexists _, _. split; [done |]. intros ? [= <-].
  split.
  - pose proof (fetch_ranges_length r k (k + b) n ltac:(lia) m 0 [] c c' layer eq_refl E) as Hl.
    apply zlen_take. rewrite Hl, Z.add_0_l, Hmn. lia.
  - intros d Hd Hr. rewrite <- Hd in Hpc, Hh, Hlen. rewrite Hpl in Hpc, Hh.
    assert (length (piece_roots k d) <= 2 ^ b)%nat as Hle.
    { apply Nat2Z.inj_le. change (Z.of_nat (length ?l)) with (zlen l). rewrite zlen_piece_roots, Nat2Z.inj_pow. apply Hpc. }
    pose proof (fetch_ranges_ok r k (k + b) n ltac:(lia) (resize (2 ^ b) (zero_subtree k) (piece_roots k d))) as Hok.
    replace (k + b - k)%nat with b in Hok by lia. destruct (Hok ltac:(by rewrite length_resize)) with (m := m) (s := 0) (c := c) (c' := c') (out := layer) as [Hl | Hc].
    + rewrite piece_layer_root by apply Hpc. rewrite Hr, Hpl. unfold root_of, tree_height. by rewrite (proj2 (Z.leb_gt _ _) Hlen), Hh.
    + lia.
    + exact E.
    + left. rewrite Hl, Z.add_0_l, Hmn, take_take.
      assert (div_ceil len pl = zlen (piece_roots k d)) as -> by (by rewrite <- Hd, Hpl, zlen_piece_roots).
      assert (Z.to_nat (2 ^ Z.of_nat b) = 2 ^ b)%nat as Hp by (change 2 with (Z.of_nat 2) at 1; rewrite <- Nat2Z.inj_pow; apply Nat2Z.id).
      rewrite Hp. unfold zlen. rewrite Nat2Z.id, Nat.min_l, resize_ge by done. apply take_app_length.
    + by right.
Qed.

(** What has been kept so far, of the files asked for. *)
Definition kept_ok (pl : Z) (asked_for : list (Hash * Z)) (ls : Layers) : Prop :=
  bt_sorted ls /\ forall r layer, bt_get ls r = Some layer -> exists len, (r, len) ∈ asked_for /\ vouched pl r len layer.

Section peers.
Context (pl : Z) (Hv : valid_piece_length pl = true) (all : list (Hash * Z)) (Hall : Forall (fun e => pl < e.2) all).

Lemma kept_insert ls r len layer : kept_ok pl all ls -> (r, len) ∈ all -> vouched pl r len layer -> kept_ok pl all (bt_insert ls r layer).
Proof using Type.
  intros [Hs Hg] Hin Hvo. split; [by apply bt_insert_sorted |]. intros r' layer' H. destruct (decide (r = r')) as [<- | Hne].
  - rewrite bt_get_insert_eq in H. injection H as <-. eauto.
  - rewrite bt_get_insert_ne in H by done. by apply Hg.
Qed.

Lemma fetch_files_ok todo : forall ls c, todo ⊆ all -> kept_ok pl all ls ->
  exists c' ls' e, fetch_files pl todo ls c = Some (c', (ls', e)) /\ kept_ok pl all ls'.
Proof using Hv Hall.
  induction todo as [| [r len] todo IH]; intros ls c Hsub Hls; [by eexists _, _, _ |]. cbn [fetch_files].
  assert ((r, len) ∈ all) as Hin by set_solver. pose proof (proj1 (Forall_forall _ _) Hall _ Hin) as Hlen.
  destruct (fetch_layer_ok pl r len c Hv Hlen) as (c1 & out & -> & Hout). cbn [mbind option_bind].
  destruct out as [layer | e]; [| by eexists _, _, _]. apply IH; [set_solver |]. apply (kept_insert _ _ len); [done | done | by apply Hout].
Qed.

Lemma fetch_from_peer_ok todo connected : todo ⊆ all ->
  exists ms ls e, fetch_from_peer pl todo connected = Some (ms, (ls, e)) /\ kept_ok pl all ls.
Proof using Hv Hall.
  intros Hsub. destruct connected as [c |]; cbn [fetch_from_peer]; [| by eexists _, _, _].
  destruct (fetch_files_ok todo [] c Hsub) as (c' & ls & e & -> & Hk); [done |]. by eexists _, _, _.
Qed.

(** Everything asked for is there or still missing. *)
Definition fetch_ok (st : Fetch) : Prop :=
  kept_ok pl all (got st) /\ missing st ⊆ all /\ forall e, e ∈ all -> e ∈ missing st \/ is_Some (bt_get (got st) e.1).

Lemma kept_extend m ls : kept_ok pl all m -> kept_ok pl all ls ->
  kept_ok pl all (extend m ls) /\ forall r, bt_get (extend m ls) r = match bt_get ls r with Some l => Some l | None => bt_get m r end.
Proof using Type.
  intros [Hm Hgm] [Hl Hgl]. pose proof (fun r => bt_get_extend ls m r Hm Hl) as Hext. split; [| intros r; apply Hext].
  split; [apply (Hext []) |]. intros r layer H. unfold extend in H. rewrite (proj1 (Hext r)) in H.
  destruct (bt_get ls r) eqn:E; [injection H as <-; by apply Hgl | by apply Hgm].
Qed.

Lemma try_peers_ok dial peers : forall st, fetch_ok st -> exists st', try_peers pl dial peers st = Some st' /\ fetch_ok st'.
Proof using Hv Hall.
  induction peers as [| [addr stop] peers IH]; intros st Hst; [by eexists |]. cbn [try_peers].
  case_bool_decide; [by apply IH |]. destruct stop; [apply IH; exact Hst |].
  destruct Hst as (Hk & Hsub & Hcov). cbn [missing got tried].
  destruct (fetch_from_peer_ok (missing st) (dial addr) Hsub) as (ms & ls & e & -> & Hls). cbn [mbind option_bind].
  destruct (kept_extend _ _ Hk Hls) as [Hk' Hget].
  assert (fetch_ok (mkFetch (still_missing (extend (got st) ls) (missing st)) (extend (got st) ls) ({[addr]} ∪ tried st))) as Hst'.
  { split; [done |]. cbn [missing got]. unfold still_missing. split.
    - intros x [_ Hx]%list_elem_of_filter. by apply Hsub.
    - intros x Hx. destruct (bt_get (extend (got st) ls) x.1) eqn:E; [right; eauto |]. left. apply list_elem_of_filter. split; [done |].
      destruct (Hcov x Hx) as [| [l Hl]]; [done |]. rewrite Hget, Hl in E. by destruct (bt_get ls x.1). }
  destruct (still_missing _ _) eqn:E; [eexists; split; [done |] |]; rewrite <- E in *; [done | by apply IH].
Qed.

Lemma fetch_rounds_ok dial rounds : forall st, fetch_ok st ->
  exists out, fetch_rounds pl dial rounds st = Some out /\
    forall ls, out = Ok ls -> kept_ok pl all ls /\ forall e, e ∈ all -> is_Some (bt_get ls e.1).
Proof using Hv Hall.
  assert (forall st, fetch_ok st -> missing st = [] -> kept_ok pl all (got st) /\ forall e, e ∈ all -> is_Some (bt_get (got st) e.1)) as Hend.
  { intros st (Hk & _ & Hcov) Hm. split; [done |]. intros e He. destruct (Hcov e He) as [Hin |]; [rewrite Hm in Hin; set_solver | done]. }
  induction rounds as [| round rounds IH]; intros st Hst; cbn [fetch_rounds].
  - destruct (missing st) eqn:Em; eexists; (split; [done |]); [| done]. intros ls [= <-]. by apply Hend.
  - destruct (missing st) eqn:Em; [eexists; split; [done |]; intros ls [= <-]; by apply Hend |].
    destruct (try_peers_ok dial (named round) st Hst) as (st' & -> & Hst'). cbn [mbind option_bind].
    destruct (missing st') eqn:Em'; [eexists; split; [done |]; intros ls [= <-]; by apply Hend |].
    destruct (stop_after round); [by eexists | by apply IH].
Qed.
End peers.

Lemma missing_layers_elem t m r len : v2 t = Some m ->
  (r, len) ∈ missing_layers t <->
  t_piece_length t < len /\ bt_get (layers m) r = None /\ exists f, f ∈ files m /\ V2Hashes.root f = Some r /\ file_length f = len.
Proof.
  intros Hm. unfold missing_layers. rewrite Hm, list_elem_of_omap. split.
  - intros (f & Hf%list_elem_of_filter & H). destruct (V2Hashes.root f) as [r' |] eqn:Er; [| done].
    destruct (bt_get (layers m) r') eqn:E; [done |]. injection H as -> <-. naive_solver.
  - intros (Hlen & Hget & f & Hf & Hr & <-). exists f. rewrite Hr, Hget. split; [| done]. by apply list_elem_of_filter.
Qed.

Lemma install_layers_meta t ls t' m : v2 t = Some m -> install_layers t ls = Some (Ok t') ->
  v2 t' = Some (mkV2Meta (files m) (extend (layers m) ls) (info_hash m)) /\ t_piece_length t' = t_piece_length t /\ t_info_hash t' = t_info_hash t.
Proof.
  intros Hm Hr. unfold install_layers in Hr. rewrite Hm in Hr. bind_ok Hr as u Hval. destruct (plan_pieces _ _ _) as [plan |]; [| done].
  cbn [mbind option_bind] in Hr. bind_ok Hr as vps Hplan. by injection Hr as <-.
Qed.


(** ** A seeder has the layers *)

(** The requests the client makes for a file's layer. *)
Definition requests_for (pl : Z) (r : Hash) (len : Z) : list HashRequest :=
  let b := (file_height len pl - piece_layer pl)%nat in
  let n := Z.min (2 ^ Z.of_nat b) MAX_HASHES_PER_REQUEST in
  (fun index => mkHashRequest r (Z.of_nat (piece_layer pl)) index n (Z.of_nat (b - 1))) <$> step_by (2 ^ Z.of_nat b) n.

(** What the seeder says to one. *)
Definition reply (s : HashSource) (q : HashRequest) : Message :=
  match answer s (Message.root q) (Z.to_nat (base_layer q)) (hr_index q) (hr_length q) (Z.to_nat (proof_layers q)) with
  | Some range => Hashes q (Merkle.hashes range ++ Merkle.uncles range)
  | None => HashReject q
  end.

Definition answers (s : HashSource) (q : HashRequest) : Prop := exists hs, reply s q = Hashes q hs.

Lemma serve_hashes s now qs : forall w, hash_source (sh w) = Some s -> Forall (answers s) qs -> (length qs <= room w)%nat ->
  exists w', run w (OnMessage now <$> (HashRequestMsg <$> qs)) = Some (w', Ok tt) /\ out w' = out w ++ (reply s <$> qs).
Proof.
  induction qs as [| q qs IH]; intros w Hs Hq Hroom; [eexists; by rewrite app_nil_r |].
  apply Forall_cons in Hq as [[hs Hq] Hqs]. rewrite !fmap_cons. cbn [run step handle]. unfold hash_answer. rewrite Hs. cbn [mbind option_bind].
  unfold reply in Hq. destruct (answer s _ _ _ _ _) as [range |] eqn:E; [| done].
  unfold write_then, write. destruct (room w) as [| n] eqn:Er; [cbn in Hroom; lia |]. cbn [mbind option_bind].
  match goal with |- context [run ?x _] => destruct (IH x) as (w' & -> & Ho) end; [done | done | cbn in *; lia |].
  exists w'. split; [done |]. rewrite Ho. cbn [out touch set_sv]. rewrite <- app_assoc. cbn [app]. do 2 f_equal. unfold reply. by rewrite E.
Qed.

(** The messages the client looks at. *)
Definition is_hash_message (m : Message) : bool := match m with Hashes _ _ | HashReject _ => true | _ => false end.
Definition about_hashes (ms : list Message) : list Message := filter (fun m => is_hash_message m = true) ms.

Lemma await_among q hs more incoming : about_hashes incoming = Hashes q hs :: more ->
  exists rest, await_hashes q incoming = Ok (hs, rest) /\ about_hashes rest = more.
Proof.
  unfold about_hashes. induction incoming as [| m incoming IH]; [done |]. rewrite filter_cons.
  destruct (decide (is_hash_message m = true)) as [Hm | Hm].
  - intros [= -> Hrest]. cbn [await_hashes]. rewrite bool_decide_true by done. eauto.
  - intros H. destruct m; try done; cbn [await_hashes]; by apply IH.
Qed.

(** A connection on which the peer answers what is asked next with [ms]. *)
Definition will_answer (ms : list Message) (c : Conn) : Prop := about_hashes (arriving c) = ms /\ stops c = [] /\ (length ms <= takes c)%nat.

Section served.
Context (k : nat) (s : HashSource) (d : list Z) (first : Z) (Hsrc : source_of k s d first).
Context (Hlen : Z.of_nat (span k) < zlen d) (Hmax : div_ceil (zlen d) (Z.of_nat (span k)) <= MAX_PIECES_PER_FILE).

Local Abbreviation pl := (Z.of_nat (span k)).
Local Abbreviation r := (root_of pl d).
Local Abbreviation height := (file_height (zlen d) pl).
Local Abbreviation b := (height - k)%nat.
Local Abbreviation n := (Z.min (2 ^ Z.of_nat b) MAX_HASHES_PER_REQUEST).
Local Abbreviation full := (resize (2 ^ b) (zero_subtree k) (piece_roots k d)).

Lemma served_height : height = (k + b)%nat /\ (1 <= b <= 22)%nat /\ div_ceil (zlen d) pl <= 2 ^ Z.of_nat b.
Proof using Hlen Hmax.
  destruct (tall_split k (zlen d) Hlen) as (b' & Hb & H1 & Hle). assert (b = b') as -> by lia. split; [done |]. split; [| lia].
  split; [done |]. unfold file_height in Hb. rewrite piece_layer_span in Hb.
  unfold next_power_of_two in Hb. rewrite (proj2 (Z.leb_gt _ 1)) in Hb by lia.
  assert (Z.log2_up (div_ceil (zlen d) pl) <= Z.log2_up (2 ^ 22)) as Hl by (by apply Z.log2_up_le_mono).
  rewrite Z.log2_up_pow2 in Hl by lia. pose proof (Z.log2_up_nonneg (div_ceil (zlen d) pl)).
  rewrite <- (Z2Nat.id (Z.log2_up _)), trailing_zeros64_pow in Hb by done. lia.
Qed.

Lemma request_pow : exists j, n = 2 ^ Z.of_nat j /\ (1 <= j <= b)%nat.
Proof using Hlen Hmax.
  destruct served_height as (_ & Hb & _). unfold MAX_HASHES_PER_REQUEST.
  destruct (Z.le_gt_cases (2 ^ Z.of_nat b) 512) as [Hle | Hgt].
  - exists b. rewrite Z.min_l by done. split; [done | lia].
  - exists 9%nat. rewrite Z.min_r by lia. split; [done |]. split; [lia |]. apply Nat.nlt_ge. intros Hlt.
    assert (2 ^ Z.of_nat b <= 2 ^ 9) as H9 by (apply Z.pow_le_mono_r; lia). change (2 ^ 9) with 512 in H9. lia.
Qed.

Lemma range_taken i : 0 <= i -> (i + 1) * n <= 2 ^ Z.of_nat b -> range_refused k height (i * n) n = false.
Proof using Hlen Hmax.
  intros Hi Hend. destruct served_height as (Hh & Hb & _). destruct request_pow as (j & Hj & Hjb). unfold range_refused.
  rewrite (proj2 (Nat.leb_gt height k)) by lia. rewrite Hj at 1 2. rewrite pow_is_power_of_two. cbn [negb orb].
  assert (2 ^ 1 <= 2 ^ Z.of_nat j) as H2 by (apply Z.pow_le_mono_r; lia). rewrite (proj2 (Z.ltb_ge _ 2)) by lia. cbn [orb].
  assert (Z.land (i * n) (n - 1) = 0) as ->.
  { rewrite Hj. replace (2 ^ Z.of_nat j - 1) with (Z.ones (Z.of_nat j)) by (rewrite Z.ones_equiv; lia).
    rewrite Z.land_ones by lia. apply Z.mod_mul. lia. }
  cbn [negb orb]. apply Z.ltb_ge. lia.
Qed.

(** Each request is answered with its range of the layer. *)
Lemma reply_range i : 0 <= i -> (i + 1) * n <= 2 ^ Z.of_nat b ->
  exists us, reply s (mkHashRequest r (Z.of_nat k) (i * n) n (Z.of_nat (b - 1))) =
      Hashes (mkHashRequest r (Z.of_nat k) (i * n) n (Z.of_nat (b - 1))) (slice full (i * n) ((i + 1) * n) ++ us) /\
    verify_range r k height (i * n) (slice full (i * n) ((i + 1) * n)) us (b - 1) = true.
Proof using Hlen Hmax Hsrc.
  intros Hi Hend. destruct served_height as (Hh & Hb & Hfit). destruct request_pow as (j & Hj & Hjb).
  assert (0 < n) as Hn0 by lia. assert (n <= 512) by (unfold MAX_HASHES_PER_REQUEST; lia).
  assert (2 ^ Z.of_nat b <= 2 ^ 22) by (apply Z.pow_le_mono_r; lia).
  destruct (answer_spec k s d first k (i * n) n (b - 1) Hsrc Hlen) as (hr & Ha & Hhs & Hver);
    [lia | lia | nia | lia | by apply range_taken | lia |].
  assert (node (padded_leaves height d) k <$> seq 0 (2 ^ b) = full) as Hfull by (by rewrite piece_layer_nodes, <- Hh).
  rewrite Hfull in Hhs. replace (i * n + n) with ((i + 1) * n) in Hhs by lia. rewrite Hhs in Hver.
  exists (uncles hr). unfold reply. cbn [Message.root base_layer hr_index hr_length proof_layers]. rewrite !Nat2Z.id, Ha, Hhs. done.
Qed.
Lemma fetch_ranges_served m : forall i c more, 0 <= i -> (i + Z.of_nat m) * n = 2 ^ Z.of_nat b ->
  let qs := (fun index => mkHashRequest r (Z.of_nat k) index n (Z.of_nat (b - 1))) <$> ((fun i => i * n) <$> seqZ i (Z.of_nat m)) in
  will_answer ((reply s <$> qs) ++ more) c ->
  exists c', fetch_ranges r k height n ((fun i => i * n) <$> seqZ i (Z.of_nat m)) (take (Z.to_nat (i * n)) full) c = (c', Ok full) /\
    will_answer more c' /\ asked c' = asked c ++ (HashRequestMsg <$> qs).
Proof using Hlen Hmax Hsrc.
  destruct served_height as (Hh & Hb & Hfit). destruct request_pow as (j & Hj & Hjb). assert (0 < n) as Hn0 by lia.
  assert (length full = Z.to_nat (2 ^ Z.of_nat b)) as Hfl.
  { rewrite length_resize. apply Nat2Z.inj. by rewrite Nat2Z.inj_pow, Z2Nat.id by lia. }
  assert (zlen full = 2 ^ Z.of_nat b) as Hzf by (unfold zlen; by rewrite length_resize, Nat2Z.inj_pow).
  induction m as [| m IH]; intros i c more Hi Hend qs Hw.
  - exists c. subst qs. change (seqZ i (Z.of_nat 0)) with (@nil Z) in *. rewrite !fmap_nil, app_nil_r in *. split; [| by split].
    cbn [fetch_ranges]. replace (i * n) with (2 ^ Z.of_nat b) by lia. rewrite take_ge by lia. done.
  - subst qs. assert ((i + 1) * n <= 2 ^ Z.of_nat b) as Hle by nia.
    rewrite Nat2Z.inj_succ, seqZ_cons, !fmap_cons, Z.pred_succ in * by lia. cbn [fetch_ranges].
    destruct (reply_range i Hi Hle) as (us & Hrep & Hver). rewrite Hrep in Hw. destruct Hw as (Harr & Hst & Htk).
    rewrite <- app_comm_cons in Harr, Htk. unfold fetch_range, stopped. rewrite Hst. cbn [negb].
    unfold write_to. destruct (takes c) as [| tk] eqn:Et; [cbn in Htk; lia |]. cbn [negb arriving].
    replace (height - k - 1)%nat with (b - 1)%nat by lia.
    destruct (await_among _ _ _ _ Harr) as (rest & -> & Hrest).
    assert (zlen (slice full (i * n) ((i + 1) * n)) = n) as Hz.
    { rewrite zlen_slice; [lia | nia | by rewrite Hzf]. }
    rewrite zlen_app, Hz, (proj2 (Z.ltb_ge _ _)) by (pose proof (zlen_nonneg us); lia). cbn [orb].
    assert (Z.to_nat n = length (slice full (i * n) ((i + 1) * n))) as Hsl by (apply Nat2Z.inj; rewrite Z2Nat.id by lia; symmetry; exact Hz).
    rewrite Hsl, take_app_length, drop_app_length, Hver. cbn [negb].
    destruct (IH (Z.succ i) (set_arriving rest (mkConn (arriving c) tk (asked c ++ [HashRequestMsg (mkHashRequest r (Z.of_nat k) (i * n) n (Z.of_nat (b - 1)))]) (stops c))) more) as (c' & Hf & Hw' & Ha');
      [lia | lia | split; [exact Hrest |]; split; [done | cbn in *; lia] |].
    exists c'. split; [| split; [done |]].
    + rewrite <- Hf. f_equal. unfold slice. rewrite take_take_drop. f_equal. lia.
    + rewrite Ha'. cbn [asked set_arriving]. by rewrite <- app_assoc.
Qed.

Lemma requests_for_eq m : div_ceil (2 ^ Z.of_nat b) n = Z.of_nat m ->
  requests_for pl r (zlen d) = (fun index => mkHashRequest r (Z.of_nat k) index n (Z.of_nat (b - 1))) <$> ((fun i => i * n) <$> seqZ 0 (Z.of_nat m)).
Proof using Type. intros Hm. unfold requests_for, step_by. by rewrite piece_layer_span, Hm. Qed.

Lemma fetch_layer_served c more :
  will_answer ((reply s <$> requests_for pl r (zlen d)) ++ more) c ->
  exists c', fetch_layer pl r (zlen d) c = Some (c', Ok (piece_roots k d)) /\
    will_answer more c' /\ asked c' = asked c ++ (HashRequestMsg <$> requests_for pl r (zlen d)).
Proof using Hlen Hmax Hsrc.
  intros Hw. destruct served_height as (Hh & Hb & Hfit). destruct (steps_cover b) as (m & Hm & Hmn & Hn).
  rewrite (requests_for_eq m Hm) in *. unfold fetch_layer. rewrite (proj2 (Z.ltb_ge MAX_PIECES_PER_FILE _)) by done.
  rewrite piece_layer_span, (proj2 (Nat.leb_gt height k)) by lia. unfold step_by. rewrite Hm.
  destruct (fetch_ranges_served m 0 c more) as (c' & Hf & Hw' & Ha); [lia | lia | exact Hw |].
  change (take (Z.to_nat (0 * n)) full) with (@nil Hash) in Hf. rewrite Hf. exists c'. split; [| by split]. do 3 f_equal.
  assert (length (piece_roots k d) <= 2 ^ b)%nat as Hle.
  { apply Nat2Z.inj_le. change (Z.of_nat (length ?l)) with (zlen l). by rewrite zlen_piece_roots, Nat2Z.inj_pow. }
  rewrite <- zlen_piece_roots, resize_ge by done. unfold zlen. rewrite Nat2Z.id. apply take_app_length.
Qed.

Lemma requests_answered : Forall (answers s) (requests_for pl r (zlen d)).
Proof using Hlen Hmax Hsrc.
  destruct (steps_cover b) as (m & Hm & Hmn & Hn). rewrite (requests_for_eq m Hm), <- list_fmap_compose.
  apply Forall_fmap, Forall_forall. intros i Hi%elem_of_seqZ. destruct (reply_range i) as (us & Hr & _); [lia | nia |].
  eexists. exact Hr.
Qed.
End served.

(** The files whose layers are asked for. *)
Definition long (pl : Z) (cs : list Content) : list Content := filter (fun c : Content => pl < zlen c.2) cs.
Definition wanted (pl : Z) (c : Content) : Hash * Z := (root_of pl c.2, zlen c.2).
Definition requests_of (pl : Z) (l : list Content) : list HashRequest :=
  flat_map (fun c : Content => requests_for pl (root_of pl c.2) (zlen c.2)) l.
Definition all_requests (pl : Z) (cs : list Content) : list HashRequest := requests_of pl (long pl cs).

Lemma missing_of_contents pl (cs : list Content) : 0 <= pl ->
  omap (fun f => match V2Hashes.root f with
                 | Some r => match bt_get ([] : Layers) r with Some _ => None | None => Some (r, file_length f) end
                 | None => None
                 end) (filter (fun f => pl < file_length f) (file_of pl <$> cs)) = wanted pl <$> long pl cs.
Proof.
  intros Hpl. unfold long. induction cs as [| c cs IH]; [done |]. rewrite fmap_cons, !filter_cons. cbn [file_of file_length].
  destruct (decide (pl < zlen c.2)) as [Hlt | Hge]; [| exact IH].
  cbn [omap list_omap V2Hashes.root file_of]. rewrite (proj2 (Z.eqb_neq _ 0)) by lia. cbn [bt_get]. rewrite fmap_cons, <- IH. done.
Qed.

Section complete.
Context (k : nat) (cs : list Content) (s : HashSource).
Local Abbreviation pl := (Z.of_nat (span k)).
Context (Hsrc : forall c : Content, c ∈ cs -> c.2 <> [] -> exists first, source_of k s c.2 first).
Context (Hmax : Forall (fun c : Content => div_ceil (zlen c.2) pl <= MAX_PIECES_PER_FILE) cs).

Definition fetched (ls : Layers) (l : list Content) : Layers := fold_left (fun ls c => bt_insert ls (root_of pl c.2) (piece_roots k c.2)) l ls.

Lemma long_served (c : Content) : c ∈ long pl cs ->
  pl < zlen c.2 /\ div_ceil (zlen c.2) pl <= MAX_PIECES_PER_FILE /\ exists first, source_of k s c.2 first.
Proof using All.
  intros [Hlt Hin]%list_elem_of_filter. split; [done |]. split; [by apply (proj1 (Forall_forall _ _) Hmax) |].
  apply Hsrc; [done |]. intros E. rewrite E in Hlt. change (zlen (@nil Z)) with 0 in Hlt. lia.
Qed.

Lemma fetch_files_served l : l ⊆ long pl cs -> forall ls c more,
  will_answer ((reply s <$> requests_of pl l) ++ more) c ->
  exists c', fetch_files pl (wanted pl <$> l) ls c = Some (c', (fetched ls l, None)) /\
    will_answer more c' /\ asked c' = asked c ++ (HashRequestMsg <$> requests_of pl l).
Proof using All.
  induction l as [| x l IH]; intros Hl ls c more Hw.
  - exists c. rewrite app_nil_r. by split.
  - rewrite fmap_cons. cbn [fetch_files wanted]. change (requests_of pl (x :: l)) with (requests_for pl (root_of pl x.2) (zlen x.2) ++ requests_of pl l) in *.
    destruct (long_served x) as (Hlt & Hm & first & Hs); [apply Hl; by left |]. rewrite fmap_app, <- app_assoc in Hw. destruct (fetch_layer_served k s x.2 first Hs Hlt Hm c _ Hw) as (c1 & -> & Hw1 & Ha1). cbn [mbind option_bind].
    destruct (IH ltac:(intros y Hy; apply Hl; by right) (bt_insert ls (root_of pl x.2) (piece_roots k x.2)) c1 more Hw1) as (c2 & Hf & Hw2 & Ha2).
    exists c2. split; [exact Hf |]. split; [done |]. by rewrite Ha2, Ha1, fmap_app, app_assoc.
Qed.

Lemma all_answered : Forall (answers s) (all_requests pl cs).
Proof using All.
  unfold all_requests, requests_of. apply Forall_flat_map, Forall_forall. intros c Hc. destruct (long_served c Hc) as (Hlt & Hm & first & Hs).
  by apply (requests_answered k s c.2 first).
Qed.

End complete.

(** With the files told apart by their roots, each has its own layer. *)
Lemma fetched_layers k (cs : list Content) (Hroots : roots_distinct k cs) : bt_sorted (fetched k [] (long (Z.of_nat (span k)) cs)) /\ layers_of k cs (fetched k [] (long (Z.of_nat (span k)) cs)).
Proof.
  assert (forall l ls, l ⊆ long (Z.of_nat (span k)) cs -> bt_sorted ls ->
    bt_sorted (fetched k ls l) /\ forall c, c ∈ long (Z.of_nat (span k)) cs -> (c ∈ l \/ bt_get ls (root_of (Z.of_nat (span k)) c.2) = Some (piece_roots k c.2)) ->
      bt_get (fetched k ls l) (root_of (Z.of_nat (span k)) c.2) = Some (piece_roots k c.2)) as Hgen.
  { induction l as [| x l IH]; intros ls Hl Hs.
    - split; [done |]. intros c _ [H | H]; [by apply elem_of_nil in H | done].
    - cbn [fetched fold_left]. destruct (IH (bt_insert ls (root_of (Z.of_nat (span k)) x.2) (piece_roots k x.2))) as [Hs' Hg];
        [set_solver | by apply bt_insert_sorted |]. split; [exact Hs' |]. intros c Hc Hin. apply Hg; [done |].
      destruct (decide (root_of (Z.of_nat (span k)) x.2 = root_of (Z.of_nat (span k)) c.2)) as [E | Hne].
      + right. rewrite <- E, bt_get_insert_eq. do 2 f_equal. assert (x ∈ long (Z.of_nat (span k)) cs) as Hx by set_solver.
        apply list_elem_of_filter in Hx as [Hx1 Hx2], Hc as [Hc1 Hc2].
        apply Hroots; try done; intros E0; rewrite E0 in *; change (zlen (@nil Z)) with 0 in *; lia.
      + destruct Hin as [[-> |]%elem_of_cons |]; [done | by left | right; by rewrite bt_get_insert_ne]. }
  destruct (Hgen (long (Z.of_nat (span k)) cs) [] ltac:(done) I) as [Hs Hg]. split; [done |]. apply Forall_forall. intros c Hc Hlt.
  assert (c ∈ long (Z.of_nat (span k)) cs) by (by apply list_elem_of_filter). apply Hg; [done | by left].
Qed.

Lemma none_missing k (cs : list Content) (ls : Layers) (Hls : layers_of k cs ls) : 0 <= Z.of_nat (span k) ->
  omap (fun f => match V2Hashes.root f with
                 | Some r => match bt_get ls r with Some _ => None | None => Some (r, file_length f) end
                 | None => None
                 end) (filter (fun f => Z.of_nat (span k) < file_length f) (file_of (Z.of_nat (span k)) <$> cs)) = [].
Proof.
  intros Hpl. induction Hls as [| c cs Hc _ IH]; [done |]. rewrite fmap_cons, filter_cons. cbn [file_of file_length].
  destruct (decide (Z.of_nat (span k) < zlen c.2)) as [Hlt | Hge]; [| exact IH].
  cbn [omap list_omap V2Hashes.root file_of]. rewrite (proj2 (Z.eqb_neq _ 0)) by lia. by rewrite (Hc Hlt).
Qed.

(** C15: a v2 torrent that came from a magnet link gets its layers from our own
    seeder.  The client asks for the layer of every file of more than one
    piece, in ranges of at most 512 hashes; the seeder's source answers every
    request; and from those answers, among any other messages, the client has
    every layer, which completes the torrent: the layers fit, the pieces are
    planned and none is missing. *)
Theorem layers_from_seeder (pl : Z) (cs : list Content) (ls : Layers) (t : TorrentFile) (w : World) (now : Z) (ih : Hash)
    (Hv : valid_piece_length pl = true) (H32 : pl < 2 ^ 32) (Hls : layers_of (piece_layer pl) cs ls)
    (Hroots : roots_distinct (piece_layer pl) cs) (Hmany : zlen (torrent_pieces (piece_layer pl) cs) <= u_max 32)
    (Hsome : exists c : Content, c ∈ cs /\ c.2 <> [])
    (Hmax : Forall (fun c : Content => div_ceil (zlen c.2) pl <= MAX_PIECES_PER_FILE) cs)
    (Ht : v2 t = Some (mkV2Meta (file_of pl <$> cs) [] ih)) (Hpl : t_piece_length t = pl)
    (Hsource : new (file_of pl <$> cs) ls pl = Some (hash_source (sh w)))
    (Hroom : (length (all_requests pl cs) <= room w)%nat) :
  let asks := HashRequestMsg <$> all_requests pl cs in
  exists w' replies, run w (OnMessage now <$> asks) = Some (w', Ok tt) /\ out w' = out w ++ replies /\
  forall incoming takes, about_hashes incoming = replies -> (length asks <= takes)%nat ->
  exists got, fetch_from_peer pl (missing_layers t) (Some (mkConn incoming takes [] [])) = Some (asks, (got, None)) /\
  exists t', install_layers t got = Some (Ok t') /\ missing_layers t' = [] /\ t_info_hash t' = t_info_hash t.
Proof.
  pose proof (valid_span pl Hv) as Hspan. set (k := piece_layer pl) in *. rewrite Hspan in *. intros asks.
  destruct (new_sources k cs ls Hroots Hls Hmany Hsome) as (s & Hnew & Hs).
  assert (hash_source (sh w) = Some s) as Hw by congruence.
  assert (forall c : Content, c ∈ cs -> c.2 <> [] -> exists first, source_of k s c.2 first) as Hsrc by (intros c Hc Hd; destruct (Hs c Hc Hd) as (f & ? & _); eauto).
  destruct (serve_hashes s now (all_requests (Z.of_nat (span k)) cs) w Hw) as (w' & Hrun & Hout); [by apply all_answered | done |].
  exists w', (reply s <$> all_requests (Z.of_nat (span k)) cs). split; [done |]. split; [done |]. intros incoming takes Hin Htakes.
  assert (missing_layers t = wanted (Z.of_nat (span k)) <$> long (Z.of_nat (span k)) cs) as Hmiss.
  { unfold missing_layers. rewrite Ht, Hpl. cbn [files layers]. apply missing_of_contents. lia. }
  destruct (fetch_files_served k cs s Hsrc Hmax (long (Z.of_nat (span k)) cs) ltac:(done) [] (mkConn incoming takes [] []) []) as (c' & Hf & _ & Ha).
  { rewrite app_nil_r. split; [exact Hin |]. split; [done |]. rewrite length_fmap. unfold asks in Htakes. by rewrite length_fmap in Htakes. }
  exists (fetched k [] (long (Z.of_nat (span k)) cs)). split; [cbn [fetch_from_peer]; rewrite Hmiss, Hf; cbn [mbind option_bind]; by rewrite Ha |].
  destruct (fetched_layers k cs Hroots) as [Hsorted Hlay]. set (got := fetched k [] (long (Z.of_nat (span k)) cs)) in *.
  assert (forall r, bt_get (extend [] got) r = bt_get got r) as Hext.
  { intros r. unfold extend. rewrite (proj1 (bt_get_extend got [] r I Hsorted)). by destruct (bt_get got r). }
  assert (layers_of k cs (extend [] got)) as Hlay' by (apply (Forall_impl _ _ _ Hlay); intros c Hc Hlt; rewrite Hext; by apply Hc).
  destruct (plan_from_ok k cs [] cs (extend [] got)) as (ps & Hps & _); [done | rewrite <- of_nat_span; lia | done |].
  assert (exists t', install_layers t got = Some (Ok t')) as [t' Hinst].
  { unfold install_layers. rewrite Ht. cbn [files layers]. rewrite Hpl. unfold validate_layers. rewrite Hv. cbn [negb].
    rewrite validate_each_ok by done. cbn [fuelled_bind]. fold (extend [] got). unfold plan_pieces. cbn [length] in Hps. rewrite Hps. by eexists. }
  exists t'. split; [done |]. destruct (install_layers_meta t got t' _ Ht Hinst) as (Hm' & Hpl' & Hih). split; [| done].
  unfold missing_layers. rewrite Hm', Hpl', Hpl. cbn [files layers]. apply none_missing; [done | lia].
Qed.

(** ** The theorems at concrete inputs *)

(** A v2 torrent of two pieces, without its layers. *)
Definition layerless_info : Bencode :=
  Dict [(str "file tree", Dict [(str "a", Dict [([], Dict [(str "length", Int 20000); (str "pieces root", Bytes (replicate 32 7))])])]);
        (str "meta version", Int 2); (str "name", Bytes (str "a")); (str "piece length", Int 16384)].

Definition layerless : TorrentFile :=
  match build_torrent_from_info no_sha1 layerless_info [] None [] [] None with Some (Ok t) => t | _ => example_parsed end.

Lemma layerless_ok : torrent_ok layerless.
Proof.
  refine (proj1 (build_torrent_ok no_sha1 layerless_info [] None [] [] None layerless _ _)); [| vm_compute; reflexivity].
  vm_compute. repeat split; by repeat constructor || discriminate.
Qed.

(** A peer that answers with hashes of nothing. *)
Definition lying_peer : SocketAddr -> option Conn := fun _ =>
  Some (mkConn [KeepAlive; Hashes (mkHashRequest (replicate 32 7) 0 0 2 0) [replicate 32 1; replicate 32 2]] 9 [] []).


(** The torrent of [example_contents] as a magnet link gives it, and a seeder of it. *)
Definition magnet_torrent : TorrentFile :=
  mkTorrentFile None [] layerless_info (replicate 20 0) 16384 [] (str "a") [([str "a"], 20000)] [false] false [] false
    (Some (mkV2Meta (file_of 16384 <$> example_contents) [] (replicate 32 0))) [].

Definition layer_seeder : World :=
  mkWorld (mkServing 0 false ∅ true 0 [] true None 0 0)
    (mkSeederShared (replicate 20 0) [] 16384 20000 (mkHaveMap [true; true] 2) 0 (Choker.new 4) None None
       (match new (file_of 16384 <$> example_contents) example_layers 16384 with Some s => s | None => None end))
    ∅ [] (length (all_requests 16384 example_contents)).

Lemma example_roots : roots_distinct 0 example_contents.
Proof. intros c c' ->%list_elem_of_singleton ->%list_elem_of_singleton _ _ _. reflexivity. Qed.

Lemma example_not_empty : exists c : Content, c ∈ example_contents /\ c.2 <> [].
Proof.
  exists ([[97]], example_data). split; [by left |]. intros H. pose proof zlen_example_data as Hz. cbn [snd] in H. rewrite H in Hz. discriminate Hz.
Qed.

Lemma example_source : new (file_of 16384 <$> example_contents) example_layers 16384 = Some (hash_source (sh layer_seeder)).
Proof.
  destruct (new_sources 0 example_contents example_layers example_roots example_layers_of example_pieces example_not_empty) as (s & Hs & _).
  change (Z.of_nat (span 0)) with 16384 in Hs. cbn [sh hash_source layer_seeder]. rewrite Hs. reflexivity.
Qed.

Lemma example_room : (length (all_requests 16384 example_contents) <= room layer_seeder)%nat.
Proof. cbv delta [layer_seeder] beta. cbv beta iota delta [room]. apply Nat.le_refl. Qed.

Lemma layers_from_seeder_witness :
  exists w' replies, run layer_seeder (OnMessage 0 <$> (HashRequestMsg <$> all_requests 16384 example_contents)) = Some (w', Ok tt) /\
    out w' = replies.
Proof.
  destruct (layers_from_seeder 16384 example_contents example_layers magnet_torrent layer_seeder 0 (replicate 32 0)) as (w' & replies & Hrun & Hout & _).
  - reflexivity.
  - lia.
  - exact example_layers_of.
  - exact example_roots.
  - exact example_pieces.
  - exact example_not_empty.
  - apply Forall_singleton. cbn [snd]. rewrite zlen_example_data. vm_compute. discriminate.
  - reflexivity.
  - reflexivity.
  - exact example_source.
  - exact example_room.
  - exists w', replies. split; [exact Hrun | exact Hout].
Defined.
