(* ===== verification/WebSeed.v ===== *)
(** * Web seeds

    Models [src/src/webseed.rs]: the URLs of a torrent's files, the ranged
    requests a piece takes, fetching a piece from a mirror, and the worker that
    takes pieces from the shared queue to a mirror instead of a peer.

    A mirror is what it answers to each request.  The thread a fetch runs on is
    the fetch, waited for or not; what is logged is left out.  A [None] is a
    panic. *)

From S2P Require Import Prelude Str Io Tracker Merkle V2Hashes FileWriter PieceAssembler Queue.

Definition MAX_CONSECUTIVE_FAILURES : Z := 5.

Inductive WebEnd : Type :=
| Drained
| Stopped
| Disabled
| DiskFailed (e : ErrorKind).

Record FileTarget : Type := mkFileTarget {
  url : list Z;
  t_start : Z;
  t_end : Z;
  t_padding : bool
}.

(** ** Which requests a piece takes *)

(** The same set of characters is kept as in a tracker's query. *)
Definition encode_segment (seg : list Z) : list Z := percent_encode_bytes seg.

Definition ends_with_slash (s : list Z) : bool := bool_decide (last s = Some slash).

Definition target_url (base_url name : list Z) (parts : list (list Z)) (multi : bool) : list Z :=
  if multi then
    base_url ++ (if ends_with_slash base_url then [] else [slash]) ++ encode_segment name ++ flat_map (fun seg => slash :: encode_segment seg) parts
  else if ends_with_slash base_url then base_url ++ encode_segment name
  else base_url.

Fixpoint targets_from (base_url name : list Z) (files : list (list (list Z) * Z)) (multi : bool) (cursor : Z) : list FileTarget :=
  match files with
  | [] => []
  | (parts, len) :: files' =>
      let next := wrap 64 (cursor + wrap 64 len) in
      mkFileTarget (target_url base_url name parts multi) cursor next false :: targets_from base_url name files' multi next
  end.

Definition build_targets (base_url name : list Z) (files : list (list (list Z) * Z)) (multi : bool) : list FileTarget :=
  targets_from base_url name files multi 0.

(** A request: the URL, the offset in the file and the length. *)
Abbreviation Request := (list Z * Z * Z)%type.

(** [targets.partition_point(|t| t.end <= ps)]. *)
Fixpoint first_target (targets : list FileTarget) (ps : Z) : nat :=
  match targets with
  | t :: targets' => if t_end t <=? ps then S (first_target targets' ps) else O
  | [] => O
  end.

(** The loop, over the targets that start before the piece ends. *)
Fixpoint requests_from (targets : list FileTarget) (ps pe : Z) : list Request :=
  match targets with
  | [] => []
  | t :: targets' =>
      if t_start t <? pe then
        let seg_start := Z.max ps (t_start t) in
        let seg_end := Z.min pe (t_end t) in
        if seg_end <=? seg_start then requests_from targets' ps pe
        else (if t_padding t then [] else url t, seg_start - t_start t, seg_end - seg_start) :: requests_from targets' ps pe
      else []
  end.

Definition piece_requests (targets : list FileTarget) (piece_index piece_length total_length : Z) : list Request :=
  let ps := wrap 64 (piece_index * piece_length) in
  let pe := Z.min (wrap 64 (ps + piece_length)) total_length in
  requests_from (drop (first_target targets ps) targets) ps pe.

Definition v2_piece_requests (targets : list FileTarget) (pieces : list V2Piece) (piece_index : Z) : list Request :=
  match zget pieces piece_index with
  | None => []
  | Some piece =>
      match targets !! p_file piece with
      | Some target => [(url target, p_offset piece, p_length piece)]
      | None => []
      end
  end.

(** ** Fetching *)

(** What comes of a request: nothing, or a status and a body, which may break
    off. *)
Inductive Response : Type :=
| CallFailed
| Answered (status : Z) (body : list Z) (breaks_off : bool).

Inductive FetchError : Type :=
| GetFailed
| ReadingFailed
| WrongLength (got wanted : Z)
| IgnoredRange
| HttpStatus (status : Z).

(** [reader.take(len).read_to_end]. *)
Definition read_up_to (len : Z) (body : list Z) (breaks_off : bool) : result (list Z) FetchError :=
  if (zlen body <? len) && breaks_off then Err ReadingFailed else Ok (take (Z.to_nat len) body).

(** The length of the file at that URL. *)
Definition length_at (targets : list FileTarget) (u : list Z) (len : Z) : Z :=
  match list_find (fun t => url t = u) targets with
  | Some (_, t) => t_end t - t_start t
  | None => len
  end.

(** A mirror, by the URL and the first and last byte of the range. *)
Abbreviation Mirror := (list Z -> Z -> Z -> Response).

Definition fetch_range (mirror : Mirror) (targets : list FileTarget) (r : Request) : result (list Z) FetchError :=
  let '(u, offset, len) := r in
  match mirror u offset (wrap 64 (offset + len - 1)) with
  | CallFailed => Err GetFailed
  | Answered status body breaks_off =>
      let? buf := read_up_to len body breaks_off in
      if status =? 206 then
        if zlen buf =? len then Ok buf else Err (WrongLength (zlen buf) len)
      else if status =? 200 then
        if negb ((offset =? 0) && (len =? length_at targets u len)) then Err IgnoredRange
        else if zlen buf =? len then Ok buf else Err (WrongLength (zlen buf) len)
      else Err (HttpStatus status)
  end.

Fixpoint fetch_loop (mirror : Mirror) (targets : list FileTarget) (reqs : list Request) (out : list Z) : result (list Z) FetchError :=
  match reqs with
  | [] => Ok out
  | r :: reqs' =>
      match r.1.1 with
      | [] => fetch_loop mirror targets reqs' (out ++ replicate (Z.to_nat r.2) 0)
      | _ => let? buf := fetch_range mirror targets r in fetch_loop mirror targets reqs' (out ++ buf)
      end
  end.

Definition fetch_piece (mirror : Mirror) (targets : list FileTarget) (reqs : list Request) : result (list Z) FetchError :=
  fetch_loop mirror targets reqs [].

(** ** The worker *)

(** One pass of the loop: what the mirror answers, and whether the stop flag is
    found set while the fetch or the rate limiter is waited for. *)
Record Turn : Type := mkTurn {
  mirror : Mirror;
  stop_fetching : bool;
  stop_limited : bool
}.

Record WebConfig : Type := mkWebConfig {
  targets : list FileTarget;
  spans : list FileSpan;
  piece_length : Z;
  total_length : Z;
  web_v2_pieces : option (list V2Piece);
  limited : bool
}.

(** The queue it shares, the files, the pieces it has reported, and what other
    threads do to the queue before each of its own uses of it. *)
Record Web : Type := mkWeb {
  web_queue : WorkQueue;
  web_files : Fs;
  reported : list (Z * list Z);
  meanwhile : list (WorkQueue -> WorkQueue)
}.

Definition set_web_queue (q : WorkQueue) (w : Web) : Web := mkWeb q (web_files w) (reported w) (meanwhile w).
Definition set_web_files (fs : Fs) (w : Web) : Web := mkWeb (web_queue w) fs (reported w) (meanwhile w).
Definition report (i : Z) (data : list Z) (w : Web) : Web := mkWeb (web_queue w) (web_files w) (reported w ++ [(i, data)]) (meanwhile w).

(** The other threads' turn. *)
Definition others_go (w : Web) : Web :=
  match meanwhile w with
  | [] => w
  | f :: rest => mkWeb (f (web_queue w)) (web_files w) (reported w) rest
  end.

Definition give_back (work : PieceWork) (w : Web) : Web := let w := others_go w in set_web_queue (push_back (web_queue w) work) w.

Definition web_requests (cfg : WebConfig) (index : Z) : list Request :=
  match web_v2_pieces cfg with
  | Some pieces => v2_piece_requests (targets cfg) pieces index
  | None => piece_requests (targets cfg) index (piece_length cfg) (total_length cfg)
  end.

Section worker.
Context (sha1 : list Z -> list Z) (cfg : WebConfig).

(** What is done with a piece that was fetched: the end of the run, or how many
    failures in a row there are now. *)
Definition take_fetched (turn : Turn) (work : PieceWork) (failures : Z) (data : list Z) (w : Web) : option (Web * (WebEnd + Z)) :=
  if limited cfg && stop_limited turn then Some (give_back work w, inl Stopped)
  else if negb (PieceAssembler.matches sha1 work data) then Some (give_back work w, inr (failures + 1))
  else
    '(fs, r) ← write_piece (spans cfg) (web_files w) (pw_index work) (piece_length cfg) data;
    let w := set_web_files fs w in
    match r with
    | Err e => Some (give_back work w, inl (DiskFailed e))
    | Ok _ =>
        let w := others_go w in
        let '(q, first) := mark_done (web_queue w) (pw_index work) in
        let w := set_web_queue q w in
        Some (if first then report (pw_index work) data w else w, inr 0)
    end.

(** The passes until the stop flag is found set at the top of the loop. *)
Fixpoint web_loop (turns : list Turn) (failures : Z) (w : Web) : option (Web * WebEnd) :=
  match turns with
  | [] => Some (w, Stopped)
  | turn :: rest =>
      let w := others_go w in
      '(q, popped) ← pop (web_queue w);
      let w := set_web_queue q w in
      match popped with
      | None => Some (w, Drained)
      | Some work =>
          let w := others_go w in
          if is_done (web_queue w) (pw_index work) then web_loop rest failures w
          else if stop_fetching turn then Some (give_back work w, Stopped)
          else
            '(w, r) ←
              match fetch_piece (mirror turn) (targets cfg) (web_requests cfg (pw_index work)) with
              | Ok data => take_fetched turn work failures data w
              | Err _ => Some (give_back work w, inr (failures + 1))
              end;
            match r with
            | inl end_ => Some (w, end_)
            | inr failures => if MAX_CONSECUTIVE_FAILURES <=? failures then Some (w, Disabled) else web_loop rest failures w
            end
      end
  end.
End worker.

(** [for (target, span) in targets.zip(spans)]: which files are padding. *)
Fixpoint mark_padding (targets : list FileTarget) (spans : list FileSpan) : list FileTarget :=
  match targets, spans with
  | t :: targets', s :: spans' => mkFileTarget (url t) (t_start t) (t_end t) (padding s) :: mark_padding targets' spans'
  | _, _ => targets
  end.

Definition run_web_worker (sha1 : list Z -> list Z) (base_url name : list Z) (files : list (list (list Z) * Z)) (multi_file limited_ : bool)
    (spans_ : list FileSpan) (piece_length_ total_length_ : Z) (v2_pieces : option (list V2Piece)) (turns : list Turn) (w : Web) : option (Web * WebEnd) :=
  let targets_ := mark_padding (build_targets base_url name files multi_file) spans_ in
  web_loop sha1 (mkWebConfig targets_ spans_ piece_length_ total_length_ v2_pieces limited_) turns 0 w.

(** ** A piece from a mirror *)

Lemma slice_app_both {A} (c r : list A) a b : 0 <= a ->
  slice (c ++ r) a b = slice c a b ++ slice r (Z.max 0 (a - zlen c)) (Z.max 0 (b - zlen c)).
Proof.
  intros Ha. unfold slice, zlen. rewrite drop_app, take_app, length_drop. f_equal. f_equal; [lia |]. f_equal. lia.
Qed.

Lemma slice_none {A} (l : list A) a b : b <= a -> slice l a b = [].
Proof. intros H. unfold slice. by replace (Z.to_nat (b - a)) with 0%nat by lia. Qed.

Lemma slice_past {A} (l : list A) a b : 0 <= a <= b -> slice l a b = slice l a (Z.min b (Z.max a (zlen l))).
Proof.
  intros H. unfold slice. destruct (Z.le_gt_cases b (Z.max a (zlen l))) as [Hle | Hgt]; [by rewrite Z.min_l |].
  rewrite Z.min_r by lia. rewrite !take_ge; [done | |]; rewrite length_drop; unfold zlen in *; lia.
Qed.

(** A file of zeros at a padding target; elsewhere the mirror has the contents. *)
Definition serves (m : Mirror) (t : FileTarget) (c : list Z) : Prop :=
  if t_padding t then c = replicate (length c) 0
  else url t <> [] /\ forall first last, 0 <= first <= last -> last < zlen c ->
    m (url t) first last = Answered 206 (slice c first (last + 1)) false.

(** The targets, laid end to end from [lo], and what is at each. *)
Fixpoint laid (m : Mirror) (lo : Z) (ts : list FileTarget) (cs : list (list Z)) : Prop :=
  match ts, cs with
  | [], [] => True
  | t :: ts', c :: cs' => t_start t = lo /\ t_end t = lo + zlen c /\ serves m t c /\ laid m (lo + zlen c) ts' cs'
  | _, _ => False
  end.

Section mirror.
Context (m : Mirror) (all : list FileTarget).

Lemma fetch_range_serves t c a b : serves m t c -> t_padding t = false -> 0 <= a < b -> b <= zlen c -> zlen c < 2 ^ 64 ->
  fetch_range m all (url t, a, b - a) = Ok (slice c a b).
Proof using Type.
  intros Hs Hp Ha Hb Hc. unfold serves in Hs. rewrite Hp in Hs. destruct Hs as [_ Hs]. unfold fetch_range.
  replace (wrap 64 (a + (b - a) - 1)) with (b - 1) by (unfold wrap; rewrite Z.mod_small by lia; lia).
  rewrite Hs by lia. replace (b - 1 + 1) with b by lia. pose proof (zlen_slice c a b ltac:(lia) ltac:(lia)) as Hz.
  unfold read_up_to. rewrite Hz, (proj2 (Z.ltb_ge _ _)) by lia. cbn [andb result_bind]. change (206 =? 206) with true. cbv iota.
  rewrite take_ge by (unfold zlen in Hz; lia). by rewrite Hz, Z.eqb_refl.
Qed.

Lemma fetch_laid ps pe ts : ps < pe -> forall cs lo out, 0 <= lo -> laid m lo ts cs -> lo + zlen (concat cs) < 2 ^ 64 ->
  fetch_loop m all (requests_from ts ps pe) out = Ok (out ++ slice (concat cs) (Z.max 0 (ps - lo)) (Z.max 0 (pe - lo))).
Proof using Type.
  intros Hp. induction ts as [| t ts IH]; intros [| c cs] lo out Hlo Hl Hmax; try done.
  { cbn. unfold slice. by rewrite drop_nil, take_nil, app_nil_r. }
  destruct Hl as (Hst & Hen & Hs & Hl). cbn [requests_from concat] in *. rewrite zlen_app in Hmax. rewrite Hst, Hen.
  pose proof (zlen_nonneg c) as Hc0. pose proof (zlen_nonneg (concat cs)). rewrite slice_app_both by lia.
  destruct (Z.ltb_spec lo pe) as [Hlt | Hge].
  2: { cbn [fetch_loop]. rewrite !slice_none by lia. by rewrite app_nil_r. }
  specialize (fun o => IH cs (lo + zlen c) o ltac:(lia) Hl ltac:(lia)).
  replace (Z.max 0 (Z.max 0 (ps - lo) - zlen c)) with (Z.max 0 (ps - (lo + zlen c))) by lia.
  replace (Z.max 0 (Z.max 0 (pe - lo) - zlen c)) with (Z.max 0 (pe - (lo + zlen c))) by lia.
  destruct (Z.leb_spec (Z.min pe (lo + zlen c)) (Z.max ps lo)) as [Hno | Hyes].
  - rewrite IH. f_equal. f_equal. assert (slice c (Z.max 0 (ps - lo)) (Z.max 0 (pe - lo)) = []) as ->; [| done].
    rewrite slice_past by lia. apply slice_none. lia.
  - set (a := Z.max ps lo - lo). set (b := Z.min pe (lo + zlen c) - lo).
    assert (slice c (Z.max 0 (ps - lo)) (Z.max 0 (pe - lo)) = slice c a b) as ->.
    { rewrite slice_past by lia. f_equal; lia. }
    replace (Z.min pe (lo + zlen c) - Z.max ps lo) with (b - a) by lia. cbn [fetch_loop fst snd].
    destruct (t_padding t) eqn:Epad.
    + rewrite IH. f_equal. rewrite <- app_assoc. do 2 f_equal. unfold serves in Hs. rewrite Epad in Hs. rewrite Hs. unfold slice.
      rewrite drop_replicate, take_replicate. f_equal. unfold zlen in *. lia.
    + destruct (url t) as [| x u] eqn:Eu; [unfold serves in Hs; rewrite Epad in Hs; naive_solver |]. rewrite <- Eu.
      rewrite (fetch_range_serves t c a b) by (done || lia). cbn [result_bind]. rewrite IH. by rewrite <- app_assoc.
Qed.

(** The targets skipped by the binary search have nothing of the piece. *)
Lemma requests_skip ps pe ts : ps < pe -> forall cs lo, laid m lo ts cs ->
  requests_from (drop (first_target ts ps) ts) ps pe = requests_from ts ps pe.
Proof using Type.
  intros Hp. induction ts as [| t ts IH]; intros [| c cs] lo Hl; try done. cbn [first_target].
  destruct Hl as (Hst & Hen & _ & Hl). destruct (Z.leb_spec (t_end t) ps) as [Hle | Hgt]; [| done].
  cbn [drop requests_from]. rewrite (IH cs _ Hl). pose proof (zlen_nonneg c).
  rewrite (proj2 (Z.ltb_lt (t_start t) pe)), (proj2 (Z.leb_le (Z.min _ _) _)) by lia. done.
Qed.

(** The requests for a piece are answered with the piece. *)
Lemma fetch_piece_laid cs pl i : laid m 0 all cs -> 0 < pl -> 0 <= i -> i * pl < zlen (concat cs) -> zlen (concat cs) + pl < 2 ^ 64 ->
  fetch_piece m all (piece_requests all i pl (zlen (concat cs))) = Ok (piece_of (concat cs) pl i).
Proof using Type.
  intros Hl Hpl Hi Hlt Hmax. unfold fetch_piece, piece_requests.
  replace (wrap 64 (i * pl)) with (i * pl) by (unfold wrap; rewrite Z.mod_small; [done | nia]).
  replace (wrap 64 (i * pl + pl)) with ((i + 1) * pl) by (unfold wrap; rewrite Z.mod_small; nia).
  rewrite (requests_skip _ _ all) with (cs := cs) (lo := 0) by (done || nia).
  rewrite (fetch_laid _ _ all) with (cs := cs) (lo := 0) by (done || nia). cbn [app]. f_equal. unfold piece_of. f_equal; nia.
Qed.
End mirror.

(** ** The worker's promises *)

Section promises.
Context (sha1 : list Z -> list Z) (cfg : WebConfig) (pieces : list PieceWork) (Hnd : NoDup (indices pieces)).
Context (alone : bool) (before : gset Z).

(** What another thread may do: keep the queue's invariant and leave what is
    done done. *)
Definition other_ok (f : WorkQueue -> WorkQueue) : Prop := forall q, inv pieces q -> inv pieces (f q) /\ done_ q ⊆ done_ (f q).

(** A piece reported has the hash the torrent gives it, and is done. *)
Definition report_ok (q : WorkQueue) (r : Z * list Z) : Prop :=
  r.1 ∈ done_ q /\ exists work, work ∈ pieces /\ pw_index work = r.1 /\ PieceAssembler.matches sha1 work r.2 = true.

(** [cur] is the piece in hand. *)
Record web_ok (cur : list Z) (w : Web) : Prop := {
  web_inv : inv pieces (web_queue w);
  web_others : Forall other_ok (meanwhile w);
  web_reports : Forall (report_ok (web_queue w)) (reported w);
  web_once : NoDup (reported w).*1;
  web_claims : alone = true -> meanwhile w = [] /\ forall i, is_Some (claimed (web_queue w) !! i) -> i ∈ before \/ i ∈ cur
}.

Lemma reports_grow q q' l : done_ q ⊆ done_ q' -> Forall (report_ok q) l -> Forall (report_ok q') l.
Proof using Type. intros Hd Hl. apply (Forall_impl _ _ _ Hl). intros r [Hin Hw]. split; [by apply Hd | done]. Qed.

Lemma others_go_ok cur w : web_ok cur w -> web_ok cur (others_go w).
Proof using Type.
  intros [Hi Ho Hr Hn Hc]. unfold others_go. destruct (meanwhile w) as [| f rest] eqn:E; [by split; rewrite ?E |].
  apply Forall_cons in Ho as [Hf Ho]. destruct (Hf _ Hi) as [Hi' Hd]. split; cbn [web_queue meanwhile reported]; try done.
  - by apply (reports_grow (web_queue w)).
  - intros Ha. by destruct (Hc Ha).
Qed.

Lemma pop_ok w q popped : web_ok [] w -> pop (web_queue w) = Some (q, popped) ->
  match popped with
  | Some work => work ∈ pieces /\ web_ok [pw_index work] (set_web_queue q w)
  | None => web_ok [] (set_web_queue q w)
  end.
Proof using Hnd.
  intros [Hi Ho Hr Hn Hc] Hp. unfold pop, take_for in Hp. destruct (take_work_outcome (web_queue w) (fun _ => true) true) as (q' & t & Ht & Hout).
  rewrite Ht in Hp. cbn [mbind option_bind] in Hp. injection Hp as <- <-.
  pose proof (step_inv pieces _ _ Hnd Hi (step_take pieces _ _ _ _ _ Ht)) as Hi'. pose proof Hi as [Hpart _].
  destruct Hout as [wk rest [Hin _] Hperm | wk _ _ [Hin _] | |].
  - apply list_elem_of_filter in Hin as [_ Hin]. split; [by apply (part_pending _ _ Hpart) |].
    split; cbn [web_queue set_web_queue meanwhile reported]; try done. intros Ha. destruct (Hc Ha) as [-> Hcl]. split; [done |].
    intros i Hsome. cbn [claimed] in Hsome. destruct (decide (i = pw_index wk)) as [-> | Hne]; [right; by left |].
    rewrite lookup_insert_ne in Hsome by done. left. destruct (Hcl i Hsome) as [| Hx]; [done | by apply elem_of_nil in Hx].
  - apply list_elem_of_filter in Hin as [_ Hin]. apply elem_of_claimed_works in Hin as [i Hcl].
    split; [by apply (part_claimed _ _ Hpart i) |]. split; cbn [web_queue set_web_queue meanwhile reported]; try done.
    intros Ha. destruct (Hc Ha) as [-> Hcl']. split; [done |]. intros j Hj. left. destruct (Hcl' j Hj) as [| Hx]; [done | by apply elem_of_nil in Hx].
  - by split.
  - by split.
Qed.

Lemma push_back_claims q work i : inv pieces q -> is_Some (claimed (push_back q work) !! i) -> is_Some (claimed q !! i) /\ i <> pw_index work.
Proof using Type.
  intros [Hpart _] Hs. unfold push_back in Hs. case_bool_decide as Hd.
  - split; [done |]. intros ->. destruct Hs as [v Hv]. by apply (part_claimed _ _ Hpart) in Hv as (_ & _ & Hx).
  - cbn [claimed] in Hs. by apply lookup_delete_is_Some in Hs as [? ?].
Qed.

Lemma give_back_ok work w : work ∈ pieces -> web_ok [pw_index work] w -> web_ok [] (give_back work w).
Proof using Hnd.
  intros Hin Hw. apply others_go_ok in Hw as [Hi Ho Hr Hn Hc]. unfold give_back. set (w1 := others_go w) in *.
  split; cbn [web_queue set_web_queue meanwhile reported]; try done.
  - by apply (step_inv pieces (web_queue w1)); [| | constructor].
  - apply (reports_grow (web_queue w1)); [| done]. unfold push_back. by case_bool_decide.
  - intros Ha. destruct (Hc Ha) as [-> Hcl]. split; [done |]. intros i Hs. apply push_back_claims in Hs as [Hs Hne]; [| done].
    destruct (Hcl i Hs) as [| Hx]; [by left |]. by apply list_elem_of_singleton in Hx.
Qed.

Lemma finish_ok work data w : work ∈ pieces -> PieceAssembler.matches sha1 work data = true -> web_ok [pw_index work] w ->
  let '(q, first) := mark_done (web_queue w) (pw_index work) in
  let w := set_web_queue q w in
  web_ok [] (if first then report (pw_index work) data w else w).
Proof using Hnd.
  intros Hin Hm [Hi Ho Hr Hn Hc]. destruct (mark_done (web_queue w) (pw_index work)) as [q first] eqn:E.
  assert (q = (mark_done (web_queue w) (pw_index work)).1) as Hq by (by rewrite E).
  assert (inv pieces q) as Hi' by (rewrite Hq; by apply (step_inv pieces (web_queue w)); [| | constructor]).
  assert (done_ (web_queue w) ⊆ done_ q /\ pw_index work ∈ done_ q) as [Hd Hd'] by (rewrite Hq; cbn; set_solver).
  assert (alone = true -> meanwhile w = [] /\ forall i, is_Some (claimed q !! i) -> i ∈ before \/ i ∈ ([] : list Z)) as Hc'.
  { intros Ha. destruct (Hc Ha) as [-> Hcl]. split; [done |]. intros i Hs. rewrite Hq in Hs. cbn [mark_done fst claimed] in Hs.
    apply lookup_delete_is_Some in Hs as [Hne Hs]. destruct (Hcl i Hs) as [| Hx]; [by left |]. by apply list_elem_of_singleton in Hx. }
  pose proof Hr as Hr0. apply (reports_grow _ q) in Hr; [| done].
  destruct first; [| by split]. split; cbn [web_queue set_web_queue report meanwhile reported]; try done.
  - apply Forall_app. split; [done |]. apply Forall_singleton. split; [done |]. exists work. done.
  - rewrite fmap_app. apply NoDup_app. split; [done |]. split; [| apply NoDup_singleton].
    intros i Hin' ->%list_elem_of_singleton. apply list_elem_of_fmap in Hin' as ([j d] & Ej & Hin'). cbn in Ej. subst j.
    destruct (proj1 (Forall_forall _ _) Hr0 (pw_index work, d) Hin') as [Hbad _]. unfold mark_done in E. injection E as _ E.
    by rewrite bool_decide_true in E.
Qed.

Lemma take_fetched_ok turn work failures data w : work ∈ pieces -> web_ok [pw_index work] w ->
  exists w' r, take_fetched sha1 cfg turn work failures data w = Some (w', r) /\ web_ok [] w'.
Proof using Hnd.
  intros Hin Hw. unfold take_fetched. destruct (_ && _); [eexists _, _; split; [done | by apply give_back_ok] |].
  destruct (PieceAssembler.matches _ _ _) eqn:Em; cbn [negb]; [| eexists _, _; split; [done | by apply give_back_ok]].
  unfold write_piece, write_at_global_offset.
  destruct (write_loop_total (length data) (spans cfg) (web_files w) (wrap 64 (pw_index work * piece_length cfg)) data (le_n _)) as [[fs r] Hwr].
  rewrite Hwr. cbn [mbind option_bind]. assert (web_ok [pw_index work] (set_web_files fs w)) as Hw1 by (by destruct Hw).
  destruct r as [[] | e]; [| eexists _, _; split; [done | by apply give_back_ok]].
  apply others_go_ok in Hw1. pose proof (finish_ok work data _ Hin Em Hw1) as Hf. destruct (mark_done _ _) as [q first].
  eexists _, _. split; [done | exact Hf].
Qed.

Lemma web_loop_ok turns : forall failures w, web_ok [] w -> exists w' e, web_loop sha1 cfg turns failures w = Some (w', e) /\ web_ok [] w'.
Proof using Hnd.
  induction turns as [| turn turns IH]; intros failures w Hw; [by eexists _, _ |]. cbn [web_loop].
  apply others_go_ok in Hw. destruct (pop (web_queue (others_go w))) as [[q popped] |] eqn:Ep.
  2: { unfold pop, take_for in Ep. destruct (take_work_outcome (web_queue (others_go w)) (fun _ => true) true) as (q' & t & Ht & _). by rewrite Ht in Ep. }
  cbn [mbind option_bind]. pose proof (pop_ok _ _ _ Hw Ep) as Hpop. destruct popped as [work |]; [| by eexists _, _].
  destruct Hpop as [Hin Hw1]. apply others_go_ok in Hw1. set (w1 := others_go (set_web_queue q (others_go w))) in *.
  destruct (is_done (web_queue w1) (pw_index work)) eqn:Ed.
  - apply IH. destruct Hw1 as [Hi Ho Hr Hn Hc]. split; try done. intros Ha. destruct (Hc Ha) as [-> Hcl]. split; [done |].
    intros i Hs. destruct (Hcl i Hs) as [| Hx]; [by left |]. apply list_elem_of_singleton in Hx as ->. destruct Hs as [v Hv].
    apply (part_claimed _ _ (proj1 Hi)) in Hv as (_ & _ & Hnot). unfold is_done in Ed. by apply bool_decide_eq_true in Ed.
  - destruct (stop_fetching turn); [eexists _, _; split; [done | by apply give_back_ok] |].
    assert (exists w' r, match fetch_piece (mirror turn) (targets cfg) (web_requests cfg (pw_index work)) with
              | Ok data => take_fetched sha1 cfg turn work failures data w1
              | Err _ => Some (give_back work w1, inr (failures + 1))
              end = Some (w', r) /\ web_ok [] w') as (w2 & r & -> & Hw2).
    { destruct (fetch_piece _ _ _); [by apply take_fetched_ok | eexists _, _; split; [done | by apply give_back_ok]]. }
    cbn [mbind option_bind]. destruct r as [end_ | n]; [by eexists _, _ |]. destruct (_ <=? _); [by eexists _, _ | by apply IH].
Qed.
End promises.

(** ** A healthy mirror is enough *)

(** A pass in which the mirror is as good as its contents and nobody stops. *)
Definition healthy (ts : list FileTarget) (cs : list (list Z)) (turn : Turn) : Prop :=
  laid (mirror turn) 0 ts cs /\ stop_fetching turn = false /\ stop_limited turn = false.

Lemma filter_keeps {A} (P : A -> Prop) `{forall x, Decision (P x)} (l : list A) : Forall P l -> filter P l = l.
Proof. induction 1 as [| x l Hx _ IH]; [done |]. rewrite filter_cons, decide_True by done. by rewrite IH. Qed.

Section healthy.
Context (sha1 : list Z -> list Z) (cfg : WebConfig) (pieces : list PieceWork) (Hnd : NoDup (indices pieces)).
Context (cs : list (list Z)).
Local Abbreviation data := (concat cs).
Local Abbreviation pl := (piece_length cfg).
Context (Hpl : 0 < pl) (Hmax : zlen data + pl < 2 ^ 64) (Htotal : total_length cfg = zlen data) (Hv1 : web_v2_pieces cfg = None).
Context (Hord : ordered 0 (spans cfg)) (Hpaths : distinct_paths (spans cfg)) (Hpad : fits_padding (spans cfg) 0 data).
Context (Hcov : forall g, 0 <= g < zlen data -> is_Some (span_at (spans cfg) g)).
Context (Hpieces : Forall (fun work => 0 <= pw_index work /\ pw_index work * pl < zlen data /\
  PieceAssembler.matches sha1 work (piece_of data pl (pw_index work)) = true) pieces).

Lemma pop_pending q : inv pieces q -> claimed q = ∅ -> pending q <> [] ->
  exists work rest, pop q = Some (mkWorkQueue rest {[pw_index work := work]} (done_ q) (partial q) (availability q) (order q) (preferred q), Some work) /\
    pending q ≡ₚ work :: rest.
Proof using Type.
  intros Hi Hc Hp. unfold pop, take_for. destruct (take_work_outcome q (fun _ => true) true) as (q' & t & -> & Hout). cbn [mbind option_bind].
  destruct Hout as [wk rest Hb Hperm | wk _ Hempty _ | Hno _ _ | Hempty _]; [| done | | done].
  - exists wk, rest. rewrite Hc, insert_empty. done.
  - exfalso. apply Hp. destruct (pending q) as [| x l]; [done |]. unfold offered in Hno. rewrite filter_cons in Hno. by destruct (decide _).
Qed.

(** Taking a piece and retiring it leaves the others pending. *)
Lemma retire_pending q work rest : inv pieces q -> claimed q = ∅ -> pending q ≡ₚ work :: rest -> work ∈ pieces ->
  let q' := (mark_done (mkWorkQueue rest {[pw_index work := work]} (done_ q) (partial q) (availability q) (order q) (preferred q)) (pw_index work)).1 in
  pending q' = rest /\ claimed q' = ∅ /\ pw_index work ∉ done_ q /\ done_ q' = {[pw_index work]} ∪ done_ q.
Proof using Type.
  intros [Hpart _] Hc Hperm Hin q'. cbn [q' mark_done fst pending claimed done_].
  assert (pw_index work ∉ done_ q) as Hnot by (apply (part_pending _ _ Hpart); rewrite Hperm; by left).
  split; [| by rewrite delete_singleton_eq]. apply filter_keeps, Forall_forall. intros v Hv Ev.
  pose proof (part_nodup _ _ Hpart) as Hn. unfold indices in Hn. rewrite Hperm in Hn. apply NoDup_cons in Hn as [Hn _].
  apply Hn. rewrite <- Ev. by apply list_elem_of_fmap_2.
Qed.
Lemma others_alone w : meanwhile w = [] -> others_go w = w.
Proof using Type. intros Hm. unfold others_go. by rewrite Hm. Qed.

(** One pass takes a piece from the mirror to the disk. *)
Lemma healthy_pass turn rest_turns failures w : healthy (targets cfg) cs turn -> meanwhile w = [] -> inv pieces (web_queue w) ->
  claimed (web_queue w) = ∅ -> pending (web_queue w) <> [] ->
  exists work rest w', web_loop sha1 cfg (turn :: rest_turns) failures w = web_loop sha1 cfg rest_turns 0 w' /\
    pending (web_queue w) ≡ₚ work :: rest /\ pending (web_queue w') = rest /\ claimed (web_queue w') = ∅ /\ inv pieces (web_queue w') /\
    meanwhile w' = [] /\ reported w' = reported w ++ [(pw_index work, piece_of data pl (pw_index work))] /\
    forall g, 0 <= g < zlen data -> (g / pl = pw_index work \/ byte_at (spans cfg) (web_files w) g = zget data g) ->
      byte_at (spans cfg) (web_files w') g = zget data g.
Proof using All.
  intros (Hlaid & Hs1 & Hs2) Hm Hi Hc Hp. destruct (pop_pending _ Hi Hc Hp) as (work & rest & Hpop & Hperm).
  assert (work ∈ pieces) as Hin by (apply (part_pending _ _ (proj1 Hi)); rewrite Hperm; by left).
  destruct (proj1 (Forall_forall _ _) Hpieces work Hin) as (H0 & Hlt & Hmatch).
  destruct (retire_pending _ _ _ Hi Hc Hperm Hin) as (Hpend & Hclaim & Hnot & Hdone).
  destruct (write_pieces_spec (spans cfg) 0 Hord (fun s t Hs Ht => distinct_paths_inj _ s t Hpaths Hs Ht) (web_files w) data pl [pw_index work])
    as (fs' & Hw & Hbytes); [done | lia | done | done | apply Forall_singleton; lia |].
  cbn [write_pieces] in Hw. apply bind_Some in Hw as ([fs1 r1] & Hw1 & Hw2). destruct r1 as [[] | e]; [| done]. injection Hw2 as ->.
  set (q1 := mkWorkQueue rest {[pw_index work := work]} (done_ (web_queue w)) (partial (web_queue w)) (availability (web_queue w)) (order (web_queue w)) (preferred (web_queue w))) in *.
  assert (inv pieces q1) as Hi1.
  { unfold pop, take_for in Hpop. destruct (take_work (web_queue w) (fun _ => true) true) as [[q t] |] eqn:Et; [| done].
    cbn [mbind option_bind] in Hpop. injection Hpop as -> _. by apply (step_inv pieces (web_queue w)); [| | eapply step_take]. }
  exists work, rest, (report (pw_index work) (piece_of data pl (pw_index work)) (set_web_queue (mark_done q1 (pw_index work)).1 (set_web_files fs' w))).
  split.
  - cbn [web_loop]. rewrite (others_alone w Hm), Hpop. cbn [mbind option_bind]. rewrite (others_alone (set_web_queue q1 w)) by done.
    unfold is_done. cbn [web_queue set_web_queue]. rewrite bool_decide_false by done. rewrite Hs1.
    unfold web_requests. rewrite Hv1, Htotal, fetch_piece_laid by (done || lia). unfold take_fetched. rewrite Hs2, andb_false_r, Hmatch. cbn [negb].
    cbn [web_files set_web_queue]. rewrite Hw1. cbn [mbind option_bind]. rewrite (others_alone (set_web_files fs' _)) by done.
    cbn [mark_done fst web_queue set_web_files set_web_queue done_ q1]. rewrite bool_decide_false by done. done.
  - split; [done |]. split; [done |]. split; [done |]. split; [| split; [done |]; split; [done |]].
    + by apply (step_inv pieces q1); [| | constructor].
    + intros g Hg [Hgi | Hb]; apply Hbytes; try done; [left; rewrite Hgi; by left | by right].
Qed.

Lemma healthy_loop turns : forall failures w, Forall (healthy (targets cfg) cs) turns -> meanwhile w = [] -> inv pieces (web_queue w) ->
  claimed (web_queue w) = ∅ -> (length (pending (web_queue w)) < length turns)%nat ->
  exists w', web_loop sha1 cfg turns failures w = Some (w', Drained) /\ pending (web_queue w') = [] /\ claimed (web_queue w') = ∅ /\ inv pieces (web_queue w') /\
    (exists works, works ≡ₚ pending (web_queue w) /\ reported w' = reported w ++ ((fun work => (pw_index work, piece_of data pl (pw_index work))) <$> works)) /\
    forall g, 0 <= g < zlen data -> (g / pl ∈ indices (pending (web_queue w)) \/ byte_at (spans cfg) (web_files w) g = zget data g) ->
      byte_at (spans cfg) (web_files w') g = zget data g.
Proof using All.
  induction turns as [| turn turns IH]; intros failures w Ht Hm Hi Hc Hlen; [cbn in Hlen; lia |].
  apply Forall_cons in Ht as [Ht Hts]. destruct (decide (pending (web_queue w) = [])) as [Hempty | Hp].
  - exists w. assert (web_loop sha1 cfg (turn :: turns) failures w = Some (w, Drained)) as ->.
    { cbn [web_loop]. rewrite (others_alone w Hm). unfold pop, take_for.
      assert (take_work (web_queue w) (fun _ => true) true = Some (web_queue w, Done)) as ->.
      { unfold take_work. rewrite Hempty, Hc. cbn. by rewrite map_to_list_empty. }
      cbn [mbind option_bind]. by destruct w. }
    rewrite Hempty. split; [done |]. split; [done |]. split; [done |]. split; [done |]. split; [exists []; by rewrite app_nil_r |].
    intros g Hg [Hx | Hb]; [by apply elem_of_nil in Hx | done].
  - destruct (healthy_pass turn turns failures w Ht Hm Hi Hc Hp) as (work & rest & w1 & -> & Hperm & Hp1 & Hc1 & Hi1 & Hm1 & Hr1 & Hb1).
    destruct (IH 0 w1 Hts Hm1 Hi1 Hc1) as (w' & Hw' & Hpe & Hce & Hie & (works & Hworks & Hrep) & Hb').
    { rewrite Hp1. apply Permutation_length in Hperm. rewrite Hperm in Hlen. cbn in Hlen. lia. }
    exists w'. do 4 (split; [done |]). split.
    + exists (work :: works). split; [| by rewrite Hrep, Hr1, <- app_assoc].
      transitivity (work :: rest); [apply Permutation_skip; by rewrite <- Hp1 | by symmetry].
    + intros g Hg Hcase. apply Hb'; [done |]. rewrite Hp1. destruct Hcase as [Hin | Hb].
      * assert (g / pl ∈ pw_index <$> work :: rest) as Hin' by (by rewrite <- Hperm). rewrite fmap_cons in Hin'. apply elem_of_cons in Hin' as [Hgi | Hin']; [right; apply Hb1; [done | by left] | by left].
      * right. apply Hb1; [done | by right].
Qed.
End healthy.

(** ** The torrent's own layout *)

Section layout.
Context (base_url name : list Z) (multi : bool) (base : Path) (pads : list bool) (m : Mirror).

(** What the mirror has of each file. *)
Definition mirrors (index : nat) (files : list (list (list Z) * Z)) (cs : list (list Z)) : Prop :=
  length cs = length files /\
  forall i parts len c, files !! i = Some (parts, len) -> cs !! i = Some c ->
    zlen c = len /\
    if default false (pads !! (index + i)%nat) then c = replicate (length c) 0
    else target_url base_url name parts multi <> [] /\ forall first last, 0 <= first <= last -> last < zlen c ->
      m (target_url base_url name parts multi) first last = Answered 206 (slice c first (last + 1)) false.

Lemma mirrors_cons index parts len files c cs : mirrors index ((parts, len) :: files) (c :: cs) ->
  zlen c = len /\ mirrors (S index) files cs /\ forall s e, serves m (mkFileTarget (target_url base_url name parts multi) s e (default false (pads !! index))) c.
Proof using Type.
  intros [Hl H]. destruct (H 0%nat parts len c eq_refl eq_refl) as [Hz Hs]. rewrite Nat.add_0_r in Hs. split; [done |]. split.
  - split; [by injection Hl |]. intros i p l d Hf Hd. replace (S index + i)%nat with (index + S i)%nat by lia. by apply (H (S i)).
  - intros s e. unfold serves. cbn [t_padding url]. exact Hs.
Qed.

Lemma targets_laid files : forall index cs cursor, mirrors index files cs -> 0 <= cursor -> cursor + zlen (concat cs) < 2 ^ 64 ->
  laid m cursor (mark_padding (targets_from base_url name files multi cursor) (spans_padded base files pads index cursor)) cs.
Proof using Type.
  induction files as [| [parts len] files IH]; intros index [| c cs] cursor Hm Hc Hmax; try (by destruct Hm as [[=] _]).
  apply mirrors_cons in Hm as (Hz & Hm & Hs). cbn [concat] in Hmax. rewrite zlen_app in Hmax.
  pose proof (zlen_nonneg c). pose proof (zlen_nonneg (concat cs)). cbn [targets_from spans_padded mark_padding laid url t_start t_end padding].
  assert (wrap 64 len = len) as -> by (apply Z.mod_small; lia). assert (wrap 64 (cursor + len) = cursor + len) as -> by (apply Z.mod_small; lia).
  rewrite <- Hz. split; [done |]. split; [done |]. split; [apply Hs |]. apply IH; [done | lia | lia].
Qed.

Lemma mirrors_padding files : forall index cs cursor g, mirrors index files cs -> 0 <= cursor -> cursor + zlen (concat cs) < 2 ^ 64 ->
  cursor <= g < cursor + zlen (concat cs) -> is_padding (spans_padded base files pads index cursor) g = true -> zget (concat cs) (g - cursor) = Some 0.
Proof using Type.
  induction files as [| [parts len] files IH]; intros index [| c cs] cursor g Hm Hc Hmax Hg; try (by destruct Hm as [[=] _]).
  apply mirrors_cons in Hm as (Hz & Hm & Hs). cbn [concat] in *. rewrite zlen_app in Hmax, Hg.
  pose proof (zlen_nonneg c). pose proof (zlen_nonneg (concat cs)). cbn [spans_padded].
  assert (wrap 64 len = len) as -> by (apply Z.mod_small; lia). assert (wrap 64 (cursor + len) = cursor + len) as -> by (apply Z.mod_small; lia).
  unfold is_padding. rewrite span_at_cons. cbn [end_ start padding]. rewrite <- Hz. destruct (Z.leb_spec (cursor + zlen c) g) as [Hge | Hlt].
  - intros Hp. rewrite zget_app, (proj2 (Z.ltb_ge _ _)) by lia. replace (g - cursor - zlen c) with (g - (cursor + zlen c)) by lia.
    apply (IH (S index)); [done | lia | lia | lia | exact Hp].
  - rewrite (proj2 (Z.leb_le _ _)) by lia. cbn [padding]. intros Hp. specialize (Hs 0 0). unfold serves in Hs. cbn [t_padding] in Hs. rewrite Hp in Hs.
    rewrite zget_app, (proj2 (Z.ltb_lt _ _)) by lia. rewrite Hs. rewrite zget_nat by lia. apply lookup_replicate_2. unfold zlen in *. lia.
Qed.

Lemma mirrors_files_ok files : forall index cs, mirrors index files cs ->
  Forall (fun f => 0 <= f.2) files /\ FileWriter.total_length files = zlen (concat cs).
Proof using Type.
  induction files as [| [parts len] files IH]; intros index [| c cs] Hm; try (by destruct Hm as [[=] _]).
  apply mirrors_cons in Hm as (Hz & Hm & _). destruct (IH _ _ Hm) as [Hf Ht]. cbn [concat FileWriter.total_length foldr snd]. rewrite zlen_app.
  fold (FileWriter.total_length files). pose proof (zlen_nonneg c). split; [constructor; [cbn; lia | done] | lia].
Qed.
End layout.


(** C2: a torrent with a healthy web seed downloads with no peers at all.  When
    a mirror has every file of a v1 torrent and answers ranges of them, the
    worker, given a pass for every piece and one more, drains the queue: every
    piece that was pending is fetched across whatever files it spans, checked,
    written and reported once, and all their bytes are on disk. *)
Theorem web_seed_suffices (sha1 : list Z -> list Z) (base_url name : list Z) (files : list (list (list Z) * Z)) (multi_file limited_ : bool)
    (base : Path) (pads : list bool) (pl : Z) (m : Mirror) (cs : list (list Z)) (turns : list Turn) (pieces : list PieceWork) (w : Web)
    (Hpl : 0 < pl) (Hmax : zlen (concat cs) + pl < 2 ^ 64) (Hmirror : mirrors base_url name multi_file pads m 0 files cs)
    (Hpaths : distinct_paths (build_file_spans_padded base files pads))
    (Hpieces : Forall (fun work => 0 <= pw_index work /\ pw_index work * pl < zlen (concat cs) /\
       PieceAssembler.matches sha1 work (piece_of (concat cs) pl (pw_index work)) = true) pieces)
    (Hnd : NoDup (indices pieces)) (Hinv : inv pieces (web_queue w)) (Hunclaimed : claimed (web_queue w) = ∅) (Halone : meanwhile w = [])
    (Hturns : Forall (fun t => mirror t = m /\ stop_fetching t = false /\ stop_limited t = false) turns)
    (Henough : (length (pending (web_queue w)) < length turns)%nat) :
  let spans_ := build_file_spans_padded base files pads in
  exists w', run_web_worker sha1 base_url name files multi_file limited_ spans_ pl (zlen (concat cs)) None turns w = Some (w', Drained) /\
    is_empty (web_queue w') = true /\
    (exists works, works ≡ₚ pending (web_queue w) /\ reported w' = reported w ++ ((fun work => (pw_index work, piece_of (concat cs) pl (pw_index work))) <$> works)) /\
    forall g, 0 <= g < zlen (concat cs) -> g / pl ∈ indices (pending (web_queue w)) -> byte_at spans_ (web_files w') g = zget (concat cs) g.
Proof.
  intros spans_. assert (files_ok files /\ FileWriter.total_length files = zlen (concat cs)) as [Hok Htotal].
  { destruct (mirrors_files_ok _ _ _ _ _ _ _ _ Hmirror) as [Hf Ht]. split; [split; [done | lia] | done]. }
  unfold run_web_worker. set (cfg := mkWebConfig _ _ _ _ _ _).
  assert (laid m 0 (targets cfg) cs) as Hlaid by (apply targets_laid; [done | lia | lia]).
  destruct (healthy_loop sha1 cfg pieces Hnd cs) with (turns := turns) (failures := 0) (w := w) as (w' & Hw' & Hpe & Hce & _ & Hrep & Hb); try done.
  - by apply built_ordered.
  - intros i Hi Hp. assert (zget (concat cs) (i - 0) = Some 0) as Hz; [| by rewrite Z.sub_0_r in Hz].
    apply (mirrors_padding base_url name multi_file base pads m files 0 cs 0); [done | lia | lia | lia | exact Hp].
  - intros g Hg. apply built_covers; [done | lia].
  - apply (Forall_impl _ _ _ Hturns). intros t (Em & H1 & H2). split; [by rewrite Em | done].
  - exists w'. split; [done |]. split; [unfold is_empty; by rewrite Hpe, Hce |]. split; [done |]. intros g Hg Hin. apply Hb; [done | by left].
Qed.

(** ** The theorems at concrete inputs *)

(** Two files and a padding file between them, in pieces of three bytes. *)
Definition web_files_ : list (list (list Z) * Z) := [([[97]], 4); ([[112]], 2); ([[98]], 2)].
Definition web_contents : list (list Z) := [[1; 2; 3; 4]; [0; 0]; [5; 6]].
Definition web_pads : list bool := [false; true; false].
Definition toy_hash (data : list Z) : list Z := [foldr Z.add 0 data].
Definition web_pieces : list PieceWork := [mkPieceWork 0 [6] 3 None; mkPieceWork 1 [4] 3 None; mkPieceWork 2 [11] 2 None].

Definition good_mirror : Mirror := fun u first last =>
  if bool_decide (u = str "http://m/t/a") then Answered 206 (slice [1; 2; 3; 4] first (last + 1)) false
  else if bool_decide (u = str "http://m/t/b") then Answered 206 (slice [5; 6] first (last + 1)) false
  else CallFailed.

Definition web_start : Web := mkWeb (new web_pieces 3) ∅ [] [].

Lemma web_start_inv : inv web_pieces (web_queue web_start).
Proof. apply (reachable_inv web_pieces 3 RarestFirst ∅); [by apply (bool_decide_unpack _) | apply rtc_refl]. Qed.


Lemma web_mirrored : mirrors (str "http://m") (str "t") true web_pads good_mirror 0 web_files_ web_contents.
Proof.
  split; [done |]. intros [| [| [| i]]] parts len c Hf Hc; cbn in Hf, Hc; simplify_eq; (split; [done |]); cbn [default web_pads lookup list_lookup Nat.add];
    done || (split; [done |]; intros first last _ _; done).
Qed.

Lemma web_seed_suffices_witness :
  exists w', run_web_worker toy_hash (str "http://m") (str "t") web_files_ true false (build_file_spans_padded [] web_files_ web_pads) 3 (zlen (concat web_contents)) None
      (replicate 4 (mkTurn good_mirror false false)) web_start = Some (w', Drained) /\ is_empty (web_queue w') = true.
Proof.
  destruct (web_seed_suffices toy_hash (str "http://m") (str "t") web_files_ true false [] web_pads 3 good_mirror web_contents
      (replicate 4 (mkTurn good_mirror false false)) web_pieces web_start) as (w' & H1 & H2 & _).
  - lia.
  - reflexivity.
  - exact web_mirrored.
  - by apply (bool_decide_unpack _).
  - repeat constructor; vm_compute; done.
  - by apply (bool_decide_unpack _).
  - exact web_start_inv.
  - reflexivity.
  - reflexivity.
  - repeat constructor.
  - cbn. lia.
  - exists w'. split; [exact H1 | exact H2].
Defined.
