(* ===== verification/Announce.v ===== *)
(** * Announcing to a torrent's trackers

    Models [src/src/tracker_discovery.rs] and [src/src/session/announce.rs]:
    asking every tracker at once and merging what they say
    ([announce_to_all_within]), asking them tier by tier as BEP 12 has it
    ([walk_tiers]), and the schedule and bookkeeping of a session's announces
    ([Announcer]).

    Times and durations are nanoseconds.  What the trackers answer is an
    argument: for the concurrent announce the replies in the order in which
    they arrive before the deadline, for the announcer what each call of its
    client comes to.  What is logged is left out. *)

From stdpp Require Import gmap.
From S2P Require Import Prelude Str Text Net Tracker.

Definition secs (n : Z) : Z := n * 10 ^ 9.

(** ** All at once *)

Record TrackerAttempt : Type := mkTrackerAttempt {
  at_url : list Z;
  at_error : list Z
}.

(** What a tracker's thread does with its URL. *)
Inductive Scheme : Type :=
| ByUdp (host_port : list Z)
| ByHttp (url : list Z)
| Unsupported.

Definition scheme_for (url : list Z) : Scheme :=
  match strip_prefix (str "udp://") url with
  | Some host_port => ByUdp (default host_port (head (split_on 47 host_port)))
  | None => if starts_with (str "https://") url || starts_with (str "http://") url then ByHttp url else Unsupported
  end.

Section concurrent.
(** The announces of [Tracker], with their errors as text. *)
Context (udp_ http_ : list Z -> result AnnounceResponse (list Z)).

Definition tracker_thread (url : list Z) : result AnnounceResponse (list Z) :=
  match scheme_for url with
  | ByUdp host_port => udp_ host_port
  | ByHttp url => http_ url
  | Unsupported => Err (str "unsupported tracker scheme: " ++ url)
  end.
End concurrent.

(** What a round comes to: the peers, the trackers that failed, the interval. *)
Record Round : Type := mkRound {
  r_peers : gset SocketAddr;
  r_failures : list TrackerAttempt;
  r_interval : option Z
}.

(** What is collected in the loop. *)
Record Collected : Type := mkCollected {
  c_peers : gset SocketAddr;
  c_failures : list TrackerAttempt;
  c_interval : option Z;
  answered : gset (list Z)
}.

Definition collect_reply (c : Collected) (url : list Z) (r : result AnnounceResponse (list Z)) : Collected :=
  let seen := {[url]} ∪ answered c in
  match r with
  | Ok resp =>
      let wait := default (interval resp) (min_interval resp) in
      mkCollected (list_to_set (peers resp) ∪ c_peers c) (c_failures c)
        (Some (match c_interval c with Some cur => Z.max cur wait | None => wait end)) seen
  | Err e => mkCollected (c_peers c) (c_failures c ++ [mkTrackerAttempt url e]) (c_interval c) seen
  end.

(** Until as many have answered as there are URLs, or nothing more arrives. *)
Fixpoint collect_replies (urls : nat) (replies : list (list Z * result AnnounceResponse (list Z))) (c : Collected) : Collected :=
  match replies with
  | [] => c
  | (url, r) :: rest => if (size (answered c) <? urls)%nat then collect_replies urls rest (collect_reply c url r) else c
  end.

(** [describe] names the deadline in the error. *)
Definition announce_to_all_within (urls : list (list Z)) (no_response : list Z) (replies : list (list Z * result AnnounceResponse (list Z))) : Round :=
  let c := collect_replies (length urls) replies (mkCollected ∅ [] None ∅) in
  mkRound (c_peers c)
    (c_failures c ++ ((fun url => mkTrackerAttempt url no_response) <$> filter (fun url => url ∉ answered c) urls))
    (c_interval c).

(** ** Tier by tier *)

Inductive TrackerMode : Type := Tiered | Concurrent.

Definition parse_mode (text : list Z) : option TrackerMode :=
  if bool_decide (text = str "tiered") then Some Tiered
  else if bool_decide (text = str "concurrent") then Some Concurrent
  else None.

Definition TIERED_TRACKER_DEADLINE : Z := secs 8.

(** [ask n url] is what the [n]-th call of [ask] comes to. *)
Section walk.
Context {T : Type} (ask : nat -> list Z -> result T (list Z)).

(** One tier, from the trackers [before] already asked: the answer and the tier
    with its tracker in front, or nothing. *)
Fixpoint walk_tier (n : nat) (before after : list (list Z)) (failures : list TrackerAttempt) :
    option (list Z * T * list (list Z)) * list TrackerAttempt :=
  match after with
  | [] => (None, failures)
  | url :: after' =>
      match ask n url with
      | Ok answer => (Some (url, answer, url :: before ++ after'), failures)
      | Err e => walk_tier (S n) (before ++ [url]) after' (failures ++ [mkTrackerAttempt url e])
      end
  end.

Fixpoint walk_tiers (n : nat) (tiers : list (list (list Z))) (failures : list TrackerAttempt) :
    list (list (list Z)) * option (list Z * T) * list TrackerAttempt :=
  match tiers with
  | [] => ([], None, failures)
  | tier :: tiers' =>
      match walk_tier n [] tier failures with
      | (Some (url, answer, tier'), failures) => (tier' :: tiers', Some (url, answer), failures)
      | (None, failures) =>
          let '(rest, found, failures) := walk_tiers (n + length tier) tiers' failures in
          (tier :: rest, found, failures)
      end
  end.
End walk.

(** [tier.swap(i, random % (i + 1))] from the last place down; the words drawn
    are an argument, and without one the rest is left as it is. *)
Definition swap {A} (l : list A) (i j : nat) : list A :=
  match l !! i, l !! j with
  | Some x, Some y => <[i := y]> (<[j := x]> l)
  | _, _ => l
  end.

Fixpoint shuffle_tier {A} (i : nat) (draws : list Z) (tier : list A) : list A * option (list Z) :=
  match i with
  | O => (tier, Some draws)
  | S i' =>
      match draws with
      | [] => (tier, None)
      | d :: draws' => shuffle_tier i' draws' (swap tier i (Z.to_nat (d mod Z.of_nat (S i))))
      end
  end.

Fixpoint shuffled {A} (tiers : list (list A)) (draws : list Z) : list (list A) :=
  match tiers with
  | [] => []
  | tier :: tiers' =>
      match shuffle_tier (length tier - 1) draws tier with
      | (tier', Some draws') => tier' :: shuffled tiers' draws'
      | (tier', None) => tier' :: tiers'
      end
  end.

(** ** The schedule *)

Record TransferTotals : Type := mkTransferTotals {
  tt_uploaded : Z;
  tt_downloaded : Z;
  tt_left : Z
}.

Definition build_request (info_hash peer_id : list Z) (port : Z) (totals : TransferTotals) (ev : option Event) : AnnounceRequest :=
  mkAnnounceRequest info_hash peer_id port (tt_uploaded totals) (tt_downloaded totals) (tt_left totals) true ev (Some 50).

Definition MIN_REANNOUNCE : Z := secs 30.
Definition DEFAULT_REANNOUNCE : Z := secs 120.

Record Announcer : Type := mkAnnouncer {
  tiers : list (list (list Z));
  mode : TrackerMode;
  active : option (list Z);
  a_info_hash : list Z;
  a_peer_id : list Z;
  a_port : Z;
  fixed_interval : option Z;
  floor : Z;
  wait : Z;
  last_at : Z;
  trackers_ok : Z
}.

Definition with_client_tiers (ts : list (list (list Z))) (m : TrackerMode) (hash id : list Z) (port : Z) (fixed : option Z) (now : Z) : Announcer :=
  mkAnnouncer (filter (fun tier => tier <> []) ts) m None hash id port fixed MIN_REANNOUNCE
    (match fixed with Some d => Z.max d MIN_REANNOUNCE | None => DEFAULT_REANNOUNCE end) now 0.

Definition with_client (urls : list (list Z)) (hash id : list Z) (port : Z) (fixed : option Z) (now : Z) : Announcer :=
  with_client_tiers (match urls with [] => [] | _ => [urls] end) Concurrent hash id port fixed now.

Definition has_trackers (a : Announcer) : bool := negb (bool_decide (tiers a = [])).

(** Each URL where it is first. *)
Fixpoint first_of_each (seen : gset (list Z)) (urls : list (list Z)) : list (list Z) :=
  match urls with
  | [] => []
  | u :: urls' => if bool_decide (u ∈ seen) then first_of_each seen urls' else u :: first_of_each ({[u]} ∪ seen) urls'
  end.

Definition all_urls (a : Announcer) : list (list Z) := first_of_each ∅ (concat (tiers a)).

Definition tracker_count (a : Announcer) : Z := zlen (all_urls a).

Definition to_tell (a : Announcer) : list (list Z) :=
  match mode a, active a with
  | Concurrent, _ => all_urls a
  | Tiered, Some url => [url]
  | Tiered, None => []
  end.

Definition is_due (a : Announcer) (now : Z) (starved : bool) : bool :=
  (if starved then floor a else wait a) <=? Z.max 0 (now - last_at a).

Definition restart_clock (a : Announcer) (now : Z) : Announcer :=
  mkAnnouncer (tiers a) (mode a) (active a) (a_info_hash a) (a_peer_id a) (a_port a) (fixed_interval a) (floor a) (wait a) now (trackers_ok a).

(** A call of the client: the trackers, the request, and the deadline of an
    announce that has one. *)
Record Call : Type := mkCall {
  call_urls : list (list Z);
  call_req : AnnounceRequest;
  call_deadline : option Z
}.

(** What the client's [n]-th call comes to. *)
Abbreviation Client := (nat -> Call -> Round).

(** The calls [walk_tiers] makes: one per tracker asked. *)
Definition tier_calls (req : AnnounceRequest) (asked : list (list Z)) : list Call :=
  (fun url => mkCall [url] req (Some TIERED_TRACKER_DEADLINE)) <$> asked.

Definition ask_one (client : Client) (req : AnnounceRequest) (n : nat) (url : list Z) : result (gset SocketAddr * option Z) (list Z) :=
  let r := client n (mkCall [url] req (Some TIERED_TRACKER_DEADLINE)) in
  match r_failures r with
  | f :: _ => Err (at_error f)
  | [] => Ok (r_peers r, r_interval r)
  end.

(** [round]: the announcer after, the peers found, and the calls made. *)
Definition round (client : Client) (a : Announcer) (now : Z) (totals : TransferTotals) (ev : option Event) : Announcer * gset SocketAddr * list Call :=
  let a := restart_clock a now in
  match tiers a with
  | [] => (a, ∅, [])
  | _ =>
      let req := build_request (a_info_hash a) (a_peer_id a) (a_port a) totals ev in
      let '(ts, act, ok_, found, interval_, calls) :=
        match mode a with
        | Concurrent =>
            let call := mkCall (all_urls a) req None in
            let r := client 0%nat call in
            (tiers a, active a, Z.max 0 (tracker_count a - zlen (r_failures r)), r_peers r, r_interval r, [call])
        | Tiered =>
            let '(ts, found, failures) := walk_tiers (ask_one client req) 0 (tiers a) [] in
            let asked := (at_url <$> failures) ++ match found with Some (url, _) => [url] | None => [] end in
            (ts, fst <$> found, match found with Some _ => 1 | None => 0 end,
             match found with Some (_, (ps, _)) => ps | None => ∅ end, match found with Some (_, (_, i)) => i | None => None end, tier_calls req asked)
        end in
      let wait_ := match fixed_interval a, interval_ with None, Some s => Z.max (secs s) (floor a) | _, _ => wait a end in
      (mkAnnouncer ts (mode a) act (a_info_hash a) (a_peer_id a) (a_port a) (fixed_interval a) (floor a) wait_ now ok_, found, calls)
  end.

Definition start_announce (client : Client) (a : Announcer) (now : Z) (totals : TransferTotals) : Announcer * gset SocketAddr * list Call :=
  round client a now totals (Some Started).

Definition reannounce (client : Client) (a : Announcer) (now : Z) (totals : TransferTotals) : Announcer * gset SocketAddr * list Call :=
  round client a now totals None.

(** [completed] and [stopped]: who is told, if anyone is. *)
Definition completed (a : Announcer) (now : Z) (totals : TransferTotals) : Announcer * list Call :=
  (restart_clock a now,
   match to_tell a with
   | [] => []
   | urls => [mkCall urls (build_request (a_info_hash a) (a_peer_id a) (a_port a) totals (Some Completed)) None]
   end).

Definition stopped (a : Announcer) (totals : TransferTotals) (deadline : Z) : list Call :=
  match to_tell a with
  | [] => []
  | urls => [mkCall urls (build_request (a_info_hash a) (a_peer_id a) (a_port a) totals (Some Stopped)) (Some deadline)]
  end.

(** ** The walk *)

Section walked.
Context {T : Type} (ask : nat -> list Z -> result T (list Z)).

(** The failures are what the trackers asked so far said. *)
Definition failed_as_asked (failures : list TrackerAttempt) : Prop :=
  forall i f, failures !! i = Some f -> ask i (at_url f) = Err (at_error f).

Lemma failed_snoc failures url e : failed_as_asked failures -> ask (length failures) url = Err e ->
  failed_as_asked (failures ++ [mkTrackerAttempt url e]).
Proof using Type.
  intros Hf He i f Hi. apply lookup_app_Some in Hi as [Hi | [Hge Hi]]; [by apply Hf |].
  apply list_lookup_singleton_Some in Hi as [Hi <-]. by replace i with (length failures) by lia.
Qed.

Lemma walk_tier_spec after : forall before failures, failed_as_asked failures ->
  let '(found, failures') := walk_tier ask (length failures) before after failures in
  failed_as_asked failures' /\
  match found with
  | None => at_url <$> failures' = (at_url <$> failures) ++ after
  | Some (url, ans, tier') => exists pre post, after = pre ++ url :: post /\ tier' = url :: before ++ pre ++ post /\
      at_url <$> failures' = (at_url <$> failures) ++ pre /\ ask (length failures') url = Ok ans
  end.
Proof using Type.
  induction after as [| url after IH]; intros before failures Hf; cbn [walk_tier]; [by rewrite app_nil_r |].
  destruct (ask (length failures) url) as [ans | e] eqn:E.
  - split; [done |]. exists [], after. rewrite app_nil_r. done.
  - specialize (IH (before ++ [url]) (failures ++ [mkTrackerAttempt url e]) (failed_snoc _ _ _ Hf E)).
    rewrite length_app, Nat.add_1_r in IH. destruct (walk_tier _ _ _ _ _) as [[[[u ans] tier'] |] failures'].
    + destruct IH as (Hf' & pre & post & -> & -> & Hu & Ha). split; [done |]. exists (url :: pre), post.
      rewrite Hu, fmap_app, <- !app_assoc. done.
    + destruct IH as (Hf' & Hu). split; [done |]. by rewrite Hu, fmap_app, <- app_assoc.
Qed.

Lemma walk_tiers_spec ts : forall failures, failed_as_asked failures ->
  let '(ts', found, failures') := walk_tiers ask (length failures) ts failures in
  failed_as_asked failures' /\
  match found with
  | None => ts' = ts /\ at_url <$> failures' = (at_url <$> failures) ++ concat ts
  | Some (url, ans) => exists ts1 before after ts2,
      ts = ts1 ++ (before ++ url :: after) :: ts2 /\ ts' = ts1 ++ (url :: before ++ after) :: ts2 /\
      at_url <$> failures' = (at_url <$> failures) ++ concat ts1 ++ before /\ ask (length failures') url = Ok ans
  end.
Proof using Type.
  induction ts as [| tier ts IH]; intros failures Hf; cbn [walk_tiers]; [by rewrite app_nil_r |].
  pose proof (walk_tier_spec tier [] failures Hf) as Ht. destruct (walk_tier _ _ _ _ _) as [[[[u ans] tier'] |] failures'].
  - destruct Ht as (Hf' & pre & post & -> & -> & Hu & Ha). split; [done |]. by exists [], pre, post, ts.
  - destruct Ht as (Hf' & Hu). specialize (IH failures' Hf').
    assert (length failures' = (length failures + length tier)%nat) as Hlen.
    { apply (f_equal length) in Hu. rewrite length_app, !length_fmap in Hu. done. }
    rewrite <- Hlen. destruct (walk_tiers _ _ _ _) as [[ts' found] failures'']. destruct IH as (Hf'' & IH). split; [done |].
    destruct found as [[u ans] |].
    + destruct IH as (ts1 & before & after & ts2 & -> & -> & Hu' & Ha). exists (tier :: ts1), before, after, ts2.
      split; [done |]. split; [done |]. split; [| done]. cbn [concat]. by rewrite Hu', Hu, <- !app_assoc.
    + destruct IH as (-> & Hu'). split; [done |]. cbn [concat]. by rewrite Hu', Hu, <- app_assoc.
Qed.
End walked.

(** ** The announcer *)

(** What a session does with its announcer. *)
Inductive Op : Type :=
| OpStart (client : Client) (now : Z) (totals : TransferTotals)
| OpReannounce (client : Client) (now : Z) (totals : TransferTotals)
| OpCompleted (now : Z) (totals : TransferTotals)
| OpStopped (totals : TransferTotals) (deadline : Z)
| OpRestartClock (now : Z).

Definition apply_op (a : Announcer) (op : Op) : Announcer * list Call :=
  match op with
  | OpStart client now totals => let '(a, _, calls) := start_announce client a now totals in (a, calls)
  | OpReannounce client now totals => let '(a, _, calls) := reannounce client a now totals in (a, calls)
  | OpCompleted now totals => completed a now totals
  | OpStopped totals deadline => (a, stopped a totals deadline)
  | OpRestartClock now => (restart_clock a now, [])
  end.

Fixpoint run_ops (a : Announcer) (ops : list Op) : Announcer * list Call :=
  match ops with
  | [] => (a, [])
  | op :: rest => let '(a, calls) := apply_op a op in let '(a, more) := run_ops a rest in (a, calls ++ more)
  end.

Section keeps.
Context (ts0 : list (list (list Z))) (hash : list Z) (fixed : option Z).

(** The torrent's trackers, tier by tier, in some order; the one being told was
    one of them; and no wait is under the floor. *)
Record announcer_ok (a : Announcer) : Prop := {
  an_tiers : Forall2 Permutation ts0 (tiers a);
  an_active : forall url, active a = Some url -> url ∈ concat ts0;
  an_hash : a_info_hash a = hash;
  an_floor : floor a = MIN_REANNOUNCE;
  an_fixed : fixed_interval a = fixed;
  an_wait : MIN_REANNOUNCE <= wait a /\ forall d, fixed = Some d -> wait a = Z.max d MIN_REANNOUNCE
}.

Definition call_ok (c : Call) : Prop := call_urls c <> [] /\ (forall url, url ∈ call_urls c -> url ∈ concat ts0) /\ info_hash (call_req c) = hash.

Lemma elem_concat_perm (ts ts' : list (list (list Z))) url : Forall2 Permutation ts ts' -> url ∈ concat ts <-> url ∈ concat ts'.
Proof using Type. intros H. induction H as [| t t' ts ts' Ht _ IH]; [done |]. cbn [concat]. rewrite !elem_of_app, IH, Ht. done. Qed.

Lemma elem_first_of_each urls : forall seen url, url ∈ first_of_each seen urls -> url ∈ urls.
Proof using Type.
  induction urls as [| u urls IH]; intros seen url H; [done |]. cbn [first_of_each] in H. case_bool_decide; [right; by eapply IH |].
  apply elem_of_cons in H as [-> | H]; [by left | right; by eapply IH].
Qed.

Lemma first_of_each_nil urls : first_of_each ∅ urls = [] -> urls = [].
Proof using Type. destruct urls; [done |]. cbn [first_of_each]. by rewrite bool_decide_false. Qed.

Lemma all_urls_ok a url : announcer_ok a -> url ∈ all_urls a -> url ∈ concat ts0.
Proof using Type. intros Ha H. apply elem_first_of_each in H. by apply (elem_concat_perm _ _ _ (an_tiers _ Ha)). Qed.

Lemma to_tell_ok a url : announcer_ok a -> url ∈ to_tell a -> url ∈ concat ts0.
Proof using Type.
  intros Ha H. unfold to_tell in H. destruct (mode a); [| by apply (all_urls_ok a)].
  destruct (active a) eqn:E; [| by apply elem_of_nil in H]. apply list_elem_of_singleton in H as ->. by apply (an_active _ Ha).
Qed.

Lemma restart_ok a now : announcer_ok a -> announcer_ok (restart_clock a now).
Proof using Type. by intros []. Qed.

Lemma perm_each (ts : list (list (list Z))) : Forall2 Permutation ts ts.
Proof using Type. by induction ts; constructor. Qed.

Lemma perm_each_trans (ts1 ts2 ts3 : list (list (list Z))) : Forall2 Permutation ts1 ts2 -> Forall2 Permutation ts2 ts3 -> Forall2 Permutation ts1 ts3.
Proof using Type.
  intros H. revert ts3. induction H as [| a b ts1 ts2 Hab _ IH]; intros ts3 H3; inversion H3; subst; constructor; [by transitivity b | by apply IH].
Qed.

Lemma moved_to_front (ts1 ts2 : list (list (list Z))) before url after :
  Forall2 Permutation (ts1 ++ (before ++ url :: after) :: ts2) (ts1 ++ (url :: before ++ after) :: ts2).
Proof using Type.
  apply Forall2_app; [apply perm_each |]. constructor; [by rewrite Permutation_middle |].
  apply perm_each.
Qed.

Lemma round_ok (Hne : Forall (fun tier => tier <> []) ts0) client a now totals ev : announcer_ok a ->
  let '(a', _, calls) := round client a now totals ev in announcer_ok a' /\ Forall call_ok calls.
Proof using Type.
  intros Ha. unfold round. apply (restart_ok a now) in Ha. set (a1 := restart_clock a now) in *.
  destruct (tiers a1) as [| t0 rest] eqn:Et; [by split |]. rewrite <- Et. set (req := build_request _ _ _ _ _).
  assert (info_hash req = hash) as Hreq by apply Ha.
  assert (forall ok_ act i ts, Forall2 Permutation ts0 ts -> (forall url, act = Some url -> url ∈ concat ts0) ->
    announcer_ok (mkAnnouncer ts (mode a1) act (a_info_hash a1) (a_peer_id a1) (a_port a1) (fixed_interval a1) (floor a1)
      (match fixed_interval a1, i with None, Some s => Z.max (secs s) (floor a1) | _, _ => wait a1 end) now ok_)) as Hmk.
  { intros ok_ act i ts Hts Hact. destruct Ha as [? ? ? Hfl Hfx [Hw1 Hw2]]. split; try done. change (wait (mkAnnouncer ?a ?b ?c ?d ?e ?f ?g ?h ?i ?j ?k)) with i. rewrite Hfl, Hfx.
    destruct fixed, i; try done. split; [lia | done]. }
  destruct (mode a1) eqn:Em.
  - pose proof (walk_tiers_spec (ask_one client req) (tiers a1) []) as Hw. cbn [length fmap list_fmap app] in Hw.
    destruct (walk_tiers _ _ _ _) as [[ts' found] failures]. destruct Hw as (_ & Hw); [intros i f Hi; by rewrite lookup_nil in Hi |].
    assert (Forall2 Permutation (tiers a1) ts' /\ forall url, url ∈ ((at_url <$> failures) ++ match found with Some (url, _) => [url] | None => [] end) -> url ∈ concat (tiers a1)) as [Hp Hin].
    { destruct found as [[u ans] |].
      - destruct Hw as (ts1 & before & after & ts2 & Ets & -> & -> & _). rewrite Ets. split; [apply moved_to_front |].
        intros url. rewrite concat_app. cbn [concat]. set_solver.
      - destruct Hw as (-> & ->). split; [apply perm_each |]. intros url. by rewrite app_nil_r. }
    assert (Forall2 Permutation ts0 ts') as Hp' by (by apply (perm_each_trans _ (tiers a1)); [apply Ha |]).
    assert (forall url, url ∈ concat (tiers a1) -> url ∈ concat ts0) as Hback by (intros url; by apply (elem_concat_perm _ _ _ (an_tiers _ Ha))).
    split.
    + apply Hmk; [done |]. intros url Hu. destruct found as [[u ans] |]; [| done]. injection Hu as ->. apply Hback, Hin, elem_of_app. right. by left.
    + apply Forall_fmap, Forall_forall. intros url Hu. split; [done |]. split; [| done]. intros v ->%list_elem_of_singleton. by apply Hback, Hin.
  - split; [apply Hmk; [apply Ha | intros url; apply (an_active _ Ha)] |]. apply Forall_singleton. split; [| split; [| done]].
    + cbn [call_urls]. intros E. apply first_of_each_nil in E. pose proof (an_tiers _ Ha) as Hts. rewrite Et in Hts, E.
      apply Forall2_cons_inv_r in Hts as (t & l & Hperm & _ & E0). rewrite E0 in Hne. apply Forall_cons in Hne as [Hne _].
      cbn [concat] in E. apply app_eq_nil in E as [-> _]. by apply Permutation_nil_r in Hperm.
    + intros url. by apply all_urls_ok.
Qed.
End keeps.

(** Announcing as BEP 12 has it.  The trackers are asked in the order of the
    tiers and of each tier, each at most once a round, until one answers; that
    one, and no other, is moved to the front of its own tier; and what is
    returned is its answer and the failures of exactly those asked before it. *)
Theorem tiers_walked {T} (ask : nat -> list Z -> result T (list Z)) (ts : list (list (list Z))) :
  let '(ts', found, failures) := walk_tiers ask 0 ts [] in
  (forall i f, failures !! i = Some f -> ask i (at_url f) = Err (at_error f)) /\
  match found with
  | None => ts' = ts /\ at_url <$> failures = concat ts
  | Some (url, ans) => exists ts1 before after ts2,
      ts = ts1 ++ (before ++ url :: after) :: ts2 /\ ts' = ts1 ++ (url :: before ++ after) :: ts2 /\
      at_url <$> failures = concat ts1 ++ before /\ ask (length failures) url = Ok ans
  end.
Proof.
  pose proof (walk_tiers_spec ask ts []) as H. cbn [length] in H. destruct (walk_tiers ask 0 ts []) as [[ts' found] failures].
  apply H. intros i f Hi. by rewrite lookup_nil in Hi.
Qed.

Lemma run_ops_ok ts0 hash fixed (Hne : Forall (fun tier => tier <> []) ts0) ops : forall a, announcer_ok ts0 hash fixed a ->
  let '(a', calls) := run_ops a ops in announcer_ok ts0 hash fixed a' /\ Forall (call_ok ts0 hash) calls.
Proof.
  assert (forall a req dl, announcer_ok ts0 hash fixed a -> info_hash req = hash ->
    Forall (call_ok ts0 hash) (match to_tell a with [] => [] | urls => [mkCall urls req dl] end)) as Htell.
  { intros a req dl Ha Hr. destruct (to_tell a) as [| u us] eqn:E; [done |]. apply Forall_singleton. split; [done |]. split; [| done].
    intros url Hu. apply (to_tell_ok ts0 hash fixed a); [done | by rewrite E]. }
  induction ops as [| op ops IH]; intros a Ha; cbn [run_ops]; [by split |].
  assert (let '(a', calls) := apply_op a op in announcer_ok ts0 hash fixed a' /\ Forall (call_ok ts0 hash) calls) as Hop.
  { destruct op as [client now totals | client now totals | now totals | totals deadline | now]; cbn [apply_op].
    - unfold start_announce. pose proof (round_ok ts0 hash fixed Hne client a now totals (Some Started) Ha) as H. destruct (round _ _ _ _ _) as [[a' ps] calls]. exact H.
    - unfold reannounce. pose proof (round_ok ts0 hash fixed Hne client a now totals None Ha) as H. destruct (round _ _ _ _ _) as [[a' ps] calls]. exact H.
    - split; [by apply restart_ok |]. apply Htell; [done | apply Ha].
    - split; [done |]. apply Htell; [done | apply Ha].
    - split; [by apply restart_ok | done]. }
  destruct (apply_op a op) as [a1 calls1]. destruct Hop as [Ha1 Hc1]. specialize (IH a1 Ha1). destruct (run_ops a1 ops) as [a2 calls2].
  destruct IH as [Ha2 Hc2]. split; [done |]. by apply Forall_app.
Qed.


(** ** All trackers are accounted for *)

Definition collect_all (replies : list (list Z * result AnnounceResponse (list Z))) (c : Collected) : Collected :=
  fold_left (fun c e => collect_reply c e.1 e.2) replies c.

Lemma answered_reply c url r : answered (collect_reply c url r) = {[url]} ∪ answered c.
Proof. by destruct r. Qed.

Lemma collect_every n replies : forall c, NoDup replies.*1 -> (forall url, url ∈ replies.*1 -> url ∉ answered c) ->
  (size (answered c) + length replies <= n)%nat -> collect_replies n replies c = collect_all replies c.
Proof.
  induction replies as [| [url r] replies IH]; intros c Hnd Hnew Hn; [done |]. cbn [collect_replies]. cbn in Hn.
  rewrite (proj2 (Nat.ltb_lt _ _)) by lia. cbn [fmap list_fmap fst] in Hnd. apply NoDup_cons in Hnd as [Hnot Hnd]. apply IH; [done | |].
  - intros u Hu. rewrite answered_reply. intros [->%elem_of_singleton | Hin]%elem_of_union; [done |]. apply (Hnew u); [by right | done].
  - rewrite answered_reply, size_union by (apply disjoint_singleton_l; apply Hnew; by left). rewrite size_singleton. lia.
Qed.

Lemma NoDup_fst_unique {A B} (l : list (A * B)) a b b' : NoDup l.*1 -> (a, b) ∈ l -> (a, b') ∈ l -> b = b'.
Proof.
  induction l as [| [x y] l IH]; intros Hnd H1 H2; [by apply elem_of_nil in H1 |]. cbn [fmap list_fmap fst] in Hnd. apply NoDup_cons in Hnd as [Hn Hnd].
  apply elem_of_cons in H1 as [H1 | H1], H2 as [H2 | H2]; simplify_eq; [done | | | by apply IH]; exfalso; apply Hn;
    by apply (list_elem_of_fmap_2 fst) in H1 || by apply (list_elem_of_fmap_2 fst) in H2.
Qed.

Definition asked_wait (resp : AnnounceResponse) : Z := default (interval resp) (min_interval resp).

Lemma collect_interval replies : forall c,
  (forall v, c_interval c = Some v -> exists w, c_interval (collect_all replies c) = Some w /\ v <= w) /\
  (forall url resp, (url, Ok resp) ∈ replies -> exists w, c_interval (collect_all replies c) = Some w /\ asked_wait resp <= w) /\
  (forall w, c_interval (collect_all replies c) = Some w -> c_interval c = Some w \/ exists url resp, (url, Ok resp) ∈ replies /\ asked_wait resp = w).
Proof.
  induction replies as [| [url r] replies IH]; intros c.
  - split; [eauto with lia |]. split; [intros ? ? H; by apply elem_of_nil in H | by left].
  - cbn [collect_all fold_left fst snd]. fold (collect_all replies (collect_reply c url r)). destruct (IH (collect_reply c url r)) as (H1 & H2 & H3).
    destruct r as [resp | e]; cbn [collect_reply c_interval] in H1, H3.
    + fold (asked_wait resp) in *. destruct (H1 _ eq_refl) as (w & Hw & Hle). split_and!.
      * intros v Hv. exists w. split; [done |]. rewrite Hv in Hle. lia.
      * intros u resp' [[= -> ->] | Hin]%elem_of_cons; [| by eapply H2]. exists w. split; [done |]. destruct (c_interval c); lia.
      * intros w' Hw'. destruct (H3 w' Hw') as [[= E] | (u & resp' & Hin & E)]; [| right; exists u, resp'; split; [by right | done]].
        destruct (c_interval c) as [cur |]; [| right; exists url, resp; split; [by left | done]].
        destruct (Z.max_spec cur (asked_wait resp)) as [[_ Hm] | [_ Hm]]; rewrite Hm in E; [right; exists url, resp; split; [by left | done] | left; by rewrite E].
    + split_and!; [done | |].
      * intros u resp' [[=] | Hin]%elem_of_cons. by eapply H2.
      * intros w Hw. destruct (H3 w Hw) as [| (u & resp' & Hin & E)]; [by left | right; exists u, resp'; split; [by right | done]].
Qed.

Lemma collect_all_spec replies : forall c,
  (forall a, a ∈ c_peers (collect_all replies c) <-> a ∈ c_peers c \/ exists url resp, (url, Ok resp) ∈ replies /\ a ∈ peers resp) /\
  (forall url, url ∈ at_url <$> c_failures (collect_all replies c) <-> url ∈ at_url <$> c_failures c \/ exists e, (url, Err e) ∈ replies) /\
  (forall url, url ∈ answered (collect_all replies c) <-> url ∈ answered c \/ url ∈ replies.*1).
Proof.
  induction replies as [| [url r] replies IH]; intros c; [cbn; set_solver |].
  cbn [collect_all fold_left fst snd]. fold (collect_all replies (collect_reply c url r)). destruct (IH (collect_reply c url r)) as (Hp & Hf & Ha).
  destruct r as [resp | e]; cbn [collect_reply c_peers c_failures answered] in Hp, Hf, Ha; split_and!; intros x; rewrite ?Hp, ?Hf, ?Ha; rewrite ?fmap_app; set_solver.
Qed.

(** A concurrent announce accounts for every tracker.  When each of the
    distinct trackers replies at most once before the deadline, the peers are
    those of the ones that answered, all of them and no others; a tracker is
    among the failures exactly if it did not answer; and the wait is the longest
    any of them asked for. *)
Theorem announce_accounts (urls : list (list Z)) (no_response : list Z) (replies : list (list Z * result AnnounceResponse (list Z)))
    (Hurls : NoDup urls) (Honce : NoDup replies.*1) (Hours : replies.*1 ⊆ urls) :
  let r := announce_to_all_within urls no_response replies in
  (forall a, a ∈ r_peers r <-> exists url resp, (url, Ok resp) ∈ replies /\ a ∈ peers resp) /\
  (forall url, url ∈ urls -> url ∈ at_url <$> r_failures r <-> ~ exists resp, (url, Ok resp) ∈ replies) /\
  (forall url resp, (url, Ok resp) ∈ replies -> exists w, r_interval r = Some w /\ asked_wait resp <= w) /\
  (forall w, r_interval r = Some w -> exists url resp, (url, Ok resp) ∈ replies /\ asked_wait resp = w).
Proof.
  assert (length replies <= length urls)%nat as Hlen.
  { rewrite <- (length_fmap fst replies). by apply submseteq_length, NoDup_submseteq. }
  unfold announce_to_all_within. rewrite collect_every by (done || set_solver || (cbn; rewrite size_empty; lia)).
  destruct (collect_all_spec replies (mkCollected ∅ [] None ∅)) as (Hp & Hf & Ha).
  destruct (collect_interval replies (mkCollected ∅ [] None ∅)) as (_ & H2 & H3). cbn [r_peers r_failures r_interval c_peers c_failures answered c_interval] in *.
  set (c := collect_all replies _) in *. split; [intros a; rewrite Hp; set_solver |]. split; [| split; [done | intros w Hw; by destruct (H3 w Hw)]].
  intros url Hin. rewrite fmap_app, elem_of_app, Hf, <- list_fmap_compose. split.
  - intros [[Hx | [e He]] | Hno] [resp Hr]; [by apply elem_of_nil in Hx | |].
    + assert (Err e = Ok resp) as [=]. by apply (NoDup_fst_unique replies url).
    + apply list_elem_of_fmap in Hno as (u & E & [Hno _]%list_elem_of_filter). cbn in E. subst u. apply Hno, Ha. right. by apply list_elem_of_fmap_2' with (url, Ok resp).
  - intros Hno. destruct (decide (url ∈ replies.*1)) as [Hr | Hr].
    + left. right. apply list_elem_of_fmap in Hr as ([u [resp | e]] & E & Hr); cbn in E; subst u; [exfalso; eauto | eauto].
    + right. apply list_elem_of_fmap. exists url. split; [done |]. apply list_elem_of_filter. split; [| done]. rewrite Ha. set_solver.
Qed.

Lemma announce_accounts_witness :
  let replies := [(str "http://a", Ok (mkAnnounceResponse 1800 (Some 60) None None [V4 [1; 2; 3; 4] 5])); (str "udp://b", Err (str "timed out"))] in
  let r := announce_to_all_within [str "http://a"; str "udp://b"; str "udp://c"] (str "no response within 20s") replies in
  V4 [1; 2; 3; 4] 5 ∈ r_peers r /\ str "udp://c" ∈ at_url <$> r_failures r.
Proof.
  intros replies. destruct (announce_accounts [str "http://a"; str "udp://b"; str "udp://c"] (str "no response within 20s") replies) as (H1 & H2 & _).
  - by apply (bool_decide_unpack _).
  - by apply (bool_decide_unpack _).
  - by apply (bool_decide_unpack _).
  - split.
    + apply H1. exists (str "http://a"). eexists. split; [apply list_elem_of_here | apply list_elem_of_here].
    + apply H2; [by apply (bool_decide_unpack _) |]. intros [resp Hr]. apply elem_of_cons in Hr as [[=] | Hr]. apply list_elem_of_singleton in Hr as [=].
Defined.
