(* ===== verification/Routing.v ===== *)
(** * The routing table of the DHT

    Models [src/src/dht/routing.rs]: the XOR metric, the 160 buckets of at most
    eight nodes by the length of the prefix shared with our id, insertion with
    eviction of the least recently seen, recentring on a new id, and the choice
    of the closest nodes.  [Instant::now()] is an argument; a [None] of
    [insert] is an index past the buckets. *)

From stdpp Require Import sorting.
From S2P Require Import Prelude BTree PeerState Net.

(** [NodeId = [u8; 20]]. *)
Abbreviation NodeId := (list Z).

(** [CompactNode] of [src/src/dht/krpc.rs]. *)
Record CompactNode : Type := mkCompactNode {
  node_id : NodeId;
  node_addr : SocketAddr
}.

Definition K : nat := 8.

Definition xor_distance (a b : NodeId) : list Z := zip_with Z.lxor a b.

(** [u8::leading_zeros] of a byte that is not zero. *)
Definition leading_zeros (byte : Z) : nat := Z.to_nat (7 - Z.log2 byte).

Fixpoint first_nonzero (byte_idx : nat) (d : list Z) : option nat :=
  match d with
  | [] => None
  | byte :: d' =>
      if byte =? 0 then first_nonzero (S byte_idx) d' else Some (byte_idx * 8 + leading_zeros byte)%nat
  end.

Definition bucket_index (self_id other : NodeId) : option nat := first_nonzero 0 (xor_distance self_id other).

Record Entry : Type := mkEntry {
  node : CompactNode;
  last_seen : Z
}.

Record RoutingTable : Type := mkRoutingTable {
  self_id : NodeId;
  buckets : list (list Entry)
}.

Definition new (i : NodeId) : RoutingTable := mkRoutingTable i (replicate 160 []).

Definition len (t : RoutingTable) : nat := sum_list (length <$> buckets t).

Definition is_empty (t : RoutingTable) : bool := (len t =? 0)%nat.

(** The first of the least recently seen, by position:
    [bucket.iter_mut().min_by_key(|e| e.last_seen)]. *)
Fixpoint oldest (i : nat) (bucket : list Entry) : option (nat * Z) :=
  match bucket with
  | [] => None
  | e :: bucket' =>
      match oldest (S i) bucket' with
      | None => Some (i, last_seen e)
      | Some (j, t) => if t <? last_seen e then Some (j, t) else Some (i, last_seen e)
      end
  end.

(** What [insert] does to the bucket. *)
Definition bucket_insert (bucket : list Entry) (i : NodeId) (addr : SocketAddr) (now : Z) : list Entry :=
  let entry := mkEntry (mkCompactNode i addr) now in
  match list_find (fun e => node_id (node e) = i) bucket with
  | Some (at_, existing) => <[at_ := mkEntry (mkCompactNode (node_id (node existing)) addr) now]> bucket
  | None =>
      if (length bucket <? K)%nat then bucket ++ [entry]
      else match oldest 0 bucket with
           | Some (at_, _) => <[at_ := entry]> bucket
           | None => bucket
           end
  end.

Definition insert (t : RoutingTable) (i : NodeId) (addr : SocketAddr) (now : Z) : option RoutingTable :=
  match bucket_index (self_id t) i with
  | None => Some t
  | Some idx =>
      bucket ← buckets t !! idx;
      Some (mkRoutingTable (self_id t) (<[idx := bucket_insert bucket i addr now]> (buckets t)))
  end.

(** The loop of [recentre]; [clock n] is what [Instant::now()] reads at the
    [n]-th insertion. *)
Fixpoint insert_all (t : RoutingTable) (known : list Entry) (clock : nat -> Z) (n : nat) : option RoutingTable :=
  match known with
  | [] => Some t
  | e :: known' =>
      t' ← insert t (node_id (node e)) (node_addr (node e)) (clock n);
      insert_all t' known' clock (S n)
  end.

Definition recentre (t : RoutingTable) (new_id : NodeId) (clock : nat -> Z) : option RoutingTable :=
  let known := concat (buckets t) in
  insert_all (mkRoutingTable new_id ((fun _ => []) <$> buckets t)) known clock 0.

(** The order of [sort_by_key]: distances compared as byte strings. *)
Definition closer (target : NodeId) (a b : Entry) : Prop :=
  lex_cmp (xor_distance (node_id (node a)) target) (xor_distance (node_id (node b)) target) <> Gt.

#[export] Instance closer_dec target a b : Decision (closer target a b).
Proof. unfold closer. destruct (lex_cmp _ _); [left | left | right]; naive_solver. Defined.

Definition closest (t : RoutingTable) (target : NodeId) (n : nat) : list CompactNode :=
  node <$> take n (merge_sort (closer target) (concat (buckets t))).

(** ** Ids and prefixes *)

Definition id_ok (i : NodeId) : Prop := length i = 20%nat /\ bytes_ok i.

Fixpoint common_prefix (a b : list bool) : nat :=
  match a, b with
  | x :: a', y :: b' => if Bool.eqb x y then S (common_prefix a' b') else O
  | _, _ => O
  end.

(** The bits of an id, most significant first. *)
Definition id_bits (i : NodeId) : list bool := bytes_to_bitfield i.

Lemma common_prefix_app a b c d :
  length a = length b ->
  common_prefix (a ++ c) (b ++ d) =
    if decide (a = b) then (length a + common_prefix c d)%nat else common_prefix a b.
Proof.
  revert b. induction a as [| x a IH]; intros [| y b] Hl; try discriminate Hl; [by rewrite decide_True |].
  injection Hl as Hl. specialize (IH b Hl). cbn [app common_prefix length]. destruct (Bool.eqb_spec x y) as [-> | Hne].
  - rewrite IH. destruct (decide (a = b)) as [-> | Hab].
    + by rewrite decide_True.
    + by rewrite decide_False by congruence.
  - by rewrite decide_False by congruence.
Qed.

(** One byte: the shared bits end where the XOR has its first one. *)
Lemma byte_prefix x y :
  byte_ok x -> byte_ok y -> x <> y ->
  common_prefix (byte_bits x) (byte_bits y) = leading_zeros (Z.lxor x y) /\ byte_bits x <> byte_bits y.
Proof.
  intros [Hx0 Hx] [Hy0 Hy] Hne. change (2 ^ 8) with 256 in *.
  assert (forallb (fun a => forallb (fun b =>
    (a =? b) || ((common_prefix (byte_bits a) (byte_bits b) =? leading_zeros (Z.lxor a b))%nat &&
                 negb (bool_decide (byte_bits a = byte_bits b)))) (seqZ 0 256)) (seqZ 0 256) = true) as Hall
    by (vm_compute; reflexivity).
  rewrite forallb_forall in Hall. specialize (Hall x ltac:(apply list_elem_of_In, elem_of_seqZ; lia)).
  rewrite forallb_forall in Hall. specialize (Hall y ltac:(apply list_elem_of_In, elem_of_seqZ; lia)).
  rewrite (proj2 (Z.eqb_neq x y)) in Hall by done. cbn [orb] in Hall.
  apply andb_true_iff in Hall as [H1 H2]. apply Nat.eqb_eq in H1.
  apply negb_true_iff, bool_decide_eq_false in H2. done.
Qed.

Lemma first_nonzero_prefix a b k :
  length a = length b -> bytes_ok a -> bytes_ok b ->
  first_nonzero k (xor_distance a b) =
    if decide (a = b) then None else Some (k * 8 + common_prefix (id_bits a) (id_bits b))%nat.
Proof.
  intros Hl Ha. revert b k Hl. induction Ha as [| x a Hx Ha IH]; intros [| y b] k Hl Hb; try discriminate Hl.
  { by rewrite decide_True. }
  injection Hl as Hl. apply Forall_cons in Hb as [Hy Hb].
  change (xor_distance (x :: a) (y :: b)) with (Z.lxor x y :: xor_distance a b). cbn [first_nonzero].
  change (id_bits (x :: a)) with (byte_bits x ++ id_bits a). change (id_bits (y :: b)) with (byte_bits y ++ id_bits b).
  rewrite common_prefix_app by done.
  destruct (decide (x = y)) as [<- | Hne].
  - rewrite Z.lxor_nilpotent, Z.eqb_refl, (IH b (S k) Hl Hb).
    rewrite (decide_True (P := byte_bits x = byte_bits x)) by done.
    destruct (decide (a = b)) as [<- | Hab].
    + by rewrite decide_True.
    + rewrite decide_False by congruence. f_equal. change (length (byte_bits x)) with 8%nat. lia.
  - rewrite (proj2 (Z.eqb_neq _ _)) by (intros E; by apply Z.lxor_eq in E).
    destruct (byte_prefix x y Hx Hy Hne) as [Hp Hbits].
    rewrite !decide_False by congruence. by rewrite Hp.
Qed.

(** The bucket of a node is the number of leading bits it shares with us. *)
Lemma bucket_index_prefix a b :
  id_ok a -> id_ok b ->
  bucket_index a b = if decide (a = b) then None else Some (common_prefix (id_bits a) (id_bits b)).
Proof.
  intros [Hla Ha] [Hlb Hb]. unfold bucket_index. by rewrite (first_nonzero_prefix a b 0) by congruence.
Qed.

Lemma common_prefix_lt a b : length a = length b -> a <> b -> (common_prefix a b < length a)%nat.
Proof.
  revert b. induction a as [| x a IH]; intros [| y b] Hl Hne; try discriminate Hl; [done |].
  injection Hl as Hl. cbn [common_prefix length]. destruct (Bool.eqb_spec x y) as [-> |]; [| lia].
  specialize (IH b Hl ltac:(congruence)). lia.
Qed.

Lemma bucket_index_bound a b idx : id_ok a -> id_ok b -> bucket_index a b = Some idx -> (idx < 160)%nat.
Proof.
  intros Ha Hb. rewrite bucket_index_prefix by done. destruct (decide (a = b)) as [| Hne]; [done |]. intros [= <-].
  assert (length (id_bits a) = 160%nat /\ length (id_bits b) = 160%nat) as [La Lb].
  { unfold id_bits. rewrite !bytes_to_bitfield_length. destruct Ha as [-> _], Hb as [-> _]. done. }
  rewrite <- La. apply common_prefix_lt; [congruence |]. intros Heq.
  apply Hne. destruct Ha as [Hla Hba], Hb as [Hlb Hbb].
  pose proof (first_nonzero_prefix a b 0 ltac:(congruence) Hba Hbb) as Hf. rewrite decide_False in Hf by done.
  (* equal bits of equal-length byte strings: no byte differs *)
  clear - Heq Hla Hlb Hba Hbb. unfold id_bits in Heq.
  apply list_eq. intros i. destruct (decide (i < 20)%nat) as [Hi | Hi]; [| by rewrite !lookup_ge_None_2 by lia].
  destruct (lookup_lt_is_Some_2 a i ltac:(lia)) as [x Hx], (lookup_lt_is_Some_2 b i ltac:(lia)) as [y Hy].
  rewrite Hx, Hy. f_equal. destruct (decide (x = y)) as [| Hne]; [done |]. exfalso.
  pose proof (proj1 (Forall_lookup _ _) Hba i x Hx) as Hxo. pose proof (proj1 (Forall_lookup _ _) Hbb i y Hy) as Hyo.
  apply (byte_prefix x y Hxo Hyo Hne). apply list_eq. intros j.
  destruct (decide (j < 8)%nat) as [Hj | Hj]; [| by rewrite !lookup_ge_None_2 by (cbn; lia)].
  rewrite !byte_bits_lookup by done.
  apply (f_equal (fun l => l !! (i * 8 + j)%nat)) in Heq. rewrite !bytes_to_bitfield_lookup in Heq.
  assert ((i * 8 + j) / 8 = i)%nat as E by (rewrite Nat.add_comm, Nat.div_add, Nat.div_small by lia; lia).
  assert ((i * 8 + j) mod 8 = j)%nat as E' by (rewrite Nat.add_comm, Nat.Div0.mod_add, Nat.mod_small by lia; lia).
  rewrite E, E', Hx, Hy in Heq. cbn in Heq. exact Heq.
Qed.

(** ** The invariant *)

Record bucket_ok (self : NodeId) (idx : nat) (bucket : list Entry) : Prop := {
  bok_size : (length bucket <= K)%nat;
  bok_nodup : NoDup ((fun e => node_id (node e)) <$> bucket);
  bok_entries : Forall (fun e => id_ok (node_id (node e)) /\ bucket_index self (node_id (node e)) = Some idx) bucket
}.

Record table_ok (t : RoutingTable) : Prop := {
  tok_self : id_ok (self_id t);
  tok_length : length (buckets t) = 160%nat;
  tok_buckets : forall idx bucket, buckets t !! idx = Some bucket -> bucket_ok (self_id t) idx bucket
}.

Lemma oldest_spec i bucket :
  match oldest i bucket with
  | None => bucket = []
  | Some (j, t) =>
      exists k e, j = (i + k)%nat /\ bucket !! k = Some e /\ last_seen e = t /\
        Forall (fun e' => t <= last_seen e') bucket
  end.
Proof.
  revert i. induction bucket as [| e bucket IH]; intros i; [done |]. cbn [oldest]. specialize (IH (S i)).
  destruct (oldest (S i) bucket) as [[j t] |].
  - destruct IH as (k & e' & -> & Hk & He' & Hall). destruct (Z.ltb_spec t (last_seen e)).
    + exists (S k), e'. split_and!; [lia | done | done |]. constructor; [lia | done].
    + exists 0%nat, e. split_and!; [lia | done | done |]. constructor; [lia |].
      apply (Forall_impl _ _ _ Hall). intros; lia.
  - subst bucket. exists 0%nat, e. split_and!; [lia | done | done |]. constructor; [lia | constructor].
Qed.

(** What [insert] does to a bucket: refresh, append, or replace the least
    recently seen. *)
Lemma bucket_insert_cases bucket i addr now :
  let entry := mkEntry (mkCompactNode i addr) now in
  (exists at_ e, bucket !! at_ = Some e /\ node_id (node e) = i /\ bucket_insert bucket i addr now = <[at_ := entry]> bucket) \/
  (Forall (fun e => node_id (node e) <> i) bucket /\ (length bucket < K)%nat /\
     bucket_insert bucket i addr now = bucket ++ [entry]) \/
  (Forall (fun e => node_id (node e) <> i) bucket /\ (K <= length bucket)%nat /\
     exists at_ e, bucket !! at_ = Some e /\ Forall (fun e' => last_seen e <= last_seen e') bucket /\
       bucket_insert bucket i addr now = <[at_ := entry]> bucket).
Proof.
  intros entry. unfold bucket_insert. fold entry.
  destruct (list_find _ bucket) as [[at_ e] |] eqn:E.
  - apply list_find_Some in E as (Hat & Hid & _). left. exists at_, e. split_and!; [done | done |]. by rewrite Hid.
  - apply list_find_None in E. right. destruct (Nat.ltb_spec (length bucket) K) as [Hlt | Hge]; [by left | right].
    split_and!; [done | done |]. pose proof (oldest_spec 0 bucket) as Ho.
    destruct (oldest 0 bucket) as [[j t] |].
    + destruct Ho as (k & e & -> & Hk & <- & Hall). by exists k, e.
    + subst bucket. unfold K in Hge. simpl in Hge. lia.
Qed.

Lemma NoDup_ids_insert bucket at_ e entry :
  NoDup ((fun e => node_id (node e)) <$> bucket) -> bucket !! at_ = Some e ->
  node_id (node e) = node_id (node entry) \/ Forall (fun e' => node_id (node e') <> node_id (node entry)) bucket ->
  NoDup ((fun e => node_id (node e)) <$> <[at_ := entry]> bucket).
Proof.
  intros Hnd Hat Hor. rewrite list_fmap_insert.
  set (f := fun e => node_id (node e)) in *. change (node_id (node entry)) with (f entry) in *.
  assert (forall k, (f <$> bucket) !! k = Some (f entry) -> k = at_ \/ False) as Huniq.
  { intros k Hk. destruct Hor as [Heq | Hall].
    - left. apply (NoDup_lookup (f <$> bucket) k at_ (f entry)); [done | done |].
      rewrite list_lookup_fmap, Hat. simpl. by rewrite <- Heq.
    - right. apply list_elem_of_lookup_2, list_elem_of_fmap in Hk as (e' & Hf & He').
      by apply (proj1 (Forall_forall _ _) Hall e' He'). }
  apply NoDup_alt. intros i j x Hi Hj.
  rewrite list_lookup_insert in Hi, Hj. pose proof (lookup_lt_Some _ _ _ Hat) as Hlt.
  destruct (decide (at_ = i /\ _)) as [[<- _] | Hni], (decide (at_ = j /\ _)) as [[<- _] | Hnj]; [done | | |].
  - injection Hi as <-. destruct (Huniq j Hj) as [-> | []]. done.
  - injection Hj as <-. destruct (Huniq i Hi) as [-> | []]. done.
  - by eapply NoDup_lookup.
Qed.

Lemma bucket_insert_ok self idx bucket i addr now :
  bucket_ok self idx bucket -> id_ok i -> bucket_index self i = Some idx ->
  bucket_ok self idx (bucket_insert bucket i addr now).
Proof.
  intros [Hs Hnd He] Hi Hidx.
  destruct (bucket_insert_cases bucket i addr now) as
    [(at_ & e & Hat & Hid & ->) | [(Hne & Hlt & ->) | (Hne & _ & at_ & e & Hat & _ & ->)]].
  - split.
    + by rewrite length_insert.
    + eapply NoDup_ids_insert; [done | exact Hat | by left].
    + by apply Forall_insert.
  - split.
    + rewrite length_app. simpl. lia.
    + rewrite fmap_app. apply NoDup_app. split_and!; [done | | apply NoDup_singleton].
      intros x (e & -> & Hin)%list_elem_of_fmap Hx%list_elem_of_singleton.
      by apply (proj1 (Forall_forall _ _) Hne e Hin).
    + apply Forall_app. split; [done |]. by apply Forall_singleton.
  - split.
    + by rewrite length_insert.
    + eapply NoDup_ids_insert; [done | exact Hat | by right].
    + by apply Forall_insert.
Qed.

Lemma insert_ok t i addr now :
  table_ok t -> id_ok i -> exists t', insert t i addr now = Some t' /\ table_ok t' /\ self_id t' = self_id t.
Proof.
  intros Ht Hi. pose proof Ht as [Hself Hlen Hb]. unfold insert.
  destruct (bucket_index (self_id t) i) as [idx |] eqn:E; [| by exists t].
  pose proof (bucket_index_bound _ _ _ Hself Hi E) as Hidx.
  destruct (lookup_lt_is_Some_2 (buckets t) idx ltac:(lia)) as [bucket Hbu]. rewrite Hbu. simpl.
  eexists. split; [done |]. split; [| done]. split; simpl; [done | by rewrite length_insert |].
  intros k b Hk. rewrite list_lookup_insert in Hk. destruct (decide (idx = k /\ _)) as [[<- _] |].
  - injection Hk as <-. apply bucket_insert_ok; auto.
  - auto.
Qed.

Lemma insert_all_ok known clock t n :
  table_ok t -> Forall (fun e => id_ok (node_id (node e))) known ->
  exists t', insert_all t known clock n = Some t' /\ table_ok t' /\ self_id t' = self_id t.
Proof.
  revert t n. induction known as [| e known IH]; intros t n Ht Hk; [by exists t |].
  apply Forall_cons in Hk as [He Hk]. cbn [insert_all].
  destruct (insert_ok t (node_id (node e)) (node_addr (node e)) (clock n) Ht He) as (t1 & -> & Ht1 & Hs1).
  simpl. destruct (IH t1 (S n) Ht1 Hk) as (t2 & -> & Ht2 & Hs2). exists t2. by rewrite Hs2.
Qed.

Lemma new_table_ok i : id_ok i -> table_ok (new i).
Proof.
  intros Hi. split; simpl; [done | done |].
  intros idx b Hb. apply (lookup_replicate_1 160) in Hb as [-> _]. split; simpl; [unfold K; lia | constructor | constructor].
Qed.

Lemma elem_of_concat {A} (ls : list (list A)) x : x ∈ concat ls <-> exists l, x ∈ l /\ l ∈ ls.
Proof.
  rewrite list_elem_of_In, in_concat. setoid_rewrite list_elem_of_In. naive_solver.
Qed.

Lemma entries_ok t : table_ok t -> Forall (fun e => id_ok (node_id (node e))) (concat (buckets t)).
Proof.
  intros Ht. apply Forall_forall. intros e He. apply elem_of_concat in He as (b & He & Hb).
  apply list_elem_of_lookup_1 in Hb as [idx Hidx]. pose proof (tok_buckets _ Ht idx b Hidx) as [_ _ Hall].
  by apply (proj1 (Forall_forall _ _) Hall e He).
Qed.

Lemma recentre_ok t i clock :
  table_ok t -> id_ok i -> exists t', recentre t i clock = Some t' /\ table_ok t' /\ self_id t' = i.
Proof.
  intros Ht Hi. unfold recentre. apply insert_all_ok; [| by apply entries_ok].
  split; simpl; [done | by rewrite length_fmap, (tok_length _ Ht) |].
  intros idx b Hb. rewrite list_lookup_fmap in Hb. destruct (buckets t !! idx); [| done]. injection Hb as <-.
  split; simpl; [unfold K; lia | constructor | constructor].
Qed.

(** What the client does with its table. *)
Inductive table_reachable : RoutingTable -> Prop :=
| reach_new i : id_ok i -> table_reachable (new i)
| reach_insert t i addr now t' :
    table_reachable t -> id_ok i -> insert t i addr now = Some t' -> table_reachable t'
| reach_recentre t i clock t' :
    table_reachable t -> id_ok i -> recentre t i clock = Some t' -> table_reachable t'.

Lemma table_reachable_ok t : table_reachable t -> table_ok t.
Proof.
  induction 1 as [i Hi | t i addr now t' _ IH Hi Hins | t i clock t' _ IH Hi Hrec].
  - by apply new_table_ok.
  - destruct (insert_ok t i addr now IH Hi) as (t1 & E & Ht1 & _). rewrite Hins in E. by injection E as <-.
  - destruct (recentre_ok t i clock IH Hi) as (t1 & E & Ht1 & _). rewrite Hrec in E. by injection E as <-.
Qed.

(** ** The metric *)

Lemma xor_distance_eq a b : length a = length b -> xor_distance a b = replicate (length a) 0 <-> a = b.
Proof.
  revert b. induction a as [| x a IH]; intros [| y b] Hl; try discriminate Hl; [done |].
  injection Hl as Hl. change (xor_distance (x :: a) (y :: b)) with (Z.lxor x y :: xor_distance a b). simpl. split.
  - intros [= Hx Hab]. apply Z.lxor_eq in Hx as ->. f_equal. by apply IH.
  - intros [= <- <-]. rewrite Z.lxor_nilpotent. f_equal. by apply IH.
Qed.

(** Different nodes are at different distances from a target. *)
Lemma xor_distance_inj a b target :
  length a = length target -> length b = length target -> xor_distance a target = xor_distance b target -> a = b.
Proof.
  revert a b. induction target as [| z target IH]; intros [| x a] [| y b] Ha Hb; try discriminate; [done |].
  injection Ha as Ha. injection Hb as Hb. intros [= Hx Hab]. f_equal; [| by apply IH].
  apply (f_equal (fun v => Z.lxor v z)) in Hx.
  by rewrite !Z.lxor_assoc, Z.lxor_nilpotent, !Z.lxor_0_r in Hx.
Qed.

#[export] Instance closer_total target : Total (closer target).
Proof.
  intros a b. unfold closer.
  pose proof (kcmp_antisym (xor_distance (node_id (node a)) target) (xor_distance (node_id (node b)) target)) as H.
  unfold kcmp, ordkey_bytes in H. rewrite H. destruct (lex_cmp (xor_distance (node_id (node a)) target) _); naive_solver.
Qed.

#[export] Instance closer_trans target : Transitive (closer target).
Proof.
  intros a b c. unfold closer. fold (kcmp (K := list Z)). intros Hab Hbc Hac.
  change (lex_cmp ?x ?y) with (kcmp x y) in *.
  set (da := xor_distance (node_id (node a)) target) in *.
  set (db := xor_distance (node_id (node b)) target) in *.
  set (dc := xor_distance (node_id (node c)) target) in *.
  apply kcmp_gt_lt in Hac. destruct (kcmp da db) eqn:E1; [| | done].
  - apply kcmp_eq_iff in E1. rewrite E1 in Hac. apply kcmp_gt_lt in Hac. congruence.
  - pose proof (kcmp_lt_trans _ _ _ Hac E1) as H. apply kcmp_gt_lt in H. congruence.
Qed.

(** ** Properties *)

(** The shape of the routing table: whatever nodes answer, in any order, and
    however often the table moves to a new id, insertion and recentring never
    panic, there are 160 buckets of at most eight distinct nodes, a node is in
    the bucket of the number of leading bits its id shares with ours, and our
    own id is in none. *)
Theorem routing_table_shape (t : RoutingTable) (i : NodeId) (addr : SocketAddr) (now : Z) (clock : nat -> Z)
    (Hr : table_reachable t) (Hi : id_ok i) :
  table_ok t /\
  (forall idx bucket e, buckets t !! idx = Some bucket -> e ∈ bucket ->
     node_id (node e) <> self_id t /\ idx = common_prefix (id_bits (self_id t)) (id_bits (node_id (node e)))) /\
  is_Some (insert t i addr now) /\ is_Some (recentre t i clock).
Proof.
  pose proof (table_reachable_ok t Hr) as Ht. split_and!; [done | | |].
  - intros idx bucket e Hb He. pose proof (tok_buckets _ Ht idx bucket Hb) as [_ _ Hall].
    destruct (proj1 (Forall_forall _ _) Hall e He) as [Hid Hidx].
    rewrite bucket_index_prefix in Hidx by (done || apply Ht).
    destruct (decide _) as [| Hne]; [done |]. injection Hidx as <-. done.
  - destruct (insert_ok t i addr now Ht Hi) as (t' & -> & _). done.
  - destruct (recentre_ok t i clock Ht Hi) as (t' & -> & _). done.
Qed.

Definition id_of_bytes (b : Z) : NodeId := b :: replicate 19 0.

Lemma id_of_bytes_ok b : byte_ok b -> id_ok (id_of_bytes b).
Proof. intros Hb. split; [done |]. constructor; [done |]. by apply Forall_replicate. Qed.

Lemma routing_table_shape_witness :
  is_Some (insert (new (id_of_bytes 1)) (id_of_bytes 2) (V4 [1; 2; 3; 4] 6881) 0).
Proof.
  refine (proj1 (proj2 (proj2 (routing_table_shape (new (id_of_bytes 1)) (id_of_bytes 2) (V4 [1; 2; 3; 4] 6881) 0
            (fun _ => 0) _ _)))).
  - apply reach_new, id_of_bytes_ok. done.
  - apply id_of_bytes_ok. done.
Defined.

(** What [insert] does to the nodes: the node is in the table with its new
    address and time, and of the others only one can be lost: the least
    recently seen of its bucket, when the bucket was full and the node new. *)
Theorem insert_evicts_oldest (t t' : RoutingTable) (i : NodeId) (addr : SocketAddr) (now : Z)
    (Hr : table_reachable t) (Hi : id_ok i) (Hne : i <> self_id t) (Hins : insert t i addr now = Some t') :
  mkEntry (mkCompactNode i addr) now ∈ concat (buckets t') /\
  forall e, e ∈ concat (buckets t) -> node_id (node e) <> i -> e ∉ concat (buckets t') ->
    exists idx bucket, buckets t !! idx = Some bucket /\ e ∈ bucket /\ (K <= length bucket)%nat /\
      Forall (fun e' => node_id (node e') <> i /\ last_seen e <= last_seen e') bucket.
Proof.
  pose proof (table_reachable_ok t Hr) as Ht. unfold insert in Hins.
  destruct (bucket_index (self_id t) i) as [idx |] eqn:E.
  2: { rewrite bucket_index_prefix, decide_False in E by (done || apply Ht). done. }
  destruct (buckets t !! idx) as [bucket |] eqn:Hb; [| done]. simpl in Hins. injection Hins as <-. simpl.
  pose proof (lookup_lt_Some _ _ _ Hb) as Hlt. set (bucket' := bucket_insert bucket i addr now).
  assert (forall e, e ∈ concat (<[idx := bucket']> (buckets t)) <->
            e ∈ bucket' \/ exists k b, k <> idx /\ buckets t !! k = Some b /\ e ∈ b) as Hmem.
  { intros e. rewrite elem_of_concat. split.
    - intros (b & He & Hin). apply list_elem_of_lookup_1 in Hin as [k Hk]. rewrite list_lookup_insert in Hk.
      destruct (decide (idx = k /\ _)) as [[<- _] | Hn]; [injection Hk as <-; by left |]. right. exists k, b.
      split_and!; try done. intros ->. apply Hn. done.
    - intros [He | (k & b & Hk & Hb' & He)].
      + exists bucket'. split; [done |]. eapply list_elem_of_lookup_2. by apply list_lookup_insert_eq.
      + exists b. split; [done |]. eapply (list_elem_of_lookup_2 _ k). by rewrite list_lookup_insert_ne. }
  assert (forall at_ (e : Entry), bucket !! at_ = Some e -> forall entry, entry ∈ <[at_ := entry]> bucket /\
            forall x, x ∈ bucket -> x <> e -> x ∈ <[at_ := entry]> bucket) as Hins.
  { intros at_ e Hat entry. pose proof (lookup_lt_Some _ _ _ Hat). split.
    - eapply list_elem_of_lookup_2. by apply list_lookup_insert_eq.
    - intros x [k Hk]%list_elem_of_lookup_1 Hx. eapply (list_elem_of_lookup_2 _ k).
      rewrite list_lookup_insert_ne; [done |]. intros ->. congruence. }
  destruct (bucket_insert_cases bucket i addr now) as
    [(at_ & e0 & Hat & Hid & Eb) | [(Hnot & Hsmall & Eb) | (Hnot & Hfull & at_ & e0 & Hat & Hold & Eb)]];
    fold bucket' in Eb; rewrite Eb in *; (split; [apply Hmem; left |]).
  - exact (proj1 (Hins at_ e0 Hat _)).
  - intros e (b & He & Hin)%elem_of_concat Hid' Hgone. exfalso. apply Hgone, Hmem.
    apply list_elem_of_lookup_1 in Hin as [k Hk]. destruct (decide (k = idx)) as [-> |]; [| right; eauto 10].
    left. rewrite Hb in Hk. injection Hk as <-. apply (Hins at_ e0 Hat); [done |]. intros ->. done.
  - apply elem_of_app. right. by left.
  - intros e (b & He & Hin)%elem_of_concat Hid' Hgone. exfalso. apply Hgone, Hmem.
    apply list_elem_of_lookup_1 in Hin as [k Hk]. destruct (decide (k = idx)) as [-> |]; [| right; eauto 10].
    left. rewrite Hb in Hk. injection Hk as <-. apply elem_of_app. by left.
  - exact (proj1 (Hins at_ e0 Hat _)).
  - intros e (b & He & Hin)%elem_of_concat Hid' Hgone.
    apply list_elem_of_lookup_1 in Hin as [k Hk]. destruct (decide (k = idx)) as [-> | Hk'].
    2: { exfalso. apply Hgone, Hmem. right. eauto 10. }
    rewrite Hb in Hk. injection Hk as <-. exists idx, bucket. split_and!; try done.
    assert (last_seen e = last_seen e0) as ->.
    { destruct (decide (last_seen e = last_seen e0)) as [| Hd]; [done |]. exfalso. apply Hgone, Hmem. left.
      apply (Hins at_ e0 Hat); [done |]. intros ->. done. }
    rewrite Forall_forall in *. intros x Hx. split; auto.
Qed.

Lemma insert_evicts_oldest_witness :
  exists t', insert (new (id_of_bytes 1)) (id_of_bytes 2) (V4 [1; 2; 3; 4] 6881) 5 = Some t' /\
    mkEntry (mkCompactNode (id_of_bytes 2) (V4 [1; 2; 3; 4] 6881)) 5 ∈ concat (buckets t').
Proof.
  eexists. split; [reflexivity |].
  refine (proj1 (insert_evicts_oldest (new (id_of_bytes 1)) _ (id_of_bytes 2) (V4 [1; 2; 3; 4] 6881) 5 _ _ _ _)).
  - apply reach_new, id_of_bytes_ok. done.
  - apply id_of_bytes_ok. done.
  - done.
  - reflexivity.
Defined.

(** [closest] returns the nodes nearest the target: as many as asked for or
    as there are, all from the table, nearest first in the XOR metric, and no
    node left out is nearer than one returned. *)
Theorem closest_spec (t : RoutingTable) (target : NodeId) (n : nat) :
  exists es rest, closest t target n = node <$> es /\ es ++ rest ≡ₚ concat (buckets t) /\
    length es = Nat.min n (length (concat (buckets t))) /\
    StronglySorted (closer target) es /\
    (forall e r, e ∈ es -> r ∈ rest -> closer target e r).
Proof.
  set (sorted := merge_sort (closer target) (concat (buckets t))).
  assert (sorted ≡ₚ concat (buckets t)) as Hperm by apply merge_sort_Permutation.
  assert (StronglySorted (closer target) sorted) as Hs.
  { apply Sorted_StronglySorted; [apply _ |]. apply Sorted_merge_sort. apply _. }
  exists (take n sorted), (drop n sorted). rewrite take_drop. split_and!; [done | done | | |].
  - by rewrite length_take, Hperm.
  - rewrite <- (take_drop n sorted) in Hs. by apply StronglySorted_app in Hs as (_ & ? & _).
  - intros e r He Hre. rewrite <- (take_drop n sorted) in Hs. apply StronglySorted_app in Hs as (Hall & _ & _). auto.
Qed.
