(* ===== verification/Krpc.v ===== *)
(** * KRPC, the messages of the DHT (BEP 5, 32, 42, 43, 44)

    Models [src/src/dht/krpc.rs]: queries, responses and errors as bencoded
    dictionaries, with the compact forms of nodes and peers.  [decode] runs on
    datagrams anyone can send; a [None] of its outer option would be the bencode
    decoder running on for ever. *)

From S2P Require Import Prelude Str Bytes BTree Bencode Net Routing Dicts.

Record MutableFields : Type := mkMutableFields {
  m_k : list Z;
  m_salt : option (list Z);
  m_seq : Z;
  m_sig : list Z;
  m_cas : option Z
}.

Record PutItem : Type := mkPutItem {
  i_v : Bencode;
  mutable : option MutableFields
}.

Inductive Query : Type :=
| Ping (id : NodeId)
| FindNode (id target : NodeId)
| GetPeers (id info_hash : NodeId)
| AnnouncePeer (id info_hash : NodeId) (port : Z) (token : list Z) (implied_port : bool)
| Get (id target : NodeId) (seq : option Z)
| Put (id : NodeId) (token : list Z) (item : PutItem).

Definition query_name (q : Query) : list Z :=
  match q with
  | Ping _ => str "ping"
  | FindNode _ _ => str "find_node"
  | GetPeers _ _ => str "get_peers"
  | AnnouncePeer _ _ _ _ _ => str "announce_peer"
  | Get _ _ _ => str "get"
  | Put _ _ _ => str "put"
  end.

Definition sender_id (q : Query) : NodeId :=
  match q with
  | Ping id | FindNode id _ | GetPeers id _ | AnnouncePeer id _ _ _ _ | Get id _ _ | Put id _ _ => id
  end.

Record Response : Type := mkResponse {
  r_id : NodeId;
  nodes : list CompactNode;
  values : list SocketAddr;
  r_token : option (list Z);
  ip : option SocketAddr;
  r_v : option Bencode;
  r_k : option (list Z);
  r_seq : option Z;
  r_sig : option (list Z)
}.

Inductive KrpcMessage : Type :=
| QueryMsg (t : list Z) (query : Query)
| ResponseMsg (t : list Z) (response : Response)
| ErrorMsg (t : list Z) (code : Z) (message : list Z).

Inductive KrpcError : Type :=
| Decode (e : DecodeError)
| NotADict
| MissingField (name : String.string)
| UnknownMessageType
| UnknownQuery (q : list Z)
| MalformedCompact (what : String.string).
Arguments MissingField name%_string_scope.
Arguments MalformedCompact what%_string_scope.

(** ** Compact forms *)

(** [bytes20], [bytes32] and [bytes64]. *)
Definition bytes_of_len (n : Z) (value : option Bencode) (field wrong : String.string) : result (list Z) KrpcError :=
  let? b := ok_or (v ← value; as_bytes v) (MissingField field) in
  if zlen b =? n then Ok b else Err (MalformedCompact wrong).
Arguments bytes_of_len n value field%_string_scope wrong%_string_scope.

Definition bytes20 (value : option Bencode) (field : String.string) := bytes_of_len 20 value field "id/hash not 20 bytes".
Definition bytes32 (value : option Bencode) (field : String.string) := bytes_of_len 32 value field "public key not 32 bytes".
Definition bytes64 (value : option Bencode) (field : String.string) := bytes_of_len 64 value field "signature not 64 bytes".
Arguments bytes20 value field%_string_scope.
Arguments bytes32 value field%_string_scope.
Arguments bytes64 value field%_string_scope.

Definition NODE4_LEN : nat := 26.
Definition NODE6_LEN : nat := 38.

Definition parse_compact_nodes (data : list Z) : result (list CompactNode) KrpcError :=
  if negb (zlen data mod 26 =? 0) then Err (MalformedCompact "nodes length not a multiple of 26")
  else Ok ((fun c => mkCompactNode (take 20 c) (V4 (take 4 (drop 20 c)) (from_be_bytes (take 2 (drop 24 c))))) <$>
             as_chunks (length data) NODE4_LEN data).

Definition parse_compact_nodes6 (data : list Z) : result (list CompactNode) KrpcError :=
  if negb (zlen data mod 38 =? 0) then Err (MalformedCompact "nodes6 length not a multiple of 38")
  else Ok ((fun c => mkCompactNode (take 20 c) (V6 (take 16 (drop 20 c)) (from_be_bytes (take 2 (drop 36 c))) 0 0)) <$>
             as_chunks (length data) NODE6_LEN data).

Definition encode_compact_nodes (ns : list CompactNode) : list Z :=
  flat_map (fun n => match node_addr n with V4 ip port => node_id n ++ ip ++ to_be_bytes 2 port | V6 _ _ _ _ => [] end) ns.

Definition encode_compact_nodes6 (ns : list CompactNode) : list Z :=
  flat_map (fun n => match node_addr n with V6 ip port _ _ => node_id n ++ ip ++ to_be_bytes 2 port | V4 _ _ => [] end) ns.

Definition encode_peer (peer : SocketAddr) : list Z :=
  match peer with V4 ip _ => ip | V6 ip _ _ _ => ip end ++ to_be_bytes 2 (port peer).

Definition parse_compact_addr (b : list Z) : option SocketAddr :=
  if zlen b =? 6 then Some (V4 (take 4 b) (from_be_bytes (take 2 (drop 4 b))))
  else if zlen b =? 18 then Some (V6 (take 16 b) (from_be_bytes (take 2 (drop 16 b))) 0 0)
  else None.

Definition parse_values (l : list Bencode) : list SocketAddr :=
  filter (fun peer => port peer <> 0) (omap (fun v => b ← as_bytes v; parse_compact_addr b) l).

(** ** Encoding *)

(** The [a] dictionary of a query. *)
Definition query_args (q : Query) : Entries :=
  let a := bt_insert [] (str "id") (Bytes (sender_id q)) in
  match q with
  | Ping _ => a
  | FindNode _ target => bt_insert a (str "target") (Bytes target)
  | GetPeers _ info_hash => bt_insert a (str "info_hash") (Bytes info_hash)
  | AnnouncePeer _ info_hash port token implied_port =>
      let a := bt_insert a (str "implied_port") (Int (if implied_port then 1 else 0)) in
      let a := bt_insert a (str "info_hash") (Bytes info_hash) in
      let a := bt_insert a (str "port") (Int port) in
      bt_insert a (str "token") (Bytes token)
  | Get _ target seq =>
      let a := bt_insert a (str "target") (Bytes target) in
      insert_opt a (str "seq") (Int <$> seq)
  | Put _ token item =>
      let a := bt_insert a (str "token") (Bytes token) in
      let a := bt_insert a (str "v") (i_v item) in
      match mutable item with
      | None => a
      | Some m =>
          let a := bt_insert a (str "k") (Bytes (m_k m)) in
          let a := insert_opt a (str "salt") (Bytes <$> m_salt m) in
          let a := bt_insert a (str "seq") (Int (m_seq m)) in
          let a := bt_insert a (str "sig") (Bytes (m_sig m)) in
          insert_opt a (str "cas") (Int <$> m_cas m)
      end
  end.

(** The [r] dictionary of a response. *)
Definition response_fields (r : Response) : Entries :=
  let m := bt_insert [] (str "id") (Bytes (r_id r)) in
  let m := insert_opt m (str "nodes") (unless_empty (encode_compact_nodes (nodes r))) in
  let m := insert_opt m (str "nodes6") (unless_empty (encode_compact_nodes6 (nodes r))) in
  let m := insert_opt m (str "token") (Bytes <$> r_token r) in
  let m := insert_opt m (str "values")
             (match values r with [] => None | vs => Some (List ((fun p => Bytes (encode_peer p)) <$> vs)) end) in
  let m := insert_opt m (str "v") (r_v r) in
  let m := insert_opt m (str "k") (Bytes <$> r_k r) in
  let m := insert_opt m (str "seq") (Int <$> r_seq r) in
  insert_opt m (str "sig") (Bytes <$> r_sig r).

Definition message_dict (m : KrpcMessage) (read_only : bool) : Entries :=
  match m with
  | QueryMsg t q =>
      let top := bt_insert [] (str "a") (Dict (query_args q)) in
      let top := if read_only then bt_insert top (str "ro") (Int 1) else top in
      let top := bt_insert top (str "q") (Bytes (query_name q)) in
      let top := bt_insert top (str "t") (Bytes t) in
      bt_insert top (str "y") (Bytes (str "q"))
  | ResponseMsg t r =>
      let top := bt_insert [] (str "r") (Dict (response_fields r)) in
      let top := insert_opt top (str "ip") ((fun a => Bytes (encode_peer a)) <$> ip r) in
      let top := bt_insert top (str "t") (Bytes t) in
      bt_insert top (str "y") (Bytes (str "r"))
  | ErrorMsg t code message =>
      let top := bt_insert [] (str "e") (List [Int code; Bytes message]) in
      let top := bt_insert top (str "t") (Bytes t) in
      bt_insert top (str "y") (Bytes (str "e"))
  end.

Definition encode_with (m : KrpcMessage) (read_only : bool) : list Z := encode (Dict (message_dict m read_only)).

Definition encode_msg (m : KrpcMessage) : list Z := encode_with m false.

(** ** Decoding *)

Definition decode_put (a : Entries) (id : NodeId) : result Query KrpcError :=
  let? v := ok_or (bt_get a (str "v")) (MissingField "a.v") in
  let token := default [] (opt_bytes a "token") in
  let? mut := (match bt_get a (str "k") with
               | Some _ =>
                   let? k := bytes32 (bt_get a (str "k")) "a.k" in
                   let? seq := ok_or (opt_int a "seq") (MissingField "a.seq") in
                   let? sig := bytes64 (bt_get a (str "sig")) "a.sig" in
                   Ok (Some (mkMutableFields k (opt_bytes a "salt") seq sig (opt_int a "cas")))
               | None => Ok None
               end) in
  Ok (Put id token (mkPutItem v mut)).

Definition decode_query (q_name : list Z) (a : Entries) : result Query KrpcError :=
  let? id := bytes20 (bt_get a (str "id")) "a.id" in
  if bool_decide (q_name = str "ping") then Ok (Ping id)
  else if bool_decide (q_name = str "find_node") then
    let? target := bytes20 (bt_get a (str "target")) "a.target" in Ok (FindNode id target)
  else if bool_decide (q_name = str "get_peers") then
    let? info_hash := bytes20 (bt_get a (str "info_hash")) "a.info_hash" in Ok (GetPeers id info_hash)
  else if bool_decide (q_name = str "announce_peer") then
    let? info_hash := bytes20 (bt_get a (str "info_hash")) "a.info_hash" in
    Ok (AnnouncePeer id info_hash (wrap 16 (default 0 (opt_int a "port"))) (default [] (opt_bytes a "token"))
          (default 0 (opt_int a "implied_port") =? 1))
  else if bool_decide (q_name = str "get") then
    let? target := bytes20 (bt_get a (str "target")) "a.target" in Ok (Get id target (opt_int a "seq"))
  else if bool_decide (q_name = str "put") then decode_put a id
  else Err (UnknownQuery q_name).

(** [b.try_into().ok()] for an array of [n] bytes. *)
Definition exactly (n : Z) (b : list Z) : option (list Z) := if zlen b =? n then Some b else None.

Definition decode_response (dict r : Entries) : result Response KrpcError :=
  let? id := bytes20 (bt_get r (str "id")) "r.id" in
  let? ns := (match opt_bytes r "nodes" with Some raw => parse_compact_nodes raw | None => Ok [] end) in
  let? ns6 := (match opt_bytes r "nodes6" with Some raw => parse_compact_nodes6 raw | None => Ok [] end) in
  Ok (mkResponse id (ns ++ ns6)
        (match (v ← bt_get r (str "values"); as_list v) with Some l => parse_values l | None => [] end)
        (opt_bytes r "token") (b ← opt_bytes dict "ip"; parse_compact_addr b) (bt_get r (str "v"))
        (b ← opt_bytes r "k"; exactly 32 b) (opt_int r "seq") (b ← opt_bytes r "sig"; exactly 64 b)).

Definition decode_dict_msg (dict : Entries) : result KrpcMessage KrpcError :=
  let? t := ok_or (opt_bytes dict "t") (MissingField "t") in
  let? y := ok_or (opt_bytes dict "y") (MissingField "y") in
  if bool_decide (y = str "q") then
    let? q_name := ok_or (v ← bt_get dict (str "q"); as_str v) (MissingField "q") in
    let? a := ok_or (v ← bt_get dict (str "a"); as_dict v) (MissingField "a") in
    let? query := decode_query q_name a in
    Ok (QueryMsg t query)
  else if bool_decide (y = str "r") then
    let? r := ok_or (v ← bt_get dict (str "r"); as_dict v) (MissingField "r") in
    let? response := decode_response dict r in
    Ok (ResponseMsg t response)
  else if bool_decide (y = str "e") then
    let? e := ok_or (v ← bt_get dict (str "e"); as_list v) (MissingField "e") in
    Ok (ErrorMsg t (default 0 (v ← head e; as_int v)) (default [] (v ← e !! 1%nat; as_str v)))
  else Err UnknownMessageType.

Definition decode (data : list Z) : option (result KrpcMessage KrpcError) :=
  match decode_lenient data with
  | None => None
  | Some (Err e) => Some (Err (Decode e))
  | Some (Ok value) => Some (let? dict := ok_or (as_dict value) NotADict in decode_dict_msg dict)
  end.

Definition is_read_only (data : list Z) : bool :=
  match decode_lenient data with
  | Some (Ok value) => bool_decide ((v ← get value (str "ro"); as_int v) = Some 1)
  | _ => false
  end.

(** ** What the Rust types hold *)

Definition value_fits (v : Bencode) : Prop := wf v /\ nesting v <= MAX_DEPTH - 2.

Definition addr_ok (a : SocketAddr) : Prop :=
  match a with
  | V4 ip p => zlen ip = 4 /\ u_ok 16 p
  | V6 ip p _ _ => zlen ip = 16 /\ u_ok 16 p
  end.

Definition node_ok (n : CompactNode) : Prop := zlen (node_id n) = 20 /\ addr_ok (node_addr n).

Definition mutable_ok (m : MutableFields) : Prop :=
  zlen (m_k m) = 32 /\ zlen (m_sig m) = 64 /\ i64_ok (m_seq m) /\
  match m_salt m with Some s => small s | None => True end /\ match m_cas m with Some c => i64_ok c | None => True end.

Definition query_ok (q : Query) : Prop :=
  id_ok (sender_id q) /\
  match q with
  | Ping _ => True
  | FindNode _ target => zlen target = 20
  | GetPeers _ info_hash => zlen info_hash = 20
  | AnnouncePeer _ info_hash port token _ => zlen info_hash = 20 /\ u_ok 16 port /\ small token
  | Get _ target seq => zlen target = 20 /\ match seq with Some s => i64_ok s | None => True end
  | Put _ token item => small token /\ value_fits (i_v item) /\ match mutable item with Some m => mutable_ok m | None => True end
  end.

Record response_ok (r : Response) : Prop := {
  rok_id : id_ok (r_id r);
  rok_nodes : Forall node_ok (nodes r);
  rok_nodes_small : small (encode_compact_nodes (nodes r)) /\ small (encode_compact_nodes6 (nodes r));
  rok_values : Forall addr_ok (values r);
  rok_token : opt_ok small (r_token r);
  rok_ip : opt_ok addr_ok (ip r);
  rok_v : opt_ok value_fits (r_v r);
  rok_k : opt_ok (fun b => zlen b = 32) (r_k r);
  rok_seq : opt_ok i64_ok (r_seq r);
  rok_sig : opt_ok (fun b => zlen b = 64) (r_sig r)
}.

Definition message_ok (m : KrpcMessage) : Prop :=
  match m with
  | QueryMsg t q => small t /\ query_ok q
  | ResponseMsg t r => small t /\ response_ok r
  | ErrorMsg t code message => small t /\ i64_ok code /\ small message /\ from_utf8_ok message = true
  end.

(** What the receiver makes of a message: an IPv6 address loses its flow label
    and scope, IPv4 nodes come before IPv6 ones, and peers on port 0 are
    dropped. *)
Definition heard_addr (a : SocketAddr) : SocketAddr :=
  match a with V4 ip p => V4 ip p | V6 ip p _ _ => V6 ip p 0 0 end.

Definition heard_nodes (ns : list CompactNode) : list CompactNode :=
  filter (fun n => is_ipv6 (node_addr n) = false) ns ++
  ((fun n => mkCompactNode (node_id n) (heard_addr (node_addr n))) <$> filter (fun n => is_ipv6 (node_addr n) = true) ns).

Definition heard_response (r : Response) : Response :=
  mkResponse (r_id r) (heard_nodes (nodes r)) (filter (fun a => port a <> 0) (heard_addr <$> values r)) (r_token r)
    (heard_addr <$> ip r) (r_v r) (r_k r) (r_seq r) (r_sig r).

Definition heard (m : KrpcMessage) : KrpcMessage :=
  match m with ResponseMsg t r => ResponseMsg t (heard_response r) | _ => m end.

(** ** Compact forms *)

Lemma read_port p : u_ok 16 p -> from_be_bytes (to_be_bytes 2 p) = p.
Proof. intros Hp. by apply from_to_be_bytes_ok. Qed.

Lemma take_drop_parts (a b c : list Z) (n m k : nat) :
  length a = n -> length b = m -> k = (n + m)%nat ->
  take n (a ++ b ++ c) = a /\ take m (drop n (a ++ b ++ c)) = b /\ drop k (a ++ b ++ c) = c.
Proof.
  intros <- <- ->. rewrite take_app_length, drop_app_length, take_app_length, <- drop_drop, !drop_app_length. done.
Qed.

(** The bytes of each IPv4 node, and of each IPv6 one. *)
Definition node4_bytes (n : CompactNode) : option (list Z) :=
  match node_addr n with V4 ip p => Some (node_id n ++ ip ++ to_be_bytes 2 p) | V6 _ _ _ _ => None end.
Definition node6_bytes (n : CompactNode) : option (list Z) :=
  match node_addr n with V6 ip p _ _ => Some (node_id n ++ ip ++ to_be_bytes 2 p) | V4 _ _ => None end.

Lemma encode_nodes_concat ns :
  encode_compact_nodes ns = concat (omap node4_bytes ns) /\ encode_compact_nodes6 ns = concat (omap node6_bytes ns).
Proof.
  induction ns as [| n ns [IH4 IH6]]; [done |]. unfold encode_compact_nodes, encode_compact_nodes6 in *.
  cbn [flat_map omap list_omap]. unfold node4_bytes at 1, node6_bytes at 1.
  destruct (node_addr n); cbn [concat]; rewrite IH4, IH6; done.
Qed.

Lemma node_bytes_len ns :
  Forall node_ok ns -> Forall (fun x => zlen x = 26) (omap node4_bytes ns) /\ Forall (fun x => zlen x = 38) (omap node6_bytes ns).
Proof.
  induction 1 as [| n ns [Hid Ha] Hns [IH4 IH6]]; [done |]. cbn [omap list_omap]. unfold node4_bytes at 1, node6_bytes at 1.
  destruct (node_addr n) as [ip p | ip p f s]; destruct Ha as [Hip _]; split; try done;
    (constructor; [| done]); rewrite !zlen_app, zlen_to_be_bytes, Hid, Hip; done.
Qed.

Lemma parse_nodes_encode ns :
  Forall node_ok ns ->
  parse_compact_nodes (encode_compact_nodes ns) = Ok (filter (fun n => is_ipv6 (node_addr n) = false) ns) /\
  parse_compact_nodes6 (encode_compact_nodes6 ns) =
    Ok ((fun n => mkCompactNode (node_id n) (heard_addr (node_addr n))) <$> filter (fun n => is_ipv6 (node_addr n) = true) ns).
Proof.
  intros Hns. destruct (encode_nodes_concat ns) as [-> ->]. destruct (node_bytes_len ns Hns) as [H4 H6].
  unfold parse_compact_nodes, parse_compact_nodes6.
  rewrite (zlen_concat_len 26), (zlen_concat_len 38) by done.
  rewrite (Z.mul_comm 26), (Z.mul_comm 38), !Z.mod_mul by lia. cbn [Z.eqb negb].
  assert (forall n (ls : list (list Z)), (0 < n)%nat -> Forall (fun x => zlen x = Z.of_nat n) ls -> as_chunks (length (concat ls)) n (concat ls) = ls) as Hch.
  { intros n ls Hn Hls. apply as_chunks_concat_len; [done | |].
    - apply (Forall_impl _ _ _ Hls). intros x Hx. unfold zlen in Hx. lia.
    - pose proof (zlen_concat_len (Z.of_nat n) ls Hls). unfold zlen in *. nia. }
  rewrite !Hch by first [done | unfold NODE4_LEN, NODE6_LEN; lia]. clear Hch H4 H6. split; f_equal.
  - induction Hns as [| n ns [Hid Ha] Hns IH]; [done |]. cbn [omap list_omap]. unfold node4_bytes at 1.
    destruct n as [nid [ip p | ip p f s]]; cbn [node_addr node_id] in *; [| rewrite filter_cons_False; done].
    rewrite filter_cons_True by done. rewrite fmap_cons, IH. f_equal. destruct Ha as [Hip Hp].
    destruct (take_drop_parts nid ip (to_be_bytes 2 p) 20 4 24) as (-> & -> & ->); [unfold zlen in *; lia.. |].
    change (take 2 (to_be_bytes 2 p)) with (to_be_bytes 2 p). by rewrite read_port.
  - induction Hns as [| n ns [Hid Ha] Hns IH]; [done |]. cbn [omap list_omap]. unfold node6_bytes at 1.
    destruct n as [nid [ip p | ip p f s]]; cbn [node_addr node_id] in *; [rewrite filter_cons_False; done |].
    rewrite filter_cons_True by done. rewrite !fmap_cons, IH. f_equal. destruct Ha as [Hip Hp].
    destruct (take_drop_parts nid ip (to_be_bytes 2 p) 20 16 36) as (-> & -> & ->); [unfold zlen in *; lia.. |].
    change (take 2 (to_be_bytes 2 p)) with (to_be_bytes 2 p). by rewrite read_port.
Qed.

Lemma parse_addr_encode a : addr_ok a -> parse_compact_addr (encode_peer a) = Some (heard_addr a).
Proof.
  unfold parse_compact_addr, encode_peer. intros Ha.
  destruct a as [ip p | ip p f s]; destruct Ha as [Hip Hp]; cbn [port]; rewrite zlen_app, zlen_to_be_bytes, Hip.
  - change (4 + Z.of_nat 2 =? 6) with true. cbv iota.
    rewrite take_app_length', drop_app_length' by (unfold zlen in Hip; lia).
    change (take 2 (to_be_bytes 2 p)) with (to_be_bytes 2 p). by rewrite read_port.
  - change (16 + Z.of_nat 2 =? 6) with false. change (16 + Z.of_nat 2 =? 18) with true. cbv iota.
    rewrite take_app_length', drop_app_length' by (unfold zlen in Hip; lia).
    change (take 2 (to_be_bytes 2 p)) with (to_be_bytes 2 p). by rewrite read_port.
Qed.

Lemma parse_values_encode vs :
  Forall addr_ok vs ->
  parse_values ((fun p => Bytes (encode_peer p)) <$> vs) = filter (fun a => port a <> 0) (heard_addr <$> vs).
Proof.
  intros Hvs. unfold parse_values. f_equal. induction Hvs as [| a vs Ha Hvs IH]; [done |].
  rewrite !fmap_cons. cbn [omap list_omap as_bytes mbind option_bind]. rewrite parse_addr_encode by done. by rewrite <- IH.
Qed.

Lemma encode_peer_len a : addr_ok a -> zlen (encode_peer a) <= 18.
Proof.
  intros Ha. unfold encode_peer. rewrite zlen_app, zlen_to_be_bytes. destruct a; destruct Ha as [-> _]; lia.
Qed.

(** ** The dictionaries are values the codec carries *)

Lemma id_ok_len i : id_ok i -> zlen i = 20.
Proof. intros [Hl _]. unfold zlen. by rewrite Hl. Qed.

Lemma query_args_ok q : query_ok q -> entries_ok (MAX_DEPTH - 2) (query_args q).
Proof.
  intros [Hid%id_ok_len Hq]. destruct q as [id | id target | id ih | id ih port token implied | id target seq | id token [v mut]];
    cbn [query_args sender_id mutable i_v] in *; cbv zeta.
  - entries. entry.
  - entries; entry.
  - entries; entry.
  - destruct Hq as (Hih & Hport & Htok). entries; entry.
  - destruct Hq as [Ht Hs]. entries; entry.
  - destruct Hq as (Htok & Hv & Hm). destruct mut as [[k salt s sig cas] |].
    + destruct Hm as (Hk & Hsig & Hseq & Hsalt & Hcas). cbn [m_k m_salt m_seq m_sig m_cas] in *. entries; entry.
    + entries; entry.
Qed.

Lemma response_fields_ok r : response_ok r -> entries_ok (MAX_DEPTH - 2) (response_fields r).
Proof.
  intros [Hid%id_ok_len Hns [Hs4 Hs6] Hvs Htok _ Hv Hk Hseq Hsig]. unfold response_fields. cbv zeta.
  destruct r as [id ns vs tok own v k seq sig]. cbn [r_id nodes values r_token ip r_v r_k r_seq r_sig] in *.
  entries; try entry.
  - destruct vs as [| a vs]; [exact I |]. apply (fits_list 97); [done |]. apply Forall_fmap.
    apply (Forall_impl _ _ _ Hvs). intros x Hx. apply fits_bytes; [done |].
    apply encode_peer_len in Hx. unfold small, i64_max. lia.
  - destruct (encode_compact_nodes6 ns); entry.
  - destruct (encode_compact_nodes ns); entry.
Qed.

Lemma message_dict_ok m ro : message_ok m -> fits_at MAX_DEPTH (Dict (message_dict m ro)).
Proof.
  intros Hm. apply (fits_dict 99); [done |]. destruct m as [t q | t r | t code msg]; cbn [message_dict] in *; cbv zeta.
  - destruct Hm as [Ht Hq]. apply query_args_ok in Hq. apply (fits_dict 98) in Hq; [| done].
    destruct ro; entries; try done; destruct q; entry.
  - destruct Hm as [Ht Hr]. pose proof (rok_ip r Hr) as Hip. apply response_fields_ok in Hr.
    apply (fits_dict 98) in Hr; [| done]. entries; try done.
    destruct (ip r) as [a |]; [| exact I]. apply fits_bytes; [done |].
    apply encode_peer_len in Hip. unfold small, i64_max. lia.
  - destruct Hm as (Ht & Hc & Hmsg & _). entries; try done.
Qed.

(** ** Every field is read back *)

Lemma bytes_of_len_ok n b field wrong : zlen b = n -> bytes_of_len n (Some (Bytes b)) field wrong = Ok b.
Proof. intros Hb. unfold bytes_of_len. cbn. rewrite Hb, Z.eqb_refl. done. Qed.

Lemma exactly_ok n o : opt_ok (fun b => zlen b = n) o -> (b ← (Bytes <$> o) ≫= as_bytes; exactly n b) = o.
Proof. destruct o as [b |]; [| done]. cbn. unfold exactly. intros ->. by rewrite Z.eqb_refl. Qed.

Lemma decode_query_args q : query_ok q -> decode_query (query_name q) (query_args q) = Ok q.
Proof.
  intros [Hid%id_ok_len Hq]. unfold decode_query, bytes20.
  destruct q as [id | id target | id ih | id ih port token implied | id target seq | id token [v mut]];
    cbn [query_args query_name sender_id mutable i_v] in *; cbv zeta; unfold opt_int, opt_bytes; read_keys.
  - rewrite bytes_of_len_ok by done. done.
  - rewrite !bytes_of_len_ok by done. done.
  - rewrite !bytes_of_len_ok by done. done.
  - destruct Hq as (Hih & Hport & Htok). rewrite !bytes_of_len_ok by done. cbn. unfold wrap. rewrite Z.mod_small by done. by destruct implied.
  - destruct Hq as [Ht Hs]. rewrite !bytes_of_len_ok by done. by destruct seq.
  - destruct Hq as (Htok & Hv & Hm). unfold decode_put, bytes32, bytes64, opt_int, opt_bytes.
    destruct mut as [[k salt s sig cas] |].
    + destruct Hm as (Hk & Hsig & _). cbn [m_k m_salt m_seq m_sig m_cas] in *. read_keys.
      rewrite !bytes_of_len_ok by done. cbn. by destruct salt, cas.
    + read_keys. rewrite bytes_of_len_ok by done. done.
Qed.

Lemma decode_response_fields t r :
  response_ok r -> decode_response (message_dict (ResponseMsg t r) false) (response_fields r) = Ok (heard_response r).
Proof.
  intros Hr. pose proof (parse_nodes_encode (nodes r) (rok_nodes r Hr)) as [H4 H6].
  unfold decode_response, bytes20, opt_bytes, opt_int, response_fields. cbn [message_dict]. cbv zeta. read_keys.
  rewrite bytes_of_len_ok by apply id_ok_len, Hr. cbn [result_bind].
  assert (match (v ← unless_empty (encode_compact_nodes (nodes r)); as_bytes v) with
          | Some raw => parse_compact_nodes raw | None => Ok [] end = parse_compact_nodes (encode_compact_nodes (nodes r))) as E4.
  { by destruct (encode_compact_nodes (nodes r)). }
  assert (match (v ← unless_empty (encode_compact_nodes6 (nodes r)); as_bytes v) with
          | Some raw => parse_compact_nodes6 raw | None => Ok [] end = parse_compact_nodes6 (encode_compact_nodes6 (nodes r))) as E6.
  { by destruct (encode_compact_nodes6 (nodes r)). }
  rewrite E4, E6, H4, H6. cbn [result_bind]. unfold heard_response, heard_nodes. f_equal. f_equal.
  - rewrite <- parse_values_encode by apply Hr. by destruct (values r).
  - by destruct (r_token r).
  - pose proof (rok_ip r Hr) as Hip. destruct (ip r) as [a |]; [| done]. cbn in *. by apply parse_addr_encode.
  - by apply (exactly_ok 32), Hr.
  - by destruct (r_seq r).
  - by apply (exactly_ok 64), Hr.
Qed.

Lemma decode_message_dict m ro : message_ok m -> decode_dict_msg (message_dict m ro) = Ok (heard m).
Proof.
  intros Hm. destruct m as [t q | t r | t code msg]; cbn [message_dict heard] in *; unfold decode_dict_msg, opt_bytes; cbv zeta.
  - destruct Hm as [Ht Hq]. destruct ro; read_keys; unfold as_str; cbn [as_bytes mbind option_bind];
      (replace (from_utf8_ok (query_name q)) with true by (by destruct q)); cbn [ok_or result_bind];
      by rewrite decode_query_args.
  - destruct Hm as [Ht Hr]. pose proof (decode_response_fields t r Hr) as E. cbn [message_dict] in E. cbv zeta in E.
    read_keys. by rewrite E.
  - destruct Hm as (Ht & Hc & Hmsg & Hutf). read_keys. cbn. by rewrite Hutf.
Qed.

Lemma read_only_key m ro :
  (v ← bt_get (message_dict m ro) (str "ro"); as_int v) =
    match m with QueryMsg _ _ => if ro then Some 1 else None | _ => None end.
Proof. destruct m as [t q | t r | t code msg]; cbn [message_dict]; cbv zeta; [destruct ro | |]; read_keys; done. Qed.

Lemma krpc_message_heard m ro :
  message_ok m -> zlen (encode_with m ro) <= i64_max ->
  decode (encode_with m ro) = Some (Ok (heard m)) /\
  is_read_only (encode_with m ro) = match m with QueryMsg _ _ => ro | _ => false end.
Proof.
  intros Hm Hlen. pose proof (message_dict_ok m ro Hm) as [Hwf Hn].
  pose proof (decode_top_encode _ false Hwf Hn Hlen) as E.
  unfold decode, is_read_only, decode_lenient, new_lenient, encode_with in *. rewrite E. cbn [as_dict ok_or result_bind get].
  rewrite decode_message_dict by done. split; [done |]. rewrite read_only_key. by destruct m, ro.
Qed.


(** ** What is heard fits the Rust types *)

Lemma read_u16_ok b : length b = 2%nat -> bytes_ok b -> u_ok 16 (from_be_bytes b).
Proof. intros Hl Hb. pose proof (from_be_bytes_bound b Hb) as H. unfold zlen in H. rewrite Hl in H. done. Qed.

Lemma parse_nodes_ok raw ns :
  bytes_ok raw -> parse_compact_nodes raw = Ok ns ->
  Forall node_ok ns /\ Forall (fun n => is_ipv6 (node_addr n) = false) ns /\ 26 * zlen ns <= zlen raw.
Proof.
  intros Hb H. unfold parse_compact_nodes in H. destruct (negb _); [done |]. injection H as <-.
  destruct (as_chunks_each NODE4_LEN (length raw) raw Hb) as [Hc Hl]. split_and!.
  - apply Forall_fmap. apply (Forall_impl _ _ _ Hc). intros c [Hlen Hbc]. unfold NODE4_LEN in Hlen.
    unfold compose, node_ok, addr_ok, zlen. cbn [node_id node_addr]. rewrite !length_take, length_drop, Hlen.
    split; [done |]. split; [done |]. apply read_u16_ok; [by rewrite length_take, length_drop, Hlen |].
    by apply Forall_take, Forall_drop.
  - apply Forall_fmap. apply (Forall_impl _ _ _ Hc). done.
  - unfold zlen. rewrite length_fmap. unfold NODE4_LEN in *. lia.
Qed.

Lemma parse_nodes6_ok raw ns :
  bytes_ok raw -> parse_compact_nodes6 raw = Ok ns ->
  Forall node_ok ns /\
  Forall (fun n => is_ipv6 (node_addr n) = true /\ heard_addr (node_addr n) = node_addr n) ns /\ 38 * zlen ns <= zlen raw.
Proof.
  intros Hb H. unfold parse_compact_nodes6 in H. destruct (negb _); [done |]. injection H as <-.
  destruct (as_chunks_each NODE6_LEN (length raw) raw Hb) as [Hc Hl]. split_and!.
  - apply Forall_fmap. apply (Forall_impl _ _ _ Hc). intros c [Hlen Hbc]. unfold NODE6_LEN in Hlen.
    unfold compose, node_ok, addr_ok, zlen. cbn [node_id node_addr]. rewrite !length_take, length_drop, Hlen.
    split; [done |]. split; [done |]. apply read_u16_ok; [by rewrite length_take, length_drop, Hlen |].
    by apply Forall_take, Forall_drop.
  - apply Forall_fmap. apply (Forall_impl _ _ _ Hc). done.
  - unfold zlen. rewrite length_fmap. unfold NODE6_LEN in *. lia.
Qed.

Lemma parse_addr_ok b a : bytes_ok b -> parse_compact_addr b = Some a -> addr_ok a /\ heard_addr a = a.
Proof.
  intros Hb H. unfold parse_compact_addr in H. unfold zlen in H.
  destruct (Z.eqb_spec (Z.of_nat (length b)) 6) as [E |]; [| destruct (Z.eqb_spec (Z.of_nat (length b)) 18) as [E |]; [| done]];
    injection H as <-; (split; [| done]); unfold addr_ok, zlen; rewrite length_take;
    (split; [lia |]; apply read_u16_ok; [rewrite length_take, length_drop; lia | by apply Forall_take, Forall_drop]).
Qed.

(** What a value found in a decoded dictionary is known to be. *)
Definition heard_value (n : Z) (v : Bencode) : Prop := fits_at n v /\ byte_value v.
Definition heard_entries (n : Z) (m : Entries) : Prop := bt_sorted m /\ Forall (fun kv => heard_value n kv.2) m.

Lemma heard_get n m k v : heard_entries n m -> bt_get m k = Some v -> heard_value n v.
Proof.
  intros [Hs Hm] Hg. apply bt_get_elem in Hg; [| done]. rewrite Forall_forall in Hm. by apply (Hm (k, v)).
Qed.

Lemma heard_dict n m : heard_value (1 + n) (Dict m) -> 0 <= n -> heard_entries n m.
Proof.
  intros [[Hwf Hn] Hb] H0. apply wf_Dict in Hwf as [Hs Hwf]. apply nesting_Dict in Hn; [| done]. apply byte_value_Dict in Hb.
  split; [done |]. apply Forall_forall. intros kv Hkv. rewrite Forall_forall in *.
  specialize (Hwf _ Hkv). specialize (Hn _ Hkv). specialize (Hb _ Hkv). split; [split |]; naive_solver.
Qed.

Lemma heard_bytes n m k b : heard_entries n m -> opt_bytes m k = Some b -> small b /\ bytes_ok b.
Proof.
  intros Hm H. unfold opt_bytes in H. destruct (bt_get m (str k)) as [v |] eqn:E; [| done].
  apply (heard_get _ _ _ _ Hm) in E as [[Hwf _] Hb]. destruct v; try done. by injection H as <-.
Qed.

Lemma heard_int n m k i : heard_entries n m -> opt_int m k = Some i -> i64_ok i.
Proof.
  intros Hm H. unfold opt_int in H. destruct (bt_get m (str k)) as [v |] eqn:E; [| done].
  apply (heard_get _ _ _ _ Hm) in E as [[Hwf _] _]. destruct v; try done. by injection H as <-.
Qed.

Lemma bytes_of_len_inv n o field wrong b : bytes_of_len n o field wrong = Ok b -> zlen b = n.
Proof.
  unfold bytes_of_len. intros (x & _ & H)%result_bind_Ok. destruct (Z.eqb_spec (zlen x) n); [| done]. by injection H as <-.
Qed.

Lemma heard_id n m k field i : heard_entries n m -> bytes20 (bt_get m (str k)) field = Ok i -> id_ok i.
Proof.
  intros Hm H. assert (zlen i = 20) as Hl by (by eapply bytes_of_len_inv).
  unfold bytes20, bytes_of_len in H. apply result_bind_Ok in H as (b & Hb%ok_or_Ok & H). destruct (zlen b =? 20); [| done].
  injection H as <-. split; [unfold zlen in Hl; lia |]. by apply (heard_bytes _ _ _ _ Hm Hb).
Qed.

Lemma exactly_inv n o b : (x ← o; exactly n x) = Some b -> zlen b = n.
Proof.
  destruct o as [x |]; [| done]. cbn. unfold exactly. destruct (Z.eqb_spec (zlen x) n); [| done]. by intros [= <-].
Qed.

Lemma small_token n m k : heard_entries n m -> small (default [] (opt_bytes m k)).
Proof.
  intros Hm. destruct (opt_bytes m k) eqn:E; [by apply (heard_bytes n m k) in E as [] | done].
Qed.

Lemma opt_int_ok n m k : heard_entries n m -> opt_ok i64_ok (opt_int m k).
Proof. intros Hm. destruct (opt_int m k) eqn:E; [by apply (heard_int n m k) in E | done]. Qed.

Lemma opt_bytes_ok n m k : heard_entries n m -> opt_ok small (opt_bytes m k).
Proof. intros Hm. destruct (opt_bytes m k) eqn:E; [by apply (heard_bytes n m k) in E as [] | done]. Qed.

#[export] Hint Resolve bytes_of_len_inv exactly_inv small_token opt_int_ok opt_bytes_ok : dicts.

Lemma decode_put_ok a id q :
  heard_entries (MAX_DEPTH - 2) a -> id_ok id -> decode_put a id = Ok q -> query_ok q.
Proof.
  intros Ha Hid H. unfold decode_put, bytes32, bytes64 in H.
  apply result_bind_Ok in H as (v & Hv & H). apply result_bind_Ok in H as (mut & Hmut & H). injection H as <-.
  apply ok_or_Ok, (heard_get _ _ _ _ Ha) in Hv as [Hv _].
  split; [done |]. split; [eauto with dicts |]. split; [done |]. cbn [mutable].
  destruct (bt_get a (str "k")) as [kv |]; [| by injection Hmut as <-].
  apply result_bind_Ok in Hmut as (k & Hk & H). apply result_bind_Ok in H as (seq & Hseq & H).
  apply result_bind_Ok in H as (sig & Hsig & H). injection H as <-. apply ok_or_Ok, (heard_int _ _ _ _ Ha) in Hseq.
  split; [eauto with dicts |]. split; [eauto with dicts |]. split; [done |]. split; [by eapply opt_bytes_ok | by eapply opt_int_ok].
Qed.

Lemma decode_query_ok name a q :
  heard_entries (MAX_DEPTH - 2) a -> decode_query name a = Ok q -> query_ok q.
Proof.
  intros Ha H. unfold decode_query in H. apply result_bind_Ok in H as (id & Hid & H). apply (heard_id _ _ _ _ _ Ha) in Hid.
  unfold bytes20 in H.
  repeat case_bool_decide.
  - by injection H as <-.
  - apply result_bind_Ok in H as (x & Hx%bytes_of_len_inv & H). by injection H as <-.
  - apply result_bind_Ok in H as (x & Hx%bytes_of_len_inv & H). by injection H as <-.
  - apply result_bind_Ok in H as (x & Hx%bytes_of_len_inv & H). injection H as <-.
    split; [done |]. split; [done |]. split; [apply Z.mod_pos_bound; lia | eauto with dicts].
  - apply result_bind_Ok in H as (x & Hx%bytes_of_len_inv & H). injection H as <-.
    split; [done |]. split; [done |]. by eapply opt_int_ok.
  - by eapply decode_put_ok.
  - done.
Qed.

Lemma fmap_id_Forall {A} (f : A -> A) (l : list A) : Forall (fun x => f x = x) l -> f <$> l = l.
Proof. induction 1 as [| x l Hx Hl IH]; [done |]. by rewrite fmap_cons, Hx, IH. Qed.

Lemma filter_all {A} (P : A -> Prop) `{!forall x, Decision (P x)} l : Forall P l -> filter P l = l.
Proof. induction 1 as [| x l Hx Hl IH]; [done |]. by rewrite filter_cons_True, IH. Qed.

Lemma filter_no {A} (P : A -> Prop) `{!forall x, Decision (P x)} l : Forall (fun x => ~ P x) l -> filter P l = [].
Proof. induction 1 as [| x l Hx Hl IH]; [done |]. by rewrite filter_cons_False. Qed.

(** The nodes of a response, IPv4 ones first. *)
Section heard_nodes.
Context (ns ns6 : list CompactNode).
Hypothesis H4 : Forall (fun n => is_ipv6 (node_addr n) = false) ns.
Hypothesis H6 : Forall (fun n => is_ipv6 (node_addr n) = true /\ heard_addr (node_addr n) = node_addr n) ns6.

Lemma heard_nodes_app : heard_nodes (ns ++ ns6) = ns ++ ns6.
Proof using H4 H6.
  unfold heard_nodes. rewrite !filter_app.
  rewrite (filter_all _ ns), (filter_no _ ns6), (filter_no _ ns), (filter_all _ ns6), app_nil_r, app_nil_l.
  - f_equal. apply fmap_id_Forall. apply (Forall_impl _ _ _ H6). intros [id a] [_ Ha]. cbn in *. by rewrite Ha.
  - apply (Forall_impl _ _ _ H6). by intros n [].
  - apply (Forall_impl _ _ _ H4). intros n Hn. by rewrite Hn.
  - apply (Forall_impl _ _ _ H6). intros n [Hn _]. by rewrite Hn.
  - done.
Qed.

Lemma encode_nodes_app :
  Forall node_ok (ns ++ ns6) ->
  zlen (encode_compact_nodes (ns ++ ns6)) = 26 * zlen ns /\ zlen (encode_compact_nodes6 (ns ++ ns6)) = 38 * zlen ns6.
Proof using H4 H6.
  intros Hok. destruct (encode_nodes_concat (ns ++ ns6)) as [-> ->]. destruct (node_bytes_len _ Hok) as [L4 L6].
  rewrite (zlen_concat_len 26), (zlen_concat_len 38) by done. clear L4 L6 Hok. split; f_equal.
  - rewrite omap_app. assert (omap node4_bytes ns6 = []) as ->.
    { clear -H6. induction H6 as [| [id [ip p | ip p f s]] l [Hn _] Hl IH]; [done | done |]. cbn. by apply IH. }
    rewrite app_nil_r. clear -H4. induction H4 as [| [id [ip p | ip p f s]] l Hn Hl IH]; [done | | done].
    cbn. rewrite !zlen_cons. f_equal. by apply IH.
  - rewrite omap_app. assert (omap node6_bytes ns = []) as ->.
    { clear -H4. induction H4 as [| [id [ip p | ip p f s]] l Hn Hl IH]; [done | | done]. cbn. by apply IH. }
    clear -H6. induction H6 as [| [id [ip p | ip p f s]] l [Hn _] Hl IH]; [done | done |].
    cbn. rewrite !zlen_cons. f_equal. by apply IH.
Qed.
End heard_nodes.

Lemma parse_values_ok l :
  Forall byte_value l -> Forall addr_ok (parse_values l) /\ filter (fun a => port a <> 0) (heard_addr <$> parse_values l) = parse_values l.
Proof.
  intros Hl. unfold parse_values.
  set (all := omap (fun v => b ← as_bytes v; parse_compact_addr b) l).
  assert (Forall (fun a => addr_ok a /\ heard_addr a = a) all) as Hall.
  { unfold all. clear all. induction Hl as [| v l Hv Hl IH]; [done |]. cbn.
    destruct v as [i | b | |]; cbn; try done. destruct (parse_compact_addr b) as [a |] eqn:E; [| done].
    constructor; [| done]. by apply (parse_addr_ok b). }
  assert (Forall (fun a => addr_ok a /\ heard_addr a = a) (filter (fun a => port a <> 0) all)) as Hf.
  { apply Forall_forall. intros x [_ Hx]%list_elem_of_filter. rewrite Forall_forall in Hall. auto. }
  apply Forall_and in Hf as [Hok Hfix]. split; [done |]. rewrite fmap_id_Forall by done.
  apply filter_all, Forall_forall. by intros x [Hx _]%list_elem_of_filter.
Qed.

Lemma nodes_read n r ns :
  heard_entries n r -> match opt_bytes r "nodes" with Some raw => parse_compact_nodes raw | None => Ok [] end = Ok ns ->
  Forall node_ok ns /\ Forall (fun n => is_ipv6 (node_addr n) = false) ns /\ 26 * zlen ns <= i64_max.
Proof.
  intros Hr H. destruct (opt_bytes r "nodes") as [raw |] eqn:E; [| by injection H as <-].
  apply (heard_bytes _ _ _ _ Hr) in E as [Hs Hb]. apply parse_nodes_ok in H as (? & ? & ?); [| done].
  unfold small in Hs. split_and!; [done.. | lia].
Qed.

Lemma nodes6_read n r ns :
  heard_entries n r -> match opt_bytes r "nodes6" with Some raw => parse_compact_nodes6 raw | None => Ok [] end = Ok ns ->
  Forall node_ok ns /\ Forall (fun n => is_ipv6 (node_addr n) = true /\ heard_addr (node_addr n) = node_addr n) ns /\
  38 * zlen ns <= i64_max.
Proof.
  intros Hr H. destruct (opt_bytes r "nodes6") as [raw |] eqn:E; [| by injection H as <-].
  apply (heard_bytes _ _ _ _ Hr) in E as [Hs Hb]. apply parse_nodes6_ok in H as (? & ? & ?); [| done].
  unfold small in Hs. split_and!; [done.. | lia].
Qed.

Lemma values_read n r :
  heard_entries n r ->
  let vs := match (v ← bt_get r (str "values"); as_list v) with Some l => parse_values l | None => [] end in
  Forall addr_ok vs /\ filter (fun a => port a <> 0) (heard_addr <$> vs) = vs.
Proof.
  intros Hr. cbv zeta. destruct (bt_get r (str "values")) as [v |] eqn:E; [| done].
  apply (heard_get _ _ _ _ Hr) in E as [_ Hb]. destruct v as [| | l |]; try done. cbn.
  by apply parse_values_ok, byte_value_List.
Qed.

Lemma own_address_read n dict :
  heard_entries n dict ->
  let a := (b ← opt_bytes dict "ip"; parse_compact_addr b) in opt_ok addr_ok a /\ heard_addr <$> a = a.
Proof.
  intros Hd. cbv zeta. destruct (opt_bytes dict "ip") as [b |] eqn:E; [| done].
  apply (heard_bytes _ _ _ _ Hd) in E as [_ Hb]. cbn. destruct (parse_compact_addr b) as [a |] eqn:Ea; [| done].
  apply parse_addr_ok in Ea as [Ha Hf]; [| done]. split; [done |]. cbn. by rewrite Hf.
Qed.

Lemma decode_response_ok dict r resp n :
  heard_entries n dict -> heard_entries (MAX_DEPTH - 2) r -> decode_response dict r = Ok resp ->
  response_ok resp /\ heard_response resp = resp.
Proof.
  intros Hd Hr H. unfold decode_response in H. apply result_bind_Ok in H as (id & Hid & H). apply (heard_id _ _ _ _ _ Hr) in Hid.
  apply result_bind_Ok in H as (ns & Hns & H). apply result_bind_Ok in H as (ns6 & Hns6 & H). injection H as <-.
  apply (nodes_read _ _ _ Hr) in Hns as (Ok4 & F4 & L4). apply (nodes6_read _ _ _ Hr) in Hns6 as (Ok6 & F6 & L6).
  assert (Forall node_ok (ns ++ ns6)) as Hok by (by apply Forall_app).
  destruct (encode_nodes_app ns ns6 F4 F6 Hok) as [S4 S6].
  destruct (values_read _ _ Hr) as [V1 V2]. destruct (own_address_read _ _ Hd) as [I1 I2]. split.
  - constructor; cbn [r_id nodes values r_token ip r_v r_k r_seq r_sig]; try done.
    + unfold small. lia.
    + by eapply opt_bytes_ok.
    + destruct (bt_get r (str "v")) as [v |] eqn:E; [| done]. by apply (heard_get _ _ _ _ Hr) in E as [].
    + destruct (b ← opt_bytes r "k"; exactly 32 b) eqn:E; [| done]. by apply exactly_inv in E.
    + by eapply opt_int_ok.
    + destruct (b ← opt_bytes r "sig"; exactly 64 b) eqn:E; [| done]. by apply exactly_inv in E.
  - unfold heard_response. cbn [r_id nodes values r_token ip r_v r_k r_seq r_sig]. by rewrite heard_nodes_app, V2, I2.
Qed.

Lemma decode_dict_msg_ok dict m :
  heard_entries (MAX_DEPTH - 1) dict -> decode_dict_msg dict = Ok m -> message_ok m /\ heard m = m.
Proof.
  intros Hd H. unfold decode_dict_msg in H. apply result_bind_Ok in H as (t & Ht & H).
  apply ok_or_Ok, (heard_bytes _ _ _ _ Hd) in Ht as [Ht _]. apply result_bind_Ok in H as (y & _ & H).
  assert (forall k a, (v ← bt_get dict (str k); as_dict v) = Some a -> heard_entries (MAX_DEPTH - 2) a) as Hsub.
  { intros k a Hk. destruct (bt_get dict (str k)) as [v |] eqn:E; [| done]. apply (heard_get _ _ _ _ Hd) in E.
    destruct v; try done. injection Hk as <-. by apply heard_dict. }
  repeat case_bool_decide; [.. | done].
  - apply result_bind_Ok in H as (name & _ & H). apply result_bind_Ok in H as (a & Ha%ok_or_Ok & H).
    apply result_bind_Ok in H as (q & Hq & H). injection H as <-. apply Hsub in Ha. apply decode_query_ok in Hq; done.
  - apply result_bind_Ok in H as (r & Hr%ok_or_Ok & H). apply result_bind_Ok in H as (resp & Hresp & H).
    injection H as <-. apply Hsub in Hr. destruct (decode_response_ok _ _ _ _ Hd Hr Hresp) as [Hok Hh].
    split; [done |]. cbn. by rewrite Hh.
  - apply result_bind_Ok in H as (e & He%ok_or_Ok & H). injection H as <-. split; [| done].
    destruct (bt_get dict (str "e")) as [v |] eqn:E; [| done]. apply (heard_get _ _ _ _ Hd) in E as [[Hwf _] _].
    destruct v as [| | l |]; try done. injection He as <-. apply wf_List in Hwf.
    split; [done |]. destruct l as [| c l]; [done |]. apply Forall_cons in Hwf as [Hc Hl]. cbn [head mbind option_bind lookup list_lookup].
    split; [by destruct c |]. destruct l as [| msg l]; [done |]. apply Forall_cons in Hl as [Hmsg _]. cbn.
    destruct msg as [| b | |]; try done. cbn. unfold as_str. cbn. by destruct (from_utf8_ok b) eqn:Eu.
Qed.

Lemma krpc_decode_sound data :
  zlen data <= i64_max -> bytes_ok data ->
  exists r, decode data = Some r /\
  forall m, r = Ok m ->
    message_ok m /\ (zlen (encode_msg m) <= i64_max -> decode (encode_msg m) = Some (Ok m)).
Proof.
  intros Hlen Hb. destruct (decode_top_total data false Hlen) as [v Ev]. unfold decode at 1. unfold decode_lenient, new_lenient.
  rewrite Ev. destruct v as [v | e]; eexists; (split; [done |]); [| done]. intros m Hm.
  apply result_bind_Ok in Hm as (dict & Hdict%ok_or_Ok & Hm). destruct v as [| | | d]; try done. injection Hdict as <-.
  pose proof (decode_top_made _ _ _ Hlen Hb Ev) as Hv. apply decode_top_sound in Ev as (Hwf & Hn & _); [| done].
  apply decode_dict_msg_ok in Hm as [Hok Hh]; [| by apply heard_dict]. split; [done |].
  intros Hl. destruct (krpc_message_heard m false Hok Hl) as [E _]. by rewrite Hh in E.
Qed.

(** ** Theorems *)

(** C35: a message, encoded by one node and decoded by another, arrives as it
    was sent (up to what the compact forms cannot carry: the scope of an IPv6
    address, the order of the two families of nodes, and peers on port 0,
    which the receiver drops), and a query is marked read-only exactly when
    the sender marked it. *)
Theorem krpc_roundtrip m ro :
  message_ok m -> zlen (encode_with m ro) <= i64_max ->
  decode (encode_with m ro) = Some (Ok (heard m)) /\
  is_read_only (encode_with m ro) = match m with QueryMsg _ _ => ro | _ => false end.
Proof. apply krpc_message_heard. Qed.

(** Whatever bytes arrive, decoding returns a message or an error.  A
    message it returns fits the Rust types (ids of 20 bytes, keys of 32,
    signatures of 64, ports of 16 bits, UTF-8 error texts), and is one that
    survives being passed on: encoded again and decoded, it is the same. *)
Theorem krpc_decode_total data :
  zlen data <= i64_max -> bytes_ok data ->
  exists r, decode data = Some r /\
  forall m, r = Ok m ->
    message_ok m /\ (zlen (encode_msg m) <= i64_max -> decode (encode_msg m) = Some (Ok m)).
Proof. apply krpc_decode_sound. Qed.

Definition example_node : CompactNode := mkCompactNode (repeat 7 20) (V4 [10; 0; 0; 1] 6881).

Definition example_message : KrpcMessage :=
  ResponseMsg [97; 97] (mkResponse (repeat 1 20) [mkCompactNode (repeat 2 20) (V6 (repeat 3 16) 80 5 6); example_node]
    [V4 [1; 2; 3; 4] 51413; V4 [1; 2; 3; 5] 0] (Some [9; 9]) None (Some (Int 42)) None (Some 7) None).

Lemma krpc_roundtrip_witness :
  message_ok example_message /\ zlen (encode_with example_message false) <= i64_max /\
  decode (encode_with example_message false) = Some (Ok (heard example_message)) /\
  is_read_only (encode_with example_message false) = false.
Proof.
  assert (message_ok example_message) as Hm.
  { split; [vm_compute; discriminate |]. constructor; repeat constructor; vm_compute; first [reflexivity | discriminate | split; first [reflexivity | discriminate]]. }
  assert (zlen (encode_with example_message false) <= i64_max) as Hl by (vm_compute; discriminate).
  split; [exact Hm |]. split; [exact Hl |]. exact (krpc_roundtrip example_message false Hm Hl).
Defined.

Lemma krpc_decode_total_witness :
  bytes_ok (encode_msg example_message) /\
  exists r, decode (encode_msg example_message) = Some r /\
  forall m, r = Ok m -> message_ok m /\ (zlen (encode_msg m) <= i64_max -> decode (encode_msg m) = Some (Ok m)).
Proof.
  assert (bytes_ok (encode_msg example_message)) as Hb by (apply (bool_decide_unpack _); vm_compute; exact I).
  split; [exact Hb |]. apply krpc_decode_total; [vm_compute; discriminate | exact Hb].
Defined.
