(* ===== verification/SecureId.v ===== *)
(** * Node ids made from addresses (BEP 42)

    Models [src/src/dht/secure_id.rs]: the CRC-32C of a masked address, the id
    a node makes from it, and the check others make of that id. *)

From S2P Require Import Prelude Bytes Net Routing.

Definition POLY : Z := 0x82F63B78.

(** One turn of the bit loop. *)
Definition crc_bit (crc : Z) : Z :=
  if Z.land crc 1 =? 1 then Z.lxor (Z.shiftr crc 1) POLY else Z.shiftr crc 1.

Definition crc_byte (crc byte : Z) : Z := Nat.iter 8 crc_bit (Z.lxor crc byte).

Definition crc32c (data : list Z) : Z := Z.lxor (foldl crc_byte 0xFFFFFFFF data) 0xFFFFFFFF.

Definition MASK_V4 : list Z := [0x03; 0x0f; 0x3f; 0xff].
Definition MASK_V6 : list Z := [0x01; 0x03; 0x07; 0x0f; 0x1f; 0x3f; 0x7f; 0xff].

(** What of the address the checksum covers, [r] mixed into its first byte. *)
Definition masked (octets mask : list Z) (r : Z) : list Z := alter (fun b => Z.lor b r) 0%nat (zip_with Z.land octets mask).

Definition checksum (ip : IpAddr) (rand : Z) : Z :=
  let r := Z.shiftl (Z.land rand 0x07) 5 in
  match ip with
  | Ip4 octets => crc32c (masked octets MASK_V4 r)
  | Ip6 octets => crc32c (masked (take 8 octets) MASK_V6 r)
  end.

(** [(crc >> n) as u8]. *)
Definition crc_u8 (crc n : Z) : Z := wrap 8 (Z.shiftr crc n).

Definition node_id_for (ip : IpAddr) (rand : Z) (random : NodeId) : NodeId :=
  let crc := checksum ip rand in
  let random := <[0%nat := crc_u8 crc 24]> random in
  let random := <[1%nat := crc_u8 crc 16]> random in
  let random := <[2%nat := Z.lor (Z.land (crc_u8 crc 8) 0xf8) (Z.land (random !!! 2%nat) 0x07)]> random in
  <[19%nat := rand]> random.

(** [Ipv4Addr::is_private], [is_loopback], [is_link_local], [is_unspecified]. *)
Definition is_private (o : list Z) : bool :=
  (o !!! 0%nat =? 10) || ((o !!! 0%nat =? 172) && (16 <=? o !!! 1%nat) && (o !!! 1%nat <=? 31)) ||
  ((o !!! 0%nat =? 192) && (o !!! 1%nat =? 168)).
Definition is_loopback4 (o : list Z) : bool := o !!! 0%nat =? 127.
Definition is_link_local (o : list Z) : bool := (o !!! 0%nat =? 169) && (o !!! 1%nat =? 254).
Definition is_unspecified (o : list Z) : bool := forallb (fun b => b =? 0) o.
Definition is_loopback6 (o : list Z) : bool := bool_decide (o = replicate 15 0 ++ [1]).

(** [v6.segments()[0]]. *)
Definition segment0 (o : list Z) : Z := from_be_bytes (take 2 o).

Definition is_local (ip : IpAddr) : bool :=
  match ip with
  | Ip4 o => is_private o || is_loopback4 o || is_link_local o || is_unspecified o
  | Ip6 o => is_loopback6 o || is_unspecified o || (Z.land (segment0 o) 0xfe00 =? 0xfc00) || (Z.land (segment0 o) 0xffc0 =? 0xfe80)
  end.

Definition is_valid (i : NodeId) (ip : IpAddr) : bool :=
  if is_local ip then true
  else
    let crc := checksum ip (i !!! 19%nat) in
    (i !!! 0%nat =? crc_u8 crc 24) && (i !!! 1%nat =? crc_u8 crc 16) &&
    (Z.land (i !!! 2%nat) 0xf8 =? Z.land (crc_u8 crc 8) 0xf8).

(** The standard check value of CRC-32C, of ["123456789"]. *)
Example crc32c_check : crc32c [49; 50; 51; 52; 53; 54; 55; 56; 57] = 0xE3069283.
Proof. vm_compute. reflexivity. Qed.

(** ** Bytes of an id *)

Lemma byte_land b m : byte_ok b -> 0 <= m -> byte_ok (Z.land b m).
Proof.
  intros [H0 H1] Hm. split; [apply Z.land_nonneg; lia |].
  destruct (Z.eq_dec (Z.land b m) 0) as [-> | Hne]; [lia |].
  apply Z.log2_lt_pow2; [pose proof (Z.land_nonneg b m); lia |].
  pose proof (Z.log2_land b m H0 Hm). destruct (Z.eq_dec b 0) as [-> | Hb]; [done |].
  pose proof (proj1 (Z.log2_lt_pow2 b 8 ltac:(lia)) H1). lia.
Qed.

Lemma byte_lor a b : byte_ok a -> byte_ok b -> byte_ok (Z.lor a b).
Proof.
  intros [H0 H1] [H2 H3]. split; [apply Z.lor_nonneg; lia |].
  destruct (Z.eq_dec (Z.lor a b) 0) as [-> | Hne]; [lia |].
  apply Z.log2_lt_pow2; [pose proof (Z.lor_nonneg a b); lia |]. rewrite Z.log2_lor by done.
  assert (forall x, 0 <= x < 2 ^ 8 -> Z.log2 x < 8) as Hl.
  { intros x Hx. destruct (Z.eq_dec x 0) as [-> |]; [done |]. apply Z.log2_lt_pow2; lia. }
  pose proof (Hl a ltac:(lia)). pose proof (Hl b ltac:(lia)). lia.
Qed.

Lemma crc_u8_ok crc n : byte_ok (crc_u8 crc n).
Proof. apply Z.mod_pos_bound. lia. Qed.

(** Only the last three bits of [rand] count. *)
Lemma checksum_rand ip rand : checksum ip rand = checksum ip (Z.land rand 7).
Proof.
  unfold checksum. replace (Z.land (Z.land rand 7) 7) with (Z.land rand 7); [done |].
  rewrite <- Z.land_assoc. f_equal.
Qed.

(** The part of an id an address decides: its first 21 bits. *)
Definition place (i : NodeId) : Z * Z * Z := (i !!! 0%nat, i !!! 1%nat, Z.land (i !!! 2%nat) 0xf8).

Definition crc_place (crc : Z) : Z * Z * Z := (crc_u8 crc 24, crc_u8 crc 16, Z.land (crc_u8 crc 8) 0xf8).

(** The places there are for an address. *)
Definition places (ip : IpAddr) : list (Z * Z * Z) := (fun r => crc_place (checksum ip r)) <$> seqZ 0 8.

Lemma is_valid_place i ip : is_local ip = false -> is_valid i ip = true <-> place i = crc_place (checksum ip (i !!! 19%nat)).
Proof.
  intros Hl. unfold is_valid, place, crc_place. rewrite Hl, !andb_true_iff, !Z.eqb_eq. split.
  - intros [[E1 E2] E3]. by rewrite E1, E2, E3.
  - intros E. by injection E as E1 E2 E3.
Qed.

Lemma crc_place_places ip rand : crc_place (checksum ip rand) ∈ places ip.
Proof.
  unfold places. rewrite checksum_rand. apply (list_elem_of_fmap_2 (fun r => crc_place (checksum ip r))).
  apply elem_of_seqZ. change 7 with (Z.ones 3). rewrite Z.land_ones by lia. apply Z.mod_pos_bound. lia.
Qed.

(** A byte whose high five bits are one byte's and low three another's. *)
Lemma mix_high a b : Z.land (Z.lor (Z.land a 0xf8) (Z.land b 0x07)) 0xf8 = Z.land a 0xf8.
Proof.
  rewrite Z.land_lor_distr_l, <- !Z.land_assoc. change (Z.land 0xf8 0xf8) with 0xf8. change (Z.land 0x07 0xf8) with 0.
  by rewrite Z.land_0_r, Z.lor_0_r.
Qed.

Lemma node_id_for_bytes ip rand random :
  length random = 20%nat ->
  let i := node_id_for ip rand random in
  length i = 20%nat /\ i !!! 19%nat = rand /\ place i = crc_place (checksum ip rand) /\
  forall n, (3 <= n < 19)%nat -> i !!! n = random !!! n.
Proof.
  intros Hl. cbv zeta. unfold node_id_for, place.
  split; [by rewrite !length_insert |].
  split; [by rewrite list_lookup_total_insert_eq by (rewrite !length_insert; lia) |].
  split; [| intros n Hn; by rewrite !list_lookup_total_insert_ne by lia].
  rewrite !(list_lookup_total_insert_ne _ 19) by lia.
  rewrite !(list_lookup_total_insert_ne _ 2) by lia.
  rewrite (list_lookup_total_insert_eq _ 2) by (rewrite !length_insert; lia).
  rewrite (list_lookup_total_insert_ne _ 1 0) by lia.
  rewrite (list_lookup_total_insert_eq _ 0), (list_lookup_total_insert_eq _ 1) by (rewrite ?length_insert; lia).
  by rewrite mix_high.
Qed.

Lemma node_id_for_ok ip rand random :
  byte_ok rand -> id_ok random -> id_ok (node_id_for ip rand random) /\ is_valid (node_id_for ip rand random) ip = true.
Proof.
  intros Hr [Hlen Hb]. destruct (node_id_for_bytes ip rand random Hlen) as (L & R & P & B). split.
  - split; [done |]. unfold node_id_for. repeat apply Forall_insert; try done; try apply crc_u8_ok.
    apply byte_lor; apply byte_land; try lia; [apply crc_u8_ok |].
    rewrite !list_lookup_total_insert_ne by lia. apply (Forall_lookup_total_1 _ _ 2 Hb). lia.
  - destruct (is_local ip) eqn:El; [unfold is_valid; by rewrite El |]. apply is_valid_place; [done |]. by rewrite R.
Qed.

(** ** Theorems *)

(** An id made for an address is an id, passes the check for that address,
    and keeps the random bytes it was given outside the 21 bits and the last
    byte; and an address of the open internet has at most eight places, of
    2^21, for its ids: however many ids its owner tries, those that pass the
    check fall in one of eight. *)
Theorem secure_ids (ip : IpAddr) (rand : Z) (random : NodeId) (Hr : byte_ok rand) (Hid : id_ok random) :
  let i := node_id_for ip rand random in
  id_ok i /\ is_valid i ip = true /\ (forall n, (3 <= n < 19)%nat -> i !!! n = random !!! n) /\
  (is_local ip = false -> forall ids, Forall (fun j => is_valid j ip = true) ids ->
     (length (remove_dups (place <$> ids)) <= 8)%nat).
Proof.
  destruct (node_id_for_bytes ip rand random (proj1 Hid)) as (_ & _ & _ & B).
  destruct (node_id_for_ok ip rand random Hr Hid) as [Hok Hvalid]. cbv zeta. split_and!; [exact Hok | exact Hvalid | |].
  - exact B.
  - intros Hl ids Hids. change 8%nat with (length (places ip)). apply submseteq_length, NoDup_submseteq.
    + apply NoDup_remove_dups.
    + intros p. rewrite elem_of_remove_dups. intros (j & -> & Hj)%list_elem_of_fmap.
      rewrite Forall_forall in Hids. apply Hids, is_valid_place in Hj; [| done]. rewrite Hj. apply crc_place_places.
Qed.

Lemma secure_ids_witness :
  let ip := Ip4 [124; 31; 75; 21] in
  is_valid (node_id_for ip 1 (replicate 20 0)) ip = true.
Proof.
  apply (secure_ids (Ip4 [124; 31; 75; 21]) 1 (replicate 20 0)); [vm_compute; split; [discriminate | reflexivity] |].
  split; [reflexivity |]. apply Forall_replicate. vm_compute. split; [discriminate | reflexivity].
Defined.
