(* ===== verification/DhtStore.v ===== *)
(** * What a DHT node keeps for others: items and tokens (BEP 5, 44)

    Models [src/src/dht/store.rs], the items other nodes [put], and
    [src/src/dht/token.rs], the tokens that guard announcing and putting.  SHA-1
    and ed25519 are libraries: the class [Crypto] is what the code calls of
    them, [CryptoLaws] what their types and documentation promise.  Times are
    milliseconds. *)

From S2P Require Import Prelude Str Bytes BTree Numeral Bencode Net Routing.

Class Crypto := {
  sha1 : list Z -> list Z;
  VerifyingKey : Type;
  vk_from_bytes : list Z -> option VerifyingKey;
  vk_verify : VerifyingKey -> list Z -> list Z -> bool;
  SigningKey : Type;
  sk_public : SigningKey -> list Z;
  sk_sign : SigningKey -> list Z -> list Z
}.

(** A digest is 20 bytes, a public key 32 and a signature 64; a signature made
    with a key verifies under its public key. *)
Class CryptoLaws (C : Crypto) : Prop := {
  sha1_ok : forall m, id_ok (sha1 m);
  sk_public_len : forall sk, zlen (sk_public sk) = 32;
  sk_sign_len : forall sk m, zlen (sk_sign sk m) = 64;
  sk_sign_verifies : forall sk m, exists vk, vk_from_bytes (sk_public sk) = Some vk /\ vk_verify vk m (sk_sign sk m) = true
}.

(** ** Items *)

Definition MAX_VALUE_LEN : Z := 1000.
Definition MAX_SALT_LEN : Z := 64.
Definition ITEM_LIFETIME : Z := 2 * 60 * 60 * 1000.
Definition MAX_STORED_ITEMS : nat := 1000.

(** [format!("4:salt{}:", salt.len())] and [format!("3:seqi{}e1:v", seq)]. *)
Definition signing_buffer (salt : option (list Z)) (seq : Z) (bencoded_v : list Z) : list Z :=
  match salt with
  | Some ((_ :: _) as s) => str "4:salt" ++ u_to_string (zlen s) ++ str ":" ++ s
  | _ => []
  end ++ str "3:seqi" ++ i64_to_string seq ++ str "e1:v" ++ bencoded_v.

Inductive PutError : Type :=
| ValueTooLarge | SaltTooLarge | BadSignature | CasMismatch | SequenceTooLow | StoreFull.

Record MutableMeta : Type := mkMutableMeta {
  meta_k : list Z;
  meta_seq : Z;
  meta_sig : list Z
}.

Record Item : Type := mkItem {
  item_v : Bencode;
  item_mutable : option MutableMeta;
  stored_at : Z
}.

Record StoredItem : Type := mkStoredItem {
  stored_v : Bencode;
  stored_mutable : option (list Z * Z * list Z)
}.

Record Store : Type := mkStore { items : gmap (list Z) Item }.

Definition empty_store : Store := mkStore ∅.

(** [now.saturating_duration_since(item.stored_at) < ITEM_LIFETIME]. *)
Definition fresh_item (now : Z) (item : Item) : bool := u_saturating_sub now (stored_at item) <? ITEM_LIFETIME.

Definition store_get (s : Store) (target : list Z) (now : Z) : option StoredItem :=
  item ← items s !! target;
  if negb (fresh_item now item) then None
  else Some (mkStoredItem (item_v item) ((fun m => (meta_k m, meta_seq m, meta_sig m)) <$> item_mutable item)).

Definition store_len (s : Store) : nat := size (items s).

Section crypto.
Context `{C : Crypto}.

Definition immutable_target (bencoded_value : list Z) : list Z := sha1 bencoded_value.

Definition mutable_target (k : list Z) (salt : option (list Z)) : list Z :=
  sha1 (k ++ match salt with Some s => s | None => [] end).

Definition sign_mutable (sk : SigningKey) (salt : option (list Z)) (seq : Z) (bencoded_v : list Z) : list Z :=
  sk_sign sk (signing_buffer salt seq bencoded_v).

Definition verify_mutable (k : list Z) (salt : option (list Z)) (seq : Z) (bencoded_v sig : list Z) : bool :=
  match vk_from_bytes k with
  | None => false
  | Some vk => vk_verify vk (signing_buffer salt seq bencoded_v) sig
  end.

Definition put_immutable (s : Store) (v : Bencode) (now : Z) : result (list Z * Store) PutError :=
  let bencoded := encode v in
  if MAX_VALUE_LEN <? zlen bencoded then Err ValueTooLarge
  else
    let target := immutable_target bencoded in
    if bool_decide (items s !! target = None) && (MAX_STORED_ITEMS <=? size (items s))%nat then Err StoreFull
    else Ok (target, mkStore (<[target := mkItem v None now]> (items s))).

(** [current_seq], or [i64::MIN] when what is stored there has none. *)
Definition current_seq (item : Item) : Z := match item_mutable item with Some m => meta_seq m | None => i64_min end.

Definition put_mutable (s : Store) (k : list Z) (salt : option (list Z)) (seq : Z) (sig : list Z) (v : Bencode) (cas : option Z) (now : Z)
    : result (list Z * Store) PutError :=
  let bencoded := encode v in
  if match salt with Some x => MAX_SALT_LEN <? zlen x | None => false end then Err SaltTooLarge
  else if MAX_VALUE_LEN <? zlen bencoded then Err ValueTooLarge
  else if negb (verify_mutable k salt seq bencoded sig) then Err BadSignature
  else
    let target := mutable_target k salt in
    let current := (item ← items s !! target; if fresh_item now item then Some item else None) in
    let? _ := (match current with
               | Some item =>
                   if match cas with Some c => negb (c =? current_seq item) | None => false end then Err CasMismatch
                   else if seq <? current_seq item then Err SequenceTooLow
                   else Ok tt
               | None => if (MAX_STORED_ITEMS <=? size (items s))%nat then Err StoreFull else Ok tt
               end) in
    Ok (target, mkStore (<[target := mkItem v (Some (mkMutableMeta k seq sig)) now]> (items s))).
End crypto.

(** ** Tokens *)

Definition TOKEN_ROTATION : Z := 300 * 1000.

Record TokenSecrets : Type := mkTokenSecrets {
  current : list Z;
  previous : option (list Z);
  rotated_at : Z
}.

(** [random] is what [random_node_id()] returns. *)
Definition new_secrets (random : list Z) (now : Z) : TokenSecrets := mkTokenSecrets random None now.

Definition rotate (s : TokenSecrets) (now : Z) (random : list Z) : TokenSecrets :=
  mkTokenSecrets random (Some (current s)) now.

Definition rotate_if_due (s : TokenSecrets) (now : Z) (random : list Z) : TokenSecrets :=
  if TOKEN_ROTATION <=? u_saturating_sub now (rotated_at s) then rotate s now random else s.

Section tokens.
Context `{C : Crypto}.

Definition token_for (secret : list Z) (ip : IpAddr) : list Z :=
  take 8 (sha1 (secret ++ match ip with Ip4 o => o | Ip6 o => o end)).

Definition issue (s : TokenSecrets) (ip : IpAddr) : list Z := token_for (current s) ip.

Definition accepts (s : TokenSecrets) (ip : IpAddr) (token : list Z) : bool :=
  bool_decide (token_for (current s) ip = token) ||
  match previous s with Some prev => bool_decide (token_for prev ip = token) | None => false end.
End tokens.

(** ** Signatures cover one salt, sequence number and value *)

(** Encodings of values are prefix-free. *)
Lemma encode_prefix_free v1 v2 p1 p2 :
  wf v1 -> wf v2 -> nesting v1 <= MAX_DEPTH -> nesting v2 <= MAX_DEPTH -> zlen (encode v1 ++ p1) <= i64_max ->
  encode v1 ++ p1 = encode v2 ++ p2 -> v1 = v2 /\ p1 = p2.
Proof.
  intros W1 W2 N1 N2 Hl E. set (bs := encode v1 ++ p1) in *. set (d := mkDecoder bs 0 true 0).
  assert (in_range d) as Hr by (by apply new_in_range).
  set (fuel := (2 * length (encode v1) + 2 * length (encode v2))%nat).
  pose proof (decode_value_encode v1 W1 fuel d p1 Hr ltac:(simpl; lia) ltac:(unfold encode in *; lia) eq_refl) as E1.
  pose proof (decode_value_encode v2 W2 fuel d p2 Hr ltac:(simpl; lia) ltac:(unfold encode in *; lia) E) as E2.
  rewrite E1 in E2. injection E2 as <- _. split; [done |]. unfold bs in E. by apply app_inv_head in E.
Qed.

(** The salt as BEP 44 reads it: an empty one is none. *)
Definition salt_bytes (salt : option (list Z)) : list Z := match salt with Some s => s | None => [] end.

Lemma signing_buffer_fields salt seq v :
  signing_buffer salt seq v =
  match salt_bytes salt with [] => [] | s => str "4:salt" ++ encode (Bytes s) end ++
  str "3:seq" ++ encode (Int seq) ++ str "1:v" ++ v.
Proof.
  unfold signing_buffer, encode. cbn [encode_into]. unfold encode_bytes.
  assert (str "3:seqi" ++ i64_to_string seq ++ str "e1:v" ++ v =
          str "3:seq" ++ ([105] ++ i64_to_string seq ++ [101]) ++ str "1:v" ++ v) as ->.
  { change (str "3:seqi") with (str "3:seq" ++ [105]). change (str "e1:v") with ([101] ++ str "1:v").
    by rewrite <- !app_assoc. }
  f_equal. by destruct salt as [[| x s] |].
Qed.

Lemma signing_buffer_inj salt1 seq1 v1 salt2 seq2 v2 :
  i64_ok seq1 -> i64_ok seq2 -> zlen (signing_buffer salt1 seq1 v1) <= i64_max -> zlen (salt_bytes salt2) <= i64_max ->
  signing_buffer salt1 seq1 v1 = signing_buffer salt2 seq2 v2 ->
  salt_bytes salt1 = salt_bytes salt2 /\ seq1 = seq2 /\ v1 = v2.
Proof.
  intros S1 S2 Hl Hs2. rewrite !signing_buffer_fields in *. intros E.
  assert (forall pre s1 w1 s2 w2, i64_ok s1 -> i64_ok s2 -> zlen (pre ++ str "3:seq" ++ encode (Int s1) ++ str "1:v" ++ w1) <= i64_max ->
    str "3:seq" ++ encode (Int s1) ++ str "1:v" ++ w1 = str "3:seq" ++ encode (Int s2) ++ str "1:v" ++ w2 -> s1 = s2 /\ w1 = w2) as Htail.
  { intros pre s1 w1 s2 w2 H1 H2 Hz Ht. apply app_inv_head in Ht. apply encode_prefix_free in Ht as [Hi Hw]; try done.
    - injection Hi as ->. by apply app_inv_head in Hw.
    - rewrite !zlen_app in *. pose proof (zlen_nonneg pre). pose proof (zlen_nonneg (str "3:seq")). lia. }
  destruct (salt_bytes salt1) as [| x1 t1] eqn:E1, (salt_bytes salt2) as [| x2 t2] eqn:E2; try discriminate E.
  - destruct (Htail [] _ _ _ _ S1 S2 Hl E) as [-> ->]. done.
  - rewrite <- !app_assoc in E. apply app_inv_head in E.
    assert (zlen (x1 :: t1) <= i64_max) as Hs1.
    { unfold encode in Hl. cbn [encode_into] in Hl. unfold encode_bytes in Hl. rewrite !zlen_app in Hl.
      pose proof (zlen_nonneg (str "4:salt")). pose proof (zlen_nonneg (u_to_string (zlen (x1 :: t1)))).
      pose proof (zlen_nonneg [58]). pose proof (zlen_nonneg (str "3:seq")). pose proof (zlen_nonneg ([105] ++ i64_to_string seq1 ++ [101])).
      rewrite !zlen_app in *. pose proof (zlen_nonneg (str "1:v")). pose proof (zlen_nonneg v1). lia. }
    assert (zlen (encode (Bytes (x1 :: t1)) ++ str "3:seq" ++ encode (Int seq1) ++ str "1:v" ++ v1) <= i64_max) as Hl'.
    { rewrite <- app_assoc in Hl. rewrite (zlen_app (str "4:salt")) in Hl. pose proof (zlen_nonneg (str "4:salt")). lia. }
    apply encode_prefix_free in E as [Hb Ht]; [| done | done | done | done | exact Hl'].
    injection Hb as -> ->. destruct (Htail _ _ _ _ _ S1 S2 Hl' Ht) as [-> ->]. done.
Qed.

(** ** What a store can hold *)

Section store.
Context `{C : Crypto}.

(** An item under [target] that its reader could check against [target]. *)
Definition item_authentic (target : list Z) (item : Item) : Prop :=
  zlen (encode (item_v item)) <= MAX_VALUE_LEN /\
  match item_mutable item with
  | None => target = immutable_target (encode (item_v item))
  | Some m => exists salt, zlen (salt_bytes salt) <= MAX_SALT_LEN /\ target = mutable_target (meta_k m) salt /\
      verify_mutable (meta_k m) salt (meta_seq m) (encode (item_v item)) (meta_sig m) = true
  end.

Definition store_ok (s : Store) : Prop :=
  (size (items s) <= MAX_STORED_ITEMS)%nat /\ map_Forall item_authentic (items s).

(** A request to store something, at some time. *)
Inductive put : Store -> Store -> Prop :=
| put_imm s v now target s' : put_immutable s v now = Ok (target, s') -> put s s'
| put_mut s k salt seq sig v cas now target s' : put_mutable s k salt seq sig v cas now = Ok (target, s') -> put s s'.

Lemma size_insert_le (m : gmap (list Z) Item) k i :
  (size (<[k := i]> m) <= S (size m))%nat /\ (is_Some (m !! k) -> size (<[k := i]> m) = size m).
Proof.
  destruct (m !! k) eqn:E; [rewrite map_size_insert_Some by done | rewrite map_size_insert_None by done];
    (split; [lia |]); [done | by intros []].
Qed.

Lemma put_immutable_inv s v now target s' :
  put_immutable s v now = Ok (target, s') ->
  zlen (encode v) <= MAX_VALUE_LEN /\ target = immutable_target (encode v) /\
  (is_Some (items s !! target) \/ (size (items s) < MAX_STORED_ITEMS)%nat) /\
  s' = mkStore (<[target := mkItem v None now]> (items s)).
Proof.
  unfold put_immutable. destruct (Z.ltb_spec MAX_VALUE_LEN (zlen (encode v))) as [| Hv]; [done |].
  destruct (bool_decide _ && _) eqn:E; [done |]. intros [= <- <-]. split_and!; try done.
  apply andb_false_iff in E as [E%bool_decide_eq_false | E%Nat.leb_gt]; [left; by apply not_eq_None_Some | by right].
Qed.

Lemma put_mutable_inv s k salt seq sig v cas now target s' :
  put_mutable s k salt seq sig v cas now = Ok (target, s') ->
  zlen (salt_bytes salt) <= MAX_SALT_LEN /\ zlen (encode v) <= MAX_VALUE_LEN /\ target = mutable_target k salt /\
  verify_mutable k salt seq (encode v) sig = true /\
  (forall item, items s !! target = Some item -> fresh_item now item = true ->
     current_seq item <= seq /\ forall c, cas = Some c -> c = current_seq item) /\
  (is_Some (items s !! target) \/ (size (items s) < MAX_STORED_ITEMS)%nat) /\
  s' = mkStore (<[target := mkItem v (Some (mkMutableMeta k seq sig)) now]> (items s)).
Proof.
  unfold put_mutable. intros H. assert (zlen (salt_bytes salt) <= MAX_SALT_LEN /\ match salt with Some x => MAX_SALT_LEN <? zlen x | None => false end = false) as [Hs Es].
  { destruct salt as [x |]; [| done]. destruct (Z.ltb_spec MAX_SALT_LEN (zlen x)); [done |]. by split. }
  rewrite Es in H. destruct (Z.ltb_spec MAX_VALUE_LEN (zlen (encode v))) as [| Hv]; [done |].
  destruct (verify_mutable k salt seq (encode v) sig) eqn:Ev; [| done]. cbn [negb] in H.
  apply result_bind_Ok in H as ([] & Hc & H). injection H as <- <-. split_and!; try done.
  - intros item Hi Hf. rewrite Hi in Hc. cbn [mbind option_bind] in Hc. rewrite Hf in Hc.
    destruct cas as [c |].
    + destruct (Z.eqb_spec c (current_seq item)) as [-> |]; [| done]. cbn in Hc.
      destruct (Z.ltb_spec seq (current_seq item)); [done |]. split; [done |]. by intros c' [= <-].
    + destruct (Z.ltb_spec seq (current_seq item)); [done |]. by split.
  - destruct (items s !! mutable_target k salt) as [item |]; [by left |]. right. cbn [mbind option_bind] in Hc.
    destruct (Nat.leb_spec MAX_STORED_ITEMS (size (items s))); [done | lia].
Qed.

Lemma insert_store_ok s target item :
  store_ok s -> is_Some (items s !! target) \/ (size (items s) < MAX_STORED_ITEMS)%nat -> item_authentic target item ->
  store_ok (mkStore (<[target := item]> (items s))).
Proof.
  intros [Hs Ha] Hroom Hi. destruct (size_insert_le (items s) target item) as [H1 H2]. split; cbn [items].
  - destruct Hroom as [Hin | Hlt]; [specialize (H2 Hin) |]; lia.
  - by apply map_Forall_insert_2.
Qed.

Lemma put_ok s s' : store_ok s -> put s s' -> store_ok s'.
Proof.
  intros Hs Hp. revert Hs. destruct Hp as [s v now target s' H | s k salt seq sig v cas now target s' H]; intros Hs.
  - apply put_immutable_inv in H as (Hv & -> & Hroom & ->). apply insert_store_ok; [done | done | by split].
  - apply put_mutable_inv in H as (Hsalt & Hv & -> & Hver & _ & Hroom & ->). apply insert_store_ok; [done | done |].
    split; [done |]. cbn. by exists salt.
Qed.

Lemma puts_ok s s' : store_ok s -> rtc put s s' -> store_ok s'.
Proof. intros Hs. induction 1 as [| s s1 s' Hp _ IH]; [done |]. eauto using put_ok. Qed.

Lemma put_keeps_keys s s' : put s s' -> dom (items s) ⊆ dom (items s').
Proof.
  intros [? v now target ? H | ? k salt seq sig v cas now target ? H].
  - apply put_immutable_inv in H as (_ & _ & _ & ->). cbn. set_solver.
  - apply put_mutable_inv in H as (_ & _ & _ & _ & _ & _ & ->). cbn. set_solver.
Qed.

Lemma store_get_inv s target now it :
  store_get s target now = Some it <->
  exists item, items s !! target = Some item /\ fresh_item now item = true /\
    it = mkStoredItem (item_v item) ((fun m => (meta_k m, meta_seq m, meta_sig m)) <$> item_mutable item).
Proof.
  unfold store_get. destruct (items s !! target) as [item |]; cbn [mbind option_bind].
  - destruct (fresh_item now item) eqn:E; cbn [negb]; split.
    + intros [= <-]. by exists item.
    + by intros (x & [= <-] & _ & ->).
    + done.
    + intros (x & [= <-] & Hf & _). congruence.
  - split; [done | by intros (x & ? & _)].
Qed.

Lemma empty_store_ok : store_ok empty_store.
Proof. split; [cbn; rewrite map_size_empty; lia | apply map_Forall_empty]. Qed.

Lemma fresh_item_iff now item : fresh_item now item = true <-> now < stored_at item + ITEM_LIFETIME.
Proof. unfold fresh_item, u_saturating_sub, ITEM_LIFETIME. rewrite Z.ltb_lt. lia. Qed.

(** ** Theorems on the store *)

(** C32: whatever is put, by whomever and whenever, a store holds at most 1000
    items of at most 1000 bytes, and what it hands out a reader can check: an
    immutable item hashes to the target it is under, a mutable one is under
    the hash of its key and a salt of at most 64 bytes and carries a valid
    signature of its value and sequence number. *)
Theorem store_authentic (s : Store) (Hr : rtc put empty_store s) :
  (store_len s <= MAX_STORED_ITEMS)%nat /\
  forall target now it, store_get s target now = Some it ->
    zlen (encode (stored_v it)) <= MAX_VALUE_LEN /\
    match stored_mutable it with
    | None => target = immutable_target (encode (stored_v it))
    | Some (k, seq, sig) => exists salt, zlen (salt_bytes salt) <= MAX_SALT_LEN /\ target = mutable_target k salt /\
        verify_mutable k salt seq (encode (stored_v it)) sig = true
    end.
Proof.
  apply puts_ok in Hr as [Hsz Hall]; [| apply empty_store_ok]. split; [done |].
  intros target now it (item & Hi & _ & ->)%store_get_inv. apply Hall in Hi as [Hlen Hauth].
  cbn. split; [done |]. by destruct (item_mutable item).
Qed.

(** An accepted update of a mutable item takes effect and only forwards:
    its value is what a [get] returns from then until two hours later and no
    longer, nothing under another target changes, its sequence number is not
    below one that had not expired, and the number the writer says it replaces
    is the one that was there. *)
Theorem mutable_update (s : Store) (k : list Z) (salt : option (list Z)) (seq : Z) (sig : list Z) (v : Bencode) (cas : option Z) (now : Z)
    (target : list Z) (s' : Store) (H : put_mutable s k salt seq sig v cas now = Ok (target, s')) :
  (forall t, store_get s' target t = if t <? now + ITEM_LIFETIME then Some (mkStoredItem v (Some (k, seq, sig))) else None) /\
  (forall other t, other <> target -> store_get s' other t = store_get s other t) /\
  (forall old, store_get s target now = Some old -> forall k0 seq0 sig0, stored_mutable old = Some (k0, seq0, sig0) ->
     seq0 <= seq /\ forall c, cas = Some c -> c = seq0).
Proof.
  apply put_mutable_inv in H as (_ & _ & _ & _ & Hcur & _ & ->). split_and!.
  - intros t. unfold store_get. cbn [items]. rewrite lookup_insert_eq. cbn.
    unfold fresh_item, u_saturating_sub. cbn [stored_at].
    destruct (Z.ltb_spec t (now + ITEM_LIFETIME)), (Z.ltb_spec (Z.max 0 (t - now)) ITEM_LIFETIME); cbn; try done; unfold ITEM_LIFETIME in *; lia.
  - intros other t Hne. unfold store_get. cbn [items]. by rewrite lookup_insert_ne.
  - intros old (item & Hi & Hf & ->)%store_get_inv k0 seq0 sig0 Hm. destruct (Hcur item Hi Hf) as [Hle Hc].
    unfold current_seq in *. cbn in Hm. destruct (item_mutable item) as [m |]; [| done]. injection Hm as <- <- <-. done.
Qed.

(** Items that expired keep their places: once a store is full it takes no
    new target again, however long it waits and although nothing in it can be
    read any more. *)
Theorem full_store_stays_full (s s' : Store) (Hfull : store_len s = MAX_STORED_ITEMS) (Hok : rtc put empty_store s) (Hr : rtc put s s')
    (now : Z) (v : Bencode) (Hv : zlen (encode v) <= MAX_VALUE_LEN) (Hnew : items s !! immutable_target (encode v) = None) :
  put_immutable s' v now = Err StoreFull /\
  ((forall target item, items s' !! target = Some item -> stored_at item + ITEM_LIFETIME <= now) -> forall target, store_get s' target now = None).
Proof.
  assert (dom (items s) ⊆ dom (items s')) as Hd.
  { clear -Hr. induction Hr as [| s s1 s' Hp _ IH]; [done |]. apply put_keeps_keys in Hp. set_solver. }
  assert (store_ok s') as [Hs' _] by (eapply puts_ok; [eapply puts_ok; [apply empty_store_ok | exact Hok] | exact Hr]).
  unfold store_len in Hfull. rewrite <- size_dom in Hfull, Hs'.
  assert (dom (items s) = dom (items s')) as Hdom by (apply leibniz_equiv, set_subseteq_size_equiv; [done | lia]).
  split.
  - unfold put_immutable. rewrite (proj2 (Z.ltb_ge _ _)) by done.
    rewrite bool_decide_eq_true_2 by (apply not_elem_of_dom; rewrite <- Hdom; by apply not_elem_of_dom).
    rewrite <- size_dom, <- Hdom, Hfull. done.
  - intros Hexp target. destruct (store_get s' target now) as [it |] eqn:E; [| done].
    apply store_get_inv in E as (item & Hi & Hf & _). apply fresh_item_iff in Hf. apply Hexp in Hi. lia.
Qed.

(** A signature speaks for one salt, one sequence number and one value: no
    two different triples give the same bytes to sign, so no part of one can
    be passed off as part of another. *)
Theorem signing_buffer_injective (salt1 salt2 : option (list Z)) (seq1 seq2 : Z) (v1 v2 : list Z)
    (H1 : i64_ok seq1) (H2 : i64_ok seq2) (Hl : zlen (signing_buffer salt1 seq1 v1) <= i64_max) (Hs : zlen (salt_bytes salt2) <= i64_max) :
  signing_buffer salt1 seq1 v1 = signing_buffer salt2 seq2 v2 <->
  salt_bytes salt1 = salt_bytes salt2 /\ seq1 = seq2 /\ v1 = v2.
Proof.
  split; [by apply signing_buffer_inj |]. intros (Hsalt & -> & ->). rewrite !signing_buffer_fields. by rewrite Hsalt.
Qed.
End store.

(** ** How long a token is good for *)

Section token_life.
Context `{C : Crypto}.

(** The rotations a node makes as queries arrive: when, and the secret drawn. *)
Definition rotations (s : TokenSecrets) (evs : list (Z * list Z)) : TokenSecrets :=
  foldl (fun s e => rotate_if_due s e.1 e.2) s evs.

Lemma rotate_if_due_cases s now random :
  (rotate_if_due s now random = s /\ now < rotated_at s + TOKEN_ROTATION) \/
  (rotate_if_due s now random = rotate s now random /\ rotated_at s + TOKEN_ROTATION <= now).
Proof.
  unfold rotate_if_due, u_saturating_sub, TOKEN_ROTATION. destruct (Z.leb_spec (300 * 1000) (Z.max 0 (now - rotated_at s))); [right | left].
  - split; [done |]. lia.
  - split; [done |]. lia.
Qed.

(** The secret of [s] is still one of the two. *)
Lemma rotations_keep s t evs :
  Forall (fun e => t <= e.1 < t + TOKEN_ROTATION) evs -> rotated_at s <= t ->
  rotations s evs = s \/ (previous (rotations s evs) = Some (current s) /\ t <= rotated_at (rotations s evs)).
Proof.
  intros Hevs Hs. induction evs as [| e evs IH] using rev_ind; [by left |].
  apply Forall_app in Hevs as [Hevs He]. rewrite Forall_singleton in He. unfold rotations in *. rewrite foldl_app. cbn [foldl].
  destruct (IH Hevs) as [-> | [Hp Hr]].
  - destruct (rotate_if_due_cases s e.1 e.2) as [[-> _] | [-> _]]; [by left | right]. split; [done |]. cbn [rotate rotated_at]. apply He.
  - right. destruct (rotate_if_due_cases (foldl (fun s e => rotate_if_due s e.1 e.2) s evs) e.1 e.2) as [[-> _] | [_ Hle]]; [done |]. exfalso. revert He Hle Hr. clear. unfold TOKEN_ROTATION. lia.
Qed.

Lemma rotations_time s evs m :
  Forall (fun e => e.1 <= m) evs -> rotated_at s <= m -> rotated_at (rotations s evs) <= m.
Proof.
  intros Hevs. revert s. induction Hevs as [| e evs He Hevs IH]; intros s Hs; [done |]. cbn [rotations foldl]. apply IH.
  destruct (rotate_if_due_cases s e.1 e.2) as [[-> _] | [-> _]]; done.
Qed.

Lemma rotations_app s a b : rotations s (a ++ b) = rotations (rotations s a) b.
Proof. apply foldl_app. Qed.

(** Secrets drawn since: the newer one, or both. *)
Definition renewed (drawn : list (list Z)) (s : TokenSecrets) : Prop := current s ∈ drawn.
Definition renewed_twice (drawn : list (list Z)) (s : TokenSecrets) : Prop :=
  current s ∈ drawn /\ exists p, previous s = Some p /\ p ∈ drawn.

Lemma rotations_renew drawn s evs :
  (forall e, e ∈ evs -> e.2 ∈ drawn) ->
  (renewed drawn s -> renewed drawn (rotations s evs) /\ (renewed_twice drawn (rotations s evs) \/ rotated_at (rotations s evs) = rotated_at s)) /\
  (renewed_twice drawn s -> renewed_twice drawn (rotations s evs)) /\
  (renewed drawn (rotations s evs) \/ rotations s evs = s).
Proof.
  revert s. induction evs as [| e evs IH]; intros s Hevs; [cbn; auto |].
  assert (e.2 ∈ drawn) as He by (apply Hevs; by left).
  specialize (IH (rotate_if_due s e.1 e.2) (fun x Hx => Hevs x (list_elem_of_further x e evs Hx))) as (I1 & I2 & I3). cbn [rotations foldl].
  destruct (rotate_if_due_cases s e.1 e.2) as [[E _] | [E _]]; rewrite E in *; [done |].
  assert (renewed drawn (rotate s e.1 e.2)) as Hr by done.
  split_and!.
  - intros H. assert (renewed_twice drawn (rotate s e.1 e.2)) as H2 by (split; [done | by exists (current s)]). split; [by apply I1 | left; by apply I2].
  - intros [H _]. apply I2. split; [done | by exists (current s)].
  - left. by apply I1.
Qed.

(** Five minutes on, the secret in use is a new one; five more, both are. *)
Lemma rotations_renewed drawn s a e t :
  (forall x, x ∈ a ++ [e] -> x.2 ∈ drawn) -> Forall (fun x => x.1 <= e.1) a -> rotated_at s <= t -> t + TOKEN_ROTATION <= e.1 ->
  renewed drawn (rotations s (a ++ [e])) /\ rotated_at (rotations s (a ++ [e])) <= e.1.
Proof.
  intros Hd Ha Hs He. assert (0 <= TOKEN_ROTATION) by done. split.
  - destruct (rotations_renew drawn s (a ++ [e]) Hd) as (_ & _ & [H0 | E]); [done |].
    rewrite rotations_app in *. cbn [rotations foldl] in *.
    assert (e.2 ∈ drawn) as Hin by (apply Hd, elem_of_app; right; by apply list_elem_of_singleton).
    destruct (rotate_if_due_cases (rotations s a) e.1 e.2) as [[E2 Hlt] | [-> _]]; [| done].
    rewrite E2 in E. rewrite E in Hlt. lia.
  - apply rotations_time; [| lia]. apply Forall_app. split; [done |]. by apply Forall_singleton.
Qed.

Lemma rotations_renewed_twice drawn s b e t :
  (forall x, x ∈ b ++ [e] -> x.2 ∈ drawn) -> renewed drawn s -> rotated_at s <= t -> t + TOKEN_ROTATION <= e.1 ->
  renewed_twice drawn (rotations s (b ++ [e])).
Proof.
  intros Hd Hs Ht He. rewrite rotations_app.
  destruct (rotations_renew drawn s b) as (I1 & _ & _); [intros x Hx; apply Hd, elem_of_app; by left |].
  destruct (I1 Hs) as [Hb Hor].
  assert (e.2 ∈ drawn) as Hin by (apply Hd, elem_of_app; right; by apply list_elem_of_singleton).
  destruct (rotations_renew drawn (rotations s b) [e]) as (_ & I2 & _); [intros x Hx; apply Hd, elem_of_app; by right |].
  destruct Hor as [H2 | Hr]; [by apply I2 |]. cbn [rotations foldl].
  destruct (rotate_if_due_cases (rotations s b) e.1 e.2) as [[_ Hlt] | [-> _]]; [lia |].
  split; [done |]. by exists (current (rotations s b)).
Qed.

Lemma token_window s t evs ip :
  rotated_at s <= t -> Forall (fun e => t <= e.1 < t + TOKEN_ROTATION) evs -> accepts (rotations s evs) ip (issue s ip) = true.
Proof.
  intros Hs Hevs. unfold accepts, issue. destruct (rotations_keep s t evs Hevs Hs) as [-> | [-> _]].
  - by rewrite bool_decide_eq_true_2.
  - rewrite (bool_decide_eq_true_2 (token_for (current s) ip = _)) by done. apply orb_true_r.
Qed.

(** A token is honoured for at least five minutes after it was issued,
    whatever queries rotate the secrets meanwhile; and once a query has come
    at least five minutes after it was issued and another five minutes after
    that one, the only tokens accepted are those made with secrets drawn since,
    so an old token cannot be used again. *)
Theorem token_lifetime (s : TokenSecrets) (t : Z) (ip : IpAddr) (Hs : rotated_at s <= t) :
  (forall evs, Forall (fun e => t <= e.1 < t + TOKEN_ROTATION) evs -> accepts (rotations s evs) ip (issue s ip) = true) /\
  (forall a e1 b e2 c, Forall (fun e => e.1 <= e1.1) a -> t + TOKEN_ROTATION <= e1.1 -> e1.1 + TOKEN_ROTATION <= e2.1 ->
     forall token, accepts (rotations s (a ++ e1 :: b ++ e2 :: c)) ip token = true ->
     exists secret, secret ∈ (a ++ e1 :: b ++ e2 :: c).*2 /\ token = token_for secret ip).
Proof.
  split.
  - intros evs Hevs. by apply (token_window s t).
  - intros a e1 b e2 c Ha H1 H2 token Htok. set (drawn := (a ++ e1 :: b ++ e2 :: c).*2).
    assert (forall e, e ∈ a ++ e1 :: b ++ e2 :: c -> e.2 ∈ drawn) as Hd by (intros e He; by apply list_elem_of_fmap_2).
    assert (renewed_twice drawn (rotations s (a ++ e1 :: b ++ e2 :: c))) as [Hc (p & Hp & Hin)].
    { replace (a ++ e1 :: b ++ e2 :: c) with ((a ++ [e1]) ++ (b ++ [e2]) ++ c) in * by (by rewrite <- !app_assoc).
      destruct (rotations_renewed drawn s a e1 t) as [R1 T1]; [intros x Hx; apply Hd, elem_of_app; by left | done.. |].
      rewrite (rotations_app s (a ++ [e1])), (rotations_app _ (b ++ [e2]) c).
      apply rotations_renew; [intros x Hx; apply Hd; rewrite !elem_of_app in *; tauto |].
      apply (rotations_renewed_twice _ _ _ _ e1.1); try done. intros x Hx; apply Hd; rewrite !elem_of_app in *; tauto. }
    unfold accepts in Htok. rewrite Hp in Htok. apply orb_true_iff in Htok as [E%bool_decide_eq_true | E%bool_decide_eq_true]; eauto.
Qed.
End token_life.

(** ** A stand-in for the libraries *)

(** Digests, keys and signatures of the right lengths: enough to run the model. *)
Definition pad (n : nat) (b : list Z) : list Z := take n ((fun x => x mod 2 ^ 8) <$> b ++ replicate n 0).

Definition toy_crypto : Crypto := {|
  sha1 := pad 20;
  VerifyingKey := list Z;
  vk_from_bytes k := if zlen k =? 32 then Some k else None;
  vk_verify k m s := bool_decide (s = pad 64 (k ++ m));
  SigningKey := list Z;
  sk_public sk := pad 32 sk;
  sk_sign sk m := pad 64 (pad 32 sk ++ m)
|}.

Lemma length_pad n b : length (pad n b) = n.
Proof. unfold pad. rewrite length_take, length_fmap, length_app, length_replicate. lia. Qed.

Lemma pad_bytes n b : bytes_ok (pad n b).
Proof. apply Forall_take, Forall_fmap, Forall_true. intros x. apply Z.mod_pos_bound. lia. Qed.

#[export] Instance toy_crypto_laws : CryptoLaws toy_crypto.
Proof.
  split.
  - intros m. split; [apply length_pad | apply pad_bytes].
  - intros sk. unfold zlen. cbn. by rewrite length_pad.
  - intros sk m. unfold zlen. cbn. by rewrite length_pad.
  - intros sk m. exists (pad 32 sk). cbn. unfold zlen. rewrite length_pad. split; [done |]. by apply bool_decide_eq_true.
Qed.

#[local] Existing Instance toy_crypto.

Definition example_key : list Z := pad 32 [1; 2; 3].
Definition example_sig : list Z := sign_mutable (C := toy_crypto) [1; 2; 3] (Some [9]) 5 (encode (Int 42)).

Definition example_store : Store :=
  match put_mutable empty_store example_key (Some [9]) 5 example_sig (Int 42) None 1000 with Ok (_, s) => s | Err _ => empty_store end.

Lemma example_put :
  put_mutable empty_store example_key (Some [9]) 5 example_sig (Int 42) None 1000 = Ok (mutable_target example_key (Some [9]), example_store).
Proof. vm_compute. reflexivity. Qed.

Lemma store_authentic_witness :
  exists it, store_get example_store (mutable_target example_key (Some [9])) 2000 = Some it /\ zlen (encode (stored_v it)) <= MAX_VALUE_LEN.
Proof.
  eexists. split; [vm_compute; reflexivity |].
  eapply (proj2 (store_authentic example_store (rtc_once _ _ (put_mut _ _ _ _ _ _ _ _ _ _ example_put)))
    (mutable_target example_key (Some [9])) 2000). vm_compute. reflexivity.
Defined.

Lemma mutable_update_witness :
  store_get example_store (mutable_target example_key (Some [9])) 5000 = Some (mkStoredItem (Int 42) (Some (example_key, 5, example_sig))).
Proof. exact (proj1 (mutable_update _ _ _ _ _ _ _ _ _ _ example_put) 5000). Defined.

(** A store filled with as many items as it takes, each under its own bytes. *)
Definition plain_crypto : Crypto := {|
  sha1 := id;
  VerifyingKey := list Z;
  vk_from_bytes := Some;
  vk_verify k m s := true;
  SigningKey := list Z;
  sk_public := id;
  sk_sign sk m := m
|}.

#[local] Existing Instance plain_crypto.

Lemma small_ints (n : nat) : (n < 1000)%nat -> zlen (encode (Int (Z.of_nat n))) <= MAX_VALUE_LEN.
Proof.
  intros Hn. assert (forallb (fun k => zlen (encode (Int (Z.of_nat k))) <=? MAX_VALUE_LEN) (seq 0 1000) = true) as Hall by (vm_compute; reflexivity).
  rewrite forallb_forall in Hall. apply Z.leb_le, Hall, in_seq. lia.
Qed.

Lemma filled (n : nat) :
  (n <= 1000)%nat -> exists s, rtc put empty_store s /\ store_len s = n /\
  forall t, is_Some (items s !! t) -> exists i, (i < n)%nat /\ t = encode (Int (Z.of_nat i)).
Proof.
  induction n as [| n IH]; intros Hn.
  - exists empty_store. split; [apply rtc_refl |]. split; [apply map_size_empty |]. by intros t [x Hx].
  - destruct IH as (s & Hs & Hlen & Hkeys); [lia |]. set (t := encode (Int (Z.of_nat n))).
    assert (items s !! t = None) as Hnew.
    { apply eq_None_not_Some. intros (i & Hi & Ht)%Hkeys.
      destruct (encode_prefix_free (Int (Z.of_nat n)) (Int (Z.of_nat i)) [] []) as [E _]; [..| rewrite !app_nil_r; exact Ht |].
      - unfold wf, i64_ok, i64_min, i64_max. lia.
      - unfold wf, i64_ok, i64_min, i64_max. lia.
      - vm_compute. discriminate.
      - vm_compute. discriminate.
      - rewrite app_nil_r. pose proof (small_ints n ltac:(lia)). unfold MAX_VALUE_LEN, i64_max in *. lia.
      - injection E as E. lia. }
    exists (mkStore (<[t := mkItem (Int (Z.of_nat n)) None 0]> (items s))). split_and!.
    + eapply rtc_r; [exact Hs |]. apply (put_imm _ (Int (Z.of_nat n)) 0 t). unfold put_immutable.
      rewrite (proj2 (Z.ltb_ge _ _)) by (apply small_ints; lia).
      change (immutable_target (encode (Int (Z.of_nat n)))) with t. unfold store_len in Hlen.
      by rewrite Hlen, (proj2 (Nat.leb_gt _ _)), andb_false_r by (unfold MAX_STORED_ITEMS; lia).
    + unfold store_len in *. cbn [items]. rewrite map_size_insert_None by done. lia.
    + intros t'. cbn [items]. destruct (decide (t' = t)) as [-> | Hne]; [intros _; exists n; split; [lia | done] |].
      rewrite lookup_insert_ne by done. intros (i & Hi & ->)%Hkeys. exists i. split; [lia | done].
Qed.

Lemma full_store_stays_full_witness :
  exists s, store_len s = MAX_STORED_ITEMS /\ put_immutable s (Bytes [1]) (100 * ITEM_LIFETIME) = Err StoreFull.
Proof.
  destruct (filled 1000 (le_n _)) as (s & Hs & Hlen & Hkeys). exists s. split; [exact Hlen |].
  apply (full_store_stays_full s s Hlen Hs (rtc_refl _ _) (100 * ITEM_LIFETIME) (Bytes [1])); [vm_compute; discriminate |].
  apply eq_None_not_Some. intros (i & _ & Ht)%Hkeys. discriminate Ht.
Defined.

Lemma signing_buffer_injective_witness :
  signing_buffer (Some [49]) 1 [50] = signing_buffer None 1 [50] <-> [49] = [] /\ 1 = 1 /\ [50] = [50].
Proof.
  apply (signing_buffer_injective (Some [49]) None 1 1 [50] [50]); vm_compute; first [discriminate | split; discriminate].
Defined.

Lemma token_lifetime_witness :
  let s := mkTokenSecrets [1] None 0 in
  accepts (rotations s [(299999, [2]); (300000, [3])]) (Ip4 [10; 0; 0; 1]) (issue s (Ip4 [10; 0; 0; 1])) = true.
Proof.
  apply (proj1 (token_lifetime (mkTokenSecrets [1] None 0) 200000 (Ip4 [10; 0; 0; 1]) ltac:(vm_compute; discriminate))).
  repeat constructor; vm_compute; discriminate.
Defined.
