(* ===== verification/DhtNode.v ===== *)
(** * A DHT node: answering the network (BEP 5, 32, 42, 43, 44)

    Models the state of [src/src/dht/mod.rs] and the request handler of
    [src/src/dht/responder.rs].  What a call reads of the outside while it runs
    (the clock, random ids) is an [Inputs]; the datagrams it sends are returned
    as a list, in order; a [None] is a panic or a decoder running on for ever. *)

From stdpp Require Import sorting.
From S2P Require Import Prelude Str Bytes BTree Numeral Bencode Net Routing Dicts Krpc SecureId DhtStore.

Definition ADDRESS_REPORTS_NEEDED : nat := 5.
Definition MAX_ADDRESS_CANDIDATES : nat := 32.
Definition MAX_STORED_PEERS_PER_HASH : nat := 100.
Definition MAX_STORED_INFOHASHES : nat := 1000.

Record Dht : Type := mkDht {
  my_id : NodeId;
  table : RoutingTable;
  ipv6 : bool;
  txid_counter : Z;
  tokens : TokenSecrets;
  peer_store : gmap NodeId (list SocketAddr);
  read_only : bool;
  external_ip : option IpAddr;
  address_reports : gmap IpAddr (gset IpAddr);
  item_store : Store
}.

Record Inputs : Type := mkInputs {
  now_tokens : Z;
  now_items : Z;
  now_table : Z;
  random_secret : NodeId;
  random_id : NodeId;
  random_byte : Z;
  table_clock : nat -> Z
}.

Definition new_dht (random secret : NodeId) (v6 : bool) (now : Z) : Dht :=
  mkDht random (Routing.new random) v6 0 (new_secrets secret now) ∅ false None ∅ empty_store.

Definition set_read_only (d : Dht) (ro : bool) : Dht :=
  mkDht (my_id d) (table d) (ipv6 d) (txid_counter d) (tokens d) (peer_store d) ro (external_ip d) (address_reports d) (item_store d).
Definition set_table (d : Dht) (t : RoutingTable) : Dht :=
  mkDht (my_id d) t (ipv6 d) (txid_counter d) (tokens d) (peer_store d) (read_only d) (external_ip d) (address_reports d) (item_store d).
Definition set_tokens (d : Dht) (t : TokenSecrets) : Dht :=
  mkDht (my_id d) (table d) (ipv6 d) (txid_counter d) t (peer_store d) (read_only d) (external_ip d) (address_reports d) (item_store d).
Definition set_peers (d : Dht) (p : gmap NodeId (list SocketAddr)) : Dht :=
  mkDht (my_id d) (table d) (ipv6 d) (txid_counter d) (tokens d) p (read_only d) (external_ip d) (address_reports d) (item_store d).
Definition set_items (d : Dht) (s : Store) : Dht :=
  mkDht (my_id d) (table d) (ipv6 d) (txid_counter d) (tokens d) (peer_store d) (read_only d) (external_ip d) (address_reports d) s.
Definition set_reports (d : Dht) (r : gmap IpAddr (gset IpAddr)) : Dht :=
  mkDht (my_id d) (table d) (ipv6 d) (txid_counter d) (tokens d) (peer_store d) (read_only d) (external_ip d) r (item_store d).

Definition note_reported_address (d : Dht) (inp : Inputs) (reporter reported : IpAddr) : option Dht :=
  if negb (Bool.eqb (ip_is_v6 reported) (ipv6 d)) || is_local reported || bool_decide (external_ip d = Some reported) then Some d
  else
    let reports :=
      if bool_decide (address_reports d !! reported = None) && (MAX_ADDRESS_CANDIDATES <=? size (address_reports d))%nat then ∅
      else address_reports d in
    let reporters := {[reporter]} ∪ default ∅ (reports !! reported) in
    if (ADDRESS_REPORTS_NEEDED <=? size reporters)%nat then
      let i := node_id_for reported (random_byte inp) (random_id inp) in
      t ← recentre (table d) i (table_clock inp);
      Some (mkDht i t (ipv6 d) (txid_counter d) (tokens d) (peer_store d) (read_only d) (Some reported) ∅ (item_store d))
    else Some (set_reports d (<[reported := reporters]> reports)).

Definition is_our_family (d : Dht) (a : SocketAddr) : bool := Bool.eqb (is_ipv6 a) (ipv6 d).

Definition seed_node (d : Dht) (i : NodeId) (addr : SocketAddr) (now : Z) : option Dht :=
  if is_our_family d addr then t ← Routing.insert (table d) i addr now; Some (set_table d t) else Some d.

Definition next_txid (d : Dht) : list Z * Dht :=
  let n := wrap 16 (txid_counter d + 1) in
  (to_be_bytes 2 n,
   mkDht (my_id d) (table d) (ipv6 d) n (tokens d) (peer_store d) (read_only d) (external_ip d) (address_reports d) (item_store d)).

(** [send_query]: the bytes sent, the transaction id and the state after. *)
Definition send_query (d : Dht) (query : Query) : list Z * list Z * Dht :=
  let '(t, d) := next_txid d in
  (encode_with (QueryMsg t query) (read_only d), t, d).

(** ** Answering *)

(** [Response { id, ..Default::default() }]. *)
Definition plain (i : NodeId) : Response := mkResponse i [] [] None None None None None None.

Definition put_error_code (e : PutError) : Z * list Z :=
  match e with
  | ValueTooLarge => (205, str "message (v field) too big")
  | SaltTooLarge => (207, str "salt (salt field) too big")
  | BadSignature => (206, str "invalid signature")
  | CasMismatch => (301, str "the CAS hash mismatched, re-read value and try again")
  | SequenceTooLow => (302, str "sequence number less than current")
  | StoreFull => (201, str "generic error: no room to store any more items")
  end.

(** What [announce_peer] does to the peers kept. *)
Definition store_peer (peers : gmap NodeId (list SocketAddr)) (info_hash : NodeId) (peer : SocketAddr) : gmap NodeId (list SocketAddr) :=
  if negb (bool_decide (peers !! info_hash = None)) || (size peers <? MAX_STORED_INFOHASHES)%nat then
    let known := default [] (peers !! info_hash) in
    if negb (bool_decide (peer ∈ known)) && (length known <? MAX_STORED_PEERS_PER_HASH)%nat
    then <[info_hash := known ++ [peer]]> peers
    else <[info_hash := known]> peers
  else peers.

Section node.
Context `{C : Crypto}.

Definition answer_get (d : Dht) (now : Z) (target : NodeId) (seq : option Z) (from : SocketAddr) : Response :=
  let token := Some (issue (tokens d) (ip_of from)) in
  match store_get (item_store d) target now with
  | Some item =>
      let stale_to_them :=
        match stored_mutable item, seq with
        | Some (_, item_seq, _), Some their_seq => item_seq <=? their_seq
        | _, _ => false
        end in
      if stale_to_them then mkResponse (my_id d) [] [] token None None None None None
      else
        match stored_mutable item with
        | Some (k, seq, sig) => mkResponse (my_id d) [] [] token None (Some (stored_v item)) (Some k) (Some seq) (Some sig)
        | None => mkResponse (my_id d) [] [] token None (Some (stored_v item)) None None None
        end
  | None => mkResponse (my_id d) (closest (table d) target K) [] token None None None None None
  end.

(** The [match &query]: a reply, or the error to send instead. *)
Definition answer (d : Dht) (inp : Inputs) (query : Query) (from : SocketAddr) : result (Dht * Response) (Z * list Z) :=
  match query with
  | Ping _ => Ok (d, plain (my_id d))
  | FindNode _ target => Ok (d, mkResponse (my_id d) (closest (table d) target K) [] None None None None None None)
  | GetPeers _ info_hash =>
      let token := Some (issue (tokens d) (ip_of from)) in
      match peer_store d !! info_hash with
      | Some ((_ :: _) as peers) => Ok (d, mkResponse (my_id d) [] peers token None None None None None)
      | _ => Ok (d, mkResponse (my_id d) (closest (table d) info_hash K) [] token None None None None None)
      end
  | AnnouncePeer _ info_hash port token implied_port =>
      if negb (accepts (tokens d) (ip_of from) token) then Err (203, str "bad token")
      else
        let peer_port := if implied_port then Net.port from else port in
        let peer := socket_addr (ip_of from) peer_port in
        Ok (set_peers d (store_peer (peer_store d) info_hash peer), plain (my_id d))
  | Get _ target seq => Ok (d, answer_get d (now_items inp) target seq from)
  | Put _ token item =>
      if negb (accepts (tokens d) (ip_of from) token) then Err (203, str "bad token")
      else
        let stored :=
          match mutable item with
          | None => put_immutable (item_store d) (i_v item) (now_items inp)
          | Some m => put_mutable (item_store d) (m_k m) (m_salt m) (m_seq m) (m_sig m) (i_v item) (m_cas m) (now_items inp)
          end in
        match stored with
        | Ok (_, s) => Ok (set_items d s, plain (my_id d))
        | Err e => Err (put_error_code e)
        end
  end.

Definition with_ip (r : Response) (from : SocketAddr) : Response :=
  mkResponse (r_id r) (nodes r) (values r) (r_token r) (Some from) (r_v r) (r_k r) (r_seq r) (r_sig r).

Definition handle_query (d : Dht) (inp : Inputs) (data : list Z) (t : list Z) (query : Query) (from : SocketAddr)
    : option (Dht * list (list Z * SocketAddr)) :=
  let d := set_tokens d (rotate_if_due (tokens d) (now_tokens inp) (random_secret inp)) in
  d ← (if negb (is_read_only data)
       then t ← Routing.insert (table d) (sender_id query) from (now_table inp); Some (set_table d t)
       else Some d);
  match answer d inp query from with
  | Ok (d, reply) => Some (d, [(encode_msg (ResponseMsg t (with_ip reply from)), from)])
  | Err (code, message) => Some (d, [(encode_msg (ErrorMsg t code message), from)])
  end.

Definition handle_inbound (d : Dht) (inp : Inputs) (data : list Z) (from : SocketAddr)
    : option (Dht * list (list Z * SocketAddr) * option (list Z * Response * SocketAddr)) :=
  if negb (is_our_family d from) then Some (d, [], None)
  else
    match Krpc.decode data with
    | None => None
    | Some (Err _) => Some (d, [], None)
    | Some (Ok (QueryMsg t query)) =>
        if read_only d then Some (d, [], None)
        else '(d, sent) ← handle_query d inp data t query from; Some (d, sent, None)
    | Some (Ok (ResponseMsg t response)) =>
        d ← match Krpc.ip response with
            | Some reported => note_reported_address d inp (ip_of from) (ip_of reported)
            | None => Some d
            end;
        Some (d, [], Some (t, response, from))
    | Some (Ok (ErrorMsg _ _ _)) => Some (d, [], None)
    end.

(** One turn of [serve_for]: what was received is handled, and a response
    refreshes the table. *)
Definition serve (d : Dht) (inp : Inputs) (data : list Z) (from : SocketAddr) : option (Dht * list (list Z * SocketAddr)) :=
  '(d, sent, resp) ← handle_inbound d inp data from;
  match resp with
  | Some (_, response, from) => t ← Routing.insert (table d) (r_id response) from (now_table inp); Some (set_table d t, sent)
  | None => Some (d, sent)
  end.
End node.

(** ** Nodes of a table *)

Definition table_nodes (t : RoutingTable) : list CompactNode := node <$> concat (buckets t).

Lemma bucket_insert_nodes (P : CompactNode -> Prop) bucket i addr now :
  Forall (fun e => P (node e)) bucket -> P (mkCompactNode i addr) -> Forall (fun e => P (node e)) (bucket_insert bucket i addr now).
Proof.
  intros Hb Hn. destruct (bucket_insert_cases bucket i addr now) as
    [(at_ & e & _ & _ & ->) | [(_ & _ & ->) | (_ & _ & at_ & e & _ & _ & ->)]].
  - by apply Forall_insert.
  - apply Forall_app. split; [done |]. by apply Forall_singleton.
  - by apply Forall_insert.
Qed.

Lemma insert_nodes (P : CompactNode -> Prop) t i addr now t' :
  Forall P (table_nodes t) -> P (mkCompactNode i addr) -> Routing.insert t i addr now = Some t' -> Forall P (table_nodes t').
Proof.
  unfold table_nodes. rewrite !Forall_fmap. intros Ht Hn H. unfold Routing.insert in H.
  destruct (bucket_index (self_id t) i) as [idx |]; [| by injection H as <-].
  destruct (buckets t !! idx) as [bucket |] eqn:E; [| done]. injection H as <-. cbn [buckets].
  apply Forall_concat in Ht. apply Forall_concat. apply Forall_insert; [done |]. apply bucket_insert_nodes; [| done].
  by apply (Forall_lookup_1 _ _ _ _ Ht E).
Qed.

Lemma insert_all_nodes (P : CompactNode -> Prop) known clock n t t' :
  Forall P (table_nodes t) -> Forall (fun e => P (node e)) known -> insert_all t known clock n = Some t' -> Forall P (table_nodes t').
Proof.
  revert n t. induction known as [| e known IH]; intros n t Ht Hk H; cbn [insert_all] in H; [by injection H as <- |].
  apply Forall_cons in Hk as [He Hk]. destruct (Routing.insert _ _ _ _) as [t1 |] eqn:E; [| done].
  apply (IH (S n) t1); [| done | exact H]. eapply insert_nodes; [exact Ht | | exact E]. by destruct (node e).
Qed.

Lemma recentre_nodes (P : CompactNode -> Prop) t i clock t' :
  Forall P (table_nodes t) -> recentre t i clock = Some t' -> Forall P (table_nodes t').
Proof.
  intros Ht H. unfold recentre in H. eapply insert_all_nodes; [| | exact H].
  - unfold table_nodes. cbn [buckets]. apply Forall_fmap, Forall_concat, Forall_fmap, Forall_true. constructor.
  - unfold table_nodes in Ht. by rewrite Forall_fmap in Ht.
Qed.

Lemma closest_nodes (P : CompactNode -> Prop) t target n :
  Forall P (table_nodes t) -> Forall P (closest t target n) /\ (length (closest t target n) <= n)%nat.
Proof.
  intros Ht. unfold table_nodes in Ht. unfold closest. rewrite Forall_fmap in *. split.
  - apply Forall_take. by rewrite (merge_sort_Permutation (closer target)).
  - rewrite length_fmap, length_take. lia.
Qed.

(** ** The invariant *)

(** A node this one can reach and name in an answer. *)
Definition our_node (v6 : bool) (n : CompactNode) : Prop := id_ok (node_id n) /\ addr_ok (node_addr n) /\ is_ipv6 (node_addr n) = v6.

Definition item_fits (item : Item) : Prop :=
  value_fits (item_v item) /\
  match item_mutable item with Some m => zlen (meta_k m) = 32 /\ i64_ok (meta_seq m) /\ zlen (meta_sig m) = 64 | None => True end.

Record peers_ok (peers : gmap NodeId (list SocketAddr)) : Prop := {
  pok_size : (size peers <= MAX_STORED_INFOHASHES)%nat;
  pok_each : map_Forall (fun _ l => (length l <= MAX_STORED_PEERS_PER_HASH)%nat /\ NoDup l /\ Forall addr_ok l) peers
}.

Record inputs_ok (inp : Inputs) : Prop := {
  iok_id : id_ok (random_id inp);
  iok_byte : byte_ok (random_byte inp)
}.

Section node_inv.
Context `{C : Crypto}.

Record node_inv (d : Dht) : Prop := {
  inv_id : id_ok (my_id d);
  inv_table : table_ok (table d);
  inv_self : self_id (table d) = my_id d;
  inv_nodes : Forall (our_node (ipv6 d)) (table_nodes (table d));
  inv_peers : peers_ok (peer_store d);
  inv_items : store_ok (item_store d);
  inv_fits : map_Forall (fun _ => item_fits) (items (item_store d));
  inv_reports : (size (address_reports d) <= MAX_ADDRESS_CANDIDATES)%nat /\
    map_Forall (fun _ rs => (size rs < ADDRESS_REPORTS_NEEDED)%nat) (address_reports d);
  inv_external : match external_ip d with Some a => is_valid (my_id d) a = true | None => True end
}.

Lemma new_dht_inv random secret v6 now : id_ok random -> node_inv (new_dht random secret v6 now).
Proof.
  intros Hr. split; cbn [my_id table ipv6 peer_store item_store external_ip address_reports new_dht]; try done.
  - by apply new_table_ok.
  - split; [rewrite map_size_empty; lia | apply map_Forall_empty].
  - apply empty_store_ok.
  - rewrite map_size_empty. split; [lia | apply map_Forall_empty].
Qed.

(** ** The parts of a step *)

Lemma remember_node d i addr now :
  node_inv d -> id_ok i -> addr_ok addr -> is_ipv6 addr = ipv6 d ->
  exists t, Routing.insert (table d) i addr now = Some t /\ node_inv (set_table d t).
Proof.
  intros Hd Hi Ha Hf. destruct (insert_ok (table d) i addr now (inv_table d Hd) Hi) as (t & Ht & Hok & Hself).
  exists t. split; [done |]. destruct Hd. split; cbn [my_id table ipv6 peer_store item_store external_ip address_reports set_table]; try done.
  - congruence.
  - by eapply insert_nodes.
Qed.

Lemma store_peer_ok peers ih peer : peers_ok peers -> addr_ok peer -> peers_ok (store_peer peers ih peer).
Proof.
  intros [Hs He] Hp. unfold store_peer.
  destruct (negb (bool_decide (peers !! ih = None)) || (size peers <? MAX_STORED_INFOHASHES)%nat) eqn:E; [| done].
  set (known := default [] (peers !! ih)).
  assert ((length known <= MAX_STORED_PEERS_PER_HASH)%nat /\ NoDup known /\ Forall addr_ok known) as (Hl & Hnd & Hall).
  { unfold known. destruct (peers !! ih) as [l |] eqn:El; [by apply (He ih) |]. cbn. split_and!; [lia | constructor | constructor]. }
  assert (forall l, (size (<[ih := l]> peers) <= MAX_STORED_INFOHASHES)%nat) as Hsize.
  { intros l. destruct (peers !! ih) eqn:El; [by rewrite map_size_insert_Some |]. rewrite map_size_insert_None by done.
    rewrite bool_decide_eq_true_2 in E by done. apply Nat.ltb_lt in E. lia. }
  destruct (negb (bool_decide (peer ∈ known)) && (length known <? MAX_STORED_PEERS_PER_HASH)%nat) eqn:E2; (split; [done |]).
  - apply andb_true_iff in E2 as [Hn%negb_true_iff%bool_decide_eq_false Hlt%Nat.ltb_lt].
    apply map_Forall_insert_2; [| done]. rewrite length_app. cbn [length]. split_and!; [lia | |].
    + apply NoDup_app. split_and!; [done | | apply NoDup_singleton]. intros x Hx ->%list_elem_of_singleton. done.
    + apply Forall_app. split; [done |]. by apply Forall_singleton.
  - by apply map_Forall_insert_2.
Qed.
End node_inv.

(** ** Answers fit the wire *)

Lemma omap_length {A B} (f : A -> option B) l : (length (omap f l) <= length l)%nat.
Proof. induction l as [| x l IH]; [done |]. change (omap f (x :: l)) with (match f x with Some y => y :: omap f l | None => omap f l end).
  destruct (f x); cbn [length]; lia. Qed.

Lemma nodes_small ns :
  Forall node_ok ns -> (length ns <= K)%nat -> small (encode_compact_nodes ns) /\ small (encode_compact_nodes6 ns).
Proof.
  intros Hok Hl. destruct (encode_nodes_concat ns) as [-> ->]. destruct (node_bytes_len ns Hok) as [H4 H6]. unfold small.
  rewrite (zlen_concat_len 26), (zlen_concat_len 38) by done.
  pose proof (omap_length node4_bytes ns). pose proof (omap_length node6_bytes ns). unfold zlen, K, i64_max in *. lia.
Qed.

Section answers.
Context `{C : Crypto}.

Lemma token_small secret ip : small (token_for secret ip).
Proof. unfold small, token_for, zlen, i64_max. rewrite length_take. lia. Qed.

Lemma closest_response d target tok from :
  node_inv d -> opt_ok small tok -> addr_ok from ->
  response_ok (with_ip (mkResponse (my_id d) (closest (table d) target K) [] tok None None None None None) from).
Proof.
  intros Hd Ht Hf. destruct (closest_nodes _ (table d) target K (inv_nodes d Hd)) as [Hn Hl].
  assert (Forall node_ok (closest (table d) target K)) as Hok.
  { apply (Forall_impl _ _ _ Hn). intros n (Hi & Ha & _). split; [by apply id_ok_len | done]. }
  constructor; cbn [r_id nodes values r_token ip r_v r_k r_seq r_sig with_ip]; try done; [apply Hd | by apply nodes_small].
Qed.

Lemma plain_response d tok from :
  node_inv d -> opt_ok small tok -> addr_ok from ->
  response_ok (with_ip (mkResponse (my_id d) [] [] tok None None None None None) from).
Proof. intros Hd Ht Hf. constructor; cbn; try done. apply Hd. Qed.

Lemma stored_fits d target now it :
  node_inv d -> store_get (item_store d) target now = Some it ->
  value_fits (stored_v it) /\
  match stored_mutable it with Some (k, seq, sig) => zlen k = 32 /\ i64_ok seq /\ zlen sig = 64 | None => True end.
Proof.
  intros Hd (item & Hi & _ & ->)%store_get_inv. apply (inv_fits d Hd) in Hi as [Hv Hm]. split; [done |].
  cbn. by destruct (item_mutable item).
Qed.

Lemma answer_get_ok d now target seq from :
  node_inv d -> addr_ok from -> response_ok (with_ip (answer_get d now target seq from) from).
Proof.
  intros Hd Hf. unfold answer_get. destruct (store_get (item_store d) target now) as [it |] eqn:E;
    [| apply closest_response; [done | apply token_small | done]].
  apply stored_fits in E as [Hv Hm]; [| done].
  assert (response_ok (with_ip (mkResponse (my_id d) [] [] (Some (issue (tokens d) (ip_of from))) None None None None None) from)) as Hplain
    by (apply plain_response; [done | apply token_small | done]).
  destruct (stored_mutable it) as [[[k s] sig] |].
  - destruct seq as [their |]; [destruct (s <=? their); [exact Hplain |] |]; destruct Hplain, Hm as (Hk & Hs & Hg);
      constructor; cbn in *; done.
  - destruct Hplain. constructor; cbn in *; done.
Qed.

Lemma put_fits s s' (P : Item -> Prop) target item :
  map_Forall (fun _ => P) (items s) -> s' = mkStore (<[target := item]> (items s)) -> P item -> map_Forall (fun _ => P) (items s').
Proof. intros Hs -> Hi. cbn. by apply map_Forall_insert_2. Qed.

(** What an error message may be. *)
Definition error_ok (e : Z * list Z) : Prop := i64_ok e.1 /\ small e.2 /\ from_utf8_ok e.2 = true.

Lemma put_error_ok e : error_ok (put_error_code e).
Proof. destruct e; (split; [vm_compute; split; discriminate |]); (split; [vm_compute; discriminate | vm_compute; reflexivity]). Qed.

Lemma bad_token_ok : error_ok (203, str "bad token").
Proof. split; [vm_compute; split; discriminate |]. split; [vm_compute; discriminate | vm_compute; reflexivity]. Qed.

Lemma set_items_inv d s : node_inv d -> store_ok s -> map_Forall (fun _ => item_fits) (items s) -> node_inv (set_items d s).
Proof. intros [] Hs Hf. split; done. Qed.

Lemma set_peers_inv d p : node_inv d -> peers_ok p -> node_inv (set_peers d p).
Proof. intros [] Hp. split; done. Qed.

Lemma set_tokens_inv d t : node_inv d -> node_inv (set_tokens d t).
Proof. intros []. split; done. Qed.

Lemma answer_put_ok d inp item s t :
  node_inv d -> value_fits (i_v item) -> match mutable item with Some m => mutable_ok m | None => True end ->
  match mutable item with
  | None => put_immutable (item_store d) (i_v item) (now_items inp)
  | Some m => put_mutable (item_store d) (m_k m) (m_salt m) (m_seq m) (m_sig m) (i_v item) (m_cas m) (now_items inp)
  end = Ok (t, s) ->
  node_inv (set_items d s).
Proof.
  intros Hd Hv Hm H. destruct (mutable item) as [m |].
  - apply set_items_inv; [done | eapply put_ok; [apply (inv_items d Hd) | by eapply put_mut] |].
    apply put_mutable_inv in H as (_ & _ & _ & _ & _ & _ & Hs). eapply put_fits; [apply Hd | exact Hs |].
    destruct Hm as (Hk & Hsig & Hseq & _). by split.
  - apply set_items_inv; [done | eapply put_ok; [apply (inv_items d Hd) | by eapply put_imm] |].
    apply put_immutable_inv in H as (_ & _ & _ & Hs). eapply put_fits; [apply Hd | exact Hs |]. by split.
Qed.

Lemma socket_addr_ok from p : addr_ok from -> u_ok 16 p -> addr_ok (socket_addr (ip_of from) p).
Proof. destruct from; by intros [Hl _] Hp. Qed.

Lemma answer_ok d inp q from :
  node_inv d -> query_ok q -> addr_ok from ->
  match answer d inp q from with
  | Ok (d', r) => node_inv d' /\ response_ok (with_ip r from)
  | Err e => error_ok e
  end.
Proof.
  intros Hd [Hid Hq] Hf. destruct q as [i | i target | i ih | i ih p token implied | i target seq | i token item]; cbn [answer].
  - split; [done |]. by apply plain_response.
  - split; [done |]. by apply closest_response.
  - assert (response_ok (with_ip (mkResponse (my_id d) (closest (table d) ih K) [] (Some (issue (tokens d) (ip_of from))) None None None None None) from))
      by (apply closest_response; [done | apply token_small | done]).
    destruct (peer_store d !! ih) as [[| x l] |] eqn:E; (split; [done |]); [done | | done].
    apply (pok_each _ (inv_peers d Hd)) in E as (_ & _ & Hall).
    constructor; cbn [r_id nodes values r_token ip r_v r_k r_seq r_sig with_ip]; try done; [apply Hd | apply token_small].
  - destruct (accepts (tokens d) (ip_of from) token); cbn [negb]; [| exact bad_token_ok]. destruct Hq as (_ & Hp & _). split.
    + apply set_peers_inv; [done |]. apply store_peer_ok; [apply Hd |]. apply socket_addr_ok; [done |].
      destruct implied; [| done]. by destruct from; destruct Hf.
    + by apply plain_response.
  - split; [done |]. by apply answer_get_ok.
  - destruct (accepts (tokens d) (ip_of from) token); cbn [negb]; [| exact bad_token_ok]. destruct Hq as (_ & Hv & Hm).
    destruct (match mutable item with None => _ | Some m => _ end) as [[t s] | e] eqn:E; [| apply put_error_ok].
    split; [by eapply answer_put_ok | by apply plain_response].
Qed.
End answers.

Section steps.
Context `{C : Crypto}.

Lemma note_reported_ok d inp reporter reported :
  node_inv d -> inputs_ok inp ->
  exists d', note_reported_address d inp reporter reported = Some d' /\ node_inv d' /\ ipv6 d' = ipv6 d /\
    tokens d' = tokens d /\ peer_store d' = peer_store d /\ item_store d' = item_store d /\ read_only d' = read_only d.
Proof.
  intros Hd Hi. unfold note_reported_address. destruct (_ || _ || _); [by exists d |].
  set (reports := if bool_decide (address_reports d !! reported = None) && (MAX_ADDRESS_CANDIDATES <=? size (address_reports d))%nat
                  then ∅ else address_reports d).
  set (reporters := {[reporter]} ∪ default ∅ (reports !! reported)).
  assert ((forall rs, size (<[reported := rs]> reports) <= MAX_ADDRESS_CANDIDATES)%nat /\
          map_Forall (fun _ rs => (size rs < ADDRESS_REPORTS_NEEDED)%nat) reports) as [Hsize Hall].
  { destruct (inv_reports d Hd) as [Hs Ha]. unfold reports.
    destruct (bool_decide (address_reports d !! reported = None)) eqn:E, (Nat.leb_spec MAX_ADDRESS_CANDIDATES (size (address_reports d)));
      cbn [andb]; (split; [intros rs |]); try done; try (by intros ? ? ?%lookup_empty_Some);
      try (apply bool_decide_eq_true in E); try (apply bool_decide_eq_false in E as [x Ex]%not_eq_None_Some).
    - rewrite insert_empty, map_size_singleton. unfold MAX_ADDRESS_CANDIDATES. lia.
    - rewrite map_size_insert_None by done. lia.
    - by rewrite map_size_insert_Some by (by exists x).
    - by rewrite map_size_insert_Some by (by exists x). }
  destruct (Nat.leb_spec ADDRESS_REPORTS_NEEDED (size reporters)) as [_ | Hlt].
  - destruct (node_id_for_ok reported (random_byte inp) (random_id inp) (iok_byte _ Hi) (iok_id _ Hi)) as [Hid Hval].
    destruct (recentre_ok (table d) (node_id_for reported (random_byte inp) (random_id inp)) (table_clock inp) (inv_table d Hd) Hid)
      as (t & Ht & Htok & Hself).
    rewrite Ht. eexists. split; [done |]. split; [| done]. destruct Hd.
    split; cbn [my_id table ipv6 peer_store item_store external_ip address_reports]; try done.
    + by eapply recentre_nodes.
    + rewrite map_size_empty. split; [lia | apply map_Forall_empty].
  - eexists. split; [done |]. split; [| done]. destruct Hd.
    split; cbn [my_id table ipv6 peer_store item_store external_ip address_reports set_reports]; try done.
    split; [done |]. by apply map_Forall_insert_2.
Qed.

Lemma note_reported_v6 d inp a b d' : note_reported_address d inp a b = Some d' -> ipv6 d' = ipv6 d.
Proof.
  unfold note_reported_address. destruct (_ || _ || _); [by intros [= <-] |]. destruct (_ <=? _)%nat; [| by intros [= <-]].
  destruct (recentre _ _ _); [| done]. by intros [= <-].
Qed.

Lemma answer_v6 d inp q from d' r : answer d inp q from = Ok (d', r) -> ipv6 d' = ipv6 d.
Proof.
  intros H. destruct q as [i | i target | i ih | i ih p token implied | i target seq | i token item]; cbn [answer] in H;
    try by injection H as <- _.
  - destruct (peer_store d !! ih) as [[| x l] |]; by injection H as <- _.
  - destruct (accepts _ _ _); [| done]. by injection H as <- _.
  - destruct (accepts _ _ _); [| done]. cbn [negb] in H.
    match type of H with match ?e with _ => _ end = _ => destruct e as [[t s] | e']; [| done] end. by injection H as <- _.
Qed.

Lemma handle_query_v6 d inp data t q from d' sent : handle_query d inp data t q from = Some (d', sent) -> ipv6 d' = ipv6 d.
Proof.
  unfold handle_query. cbv zeta. intros H.
  match type of H with (?o ≫= _) = _ => destruct o as [d1 |] eqn:E; [| done] end. cbn [mbind option_bind] in H.
  assert (ipv6 d1 = ipv6 d) as <-.
  { destruct (negb (is_read_only data)); [| by injection E as <-]. destruct (Routing.insert _ _ _ _); [| done]. by injection E as <-. }
  destruct (answer d1 inp q from) as [[d2 r] | [code msg]] eqn:Ea; injection H as <- _; [by eapply answer_v6 | done].
Qed.

(** What is sent in answer to a query. *)
Definition reply_to (t : list Z) (m : KrpcMessage) : Prop :=
  message_ok m /\ match m with ResponseMsg t' _ | ErrorMsg t' _ _ => t' = t | QueryMsg _ _ => False end.

Lemma handle_query_ok d inp data t q from :
  node_inv d -> small t -> query_ok q -> addr_ok from -> is_ipv6 from = ipv6 d ->
  exists d' m, handle_query d inp data t q from = Some (d', [(encode_msg m, from)]) /\ node_inv d' /\ reply_to t m.
Proof.
  intros Hd Ht Hq Hf Hfam. unfold handle_query. cbv zeta.
  set (d0 := set_tokens d (rotate_if_due (tokens d) (now_tokens inp) (random_secret inp))).
  assert (node_inv d0) as Hd0 by (by apply set_tokens_inv).
  assert (exists d1, (if negb (is_read_only data)
       then t ← Routing.insert (table d0) (sender_id q) from (now_table inp); Some (set_table d0 t) else Some d0) = Some d1 /\ node_inv d1)
    as (d1 & -> & Hd1).
  { destruct (negb (is_read_only data)); [| by exists d0].
    destruct (remember_node d0 (sender_id q) from (now_table inp)) as (tb & -> & Hok); [done | apply Hq | done | done |]. by eexists. }
  cbn [mbind option_bind]. pose proof (answer_ok d1 inp q from Hd1 Hq Hf) as Ha.
  destruct (answer d1 inp q from) as [[d' r] | [code msg]].
  - destruct Ha as [Hd' Hr]. exists d', (ResponseMsg t (with_ip r from)). split; [done |]. split; [done |]. by split.
  - exists d1, (ErrorMsg t code msg). split; [done |]. split; [done |]. split; [| done]. by split.
Qed.

Lemma handle_inbound_ok d inp data from :
  node_inv d -> inputs_ok inp -> zlen data <= i64_max -> bytes_ok data -> addr_ok from ->
  exists d' sent resp, handle_inbound d inp data from = Some (d', sent, resp) /\ node_inv d' /\
    (sent = [] \/ exists t q m, Krpc.decode data = Some (Ok (QueryMsg t q)) /\ read_only d = false /\ sent = [(encode_msg m, from)] /\ reply_to t m) /\
    (forall t r a, resp = Some (t, r, a) -> a = from /\ is_ipv6 from = ipv6 d' /\ response_ok r).
Proof.
  intros Hd Hi Hlen Hb Hf. unfold handle_inbound, is_our_family.
  destruct (Bool.eqb_spec (is_ipv6 from) (ipv6 d)) as [Hfam |]; cbn [negb]; [| exists d, [], None; split_and!; [done | done | by left | done]].
  destruct (krpc_decode_sound data Hlen Hb) as (r & Hr & Hok). rewrite Hr. destruct r as [m | e]; [| exists d, [], None; split_and!; [done | done | by left | done]].
  destruct (Hok m eq_refl) as [Hm _]. destruct m as [t q | t response | t code msg]; [| | exists d, [], None; split_and!; [done | done | by left | done]].
  - destruct Hm as [Ht Hq]. destruct (read_only d) eqn:Ero; [exists d, [], None; split_and!; [done | done | by left | done] |].
    destruct (handle_query_ok d inp data t q from Hd Ht Hq Hf Hfam) as (d' & m & E & Hd' & Hrep). rewrite E. cbn.
    exists d', [(encode_msg m, from)], None. split; [done |]. split; [done |]. split; [| done]. right. by exists t, q, m.
  - destruct Hm as [Ht Hresp]. destruct (Krpc.ip response) as [reported |].
    + destruct (note_reported_ok d inp (ip_of from) (ip_of reported) Hd Hi) as (d' & -> & Hd' & Hv6 & _). cbn.
      eexists _, _, _. split; [done |]. split; [done |]. split; [by left |]. intros t' r a [= <- <- <-]. split; [done |]. by rewrite Hv6.
    + cbn. eexists _, _, _. split; [done |]. split; [done |]. split; [by left |]. by intros t' r a [= <- <- <-].
Qed.

(** The family of a node does not change, and it only talks to its own. *)
Lemma handle_inbound_family d inp data from d' sent resp :
  handle_inbound d inp data from = Some (d', sent, resp) ->
  ipv6 d' = ipv6 d /\ (sent <> [] \/ resp <> None -> is_ipv6 from = ipv6 d').
Proof.
  intros H. assert (ipv6 d' = ipv6 d) as Hv.
  { unfold handle_inbound in H. destruct (negb _); [by injection H as <- _ _ |].
    destruct (Krpc.decode data) as [[[t q | t r | t code msg] | e] |]; [| | by injection H as <- _ _ | by injection H as <- _ _ | done].
    - destruct (read_only d); [by injection H as <- _ _ |].
      destruct (handle_query d inp data t q from) as [[d1 s1] |] eqn:E; [| done]. cbn in H. injection H as <- _ _.
      by eapply handle_query_v6.
    - destruct (match Krpc.ip r with Some _ => _ | None => _ end) as [d1 |] eqn:E; [| done]. cbn in H. injection H as <- _ _.
      destruct (Krpc.ip r); [| by injection E as <-]. by eapply note_reported_v6. }
  split; [done |]. rewrite Hv. unfold handle_inbound, is_our_family in H.
  destruct (Bool.eqb_spec (is_ipv6 from) (ipv6 d)); [done |]. cbn [negb] in H. injection H as <- <- <-. by intros [? | ?].
Qed.

(** A node in service: each datagram in turn, whoever sent it. *)
Inductive served : Dht -> Dht -> Prop :=
| served_one d inp data from d' sent :
    inputs_ok inp -> zlen data <= i64_max -> bytes_ok data -> addr_ok from ->
    serve d inp data from = Some (d', sent) -> served d d'.

Lemma serve_ok d inp data from :
  node_inv d -> inputs_ok inp -> zlen data <= i64_max -> bytes_ok data -> addr_ok from ->
  exists d' sent, serve d inp data from = Some (d', sent) /\ node_inv d' /\
    (sent = [] \/ exists t q m, Krpc.decode data = Some (Ok (QueryMsg t q)) /\ read_only d = false /\ sent = [(encode_msg m, from)] /\ reply_to t m).
Proof.
  intros Hd Hi Hlen Hb Hf. unfold serve.
  destruct (handle_inbound_ok d inp data from Hd Hi Hlen Hb Hf) as (d1 & sent & resp & -> & Hd1 & Hsent & Hresp). cbn.
  destruct resp as [[[t r] a] |]; [| by exists d1, sent].
  destruct (Hresp t r a eq_refl) as (-> & Hfam & Hr).
  destruct (remember_node d1 (r_id r) from (now_table inp)) as (tb & -> & Hok); [done | apply Hr | done | done |]. cbn.
  by exists (set_table d1 tb), sent.
Qed.

Lemma served_inv d d' : node_inv d -> rtc served d d' -> node_inv d'.
Proof.
  intros Hd. induction 1 as [| d d1 d' Hs _ IH]; [done |]. apply IH. destruct Hs as [d inp data from d1 sent Hi Hl Hb Hf Hs].
  destruct (serve_ok d inp data from Hd Hi Hl Hb Hf) as (d2 & sent2 & E & Hd2 & _). rewrite E in Hs. by injection Hs as <- <-.
Qed.
End steps.

(** ** What a datagram can change *)

Definition peers_of (d : Dht) (ih : NodeId) : list SocketAddr := default [] (peer_store d !! ih).

(** The secrets in force while a query is answered. *)
Definition secrets_at (d : Dht) (inp : Inputs) : TokenSecrets := rotate_if_due (tokens d) (now_tokens inp) (random_secret inp).

Section effects.
Context `{C : Crypto}.

(** Nothing else of the node changed. *)
Definition same_service (d d' : Dht) : Prop :=
  ipv6 d' = ipv6 d /\ read_only d' = read_only d /\ tokens d' = tokens d /\ peer_store d' = peer_store d /\ item_store d' = item_store d.

Lemma note_reported_same d inp a b d' : note_reported_address d inp a b = Some d' -> same_service d d'.
Proof.
  unfold note_reported_address. destruct (_ || _ || _); [by intros [= <-] |]. destruct (_ <=? _)%nat.
  - destruct (recentre _ _ _); [| done]. by intros [= <-].
  - by intros [= <-].
Qed.

(** The peers and items after a query, and the token that let them change. *)
Inductive effect (d : Dht) (inp : Inputs) (from : SocketAddr) : Query -> Dht -> Prop :=
| no_effect q d' : peer_store d' = peer_store d -> item_store d' = item_store d -> effect d inp from q d'
| announced i ih p tok (implied : bool) d' :
    accepts (secrets_at d inp) (ip_of from) tok = true ->
    peer_store d' = store_peer (peer_store d) ih (socket_addr (ip_of from) (if implied then Net.port from else p)) ->
    item_store d' = item_store d -> effect d inp from (AnnouncePeer i ih p tok implied) d'
| stored i tok item d' :
    accepts (secrets_at d inp) (ip_of from) tok = true -> put (item_store d) (item_store d') ->
    peer_store d' = peer_store d -> effect d inp from (Put i tok item) d'.

Lemma answer_effect d d1 inp q from d' r :
  tokens d1 = secrets_at d inp -> peer_store d1 = peer_store d -> item_store d1 = item_store d ->
  answer d1 inp q from = Ok (d', r) ->
  effect d inp from q d' /\ ipv6 d' = ipv6 d1 /\ read_only d' = read_only d1 /\ tokens d' = tokens d1.
Proof.
  intros Ht Hp Hi H.
  destruct q as [i | i target | i ih | i ih p token implied | i target seq | i token item]; cbn [answer] in H.
  - injection H as <- <-. split; [by apply no_effect | done].
  - injection H as <- <-. split; [by apply no_effect | done].
  - destruct (peer_store d1 !! ih) as [[| x l] |]; injection H as <- <-; (split; [by apply no_effect | done]).
  - destruct (accepts (tokens d1) (ip_of from) token) eqn:E; [| done]. injection H as <- <-. split; [| done].
    apply announced; [by rewrite <- Ht | cbn; by rewrite Hp | done].
  - injection H as <- <-. split; [by apply no_effect | done].
  - destruct (accepts (tokens d1) (ip_of from) token) eqn:E; [| done]. cbn [negb] in H.
    match type of H with match ?e with _ => _ end = _ => destruct e as [[t s] | e'] eqn:Es; [| done] end.
    injection H as <- <-. split; [| done]. apply stored; [by rewrite <- Ht | | done]. cbn [item_store set_items]. rewrite <- Hi.
    destruct (mutable item); [by eapply put_mut | by eapply put_imm].
Qed.

Lemma handle_query_effect d inp data t q from d' sent :
  handle_query d inp data t q from = Some (d', sent) ->
  effect d inp from q d' /\ ipv6 d' = ipv6 d /\ read_only d' = read_only d /\ tokens d' = secrets_at d inp /\
  exists d1, same_service (set_tokens d (secrets_at d inp)) d1 /\
    sent = [(encode_msg (match answer d1 inp q from with
                         | Ok (_, r) => ResponseMsg t (with_ip r from)
                         | Err (code, message) => ErrorMsg t code message
                         end), from)].
Proof.
  unfold handle_query. cbv zeta. intros H. set (d0 := set_tokens d (rotate_if_due (tokens d) (now_tokens inp) (random_secret inp))) in *.
  assert (exists d1, (if negb (is_read_only data)
       then t ← Routing.insert (table d0) (sender_id q) from (now_table inp); Some (set_table d0 t) else Some d0) = Some d1 /\ same_service d0 d1)
    as (d1 & E & Hs).
  { destruct (negb (is_read_only data)); [| by exists d0].
    destruct (Routing.insert _ _ _ _) as [tb |]; [by eexists | done]. }
  rewrite E in H. cbn [mbind option_bind] in H. pose proof Hs as (Hv & Hro & Ht & Hp & Hi).
  assert (exists d1, same_service d0 d1 /\ sent = [(encode_msg (match answer d1 inp q from with
      | Ok (_, r) => ResponseMsg t (with_ip r from) | Err (code, message) => ErrorMsg t code message end), from)]) as Hsent.
  { exists d1. split; [done |]. destruct (answer d1 inp q from) as [[d2 r] | [code msg]]; by injection H as <- <-. }
  destruct (answer d1 inp q from) as [[d2 r] | [code msg]] eqn:Ea; injection H as <- <-.
  - destruct (answer_effect d d1 inp q from d2 r Ht Hp Hi Ea) as (He & H1 & H2 & H3).
    split_and!; [done | by rewrite H1 | by rewrite H2 | by rewrite H3 | done].
  - split_and!; [by apply no_effect | done..].
Qed.

(** One turn of service, seen from outside: a query that was answered, or
    nothing that concerns the peers, the items and the secrets. *)
Lemma serve_effect d inp data from d' sent :
  serve d inp data from = Some (d', sent) ->
  ipv6 d' = ipv6 d /\ read_only d' = read_only d /\
  ((exists t q, is_our_family d from = true /\ read_only d = false /\ Krpc.decode data = Some (Ok (QueryMsg t q)) /\
      effect d inp from q d' /\ tokens d' = secrets_at d inp /\
      exists d1, same_service (set_tokens d (secrets_at d inp)) d1 /\
        sent = [(encode_msg (match answer d1 inp q from with
                             | Ok (_, r) => ResponseMsg t (with_ip r from)
                             | Err (code, message) => ErrorMsg t code message
                             end), from)]) \/
   (sent = [] /\ same_service d d' /\
    ~ (is_our_family d from = true /\ read_only d = false /\ exists t q, Krpc.decode data = Some (Ok (QueryMsg t q))))).
Proof.
  unfold serve, handle_inbound. destruct (is_our_family d from); cbn [negb].
  2: { cbn. intros [= <- <-]. split_and!; [done.. |]. right. split_and!; [done.. |]. by intros (? & _). }
  destruct (Krpc.decode data) as [[[t q | t resp | t code msg] | e] |]; [| | | | done].
  - destruct (read_only d) eqn:Ero.
    { cbn. intros [= <- <-]. split_and!; [done.. |]. right. split_and!; [done.. |]. by intros (_ & ? & _). }
    destruct (handle_query d inp data t q from) as [[d1 s1] |] eqn:E; [| done]. cbn. intros [= <- <-].
    apply handle_query_effect in E as (He & Hv & Hr & Ht & Hsent). split; [done |]. split; [congruence |]. left. by exists t, q.
  - intros H. assert (exists d1, match Krpc.ip resp with Some reported => note_reported_address d inp (ip_of from) (ip_of reported) | None => Some d end = Some d1 /\ same_service d d1) as (d1 & E & Hs).
    { destruct (Krpc.ip resp); [| by exists d]. destruct (note_reported_address _ _ _ _) as [d1 |] eqn:E; [| done].
      exists d1. split; [done |]. by apply note_reported_same in E. }
    rewrite E in H. cbn in H. destruct (Routing.insert _ _ _ _) as [tb |]; [| done]. injection H as <- <-.
    split; [apply Hs |]. split; [apply Hs |]. right. split_and!; [done | apply Hs.. |]. by intros (_ & _ & t' & q & ?).
  - cbn. intros [= <- <-]. split_and!; [done.. |]. right. split_and!; [done.. |]. by intros (_ & _ & t' & q & ?).
  - cbn. intros [= <- <-]. split_and!; [done.. |]. right. split_and!; [done.. |]. by intros (_ & _ & t' & q & ?).
Qed.
End effects.

(** ** Peers announced are kept *)

Lemma store_peer_keeps peers ih peer ih' p :
  p ∈ default [] (peers !! ih') -> p ∈ default [] (store_peer peers ih peer !! ih').
Proof.
  intros Hp. unfold store_peer. destruct (_ || _); [| done]. destruct (decide (ih' = ih)) as [-> | Hne].
  - destruct (_ && _); rewrite lookup_insert_eq; cbn; [apply elem_of_app; by left | done].
  - destruct (_ && _); by rewrite lookup_insert_ne.
Qed.

(** There is room for one more peer of a torrent. *)
Definition has_room (d : Dht) (ih : NodeId) : Prop :=
  (is_Some (peer_store d !! ih) \/ (size (peer_store d) < MAX_STORED_INFOHASHES)%nat) /\
  (length (peers_of d ih) < MAX_STORED_PEERS_PER_HASH)%nat.

Lemma store_peer_adds d ih peer : has_room d ih -> peer ∈ default [] (store_peer (peer_store d) ih peer !! ih).
Proof.
  intros [Hroom Hl]. unfold store_peer, peers_of in *.
  assert (negb (bool_decide (peer_store d !! ih = None)) || (size (peer_store d) <? MAX_STORED_INFOHASHES)%nat = true) as ->.
  { apply orb_true_iff. destruct Hroom as [[x Hx] | Hlt]; [left; by rewrite Hx | right; by apply Nat.ltb_lt]. }
  destruct (bool_decide (peer ∈ default [] (peer_store d !! ih))) eqn:E; cbn [negb andb].
  - apply bool_decide_eq_true in E. by rewrite lookup_insert_eq.
  - rewrite (proj2 (Nat.ltb_lt _ _)) by done. rewrite lookup_insert_eq. cbn. apply elem_of_app. right. by apply list_elem_of_singleton.
Qed.

(** Only [announce_peer] with a token adds a peer, and only the sender's. *)
Lemma store_peer_new peers ih peer ih' p :
  p ∈ default [] (store_peer peers ih peer !! ih') -> p ∉ default [] (peers !! ih') -> ih' = ih /\ p = peer.
Proof.
  unfold store_peer. destruct (_ || _); [| done]. destruct (decide (ih' = ih)) as [-> | Hne].
  - destruct (_ && _); rewrite lookup_insert_eq; cbn; [| done].
    intros [H | ->%list_elem_of_singleton]%elem_of_app Hn; done.
  - destruct (_ && _); by rewrite lookup_insert_ne.
Qed.

Section service.
Context `{C : Crypto}.

(** Datagrams served one after another. *)
Inductive serves : list (Inputs * list Z * SocketAddr) -> Dht -> Dht -> Prop :=
| serves_nil d : serves [] d d
| serves_cons d inp data from d1 sent evs d' :
    serve d inp data from = Some (d1, sent) -> serves evs d1 d' -> serves ((inp, data, from) :: evs) d d'.

Definition event_time (e : Inputs * list Z * SocketAddr) : Z := now_tokens e.1.1.

Lemma serve_keeps_peers d inp data from d' sent ih p :
  serve d inp data from = Some (d', sent) -> p ∈ peers_of d ih -> p ∈ peers_of d' ih.
Proof.
  intros H Hp. apply serve_effect in H as (_ & _ & [(t & q & _ & _ & _ & He & _) | (_ & Hs & _)]).
  - unfold peers_of in *. destruct He as [q d' E _ | i ih' pt tok implied d' _ E _ | i tok item d' _ _ E]; rewrite E; [done | | done].
    by apply store_peer_keeps.
  - unfold peers_of in *. destruct Hs as (_ & _ & _ & -> & _). done.
Qed.

Lemma serves_keep evs d d' :
  serves evs d d' -> ipv6 d' = ipv6 d /\ read_only d' = read_only d /\ (forall ih p, p ∈ peers_of d ih -> p ∈ peers_of d' ih) /\
  exists rots, tokens d' = rotations (tokens d) rots /\ rots.*1 ⊆ event_time <$> evs.
Proof.
  induction 1 as [d | d inp data from d1 sent evs d' Hs Hrest IH]; [split_and!; try done; by exists [] |].
  destruct IH as (I1 & I2 & I3 & rots & I4 & I5).
  pose proof (fun ih p => serve_keeps_peers _ _ _ _ _ _ ih p Hs) as Hp.
  apply serve_effect in Hs as (Hv & Hro & Hcase). split; [congruence |]. split; [congruence |]. split; [auto |].
  destruct Hcase as [(t & q & _ & _ & _ & _ & Ht & _) | (_ & (_ & _ & Ht & _) & _)].
  - exists ((now_tokens inp, random_secret inp) :: rots). split; [by rewrite I4, Ht |].
    rewrite !fmap_cons. change (event_time (inp, data, from)) with (now_tokens inp). cbn [fst]. set_solver.
  - exists rots. split; [by rewrite I4, Ht |]. rewrite fmap_cons. set_solver.
Qed.

(** A query reaches the handler. *)
Definition asks (d : Dht) (data : list Z) (from : SocketAddr) (t : list Z) (q : Query) : Prop :=
  is_our_family d from = true /\ read_only d = false /\ Krpc.decode data = Some (Ok (QueryMsg t q)).

Lemma serve_asked d inp data from t q d' sent :
  asks d data from t q -> serve d inp data from = Some (d', sent) ->
  effect d inp from q d' /\ tokens d' = secrets_at d inp /\
  exists d1, same_service (set_tokens d (secrets_at d inp)) d1 /\
    sent = [(encode_msg (match answer d1 inp q from with
                         | Ok (_, r) => ResponseMsg t (with_ip r from)
                         | Err (code, message) => ErrorMsg t code message
                         end), from)].
Proof.
  intros (Hf & Hro & Hq) H. apply serve_effect in H as (_ & _ & [(t' & q' & _ & _ & Hq' & He & Ht & Hs) | (_ & _ & Hn)]).
  - rewrite Hq in Hq'. by injection Hq' as <- <-.
  - exfalso. apply Hn. split_and!; [done.. |]. by exists t, q.
Qed.

(** The answer to [get_peers]: a token, and the peers if there are any. *)
Lemma get_peers_answer d inp i ih from :
  exists r, answer d inp (GetPeers i ih) from = Ok (d, r) /\ r_token r = Some (issue (tokens d) (ip_of from)) /\ values r = peers_of d ih.
Proof.
  cbn [answer]. unfold peers_of. destruct (peer_store d !! ih) as [[| x l] |]; eexists; (split; [done |]); done.
Qed.

(** The announcement a token entitles to. *)
Lemma announce_taken d inp data from t i ih p tok implied d' sent :
  asks d data from t (AnnouncePeer i ih p tok implied) -> serve d inp data from = Some (d', sent) ->
  accepts (secrets_at d inp) (ip_of from) tok = true -> has_room d ih ->
  socket_addr (ip_of from) (if implied then Net.port from else p) ∈ peers_of d' ih.
Proof.
  intros Ha H Htok Hroom. destruct (serve_asked _ _ _ _ _ _ _ _ Ha H) as (He & _ & d1 & Hs & _).
  unfold serve, handle_inbound in H. destruct Ha as (Hf & Hro & Hq). rewrite Hf, Hq, Hro in H. cbn [negb] in H.
  destruct (handle_query d inp data t (AnnouncePeer i ih p tok implied) from) as [[d2 s2] |] eqn:E; [| done].
  cbn in H. injection H as -> ->. unfold handle_query in E. cbv zeta in E.
  match type of E with (?o ≫= _) = _ => destruct o as [d3 |] eqn:E3; [| done] end. cbn [mbind option_bind answer] in E.
  assert (same_service (set_tokens d (secrets_at d inp)) d3) as (_ & _ & Ht3 & Hp3 & _).
  { destruct (negb (is_read_only data)); [| by injection E3 as <-].
    destruct (Routing.insert _ _ _ _) as [tb |]; [| done]. by injection E3 as <-. }
  rewrite Ht3 in E. cbn [tokens set_tokens] in E. rewrite Htok in E. cbn [negb] in E. injection E as <- _.
  unfold peers_of. cbn [peer_store set_peers]. rewrite Hp3. by apply store_peer_adds.
Qed.
End service.

(** ** The address nodes report *)

Section reports.
Context `{C : Crypto}.

(** Who a datagram says we are seen by, and where. *)
Definition reports_in (data : list Z) (from : SocketAddr) : list (IpAddr * IpAddr) :=
  match Krpc.decode data with
  | Some (Ok (ResponseMsg _ r)) => match Krpc.ip r with Some a => [(ip_of from, ip_of a)] | None => [] end
  | _ => []
  end.

(** What is believed is backed by what was reported. *)
Definition backed (log : list (IpAddr * IpAddr)) (d : Dht) : Prop :=
  map_Forall (fun reported rs => forall x, x ∈ rs -> (x, reported) ∈ log) (address_reports d) /\
  match external_ip d with
  | Some a => exists rs : gset IpAddr, (ADDRESS_REPORTS_NEEDED <= size rs)%nat /\ forall x, x ∈ rs -> (x, a) ∈ log
  | None => True
  end.

Lemma backed_more log log' d : backed log d -> log ⊆ log' -> backed log' d.
Proof.
  intros [Hr He] Hl. split.
  - intros a rs Ha x Hx. apply Hl. by apply (Hr a rs Ha).
  - destruct (external_ip d); [| done]. destruct He as (rs & Hs & Hx). exists rs. split; [done |]. auto.
Qed.

Lemma note_reported_backed log d inp reporter reported d' :
  backed log d -> note_reported_address d inp reporter reported = Some d' -> backed (log ++ [(reporter, reported)]) d'.
Proof.
  intros Hb. unfold note_reported_address. destruct (_ || _ || _).
  { intros [= <-]. apply (backed_more log); [done |]. set_solver. }
  set (reports := if bool_decide (address_reports d !! reported = None) && (MAX_ADDRESS_CANDIDATES <=? size (address_reports d))%nat
                  then ∅ else address_reports d).
  set (reporters := {[reporter]} ∪ default ∅ (reports !! reported)).
  assert (forall a rs, reports !! a = Some rs -> forall x, x ∈ rs -> (x, a) ∈ log) as Hrep.
  { intros a rs Ha. unfold reports in Ha. destruct (_ && _); [done |]. by apply (proj1 Hb). }
  assert (forall x, x ∈ reporters -> (x, reported) ∈ log ++ [(reporter, reported)]) as Hnew.
  { intros x. unfold reporters. rewrite elem_of_union, elem_of_singleton. intros [-> | Hx]; [set_solver |].
    destruct (reports !! reported) as [rs |] eqn:E; [| by apply elem_of_empty in Hx]. apply elem_of_app. left. by apply (Hrep _ _ E). }
  destruct (Nat.leb_spec ADDRESS_REPORTS_NEEDED (size reporters)).
  - destruct (recentre _ _ _); [| done]. intros [= <-]. split; cbn [address_reports external_ip]; [by intros ? ? ?%lookup_empty_Some |].
    by exists reporters.
  - intros [= <-]. split; cbn [address_reports external_ip set_reports].
    + intros a rs. destruct (decide (a = reported)) as [-> | Hne]; [rewrite lookup_insert_eq; by intros [= <-] |].
      rewrite lookup_insert_ne by done. intros Ha x Hx. apply elem_of_app. left. by apply (Hrep _ _ Ha).
    + apply (backed_more log (log ++ [(reporter, reported)])) in Hb as [_ He]; [exact He | set_solver].
Qed.

Lemma answer_reports d inp q from d' r :
  answer d inp q from = Ok (d', r) -> external_ip d' = external_ip d /\ address_reports d' = address_reports d.
Proof.
  intros H. destruct q as [i | i target | i ih | i ih p token implied | i target seq | i token item]; cbn [answer] in H.
  - by injection H as <- <-.
  - by injection H as <- <-.
  - destruct (peer_store d !! ih) as [[| x l] |]; by injection H as <- <-.
  - destruct (accepts _ _ _); [| done]. by injection H as <- <-.
  - by injection H as <- <-.
  - destruct (accepts _ _ _); [| done]. cbn [negb] in H.
    match type of H with match ?e with _ => _ end = _ => destruct e as [[t s] | e']; [| done] end. by injection H as <- <-.
Qed.

Lemma handle_query_reports d inp data t q from d' sent :
  handle_query d inp data t q from = Some (d', sent) -> external_ip d' = external_ip d /\ address_reports d' = address_reports d.
Proof.
  unfold handle_query. cbv zeta. intros H.
  match type of H with (?o ≫= _) = _ => destruct o as [d1 |] eqn:E; [| done] end. cbn [mbind option_bind] in H.
  assert (external_ip d1 = external_ip d /\ address_reports d1 = address_reports d) as [<- <-].
  { destruct (negb (is_read_only data)); [| by injection E as <-]. destruct (Routing.insert _ _ _ _); [| done]. by injection E as <-. }
  destruct (answer d1 inp q from) as [[d2 r] | [code msg]] eqn:Ea; injection H as <- _; [by eapply answer_reports | done].
Qed.

Lemma serve_backed log d inp data from d' sent :
  backed log d -> serve d inp data from = Some (d', sent) -> backed (log ++ reports_in data from) d'.
Proof.
  intros Hb. assert (forall d1, external_ip d1 = external_ip d /\ address_reports d1 = address_reports d -> backed (log ++ reports_in data from) d1) as Hsame.
  { intros d1 [He Hr]. apply (backed_more log); [| set_solver]. unfold backed. by rewrite He, Hr. }
  unfold serve, handle_inbound. destruct (is_our_family d from); cbn [negb]; [| cbn; intros [= <- _]; by apply Hsame].
  unfold reports_in in *. destruct (Krpc.decode data) as [[[t q | t resp | t code msg] | e] |]; [| | | | done].
  - destruct (read_only d); [cbn; intros [= <- _]; by apply Hsame |].
    destruct (handle_query d inp data t q from) as [[d1 s1] |] eqn:E; [| done]. cbn. intros [= <- _].
    apply Hsame. by eapply handle_query_reports.
  - destruct (Krpc.ip resp) as [reported |].
    + destruct (note_reported_address d inp (ip_of from) (ip_of reported)) as [d1 |] eqn:E; [| done]. cbn.
      destruct (Routing.insert _ _ _ _) as [tb |]; [| done]. intros [= <- _].
      apply (note_reported_backed log) in E; done.
    + cbn. destruct (Routing.insert _ _ _ _) as [tb |]; [| done]. intros [= <- _]. by apply Hsame.
  - cbn. intros [= <- _]. by apply Hsame.
  - cbn. intros [= <- _]. by apply Hsame.
Qed.

Lemma serves_backed evs log d d' :
  backed log d -> serves evs d d' -> backed (log ++ flat_map (fun e => reports_in e.1.2 e.2) evs) d'.
Proof.
  intros Hb Hs. revert log Hb. induction Hs as [d | d inp data from d1 sent evs d' Hs Hrest IH]; intros log Hb; cbn [flat_map fst snd].
  - by rewrite app_nil_r.
  - rewrite app_assoc. apply IH. by eapply serve_backed.
Qed.
End reports.

(** ** Theorems *)

Section theorems.
Context `{C : Crypto}.

(** C30: whatever datagrams strangers send, in whatever order, a node in
    service does not panic and stays within its bounds (at most eight nodes a
    bucket, 1000 torrents of 100 peers, 1000 items, 32 candidate addresses);
    and it sends nothing but one answer, to the sender of a query, that carries
    the query's transaction id and that the sender's decoder accepts.  A
    read-only node answers no one. *)
Theorem dht_node_safe (random secret : NodeId) (v6 ro : bool) (now : Z) (d : Dht) (Hr : id_ok random)
    (Hd : rtc served (set_read_only (new_dht random secret v6 now) ro) d) (inp : Inputs) (data : list Z) (from : SocketAddr)
    (Hi : inputs_ok inp) (Hlen : zlen data <= i64_max) (Hb : bytes_ok data) (Hf : addr_ok from) :
  node_inv d /\
  exists d' sent, serve d inp data from = Some (d', sent) /\ node_inv d' /\
    (sent = [] \/ exists t q bytes, Krpc.decode data = Some (Ok (QueryMsg t q)) /\ read_only d = false /\ sent = [(bytes, from)] /\
       (zlen bytes <= i64_max -> exists m, Krpc.decode bytes = Some (Ok m) /\
          match m with ResponseMsg t' _ | ErrorMsg t' _ _ => t' = t | QueryMsg _ _ => False end)).
Proof.
  assert (node_inv d) as Hinv.
  { eapply served_inv; [| exact Hd]. pose proof (new_dht_inv random secret v6 now Hr) as []. by split. }
  split; [done |]. destruct (serve_ok d inp data from Hinv Hi Hlen Hb Hf) as (d' & sent & E & Hd' & Hsent).
  exists d', sent. split; [done |]. split; [done |]. destruct Hsent as [-> | (t & q & m & Hq & Hro & -> & Hm & Ht)]; [by left |].
  right. exists t, q, (encode_msg m). split_and!; [done.. |]. intros Hl.
  exists (heard m). split; [by apply (krpc_message_heard m false) |]. by destruct m.
Qed.

(** C31: nobody can register an address that is not its own: a peer is added to
    a torrent only by an [announce_peer] for that torrent whose token was made
    with a secret still in force for the sender's address, and the peer is the
    sender's address with the port it gave (or its UDP port, if it asked for
    that); and the items change only by a [put] with such a token. *)
Theorem announce_guarded (d d' : Dht) (inp : Inputs) (data : list Z) (from : SocketAddr) (sent : list (list Z * SocketAddr))
    (H : serve d inp data from = Some (d', sent)) :
  (forall ih p, p ∈ peers_of d' ih -> p ∉ peers_of d ih ->
     exists t i pt tok implied, Krpc.decode data = Some (Ok (QueryMsg t (AnnouncePeer i ih pt tok implied))) /\
       accepts (secrets_at d inp) (ip_of from) tok = true /\
       p = socket_addr (ip_of from) (if implied : bool then Net.port from else pt)) /\
  (item_store d' <> item_store d ->
     exists t i tok item, Krpc.decode data = Some (Ok (QueryMsg t (Put i tok item))) /\
       accepts (secrets_at d inp) (ip_of from) tok = true).
Proof.
  apply serve_effect in H as (_ & _ & [(t & q & _ & _ & Hq & He & _) | (_ & (_ & _ & _ & Hp & Hi) & _)]).
  - unfold peers_of. destruct He as [q d' E Ei | i ih' pt tok implied d' Htok E Ei | i tok item d' Htok _ E]; rewrite E.
    + by split.
    + split; [| done]. intros ih p Hin Hout. destruct (store_peer_new _ _ _ _ _ Hin Hout) as [-> ->]. by exists t, i, pt, tok, implied.
    + split; [done |]. intros _. by exists t, i, tok, item.
  - unfold peers_of. rewrite Hp. by split.
Qed.

(** Announcing works: a node that asks for a torrent's peers gets a token;
    if within five minutes, whatever else arrives meanwhile, it announces
    itself from the same address with that token and there is room, then
    everyone who asks for the torrent's peers from then on is told of it. *)
Theorem announced_peers_found (d d1 d2 d3 d4 d5 : Dht) (inp1 inp2 inp3 : Inputs) (data1 data2 data3 : list Z)
    (a a' b : SocketAddr) (i ih : NodeId) (t1 t2 t3 : list Z) (p : Z) (implied : bool) (i' : NodeId)
    (evs evs' : list (Inputs * list Z * SocketAddr)) (sent1 sent2 sent3 : list (list Z * SocketAddr)) (tok : list Z)
    (Hask : asks d data1 a t1 (GetPeers i ih)) (H1 : serve d inp1 data1 a = Some (d1, sent1))
    (Hclock : rotated_at (tokens d) <= now_tokens inp1)
    (Htok : tok = issue (secrets_at d inp1) (ip_of a))
    (Hev : serves evs d1 d2) (Hsoon : Forall (fun e => now_tokens inp1 <= event_time e < now_tokens inp1 + TOKEN_ROTATION) evs)
    (Hsame : ip_of a' = ip_of a) (Hann : asks d2 data2 a' t2 (AnnouncePeer i ih p tok implied))
    (H2 : serve d2 inp2 data2 a' = Some (d3, sent2)) (Hsoon2 : now_tokens inp1 <= now_tokens inp2 < now_tokens inp1 + TOKEN_ROTATION)
    (Hroom : has_room d2 ih)
    (Hev' : serves evs' d3 d4) (Hask3 : asks d4 data3 b t3 (GetPeers i' ih)) (H3 : serve d4 inp3 data3 b = Some (d5, sent3)) :
  (exists r, sent1 = [(encode_msg (ResponseMsg t1 (with_ip r a)), a)] /\ r_token r = Some tok) /\
  (exists r, sent3 = [(encode_msg (ResponseMsg t3 (with_ip r b)), b)] /\
     socket_addr (ip_of a) (if implied then Net.port a' else p) ∈ values r).
Proof.
  destruct (serve_asked _ _ _ _ _ _ _ _ Hask H1) as (_ & Ht1 & e1 & (_ & _ & He1 & _) & ->).
  destruct (serves_keep _ _ _ Hev) as (_ & _ & _ & rots & Ht2 & Hrots).
  destruct (serves_keep _ _ _ Hev') as (_ & _ & Hkeep & _). split.
  - destruct (get_peers_answer e1 inp1 i ih a) as (r & -> & Hr & _). exists r. split; [done |]. rewrite Hr, He1, Htok. done.
  - assert (accepts (secrets_at d2 inp2) (ip_of a') tok = true) as Hacc.
    { rewrite Hsame, Htok. unfold secrets_at at 1. rewrite Ht2, Ht1.
      change (rotate_if_due (rotations (secrets_at d inp1) rots) (now_tokens inp2) (random_secret inp2))
        with (rotations (rotations (secrets_at d inp1) rots) [(now_tokens inp2, random_secret inp2)]).
      rewrite <- rotations_app. apply (token_window _ (now_tokens inp1)).
      - unfold secrets_at. destruct (rotate_if_due_cases (tokens d) (now_tokens inp1) (random_secret inp1)) as [[-> _] | [-> _]]; [done |]. cbn. lia.
      - apply Forall_app. split; [| by apply Forall_singleton]. apply Forall_forall. intros [tm sec] Hx.
        assert (tm ∈ event_time <$> evs) as (e & -> & He)%list_elem_of_fmap by (apply Hrots; exact (list_elem_of_fmap_2 fst rots (tm, sec) Hx)).
        cbn [fst]. by apply (proj1 (Forall_forall _ _) Hsoon). }
    pose proof (announce_taken _ _ _ _ _ _ _ _ _ _ _ _ Hann H2 Hacc Hroom) as Hin. rewrite Hsame in Hin. apply Hkeep in Hin.
    destruct (serve_asked _ _ _ _ _ _ _ _ Hask3 H3) as (_ & _ & e3 & (_ & _ & _ & He3 & _) & ->).
    destruct (get_peers_answer e3 inp3 i' ih b) as (r & -> & _ & Hv). exists r. split; [done |]. rewrite Hv. unfold peers_of in *. by rewrite He3.
Qed.

(** A node believes an address is its own, and moves to an id made from it
    that others will accept, only after at least five different addresses have
    each reported it. *)
Theorem external_address_agreed (random secret : NodeId) (v6 : bool) (now : Z) (evs : list (Inputs * list Z * SocketAddr)) (d : Dht) (a : IpAddr)
    (Hr : id_ok random)
    (Hevs : Forall (fun e => inputs_ok e.1.1 /\ zlen e.1.2 <= i64_max /\ bytes_ok e.1.2 /\ addr_ok e.2) evs)
    (Hs : serves evs (new_dht random secret v6 now) d) (Ha : external_ip d = Some a) :
  is_valid (my_id d) a = true /\
  exists rs : gset IpAddr, (ADDRESS_REPORTS_NEEDED <= size rs)%nat /\
    forall x, x ∈ rs -> exists e, e ∈ evs /\ reports_in e.1.2 e.2 = [(x, a)].
Proof.
  split.
  - assert (node_inv d) as Hd.
    { eapply served_inv; [by apply (new_dht_inv random secret v6 now) |]. clear Ha. induction Hs as [| d0 inp data from d1 sent evs d' H1 Hrest IH]; [apply rtc_refl |].
      apply Forall_cons in Hevs as [(E1 & E2 & E3 & E4) Hevs]. eapply rtc_l; [by eapply served_one | auto]. }
    pose proof (inv_external d Hd) as He. by rewrite Ha in He.
  - destruct (serves_backed evs [] (new_dht random secret v6 now) d) as [_ He]; [split; [apply map_Forall_empty | exact I] | done |].
    rewrite Ha in He. destruct He as (rs & Hsz & Hx). exists rs. split; [done |]. intros x Hin. apply Hx in Hin. cbn [app] in Hin.
    apply list_elem_of_In, in_flat_map in Hin as (e & He & Hin). exists e. split; [by apply list_elem_of_In |].
    apply list_elem_of_In in Hin. unfold reports_in in *. destruct (Krpc.decode e.1.2) as [[[| t r |] |] |]; try by apply not_elem_of_nil in Hin.
    destruct (Krpc.ip r); [| by apply not_elem_of_nil in Hin]. apply list_elem_of_singleton in Hin. by rewrite Hin.
Qed.
End theorems.

(** ** Examples *)

#[local] Existing Instance toy_crypto.

Definition ex_id (b : Z) : NodeId := replicate 20 b.
Definition ex_inputs (now : Z) : Inputs := mkInputs now now now (ex_id 200) (ex_id 201) 7 (fun _ => now).
Definition ex_node : Dht := new_dht (ex_id 1) (ex_id 9) false 0.
Definition ex_asker : SocketAddr := V4 [80; 1; 2; 3] 6881.
Definition ex_other : SocketAddr := V4 [80; 1; 2; 4] 6882.
Definition ex_query (q : Query) : list Z := encode_msg (QueryMsg [97] q).

Definition after (d : Dht) (now : Z) (data : list Z) (from : SocketAddr) : Dht :=
  match serve d (ex_inputs now) data from with Some (d', _) => d' | None => d end.
Definition answered (d : Dht) (now : Z) (data : list Z) (from : SocketAddr) : list (list Z * SocketAddr) :=
  match serve d (ex_inputs now) data from with Some (_, s) => s | None => [] end.

Lemma ex_id_ok b : byte_ok b -> id_ok (ex_id b).
Proof. intros Hb. split; [apply length_replicate | by apply Forall_replicate]. Qed.

Lemma ex_inputs_ok now : inputs_ok (ex_inputs now).
Proof. split; [apply ex_id_ok; vm_compute; split; [discriminate | reflexivity] | vm_compute; split; [discriminate | reflexivity]]. Qed.

Lemma dht_node_safe_witness :
  exists d' sent, serve ex_node (ex_inputs 5) (ex_query (Ping (ex_id 2))) ex_asker = Some (d', sent) /\ node_inv d'.
Proof.
  destruct (dht_node_safe (ex_id 1) (ex_id 9) false false 0 ex_node) with (inp := ex_inputs 5) (data := ex_query (Ping (ex_id 2))) (from := ex_asker)
    as (_ & d' & sent & H & Hd & _).
  - apply ex_id_ok. vm_compute. split; [discriminate | reflexivity].
  - apply rtc_refl.
  - apply ex_inputs_ok.
  - vm_compute. discriminate.
  - apply (bool_decide_unpack _). vm_compute. exact I.
  - split; [reflexivity | vm_compute; split; [discriminate | reflexivity]].
  - exists d', sent. split; [exact H | exact Hd].
Defined.

Definition ex_get_peers : list Z := ex_query (GetPeers (ex_id 2) (ex_id 66)).
Definition ex_asked : Dht := after ex_node 1000 ex_get_peers ex_asker.
Definition ex_token : list Z := issue (secrets_at ex_node (ex_inputs 1000)) (ip_of ex_asker).
Definition ex_announce : list Z := ex_query (AnnouncePeer (ex_id 2) (ex_id 66) 51413 ex_token false).
Definition ex_announced : Dht := after ex_asked 2000 ex_announce ex_asker.

Lemma announce_guarded_witness :
  exists t i pt tok implied, Krpc.decode ex_announce = Some (Ok (QueryMsg t (AnnouncePeer i (ex_id 66) pt tok implied))) /\
    accepts (secrets_at ex_asked (ex_inputs 2000)) (ip_of ex_asker) tok = true /\
    V4 [80; 1; 2; 3] 51413 = socket_addr (ip_of ex_asker) (if implied : bool then Net.port ex_asker else pt).
Proof.
  assert (serve ex_asked (ex_inputs 2000) ex_announce ex_asker = Some (ex_announced, answered ex_asked 2000 ex_announce ex_asker)) as H
    by (vm_compute; reflexivity).
  assert (peers_of ex_announced (ex_id 66) = [V4 [80; 1; 2; 3] 51413]) as E1 by (vm_compute; reflexivity).
  assert (peers_of ex_asked (ex_id 66) = []) as E2 by (vm_compute; reflexivity).
  refine (proj1 (announce_guarded _ _ _ _ _ _ H) (ex_id 66) (V4 [80; 1; 2; 3] 51413) _ _).
  - rewrite E1. apply list_elem_of_singleton. reflexivity.
  - rewrite E2. apply not_elem_of_nil.
Defined.

Lemma announced_peers_found_witness :
  exists r, answered ex_announced 3000 ex_get_peers ex_other = [(encode_msg (ResponseMsg [97] (with_ip r ex_other)), ex_other)] /\
    V4 [80; 1; 2; 3] 51413 ∈ values r.
Proof.
  refine (proj2 (announced_peers_found ex_node ex_asked ex_asked ex_announced ex_announced (after ex_announced 3000 ex_get_peers ex_other)
    (ex_inputs 1000) (ex_inputs 2000) (ex_inputs 3000) ex_get_peers ex_announce ex_get_peers ex_asker ex_asker ex_other
    (ex_id 2) (ex_id 66) [97] [97] [97] 51413 false (ex_id 2) [] [] (answered ex_node 1000 ex_get_peers ex_asker)
    (answered ex_asked 2000 ex_announce ex_asker) (answered ex_announced 3000 ex_get_peers ex_other) ex_token
    _ _ _ _ _ _ _ _ _ _ _ _ _ _)).
  - split; [reflexivity |]. split; [reflexivity | vm_compute; reflexivity].
  - vm_compute. reflexivity.
  - vm_compute. discriminate.
  - reflexivity.
  - apply serves_nil.
  - constructor.
  - reflexivity.
  - split; [vm_compute; reflexivity |]. split; [vm_compute; reflexivity | vm_compute; reflexivity].
  - vm_compute. reflexivity.
  - vm_compute. split; [discriminate | reflexivity].
  - split; [right; vm_compute; lia | vm_compute; lia].
  - apply serves_nil.
  - split; [vm_compute; reflexivity |]. split; [vm_compute; reflexivity | vm_compute; reflexivity].
  - vm_compute. reflexivity.
Defined.

(** Five nodes say where they see us. *)
Definition ex_seen : list Z := encode_msg (ResponseMsg [97] (with_ip (plain (ex_id 2)) (V4 [81; 1; 1; 1] 6881))).
Definition ex_reporter (n : Z) : SocketAddr := V4 [80; 0; 0; n] 6881.
Definition ex_reports : list (Inputs * list Z * SocketAddr) := (fun n => (ex_inputs 5, ex_seen, ex_reporter n)) <$> [1; 2; 3; 4; 5].
Definition ex_told (n : nat) : Dht := foldl (fun d e => after d 5 e.1.2 e.2) ex_node (take n ex_reports).

Lemma external_address_agreed_witness :
  external_ip (ex_told 5) = Some (Ip4 [81; 1; 1; 1]) /\ is_valid (my_id (ex_told 5)) (Ip4 [81; 1; 1; 1]) = true.
Proof.
  assert (external_ip (ex_told 5) = Some (Ip4 [81; 1; 1; 1])) as E by (vm_compute; reflexivity). split; [exact E |].
  refine (proj1 (external_address_agreed (ex_id 1) (ex_id 9) false 0 ex_reports (ex_told 5) _ _ _ _ E)).
  - apply ex_id_ok. vm_compute. split; [discriminate | reflexivity].
  - assert (zlen ex_seen <= i64_max) as Hl by (vm_compute; discriminate).
    assert (bytes_ok ex_seen) as Hb by (apply (bool_decide_unpack _); vm_compute; exact I).
    repeat (apply Forall_cons; split; [split; [apply ex_inputs_ok | split; [exact Hl | split; [exact Hb | split; [reflexivity | vm_compute; split; [discriminate | reflexivity]]]]] |]).
    constructor.
  - apply (serves_cons _ _ _ _ (ex_told 1) []); [vm_compute; reflexivity |].
    apply (serves_cons _ _ _ _ (ex_told 2) []); [vm_compute; reflexivity |].
    apply (serves_cons _ _ _ _ (ex_told 3) []); [vm_compute; reflexivity |].
    apply (serves_cons _ _ _ _ (ex_told 4) []); [vm_compute; reflexivity |].
    apply (serves_cons _ _ _ _ (ex_told 5) []); [vm_compute; reflexivity |]. apply serves_nil.
Defined.
