(* ===== verification/DhtLookup.v ===== *)
(** * Looking things up in the DHT

    Models [src/src/dht/lookup.rs]: the iterative lookup that bootstrapping, the
    search for peers and the search for items share, and the announcement that
    follows.  A turn of the loop is a function of the state and of what the turn
    meets outside: whether time is up, which sends fail, and what is received.
    [get_peers] and [get_item] repeat the same loop with different questions and
    different uses of an answer, which are its parameters [ask] and [learn]. *)

From stdpp Require Import sorting.
From S2P Require Import Prelude Str Bytes BTree Numeral Bencode Net Routing Dicts Krpc SecureId DhtStore DhtNode.

Definition ALPHA : nat := 3.
Definition MAX_LOOKUP_QUERIES : nat := 64.

(** ** The shortlist *)

(** The order of [sort_by_key(|n| xor_distance(&n.id, target))]. *)
Definition nearer (target : NodeId) (a b : CompactNode) : Prop :=
  lex_cmp (xor_distance (node_id a) target) (xor_distance (node_id b) target) <> Gt.

#[export] Instance nearer_dec target a b : Decision (nearer target a b).
Proof. unfold nearer. destruct (lex_cmp _ _); [left | left | right]; naive_solver. Defined.

(** [dedup_by_key(|n| n.addr)]: the first of each run of one address. *)
Fixpoint dedup_addr (last : option SocketAddr) (l : list CompactNode) : list CompactNode :=
  match l with
  | [] => []
  | n :: l' =>
      if bool_decide (last = Some (node_addr n)) then dedup_addr last l'
      else n :: dedup_addr (Some (node_addr n)) l'
  end.

Definition shortlist (target : NodeId) (l : list CompactNode) : list CompactNode :=
  dedup_addr None (merge_sort (nearer target) l).

(** What one turn of the loop meets. *)
Inductive Recv : Type :=
| Got (inp : Inputs) (data : list Z) (from : SocketAddr)
| Silence
| Failed.

Record Turn : Type := mkTurn {
  over : bool;
  sendable : nat -> bool;
  received : Recv
}.

Section lookup.
Context {R : Type}.

Record Lookup : Type := mkLookup {
  l_dht : Dht;
  candidates : list CompactNode;
  queried : gset SocketAddr;
  pending : gmap (list Z) CompactNode;
  queries_sent : nat;
  outbox : list (list Z * SocketAddr);
  found : R
}.

Inductive Step : Type :=
| Again (l : Lookup)
| Done (l : Lookup).

Definition set_found (l : Lookup) (r : R) : Lookup :=
  mkLookup (l_dht l) (candidates l) (queried l) (pending l) (queries_sent l) (outbox l) r.
Definition set_dht (l : Lookup) (d : Dht) : Lookup :=
  mkLookup d (candidates l) (queried l) (pending l) (queries_sent l) (outbox l) (found l).
Definition set_candidates (l : Lookup) (c : list CompactNode) : Lookup :=
  mkLookup (l_dht l) c (queried l) (pending l) (queries_sent l) (outbox l) (found l).
Definition set_pending (l : Lookup) (p : gmap (list Z) CompactNode) : Lookup :=
  mkLookup (l_dht l) (candidates l) (queried l) p (queries_sent l) (outbox l) (found l).

Context (ask : R -> Dht -> Query) (learn : R -> Response -> SocketAddr -> R).

(** One query of the batch; [ok] is whether the socket took it. *)
Definition send_one (q : Dht -> Query) (l : Lookup) (n : CompactNode) (ok : bool) : Lookup :=
  let '(bytes, t, d) := send_query (l_dht l) (q (l_dht l)) in
  if ok then
    mkLookup d (candidates l) ({[node_addr n]} ∪ queried l) (<[t := n]> (pending l)) (S (queries_sent l))
      (outbox l ++ [(bytes, node_addr n)]) (found l)
  else
    mkLookup d (candidates l) ({[node_addr n]} ∪ queried l) (pending l) (queries_sent l) (outbox l) (found l).

Fixpoint send_batch (q : Dht -> Query) (l : Lookup) (ns : list CompactNode) (ok : nat -> bool) (i : nat) : Lookup :=
  match ns with
  | [] => l
  | n :: ns' => send_batch q (send_one q l n (ok i)) ns' ok (S i)
  end.

Definition unqueried (l : Lookup) (cs : list CompactNode) : list CompactNode :=
  filter (fun n => node_addr n ∉ queried l) cs.

Definition to_query (l : Lookup) : list CompactNode :=
  take (ALPHA - size (pending l)) (unqueried l (candidates l)).

Section crypto.
Context `{C : Crypto}.

(** What is done with a datagram received. *)
Definition receive (l : Lookup) (inp : Inputs) (data : list Z) (from : SocketAddr) : option Lookup :=
  '(d, sent, resp) ← handle_inbound (l_dht l) inp data from;
  let l := mkLookup d (candidates l) (queried l) (pending l) (queries_sent l) (outbox l ++ sent) (found l) in
  match resp with
  | None => Some l
  | Some (t, response, from) =>
      tb ← Routing.insert (table d) (r_id response) from (now_table inp);
      let l := set_dht l (set_table d tb) in
      match pending l !! t with
      | None => Some l
      | Some _ =>
          let l := set_pending l (delete t (pending l)) in
          let l := set_found l (learn (found l) response from) in
          Some (set_candidates l (candidates l ++
                  filter (fun n => node_addr n ∉ queried l /\ is_our_family d (node_addr n) = true) (nodes response)))
      end
  end.

Definition turn (target : NodeId) (l : Lookup) (e : Turn) : option Step :=
  if over e then Some (Done l)
  else
    let l := set_candidates l (shortlist target (candidates l)) in
    let frontier_exhausted := forallb (fun n => bool_decide (node_addr n ∈ queried l)) (take K (candidates l)) in
    if bool_decide (pending l = ∅) && (frontier_exhausted || bool_decide (candidates l = [])) then Some (Done l)
    else if negb (queries_sent l <? MAX_LOOKUP_QUERIES)%nat && bool_decide (pending l = ∅) then Some (Done l)
    else
      let l := if (queries_sent l <? MAX_LOOKUP_QUERIES)%nat then send_batch (ask (found l)) l (to_query l) (sendable e) 0 else l in
      match received e with
      | Got inp data from => l ← receive l inp data from; Some (Again l)
      | Silence => Some (Again (set_pending l ∅))
      | Failed => Some (Done l)
      end.

(** The loop over the turns there are: where it stands, and whether it ended. *)
Fixpoint lookup_loop (target : NodeId) (l : Lookup) (turns : list Turn) : option (Lookup * bool) :=
  match turns with
  | [] => Some (l, false)
  | e :: turns' =>
      s ← turn target l e;
      match s with
      | Done l => Some (l, true)
      | Again l => lookup_loop target l turns'
      end
  end.
End crypto.

Definition start (d : Dht) (target : NodeId) (extra_seeds : list SocketAddr) (r : R) : Lookup :=
  mkLookup d (closest (table d) target (K * 2) ++ (mkCompactNode (replicate 20 0) <$> extra_seeds)) ∅ ∅ 0 [] r.
End lookup.
Arguments Lookup R : clear implicits.
Arguments Step R : clear implicits.

(** ** Searching for peers *)

Record LookupResult : Type := mkLookupResult {
  peers : list SocketAddr;
  result_tokens : list (CompactNode * list Z)
}.

(** [seen_peers] is the set of the peers already in the result. *)
Definition PeerSearch : Type := LookupResult * gset SocketAddr.

(** Nothing found yet. *)
Definition no_peers : PeerSearch := (mkLookupResult [] [], ∅).

Definition ask_peers (target : NodeId) (want_peers : bool) (r : PeerSearch) (d : Dht) : Query :=
  if want_peers then GetPeers (my_id d) target else FindNode (my_id d) target.

Definition add_peer (r : PeerSearch) (peer : SocketAddr) : PeerSearch :=
  if bool_decide (peer ∈ r.2) then r
  else (mkLookupResult (peers r.1 ++ [peer]) (result_tokens r.1), {[peer]} ∪ r.2).

Definition learn_peers (r : PeerSearch) (response : Response) (from : SocketAddr) : PeerSearch :=
  let r := foldl add_peer r (values response) in
  match r_token response with
  | Some token => (mkLookupResult (peers r.1) (result_tokens r.1 ++ [(mkCompactNode (r_id response) from, token)]), r.2)
  | None => r
  end.

Definition nearer_token (target : NodeId) (a b : CompactNode * list Z) : Prop := nearer target a.1 b.1.

#[export] Instance nearer_token_dec target a b : Decision (nearer_token target a b).
Proof. unfold nearer_token. apply _. Defined.

Section searches.
Context `{C : Crypto}.

(** [iterative_lookup]: the node after, the result, and whether it ended. *)
Definition iterative_lookup (d : Dht) (target : NodeId) (extra_seeds : list SocketAddr) (want_peers : bool) (turns : list Turn)
    : option (Lookup PeerSearch * LookupResult * bool) :=
  '(l, ended) ← lookup_loop (ask_peers target want_peers) learn_peers target
                   (start d target extra_seeds no_peers) turns;
  let r := (found l).1 in
  Some (l, mkLookupResult (peers r) (merge_sort (nearer_token target) (result_tokens r)), ended).

(** [bootstrap]; [resolved] are the addresses the routers' names resolve to. *)
Definition bootstrap (d : Dht) (resolved : list SocketAddr) (turns : list Turn) : option (Lookup PeerSearch * LookupResult * bool) :=
  iterative_lookup d (my_id d) (filter (fun a => is_our_family d a = true) resolved) false turns.

Definition get_peers (d : Dht) (info_hash : NodeId) (turns : list Turn) : option (Lookup PeerSearch * LookupResult * bool) :=
  iterative_lookup d info_hash [] true turns.
End searches.

(** [announce]: the queries sent, whatever the socket makes of them. *)
Fixpoint announce_to (d : Dht) (info_hash : NodeId) (p : Z) (targets : list (CompactNode * list Z)) : Dht * list (list Z * SocketAddr) :=
  match targets with
  | [] => (d, [])
  | (n, token) :: targets' =>
      let '(bytes, _, d) := send_query d (AnnouncePeer (my_id d) info_hash p token false) in
      let '(d, sent) := announce_to d info_hash p targets' in
      (d, (bytes, node_addr n) :: sent)
  end.

Definition announce (d : Dht) (info_hash : NodeId) (p : Z) (lookup : LookupResult) : Dht * list (list Z * SocketAddr) :=
  announce_to d info_hash p (take K (result_tokens lookup)).

(** ** Searching for an item *)

Definition ask_item (target : NodeId) (best : option StoredItem) (d : Dht) : Query :=
  Get (my_id d) target (b ← best; (fun m => m.1.2) <$> stored_mutable b).

Section items.
Context `{C : Crypto}.

(** An answer that checks out against the target. *)
Definition accepted (target : NodeId) (salt : option (list Z)) (response : Response) : option StoredItem :=
  v ← r_v response;
  let bencoded := encode v in
  match r_k response, r_seq response, r_sig response with
  | Some k, Some seq, Some sig =>
      if bool_decide (mutable_target k salt = target) && verify_mutable k salt seq bencoded sig
      then Some (mkStoredItem v (Some (k, seq, sig))) else None
  | None, None, None => if bool_decide (immutable_target bencoded = target) then Some (mkStoredItem v None) else None
  | _, _, _ => None
  end.

Definition better (best : option StoredItem) (candidate : StoredItem) : bool :=
  match best, stored_mutable candidate with
  | Some current, Some (_, seq, _) =>
      match stored_mutable current with Some (_, current_seq, _) => current_seq <? seq | None => true end
  | None, _ => true
  | Some _, None => false
  end.

Definition learn_item (target : NodeId) (salt : option (list Z)) (best : option StoredItem) (response : Response) (from : SocketAddr) : option StoredItem :=
  match accepted target salt response with
  | Some candidate => if better best candidate then Some candidate else best
  | None => best
  end.

Definition get_item (d : Dht) (target : NodeId) (salt : option (list Z)) (turns : list Turn) : option (Lookup (option StoredItem) * bool) :=
  lookup_loop (ask_item target) (learn_item target salt) target (start d target [] None) turns.

Definition resolve_torrent_pointer (d : Dht) (public_key : list Z) (salt : option (list Z)) (turns : list Turn)
    : option (Lookup (option StoredItem) * option (list Z)) :=
  '(l, _) ← get_item d (mutable_target public_key salt) salt turns;
  Some (l, item ← found l; dict ← as_dict (stored_v item); v ← bt_get dict (str "ih"); ih ← as_bytes v; exactly 20 ih).
End items.

(** ** The shortlist keeps every address *)

Definition addrs (l : list CompactNode) : gset SocketAddr := list_to_set (node_addr <$> l).

Lemma dedup_addr_incl last l n : n ∈ dedup_addr last l -> n ∈ l.
Proof.
  revert last. induction l as [| x l IH]; intros last; cbn [dedup_addr]; [done |].
  case_bool_decide; [intros Hx; right; by eapply IH |]. intros [-> | Hx]%elem_of_cons; [by left | right; by eapply IH].
Qed.

Lemma dedup_addr_addrs last l a :
  a ∈ node_addr <$> l -> last = Some a \/ a ∈ node_addr <$> dedup_addr last l.
Proof.
  revert last. induction l as [| x l IH]; intros last; cbn [dedup_addr]; [by intros ?%not_elem_of_nil |].
  rewrite fmap_cons. intros [-> | H]%elem_of_cons.
  - case_bool_decide as E; [by left | right]. rewrite fmap_cons. by left.
  - case_bool_decide as E; [by apply IH |]. right. rewrite fmap_cons, elem_of_cons.
    destruct (IH (Some (node_addr x)) H) as [[= ->] | H2]; [by left | by right].
Qed.

Lemma shortlist_incl target l n : n ∈ shortlist target l -> n ∈ l.
Proof. intros H%dedup_addr_incl. by rewrite merge_sort_Permutation in H. Qed.

Lemma shortlist_addrs target l : addrs (shortlist target l) = addrs l.
Proof.
  apply set_eq. intros a. unfold addrs. rewrite !elem_of_list_to_set. split.
  - intros (n & -> & Hn)%list_elem_of_fmap. apply shortlist_incl in Hn. by apply list_elem_of_fmap_2.
  - intros H. rewrite <- (merge_sort_Permutation (nearer target)) in H.
    destruct (dedup_addr_addrs None _ a H) as [? | H2]; [done |]. exact H2.
Qed.

(** ** What a lookup keeps true *)

Lemma send_query_inv `{C : Crypto} d q :
  node_inv d -> let '(_, _, d') := send_query d q in node_inv d' /\ ipv6 d' = ipv6 d.
Proof. intros []. unfold send_query, next_txid. cbn. split; [by split | done]. Qed.

Section lookup_inv.
Context {R : Type} `{C : Crypto} (ask : R -> Dht -> Query) (learn : R -> Response -> SocketAddr -> R) (P : R -> Prop) (v6 : bool).
Hypothesis ask_ok : forall r d, P r -> node_inv d -> query_ok (ask r d).
Hypothesis learn_ok : forall r response from, P r -> response_ok response -> addr_ok from -> P (learn r response from).

(** A datagram for our side of the network that its receiver can read. *)
Definition out_ok (o : list Z * SocketAddr) : Prop :=
  is_ipv6 o.2 = v6 /\ exists m ro, o.1 = encode_with m ro /\ message_ok m.

Record lookup_ok (l : Lookup R) : Prop := {
  lok_node : node_inv (l_dht l);
  lok_family : ipv6 (l_dht l) = v6;
  lok_candidates : Forall (fun n => is_ipv6 (node_addr n) = v6) (candidates l);
  lok_pending : (size (pending l) <= ALPHA)%nat;
  lok_sent : (queries_sent l <= MAX_LOOKUP_QUERIES + ALPHA - 1)%nat;
  lok_outbox : Forall out_ok (outbox l);
  lok_found : P (found l)
}.

Definition turn_ok (e : Turn) : Prop :=
  match received e with
  | Got inp data from => inputs_ok inp /\ zlen data <= i64_max /\ bytes_ok data /\ addr_ok from
  | _ => True
  end.

Lemma send_one_ok q l n ok :
  (forall d, node_inv d -> query_ok (q d)) -> lookup_ok l -> is_ipv6 (node_addr n) = v6 ->
  (size (pending l) < ALPHA)%nat -> (queries_sent l < MAX_LOOKUP_QUERIES + ALPHA - 1)%nat ->
  let l' := send_one q l n ok in
  lookup_ok l' /\ (size (pending l') <= S (size (pending l)))%nat /\ (queries_sent l' <= S (queries_sent l))%nat /\
  queried l' = {[node_addr n]} ∪ queried l /\ candidates l' = candidates l /\ found l' = found l.
Proof.
  intros Hq [H1 H2 H3 H4 H5 H6 H7] Hn Hp Hs. cbv zeta. unfold send_one, send_query, next_txid.
  set (t := to_be_bytes 2 (wrap 16 (txid_counter (l_dht l) + 1))). cbn [read_only].
  assert ((size (<[t := n]> (pending l)) <= S (size (pending l)))%nat) as Hsz.
  { destruct (pending l !! t) eqn:E; [rewrite map_size_insert_Some by done | rewrite map_size_insert_None by done]; lia. }
  assert (out_ok (encode_with (QueryMsg t (q (l_dht l))) (read_only (l_dht l)), node_addr n)) as Hout.
  { split; [done |]. eexists _, _. split; [done |]. split; [| by apply Hq].
    unfold small, t. rewrite zlen_to_be_bytes. vm_compute. discriminate. }
  destruct ok; cbn [queried pending queries_sent candidates found]; (split; [| split_and!; try done; lia]).
  - split; cbn [l_dht ipv6 candidates pending queries_sent outbox found]; try done; try lia.
    + destruct H1. by split.
    + apply Forall_app. split; [done |]. by apply Forall_singleton.
  - split; cbn [l_dht ipv6 candidates pending queries_sent outbox found]; try done. destruct H1. by split.
Qed.

Lemma send_batch_ok q ok ns l i :
  (forall d, node_inv d -> query_ok (q d)) -> lookup_ok l -> Forall (fun n => is_ipv6 (node_addr n) = v6) ns ->
  (size (pending l) + length ns <= ALPHA)%nat -> (queries_sent l + length ns <= MAX_LOOKUP_QUERIES + ALPHA - 1)%nat ->
  let l' := send_batch q l ns ok i in
  lookup_ok l' /\ queried l' = addrs ns ∪ queried l /\ candidates l' = candidates l /\ found l' = found l.
Proof using Type.
  clear ask_ok learn_ok ask learn. intros Hq. revert l i. induction ns as [| n ns IH]; intros l i Hl Hns Hp Hs; cbn [send_batch].
  { split_and!; try done. unfold addrs. cbn. set_solver. }
  apply Forall_cons in Hns as [Hn Hns]. cbn [length] in Hp, Hs.
  destruct (send_one_ok q l n (ok i) Hq Hl Hn) as (Hl1 & Hp1 & Hs1 & Hq1 & Hc1 & Hf1); [lia | lia |].
  destruct (IH (send_one q l n (ok i)) (S i) Hl1 Hns) as (Hl2 & Hq2 & Hc2 & Hf2); [lia | lia |].
  split; [done |]. rewrite Hq2, Hq1, Hc2, Hc1, Hf2, Hf1. split; [| done]. unfold addrs. rewrite fmap_cons. cbn. set_solver.
Qed.

Lemma lookup_receive_ok l inp data from :
  lookup_ok l -> inputs_ok inp -> zlen data <= i64_max -> bytes_ok data -> addr_ok from ->
  exists l', receive learn l inp data from = Some l' /\ lookup_ok l'.
Proof.
  intros [H1 H2 H3 H4 H5 H6 H7] Hi Hlen Hb Hf. unfold receive.
  destruct (handle_inbound_ok (l_dht l) inp data from H1 Hi Hlen Hb Hf) as (d & sent & resp & E & Hd & Hsent & Hresp).
  pose proof (handle_inbound_family (l_dht l) inp data from d sent resp E) as [Hv6 Hfam]. rewrite E. cbn [mbind option_bind].
  assert (Forall out_ok (outbox l ++ sent)) as Hout.
  { apply Forall_app. split; [done |]. destruct Hsent as [-> | (t & q & m & _ & _ & -> & Hm)]; [constructor |].
    apply Forall_singleton. split; [cbn; rewrite Hfam by (by left); by rewrite Hv6 |]. exists m, false. split; [done | apply Hm]. }
  destruct resp as [[[t r] a] |].
  2: { eexists. split; [done |]. split; cbn; try done. by rewrite Hv6. }
  destruct (Hresp t r a eq_refl) as (-> & Hfam2 & Hr). cbn [l_dht pending set_dht].
  destruct (remember_node d (r_id r) from (now_table inp)) as (tb & -> & Hok); [done | apply Hr | done | done |].
  cbn [mbind option_bind]. destruct (pending l !! t) as [asked |] eqn:Ep.
  - eexists. split; [done |].
    split; cbn [l_dht candidates pending queries_sent outbox found set_candidates set_found set_pending set_dht queried]; try done.
    + cbn. by rewrite Hv6.
    + apply Forall_app. split; [done |]. apply Forall_forall. intros n [[_ Hn] _]%list_elem_of_filter.
      unfold is_our_family in Hn. apply Bool.eqb_prop in Hn. congruence.
    + rewrite map_size_delete, Ep. lia.
    + by apply learn_ok.
  - eexists. split; [done |]. split; cbn; try done. by rewrite Hv6.
Qed.
End lookup_inv.

Lemma forallb_not_true {A} (f : A -> bool) l : forallb f l = false -> exists x, x ∈ l /\ f x = false.
Proof.
  induction l as [| x l IH]; [done |]. cbn [forallb]. destruct (f x) eqn:E; cbn [andb].
  - intros (y & Hy & Ey)%IH. exists y. split; [by right | done].
  - intros _. exists x. split; [by left | done].
Qed.

Section turns.
Context {R : Type} `{C : Crypto} (ask : R -> Dht -> Query) (learn : R -> Response -> SocketAddr -> R) (P : R -> Prop) (v6 : bool).
Hypothesis ask_ok : forall r d, P r -> node_inv d -> query_ok (ask r d).
Hypothesis learn_ok : forall r response from, P r -> response_ok response -> addr_ok from -> P (learn r response from).
#[local] Abbreviation lookup_ok := (lookup_ok P v6).

Lemma shortlist_ok target l : lookup_ok l -> lookup_ok (set_candidates l (shortlist target (candidates l))).
Proof.
  intros []. split; cbn [l_dht candidates pending queries_sent outbox found set_candidates]; try done.
  apply Forall_forall. intros n Hn%shortlist_incl. by apply (proj1 (Forall_forall _ _) lok_candidates0).
Qed.

Lemma to_query_spec (l : Lookup R) :
  (length (to_query l) + size (pending l) <= Nat.max ALPHA (size (pending l)))%nat /\
  forall n, n ∈ to_query l -> n ∈ candidates l /\ node_addr n ∉ queried l.
Proof.
  unfold to_query. split; [rewrite length_take; lia |].
  intros n Hn. apply elem_of_take in Hn as (i & Hn & _). apply list_elem_of_lookup_2 in Hn.
  unfold unqueried in Hn. apply list_elem_of_filter in Hn. naive_solver.
Qed.

Lemma batch_ok l ok :
  lookup_ok l -> (queries_sent l < MAX_LOOKUP_QUERIES)%nat ->
  let l' := send_batch (ask (found l)) l (to_query l) ok 0 in
  lookup_ok l' /\ queried l' = addrs (to_query l) ∪ queried l /\ candidates l' = candidates l.
Proof.
  intros Hl Hs. destruct (to_query_spec l) as [Hlen Hin]. pose proof (lok_pending _ _ _ Hl) as Hp.
  destruct (send_batch_ok P v6 (ask (found l)) ok (to_query l) l 0) as (H1 & H2 & H3 & _).
  - intros d Hd. apply ask_ok; [apply Hl | done].
  - done.
  - apply Forall_forall. intros n [Hn _]%Hin. by apply (proj1 (Forall_forall _ _) (lok_candidates _ _ _ Hl)).
  - lia.
  - lia.
  - done.
Qed.

Definition step_ok (s : Step R) : Prop := match s with Again l | Done l => lookup_ok l end.

Lemma set_pending_empty_ok l : lookup_ok l -> lookup_ok (set_pending l ∅).
Proof. intros []. split; cbn [l_dht candidates pending queries_sent outbox found set_pending]; try done. rewrite map_size_empty. lia. Qed.

Lemma turn_total target l e : lookup_ok l -> turn_ok e -> exists s, turn ask learn target l e = Some s /\ step_ok s.
Proof.
  intros Hl He. unfold turn. destruct (over e); [by eexists |]. cbv zeta.
  apply (shortlist_ok target) in Hl. set (l0 := set_candidates l (shortlist target (candidates l))) in *.
  destruct (_ && _); [by eexists |]. destruct (_ && _); [by eexists |].
  assert (lookup_ok (if (queries_sent l0 <? MAX_LOOKUP_QUERIES)%nat then send_batch (ask (found l0)) l0 (to_query l0) (sendable e) 0 else l0)) as Hl1.
  { destruct (Nat.ltb_spec (queries_sent l0) MAX_LOOKUP_QUERIES); [by apply batch_ok | done]. }
  set (l1 := if (queries_sent l0 <? MAX_LOOKUP_QUERIES)%nat then _ else l0) in *.
  unfold turn_ok in He. destruct (received e) as [inp data from | |].
  - destruct He as (Hi & Hlen & Hb & Hf). destruct (lookup_receive_ok learn P v6 learn_ok l1 inp data from Hl1 Hi Hlen Hb Hf) as (l2 & -> & Hl2).
    by eexists.
  - eexists. split; [done |]. by apply set_pending_empty_ok.
  - by eexists.
Qed.

Lemma lookup_loop_ok target turns l :
  lookup_ok l -> Forall turn_ok turns -> exists l' ended, lookup_loop ask learn target l turns = Some (l', ended) /\ lookup_ok l'.
Proof.
  intros Hl Ht. revert l Hl. induction Ht as [| e turns He Ht IH]; intros l Hl; cbn [lookup_loop]; [by eexists _, _ |].
  destruct (turn_total target l e Hl He) as (s & -> & Hs). cbn [mbind option_bind]. destruct s as [l1 | l1]; [by apply IH | by eexists _, _].
Qed.

(** ** In silence a lookup ends *)

Definition silent (e : Turn) : Prop := over e = false /\ received e = Silence.

(** Addresses still to be asked. *)
Definition left_to_ask (l : Lookup R) : gset SocketAddr := addrs (candidates l) ∖ queried l.

Lemma silent_turn target l e :
  lookup_ok l -> silent e ->
  exists s, turn ask learn target l e = Some s /\ step_ok s /\
    match s with
    | Done _ => True
    | Again l' => pending l' = ∅ /\ (size (left_to_ask l') <= size (left_to_ask l))%nat /\
        (pending l = ∅ -> (size (left_to_ask l') < size (left_to_ask l))%nat)
    end.
Proof.
  intros Hl [Ho Hr]. destruct (turn_total target l e Hl) as (s & Es & Hs); [unfold turn_ok; by rewrite Hr |].
  exists s. split; [done |]. split; [done |]. unfold turn in Es. rewrite Ho in Es. cbv zeta in Es.
  pose proof (shortlist_ok target l Hl) as Hl0. pose proof (shortlist_addrs target (candidates l)) as Haddr.
  set (l0 := set_candidates l (shortlist target (candidates l))) in *. change (addrs (candidates l0) = addrs (candidates l)) in Haddr.
  destruct (bool_decide (pending l0 = ∅) && _) eqn:E1; [by injection Es as <- |].
  destruct (negb (queries_sent l0 <? MAX_LOOKUP_QUERIES)%nat && _) eqn:E2; [by injection Es as <- |].
  rewrite Hr in Es. injection Es as <-. split; [done |]. unfold left_to_ask. cbn [candidates queried set_pending].
  change (queries_sent l) with (queries_sent l0). change (found l) with (found l0).
  destruct (Nat.ltb_spec (queries_sent l0) MAX_LOOKUP_QUERIES) as [Hlt | Hge].
  - destruct (batch_ok l0 (sendable e) Hl0 Hlt) as (_ & -> & ->). rewrite Haddr. change (queried l0) with (queried l). split.
    + apply subseteq_size. set_solver.
    + intros Hp. change (pending l0) with (pending l) in *. rewrite bool_decide_eq_true_2 in E1 by done. cbn [andb] in E1.
      apply orb_false_iff in E1 as [E1 _]. apply forallb_not_true in E1 as (n & Hn & En).
      apply bool_decide_eq_false in En. apply elem_of_take in Hn as (i & Hi & Hik). apply list_elem_of_lookup_2 in Hi.
      assert (exists m, m ∈ to_query l0) as (m & Hm).
      { unfold to_query. change (pending l0) with (pending l). rewrite Hp, map_size_empty.
        destruct (unqueried l0 (candidates l0)) as [| m ms] eqn:Eu; [| exists m; by left].
        assert (n ∈ unqueried l0 (candidates l0)) as Hin by (by apply list_elem_of_filter). rewrite Eu in Hin. by apply not_elem_of_nil in Hin. }
      destruct (proj2 (to_query_spec l0) m Hm) as [Hmc Hmq]. apply subset_size.
      assert (node_addr m ∈ addrs (to_query l0)) as Ha by (unfold addrs; apply elem_of_list_to_set; by apply list_elem_of_fmap_2).
      assert (node_addr m ∈ addrs (candidates l)) as Hb by (rewrite <- Haddr; unfold addrs; apply elem_of_list_to_set; by apply list_elem_of_fmap_2).
      change (queried l0) with (queried l) in Hmq. set_solver.
  - rewrite Haddr. change (queried l0) with (queried l). split; [done |]. intros Hp. change (pending l0) with (pending l) in E2.
    rewrite bool_decide_eq_true_2 in E2 by done. done.
Qed.

Lemma silent_run target turns l :
  lookup_ok l -> Forall silent turns -> pending l = ∅ -> (size (left_to_ask l) < length turns)%nat ->
  exists l', lookup_loop ask learn target l turns = Some (l', true).
Proof.
  intros Hl Ht. revert l Hl. induction Ht as [| e turns He Ht IH]; intros l Hl Hp Hlen; cbn [length] in Hlen; [lia |].
  cbn [lookup_loop]. destruct (silent_turn target l e Hl He) as (s & -> & Hs & Hcase). cbn [mbind option_bind].
  destruct s as [l1 | l1]; [| by eexists]. destruct Hcase as (Hp1 & _ & Hlt). specialize (Hlt Hp). apply IH; [done | done | lia].
Qed.

Lemma silence_ends target turns l :
  lookup_ok l -> Forall silent turns -> (size (left_to_ask l) + 2 <= length turns)%nat ->
  exists l', lookup_loop ask learn target l turns = Some (l', true).
Proof.
  intros Hl Ht Hlen. destruct Ht as [| e turns He Ht]; cbn [length] in Hlen; [lia |]. cbn [lookup_loop].
  destruct (silent_turn target l e Hl He) as (s & -> & Hs & Hcase). cbn [mbind option_bind].
  destruct s as [l1 | l1]; [| by eexists]. destruct Hcase as (Hp1 & Hle & _). apply silent_run; [done | done | done | lia].
Qed.
End turns.

Lemma lookup_loop_app {R} `{C : Crypto} (ask : R -> Dht -> Query) learn target l t1 t2 l1 :
  lookup_loop ask learn target l t1 = Some (l1, false) ->
  lookup_loop ask learn target l (t1 ++ t2) = lookup_loop ask learn target l1 t2.
Proof.
  revert l. induction t1 as [| e t1 IH]; intros l H; cbn [app lookup_loop] in *; [by injection H as -> |].
  destruct (turn ask learn target l e) as [[l2 | l2] |]; [| done | done]. cbn in *. by apply IH.
Qed.

(** ** Distance is a total order *)

Lemma lex_cmp_le_trans (a b c : list Z) : lex_cmp a b <> Gt -> lex_cmp b c <> Gt -> lex_cmp a c <> Gt.
Proof.
  intros H1 H2 H3. change (kcmp a b <> Gt) in H1. change (kcmp b c <> Gt) in H2. change (kcmp a c = Gt) in H3.
  destruct (kcmp a b) eqn:E1; [apply kcmp_eq_iff in E1 as ->; by rewrite H3 in H2 | | done].
  destruct (kcmp b c) eqn:E2; [apply kcmp_eq_iff in E2 as ->; by rewrite H3 in E1 | | done].
  pose proof (kcmp_lt_trans _ _ _ E1 E2) as E3. congruence.
Qed.

#[export] Instance nearer_token_trans target : Transitive (nearer_token target).
Proof. intros x y z. unfold nearer_token, nearer. apply lex_cmp_le_trans. Qed.

#[export] Instance nearer_token_total target : Total (nearer_token target).
Proof.
  intros x y. unfold nearer_token, nearer.
  set (a := xor_distance (node_id x.1) target). set (b := xor_distance (node_id y.1) target).
  destruct (lex_cmp a b) eqn:E; [by left | by left | right].
  change (kcmp a b = Gt) in E. apply kcmp_gt_lt in E. change (kcmp b a <> Gt). by rewrite E.
Qed.

(** ** The two searches *)

Section instances.
Context `{C : Crypto}.

Definition token_holder (x : CompactNode * list Z) : Prop := id_ok (node_id x.1) /\ addr_ok (node_addr x.1) /\ small x.2.

Definition search_ok (r : PeerSearch) : Prop :=
  NoDup (peers r.1) /\ (forall p, p ∈ peers r.1 <-> p ∈ r.2) /\ Forall token_holder (result_tokens r.1).

Lemma add_peer_ok r p : search_ok r -> search_ok (add_peer r p).
Proof.
  intros (Hnd & Hset & Htok). unfold add_peer. case_bool_decide as E; [done |]. split_and!; cbn.
  - apply NoDup_app. split_and!; [done | | apply NoDup_singleton]. intros x Hx ->%list_elem_of_singleton. apply E. by apply Hset.
  - intros q. rewrite elem_of_app, list_elem_of_singleton, Hset. set_solver.
  - done.
Qed.

Lemma learn_peers_ok r response from : search_ok r -> response_ok response -> addr_ok from -> search_ok (learn_peers r response from).
Proof.
  intros Hr Hresp Hf. unfold learn_peers. cbv zeta.
  assert (search_ok (foldl add_peer r (values response))) as Hr1.
  { clear Hresp. revert r Hr. induction (values response) as [| p ps IH]; intros r Hr; [done |]. cbn. apply IH. by apply add_peer_ok. }
  pose proof (rok_token _ Hresp) as Ht. destruct (r_token response) as [token |]; [| done].
  destruct Hr1 as (H1 & H2 & H3). split_and!; cbn; [done | done |]. apply Forall_app. split; [done |]. apply Forall_singleton.
  split; [apply Hresp | done].
Qed.

Lemma ask_peers_ok target want r d : id_ok target -> node_inv d -> query_ok (ask_peers target want r d).
Proof. intros Ht%id_ok_len Hd. unfold ask_peers. destruct want; (split; [apply Hd | done]). Qed.

Lemma start_ok {R} (P : R -> Prop) d target seeds (r : R) :
  node_inv d -> Forall (fun a => is_our_family d a = true) seeds -> P r -> lookup_ok P (ipv6 d) (start d target seeds r).
Proof.
  intros Hd Hs Hr. split; cbn [l_dht candidates pending queries_sent outbox found start]; try done.
  - apply Forall_app. split.
    + apply (Forall_impl _ _ _ (proj1 (closest_nodes _ (table d) target (K * 2) (inv_nodes d Hd)))). by intros n (_ & _ & ?).
    + apply Forall_fmap. apply (Forall_impl _ _ _ Hs). intros a Ha. by apply Bool.eqb_prop in Ha.
  - rewrite map_size_empty. lia.
  - lia.
Qed.

(** A value that answers for its target. *)
Definition item_checks (target : NodeId) (salt : option (list Z)) (it : StoredItem) : Prop :=
  match stored_mutable it with
  | None => immutable_target (encode (stored_v it)) = target
  | Some (k, seq, sig) => i64_ok seq /\ mutable_target k salt = target /\ verify_mutable k salt seq (encode (stored_v it)) sig = true
  end.

Lemma accepted_checks target salt response it :
  response_ok response -> accepted target salt response = Some it -> item_checks target salt it.
Proof.
  intros Hr. unfold accepted. destruct (r_v response) as [v |]; [| done]. cbn [mbind option_bind].
  pose proof (rok_seq _ Hr) as Hseq.
  destruct (r_k response) as [k |], (r_seq response) as [seq |], (r_sig response) as [sig |]; try done.
  - destruct (bool_decide _ && _) eqn:E; [| done]. intros [= <-]. apply andb_true_iff in E as [E1%bool_decide_eq_true E2]. done.
  - case_bool_decide; [| done]. by intros [= <-].
Qed.

Lemma learn_item_ok target salt best response from :
  opt_ok (item_checks target salt) best -> response_ok response -> opt_ok (item_checks target salt) (learn_item target salt best response from).
Proof.
  intros Hb Hr. unfold learn_item. destruct (accepted target salt response) as [it |] eqn:E; [| done].
  apply accepted_checks in E; [| done]. by destruct (better best it).
Qed.

Lemma ask_item_ok target salt best d :
  id_ok target -> opt_ok (item_checks target salt) best -> node_inv d -> query_ok (ask_item target best d).
Proof.
  intros Ht%id_ok_len Hb Hd. split; [apply Hd |]. split; [done |]. destruct best as [it |]; [| done]. cbn in *. unfold item_checks in Hb.
  destruct (stored_mutable it) as [[[k seq] sig] |]; [| done]. cbn. apply Hb.
Qed.

Lemma get_item_ok d target salt turns :
  node_inv d -> id_ok target -> Forall turn_ok turns ->
  exists l ended, get_item d target salt turns = Some (l, ended) /\ lookup_ok (opt_ok (item_checks target salt)) (ipv6 d) l.
Proof.
  intros Hd Ht Hturns. apply lookup_loop_ok; [| | | done].
  - intros r d0 Hr Hd0. by apply (ask_item_ok target salt).
  - intros r response from Hr Hresp _. by apply learn_item_ok.
  - by apply start_ok.
Qed.

(** ** Theorems *)

(** However hostile the network, a lookup keeps its node sound and its own
    effort bounded: it does not panic, has at most three questions in flight
    and asks at most 66 in all (the check for 64 is made before a batch of up
    to three), talks only to addresses of its own family in datagrams they can
    read, returns no peer twice and the tokens nearest the target first. *)
Theorem lookup_bounded (d : Dht) (target : NodeId) (seeds : list SocketAddr) (want_peers : bool) (turns : list Turn)
    (Hd : node_inv d) (Ht : id_ok target) (Hs : Forall (fun a => is_our_family d a = true) seeds) (Hturns : Forall turn_ok turns) :
  exists l r ended, iterative_lookup d target seeds want_peers turns = Some (l, r, ended) /\
    node_inv (l_dht l) /\ (size (pending l) <= ALPHA)%nat /\ (queries_sent l <= MAX_LOOKUP_QUERIES + ALPHA - 1)%nat /\
    Forall (fun o => is_ipv6 o.2 = ipv6 d /\ (zlen o.1 <= i64_max -> exists m, Krpc.decode o.1 = Some (Ok m))) (outbox l) /\
    NoDup (peers r) /\ StronglySorted (nearer_token target) (result_tokens r) /\ Forall token_holder (result_tokens r).
Proof.
  destruct (lookup_loop_ok (ask_peers target want_peers) learn_peers search_ok (ipv6 d)) with (target := target) (turns := turns)
    (l := start d target seeds no_peers) as (l & ended & E & [H1 _ _ H4 H5 H6 (H7 & _ & H8)]); try done.
  - intros r d0 _ Hd0. by apply ask_peers_ok.
  - exact learn_peers_ok.
  - apply start_ok; [done | done |]. split_and!; cbn; [constructor | set_solver | constructor].
  - unfold iterative_lookup. rewrite E. cbn [mbind option_bind]. eexists _, _, _. split; [done |]. split_and!; try done.
    + apply (Forall_impl _ _ _ H6). intros o [Hv (m & ro & Ho & Hm)]. split; [done |]. intros Hl. exists (heard m).
      rewrite Ho in *. by apply (krpc_message_heard m ro).
    + cbn [result_tokens]. apply StronglySorted_merge_sort; [apply nearer_token_trans | apply nearer_token_total].
    + cbn [result_tokens]. by rewrite merge_sort_Permutation.
Qed.

(** C34: a lookup ends: once the network falls silent, whatever state a lookup of
    either kind has got into, it stops after at most two turns more than there
    are addresses left to ask. *)
Theorem lookup_ends (d : Dht) (target : NodeId) (salt : option (list Z)) (seeds : list SocketAddr) (want_peers : bool)
    (heard_turns silent_turns : list Turn)
    (Hd : node_inv d) (Ht : id_ok target) (Hs : Forall (fun a => is_our_family d a = true) seeds)
    (Hturns : Forall turn_ok heard_turns) (Hsil : Forall silent silent_turns) :
  (forall l r, iterative_lookup d target seeds want_peers heard_turns = Some (l, r, false) ->
     (size (left_to_ask l) + 2 <= length silent_turns)%nat ->
     exists l' r', iterative_lookup d target seeds want_peers (heard_turns ++ silent_turns) = Some (l', r', true)) /\
  (forall l, get_item d target salt heard_turns = Some (l, false) ->
     (size (left_to_ask l) + 2 <= length silent_turns)%nat ->
     exists l', get_item d target salt (heard_turns ++ silent_turns) = Some (l', true)).
Proof.
  split.
  - intros l r H Hlen. unfold iterative_lookup in *.
    set (l0 := start d target seeds no_peers) in *.
    assert (lookup_ok search_ok (ipv6 d) l0) as Hl0 by (apply start_ok; [done | done |]; split_and!; cbn; [constructor | set_solver | constructor]).
    destruct (lookup_loop (ask_peers target want_peers) learn_peers target l0 heard_turns) as [[l1 e1] |] eqn:E; [| done].
    cbn in H. injection H as -> _ ->. rewrite (lookup_loop_app _ _ _ _ _ _ _ E).
    destruct (lookup_loop_ok (ask_peers target want_peers) learn_peers search_ok (ipv6 d)
      ltac:(intros; by apply ask_peers_ok) learn_peers_ok target heard_turns l0 Hl0 Hturns) as (l2 & e2 & E2 & Hl2).
    rewrite E in E2. injection E2 as <- <-.
    destruct (silence_ends (ask_peers target want_peers) learn_peers search_ok (ipv6 d) ltac:(intros; by apply ask_peers_ok) learn_peers_ok
      target silent_turns l Hl2 Hsil Hlen) as (l3 & ->). cbn. by eexists _, _.
  - intros l H Hlen. unfold get_item in *.
    assert (forall r d0, opt_ok (item_checks target salt) r -> node_inv d0 -> query_ok (ask_item target r d0)) as Ha
      by (intros r d0 Hr Hd0; by apply (ask_item_ok target salt)).
    assert (forall r response from, opt_ok (item_checks target salt) r -> response_ok response -> addr_ok from ->
      opt_ok (item_checks target salt) (learn_item target salt r response from)) as Hb by (intros r response from Hr Hresp _; by apply learn_item_ok).
    rewrite (lookup_loop_app _ _ _ _ _ _ _ H).
    destruct (lookup_loop_ok (ask_item target) (learn_item target salt) _ (ipv6 d) Ha Hb target heard_turns (start d target [] None)) as (l2 & e2 & E2 & Hl2);
      [by apply start_ok | done |].
    rewrite H in E2. injection E2 as <- <-.
    by apply (silence_ends (ask_item target) (learn_item target salt) _ (ipv6 d) Ha Hb).
Qed.
End instances.

Section authentic.
Context `{C : Crypto} {L : CryptoLaws C}.

(** A torrent pointer can be trusted: whatever nodes answer, if resolving
    the pointer of a public key gives an info hash, then it is 20 bytes taken
    from a value that carries a valid signature by that key, unless the
    answers exhibit a SHA-1 collision (the key and salt, and other bytes,
    with one digest) or the key and salt are themselves the value's bytes. *)
Theorem pointer_authentic (d : Dht) (public_key : list Z) (salt : option (list Z)) (turns : list Turn)
    (Hd : node_inv d) (Hturns : Forall turn_ok turns) :
  exists l r, resolve_torrent_pointer d public_key salt turns = Some (l, r) /\ node_inv (l_dht l) /\
  forall ih, r = Some ih ->
    zlen ih = 20 /\
    exists v, (d ← as_dict v; x ← bt_get d (str "ih"); as_bytes x) = Some ih /\
      ((exists seq sig, verify_mutable public_key salt seq (encode v) sig = true) \/
       (exists other, other <> public_key ++ salt_bytes salt /\ sha1 other = sha1 (public_key ++ salt_bytes salt)) \/
       encode v = public_key ++ salt_bytes salt).
Proof using L.
  unfold resolve_torrent_pointer. set (target := mutable_target public_key salt).
  destruct (get_item_ok d target salt turns Hd) as (l & ended & E & [H1 _ _ _ _ _ H7]); [apply sha1_ok | done |].
  rewrite E. cbn [mbind option_bind]. eexists _, _. split; [done |]. split; [done |]. intros ih Hih.
  apply bind_Some in Hih as (it & Eit & Hih). apply bind_Some in Hih as (dict & Edict & Hih). apply bind_Some in Hih as (x & Ex & Hih).
  rewrite Eit in H7. cbn [opt_ok] in H7. split; [by apply (exactly_inv 20 (as_bytes x)) |].
  exists (stored_v it). split.
  - rewrite Edict. cbn [mbind option_bind]. rewrite Ex. cbn [mbind option_bind]. apply bind_Some in Hih as (b & -> & Hb).
    unfold exactly in Hb. destruct (zlen b =? 20); [exact Hb | discriminate Hb].
  - unfold item_checks in H7. unfold target, mutable_target, immutable_target, salt_bytes in *.
    destruct (stored_mutable it) as [[[k seq] sig] |].
    + destruct H7 as (_ & Ht & Hv). destruct (decide (k = public_key)) as [-> | Hne]; [left; by exists seq, sig |].
      right. left. exists (k ++ match salt with Some s => s | None => [] end). split; [| done]. intros Heq. apply Hne. by apply app_inv_tail in Heq.
    + right. destruct (decide (encode (stored_v it) = public_key ++ match salt with Some s => s | None => [] end)) as [Heq | Hne]; [by right | left].
      by eexists.
Qed.

(** C33: publishing works: a value of at most 1000 bytes signed by a key, put to
    a node with room for it, is stored under the hash of the key and salt; and
    for two hours whoever asks that node for it gets an answer which, sent and
    read back, passes the reader's check. *)
Theorem published_item_found (s : Store) (sk : SigningKey) (salt : option (list Z)) (seq : Z) (v : Bencode) (now : Z)
    (Hsalt : zlen (salt_bytes salt) <= MAX_SALT_LEN) (Hv : zlen (encode v) <= MAX_VALUE_LEN) (Hfit : value_fits v) (Hseq : i64_ok seq)
    (Hroom : items s !! mutable_target (sk_public sk) salt = None /\ (store_len s < MAX_STORED_ITEMS)%nat) :
  let target := mutable_target (sk_public sk) salt in
  let sig := sign_mutable sk salt seq (encode v) in
  exists s', put_mutable s (sk_public sk) salt seq sig v None now = Ok (target, s') /\
  forall d t from tx, node_inv d -> item_store d = s' -> t < now + ITEM_LIFETIME -> addr_ok from -> small tx ->
    let r := with_ip (answer_get d t target None from) from in
    zlen (encode_msg (ResponseMsg tx r)) <= i64_max ->
    exists r', Krpc.decode (encode_msg (ResponseMsg tx r)) = Some (Ok (ResponseMsg tx r')) /\
      accepted target salt r' = Some (mkStoredItem v (Some (sk_public sk, seq, sig))).
Proof using L.
  cbv zeta. set (target := mutable_target (sk_public sk) salt). set (sig := sign_mutable sk salt seq (encode v)).
  assert (verify_mutable (sk_public sk) salt seq (encode v) sig = true) as Hver.
  { unfold verify_mutable, sig, sign_mutable. by destruct (sk_sign_verifies sk (signing_buffer salt seq (encode v))) as (vk & -> & ->). }
  destruct Hroom as [Hnone Hlt]. eexists. split.
  { unfold put_mutable. assert (match salt with Some x => MAX_SALT_LEN <? zlen x | None => false end = false) as ->.
    { destruct salt; [| done]. by apply Z.ltb_ge. }
    rewrite (proj2 (Z.ltb_ge _ _)) by done. rewrite Hver. cbn [negb]. fold target. change (mutable_target (sk_public sk) salt) with target in Hnone.
    rewrite Hnone. cbn [mbind option_bind]. unfold store_len in Hlt. rewrite (proj2 (Nat.leb_gt _ _)) by done. done. }
  intros d t from tx Hd Hs Ht Hf Htx Hlen.
  pose proof (answer_get_ok d t target None from Hd Hf) as Hok.
  destruct (krpc_message_heard (ResponseMsg tx (with_ip (answer_get d t target None from) from)) false (conj Htx Hok) Hlen) as [Hdec _].
  eexists. split; [exact Hdec |]. unfold answer_get, store_get. rewrite Hs. cbn [items]. rewrite lookup_insert_eq. cbn [mbind option_bind].
  rewrite (proj2 (fresh_item_iff t _)) by done. cbn [negb stored_mutable fmap option_fmap option_map item_mutable meta_k meta_seq meta_sig].
  unfold accepted. cbn [r_v r_k r_seq r_sig heard_response with_ip stored_v item_v mbind option_bind]. fold target. rewrite bool_decide_eq_true_2 by done.
  cbn [andb]. by rewrite Hver.
Qed.
End authentic.

(** ** Examples *)

#[local] Existing Instance toy_crypto.

Definition quiet : Turn := mkTurn false (fun _ => true) Silence.

Lemma ex_node_inv : node_inv ex_node.
Proof. apply new_dht_inv, ex_id_ok. vm_compute. split; [discriminate | reflexivity]. Qed.

Lemma lookup_bounded_witness :
  exists l r ended, iterative_lookup ex_node (ex_id 66) [ex_asker; ex_other] true [quiet; quiet] = Some (l, r, ended) /\
    (queries_sent l <= MAX_LOOKUP_QUERIES + ALPHA - 1)%nat.
Proof.
  destruct (lookup_bounded ex_node (ex_id 66) [ex_asker; ex_other] true [quiet; quiet] ex_node_inv) as (l & r & e & H & _ & _ & Hq & _).
  - apply ex_id_ok. vm_compute. split; [discriminate | reflexivity].
  - repeat constructor.
  - repeat constructor.
  - exists l, r, e. split; [exact H | exact Hq].
Defined.

Lemma lookup_ends_witness :
  exists l' r', iterative_lookup ex_node (ex_id 66) [ex_asker; ex_other] true ([] ++ [quiet; quiet; quiet; quiet]) = Some (l', r', true).
Proof.
  refine (proj1 (lookup_ends ex_node (ex_id 66) None [ex_asker; ex_other] true [] [quiet; quiet; quiet; quiet] ex_node_inv _ _ _ _)
    (start ex_node (ex_id 66) [ex_asker; ex_other] no_peers) (mkLookupResult [] []) _ _).
  - apply ex_id_ok. vm_compute. split; [discriminate | reflexivity].
  - repeat constructor.
  - constructor.
  - repeat constructor.
  - reflexivity.
  - vm_compute. lia.
Defined.

Lemma pointer_authentic_witness :
  exists l r, resolve_torrent_pointer ex_node example_key None [quiet] = Some (l, r) /\ node_inv (l_dht l).
Proof.
  destruct (pointer_authentic ex_node example_key None [quiet] ex_node_inv) as (l & r & H & Hl & _); [repeat constructor |].
  exists l, r. split; [exact H | exact Hl].
Defined.

Lemma published_item_found_witness :
  exists s', put_mutable empty_store example_key (Some [9]) 5 example_sig (Int 42) None 1000 = Ok (mutable_target example_key (Some [9]), s').
Proof.
  destruct (published_item_found empty_store ([1; 2; 3] : SigningKey (Crypto := toy_crypto)) (Some [9]) 5 (Int 42) 1000) as (s' & H & _).
  - vm_compute. discriminate.
  - vm_compute. discriminate.
  - split; vm_compute; [split; discriminate | discriminate].
  - vm_compute. split; discriminate.
  - split; [reflexivity | vm_compute; lia].
  - exists s'. exact H.
Defined.
