(* ===== verification/UtpPacket.v ===== *)
(** * uTP packets (BEP 29)

    Models [src/src/utp/packet.rs]: the 20-byte header, the chain of
    extensions and the payload.  [decode] reads datagrams anyone can send; a
    [None] of its outer option would be a chain that never ends or an index
    past the datagram, and there is none. *)

From S2P Require Import Prelude Bytes.

Definition HEADER_LEN : Z := 20.
Definition VERSION : Z := 1.
Definition EXT_SELECTIVE_ACK : Z := 1.
Definition MAX_SACK_BYTES : nat := 8.

Inductive PacketType : Type := Data | Fin | State | Reset | Syn.

#[export] Instance packet_type_eq_dec : EqDecision PacketType.
Proof. solve_decision. Defined.

Definition code (k : PacketType) : Z :=
  match k with Data => 0 | Fin => 1 | State => 2 | Reset => 3 | Syn => 4 end.

Definition from_code (c : Z) : option PacketType :=
  match c with
  | 0 => Some Data | 1 => Some Fin | 2 => Some State | 3 => Some Reset | 4 => Some Syn
  | _ => None
  end.

Record Packet : Type := mkPacket {
  kind : PacketType;
  connection_id : Z;
  timestamp : Z;
  timestamp_diff : Z;
  wnd_size : Z;
  seq_nr : Z;
  ack_nr : Z;
  sack : list Z;
  payload : list Z
}.

Inductive PacketError : Type := TooShort | NotUtp | BadExtension.

Definition encode (p : Packet) : list Z :=
  let sack := take MAX_SACK_BYTES (sack p) in
  [Z.lor (Z.shiftl (code (kind p)) 4) VERSION; match sack with [] => 0 | _ => EXT_SELECTIVE_ACK end]
  ++ be16 (connection_id p) ++ be32 (timestamp p) ++ be32 (timestamp_diff p) ++ be32 (wnd_size p)
  ++ be16 (seq_nr p) ++ be16 (ack_nr p)
  ++ match sack with [] => [] | _ => 0 :: wrap 8 (zlen sack) :: sack end
  ++ payload p.

(** The extension chain: where the payload begins, and the selective ack. *)
Fixpoint read_extensions (fuel : nat) (datagram : list Z) (next at_ : Z) (sack : list Z) :
    option (result (Z * list Z) PacketError) :=
  if next =? 0 then Some (Ok (at_, sack))
  else
    match fuel with
    | O => None
    | S fuel' =>
        match zget datagram at_, zget datagram (at_ + 1) with
        | Some following, Some len =>
            if zlen datagram <? at_ + 2 + len then Some (Err BadExtension)
            else
              let body := slice datagram (at_ + 2) (at_ + 2 + len) in
              let sack' :=
                if (next =? EXT_SELECTIVE_ACK) && bool_decide (sack = []) then take MAX_SACK_BYTES body else sack in
              read_extensions fuel' datagram following (at_ + (2 + len)) sack'
        | _, _ => Some (Err BadExtension)
        end
    end.

(** The header fields, whose indices the length check covers. *)
Definition be16_at (datagram : list Z) (at_ : Z) : Z := from_be_bytes (slice datagram at_ (at_ + 2)).
Definition be32_at (datagram : list Z) (at_ : Z) : Z := from_be_bytes (slice datagram at_ (at_ + 4)).

Definition decode (datagram : list Z) : option (result Packet PacketError) :=
  if zlen datagram <? HEADER_LEN then Some (Err TooShort)
  else
    b0 ← zget datagram 0;
    b1 ← zget datagram 1;
    if negb (Z.land b0 15 =? VERSION) then Some (Err NotUtp)
    else
      match from_code (Z.shiftr b0 4) with
      | None => Some (Err NotUtp)
      | Some kind =>
          chain ← read_extensions (length datagram) datagram b1 HEADER_LEN [];
          match chain with
          | Err e => Some (Err e)
          | Ok (at_, sack) =>
              Some (Ok (mkPacket kind (be16_at datagram 2) (be32_at datagram 4) (be32_at datagram 8)
                          (be32_at datagram 12) (be16_at datagram 16) (be16_at datagram 18) sack
                          (drop (Z.to_nat at_) datagram)))
          end
      end.

(** ** Lemmas *)

Record packet_ok (p : Packet) : Prop := {
  ok_id : u_ok 16 (connection_id p);
  ok_ts : u_ok 32 (timestamp p);
  ok_diff : u_ok 32 (timestamp_diff p);
  ok_wnd : u_ok 32 (wnd_size p);
  ok_seq : u_ok 16 (seq_nr p);
  ok_ack : u_ok 16 (ack_nr p);
  ok_sack : (length (sack p) <= MAX_SACK_BYTES)%nat
}.

(** A field at a position the header fixes. *)
Lemma be_at_field (pre post : list Z) (n : nat) z at_ :
  at_ = zlen pre -> 0 <= z < 256 ^ Z.of_nat n ->
  from_be_bytes (slice (pre ++ to_be_bytes n z ++ post) at_ (at_ + Z.of_nat n)) = z.
Proof.
  intros -> Hz. rewrite <- (zlen_to_be_bytes n z), slice_app_mid. by apply from_to_be_bytes_ok.
Qed.

Lemma code_roundtrip k : from_code (Z.shiftr (Z.lor (Z.shiftl (code k) 4) VERSION) 4) = Some k.
Proof. by destruct k. Qed.

Lemma code_version k : (Z.land (Z.lor (Z.shiftl (code k) 4) VERSION) 15 =? VERSION) = true.
Proof. by destruct k. Qed.

(** The chain [encode] writes: none, or one selective ack. *)
Lemma read_extensions_encoded (header sk pl : list Z) fuel :
  zlen header = HEADER_LEN -> (length sk <= MAX_SACK_BYTES)%nat -> (1 < fuel)%nat ->
  let ext := match sk with [] => [] | _ => 0 :: wrap 8 (zlen sk) :: sk end in
  read_extensions fuel (header ++ ext ++ pl) (match sk with [] => 0 | _ => EXT_SELECTIVE_ACK end) HEADER_LEN [] =
    Some (Ok (HEADER_LEN + zlen ext, sk)).
Proof.
  intros Hh Hs Hf. destruct fuel as [| [| fuel]]; [lia | lia |].
  destruct sk as [| b sk0]; [reflexivity |]. set (sk := b :: sk0) in *.
  assert (zlen sk <= 8) as Hz by (unfold zlen, MAX_SACK_BYTES in *; lia). pose proof (zlen_nonneg sk).
  assert (wrap 8 (zlen sk) = zlen sk) as -> by (apply Z.mod_small; change (2 ^ 8) with 256; lia).
  cbn [read_extensions]. change (EXT_SELECTIVE_ACK =? 0) with false. cbv iota.
  rewrite <- Hh, zget_app_r. cbn [lookup list_lookup app].
  assert (zget (header ++ 0 :: zlen sk :: sk ++ pl) (zlen header + 1) = Some (zlen sk)) as ->.
  { rewrite zget_app by (pose proof (zlen_nonneg header); lia).
    rewrite (proj2 (Z.ltb_ge _ _)) by lia. by replace (zlen header + 1 - zlen header) with 1 by lia. }
  rewrite (proj2 (Z.ltb_ge _ _)) by zlen_lia.
  assert (slice (header ++ 0 :: zlen sk :: sk ++ pl) (zlen header + 2) (zlen header + 2 + zlen sk) = sk) as ->.
  { pose proof (slice_app_mid (header ++ [0; zlen sk]) sk pl) as H'.
    rewrite zlen_app, <- app_assoc in H'. exact H'. }
  rewrite bool_decide_true by done. change (EXT_SELECTIVE_ACK =? EXT_SELECTIVE_ACK) with true. cbn [andb].
  rewrite take_ge by done. change (0 =? 0) with true. cbv iota. f_equal. f_equal. f_equal. zlen_lia.
Qed.

(** The chain ends, and stays inside the datagram. *)
Lemma read_extensions_total fuel datagram next at_ sk :
  bytes_ok datagram -> 0 <= at_ <= zlen datagram -> zlen datagram - at_ < Z.of_nat fuel ->
  (length sk <= MAX_SACK_BYTES)%nat ->
  (exists e, read_extensions fuel datagram next at_ sk = Some (Err e)) \/
  (exists at2 sk', read_extensions fuel datagram next at_ sk = Some (Ok (at2, sk')) /\
     at_ <= at2 <= zlen datagram /\ (length sk' <= MAX_SACK_BYTES)%nat).
Proof.
  intros Hb. revert next at_ sk. induction fuel as [| fuel IH]; intros next at_ sk Ha Hf Hs;
    cbn [read_extensions]; (destruct (next =? 0); [right; exists at_, sk; split_and!; done || lia |]).
  { lia. }
  destruct (zget datagram at_) as [following |] eqn:E1; [| left; eauto].
  destruct (zget datagram (at_ + 1)) as [len |] eqn:E2; [| left; eauto].
  assert (0 <= len) as Hlen.
  { apply zget_Some in E2 as [_ E2]. pose proof (proj1 (Forall_lookup _ _) Hb _ _ E2) as [? _]. done. }
  destruct (Z.ltb_spec (zlen datagram) (at_ + 2 + len)); [left; eauto |].
  destruct (IH following (at_ + (2 + len))
    (if (next =? EXT_SELECTIVE_ACK) && bool_decide (sk = [])
     then take MAX_SACK_BYTES (slice datagram (at_ + 2) (at_ + 2 + len)) else sk)) as [He | (at2 & sk' & He & Hat & Hsk)].
  - lia.
  - lia.
  - destruct (_ && _); [rewrite length_take; lia | done].
  - by left.
  - right. exists at2, sk'. split_and!; [done | lia | lia | done].
Qed.

Lemma slice_field_ok datagram at_ n :
  bytes_ok datagram -> 0 <= at_ -> 0 <= n -> at_ + n <= zlen datagram ->
  0 <= from_be_bytes (slice datagram at_ (at_ + n)) < 256 ^ n.
Proof.
  intros Hb Ha Hn Hfit. pose proof (from_be_bytes_bound (slice datagram at_ (at_ + n))) as H'.
  rewrite zlen_slice in H' by lia. replace (at_ + n - at_) with n in H' by lia. apply H'.
  unfold slice. by apply Forall_take, Forall_drop.
Qed.

(** The fields of a header, wherever the extensions and the payload end. *)
Lemma header_fields b0 b1 cid ts td wnd sq ak rest :
  u_ok 16 cid -> u_ok 32 ts -> u_ok 32 td -> u_ok 32 wnd -> u_ok 16 sq -> u_ok 16 ak ->
  let d := [b0; b1] ++ be16 cid ++ be32 ts ++ be32 td ++ be32 wnd ++ be16 sq ++ be16 ak ++ rest in
  be16_at d 2 = cid /\ be32_at d 4 = ts /\ be32_at d 8 = td /\ be32_at d 12 = wnd /\
  be16_at d 16 = sq /\ be16_at d 18 = ak.
Proof.
  intros H1 H2 H3 H4 H5 H6 d. unfold be16_at, be32_at.
  assert (forall pre n z post at_, d = pre ++ to_be_bytes n z ++ post -> at_ = zlen pre -> 0 <= z < 256 ^ Z.of_nat n ->
            from_be_bytes (slice d at_ (at_ + Z.of_nat n)) = z) as Hf.
  { intros pre n z post at_ -> Hat Hz. by apply be_at_field. }
  split_and!.
  - apply (Hf [b0; b1] 2%nat cid (be32 ts ++ be32 td ++ be32 wnd ++ be16 sq ++ be16 ak ++ rest)); [| zlen_lia | done].
    unfold d. by rewrite <- ?app_assoc.
  - apply (Hf ([b0; b1] ++ be16 cid) 4%nat ts (be32 td ++ be32 wnd ++ be16 sq ++ be16 ak ++ rest)); [| zlen_lia | done].
    unfold d. by rewrite <- ?app_assoc.
  - apply (Hf ([b0; b1] ++ be16 cid ++ be32 ts) 4%nat td (be32 wnd ++ be16 sq ++ be16 ak ++ rest)); [| zlen_lia | done].
    unfold d. by rewrite <- ?app_assoc.
  - apply (Hf ([b0; b1] ++ be16 cid ++ be32 ts ++ be32 td) 4%nat wnd (be16 sq ++ be16 ak ++ rest)); [| zlen_lia | done].
    unfold d. by rewrite <- ?app_assoc.
  - apply (Hf ([b0; b1] ++ be16 cid ++ be32 ts ++ be32 td ++ be32 wnd) 2%nat sq (be16 ak ++ rest)); [| zlen_lia | done].
    unfold d. by rewrite <- ?app_assoc.
  - apply (Hf ([b0; b1] ++ be16 cid ++ be32 ts ++ be32 td ++ be32 wnd ++ be16 sq) 2%nat ak rest); [| zlen_lia | done].
    unfold d. by rewrite <- ?app_assoc.
Qed.

Lemma decode_encode p : packet_ok p -> decode (encode p) = Some (Ok p).
Proof.
  destruct p as [k cid ts td wnd sq ak sk pl]. intros [H1 H2 H3 H4 H5 H6 H7]. cbn in H1, H2, H3, H4, H5, H6, H7.
  unfold encode. cbn [kind connection_id timestamp timestamp_diff wnd_size seq_nr ack_nr sack payload].
  rewrite (take_ge sk) by done.
  set (b0 := Z.lor _ _). set (b1 := match sk with [] => 0 | _ => EXT_SELECTIVE_ACK end).
  set (ext := match sk with [] => [] | _ => 0 :: wrap 8 (zlen sk) :: sk end).
  destruct (header_fields b0 b1 cid ts td wnd sq ak (ext ++ pl) H1 H2 H3 H4 H5 H6) as (F1 & F2 & F3 & F4 & F5 & F6).
  set (d := [b0; b1] ++ _) in *.
  set (header := [b0; b1] ++ be16 cid ++ be32 ts ++ be32 td ++ be32 wnd ++ be16 sq ++ be16 ak).
  assert (zlen header = HEADER_LEN) as Hh by (unfold header, HEADER_LEN; zlen_lia).
  assert (d = header ++ ext ++ pl) as E by (unfold d, header; by rewrite <- !app_assoc).
  assert (zlen d = HEADER_LEN + zlen ext + zlen pl) as Hd by (rewrite E, !zlen_app; lia).
  assert (1 < length d)%nat as Hfuel by (pose proof (zlen_nonneg ext); pose proof (zlen_nonneg pl); unfold zlen, HEADER_LEN in *; lia).
  pose proof (read_extensions_encoded header sk pl (length d) Hh H7 Hfuel) as Hext.
  cbv zeta in Hext. fold ext in Hext. fold b1 in Hext. rewrite <- E in Hext.
  unfold decode. rewrite (proj2 (Z.ltb_ge _ _)) by (pose proof (zlen_nonneg ext); pose proof (zlen_nonneg pl); lia).
  change (zget d 0) with (Some b0). change (zget d 1) with (Some b1). cbn [mbind option_bind].
  unfold b0 at 1 2. rewrite code_version, code_roundtrip. cbn [negb]. rewrite Hext. cbn [mbind option_bind].
  rewrite F1, F2, F3, F4, F5, F6. do 3 f_equal.
  rewrite E, app_assoc, drop_app_length'; [done |]. rewrite length_app. unfold zlen, HEADER_LEN in *. lia.
Qed.

(** ** Properties *)

(** A packet survives the wire: [decode] of what [encode] writes gives the
    packet back; and of any datagram at all [decode] returns a packet or an
    error, its extension chain always ending, and a packet it returns has its
    fields in range, at most eight bytes of selective ack, and the tail of the
    datagram as its payload. *)
Theorem packet_roundtrip (p : Packet) (datagram : list Z) (Hp : packet_ok p) (Hd : bytes_ok datagram) :
  decode (encode p) = Some (Ok p) /\
  exists r, decode datagram = Some r /\
    forall q, r = Ok q -> packet_ok q /\ exists at_, HEADER_LEN <= at_ <= zlen datagram /\ payload q = drop (Z.to_nat at_) datagram.
Proof.
  split; [by apply decode_encode |]. unfold decode.
  destruct (Z.ltb_spec (zlen datagram) HEADER_LEN) as [| Hlen]; [by eexists |]. unfold HEADER_LEN in Hlen.
  destruct (zget_lt datagram 0 ltac:(lia)) as [b0 ->]. destruct (zget_lt datagram 1 ltac:(lia)) as [b1 ->].
  cbn [mbind option_bind]. destruct (negb _); [by eexists |]. destruct (from_code _) as [k |]; [| by eexists].
  destruct (read_extensions_total (length datagram) datagram b1 HEADER_LEN []) as
    [[e ->] | (at2 & sk & -> & Hat & Hsk)]; cbn [mbind option_bind]; try (unfold HEADER_LEN, zlen, MAX_SACK_BYTES in *; simpl; done || lia);
    [by eexists |].
  eexists. split; [done |]. intros q [= <-]. split; [| exists at2; done]. unfold be16_at, be32_at.
  split; cbn [connection_id timestamp timestamp_diff wnd_size seq_nr ack_nr sack]; try done;
    (apply (slice_field_ok datagram _ 2) || apply (slice_field_ok datagram _ 4)); done || lia.
Qed.

Definition example_packet : Packet := mkPacket State 7 100 3 65536 11 40 [5; 0; 0; 0] [].

Lemma packet_roundtrip_witness : decode (encode example_packet) = Some (Ok example_packet).
Proof.
  refine (proj1 (packet_roundtrip example_packet [] _ _)); [| constructor].
  split; cbn; unfold u_ok, MAX_SACK_BYTES; lia.
Defined.
