(* ===== verification/F64.v ===== *)
(** * Double-precision arithmetic

    The [f64] operations the source uses, on the Standard Library's
    specification of IEEE 754 binary64 (rounding to nearest, ties to even). *)

From Stdlib Require Import SpecFloat.
From S2P Require Import Prelude.

Abbreviation f64 := spec_float.

Definition f_prec : Z := 53.
Definition f_emax : Z := 1024.

(** [x as f64] of an integer, and [m * 2^e]. *)
Definition f_of_Z (z : Z) : f64 := binary_normalize f_prec f_emax z 0 false.
Definition f_scaled (m e : Z) : f64 := binary_normalize f_prec f_emax m e false.

Definition f_add : f64 -> f64 -> f64 := SFadd f_prec f_emax.
Definition f_sub : f64 -> f64 -> f64 := SFsub f_prec f_emax.
Definition f_mul : f64 -> f64 -> f64 := SFmul f_prec f_emax.
Definition f_div : f64 -> f64 -> f64 := SFdiv f_prec f_emax.

Definition f_lt (a b : f64) : bool := match SFcompare a b with Some Lt => true | _ => false end.
Definition f_gt (a b : f64) : bool := match SFcompare a b with Some Gt => true | _ => false end.
Definition f_ge (a b : f64) : bool := match SFcompare a b with Some Gt | Some Eq => true | _ => false end.

Definition f_is_nan (a : f64) : bool := match a with S754_nan => true | _ => false end.

(** [f64::min] and [f64::max]: a NaN gives way to the other operand. *)
Definition f_min (a b : f64) : f64 :=
  if f_is_nan a then b else if f_is_nan b then a else if f_lt b a then b else a.
Definition f_max (a b : f64) : f64 :=
  if f_is_nan a then b else if f_is_nan b then a else if f_lt a b then b else a.

(** [f64::clamp]. *)
Definition f_clamp (x lo hi : f64) : f64 :=
  let x := if f_lt x lo then lo else x in
  if f_gt x hi then hi else x.

(** [x as usize]: towards zero, saturating, 0 for a NaN. *)
Definition f_to_usize (x : f64) : Z :=
  match x with
  | S754_finite false m e =>
      Z.min (u_max 64) (if 0 <=? e then Zpos m * 2 ^ e else Zpos m / 2 ^ (- e))
  | S754_infinity false => u_max 64
  | _ => 0
  end.

(** [f64::MAX]. *)
Definition f_MAX : f64 := f_scaled (2 ^ 53 - 1) 971.

Example f_ops_example :
  f_to_usize (f_div (f_mul (f_of_Z 7) (f_of_Z 3)) (f_of_Z 2)) = 10 /\ f_to_usize (f_min S754_nan (f_of_Z 5)) = 5.
Proof. vm_compute. done. Qed.

(** [f64::ceil]. *)
Definition f_ceil (x : f64) : f64 :=
  match x with
  | S754_finite false m e => if 0 <=? e then x else f_of_Z ((Zpos m + 2 ^ (- e) - 1) / 2 ^ (- e))
  | S754_finite true m e => if 0 <=? e then x else f_of_Z (- (Zpos m / 2 ^ (- e)))
  | _ => x
  end.

(** [Duration::as_secs_f64] of a number of nanoseconds. *)
Definition f_as_secs (nanos : Z) : f64 :=
  f_add (f_of_Z (nanos / 10 ^ 9)) (f_div (f_of_Z (nanos mod 10 ^ 9)) (f_of_Z (10 ^ 9))).

Lemma f_to_usize_nonneg x : 0 <= f_to_usize x.
Proof.
  unfold f_to_usize, u_max. destruct x as [| [] | | [] m e]; try lia. apply Z.min_glb; [lia |].
  destruct (Z.leb_spec 0 e); [pose proof (Z.pow_nonneg 2 e); lia |]. apply Z.div_pos; [lia | apply Z.pow_pos_nonneg; lia].
Qed.

(** ** Integers a double holds exactly *)

Lemma digits2_bounds p : 2 ^ (Zpos (digits2_pos p) - 1) <= Zpos p < 2 ^ Zpos (digits2_pos p).
Proof.
  induction p as [p IH | p IH |]; cbn [digits2_pos]; [| | done];
    rewrite Pos2Z.inj_succ; replace (Z.succ (Zpos (digits2_pos p)) - 1) with (Z.succ (Zpos (digits2_pos p) - 1)) by lia;
    rewrite !Z.pow_succ_r by lia; lia.
Qed.

Lemma iter_xO p n : Zpos (Pos.iter xO p n) = Zpos p * 2 ^ Zpos n.
Proof.
  induction n as [| n IH] using Pos.peano_ind; [cbn; lia |].
  rewrite Pos.iter_succ. rewrite Pos2Z.inj_succ, Z.pow_succ_r by lia. rewrite Pos2Z.inj_xO, IH. lia.
Qed.

Lemma digits2_unique p d : 2 ^ (d - 1) <= Zpos p < 2 ^ d -> Zpos (digits2_pos p) = d.
Proof.
  intros [Hl Hu]. destruct (digits2_bounds p) as [Hl' Hu'].
  assert (0 <= d) by (destruct (Z.le_gt_cases 0 d); [done | rewrite (Z.pow_neg_r 2 d) in Hu by lia; lia]).
  assert (d - 1 < Zpos (digits2_pos p)) by (apply (Z.pow_lt_mono_r_iff 2); lia).
  assert (Zpos (digits2_pos p) - 1 < d) by (apply (Z.pow_lt_mono_r_iff 2); lia). lia.
Qed.

Lemma f_of_Z_exact p : Zpos p < 2 ^ 53 ->
  exists m, f_of_Z (Zpos p) = S754_finite false m (Zpos (digits2_pos p) - 53) /\
    Zpos m = Zpos p * 2 ^ (53 - Zpos (digits2_pos p)) /\ Zpos (digits2_pos p) <= 53.
Proof.
  intros Hp. set (d := digits2_pos p). destruct (digits2_bounds p) as [Hl Hu]. fold d in Hl, Hu.
  assert (Zpos d <= 53) as Hd by (assert (Zpos d - 1 < 53); [apply (Z.pow_lt_mono_r_iff 2); lia | lia]).
  assert (forall m, Zpos m = Zpos p * 2 ^ (53 - Zpos d) -> binary_round_aux f_prec f_emax false (Zpos m) (Zpos d - 53) loc_Exact = S754_finite false m (Zpos d - 53)) as Haux.
  { intros m Hm. assert (Zpos (digits2_pos m) = 53) as H53.
    { apply digits2_unique. rewrite Hm. change (53 - 1) with 52. replace (2 ^ 52) with (2 ^ (Zpos d - 1) * 2 ^ (53 - Zpos d)) by (rewrite <- Z.pow_add_r by lia; f_equal; lia).
      replace (2 ^ 53) with (2 ^ Zpos d * 2 ^ (53 - Zpos d)) by (rewrite <- Z.pow_add_r by lia; f_equal; lia).
      pose proof (Z.pow_pos_nonneg 2 (53 - Zpos d)). nia. }
    unfold binary_round_aux, shr_fexp. cbn [Zdigits2]. rewrite H53.
    assert (fexp f_prec f_emax (53 + (Zpos d - 53)) - (Zpos d - 53) = 0) as -> by (unfold fexp, emin, f_prec, f_emax; lia).
    cbn [shr shr_record_of_loc loc_of_shr_record shr_m round_nearest_even Zdigits2]. rewrite H53.
    assert (fexp f_prec f_emax (53 + (Zpos d - 53)) - (Zpos d - 53) = 0) as -> by (unfold fexp, emin, f_prec, f_emax; lia).
    cbn [shr shr_m shr_record_of_loc]. rewrite (proj2 (Z.leb_le _ _)) by (unfold f_prec, f_emax; lia). done. }
  unfold f_of_Z, binary_normalize, binary_round, shl_align. fold d.
  assert (fexp f_prec f_emax (Zpos d + 0) = Zpos d - 53) as -> by (unfold fexp, emin, f_prec, f_emax; lia).
  destruct (Zpos d - 53 - 0) as [| q | q] eqn:E; [| lia |].
  - exists p. assert (Zpos d = 53) as E' by lia. rewrite E' in *. split; [apply (Haux p); lia | split; [cbn; lia | lia]].
  - exists (Pos.iter xO p q). pose proof (iter_xO p q) as Hm. replace (Zpos q) with (53 - Zpos d) in Hm by lia.
    split; [by apply Haux | split; [done | lia]].
Qed.

(** They compare as integers do. *)
Lemma f_compare_exact a b : 0 < a < 2 ^ 53 -> 0 < b < 2 ^ 53 -> SFcompare (f_of_Z a) (f_of_Z b) = Some (a ?= b).
Proof.
  intros [Ha Ha'] [Hb Hb']. destruct a as [| a | a], b as [| b | b]; try lia.
  destruct (f_of_Z_exact a Ha') as (ma & -> & Hma & Hda), (f_of_Z_exact b Hb') as (mb & -> & Hmb & Hdb).
  cbn [SFcompare]. f_equal. pose proof (digits2_bounds a) as Ba. pose proof (digits2_bounds b) as Bb.
  destruct (Z.compare_spec (Zpos (digits2_pos a) - 53) (Zpos (digits2_pos b) - 53)) as [H | H | H].
  - change (Pos.compare_cont Eq ma mb) with (Zpos ma ?= Zpos mb). rewrite Hma, Hmb.
    replace (Zpos (digits2_pos b)) with (Zpos (digits2_pos a)) by lia.
    assert (0 < 2 ^ (53 - Zpos (digits2_pos a))) as Hk by (apply Z.pow_pos_nonneg; lia). generalize dependent (2 ^ (53 - Zpos (digits2_pos a))). intros k _ Hk.
    destruct (Z.compare_spec (Zpos a * k) (Zpos b * k)), (Z.compare_spec (Zpos a) (Zpos b)); try done; nia.
  - symmetry. apply Z.compare_lt_iff. assert (2 ^ Zpos (digits2_pos a) <= 2 ^ (Zpos (digits2_pos b) - 1)) by (apply Z.pow_le_mono_r; lia). lia.
  - symmetry. apply Z.compare_gt_iff. assert (2 ^ Zpos (digits2_pos b) <= 2 ^ (Zpos (digits2_pos a) - 1)) by (apply Z.pow_le_mono_r; lia). lia.
Qed.

(** [x.fract() == 0.0]. *)
Definition f_is_whole (x : f64) : bool :=
  match x with
  | S754_zero _ => true
  | S754_finite _ m e => (0 <=? e) || (Zpos m mod 2 ^ (- e) =? 0)
  | _ => false
  end.

Lemma f_whole_exact a : 0 < a < 2 ^ 53 -> f_is_whole (f_of_Z a) = true.
Proof.
  intros [Ha Ha']. destruct a as [| a | a]; try lia. destruct (f_of_Z_exact a Ha') as (m & -> & Hm & Hd). cbn [f_is_whole].
  rewrite Hm. replace (- (Zpos (digits2_pos a) - 53)) with (53 - Zpos (digits2_pos a)) by lia.
  rewrite Z_mod_mult. apply orb_true_r.
Qed.

Lemma f_to_usize_exact a : 0 < a < 2 ^ 53 -> f_to_usize (f_of_Z a) = a.
Proof.
  intros [Ha Ha']. destruct a as [| a | a]; try lia. destruct (f_of_Z_exact a Ha') as (m & -> & Hm & Hd). cbn [f_to_usize].
  replace (- (Zpos (digits2_pos a) - 53)) with (53 - Zpos (digits2_pos a)) by lia.
  assert (0 < 2 ^ (53 - Zpos (digits2_pos a))) by (apply Z.pow_pos_nonneg; lia).
  replace (if 0 <=? Zpos (digits2_pos a) - 53 then _ else _) with (Zpos a); [unfold u_max; lia |].
  destruct (Z.leb_spec 0 (Zpos (digits2_pos a) - 53)).
  - assert (Zpos (digits2_pos a) = 53) as E by lia. rewrite E in *. cbn in Hm |- *. lia.
  - rewrite Hm, Z.div_mul by lia. done.
Qed.
