(* ===== verification/Pipeline.v ===== *)
(** * How many requests to keep in flight

    Models [src/src/downloader/worker/pipeline.rs]: the rate a peer delivers
    at, measured over the last three seconds, and the length of the request
    queue it earns.  Times are nanoseconds. *)

From S2P Require Import Prelude F64.

Definition QUEUE_SECONDS : f64 := f_of_Z 2.
Definition MAX_DEPTH : Z := 128.
Definition DEFAULT_PEER_LIMIT : Z := 64.
Definition BLOCK : f64 := f_of_Z 16384.
Definition WINDOW : Z := 3 * 10 ^ 9.
Definition MIN_SPAN : Z := 5 * 10 ^ 8.

(** [samples]: when, and how many bytes, oldest first. *)
Abbreviation Throughput := (list (Z * Z)).

Fixpoint forget_old (now : Z) (samples : Throughput) : Throughput :=
  match samples with
  | (at_, n) :: rest => if WINDOW <? u_saturating_sub now at_ then forget_old now rest else samples
  | [] => []
  end.

Definition record (samples : Throughput) (now bytes : Z) : Throughput := forget_old now (samples ++ [(now, bytes)]).

Definition recent (now : Z) (samples : Throughput) : Throughput := filter (fun x => u_saturating_sub now x.1 <= WINDOW) samples.

Definition rate (samples : Throughput) (now : Z) : f64 :=
  match recent now samples with
  | [] => f_of_Z 0
  | (first, _) :: _ =>
      let bytes := foldl Z.add 0 (recent now samples).*2 in
      let span := Z.min WINDOW (Z.max MIN_SPAN (u_saturating_sub now first)) in
      f_div (f_of_Z bytes) (f_as_secs span)
  end.

Definition depth_for (rate : f64) (min_depth : Z) (peer_limit : option Z) : Z :=
  let cap := Z.min MAX_DEPTH (Z.max 1 (default DEFAULT_PEER_LIMIT peer_limit)) in
  let wanted := f_to_usize (f_ceil (f_div (f_mul rate QUEUE_SECONDS) BLOCK)) in
  Z.min cap (Z.max (Z.min min_depth cap) wanted).

(** ** Facts *)

Lemma depth_for_bounds r min_depth limit : 0 <= min_depth ->
  0 <= depth_for r min_depth limit <= MAX_DEPTH /\
  (forall n, limit = Some n -> depth_for r min_depth limit <= Z.max 1 n) /\
  (1 <= min_depth -> 1 <= depth_for r min_depth limit).
Proof.
  intros Hm. unfold depth_for, MAX_DEPTH, DEFAULT_PEER_LIMIT. set (wanted := f_to_usize _).
  assert (0 <= wanted) by apply f_to_usize_nonneg. split_and!; [destruct limit; cbn [default from_option id]; lia.. | intros n ->; cbn; lia | destruct limit; cbn; lia].
Qed.

(** Two blocks a second for two seconds, and a queue of two seconds' worth. *)
Example depth_example :
  depth_for (rate [(0, 16384); (5 * 10 ^ 8, 16384)] (10 ^ 9)) 1 None = 4 /\ depth_for (f_of_Z 800000) 5 (Some 500) = 98 /\
  depth_for (f_of_Z 800000) 5 (Some 2) = 2 /\ depth_for (f_of_Z 0) 5 None = 5.
Proof. vm_compute. done. Qed.
