(* ===== verification/UtpConn.v ===== *)
(** * A uTP connection (BEP 29)

    Models [src/src/utp/conn.rs], a state machine that is given packets and the
    time and says what to send.  An [Instant] and a [Duration] are numbers of
    nanoseconds; [duration_since] of a later time is zero.  Sizes are
    mathematical integers: a [None] of any operation is a panic, which is an
    unsigned subtraction below zero (the window of bytes in the network, the
    bytes held out of order, the bit of a selective ack).  The congestion
    window is an [f64]. *)

From S2P Require Import Prelude Bytes BTree Io UtpPacket F64.

Definition MAX_PACKET : Z := 1400.
Definition MAX_PAYLOAD : Z := MAX_PACKET - HEADER_LEN.
Definition SEND_BUFFER : Z := 256 * 1024.
Definition RECEIVE_BUFFER : Z := 512 * 1024.
Definition REORDER_WINDOW : Z := 64.

Definition millis : Z := 10 ^ 6.
Definition secs : Z := 10 ^ 9.

Definition INITIAL_RTO : Z := 1 * secs.
Definition MIN_RTO : Z := 500 * millis.
Definition MAX_RTO : Z := 60 * secs.
Definition MAX_TIMEOUTS : Z := 5.
Definition MAX_SYN_ATTEMPTS : Z := 3.
Definition KEEPALIVE : Z := 15 * secs.
Definition DEAD_AFTER : Z := 90 * secs.
Definition DUP_ACK_THRESHOLD : Z := 3.

Definition TARGET_DELAY_US : f64 := f_of_Z 100000.
Definition MAX_GROWTH_PER_RTT : f64 := f_of_Z 3000.
Definition MIN_WINDOW : f64 := f_of_Z MAX_PACKET.
Definition INITIAL_WINDOW : f64 := f_mul (f_of_Z 2) (f_of_Z MAX_PACKET).
Definition BASE_DELAY_MINUTES : nat := 2.

Definition seq_le (a b : Z) : bool := wrap 16 (b - a) <? 32768.

(** [now.duration_since(t)]. *)
Definition since (now t : Z) : Z := Z.max 0 (now - t).

(** [a - b] on an unsigned type. *)
Definition checked_sub (a b : Z) : option Z := if a <? b then None else Some (a - b).

(** [State] of the source. *)
Inductive ConnState : Type := Connecting | Open | Ended.

#[export] Instance conn_state_eq_dec : EqDecision ConnState.
Proof. solve_decision. Defined.

Record Sent : Type := mkSent {
  seq : Z;
  s_kind : PacketType;
  s_payload : list Z;
  sent_at : Z;
  transmissions : Z;
  sacked : bool;
  lost : bool
}.

Definition in_network (p : Sent) : bool := negb (sacked p) && negb (lost p).

(** The fields of [Connection], grouped as the source groups them. *)
Record Sending : Type := mkSending {
  seq_nr : Z;
  outbox : list Z;
  in_flight : list Sent;
  cur_window : Z;
  peer_window : Z;
  fin_pending : bool;
  fin_sent : bool;
  fin_acked : bool;
  last_data_sent : option Z
}.

Record Receiving : Type := mkReceiving {
  ack_nr : Z;
  inbox : list Z;
  reorder : list (Z * list Z);
  reorder_bytes : Z;
  fin_seq : option Z;
  peer_closed : bool;
  ack_pending : bool;
  reply_micro : Z
}.

Record Timers : Type := mkTimers {
  max_window : f64;
  ssthresh : f64;
  slow_start : bool;
  rtt : option Z;
  rtt_var : Z;
  rto : Z;
  rto_deadline : option Z;
  timeouts : Z;
  syn_attempts : Z;
  dup_acks : Z;
  last_ack_nr : Z;
  last_window_cut : option Z;
  delay_base : list (Z * Z);
  last_sent : Z;
  last_heard : Z
}.

Record Connection : Type := mkConnection {
  epoch : Z;
  state : ConnState;
  error : option ErrorKind;
  send_id : Z;
  recv_id : Z;
  snd_ : Sending;
  rcv : Receiving;
  tmr : Timers;
  outgoing : list (list Z)
}.

(** Field updates ([self.f = v]). *)
Definition set_seq_nr (s : Sending) (x : Z) : Sending :=
  mkSending x (outbox s) (in_flight s) (cur_window s) (peer_window s) (fin_pending s) (fin_sent s) (fin_acked s) (last_data_sent s).
Definition set_outbox (s : Sending) (x : list Z) : Sending :=
  mkSending (seq_nr s) x (in_flight s) (cur_window s) (peer_window s) (fin_pending s) (fin_sent s) (fin_acked s) (last_data_sent s).
Definition set_in_flight (s : Sending) (x : list Sent) : Sending :=
  mkSending (seq_nr s) (outbox s) x (cur_window s) (peer_window s) (fin_pending s) (fin_sent s) (fin_acked s) (last_data_sent s).
Definition set_cur_window (s : Sending) (x : Z) : Sending :=
  mkSending (seq_nr s) (outbox s) (in_flight s) x (peer_window s) (fin_pending s) (fin_sent s) (fin_acked s) (last_data_sent s).
Definition set_peer_window (s : Sending) (x : Z) : Sending :=
  mkSending (seq_nr s) (outbox s) (in_flight s) (cur_window s) x (fin_pending s) (fin_sent s) (fin_acked s) (last_data_sent s).
Definition set_fin_pending (s : Sending) (x : bool) : Sending :=
  mkSending (seq_nr s) (outbox s) (in_flight s) (cur_window s) (peer_window s) x (fin_sent s) (fin_acked s) (last_data_sent s).
Definition set_fin_sent (s : Sending) (x : bool) : Sending :=
  mkSending (seq_nr s) (outbox s) (in_flight s) (cur_window s) (peer_window s) (fin_pending s) x (fin_acked s) (last_data_sent s).
Definition set_fin_acked (s : Sending) (x : bool) : Sending :=
  mkSending (seq_nr s) (outbox s) (in_flight s) (cur_window s) (peer_window s) (fin_pending s) (fin_sent s) x (last_data_sent s).
Definition set_last_data_sent (s : Sending) (x : option Z) : Sending :=
  mkSending (seq_nr s) (outbox s) (in_flight s) (cur_window s) (peer_window s) (fin_pending s) (fin_sent s) (fin_acked s) x.
Definition set_ack_nr (r : Receiving) (x : Z) : Receiving :=
  mkReceiving x (inbox r) (reorder r) (reorder_bytes r) (fin_seq r) (peer_closed r) (ack_pending r) (reply_micro r).
Definition set_fin_seq (r : Receiving) (x : option Z) : Receiving :=
  mkReceiving (ack_nr r) (inbox r) (reorder r) (reorder_bytes r) x (peer_closed r) (ack_pending r) (reply_micro r).
Definition set_peer_closed (r : Receiving) (x : bool) : Receiving :=
  mkReceiving (ack_nr r) (inbox r) (reorder r) (reorder_bytes r) (fin_seq r) x (ack_pending r) (reply_micro r).
Definition set_ack_pending (r : Receiving) (x : bool) : Receiving :=
  mkReceiving (ack_nr r) (inbox r) (reorder r) (reorder_bytes r) (fin_seq r) (peer_closed r) x (reply_micro r).
Definition set_reply_micro (r : Receiving) (x : Z) : Receiving :=
  mkReceiving (ack_nr r) (inbox r) (reorder r) (reorder_bytes r) (fin_seq r) (peer_closed r) (ack_pending r) x.
Definition set_max_window (t : Timers) (x : f64) : Timers :=
  mkTimers x (ssthresh t) (slow_start t) (rtt t) (rtt_var t) (rto t) (rto_deadline t) (timeouts t) (syn_attempts t) (dup_acks t) (last_ack_nr t) (last_window_cut t) (delay_base t) (last_sent t) (last_heard t).
Definition set_ssthresh (t : Timers) (x : f64) : Timers :=
  mkTimers (max_window t) x (slow_start t) (rtt t) (rtt_var t) (rto t) (rto_deadline t) (timeouts t) (syn_attempts t) (dup_acks t) (last_ack_nr t) (last_window_cut t) (delay_base t) (last_sent t) (last_heard t).
Definition set_slow_start (t : Timers) (x : bool) : Timers :=
  mkTimers (max_window t) (ssthresh t) x (rtt t) (rtt_var t) (rto t) (rto_deadline t) (timeouts t) (syn_attempts t) (dup_acks t) (last_ack_nr t) (last_window_cut t) (delay_base t) (last_sent t) (last_heard t).
Definition set_rto (t : Timers) (x : Z) : Timers :=
  mkTimers (max_window t) (ssthresh t) (slow_start t) (rtt t) (rtt_var t) x (rto_deadline t) (timeouts t) (syn_attempts t) (dup_acks t) (last_ack_nr t) (last_window_cut t) (delay_base t) (last_sent t) (last_heard t).
Definition set_rto_deadline (t : Timers) (x : option Z) : Timers :=
  mkTimers (max_window t) (ssthresh t) (slow_start t) (rtt t) (rtt_var t) (rto t) x (timeouts t) (syn_attempts t) (dup_acks t) (last_ack_nr t) (last_window_cut t) (delay_base t) (last_sent t) (last_heard t).
Definition set_timeouts (t : Timers) (x : Z) : Timers :=
  mkTimers (max_window t) (ssthresh t) (slow_start t) (rtt t) (rtt_var t) (rto t) (rto_deadline t) x (syn_attempts t) (dup_acks t) (last_ack_nr t) (last_window_cut t) (delay_base t) (last_sent t) (last_heard t).
Definition set_syn_attempts (t : Timers) (x : Z) : Timers :=
  mkTimers (max_window t) (ssthresh t) (slow_start t) (rtt t) (rtt_var t) (rto t) (rto_deadline t) (timeouts t) x (dup_acks t) (last_ack_nr t) (last_window_cut t) (delay_base t) (last_sent t) (last_heard t).
Definition set_dup_acks (t : Timers) (x : Z) : Timers :=
  mkTimers (max_window t) (ssthresh t) (slow_start t) (rtt t) (rtt_var t) (rto t) (rto_deadline t) (timeouts t) (syn_attempts t) x (last_ack_nr t) (last_window_cut t) (delay_base t) (last_sent t) (last_heard t).
Definition set_last_ack_nr (t : Timers) (x : Z) : Timers :=
  mkTimers (max_window t) (ssthresh t) (slow_start t) (rtt t) (rtt_var t) (rto t) (rto_deadline t) (timeouts t) (syn_attempts t) (dup_acks t) x (last_window_cut t) (delay_base t) (last_sent t) (last_heard t).
Definition set_delay_base (t : Timers) (x : list (Z * Z)) : Timers :=
  mkTimers (max_window t) (ssthresh t) (slow_start t) (rtt t) (rtt_var t) (rto t) (rto_deadline t) (timeouts t) (syn_attempts t) (dup_acks t) (last_ack_nr t) (last_window_cut t) x (last_sent t) (last_heard t).
Definition set_last_sent (t : Timers) (x : Z) : Timers :=
  mkTimers (max_window t) (ssthresh t) (slow_start t) (rtt t) (rtt_var t) (rto t) (rto_deadline t) (timeouts t) (syn_attempts t) (dup_acks t) (last_ack_nr t) (last_window_cut t) (delay_base t) x (last_heard t).
Definition set_last_heard (t : Timers) (x : Z) : Timers :=
  mkTimers (max_window t) (ssthresh t) (slow_start t) (rtt t) (rtt_var t) (rto t) (rto_deadline t) (timeouts t) (syn_attempts t) (dup_acks t) (last_ack_nr t) (last_window_cut t) (delay_base t) (last_sent t) x.

Definition with_snd (c : Connection) (s : Sending) : Connection :=
  mkConnection (epoch c) (state c) (error c) (send_id c) (recv_id c) s (rcv c) (tmr c) (outgoing c).
Definition with_rcv (c : Connection) (r : Receiving) : Connection :=
  mkConnection (epoch c) (state c) (error c) (send_id c) (recv_id c) (snd_ c) r (tmr c) (outgoing c).
Definition with_tmr (c : Connection) (t : Timers) : Connection :=
  mkConnection (epoch c) (state c) (error c) (send_id c) (recv_id c) (snd_ c) (rcv c) t (outgoing c).
Definition with_outgoing (c : Connection) (o : list (list Z)) : Connection :=
  mkConnection (epoch c) (state c) (error c) (send_id c) (recv_id c) (snd_ c) (rcv c) (tmr c) o.
Definition with_state (c : Connection) (st : ConnState) (e : option ErrorKind) : Connection :=
  mkConnection (epoch c) st e (send_id c) (recv_id c) (snd_ c) (rcv c) (tmr c) (outgoing c).

(** [Connection::new]. *)
Definition new (now : Z) (st : ConnState) (send_id recv_id seq_nr : Z) : Connection :=
  mkConnection now st None send_id recv_id
    (mkSending seq_nr [] [] 0 RECEIVE_BUFFER false false false None)
    (mkReceiving 0 [] [] 0 None false false 0)
    (mkTimers INITIAL_WINDOW f_MAX true None 0 INITIAL_RTO None 0 0 0 0 None [] now now)
    [].

(** ** Receiving *)

Definition receive_window (r : Receiving) : Z :=
  u_saturating_sub RECEIVE_BUFFER (zlen (inbox r) + reorder_bytes r).

(** The [while let] loop of [receive]: each pass takes an entry out. *)
Fixpoint drain_reorder (fuel : nat) (r : Receiving) : option Receiving :=
  let next := wrap 16 (ack_nr r + 1) in
  match bt_get (reorder r) next with
  | None => Some r
  | Some payload =>
      match fuel with
      | O => None
      | S fuel' =>
          bytes ← checked_sub (reorder_bytes r) (zlen payload);
          drain_reorder fuel'
            (mkReceiving next (inbox r ++ payload) (bt_remove (reorder r) next) bytes
               (fin_seq r) (peer_closed r) (ack_pending r) (reply_micro r))
      end
  end.

Definition receive (r : Receiving) (packet : Packet) : option Receiving :=
  let ahead := wrap 16 (UtpPacket.seq_nr packet - ack_nr r) in
  let r := set_ack_pending r true in
  if (ahead =? 0) || (REORDER_WINDOW <? ahead) then Some r
  else if receive_window r <? zlen (payload packet) then Some r
  else
    let r := if bool_decide (kind packet = Fin) then set_fin_seq r (Some (UtpPacket.seq_nr packet)) else r in
    r ←
      (if ahead =? 1 then
         drain_reorder (length (reorder r))
           (mkReceiving (UtpPacket.seq_nr packet) (inbox r ++ payload packet) (reorder r) (reorder_bytes r)
              (fin_seq r) (peer_closed r) (ack_pending r) (reply_micro r))
       else
         match bt_get (reorder r) (UtpPacket.seq_nr packet) with
         | Some _ => Some r
         | None =>
             Some (mkReceiving (ack_nr r) (inbox r)
                     (bt_insert (reorder r) (UtpPacket.seq_nr packet) (payload packet))
                     (reorder_bytes r + zlen (payload packet))
                     (fin_seq r) (peer_closed r) (ack_pending r) (reply_micro r))
         end);
    Some (if bool_decide (fin_seq r = Some (ack_nr r)) then set_peer_closed r true else r).

(** The distance of a packet held out of order. *)
Definition ahead_of (r : Receiving) (s : Z) : Z := wrap 16 (s - ack_nr r).

(** The loop of [selective_ack] that sets the bits. *)
Fixpoint set_sack_bits (r : Receiving) (keys : list Z) (mask : list Z) : option (list Z) :=
  match keys with
  | [] => Some mask
  | s :: keys' =>
      bit ← checked_sub (ahead_of r s) 2;
      set_sack_bits r keys'
        (alter (fun byte => Z.lor byte (Z.shiftl 1 (bit mod 8))) (Z.to_nat (bit / 8)) mask)
  end.

Definition selective_ack (r : Receiving) : option (list Z) :=
  match (reorder r).*1 with
  | [] => Some []
  | keys =>
      let span := foldr Z.max 0 (ahead_of r <$> keys) in
      span1 ← checked_sub span 1;
      let bytes := Z.max (div_ceil span1 32) 1 * 4 in
      set_sack_bits r keys (replicate (Z.to_nat (Z.min bytes (Z.of_nat MAX_SACK_BYTES))) 0)
  end.

(** ** Sending packets *)

Definition micros (c : Connection) (now : Z) : Z := wrap 32 (since now (epoch c) / 1000).

Definition header (c : Connection) (now : Z) (k : PacketType) (sq : Z) : Packet :=
  mkPacket k (if bool_decide (k = Syn) then recv_id c else send_id c) (micros c now) (reply_micro (rcv c))
    (receive_window (rcv c)) sq (ack_nr (rcv c)) [] [].

Definition queue (c : Connection) (now : Z) (k : PacketType) (sq : Z) (data : list Z) : option Connection :=
  let h := header c now k sq in
  mask ← (if bool_decide (k = State) then selective_ack (rcv c) else Some []);
  let packet := mkPacket (kind h) (connection_id h) (timestamp h) (timestamp_diff h) (wnd_size h)
                  (UtpPacket.seq_nr h) (UtpPacket.ack_nr h) mask data in
  let c := with_outgoing c (outgoing c ++ [encode packet]) in
  let c := with_tmr c (set_last_sent (tmr c) now) in
  Some (match k with
        | Data | Fin | State => with_rcv c (set_ack_pending (rcv c) false)
        | Reset | Syn => c
        end).

Definition fail (c : Connection) (e : ErrorKind) : Connection :=
  with_tmr (with_state c Ended (Some e)) (set_rto_deadline (tmr c) None).

Definition send_state (c : Connection) (now : Z) : option Connection := queue c now State (seq_nr (snd_ c)) [].

Definition push_sent (s : Sending) (now : Z) (k : PacketType) (data : list Z) : Sending :=
  set_in_flight s (in_flight s ++ [mkSent (seq_nr s) k data now 1 false false]).

Definition send_syn (c : Connection) (now : Z) : option Connection :=
  let c := with_tmr c (set_syn_attempts (tmr c) 1) in
  let c := with_snd c (push_sent (snd_ c) now Syn []) in
  c ← queue c now Syn (seq_nr (snd_ c)) [];
  let c := with_snd c (set_seq_nr (snd_ c) (wrap 16 (seq_nr (snd_ c) + 1))) in
  Some (with_tmr c (set_rto_deadline (tmr c) (Some (now + rto (tmr c))))).

Definition send_syn_again (c : Connection) (now : Z) : option Connection :=
  let c := with_tmr c (set_syn_attempts (tmr c) (syn_attempts (tmr c) + 1)) in
  c ← queue c now Syn (wrap 16 (seq_nr (snd_ c) - 1)) [];
  Some (with_tmr c (set_rto_deadline (tmr c) (Some (now + rto (tmr c))))).

Definition connect_from (now recv_id initial_seq : Z) : option Connection :=
  send_syn (new now Connecting (wrap 16 (recv_id + 1)) recv_id initial_seq) now.

Definition connect (now recv_id : Z) : option Connection := connect_from now recv_id 1.

Definition accept (now : Z) (syn : Packet) (initial_seq : Z) : option Connection :=
  let c := new now Open (connection_id syn) (wrap 16 (connection_id syn + 1)) initial_seq in
  let c := with_rcv c (set_ack_nr (rcv c) (UtpPacket.seq_nr syn)) in
  let c := with_snd c (set_peer_window (snd_ c) (wnd_size syn)) in
  let c := with_rcv c (set_reply_micro (rcv c) (wrap 32 (micros c now - timestamp syn))) in
  send_state c now.

(** ** Acknowledgements *)

(** The loop of [process_ack] over the packets acknowledged in order: what is
    left in flight, the window, the bytes acknowledged, the round-trip sample
    and whether our FIN was among them. *)
Fixpoint pop_acked (now ack : Z) (l : list Sent) (cur acked : Z) (sample : option Z) (fin : bool) :
    option (list Sent * Z * Z * option Z * bool) :=
  match l with
  | [] => Some ([], cur, acked, sample, fin)
  | gone :: l' =>
      if negb (seq_le (seq gone) ack) then Some (l, cur, acked, sample, fin)
      else
        cur' ← (if in_network gone then checked_sub cur (zlen (s_payload gone)) else Some cur);
        pop_acked now ack l' cur'
          (if negb (sacked gone) then acked + zlen (s_payload gone) else acked)
          (if (transmissions gone =? 1) && negb (sacked gone) then Some (since now (sent_at gone)) else sample)
          (if bool_decide (s_kind gone = Fin) then true else fin)
  end.

(** The sequence numbers a selective ack names, in the order of its bits. *)
Definition sack_seqs (ack : Z) (mask : list Z) : list Z :=
  concat (imap (fun (i : nat) (byte : Z) =>
    (fun bit => wrap 16 (wrap 16 (ack + 2) + wrap 16 (Z.of_nat i * 8 + bit))) <$>
      filter (fun bit => Z.land byte (Z.shiftl 1 bit) <> 0) [0; 1; 2; 3; 4; 5; 6; 7]) mask).

(** What one of them does. *)
Definition mark_sacked (now sq : Z) (st : list Sent * Z * Z * option Z) : option (list Sent * Z * Z * option Z) :=
  let '(l, cur, acked, sample) := st in
  match list_find (fun p => seq p = sq) l with
  | None => Some st
  | Some (i, p) =>
      if sacked p then Some st
      else
        cur' ← (if in_network p then checked_sub cur (zlen (s_payload p)) else Some cur);
        Some (<[i := mkSent (seq p) (s_kind p) (s_payload p) (sent_at p) (transmissions p) true false]> l, cur',
              acked + zlen (s_payload p),
              if transmissions p =? 1 then Some (since now (sent_at p)) else sample)
  end.

Fixpoint mark_all_sacked (now : Z) (seqs : list Z) (st : list Sent * Z * Z * option Z) :
    option (list Sent * Z * Z * option Z) :=
  match seqs with
  | [] => Some st
  | sq :: seqs' => st' ← mark_sacked now sq st; mark_all_sacked now seqs' st'
  end.

Definition update_rtt (t : Timers) (sample : Z) : Timers :=
  let '(rtt1, var) :=
    match rtt t with
    | None => (sample, sample / 2)
    | Some old => (old * 7 / 8 + sample / 8, rtt_var t * 3 / 4 + Z.abs (old - sample) / 4)
    end in
  mkTimers (max_window t) (ssthresh t) (slow_start t) (Some rtt1) var
    (Z.min MAX_RTO (Z.max MIN_RTO (rtt1 + var * 4))) (rto_deadline t) (timeouts t) (syn_attempts t)
    (dup_acks t) (last_ack_nr t) (last_window_cut t) (delay_base t) (last_sent t) (last_heard t).

(** [x as i32] of a [u32]. *)
Definition as_i32 (x : Z) : Z := if x <? 2 ^ 31 then x else x - 2 ^ 32.

(** The delays kept to tell the base delay from, by minute. *)
Definition note_delay (base : list (Z * Z)) (minute delay : Z) : list (Z * Z) :=
  match last base with
  | Some (m, least) =>
      if m =? minute then
        if as_i32 (wrap 32 (delay - least)) <? 0
        then take (length base - 1) base ++ [(m, delay)] else base
      else
        let base' := base ++ [(minute, delay)] in
        if (BASE_DELAY_MINUTES + 1 <? length base')%nat then drop 1 base' else base'
  | None => [(minute, delay)]
  end.

Definition base_delay (base : list (Z * Z)) (delay : Z) : Z :=
  match base.*2 with
  | [] => delay
  | d :: ds => fold_left (fun a b => if as_i32 (wrap 32 (a - b)) <=? 0 then a else b) ds d
  end.

(** [0.9] and the other constants of [update_window]. *)
Definition f_0_9 : f64 := f_scaled 8106479329266893 (-53).

Definition update_window (c : Connection) (now acked_bytes delay : Z) : Connection :=
  let t := tmr c in
  let minute := since now (epoch c) / secs / 60 in
  let t := set_delay_base t (note_delay (delay_base t) minute delay) in
  let base := base_delay (delay_base t) delay in
  let queuing := f_max (f_of_Z (as_i32 (wrap 32 (delay - base)))) (f_of_Z 0) in
  let acked := f_of_Z acked_bytes in
  let t :=
    if slow_start t then
      if f_gt queuing (f_mul TARGET_DELAY_US f_0_9) || f_ge (max_window t) (ssthresh t)
      then set_slow_start t false
      else set_max_window t (f_add (max_window t) acked)
    else
      let delay_factor := f_div (f_sub TARGET_DELAY_US queuing) TARGET_DELAY_US in
      let window_factor := f_min (f_div acked (max_window t)) (f_of_Z 1) in
      set_max_window t (f_add (max_window t) (f_mul (f_mul MAX_GROWTH_PER_RTT delay_factor) window_factor)) in
  let in_use := f_of_Z (cur_window (snd_ c) + acked_bytes) in
  let limit := f_add (f_mul (f_of_Z 2) in_use) (f_mul (f_of_Z 4) (f_of_Z MAX_PACKET)) in
  with_tmr c (set_max_window t
    (f_clamp (f_min (max_window t) limit) MIN_WINDOW (f_mul (f_mul (f_of_Z 16) (f_of_Z 1024)) (f_of_Z 1024)))).

Definition cut_window (c : Connection) (now : Z) : Connection :=
  let t := tmr c in
  let round_trip := default INITIAL_RTO (rtt t) in
  if match last_window_cut t with Some at_ => since now at_ <? round_trip | None => false end then c
  else
    let w := f_max (f_div (max_window t) (f_of_Z 2)) MIN_WINDOW in
    with_tmr c (mkTimers w w false (rtt t) (rtt_var t) (rto t) (rto_deadline t) (timeouts t) (syn_attempts t)
                  (dup_acks t) (last_ack_nr t) (Some now) (delay_base t) (last_sent t) (last_heard t)).

(** [in_flight.iter_mut().find(|p| !p.sacked)], marked lost if it was sent once. *)
Definition lose_front (c : Connection) (now : Z) : option Connection :=
  let s := snd_ c in
  match list_find (fun p => sacked p = false) (in_flight s) with
  | None => Some c
  | Some (i, front) =>
      if (transmissions front =? 1) && negb (lost front) then
        cur ← checked_sub (cur_window s) (zlen (s_payload front));
        let front' := mkSent (seq front) (s_kind front) (s_payload front) (sent_at front) (transmissions front)
                        (sacked front) true in
        let s := set_cur_window (set_in_flight s (<[i := front']> (in_flight s))) cur in
        Some (cut_window (with_snd c s) now)
      else Some c
  end.

Definition process_ack (c : Connection) (now : Z) (packet : Packet) : option Connection :=
  let ack := UtpPacket.ack_nr packet in
  let s := snd_ c in
  if negb (bool_decide (in_flight s = [])) && negb (seq_le ack (wrap 16 (seq_nr s - 1))) then Some c
  else
    '(l, cur, acked, sample, fin) ← pop_acked now ack (in_flight s) (cur_window s) 0 None (fin_acked s);
    '(l, cur, acked, sample) ← mark_all_sacked now (sack_seqs ack (sack packet)) (l, cur, acked, sample);
    let c := with_snd c (mkSending (seq_nr s) (outbox s) l cur (peer_window s) (fin_pending s) (fin_sent s) fin
                           (last_data_sent s)) in
    let sacked_after_front := zlen (filter (fun p => sacked p = true) l) in
    let c := match sample with Some x => with_tmr c (update_rtt (tmr c) x) | None => c end in
    let c :=
      if 0 <? acked then
        let c := with_tmr c (set_dup_acks (set_timeouts (tmr c) 0) 0) in
        update_window c now acked (timestamp_diff packet)
      else if bool_decide (kind packet = State) && (ack =? last_ack_nr (tmr c)) && negb (bool_decide (l = []))
      then with_tmr c (set_dup_acks (tmr c) (dup_acks (tmr c) + 1))
      else c in
    let c := if seq_le (last_ack_nr (tmr c)) ack then with_tmr c (set_last_ack_nr (tmr c) ack) else c in
    let lost_front := (dup_acks (tmr c) =? DUP_ACK_THRESHOLD) || (DUP_ACK_THRESHOLD <=? sacked_after_front) in
    c ← (if lost_front then lose_front c now else Some c);
    Some (with_tmr c (set_rto_deadline (tmr c)
            (match in_flight (snd_ c) with [] => None | _ => Some (now + rto (tmr c)) end))).

(** ** Timeouts *)

(** Everything in the network is presumed lost. *)
Fixpoint lose_all (l : list Sent) (cur : Z) : option (list Sent * Z) :=
  match l with
  | [] => Some ([], cur)
  | p :: l' =>
      if negb (sacked p) && negb (lost p) then
        cur' ← checked_sub cur (zlen (s_payload p));
        '(l'', cur'') ← lose_all l' cur';
        Some (mkSent (seq p) (s_kind p) (s_payload p) (sent_at p) (transmissions p) (sacked p) true :: l'', cur'')
      else
        '(l'', cur'') ← lose_all l' cur;
        Some (p :: l'', cur'')
  end.

Definition on_timeout (c : Connection) (now : Z) : option Connection :=
  if bool_decide (state c = Connecting) then
    if MAX_SYN_ATTEMPTS <=? syn_attempts (tmr c) then Some (fail c TimedOut)
    else
      let c := with_tmr c (set_rto (tmr c) (Z.min (rto (tmr c) * 2) MAX_RTO)) in
      let c := match in_flight (snd_ c) with
               | [] => c
               | syn :: rest =>
                   with_snd c (set_in_flight (snd_ c)
                     (mkSent (seq syn) (s_kind syn) (s_payload syn) now (transmissions syn + 1) (sacked syn) (lost syn) :: rest))
               end in
      send_syn_again c now
  else
    let c := with_tmr c (set_timeouts (tmr c) (timeouts (tmr c) + 1)) in
    if MAX_TIMEOUTS <? timeouts (tmr c) then Some (fail c TimedOut)
    else
      '(l, cur) ← lose_all (in_flight (snd_ c)) (cur_window (snd_ c));
      let c := with_snd c (set_cur_window (set_in_flight (snd_ c) l) cur) in
      let t := tmr c in
      let t := set_ssthresh t (f_max (f_div (max_window t) (f_of_Z 2)) (f_mul (f_of_Z 2) MIN_WINDOW)) in
      let t := set_slow_start (set_max_window t MIN_WINDOW) true in
      let t := set_rto t (Z.min (rto t * 2) MAX_RTO) in
      Some (with_tmr c (set_rto_deadline t (Some (now + rto t)))).

(** ** Sending what the window allows *)

(** The loop over the lost packets: the packets, the window, and what to send
    again; it stops at the first that does not fit. *)
Fixpoint resend_lost (now window : Z) (l : list Sent) (cur : Z) : list Sent * Z * list (PacketType * Z * list Z) :=
  match l with
  | [] => ([], cur, [])
  | p :: l' =>
      if negb (lost p) then
        let '(l'', cur', out) := resend_lost now window l' cur in (p :: l'', cur', out)
      else if (window <? cur + zlen (s_payload p)) && (0 <? cur) then (l, cur, [])
      else
        let '(l'', cur', out) := resend_lost now window l' (cur + zlen (s_payload p)) in
        (mkSent (seq p) (s_kind p) (s_payload p) now (transmissions p + 1) (sacked p) false :: l'', cur',
         (s_kind p, seq p, s_payload p) :: out)
  end.

Fixpoint queue_all (c : Connection) (now : Z) (l : list (PacketType * Z * list Z)) : option Connection :=
  match l with
  | [] => Some c
  | (k, sq, data) :: l' => c ← queue c now k sq data; queue_all c now l'
  end.

(** The loop over new data: each pass takes at least a byte. *)
Fixpoint send_new (fuel : nat) (c : Connection) (now window : Z) : option Connection :=
  match outbox (snd_ c) with
  | [] => Some c
  | _ =>
      match fuel with
      | O => None
      | S fuel' =>
          let s := snd_ c in
          let n := Z.min (zlen (outbox s)) MAX_PAYLOAD in
          let probe := (cur_window s =? 0) &&
            match last_data_sent s with None => true | Some at_ => rto (tmr c) <=? since now at_ end in
          if (window <? cur_window s + n) && negb probe then Some c
          else
            let data := take (Z.to_nat n) (outbox s) in
            let sq := seq_nr s in
            let s := set_outbox s (drop (Z.to_nat n) (outbox s)) in
            let s := set_cur_window (push_sent s now Data data) (cur_window s + n) in
            let s := set_last_data_sent (set_seq_nr s (wrap 16 (seq_nr s + 1))) (Some now) in
            c ← queue (with_snd c s) now Data sq data;
            send_new fuel' c now window
      end
  end.

Definition send_pending (c : Connection) (now : Z) : option Connection :=
  let window := Z.min (f_to_usize (max_window (tmr c))) (peer_window (snd_ c)) in
  let '(l, cur, out) := resend_lost now window (in_flight (snd_ c)) (cur_window (snd_ c)) in
  let c := with_snd c (set_cur_window (set_in_flight (snd_ c) l) cur) in
  c ← queue_all c now out;
  c ← send_new (length (outbox (snd_ c))) c now window;
  c ← (if fin_pending (snd_ c) && negb (fin_sent (snd_ c)) && bool_decide (outbox (snd_ c) = []) then
         let s := snd_ c in
         let sq := seq_nr s in
         let s := set_fin_sent (push_sent s now Fin []) true in
         let s := set_seq_nr s (wrap 16 (seq_nr s + 1)) in
         queue (with_snd c s) now Fin sq []
       else Some c);
  Some (match rto_deadline (tmr c), in_flight (snd_ c) with
        | None, _ :: _ => with_tmr c (set_rto_deadline (tmr c) (Some (now + rto (tmr c))))
        | _, _ => c
        end).

Definition finish_if_done (c : Connection) : Connection :=
  if fin_acked (snd_ c) && peer_closed (rcv c) && bool_decide (state c = Open)
  then with_state c Ended (error c) else c.

Definition flush (c : Connection) (now : Z) : option Connection :=
  c ← (if bool_decide (state c = Open) then send_pending c now else Some c);
  c ← (if ack_pending (rcv c) && negb (bool_decide (state c = Ended)) then send_state c now else Some c);
  Some (finish_if_done c).

(** ** The clock and the network *)

Definition on_tick (c : Connection) (now : Z) : option Connection :=
  if bool_decide (state c = Ended) then Some c
  else if DEAD_AFTER <=? since now (last_heard (tmr c)) then Some (fail c TimedOut)
  else
    c ← (match rto_deadline (tmr c) with
         | Some deadline => if deadline <=? now then on_timeout c now else Some c
         | None => Some c
         end);
    c ← (if bool_decide (state c = Open) && (KEEPALIVE <=? since now (last_sent (tmr c)))
         then send_state c now else Some c);
    flush c now.

Definition on_packet (c : Connection) (now : Z) (packet : Packet) : option Connection :=
  if bool_decide (state c = Ended) then
    if bool_decide (error c = None) && (bool_decide (kind packet = Fin) || bool_decide (kind packet = Data))
    then send_state c now else Some c
  else
    let c := with_tmr c (set_last_heard (tmr c) now) in
    let c := with_rcv c (set_reply_micro (rcv c) (wrap 32 (micros c now - timestamp packet))) in
    if bool_decide (kind packet = Reset) then
      let c := with_snd c (set_cur_window (set_in_flight (snd_ c) []) 0) in
      Some (fail c (if bool_decide (state c = Connecting) then ConnectionRefused else ConnectionReset))
    else if bool_decide (state c = Connecting) then
      c ← (if bool_decide (kind packet = State) then
             let c := with_state c Open (error c) in
             let c := with_rcv c (set_ack_nr (rcv c) (wrap 16 (UtpPacket.seq_nr packet - 1))) in
             let c := with_snd c (set_peer_window (snd_ c) (wnd_size packet)) in
             process_ack c now packet
           else Some c);
      flush c now
    else
      let c := with_snd c (set_peer_window (snd_ c) (wnd_size packet)) in
      c ← process_ack c now packet;
      c ← (match kind packet with
           | Data | Fin => r ← receive (rcv c) packet; Some (with_rcv c r)
           | Syn => Some (with_rcv c (set_ack_pending (rcv c) true))
           | State | Reset => Some c
           end);
      flush c now.

(** ** What the owner asks of it *)

Definition take_outgoing (c : Connection) : Connection * list (list Z) := (with_outgoing c [], outgoing c).

(** Bytes in flight: [in_flight.iter().map(|p| p.payload.len()).sum()]. *)
Definition flight_bytes (l : list Sent) : Z := foldr (fun p acc => zlen (s_payload p) + acc) 0 l.

Definition writable (c : Connection) : Z :=
  if bool_decide (state c = Ended) || fin_pending (snd_ c) then 0
  else u_saturating_sub SEND_BUFFER (zlen (outbox (snd_ c)) + flight_bytes (in_flight (snd_ c))).

Definition write (c : Connection) (data : list Z) : Connection * Z :=
  if bool_decide (state c = Ended) || fin_pending (snd_ c) then (c, 0)
  else
    let queued := zlen (outbox (snd_ c)) + flight_bytes (in_flight (snd_ c)) in
    let n := Z.min (zlen data) (u_saturating_sub SEND_BUFFER queued) in
    (with_snd c (set_outbox (snd_ c) (outbox (snd_ c) ++ take (Z.to_nat n) data)), n).

(** [read] into a buffer of [len] bytes: what it holds after. *)
Definition read (c : Connection) (len : Z) : Connection * list Z :=
  let r := rcv c in
  let before := receive_window r in
  let n := Z.min len (zlen (inbox r)) in
  let out := take (Z.to_nat n) (inbox r) in
  let r := mkReceiving (ack_nr r) (drop (Z.to_nat n) (inbox r)) (reorder r) (reorder_bytes r)
             (fin_seq r) (peer_closed r) (ack_pending r) (reply_micro r) in
  let r := if (0 <? n) && (before <? MAX_PACKET) && (MAX_PACKET <=? receive_window r)
           then set_ack_pending r true else r in
  (with_rcv c r, out).

Definition readable (c : Connection) : Z := zlen (inbox (rcv c)).

Definition is_eof (c : Connection) : bool := peer_closed (rcv c) && bool_decide (inbox (rcv c) = []).

Definition is_finished (c : Connection) : bool := bool_decide (state c = Ended).

Definition is_flushed (c : Connection) : bool :=
  bool_decide (outbox (snd_ c) = []) && forallb (fun p => negb (bool_decide (s_kind p = Data))) (in_flight (snd_ c)).

Definition close (c : Connection) : Connection := with_snd c (set_fin_pending (snd_ c) true).

Definition abort (c : Connection) (now : Z) : option Connection :=
  c ← (if negb (bool_decide (state c = Ended)) then queue c now Reset (seq_nr (snd_ c)) [] else Some c);
  Some (fail c ConnectionAborted).

Definition next_timeout (c : Connection) : option Z :=
  if bool_decide (state c = Ended) then None
  else
    let keepalive := last_sent (tmr c) + KEEPALIVE in
    let dead := last_heard (tmr c) + DEAD_AFTER in
    Some (match rto_deadline (tmr c) with
          | Some d => Z.min d (Z.min keepalive dead)
          | None => Z.min keepalive dead
          end).

(** ** Accounting for what is in flight *)

(** What a packet counts for in the window. *)
Definition weight (p : Sent) : Z := if in_network p then zlen (s_payload p) else 0.

Definition net_bytes (l : list Sent) : Z := foldr (fun p acc => weight p + acc) 0 l.

(** What never changes of a packet in flight. *)
Definition ident (p : Sent) : Z * PacketType * list Z := (seq p, s_kind p, s_payload p).

Definition payloads (l : list Sent) : list Z := concat (s_payload <$> l).

Lemma weight_nonneg p : 0 <= weight p.
Proof. unfold weight. destruct (in_network p); [apply zlen_nonneg | lia]. Qed.

Lemma net_bytes_nonneg l : 0 <= net_bytes l.
Proof. induction l as [| p l IH]; simpl; [lia |]. pose proof (weight_nonneg p). lia. Qed.

Lemma net_bytes_app l k : net_bytes (l ++ k) = net_bytes l + net_bytes k.
Proof. induction l as [| p l IH]; simpl; lia. Qed.

Lemma flight_bytes_app l k : flight_bytes (l ++ k) = flight_bytes l + flight_bytes k.
Proof. induction l as [| p l IH]; simpl; lia. Qed.

Lemma flight_bytes_nonneg l : 0 <= flight_bytes l.
Proof. induction l as [| p l IH]; simpl; [lia |]. pose proof (zlen_nonneg (s_payload p)). lia. Qed.

Lemma payloads_app l k : payloads (l ++ k) = payloads l ++ payloads k.
Proof. unfold payloads. by rewrite fmap_app, concat_app. Qed.

Lemma same_ident (l l' : list Sent) :
  ident <$> l = ident <$> l' -> payloads l = payloads l' /\ flight_bytes l = flight_bytes l'.
Proof.
  revert l'. induction l as [| p l IH]; intros [| p' l'] H; try discriminate H; [done |].
  rewrite !fmap_cons in H. injection H as _ _ Hp Hl. destruct (IH l' Hl) as [IH1 IH2].
  unfold payloads in *. rewrite !fmap_cons. simpl. rewrite Hp, IH1, IH2. done.
Qed.

Lemma ident_insert (l : list Sent) (i : nat) p q : l !! i = Some p -> ident q = ident p -> ident <$> <[i := q]> l = ident <$> l.
Proof.
  intros Hi Hq. rewrite list_fmap_insert, Hq. apply list_insert_id. by rewrite list_lookup_fmap, Hi.
Qed.

Lemma net_bytes_insert (l : list Sent) (i : nat) p q :
  l !! i = Some p -> net_bytes (<[i := q]> l) = net_bytes l - weight p + weight q /\ weight p <= net_bytes l.
Proof.
  revert i. induction l as [| x l IH]; intros [| i] Hi; simplify_eq/=.
  - pose proof (net_bytes_nonneg l). lia.
  - destruct (IH i Hi) as [H1 H2]. pose proof (weight_nonneg x). lia.
Qed.

(** A packet the peer has is not counted as lost, and only data packets carry
    bytes of the stream. *)
Definition clean (l : list Sent) : Prop :=
  Forall (fun p => sacked p && lost p = false /\ (s_kind p <> Data -> s_payload p = [])) l.

Lemma checked_sub_ok a b : b <= a -> checked_sub a b = Some (a - b).
Proof. intros. unfold checked_sub. by rewrite (proj2 (Z.ltb_ge _ _)). Qed.

Lemma pop_acked_spec now ack l acked sample fin :
  exists l' acked' sample' fin' pre,
    pop_acked now ack l (net_bytes l) acked sample fin = Some (l', net_bytes l', acked', sample', fin') /\ l = pre ++ l'.
Proof.
  revert acked sample fin. induction l as [| p l IH]; intros acked sample fin.
  { exists [], acked, sample, fin, []. done. }
  cbn [pop_acked net_bytes foldr]. fold (net_bytes l).
  destruct (negb (seq_le (seq p) ack)).
  { exists (p :: l), acked, sample, fin, []. done. }
  unfold weight. destruct (in_network p).
  - rewrite checked_sub_ok by (pose proof (net_bytes_nonneg l); lia). cbn [mbind option_bind].
    replace (zlen (s_payload p) + net_bytes l - zlen (s_payload p)) with (net_bytes l) by lia.
    destruct (IH (if negb (sacked p) then acked + zlen (s_payload p) else acked)
                 (if (transmissions p =? 1) && negb (sacked p) then Some (since now (sent_at p)) else sample)
                 (if bool_decide (s_kind p = Fin) then true else fin)) as (l' & a & s & f & pre & -> & ->).
    exists l', a, s, f, (p :: pre). done.
  - cbn [mbind option_bind]. rewrite Z.add_0_l.
    destruct (IH (if negb (sacked p) then acked + zlen (s_payload p) else acked)
                 (if (transmissions p =? 1) && negb (sacked p) then Some (since now (sent_at p)) else sample)
                 (if bool_decide (s_kind p = Fin) then true else fin)) as (l' & a & s & f & pre & -> & ->).
    exists l', a, s, f, (p :: pre). done.
Qed.

Lemma mark_sacked_spec now sq (l : list Sent) acked sample :
  exists l' acked' sample',
    mark_sacked now sq (l, net_bytes l, acked, sample) = Some (l', net_bytes l', acked', sample') /\
    ident <$> l' = ident <$> l /\ (clean l -> clean l').
Proof.
  unfold mark_sacked. destruct (list_find _ l) as [[i p] |] eqn:E; [| by exists l, acked, sample].
  apply list_find_Some in E as (Hi & _ & _). destruct (sacked p) eqn:Hs; [by exists l, acked, sample |].
  set (q := mkSent (seq p) (s_kind p) (s_payload p) (sent_at p) (transmissions p) true false).
  destruct (net_bytes_insert l i p q Hi) as [Hnet Hle].
  assert (weight q = 0) as Hq by done.
  assert ((if in_network p then checked_sub (net_bytes l) (zlen (s_payload p)) else Some (net_bytes l)) =
          Some (net_bytes (<[i := q]> l))) as ->.
  { rewrite Hnet, Hq. unfold weight in *. destruct (in_network p); [rewrite checked_sub_ok by lia |]; f_equal; lia. }
  eexists _, _, _. split; [reflexivity |]. split; [by apply (ident_insert l i p q) |].
  intros Hc. apply Forall_insert; [done |]. split; [done |]. cbn [s_kind s_payload q].
  exact (proj2 (proj1 (Forall_lookup _ _) Hc i p Hi)).
Qed.

Lemma mark_all_sacked_spec now seqs (l : list Sent) acked sample :
  exists l' acked' sample',
    mark_all_sacked now seqs (l, net_bytes l, acked, sample) = Some (l', net_bytes l', acked', sample') /\
    ident <$> l' = ident <$> l /\ (clean l -> clean l').
Proof.
  revert l acked sample. induction seqs as [| sq seqs IH]; intros l acked sample; [by exists l, acked, sample |].
  cbn [mark_all_sacked]. destruct (mark_sacked_spec now sq l acked sample) as (l1 & a1 & s1 & -> & H1 & C1).
  cbn [mbind option_bind]. destruct (IH l1 a1 s1) as (l2 & a2 & s2 & -> & H2 & C2). exists l2, a2, s2.
  split_and!; [done | by rewrite H2 | auto].
Qed.

Lemma lose_all_spec (l : list Sent) k :
  0 <= k -> exists l', lose_all l (net_bytes l + k) = Some (l', net_bytes l' + k) /\
    ident <$> l' = ident <$> l /\ (clean l -> clean l').
Proof.
  intros Hk. induction l as [| p l (l' & Hl & Hid & Hcl)]; [by exists [] |].
  cbn [lose_all net_bytes foldr]. fold (net_bytes l).
  pose proof (net_bytes_nonneg l). unfold weight, in_network.
  destruct (negb (sacked p) && negb (lost p)) eqn:E.
  - rewrite checked_sub_ok by lia. cbn [mbind option_bind].
    replace (zlen (s_payload p) + net_bytes l + k - zlen (s_payload p)) with (net_bytes l + k) by lia.
    rewrite Hl. cbn [mbind option_bind]. eexists. split_and!.
    + f_equal. f_equal. cbn [net_bytes foldr]. fold (net_bytes l'). unfold weight, in_network. cbn [sacked lost].
      rewrite andb_false_r. lia.
    + rewrite !fmap_cons. by rewrite Hid.
    + intros [Hp Hc]%Forall_cons. constructor; [| exact (Hcl Hc)]. split; [| apply Hp]. cbn [sacked lost]. by destruct (sacked p).
  - rewrite Z.add_0_l, Hl. cbn [mbind option_bind]. eexists. split_and!.
    + f_equal. f_equal. cbn [net_bytes foldr]. fold (net_bytes l'). unfold weight, in_network. rewrite E. lia.
    + rewrite !fmap_cons. by rewrite Hid.
    + intros [Hp Hc]%Forall_cons. constructor; [done | exact (Hcl Hc)].
Qed.

Lemma resend_lost_spec now window (l : list Sent) k :
  clean l -> 0 <= k -> exists l' out, resend_lost now window l (net_bytes l + k) = (l', net_bytes l' + k, out) /\
    ident <$> l' = ident <$> l /\ clean l' /\ Forall (fun o => o ∈ ((fun p => (s_kind p, seq p, s_payload p)) <$> l)) out.
Proof.
  intros Hc. revert k. induction Hc as [| p l [Hp Hkind] Hc IH]; intros k Hk; [exists [], []; split_and!; done || constructor |].
  cbn [resend_lost net_bytes foldr]. fold (net_bytes l).
  assert (forall (q : Sent) (l' : list Sent), ident q = ident p -> ident <$> l' = ident <$> l -> ident <$> q :: l' = ident <$> p :: l) as Hcons.
  { intros q l' Hq Hl. rewrite !fmap_cons. by rewrite Hq, Hl. }
  assert (forall out, Forall (fun o => o ∈ ((fun p => (s_kind p, seq p, s_payload p)) <$> l)) out ->
                      Forall (fun o => o ∈ ((fun p => (s_kind p, seq p, s_payload p)) <$> p :: l)) out) as Hout.
  { intros out H. apply (Forall_impl _ _ _ H). intros o Ho. rewrite fmap_cons. by right. }
  destruct (lost p) eqn:El; cbn [negb].
  - rewrite andb_true_r in Hp. assert (weight p = 0) as Hw by (unfold weight, in_network; by rewrite El, andb_false_r).
    rewrite Hw, Z.add_0_l. destruct ((_ <? _) && _).
    { exists (p :: l), []. split_and!; [| done | constructor; [split; [by rewrite Hp | done] | done] | constructor].
      cbn [net_bytes foldr]. fold (net_bytes l). rewrite Hw. f_equal. }
    pose proof (zlen_nonneg (s_payload p)).
    destruct (IH (k + zlen (s_payload p)) ltac:(lia)) as (l' & out & Hr & Hid & Hcl & Ho).
    rewrite <- Z.add_assoc, Hr.
    exists (mkSent (seq p) (s_kind p) (s_payload p) now (transmissions p + 1) (sacked p) false :: l'),
      ((s_kind p, seq p, s_payload p) :: out). split_and!.
    + f_equal. f_equal. cbn [net_bytes foldr]. fold (net_bytes l'). unfold weight, in_network. cbn [sacked lost s_payload].
      rewrite Hp. simpl. lia.
    + by apply Hcons.
    + constructor; [| done]. split; [apply andb_false_r | exact Hkind].
    + constructor; [rewrite fmap_cons; by left | auto].
  - pose proof (weight_nonneg p). destruct (IH (k + weight p) ltac:(lia)) as (l' & out & Hr & Hid & Hcl & Ho).
    replace (weight p + net_bytes l + k) with (net_bytes l + (k + weight p)) by lia. rewrite Hr.
    exists (p :: l'), out. split_and!; [| by apply Hcons | constructor; [split; [by rewrite El, andb_false_r | exact Hkind] | done] | auto].
    f_equal. f_equal. cbn [net_bytes foldr]. fold (net_bytes l'). lia.
Qed.

(** ** Accounting for what is held out of order *)

Definition held_bytes (m : list (Z * list Z)) : Z := foldr (fun e acc => zlen e.2 + acc) 0 m.

Lemma held_bytes_nonneg m : 0 <= held_bytes m.
Proof. induction m as [| e m IH]; simpl; [lia |]. pose proof (zlen_nonneg e.2). lia. Qed.

Lemma held_bytes_insert m k v : bt_get m k = None -> held_bytes (bt_insert m k v) = zlen v + held_bytes m.
Proof.
  induction m as [| [k' v'] m IH]; simpl; [lia |]. destruct (kcmp k k'); simpl; [done | lia |].
  intros H. rewrite IH by done. lia.
Qed.

Lemma held_bytes_remove m k v :
  bt_get m k = Some v -> held_bytes m = zlen v + held_bytes (bt_remove m k) /\ length m = S (length (bt_remove m k)).
Proof.
  induction m as [| [k' v'] m IH]; simpl; [done |]. destruct (kcmp k k'); simpl; [| done |].
  - intros [= ->]. lia.
  - intros H. destruct (IH H). lia.
Qed.

(** Sequence numbers round the circle. *)
Lemma ahead_next r s :
  1 <= wrap 16 (s - ack_nr r) -> wrap 16 (s - wrap 16 (ack_nr r + 1)) = wrap 16 (s - ack_nr r) - 1.
Proof.
  unfold wrap. intros H. pose proof (Z.mod_pos_bound (s - ack_nr r) (2 ^ 16) ltac:(lia)).
  rewrite Zminus_mod_idemp_r. replace (s - (ack_nr r + 1)) with (s - ack_nr r - 1) by lia.
  rewrite <- Zminus_mod_idemp_l. apply Z.mod_small. lia.
Qed.

Lemma ahead_1 a s : u_ok 16 s -> wrap 16 (s - a) = 1 <-> s = wrap 16 (a + 1).
Proof.
  unfold wrap, u_ok. intros Hs. split.
  - intros H. rewrite <- (Z.mod_small s (2 ^ 16)) by lia. rewrite <- H. rewrite Zplus_mod_idemp_r. f_equal. lia.
  - intros ->. rewrite Zminus_mod_idemp_l. by replace (a + 1 - a) with 1 by lia.
Qed.

(** [ack_nr], [inbox], [reorder], [reorder_bytes], [fin_seq], [peer_closed]:
    everything of the receiving side but the pending ack and the clock. *)
Definition core (r : Receiving) : Z * list Z * list (Z * list Z) * Z * option Z * bool :=
  (ack_nr r, inbox r, reorder r, reorder_bytes r, fin_seq r, peer_closed r).

Record held_ok (lo : Z) (r : Receiving) : Prop := {
  hok_ack : u_ok 16 (ack_nr r);
  hok_sorted : bt_sorted (reorder r);
  hok_keys : Forall (fun e => u_ok 16 e.1 /\ lo <= wrap 16 (e.1 - ack_nr r) <= REORDER_WINDOW) (reorder r);
  hok_bytes : reorder_bytes r = held_bytes (reorder r);
  hok_room : zlen (inbox r) + reorder_bytes r <= RECEIVE_BUFFER
}.

Abbreviation rcv_ok := (held_ok 2).

Lemma held_ok_core lo r r' : core r = core r' -> held_ok lo r -> held_ok lo r'.
Proof. intros [= E1 E2 E3 E4 E5 E6] []. split; congruence || (rewrite <- ?E1, <- ?E2, <- ?E3, <- ?E4; done). Qed.

Lemma bt_get_key (m : list (Z * list Z)) k v : bt_get m k = Some v -> (k, v) ∈ m.
Proof.
  induction m as [| [k' v'] m IH]; simpl; [done |]. destruct (kcmp k k') eqn:E; [| done |].
  - apply kcmp_eq_iff in E as ->. intros [= ->]. left.
  - intros H. right. auto.
Qed.

Lemma drain_reorder_ok fuel r :
  held_ok 1 r -> (length (reorder r) <= fuel)%nat -> exists r', drain_reorder fuel r = Some r' /\ rcv_ok r'.
Proof.
  revert r. induction fuel as [| fuel IH]; intros r Hr Hf; cbn [drain_reorder];
    (destruct (bt_get (reorder r) (wrap 16 (ack_nr r + 1))) as [v |] eqn:E;
     [| exists r; split; [done |]; destruct Hr as [H1 H2 H3 H4 H5]; split; try done;
        rewrite Forall_forall in *; intros e He; destruct (H3 e He) as [Hu Hk]; split; [done |];
        destruct (decide (wrap 16 (e.1 - ack_nr r) = 1)) as [Hone |]; [| lia];
        apply ahead_1 in Hone; [| done]; exfalso; apply (bt_sorted_get_None _ _ H2) in E; apply E;
        rewrite <- Hone; by apply list_elem_of_fmap_2]).
  - destruct (held_bytes_remove _ _ _ E) as [_ Hl]. lia.
  - destruct Hr as [H1 H2 H3 H4 H5]. destruct (held_bytes_remove _ _ _ E) as [Hb Hl].
    pose proof (held_bytes_nonneg (bt_remove (reorder r) (wrap 16 (ack_nr r + 1)))).
    rewrite checked_sub_ok by lia. cbn [mbind option_bind].
    apply IH; [| cbn [reorder]; lia]. split; cbn [ack_nr inbox reorder reorder_bytes].
    + unfold wrap, u_ok. apply Z.mod_pos_bound. lia.
    + by apply bt_remove_sorted.
    + apply Forall_forall. intros e He.
      assert (e ∈ reorder r) as Hin.
      { pose proof (bt_remove_Forall (fun x => x ∈ reorder r) (reorder r) (wrap 16 (ack_nr r + 1))
          (proj2 (Forall_forall _ _) (fun x Hx => Hx))) as Hall. by apply (proj1 (Forall_forall _ _) Hall e He). }
      destruct (proj1 (Forall_forall _ _) H3 e Hin) as [Hu Hk]. split; [done |].
      assert (e.1 <> wrap 16 (ack_nr r + 1)) as Hne.
      { intros Heq. pose proof (bt_get_remove_eq (reorder r) (wrap 16 (ack_nr r + 1)) H2) as Hnone.
        destruct e as [k x]. simpl in Heq. subst k. apply bt_get_elem in He; [congruence | by apply bt_remove_sorted]. }
      rewrite ahead_next by lia.
      assert (wrap 16 (e.1 - ack_nr r) <> 1) by (rewrite ahead_1 by done; done). lia.
    + lia.
    + rewrite zlen_app. lia.
Qed.

Lemma receive_window_le r : held_ok 2 r -> receive_window r = RECEIVE_BUFFER - (zlen (inbox r) + reorder_bytes r).
Proof. intros Hr. unfold receive_window, u_saturating_sub. pose proof (hok_room _ _ Hr). lia. Qed.

Lemma receive_ok r p : rcv_ok r -> packet_ok p -> exists r', receive r p = Some r' /\ rcv_ok r'.
Proof.
  intros Hr Hp. unfold receive. set (r1 := set_ack_pending r true).
  assert (rcv_ok r1) as Hr1 by (by apply (held_ok_core 2 r)).
  destruct ((wrap 16 (UtpPacket.seq_nr p - ack_nr r) =? 0) || _) eqn:Efar; [by exists r1 |].
  destruct (Z.ltb_spec (receive_window r1) (zlen (payload p))) as [| Hroom]; [by exists r1 |].
  rewrite receive_window_le in Hroom by done.
  set (r2 := if bool_decide (kind p = Fin) then _ else r1).
  assert (rcv_ok r2 /\ ack_nr r2 = ack_nr r /\ inbox r2 = inbox r /\ reorder_bytes r2 = reorder_bytes r) as (Hr2 & Ea & Ei & Eb).
  { unfold r2. case_bool_decide; (split; [| done]); [destruct Hr1; by split | done]. }
  apply orb_false_iff in Efar as [E0 E64]. apply Z.eqb_neq in E0. apply Z.ltb_ge in E64.
  pose proof (Z.mod_pos_bound (UtpPacket.seq_nr p - ack_nr r) (2 ^ 16) ltac:(lia)) as Hpos. fold (wrap 16 (UtpPacket.seq_nr p - ack_nr r)) in Hpos.
  assert (exists r3, (if wrap 16 (UtpPacket.seq_nr p - ack_nr r) =? 1 then
         drain_reorder (length (reorder r2))
           (mkReceiving (UtpPacket.seq_nr p) (inbox r2 ++ payload p) (reorder r2) (reorder_bytes r2)
              (fin_seq r2) (peer_closed r2) (ack_pending r2) (reply_micro r2))
       else
         match bt_get (reorder r2) (UtpPacket.seq_nr p) with
         | Some _ => Some r2
         | None =>
             Some (mkReceiving (ack_nr r2) (inbox r2)
                     (bt_insert (reorder r2) (UtpPacket.seq_nr p) (payload p))
                     (reorder_bytes r2 + zlen (payload p))
                     (fin_seq r2) (peer_closed r2) (ack_pending r2) (reply_micro r2))
         end) = Some r3 /\ rcv_ok r3) as (r3 & -> & Hr3).
  { destruct Hr2 as [H1 H2 H3 H4 H5]. cbn [inbox reorder_bytes r1 set_ack_pending] in Hroom.
    destruct (Z.eqb_spec (wrap 16 (UtpPacket.seq_nr p - ack_nr r)) 1) as [Hone | Hone].
    - apply drain_reorder_ok; [| done]. pose proof (ok_seq _ Hp) as Hseq.
      apply ahead_1 in Hone; [| done]. split; cbn [ack_nr inbox reorder reorder_bytes]; [done | done | | done |].
      + apply Forall_forall. intros e He. destruct (proj1 (Forall_forall _ _) H3 e He) as [Hu Hk]. split; [done |].
        rewrite Hone, <- Ea, ahead_next by lia. lia.
      + rewrite zlen_app, Ei, Eb. lia.
    - destruct (bt_get (reorder r2) (UtpPacket.seq_nr p)) eqn:Eg; [by exists r2; split; [| split] |].
      eexists. split; [done |]. split; cbn [ack_nr inbox reorder reorder_bytes]; [done | by apply bt_insert_sorted | | |].
      + apply bt_insert_Forall; [| done]. simpl. split; [apply Hp |]. rewrite Ea. unfold REORDER_WINDOW in *. lia.
      + rewrite held_bytes_insert by done. lia.
      + rewrite Ei, Eb. lia. }
  cbn [mbind option_bind]. eexists. split; [done |]. case_bool_decide; [destruct Hr3; by split | done].
Qed.

Lemma set_sack_bits_ok r keys mask :
  Forall (fun k => 2 <= ahead_of r k) keys -> exists mask', set_sack_bits r keys mask = Some mask' /\ length mask' = length mask.
Proof.
  intros Hk. revert mask. induction Hk as [| k keys Hk _ IH]; intros mask; [by exists mask |].
  cbn [set_sack_bits]. rewrite checked_sub_ok by lia. cbn [mbind option_bind].
  destruct (IH (alter (fun byte => Z.lor byte (Z.shiftl 1 ((ahead_of r k - 2) mod 8))) (Z.to_nat ((ahead_of r k - 2) / 8)) mask))
    as (m & -> & Hl). exists m. by rewrite Hl, length_alter.
Qed.

Lemma selective_ack_ok r : rcv_ok r -> exists mask, selective_ack r = Some mask /\ (length mask <= MAX_SACK_BYTES)%nat.
Proof.
  intros Hr. unfold selective_ack.
  assert (Forall (fun k => 2 <= ahead_of r k) (reorder r).*1) as Hk.
  { apply Forall_fmap. apply (Forall_impl _ _ _ (hok_keys _ _ Hr)). intros e [_ ?]. simpl. unfold ahead_of. lia. }
  destruct ((reorder r).*1) as [| k keys] eqn:E; [exists []; simpl; split; [done | lia] |].
  assert (2 <= foldr Z.max 0 (ahead_of r <$> k :: keys)) as Hspan.
  { apply Forall_cons in Hk as [Hk _]. simpl. lia. }
  rewrite checked_sub_ok by lia. cbn [mbind option_bind].
  destruct (set_sack_bits_ok r (k :: keys) (replicate (Z.to_nat (Z.min (Z.max (div_ceil (foldr Z.max 0 (ahead_of r <$> k :: keys) - 1) 32) 1 * 4)
    (Z.of_nat MAX_SACK_BYTES))) 0) Hk) as (mask & -> & Hl).
  exists mask. split; [done |]. rewrite Hl, length_replicate. lia.
Qed.

(** ** The connection *)

(** What was written and is not yet acknowledged, in order. *)
Definition unacked (s : Sending) : list Z := payloads (in_flight s) ++ outbox s.

Record snd_ok (s : Sending) : Prop := {
  sok_window : cur_window s = net_bytes (in_flight s);
  sok_clean : clean (in_flight s);
  sok_room : zlen (unacked s) <= SEND_BUFFER
}.

Record conn_ok (c : Connection) : Prop := {
  cok_snd : snd_ok (snd_ c);
  cok_rcv : rcv_ok (rcv c)
}.

Lemma flight_bytes_payloads l : flight_bytes l = zlen (payloads l).
Proof.
  induction l as [| p l IH]; [done |]. unfold payloads in *. rewrite fmap_cons. simpl. rewrite zlen_app. lia.
Qed.

(** A step that sends, and changes neither what was received nor what there is
    to send. *)
Record keeps (c c' : Connection) : Prop := {
  keep_ok : conn_ok c';
  keep_core : core (rcv c') = core (rcv c);
  keep_unacked : unacked (snd_ c') = unacked (snd_ c);
  keep_state : state c' = state c;
  keep_error : error c' = error c;
  keep_heard : last_heard (tmr c') = last_heard (tmr c)
}.

Lemma keeps_refl c : conn_ok c -> keeps c c.
Proof. by split. Qed.

Lemma keeps_trans c1 c2 c3 : keeps c1 c2 -> keeps c2 c3 -> keeps c1 c3.
Proof. intros [] []. split; congruence. Qed.

(** Timers do not matter to the accounting. *)
Lemma keeps_tmr c t : conn_ok c -> last_heard t = last_heard (tmr c) -> keeps c (with_tmr c t).
Proof. intros [Hs Hr] Ht. by split; [split |..]. Qed.

Lemma keeps_snd c s : snd_ok s -> rcv_ok (rcv c) -> unacked s = unacked (snd_ c) -> keeps c (with_snd c s).
Proof. intros Hs Hr Hu. by split; [split |..]. Qed.

Lemma queue_spec c now k sq data :
  rcv_ok (rcv c) -> exists c', queue c now k sq data = Some c' /\ snd_ c' = snd_ c /\ core (rcv c') = core (rcv c) /\
    state c' = state c /\ error c' = error c /\ last_heard (tmr c') = last_heard (tmr c) /\ rto (tmr c') = rto (tmr c).
Proof.
  intros Hr. unfold queue.
  assert (exists mask, (if bool_decide (k = State) then selective_ack (rcv c) else Some []) = Some mask) as [mask ->].
  { case_bool_decide; [| by eexists]. destruct (selective_ack_ok _ Hr) as (m & -> & _). by eexists. }
  cbn [mbind option_bind]. eexists. split; [done |]. by destruct k.
Qed.

Lemma queue_keeps c now k sq data : conn_ok c -> exists c', queue c now k sq data = Some c' /\ keeps c c' /\ snd_ c' = snd_ c.
Proof.
  intros [Hs Hr]. destruct (queue_spec c now k sq data Hr) as (c' & Hq & H1 & H2 & H3 & H4 & H5 & _). exists c'.
  split_and!; [done | | done]. split; try done; [| by rewrite H1].
  split; [by rewrite H1 | by apply (held_ok_core 2 (rcv c))].
Qed.

Lemma send_state_keeps c now : conn_ok c -> exists c', send_state c now = Some c' /\ keeps c c'.
Proof. intros Hc. destruct (queue_keeps c now State (seq_nr (snd_ c)) [] Hc) as (c' & ? & ? & _). by exists c'. Qed.

Lemma queue_all_keeps l c now : conn_ok c -> exists c', queue_all c now l = Some c' /\ keeps c c' /\ snd_ c' = snd_ c.
Proof.
  revert c. induction l as [| [[k sq] data] l IH]; intros c Hc; [exists c; split_and!; [done | by apply keeps_refl | done] |].
  cbn [queue_all]. destruct (queue_keeps c now k sq data Hc) as (c1 & -> & K1 & S1). cbn [mbind option_bind].
  destruct (IH c1 (keep_ok _ _ K1)) as (c2 & -> & K2 & S2). exists c2.
  split_and!; [done | by eapply keeps_trans | congruence].
Qed.

(** A packet added to those in flight. *)
Lemma push_sent_spec s now k data :
  snd_ok s -> (k <> Data -> data = []) -> net_bytes (in_flight (push_sent s now k data)) = cur_window s + zlen data /\
    clean (in_flight (push_sent s now k data)) /\
    payloads (in_flight (push_sent s now k data)) = payloads (in_flight s) ++ data.
Proof.
  intros [Hw Hc _] Hk. unfold push_sent. cbn [in_flight set_in_flight]. split_and!.
  - rewrite net_bytes_app, Hw. cbn [net_bytes foldr]. unfold weight. cbn. lia.
  - apply Forall_app. split; [done |]. by apply Forall_singleton.
  - rewrite payloads_app. unfold payloads at 2. simpl. by rewrite app_nil_r.
Qed.

Lemma send_new_keeps fuel c now window :
  conn_ok c -> (length (outbox (snd_ c)) <= fuel)%nat -> exists c', send_new fuel c now window = Some c' /\ keeps c c'.
Proof.
  revert c. induction fuel as [| fuel IH]; intros c Hc Hf; cbn [send_new];
    (destruct (outbox (snd_ c)) as [| b ob] eqn:Eo; [exists c; split; [done | by apply keeps_refl] |]); [simpl in Hf; lia |].
  rewrite <- Eo in *. set (s := snd_ c) in *. set (n := Z.min (zlen (outbox s)) MAX_PAYLOAD).
  assert (0 < n <= zlen (outbox s)) as Hn.
  { unfold n, MAX_PAYLOAD, MAX_PACKET, HEADER_LEN. rewrite Eo. pose proof (zlen_nonneg ob). rewrite zlen_cons. lia. }
  destruct (_ && negb _); [exists c; split; [done | by apply keeps_refl] |].
  set (data := take (Z.to_nat n) (outbox s)).
  set (s1 := set_outbox s (drop (Z.to_nat n) (outbox s))).
  set (s2 := set_last_data_sent (set_seq_nr (set_cur_window (push_sent s1 now Data data) (cur_window s1 + n)) _) _).
  destruct Hc as [[Hw Hcl Hroom] Hr]. fold s in Hw, Hcl, Hroom.
  assert (zlen data = n) as Hd by (apply zlen_take; lia).
  assert (unacked s2 = unacked s) as Hu.
  { unfold unacked. cbn [in_flight outbox s2 set_last_data_sent set_seq_nr set_cur_window push_sent set_in_flight s1 set_outbox].
    rewrite payloads_app. unfold payloads at 2. simpl. rewrite app_nil_r, <- app_assoc. unfold data. by rewrite take_drop. }
  assert (snd_ok s2) as Hs2.
  { split.
    - cbn [cur_window in_flight s2 set_last_data_sent set_seq_nr set_cur_window push_sent set_in_flight s1 set_outbox].
      rewrite net_bytes_app, Hw. cbn [net_bytes foldr]. unfold weight. cbn [in_network sacked lost negb andb s_payload]. lia.
    - cbn [in_flight s2 set_last_data_sent set_seq_nr set_cur_window push_sent set_in_flight s1 set_outbox].
      apply Forall_app. split; [done |]. by apply Forall_singleton.
    - by rewrite Hu. }
  pose proof (keeps_snd c s2 Hs2 Hr Hu) as K0.
  destruct (queue_keeps (with_snd c s2) now Data (seq_nr s) data (keep_ok _ _ K0)) as (c1 & Hq & K1 & S1).
  rewrite Hq. cbn [mbind option_bind].
  destruct (IH c1 (keep_ok _ _ K1)) as (c2 & -> & K2).
  { rewrite S1. cbn [outbox snd_ with_snd s2 set_last_data_sent set_seq_nr set_cur_window push_sent set_in_flight s1 set_outbox].
    rewrite length_drop. unfold zlen in Hn. lia. }
  exists c2. split; [done |]. eapply keeps_trans; [exact K0 |]. by eapply keeps_trans.
Qed.

Lemma send_pending_keeps c now : conn_ok c -> exists c', send_pending c now = Some c' /\ keeps c c'.
Proof.
  intros Hc. unfold send_pending. set (window := Z.min _ _). pose proof Hc as [[Hw Hcl Hroom] Hr].
  destruct (resend_lost_spec now window (in_flight (snd_ c)) 0 Hcl ltac:(lia)) as (l & out & E & Hid & Hcl' & _).
  rewrite !Z.add_0_r in E. rewrite Hw, E. destruct (same_ident _ _ Hid) as [Hpay _].
  set (s1 := set_cur_window (set_in_flight (snd_ c) l) (net_bytes l)).
  assert (unacked s1 = unacked (snd_ c)) as Hu by (unfold unacked; simpl; by rewrite Hpay).
  assert (keeps c (with_snd c s1)) as K1.
  { apply keeps_snd; [split; [done | done | by rewrite Hu] | done | done]. }
  destruct (queue_all_keeps out (with_snd c s1) now (keep_ok _ _ K1)) as (c2 & -> & K2 & S2). cbn [mbind option_bind].
  destruct (send_new_keeps (length (outbox (snd_ c2))) c2 now window (keep_ok _ _ K2) ltac:(lia)) as (c3 & -> & K3).
  cbn [mbind option_bind].
  assert (exists c4, (if fin_pending (snd_ c3) && negb (fin_sent (snd_ c3)) && bool_decide (outbox (snd_ c3) = []) then
         queue (with_snd c3 (set_seq_nr (set_fin_sent (push_sent (snd_ c3) now Fin []) true)
                               (wrap 16 (seq_nr (set_fin_sent (push_sent (snd_ c3) now Fin []) true) + 1))))
           now Fin (seq_nr (snd_ c3)) []
       else Some c3) = Some c4 /\ keeps c3 c4) as (c4 & E4 & K4).
  { destruct (_ && _ && _); [| exists c3; split; [done | apply keeps_refl, (keep_ok _ _ K3)]].
    set (s4 := set_seq_nr _ _). destruct (keep_ok _ _ K3) as [Hs3 Hr3].
    destruct (push_sent_spec (snd_ c3) now Fin [] Hs3 (fun _ => eq_refl)) as (P1 & P2 & P3).
    assert (unacked s4 = unacked (snd_ c3)) as Hu4.
    { unfold unacked. cbn [s4 set_seq_nr set_fin_sent in_flight outbox]. rewrite P3. simpl. by rewrite app_nil_r. }
    assert (keeps c3 (with_snd c3 s4)) as K3'.
    { apply keeps_snd; [split | done | done].
      - cbn [s4 set_seq_nr set_fin_sent in_flight cur_window]. rewrite P1. simpl. rewrite zlen_nil. lia.
      - exact P2.
      - rewrite Hu4. apply Hs3. }
    destruct (queue_keeps (with_snd c3 s4) now Fin (seq_nr (snd_ c3)) [] (keep_ok _ _ K3')) as (c4 & -> & K4 & _).
    exists c4. split; [done |]. by eapply keeps_trans. }
  rewrite E4. cbn [mbind option_bind]. eexists. split; [done |].
  eapply keeps_trans; [exact K1 |]. eapply keeps_trans; [exact K2 |]. eapply keeps_trans; [exact K3 |].
  eapply keeps_trans; [exact K4 |]. pose proof (keep_ok _ _ K4) as H4.
  destruct (rto_deadline (tmr c4)); [by apply keeps_refl |]. destruct (in_flight (snd_ c4)); [by apply keeps_refl |].
  by apply keeps_tmr.
Qed.

(** What a step of the machine may do: acknowledge a prefix of what was
    unacknowledged, and move on in the life of the connection. *)
Definition state_le (a b : ConnState) : Prop := a = b \/ b = Ended \/ (a = Connecting /\ b = Open).

Record advances (c c' : Connection) : Prop := {
  adv_ok : conn_ok c';
  adv_unacked : exists acked, unacked (snd_ c) = acked ++ unacked (snd_ c');
  adv_state : state_le (state c) (state c')
}.

Lemma state_le_trans a b c : state_le a b -> state_le b c -> state_le a c.
Proof. unfold state_le. destruct a, b, c; naive_solver. Qed.

Lemma advances_trans c1 c2 c3 : advances c1 c2 -> advances c2 c3 -> advances c1 c3.
Proof.
  intros [_ [a Ha] S1] [H3 [b Hb] S2]. split; [done | | by eapply state_le_trans].
  exists (a ++ b). by rewrite Ha, Hb, app_assoc.
Qed.

Lemma keeps_advances c c' : keeps c c' -> advances c c'.
Proof. intros []. split; [done | exists []; by rewrite keep_unacked0 | by left]. Qed.

(** [flush] sends, then may find the connection over. *)
Lemma flush_spec c now :
  conn_ok c -> exists c', flush c now = Some c' /\ conn_ok c' /\ core (rcv c') = core (rcv c) /\
    unacked (snd_ c') = unacked (snd_ c) /\ (state c' = state c \/ state c' = Ended) /\ error c' = error c /\
    last_heard (tmr c') = last_heard (tmr c).
Proof.
  intros Hc. unfold flush.
  assert (exists c1, (if bool_decide (state c = Open) then send_pending c now else Some c) = Some c1 /\ keeps c c1) as (c1 & -> & K1).
  { case_bool_decide; [by apply send_pending_keeps | exists c; split; [done | by apply keeps_refl]]. }
  cbn [mbind option_bind].
  assert (exists c2, (if ack_pending (rcv c1) && negb (bool_decide (state c1 = Ended)) then send_state c1 now else Some c1) = Some c2
            /\ keeps c1 c2) as (c2 & -> & K2).
  { pose proof (keep_ok _ _ K1) as H1. destruct (_ && _); [by apply send_state_keeps | exists c1; split; [done | by apply keeps_refl]]. }
  cbn [mbind option_bind]. eexists. split; [done |]. destruct (keeps_trans _ _ _ K1 K2) as [Hok Hco Hu Hst He Hh].
  unfold finish_if_done. destruct (_ && _ && _); [| split_and!; done || by left].
  split_and!; try done; [by destruct Hok | by right].
Qed.

Lemma flush_advances c now : conn_ok c -> exists c', flush c now = Some c' /\ advances c c' /\ core (rcv c') = core (rcv c).
Proof.
  intros Hc. destruct (flush_spec c now Hc) as (c' & -> & Hok & Hco & Hu & Hst & _). exists c'.
  split_and!; [done | | done]. split; [done | exists []; by rewrite Hu |]. unfold state_le. naive_solver.
Qed.

Lemma lose_front_keeps c now : conn_ok c -> exists c', lose_front c now = Some c' /\ keeps c c'.
Proof.
  intros Hc. pose proof Hc as [[Hw Hcl Hroom] Hr]. unfold lose_front.
  destruct (list_find _ _) as [[i p] |] eqn:E; [| exists c; split; [done | by apply keeps_refl]].
  apply list_find_Some in E as (Hi & Hs & _).
  destruct ((transmissions p =? 1) && negb (lost p)) eqn:Ec; [| exists c; split; [done | by apply keeps_refl]].
  apply andb_true_iff in Ec as [_ Hl]. apply negb_true_iff in Hl.
  set (q := mkSent (seq p) (s_kind p) (s_payload p) (sent_at p) (transmissions p) (sacked p) true).
  destruct (net_bytes_insert (in_flight (snd_ c)) i p q Hi) as [Hnet Hle].
  assert (weight p = zlen (s_payload p)) as Hwp by (unfold weight, in_network; by rewrite Hs, Hl).
  assert (weight q = 0) as Hwq by (unfold weight, in_network; cbn; by rewrite andb_false_r).
  rewrite checked_sub_ok by (rewrite Hw; lia). cbn [mbind option_bind].
  set (s1 := set_cur_window (set_in_flight (snd_ c) (<[i := q]> (in_flight (snd_ c)))) (cur_window (snd_ c) - zlen (s_payload p))).
  destruct (same_ident (<[i := q]> (in_flight (snd_ c))) (in_flight (snd_ c)) (ident_insert _ i p q Hi eq_refl)) as [Hpay _].
  assert (unacked s1 = unacked (snd_ c)) as Hu by (unfold unacked; cbn [s1 set_cur_window set_in_flight in_flight outbox]; by rewrite Hpay).
  assert (keeps c (with_snd c s1)) as K1.
  { apply keeps_snd; [split | done | done].
    - cbn [s1 set_cur_window set_in_flight in_flight cur_window]. rewrite Hnet, Hw. lia.
    - cbn [s1 set_cur_window set_in_flight in_flight]. apply Forall_insert; [done |]. cbn. rewrite Hs. split; [done |].
      exact (proj2 (proj1 (Forall_lookup _ _) Hcl i p Hi)).
    - by rewrite Hu. }
  eexists. split; [done |]. unfold cut_window. destruct (match last_window_cut _ with Some _ => _ | None => _ end); [exact K1 |].
  eapply keeps_trans; [exact K1 |]. apply keeps_tmr; [apply K1 | done].
Qed.

Lemma process_ack_spec c now p :
  conn_ok c -> exists c', process_ack c now p = Some c' /\ conn_ok c' /\ core (rcv c') = core (rcv c) /\
    (exists acked, unacked (snd_ c) = acked ++ unacked (snd_ c')) /\ state c' = state c /\ error c' = error c /\
    last_heard (tmr c') = last_heard (tmr c).
Proof.
  intros Hc. pose proof Hc as [[Hw Hcl Hroom] Hr]. unfold process_ack.
  destruct (_ && negb (seq_le _ _)); [exists c; split_and!; try done; by exists [] |].
  rewrite Hw. set (s := snd_ c) in *.
  destruct (pop_acked_spec now (UtpPacket.ack_nr p) (in_flight s) 0 None (fin_acked s)) as (l1 & a1 & x1 & f1 & pre & -> & Hl).
  cbn [mbind option_bind].
  destruct (mark_all_sacked_spec now (sack_seqs (UtpPacket.ack_nr p) (sack p)) l1 a1 x1) as (l2 & a2 & x2 & -> & Hid & Hcl2).
  cbn [mbind option_bind]. destruct (same_ident _ _ Hid) as [Hpay _].
  set (s2 := mkSending (seq_nr s) (outbox s) l2 (net_bytes l2) (peer_window s) (fin_pending s) (fin_sent s) f1 (last_data_sent s)).
  assert (unacked s = payloads pre ++ unacked s2) as Hu.
  { unfold unacked. cbn [s2 in_flight outbox]. rewrite Hl, payloads_app, Hpay. by rewrite app_assoc. }
  assert (clean l2) as Hc2 by (apply Hcl2; rewrite Hl in Hcl; by apply Forall_app in Hcl as [_ ?]).
  assert (conn_ok (with_snd c s2)) as H2.
  { split; [split; [done | done |] | done]. change (zlen (unacked s2) <= SEND_BUFFER).
    rewrite Hu, zlen_app in Hroom. pose proof (zlen_nonneg (payloads pre)). lia. }
  assert (forall c3, keeps (with_snd c s2) c3 -> exists c', 
    (c4 ← (if (dup_acks (tmr c3) =? DUP_ACK_THRESHOLD) || (DUP_ACK_THRESHOLD <=? zlen (filter (fun p => sacked p = true) l2))
           then lose_front c3 now else Some c3);
     Some (with_tmr c4 (set_rto_deadline (tmr c4)
            (match in_flight (snd_ c4) with [] => None | _ => Some (now + rto (tmr c4)) end)))) = Some c' /\ keeps (with_snd c s2) c') as Hend.
  { intros c3 K3. pose proof (keep_ok _ _ K3) as H3.
    assert (exists c4, (if (dup_acks (tmr c3) =? DUP_ACK_THRESHOLD) || (DUP_ACK_THRESHOLD <=? zlen (filter (fun p => sacked p = true) l2))
           then lose_front c3 now else Some c3) = Some c4 /\ keeps c3 c4) as (c4 & -> & K4).
    { destruct (_ || _); [by apply lose_front_keeps | exists c3; split; [done | by apply keeps_refl]]. }
    cbn [mbind option_bind]. eexists. split; [done |]. eapply keeps_trans; [exact K3 |]. eapply keeps_trans; [exact K4 |].
    apply keeps_tmr; [apply K4 | done]. }
  match goal with |- context [if _ || _ then lose_front ?c3 now else Some ?c3] => destruct (Hend c3) as (c' & E & K) end.
  { set (cr := match x2 with Some x => _ | None => _ end).
    assert (keeps (with_snd c s2) cr) as Kr.
    { unfold cr. destruct x2; [| by apply keeps_refl]. apply keeps_tmr; [done |]. unfold update_rtt. by destruct (rtt _). }
    set (cw := if 0 <? a2 then _ else _).
    assert (keeps cr cw) as Kw.
    { pose proof (keep_ok _ _ Kr) as Hcr. unfold cw. destruct (0 <? a2).
      - unfold update_window. cbn [tmr with_tmr snd_].
        destruct (slow_start _); [destruct (_ || _) |]; by split; [split; [apply Hcr | apply Hcr] |..].
      - destruct (_ && _ && _); [by apply keeps_tmr | by apply keeps_refl]. }
    pose proof (keeps_trans _ _ _ Kr Kw) as Krw. destruct (seq_le _ _); [| done].
    eapply keeps_trans; [exact Krw |]. by apply keeps_tmr; [apply Krw |]. }
  rewrite E. exists c'. destruct K as [Hok Hco Hun Hst He Hh]. split_and!; try done.
  exists (payloads pre). by rewrite Hun.
Qed.

Lemma fail_advances c e : conn_ok c -> advances c (fail c e) /\ core (rcv (fail c e)) = core (rcv c).
Proof.
  intros [Hs Hr]. split; [| done]. split; [by split | by exists [] | right; by left].
Qed.

Lemma on_timeout_spec c now :
  conn_ok c -> exists c', on_timeout c now = Some c' /\ advances c c' /\ core (rcv c') = core (rcv c).
Proof.
  intros Hc. pose proof Hc as [[Hw Hcl Hroom] Hr]. unfold on_timeout. case_bool_decide as Hst.
  - destruct (_ <=? _); [eexists; split; [done |]; by apply fail_advances |].
    set (c1 := with_tmr c _). set (c2 := match in_flight (snd_ c1) with [] => _ | _ => _ end).
    assert (keeps c c2) as K2.
    { unfold c2. assert (keeps c c1) as K1 by (by apply keeps_tmr). destruct (in_flight (snd_ c1)) as [| p l] eqn:El; [done |].
      eapply keeps_trans; [exact K1 |]. change (in_flight (snd_ c1)) with (in_flight (snd_ c)) in El.
      assert (unacked (set_in_flight (snd_ c1) (mkSent (seq p) (s_kind p) (s_payload p) now (transmissions p + 1) (sacked p) (lost p) :: l)) =
              unacked (snd_ c1)) as Hu.
      { unfold unacked. cbn [in_flight outbox set_in_flight]. change (in_flight (snd_ c1)) with (in_flight (snd_ c)). by rewrite El. }
      apply keeps_snd; [split | done | done].
      - cbn [in_flight cur_window set_in_flight]. change (cur_window (snd_ c1)) with (cur_window (snd_ c)). rewrite Hw, El. done.
      - cbn [in_flight set_in_flight]. rewrite El in Hcl. apply Forall_cons in Hcl as [Hp Hl]. by constructor.
      - by rewrite Hu. }
    unfold send_syn_again. set (c3 := with_tmr c2 _).
    assert (keeps c2 c3) as K3 by (apply keeps_tmr; [apply K2 | done]).
    destruct (queue_keeps c3 now Syn (wrap 16 (seq_nr (snd_ c3) - 1)) [] (keep_ok _ _ K3)) as (c4 & -> & K4 & _).
    cbn [mbind option_bind]. eexists. split; [done |].
    assert (keeps c (with_tmr c4 (set_rto_deadline (tmr c4) (Some (now + rto (tmr c4)))))) as K.
    { eapply keeps_trans; [exact K2 |]. eapply keeps_trans; [exact K3 |]. eapply keeps_trans; [exact K4 |].
      apply keeps_tmr; [apply K4 | done]. }
    split; [by apply keeps_advances | apply K].
  - set (c1 := with_tmr c _). assert (keeps c c1) as K1 by (by apply keeps_tmr).
    destruct (_ <? _).
    { eexists. split; [done |]. destruct (fail_advances c1 TimedOut (keep_ok _ _ K1)) as [A1 C1].
      split; [eapply advances_trans; [by apply keeps_advances | exact A1] | by rewrite C1]. }
    change (in_flight (snd_ c1)) with (in_flight (snd_ c)). change (cur_window (snd_ c1)) with (cur_window (snd_ c)).
    rewrite Hw. destruct (lose_all_spec (in_flight (snd_ c)) 0 ltac:(lia)) as (l & E & Hid & Hcl').
    rewrite !Z.add_0_r in E. rewrite E. cbn [mbind option_bind]. destruct (same_ident _ _ Hid) as [Hpay _].
    eexists. split; [done |].
    set (s2 := set_cur_window (set_in_flight (snd_ c1) l) (net_bytes l)).
    assert (unacked s2 = unacked (snd_ c1)) as Hu.
    { unfold unacked. cbn [s2 set_cur_window set_in_flight in_flight outbox]. rewrite Hpay. done. }
    assert (keeps c1 (with_snd c1 s2)) as K2.
    { apply keeps_snd; [split; [done | exact (Hcl' Hcl) | by rewrite Hu] | done | done]. }
    match goal with |- advances _ (with_tmr _ ?t) /\ _ => assert (keeps c (with_tmr (with_snd c1 s2) t)) as K end.
    { eapply keeps_trans; [exact K1 |]. eapply keeps_trans; [exact K2 |]. apply keeps_tmr; [apply K2 | done]. }
    split; [by apply keeps_advances | apply K].
Qed.

Lemma on_tick_spec c now :
  conn_ok c -> exists c', on_tick c now = Some c' /\ advances c c' /\ core (rcv c') = core (rcv c).
Proof.
  intros Hc. unfold on_tick.
  assert (advances c c) as Arefl by (by apply keeps_advances, keeps_refl).
  case_bool_decide; [by exists c |]. destruct (_ <=? _); [eexists; split; [done |]; by apply fail_advances |].
  assert (exists c1, (match rto_deadline (tmr c) with
         | Some deadline => if deadline <=? now then on_timeout c now else Some c
         | None => Some c
         end) = Some c1 /\ advances c c1 /\ core (rcv c1) = core (rcv c)) as (c1 & -> & A1 & C1).
  { destruct (rto_deadline (tmr c)); [| by exists c]. destruct (_ <=? _); [by apply on_timeout_spec | by exists c]. }
  cbn [mbind option_bind]. pose proof (adv_ok _ _ A1) as H1.
  assert (exists c2, (if bool_decide (state c1 = Open) && (KEEPALIVE <=? since now (last_sent (tmr c1)))
         then send_state c1 now else Some c1) = Some c2 /\ keeps c1 c2) as (c2 & -> & K2).
  { destruct (_ && _); [by apply send_state_keeps | exists c1; split; [done | by apply keeps_refl]]. }
  cbn [mbind option_bind]. destruct (flush_advances c2 now (keep_ok _ _ K2)) as (c3 & -> & A3 & C3).
  exists c3. split_and!; [done | | by rewrite C3, (keep_core _ _ K2)].
  eapply advances_trans; [exact A1 |]. eapply advances_trans; [by apply keeps_advances | exact A3].
Qed.

(** How a packet changes what was received. *)
Inductive received (c : Connection) (p : Packet) (c' : Connection) : Prop :=
| received_nothing : core (rcv c') = core (rcv c) -> received c p c'
| received_first :
    state c = Connecting -> kind p = State ->
    core (rcv c') = core (set_ack_nr (rcv c) (wrap 16 (UtpPacket.seq_nr p - 1))) -> received c p c'
| received_packet r r' :
    state c = Open -> kind p = Data \/ kind p = Fin -> core r = core (rcv c) -> receive r p = Some r' ->
    core (rcv c') = core r' -> received c p c'.

(** Nothing is held out of order before the connection is open. *)
Definition fresh (c : Connection) : Prop := state c = Connecting -> reorder (rcv c) = [].

Lemma fresh_core c c' : fresh c -> core (rcv c') = core (rcv c) -> state_le (state c) (state c') -> fresh c'.
Proof.
  unfold fresh, state_le. intros Hf [= _ _ E _ _ _] Hs Hst. rewrite E. apply Hf. rewrite Hst in Hs. naive_solver.
Qed.

Lemma on_packet_spec c now p :
  conn_ok c -> fresh c -> packet_ok p ->
  exists c', on_packet c now p = Some c' /\ advances c c' /\ received c p c' /\ fresh c'.
Proof.
  intros Hc Hf Hp. unfold on_packet. case_bool_decide as Hend.
  { assert (exists c', (if bool_decide (error c = None) && (bool_decide (kind p = Fin) || bool_decide (kind p = Data))
             then send_state c now else Some c) = Some c' /\ keeps c c') as (c' & -> & K).
    { destruct (_ && _); [by apply send_state_keeps | exists c; split; [done | by apply keeps_refl]]. }
    exists c'. pose proof (keeps_advances _ _ K) as A. split_and!; [done | done | apply received_nothing, K |].
    eapply fresh_core; [exact Hf | apply K | apply A]. }
  set (c1 := with_rcv (with_tmr c (set_last_heard (tmr c) now)) _).
  assert (conn_ok c1 /\ core (rcv c1) = core (rcv c) /\ unacked (snd_ c1) = unacked (snd_ c) /\ state c1 = state c) as (H1 & C1 & U1 & S1).
  { split; [split; [apply Hc | by apply (held_ok_core 2 (rcv c)); [| apply Hc]] | done]. }
  assert (advances c c1) as A1 by (split; [done | by exists [] | by left]).
  assert (fresh c1) as F1 by (eapply fresh_core; [exact Hf | done | by left]).
  assert (forall c2, advances c1 c2 -> core (rcv c2) = core (rcv c) -> fresh c2 -> exists c', flush c2 now = Some c' /\
    advances c c' /\ received c p c' /\ fresh c') as Hflush.
  { intros c2 A2 C2 F2. destruct (flush_advances c2 now (adv_ok _ _ A2)) as (c' & -> & A3 & C3).
    exists c'. split_and!; [done | | by apply received_nothing; congruence |].
    - eapply advances_trans; [exact A1 |]. by eapply advances_trans.
    - eapply fresh_core; [exact F2 | done | apply A3]. }
  case_bool_decide as Hreset.
  { eexists. split; [done |]. set (c2 := with_snd c1 _).
    assert (advances c1 c2) as A2.
    { split; [split; [split; [done | constructor |] | apply H1] | | by left].
      - change (zlen (outbox (snd_ c1)) <= SEND_BUFFER). pose proof (sok_room _ (cok_snd _ H1)) as Hroom.
        unfold unacked in Hroom. rewrite zlen_app in Hroom. pose proof (zlen_nonneg (payloads (in_flight (snd_ c1)))). lia.
      - exists (payloads (in_flight (snd_ c1))). done. }
    destruct (fail_advances c2 (if bool_decide (state c2 = Connecting) then ConnectionRefused else ConnectionReset) (adv_ok _ _ A2)) as [A3 C3].
    split_and!; [eapply advances_trans; [exact A1 |]; by eapply advances_trans | by apply received_nothing | done]. }
  case_bool_decide as Hconn.
  - case_bool_decide as Hstate; [| cbn [mbind option_bind]; apply Hflush; [by apply keeps_advances, keeps_refl | done | done]].
    set (c2 := with_snd (with_rcv (with_state c1 Open (error c1)) _) _).
    assert (conn_ok c2) as H2.
    { destruct H1 as [[Hw Hcl Hroom] [R1 R2 R3 R4 R5]].
      split; [by split |]. assert (reorder (rcv c1) = []) as E by (by apply F1).
      split; cbn [rcv c2 with_snd with_rcv set_ack_nr ack_nr reorder reorder_bytes inbox]; try done.
      - unfold wrap, u_ok. apply Z.mod_pos_bound. lia.
      - change (reorder (rcv (with_state c1 Open (error c1)))) with (reorder (rcv c1)). rewrite E. constructor. }
    destruct (process_ack_spec c2 now p H2) as (c3 & -> & H3 & C3 & (acked & U3) & S3 & _). cbn [mbind option_bind].
    destruct (flush_advances c3 now H3) as (c4 & -> & A4 & C4). exists c4. split_and!; [done | | |].
    + eapply advances_trans; [exact A1 |]. eapply advances_trans; [| exact A4].
      split; [done | exists acked; exact U3 |]. rewrite S3. right. right. split; [exact Hconn | done].
    + apply received_first; [congruence | done |]. by rewrite C4, C3.
    + assert (state c3 = Open) as S3' by (by rewrite S3).
      intros E. destruct (adv_state _ _ A4) as [Hs | [Hs | [Hs _]]]; congruence.
  - assert (state c = Open) as Hopen by (rewrite S1 in Hconn; destruct (state c); done).
    set (c2 := with_snd c1 (set_peer_window (snd_ c1) (wnd_size p))).
    assert (conn_ok c2) as H2 by (destruct H1 as [[] ?]; split; [by split | done]).
    destruct (process_ack_spec c2 now p H2) as (c3 & -> & H3 & C3 & (acked & U3) & S3 & _). cbn [mbind option_bind].
    assert (advances c1 c3) as A3 by (split; [done | by exists acked | left; by rewrite S3]).
    assert (core (rcv c3) = core (rcv c)) as C3' by (by rewrite C3).
    assert (state c3 = Open) as S3' by (rewrite S3; exact Hopen).
    assert (forall c4, conn_ok c4 -> snd_ c4 = snd_ c3 -> state c4 = state c3 -> received c p c4 ->
      exists c', flush c4 now = Some c' /\ advances c c' /\ received c p c' /\ fresh c') as Hlast.
    { intros c4 H4 Sn4 St4 R4. destruct (flush_advances c4 now H4) as (c' & -> & A5 & C5). exists c'.
      assert (advances c3 c4) as A34 by (split; [done | exists []; by rewrite Sn4 | left; congruence]).
      split_and!; [done | | |].
      - eapply advances_trans; [exact A1 |]. eapply advances_trans; [exact A3 |]. by eapply advances_trans.
      - destruct R4 as [R | Hs' Hk R | r r' Hs' Hk Hr Hrec R].
        + apply received_nothing. congruence.
        + congruence.
        + eapply received_packet; try done. congruence.
      - intros E. destruct (adv_state _ _ A5) as [Hs | [Hs | [Hs _]]]; congruence. }
    assert (forall k, kind p = k -> (k = Data \/ k = Fin) -> exists c',
      (c ← (r ← receive (rcv c3) p; Some (with_rcv c3 r)); flush c now) = Some c' /\ advances c c' /\ received c p c' /\ fresh c') as Hrec.
    { intros k Hk Hor. destruct (receive_ok (rcv c3) p (cok_rcv _ H3) Hp) as (r' & E & Hr'). rewrite E. cbn [mbind option_bind].
      apply Hlast; [split; [apply H3 | done] | done | done |].
      eapply received_packet; [done | by rewrite Hk | exact C3' | exact E | done]. }
    destruct (kind p) eqn:Hk.
    + by apply (Hrec Data); [| left].
    + by apply (Hrec Fin); [| right].
    + cbn [mbind option_bind]. apply Hlast; [done | done | done | by apply received_nothing].
    + done.
    + cbn [mbind option_bind]. apply Hlast; [split; [apply H3 | by apply (held_ok_core 2 (rcv c3)); [| apply H3]] | done | done |].
      by apply received_nothing.
Qed.

(** ** The byte stream *)

Section Stream.
(** [f n] is the payload of the peer's [n]-th packet, numbered [s0 + n]. *)
Context (f : Z -> list Z) (s0 : Z).

Definition delivered (m : Z) : list Z := concat (f <$> seqZ 1 m).

Lemma delivered_next m : 0 <= m -> delivered (m + 1) = delivered m ++ f (m + 1).
Proof.
  intros Hm. unfold delivered. rewrite seqZ_app by lia. rewrite fmap_app, concat_app.
  change (seqZ (1 + m) 1) with [0 + (1 + m)]. cbn [fmap list_fmap concat]. rewrite app_nil_r. do 2 f_equal. lia.
Qed.

(** In-order up to the [m]-th packet, and what is held belongs after it. *)
Record at_packet (m hi : Z) (got : list Z) (r : Receiving) : Prop := {
  at_m : 0 <= m <= hi;
  at_ack : ack_nr r = wrap 16 (s0 + m);
  at_bytes : got ++ inbox r = delivered m;
  at_held : forall k v, (k, v) ∈ reorder r -> exists n, m + 1 <= n <= hi /\ k = wrap 16 (s0 + n) /\ v = f n
}.

Lemma wrap_inj a b : wrap 16 a = wrap 16 b -> - 2 ^ 16 < a - b < 2 ^ 16 -> a = b.
Proof.
  unfold wrap. intros H Hd. pose proof (Z.div_mod a (2 ^ 16) ltac:(lia)). pose proof (Z.div_mod b (2 ^ 16) ltac:(lia)).
  pose proof (Z.mod_pos_bound a (2 ^ 16) ltac:(lia)). pose proof (Z.mod_pos_bound b (2 ^ 16) ltac:(lia)). lia.
Qed.

Lemma wrap_sub a b : wrap 16 (wrap 16 a - wrap 16 b) = wrap 16 (a - b).
Proof. unfold wrap. by rewrite Zminus_mod_idemp_l, Zminus_mod_idemp_r. Qed.

Lemma wrap_add_1 a : wrap 16 (wrap 16 a + 1) = wrap 16 (a + 1).
Proof. unfold wrap. by rewrite Zplus_mod_idemp_l. Qed.

Lemma drain_stream fuel m hi got r r' :
  hi <= m + 64 -> bt_sorted (reorder r) -> at_packet m hi got r -> drain_reorder fuel r = Some r' ->
  exists m', m <= m' <= hi /\ at_packet m' hi got r'.
Proof.
  revert m r. induction fuel as [| fuel IH]; intros m r Hhi Hs Hat H; cbn [drain_reorder] in H;
    (destruct (bt_get (reorder r) (wrap 16 (ack_nr r + 1))) as [v |] eqn:E;
     [| injection H as <-; exists m; destruct (at_m _ _ _ _ Hat); split; [lia | done]]); [done |].
  destruct (checked_sub _ _) as [bytes |]; [| done]. cbn [mbind option_bind] in H.
  destruct Hat as [Hm Hack Hbytes Hheld]. rewrite Hack, wrap_add_1 in *. pose proof (bt_get_key _ _ _ E) as Hin.
  destruct (Hheld _ _ Hin) as (n & Hn & Hk & ->). apply wrap_inj in Hk; [| lia]. assert (n = m + 1) as -> by lia.
  edestruct (IH (m + 1)) as (m' & Hm' & Hat'); [lia | | | exact H |].
  - cbn [reorder]. by apply bt_remove_sorted.
  - split; cbn [ack_nr inbox reorder].
    + lia.
    + by replace (s0 + (m + 1)) with (s0 + m + 1) by lia.
    + rewrite app_assoc, Hbytes. rewrite delivered_next by lia. done.
    + intros k v Hkv. assert ((k, v) ∈ reorder r) as Hkv'.
      { pose proof (bt_remove_Forall (fun x => x ∈ reorder r) (reorder r) (wrap 16 (s0 + m + 1))
          (proj2 (Forall_forall _ _) (fun x Hx => Hx))) as Hall. by apply (proj1 (Forall_forall _ _) Hall (k, v) Hkv). }
      destruct (Hheld k v Hkv') as (n & Hn' & -> & ->). exists n. split; [| done].
      destruct (decide (n = m + 1)) as [-> |]; [| lia]. exfalso.
      pose proof (bt_get_remove_eq (reorder r) (wrap 16 (s0 + m + 1)) Hs) as Hnone.
      replace (s0 + (m + 1)) with (s0 + m + 1) in Hkv by lia.
      apply bt_get_elem in Hkv; [congruence | by apply bt_remove_sorted].
  - exists m'. split; [lia | done].
Qed.

(** A packet the peer sent, near enough to tell it from one 2^16 away. *)
Definition genuine (m : Z) (p : Packet) : Prop :=
  exists n, m - 2 ^ 15 < n <= m + 2 ^ 15 /\ UtpPacket.seq_nr p = wrap 16 (s0 + n) /\ payload p = f n.

Lemma at_packet_core m hi got r r' : core r = core r' -> at_packet m hi got r -> at_packet m hi got r'.
Proof. intros [= E1 E2 E3 E4 E5 E6] []. split; try done; congruence || (rewrite <- ?E1, <- ?E2, <- ?E3; done). Qed.

Lemma receive_stream m got r p r' :
  rcv_ok r -> at_packet m (m + 64) got r -> genuine m p -> receive r p = Some r' ->
  exists m', m <= m' <= m + 64 /\ at_packet m' (m' + 64) got r'.
Proof.
  intros Hr Hat (n & Hn & Hseq & Hpay) H. unfold receive in H. rewrite Hseq, (at_ack _ _ _ _ Hat), wrap_sub in H.
  replace (s0 + n - (s0 + m)) with (n - m) in H by lia. set (r1 := set_ack_pending r true) in H.
  assert (at_packet m (m + 64) got r1) as Hat1 by (by apply (at_packet_core _ _ _ r)).
  assert (exists m', m <= m' <= m + 64 /\ at_packet m' (m' + 64) got r1) as Hsame.
  { exists m. split; [destruct (at_m _ _ _ _ Hat); lia | done]. }
  destruct ((wrap 16 (n - m) =? 0) || (REORDER_WINDOW <? wrap 16 (n - m))) eqn:Efar; [by injection H as <- |].
  apply orb_false_iff in Efar as [E0 E64]. apply Z.eqb_neq in E0. apply Z.ltb_ge in E64. unfold REORDER_WINDOW in E64.
  assert (wrap 16 (n - m) = n - m /\ 1 <= n - m <= 64) as [Ew Hd].
  { unfold wrap in *. destruct (decide (n < m)).
    - exfalso. replace (n - m) with (n - m + 2 ^ 16 + (-1) * 2 ^ 16) in E64 by lia.
      rewrite Z.mod_add, Z.mod_small in E64 by lia. lia.
    - rewrite Z.mod_small in * by lia. lia. }
  rewrite Ew in H. destruct (_ <? _); [by injection H as <- |].
  set (r2 := if bool_decide (kind p = Fin) then _ else r1) in H.
  assert (ack_nr r2 = ack_nr r /\ inbox r2 = inbox r /\ reorder r2 = reorder r) as (Ea & Ei & Er)
    by (unfold r2; by case_bool_decide).
  assert (forall r3 m', m <= m' <= m + 64 -> at_packet m' (m' + 64) got r3 ->
    Some (if bool_decide (fin_seq r3 = Some (ack_nr r3)) then set_peer_closed r3 true else r3) = Some r' ->
    exists m', m <= m' <= m + 64 /\ at_packet m' (m' + 64) got r') as Hend.
  { intros r3 m' Hm' Hat3 Heq. injection Heq as <-. exists m'. split; [done |].
    case_bool_decide; [| done]. destruct Hat3. by split. }
  destruct Hat as [Hm Hack Hbytes Hheld].
  destruct (Z.eqb_spec (n - m) 1) as [Hone | Hone].
  - destruct (drain_reorder _ _) as [r3 |] eqn:Ed; [| done]. cbn [mbind option_bind] in H.
    assert (n = m + 1) as -> by lia.
    match type of Ed with drain_reorder _ ?r0 = _ => assert (at_packet (m + 1) (m + 64) got r0) as Hat0 end.
    { split; cbn [ack_nr inbox reorder].
      - lia.
      - done.
      - rewrite Ei, app_assoc, Hbytes, Hpay. by rewrite delivered_next by lia.
      - rewrite Er. intros k v Hkv. destruct (Hheld k v Hkv) as (n & Hn' & -> & ->). exists n. split; [| done].
        pose proof (proj1 (Forall_forall _ _) (hok_keys _ _ Hr) _ Hkv) as [_ Hfar]. cbn [fst] in Hfar.
        rewrite Hack, wrap_sub in Hfar. unfold wrap in Hfar. rewrite Z.mod_small in Hfar by lia. lia. }
    edestruct (drain_stream (length (reorder r2)) (m + 1) (m + 64) got) as (m' & Hm' & [? ? ? Hh]);
      [lia | | exact Hat0 | exact Ed |]; [cbn [reorder]; rewrite Er; apply Hr |].
    eapply (Hend r3 m'); [lia | | exact H]. split; try done; [lia |].
    intros k v Hkv. destruct (Hh k v Hkv) as (n & ? & ? & ?). exists n. split; [lia | done].
  - assert (at_packet m (m + 64) got r2) as Hat2 by (split; rewrite ?Ea, ?Ei, ?Er; done).
    destruct (bt_get (reorder r2) _); cbn [mbind option_bind] in H; [eapply (Hend r2 m); [lia | done | exact H] |].
    match type of H with Some (if bool_decide (fin_seq ?r3 = _) then _ else _) = _ =>
      eapply (Hend r3 m); [lia | | exact H] end.
    split; cbn [ack_nr inbox reorder]; [done | by rewrite Ea | by rewrite Ei |].
    intros k v Hkv.
    pose proof (bt_insert_Forall (fun e => e = (wrap 16 (s0 + n), payload p) \/ e ∈ reorder r2) (reorder r2)
      (wrap 16 (s0 + n)) (payload p) (or_introl eq_refl)
      (proj2 (Forall_forall _ _) (fun x Hx => or_intror Hx))) as Hall.
    destruct (proj1 (Forall_forall _ _) Hall _ Hkv) as [[= -> ->] | Hin].
    + exists n. rewrite Hpay. split; [lia | done].
    + rewrite Er in Hin. apply (Hheld k v Hin).
Qed.
End Stream.

(** ** What the owner and the network do *)

Inductive Event : Type :=
| Tick (now : Z)
| Arrive (now : Z) (p : Packet)
| Flush (now : Z)
| Write (data : list Z)
| Read (len : Z)
| Close
| Abort (now : Z)
| TakeOutgoing.

(** A connection, the bytes [write] has taken and those [read] has given. *)
Record Link : Type := mkLink {
  conn : Connection;
  written : list Z;
  got : list Z
}.

Definition link_step (k : Link) (ev : Event) : option Link :=
  let c := conn k in
  match ev with
  | Tick now => c' ← on_tick c now; Some (mkLink c' (written k) (got k))
  | Arrive now p => c' ← on_packet c now p; Some (mkLink c' (written k) (got k))
  | Flush now => c' ← flush c now; Some (mkLink c' (written k) (got k))
  | Write data =>
      let '(c', n) := write c data in
      Some (mkLink c' (written k ++ take (Z.to_nat n) data) (got k))
  | Read len => let '(c', out) := read c len in Some (mkLink c' (written k) (got k ++ out))
  | Close => Some (mkLink (close c) (written k) (got k))
  | Abort now => c' ← abort c now; Some (mkLink c' (written k) (got k))
  | TakeOutgoing => Some (mkLink (take_outgoing c).1 (written k) (got k))
  end.

Fixpoint link_run (k : Link) (evs : list Event) : option Link :=
  match evs with
  | [] => Some k
  | ev :: evs' => k' ← link_step k ev; link_run k' evs'
  end.

Definition event_ok (ev : Event) : Prop :=
  match ev with
  | Arrive _ p => packet_ok p
  | Read len => 0 <= len
  | _ => True
  end.

Record link_ok (k : Link) : Prop := {
  lok_conn : conn_ok (conn k);
  lok_fresh : fresh (conn k);
  lok_written : exists acked, written k = acked ++ unacked (snd_ (conn k))
}.

(** Steps that leave the bytes written and read alone. *)
Lemma link_ok_advances k c' :
  link_ok k -> advances (conn k) c' -> fresh c' -> link_ok (mkLink c' (written k) (got k)).
Proof.
  intros [_ _ [a Ha]] A F. split; cbn [conn written]; [apply A | done |].
  destruct (adv_unacked _ _ A) as [b Hb]. exists (a ++ b). by rewrite Ha, Hb, app_assoc.
Qed.

Lemma write_spec c data :
  conn_ok c -> let '(c', n) := write c data in
  0 <= n <= zlen data /\ conn_ok c' /\ rcv c' = rcv c /\ state c' = state c /\
  unacked (snd_ c') = unacked (snd_ c) ++ take (Z.to_nat n) data.
Proof.
  intros Hc. unfold write. pose proof (zlen_nonneg data). destruct (_ || _).
  { split_and!; try done. by rewrite take_0, app_nil_r. }
  set (n := Z.min _ _). assert (0 <= n <= zlen data) as Hn by (unfold n, u_saturating_sub; lia).
  assert (forall s, unacked (set_outbox s (outbox s ++ take (Z.to_nat n) data)) = unacked s ++ take (Z.to_nat n) data) as Hu.
  { intros s. unfold unacked. simpl. by rewrite app_assoc. }
  split_and!; try done; try lia; [| apply Hu]. destruct Hc as [[Hw Hcl Hroom] Hr]. split; [split | done]; try done.
  cbn [snd_ with_snd]. rewrite Hu, zlen_app, zlen_take by done. unfold n, u_saturating_sub.
  rewrite flight_bytes_payloads. unfold unacked in *. rewrite zlen_app in *. lia.
Qed.

Lemma read_spec c len :
  conn_ok c -> 0 <= len -> let '(c', out) := read c len in
  conn_ok c' /\ snd_ c' = snd_ c /\ state c' = state c /\ inbox (rcv c) = out ++ inbox (rcv c') /\
  ack_nr (rcv c') = ack_nr (rcv c) /\ reorder (rcv c') = reorder (rcv c).
Proof.
  intros [Hs Hr] Hlen. unfold read. set (n := Z.min len (zlen (inbox (rcv c)))). set (r1 := mkReceiving _ _ _ _ _ _ _ _).
  pose proof (zlen_nonneg (inbox (rcv c))).
  assert (rcv_ok r1) as H1.
  { destruct Hr as [R1 R2 R3 R4 R5]. split; try done. cbn [r1 inbox reorder_bytes]. rewrite zlen_drop by lia. lia. }
  cbv zeta. fold r1. destruct (_ && _ && _); (split_and!; [split; [done | first [done | by apply (held_ok_core 2 r1)]] | done | done | | done | done]);
    cbn [rcv with_rcv set_ack_pending r1 inbox]; by rewrite take_drop.
Qed.

Lemma link_step_ok k ev : link_ok k -> event_ok ev -> exists k', link_step k ev = Some k' /\ link_ok k'.
Proof.
  intros Hk Hev. pose proof Hk as [Hc Hf [a Ha]].
  destruct ev as [now | now p | now | data | len | | now |]; cbn [link_step].
  - destruct (on_tick_spec (conn k) now Hc) as (c' & -> & A & C). eexists. split; [done |].
    apply link_ok_advances; [done | done |]. eapply fresh_core; [exact Hf | done | apply A].
  - destruct (on_packet_spec (conn k) now p Hc Hf Hev) as (c' & -> & A & _ & F). eexists. split; [done |].
    by apply link_ok_advances.
  - destruct (flush_advances (conn k) now Hc) as (c' & -> & A & C). eexists. split; [done |].
    apply link_ok_advances; [done | done |]. eapply fresh_core; [exact Hf | done | apply A].
  - pose proof (write_spec (conn k) data Hc) as Hw. destruct (write (conn k) data) as [c' n].
    destruct Hw as (Hn & Hc' & Hr & Hs & Hu). eexists. split; [done |]. split; cbn [conn written].
    + done.
    + unfold fresh. by rewrite Hr, Hs.
    + exists a. by rewrite Ha, Hu, app_assoc.
  - pose proof (read_spec (conn k) len Hc Hev) as Hr. destruct (read (conn k) len) as [c' out].
    destruct Hr as (Hc' & Hs & Hst & _ & _ & Hre). eexists. split; [done |]. split; cbn [conn written].
    + done.
    + unfold fresh. by rewrite Hre, Hst.
    + exists a. by rewrite Ha, Hs.
  - eexists. split; [done |]. split; cbn [conn written]; [| done | by exists a].
    destruct Hc as [[] Hr]. split; [by split | done].
  - unfold abort. assert (exists c1, (if negb (bool_decide (state (conn k) = Ended)) then queue (conn k) now Reset (seq_nr (snd_ (conn k))) []
                                      else Some (conn k)) = Some c1 /\ keeps (conn k) c1) as (c1 & -> & K1).
    { destruct (negb _); [| exists (conn k); split; [done | by apply keeps_refl]].
      destruct (queue_keeps (conn k) now Reset (seq_nr (snd_ (conn k))) [] Hc) as (c1 & ? & ? & _). by exists c1. }
    cbn [mbind option_bind]. eexists. split; [done |].
    destruct (fail_advances c1 ConnectionAborted (keep_ok _ _ K1)) as [A C].
    apply link_ok_advances; [done | eapply advances_trans; [by apply keeps_advances | exact A] |]. done.
  - eexists. split; [done |]. split; cbn [conn written]; [| done | by exists a]. destruct Hc. by split.
Qed.

Lemma link_run_ok evs k : link_ok k -> Forall event_ok evs -> exists k', link_run k evs = Some k' /\ link_ok k'.
Proof.
  intros Hk Hev. revert k Hk. induction Hev as [| ev evs He _ IH]; intros k Hk; [by exists k |].
  cbn [link_run]. destruct (link_step_ok k ev Hk He) as (k1 & -> & H1). cbn [mbind option_bind]. by apply IH.
Qed.

(** Both ends of a new connection. *)
Definition started (c : Connection) : Prop :=
  (exists now id sq, u_ok 16 id /\ connect_from now id sq = Some c) \/
  (exists now syn sq, packet_ok syn /\ accept now syn sq = Some c).

Lemma new_ok now st sid rid sq : conn_ok (new now st sid rid sq).
Proof.
  split; split; cbn; try done; try constructor; unfold u_ok, SEND_BUFFER, RECEIVE_BUFFER; rewrite ?zlen_nil; try lia.
Qed.

Lemma started_ok c : started c -> link_ok (mkLink c [] []) /\ inbox (rcv c) = [] /\ reorder (rcv c) = [].
Proof.
  intros [(now & i & sq & Hi & E) | (now & syn & sq & Hsyn & E)].
  - unfold connect_from, send_syn in E. set (c0 := with_snd _ _) in E.
    pose proof (new_ok now Connecting (wrap 16 (i + 1)) i sq) as [Hs Hr].
    destruct (push_sent_spec _ now Syn [] Hs (fun _ => eq_refl)) as (P1 & P2 & P3).
    assert (conn_ok c0) as H0.
    { split; [split; [reflexivity | exact P2 | done] | done]. }
    destruct (queue_keeps c0 now Syn (seq_nr (snd_ c0)) [] H0) as (c1 & Eq & K1 & S1). rewrite Eq in E. cbn [mbind option_bind] in E.
    injection E as <-. pose proof (keep_core _ _ K1) as C1. injection C1 as C1 C2 C3 C4 C5 C6.
    pose proof (keep_ok _ _ K1) as [[W1 Cl1 Ro1] R1]. split_and!; [split | exact C2 | exact C3].
    + split; [by split | done].
    + intros _. exact C3.
    + exists []. cbn [written conn]. pose proof (keep_unacked _ _ K1) as U1. change ([] = unacked (snd_ c1)). by rewrite U1.
  - unfold accept in E. set (c0 := with_rcv _ _) in E.
    assert (conn_ok c0) as H0.
    { pose proof (new_ok now Open (connection_id syn) (wrap 16 (connection_id syn + 1)) sq) as [[] []].
      split; [by split |]. split; try done; apply (ok_seq _ Hsyn). }
    destruct (send_state_keeps c0 now H0) as (c1 & Eq & K1). rewrite Eq in E. injection E as <-.
    pose proof (keep_core _ _ K1) as C1. injection C1 as C1 C2 C3 C4 C5 C6.
    split_and!; [split | exact C2 | exact C3].
    + apply K1.
    + intros Hst. exact C3.
    + exists []. cbn [written conn]. by rewrite (keep_unacked _ _ K1).
Qed.

(** A run in which the peer's packets carry its stream: the connection, what was
    written and read, and how many packets have been delivered in order. *)
Inductive streaming (f : Z -> list Z) (s0 : Z) : Link -> Z -> Prop :=
| stream_start k :
    link_ok k -> state (conn k) = Open -> ack_nr (rcv (conn k)) = wrap 16 s0 ->
    inbox (rcv (conn k)) = [] -> reorder (rcv (conn k)) = [] -> got k = [] -> streaming f s0 k 0
| stream_step k m ev k' :
    streaming f s0 k m -> event_ok ev ->
    (forall now p, ev = Arrive now p -> kind p = Data \/ kind p = Fin -> genuine f s0 m p) ->
    link_step k ev = Some k' ->
    streaming f s0 k' (m + wrap 16 (ack_nr (rcv (conn k')) - ack_nr (rcv (conn k)))).

Lemma state_not_connecting a b : state_le a b -> a <> Connecting -> b <> Connecting.
Proof. unfold state_le. destruct a, b; naive_solver. Qed.

(** What an event does to the receiving side, once open. *)
Lemma event_stream f s0 k m ev k' :
  link_ok k -> state (conn k) <> Connecting -> at_packet f s0 m (m + 64) (got k) (rcv (conn k)) -> event_ok ev ->
  (forall now p, ev = Arrive now p -> kind p = Data \/ kind p = Fin -> genuine f s0 m p) ->
  link_step k ev = Some k' ->
  state (conn k') <> Connecting /\
  exists m', m <= m' <= m + 64 /\ at_packet f s0 m' (m' + 64) (got k') (rcv (conn k')).
Proof.
  intros Hk Hst Hat Hev Hgen Hstep. pose proof Hk as [Hc Hf _].
  assert (forall c', core (rcv c') = core (rcv (conn k)) -> exists m', m <= m' <= m + 64 /\ at_packet f s0 m' (m' + 64) (got k) (rcv c')) as Hsame.
  { intros c' C. exists m. split; [pose proof (at_m _ _ _ _ _ _ Hat); lia |]. by apply (at_packet_core _ _ _ _ _ (rcv (conn k))). }
  destruct ev as [now | now p | now | data | len | | now |]; cbn [link_step] in Hstep.
  - destruct (on_tick_spec (conn k) now Hc) as (c' & E & A & C). rewrite E in Hstep. injection Hstep as <-. cbn [conn got].
    split; [eapply state_not_connecting; [apply A | done] | by apply Hsame].
  - destruct (on_packet_spec (conn k) now p Hc Hf Hev) as (c' & E & A & R & _). rewrite E in Hstep. injection Hstep as <-. cbn [conn got].
    split; [eapply state_not_connecting; [apply A | done] |].
    destruct R as [C | Hs _ _ | r r' _ Hkind Hr Hrec C]; [by apply Hsame | done |].
    destruct (receive_stream f s0 m (got k) r p r') as (m' & Hm' & Hat').
    + apply (held_ok_core 2 (rcv (conn k))); [done | apply Hc].
    + by apply (at_packet_core _ _ _ _ _ (rcv (conn k))).
    + by eapply Hgen.
    + done.
    + exists m'. split; [done |]. by apply (at_packet_core _ _ _ _ _ r').
  - destruct (flush_advances (conn k) now Hc) as (c' & E & A & C). rewrite E in Hstep. injection Hstep as <-. cbn [conn got].
    split; [eapply state_not_connecting; [apply A | done] | by apply Hsame].
  - pose proof (write_spec (conn k) data Hc) as Hw. destruct (write (conn k) data) as [c' n].
    destruct Hw as (_ & _ & Hr & Hs & _). injection Hstep as <-. cbn [conn got]. rewrite Hs. split; [done |].
    apply Hsame. by rewrite Hr.
  - pose proof (read_spec (conn k) len Hc Hev) as Hr. destruct (read (conn k) len) as [c' out].
    destruct Hr as (_ & _ & Hs & Hin & Hack & Hre). injection Hstep as <-. cbn [conn got]. rewrite Hs. split; [done |].
    exists m. destruct Hat as [Hm Ha Hb Hh]. split; [lia |]. split; rewrite ?Hack, ?Hre; try done.
    by rewrite <- app_assoc, <- Hin.
  - injection Hstep as <-. cbn [conn got]. split; [done |]. by apply Hsame.
  - unfold abort in Hstep. destruct (if negb (bool_decide (state (conn k) = Ended)) then _ else _) as [c1 |] eqn:E; [| done].
    cbn [mbind option_bind] in Hstep. injection Hstep as <-. cbn [conn got]. split; [done |]. apply Hsame.
    destruct (negb _); [| by injection E as <-].
    destruct (queue_keeps (conn k) now Reset (seq_nr (snd_ (conn k))) [] Hc) as (c2 & E2 & K & _). rewrite E in E2. injection E2 as <-. apply K.
  - injection Hstep as <-. cbn [conn got]. split; [done |]. by apply Hsame.
Qed.

Lemma streaming_inv f s0 k m :
  streaming f s0 k m -> link_ok k /\ state (conn k) <> Connecting /\ at_packet f s0 m (m + 64) (got k) (rcv (conn k)).
Proof.
  induction 1 as [k Hk Hst Hack Hin Hre Hgot | k m ev k' _ (Hk & Hst & Hat) Hev Hgen Hstep].
  - split_and!; [done | by rewrite Hst |]. split; [lia | by rewrite Z.add_0_r | by rewrite Hgot, Hin |].
    rewrite Hre. intros ? ? ?%not_elem_of_nil. done.
  - destruct (link_step_ok k ev Hk Hev) as (k1 & E & Hk1). rewrite Hstep in E. injection E as <-.
    destruct (event_stream f s0 k m ev k' Hk Hst Hat Hev Hgen Hstep) as (Hst' & m' & Hm' & Hat').
    split_and!; [done | done |].
    assert (m + wrap 16 (ack_nr (rcv (conn k')) - ack_nr (rcv (conn k))) = m') as ->; [| done].
    rewrite (at_ack _ _ _ _ _ _ Hat), (at_ack _ _ _ _ _ _ Hat'), wrap_sub. unfold wrap. rewrite Z.mod_small; lia.
Qed.

(** ** Properties *)

(** C7: the machine never panics and its buffers are bounded: from either end of
    a new connection, whatever packets arrive (however malformed, repeated or
    out of order), whenever the clock ticks and whatever the owner does, every
    call returns; the window counts exactly the bytes in the network, no more
    than 512 KiB is held of what was received and no more than 256 KiB of what
    was written. *)
Theorem utp_never_panics (c : Connection) (evs : list Event) (Hs : started c) (Hev : Forall event_ok evs) :
  exists k, link_run (mkLink c [] []) evs = Some k /\
    cur_window (snd_ (conn k)) = net_bytes (in_flight (snd_ (conn k))) /\
    zlen (inbox (rcv (conn k))) + held_bytes (reorder (rcv (conn k))) <= RECEIVE_BUFFER /\
    zlen (outbox (snd_ (conn k))) + flight_bytes (in_flight (snd_ (conn k))) <= SEND_BUFFER.
Proof.
  destruct (started_ok c Hs) as [Hk _]. destruct (link_run_ok evs _ Hk Hev) as (k & Hrun & [[Hsn Hr] _ _]).
  exists k. split_and!; [done | apply Hsn | |].
  - rewrite <- (hok_bytes _ _ Hr). apply Hr.
  - rewrite flight_bytes_payloads. pose proof (sok_room _ Hsn) as Hroom. unfold unacked in Hroom. rewrite zlen_app in Hroom. lia.
Qed.

Definition example_syn : Packet := mkPacket Syn 7 100 0 65536 11 0 [] [].

Lemma example_syn_ok : packet_ok example_syn.
Proof. split; cbn; unfold u_ok, MAX_SACK_BYTES; lia. Qed.

Definition example_data : Packet := mkPacket Data 8 200 0 65536 12 0 [] [1; 2; 3].

Lemma example_data_ok : packet_ok example_data.
Proof. split; cbn; unfold u_ok, MAX_SACK_BYTES; lia. Qed.

Definition example_conn : Connection := default (new 0 Open 0 0 0) (accept 0 example_syn 500).

Lemma example_started : started example_conn.
Proof. right. exists 0, example_syn, 500. split; [exact example_syn_ok | reflexivity]. Qed.

Lemma utp_never_panics_witness :
  exists k, link_run (mkLink example_conn [] []) [Arrive 5 example_data; Write [9; 9]; Flush 6; Tick 7] = Some k.
Proof.
  destruct (utp_never_panics example_conn [Arrive 5 example_data; Write [9; 9]; Flush 6; Tick 7]) as (k & Hrun & _).
  - exact example_started.
  - constructor; [exact example_data_ok | by repeat constructor].
  - exists k. exact Hrun.
Defined.

(** C8: the receiver delivers the peer's stream: as long as the data packets
    that arrive are the peer's own (their payload the one it gave to that
    number), however they are lost, repeated and reordered among the timeouts,
    acks, reads and writes, what [read] has returned and what waits to be read
    is exactly the payloads of the first [m] packets in order, [m] being how
    far the acknowledgement number has got, which never goes back. *)
Theorem utp_delivers_in_order (f : Z -> list Z) (s0 : Z) (k : Link) (m : Z) (Hrun : streaming f s0 k m) :
  0 <= m /\ ack_nr (rcv (conn k)) = wrap 16 (s0 + m) /\
  got k ++ inbox (rcv (conn k)) = concat (f <$> seqZ 1 m).
Proof.
  destruct (streaming_inv f s0 k m Hrun) as (_ & _ & [Hm Hack Hbytes _]). split_and!; [lia | done | done].
Qed.

Definition example_link : Link :=
  default (mkLink example_conn [] []) (link_step (mkLink example_conn [] []) (Arrive 5 example_data)).

Lemma utp_delivers_in_order_witness : got example_link ++ inbox (rcv (conn example_link)) = [1; 2; 3].
Proof.
  refine (proj2 (proj2 (utp_delivers_in_order (fun _ => [1; 2; 3]) 11 example_link (0 + 1) _))).
  eapply (stream_step _ _ (mkLink example_conn [] []) 0 (Arrive 5 example_data)).
  - apply stream_start; [apply (started_ok _ example_started) | reflexivity ..].
  - exact example_data_ok.
  - intros now p [= <- <-] _. exists 1. split; [lia | split; reflexivity].
  - vm_compute. reflexivity.
Defined.



(** A connection that ended stays so, and a dead one ends: once ended, no
    event reopens it, writing takes nothing and nothing more is received; a
    tick after 90 seconds of silence ends it with a timeout, and the owner is
    always told to tick no later than that. *)
Theorem utp_ends (c : Connection) (now : Z) (p : Packet) (data : list Z)
    (Hc : conn_ok c) (Hf : fresh c) (Hp : packet_ok p) :
  (state c = Ended ->
     write c data = (c, 0) /\ next_timeout c = None /\ on_tick c now = Some c /\
     exists c', on_packet c now p = Some c' /\ state c' = Ended /\ error c' = error c /\ inbox (rcv c') = inbox (rcv c)) /\
  (state c <> Ended ->
     (DEAD_AFTER <= since now (last_heard (tmr c)) ->
        exists c', on_tick c now = Some c' /\ state c' = Ended /\ error c' = Some TimedOut) /\
     exists t, next_timeout c = Some t /\ t <= last_heard (tmr c) + DEAD_AFTER).
Proof.
  split.
  - intros Hst. unfold write, next_timeout, on_tick, on_packet. rewrite !(bool_decide_true (state c = Ended)) by done.
    split_and!; try done.
    assert (exists c', (if bool_decide (error c = None) && (bool_decide (kind p = Fin) || bool_decide (kind p = Data))
             then send_state c now else Some c) = Some c' /\ keeps c c') as (c' & -> & [_ C _ S E _]).
    { destruct (_ && _); [by apply send_state_keeps | exists c; split; [done | by apply keeps_refl]]. }
    exists c'. injection C as _ Ci _ _ _ _. split_and!; [done | by rewrite S | done | done].
  - intros Hst. unfold on_tick, next_timeout. rewrite !(bool_decide_false (state c = Ended)) by done. split.
    + intros Hdead. rewrite (proj2 (Z.leb_le _ _)) by done. eexists. split; [done |]. done.
    + eexists. split; [done |]. destruct (rto_deadline (tmr c)); lia.
Qed.

Lemma utp_ends_witness : exists c', on_tick example_conn (90 * secs) = Some c' /\ error c' = Some TimedOut.
Proof.
  destruct (utp_ends example_conn (90 * secs) example_data []) as [_ H].
  - apply (lok_conn (mkLink example_conn [] [])). apply (started_ok _ example_started).
  - apply (lok_fresh (mkLink example_conn [] [])). apply (started_ok _ example_started).
  - exact example_data_ok.
  - destruct H as [H _]; [done |]. destruct H as (c' & H1 & _ & H2); [vm_compute; done |].
    exists c'. split; [exact H1 | exact H2].
Defined.
