(* ===== verification/Worker.v ===== *)
(** * A download worker

    Models [src/src/downloader/worker/]: what a worker thread does on one
    connection once it is open ([mod.rs], [piece.rs], [messages.rs],
    [connect.rs], [holepunch_hub.rs]).  It composes the work queue, the piece
    assembler, the peer's state, the request pipeline, the serving side of the
    connection, hole punching and the files on disk.

    The connection is the messages that will arrive (or the quiet spells after
    which a read times out), each with the time it comes at, and how many more
    messages it takes; when there are no more it has failed.  The other threads
    act whenever this one touches what they share: [others] are the changes
    they make, one before each access.  The dashboard ([peer_stats.rs]) and the
    download rate limit, which only delays, are left out.  [None] is a panic,
    or fuel that ran out. *)

From S2P Require Import Torrent.
From S2P Require Import PieceAssembler Queue Pipeline.
From S2P Require Import Prelude Str Numeral Text Bytes BTree Bencode Io Net Dicts Tracker PeerExt Metadata.
From S2P Require Import Sha256 Merkle V2Hashes FileWriter Choker PeerState Handshake Message Serving.

(** ** The hole-punch hub *)

Abbreviation HolepunchMessage := Holepunch.HolepunchMessage.

(** Each connection that entered has a number: its flag and its channel, which
    outlive its place in [relays]. *)
Record Hub : Type := mkHub {
  relays : gmap SocketAddr Z;
  flags : gmap Z bool;
  channels : gmap Z (list HolepunchMessage);
  next_entry : Z;
  dial_targets : list SocketAddr
}.

Definition new_hub : Hub := mkHub ∅ ∅ ∅ 0 [].

Definition enter (h : Hub) (addr : SocketAddr) : Hub * Z :=
  let id := next_entry h in
  (mkHub (<[addr := id]> (relays h)) (<[id := false]> (flags h)) (<[id := []]> (channels h)) (id + 1) (dial_targets h), id).

(** [Drop for HolepunchEntry]: only if the place is still this entry's. *)
Definition leave (h : Hub) (addr : SocketAddr) (id : Z) : Hub :=
  if bool_decide (relays h !! addr = Some id)
  then mkHub (delete addr (relays h)) (flags h) (channels h) (next_entry h) (dial_targets h) else h.

Definition supports (h : Hub) (id : Z) : bool := default false (flags h !! id).

(** [supports.store(true)]. *)
Definition mark_supported (h : Hub) (id : Z) : Hub :=
  mkHub (relays h) (<[id := true]> (flags h)) (channels h) (next_entry h) (dial_targets h).

(** [relay]: the receiver of an entry that has left is gone, and so the message. *)
Definition relay (h : Hub) (to : SocketAddr) (msg : HolepunchMessage) : Hub * bool :=
  match relays h !! to with
  | Some id =>
      if supports h id
      then match channels h !! id with
           | Some box => (mkHub (relays h) (flags h) (<[id := box ++ [msg]]> (channels h)) (next_entry h) (dial_targets h), true)
           | None => (h, false)
           end
      else (h, false)
  | None => (h, false)
  end.

Definition is_unsupported (h : Hub) (addr : SocketAddr) : bool :=
  match relays h !! addr with Some id => negb (supports h id) | None => false end.

Definition request_dial (h : Hub) (target : SocketAddr) : Hub :=
  mkHub (relays h) (flags h) (channels h) (next_entry h) (dial_targets h ++ [target]).

Definition take_dial_targets (h : Hub) : Hub * list SocketAddr :=
  (mkHub (relays h) (flags h) (channels h) (next_entry h) [], dial_targets h).

(** [rx.try_recv()]. *)
Definition try_recv (h : Hub) (id : Z) : Hub * option HolepunchMessage :=
  match channels h !! id with
  | Some (msg :: rest) => (mkHub (relays h) (flags h) (<[id := rest]> (channels h)) (next_entry h) (dial_targets h), Some msg)
  | _ => (h, None)
  end.

(** ** The state of a worker *)

Inductive Event : Type :=
| Arrives (at_ : Z) (m : Message)
| Quiet (at_ : Z).

Inductive WorkerError : Type :=
| ConnectionError (stage : String.string)
| PieceHashMismatch.
Arguments ConnectionError stage%_string_scope.

Record Lookahead : Type := mkLookahead {
  la_work : PieceWork;
  la_assembler : PieceAssembler.PieceAssembler;
  la_resumed : bool;
  la_in_flight : list (Z * Z);
  la_refusals : Z
}.

(** What the threads share. *)
Record Shared : Type := mkShared {
  sh_queue : Queue.WorkQueue;
  sh_seeder : SeederShared;
  sh_files : Fs;
  sh_hub : Hub
}.

(** The connection, what is shared, and the piece in hand. *)
Record W : Type := mkW {
  serving : option Serving;
  queue : Queue.WorkQueue;
  seeder : SeederShared;
  files : Fs;
  hub : Hub;
  sent : list Message;
  left : nat;
  incoming : list Event;
  clock : Z;
  peer : PeerState.PeerState;
  their_id : option Z;
  meter : Throughput;
  pex : list (list SocketAddr);
  results : list (Z * list Z);
  asm : PieceAssembler.PieceAssembler;
  in_flight : list (Z * Z);
  ahead : list Lookahead;
  others : list (Shared -> Shared)
}.

Definition set_serving (x : option Serving) (w : W) : W :=
  mkW x (queue w) (seeder w) (files w) (hub w) (sent w) (left w) (incoming w) (clock w) (peer w) (their_id w) (meter w) (pex w) (results w) (asm w) (in_flight w) (ahead w) (others w).
Definition set_queue (x : Queue.WorkQueue) (w : W) : W :=
  mkW (serving w) x (seeder w) (files w) (hub w) (sent w) (left w) (incoming w) (clock w) (peer w) (their_id w) (meter w) (pex w) (results w) (asm w) (in_flight w) (ahead w) (others w).
Definition set_seeder (x : SeederShared) (w : W) : W :=
  mkW (serving w) (queue w) x (files w) (hub w) (sent w) (left w) (incoming w) (clock w) (peer w) (their_id w) (meter w) (pex w) (results w) (asm w) (in_flight w) (ahead w) (others w).
Definition set_files (x : Fs) (w : W) : W :=
  mkW (serving w) (queue w) (seeder w) x (hub w) (sent w) (left w) (incoming w) (clock w) (peer w) (their_id w) (meter w) (pex w) (results w) (asm w) (in_flight w) (ahead w) (others w).
Definition set_hub (x : Hub) (w : W) : W :=
  mkW (serving w) (queue w) (seeder w) (files w) x (sent w) (left w) (incoming w) (clock w) (peer w) (their_id w) (meter w) (pex w) (results w) (asm w) (in_flight w) (ahead w) (others w).
Definition set_sent (x : list Message) (w : W) : W :=
  mkW (serving w) (queue w) (seeder w) (files w) (hub w) x (left w) (incoming w) (clock w) (peer w) (their_id w) (meter w) (pex w) (results w) (asm w) (in_flight w) (ahead w) (others w).
Definition set_left (x : nat) (w : W) : W :=
  mkW (serving w) (queue w) (seeder w) (files w) (hub w) (sent w) x (incoming w) (clock w) (peer w) (their_id w) (meter w) (pex w) (results w) (asm w) (in_flight w) (ahead w) (others w).
Definition set_incoming (x : list Event) (w : W) : W :=
  mkW (serving w) (queue w) (seeder w) (files w) (hub w) (sent w) (left w) x (clock w) (peer w) (their_id w) (meter w) (pex w) (results w) (asm w) (in_flight w) (ahead w) (others w).
Definition set_clock (x : Z) (w : W) : W :=
  mkW (serving w) (queue w) (seeder w) (files w) (hub w) (sent w) (left w) (incoming w) x (peer w) (their_id w) (meter w) (pex w) (results w) (asm w) (in_flight w) (ahead w) (others w).
Definition set_peer (x : PeerState.PeerState) (w : W) : W :=
  mkW (serving w) (queue w) (seeder w) (files w) (hub w) (sent w) (left w) (incoming w) (clock w) x (their_id w) (meter w) (pex w) (results w) (asm w) (in_flight w) (ahead w) (others w).
Definition set_their_id (x : option Z) (w : W) : W :=
  mkW (serving w) (queue w) (seeder w) (files w) (hub w) (sent w) (left w) (incoming w) (clock w) (peer w) x (meter w) (pex w) (results w) (asm w) (in_flight w) (ahead w) (others w).
Definition set_meter (x : Throughput) (w : W) : W :=
  mkW (serving w) (queue w) (seeder w) (files w) (hub w) (sent w) (left w) (incoming w) (clock w) (peer w) (their_id w) x (pex w) (results w) (asm w) (in_flight w) (ahead w) (others w).
Definition set_pex (x : list (list SocketAddr)) (w : W) : W :=
  mkW (serving w) (queue w) (seeder w) (files w) (hub w) (sent w) (left w) (incoming w) (clock w) (peer w) (their_id w) (meter w) x (results w) (asm w) (in_flight w) (ahead w) (others w).
Definition set_results (x : list (Z * list Z)) (w : W) : W :=
  mkW (serving w) (queue w) (seeder w) (files w) (hub w) (sent w) (left w) (incoming w) (clock w) (peer w) (their_id w) (meter w) (pex w) x (asm w) (in_flight w) (ahead w) (others w).
Definition set_asm (x : PieceAssembler.PieceAssembler) (w : W) : W :=
  mkW (serving w) (queue w) (seeder w) (files w) (hub w) (sent w) (left w) (incoming w) (clock w) (peer w) (their_id w) (meter w) (pex w) (results w) x (in_flight w) (ahead w) (others w).
Definition set_in_flight (x : list (Z * Z)) (w : W) : W :=
  mkW (serving w) (queue w) (seeder w) (files w) (hub w) (sent w) (left w) (incoming w) (clock w) (peer w) (their_id w) (meter w) (pex w) (results w) (asm w) x (ahead w) (others w).
Definition set_ahead (x : list Lookahead) (w : W) : W :=
  mkW (serving w) (queue w) (seeder w) (files w) (hub w) (sent w) (left w) (incoming w) (clock w) (peer w) (their_id w) (meter w) (pex w) (results w) (asm w) (in_flight w) x (others w).
Definition set_others (x : list (Shared -> Shared)) (w : W) : W :=
  mkW (serving w) (queue w) (seeder w) (files w) (hub w) (sent w) (left w) (incoming w) (clock w) (peer w) (their_id w) (meter w) (pex w) (results w) (asm w) (in_flight w) (ahead w) x.

(** What the connection was configured with; [connected] is the registry of
    the peers connected to, as it is at a time. *)
Record Config : Type := mkConfig {
  pipeline_depth : Z;
  pex_tx : bool;
  peer_addr : SocketAddr;
  entry : Z;
  connected : Z -> SocketAddr -> bool;
  upload : bool;
  dl_spans : list FileSpan;
  dl_piece_length : Z
}.

(** ** The worker's monad

    A panic, or an outcome: a value or an error, and the state either way. *)
Definition M (A : Type) : Type := W -> option (W * result A WorkerError).

#[export] Instance M_ret : MRet M := fun A x w => Some (w, Ok x).
#[export] Instance M_bind : MBind M := fun A B k m w =>
  match m w with
  | Some (w', Ok x) => k x w'
  | Some (w', Err e) => Some (w', Err e)
  | None => None
  end.

Definition act {A} (f : W -> option (W * result A WorkerError)) : M A := f.
Definition fail {A} (e : WorkerError) : M A := fun w => Some (w, Err e).
Definition gets {A} (f : W -> A) : M A := fun w => Some (w, Ok (f w)).
Definition modify (f : W -> W) : M unit := fun w => Some (f w, Ok tt).
Definition lift {A} (o : option A) : M A := fun w => x ← o; Some (w, Ok x).

(** What a call came to, as a value ([match f() { Ok(..) => .., Err(e) => .. }]). *)
Definition try_ {A} (m : M A) : M (result A WorkerError) := fun w =>
  match m w with
  | Some (w', r) => Some (w', Ok r)
  | None => None
  end.

(** The other threads' turn. *)
Definition sync : M unit := fun w =>
  match others w with
  | [] => Some (w, Ok tt)
  | f :: rest =>
      let s := f (mkShared (queue w) (seeder w) (files w) (hub w)) in
      Some (set_others rest (set_hub (sh_hub s) (set_files (sh_files s) (set_seeder (sh_seeder s) (set_queue (sh_queue s) w)))), Ok tt)
  end.

(** A method of the queue, and one of the hub. *)
Definition on_queue {A} (f : Queue.WorkQueue -> Queue.WorkQueue * A) : M A :=
  _ ← sync; x ← gets (fun w => f (queue w)); _ ← modify (set_queue x.1); mret x.2.

Definition on_hub {A} (f : Hub -> Hub * A) : M A :=
  _ ← sync; x ← gets (fun w => f (hub w)); _ ← modify (set_hub x.1); mret x.2.

(** ** The connection *)

(** [connection::send_message]: whether it was written. *)
Definition try_send (m : Message) : M bool := fun w =>
  match left w with
  | O => Some (w, Ok false)
  | S n => Some (set_left n (set_sent (sent w ++ [m]) w), Ok true)
  end.

(** [send_message(..).map_err(|e| Connection { stage, .. })?]. *)
Definition send (stage : String.string) (m : Message) : M unit :=
  ok ← try_send m; if (ok : bool) then mret tt else fail (ConnectionError stage).
Arguments send stage%_string_scope m.

(** [connection::read_message]: a message, an error that [is_read_timeout]
    holds of, or any other. *)
Inductive Read : Type := RMessage (m : Message) | RTimeout | RGone.

Definition read_message : M Read := fun w =>
  match incoming w with
  | [] => Some (w, Ok RGone)
  | Arrives t m :: rest => Some (set_clock t (set_incoming rest w), Ok (RMessage m))
  | Quiet t :: rest => Some (set_clock t (set_incoming rest w), Ok RTimeout)
  end.

(** ** The upload side ([messages.rs]) *)

Definition world (s : Serving) (w : W) : World := mkWorld s (seeder w) (files w) (sent w) (left w).

Definition from_world (x : World) (w : W) : W :=
  set_left (room x) (set_sent (out x) (set_files (disk x) (set_seeder (sh x) (set_serving (Some (sv x)) w)))).

(** An error of the upload side is the stage [serve_peer]. *)
Definition served {A} (r : result A ServeError) : result A WorkerError :=
  match r with Ok x => Ok x | Err _ => Err (ConnectionError "serve_peer") end.

Definition keep_serving : M unit :=
  s ← gets serving;
  match s with
  | None => mret tt
  | Some sv => _ ← sync; act (fun w => let '(x, r) := tick (clock w) (world sv w) in Some (from_world x w, served r))
  end.

(** [serving.handle(msg, stream)], if there is an upload side. *)
Definition serve (msg : Message) : M bool :=
  s ← gets serving;
  match s with
  | None => mret false
  | Some sv => _ ← sync; act (fun w => '(x, r) ← handle (clock w) msg (world sv w); Some (from_world x w, served r))
  end.

(** [serving.as_ref()], credited with what was downloaded. *)
Definition credit (bytes : Z) : M unit :=
  s ← gets serving;
  match s with
  | None => mret tt
  | Some sv => _ ← sync; modify (fun w => from_world (record_download (world sv w) bytes) w)
  end.

(** ** Messages ([messages.rs]) *)

Definition set_request_limit (s : PeerState.PeerState) (limit : option Z) : PeerState.PeerState :=
  mkPeerState (am_choking s) (am_interested s) (peer_choking s) (peer_interested s) (peer_has_pieces s)
    (PeerState.supports_extensions s) limit (PeerState.fast s) (PeerState.allowed_fast s) (piece_limit s).

Section worker.
Context (sha1 : list Z -> list Z) (cfg : Config).

(** [state.apply_message(msg)]. *)
Definition apply (msg : Message) : M bool :=
  x ← gets (fun w => apply_message (peer w) msg); _ ← modify (set_peer x.1); mret x.2.

(** The peer's extended handshake. *)
Definition absorb_handshake (payload : list Z) : M unit :=
  r ← lift (Extension.parse payload);
  match r with
  | Err _ => mret tt
  | Ok handshake =>
      _ ← modify (fun w => set_peer (set_request_limit (peer w) (Extension.reqq handshake)) w);
      match Extension.peer_ut_holepunch_id handshake with
      | None => mret tt
      | Some id =>
          _ ← modify (set_their_id (Some id));
          on_hub (fun h => (mark_supported h (entry cfg), tt))
      end
  end.

Definition absorb_pex (payload : list Z) : M unit :=
  if pex_tx cfg then
    r ← lift (Pex.parse_ut_pex payload);
    match r with
    | Ok (a :: peers) => modify (fun w => set_pex (pex w ++ [a :: peers]) w)
    | _ => mret tt
    end
  else mret tt.

Definition absorb (msg : Message) : M bool :=
  match msg with
  | Bitfield _ =>
      _ ← on_queue (fun q => (Queue.note_bitfield q (peer_has_pieces (apply_message default_state msg).1), tt)); apply msg
  | HaveAll =>
      _ ← on_queue (fun q =>
            (Queue.note_bitfield q (peer_has_pieces (apply_message (for_torrent (Z.of_nat (Queue.total_pieces q))) msg).1), tt));
      apply msg
  | Have piece_index => _ ← on_queue (fun q => (Queue.note_have q piece_index, tt)); apply msg
  | Extended id payload =>
      if id =? 0 then _ ← absorb_handshake payload; apply msg
      else if id =? Extension.OUR_UT_PEX_ID then _ ← absorb_pex payload; mret true
      else if id =? Extension.OUR_UT_HOLEPUNCH_ID then mret true
      else apply msg
  | _ => apply msg
  end.

Definition send_holepunch (msg : HolepunchMessage) : M unit :=
  send "reply_holepunch" (Extended Extension.OUR_UT_HOLEPUNCH_ID (Holepunch.encode msg)).

(** The reply to a rendezvous, which also relays it. *)
Definition rendezvous (target : SocketAddr) : M HolepunchMessage :=
  relayed ← on_hub (fun h => relay h target (Holepunch.Connect (peer_addr cfg)));
  if (relayed : bool) then mret (Holepunch.Connect target)
  else
    unsupported ← on_hub (fun h => (h, is_unsupported h target));
    mret (Holepunch.Error target (if (unsupported : bool) then Holepunch.NoSupport else Holepunch.NotConnected)).

Definition handle_holepunch (msg : Message) : M unit :=
  match msg with
  | Extended id payload =>
      if negb (id =? Extension.OUR_UT_HOLEPUNCH_ID) then mret tt
      else
        r ← lift (Holepunch.decode payload);
        match r with
        | Err _ => mret tt
        | Ok (Holepunch.Rendezvous target) =>
            theirs ← gets their_id;
            match theirs with
            | None => mret tt
            | Some _ => reply ← rendezvous target; send_holepunch reply
            end
        | Ok (Holepunch.Connect endpoint) =>
            known ← gets (fun w => connected cfg (clock w) endpoint);
            if (known : bool) then mret tt else on_hub (fun h => (request_dial h endpoint, tt))
        | Ok (Holepunch.Error _ _) => mret tt
        end
  | _ => mret tt
  end.

Definition take (msg : Message) : M bool :=
  asked ← serve msg;
  active ← absorb msg;
  _ ← handle_holepunch msg;
  mret (active || asked)%bool.

(** ** One piece ([piece.rs]) *)

Inductive Downloaded : Type := Verified (data : list Z) | Abandoned | Refused.
Inductive Attempt : Type := AVerified (data : list Z) | AMismatch | AAbandoned | ARefused.
Inductive Fetched : Type := FComplete | FAbandoned | FRefused.

Definition MAX_LOOKAHEAD : nat := 8.
Definition MAX_SALVAGE_MESSAGES : nat := 256.
Definition MAX_REFUSALS_PER_PIECE : Z := 8.
Definition MAX_UNCHOKE_WAIT_TIMEOUTS : Z := 6.
Definition MAX_IRRELEVANT_CYCLES : Z := 50.

Definition label (s : String.string) : String.string := s.
Arguments label s%_string_scope.

Definition stage_label (base : String.string) (blocks_received : Z) : String.string :=
  if blocks_received =? 0 then base
  else if String.eqb base (label "send_request") then label "send_request_after_prior_progress"
  else if String.eqb base (label "read_message_during_piece_download") then label "read_message_after_prior_progress"
  else base.

(** [if let Some(partial) = assembler.into_partial() { queue.stash_partial(..) }]. *)
Definition stash (piece_index : Z) (a : PieceAssembler.PieceAssembler) : M unit :=
  match into_partial a with
  | Some p => on_queue (fun q => (Queue.stash_partial q piece_index p, tt))
  | None => mret tt
  end.

Definition push_back (work : PieceWork) : M unit := on_queue (fun q => (Queue.push_back q work, tt)).

(** [Lookahead::release]. *)
Definition release (la : Lookahead) : M unit :=
  _ ← stash (pw_index (la_work la)) (la_assembler la); push_back (la_work la).

Fixpoint release_each (l : list Lookahead) : M unit :=
  match l with
  | [] => mret tt
  | la :: rest => _ ← release la; release_each rest
  end.

Definition release_all : M unit :=
  l ← gets ahead; _ ← modify (set_ahead []); release_each l.

Definition open (work : PieceWork) : M (PieceAssembler.PieceAssembler * bool) :=
  p ← on_queue (fun q => Queue.take_partial q (pw_index work));
  mret (match p with Some partial => (resume work partial, true) | None => (PieceAssembler.new work, false) end).

(** Changes to one of the pieces looked ahead to. *)
Definition set_la_assembler (a : PieceAssembler.PieceAssembler) (la : Lookahead) : Lookahead :=
  mkLookahead (la_work la) a (la_resumed la) (la_in_flight la) (la_refusals la).
Definition set_la_in_flight (l : list (Z * Z)) (la : Lookahead) : Lookahead :=
  mkLookahead (la_work la) (la_assembler la) (la_resumed la) l (la_refusals la).
Definition set_la_refusals (n : Z) (la : Lookahead) : Lookahead :=
  mkLookahead (la_work la) (la_assembler la) (la_resumed la) (la_in_flight la) n.
Definition at_ahead (k : nat) (f : Lookahead -> Lookahead) (w : W) : W := set_ahead (alter f k (ahead w)) w.

Definition la_index (la : Lookahead) : Z := pw_index (la_work la).

(** [ahead.iter_mut().find(|next| next.work.index == index)], with its place. *)
Definition find_ahead (index : Z) (w : W) : option (nat * Lookahead) := list_find (fun la => la_index la = index) (ahead w).

(** [let _ = assembler.record_block(begin, &block)]. *)
Definition recorded (a : PieceAssembler.PieceAssembler) (begin : Z) (block : list Z) : M PieceAssembler.PieceAssembler :=
  r ← lift (record_block a begin block); mret (match r with Ok a' => a' | Err _ => a end).

Definition record_here (begin : Z) (block : list Z) : M unit :=
  a ← gets asm; a' ← recorded a begin block; modify (set_asm a').

Definition record_ahead (k : nat) (la : Lookahead) (begin : Z) (block : list Z) : M unit :=
  a' ← recorded (la_assembler la) begin block; modify (at_ahead k (set_la_assembler a')).

Fixpoint salvage (n : nat) (piece_index : Z) : M unit :=
  match n with
  | O => mret tt
  | S n' =>
      r ← read_message;
      match r with
      | RMessage (Piece index begin block) =>
          _ ← (if index =? piece_index then record_here begin block
               else next ← gets (find_ahead index);
                    match next with Some (k, la) => record_ahead k la begin block | None => mret tt end);
          salvage n' piece_index
      | RMessage _ => salvage n' piece_index
      | RTimeout | RGone => mret tt
      end
  end.

Definition salvage_after_failed_write (piece_index : Z) : M unit := salvage MAX_SALVAGE_MESSAGES piece_index.

(** The loop that sends the requests of one piece; [push] puts one in flight. *)
Fixpoint send_requests (push : Z * Z -> W -> W) (piece_index blocks_received : Z) (reqs : list BlockRequest) : M unit :=
  match reqs with
  | [] => mret tt
  | (index, begin, length) :: rest =>
      ok ← try_send (Request index begin length);
      if (ok : bool) then _ ← modify (push (begin, length)); send_requests push piece_index blocks_received rest
      else _ ← salvage_after_failed_write piece_index; fail (ConnectionError (stage_label (label "send_request") blocks_received))
  end.

Definition push_here (r : Z * Z) (w : W) : W := set_in_flight (in_flight w ++ [r]) w.
Definition push_ahead (k : nat) (r : Z * Z) (w : W) : W := at_ahead k (fun la => set_la_in_flight (la_in_flight la ++ [r]) la) w.

(** [in_flight.len() + ahead.iter().map(..).sum()]. *)
Definition outstanding (w : W) : Z := zlen (in_flight w) + foldr Z.add 0 ((fun la => zlen (la_in_flight la)) <$> ahead w).

(** [for next in ahead.iter_mut()], from the [k]-th on: whether anything was
    asked for. *)
Fixpoint ask_ahead (todo k : nat) (piece_index blocks_received room : Z) : M bool :=
  match todo with
  | O => mret false
  | S todo' =>
      la ← gets (fun w => ahead w !! k);
      la ← lift la;
      x ← lift (next_requests (la_assembler la) (Z.to_nat room));
      _ ← modify (at_ahead k (set_la_assembler x.1));
      match x.2 with
      | [] => ask_ahead todo' (S k) piece_index blocks_received room
      | reqs => _ ← send_requests (push_ahead k) piece_index blocks_received reqs; mret true
      end
  end.

(** Which piece may be looked ahead to. *)
Definition may_take_ahead (refused declined : gset Z) (piece_index : Z) (w : W) (piece : Z) : bool :=
  negb (piece =? piece_index) && negb (bool_decide (piece ∈ la_index <$> ahead w)) && peer_has (peer w) piece &&
  may_request (peer w) piece && negb (bool_decide (piece ∈ refused)) && negb (bool_decide (piece ∈ declined)).

(** Another piece, if there is room for it and the queue has one. *)
Definition take_ahead (refused declined : gset Z) (piece_index : Z) : M bool :=
  n ← gets (fun w => length (ahead w));
  if (MAX_LOOKAHEAD <=? n)%nat then mret false
  else
    _ ← sync;
    x ← gets (fun w => Queue.take_pending_for (queue w) (may_take_ahead refused declined piece_index w));
    x ← lift x;
    _ ← modify (set_queue x.1);
    match x.2 with
    | None => mret false
    | Some work =>
        o ← open work;
        _ ← modify (fun w => set_ahead (ahead w ++ [mkLookahead work o.1 o.2 [] 0]) w);
        mret true
    end.

(** The inner loop of [fetch_blocks]: requests up to [depth]. *)
Fixpoint ask (fuel : nat) (refused declined : gset Z) (piece_index blocks_received depth : Z) : M unit :=
  match fuel with
  | O => lift None
  | S fuel' =>
      n ← gets outstanding;
      if depth <=? n then mret tt
      else
        let room := depth - n in
        a ← gets asm;
        x ← lift (next_requests a (Z.to_nat room));
        _ ← modify (set_asm x.1);
        match x.2 with
        | _ :: _ =>
            _ ← send_requests push_here piece_index blocks_received x.2;
            ask fuel' refused declined piece_index blocks_received depth
        | [] =>
            todo ← gets (fun w => length (ahead w));
            more ← ask_ahead todo 0 piece_index blocks_received room;
            if (more : bool) then ask fuel' refused declined piece_index blocks_received depth
            else
              taken ← take_ahead refused declined piece_index;
              if (taken : bool) then ask fuel' refused declined piece_index blocks_received depth else mret tt
        end
  end.

(** Each pass sends a request or takes a piece, but the last. *)
Definition ASK_PASSES : nat := (Z.to_nat Pipeline.MAX_DEPTH + MAX_LOOKAHEAD + 1)%nat.

(** What the peer does not owe us while it chokes us. *)
Definition forget_all (w : W) : W :=
  set_ahead ((fun la => set_la_in_flight [] (set_la_assembler (forget_requests (la_assembler la)) la)) <$> ahead w)
    (set_asm (forget_requests (asm w)) (set_in_flight [] w)).

Fixpoint cancel_each (piece_index : Z) (l : list (Z * Z)) : M unit :=
  match l with
  | [] => mret tt
  | (begin, length) :: rest => _ ← try_send (Cancel piece_index begin length); cancel_each piece_index rest
  end.

(** [in_flight.retain(|&(b, _)| b != begin)]. *)
Definition without (begin : Z) (l : list (Z * Z)) : list (Z * Z) := filter (fun r => r.1 <> begin) l.

(** What the loop of [fetch_blocks] carries from one pass to the next. *)
Record Pass : Type := mkPass {
  blocks_received : Z;
  choked_timeouts : Z;
  refusals : Z;
  declined : gset Z
}.

(** A block of this piece or of one looked ahead to. *)
Definition on_block (piece_index index begin : Z) (block : list Z) (p : Pass) : M Pass :=
  _ ← (if index =? piece_index then
         _ ← record_here begin block; modify (fun w => set_in_flight (without begin (in_flight w)) w)
       else
         next ← gets (find_ahead index);
         match next with
         | Some (k, la) =>
             _ ← record_ahead k la begin block;
             modify (at_ahead k (fun la => set_la_in_flight (without begin (la_in_flight la)) la))
         | None => mret tt
         end);
  _ ← modify (fun w => set_meter (record (meter w) (clock w) (zlen block)) w);
  _ ← credit (zlen block);
  mret (mkPass (wrap 32 (blocks_received p + 1)) (choked_timeouts p) (refusals p) (declined p)).

(** A request for this piece refused: whether that is enough of it. *)
Definition on_reject_here (begin : Z) (p : Pass) : M (Pass * bool) :=
  _ ← modify (fun w => set_in_flight (without begin (in_flight w)) w);
  a ← gets asm;
  a' ← lift (refuse_request a begin);
  _ ← modify (set_asm a');
  let p := mkPass (blocks_received p) (choked_timeouts p) (refusals p + 1) (declined p) in
  mret (p, MAX_REFUSALS_PER_PIECE <=? refusals p).

(** A request for a piece looked ahead to refused. *)
Definition on_reject_ahead (index begin : Z) (p : Pass) : M Pass :=
  next ← gets (find_ahead index);
  match next with
  | None => mret p
  | Some (k, la) =>
      a' ← lift (refuse_request (la_assembler la) begin);
      let la := set_la_refusals (la_refusals la + 1) (set_la_assembler a' (set_la_in_flight (without begin (la_in_flight la)) la)) in
      if MAX_REFUSALS_PER_PIECE <=? la_refusals la then
        _ ← modify (fun w => set_ahead (delete k (ahead w)) w);
        _ ← release la;
        mret (mkPass (blocks_received p) (choked_timeouts p) (refusals p) ({[la_index la]} ∪ declined p))
      else
        _ ← modify (at_ahead k (fun _ => la));
        mret p
  end.

(** The arms of [match &msg], in their order: what the next pass starts from,
    and whether the peer has refused the piece. *)
Definition on_message (piece_index : Z) (msg : Message) (p : Pass) : M (Pass * bool) :=
  w ← gets (fun w => w);
  match msg with
  | Piece index begin block =>
      if (index =? piece_index) || existsb (fun la => la_index la =? index) (ahead w)
      then p ← on_block piece_index index begin block p; mret (p, false)
      else mret (p, false)
  | RejectRequest index begin length =>
      if (index =? piece_index) && bool_decide ((begin, length) ∈ in_flight w) then on_reject_here begin p
      else if existsb (fun la => (la_index la =? index) && bool_decide ((begin, length) ∈ la_in_flight la)) (ahead w)
      then p ← on_reject_ahead index begin p; mret (p, false)
      else _ ← take msg; mret (p, false)
  | _ => _ ← take msg; mret (p, false)
  end.

(** The requests to make, or what to forget. *)
Definition request_or_forget (refused : gset Z) (piece_index : Z) (p : Pass) : M Pass :=
  may ← gets (fun w => may_request (peer w) piece_index);
  if negb may then _ ← modify forget_all; mret p
  else
    choking ← gets (fun w => peer_choking (peer w));
    let p := if negb choking then mkPass (blocks_received p) 0 (refusals p) (declined p) else p in
    depth ← gets (fun w => depth_for (rate (meter w) (clock w)) (pipeline_depth cfg) (peer_request_limit (peer w)));
    _ ← ask ASK_PASSES refused (declined p) piece_index (blocks_received p) depth;
    mret p.

(** The loop of [fetch_blocks]: every pass but the last reads a message. *)
Fixpoint fetch_loop (fuel : nat) (refused : gset Z) (piece_index : Z) (p : Pass) : M Fetched :=
  match fuel with
  | O => lift None
  | S fuel' =>
      _ ← keep_serving;
      done ← on_queue (fun q => (q, Queue.is_done q piece_index));
      if (done : bool) then l ← gets in_flight; _ ← cancel_each piece_index l; mret FAbandoned
      else
        p ← request_or_forget refused piece_index p;
        complete ← gets (fun w => PieceAssembler.is_complete (asm w));
        if (complete : bool) then mret FComplete
        else
          r ← read_message;
          choking ← gets (fun w => peer_choking (peer w));
          match r with
          | RMessage msg =>
              x ← on_message piece_index msg p;
              if (x.2 : bool) then mret FRefused else fetch_loop fuel' refused piece_index x.1
          | RTimeout =>
              if (choking : bool) then
                let p := mkPass (blocks_received p) (choked_timeouts p + 1) (refusals p) (declined p) in
                if MAX_UNCHOKE_WAIT_TIMEOUTS <=? choked_timeouts p then fail (ConnectionError "peer_choked_us_mid_piece")
                else _ ← send "keepalive_while_choked" KeepAlive; fetch_loop fuel' refused piece_index p
              else fail (ConnectionError (stage_label (label "read_message_during_piece_download") (blocks_received p)))
          | RGone => fail (ConnectionError (stage_label (label "read_message_during_piece_download") (blocks_received p)))
          end
  end.

Definition fetch_blocks (refused : gset Z) : M Fetched :=
  piece_index ← gets (fun w => pw_index (work (asm w)));
  passes ← gets (fun w => S (length (incoming w)));
  fetch_loop passes refused piece_index (mkPass 0 0 0 ∅).

Definition attempt (a : PieceAssembler.PieceAssembler) (flight : list (Z * Z)) (refused : gset Z) : M Attempt :=
  let piece_index := pw_index (work a) in
  _ ← modify (fun w => set_in_flight flight (set_asm a w));
  r ← try_ (fetch_blocks refused);
  a ← gets asm;
  match r with
  | Ok FComplete => mret (match PieceAssembler.finish sha1 a with Ok data => AVerified data | Err _ => AMismatch end)
  | Ok FAbandoned => mret AAbandoned
  | Ok FRefused => _ ← stash piece_index a; mret ARefused
  | Err e => _ ← stash piece_index a; fail e
  end.

Definition download_one_piece (work : PieceWork) (started : option Lookahead) (refused : gset Z) : M Downloaded :=
  o ← match started with
      | Some la => mret (la_assembler la, la_resumed la, la_in_flight la)
      | None => o ← open work; mret (o.1, o.2, [])
      end;
  let '(a, resumed, flight) := o in
  r ← attempt a flight refused;
  match r with
  | AVerified data => mret (Verified data)
  | AAbandoned => mret Abandoned
  | ARefused => mret Refused
  | AMismatch =>
      if (resumed : bool) then
        r ← attempt (PieceAssembler.new work) [] refused;
        match r with
        | AVerified data => mret (Verified data)
        | AAbandoned => mret Abandoned
        | ARefused => mret Refused
        | AMismatch => fail PieceHashMismatch
        end
      else fail PieceHashMismatch
  end.

(** ** The life of a connection ([mod.rs], [connect.rs]) *)

Definition relay_pending_holepunch : M unit :=
  theirs ← gets their_id;
  match theirs with
  | None => mret tt
  | Some id =>
      m ← on_hub (fun h => try_recv h (entry cfg));
      match m with
      | None => mret tt
      | Some msg => send "relay_holepunch" (Extended id (Holepunch.encode msg))
      end
  end.

(** [wait_for_a_piece_it_has]: the count of cycles with nothing on offer. *)
Definition wait_for_a_piece_it_has (irrelevant_cycles : Z) : M Z :=
  r ← read_message;
  cycles ← match r with
           | RMessage msg => active ← take msg; mret (if (active : bool) then 0 else irrelevant_cycles + 1)
           | RTimeout =>
               choking ← gets (fun w => peer_choking (peer w));
               _ ← (if (choking : bool) then send "keepalive_while_choked" KeepAlive else mret tt);
               mret (irrelevant_cycles + 1)
           | RGone => fail (ConnectionError "wait_for_relevant_have")
           end;
  choking ← gets (fun w => peer_choking (peer w));
  if (if (choking : bool) then MAX_UNCHOKE_WAIT_TIMEOUTS else MAX_IRRELEVANT_CYCLES) <=? cycles
  then fail (ConnectionError "peer_has_no_needed_pieces") else mret cycles.

(** What is worked on next: the first piece looked ahead to, or one from the
    queue. *)
Inductive Next : Type := Work (work : PieceWork) (started : option Lookahead) | Drained | Nothing.

Definition next_piece (refused : gset Z) : M Next :=
  l ← gets ahead;
  match l with
  | la :: rest => _ ← modify (set_ahead rest); mret (Work (la_work la) (Some la))
  | [] =>
      _ ← sync;
      x ← gets (fun w => Queue.take_for (queue w) (fun piece =>
            peer_has (peer w) piece && may_request (peer w) piece && negb (bool_decide (piece ∈ refused))));
      x ← lift x;
      _ ← modify (set_queue x.1);
      mret (match x.2 with Queue.Piece work => Work work None | Queue.Done => Drained | Queue.NothingForThisPeer => Nothing end)
  end.

Definition write_to_disk (piece_index : Z) (data : list Z) : M bool :=
  _ ← sync;
  x ← gets (fun w => write_piece (dl_spans cfg) (files w) piece_index (dl_piece_length cfg) data);
  x ← lift x;
  _ ← modify (set_files x.1);
  mret (match x.2 with Ok _ => true | Err _ => false end).

(** What is done with a piece once it has been tried: the pieces refused. *)
Definition settle (work : PieceWork) (refused : gset Z) (r : result Downloaded WorkerError) : M (gset Z) :=
  match r with
  | Ok (Verified data) =>
      written ← write_to_disk (pw_index work) data;
      if negb written then
        _ ← push_back work; _ ← release_all; fail (ConnectionError "write_piece_to_disk")
      else
        first ← on_queue (fun q => Queue.mark_done q (pw_index work));
        _ ← (if (first : bool) then modify (fun w => set_results (results w ++ [(pw_index work, data)]) w) else mret tt);
        mret refused
  | Ok Refused => _ ← push_back work; _ ← release_all; mret ({[pw_index work]} ∪ refused)
  | Ok Abandoned => mret refused
  | Err e => _ ← push_back work; _ ← release_all; fail e
  end.

(** The loop of [fetch_from]. *)
Fixpoint fetch_from_loop (fuel : nat) (irrelevant_cycles : Z) (refused : gset Z) : M unit :=
  match fuel with
  | O => lift None
  | S fuel' =>
      _ ← keep_serving;
      _ ← relay_pending_holepunch;
      n ← next_piece refused;
      match n with
      | Drained => mret tt
      | Nothing => cycles ← wait_for_a_piece_it_has irrelevant_cycles; fetch_from_loop fuel' cycles refused
      | Work work started =>
          r ← try_ (download_one_piece work started refused);
          refused ← settle work refused r;
          fetch_from_loop fuel' 0 refused
      end
  end.

Definition fetch_from (fuel : nat) : M unit :=
  _ ← modify (fun w => set_ahead [] (set_meter [] w)); fetch_from_loop fuel 0 ∅.

(** [wait_for_unchoke]: every pass reads a message. *)
Fixpoint unchoke_loop (fuel : nat) (unchoke_timeouts : Z) : M unit :=
  waiting ← gets (fun w => peer_choking (peer w) && negb (has_allowed_pieces (peer w)));
  if negb waiting then mret tt
  else
    match fuel with
    | O => lift None
    | S fuel' =>
        _ ← keep_serving;
        r ← read_message;
        match r with
        | RMessage msg => _ ← take msg; unchoke_loop fuel' unchoke_timeouts
        | RTimeout =>
            let n := unchoke_timeouts + 1 in
            if MAX_UNCHOKE_WAIT_TIMEOUTS <=? n then fail (ConnectionError "peer_never_unchoked")
            else _ ← send "keepalive_during_unchoke_wait" KeepAlive; unchoke_loop fuel' n
        | RGone => fail (ConnectionError "wait_for_unchoke")
        end
    end.

Definition wait_for_unchoke : M unit :=
  passes ← gets (fun w => S (length (incoming w))); unchoke_loop passes 0.

(** What the handshake says of the peer. *)
Definition set_handshake (s : PeerState.PeerState) (hs : Handshake) : PeerState.PeerState :=
  mkPeerState (am_choking s) (am_interested s) (peer_choking s) (peer_interested s) (peer_has_pieces s)
    (Handshake.supports_extensions hs) (peer_request_limit s) (supports_fast hs) (PeerState.allowed_fast s) (piece_limit s).

Definition set_interested (s : PeerState.PeerState) : PeerState.PeerState :=
  mkPeerState (am_choking s) true (peer_choking s) (peer_interested s) (peer_has_pieces s)
    (PeerState.supports_extensions s) (peer_request_limit s) (PeerState.fast s) (PeerState.allowed_fast s) (piece_limit s).

(** [Serving::begin], where there is a listener to serve from. *)
Definition greet (rounds : nat) (hs : Handshake) : M unit :=
  if upload cfg then
    _ ← sync;
    act (fun w =>
      '(st, r) ← begin sha1 rounds (seeder w) (files w) hs (Some (ip_of (peer_addr cfg))) false (clock w) (sent w, left w);
      let w := set_left st.2 (set_sent st.1 w) in
      match r with
      | Ok x => Some (from_world x w, Ok tt)
      | Err _ => Some (w, Err (ConnectionError "greet_peer"))
      end)
  else mret tt.

Definition send_interested : M unit :=
  _ ← send "send_interested" Interested; modify (fun w => set_peer (set_interested (peer w)) w).

(** [establish], from where [connect_and_handshake_with] has come to [hs], the
    peer's handshake, if it has. *)
Definition establish (rounds : nat) (hs : option Handshake) : M unit :=
  match hs with
  | None => fail (ConnectionError "connect_and_handshake")
  | Some hs =>
      n ← on_queue (fun q => (q, Queue.total_pieces q));
      _ ← modify (set_peer (set_handshake (for_torrent (Z.of_nat n)) hs));
      _ ← greet rounds hs;
      _ ← (if Handshake.supports_extensions hs then
             w ← gets (fun w => w);
             let size := s ← serving w; metadata_size (world s w) in
             send "send_extended_handshake" (Extended 0 (Extension.build_with_pex 1 size (pex_tx cfg)))
           else mret tt);
      _ ← send_interested;
      wait_for_unchoke
  end.

(** What is dropped with the connection: the upload side, and the place in the
    hub. *)
Definition hang_up : M unit :=
  s ← gets serving;
  _ ← match s with
      | None => mret tt
      | Some sv => _ ← sync; modify (fun w => set_serving None (set_seeder (dropped (world sv w)) w))
      end;
  on_hub (fun h => (leave h (peer_addr cfg) (entry cfg), tt)).

(** [run_worker], from its place in the hub on. *)
Definition run_entered (rounds fuel : nat) (hs : option Handshake) : M unit :=
  r ← try_ (_ ← establish rounds hs; fetch_from fuel);
  _ ← hang_up;
  match r with Ok _ => mret tt | Err e => fail e end.

(** ** A connection the peer made *)

Inductive Adoption : Type := Ended (r : result unit WorkerError) | ServeOn.

(** The stages after which a peer is still served. *)
Definition serves_on (e : WorkerError) : bool :=
  match e with
  | ConnectionError stage =>
      String.eqb stage (label "peer_never_unchoked") || String.eqb stage (label "peer_has_no_needed_pieces") ||
      String.eqb stage (label "peer_choked_us_mid_piece")
  | PieceHashMismatch => false
  end.

(** The closure of [run_adopted]: the connection has an upload side already;
    [peer_has] is what the peer has said it has. *)
Definition adopted_download (fuel : nat) (hs : Handshake) (peer_has : list bool) : M unit :=
  n ← on_queue (fun q => (q, Queue.total_pieces q));
  let has := resize n false peer_has in
  _ ← modify (set_peer (set_pieces (set_handshake (for_torrent (Z.of_nat n)) hs) has));
  _ ← on_queue (fun q => (Queue.note_bitfield q has, tt));
  _ ← send_interested;
  _ ← wait_for_unchoke;
  fetch_from fuel.

End worker.

(** [Holepunch::register]. *)
Definition with_entry (cfg : Config) (id : Z) : Config :=
  mkConfig (pipeline_depth cfg) (pex_tx cfg) (peer_addr cfg) id (connected cfg) (upload cfg) (dl_spans cfg) (dl_piece_length cfg).

Definition run_worker (sha1 : list Z -> list Z) (cfg : Config) (rounds fuel : nat) (hs : option Handshake) : M unit :=
  id ← on_hub (fun h => enter h (peer_addr cfg));
  run_entered sha1 (with_entry cfg id) rounds fuel hs.

Definition run_adopted (sha1 : list Z -> list Z) (cfg : Config) (fuel : nat) (hs : Handshake) (peer_has : list bool) : M Adoption :=
  id ← on_hub (fun h => enter h (peer_addr cfg));
  r ← try_ (adopted_download sha1 (with_entry cfg id) fuel hs peer_has);
  s ← gets serving;
  match s, match r with Ok _ => true | Err e => serves_on e end with
  | Some _, true => _ ← on_hub (fun h => (leave h (peer_addr cfg) id, tt)); mret ServeOn
  | _, _ => _ ← hang_up (with_entry cfg id); mret (Ended r)
  end.
