(* ===== verification/WorkerFacts.v ===== *)
(** * What a download worker does

    Theorems on [Worker.v]: a worker never panics and always comes to an end,
    whatever the peer sends and whatever the other threads do in between; what
    it reports has its hash, and is reported once; its requests are for blocks
    of the torrent; and what it claims it gives back, but for one way out that
    forgets to.

    The proofs run the worker's monad through weakest preconditions, in three
    layers: calls that leave the piece in hand alone ([quietly]), calls that
    work on it ([fetching]), and the loop over the pieces. *)

From S2P Require Import Torrent MagnetFetch.
From S2P Require Import PieceAssembler Queue Pipeline.
From S2P Require Import Prelude Str Numeral Text Bytes BTree Bencode Io Net Dicts Tracker PeerExt Metadata.
From S2P Require Import Sha256 Merkle V2Hashes FileWriter Choker PeerState Handshake Message Serving Worker.

(** ** The upload side always answers *)

(** A message the upload side may send: no request among them. *)
Definition no_request (m : Message) : Prop := match m with Request _ _ _ => False | _ => True end.

(** A call of the upload side: it writes more, and leaves the files alone. *)
Definition wrote (x x' : World) : Prop := disk x' = disk x /\ exists ms, out x' = out x ++ ms /\ Forall no_request ms.

Lemma wrote_same x x' : disk x' = disk x -> out x' = out x -> wrote x x'.
Proof. intros Hd Ho. split; [done |]. exists []. by rewrite app_nil_r. Qed.

Lemma wrote_trans x y z : wrote x y -> wrote y z -> wrote x z.
Proof.
  intros (Hd & ms & Ho & Hm) (Hd' & ms' & Ho' & Hm'). split; [congruence |]. exists (ms ++ ms').
  rewrite Ho', Ho, app_assoc. by rewrite Forall_app.
Qed.

Lemma write_wrote x m : no_request m -> wrote x (write x m).1.
Proof.
  intros Hm. destruct (write_cases x m) as [(n & _ & ->) | [_ ->]]; [| by apply wrote_same].
  split; [done |]. exists [m]. by rewrite Forall_singleton.
Qed.

Definition answers {A} (x : World) (o : option (World * result A ServeError)) : Prop := exists x' r, o = Some (x', r) /\ wrote x x'.

Lemma answers_here {A} x x' (r : result A ServeError) : disk x' = disk x -> out x' = out x -> answers x (Some (x', r)).
Proof. intros. eexists _, _. split; [done |]. by apply wrote_same. Qed.

Lemma answers_write {A} x m (k : World -> option (World * result A ServeError)) :
  no_request m -> (forall x', disk x' = disk x -> answers x' (k x')) -> answers x (write_then x m k).
Proof.
  intros Hm Hk. unfold write_then. pose proof (write_wrote x m Hm) as Hw.
  destruct (write x m) as [x' [? | e]] eqn:E; cbn [fst] in Hw.
  - destruct (Hk x') as (x2 & r & -> & Hw2); [apply Hw |]. eexists _, _. split; [done |]. by eapply wrote_trans.
  - by eexists _, _.
Qed.

Lemma answers_from {A} x x1 (o : option (World * result A ServeError)) : disk x1 = disk x -> out x1 = out x -> answers x1 o -> answers x o.
Proof. intros Hd Ho (x' & r & -> & Hw). eexists _, _. split; [done |]. eapply wrote_trans; [by apply wrote_same | exact Hw]. Qed.

Lemma reject_answers x i b l : answers x (reject x i b l).
Proof. unfold reject. destruct (fast (sv x)); [| by apply answers_here]. apply answers_write; [done |]. intros. by apply answers_here. Qed.

Lemma handle_answers now m x : heard m -> answers x (handle now m x).
Proof.
  intros [Hm Hp]. destruct m; cbn [handle wf_message] in *; try (by apply answers_here).
  - unfold handle_request. cbv zeta. destruct (negb _ && negb _)%bool; [apply reject_answers |].
    destruct (_ <? _); [by apply answers_here |]. destruct (negb _); [apply reject_answers |].
    unfold read_block, read_at_global_offset.
    destruct (read_loop_total (Z.to_nat length) (spans (sh x)) (disk x) (wrap 64 (index * piece_length (sh x) + begin)) length [] ltac:(lia)) as [[block | e] E];
      rewrite E; [| by apply answers_here].
    apply answers_write; [done |]. intros. by apply answers_here.
  - destruct (_ && _)%bool.
    { destruct (parse_total payload Hp) as [r ->]. by apply answers_here. }
    destruct (_ && _)%bool; [| by apply answers_here]. unfold handle_metadata.
    destruct (metadata (sh x)) as [info |]; [| by apply answers_here]. destruct (peer_metadata_id (sv x)); [| by apply answers_here].
    destruct (decode_msg_total payload) as [r ->]; [unfold MAX_MESSAGE_LEN, i64_max in *; lia |].
    destruct r as [[piece | |] |]; try (by apply answers_here). cbv zeta. destruct (_ <? _); [by apply answers_here |].
    eapply answers_from; [| | apply answers_write; [done |]; intros; by apply answers_here]; done.
  - apply answers_write; [by destruct (hash_answer x request) |]. intros. by apply answers_here.
Qed.

Lemma announce_loop_wrote now_ : forall x index done_ told sent_, wrote x (announce_loop x index now_ done_ told sent_).1.
Proof.
  induction now_ as [| has now_ IH]; intros x index done_ told sent_; [by apply wrote_same |].
  destruct told as [| t told]; cbn [announce_loop]; [by apply wrote_same |].
  destruct (has && negb t); [| apply IH]. pose proof (write_wrote x (Have index) I) as Hw.
  destruct (write x (Have index)) as [x' [? | e]]; [| done]. cbn [fst] in Hw. eapply wrote_trans; [exact Hw |].
  eapply wrote_trans; [| apply IH]. by apply wrote_same.
Qed.

Lemma tick_wrote now x : wrote x (tick now x).1.
Proof.
  unfold tick. assert (wrote x (announce_new_pieces x).1) as Ha.
  { unfold announce_new_pieces. destruct (_ =? _); [by apply wrote_same |].
    eapply wrote_trans; [| apply announce_loop_wrote]. by apply wrote_same. }
  destruct (announce_new_pieces x) as [x1 [sent_ | e]]; [| done]. cbn [fst] in Ha.
  set (x2 := if sent_ then touch x1 now else x1). assert (wrote x x2) as H2.
  { eapply wrote_trans; [exact Ha |]. unfold x2. destruct sent_; by apply wrote_same. }
  destruct (Bool.eqb _ _); [done |].
  set (m := if is_unchoked _ _ then Unchoke else Choke). pose proof (write_wrote x2 m ltac:(unfold m; by destruct (is_unchoked _ _))) as Hw.
  destruct (write x2 m) as [x3 [? | e]]; cbn [fst] in *; (eapply wrote_trans; [exact H2 |]); [| done].
  eapply wrote_trans; [exact Hw |]. by apply wrote_same.
Qed.

(** ** Weakest preconditions *)

Definition wp {A} (m : M A) (Q : W -> result A WorkerError -> Prop) (w : W) : Prop := exists w' r, m w = Some (w', r) /\ Q w' r.

Lemma wp_mono {A} (m : M A) (P Q : W -> result A WorkerError -> Prop) w : wp m P w -> (forall w' r, P w' r -> Q w' r) -> wp m Q w.
Proof. intros (w' & r & E & H) HPQ. exists w', r. auto. Qed.

Lemma wp_ret {A} (x : A) Q w : Q w (Ok x) -> wp (mret x) Q w.
Proof. intros. by exists w, (Ok x). Qed.

Lemma wp_fail {A} e (Q : W -> result A WorkerError -> Prop) w : Q w (Err e) -> wp (fail e) Q w.
Proof. intros. by exists w, (Err e). Qed.

Lemma wp_bind {A B} (m : M A) (k : A -> M B) (Q : W -> result B WorkerError -> Prop) w :
  wp m (fun w' r => match r with Ok x => wp (k x) Q w' | Err e => Q w' (Err e) end) w -> wp (m ≫= k) Q w.
Proof.
  intros (w' & [x | e] & E & H); unfold wp, mbind, M_bind; rewrite E; [exact H | by exists w', (Err e)].
Qed.

Lemma wp_gets {A B} (f : W -> A) (k : A -> M B) Q w : wp (k (f w)) Q w -> wp (gets f ≫= k) Q w.
Proof. intros. apply wp_bind. by exists w, (Ok (f w)). Qed.

Lemma wp_modify f (Q : W -> result unit WorkerError -> Prop) w : Q (f w) (Ok tt) -> wp (modify f) Q w.
Proof. intros. by exists (f w), (Ok tt). Qed.

Lemma wp_then {B} f (k : unit -> M B) Q w : wp (k tt) Q (f w) -> wp (modify f ≫= k) Q w.
Proof. intros. apply wp_bind. by exists (f w), (Ok tt). Qed.

Lemma wp_lift {A B} (o : option A) x (k : A -> M B) Q w : o = Some x -> wp (k x) Q w -> wp (lift o ≫= k) Q w.
Proof. intros -> H. apply wp_bind. by exists w, (Ok x). Qed.

Lemma wp_try {A} (m : M A) (Q : W -> result (result A WorkerError) WorkerError -> Prop) w : wp m (fun w' r => Q w' (Ok r)) w -> wp (try_ m) Q w.
Proof. intros (w' & r & E & H). exists w', (Ok r). unfold try_. by rewrite E. Qed.

Lemma filter_fewer {A} (P Q : A -> Prop) `{!forall x, Decision (P x), !forall x, Decision (Q x)} l :
  (forall x, P x -> Q x) -> (length (filter P l) <= length (filter Q l))%nat.
Proof. intros HPQ. induction l as [| x l IH]; [done |]. rewrite !filter_cons. repeat case_decide; cbn; naive_solver lia. Qed.

Lemma filter_fewer_strict {A} (P Q : A -> Prop) `{!forall x, Decision (P x), !forall x, Decision (Q x)} l x :
  (forall x, P x -> Q x) -> x ∈ l -> Q x -> ~ P x -> (length (filter P l) < length (filter Q l))%nat.
Proof.
  intros HPQ. induction l as [| y l IH]; [by intros ?%elem_of_nil |]. rewrite !filter_cons, elem_of_cons. intros [-> | Hin] HQ HP.
  - rewrite decide_False, decide_True by done. cbn. pose proof (filter_fewer P Q l HPQ). lia.
  - specialize (IH Hin HQ HP). repeat case_decide; cbn; naive_solver lia.
Qed.

(** ** What calls leave alone *)

(** How much can still happen to the worker from outside. *)
Definition ev (w : W) : nat := (length (incoming w) + length (others w))%nat.

(** Pieces are only ever done more, and by others only if something happened. *)
Definition calm (w w' : W) : Prop :=
  (ev w' <= ev w)%nat /\ (length (incoming w') <= length (incoming w))%nat /\ done_ (queue w) ⊆ done_ (queue w') /\
  (ev w' = ev w -> done_ (queue w') = done_ (queue w)).

Lemma calm_refl w : calm w w. Proof. done. Qed.

Lemma calm_trans a b c : calm a b -> calm b c -> calm a c.
Proof.
  intros (H1 & Hi & H2 & H3) (H4 & Hi' & H5 & H6). split_and!; [lia | lia | set_solver |]. intros E. rewrite H6, H3 by lia. done.
Qed.

(** The piece in hand, and what was looked ahead to, are as they were. *)
Definition frame (w w' : W) : Prop :=
  asm w' = asm w /\ in_flight w' = in_flight w /\ ahead w' = ahead w /\ results w' = results w /\ calm w w'.

Lemma frame_refl w : frame w w. Proof. done. Qed.

Lemma frame_trans a b c : frame a b -> frame b c -> frame a c.
Proof. intros (? & ? & ? & ? & ?) (? & ? & ? & ? & ?). split_and!; try congruence. by eapply calm_trans. Qed.

(** ** The invariant *)

Section facts.
Context (sha1 : list Z -> list Z) (rounds : nat) (cfg : Config) (pieces : list PieceWork).
Context (Hnd : NoDup (indices pieces)) (Hsize : Forall (fun w => u_ok 32 (pw_length w)) pieces) (Hdepth : 0 <= pipeline_depth cfg).

(** Whether no other thread acts, and what was claimed when the worker began. *)
Context (alone : bool) (C : gset Z).

(** What a peer may send, on this side of the wire: an empty block apart,
    which the assembler may not survive. *)
Definition message_ok (m : Message) : Prop :=
  heard m /\ match m with Piece _ _ block => block <> [] /\ zlen block < 2 ^ 32 | _ => True end.

Definition event_ok (e : Event) : Prop := match e with Arrives _ m => message_ok m | Quiet _ => True end.

(** What is served from can be greeted with: the peer's allowed fast set is
    found within [rounds] digests. *)
Definition greetable (s : SeederShared) : Prop :=
  upload cfg = true -> zlen (bits (have s)) <= MAX_TRACKED_PIECES /\ fast_set_found sha1 rounds s (Some (ip_of (peer_addr cfg))).

(** What other threads do to the queue are steps of it. *)
Definition other_ok (f : Shared -> Shared) : Prop := forall s,
  rtc (Queue.step pieces) (sh_queue s) (sh_queue (f s)) /\ (greetable (sh_seeder s) -> greetable (sh_seeder (f s))).

Definition la_ok (la : Lookahead) : Prop :=
  la_work la ∈ pieces /\ work (la_assembler la) = la_work la /\ PieceAssembler.wf (la_assembler la).

(** A request for a block of the torrent. *)
Definition block_ok (index begin length : Z) : Prop :=
  exists p, p ∈ pieces /\ index = pw_index p /\ 0 <= begin /\ 0 < length <= PieceAssembler.BLOCK_SIZE /\ begin + length <= pw_length p.

Definition request_ok (m : Message) : Prop := match m with Request i b l => block_ok i b l | _ => True end.

(** A piece reported: one of the torrent, with its hash, and done. *)
Definition result_ok (q : WorkQueue) (r : Z * list Z) : Prop :=
  r.1 ∈ done_ q /\ exists p, p ∈ pieces /\ pw_index p = r.1 /\ PieceAssembler.matches sha1 p r.2 = true.

(** [cur] are the pieces in hand. *)
Record ok (cur : list Z) (w : W) : Prop := {
  ok_queue : Queue.inv pieces (queue w);
  ok_events : Forall event_ok (incoming w);
  ok_others : Forall other_ok (others w);
  ok_ahead : Forall la_ok (ahead w);
  ok_room : (length (ahead w) <= MAX_LOOKAHEAD)%nat;
  ok_outstanding : outstanding w <= Pipeline.MAX_DEPTH;
  ok_requests : Forall request_ok (sent w);
  ok_results : Forall (result_ok (queue w)) (results w);
  ok_once : NoDup (results w).*1;
  ok_claims : alone = true -> others w = [] /\ forall i, is_Some (claimed (queue w) !! i) -> i ∈ C \/ i ∈ cur \/ i ∈ la_index <$> ahead w
}.

Definition quietly {A} (cur : list Z) (m : M A) : Prop := forall w, ok cur w -> wp m (fun w' _ => ok cur w' /\ frame w w') w.

Lemma quietly_ret {A} cur (x : A) : quietly cur (mret x).
Proof using All. intros w Hw. apply wp_ret. done. Qed.

Lemma quietly_fail {A} cur e : quietly cur (fail e : M A).
Proof using All. intros w Hw. apply wp_fail. done. Qed.

Lemma quietly_bind {A B} cur (m : M A) (k : A -> M B) : quietly cur m -> (forall x, quietly cur (k x)) -> quietly cur (m ≫= k).
Proof using All.
  intros Hm Hk w Hw. apply wp_bind. eapply wp_mono; [by apply Hm |]. intros w1 [x | e] [Hw1 Hf]; [| done].
  eapply wp_mono; [by apply Hk |]. intros w2 r [Hw2 Hf2]. split; [done |]. by eapply frame_trans.
Qed.

Lemma quietly_gets {A B} cur (f : W -> A) (k : A -> M B) : (forall w, ok cur w -> wp (k (f w)) (fun w' _ => ok cur w' /\ frame w w') w) -> quietly cur (gets f ≫= k).
Proof using All. intros Hk w Hw. apply wp_gets. auto. Qed.

Lemma quietly_get {A} cur (f : W -> A) : quietly cur (gets f).
Proof using All. intros w Hw. by exists w, (Ok (f w)). Qed.

(** A change of fields that none of this is about. *)
Lemma quietly_modify cur f : (forall w, ok cur w -> ok cur (f w) /\ frame w (f w)) -> quietly cur (modify f).
Proof using All. intros Hf w Hw. apply wp_modify. auto. Qed.

Lemma quietly_lift {A} cur (o : option A) : is_Some o -> quietly cur (lift o).
Proof using All. intros [x ->] w Hw. by exists w, (Ok x). Qed.

(** ** Calls that leave the piece in hand alone *)

(** A worker whose queue was changed: no piece is claimed that was not. *)
Definition tame (q q' : WorkQueue) : Prop :=
  Queue.inv pieces q' /\ done_ q' = done_ q /\ forall i, is_Some (claimed q' !! i) -> is_Some (claimed q !! i).

Lemma results_grow q q' l : done_ q ⊆ done_ q' -> Forall (result_ok q) l -> Forall (result_ok q') l.
Proof using All. intros Hs Hl. eapply Forall_impl; [exact Hl |]. intros r [Hd Hp]. split; [set_solver | done]. Qed.

Lemma ok_set_queue cur w q : ok cur w -> tame (queue w) q -> ok cur (set_queue q w) /\ frame w (set_queue q w).
Proof using All.
  intros Hw (Hq & Hd & Hc). split.
  - destruct Hw. constructor; try assumption.
    + eapply results_grow; [| exact ok_results0]. cbn. by rewrite Hd.
    + intros Ha. destruct (ok_claims0 Ha) as [Ho Hcl]. split; [exact Ho |]. intros i Hi. apply Hcl, Hc, Hi.
  - split_and!; try done. split_and!; [done | done | cbn; by rewrite Hd | done].
Qed.

Lemma done_monotone q q' : rtc (Queue.step pieces) q q' -> done_ q ⊆ done_ q'.
Proof using All. intros Hr i. by apply (done_stays pieces). Qed.

Lemma steps_inv q q' : rtc (Queue.step pieces) q q' -> Queue.inv pieces q -> Queue.inv pieces q'.
Proof using All. induction 1 as [| a b c Hs _ IH]; [done |]. intros Ha. apply IH. by eapply Queue.step_inv. Qed.

Lemma sync_wp cur w : ok cur w -> wp sync (fun w' r => r = Ok tt /\ ok cur w' /\ frame w w' /\ (greetable (seeder w) -> greetable (seeder w'))) w.
Proof using All.
  intros Hw. unfold wp, sync. destruct (others w) as [| f rest] eqn:Eo.
  { exists w, (Ok tt). done. }
  set (s0 := mkShared _ _ _ _). eexists _, _. split; [done |]. split; [done |].
  pose proof (ok_others cur w Hw) as Ho. rewrite Eo in Ho. apply Forall_cons in Ho as [Hf Hrest]. specialize (Hf s0).
  destruct Hf as [Hf Hg]. change (sh_queue s0) with (queue w) in Hf. change (sh_seeder s0) with (seeder w) in Hg.
  split; [| split; [| exact Hg]].
  - destruct Hw. constructor; try assumption.
    + by eapply steps_inv.
    + eapply results_grow; [by apply done_monotone | done].
    + intros Ha. destruct (ok_claims0 Ha) as [Hn _]. congruence.
  - split_and!; try done. split_and!; [| done | by apply done_monotone |].
    + unfold ev. rewrite Eo. cbn. lia.
    + unfold ev. rewrite Eo. cbn. lia.
Qed.

Lemma quietly_sync cur : quietly cur sync.
Proof using All. intros w Hw. eapply wp_mono; [by apply sync_wp |]. by intros w1 r (_ & ? & ? & _). Qed.

(** The other threads' turn, and then one's own. *)
Lemma wp_sync {B} cur (k : unit -> M B) Q w : ok cur w -> (forall w', ok cur w' -> frame w w' -> wp (k tt) Q w') -> wp (sync ≫= k) Q w.
Proof using All. intros Hw Hk. apply wp_bind. eapply wp_mono; [by apply sync_wp |]. intros w' r (-> & Hw' & Hf & _). auto. Qed.

Lemma quietly_then {A} cur (k : unit -> M A) : quietly cur (k tt) -> quietly cur (sync ≫= k).
Proof using All. intros Hk. apply quietly_bind; [apply quietly_sync |]. by intros []. Qed.

Lemma quietly_on_queue {A} cur (f : WorkQueue -> WorkQueue * A) :
  (forall q, Queue.inv pieces q -> tame q (f q).1) -> quietly cur (on_queue f).
Proof using All.
  intros Hf. apply quietly_then, quietly_gets. intros w Hw. apply wp_then, wp_ret. apply ok_set_queue; [done |]. apply Hf, (ok_queue cur w Hw).
Qed.

Lemma quietly_on_hub {A} cur (f : Hub -> Hub * A) : quietly cur (on_hub f).
Proof using All. apply quietly_then, quietly_gets. intros w Hw. apply wp_then, wp_ret. split; [by destruct Hw | done]. Qed.

Lemma tame_refl q : Queue.inv pieces q -> tame q q. Proof using All. done. Qed.

(** A step that hands nothing out. *)
Lemma tame_step q q' : Queue.inv pieces q -> Queue.step pieces q q' -> done_ q' = done_ q -> claimed q' = claimed q -> tame q q'.
Proof using All. intros Hq Hs Hd Hc. split_and!; [by eapply Queue.step_inv | done |]. by rewrite Hc. Qed.

Lemma stash_tame q i p : Queue.inv pieces q -> tame q (Queue.stash_partial q i p).
Proof using All.
  intros Hq. apply tame_step; [done | constructor | |]; unfold Queue.stash_partial; case_bool_decide; try done;
    (destruct (_ <? _); [done |]); by destruct (partial q !! i); [destruct (_ <=? _) |].
Qed.

Lemma push_back_tame q p : p ∈ pieces -> Queue.inv pieces q -> tame q (Queue.push_back q p) /\ claimed (Queue.push_back q p) !! pw_index p = None.
Proof using All.
  intros Hp Hq. split.
  - split_and!; [by eapply Queue.step_inv, Queue.step_push_back | |]; unfold Queue.push_back; case_bool_decide; try done.
    cbn. intros i [_ Hi]%lookup_delete_is_Some. done.
  - unfold Queue.push_back. case_bool_decide as Hd; [| apply lookup_delete_eq].
    destruct (claimed q !! pw_index p) as [v |] eqn:E; [| done]. exfalso. by apply (part_claimed pieces q (proj1 Hq) _ _ E).
Qed.

Lemma note_have_tame q i : Queue.inv pieces q -> tame q (Queue.note_have q i).
Proof using All. intros Hq. apply tame_step; [done | constructor | |]; unfold Queue.note_have; by destruct (zget _ _). Qed.

Lemma note_bitfield_tame q l : Queue.inv pieces q -> tame q (Queue.note_bitfield q l).
Proof using All. intros Hq. by apply tame_step; [| constructor | |]. Qed.

Lemma take_partial_tame q i : Queue.inv pieces q -> tame q (Queue.take_partial q i).1.
Proof using All. intros Hq. by apply tame_step; [| constructor | |]. Qed.

Lemma ok_sent cur w l n : ok cur w -> Forall request_ok l -> ok cur (set_left n (set_sent l w)).
Proof using All. intros [] Hl. by constructor. Qed.

Lemma quietly_try_send cur m : request_ok m -> quietly cur (try_send m).
Proof using All.
  intros Hm w Hw. unfold wp, try_send. destruct (left w) as [| n]; eexists _, _; (split; [done |]); [done |].
  split; [| done]. apply ok_sent; [done |]. apply Forall_app. split; [apply (ok_requests cur w Hw) | by apply Forall_singleton].
Qed.

Lemma quietly_send cur stage m : request_ok m -> quietly cur (send stage m).
Proof using All. intros Hm. apply quietly_bind; [by apply quietly_try_send |]. intros []; [apply quietly_ret | apply quietly_fail]. Qed.

(** What the upload side left. *)
Lemma ok_from_world cur w s x : ok cur w -> wrote (world s w) x -> ok cur (from_world x w) /\ frame w (from_world x w).
Proof using All.
  intros Hw (Hd & ms & Ho & Hms). split; [| done]. destruct Hw. constructor; try assumption.
  change (sent (from_world x w)) with (out x). rewrite Ho. apply Forall_app. split; [done |].
  apply (Forall_impl _ _ _ Hms). by intros [].
Qed.

#[local] Hint Resolve quietly_ret quietly_fail quietly_get quietly_sync quietly_on_hub quietly_send quietly_try_send : quiet.
#[local] Hint Resolve quietly_bind quietly_then quietly_lift : quiet.

Lemma quietly_keep_serving cur : quietly cur keep_serving.
Proof using All.
  apply quietly_gets. intros w Hw. destruct (serving w) as [s |]; [| by apply wp_ret].
  eapply wp_sync; [exact Hw |]. intros w1 Hw1 Hf1.
  unfold wp, act. pose proof (tick_wrote (clock w1) (world s w1)) as Ht. destruct (tick _ _) as [x r]. cbn [fst] in Ht.
  eexists _, _. split; [done |]. destruct (ok_from_world _ _ _ _ Hw1 Ht). split; [done |]. by eapply frame_trans.
Qed.

Lemma quietly_serve cur m : heard m -> quietly cur (serve m).
Proof using All.
  intros Hm. apply quietly_gets. intros w Hw. destruct (serving w) as [s |]; [| by apply wp_ret].
  eapply wp_sync; [exact Hw |]. intros w1 Hw1 Hf1. unfold wp, act.
  destruct (handle_answers (clock w1) m (world s w1) Hm) as (x & r & -> & Hx). eexists _, _. split; [done |].
  destruct (ok_from_world _ _ _ _ Hw1 Hx). split; [done |]. by eapply frame_trans.
Qed.

Lemma quietly_credit cur n : quietly cur (credit n).
Proof using All.
  apply quietly_gets. intros w Hw. destruct (serving w) as [s |]; [| by apply wp_ret].
  eapply wp_sync; [exact Hw |]. intros w1 Hw1 Hf1. apply wp_modify.
  destruct (ok_from_world cur w1 s (record_download (world s w1) n) Hw1); [by apply wrote_same |]. split; [done |]. by eapply frame_trans.
Qed.

Lemma quietly_set cur f : (forall w, ok cur w -> ok cur (f w)) -> (forall w, frame w (f w)) -> quietly cur (modify f).
Proof using All. intros Ho Hf. apply quietly_modify. auto. Qed.

Lemma quietly_apply cur m : quietly cur (apply m).
Proof using All. apply quietly_gets. intros w Hw. apply wp_then, wp_ret. split; [by destruct Hw | done]. Qed.

#[local] Hint Resolve quietly_keep_serving quietly_serve quietly_credit quietly_apply : quiet.
#[local] Hint Resolve note_have_tame note_bitfield_tame stash_tame take_partial_tame tame_refl quietly_on_queue : quiet.

Lemma pex_total payload : zlen payload <= MAX_MESSAGE_LEN -> is_Some (Pex.parse_ut_pex payload).
Proof using All.
  intros Hp. unfold Pex.parse_ut_pex, decode_lenient, new_lenient.
  destruct (decode_top_total payload false) as [[v | e] ->]; [unfold MAX_MESSAGE_LEN, i64_max in *; lia | eauto | eauto].
Qed.

Lemma quietly_absorb cur m : message_ok m -> quietly cur (absorb cfg m).
Proof using All.
  intros [[_ Hp] _]. destruct m; cbn [absorb]; try apply quietly_apply.
  - apply quietly_bind; [apply quietly_on_queue; intros; by apply note_have_tame | auto with quiet].
  - apply quietly_bind; [apply quietly_on_queue; intros; by apply note_bitfield_tame | auto with quiet].
  - apply quietly_bind; [apply quietly_on_queue; intros; by apply note_bitfield_tame | auto with quiet].
  - destruct (_ =? 0).
    + apply quietly_bind; [| auto with quiet]. apply quietly_bind; [apply quietly_lift; by apply parse_total |].
      intros [h | e]; [| auto with quiet]. apply quietly_bind; [apply quietly_set; [by intros w [] | done] |]. intros _.
      destruct (Extension.peer_ut_holepunch_id h); [| auto with quiet].
      apply quietly_bind; [apply quietly_set; [by intros w [] | done] | auto with quiet].
    + destruct (_ =? _); [| destruct (_ =? _); auto with quiet]. apply quietly_bind; [| auto with quiet].
      unfold absorb_pex. destruct (pex_tx cfg); [| auto with quiet]. apply quietly_bind; [by apply quietly_lift, pex_total |].
      intros [[| a l] | e]; [auto with quiet | | auto with quiet]. apply quietly_set; [by intros w [] | done].
Qed.

Lemma quietly_holepunch cur m : message_ok m -> quietly cur (handle_holepunch cfg m).
Proof using All.
  intros [[_ Hp] _]. destruct m; cbn [handle_holepunch]; try (by auto with quiet). destruct (negb _); [auto with quiet |].
  apply quietly_bind; [apply quietly_lift, HolepunchFacts.decode_no_panic; unfold MAX_MESSAGE_LEN in Hp; lia |]. intros [[target | endpoint | target code] | e]; [| | auto with quiet..].
  - apply quietly_bind; [auto with quiet |]. intros [id' |]; [| auto with quiet].
    apply quietly_bind; [| intros; by apply quietly_send]. apply quietly_bind; [auto with quiet |].
    intros []; [auto with quiet |]. apply quietly_bind; auto with quiet.
  - apply quietly_bind; [auto with quiet |]. intros []; auto with quiet.
Qed.

Lemma quietly_take cur m : message_ok m -> quietly cur (take cfg m).
Proof using All.
  intros Hm. apply quietly_bind; [apply quietly_serve, Hm |]. intros asked.
  apply quietly_bind; [by apply quietly_absorb |]. intros active.
  apply quietly_bind; [by apply quietly_holepunch | auto with quiet].
Qed.

Lemma quietly_relay cur : quietly cur (relay_pending_holepunch cfg).
Proof using All.
  apply quietly_bind; [auto with quiet |]. intros [id |]; [| auto with quiet].
  apply quietly_bind; [auto with quiet |]. intros [msg |]; [by apply quietly_send | auto with quiet].
Qed.

Lemma quietly_stash cur i a : quietly cur (stash i a).
Proof using All. unfold stash. destruct (into_partial a); [| auto with quiet]. apply quietly_on_queue. intros. by apply stash_tame. Qed.

Lemma quietly_open cur p : quietly cur (open p).
Proof using All. apply quietly_bind; [apply quietly_on_queue; intros; by apply take_partial_tame | auto with quiet]. Qed.

Lemma quietly_cancel cur i l : quietly cur (cancel_each i l).
Proof using All. induction l as [| [b n] l IH]; cbn [cancel_each]; [auto with quiet |]. apply quietly_bind; [by apply quietly_try_send | auto]. Qed.

Lemma write_wp cur i data w : ok cur w -> wp (write_to_disk cfg i data) (fun w' r => exists b, r = Ok b /\ ok cur w' /\ frame w w') w.
Proof using All.
  intros Hw. eapply wp_sync; [exact Hw |]. intros w1 Hw1 Hf1. apply wp_gets.
  destruct (write_loop_total (length data) (dl_spans cfg) (files w1) (wrap 64 (i * dl_piece_length cfg)) data) as [x E]; [done |].
  eapply wp_lift; [exact E |]. apply wp_then, wp_ret. eexists. split; [done |]. split; [by destruct Hw1 | exact Hf1].
Qed.

(** Reading a message, which takes one from what is to come. *)
Lemma read_wp cur w :
  ok cur w -> wp read_message (fun w' r => exists x, r = Ok x /\ ok cur w' /\ frame w w' /\
    match x with RGone => w' = w | RTimeout => (ev w' < ev w)%nat /\ (length (incoming w') < length (incoming w))%nat
    | RMessage m => (ev w' < ev w)%nat /\ (length (incoming w') < length (incoming w))%nat /\ message_ok m end) w.
Proof using All.
  intros Hw. unfold wp, read_message. pose proof (ok_events cur w Hw) as He.
  destruct (incoming w) as [| e rest] eqn:Ei; [by eexists w, _; split; [done |]; eexists; split; [done |] |].
  apply Forall_cons in He as [Hm Hrest].
  assert (forall t, ok cur (set_clock t (set_incoming rest w)) /\ frame w (set_clock t (set_incoming rest w)) /\
    (ev (set_clock t (set_incoming rest w)) < ev w)%nat) as Hnext.
  { intros t. split; [destruct Hw; by constructor |]. unfold frame, calm, ev. rewrite Ei. cbn. split_and!; try done; lia. }
  destruct e as [t m | t]; destruct (Hnext t) as (? & ? & ?); (eexists _, _; split; [done |]; eexists; split; [done |]); split_and!; try done; cbn; lia.
Qed.

Lemma wp_read {B} cur (k : Read -> M B) Q w :
  ok cur w ->
  wp (k RGone) Q w ->
  (forall w', ok cur w' -> frame w w' -> (ev w' < ev w)%nat -> (length (incoming w') < length (incoming w))%nat -> wp (k RTimeout) Q w') ->
  (forall w' m, ok cur w' -> frame w w' -> (ev w' < ev w)%nat -> (length (incoming w') < length (incoming w))%nat -> message_ok m -> wp (k (RMessage m)) Q w') ->
  wp (read_message ≫= k) Q w.
Proof using All.
  intros Hw Hg Ht Hm. apply wp_bind. eapply wp_mono; [by apply (read_wp cur) |].
  intros w' r ([m | |] & -> & Hw' & Hf & Hx); [destruct Hx as (? & ? & ?); by apply Hm | destruct Hx; by apply Ht | by subst].
Qed.

(** ** Calls that work on the piece in hand *)

Definition flights (l : list Lookahead) : Z := foldr Z.add 0 ((fun la => zlen (la_in_flight la)) <$> l).

Lemma flights_app l k : flights (l ++ k) = flights l + flights k.
Proof using All. unfold flights. rewrite fmap_app. induction (_ <$> l) as [| x xs IH]; cbn; [done |]. rewrite IH. lia. Qed.

Lemma flights_nonneg l : 0 <= flights l.
Proof using All. unfold flights. induction l as [| la l IH]; cbn; [lia |]. pose proof (zlen_nonneg (la_in_flight la)). lia. Qed.

Lemma flights_alter (l : list Lookahead) k la f : l !! k = Some la -> flights (alter f k l) = flights l - zlen (la_in_flight la) + zlen (la_in_flight (f la)).
Proof using All.
  revert k. induction l as [| x l IH]; intros [| k] Hk; simplify_eq/=; unfold flights in *; cbn; [lia |].
  specialize (IH k Hk). cbn in IH. rewrite IH. lia.
Qed.

Lemma index_alter (l : list Lookahead) k la f : l !! k = Some la -> la_work (f la) = la_work la -> la_index <$> alter f k l = la_index <$> l.
Proof using All.
  intros Hk Hf. revert k Hk. induction l as [| x l IH]; intros [| k] Hk; simplify_eq/=; [unfold la_index; by rewrite Hf |]. by rewrite IH.
Qed.

Lemma Forall_alter (P : Lookahead -> Prop) (l : list Lookahead) k la f : Forall P l -> l !! k = Some la -> P (f la) -> Forall P (alter f k l).
Proof using All.
  intros Hl Hk Hf. revert k Hk. induction Hl as [| x l Hx Hl IH]; intros [| k] Hk; simplify_eq/=; constructor; auto.
Qed.

(** [ahead] changed. *)
Lemma ok_set_ahead cur cur' w l :
  ok cur w -> Forall la_ok l -> (length l <= MAX_LOOKAHEAD)%nat -> zlen (in_flight w) + flights l <= Pipeline.MAX_DEPTH ->
  (forall i, i ∈ C \/ i ∈ cur \/ i ∈ la_index <$> ahead w -> i ∈ C \/ i ∈ cur' \/ i ∈ la_index <$> l) ->
  ok cur' (set_ahead l w).
Proof using All.
  intros [] Hl Hn Hf Hc. constructor; try assumption. intros Ha. destruct (ok_claims0 Ha) as [? Hcl]. split; [done |].
  intros i Hi. by apply Hc, Hcl.
Qed.

Lemma ok_at_ahead cur w k la f :
  ok cur w -> ahead w !! k = Some la -> la_ok (f la) -> la_work (f la) = la_work la ->
  outstanding w - zlen (la_in_flight la) + zlen (la_in_flight (f la)) <= Pipeline.MAX_DEPTH -> ok cur (at_ahead k f w).
Proof using All.
  intros Hw Hk Hf Hwork Hout. pose proof Hw as []. eapply ok_set_ahead; [exact Hw | by eapply Forall_alter | by rewrite length_alter | |].
  - rewrite (flights_alter _ _ la) by done. unfold outstanding in Hout. unfold flights. lia.
  - by rewrite (index_alter _ _ la).
Qed.

Definition asm_ok (p : PieceWork) (w : W) : Prop := work (asm w) = p /\ PieceAssembler.wf (asm w).

Definition busy (p : PieceWork) (w w' : W) : Prop := asm_ok p w' /\ results w' = results w /\ calm w w'.

Lemma busy_refl p w : asm_ok p w -> busy p w w. Proof using All. done. Qed.

Lemma busy_trans p a b c : busy p a b -> busy p b c -> busy p a c.
Proof using All. intros (_ & Hr & Hc) (Ha' & Hr' & Hc'). split; [exact Ha' |]. split; [congruence |]. by eapply calm_trans. Qed.

Lemma frame_busy p w w' : asm_ok p w -> frame w w' -> busy p w w'.
Proof using All. intros [Hp Hwf] (Ha & _ & _ & Hr & Hc). split; [by split; rewrite Ha |]. by split. Qed.

Definition fetching {A} (cur : list Z) (p : PieceWork) (m : M A) : Prop :=
  forall w, ok cur w -> asm_ok p w -> wp m (fun w' _ => ok cur w' /\ busy p w w') w.

Lemma fetching_bind {A B} cur p (m : M A) (k : A -> M B) : fetching cur p m -> (forall x, fetching cur p (k x)) -> fetching cur p (m ≫= k).
Proof using All.
  intros Hm Hk w Hw Ha. apply wp_bind. eapply wp_mono; [by apply Hm |]. intros w1 [x | e] [Hw1 Hb]; [| done].
  eapply wp_mono; [by apply Hk, Hb |]. intros w2 r [Hw2 Hb2]. split; [done |]. by eapply busy_trans.
Qed.

Lemma fetching_quiet {A} cur p (m : M A) : quietly cur m -> fetching cur p m.
Proof using All. intros Hm w Hw Ha. eapply wp_mono; [by apply Hm |]. intros w1 r [Hw1 Hf]. split; [done |]. by apply frame_busy. Qed.

Lemma fetching_ret {A} cur p (x : A) : fetching cur p (mret x).
Proof using All. apply fetching_quiet, quietly_ret. Qed.

Lemma fetching_gets {A B} cur p (f : W -> A) (k : A -> M B) :
  (forall w, ok cur w -> asm_ok p w -> wp (k (f w)) (fun w' _ => ok cur w' /\ busy p w w') w) -> fetching cur p (gets f ≫= k).
Proof using All. intros Hk w Hw Ha. apply wp_gets. auto. Qed.

Lemma fetching_modify cur p f : (forall w, ok cur w -> asm_ok p w -> ok cur (f w) /\ busy p w (f w)) -> fetching cur p (modify f).
Proof using All. intros Hf w Hw Ha. apply wp_modify. auto. Qed.

(** A block recorded, or not: the assembler is as good as it was. *)
Lemma recorded_wp {B} a begin block (k : PieceAssembler.PieceAssembler -> M B) Q w :
  PieceAssembler.wf a -> u_ok 32 begin -> zlen block < 2 ^ 32 -> block <> [] ->
  (forall a', PieceAssembler.wf a' -> work a' = work a -> wp (k a') Q w) -> wp (recorded a begin block ≫= k) Q w.
Proof using All.
  intros Ha Hb Hl Hne Hk. apply wp_bind. unfold recorded.
  destruct (record_block_cases a begin block Ha Hb Hl) as [(_ & _ & E) | [(Hacc & Hge & _) | (_ & e & E)]].
  - eapply wp_lift; [exact E |]. apply wp_ret. apply Hk; [by eapply record_block_wf | done].
  - exfalso. apply (accepts_in_piece a begin block Ha Hb Hacc) in Hge as (_ & -> & _). done.
  - eapply wp_lift; [exact E |]. apply wp_ret. by apply Hk.
Qed.

Lemma ok_set_asm cur w a : ok cur w -> ok cur (set_asm a w).
Proof using All. by intros []. Qed.

Lemma ok_in_flight cur w l : ok cur w -> zlen l + flights (ahead w) <= Pipeline.MAX_DEPTH -> ok cur (set_in_flight l w).
Proof using All. by intros []. Qed.

Lemma fetching_record_here cur p begin block :
  u_ok 32 begin -> zlen block < 2 ^ 32 -> block <> [] -> fetching cur p (record_here begin block).
Proof using All.
  intros Hb Hl Hne. apply fetching_gets. intros w Hw [Hp Ha]. apply recorded_wp; [done.. |]. intros a' Ha' Hwork.
  apply wp_modify. split; [by apply ok_set_asm |]. split; [by split; cbn; congruence |]. done.
Qed.

Lemma in_ahead cur w k la : ok cur w -> ahead w !! k = Some la -> la_ok la.
Proof using All. intros Hw Hk. eapply Forall_lookup_1; [apply (ok_ahead cur w Hw) | exact Hk]. Qed.

Lemma find_ahead_lookup i w k la : find_ahead i w = Some (k, la) -> ahead w !! k = Some la /\ la_index la = i.
Proof using All. unfold find_ahead. intros (? & ? & _)%list_find_Some. done. Qed.

Lemma record_ahead_wp cur p w k la begin block :
  ok cur w -> asm_ok p w -> ahead w !! k = Some la -> u_ok 32 begin -> zlen block < 2 ^ 32 -> block <> [] ->
  wp (record_ahead k la begin block) (fun w' r => r = Ok tt /\ ok cur w' /\ busy p w w' /\ in_flight w' = in_flight w /\
    exists a', ahead w' !! k = Some (set_la_assembler a' la) /\ work a' = work (la_assembler la) /\ PieceAssembler.wf a') w.
Proof using All.
  intros Hw Hp Hk Hb Hl Hne. destruct (in_ahead _ _ _ _ Hw Hk) as (Hin & Hwork & Hwf).
  apply recorded_wp; [done.. |]. intros a' Ha' Hwork'. apply wp_modify. split; [done |].
  split; [| split; [done | split; [done |]]].
  - eapply ok_at_ahead; [done | exact Hk | | done |]; [split_and!; cbn; congruence |]. cbn. pose proof (ok_outstanding cur w Hw). lia.
  - exists a'. split; [| done]. cbn. rewrite list_lookup_alter_eq, Hk. done.
Qed.

Lemma fetching_salvage cur p i n : fetching cur p (salvage n i).
Proof using All.
  induction n as [| n IH]; cbn [salvage]; [apply fetching_ret |]. intros w Hw Ha. eapply wp_read; [exact Hw | | |].
  - apply wp_ret. done.
  - intros w' Hw' Hf _ _. apply wp_ret. split; [done |]. by apply frame_busy.
  - intros w' m Hw' Hf _ _ [[Hm _] Hblock]. pose proof (frame_busy _ _ _ Ha Hf) as Hb. pose proof Hb as [Ha' _].
    assert (forall (X : M unit), fetching cur p X -> wp X (fun w2 _ => ok cur w2 /\ busy p w w2) w') as Hgo.
    { intros X HX. eapply wp_mono; [by apply HX |]. intros w2 r [? ?]. split; [done |]. by eapply busy_trans. }
    apply Hgo. destruct m as [| | | | | | | | index begin block | | | | | | | | | | |]; try apply IH.
    destruct Hm as [_ Hbg]. destruct Hblock as [Hne Hlen]. apply fetching_bind; [| done].
    destruct (index =? i); [by apply fetching_record_here |]. apply fetching_gets. intros w1 Hw1 Ha1.
    destruct (find_ahead index w1) as [[k la] |] eqn:E; [| by apply wp_ret].
    eapply wp_mono; [apply (record_ahead_wp cur p); [done | done | by apply find_ahead_lookup in E as [? _] | done..] |]. by intros w2 r (_ & ? & ? & _).
Qed.

(** ** Requests *)

Lemma outstanding_flights w : outstanding w = zlen (in_flight w) + flights (ahead w).
Proof using All. done. Qed.

Lemma frame_outstanding w w' : frame w w' -> outstanding w' = outstanding w.
Proof using All. intros (_ & Hi & Ha & _). unfold outstanding. by rewrite Hi, Ha. Qed.

Lemma next_requests_ok a n :
  PieceAssembler.wf a -> work a ∈ pieces ->
  exists a' (reqs : list BlockRequest), next_requests a n = Some (a', reqs) /\ PieceAssembler.wf a' /\ work a' = work a /\ zlen reqs <= Z.of_nat n /\
    Forall (fun r : BlockRequest => block_ok r.1.1 r.1.2 r.2) reqs.
Proof using All.
  intros Ha Hin. destruct (next_requests_spec a n Ha) as (a' & E & _ & Hwf & Hwork & _). eexists _, _. split; [exact E |]. split_and!; try done.
  - unfold zlen. rewrite length_fmap, length_take. lia.
  - apply Forall_fmap, Forall_forall. intros b Hb%elem_of_take. destruct Hb as (j & Hj & _). apply list_elem_of_lookup_2 in Hj.
    destruct (to_ask_in a b Ha Hj) as [[Hb0 Hb] _]. apply (block_in_piece a b Ha) in Hb.
    exists (work a). unfold the_request, PieceAssembler.BLOCK_SIZE in *. cbn. split_and!; try done; lia.
Qed.

Lemma send_requests_wp cur p push i n L (reqs : list BlockRequest) : forall w,
  (forall r w, ok cur w -> asm_ok p w -> length (ahead w) = L -> outstanding w < Pipeline.MAX_DEPTH ->
     ok cur (push r w) /\ busy p w (push r w) /\ length (ahead (push r w)) = L /\ outstanding (push r w) = outstanding w + 1) ->
  ok cur w -> asm_ok p w -> length (ahead w) = L -> Forall (fun r : BlockRequest => block_ok r.1.1 r.1.2 r.2) reqs ->
  outstanding w + zlen reqs <= Pipeline.MAX_DEPTH ->
  wp (send_requests push i n reqs) (fun w' r => ok cur w' /\ busy p w w' /\
    match r with Ok _ => length (ahead w') = L /\ outstanding w' = outstanding w + zlen reqs | Err _ => True end) w.
Proof using All.
  induction reqs as [| [[index begin] len] reqs IH]; intros w Hpush Hw Ha HL Hr Hout; cbn [send_requests].
  { apply wp_ret. split; [done |]. split; [done |]. split; [done |]. unfold zlen. cbn. lia. }
  apply Forall_cons in Hr as [Hreq Hr]. cbn in Hreq. rewrite zlen_cons in *. pose proof (zlen_nonneg reqs).
  apply wp_bind. eapply wp_mono; [by apply (quietly_try_send cur (Request index begin len) Hreq) |].
  intros w1 [[|] | e] [Hw1 Hf]; pose proof (frame_busy p _ _ Ha Hf) as Hb; pose proof Hb as [Ha1 _]; pose proof Hf as (_ & _ & Hah & _ & _).
  - apply wp_then. destruct (Hpush (begin, len) w1) as (Hw2 & Hb2 & HL2 & Ho2); [done | done | congruence | rewrite (frame_outstanding _ _ Hf); lia |].
    rewrite (frame_outstanding _ _ Hf) in Ho2.
    eapply wp_mono; [apply IH; [done | done | by apply Hb2 | done | done | lia] |].
    intros w3 r (Hw3 & Hb3 & Hpost). split; [done |]. split; [by do 2 (eapply busy_trans; [eassumption |]) |].
    destruct r; [| done]. split; [by destruct Hpost |]. destruct Hpost. lia.
  - apply wp_bind. eapply wp_mono; [by apply (fetching_salvage cur p) |]. intros w2 [[] | e] [Hw2 Hb2].
    + apply wp_fail. split; [done |]. split; [by eapply busy_trans | done].
    + split; [done |]. split; [by eapply busy_trans | done].
  - done.
Qed.

Lemma push_here_ok cur p r w :
  ok cur w -> asm_ok p w -> outstanding w < Pipeline.MAX_DEPTH ->
  ok cur (push_here r w) /\ busy p w (push_here r w) /\ length (ahead (push_here r w)) = length (ahead w) /\ outstanding (push_here r w) = outstanding w + 1.
Proof using All.
  intros Hw Ha Ho. rewrite outstanding_flights in Ho. assert (zlen (in_flight w ++ [r]) = zlen (in_flight w) + 1) as Hz by (rewrite zlen_app; done).
  split; [apply ok_in_flight; [done | lia] |]. split; [done |]. split; [done |]. rewrite !outstanding_flights.
  change (in_flight (push_here r w)) with (in_flight w ++ [r]). change (ahead (push_here r w)) with (ahead w). lia.
Qed.

Lemma push_ahead_ok cur p k r w :
  (k < length (ahead w))%nat -> ok cur w -> asm_ok p w -> outstanding w < Pipeline.MAX_DEPTH ->
  ok cur (push_ahead k r w) /\ busy p w (push_ahead k r w) /\ length (ahead (push_ahead k r w)) = length (ahead w) /\
  outstanding (push_ahead k r w) = outstanding w + 1.
Proof using All.
  intros [la Hk]%lookup_lt_is_Some_2 Hw Ha Ho. pose proof (in_ahead _ _ _ _ Hw Hk) as Hla. unfold push_ahead.
  assert (zlen (la_in_flight la ++ [r]) = zlen (la_in_flight la) + 1) as Hz by (rewrite zlen_app; done).
  split; [eapply ok_at_ahead; [done | exact Hk | exact Hla | done |]; cbn; lia |]. split; [done |]. split; [cbn; by rewrite length_alter |].
  rewrite !outstanding_flights. cbn [in_flight at_ahead set_ahead ahead]. rewrite (flights_alter _ _ la) by done. cbn. lia.
Qed.

Lemma ask_ahead_wp cur p i n room todo : forall k w,
  ok cur w -> asm_ok p w -> (k + todo = length (ahead w))%nat -> 0 < room -> outstanding w + room <= Pipeline.MAX_DEPTH ->
  wp (ask_ahead todo k i n room) (fun w' r => ok cur w' /\ busy p w w' /\
    match r with
    | Ok true => length (ahead w') = length (ahead w) /\ outstanding w < outstanding w'
    | Ok false => length (ahead w') = length (ahead w) /\ outstanding w' = outstanding w
    | Err _ => True
    end) w.
Proof using All.
  induction todo as [| todo IH]; intros k w Hw Ha Hk Hroom Hout; cbn [ask_ahead].
  { apply wp_ret. done. }
  apply wp_gets. destruct (lookup_lt_is_Some_2 (ahead w) k) as [la Hla]; [lia |]. eapply wp_lift; [exact Hla |].
  destruct (in_ahead _ _ _ _ Hw Hla) as (Hin & Hwork & Hwf).
  destruct (next_requests_ok (la_assembler la) (Z.to_nat room) Hwf) as (a' & reqs & E & Hwf' & Hwork' & Hlen & Hreqs); [by rewrite Hwork |].
  eapply wp_lift; [exact E |]. apply wp_then. cbn [fst snd]. set (w1 := at_ahead k _ w).
  assert (ok cur w1) as Hw1.
  { eapply ok_at_ahead; [done | exact Hla | split_and!; cbn; congruence | done |]. cbn. pose proof (ok_outstanding _ _ Hw). lia. }
  assert (length (ahead w1) = length (ahead w)) as Hl1 by (cbn; by rewrite length_alter).
  assert (outstanding w1 = outstanding w) as Ho1.
  { rewrite !outstanding_flights. cbn [in_flight at_ahead set_ahead ahead w1]. rewrite (flights_alter _ _ la) by done. cbn. lia. }
  assert (busy p w w1) as Hb1 by done. pose proof Hb1 as [Ha1 _].
  destruct reqs as [| r reqs].
  - eapply wp_mono; [apply IH; [done | done | lia | done | lia] |]. intros w2 r (Hw2 & Hb2 & Hpost). rewrite Hl1, Ho1 in Hpost.
    split; [done |]. split; [exact (busy_trans _ _ _ _ Hb1 Hb2) | done].
  - apply wp_bind. eapply wp_mono.
    { apply (send_requests_wp cur p _ i n (length (ahead w))); [| done | done | done | done | rewrite Ho1; lia].
      intros r1 w2 Hw2 Ha2 HL Ho2. rewrite <- HL. apply push_ahead_ok; try done. lia. }
    intros w2 [[] | e] (Hw2 & Hb2 & Hpost).
    + apply wp_ret. split; [done |]. split; [exact (busy_trans _ _ _ _ Hb1 Hb2) |]. destruct Hpost as [HL Ho2]. split; [done |].
      rewrite zlen_cons in Ho2. pose proof (zlen_nonneg reqs). lia.
    + split; [done |]. split; [exact (busy_trans _ _ _ _ Hb1 Hb2) | done].
Qed.

(** ** Looking ahead *)

Lemma ok_weaken cur cur' w : (forall i, i ∈ cur -> i ∈ cur') -> ok cur w -> ok cur' w.
Proof using All. intros Hs []. constructor; try assumption. intros Ha. destruct (ok_claims0 Ha) as [? Hc]. split; [done |]. intros i Hi. destruct (Hc i Hi) as [? | [? | ?]]; auto. Qed.

(** A piece handed out by the queue is in hand. *)
Lemma ok_taken cur w has dup q' v :
  ok cur w -> take_outcome (queue w) has dup q' (Queue.Piece v) ->
  ok (pw_index v :: cur) (set_queue q' w) /\ frame w (set_queue q' w) /\ v ∈ pieces /\ pw_index v ∉ done_ q'.
Proof using All.
  intros Hw Hout. pose proof (ok_queue _ _ Hw) as [Hp Hs].
  destruct (take_piece_todo pieces _ _ _ _ _ Hp Hout) as ([Hnot Hin]%list_elem_of_filter & _ & Hd).
  assert (Queue.inv pieces q') as Hq'.
  { split; [by eapply take_partitioned |]. inversion Hout; subst; [| done]. destruct Hs. by split. }
  split; [| split; [| split; [done | by rewrite Hd]]].
  - destruct Hw. constructor; try assumption.
    + eapply results_grow; [| exact ok_results0]. cbn. by rewrite Hd.
    + intros Ha. destruct (ok_claims0 Ha) as [Ho Hc]. split; [done |]. intros i Hi.
      rewrite elem_of_cons. destruct (decide (i = pw_index v)) as [-> | Hne]; [auto |].
      destruct (Hc i) as [? | [? | ?]]; [| auto | auto | auto]. inversion Hout; subst; [| done]. cbn in Hi. by rewrite lookup_insert_ne in Hi.
  - split_and!; try done. split_and!; [done | done | cbn; by rewrite Hd | done].
Qed.

Lemma on_queue_wp {A} cur (f : WorkQueue -> WorkQueue * A) w :
  ok cur w -> wp (on_queue f) (fun w' r => exists w1, ok cur w1 /\ frame w w1 /\ r = Ok (f (queue w1)).2 /\ w' = set_queue (f (queue w1)).1 w1) w.
Proof using All. intros Hw. eapply wp_sync; [exact Hw |]. intros w1 Hw1 Hf. apply wp_gets, wp_then, wp_ret. by exists w1. Qed.

Lemma resume_work v partial : work (resume v partial) = v.
Proof using All. unfold resume. by destruct (_ && _)%bool. Qed.

Lemma open_wp cur v w :
  ok cur w -> v ∈ pieces ->
  wp (open v) (fun w' r => exists a b, r = Ok (a, b) /\ PieceAssembler.wf a /\ work a = v /\ ok cur w' /\ frame w w') w.
Proof using All.
  intros Hw Hv. pose proof (proj1 (Forall_forall _ _) Hsize v Hv) as Hlen. cbn in Hlen.
  apply wp_bind. eapply wp_mono; [by apply (on_queue_wp cur) |]. intros w2 r (w1 & Hw1 & Hf & -> & ->).
  apply wp_ret. cbn [snd fst Queue.take_partial].
  destruct (ok_set_queue cur w1 _ Hw1 (take_partial_tame _ (pw_index v) (ok_queue _ _ Hw1))) as [Hw2 Hf2].
  assert (frame w (set_queue (Queue.take_partial (queue w1) (pw_index v)).1 w1)) by (by eapply frame_trans).
  destruct (partial (queue w1) !! pw_index v) as [partial |]; eexists _, _; (split; [done |]).
  - split; [by apply resume_wf |]. split; [apply resume_work | done].
  - split; [by apply new_wf | done].
Qed.

Lemma take_ahead_wp cur p i refused declined w :
  ok cur w -> asm_ok p w ->
  wp (take_ahead refused declined i) (fun w' r => ok cur w' /\ busy p w w' /\
    (r = Ok true -> (length (ahead w) < MAX_LOOKAHEAD)%nat /\ length (ahead w') = S (length (ahead w)) /\ outstanding w' = outstanding w)) w.
Proof using All.
  intros Hw Ha. apply wp_gets. destruct (Nat.leb_spec MAX_LOOKAHEAD (length (ahead w))) as [| Hroom]; [by apply wp_ret |].
  eapply wp_sync; [exact Hw |]. intros w1 Hw1 Hf1. apply wp_gets. unfold Queue.take_pending_for. set (has := may_take_ahead _ _ _ _).
  destruct (take_work_outcome (queue w1) has false) as (q' & t & E & Hout). rewrite E. cbn [mbind option_bind].
  eapply wp_lift; [done |]. apply wp_then. cbn [fst snd].
  assert (t = Queue.NothingForThisPeer \/ t = Queue.Done -> ok cur (set_queue q' w1) /\ busy p w (set_queue q' w1)) as Hnone.
  { intros Ht. assert (q' = queue w1) as -> by (inversion Hout; subst; naive_solver). split; [by destruct Hw1 |].
    apply (frame_busy p _ _ Ha) in Hf1. exact Hf1. }
  destruct t as [v | |]; [| apply wp_ret; split_and!; [by apply Hnone; auto.. | done] | apply wp_ret; split_and!; [by apply Hnone; auto.. | done]].
  destruct (ok_taken _ _ _ _ _ _ Hw1 Hout) as (Hw2 & Hf2 & Hv & _).
  apply wp_bind. eapply wp_mono; [by apply open_wp |]. intros w3 r (a & b & -> & Hwf & Hwork & Hw3 & Hf3). cbn [fst snd].
  pose proof (frame_trans _ _ _ Hf1 (frame_trans _ _ _ Hf2 Hf3)) as Hf. pose proof (frame_busy p _ _ Ha Hf) as Hb.
  pose proof Hf as (_ & Hi3 & Ha3 & _). pose proof (frame_outstanding _ _ Hf) as Ho3.
  apply wp_then, wp_ret. split; [| split; [exact Hb |]].
  - eapply ok_set_ahead; [exact Hw3 | | | |].
    + apply Forall_app. split; [apply (ok_ahead _ _ Hw3) |]. apply Forall_singleton. by split_and!.
    + rewrite length_app, Ha3. cbn. lia.
    + rewrite flights_app. pose proof (ok_outstanding _ _ Hw3) as Ho. rewrite outstanding_flights in Ho. change (flights [_]) with 0. lia.
    + intros j. rewrite fmap_app, elem_of_app, elem_of_cons. cbn. rewrite list_elem_of_singleton. unfold la_index at 2. cbn. tauto.
  - intros _. split; [done |]. rewrite <- Ha3, <- Ho3. split; [cbn; rewrite length_app; cbn; lia |].
    rewrite !outstanding_flights. cbn [in_flight ahead set_ahead]. rewrite flights_app. change (flights [_]) with 0. lia.
Qed.

(** The inner loop has passes enough: each sends a request or takes a piece. *)
Lemma ask_wp cur p i refused declined n depth fuel : forall w,
  p ∈ pieces -> ok cur w -> asm_ok p w -> depth <= Pipeline.MAX_DEPTH ->
  (Z.to_nat (depth - outstanding w) + (MAX_LOOKAHEAD - length (ahead w)) < fuel)%nat ->
  wp (ask fuel refused declined i n depth) (fun w' _ => ok cur w' /\ busy p w w') w.
Proof using All.
  induction fuel as [| fuel IH]; intros w Hp Hw Ha Hd Hf; [lia |]. cbn [ask]. apply wp_gets.
  destruct (Z.leb_spec depth (outstanding w)) as [| Hlt]; [by apply wp_ret |]. apply wp_gets.
  assert (forall w1, ok cur w1 -> busy p w w1 ->
    (Z.to_nat (depth - outstanding w1) + (MAX_LOOKAHEAD - length (ahead w1)) < Z.to_nat (depth - outstanding w) + (MAX_LOOKAHEAD - length (ahead w)))%nat ->
    wp (ask fuel refused declined i n depth) (fun w' _ => ok cur w' /\ busy p w w') w1) as Hagain.
  { intros w1 Hw1 Hb1 Hless. eapply wp_mono; [apply IH; [done | done | apply Hb1 | done | lia] |].
    intros w2 r [? ?]. split; [done |]. by apply (busy_trans _ _ w1). }
  pose proof Ha as [Hwork Hwf]. destruct (next_requests_ok (asm w) (Z.to_nat (depth - outstanding w)) Hwf) as (a' & reqs & E & Hwf' & Hwork' & Hlen & Hreqs); [by rewrite Hwork |].
  eapply wp_lift; [exact E |]. apply wp_then. cbn [fst snd]. set (w1 := set_asm a' w).
  assert (ok cur w1) as Hw1 by (by apply ok_set_asm). assert (busy p w w1) as Hb1 by (split; [split; cbn; congruence | done]).
  pose proof Hb1 as [Ha1 _]. change (outstanding w) with (outstanding w1) in *. change (length (ahead w)) with (length (ahead w1)) in *.
  destruct reqs as [| r reqs].
  - apply wp_gets. apply wp_bind. eapply wp_mono; [apply (ask_ahead_wp cur p); [done | done | done | lia | lia] |].
    intros w2 [[|] | e] (Hw2 & Hb2 & Hpost); pose proof (busy_trans _ _ _ _ Hb1 Hb2) as Hb12.
    + destruct Hpost as [HL Ho]. apply Hagain; [done | done | lia].
    + destruct Hpost as [HL Ho]. apply wp_bind. eapply wp_mono; [apply (take_ahead_wp cur p); [done | apply Hb2] |].
      intros w3 [[|] | e] (Hw3 & Hb3 & Hpost); pose proof (busy_trans _ _ _ _ Hb12 Hb3).
      * destruct (Hpost eq_refl) as (? & ? & ?). apply Hagain; [done | done | lia].
      * by apply wp_ret.
      * done.
    + done.
  - apply wp_bind. eapply wp_mono.
    { apply (send_requests_wp cur p _ i n (length (ahead w1))); [| done | done | done | done | lia].
      intros r1 w2 Hw2 Ha2 HL Ho2. rewrite <- HL. by apply push_here_ok. }
    rewrite zlen_cons. pose proof (zlen_nonneg reqs). intros w2 [[] | e] (Hw2 & Hb2 & Hpost); pose proof (busy_trans _ _ _ _ Hb1 Hb2); [| done].
    destruct Hpost as [HL Ho]. apply Hagain; [done | done | lia].
Qed.

(** ** What arrives *)

Lemma flights_zero l : Forall (fun la => la_in_flight la = []) l -> flights l = 0.
Proof using All. unfold flights. induction 1 as [| la l E _ IH]; [done |]. cbn in *. rewrite E, IH. done. Qed.

Lemma forget_all_ok cur p w : ok cur w -> asm_ok p w -> ok cur (forget_all w) /\ busy p w (forget_all w).
Proof using All.
  intros Hw [Hp Hwf]. split; [| by split; [split; [done | by apply forget_requests_wf] |]].
  set (w1 := set_asm (forget_requests (asm w)) (set_in_flight [] w)).
  assert (ok cur w1) as Hw1.
  { apply ok_set_asm, ok_in_flight; [done |]. pose proof (ok_outstanding _ _ Hw) as Ho. rewrite outstanding_flights in Ho. pose proof (zlen_nonneg (in_flight w)).
    change (0 + flights (ahead w) <= Pipeline.MAX_DEPTH). lia. }
  eapply (ok_set_ahead cur cur w1); [exact Hw1 | | rewrite length_fmap; apply (ok_room _ _ Hw1) | |].
  - apply Forall_fmap. eapply Forall_impl; [apply (ok_ahead _ _ Hw) |]. intros la (? & ? & ?). split_and!; [done | done | by apply forget_requests_wf].
  - rewrite flights_zero; [done |]. apply Forall_fmap. by apply Forall_forall.
  - intros i. rewrite <- list_fmap_compose. done.
Qed.

Lemma zlen_without b l : zlen (without b l) <= zlen l.
Proof using All. unfold zlen, without. pose proof (length_filter (fun r : Z * Z => r.1 <> b) l). lia. Qed.

Lemma fetching_without_here cur p b : fetching cur p (modify (fun w => set_in_flight (without b (in_flight w)) w)).
Proof using All.
  apply fetching_modify. intros w Hw Ha. split; [| done]. apply ok_in_flight; [done |]. pose proof (zlen_without b (in_flight w)).
  pose proof (ok_outstanding _ _ Hw) as Ho. rewrite outstanding_flights in Ho. lia.
Qed.

Lemma fetching_on_block cur p i index begin block pass :
  u_ok 32 begin -> zlen block < 2 ^ 32 -> block <> [] -> fetching cur p (on_block i index begin block pass).
Proof using All.
  intros Hb Hl Hne. apply fetching_bind.
  - destruct (index =? i).
    + apply fetching_bind; [by apply fetching_record_here |]. intros _. apply fetching_without_here.
    + apply fetching_gets. intros w Hw Ha. destruct (find_ahead index w) as [[k la] |] eqn:E; [| by apply wp_ret].
      apply find_ahead_lookup in E as [Hk _]. apply wp_bind. eapply wp_mono; [by apply (record_ahead_wp cur p) |].
      intros w1 r (-> & Hw1 & Hb1 & Hi1 & a' & Hk1 & Hwork & Hwf). apply wp_modify. split; [| exact Hb1].
      destruct (in_ahead _ _ _ _ Hw1 Hk1) as (? & ? & ?).
      eapply ok_at_ahead; [done | exact Hk1 | by split_and! | done |]. cbn [la_in_flight set_la_in_flight set_la_assembler]. pose proof (zlen_without begin (la_in_flight la)).
      pose proof (ok_outstanding _ _ Hw1). lia.
  - intros _. apply fetching_quiet. apply quietly_bind; [apply quietly_set; [by intros w [] | done] |]. intros _.
    apply quietly_bind; [apply quietly_credit | intros; apply quietly_ret].
Qed.

Lemma fetching_on_reject_here cur p begin pass : 0 <= begin -> fetching cur p (on_reject_here begin pass).
Proof using All.
  intros Hb. apply fetching_bind; [apply fetching_without_here |]. intros _. apply fetching_gets. intros w Hw [Hp Hwf].
  destruct (refuse_request_spec (asm w) begin Hwf Hb) as (a' & E & Hwf' & Hwork & _). eapply wp_lift; [exact E |].
  apply wp_then, wp_ret. split; [by apply ok_set_asm |]. split; [by split; cbn; congruence | done].
Qed.

(** A piece given back is not in hand. *)
Lemma push_back_wp cur v w :
  ok (pw_index v :: cur) w -> v ∈ pieces -> wp (push_back v) (fun w' r => r = Ok tt /\ ok cur w' /\ frame w w') w.
Proof using All.
  intros Hw Hv. eapply wp_mono; [by apply (on_queue_wp (pw_index v :: cur)) |]. cbn [fst snd]. intros w2 r (w1 & Hw1 & Hf & -> & ->).
  destruct (push_back_tame (queue w1) v Hv (ok_queue _ _ Hw1)) as [Ht Hnone].
  destruct (ok_set_queue _ _ _ Hw1 Ht) as [Hw2 Hf2]. split; [done |]. split; [| by eapply frame_trans].
  destruct Hw2. constructor; try assumption. intros Ha. destruct (ok_claims0 Ha) as [Ho Hc]. split; [done |]. intros i Hi.
  destruct (Hc i Hi) as [? | [[-> | ?]%elem_of_cons | ?]]; auto. cbn in Hi. rewrite Hnone in Hi. by destruct Hi.
Qed.

Lemma release_wp cur la w :
  ok (la_index la :: cur) w -> la_ok la -> wp (release la) (fun w' r => r = Ok tt /\ ok cur w' /\ frame w w') w.
Proof using All.
  intros Hw (Hv & _ & _). apply wp_bind. eapply wp_mono with (P := fun w' r => r = Ok tt /\ ok (la_index la :: cur) w' /\ frame w w').
  - unfold stash. destruct (into_partial _) as [partial |]; [| by apply wp_ret].
    eapply wp_mono; [by apply (on_queue_wp (la_index la :: cur)) |]. intros w2 r (w1 & Hw1 & Hf & -> & ->). split; [done |].
    destruct (ok_set_queue _ _ _ Hw1 (stash_tame _ (pw_index (la_work la)) partial (ok_queue _ _ Hw1))). split; [done |]. by eapply frame_trans.
  - intros w1 r (-> & Hw1 & Hf1). eapply wp_mono; [by apply (push_back_wp cur) |]. intros w2 r (-> & Hw2 & Hf2). split; [done |]. split; [done |]. by eapply frame_trans.
Qed.

Lemma Forall_delete (P : Lookahead -> Prop) (l : list Lookahead) k : Forall P l -> Forall P (delete k l).
Proof using All. intros Hl. rewrite delete_take_drop. apply Forall_app. split; [by apply Forall_take | by apply Forall_drop]. Qed.

Lemma delete_split (l : list Lookahead) k la : l !! k = Some la -> l ≡ₚ la :: delete k l.
Proof using All. apply delete_Permutation. Qed.

Lemma flights_perm l l' : l ≡ₚ l' -> flights l = flights l'.
Proof using All. unfold flights. induction 1; cbn in *; lia. Qed.

Lemma fetching_on_reject_ahead cur p index begin pass : 0 <= begin -> fetching cur p (on_reject_ahead index begin pass).
Proof using All.
  intros Hb. apply fetching_gets. intros w Hw Ha. destruct (find_ahead index w) as [[k la] |] eqn:E; [| by apply wp_ret].
  apply find_ahead_lookup in E as [Hk _]. destruct (in_ahead _ _ _ _ Hw Hk) as (Hin & Hwork & Hwf).
  destruct (refuse_request_spec (la_assembler la) begin Hwf Hb) as (a' & E & Hwf' & Hwork' & _). eapply wp_lift; [exact E |]. cbv zeta.
  set (la' := set_la_refusals _ _). assert (la_ok la') as Hla' by (split_and!; cbn; congruence).
  pose proof (zlen_without begin (la_in_flight la)). pose proof (ok_outstanding _ _ Hw) as Ho.
  destruct (_ <=? _).
  - apply wp_then. pose proof (delete_split _ _ _ Hk) as Hperm.
    assert (ok (la_index la' :: cur) (set_ahead (delete k (ahead w)) w)) as Hw1.
    { eapply ok_set_ahead; [exact Hw | apply Forall_delete, (ok_ahead _ _ Hw) | | |].
      - pose proof (ok_room _ _ Hw) as Hr. apply Permutation_length in Hperm. cbn in Hperm. lia.
      - rewrite outstanding_flights, (flights_perm _ _ Hperm) in Ho. unfold flights in *. cbn in Ho. pose proof (zlen_nonneg (la_in_flight la)). lia.
      - intros j. assert (j ∈ la_index <$> ahead w -> j = la_index la' \/ j ∈ la_index <$> delete k (ahead w)) as Hmem.
        { intros Hj. apply (Permutation_map la_index) in Hperm. apply elem_of_cons.
          change (j ∈ map la_index (la :: delete k (ahead w))). by rewrite <- Hperm. }
        rewrite elem_of_cons. tauto. }
    apply wp_bind. eapply wp_mono; [by apply (release_wp cur) |]. intros w2 r (-> & Hw2 & Hf2).
    apply wp_ret. split; [done |]. assert (asm_ok p (set_ahead (delete k (ahead w)) w)) as Ha1 by done. by apply (frame_busy p _ _ Ha1) in Hf2.
  - apply wp_then, wp_ret. split; [| done]. eapply ok_at_ahead; [done | exact Hk | done | done |]. cbn. lia.
Qed.

Lemma fetching_on_message cur p i m pass : message_ok m -> fetching cur p (on_message cfg i m pass).
Proof using All.
  intros Hm. pose proof Hm as [[Hwf _] Hblock]. apply fetching_gets. intros w Hw Ha. revert w Hw Ha.
  assert (fetching cur p (_ ← take cfg m; mret (pass, false))) as Htake.
  { apply fetching_bind; [by apply fetching_quiet, quietly_take | intros; apply fetching_ret]. }
  destruct m; try exact Htake.
  - intros w Hw Ha. destruct (_ || _)%bool; [| by apply wp_ret]. revert w Hw Ha.
    apply fetching_bind; [| intros; apply fetching_ret]. destruct Hwf, Hblock. by apply fetching_on_block.
  - intros w Hw Ha. destruct Hwf as (_ & [Hb _] & _). destruct (_ && _)%bool; [by apply fetching_on_reject_here |].
    destruct (existsb _ _); [| by apply Htake]. revert w Hw Ha. apply fetching_bind; [by apply fetching_on_reject_ahead | intros; apply fetching_ret].
Qed.

(** ** One piece *)

Lemma fetching_request_or_forget cur p refused pass : p ∈ pieces -> fetching cur p (request_or_forget cfg refused (pw_index p) pass).
Proof using All.
  intros Hp w Hw Ha. apply wp_gets. destruct (negb _).
  { apply wp_then, wp_ret. by apply forget_all_ok. }
  apply wp_gets, wp_gets. set (depth := depth_for _ _ _). pose proof (depth_for_bounds (rate (meter w) (clock w)) (pipeline_depth cfg) (peer_request_limit (peer w)) Hdepth) as (Hd & _).
  fold depth in Hd. apply wp_bind. eapply wp_mono.
  - apply (ask_wp cur p); [done | done | done | apply Hd |]. rewrite outstanding_flights. pose proof (flights_nonneg (ahead w)). pose proof (zlen_nonneg (in_flight w)).
    unfold ASK_PASSES. unfold Pipeline.MAX_DEPTH in *. lia.
  - intros w1 [[] | e] [Hw1 Hb1]; [by apply wp_ret | done].
Qed.

(** How a try at a piece ended, and what it took. *)
Definition fetched (p : PieceWork) (w w' : W) (r : result Fetched WorkerError) : Prop :=
  match r with
  | Ok FComplete => PieceAssembler.is_complete (asm w') = true /\ (ev w' = ev w -> pw_index p ∉ done_ (queue w'))
  | Ok FAbandoned => pw_index p ∈ done_ (queue w') /\ (ev w' = ev w -> ahead w' = ahead w)
  | Ok FRefused => (ev w' < ev w)%nat
  | Err _ => True
  end.

(** Once something has been read the rest follows. *)
Lemma fetched_later p w w1 w2 r : busy p w w1 -> (ev w1 < ev w)%nat -> busy p w1 w2 -> fetched p w1 w2 r -> fetched p w w2 r.
Proof using All. intros _ Hlt (_ & _ & Hle & _). destruct r as [[| |] |]; cbn [fetched]; [intros [? _]; split; [done |]; lia | intros [? _]; split; [done |]; lia | lia | done]. Qed.

Lemma fetch_loop_wp cur p refused fuel : forall pass w,
  p ∈ pieces -> ok cur w -> asm_ok p w -> (length (incoming w) < fuel)%nat ->
  wp (fetch_loop cfg fuel refused (pw_index p) pass) (fun w' r => ok cur w' /\ busy p w w' /\ fetched p w w' r) w.
Proof using All.
  induction fuel as [| fuel IH]; intros pass w Hp Hw Ha Hf; [lia |]. cbn [fetch_loop].
  assert (forall w3 w4 w5 pass, ok cur w5 -> busy p w w3 -> (ev w4 < ev w3)%nat -> (length (incoming w4) < length (incoming w3))%nat ->
    busy p w w4 -> busy p w4 w5 ->
    wp (fetch_loop cfg fuel refused (pw_index p) pass) (fun w' r => ok cur w' /\ busy p w w' /\ fetched p w w' r) w5) as Hagain.
  { intros w3 w4 w5 pass' Hw5 (_ & _ & Hc3) Hev Hin Hb4 Hb5. pose proof (busy_trans _ _ _ _ Hb4 Hb5) as Hb. pose proof Hb as [Ha5 _].
    destruct Hc3 as (? & ? & _). pose proof Hb5 as (_ & _ & ? & ? & _).
    eapply wp_mono; [apply IH; [done | done | done | lia] |]. intros w6 r (Hw6 & Hb6 & Hr). split; [done |]. split; [by apply (busy_trans _ _ w5) |].
    apply (fetched_later p w w5); [done | lia | done | done]. }
  apply wp_bind. eapply wp_mono; [by apply (quietly_keep_serving cur) |]. intros w1 [[] | e] [Hw1 Hf1]; [| split; [done |]; split; [by apply frame_busy | done]].
  apply wp_bind. eapply wp_mono; [by apply (on_queue_wp cur) |]. cbn [fst snd]. intros w2' r (w2 & Hw2 & Hf2 & -> & ->).
  assert (set_queue (queue w2) w2 = w2) as -> by (by destruct w2).
  pose proof (frame_trans _ _ _ Hf1 Hf2) as Hf12. pose proof (frame_busy p _ _ Ha Hf12) as Hb2. pose proof Hb2 as [Ha2 _].
  unfold Queue.is_done. case_bool_decide as Hdone.
  { apply wp_gets, wp_bind. eapply wp_mono; [by apply (quietly_cancel cur) |]. intros w3 [[] | e] [Hw3 Hf3]; pose proof (frame_trans _ _ _ Hf12 Hf3) as Hf13.
    - apply wp_ret. split; [done |]. split; [by apply frame_busy |]. cbn [fetched]. split; [| intros _; apply Hf13].
      destruct Hf3 as (_ & _ & _ & _ & _ & _ & Hs & _). set_solver.
    - split; [done |]. split; [by apply frame_busy | done]. }
  apply wp_bind. eapply wp_mono; [by apply (fetching_request_or_forget cur p) |]. intros w3 [pass3 | e] [Hw3 Hb3]; pose proof (busy_trans _ _ _ _ Hb2 Hb3) as Hb13; [| done].
  pose proof Hb3 as [Ha3 [_ Hc3]]. apply wp_gets. destruct (PieceAssembler.is_complete (asm w3)) eqn:Ec.
  { apply wp_ret. split; [done |]. split; [done |]. split; [done |]. intros Hev. destruct Hb2 as (_ & _ & Hc2). destruct Hc2 as (Hle2 & _), Hc3 as (Hle3 & _ & _ & Hsame).
    rewrite Hsame by lia. done. }
  eapply wp_read; [exact Hw3 | | |].
  - apply wp_gets, wp_fail. done.
  - intros w4 Hw4 Hf4 Hev Hin. pose proof (busy_trans _ _ _ _ Hb13 (frame_busy p _ _ Ha3 Hf4)) as Hb4. pose proof Hb4 as [Ha4 _]. apply wp_gets.
    destruct (peer_choking (peer w4)); [| by apply wp_fail]. cbv zeta. destruct (_ <=? _); [by apply wp_fail |].
    apply wp_bind. eapply wp_mono; [by apply (quietly_send cur) |]. intros w5 [[] | e] [Hw5 Hf5]; pose proof (frame_busy p _ _ Ha4 Hf5) as Hb5.
    + by apply (Hagain w3 w4).
    + split; [done |]. split; [by apply (busy_trans _ _ w4) | done].
  - intros w4 m Hw4 Hf4 Hev Hin Hm. pose proof (busy_trans _ _ _ _ Hb13 (frame_busy p _ _ Ha3 Hf4)) as Hb4. pose proof Hb4 as [Ha4 _]. apply wp_gets.
    apply wp_bind. eapply wp_mono; [by apply (fetching_on_message cur p) |]. intros w5 [[pass5 [|]] | e] [Hw5 Hb5].
    + apply wp_ret. split; [done |]. split; [by apply (busy_trans _ _ w4) |]. cbn [fetched].
      destruct Hb13 as (_ & _ & ? & _), Hb5 as (_ & _ & ? & _). lia.
    + by apply (Hagain w3 w4).
    + split; [done |]. split; [by apply (busy_trans _ _ w4) | done].
Qed.

Lemma fetch_blocks_wp cur p refused w :
  p ∈ pieces -> ok cur w -> asm_ok p w -> wp (fetch_blocks cfg refused) (fun w' r => ok cur w' /\ busy p w w' /\ fetched p w w' r) w.
Proof using All.
  intros Hp Hw Ha. apply wp_gets. pose proof Ha as [-> _]. apply wp_gets. apply fetch_loop_wp; [done | done | done | lia].
Qed.

(** What an attempt came to; [i] is the piece. *)
Definition attempted (p : PieceWork) (w w' : W) (r : result Attempt WorkerError) : Prop :=
  match r with
  | Ok (AVerified data) => PieceAssembler.matches sha1 p data = true /\ (ev w' = ev w -> pw_index p ∉ done_ (queue w'))
  | Ok AMismatch => ev w' = ev w -> pw_index p ∉ done_ (queue w')
  | Ok AAbandoned => pw_index p ∈ done_ (queue w') /\ (ev w' = ev w -> ahead w' = ahead w)
  | Ok ARefused => (ev w' < ev w)%nat
  | Err _ => True
  end.

Lemma finish_matches a data : PieceAssembler.finish sha1 a = Ok data -> PieceAssembler.matches sha1 (work a) data = true.
Proof using All.
  unfold PieceAssembler.finish. destruct (negb (PieceAssembler.is_complete a)); [done |].
  destruct (PieceAssembler.matches sha1 (work a) (buf a)) eqn:E; cbn [negb]; [by intros [= <-] | done].
Qed.

Lemma attempt_wp cur p a flight refused w :
  p ∈ pieces -> ok cur w -> work a = p -> PieceAssembler.wf a -> zlen flight + flights (ahead w) <= Pipeline.MAX_DEPTH ->
  wp (attempt sha1 cfg a flight refused) (fun w' r => ok cur w' /\ results w' = results w /\ calm w w' /\ attempted p w w' r) w.
Proof using All.
  intros Hp Hw Hwork Hwf Hfl. unfold attempt. cbv zeta. rewrite Hwork. apply wp_then. set (w0 := set_in_flight flight (set_asm a w)).
  assert (ok cur w0) as Hw0 by (by apply ok_in_flight, Hfl; apply ok_set_asm). assert (asm_ok p w0) as Ha0 by done.
  change (results w) with (results w0). assert (forall w', calm w0 w' -> calm w w') as Hcalm by done. change (attempted p w) with (attempted p w0).
  apply wp_bind, wp_try. eapply wp_mono; [by apply (fetch_blocks_wp cur p) |]. intros w1 r (Hw1 & (Ha1 & Hr1 & Hc1) & Hpost). apply wp_gets.
  assert (forall (k : M Attempt) v, (forall w2, k w2 = Some (w2, v)) ->
    (forall w2, frame w1 w2 -> attempted p w0 w2 v) ->
    wp (_ ← stash (pw_index p) (asm w1); k) (fun w' r => ok cur w' /\ results w' = results w0 /\ calm w w' /\ attempted p w0 w' r) w1) as Hstash.
  { intros k v Hk Hv. apply wp_bind. eapply wp_mono; [by apply (quietly_stash cur) |]. intros w2 r2 [Hw2 Hf2].
    pose proof Hf2 as (_ & _ & _ & Hr2 & Hc2). pose proof (calm_trans _ _ _ (Hcalm _ Hc1) Hc2).
    destruct r2 as [[] | e2]; [| split_and!; [done | congruence | done | done]].
    exists w2, v. split; [apply Hk |]. split; [done |]. split; [congruence |]. split; [done |]. by apply Hv. }
  destruct r as [[| |] | e]; cbn [fetched] in Hpost.
  - destruct Hpost as [_ Hd]. apply wp_ret. split; [done |]. split; [done |]. split; [by apply Hcalm |].
    destruct (PieceAssembler.finish sha1 (asm w1)) as [data | e] eqn:E; cbn [attempted]; [| done]. split; [| done].
    apply finish_matches in E. destruct Ha1 as [Hw' _]. by rewrite <- Hw'.
  - apply wp_ret. split; [done |]. split; [done |]. split; [by apply Hcalm | done].
  - apply (Hstash _ (Ok ARefused)); [done |]. intros w2 (_ & _ & _ & _ & ? & _). cbn [attempted]. lia.
  - by apply (Hstash _ (Err e)).
Qed.

(** What trying a piece came to. *)
Definition downloaded (p : PieceWork) (w w' : W) (r : result Downloaded WorkerError) : Prop :=
  match r with
  | Ok (Verified data) => PieceAssembler.matches sha1 p data = true /\ (ev w' = ev w -> pw_index p ∉ done_ (queue w'))
  | Ok Abandoned => pw_index p ∈ done_ (queue w') /\ (ev w' = ev w -> ahead w' = ahead w)
  | Ok Refused => (ev w' < ev w)%nat
  | Err _ => True
  end.

Definition started_ok (p : PieceWork) (w : W) (started : option Lookahead) : Prop :=
  match started with
  | Some la => la_work la = p /\ la_ok la /\ zlen (la_in_flight la) + flights (ahead w) <= Pipeline.MAX_DEPTH
  | None => True
  end.

Lemma start_wp cur p started w :
  p ∈ pieces -> ok cur w -> started_ok p w started ->
  wp (match started with
      | Some la => mret (la_assembler la, la_resumed la, la_in_flight la)
      | None => o ← open p; mret (o.1, o.2, [])
      end : M _)
     (fun w' r => exists a b fl, r = Ok (a, b, fl) /\ work a = p /\ PieceAssembler.wf a /\ zlen fl + flights (ahead w') <= Pipeline.MAX_DEPTH /\ ok cur w' /\ frame w w') w.
Proof using All.
  intros Hp Hw Hs. destruct started as [la |].
  - destruct Hs as (Hla & (_ & Hwork & Hwf) & Hfl). apply wp_ret. eexists _, _, _. split; [done |]. by rewrite Hwork, Hla.
  - apply wp_bind. eapply wp_mono; [by apply (open_wp cur) |]. intros w1 r (a & b & -> & Hwf & Hwork & Hw1 & Hf1). apply wp_ret.
    eexists _, _, _. split; [done |]. split; [done |]. split; [done |]. split; [| done].
    pose proof (ok_outstanding _ _ Hw1) as Ho. rewrite outstanding_flights in Ho. pose proof (zlen_nonneg (in_flight w1)).
    change (0 + flights (ahead w1) <= Pipeline.MAX_DEPTH). lia.
Qed.

Lemma download_wp cur p started refused w :
  p ∈ pieces -> ok cur w -> started_ok p w started ->
  wp (download_one_piece sha1 cfg p started refused)
    (fun w' r => ok cur w' /\ results w' = results w /\ calm w w' /\ downloaded p w w' r) w.
Proof using All.
  intros Hp Hw Hs. apply wp_bind. eapply wp_mono; [by apply (start_wp cur p) |].
  intros w1 r (a & resumed & fl & -> & Hwork & Hwf & Hfl & Hw1 & Hf1). pose proof Hf1 as (_ & _ & Ha1 & Hr1 & Hc1).
  pose proof (proj1 (Forall_forall _ _) Hsize p Hp) as Hlen. cbn in Hlen.
  apply wp_bind. eapply wp_mono; [by apply (attempt_wp cur p) |]. intros w2 r (Hw2 & Hr2 & Hc2 & Hpost). pose proof (calm_trans _ _ _ Hc1 Hc2) as Hc12.
  assert (results w2 = results w) as Hr12 by congruence. pose proof (proj1 Hc1) as Hle1. pose proof (proj1 Hc2) as Hle2.
  destruct r as [[data | | |] | e]; cbn [attempted] in Hpost.
  - apply wp_ret. do 3 (split; [done |]). destruct Hpost as [? Hd]. split; [done |]. intros E. apply Hd. lia.
  - destruct resumed; [| by apply wp_fail].
    apply wp_bind. eapply wp_mono.
    { apply (attempt_wp cur p); [done | done | done | by apply new_wf |]. pose proof (ok_outstanding _ _ Hw2) as Ho. rewrite outstanding_flights in Ho.
      pose proof (zlen_nonneg (in_flight w2)). change (0 + flights (ahead w2) <= Pipeline.MAX_DEPTH). lia. }
    intros w3 r (Hw3 & Hr3 & Hc3 & Hpost3). pose proof (calm_trans _ _ _ Hc12 Hc3) as Hc13. assert (results w3 = results w) as Hr13 by congruence.
    pose proof Hc3 as (Hle3 & _ & _ & Hsame3). destruct r as [[data | | |] | e]; cbn [attempted] in Hpost3.
    + apply wp_ret. do 3 (split; [done |]). destruct Hpost3 as [? Hd]. split; [done |]. intros E. apply Hd. lia.
    + by apply wp_fail.
    + apply wp_ret. do 3 (split; [done |]). cbn [downloaded]. destruct Hpost3 as [Hin _]. split; [done |].
      intros E. exfalso. rewrite Hsame3 in Hin by lia. apply Hpost; [lia | done].
    + apply wp_ret. do 3 (split; [done |]). cbn [downloaded]. lia.
    + done.
  - apply wp_ret. do 3 (split; [done |]). cbn [downloaded]. destruct Hpost as [? Hah]. split; [done |].
    intros E. rewrite <- Ha1. apply Hah. lia.
  - apply wp_ret. do 3 (split; [done |]). cbn [downloaded]. lia.
  - done.
Qed.

(** ** Giving pieces back *)

Lemma release_each_wp l : forall cur w,
  ok ((la_index <$> l) ++ cur) w -> Forall la_ok l -> wp (release_each l) (fun w' r => r = Ok tt /\ ok cur w' /\ frame w w') w.
Proof using All.
  induction l as [| la l IH]; intros cur w Hw Hl; cbn [release_each]; [by apply wp_ret |]. apply Forall_cons in Hl as [Hla Hl].
  apply wp_bind. eapply wp_mono; [by apply (release_wp ((la_index <$> l) ++ cur)) |]. intros w1 r (-> & Hw1 & Hf1).
  eapply wp_mono; [by apply IH |]. intros w2 r (-> & Hw2 & Hf2). split; [done |]. split; [done |]. by eapply frame_trans.
Qed.

Lemma release_all_wp cur w : ok cur w -> wp release_all (fun w' r => r = Ok tt /\ ok cur w' /\ results w' = results w /\ calm w w' /\ ahead w' = []) w.
Proof using All.
  intros Hw. apply wp_gets, wp_then. assert (ok ((la_index <$> ahead w) ++ cur) (set_ahead [] w)) as Hw1.
  { eapply ok_set_ahead; [exact Hw | by constructor | cbn; lia | |].
    - pose proof (ok_outstanding _ _ Hw) as Ho. rewrite outstanding_flights in Ho. pose proof (flights_nonneg (ahead w)). change (flights []) with 0. lia.
    - intros i. rewrite elem_of_app. tauto. }
  eapply wp_mono; [by apply (release_each_wp _ cur _ Hw1), (ok_ahead _ _ Hw) |]. intros w2 r (-> & Hw2 & Hf2).
  destruct Hf2 as (_ & _ & Ha & Hr & Hc). done.
Qed.

(** ** From piece to piece *)

(** As [calm], but pieces may have been done by this worker. *)
Definition grown (w w' : W) : Prop := (ev w' <= ev w)%nat /\ done_ (queue w) ⊆ done_ (queue w').

Lemma grown_trans a b c : grown a b -> grown b c -> grown a c.
Proof using All. intros [? ?] [? ?]. split; [lia | set_solver]. Qed.

Lemma calm_grown w w' : calm w w' -> grown w w'.
Proof using All. intros (? & _ & ? & _). done. Qed.

Definition unfinished (w : W) : nat := length (todo pieces (queue w)).

Lemma unfinished_le w w' : grown w w' -> (unfinished w' <= unfinished w)%nat.
Proof using All. intros [_ Hs]. apply filter_fewer. intros x Hx Hd. apply Hx. set_solver. Qed.

Lemma unfinished_lt w w' p : grown w w' -> p ∈ pieces -> pw_index p ∉ done_ (queue w) -> pw_index p ∈ done_ (queue w') -> (unfinished w' < unfinished w)%nat.
Proof using All. intros [_ Hs] Hp Hn Hd. apply (filter_fewer_strict _ _ _ p); [| done | done | tauto]. intros x Hx Hi. apply Hx. set_solver. Qed.

(** A piece that is done is not claimed, and so not in hand. *)
Lemma ok_done i w : ok [i] w -> i ∈ done_ (queue w) -> ok [] w.
Proof using All.
  intros Hw Hd. pose proof (ok_queue _ _ Hw) as [Hp _]. destruct Hw. constructor; try assumption. intros Ha. destruct (ok_claims0 Ha) as [? Hc]. split; [done |].
  intros j Hj. destruct (Hc j Hj) as [? | [->%list_elem_of_singleton | ?]]; [auto | | auto]. destruct Hj as [v Hv].
  exfalso. by apply (part_claimed _ _ Hp _ _ Hv).
Qed.

Lemma mark_done_wp v w :
  v ∈ pieces -> ok [pw_index v] w ->
  wp (on_queue (fun q => Queue.mark_done q (pw_index v)))
    (fun w' r => exists b, r = Ok b /\ ok [] w' /\ grown w w' /\ ahead w' = ahead w /\ results w' = results w /\ pw_index v ∈ done_ (queue w') /\
       (b = true -> pw_index v ∉ (results w).*1)) w.
Proof using All.
  intros Hv Hw. eapply wp_mono; [by apply (on_queue_wp [pw_index v]) |]. intros w2 r (w1 & Hw1 & Hf & -> & ->).
  pose proof Hf as (_ & _ & Ha1 & Hr1 & Hc1). eexists. split; [done |]. set (w2 := set_queue _ w1).
  assert (done_ (queue w2) = {[pw_index v]} ∪ done_ (queue w1)) as Hd by done.
  assert (ok [pw_index v] w2) as Hw2.
  { destruct Hw1. constructor; try assumption.
    - by eapply Queue.step_inv, Queue.step_done.
    - eapply results_grow; [| exact ok_results0]. rewrite Hd. set_solver.
    - intros Ha. destruct (ok_claims0 Ha) as [? Hc]. split; [done |]. intros i Hi. cbn in Hi. apply lookup_delete_is_Some in Hi as [_ Hi]. by apply Hc. }
  split; [apply (ok_done (pw_index v)); [done | rewrite Hd; set_solver] |].
  split; [eapply grown_trans; [by apply calm_grown |]; split; [done | rewrite Hd; set_solver] |].
  split; [done |]. split; [done |]. split; [rewrite Hd; set_solver |].
  cbn. intros Hnew%negb_true_iff%bool_decide_eq_false. intros (x & E & Hx)%list_elem_of_fmap. apply Hnew. rewrite E.
  rewrite <- Hr1 in Hx. by apply (proj1 (Forall_forall _ _) (ok_results _ _ Hw1) x Hx).
Qed.

Lemma settle_wp p refused r w :
  p ∈ pieces -> ok [pw_index p] w -> (forall data, r = Ok (Verified data) -> PieceAssembler.matches sha1 p data = true) ->
  (r = Ok Abandoned -> pw_index p ∈ done_ (queue w)) ->
  wp (settle cfg p refused r) (fun w' r' => ok [] w' /\ grown w w' /\
    match r' with
    | Err _ => ahead w' = []
    | Ok _ => match r with Ok (Verified _) => pw_index p ∈ done_ (queue w') | Ok Abandoned => w' = w | Ok Refused => True | Err _ => False end
    end) w.
Proof using All.
  intros Hp Hw Hm Hab.
  assert (forall {A} w1 (k : M A), ok [pw_index p] w1 -> grown w w1 ->
    (forall w2, ok [] w2 -> grown w w2 -> ahead w2 = [] -> exists v, k w2 = Some (w2, v)) ->
    wp (_ ← push_back p; _ ← release_all; k) (fun w' r' => ok [] w' /\ grown w w' /\ ahead w' = [] /\ k w' = Some (w', r')) w1) as Hback.
  { intros A w1 k Hw1 Hg1 Hk. apply wp_bind. eapply wp_mono; [by apply (push_back_wp []) |]. intros w2 r2 (-> & Hw2 & Hf2).
    apply wp_bind. eapply wp_mono; [by apply (release_all_wp []) |]. intros w3 r3 (-> & Hw3 & _ & Hc3 & Ha3).
    assert (grown w w3) as Hg3. { eapply grown_trans; [exact Hg1 |]. eapply grown_trans; [apply calm_grown, Hf2 | by apply calm_grown]. }
    destruct (Hk w3) as [v Hv]; [done.. |]. exists w3, v. done. }
  destruct r as [[data | |] | e]; cbn [settle].
  - apply wp_bind. eapply wp_mono; [by apply (write_wp [pw_index p]) |]. intros w1 r ([|] & -> & Hw1 & Hf1); pose proof (calm_grown _ _ (proj2 (proj2 (proj2 (proj2 Hf1))))) as Hg1; cbn [negb].
    + apply wp_bind. eapply wp_mono; [by apply mark_done_wp |]. intros w2 r (b & -> & Hw2 & Hg2 & Ha2 & Hr2 & Hd2 & Hfirst).
      pose proof (grown_trans _ _ _ Hg1 Hg2) as Hg. apply wp_bind. destruct b; [| by apply wp_ret, wp_ret].
      apply wp_modify, wp_ret. split; [| done]. rewrite <- Hr2 in Hfirst. destruct Hw2. constructor; try assumption.
      * apply Forall_app. split; [done |]. apply Forall_singleton. split; [done |]. exists p. split; [done |]. split; [done |]. by apply Hm.
      * cbn. rewrite fmap_app. apply NoDup_app. split; [done |]. split; [| apply NoDup_singleton]. intros x Hx ->%list_elem_of_singleton. by apply Hfirst.
    + eapply wp_mono; [apply (Hback _ w1 (fail _)); [done | done | eauto] |]. intros w2 r (? & ? & ? & [= <-]). done.
  - apply wp_ret. split; [| done]. apply (ok_done (pw_index p)); auto.
  - eapply wp_mono; [apply (Hback _ w (mret _)); [done | done | eauto] |]. intros w2 r (? & ? & ? & [= <-]). done.
  - eapply wp_mono; [apply (Hback _ w (fail _)); [done | done | eauto] |]. intros w2 r (? & ? & ? & [= <-]). done.
Qed.

Lemma next_piece_wp refused w :
  ok [] w ->
  wp (next_piece refused) (fun w' r => exists n, r = Ok n /\ results w' = results w /\ calm w w' /\
    match n with
    | Work v started => v ∈ pieces /\ ok [pw_index v] w' /\ started_ok v w' started /\
        (started = None -> ahead w' = [] /\ pw_index v ∉ done_ (queue w')) /\
        (started <> None -> S (length (ahead w')) = length (ahead w))
    | Drained | Nothing => ok [] w' /\ ahead w' = []
    end) w.
Proof using All.
  intros Hw. apply wp_gets. destruct (ahead w) as [| la rest] eqn:Ea.
  - eapply wp_sync; [exact Hw |]. intros w1 Hw1 Hf1. pose proof Hf1 as (_ & _ & Ha1 & Hr1 & Hc1). rewrite Ea in Ha1. apply wp_gets. unfold Queue.take_for. set (has := fun _ : Z => _).
    destruct (take_work_outcome (queue w1) has true) as (q' & t & E & Hout). rewrite E. eapply wp_lift; [done |]. apply wp_then, wp_ret. cbn [fst snd].
    eexists. split; [done |].
    assert (forall t', t = t' -> (t' = Queue.Done \/ t' = Queue.NothingForThisPeer) -> q' = queue w1) as Hsame by (intros t' -> Ht; inversion Hout; subst; naive_solver).
    destruct t as [v | |].
    + destruct (ok_taken _ _ _ _ _ _ Hw1 Hout) as (Hw2 & Hf2 & Hv & Hnd'). split; [done |]. split; [by eapply calm_trans, Hf2 |].
      split; [done |]. split; [done |]. split; [done |]. split; [by intros _ | done].
    + rewrite (Hsame _ eq_refl) by auto. split; [done |]. split; [done |]. split; [by destruct Hw1 | done].
    + rewrite (Hsame _ eq_refl) by auto. split; [done |]. split; [done |]. split; [by destruct Hw1 | done].
  - apply wp_then, wp_ret. eexists. split; [done |]. split; [done |]. split; [done |].
    pose proof (ok_ahead _ _ Hw) as Hall. rewrite Ea in Hall. apply Forall_cons in Hall as [Hla Hrest]. pose proof (ok_outstanding _ _ Hw) as Ho.
    rewrite outstanding_flights, Ea in Ho. unfold flights in Ho. cbn [fmap list_fmap foldr] in Ho. fold (flights rest) in Ho.
    pose proof (zlen_nonneg (la_in_flight la)). pose proof (zlen_nonneg (in_flight w)).
    split; [apply Hla |]. split; [| split; [split; [done |]; split; [done |]; cbn [ahead set_ahead]; lia | split; [done | cbn; by intros _]]].
    eapply ok_set_ahead; [exact Hw | done | pose proof (ok_room _ _ Hw) as Hr; rewrite Ea in Hr; cbn in Hr; lia | lia |].
    intros i. rewrite Ea. intros [? | [?%elem_of_nil | [-> | ?]%elem_of_cons]]; [auto | done | right; left; by apply list_elem_of_singleton | auto].
Qed.

Lemma wait_wp cycles w : ok [] w -> ahead w = [] ->
  wp (wait_for_a_piece_it_has cfg cycles) (fun w' r => ok [] w' /\ frame w w' /\ match r with Ok _ => (ev w' < ev w)%nat | Err _ => True end) w.
Proof using All.
  intros Hw Ha. unfold wait_for_a_piece_it_has.
  assert (forall w1 n, ok [] w1 -> frame w w1 -> (ev w1 < ev w)%nat ->
    wp (choking ← gets (fun w => peer_choking (peer w));
        if (if (choking : bool) then MAX_UNCHOKE_WAIT_TIMEOUTS else MAX_IRRELEVANT_CYCLES) <=? n
        then fail (ConnectionError "peer_has_no_needed_pieces") else mret n)
      (fun w' r => ok [] w' /\ frame w w' /\ match r with Ok _ => (ev w' < ev w)%nat | Err _ => True end) w1) as Hlast.
  { intros w1 n Hw1 Hf1 Hev. apply wp_gets. destruct (peer_choking (peer w1)); (destruct (_ <=? n); [by apply wp_fail | by apply wp_ret]). }
  eapply wp_read; [exact Hw | | |].
  - apply wp_bind, wp_fail. done.
  - intros w1 Hw1 Hf1 Hev _. apply wp_bind, wp_gets, wp_bind.
    eapply wp_mono with (P := fun w2 _ => ok [] w2 /\ frame w1 w2); [destruct (peer_choking (peer w1)); [by apply (quietly_send []) | by apply wp_ret] |].
    intros w2 [[] | e] [Hw2 Hf2]; pose proof (frame_trans _ _ _ Hf1 Hf2) as Hf; [| done].
    apply wp_ret, Hlast; [done | done |]. destruct Hf2 as (_ & _ & _ & _ & ? & _). lia.
  - intros w1 m Hw1 Hf1 Hev _ Hm. apply wp_bind, wp_bind. eapply wp_mono; [by apply (quietly_take [] m Hm) |].
    intros w2 [active | e] [Hw2 Hf2]; pose proof (frame_trans _ _ _ Hf1 Hf2) as Hf; [| done].
    apply wp_ret, Hlast; [done | done |]. destruct Hf2 as (_ & _ & _ & _ & ? & _). lia.
Qed.

(** The way out that leaves pieces claimed: the worker's turn to write ended
    it, before it took up the next piece. *)
Definition hasty (r : result unit WorkerError) : Prop :=
  r = Err (ConnectionError "serve_peer") \/ r = Err (ConnectionError "relay_holepunch").

Definition work_left (w : W) : nat := (9 * (ev w + unfinished w) + length (ahead w))%nat.

Lemma keep_serving_stage cur w : ok cur w -> wp keep_serving (fun w' r => ok cur w' /\ frame w w' /\ (r = Ok tt \/ hasty r)) w.
Proof using All.
  intros Hw. destruct (quietly_keep_serving cur w Hw) as (w' & r & E & Hw' & Hf). exists w', r. split; [done |]. split; [done |]. split; [done |].
  revert E. unfold keep_serving. cbn. unfold mbind, M_bind, gets. destruct (serving w) as [s |]; [| intros [= _ <-]; by left].
  destruct (sync w) as [[w1 [[] | e]] |] eqn:Es; [| unfold sync in Es; by destruct (others w) | done].
  unfold act. destruct (tick _ _) as [x [[] | e]]; intros [= _ <-]; [by left | by right; left].
Qed.

Lemma on_hub_wp {A} cur (f : Hub -> Hub * A) w : ok cur w -> wp (on_hub f) (fun w' r => ok cur w' /\ frame w w' /\ exists x, r = Ok x) w.
Proof using All.
  intros Hw. eapply wp_sync; [exact Hw |]. intros w1 Hw1 Hf1. apply wp_gets, wp_then, wp_ret. split; [by destruct Hw1 |]. split; [exact Hf1 | by eexists].
Qed.

Lemma send_stage cur stage m w : ok cur w -> request_ok m -> wp (send stage m) (fun w' r => ok cur w' /\ frame w w' /\ (r = Ok tt \/ r = Err (ConnectionError stage))) w.
Proof using All.
  intros Hw Hm. destruct (quietly_send cur stage m Hm w Hw) as (w' & r & E & Hw' & Hf). exists w', r. split; [done |]. split; [done |]. split; [done |].
  revert E. unfold send, try_send, mbind, M_bind. destruct (left w); intros [= _ <-]; auto.
Qed.

Lemma relay_stage cur w : ok cur w -> wp (relay_pending_holepunch cfg) (fun w' r => ok cur w' /\ frame w w' /\ (r = Ok tt \/ hasty r)) w.
Proof using All.
  intros Hw. apply wp_gets. destruct (their_id w) as [id |]; [| apply wp_ret; split; [done |]; split; [done | by left]]. apply wp_bind. eapply wp_mono; [by apply (on_hub_wp cur) |].
  intros w1 r (Hw1 & Hf1 & [msg |] & ->); [| apply wp_ret; split; [done |]; split; [done | by left]].
  eapply wp_mono; [by apply (send_stage cur) |]. intros w2 r (Hw2 & Hf2 & Hr). split; [done |]. split; [by eapply frame_trans |].
  destruct Hr; [auto | by right; right].
Qed.

Lemma fetch_from_loop_wp fuel : forall cycles refused w,
  ok [] w -> (work_left w < fuel)%nat ->
  wp (fetch_from_loop sha1 cfg fuel cycles refused) (fun w' r => ok [] w' /\ grown w w' /\ (ahead w' = [] \/ hasty r)) w.
Proof using All.
  induction fuel as [| fuel IH]; intros cycles refused w Hw Hf; [lia |]. cbn [fetch_from_loop].
  assert (forall cycles refused w', ok [] w' -> grown w w' -> (work_left w' < work_left w)%nat ->
    wp (fetch_from_loop sha1 cfg fuel cycles refused) (fun w' r => ok [] w' /\ grown w w' /\ (ahead w' = [] \/ hasty r)) w') as Hagain.
  { intros c rf w' Hw' Hg Hless. eapply wp_mono; [apply IH; [done | lia] |]. intros w2 r (? & ? & ?). split; [done |]. split; [by eapply grown_trans | done]. }
  apply wp_bind. eapply wp_mono; [by apply (keep_serving_stage []) |]. intros w1 r (Hw1 & Hf1 & Hr).
  pose proof Hf1 as (_ & _ & Ha1 & Hr1 & Hc1). pose proof (calm_grown _ _ Hc1) as Hg1.
  destruct Hr as [-> | Hh]; [| destruct r; [by destruct Hh | by auto]].
  apply wp_bind. eapply wp_mono; [by apply (relay_stage []) |]. intros w2 r (Hw2 & Hf2 & Hr).
  pose proof (frame_trans _ _ _ Hf1 Hf2) as Hf12. pose proof Hf12 as (_ & _ & Ha2 & Hr2 & Hc2). pose proof (calm_grown _ _ Hc2) as Hg2.
  destruct Hr as [-> | Hh]; [| destruct r; [by destruct Hh | by auto]].
  apply wp_bind. eapply wp_mono; [by apply next_piece_wp |]. intros w3 r (n & -> & Hr3 & Hc3 & Hn). pose proof (calm_trans _ _ _ Hc2 Hc3) as Hc23.
  pose proof (calm_grown _ _ Hc23) as Hg3. pose proof (unfinished_le _ _ Hg3) as Hu3. destruct n as [v started | |].
  - destruct Hn as (Hv & Hw3 & Hs & Hnone & Hsome). apply wp_bind, wp_try. eapply wp_mono; [by apply (download_wp [pw_index v]) |].
    intros w4 r (Hw4 & Hr4 & Hc4 & Hd). pose proof (grown_trans _ _ _ Hg3 (calm_grown _ _ Hc4)) as Hg4. pose proof (unfinished_le _ _ Hg4) as Hu4.
    apply wp_bind. eapply wp_mono.
    { apply settle_wp; [done | done | intros data ->; apply Hd | intros ->; apply Hd]. }
    intros w5 r5 (Hw5 & Hg5 & Hpost). pose proof (grown_trans _ _ _ Hg4 Hg5) as Hg. pose proof (unfinished_le _ _ Hg5) as Hu5.
    destruct r5 as [refused' | e]; [| auto]. apply Hagain; [done | done |]. unfold work_left.
    pose proof (ok_room _ _ Hw5) as Hroom. unfold MAX_LOOKAHEAD in Hroom. pose proof (proj1 Hg3). pose proof (proj1 Hc4). pose proof (proj1 Hg5).
    destruct (decide (ev w5 = ev w)) as [Eev | Hne]; [| lia].
    destruct r as [[data | |] | e]; cbn [downloaded] in Hd.
    + assert (unfinished w5 < unfinished w4)%nat; [| lia]. apply (unfinished_lt w4 w5 v); [done | done | apply Hd; lia | done].
    + subst w5. destruct Hd as [Hin Hah]. destruct started as [la |].
      * specialize (Hsome ltac:(done)). rewrite Ha2 in Hsome. rewrite Hah by lia. lia.
      * exfalso. destruct (Hnone eq_refl) as [_ Hnot]. destruct Hc4 as (_ & _ & _ & Hsame). rewrite Hsame in Hin by lia. done.
    + lia.
    + done.
  - destruct Hn as [Hw3 Ha3]. apply wp_ret. auto.
  - destruct Hn as [Hw3 Ha3]. apply wp_bind. eapply wp_mono; [by apply wait_wp |]. intros w4 r (Hw4 & Hf4 & Hev).
    pose proof Hf4 as (_ & _ & Ha4 & _ & Hc4). pose proof (grown_trans _ _ _ Hg3 (calm_grown _ _ Hc4)) as Hg4.
    destruct r as [c | e]; [| split; [done |]; split; [done |]; left; congruence]. apply Hagain; [done | done |].
    pose proof (unfinished_le _ _ Hg4). pose proof (proj1 Hg3). unfold work_left. rewrite Ha4, Ha3. cbn [length]. lia.
Qed.

Lemma fetch_from_wp fuel w :
  ok [] w -> ahead w = [] -> (work_left w < fuel)%nat ->
  wp (fetch_from sha1 cfg fuel) (fun w' r => ok [] w' /\ grown w w' /\ (ahead w' = [] \/ hasty r)) w.
Proof using All.
  intros Hw Ha Hf. apply wp_then. apply (fetch_from_loop_wp fuel 0 ∅ (set_ahead [] (set_meter [] w))).
  - rewrite <- Ha. by destruct Hw.
  - unfold work_left in *. rewrite Ha in Hf. exact Hf.
Qed.

(** ** Getting ready *)

Lemma unchoke_loop_wp fuel : forall n w,
  ok [] w -> (length (incoming w) < fuel)%nat -> wp (unchoke_loop cfg fuel n) (fun w' _ => ok [] w' /\ frame w w') w.
Proof using All.
  induction fuel as [| fuel IH]; intros n w Hw Hf; [lia |]. cbn [unchoke_loop]. apply wp_gets. destruct (negb _); [by apply wp_ret |].
  apply wp_bind. eapply wp_mono; [by apply (quietly_keep_serving []) |]. intros w1 [[] | e] [Hw1 Hf1]; [| done].
  assert (forall w2 w3 m, ok [] w3 -> frame w1 w2 -> frame w2 w3 -> (length (incoming w2) < length (incoming w1))%nat ->
    wp (unchoke_loop cfg fuel m) (fun w' _ => ok [] w' /\ frame w w') w3) as Hagain.
  { intros w2 w3 m Hw3 Hf2 Hf3 Hin. pose proof Hf1 as (_ & _ & _ & _ & _ & ? & _). pose proof Hf3 as (_ & _ & _ & _ & _ & ? & _).
    eapply wp_mono; [apply IH; [done | lia] |]. intros w4 r [? Hf4]. split; [done |].
    exact (frame_trans _ _ _ Hf1 (frame_trans _ _ _ Hf2 (frame_trans _ _ _ Hf3 Hf4))). }
  eapply wp_read; [exact Hw1 | by apply wp_fail | |].
  - intros w2 Hw2 Hf2 _ Hin. pose proof (frame_trans _ _ _ Hf1 Hf2) as Hf12. cbv zeta. destruct (_ <=? _); [by apply wp_fail |].
    apply wp_bind. eapply wp_mono; [by apply (quietly_send []) |]. intros w3 [[] | e] [Hw3 Hf3]; [by apply (Hagain w2) |].
    split; [done |]. by eapply frame_trans.
  - intros w2 m Hw2 Hf2 _ Hin Hm. pose proof (frame_trans _ _ _ Hf1 Hf2) as Hf12.
    apply wp_bind. eapply wp_mono; [by apply (quietly_take [] m Hm) |]. intros w3 [b | e] [Hw3 Hf3]; [by apply (Hagain w2) |].
    split; [done |]. by eapply frame_trans.
Qed.

Lemma quietly_unchoke : quietly [] (wait_for_unchoke cfg).
Proof using All. apply quietly_gets. intros w Hw. apply unchoke_loop_wp; [done | lia]. Qed.

Lemma begin_answers s fs hs now st :
  zlen (bits (have s)) <= MAX_TRACKED_PIECES -> fast_set_found sha1 rounds s (Some (ip_of (peer_addr cfg))) ->
  exists st' r ms, begin sha1 rounds s fs hs (Some (ip_of (peer_addr cfg))) false now st = Some (st', r) /\ st'.1 = st.1 ++ ms /\ Forall no_request ms /\
    (forall x, r = Ok x -> disk x = fs /\ out x = st'.1).
Proof using All.
  intros Hl Hf. unfold begin. unfold Serving.send at 1. destruct st as [sent0 [| n]]; cbn [snd fst].
  { eexists _, _, []. split; [done |]. rewrite app_nil_r. split; [done |]. by split; [constructor |]. }
  set (m0 := first_message _ _). assert (no_request m0) as Hm0 by (unfold m0, first_message; by repeat case_match).
  destruct (allow_fast_spec sha1 rounds s (supports_fast hs) (Some (ip_of (peer_addr cfg))) (sent0 ++ [m0], n) Hl Hf) as (st1 & r & ms & E & Ho & Hms & _).
  rewrite E. cbn [mbind option_bind]. cbn [fst] in Ho. assert (Forall no_request (m0 :: ms)) as Hall.
  { constructor; [done |]. apply (Forall_impl _ _ _ Hms). by intros m (i & -> & _). }
  rewrite <- app_assoc in Ho. cbn [app] in Ho. destruct r as [allowed | e]; [| by eexists _, _, _].
  cbn [andb]. destruct (register (choker s)) as [c id]. eexists _, _, _. split; [done |]. split; [exact Ho |]. split; [done |].
  by intros x [= <-].
Qed.

Lemma greet_wp hs w : ok [] w -> greetable (seeder w) -> wp (greet sha1 cfg rounds hs) (fun w' _ => ok [] w' /\ frame w w') w.
Proof using All.
  intros Hw Hg. unfold greet. destruct (upload cfg) eqn:Eu; [| by apply wp_ret]. apply wp_bind. eapply wp_mono; [by apply (sync_wp []) |].
  intros w1 r (-> & Hw1 & Hf1 & Hg1). specialize (Hg1 Hg). destruct (Hg1 Eu) as [Hl Hfs].
  destruct (begin_answers (seeder w1) (files w1) hs (clock w1) (sent w1, left w1) Hl Hfs) as (st & r & ms & E & Ho & Hms & Hx).
  unfold wp, act. rewrite E. cbn [mbind option_bind]. cbn [fst] in Ho.
  assert (Forall request_ok st.1) as Hst.
  { rewrite Ho. apply Forall_app. split; [apply (ok_requests _ _ Hw1) |]. apply (Forall_impl _ _ _ Hms). by intros []. }
  destruct r as [x | e]; eexists _, _; (split; [done |]).
  - destruct (Hx x eq_refl) as [Hd Hox]. split; [| exact Hf1]. destruct Hw1. constructor; try assumption. cbn. by rewrite Hox.
  - split; [by apply ok_sent | exact Hf1].
Qed.

Lemma establish_wp hs w : ok [] w -> greetable (seeder w) -> wp (establish sha1 cfg rounds hs) (fun w' _ => ok [] w' /\ frame w w') w.
Proof using All.
  intros Hw Hg. destruct hs as [hs |]; cbn [establish]; [| by apply wp_fail].
  apply wp_bind, wp_bind. eapply wp_mono; [by apply (sync_wp []) |]. intros w1 r (-> & Hw1 & Hf1 & Hg1). specialize (Hg1 Hg).
  apply wp_gets, wp_then, wp_ret. cbn [fst snd]. apply wp_then. set (w2 := set_peer _ _).
  assert (ok [] w2) as Hw2 by (by destruct Hw1). assert (frame w w2) as Hf2 by exact Hf1.
  apply wp_bind. eapply wp_mono; [by apply greet_wp |]. intros w3 [[] | e] [Hw3 Hf3]; pose proof (frame_trans _ _ _ Hf2 Hf3) as Hf13; [| done].
  assert (quietly [] (_ ← (if Handshake.supports_extensions hs then
             w ← gets (fun w => w);
             let size := s ← serving w; metadata_size (world s w) in
             send "send_extended_handshake" (Extended 0 (Extension.build_with_pex 1 size (pex_tx cfg)))
           else mret tt); _ ← send_interested; wait_for_unchoke cfg)) as Hq.
  { apply quietly_bind; [destruct (Handshake.supports_extensions hs); [apply quietly_bind; [apply quietly_get | intros; by apply quietly_send] | apply quietly_ret] |].
    intros _. apply quietly_bind; [apply quietly_bind; [by apply quietly_send | intros _; apply quietly_set; [by intros w4 [] | done]] |]. intros _. apply quietly_unchoke. }
  eapply wp_mono; [by apply Hq |]. intros w4 r [? ?]. split; [done |]. by eapply frame_trans.
Qed.

Lemma hang_up_wp cur w : ok cur w -> wp (hang_up cfg) (fun w' r => ok cur w' /\ frame w w' /\ r = Ok tt) w.
Proof using All.
  intros Hw. apply wp_gets, wp_bind. eapply wp_mono with (P := fun w' r => r = Ok tt /\ ok cur w' /\ frame w w').
  - destruct (serving w) as [s |]; [| by apply wp_ret]. eapply wp_sync; [exact Hw |]. intros w1 Hw1 Hf1. apply wp_modify.
    split; [done |]. split; [by destruct Hw1 | exact Hf1].
  - intros w1 r (-> & Hw1 & Hf1). eapply wp_mono; [by apply (on_hub_wp cur) |]. intros w2 r (Hw2 & Hf2 & [] & ->).
    split; [done |]. split; [by eapply frame_trans | done].
Qed.

Lemma quietly_interested cur : quietly cur send_interested.
Proof using All. apply quietly_bind; [by apply quietly_send |]. intros _. apply quietly_set; [by intros w [] | done]. Qed.

(** How a worker leaves things. *)
Definition left_well (w w' : W) (r : result unit WorkerError) : Prop := ok [] w' /\ grown w w' /\ (ahead w' = [] \/ hasty r).

Lemma left_well_frame w w1 w' r : frame w w1 -> left_well w1 w' r -> left_well w w' r.
Proof using All. intros (_ & _ & _ & _ & Hc) (? & Hg & ?). split; [done |]. split; [| done]. eapply grown_trans; [by apply calm_grown | done]. Qed.

Lemma left_well_after w w' w2 r : left_well w w' r -> ok [] w2 -> frame w' w2 -> left_well w w2 r.
Proof using All.
  intros (_ & Hg & Ha) Hw2 (_ & _ & Ha2 & _ & Hc). split; [done |]. split; [eapply grown_trans; [exact Hg | by apply calm_grown] |].
  by rewrite Ha2.
Qed.

Lemma work_left_frame w w' : frame w w' -> (work_left w' <= work_left w)%nat.
Proof using All.
  intros (_ & _ & Ha & _ & Hc). pose proof (unfinished_le _ _ (calm_grown _ _ Hc)). destruct Hc as (? & _). unfold work_left. rewrite Ha. lia.
Qed.

(** Getting ready, and then the pieces. *)
Lemma ready_wp {A} (m : M A) (k : A -> M unit) w0 w :
  ok [] w -> frame w0 w -> ahead w0 = [] -> wp m (fun w' _ => ok [] w' /\ frame w w') w ->
  (forall x w1, ok [] w1 -> frame w0 w1 -> wp (k x) (left_well w0) w1) -> wp (m ≫= k) (left_well w0) w.
Proof using All.
  intros Hw Hf0 Ha Hm Hk. apply wp_bind. eapply wp_mono; [exact Hm |]. intros w1 [x | e] [Hw1 Hf1]; pose proof (frame_trans _ _ _ Hf0 Hf1) as Hf; [by apply Hk |].
  pose proof Hf as (_ & _ & Ha1 & _ & Hc1). split; [done |]. split; [by apply calm_grown |]. left. congruence.
Qed.

Lemma fetch_last_wp fuel w0 w : ok [] w -> frame w0 w -> ahead w0 = [] -> (work_left w0 < fuel)%nat -> wp (fetch_from sha1 cfg fuel) (left_well w0) w.
Proof using All.
  intros Hw Hf0 Ha Hf. pose proof (work_left_frame _ _ Hf0). pose proof Hf0 as (_ & _ & Ha1 & _ & _).
  eapply wp_mono; [apply fetch_from_wp; [done | congruence | lia] |]. intros w2 r Hr. by eapply left_well_frame.
Qed.

Lemma run_entered_wp fuel hs w0 w :
  ok [] w -> frame w0 w -> greetable (seeder w) -> ahead w0 = [] -> (work_left w0 < fuel)%nat -> wp (run_entered sha1 cfg rounds fuel hs) (left_well w0) w.
Proof using All.
  intros Hw Hf0 Hg Ha Hf. apply wp_bind, wp_try. eapply wp_mono.
  { eapply (ready_wp _ _ w0); [exact Hw | exact Hf0 | exact Ha | by apply establish_wp |]. intros _ w1 Hw1 Hf1. by apply fetch_last_wp. }
  intros w1 r Hr. apply wp_bind. pose proof Hr as [Hw1 _]. eapply wp_mono; [by apply (hang_up_wp []) |]. intros w2 r2 (Hw2 & Hf2 & ->).
  destruct r as [[] | e]; [apply wp_ret | apply wp_fail]; by eapply left_well_after.
Qed.

Lemma adopted_wp fuel hs has w0 w :
  ok [] w -> frame w0 w -> ahead w0 = [] -> (work_left w0 < fuel)%nat -> wp (adopted_download sha1 cfg fuel hs has) (left_well w0) w.
Proof using All.
  intros Hw Hf0 Ha Hf. apply (ready_wp _ _ w0); [done.. | refine (quietly_on_queue [] _ _ _ Hw); by intros |]. intros n w1 Hw1 Hf1.
  apply (ready_wp _ _ w0); [done.. | refine (quietly_set [] _ _ _ _ Hw1); [by intros w2 [] | done] |]. intros _ w2 Hw2 Hf2.
  apply (ready_wp _ _ w0); [done.. | refine (quietly_on_queue [] _ _ _ Hw2); intros; by apply note_bitfield_tame |]. intros _ w3 Hw3 Hf3.
  apply (ready_wp _ _ w0); [done.. | by apply (quietly_interested []) |]. intros _ w4 Hw4 Hf4.
  apply (ready_wp _ _ w0); [done.. | by apply quietly_unchoke |]. intros _ w5 Hw5 Hf5. by apply fetch_last_wp.
Qed.

End facts.

(** ** Properties *)

(** A worker about to begin: nothing asked for, nothing reported. *)
Definition fresh_worker (pieces : list PieceWork) (w : W) : Prop :=
  Queue.inv pieces (queue w) /\ ahead w = [] /\ in_flight w = [] /\ sent w = [] /\ results w = [] /\ Forall event_ok (incoming w).

(** Passes enough for any run of a worker. *)
Definition enough_fuel (pieces : list PieceWork) (w : W) : nat :=
  S (9 * (length (incoming w) + length (others w) + length (todo pieces (queue w))))%nat.

Lemma fresh_ok sha1 rounds cfg pieces alone w :
  fresh_worker pieces w -> Forall (other_ok sha1 rounds cfg pieces) (others w) -> (alone = true -> others w = []) ->
  ok sha1 rounds cfg pieces alone (dom (claimed (queue w))) [] w.
Proof.
  intros (Hq & Ha & Hi & Hs & Hr & He) Ho Hal. constructor; try assumption; rewrite ?Ha, ?Hs, ?Hr; try (by constructor).
  - cbn. lia.
  - unfold outstanding. rewrite Ha, Hi. done.
  - intros Halone. split; [auto |]. intros i Hin. left. by apply elem_of_dom.
Qed.

Lemma ok_entry sha1 rounds cfg pieces alone C cur w id :
  ok sha1 rounds cfg pieces alone C cur w -> ok sha1 rounds (with_entry cfg id) pieces alone C cur w.
Proof. intros []. by constructor. Qed.

Lemma run_worker_wp sha1 rounds cfg pieces alone fuel hs w :
  NoDup (indices pieces) -> Forall (fun p => u_ok 32 (pw_length p)) pieces -> 0 <= pipeline_depth cfg ->
  fresh_worker pieces w -> Forall (other_ok sha1 rounds cfg pieces) (others w) -> (alone = true -> others w = []) ->
  greetable sha1 rounds cfg (seeder w) -> (enough_fuel pieces w <= fuel)%nat ->
  wp (run_worker sha1 cfg rounds fuel hs)
    (fun w' r => exists id, left_well sha1 rounds (with_entry cfg id) pieces alone (dom (claimed (queue w))) w w' r) w.
Proof.
  intros Hnd Hsize Hdepth Hfresh Ho Hal Hg Hf. pose proof (fresh_ok sha1 rounds cfg pieces alone w Hfresh Ho Hal) as Hw.
  apply wp_bind, wp_bind. eapply wp_mono; [by eapply sync_wp |]. intros w1 r (-> & Hw1 & Hf1 & Hg1). apply wp_gets, wp_then, wp_ret. cbn [fst snd].
  set (id := (enter _ _).2). apply (wp_mono _ (left_well sha1 rounds (with_entry cfg id) pieces alone (dom (claimed (queue w))) w)); [| by intros w' r Hr; exists id].
  apply run_entered_wp; [done | done | done | | exact Hf1 | by apply Hg1 | apply Hfresh |].
  - apply ok_entry. by destruct Hw1.
  - destruct Hfresh as (_ & Ha & _). unfold work_left, unfinished, ev. rewrite Ha. unfold enough_fuel in Hf. cbn [length]. lia.
Qed.

Lemma run_adopted_wp sha1 rounds cfg pieces alone fuel hs has w :
  NoDup (indices pieces) -> Forall (fun p => u_ok 32 (pw_length p)) pieces -> 0 <= pipeline_depth cfg ->
  fresh_worker pieces w -> Forall (other_ok sha1 rounds cfg pieces) (others w) -> (alone = true -> others w = []) ->
  (enough_fuel pieces w <= fuel)%nat ->
  wp (run_adopted sha1 cfg fuel hs has)
    (fun w' r => exists id a, r = Ok a /\ ok sha1 rounds (with_entry cfg id) pieces alone (dom (claimed (queue w))) [] w') w.
Proof.
  intros Hnd Hsize Hdepth Hfresh Ho Hal Hf. pose proof (fresh_ok sha1 rounds cfg pieces alone w Hfresh Ho Hal) as Hw.
  apply wp_bind, wp_bind. eapply wp_mono; [by eapply sync_wp |]. intros w1 r (-> & Hw1 & Hf1 & _). apply wp_gets, wp_then, wp_ret. cbn [fst snd].
  set (id := (enter _ _).2). set (w2 := set_hub _ _). assert (ok sha1 rounds (with_entry cfg id) pieces alone (dom (claimed (queue w))) [] w2) as Hw2.
  { apply ok_entry. by destruct Hw1. }
  apply wp_bind, wp_try. eapply wp_mono.
  { eapply (adopted_wp sha1 rounds (with_entry cfg id) pieces Hnd Hsize Hdepth alone _ fuel hs has w w2 Hw2); [exact Hf1 | apply Hfresh |].
    destruct Hfresh as (_ & Ha & _). unfold work_left, unfinished, ev. rewrite Ha. unfold enough_fuel in Hf. cbn [length]. lia. }
  intros w3 r [Hw3 _]. apply wp_gets.
  assert (forall v, wp (_ ← hang_up (with_entry cfg id); mret (v : Adoption)) (fun w' r => exists id a, r = Ok a /\ ok sha1 rounds (with_entry cfg id) pieces alone (dom (claimed (queue w))) [] w') w3) as Hend.
  { intros v. apply wp_bind. eapply wp_mono; [by eapply (hang_up_wp sha1 rounds) |]. intros w4 r4 (Hw4 & _ & ->). apply wp_ret. by exists id, v. }
  assert (wp (_ ← on_hub (fun h => (leave h (peer_addr cfg) id, tt)); mret ServeOn) (fun w' r => exists id a, r = Ok a /\ ok sha1 rounds (with_entry cfg id) pieces alone (dom (claimed (queue w))) [] w') w3) as Hon.
  { apply wp_bind. eapply wp_mono; [by eapply (on_hub_wp sha1 rounds (with_entry cfg id)) |]. intros w4 r4 (Hw4 & _ & x & ->). apply wp_ret. by exists id, ServeOn. }
  destruct (serving w3); [| by apply Hend]. destruct r as [[] | e]; [exact Hon |]. destruct (serves_on e); [exact Hon | apply Hend].
Qed.

(** What a worker promises of what it did. *)
Definition kept_promises (sha1 : list Z -> list Z) (pieces : list PieceWork) (w' : W) : Prop :=
  Queue.inv pieces (queue w') /\ Forall (result_ok sha1 pieces (queue w')) (results w') /\ NoDup (results w').*1 /\
  Forall (request_ok pieces) (sent w') /\ outstanding w' <= Pipeline.MAX_DEPTH.

Lemma ok_promises sha1 rounds cfg pieces alone C cur w : ok sha1 rounds cfg pieces alone C cur w -> kept_promises sha1 pieces w.
Proof. intros []. done. Qed.



(** *** A download to run

    Two pieces of three bytes in one file; the peer has both, and hangs up
    after the first.  [toy] stands for SHA-1. *)
Definition toy (data : list Z) : list Z := [foldr Z.add 0 data].
Definition example_pieces : list PieceWork := [mkPieceWork 0 [6] 3 None; mkPieceWork 1 [15] 3 None].
Definition example_addr : SocketAddr := socket_addr (Ip4 [10; 0; 0; 1]) 6881.
Definition example_cfg (serves : bool) : Config := mkConfig 5 false example_addr 0 (fun _ _ => false) serves [mkFileSpan [97] 0 6 false] 3.
Definition example_seeder : SeederShared := mkSeederShared [] [mkFileSpan [97] 0 6 false] 3 6 (have_new 2) 0 (Choker.new 4) None None None.
Definition example_peer : Handshake := Handshake.new (replicate 20 0) (replicate 20 1) true.
Definition example_events : list Event := [Arrives 1 (Bitfield [192]); Arrives 1 Unchoke; Arrives 3 (Piece 0 0 [1; 2; 3])].

Definition example_worker (room : nat) (others_ : list (Shared -> Shared)) : W :=
  mkW None (Queue.new example_pieces 2) example_seeder ∅ new_hub [] room example_events 0 (for_torrent 2) None [] [] []
    (PieceAssembler.new (mkPieceWork 0 [6] 3 None)) [] [] others_.

(** The coordinator, told of piece 0, marks it as one to offer. *)
Definition offer_first (s : Shared) : Shared :=
  let x := sh_seeder s in
  mkShared (sh_queue s) (mkSeederShared (sh_info_hash x) (spans x) (piece_length x) (sh_total_length x) (have_set (have x) 0) (uploaded x) (choker x)
    (metadata x) (piece_lengths x) (hash_source x)) (sh_files s) (sh_hub s).

Definition example_others : list (Shared -> Shared) := replicate 22 (fun s => s) ++ [offer_first].

Lemma example_inv : Queue.inv example_pieces (Queue.new example_pieces 2).
Proof. apply (reachable_inv example_pieces 2 RarestFirst ∅); [by repeat constructor; set_solver |]. apply rtc_refl. Qed.

Lemma example_fresh room others_ : fresh_worker example_pieces (example_worker room others_).
Proof. split; [exact example_inv |]. do 4 (split; [done |]). by repeat constructor. Qed.

Lemma example_sizes : Forall (fun p => u_ok 32 (pw_length p)) example_pieces.
Proof. by repeat constructor. Qed.

Lemma example_nodup : NoDup (indices example_pieces).
Proof. repeat constructor; set_solver. Qed.



(** The way out that [worker_gives_back] excepts is one a run takes:
    the peer sends the first piece and hangs up, the coordinator has the piece
    offered to it, and writing that fails; the worker ends with the second
    piece, which it had looked ahead to, still claimed by no one who is left
    (where [run_worker] promises to push back what it had claimed). *)
Theorem lookahead_left_claimed :
  exists w', run_worker toy (example_cfg true) 1 300 (Some example_peer) (example_worker 5 example_others) = Some (w', Err (ConnectionError "serve_peer")) /\
    (results w').*1 = [0] /\ claimed (queue w') !! 1 = Some (mkPieceWork 1 [15] 3 None) /\ pending (queue w') = [] /\ serving w' = None.
Proof.
  destruct (run_worker toy (example_cfg true) 1 300 (Some example_peer) (example_worker 5 example_others)) as [[w' r] |] eqn:E; [| by vm_compute in E].
  vm_compute in E. injection E as <- <-. eexists. split; [reflexivity |]. done.
Qed.
