(* ===== verification/Rendezvous.v ===== *)
(** * Introductions between peers

    Theorems on the hole-punch hub and the worker's part in it ([Worker.v],
    from [src/src/downloader/worker/holepunch_hub.rs] and [messages.rs]): who
    is told what when a peer asks to be introduced to another (BEP 55). *)

From S2P Require Import Torrent.
From S2P Require Import PieceAssembler Queue Pipeline.
From S2P Require Import Prelude Str Numeral Text Bytes BTree Bencode Io Net Dicts Tracker PeerExt Metadata.
From S2P Require Import Sha256 Merkle V2Hashes FileWriter Choker PeerState Handshake Message Serving Worker.

(** Everyone in the hub has a channel, and numbers are given once. *)
Record hub_ok (h : Hub) : Prop := {
  hub_channel : forall a id, relays h !! a = Some id -> is_Some (channels h !! id);
  hub_fresh : forall id, is_Some (channels h !! id) -> id < next_entry h;
  hub_own : forall a b id, relays h !! a = Some id -> relays h !! b = Some id -> a = b
}.

Lemma new_hub_ok : hub_ok new_hub.
Proof. split; intros *; cbn; rewrite ?lookup_empty; [done | by intros [] | done]. Qed.

Lemma enter_ok h a : hub_ok h -> hub_ok (enter h a).1.
Proof.
  intros [Hc Hf Ho]. split; cbn.
  - intros b id. rewrite lookup_insert_Some. intros [[<- <-] | [_ Hb]]; apply lookup_insert_is_Some'; [by left | right; by eapply Hc].
  - intros id. rewrite lookup_insert_is_Some'. intros [<- | Hid]; [lia |]. specialize (Hf _ Hid). lia.
  - intros b c id. rewrite !lookup_insert_Some. intros [[<- <-] | [_ Hb]] [[<- E] | [_ Hc']]; try done.
    + exfalso. specialize (Hf _ (Hc _ _ Hc')). lia.
    + exfalso. subst id. specialize (Hf _ (Hc _ _ Hb)). lia.
    + by apply (Ho _ _ id).
Qed.

Lemma leave_ok h a id : hub_ok h -> hub_ok (leave h a id).
Proof.
  intros [Hc Hf Ho]. unfold leave. case_bool_decide; [| done]. split; cbn; [| done |].
  - intros b i [_ Hb]%lookup_delete_Some. by eapply Hc.
  - intros b c i [_ Hb]%lookup_delete_Some [_ Hc']%lookup_delete_Some. by apply (Ho _ _ i).
Qed.

Lemma mark_ok h id : hub_ok h -> hub_ok (mark_supported h id).
Proof. by intros []. Qed.

Lemma set_box_ok h id box n :
  hub_ok h -> is_Some (channels h !! id) -> hub_ok (mkHub (relays h) (flags h) (<[id := box]> (channels h)) (next_entry h) n).
Proof.
  intros [Hc Hf Ho] Hid. split; cbn; [| | done].
  - intros a i Ha. apply lookup_insert_is_Some'. right. by eapply Hc.
  - intros i. rewrite lookup_insert_is_Some'. intros [<- | Hi]; auto.
Qed.

Lemma relay_ok h to m : hub_ok h -> hub_ok (relay h to m).1.
Proof.
  intros Hh. unfold relay. destruct (relays h !! to) as [id |]; [| done]. destruct (supports h id); [| done].
  destruct (channels h !! id) eqn:E; [| done]. by apply set_box_ok.
Qed.

Lemma try_recv_ok h id : hub_ok h -> hub_ok (try_recv h id).1.
Proof. intros Hh. unfold try_recv. destruct (channels h !! id) as [[| m box] |] eqn:E; [done | | done]. by apply set_box_ok. Qed.

(** What is waiting for the connection numbered [id]. *)
Definition waiting (h : Hub) (id : Z) : list HolepunchMessage := default [] (channels h !! id).

Lemma relay_cases h to m :
  hub_ok h ->
  match relays h !! to with
  | Some id =>
      if supports h id
      then (relay h to m).2 = true /\ waiting (relay h to m).1 id = waiting h id ++ [m] /\ (forall j, j <> id -> waiting (relay h to m).1 j = waiting h j)
      else relay h to m = (h, false)
  | None => relay h to m = (h, false)
  end.
Proof.
  intros Hh. unfold relay, waiting. destruct (relays h !! to) as [id |] eqn:E; [| done]. destruct (supports h id); [| done].
  destruct (hub_channel h Hh _ _ E) as [box ->]. cbn. rewrite lookup_insert_eq. split_and!; [done | done |]. intros j Hj. by rewrite lookup_insert_ne.
Qed.

(** What each thread does to the hub. *)
Inductive HubOp : Type :=
| Enter (a : SocketAddr)
| Leave (a : SocketAddr) (id : Z)
| Mark (id : Z)
| Relay (to : SocketAddr) (m : HolepunchMessage)
| Recv (id : Z)
| Dial (a : SocketAddr)
| TakeDials.

Definition hub_step (h : Hub) (op : HubOp) : Hub :=
  match op with
  | Enter a => (enter h a).1
  | Leave a id => leave h a id
  | Mark id => mark_supported h id
  | Relay to m => (relay h to m).1
  | Recv id => (try_recv h id).1
  | Dial a => request_dial h a
  | TakeDials => (take_dial_targets h).1
  end.

Lemma hub_step_ok h op : hub_ok h -> hub_ok (hub_step h op).
Proof.
  intros Hh. destruct op; cbn [hub_step]; [by apply enter_ok | by apply leave_ok | by apply mark_ok | by apply relay_ok | by apply try_recv_ok | by destruct Hh..].
Qed.

Lemma hub_run_ok ops h : hub_ok h -> hub_ok (foldl hub_step h ops).
Proof. revert h. induction ops as [| op ops IH]; intros h Hh; [done |]. by apply IH, hub_step_ok. Qed.

(** ** The answer *)

Lemma bind_step {A B} (m : M A) (k : A -> M B) w w' x : m w = Some (w', Ok x) -> (m ≫= k) w = k x w'.
Proof. intros E. unfold mbind, M_bind. by rewrite E. Qed.

Lemma on_hub_alone {A} (f : Hub -> Hub * A) w : others w = [] -> on_hub f w = Some (set_hub (f (hub w)).1 w, Ok (f (hub w)).2).
Proof. intros Ho. unfold on_hub, sync, mbind, M_bind. by rewrite Ho. Qed.

Lemma set_same_hub w : set_hub (hub w) w = w.
Proof. by destruct w. Qed.

(** Who is told what. *)
Definition introduced (cfg : Config) (target : SocketAddr) (h h' : Hub) (reply : HolepunchMessage) : Prop :=
  match relays h !! target with
  | None => reply = Holepunch.Error target Holepunch.NotConnected /\ h' = h
  | Some id =>
      if supports h id
      then reply = Holepunch.Connect target /\ waiting h' id = waiting h id ++ [Holepunch.Connect (peer_addr cfg)] /\
        (forall j, j <> id -> waiting h' j = waiting h j)
      else reply = Holepunch.Error target Holepunch.NoSupport /\ h' = h
  end.

Lemma rendezvous_alone cfg target w :
  others w = [] -> hub_ok (hub w) -> exists reply h', rendezvous cfg target w = Some (set_hub h' w, Ok reply) /\ introduced cfg target (hub w) h' reply.
Proof.
  intros Ho Hok. unfold rendezvous, introduced. erewrite bind_step by (by apply on_hub_alone). cbv beta.
  pose proof (relay_cases (hub w) target (Holepunch.Connect (peer_addr cfg)) Hok) as Hr.
  assert (forall b, is_unsupported (hub w) target = b -> relay (hub w) target (Holepunch.Connect (peer_addr cfg)) = (hub w, false) ->
    (if (relay (hub w) target (Holepunch.Connect (peer_addr cfg))).2 then mret (Holepunch.Connect target) else
       unsupported ← on_hub (fun h => (h, is_unsupported h target));
       mret (Holepunch.Error target (if (unsupported : bool) then Holepunch.NoSupport else Holepunch.NotConnected)) : M HolepunchMessage)
      (set_hub (relay (hub w) target (Holepunch.Connect (peer_addr cfg))).1 w) =
    Some (set_hub (hub w) w, Ok (Holepunch.Error target (if b then Holepunch.NoSupport else Holepunch.NotConnected)))) as Hrefuse.
  { intros b Hb ->. cbn [fst snd]. rewrite set_same_hub. erewrite bind_step by (by apply on_hub_alone). cbn [fst snd]. by rewrite set_same_hub, Hb. }
  unfold is_unsupported in Hrefuse. destruct (relays (hub w) !! target) as [id |] eqn:E; [destruct (supports (hub w) id) eqn:Es |].
  - destruct Hr as (Hr2 & Hw & Hj). rewrite Hr2. by eexists _, _.
  - eexists _, _. split; [by apply (Hrefuse true) | done].
  - eexists _, _. split; [by apply (Hrefuse false) | done].
Qed.

(** ** Properties *)

(** A peer that asks to be introduced is answered, whatever went
    on in the hub before: if the peer it names is connected and speaks the
    extension, that one's connection is left the asker's address, after what
    was waiting for it, nobody else anything, and the asker is told to connect;
    if it does not speak it, or is not connected, the asker is told so and
    nobody else anything.  A peer that never said it speaks the extension is
    not answered.  The reply goes out under the id this client gave the
    extension, whatever id the asker gave it. *)
Theorem rendezvous_answered (cfg : Config) (w : W) (ops : list HubOp) (payload : list Z) (target : SocketAddr) (theirs : option Z) (n : nat)
    (Hd : Holepunch.decode payload = Some (Ok (Holepunch.Rendezvous target))) (Ht : their_id w = theirs) (Ho : others w = []) (Hl : left w = S n)
    (Hh : hub w = foldl hub_step new_hub ops) :
  match theirs with
  | None => handle_holepunch cfg (Extended Extension.OUR_UT_HOLEPUNCH_ID payload) w = Some (w, Ok tt)
  | Some _ =>
      exists reply h', handle_holepunch cfg (Extended Extension.OUR_UT_HOLEPUNCH_ID payload) w =
          Some (set_left n (set_sent (sent w ++ [Extended Extension.OUR_UT_HOLEPUNCH_ID (Holepunch.encode reply)]) (set_hub h' w)), Ok tt) /\
        introduced cfg target (hub w) h' reply
  end.
Proof.
  assert (hub_ok (hub w)) as Hok by (rewrite Hh; apply hub_run_ok, new_hub_ok).
  unfold handle_holepunch. rewrite Z.eqb_refl. cbn [negb]. erewrite bind_step by (unfold lift; by rewrite Hd). cbv beta iota.
  rewrite (bind_step _ _ w w theirs) by (by unfold gets; rewrite Ht). destruct theirs as [id0 |]; [| done].
  destruct (rendezvous_alone cfg target w Ho Hok) as (reply & h' & E & Hr). exists reply, h'. split; [| exact Hr].
  rewrite (bind_step _ _ _ _ _ E). unfold send_holepunch, send, try_send, mbind, M_bind. cbn [left set_hub]. by rewrite Hl.
Qed.

(** The hub after the peers at two addresses came, and one said it speaks the
    extension. *)
Definition asker : SocketAddr := socket_addr (Ip4 [10; 0; 0; 1]) 1.
Definition named : SocketAddr := socket_addr (Ip4 [10; 0; 0; 2]) 2.
Definition example_ops : list HubOp := [Enter asker; Enter named; Mark 0; Mark 1].

Definition example_w : W :=
  mkW None (Queue.new [] 0) (mkSeederShared [] [] 1 0 (have_new 0) 0 (Choker.new 1) None None None) ∅ (foldl hub_step new_hub example_ops) [] 1 [] 0
    default_state (Some 7) [] [] [] (PieceAssembler.new (mkPieceWork 0 [] 0 None)) [] [] [].

Definition example_config : Config := mkConfig 5 false asker 0 (fun _ _ => false) false [] 1.

Lemma rendezvous_answered_witness :
  exists reply h', handle_holepunch example_config (Extended 3 (Holepunch.encode (Holepunch.Rendezvous named))) example_w =
      Some (set_left 0 (set_sent [Extended 3 (Holepunch.encode reply)] (set_hub h' example_w)), Ok tt) /\
    reply = Holepunch.Connect named /\ waiting h' 1 = [Holepunch.Connect asker].
Proof.
  destruct (rendezvous_answered example_config example_w example_ops (Holepunch.encode (Holepunch.Rendezvous named)) named (Some 7) 0) as (reply & h' & E & Hr);
    [vm_compute; reflexivity | reflexivity.. |].
  exists reply, h'. split; [exact E |]. destruct Hr as (Hr & Hw & _). split; [exact Hr | exact Hw].
Defined.
