(* ===== verification/Create.v ===== *)
(** * Making torrents

    Models [src/src/create.rs]: walking a file or a directory, hashing it in
    pieces, and writing the [.torrent] file; and the [.torrent] file of a
    torrent already in hand.  SHA-1 is the parameter [sha1].  The tree on disk
    is given as it is found: what a directory lists, in the order it lists it,
    and what a file's reads return.  The progress callback and the texts of
    error messages are left out.  A [None] is a panic. *)

From stdpp Require Import sorting.
From S2P Require Import Prelude Str Numeral Text Bytes BTree Bencode Io Dicts Sha256 Merkle V2Hashes V2Tree FileWriter Torrent.

Definition MIN_AUTO_PIECE_LENGTH : Z := 16 * 1024.
Definition MAX_AUTO_PIECE_LENGTH : Z := 16 * 1024 * 1024.
Definition TARGET_PIECES : Z := 1500.
Definition MIN_PIECE_LENGTH : Z := 1024.
Definition MAX_PIECES : Z := 2 ^ 20.

Record CreateOptions : Type := mkCreateOptions {
  o_piece_length : option Z;
  o_trackers : list (list (list Z));
  o_web_seeds : list (list Z);
  o_private : bool;
  o_comment : option (list Z);
  o_created_by : option (list Z);
  o_creation_date : option Z;
  o_name : option (list Z);
  o_v2 : bool
}.

Record Created : Type := mkCreated {
  c_bytes : list Z;
  c_info_hash : list Z;
  c_name : list Z;
  c_total_length : Z;
  c_piece_length : Z;
  c_piece_count : Z;
  c_file_count : Z
}.

Inductive CreateError : Type :=
| IoError (e : ErrorKind)
| Empty
| NonUtf8Path
| UnsafeName (name : list Z)
| BadPieceLength
| ChangedWhileReading
| Unreproducible.

(** ** What is on disk *)

(** What the reads of an open file return, and how they end. *)
Record FileData : Type := mkFileData {
  reads : list (list Z);
  ends : option ErrorKind
}.

(** Whether the reads came to the end of file, a read of nothing, before they
    ran out; what they gave up to there; and the error that cut them short. *)
Definition at_eof (rs : list (list Z)) : bool := existsb (fun c => zlen c =? 0) rs.

Fixpoint upto_eof (rs : list (list Z)) : list (list Z) :=
  match rs with
  | [] => []
  | c :: rest => if zlen c =? 0 then [] else c :: upto_eof rest
  end.

Definition content (f : FileData) : list Z := concat (upto_eof (reads f)).

Definition failure (f : FileData) : option ErrorKind := if at_eof (reads f) then None else ends f.

(** A file, a directory, something else (a link, a socket, a device), or what
    cannot be looked at. *)
Inductive Node : Type :=
| FileNode (len : Z) (opened : result FileData ErrorKind)
| DirNode (entries : list (list Z * Node))
| BadDirNode (e : ErrorKind)
| OtherNode
| BadNode (e : ErrorKind).

Record Entry : Type := mkEntry {
  e_path : list (list Z);
  e_file : result FileData ErrorKind;
  e_length : Z
}.

(** ** Sizes *)

Definition auto_piece_length (total : Z) : Z :=
  let wanted := Z.max (div_ceil total TARGET_PIECES) 1 in
  Z.min MAX_AUTO_PIECE_LENGTH (Z.max MIN_AUTO_PIECE_LENGTH (next_power_of_two wanted)).

(** [str::trim_end_matches(c)]. *)
Fixpoint drop_while_eq (c : Z) (s : list Z) : list Z :=
  match s with
  | b :: rest => if b =? c then drop_while_eq c rest else s
  | [] => []
  end.

Definition trim_end_matches (c : Z) (s : list Z) : list Z := reverse (drop_while_eq c (reverse s)).

Definition unit_multiplier (suffix : list Z) : option Z :=
  let unit_ := trim_end_matches 105 (trim_end_matches 98 (to_ascii_lowercase suffix)) in
  if bool_decide (unit_ = []) then Some 1
  else if bool_decide (unit_ = [107]) then Some (2 ^ 10)
  else if bool_decide (unit_ = [109]) then Some (2 ^ 20)
  else if bool_decide (unit_ = [103]) then Some (2 ^ 30)
  else None.

Definition parse_size (text : list Z) : option Z :=
  let t := trim text in
  let split := default (length t) (find_byte (fun b => negb (is_ascii_digit b)) t) in
  value ← parse_u 64 (take split t);
  multiplier ← unit_multiplier (drop split t);
  if value * multiplier <=? u_max 64 then Some (value * multiplier) else None.

Definition check_piece_length (len : Z) : result Z CreateError :=
  if negb (is_power_of_two len) then Err BadPieceLength
  else if len <? MIN_PIECE_LENGTH then Err BadPieceLength
  else if MAX_PIECE_LENGTH <? len then Err BadPieceLength
  else Ok len.

(** ** The files *)

Definition check_name (name : list Z) : result unit CreateError :=
  if negb (from_utf8_ok name) then Err NonUtf8Path
  else if negb (is_safe_component name) then Err (UnsafeName name)
  else Ok tt.

Fixpoint collect (dir : Node) (prefix : list (list Z)) : result (list Entry) CreateError :=
  match dir with
  | DirNode entries =>
      (fix collect_entries (es : list (list Z * Node)) : result (list Entry) CreateError :=
         match es with
         | [] => Ok []
         | (name, child) :: rest =>
             match child with
             | BadNode e => Err (IoError e)
             | OtherNode => collect_entries rest
             | FileNode len opened =>
                 let? _ := check_name name in
                 let? out := collect_entries rest in
                 Ok (mkEntry (prefix ++ [name]) opened len :: out)
             | DirNode _ | BadDirNode _ =>
                 let? _ := check_name name in
                 let? below := collect child (prefix ++ [name]) in
                 let? out := collect_entries rest in
                 Ok (below ++ out)
             end
         end) entries
  | BadDirNode e => Err (IoError e)
  | _ => Ok []
  end.

(** [Vec<String>]'s order. *)
Fixpoint path_cmp (a b : list (list Z)) : comparison :=
  match a, b with
  | [], [] => Eq
  | [], _ :: _ => Lt
  | _ :: _, [] => Gt
  | x :: a', y :: b' => match lex_cmp x y with Eq => path_cmp a' b' | c => c end
  end.

Definition entry_path_le (a b : Entry) : Prop := path_cmp (e_path a) (e_path b) <> Gt.

#[export] Instance entry_path_le_dec a b : Decision (entry_path_le a b).
Proof. unfold entry_path_le. apply _. Defined.

(** ** Hashing *)

Section create.
Context (sha1 : list Z -> list Z).

(** [hasher], [in_piece] and [pieces]; a hasher is the bytes it was given. *)
Record Hashing : Type := mkHashing {
  hasher : list Z;
  in_piece : Z;
  hashed : list Z
}.

(** The [while !chunk.is_empty()] loop: each pass takes a byte or more. *)
Fixpoint hash_chunk (fuel : nat) (piece_length : Z) (st : Hashing) (chunk : list Z) : option Hashing :=
  match chunk with
  | [] => Some st
  | _ =>
      match fuel with
      | O => None
      | S fuel' =>
          let n := Z.min (piece_length - in_piece st) (zlen chunk) in
          let h := hasher st ++ take (Z.to_nat n) chunk in
          let i := in_piece st + n in
          let st' := if i =? piece_length then mkHashing [] 0 (hashed st ++ sha1 h) else mkHashing h i (hashed st) in
          hash_chunk fuel' piece_length st' (drop (Z.to_nat n) chunk)
      end
  end.

(** The reads of one file. *)
Fixpoint hash_reads (piece_length len : Z) (rs : list (list Z)) (read_from_file : Z) (st : Hashing) :
    option (result (Z * Hashing) CreateError) :=
  match rs with
  | [] => Some (Ok (read_from_file, st))
  | chunk :: rest =>
      if zlen chunk =? 0 then Some (Ok (read_from_file, st))
      else
        let read_from_file := read_from_file + zlen chunk in
        if len <? read_from_file then Some (Err ChangedWhileReading)
        else
          st' ← hash_chunk (length chunk) piece_length st chunk;
          hash_reads piece_length len rest read_from_file st'
  end.

Definition hash_entry (piece_length : Z) (e : Entry) (st : Hashing) : option (result Hashing CreateError) :=
  match e_file e with
  | Err k => Some (Err (IoError k))
  | Ok f =>
      let! (n, st) := hash_reads piece_length (e_length e) (reads f) 0 st in
      match failure f with
      | Some k => Some (Err (IoError k))
      | None => if negb (n =? e_length e) then Some (Err ChangedWhileReading) else Some (Ok st)
      end
  end.

Fixpoint hash_entries (piece_length : Z) (es : list Entry) (st : Hashing) : option (result Hashing CreateError) :=
  match es with
  | [] => Some (Ok st)
  | e :: rest => let! st := hash_entry piece_length e st in hash_entries piece_length rest st
  end.

Definition hash_pieces (entries : list Entry) (piece_length : Z) : option (result (list Z) CreateError) :=
  let! st := hash_entries piece_length entries (mkHashing [] 0 []) in
  Some (Ok (if 0 <? in_piece st then hashed st ++ sha1 (hasher st) else hashed st)).

(** ** The torrent file *)

Definition text (s : list Z) : Bencode := Bytes s.

Record Extras : Type := mkExtras {
  x_comment : option (list Z);
  x_created_by : option (list Z);
  x_creation_date : option Z
}.

Definition url_entry (web_seeds : list (list Z)) : option Bencode :=
  match web_seeds with
  | [] => None
  | [one] => Some (text one)
  | many => Some (List (text <$> many))
  end.

Definition top_entries (info : Bencode) (piece_layers : option Bencode) (ann : option (list Z)) (ann_list : list (list (list Z)))
    (web_seeds : list (list Z)) (extras : Extras) : Entries :=
  let top := insert_opt [] (str "announce") (text <$> ann) in
  let top := insert_opt top (str "announce-list")
    (match ann_list with [] => None | _ => Some (List ((fun tier => List (text <$> tier)) <$> ann_list)) end) in
  let top := insert_opt top (str "url-list") (url_entry web_seeds) in
  let top := insert_opt top (str "comment") (text <$> x_comment extras) in
  let top := insert_opt top (str "created by") (text <$> x_created_by extras) in
  let top := insert_opt top (str "creation date") ((fun date => Int (Z.min date i64_max)) <$> x_creation_date extras) in
  let top := bt_insert top (str "info") info in
  insert_opt top (str "piece layers") piece_layers.

Definition top_level (info : Bencode) (piece_layers : option Bencode) (ann : option (list Z)) (ann_list : list (list (list Z)))
    (web_seeds : list (list Z)) (extras : Extras) : list Z :=
  encode (Dict (top_entries info piece_layers ann ann_list web_seeds extras)).

(** [x as i64] of a [u64]. *)
Definition as_i64 (z : Z) : Z := wrap 64 (z + 2 ^ 63) - 2 ^ 63.

(** What both forms put around the info dictionary. *)
Definition announce_of (options : CreateOptions) : option (list Z) := head (concat (o_trackers options)).

Definition announce_list_of (options : CreateOptions) : list (list (list Z)) :=
  if (1 <? length (concat (o_trackers options)))%nat then filter (fun tier => tier <> []) (o_trackers options) else [].

Definition extras_of (options : CreateOptions) : Extras := mkExtras (o_comment options) (o_created_by options) (o_creation_date options).

Definition file_dict (e : Entry) : Bencode :=
  Dict (bt_insert (bt_insert [] (str "length") (Int (as_i64 (e_length e)))) (str "path") (List (text <$> e_path e))).

Definition v1_info (name : list Z) (entries : list Entry) (piece_length total_length : Z) (pieces_ : list Z) (multi_file_ private_ : bool) : Entries :=
  let info := bt_insert [] (str "name") (text name) in
  let info := bt_insert info (str "piece length") (Int (as_i64 piece_length)) in
  let info := bt_insert info (str "pieces") (Bytes pieces_) in
  let info := if private_ then bt_insert info (str "private") (Int 1) else info in
  if multi_file_ then bt_insert info (str "files") (List (file_dict <$> entries))
  else bt_insert info (str "length") (Int (as_i64 total_length)).

(** *** The v2 form *)

(** The way down [part]s of the tree to where the leaf goes; an entry on the
    way that is not a dictionary is [unreachable!]. *)
Fixpoint tree_insert (parts : list (list Z)) (leaf : Bencode) (node : Entries) : option Entries :=
  match parts with
  | [] => Some (bt_insert node [] leaf)
  | part :: rest =>
      match default (Dict []) (bt_get node part) with
      | Dict next => sub ← tree_insert rest leaf next; Some (bt_insert node part (Dict sub))
      | _ => None
      end
  end.

Definition leaf_dict (len : Z) (h : FileHashes) : Bencode :=
  let leaf := bt_insert [] (str "length") (Int (as_i64 len)) in
  Dict (match fh_root h with Some r => bt_insert leaf (str "pieces root") (Bytes r) | None => leaf end).

Definition add_layer (h : FileHashes) (layers_ : Entries) : Entries :=
  match fh_root h, fh_layer h with
  | Some r, _ :: _ => bt_insert layers_ r (Bytes (concat (fh_layer h)))
  | _, _ => layers_
  end.

(** One file: its hashes, if it is as long as it was measured. *)
Definition hash_v2 (e : Entry) (piece_length : Z) : option (result FileHashes CreateError) :=
  match e_file e with
  | Err k => Some (Err (IoError k))
  | Ok f =>
      let r := mkReader (content f) (default UnexpectedEof (failure f)) in
      let! h := map_err IoError (hash_file r (e_length e) piece_length) in
      if negb (bool_decide (drop (Z.to_nat (e_length e)) (content f) = [])) then Some (Err ChangedWhileReading)
      else match failure f with Some k => Some (Err (IoError k)) | None => Some (Ok h) end
  end.

Fixpoint v2_loop (es : list Entry) (piece_length : Z) (tree layers_ : Entries) (piece_count : Z) :
    option (result (Entries * Entries * Z) CreateError) :=
  match es with
  | [] => Some (Ok (tree, layers_, piece_count))
  | e :: rest =>
      let! h := hash_v2 e piece_length in
      tree' ← tree_insert (e_path e) (leaf_dict (e_length e) h) tree;
      v2_loop rest piece_length tree' (add_layer h layers_) (wrap 64 (piece_count + div_ceil (e_length e) piece_length))
  end.

Definition v2_info (name : list Z) (tree : Entries) (piece_length : Z) (private_ : bool) : Entries :=
  let info := bt_insert [] (str "file tree") (Dict tree) in
  let info := bt_insert info (str "meta version") (Int 2) in
  let info := bt_insert info (str "name") (text name) in
  let info := bt_insert info (str "piece length") (Int (as_i64 piece_length)) in
  if private_ then bt_insert info (str "private") (Int 1) else info.

Definition sum_of_lengths (entries : list Entry) : Z := wrap 64 (foldr Z.add 0 (e_length <$> entries)).

Definition create_v2 (name : list Z) (entries : list Entry) (piece_length : Z) (options : CreateOptions) : option (result Created CreateError) :=
  if negb (valid_piece_length (as_i64 piece_length)) then Some (Err BadPieceLength)
  else
    let total_length_ := sum_of_lengths entries in
    let! (x, piece_count) := v2_loop entries piece_length [] [] 0 in
    let info := Dict (v2_info name x.1 piece_length (o_private options)) in
    let info_hash_v2 := sha256 (encode info) in
    let bytes := top_level info (Some (Dict x.2)) (announce_of options) (announce_list_of options) (o_web_seeds options) (extras_of options) in
    Some (Ok (mkCreated bytes (take 20 info_hash_v2) name total_length_ piece_length piece_count (zlen entries))).

(** ** Making a torrent *)

(** The name of the source, once the path to it is resolved; [own_name] is what
    that came to. *)
Definition name_for (options : CreateOptions) (own_name : result (option (list Z)) ErrorKind) : result (list Z) CreateError :=
  let? name :=
    match o_name options with
    | Some name => Ok name
    | None =>
        match own_name with
        | Err e => Err (IoError e)
        | Ok None => Err (UnsafeName [])
        | Ok (Some file_name) => if from_utf8_ok file_name then Ok file_name else Err NonUtf8Path
        end
    end in
  if negb (is_safe_component name) then Err (UnsafeName name) else Ok name.

Definition is_dir (source : Node) : bool := match source with DirNode _ | BadDirNode _ => true | _ => false end.

(** The files to put in it; something that is neither has no length. *)
Definition entries_of (source : Node) (name : list Z) : result (list Entry) CreateError :=
  if is_dir source then
    let? entries := collect source [] in Ok (merge_sort entry_path_le entries)
  else
    match source with
    | FileNode len opened => Ok [mkEntry [name] opened len]
    | _ => Ok [mkEntry [name] (Err OtherError) 0]
    end.

Definition piece_length_for (options : CreateOptions) (total : Z) : result Z CreateError :=
  let? piece_length :=
    match o_piece_length options with
    | Some len => check_piece_length len
    | None => Ok (auto_piece_length total)
    end in
  if MAX_PIECES <? div_ceil total piece_length then Err BadPieceLength else Ok piece_length.

Definition create (source : Node) (own_name : result (option (list Z)) ErrorKind) (options : CreateOptions) : option (result Created CreateError) :=
  match source with
  | BadNode e => Some (Err (IoError e))
  | _ =>
      let! name := Some (name_for options own_name) in
      let! entries := Some (entries_of source name) in
      let total := sum_of_lengths entries in
      if total =? 0 then Some (Err Empty)
      else
        let! piece_length := Some (piece_length_for options total) in
        if o_v2 options then create_v2 name entries piece_length options
        else
          let! pieces_ := hash_pieces entries piece_length in
          let info := Dict (v1_info name entries piece_length total pieces_ (is_dir source) (o_private options)) in
          let info_hash := sha1 (encode info) in
          let bytes := top_level info None (announce_of options) (announce_list_of options) (o_web_seeds options) (extras_of options) in
          Some (Ok (mkCreated bytes info_hash name total piece_length (zlen pieces_ / 20) (zlen entries)))
  end.

(** ** A torrent in hand *)

Definition no_extras : Extras := mkExtras None None None.

Definition layers_dict (ls : Layers) : Entries := fold_left (fun m e => bt_insert m e.1 (Bytes (concat e.2))) ls [].

Definition torrent_file_bytes (t : TorrentFile) : result (list Z) CreateError :=
  let info_bytes := encode (t_info t) in
  match is_v2_only t, v2 t with
  | true, Some meta =>
      if negb (bool_decide (sha256 info_bytes = info_hash meta)) then Err Unreproducible
      else Ok (top_level (t_info t) (Some (Dict (layers_dict (layers meta)))) (announce t) (announce_list t) (url_list t) no_extras)
  | _, _ =>
      if negb (bool_decide (sha1 info_bytes = t_info_hash t)) then Err Unreproducible
      else Ok (top_level (t_info t) None (announce t) (announce_list t) (url_list t) no_extras)
  end.

(** *** Keeping it *)

(** The files of the disk that matter: the target and the one beside it. *)
Definition Files : Type := list Z -> option (list Z).

Definition set_file (fs : Files) (p : list Z) (v : option (list Z)) : Files := fun q => if bool_decide (q = p) then v else fs q.

(** [fs::write]: all of it, or the error it stopped at, leaving the first
    bytes or, when the file could not be opened, what was there. *)
Inductive Write : Type :=
| Written
| Stopped (e : ErrorKind) (left : option nat).

Definition write_file (w : Write) (fs : Files) (p bytes : list Z) : Files * result unit CreateError :=
  match w with
  | Written => (set_file fs p (Some bytes), Ok tt)
  | Stopped e (Some n) => (set_file fs p (Some (take n bytes)), Err (IoError e))
  | Stopped e None => (fs, Err (IoError e))
  end.

(** [fs::rename] and the [fs::remove_file] after one that fails; [removed]
    says whether the file went. *)
Definition rename_file (renamed : option ErrorKind) (removed : bool) (fs : Files) (partial_ p : list Z) : Files * result unit CreateError :=
  match renamed with
  | None => (set_file (set_file fs p (fs partial_)) partial_ None, Ok tt)
  | Some e => (if removed then set_file fs partial_ None else fs, Err (IoError e))
  end.

Definition save_torrent (w : Write) (renamed : option ErrorKind) (removed : bool) (fs : Files) (t : TorrentFile) (path_ : list Z) :
    Files * result unit CreateError :=
  match torrent_file_bytes t with
  | Err e => (fs, Err e)
  | Ok bytes =>
      let partial_ := path_ ++ str ".part" in
      let '(fs, r) := write_file w fs partial_ bytes in
      match r with
      | Err e => (fs, Err e)
      | Ok _ => rename_file renamed removed fs partial_ path_
      end
  end.

End create.
