(* ===== verification/CreateFacts.v ===== *)
(** * Torrents that were made

    The claims about [Create]: the piece hashes are those of the files' bytes
    taken back to back, whatever sizes the reads came in; the torrent file made
    is one [parse_torrent_file] takes, and it says what was asked for; the file
    of a torrent in hand reads back as that torrent; and saving it leaves a
    whole file or the old one. *)

From stdpp Require Import sorting.
From S2P Require Import Prelude Str Numeral Text Bytes BTree Bencode Io Dicts Sha256 Merkle V2Hashes V2Tree FileWriter Torrent Create.

(** ** The bytes that were read *)

(** A file that opened, read to its end, and was as long as it was measured. *)
Definition reads_as (e : Entry) (d : list Z) : Prop :=
  exists f, e_file e = Ok f /\ failure f = None /\ content f = d /\ e_length e = zlen d.

Section pieces.
Context (sha1 : list Z -> list Z) (pl : Z) (Hpl : 0 < pl).

(** After the bytes [d]: the whole pieces are hashed, the rest is in the hasher. *)
Definition hashed_upto (st : Hashing) (d : list Z) : Prop :=
  exists full, d = concat full ++ hasher st /\ Forall (fun p => zlen p = pl) full /\
    hashed st = concat (sha1 <$> full) /\ in_piece st = zlen (hasher st) /\ in_piece st < pl.

Lemma hash_chunk_upto fuel st d chunk :
  (length chunk <= fuel)%nat -> hashed_upto st d ->
  exists st', hash_chunk sha1 fuel pl st chunk = Some st' /\ hashed_upto st' (d ++ chunk).
Proof using All.
  revert st d chunk. induction fuel as [| fuel IH]; intros st d chunk Hf Hst.
  { destruct chunk; [| simpl in Hf; lia]. exists st. by rewrite app_nil_r. }
  destruct chunk as [| b chunk]; [exists st; by rewrite app_nil_r |].
  cbn [hash_chunk]. set (c := b :: chunk) in *. set (n := Z.min (pl - in_piece st) (zlen c)).
  destruct Hst as (full & Hd & Hfull & Hh & Hin & Hlt).
  assert (1 <= zlen c) by (unfold c; rewrite zlen_cons; pose proof (zlen_nonneg chunk); lia).
  assert (zlen (take (Z.to_nat n) c) = n) as Hn by (apply zlen_take; lia).
  set (st' := if _ =? pl then _ else _).
  assert (hashed_upto st' (d ++ take (Z.to_nat n) c)) as Hst'.
  { subst st'. destruct (Z.eqb_spec (in_piece st + n) pl) as [Heq | Hne].
    - exists (full ++ [hasher st ++ take (Z.to_nat n) c]). cbn [hasher hashed in_piece].
      rewrite fmap_app, !concat_app, Forall_app, Hd, Hh. cbn. rewrite !app_nil_r, <- !app_assoc.
      split_and!; [done | done | | done | done | lia]. constructor; [| done]. rewrite zlen_app. lia.
    - exists full. cbn [hasher hashed in_piece]. rewrite Hd, <- app_assoc, zlen_app. split_and!; try done; lia. }
  destruct (IH st' (d ++ take (Z.to_nat n) c) (drop (Z.to_nat n) c)) as (st2 & Hrun & Hst2); [| exact Hst' |].
  { rewrite length_drop. unfold zlen in *. lia. }
  exists st2. split; [exact Hrun |]. rewrite <- (take_drop (Z.to_nat n) c) at 1. by rewrite app_assoc.
Qed.

Lemma hash_reads_upto rs len n st d :
  hashed_upto st d ->
  exists r, hash_reads sha1 pl len rs n st = Some r /\
    match r with
    | Ok (n', st') => n' = n + zlen (concat (upto_eof rs)) /\ hashed_upto st' (d ++ concat (upto_eof rs))
    | Err _ => len < n + zlen (concat (upto_eof rs))
    end.
Proof using All.
  revert n st d. induction rs as [| c rs IH]; intros n st d Hst; cbn [hash_reads upto_eof].
  { eexists. split; [done |]. cbn. rewrite app_nil_r, zlen_nil. split; [lia | done]. }
  destruct (Z.eqb_spec (zlen c) 0); [eexists; split; [done |]; cbn; rewrite app_nil_r, zlen_nil; split; [lia | done] |].
  cbn [concat]. rewrite zlen_app. destruct (Z.ltb_spec len (n + zlen c)).
  { eexists. split; [done |]. pose proof (zlen_nonneg (concat (upto_eof rs))). cbn. lia. }
  destruct (hash_chunk_upto (length c) st d c) as (st' & -> & Hst'); [lia | done |]. cbn [mbind option_bind].
  destruct (IH (n + zlen c) st' _ Hst') as (r & -> & Hr). exists r. split; [done |].
  destruct r as [[n' st2] | e]; [| lia]. by rewrite Z.add_assoc, app_assoc.
Qed.

Lemma hash_entry_upto e st d :
  hashed_upto st d ->
  exists r, hash_entry sha1 pl e st = Some r /\
    match r with
    | Ok st' => exists c, reads_as e c /\ hashed_upto st' (d ++ c)
    | Err _ => forall c, ~ reads_as e c
    end.
Proof using All.
  intros Hst. unfold hash_entry. destruct (e_file e) as [f | k] eqn:Hf.
  2: { eexists. split; [done |]. intros c (f & Hf' & _). congruence. }
  destruct (hash_reads_upto (reads f) (e_length e) 0 st d Hst) as (r & -> & Hr). cbn [fuelled_bind].
  assert (forall c, reads_as e c -> failure f = None /\ e_length e = zlen (content f)) as Hfit.
  { intros c (f' & Hf' & Hfail & Hc & Hl). rewrite Hf in Hf'. injection Hf' as <-. by subst c. }
  destruct r as [[n st'] | err].
  2: { eexists. split; [done |]. intros c Hc. apply Hfit in Hc as [_ Hl]. rewrite Hl in Hr. unfold content in Hr. lia. }
  destruct Hr as [-> Hst']. destruct (failure f) eqn:Hfail.
  { eexists. split; [done |]. intros c Hc. by apply Hfit in Hc as []. }
  destruct (Z.eqb_spec (0 + zlen (concat (upto_eof (reads f)))) (e_length e)) as [Hl | Hl]; eexists; (split; [done |]).
  - exists (content f). split; [| done]. exists f. unfold content. split_and!; [done | done | done | lia].
  - intros c Hc. apply Hfit in Hc as [_ Hc]. unfold content in Hc. lia.
Qed.

Lemma hash_entries_upto es st d :
  hashed_upto st d ->
  exists r, hash_entries sha1 pl es st = Some r /\
    match r with
    | Ok st' => exists cs, Forall2 reads_as es cs /\ hashed_upto st' (d ++ concat cs)
    | Err _ => forall cs, ~ Forall2 reads_as es cs
    end.
Proof using All.
  revert st d. induction es as [| e es IH]; intros st d Hst; cbn [hash_entries].
  { eexists. split; [done |]. exists []. split; [constructor |]. cbn. by rewrite app_nil_r. }
  destruct (hash_entry_upto e st d Hst) as (r & -> & Hr). cbn [fuelled_bind]. destruct r as [st' | err].
  2: { eexists. split; [done |]. intros cs Hcs. inversion Hcs; subst. by eapply Hr. }
  destruct Hr as (c & Hc & Hst'). destruct (IH st' _ Hst') as (r & -> & Hr). exists r. split; [done |].
  destruct r as [st2 | err].
  - destruct Hr as (cs & Hcs & Hst2). exists (c :: cs). split; [by constructor |]. cbn. by rewrite app_assoc.
  - intros cs Hcs. inversion Hcs; subst. by eapply Hr.
Qed.

(** Whole pieces and a shorter rest are what cutting the data gives. *)
Lemma chunks_of_pieces full (h : list Z) :
  Forall (fun p => zlen p = pl) full -> zlen h < pl ->
  let d := concat full ++ h in chunks (length d) (Z.to_nat pl) d = full ++ (if bool_decide (h = []) then [] else [h]).
Proof using All.
  intros Hfull Hh. induction Hfull as [| p full Hp Hfull IH]; intros d; subst d; cbn [concat app].
  - case_bool_decide as Hne; [by subst |]. rewrite chunks_cons by (done || lia). unfold zlen in Hh.
    by rewrite take_ge, drop_ge by lia.
  - unfold zlen in Hp. rewrite <- app_assoc. rewrite chunks_cons; [| lia | destruct p; [simpl in Hp; lia | done] | lia].
    rewrite take_app_length', drop_app_length' by lia. by rewrite IH.
Qed.

(** Hashing ends, and gives the hash of every piece of the files' bytes back to
    back exactly when every file read as it was measured. *)
Lemma hash_pieces_upto es :
  exists r, hash_pieces sha1 es pl = Some r /\
    match r with
    | Ok ps => exists cs, Forall2 reads_as es cs /\ let d := concat cs in ps = concat (sha1 <$> chunks (length d) (Z.to_nat pl) d)
    | Err _ => forall cs, ~ Forall2 reads_as es cs
    end.
Proof using All.
  unfold hash_pieces. destruct (hash_entries_upto es (mkHashing [] 0 []) []) as (r & -> & Hr).
  { exists []. split_and!; [done | constructor | done | done | cbn; lia]. }
  cbn [fuelled_bind]. destruct r as [st | err]; [| by eexists]. eexists. split; [done |].
  destruct Hr as (cs & Hcs & full & Hd & Hfull & Hh & Hin & Hlt). cbn [app] in Hd. exists cs. split; [done |]. cbv zeta.
  rewrite Hd, chunks_of_pieces, fmap_app, concat_app, Hh by (done || lia).
  rewrite Hin. case_bool_decide as Hne.
  - rewrite Hne. cbn. by rewrite app_nil_r.
  - rewrite (proj2 (Z.ltb_lt _ _)); [cbn; by rewrite app_nil_r |].
    destruct (hasher st); [done |]. rewrite zlen_cons. pose proof (zlen_nonneg l). lia.
Qed.
End pieces.

(** ** Values whose encoding fits *)

(** A value but for the lengths of its strings, which the length of its
    encoding bounds. *)
Fixpoint shaped (v : Bencode) : Prop :=
  match v with
  | Int i => i64_ok i
  | Bytes _ => True
  | List items => foldr (fun x P => shaped x /\ P) True items
  | Dict m => bt_sorted m /\ foldr (fun kv P => shaped kv.2 /\ P) True m
  end.

Lemma shaped_List items : shaped (List items) <-> Forall shaped items.
Proof. simpl. induction items; simpl; rewrite ?Forall_cons, ?Forall_nil; naive_solver. Qed.

Lemma shaped_Dict m : shaped (Dict m) <-> bt_sorted m /\ Forall (fun kv => shaped kv.2) m.
Proof. simpl. apply and_iff_compat_l. induction m; simpl; rewrite ?Forall_cons, ?Forall_nil; naive_solver. Qed.

Lemma wf_shaped v : wf v -> shaped v.
Proof.
  induction v as [| | items IH | m IH] using Bencode_ind_nested; intros H; [done | done | |].
  - apply wf_List in H. apply shaped_List. rewrite Forall_forall in *. eauto.
  - apply wf_Dict in H as [Hs H]. apply shaped_Dict. split; [done |]. rewrite Forall_forall in *. intros kv Hkv. by apply IH, H.
Qed.

Lemma zlen_flat_map_elem {A} (f : A -> list Z) l x : x ∈ l -> zlen (f x) <= zlen (flat_map f l).
Proof.
  induction l as [| y l IH]; intros Hx; [by apply not_elem_of_nil in Hx |]. cbn [flat_map]. rewrite zlen_app.
  pose proof (zlen_nonneg (f y)). pose proof (zlen_nonneg (flat_map f l)).
  apply elem_of_cons in Hx as [-> | Hx]; [lia |]. specialize (IH Hx). lia.
Qed.

Lemma zlen_encode_bytes b : zlen b <= zlen (encode_bytes b).
Proof. unfold encode_bytes. rewrite !zlen_app. pose proof (zlen_nonneg (u_to_string (zlen b))). change (zlen [58]) with 1. lia. Qed.

Lemma shaped_wf v : shaped v -> zlen (encode v) <= i64_max -> wf v.
Proof.
  unfold encode. induction v as [| b | items IH | m IH] using Bencode_ind_nested; intros H Hlen; [done | | |].
  - cbn in *. pose proof (zlen_encode_bytes b). lia.
  - apply shaped_List in H. apply wf_List. rewrite Forall_forall in *. intros x Hx. apply IH; [done | by apply H |].
    pose proof (zlen_flat_map_elem encode_into items x Hx).
    change (encode_into (List items)) with ([108] ++ flat_map encode_into items ++ [101]) in Hlen.
    rewrite !zlen_app in Hlen. change (zlen [108]) with 1 in Hlen. change (zlen [101]) with 1 in Hlen. lia.
  - apply shaped_Dict in H as [Hs H]. apply wf_Dict. split; [done |]. rewrite Forall_forall in *. intros kv Hkv.
    pose proof (zlen_flat_map_elem encode_entry m kv Hkv) as Hkl. unfold encode_entry in Hkl at 1. rewrite zlen_app in Hkl.
    change (encode_into (Dict m)) with ([100] ++ flat_map encode_entry m ++ [101]) in Hlen.
    rewrite !zlen_app in Hlen. change (zlen [100]) with 1 in Hlen. change (zlen [101]) with 1 in Hlen.
    pose proof (zlen_encode_bytes kv.1). pose proof (zlen_nonneg (encode_bytes kv.1)). pose proof (zlen_nonneg (encode_into kv.2)).
    split; [lia |]. apply IH; [done | by apply H | lia].
Qed.

(** Dictionaries of such values, [n] levels deep at most. *)
Definition shape_at (n : Z) (v : Bencode) : Prop := shaped v /\ nesting v <= n.

Definition shapes (n : Z) (m : Entries) : Prop := bt_sorted m /\ Forall (fun kv => shape_at n kv.2) m.

Lemma shapes_nil n : shapes n [].
Proof. split; [exact I | constructor]. Qed.

Lemma shapes_insert n m k v : shape_at n v -> shapes n m -> shapes n (bt_insert m k v).
Proof. intros Hv [Hs Hm]. split; [by apply bt_insert_sorted | by apply bt_insert_Forall]. Qed.

Lemma shapes_insert_opt n m k o : opt_ok (shape_at n) o -> shapes n m -> shapes n (insert_opt m k o).
Proof. intros Ho Hm. destruct o; [by apply shapes_insert | done]. Qed.

Lemma shape_dict n m : 0 <= n -> shapes n m -> shape_at (1 + n) (Dict m).
Proof.
  intros Hn [Hs Hm]. split.
  - apply shaped_Dict. split; [done |]. apply (Forall_impl _ _ _ Hm). by intros ? [].
  - apply nesting_Dict; [done |]. apply (Forall_impl _ _ _ Hm). by intros ? [].
Qed.

Lemma shape_list n l : 0 <= n -> Forall (shape_at n) l -> shape_at (1 + n) (List l).
Proof.
  intros Hn Hl. split; [apply shaped_List | apply nesting_List; [done |]]; apply (Forall_impl _ _ _ Hl); by intros x [].
Qed.

Lemma shape_bytes n b : 0 <= n -> shape_at n (Bytes b).
Proof. done. Qed.

Lemma shape_mono n n' v : n <= n' -> shape_at n v -> shape_at n' v.
Proof. intros Hn [? ?]. split; [done | lia]. Qed.

Lemma shape_texts n l : 0 <= n -> shape_at (1 + n) (List (text <$> l)).
Proof. intros Hn. apply shape_list; [done |]. apply Forall_fmap, Forall_true. intros b. by apply shape_bytes. Qed.

(** ** The file around an info dictionary *)

Definition utf8 (s : list Z) : Prop := from_utf8_ok s = true.

Lemma as_str_text s : utf8 s -> as_str (text s) = Some s.
Proof. unfold utf8. intros H. cbn. by rewrite H. Qed.

Lemma as_strs_text l : Forall utf8 l -> omap as_str (text <$> l) = l.
Proof. induction 1 as [| s l Hs Hl IH]; [done |]. rewrite fmap_cons. cbn [omap list_omap]. rewrite (as_str_text s Hs). by rewrite IH. Qed.

Lemma tiers_text al : Forall (Forall utf8) al -> omap as_str <$> omap as_list ((fun tier => List (text <$> tier)) <$> al) = al.
Proof. induction 1 as [| s l Hs Hl IH]; [done |]. rewrite fmap_cons. cbn [omap list_omap as_list]. rewrite fmap_cons. by rewrite as_strs_text, IH. Qed.

Section round.
Context (sha1 : list Z -> list Z).

(** A canonical file with an info dictionary is built from that dictionary,
    hashed as it is written. *)
Lemma parse_encoded m info :
  shape_at Bencode.MAX_DEPTH (Dict m) -> zlen (encode (Dict m)) <= i64_max -> bt_get m (str "info") = Some info ->
  parse_torrent_file sha1 (encode (Dict m)) =
    build_torrent_from_info sha1 info (encode info)
      (v ← bt_get m (str "announce"); as_str v)
      (match (v ← bt_get m (str "announce-list"); as_list v) with Some tiers => omap as_str <$> omap as_list tiers | None => [] end)
      (match bt_get m (str "url-list") with
       | Some (Bytes b) => match as_str (Bytes b) with Some u => [u] | None => [] end
       | Some (List l) => omap as_str l
       | _ => []
       end)
      (bt_get m (str "piece layers")).
Proof.
  intros [Hs Hn] Hlen Hinfo. pose proof (shaped_wf _ Hs Hlen) as Hwf. unfold parse_torrent_file, decode, Bencode.new.
  rewrite decode_top_encode by done. cbn [map_err fuelled_bind need as_dict ok_or].
  unfold need. rewrite Hinfo. cbn [ok_or fuelled_bind].
  destruct (find_key_span_encode m (str "info") info Hwf Hn Hlen Hinfo) as (a & b & -> & Hab). cbn [fuelled_bind fst snd].
  by rewrite Hab.
Qed.

Lemma parse_top_level info ls ann al urls x :
  let bytes := top_level info ls ann al urls x in
  zlen bytes <= i64_max -> shape_at 99 info -> opt_ok (shape_at 99) ls ->
  opt_ok utf8 ann -> Forall (Forall utf8) al -> Forall utf8 urls -> opt_ok (fun d => 0 <= d) (x_creation_date x) ->
  parse_torrent_file sha1 bytes = build_torrent_from_info sha1 info (encode info) ann al urls ls.
Proof.
  intros bytes Hlen Hinfo Hls Hann Hal Hurls Hdate. unfold bytes, top_level.
  rewrite (parse_encoded _ info); [| | exact Hlen | unfold top_entries; by read_keys].
  2: { apply (shape_dict 99); [lia |]. unfold top_entries.
       repeat first [apply shapes_insert_opt | apply shapes_insert | apply shapes_nil]; try done.
       - destruct (x_creation_date x) as [d |]; [| done]. cbn in Hdate |- *. split; [| done]. cbn.
         unfold i64_ok, i64_min, i64_max. lia.
       - by destruct (x_created_by x).
       - by destruct (x_comment x).
       - destruct urls as [| u [| u2 urls]]; [done | done |]. apply (shape_mono 1); [lia |]. by apply (shape_texts 0).
       - destruct al; [done |]. apply (shape_mono 2); [lia |]. apply (shape_list 1); [lia |].
         apply Forall_fmap, Forall_true. intros tier. by apply (shape_texts 0).
       - by destruct ann. }
  unfold top_entries. f_equal; read_keys.
  - destruct ann as [a |]; [| done]. by apply (as_str_text a).
  - destruct al as [| tier al]; [done |]. cbn [mbind option_bind as_list]. by apply tiers_text.
  - destruct urls as [| u [| u2 urls]]; [done | |].
    + apply Forall_cons in Hurls as [Hu _]. cbn [url_entry text]. fold (text u). by rewrite as_str_text.
    + cbn [url_entry]. by apply as_strs_text.
  - done.
Qed.
End round.

(** ** The files of a directory *)

Section node_ind.
Variable P : Node -> Prop.
Hypothesis HFile : forall len opened, P (FileNode len opened).
Hypothesis HDir : forall entries, Forall (fun e => P e.2) entries -> P (DirNode entries).
Hypothesis HBadDir : forall e, P (BadDirNode e).
Hypothesis HOther : P OtherNode.
Hypothesis HBad : forall e, P (BadNode e).

Fixpoint Node_ind_nested (n : Node) : P n :=
  match n with
  | FileNode len opened => HFile len opened
  | DirNode entries =>
      HDir entries
        ((fix go (l : list (list Z * Node)) : Forall (fun e => P e.2) l :=
            match l with
            | [] => Forall_nil_2 _
            | e :: l' => Forall_cons_2 _ _ _ (Node_ind_nested e.2) (go l')
            end) entries)
  | BadDirNode e => HBadDir e
  | OtherNode => HOther
  | BadNode e => HBad e
  end.
End node_ind.

(** One entry of a directory, and then the others. *)
Definition collect_one (prefix : list (list Z)) (name : list Z) (child : Node) : result (list Entry) CreateError :=
  match child with
  | BadNode e => Err (IoError e)
  | OtherNode => Ok []
  | FileNode len opened => let? _ := check_name name in Ok [mkEntry (prefix ++ [name]) opened len]
  | DirNode _ | BadDirNode _ => let? _ := check_name name in collect child (prefix ++ [name])
  end.

Fixpoint collect_each (prefix : list (list Z)) (es : list (list Z * Node)) : result (list Entry) CreateError :=
  match es with
  | [] => Ok []
  | (name, child) :: rest =>
      let? here := collect_one prefix name child in
      let? out := collect_each prefix rest in
      Ok (here ++ out)
  end.

Lemma collect_DirNode entries prefix : collect (DirNode entries) prefix = collect_each prefix entries.
Proof.
  cbn [collect]. induction entries as [| [name child] rest IH]; [done |]. cbn [collect_each]. rewrite <- IH.
  destruct child as [len opened | sub | e | | e]; cbn [collect_one];
    try (destruct (check_name name) as [[] | err]; [| done]); cbn [result_bind app]; try done.
  match goal with |- context [result_bind ?x _] => by destruct x end.
Qed.

(** What the walk finds lies under where it began, by safe names. *)
Definition under (prefix : list (list Z)) (e : Entry) : Prop :=
  exists tail, tail <> [] /\ e_path e = prefix ++ tail /\ Forall component_ok tail.

Lemma check_name_Ok name : check_name name = Ok tt <-> component_ok name.
Proof. unfold check_name, component_ok. destruct (from_utf8_ok name), (is_safe_component name); cbn; naive_solver. Qed.

Lemma under_deeper prefix name e : component_ok name -> under (prefix ++ [name]) e -> under prefix e.
Proof. intros Hn (tail & Hne & Hp & Ht). exists (name :: tail). rewrite Hp, <- app_assoc. by repeat split; try constructor. Qed.

Lemma collect_under dir : forall prefix es, collect dir prefix = Ok es -> Forall (under prefix) es.
Proof.
  induction dir as [len opened | entries IH | e | | e] using Node_ind_nested; intros prefix es H; try discriminate H; try by (injection H as <-).
  rewrite collect_DirNode in H. revert es H. induction IH as [| [name child] rest Hchild _ IHrest]; intros es H; [by injection H as <- |].
  cbn [collect_each] in H. apply result_bind_Ok in H as (here & Hhere & H). apply result_bind_Ok in H as (out & Hout & H).
  injection H as <-. apply Forall_app. split; [| by apply IHrest]. cbn [snd] in Hchild.
  assert (forall sub, (let? _ := check_name name in sub) = Ok here -> component_ok name /\ sub = Ok here) as Hsub.
  { intros sub Hsub. apply result_bind_Ok in Hsub as ([] & Hn & Hsub). by apply check_name_Ok in Hn. }
  destruct child as [len opened | sub | e | | e]; cbn [collect_one] in Hhere.
  - apply Hsub in Hhere as [Hn [= <-]]. constructor; [| done]. exists [name]. split_and!; [done | done | by constructor].
  - apply Hsub in Hhere as [Hn Hhere]. apply Hchild in Hhere. apply (Forall_impl _ _ _ Hhere). intros e. by apply under_deeper.
  - apply Hsub in Hhere as [Hn Hhere]. done.
  - by injection Hhere as <-.
  - done.
Qed.

(** ** The v1 form *)

Definition entry_fits (e : Entry) : Prop :=
  e_path e <> [] /\ Forall component_ok (e_path e) /\ 0 <= e_length e <= i64_max.

Definition listed (e : Entry) : list (list Z) * Z := (e_path e, e_length e).

Definition total_of (es : list Entry) : Z := foldr Z.add 0 (e_length <$> es).

Lemma as_i64_small z : 0 <= z <= i64_max -> as_i64 z = z.
Proof. unfold as_i64, wrap, i64_max. intros H. rewrite Z.mod_small by lia. lia. Qed.

Lemma file_entry_made e : entry_fits e -> file_entry (file_dict e) = Ok (listed e, false).
Proof.
  intros (Hne & Hc & Hlen). unfold file_entry, file_dict, get_str, get_int, get_list, get. cbn [as_dict mbind option_bind]. read_keys.
  rewrite as_i64_small by done. cbn [result_bind]. rewrite (proj2 (Z.ltb_ge _ _)) by lia. unfold path_parts.
  rewrite as_strs_text by (apply (Forall_impl _ _ _ Hc); by intros ? []).
  rewrite bool_decide_false by done. destruct (list_find _ _) as [[i bad] |] eqn:Hf; [| done].
  apply list_find_Some in Hf as (Hi & Hbad & _). rewrite Forall_lookup in Hc. apply Hc in Hi as [_ Hi]. congruence.
Qed.

Lemma file_entries_made es : Forall entry_fits es -> file_entries (file_dict <$> es) = Ok ((fun e => (listed e, false)) <$> es).
Proof. induction 1 as [| e es He Hes IH]; [done |]. rewrite !fmap_cons. cbn [file_entries]. by rewrite (file_entry_made e He), IH. Qed.

Lemma checked_total_sum lens sum :
  Forall (fun len => 0 <= len) lens -> sum + foldr Z.add 0 lens <= u_max 64 -> checked_total sum lens = Some (sum + foldr Z.add 0 lens).
Proof.
  intros Hl. revert sum. induction Hl as [| len lens Hlen Hl IH]; intros sum H; cbn [checked_total foldr] in *; [f_equal; lia |].
  assert (0 <= foldr Z.add 0 lens) by (clear -Hl; induction Hl; cbn; lia).
  unfold u_checked_add. rewrite (proj2 (Z.leb_le _ _)) by lia. cbn [mbind option_bind]. rewrite IH by lia. f_equal. lia.
Qed.

(** The flags and the two forms as optional entries. *)
Lemma v1_info_opts name es pl total ps (multi priv : bool) :
  v1_info name es pl total ps multi priv =
  insert_opt (insert_opt (insert_opt
      (bt_insert (bt_insert (bt_insert [] (str "name") (text name)) (str "piece length") (Int (as_i64 pl))) (str "pieces") (Bytes ps))
      (str "private") (if priv then Some (Int 1) else None))
    (str "files") (if multi then Some (List (file_dict <$> es)) else None))
    (str "length") (if multi then None else Some (Int (as_i64 total))).
Proof. by destruct multi, priv. Qed.

Lemma total_of_nonneg es : Forall entry_fits es -> 0 <= total_of es.
Proof. unfold total_of. induction 1 as [| e es (_ & _ & He) Hes IH]; [done |]. cbn. lia. Qed.

Lemma shape_file_dict e : 0 <= e_length e <= i64_max -> shape_at 2 (file_dict e).
Proof.
  intros H. apply (shape_dict 1); [lia |]. repeat first [apply shapes_insert | apply shapes_nil]; [by apply (shape_texts 0) |].
  split; [| done]. cbn. rewrite as_i64_small by done. unfold i64_ok, i64_min. lia.
Qed.

Lemma v1_info_shape name es pl total ps multi priv :
  Forall entry_fits es -> 0 <= pl <= i64_max -> 0 <= total <= i64_max -> shape_at 99 (Dict (v1_info name es pl total ps multi priv)).
Proof.
  intros Hes Hpl Ht. rewrite v1_info_opts. apply (shape_mono (1 + 3)); [lia |]. apply shape_dict; [lia |].
  assert (forall z, 0 <= z <= i64_max -> shape_at 3 (Int (as_i64 z))) as Hint.
  { intros z Hz. split; [| done]. cbn. rewrite as_i64_small by done. unfold i64_ok, i64_min. lia. }
  repeat first [apply shapes_insert_opt | apply shapes_insert | apply shapes_nil]; try done; try by apply Hint.
  - destruct multi; [done | by apply Hint].
  - destruct multi; [| done]. apply (shape_list 2); [lia |]. apply Forall_fmap, (Forall_impl _ _ _ Hes).
    intros e (_ & _ & He). by apply shape_file_dict.
  - destruct priv; [| done]. split; [| done]. cbn. unfold i64_ok, i64_min, i64_max. lia.
Qed.

Section v1.
Context (sha1 : list Z -> list Z) (Hsha : forall d, length (sha1 d) = 20%nat).

(** The hashes of the pieces of [d], as [parse_torrent_file] cuts them. *)
Lemma piece_hashes_cut (pl : Z) (d : list Z) :
  0 < pl ->
  let cut := chunks (length d) (Z.to_nat pl) d in
  let ps := concat (sha1 <$> cut) in
  zlen ps mod 20 = 0 /\ zlen ps / 20 = div_ceil (zlen d) pl /\ as_chunks (length ps) 20 ps = sha1 <$> cut /\ zlen (sha1 <$> cut) = div_ceil (zlen d) pl.
Proof using All.
  intros Hpl cut ps. assert (Forall (fun h => length h = 20%nat) (sha1 <$> cut)) as H20 by (apply Forall_fmap, Forall_true; apply Hsha).
  assert (length ps = (20 * length cut)%nat) as Hps.
  { subst ps. rewrite <- (length_fmap sha1 cut). clear -H20. induction H20 as [| h l Hh Hl IH]; [done |].
    cbn [concat length]. rewrite length_app, IH, Hh. lia. }
  assert (zlen (sha1 <$> cut) = div_ceil (zlen d) pl) as Hcut.
  { unfold cut, zlen. rewrite length_fmap. pose proof (length_chunks_eq (Z.to_nat pl) ltac:(lia) d) as H. unfold zlen in H. rewrite H.
    by rewrite Z2Nat.id by lia. }
  assert (zlen ps = 20 * zlen (sha1 <$> cut)) as Hz by (unfold zlen; rewrite length_fmap; lia).
  split_and!; [rewrite Hz, Z.mul_comm; by apply Z.mod_mul | rewrite Hz, Z.mul_comm, Z.div_mul by lia; done | | done].
  apply as_chunks_concat_len; [lia | done |]. rewrite length_fmap. lia.
Qed.

(** What [v1_info] put under each key. *)
Record v1_keys (m : Entries) (name : list Z) (es : list Entry) (pl total : Z) (ps : list Z) (multi priv : bool) : Prop := {
  vk_version : bt_get m (str "meta version") = None;
  vk_name : bt_get m (str "name") = Some (text name);
  vk_piece_length : bt_get m (str "piece length") = Some (Int (as_i64 pl));
  vk_pieces : bt_get m (str "pieces") = Some (Bytes ps);
  vk_private : bt_get m (str "private") = if priv then Some (Int 1) else None;
  vk_files : bt_get m (str "files") = if multi then Some (List (file_dict <$> es)) else None;
  vk_length : bt_get m (str "length") = if multi then None else Some (Int (as_i64 total))
}.

Lemma v1_info_keys name es pl total ps multi priv :
  v1_keys (v1_info name es pl total ps multi priv) name es pl total ps multi priv.
Proof. rewrite v1_info_opts. split; read_keys; by destruct multi, priv. Qed.

(** What [build_v1_torrent] makes of such a dictionary. *)
Lemma build_v1_made m name es pl d (multi priv : bool) raw ann al urls :
  let hashes := sha1 <$> chunks (length d) (Z.to_nat pl) d in
  v1_keys m name es pl (zlen d) (concat hashes) multi priv ->
  component_ok name -> Forall entry_fits es -> total_of es = zlen d -> zlen d <= i64_max -> 0 < pl <= MAX_PIECE_LENGTH ->
  (multi = false -> exists f, es = [mkEntry [name] f (zlen d)]) ->
  build_torrent_from_info sha1 (Dict m) raw ann al urls None =
    Some (Ok (mkTorrentFile ann al (Dict m) (sha1 raw) pl hashes name (listed <$> es) (replicate (length es) false) multi urls priv None [])).
Proof using All.
  intros hashes [Hver Hname Hplk Hps Hpriv Hfiles Hlen] [Hutf Hsafe] Hes Htot Hmax Hpl Hmulti.
  destruct (piece_hashes_cut pl d ltac:(lia)) as (Hmod & _ & Hcut & Hn). fold hashes in Hmod, Hcut, Hn.
  rewrite as_i64_small in Hplk by (unfold MAX_PIECE_LENGTH, i64_max in *; lia).
  pose proof (zlen_nonneg d) as Hd. rewrite as_i64_small in Hlen by lia.
  assert (v1_files (Dict m) name = Ok ((fun e => (listed e, false)) <$> es)) as Hent.
  { unfold v1_files, get_int, get_list, get. cbn [as_dict mbind option_bind]. rewrite Hlen, Hfiles. destruct multi.
    - by apply file_entries_made.
    - cbn [mbind option_bind as_int]. rewrite (proj2 (Z.ltb_ge _ _)) by done. by destruct Hmulti as (f & ->). }
  assert (is_private (Dict m) = priv) as Hp by (unfold is_private, get_int, get; cbn [as_dict mbind option_bind]; rewrite Hpriv; by destruct priv).
  unfold build_torrent_from_info. unfold get_int at 1, get at 1. cbn [as_dict mbind option_bind]. rewrite Hver. cbn [mbind option_bind].
  f_equal. unfold build_v1_torrent. rewrite Hp.
  unfold get_int, get_bytes, get_str, get. cbn [as_dict mbind option_bind]. rewrite Hlen, Hfiles, Hplk, Hps, Hname.
  cbn [mbind option_bind as_int as_bytes ok_or result_bind].
  rewrite (proj2 (Z.leb_gt _ _)) by lia. rewrite Hmod. cbn [negb Z.eqb]. rewrite (proj2 (Z.ltb_ge _ _)) by lia.
  rewrite as_str_text by done. cbn [ok_or result_bind]. rewrite Hsafe, Hent. cbn [negb result_bind].
  assert (snd <$> (fst <$> ((fun e => (listed e, false)) <$> es)) = e_length <$> es) as -> by (rewrite <- !list_fmap_compose; done).
  fold (total_of es) in Htot. rewrite checked_total_sum.
  - cbn [ok_or result_bind]. fold (total_of es). rewrite Z.add_0_l, Htot, Hcut, Hn, Z.eqb_refl. cbn [negb].
    assert (fst <$> ((fun e => (listed e, false)) <$> es) = listed <$> es) as -> by (rewrite <- list_fmap_compose; done).
    assert (snd <$> ((fun e => (listed e, false)) <$> es) = replicate (length es) false) as ->
      by (rewrite <- list_fmap_compose; clear; induction es as [| e es IH]; [done | by rewrite fmap_cons, IH]).
    f_equal. f_equal. destruct multi; [| done]. by rewrite !bool_decide_true.
  - apply Forall_fmap, (Forall_impl _ _ _ Hes). intros e (_ & _ & He). cbn. lia.
  - fold (total_of es). unfold u_max, i64_max in *. lia.
Qed.
End v1.

(** ** The parts of [create] *)

(** Strings are UTF-8, and dates unsigned. *)
Record options_ok (o : CreateOptions) : Prop := {
  ook_name : opt_ok utf8 (o_name o);
  ook_trackers : Forall (Forall utf8) (o_trackers o);
  ook_web_seeds : Forall utf8 (o_web_seeds o);
  ook_date : opt_ok (fun d => 0 <= d) (o_creation_date o)
}.

Lemma name_for_ok o own name : opt_ok utf8 (o_name o) -> name_for o own = Ok name -> component_ok name.
Proof.
  intros Ho H. unfold name_for in H. apply result_bind_Ok in H as (n & Hn & H).
  destruct (is_safe_component n) eqn:Hsafe; [| done]. injection H as <-. split; [| done].
  destruct (o_name o) as [m |]; [by injection Hn as <- |]. destruct own as [[m |] | e]; try done.
  destruct (from_utf8_ok m) eqn:Hu; [| done]. by injection Hn as <-.
Qed.

Lemma entries_of_paths source name es :
  component_ok name -> entries_of source name = Ok es ->
  Forall (fun e => e_path e <> [] /\ Forall component_ok (e_path e)) es /\
  (is_dir source = false -> exists f len, es = [mkEntry [name] f len]).
Proof.
  intros Hn H. unfold entries_of in H. destruct (is_dir source) eqn:Hd.
  - split; [| done]. apply result_bind_Ok in H as (found & Hf & H). injection H as <-. apply collect_under in Hf.
    rewrite (merge_sort_Permutation entry_path_le found). apply (Forall_impl _ _ _ Hf).
    intros e (tail & Hne & Hp & Ht). by rewrite Hp.
  - assert (exists f len, es = [mkEntry [name] f len]) as (f & len & ->) by (destruct source; injection H as <-; eauto).
    split; [| eauto]. constructor; [| done]. split; [done | by constructor].
Qed.

Lemma piece_length_for_ok o total pl : piece_length_for o total = Ok pl -> 0 < pl <= MAX_PIECE_LENGTH.
Proof.
  unfold piece_length_for. intros H. apply result_bind_Ok in H as (n & Hn & H). destruct (_ <? _); [done |]. injection H as <-.
  destruct (o_piece_length o) as [len |].
  - unfold check_piece_length in Hn. destruct (negb _); [done |]. destruct (Z.ltb_spec len MIN_PIECE_LENGTH); [done |].
    destruct (Z.ltb_spec MAX_PIECE_LENGTH len); [done |]. injection Hn as <-. unfold MIN_PIECE_LENGTH in *. lia.
  - injection Hn as <-. unfold auto_piece_length, MIN_AUTO_PIECE_LENGTH, MAX_AUTO_PIECE_LENGTH, MAX_PIECE_LENGTH. lia.
Qed.

Lemma reads_as_total es cs : Forall2 reads_as es cs -> total_of es = zlen (concat cs) /\ Forall (fun e => 0 <= e_length e <= total_of es) es.
Proof.
  unfold total_of. induction 1 as [| e c es cs (f & _ & _ & _ & He) Hes [IH IHf]]; [done |].
  cbn [fmap list_fmap foldr concat]. rewrite zlen_app, <- IH, He. split; [done |].
  pose proof (zlen_nonneg c). assert (0 <= foldr Z.add 0 (e_length <$> es)) by (rewrite IH; apply zlen_nonneg).
  constructor; [lia |]. apply (Forall_impl _ _ _ IHf). cbn. lia.
Qed.

Lemma announce_utf8 o : Forall (Forall utf8) (o_trackers o) -> opt_ok utf8 (announce_of o) /\ Forall (Forall utf8) (announce_list_of o).
Proof.
  intros H. split.
  - unfold announce_of. apply Forall_concat in H. destruct (concat (o_trackers o)); [done |]. by apply Forall_cons in H as [].
  - unfold announce_list_of. destruct (_ <? _)%nat; [| constructor].
    rewrite Forall_forall in *. intros tier Ht. apply list_elem_of_filter in Ht as [_ Ht]. by apply H.
Qed.

Definition nonempty_tiers (o : CreateOptions) : list (list (list Z)) := filter (fun tier => tier <> []) (o_trackers o).

Lemma concat_nonempty (tiers : list (list (list Z))) : concat (filter (fun tier => tier <> []) tiers) = concat tiers.
Proof. induction tiers as [| t tiers IH]; [done |]. rewrite filter_cons. destruct (decide (t <> [])) as [| Hn]; cbn [concat]; rewrite IH; [done |]. by apply dec_stable in Hn as ->. Qed.

(** The tiers a client finds in the file are those asked for, but for the empty. *)
Lemma tiers_made o t : announce t = announce_of o -> announce_list t = announce_list_of o -> tracker_tiers t = nonempty_tiers o.
Proof.
  intros Ha Hl. unfold tracker_tiers. rewrite Ha, Hl. unfold announce_of, announce_list_of. fold (nonempty_tiers o).
  rewrite <- (concat_nonempty (o_trackers o)). fold (nonempty_tiers o).
  assert (Forall (fun tier => tier <> []) (nonempty_tiers o)) as Hne by (apply Forall_forall; intros t' Ht; by apply list_elem_of_filter in Ht as []).
  assert (filter (fun tier => tier <> []) (nonempty_tiers o) = nonempty_tiers o) as Hff 
    by (clear -Hne; induction Hne as [| x l Hx Hl IH]; [done | by rewrite filter_cons, decide_True, IH]).
  generalize dependent (nonempty_tiers o). clear. intros tiers Hne Hff.
  destruct Hne as [| [| a tier] tiers Ht Hne]; [done | done |]. cbn [concat app head]. destruct (Nat.ltb_spec 1 (length (a :: tier ++ concat tiers))) as [Hn | Hn].
  - rewrite Hff, bool_decide_true; [done |]. constructor. by left.
  - cbn [length] in Hn. rewrite length_app in Hn. destruct tier; [| simpl in Hn; lia]. destruct Hne as [| [| b tier] tiers]; [done | done |]. simpl in Hn. lia.
Qed.

(** What a run of [create] that makes a v1 torrent did. *)
Lemma create_v1_steps sha1 source own o c :
  o_v2 o = false -> create sha1 source own o = Some (Ok c) ->
  exists name es pl ps,
    name_for o own = Ok name /\ entries_of source name = Ok es /\ piece_length_for o (sum_of_lengths es) = Ok pl /\
    hash_pieces sha1 es pl = Some (Ok ps) /\
    let info := Dict (v1_info name es pl (sum_of_lengths es) ps (is_dir source) (o_private o)) in
    c = mkCreated (top_level info None (announce_of o) (announce_list_of o) (o_web_seeds o) (extras_of o)) (sha1 (encode info)) name
          (sum_of_lengths es) pl (zlen ps / 20) (zlen es).
Proof.
  intros Hv2 H. unfold create in H.
  destruct source; try discriminate H; bind_ok H as name En; injection En as En; bind_ok H as es Ee; injection Ee as Ee;
    (destruct (_ =? 0); [done |]); bind_ok H as pl Ep; injection Ep as Ep; rewrite Hv2 in H; bind_ok H as ps Eh; injection H as <-;
    exists name, es, pl, ps; split_and!; try done; by rewrite <- Ee.
Qed.

(** C3: Making a torrent and parsing it are inverse.  When [create] makes a v1
    torrent of a file or a directory (strings being UTF-8, SHA-1 giving 20
    bytes, the files holding at most [i64::MAX] bytes), the client's own parser
    accepts the file made; it finds the same info hash, name, piece length and
    counts, the files in the order they were listed, for each piece the SHA-1
    of that slice of the files' bytes back to back, and the trackers, web seeds
    and privacy that were asked for. *)
Theorem create_parses (sha1 : list Z -> list Z) (source : Node) (own_name : result (option (list Z)) ErrorKind)
    (options : CreateOptions) (c : Created) (es : list Entry)
    (Hsha : forall d, length (sha1 d) = 20%nat) (Hv2 : o_v2 options = false) (Hopt : options_ok options)
    (Hc : create sha1 source own_name options = Some (Ok c)) (Hes : entries_of source (c_name c) = Ok es)
    (Hsum : total_of es <= i64_max) (Hlen : zlen (c_bytes c) <= i64_max) :
  exists t cs, parse_torrent_file sha1 (c_bytes c) = Some (Ok t) /\ Forall2 reads_as es cs /\
    t_info_hash t = c_info_hash c /\ t_name t = c_name c /\ t_files t = listed <$> es /\ multi_file t = is_dir source /\
    t_piece_length t = c_piece_length c /\ total_length t = c_total_length c /\
    pieces t = sha1 <$> chunks (length (concat cs)) (Z.to_nat (c_piece_length c)) (concat cs) /\ zlen (pieces t) = c_piece_count c /\
    tracker_tiers t = nonempty_tiers options /\ url_list t = o_web_seeds options /\ private t = o_private options /\ v2 t = None.
Proof.
  apply create_v1_steps in Hc as (name & es' & pl & ps & En & Ee & Ep & Eh & Hc); [| done]. rewrite Hc in Hes, Hlen |- *. clear Hc.
  cbn [c_name c_bytes c_info_hash c_piece_length c_total_length c_piece_count] in *. rewrite Ee in Hes. injection Hes as ->.
  apply name_for_ok in En; [| apply Hopt]. apply piece_length_for_ok in Ep.
  destruct (hash_pieces_upto sha1 pl ltac:(lia) es) as (r & Hr & Hps). rewrite Eh in Hr. injection Hr as <-.
  destruct Hps as (cs & Hcs & Hps). cbv zeta in Hps. destruct (reads_as_total es cs Hcs) as [Htot Heach].
  destruct (entries_of_paths source name es En Ee) as [Hpaths Hone].
  assert (sum_of_lengths es = zlen (concat cs)) as Hsl.
  { unfold sum_of_lengths, wrap. fold (total_of es). rewrite Z.mod_small; [done |]. rewrite Htot in Hsum |- *.
    pose proof (zlen_nonneg (concat cs)). unfold i64_max in Hsum. lia. }
  assert (Forall entry_fits es) as Hfit.
  { rewrite Forall_forall in *. intros e He. destruct (Hpaths e He). split_and!; [done | done | | ]; destruct (Heach e He); lia. }
  rewrite Hsl in *. destruct (piece_hashes_cut sha1 Hsha pl (concat cs)) as (_ & Hcount & _ & Hn); [lia |]. rewrite Hps in *.
  destruct (announce_utf8 options (ook_trackers _ Hopt)) as [Hann Hal].
  eexists _, cs. split.
  - rewrite parse_top_level; [| exact Hlen | | exact I | done | done | apply Hopt | apply Hopt].
    + apply (build_v1_made sha1 Hsha _ name es); [apply v1_info_keys | done | done | done | lia | done |].
      intros Hd. destruct (Hone Hd) as (f & len & ->). exists f. repeat f_equal. cbn in Htot. lia.
    + apply v1_info_shape; [done | unfold MAX_PIECE_LENGTH, i64_max in *; lia |]. pose proof (zlen_nonneg (concat cs)). lia.
  - split_and!; try done; cbn [pieces]; [| by rewrite Hcount | by apply tiers_made].
    unfold total_length. cbn [t_files]. rewrite <- list_fmap_compose, <- Htot. done.
Qed.

Definition example_sha1 (d : list Z) : list Z := replicate 20 (zlen d).

Definition example_source : Node :=
  DirNode [(str "b.txt", FileNode 3 (Ok (mkFileData [[1; 2]; [3]] None)));
           (str "a", DirNode [(str "z.bin", FileNode 1 (Ok (mkFileData [[9]; []] None))); (str "link", OtherNode)])].

Definition example_options : CreateOptions := mkCreateOptions None [[]; [str "http://t/a"]; [str "udp://u:1"]] [str "http://w/"] true None None (Some 5) None false.

Definition example_entries : list Entry :=
  [mkEntry [str "a"; str "z.bin"] (Ok (mkFileData [[9]; []] None)) 1; mkEntry [str "b.txt"] (Ok (mkFileData [[1; 2]; [3]] None)) 3].

Lemma create_parses_witness :
  exists c t cs, create example_sha1 example_source (Ok (Some (str "album"))) example_options = Some (Ok c) /\
    parse_torrent_file example_sha1 (c_bytes c) = Some (Ok t) /\ Forall2 reads_as example_entries cs /\
    t_files t = [([str "a"; str "z.bin"], 1); ([str "b.txt"], 3)] /\ pieces t = example_sha1 <$> chunks (length (concat cs)) (Z.to_nat 16384) (concat cs).
Proof.
  destruct (create example_sha1 example_source (Ok (Some (str "album"))) example_options) as [[c | e] |] eqn:Hc; [| vm_compute in Hc; discriminate ..].
  assert (entries_of example_source (c_name c) = Ok example_entries) as He by (vm_compute in Hc; injection Hc as <-; vm_compute; reflexivity).
  assert (c_piece_length c = 16384) as Hpl by (vm_compute in Hc; injection Hc as <-; reflexivity).
  destruct (create_parses example_sha1 example_source (Ok (Some (str "album"))) example_options c example_entries)
    as (t & cs & Hp & Hcs & _ & _ & Hf & _ & _ & _ & Hps & _); [intros d; apply length_replicate | reflexivity | | exact Hc | exact He | vm_compute; discriminate | |].
  - split; vm_compute; repeat constructor; discriminate.
  - vm_compute in Hc. injection Hc as <-. vm_compute. discriminate.
  - exists c, t, cs. rewrite Hpl in Hps. split_and!; [reflexivity | exact Hp | exact Hcs | rewrite Hf; reflexivity | exact Hps].
Defined.

(** ** A torrent in hand, written and read again *)

Definition layer_ok (e : Hash * list Hash) : Prop := zlen e.1 = 32 /\ Forall (fun x => zlen x = 32) e.2.

Lemma as_chunks_length n fuel (l : list Z) : Forall (fun c => length c = n) (as_chunks fuel n l).
Proof.
  revert l. induction fuel as [| fuel IH]; intros l; cbn [as_chunks]; [done |]. destruct (Nat.ltb_spec (length l) n); [done |].
  constructor; [rewrite length_take; lia | apply IH].
Qed.

Lemma parse_layer_entries_each es out ls : Forall layer_ok out -> parse_layer_entries es out = Ok ls -> Forall layer_ok ls.
Proof.
  revert out. induction es as [| [r v] es IH]; intros out Hout H; [by injection H as <- |].
  cbn [parse_layer_entries] in H. destruct (Z.eqb_spec (zlen r) 32); [| done]. apply result_bind_Ok in H as (b & _ & H).
  cbn [negb] in H. destruct (negb _); [done |]. apply IH in H; [done |]. apply bt_insert_Forall; [| done].
  split; [done |]. apply (Forall_impl _ _ _ (as_chunks_length 32 (length b) b)). intros c Hc. unfold zlen. cbn in Hc. lia.
Qed.

Lemma parse_layers_each v ls : parse_layers v = Ok ls -> Forall layer_ok ls /\ bt_sorted ls.
Proof.
  unfold parse_layers. intros H. destruct v as [v |]; [| by injection H as <-]. apply result_bind_Ok in H as (es & _ & H).
  split; [by apply parse_layer_entries_each in H | by apply parse_layer_entries_sorted in H].
Qed.

(** The layers written are the layers in order. *)
Lemma layers_dict_sorted ls : bt_sorted ls -> layers_dict ls = (fun e : Hash * list Hash => (e.1, Bytes (concat e.2))) <$> ls.
Proof.
  set (g := fun e : Hash * list Hash => (e.1, Bytes (concat e.2))). unfold layers_dict.
  enough (forall out, bt_sorted (out ++ ls) -> fold_left (fun m e => bt_insert m e.1 (Bytes (concat e.2))) ls (g <$> out) = (g <$> out) ++ (g <$> ls)) as H
    by (intros Hs; by apply (H [])).
  induction ls as [| e ls IH]; intros out Hs; [by rewrite app_nil_r |]. destruct e as [r hs]. cbn [fold_left fst snd].
  destruct (bt_sorted_app_cons _ _ _ _ Hs) as (_ & Hbelow & _). rewrite bt_insert_snoc by (apply Forall_fmap, (Forall_impl _ _ _ Hbelow); done).
  change ((g <$> out) ++ [(r, Bytes (concat hs))]) with ((g <$> out) ++ (g <$> [(r, hs)])). rewrite <- fmap_app, IH by (by rewrite <- app_assoc).
  by rewrite fmap_app, <- app_assoc.
Qed.

Lemma layers_dict_parses ls : bt_sorted ls -> Forall layer_ok ls -> parse_layers (Some (Dict (layers_dict ls))) = Ok ls.
Proof. intros Hs Hl. rewrite layers_dict_sorted by done. by apply (parse_layer_entries_ok ls []). Qed.

Lemma layers_dict_shape ls : shape_at 99 (Dict (layers_dict ls)).
Proof.
  apply (shape_mono (1 + 0)); [lia |]. apply shape_dict; [lia |]. unfold layers_dict.
  enough (forall out, shapes 0 out -> shapes 0 (fold_left (fun m e => bt_insert m e.1 (Bytes (concat e.2))) ls out)) as H by apply H, shapes_nil.
  induction ls as [| e ls IH]; intros out Hout; [done |]. apply IH. by apply shapes_insert.
Qed.

(** The layers [torrent_file_bytes] writes. *)
Definition kept_layers (t : TorrentFile) : option Bencode :=
  match is_v2_only t, v2 t with true, Some m => Some (Dict (layers_dict (layers m))) | _, _ => None end.

Section kept.
Context (sha1 : list Z -> list Z).

Lemma build_layers info raw ann al urls ls ls' :
  parse_layers ls = parse_layers ls' ->
  build_torrent_from_info sha1 info raw ann al urls ls = build_torrent_from_info sha1 info raw ann al urls ls'.
Proof using Type. intros H. unfold build_torrent_from_info, build_v2_only_torrent, v2_meta. by rewrite H. Qed.

Lemma build_v1_meta info raw ann al urls meta t :
  build_v1_torrent sha1 info raw ann al urls meta = Ok t ->
  announce t = ann /\ announce_list t = al /\ url_list t = urls /\ is_v2_only t = false.
Proof using Type.
  intros H. unfold build_v1_torrent in H. apply result_bind_Ok in H as (pl & _ & H). destruct (pl <=? 0); [done |].
  apply result_bind_Ok in H as (raw' & Hraw & H). destruct (negb _); [done |]. destruct (MAX_PIECE_LENGTH <? pl); [done |].
  apply result_bind_Ok in H as (name & _ & H). destruct (negb _); [done |]. apply result_bind_Ok in H as (es & _ & H).
  apply result_bind_Ok in H as (total & _ & H). destruct (negb _); [done |]. injection H as <-. split_and!; try done.
  unfold is_v2_only. cbn [v2 t_info]. apply ok_or_Ok in Hraw. unfold get_bytes in Hraw. apply bind_Some in Hraw as (v & Hv & _).
  rewrite (bool_decide_false (get info _ = None)) by (by rewrite Hv). apply andb_false_r.
Qed.

Lemma build_v2_only_iff info tree raw ann al urls ls t :
  build_v2_only_torrent info tree raw ann al urls ls = Some (Ok t) <->
  exists pl name m es plan, get_int info "piece length" = Some pl /\ valid_piece_length pl = true /\ pl <= MAX_PIECE_LENGTH /\
    get_str info "name" = Some name /\ is_safe_component name = true /\ v2_meta info tree raw ls = Some (Ok m) /\
    v2_entries (files m) 0 = Ok es /\ plan_pieces (files m) (layers m) pl = Some plan /\
    t = mkTorrentFile ann al info (short_hash m) pl ((fun p => take 20 (p_root p)) <$> default [] plan) name es (replicate (length es) false)
          (negb (bool_decide (V2Hashes.path <$> files m = [[name]]))) urls (is_private info) (Some m) (default [] plan).
Proof using Type.
  unfold build_v2_only_torrent. split.
  - intros H. bind_ok H as pl Ep. apply need_Ok in Ep. destruct (valid_piece_length pl) eqn:Hv; [| done]. cbn [negb] in H.
    destruct (Z.ltb_spec MAX_PIECE_LENGTH pl); [done |]. bind_ok H as name En. apply need_Ok in En.
    destruct (is_safe_component name) eqn:Hn; [| done]. cbn [negb] in H. bind_ok H as m Em. bind_ok H as es Ee. injection Ee as Ee.
    destruct (plan_pieces _ _ _) as [plan |] eqn:Hplan; [| done]. cbn [mbind option_bind] in H. injection H as <-.
    exists pl, name, m, es, plan. by split_and!.
  - intros (pl & name & m & es & plan & Ep & Hv & Hmax & En & Hn & Em & Ee & Hplan & ->). unfold need.
    rewrite Ep. cbn [ok_or fuelled_bind]. rewrite Hv, (proj2 (Z.ltb_ge _ _)) by done. cbn [negb]. rewrite En. cbn [ok_or fuelled_bind].
    rewrite Hn. cbn [negb]. rewrite Em. cbn [fuelled_bind]. rewrite Ee. cbn [fuelled_bind]. by rewrite Hplan.
Qed.

(** What was passed along is in the torrent, and a v2-only torrent's metadata
    is that of its file tree and layers. *)
Lemma build_inv info raw ann al urls ls t :
  wf info -> build_torrent_from_info sha1 info raw ann al urls ls = Some (Ok t) ->
  announce t = ann /\ announce_list t = al /\ url_list t = urls /\
  (is_v2_only t = true -> exists tree m, get_int info "meta version" = Some 2 /\ get info (str "file tree") = Some tree /\
     get info (str "pieces") = None /\ v2 t = Some m /\ v2_meta info tree raw ls = Some (Ok m) /\
     build_v2_only_torrent info tree raw ann al urls ls = Some (Ok t)).
Proof using Type.
  intros Hwf H. assert (forall meta, build_v1_torrent sha1 info raw ann al urls meta = Ok t ->
    announce t = ann /\ announce_list t = al /\ url_list t = urls /\ (is_v2_only t = true -> False)) as Hv1.
  { intros meta H1. apply build_v1_meta in H1 as (? & ? & ? & Hv). rewrite Hv. by split_and!. }
  unfold build_torrent_from_info in H. destruct (get_int info "meta version") as [v |]; [| injection H as H; apply Hv1 in H; naive_solver].
  destruct (v =? 2) eqn:E2; [apply Z.eqb_eq in E2; subst v | done]. cbn [negb] in H.
  destruct (get info (str "file tree")) as [tree |] eqn:Ht; [| injection H as H; apply Hv1 in H; naive_solver].
  destruct (get info (str "pieces")) as [pv |] eqn:Hp.
  { destruct (v2_meta info tree raw ls) as [r |]; [| done]. injection H as H. apply Hv1 in H. naive_solver. }
  pose proof H as Hb. apply build_v2_only_iff in H as (pl & name & m & es & plan & _ & _ & _ & _ & _ & Em & _ & _ & ->). split_and!; try done.
  intros _. by exists tree, m.
Qed.

Lemma v2_meta_inv info tree raw ls m :
  v2_meta info tree raw ls = Some (Ok m) ->
  parse_file_tree tree = Ok (files m) /\ parse_layers ls = Ok (layers m) /\ info_hash m = sha256 raw.
Proof using Type.
  intros H. unfold v2_meta in H. bind_ok H as fs Ef. bind_ok H as lm El. bind_ok H as pl Ep. bind_ok H as u Ev. injection H as <-.
  apply map_err_Ok in Ef, El. injection Ef as Ef. injection El as El. done.
Qed.

(** A torrent is written when its info dictionary is the one that was hashed,
    and what is written is parsed as the torrent. *)
Lemma kept_parses t ls :
  wf (t_info t) -> nesting (t_info t) < Bencode.MAX_DEPTH ->
  opt_ok utf8 (announce t) -> Forall (Forall utf8) (announce_list t) -> Forall utf8 (url_list t) ->
  build_torrent_from_info sha1 (t_info t) (encode (t_info t)) (announce t) (announce_list t) (url_list t) ls = Some (Ok t) ->
  parse_layers ls = parse_layers (kept_layers t) ->
  let bytes := top_level (t_info t) (kept_layers t) (announce t) (announce_list t) (url_list t) no_extras in
  torrent_file_bytes sha1 t = Ok bytes /\ (zlen bytes <= i64_max -> parse_torrent_file sha1 bytes = Some (Ok t)).
Proof using Type.
  intros Hwf Hn Ha Hal Hu Hb Hls bytes. split.
  - pose proof (build_torrent_ok sha1 _ _ _ _ _ _ _ Hwf Hb) as (_ & _ & Hh). apply build_inv in Hb as (_ & _ & _ & Hv2); [| done].
    unfold torrent_file_bytes, bytes, kept_layers. destruct (is_v2_only t) eqn:Hv.
    + destruct (Hv2 eq_refl) as (tree & m & _ & _ & _ & -> & Hm & _). apply v2_meta_inv in Hm as (_ & _ & ->).
      by rewrite bool_decide_true.
    + rewrite Hh. by rewrite bool_decide_true.
  - intros Hlen. unfold bytes. rewrite parse_top_level; [| exact Hlen | | | done | done | done | done].
    + by rewrite <- Hb, (build_layers _ _ _ _ _ _ _ Hls).
    + split; [by apply wf_shaped | unfold Bencode.MAX_DEPTH in Hn; lia].
    + unfold kept_layers. destruct (is_v2_only t), (v2 t); [apply layers_dict_shape | done..].
Qed.

(** Layers fetched later are as good as layers in the file. *)
Lemma installed_builds info raw ann al urls ls t more t' :
  wf info -> build_torrent_from_info sha1 info raw ann al urls ls = Some (Ok t) -> is_v2_only t = true ->
  bt_sorted more -> Forall layer_ok more -> install_layers t more = Some (Ok t') ->
  build_torrent_from_info sha1 info raw ann al urls (kept_layers t') = Some (Ok t') /\ is_v2_only t' = true /\ t_info t' = info.
Proof using Type.
  intros Hwf Hb Hv Hs Hl Hi. pose proof (build_torrent_ok sha1 _ _ _ _ _ _ _ Hwf Hb) as (_ & Hinfo & _).
  apply build_inv in Hb as (_ & _ & _ & Hv2); [| done].
  destruct (Hv2 Hv) as (tree & m & Hver & Htree & Hp & Hm & Hmeta & Hbuild).
  pose proof (wf_get _ _ _ Hwf Htree) as Hwt. destruct (v2_meta_inv _ _ _ _ _ Hmeta) as (Hfiles & Hlayers & Hhash).
  destruct (v2_meta_ok _ _ _ _ _ Hwt Hmeta) as (pl & Hpl & Hok & _). apply parse_layers_each in Hlayers as [Hl0 Hs0].
  set (comb := foldl (fun m e => bt_insert m e.1 e.2) (layers m) more).
  apply build_v2_only_iff in Hbuild as (pl' & name & m' & es & plan0 & Hpl' & Hvp & Hmax & En & Hn & Em & Ee & _ & Ht).
  rewrite Hpl in Hpl'. injection Hpl' as <-. rewrite Hmeta in Em. injection Em as <-.
  assert (t_piece_length t = pl) as Htpl by by rewrite Ht.
  unfold install_layers in Hi. rewrite Hm, Htpl in Hi. bind_ok Hi as u Ev. destruct u.
  pose proof (extend_meta_ok pl m more Hok Hs Ev) as [_ Hcv Hcs]. cbn [files layers] in Hcv, Hcs. fold comb in Hcv, Hcs, Hi.
  destruct (plan_pieces (files m) comb pl) as [plan |] eqn:Hplan; [| done]. cbn [mbind option_bind] in Hi.
  bind_ok Hi as vps Eo. injection Eo as Eo. apply ok_or_Ok in Eo as ->. injection Hi as <-.
  assert (Forall layer_ok comb) as Hcl.
  { subst comb. clear -Hl Hl0. revert Hl0. generalize (layers m). induction Hl as [| e more He Hl IH]; intros out Hout; [done |].
    apply IH. destruct e. by apply bt_insert_Forall. }
  unfold is_v2_only, kept_layers. cbn [v2 t_info]. unfold is_v2_only. cbn [v2 t_info]. rewrite Hinfo, Hp, !bool_decide_true by eauto.
  cbn [andb layers]. split; [| done]. unfold build_torrent_from_info. rewrite Hver, Htree, Hp. cbn [negb Z.eqb Pos.eqb].
  apply build_v2_only_iff. exists pl, name, (mkV2Meta (files m) comb (info_hash m)), es, (Some vps). split_and!; try done.
  - unfold v2_meta. rewrite Hfiles, layers_dict_parses by done. cbn [map_err fuelled_bind]. unfold need. rewrite Hpl. cbn [ok_or fuelled_bind].
    rewrite Hcv. cbn [map_err fuelled_bind]. by rewrite Hhash.
  - by rewrite Ht.
Qed.
End kept.

Lemma set_file_eq p fs v : set_file fs p v p = v.
Proof. unfold set_file. by rewrite bool_decide_true. Qed.

Lemma set_file_ne p q fs v : p <> q -> set_file fs q v p = fs p.
Proof. intros H. unfold set_file. by rewrite bool_decide_false. Qed.

(** Saving puts the whole file in place or leaves what was there. *)
Lemma save_whole sha1 w renamed removed fs t path bytes :
  torrent_file_bytes sha1 t = Ok bytes ->
  let '(fs', r) := save_torrent sha1 w renamed removed fs t path in
  match r with
  | Ok _ => fs' path = Some bytes /\ fs' (path ++ str ".part") = None
  | Err e => fs' path = fs path /\ exists k, e = IoError k
  end /\ forall p, p <> path -> p <> path ++ str ".part" -> fs' p = fs p.
Proof.
  intros Hb. assert (path <> path ++ str ".part") as Hne.
  { intros H. apply (f_equal length) in H. rewrite length_app in H. change (length (str ".part")) with 5%nat in H. lia. }
  unfold save_torrent. rewrite Hb. destruct w as [| e [n |]], renamed, removed; cbn [write_file rename_file];
    (split; [split; [| try by eexists] | intros p Hp Hq]); by rewrite ?(set_file_ne path), ?(set_file_eq path), ?set_file_eq, ?set_file_ne by done.
Qed.

Section saved.
Context (sha1 : list Z -> list Z) (raw expected : list Z) (ann : option (list Z)) (al : list (list (list Z))) (t : TorrentFile).
Context (Hlen : zlen raw <= i64_max) (H : from_info_dict_bytes sha1 raw expected ann al = Some (Ok t)).
Context (Hn : nesting (t_info t) < Bencode.MAX_DEPTH) (Ha : opt_ok utf8 ann) (Hal : Forall (Forall utf8) al).

(** The file of a torrent resolved from a magnet link, and of the same torrent
    once its layers are fetched. *)
Lemma magnet_file t' :
  (t' = t \/ exists more, is_v2_only t = true /\ bt_sorted more /\ Forall layer_ok more /\ install_layers t more = Some (Ok t')) ->
  exists bytes, torrent_file_bytes sha1 t' = Ok bytes /\ (zlen bytes <= i64_max -> parse_torrent_file sha1 bytes = Some (Ok t')).
Proof using All.
  intros Ht'. unfold from_info_dict_bytes in H. destruct (negb _); [done |]. bind_ok H as info Hd. apply map_err_Ok in Hd.
  apply decode_top_sound in Hd as (Hwf & _ & Henc); [| done]. specialize (Henc eq_refl). subst raw.
  pose proof (build_torrent_ok sha1 _ _ _ _ _ _ _ Hwf H) as (_ & Hinfo & _). subst info.
  pose proof (build_inv sha1 _ _ _ _ _ _ _ Hwf H) as (Ea & El & Eu & Hv2). rewrite <- Ea in Ha. rewrite <- El in Hal.
  destruct Ht' as [-> | (more & Hv & Hs & Hl & Hi)].
  - eexists. apply (kept_parses sha1 t None); [done | done | done | done | by rewrite Eu | by rewrite Ea, El, Eu |].
    unfold kept_layers. destruct (is_v2_only t); [| done]. destruct (Hv2 eq_refl) as (tree & m & _ & _ & _ & -> & Hm & _).
    apply v2_meta_inv in Hm as (_ & Hm & _). by injection Hm as <-.
  - destruct (installed_builds sha1 _ _ _ _ _ _ _ more t' Hwf H Hv Hs Hl Hi) as (Hb & Hv' & Hi').
    pose proof (build_inv sha1 _ _ _ _ _ _ _ Hwf Hb) as (Ea' & El' & Eu' & _). rewrite Ea in Ha. rewrite El in Hal.
    eexists. apply (kept_parses sha1 t' (kept_layers t')); rewrite ?Hi', ?Ea', ?El', ?Eu'; done.
Qed.
End saved.


