(* ===== verification/Resume.v ===== *)
(** * Resuming a download

    Models [src/src/downloader/resume.rs] and [build_work_queue] of
    [src/src/downloader/mod.rs]: the work a torrent's pieces are, the sidecar
    file that records which of them were verified, and the check of what it
    claims against the bytes on disk.  SHA-1 is the parameter [sha1].  A [None]
    is a panic or a loop that never ends. *)

From stdpp Require Import gmap.
From S2P Require Import Prelude Str Numeral Text Bencode Io Tracker Merkle V2Hashes FileWriter Torrent PieceAssembler.

(** A write to a file: all of it, or the first bytes and an error. *)
Inductive Wrote : Type :=
| All
| Part (n : nat) (e : ErrorKind).

Definition wrote (w : Wrote) (bytes : list Z) : list Z * result unit ErrorKind :=
  match w with
  | All => (bytes, Ok tt)
  | Part n e => (take n bytes, Err e)
  end.

(** ** The work *)

Definition work_of (t : TorrentFile) (i : nat) (hash : list Z) : option PieceWork :=
  len ← piece_len t (Z.of_nat i);
  Some (mkPieceWork (wrap 32 (Z.of_nat i)) hash (wrap 32 len)
          ((fun p => mkMerkle (p_root p) (p_width p)) <$> v2_pieces t !! i)).

Definition build_work_queue (t : TorrentFile) : option (list PieceWork) := mapM id (imap (work_of t) (pieces t)).

(** ** The sidecar file *)

Definition progress_file_path (out_dir : Path) (hash : list Z) : Path :=
  join out_dir ([46] ++ info_hash_hex hash ++ str ".resume").

(** [fs::read_to_string]. *)
Definition read_to_string (fs : Fs) (p : Path) : option (list Z) :=
  content ← fs !! p; if from_utf8_ok content then Some content else None.

Definition read_claimed_indices (fs : Fs) (p : Path) : gset Z :=
  match read_to_string fs p with
  | None => ∅
  | Some content => list_to_set (omap (fun l => parse_u 32 (trim l)) (lines content))
  end.

Definition line_of (index : Z) : list Z := u_to_string index ++ [10].

(** [rewrite_compact]: the set's elements in whatever order it gives them. *)
Definition rewrite_compact (w : Wrote) (fs : Fs) (p : Path) (confirmed : list Z) : Fs * result unit ErrorKind :=
  let '(content, r) := wrote w (concat (line_of <$> confirmed)) in (<[p := content]> fs, r).

(** [ResumeWriter::create] and [record]. *)
Definition open_resume (fs : Fs) (p : Path) : Fs := <[p := default [] (fs !! p)]> fs.

Definition record (w : Wrote) (fs : Fs) (p : Path) (index : Z) : Fs * result unit ErrorKind :=
  let '(line, r) := wrote w (line_of index) in (<[p := default [] (fs !! p) ++ line]> fs, r).

Definition clear (fs : Fs) (p : Path) : Fs := delete p fs.

(** ** What is on disk *)

(** The loop of [read_piece_bytes]; each pass fills a byte or more. *)
Fixpoint read_piece_loop (fuel : nat) (spans : list FileSpan) (fs : Fs) (offset remaining : Z) (filled : list Z) :
    option (result (list Z) ErrorKind) :=
  if remaining <=? 0 then Some (Ok filled)
  else
    match fuel with
    | O => None
    | S fuel' =>
        match span_at spans offset with
        | None => Some (Err NotFound)
        | Some span =>
            let file_offset := offset - start span in
            let available := end_ span - offset in
            let to_read := Z.min remaining available in
            if padding span then
              read_piece_loop fuel' spans fs (offset + to_read) (remaining - to_read) (filled ++ replicate (Z.to_nat to_read) 0)
            else
              match read_file fs (path span) file_offset to_read with
              | Err e => Some (Err e)
              | Ok chunk => read_piece_loop fuel' spans fs (offset + to_read) (remaining - to_read) (filled ++ chunk)
              end
        end
    end.

Definition read_piece_bytes (spans : list FileSpan) (fs : Fs) (piece_index piece_stride piece_length : Z) : option (result (list Z) ErrorKind) :=
  read_piece_loop (Z.to_nat piece_length) spans fs (wrap 64 (piece_index * piece_stride)) piece_length [].

Definition any_data_on_disk (spans : list FileSpan) (fs : Fs) : bool :=
  existsb (fun s => negb (padding s) && match fs !! path s with Some content => 0 <? zlen content | None => false end) spans.

Section resume.
Context (sha1 : list Z -> list Z).

Definition piece_is_on_disk (spans : list FileSpan) (fs : Fs) (t : TorrentFile) (index : Z) : option bool :=
  if zlen (pieces t) <=? index then Some false
  else
    len ← piece_len t index;
    r ← read_piece_bytes spans fs index (wrap 64 (t_piece_length t)) len;
    match r with
    | Err _ => Some false
    | Ok data =>
        match zget (v2_pieces t) index with
        | Some piece => Some (merkle_matches data (p_width piece) (p_root piece))
        | None => h ← zget (pieces t) index; Some (bool_decide (sha1 data = h))
        end
    end.

(** The indices of a list that are on disk. *)
Fixpoint on_disk_among (spans : list FileSpan) (fs : Fs) (t : TorrentFile) (indices : list Z) : option (gset Z) :=
  match indices with
  | [] => Some ∅
  | index :: rest =>
      here ← piece_is_on_disk spans fs t index;
      confirmed ← on_disk_among spans fs t rest;
      Some (if (here : bool) then {[index]} ∪ confirmed else confirmed)
  end.

Definition load_and_verify (fs : Fs) (p : Path) (spans : list FileSpan) (t : TorrentFile) : option (gset Z) :=
  on_disk_among spans fs t (elements (read_claimed_indices fs p)).

Definition scan_all (spans : list FileSpan) (fs : Fs) (t : TorrentFile) : option (gset Z) :=
  on_disk_among spans fs t (seqZ 0 (wrap 32 (zlen (pieces t)))).

End resume.

(** ** Reading back *)

(** [read_piece_bytes] reads what the seeder reads. *)
Lemma read_piece_loop_same fuel spans fs offset rem out :
  match read_loop fuel spans fs offset rem out with
  | None => read_piece_loop fuel spans fs offset rem out = None
  | Some (Ok b) => read_piece_loop fuel spans fs offset rem out = Some (Ok b)
  | Some (Err _) => exists e, read_piece_loop fuel spans fs offset rem out = Some (Err e)
  end.
Proof.
  revert offset rem out. induction fuel as [| fuel IH]; intros offset rem out; cbn [read_loop read_piece_loop]; destruct (rem <=? 0); try done.
  destruct (span_at spans offset) as [s |]; [| by eexists]. destruct (padding s); [apply IH |].
  destruct (read_file _ _ _ _); [apply IH | by eexists].
Qed.

Section readback.
Context (spans : list FileSpan) (lo : Z) (Hord : ordered lo spans).

(** It gives a piece's bytes exactly when the files have them all. *)
Lemma read_piece_bytes_spec fs index stride len :
  0 <= len -> 0 <= index * stride < 2 ^ 64 ->
  exists r, read_piece_bytes spans fs index stride len = Some r /\
    match r with
    | Ok bytes => zlen bytes = len /\ forall i, 0 <= i < len -> zget bytes i = byte_at spans fs (index * stride + i)
    | Err _ => forall bytes, zlen bytes = len -> ~ (forall i, 0 <= i < len -> zget bytes i = byte_at spans fs (index * stride + i))
    end.
Proof using All.
  intros Hlen Hoff. unfold read_piece_bytes, wrap. rewrite Z.mod_small by lia. set (off := index * stride) in *.
  pose proof (read_piece_loop_same (Z.to_nat len) spans fs off len []) as Hsame.
  pose proof (read_iff spans lo Hord fs off len) as Hread. unfold read_at_global_offset in Hread.
  destruct (read_loop (Z.to_nat len) spans fs off len []) as [[b | e] |] eqn:Hr.
  - eexists. split; [exact Hsame |]. apply Hread; [lia | lia | done].
  - destruct Hsame as [e' Hsame]. eexists. split; [exact Hsame |]. intros bytes Hb H.
    assert (Some (Err e) = Some (Ok bytes)) by (apply Hread; [lia | lia | done]). done.
  - destruct (read_loop_total (Z.to_nat len) spans fs off len []) as [r Hr']; [lia | congruence].
Qed.
End readback.

(** ** The work of a torrent *)

(** A torrent a session takes on: what the parser lets through, whose layers
    are there if it needs them, with piece numbers that fit. *)
Record ready (t : TorrentFile) : Prop := {
  rdy_ok : torrent_ok t;
  rdy_v2 : is_v2_only t = true -> v2_ready t = true;
  rdy_count : zlen (pieces t) <= u_max 32
}.

Definition the_work (t : TorrentFile) (lens : list Z) (i : nat) (hash : list Z) : PieceWork :=
  mkPieceWork (Z.of_nat i) hash (default 0 (lens !! i)) ((fun p => mkMerkle (p_root p) (p_width p)) <$> v2_pieces t !! i).

Lemma ready_lens t :
  ready t -> exists lens, piece_lens t = Some lens /\ Forall (length_in (t_piece_length t)) lens /\ foldr Z.add 0 lens = Torrent.total_length t.
Proof.
  intros [Hok Hv _]. destruct (is_v2_only t) eqn:E; [apply v2_piece_lens; auto | apply v1_piece_lens; auto].
Qed.

Lemma piece_lens_nth t lens (i : nat) :
  piece_lens t = Some lens -> (i < length (pieces t))%nat -> exists len, lens !! i = Some len /\ piece_len t (Z.of_nat i) = Some len.
Proof.
  intros H Hi. apply mapM_Some in H. pose proof (Forall2_length _ _ _ H) as Hlen. rewrite length_seqZ in Hlen. unfold zlen in Hlen.
  destruct (lookup_lt_is_Some_2 lens i) as [len Hl]; [lia |]. exists len. split; [done |].
  apply (Forall2_lookup_lr _ _ _ i (Z.of_nat i) len H); [| done]. apply lookup_seqZ. unfold zlen. lia.
Qed.

Lemma piece_lens_length t lens : piece_lens t = Some lens -> length lens = length (pieces t).
Proof. intros H. apply mapM_Some in H. pose proof (Forall2_length _ _ _ H) as Hlen. rewrite length_seqZ in Hlen. unfold zlen in Hlen. lia. Qed.

Lemma build_work_queue_eq t lens :
  ready t -> piece_lens t = Some lens -> Forall (length_in (t_piece_length t)) lens ->
  build_work_queue t = Some (imap (the_work t lens) (pieces t)).
Proof.
  intros [Hok _ Hcount] Hlens Hin. unfold build_work_queue. apply mapM_Some, Forall2_same_length_lookup_2; [by rewrite !length_imap |].
  intros i x y Hx Hy. rewrite list_lookup_imap in Hx. rewrite list_lookup_imap in Hy. destruct (pieces t !! i) as [h |] eqn:Hh; [| done].
  injection Hx as <-. injection Hy as <-. cbn. unfold work_of. apply lookup_lt_Some in Hh.
  destruct (piece_lens_nth t lens i Hlens Hh) as (len & Hl & ->). cbn [mbind option_bind]. unfold the_work. rewrite Hl. cbn [default].
  rewrite Forall_lookup in Hin. destruct (Hin i len Hl) as [Hlo Hhi]. destruct (tok_piece_length t Hok) as [_ Hpl].
  unfold wrap. rewrite !Z.mod_small; [done | unfold MAX_PIECE_LENGTH in Hpl; lia |]. unfold zlen, u_max in Hcount. lia.
Qed.

Section held.
Context (sha1 : list Z -> list Z) (spans : list FileSpan) (lo : Z) (Hord : ordered lo spans) (t : TorrentFile) (Hrdy : ready t).

(** The bytes of a piece are in the files, and are bytes a download of it
    would have accepted. *)
Definition held (fs : Fs) (w : PieceWork) : Prop :=
  exists data, zlen data = pw_length w /\
    (forall i, 0 <= i < pw_length w -> zget data i = byte_at spans fs (pw_index w * t_piece_length t + i)) /\
    PieceAssembler.matches sha1 w data = true.

Lemma piece_is_on_disk_iff fs works (i : nat) w :
  build_work_queue t = Some works -> works !! i = Some w ->
  exists b, piece_is_on_disk sha1 spans fs t (Z.of_nat i) = Some b /\ (b = true <-> held fs w).
Proof using All.
  intros Hw Hi. destruct (ready_lens t Hrdy) as (lens & Hlens & Hin & _). rewrite (build_work_queue_eq t lens Hrdy Hlens Hin) in Hw.
  injection Hw as <-. rewrite list_lookup_imap in Hi. destruct (pieces t !! i) as [h |] eqn:Hh; [| done]. injection Hi as <-.
  pose proof (lookup_lt_Some _ _ _ Hh) as Hlt. destruct (piece_lens_nth t lens i Hlens Hlt) as (len & Hl & Hpl).
  rewrite Forall_lookup in Hin. destruct (Hin i len Hl) as [Hlo Hhi]. destruct (tok_piece_length t (rdy_ok t Hrdy)) as [Hp0 Hp].
  pose proof (rdy_count t Hrdy) as Hc. unfold zlen, u_max in Hc. unfold MAX_PIECE_LENGTH in Hp.
  unfold piece_is_on_disk. rewrite (proj2 (Z.leb_gt _ _)) by (unfold zlen; lia). rewrite Hpl. cbn [mbind option_bind].
  unfold wrap at 1. rewrite (Z.mod_small (t_piece_length t)) by lia.
  destruct (read_piece_bytes_spec spans lo Hord fs (Z.of_nat i) (t_piece_length t) len) as (r & -> & Hr); [lia | nia |]. cbn [mbind option_bind].
  unfold held, the_work, PieceAssembler.matches. cbn [pw_index pw_length pw_merkle pw_hash]. rewrite Hl. cbn [default].
  assert (forall data data', zlen data = len -> zlen data' = len ->
    (forall i0, 0 <= i0 < len -> zget data i0 = byte_at spans fs (Z.of_nat i * t_piece_length t + i0)) ->
    (forall i0, 0 <= i0 < len -> zget data' i0 = byte_at spans fs (Z.of_nat i * t_piece_length t + i0)) -> data = data') as Huniq.
  { intros d d' H1 H2 H3 H4. apply zget_ext; [lia |]. intros k Hk. rewrite H3, H4 by lia. done. }
  rewrite !zget_nat, Nat2Z.id by lia. destruct r as [data | e].
  - destruct Hr as [Hz Hb]. destruct (v2_pieces t !! i) as [p |]; cbn [fmap option_fmap option_map].
    + eexists. split; [done |]. cbn [width root]. split; [by exists data |]. intros (d & Hd & Hdb & Hm). by rewrite (Huniq data d).
    + rewrite Hh. cbn [mbind option_bind]. eexists. split; [done |]. split; [by exists data |].
      intros (d & Hd & Hdb & Hm). by rewrite (Huniq data d).
  - eexists. split; [done |]. split; [done |]. intros (d & Hd & Hdb & _). by destruct (Hr d Hd).
Qed.

Lemma piece_is_on_disk_beyond fs index : zlen (pieces t) <= index -> piece_is_on_disk sha1 spans fs t index = Some false.
Proof using Type. intros H. unfold piece_is_on_disk. by rewrite (proj2 (Z.leb_le _ _)). Qed.

(** Exactly the pieces of the list whose bytes are there. *)
Lemma on_disk_among_iff fs works indices :
  build_work_queue t = Some works -> Forall (fun i => 0 <= i) indices ->
  exists s, on_disk_among sha1 spans fs t indices = Some s /\
    forall i, i ∈ s <-> i ∈ indices /\ exists w, zget works i = Some w /\ held fs w.
Proof using All.
  intros Hw Hi. induction Hi as [| i indices Hi0 Hi (s & Hs & IH)]; [exists ∅; split; [done |]; intros i; set_solver |].
  cbn [on_disk_among]. rewrite Hs.
  assert (length works = length (pieces t)) as Hlw.
  { destruct (ready_lens t Hrdy) as (lens & Hlens & Hin & _). rewrite (build_work_queue_eq t lens Hrdy Hlens Hin) in Hw.
    injection Hw as <-. by rewrite length_imap. }
  assert (exists b, piece_is_on_disk sha1 spans fs t i = Some b /\ (b = true <-> exists w, zget works i = Some w /\ held fs w)) as (b & -> & Hb).
  { destruct (works !! Z.to_nat i) as [w |] eqn:Ew.
    - destruct (piece_is_on_disk_iff fs works (Z.to_nat i) w Hw Ew) as (b & Hb & Hiff). rewrite Z2Nat.id in Hb by done.
      exists b. split; [done |]. rewrite zget_nat by done. rewrite Ew. rewrite Hiff. split; [eauto |]. by intros (w' & [= <-] & ?).
    - exists false. apply lookup_ge_None in Ew. split; [apply piece_is_on_disk_beyond; unfold zlen; lia |]. split; [done |].
      intros (w & Hz & _). rewrite zget_nat in Hz by done. apply lookup_lt_Some in Hz. lia. }
  cbn [mbind option_bind]. eexists. split; [done |]. intros j. rewrite elem_of_cons. destruct b.
  - rewrite elem_of_union, elem_of_singleton, IH. split; [intros [-> | [? ?]] | intros [[-> | ?] ?]]; naive_solver.
  - rewrite IH. split; [naive_solver |]. intros [[-> | ?] Hj]; [| done]. by apply Hb in Hj.
Qed.
End held.

(** ** The sidecar file, written and read *)

Lemma u_to_string_digits z : 0 <= z -> u_to_string z <> [] /\ Forall (fun b => 48 <= b <= 57) (u_to_string z).
Proof.
  intros Hz. destruct (u_to_string_canonical z Hz) as (Hne & Hd & _). split; [done |]. apply (Forall_impl _ _ _ Hd).
  intros b. apply is_ascii_digit_iff.
Qed.

Lemma digits_are_hex ds : Forall (fun b => 48 <= b <= 57) ds -> Forall is_hex ds.
Proof.
  intros H. apply (Forall_impl _ _ _ H). intros b Hb. exists (b - 48). unfold hex_upper. split; [lia |].
  destruct (Z.ltb_spec (b - 48) 10); lia.
Qed.

Lemma parse_u_to_string w z : 0 <= z <= u_max w -> parse_u w (u_to_string z) = Some z.
Proof.
  intros Hz. destruct (u_to_string_canonical z ltac:(lia)) as (Hne & Hd & _).
  destruct (u_to_string_digits z ltac:(lia)) as [_ Hb]. unfold parse_u.
  assert (parse_digits (u_to_string z) = Some z) as Hp
    by (rewrite parse_digits_canonical, u_to_string_value by (try apply u_to_string_canonical; lia); done).
  destruct (u_to_string z) as [| b r] eqn:E; [done |]. apply Forall_cons in Hb as [Hb _]. rewrite not_plus by lia. rewrite Hp.
  by rewrite (proj2 (Z.leb_le _ _)) by lia.
Qed.

Lemma split_on_line ds rest : Forall (fun b => 48 <= b <= 57) ds -> split_on 10 (ds ++ [10] ++ rest) = ds :: split_on 10 rest.
Proof.
  induction 1 as [| b ds Hb Hds IH]; [done |]. cbn [app split_on]. rewrite (proj2 (Z.eqb_neq _ _)) by lia.
  cbn [app] in IH. by rewrite IH.
Qed.

Lemma strip_cr_digits ds : Forall (fun b => 48 <= b <= 57) ds -> strip_cr ds = ds.
Proof.
  intros H. unfold strip_cr. destruct (last ds) as [b |] eqn:E; [| done].
  assert (48 <= b <= 57) as Hb. { apply last_Some in E as [l ->]. apply Forall_app in H as [_ H]. by apply Forall_cons in H as []. }
  destruct b as [| p | p]; try done. do 4 (destruct p as [p | p |]; try done); lia.
Qed.

Lemma split_on_cons c s : exists part parts, split_on c s = part :: parts.
Proof. destruct s as [| b s]; [by eexists _, _ |]. cbn. destruct (b =? c); [by eexists _, _ |]. destruct (split_on c s); by eexists _, _. Qed.

Lemma lines_of_numbers is_ : Forall (fun i => 0 <= i) is_ -> lines (concat (line_of <$> is_)) = u_to_string <$> is_.
Proof.
  unfold lines, line_of. induction 1 as [| i is_ Hi His IH]; [done |]. rewrite !fmap_cons. cbn [concat].
  destruct (u_to_string_digits i Hi) as [_ Hd]. rewrite <- app_assoc, split_on_line by done.
  destruct (split_on_cons 10 (concat ((fun i => u_to_string i ++ [10]) <$> is_))) as (part & parts & E). rewrite E in *.
  change (strip_cr (u_to_string i) :: lines_of (part :: parts) = u_to_string i :: (u_to_string <$> is_)).
  by rewrite strip_cr_digits, IH by done.
Qed.

Lemma numbers_utf8 is_ : Forall (fun i => 0 <= i) is_ -> from_utf8_ok (concat (line_of <$> is_)) = true.
Proof.
  intros H. apply from_utf8_ascii, Forall_concat, Forall_fmap, (Forall_impl _ _ _ H). intros i Hi. unfold line_of.
  apply Forall_app. split; [| by repeat constructor]. destruct (u_to_string_digits i Hi) as [_ Hd].
  apply (Forall_impl _ _ _ Hd). intros b Hb. cbn. lia.
Qed.

(** What was recorded is what is claimed. *)
Lemma claimed_recorded fs p is_ :
  fs !! p = Some (concat (line_of <$> is_)) -> Forall (fun i => 0 <= i <= u_max 32) is_ ->
  read_claimed_indices fs p = list_to_set is_.
Proof.
  intros Hp Hi. assert (Forall (fun i => 0 <= i) is_) as H0 by (apply (Forall_impl _ _ _ Hi); cbn; lia).
  unfold read_claimed_indices, read_to_string. rewrite Hp. cbn [mbind option_bind]. rewrite numbers_utf8, lines_of_numbers by done. f_equal.
  clear Hp H0. induction Hi as [| i is_ Hi His IH]; [done |]. rewrite fmap_cons. cbn [omap list_omap].
  destruct (u_to_string_digits i ltac:(lia)) as [_ Hd]. rewrite trim_hex by (by apply digits_are_hex).
  rewrite parse_u_to_string by done. by rewrite IH.
Qed.

(** Every line there is gives a number that fits. *)
Lemma claimed_nonneg fs p : Forall (fun i => 0 <= i) (elements (read_claimed_indices fs p)).
Proof.
  apply Forall_forall. intros i Hi%elem_of_elements. unfold read_claimed_indices in Hi.
  destruct (read_to_string fs p) as [c |]; [| by apply not_elem_of_empty in Hi].
  apply elem_of_list_to_set, list_elem_of_omap in Hi as (l & _ & Hl). unfold parse_u in Hl.
  destruct (parse_digits _) as [z |] eqn:Hz; [| done]. destruct (z <=? u_max 32); [| done]. injection Hl as <-.
  revert Hz. generalize (match trim l with 43 :: r => r | _ => trim l end). intros ds Hz. unfold parse_digits in Hz.
  destruct ds as [| b r]; [done |]. destruct (forallb is_ascii_digit (b :: r)) eqn:Hf; [| done]. injection Hz as <-.
  apply digits_value_nonneg, Forall_forall. intros x Hx. rewrite forallb_forall in Hf. by apply Hf, list_elem_of_In.
Qed.
