(* ===== verification/Selection.v ===== *)
(** * Choosing files, and what is left to fetch

    Models [src/src/selection.rs] and [src/src/session/plan.rs]: which files
    are selected, the pieces that overlap them, and the split of the wanted
    pieces into those on disk and those to fetch.  [str::to_lowercase], a
    table of Unicode's, is the parameter [to_lowercase]; the texts of errors
    and of [--list] are left out. *)

From stdpp Require Import gmap.
From S2P Require Import Prelude Str Numeral Text Bencode Io Tracker Merkle V2Hashes FileWriter Torrent PieceAssembler Resume.

Abbreviation TFiles := (list (list (list Z) * Z)).

Inductive SelectError : Type :=
| OutOfRange (i : Z)
| MatchedNothing (pat : list Z)
| NotAFileNumber (part : list Z).

(** [parts.join("/")] and the like. *)
Fixpoint join_with (sep : Z) (parts : list (list Z)) : list Z :=
  match parts with
  | [] => []
  | [p] => p
  | p :: rest => p ++ sep :: join_with sep rest
  end.

Definition file_path (parts : list (list Z)) : list Z := join_with 47 parts.

Section lowercase.
Context (to_lowercase : list Z -> list Z).

Fixpoint mark_indices (n : nat) (indices : list Z) (mask : list bool) : result (list bool) SelectError :=
  match indices with
  | [] => Ok mask
  | i :: rest =>
      if (i =? 0) || (Z.of_nat n <? i) then Err (OutOfRange i)
      else mark_indices n rest (<[Z.to_nat (i - 1) := true]> mask)
  end.

Definition pattern_matches (pat : list Z) (f : list (list Z) * Z) : bool := contains (to_lowercase pat) (to_lowercase (file_path f.1)).

Fixpoint mark_patterns (files_ : TFiles) (patterns : list (list Z)) (mask : list bool) : result (list bool) SelectError :=
  match patterns with
  | [] => Ok mask
  | pat :: rest =>
      let hits := pattern_matches pat <$> files_ in
      if existsb id hits then mark_patterns files_ rest (zip_with orb mask hits) else Err (MatchedNothing pat)
  end.

Definition build_mask (files_ : TFiles) (indices : list Z) (patterns : list (list Z)) : result (list bool) SelectError :=
  match indices, patterns with
  | [], [] => Ok (replicate (length files_) true)
  | _, _ =>
      let? mask := mark_indices (length files_) indices (replicate (length files_) false) in
      mark_patterns files_ patterns mask
  end.

Definition build_prefer_mask (files_ : TFiles) (patterns : list (list Z)) : result (list bool) SelectError :=
  mark_patterns files_ patterns (replicate (length files_) false).

Definition build_mask_for (t : TorrentFile) (indices : list Z) (patterns : list (list Z)) : result (list bool) SelectError :=
  let? visible := build_mask (visible_files t) indices patterns in Ok (layout_mask t visible).

Definition build_prefer_mask_for (t : TorrentFile) (patterns : list (list Z)) : result (list bool) SelectError :=
  let? visible := build_prefer_mask (visible_files t) patterns in Ok (layout_mask t visible).

End lowercase.

Fixpoint parse_parts (parts : list (list Z)) : result (list Z) SelectError :=
  match parts with
  | [] => Ok []
  | part :: rest =>
      match trim part with
      | [] => parse_parts rest
      | p => let? i := ok_or (parse_u 64 p) (NotAFileNumber p) in let? is_ := parse_parts rest in Ok (i :: is_)
      end
  end.

Definition parse_indices (text : list Z) : result (list Z) SelectError := parse_parts (split_on 44 text).

Definition format_indices (indices : list Z) : list Z := join_with 44 (u_to_string <$> indices).

Definition all_selected (mask : list bool) : bool := forallb id mask.

(** ** The pieces *)

Fixpoint ranges_from (cursor : Z) (files_ : TFiles) : list (Z * Z) :=
  match files_ with
  | [] => []
  | (_, len) :: rest =>
      let l := wrap 64 len in
      (cursor, wrap 64 (cursor + l)) :: ranges_from (wrap 64 (cursor + l)) rest
  end.

Definition file_ranges (files_ : TFiles) : list (Z * Z) := ranges_from 0 files_.

Definition total_len (files_ : TFiles) : Z := wrap 64 (foldr Z.add 0 ((fun f => wrap 64 f.2) <$> files_)).

(** The pieces of one file; a piece length is positive in a parsed torrent. *)
Definition pieces_in (piece_length : Z) (range : Z * Z) : list Z :=
  let first := range.1 / piece_length in
  let last := (range.2 - 1) / piece_length in
  wrap 32 <$> seqZ first (last - first + 1).

Fixpoint pieces_from (piece_length : Z) (mask : list bool) (idx : nat) (ranges : list (Z * Z)) : gset Z :=
  match ranges with
  | [] => ∅
  | r :: rest =>
      let more := pieces_from piece_length mask (S idx) rest in
      if negb (default false (mask !! idx)) || (r.1 =? r.2) then more
      else list_to_set (pieces_in piece_length r) ∪ more
  end.

Definition bytes_of_piece (piece_length torrent_len p : Z) : Z :=
  let s := wrap 64 (p * piece_length) in
  let e := Z.min (wrap 64 (s + piece_length)) torrent_len in
  u_saturating_sub e s.

Definition selected_pieces (files_ : TFiles) (piece_length : Z) (mask : list bool) : gset Z * Z :=
  let found := pieces_from piece_length mask 0 (file_ranges files_) in
  (found, wrap 64 (foldr Z.add 0 (bytes_of_piece piece_length (total_len files_) <$> elements found))).

Definition v2_wanted (mask : list bool) (vps : list V2Piece) : list (nat * V2Piece) :=
  filter (fun e : nat * V2Piece => default false (mask !! p_file e.2) = true) (imap pair vps).

Definition selected_pieces_of (t : TorrentFile) (mask : list bool) : gset Z * Z :=
  match v2_pieces t with
  | [] => selected_pieces (t_files t) (wrap 64 (t_piece_length t)) mask
  | vps =>
      (list_to_set ((fun e : nat * V2Piece => wrap 32 (Z.of_nat e.1)) <$> v2_wanted mask vps),
       wrap 64 (foldr Z.add 0 ((fun e : nat * V2Piece => p_length e.2) <$> v2_wanted mask vps)))
  end.

(** ** The plan *)

Record DownloadPlan : Type := mkDownloadPlan {
  selective : bool;
  selected : gset Z;
  display_total : Z;
  goal_pieces : Z
}.

Record Outstanding : Type := mkOutstanding {
  o_work : list PieceWork;
  pieces_done : Z;
  bytes_done : Z
}.

Definition new_plan (t : TorrentFile) (mask : list bool) : DownloadPlan :=
  let sel := negb (selects_everything t mask) in
  let '(found, selected_bytes) := selected_pieces_of t mask in
  mkDownloadPlan sel found
    (if sel then selected_bytes else Torrent.total_length t)
    (if sel then Z.of_nat (size found) else zlen (pieces t)).

Definition plan_wants (p : DownloadPlan) (piece : Z) : bool := negb (selective p) || bool_decide (piece ∈ selected p).

Definition outstanding (p : DownloadPlan) (t : TorrentFile) (resumed : gset Z) : option Outstanding :=
  all ← build_work_queue t;
  let done_wanted := filter (fun i => plan_wants p i = true) resumed in
  let bytes := foldr Z.add 0 (pw_length <$> filter (fun w => pw_index w ∈ done_wanted) all) in
  let todo := filter (fun w => plan_wants p (pw_index w) = true /\ pw_index w ∉ resumed) all in
  Some (mkOutstanding todo (Z.of_nat (size done_wanted)) (wrap 64 bytes)).

(** ** Sums *)

Abbreviation sum l := (foldr Z.add 0 l).

Lemma sum_perm (l k : list Z) : l ≡ₚ k -> sum l = sum k.
Proof. induction 1; cbn in *; lia. Qed.

Lemma sum_nonneg l : Forall (fun x => 0 <= x) l -> 0 <= sum l.
Proof. induction 1; cbn; lia. Qed.

(** A sum splits over a test, and a part is no more than the whole. *)
Lemma sum_filter_split {A} (f : A -> Z) (P Q R : A -> Prop) `{!forall x, Decision (P x)} `{!forall x, Decision (Q x)} `{!forall x, Decision (R x)} l :
  (forall x, x ∈ l -> R x <-> P x \/ Q x) -> (forall x, x ∈ l -> P x -> Q x -> False) ->
  sum (f <$> filter P l) + sum (f <$> filter Q l) = sum (f <$> filter R l).
Proof.
  induction l as [| x l IH]; intros Hr Hx; [done |]. rewrite !filter_cons.
  assert (sum (f <$> filter P l) + sum (f <$> filter Q l) = sum (f <$> filter R l)) as IH' by (apply IH; intros y Hy; [apply Hr | apply Hx]; by right).
  specialize (Hr x ltac:(by left)). specialize (Hx x ltac:(by left)).
  destruct (decide (P x)), (decide (Q x)), (decide (R x)); try (exfalso; tauto); rewrite ?fmap_cons; cbn [foldr]; lia.
Qed.

Lemma sum_filter_le {A} (f : A -> Z) (P : A -> Prop) `{!forall x, Decision (P x)} l :
  Forall (fun x => 0 <= f x) l -> 0 <= sum (f <$> filter P l) <= sum (f <$> l).
Proof. induction 1 as [| x l Hx Hl IH]; [done |]. rewrite filter_cons. destruct (decide (P x)); cbn [fmap list_fmap foldr] in *; lia. Qed.

Lemma elements_filter (X : gset Z) (l : list Z) : NoDup l -> (forall x, x ∈ X -> x ∈ l) -> elements X ≡ₚ filter (fun x => x ∈ X) l.
Proof.
  intros Hl HX. apply NoDup_Permutation; [apply NoDup_elements | by apply NoDup_filter |].
  intros x. rewrite elem_of_elements, list_elem_of_filter. naive_solver.
Qed.

(** ** The bytes of files and pieces *)

(** Where file [i] begins. *)
Definition file_start (files_ : TFiles) (i : nat) : Z := sum (snd <$> take i files_).

Lemma file_start_S (files_ : TFiles) i parts len : files_ !! i = Some (parts, len) -> file_start files_ (S i) = file_start files_ i + len.
Proof. intros H. unfold file_start. rewrite (take_S_r _ _ _ H), fmap_app, sum_app. cbn. lia. Qed.

Lemma file_start_bounds (files_ : TFiles) i :
  Forall (fun f => 0 <= f.2) files_ -> 0 <= file_start files_ i <= sum (snd <$> files_).
Proof.
  intros H. unfold file_start. assert (sum (snd <$> files_) = sum (snd <$> take i files_) + sum (snd <$> drop i files_)) as ->
    by (by rewrite <- sum_app, <- fmap_app, take_drop).
  assert (forall l : TFiles, Forall (fun f => 0 <= f.2) l -> 0 <= sum (snd <$> l)) as Hs by (intros l Hl; apply sum_nonneg, Forall_fmap, Hl).
  pose proof (Hs _ (Forall_take _ i _ H)). pose proof (Hs _ (Forall_drop _ i _ H)). lia.
Qed.

Lemma ranges_from_lookup (files_ : TFiles) cursor i :
  Forall (fun f => 0 <= f.2) files_ -> 0 <= cursor -> cursor + sum (snd <$> files_) < 2 ^ 64 ->
  ranges_from cursor files_ !! i = (fun f : list (list Z) * Z => (cursor + file_start files_ i, cursor + file_start files_ i + f.2)) <$> files_ !! i.
Proof.
  intros H. revert cursor i. induction H as [| [parts len] files_ Hl H IH]; intros cursor i Hc Ht; [done |].
  rewrite fmap_cons in Ht. cbn [foldr snd] in Ht, Hl. assert (0 <= sum (snd <$> files_)) by (apply sum_nonneg, Forall_fmap, H).
  cbn [ranges_from]. unfold wrap. rewrite (Z.mod_small len), (Z.mod_small (cursor + len)) by lia. destruct i as [| i].
  - cbn. unfold file_start. cbn. do 2 f_equal; lia.
  - cbn [lookup list_lookup]. rewrite IH by lia. destruct (files_ !! i); [| done]. cbn. unfold file_start. cbn [take fmap list_fmap foldr snd].
    do 2 f_equal; lia.
Qed.

Lemma pieces_from_elem pl mask idx ranges p :
  p ∈ pieces_from pl mask idx ranges <->
  exists j r, ranges !! j = Some r /\ mask !! (idx + j)%nat = Some true /\ r.1 <> r.2 /\ p ∈ pieces_in pl r.
Proof.
  revert idx. induction ranges as [| r ranges IH]; intros idx; cbn [pieces_from].
  { split; [intros H; by apply not_elem_of_empty in H | intros (j & r & ? & _); done]. }
  assert ((exists j r0, (r :: ranges) !! j = Some r0 /\ mask !! (idx + j)%nat = Some true /\ r0.1 <> r0.2 /\ p ∈ pieces_in pl r0) <->
    (mask !! idx = Some true /\ r.1 <> r.2 /\ p ∈ pieces_in pl r) \/
    (exists j r0, ranges !! j = Some r0 /\ mask !! (S idx + j)%nat = Some true /\ r0.1 <> r0.2 /\ p ∈ pieces_in pl r0)) as ->.
  { split.
    - intros ([| j] & r0 & Hj & Hm & H); [left | right].
      + rewrite Nat.add_0_r in Hm. injection Hj as <-. done.
      + exists j, r0. rewrite <- Nat.add_succ_comm in Hm. done.
    - intros [(Hm & H) | (j & r0 & Hj & Hm & H)]; [exists 0%nat, r; by rewrite Nat.add_0_r | exists (S j), r0; by rewrite <- Nat.add_succ_comm]. }
  destruct (mask !! idx) as [[] |] eqn:Hm; cbn [default id negb orb].
  - destruct (Z.eqb_spec r.1 r.2); [rewrite IH; naive_solver |]. rewrite elem_of_union, elem_of_list_to_set, IH. naive_solver.
  - rewrite IH. naive_solver.
  - rewrite IH. naive_solver.
Qed.

(** A file's pieces are the ones its bytes are in. *)
Lemma pieces_in_elem pl a b p :
  0 < pl -> 0 <= a < b -> (b - 1) / pl <= u_max 32 -> p ∈ pieces_in pl (a, b) <-> exists g, a <= g < b /\ g / pl = p.
Proof.
  intros Hpl Hab Hmax. unfold pieces_in. cbn [fst snd]. rewrite list_elem_of_fmap.
  assert (0 <= a / pl <= (b - 1) / pl) as Hdiv by (split; [apply Z.div_pos; lia | apply Z.div_le_mono; lia]).
  split.
  - intros (q & -> & Hq%elem_of_seqZ). unfold wrap. rewrite Z.mod_small by (unfold u_max in Hmax; lia).
    exists (Z.max a (q * pl)). assert (q * pl <= b - 1) by (transitivity ((b - 1) / pl * pl); [nia | rewrite Z.mul_comm; apply Z.mul_div_le; lia]).
    split; [lia |]. apply Z.le_antisymm.
    + apply Z.lt_succ_r, Z.div_lt_upper_bound; [done |]. pose proof (Z.mul_succ_div_gt a pl Hpl). nia.
    + apply Z.div_le_lower_bound; [done |]. lia.
  - intros (g & Hg & <-). exists (g / pl). assert (a / pl <= g / pl <= (b - 1) / pl) by (split; apply Z.div_le_mono; lia).
    unfold wrap. rewrite Z.mod_small by (unfold u_max in Hmax; lia). split; [done |]. apply elem_of_seqZ. lia.
Qed.

(** A piece is selected exactly when a byte of a selected file is in it. *)
Lemma selected_pieces_elem (files_ : TFiles) pl mask p :
  Forall (fun f => 0 <= f.2) files_ -> sum (snd <$> files_) < 2 ^ 64 -> 0 < pl -> div_ceil (sum (snd <$> files_)) pl <= u_max 32 ->
  p ∈ (selected_pieces files_ pl mask).1 <->
  exists i f g, files_ !! i = Some f /\ mask !! i = Some true /\ file_start files_ i <= g < file_start files_ i + f.2 /\ g / pl = p.
Proof.
  intros Hf Ht Hpl Hn. unfold selected_pieces, file_ranges. cbn [fst]. rewrite pieces_from_elem.
  assert (forall i f, files_ !! i = Some f -> 0 <= file_start files_ i /\ 0 <= f.2 /\ file_start files_ i + f.2 <= sum (snd <$> files_)) as Hb.
  { intros i [parts len] Hi. pose proof (file_start_bounds files_ i Hf). pose proof (file_start_bounds files_ (S i) Hf).
    rewrite (file_start_S _ _ _ _ Hi) in *. rewrite Forall_lookup in Hf. specialize (Hf i _ Hi). cbn in *. lia. }
  assert (forall b, 0 < b <= sum (snd <$> files_) -> (b - 1) / pl <= u_max 32) as Hmax.
  { intros b Hbb. assert ((b - 1) / pl < div_ceil (sum (snd <$> files_)) pl); [| lia]. apply lt_div_ceil; [done |].
    pose proof (Z.mul_div_le (b - 1) pl Hpl). lia. }
  split.
  - intros (i & r & Hr & Hm & Hne & Hp). rewrite ranges_from_lookup in Hr by (done || lia). destruct (files_ !! i) as [f |] eqn:Hi; [| done].
    injection Hr as <-. rewrite Z.add_0_l in *. cbn [fst snd] in Hne. destruct (Hb i f Hi) as (H0 & H1 & H2).
    apply pieces_in_elem in Hp as (g & Hg & <-); [| done | lia | apply Hmax; lia]. by exists i, f, g.
  - intros (i & f & g & Hi & Hm & Hg & <-). destruct (Hb i f Hi) as (H0 & H1 & H2).
    exists i, (0 + file_start files_ i, 0 + file_start files_ i + f.2). rewrite ranges_from_lookup by (done || lia). rewrite Hi, !Z.add_0_l.
    split_and!; [done | done | cbn; lia |]. apply pieces_in_elem; [done | lia | apply Hmax; lia |]. by exists g.
Qed.

(** ** The account of a plan *)

Lemma numbers_distinct mask vps : NoDup ((fun e : nat * V2Piece => Z.of_nat e.1) <$> v2_wanted mask vps).
Proof.
  unfold v2_wanted.
  apply (NoDup_fmap_2_strong (fun e : nat * V2Piece => Z.of_nat e.1)).
  - intros [i p] [j q] Hi Hj Heq. apply list_elem_of_filter in Hi as [_ Hi], Hj as [_ Hj].
    apply list_elem_of_lookup in Hi as [k Hk], Hj as [l Hl]. rewrite list_lookup_imap in Hk. rewrite list_lookup_imap in Hl.
    destruct (vps !! k) eqn:E1; [| done]. destruct (vps !! l) eqn:E2; [| done]. injection Hk as <- <-. injection Hl as <- <-.
    cbn in Heq. apply Nat2Z.inj in Heq as ->. congruence.
  - apply NoDup_filter, NoDup_alt. intros i j e Hi Hj. rewrite list_lookup_imap in Hi. rewrite list_lookup_imap in Hj.
    destruct (vps !! i); [| done]. destruct (vps !! j); [| done].
    cbn in Hi, Hj. by simplify_eq.
Qed.

Section account.
Context (t : TorrentFile) (Hrdy : ready t).

(** What the queue of a torrent is made of. *)
Lemma works_of : exists works, build_work_queue t = Some works /\ pw_index <$> works = seqZ 0 (zlen (pieces t)) /\
  Forall (fun w => piece_len t (pw_index w) = Some (pw_length w) /\ 0 < pw_length w <= t_piece_length t) works /\
  sum (pw_length <$> works) = Torrent.total_length t.
Proof using All.
  destruct (ready_lens t Hrdy) as (lens & Hlens & Hin & Hsum). rewrite (build_work_queue_eq t lens Hrdy Hlens Hin).
  pose proof (piece_lens_length t lens Hlens) as Hll. eexists. split; [done |]. split_and!.
  - apply list_eq. intros i. rewrite list_lookup_fmap, list_lookup_imap. destruct (pieces t !! i) as [h |] eqn:Hh.
    + apply lookup_lt_Some in Hh. symmetry. apply lookup_seqZ. unfold zlen. cbn. lia.
    + apply lookup_ge_None in Hh. symmetry. apply lookup_ge_None. rewrite length_seqZ. unfold zlen. lia.
  - apply Forall_lookup. intros i w Hw. rewrite list_lookup_imap in Hw. destruct (pieces t !! i) as [h |] eqn:Hh; [| done]. injection Hw as <-.
    apply lookup_lt_Some in Hh. destruct (piece_lens_nth t lens i Hlens Hh) as (len & Hl & Hp). cbn. rewrite Hl. split; [done |].
    rewrite Forall_lookup in Hin. by apply (Hin i len).
  - rewrite <- Hsum. f_equal. apply list_eq. intros i. rewrite list_lookup_fmap, list_lookup_imap. destruct (pieces t !! i) as [h |] eqn:Hh.
    + apply lookup_lt_Some in Hh. destruct (piece_lens_nth t lens i Hlens Hh) as (len & Hl & _). cbn. by rewrite Hl.
    + apply lookup_ge_None in Hh. symmetry. apply lookup_ge_None. lia.
Qed.

(** The torrent's files, as arithmetic sees them. *)
Lemma files_sum : Forall (fun f : list (list Z) * Z => 0 <= f.2) (t_files t) /\ sum (snd <$> t_files t) = Torrent.total_length t /\ Torrent.total_length t < 2 ^ 64.
Proof using All.
  pose proof (rdy_ok t Hrdy) as Hok. split_and!; [| done | pose proof (tok_total t Hok); unfold u_max in *; lia].
  apply (Forall_impl _ _ _ (tok_files t Hok)). intros f (_ & _ & H & _). done.
Qed.

Lemma v1_count : v2_pieces t = [] -> zlen (pieces t) = div_ceil (Torrent.total_length t) (t_piece_length t).
Proof using All.
  intros Hv. pose proof (rdy_ok t Hrdy) as Hok. destruct (is_v2_only t) eqn:E; [| by apply (tok_v1 t Hok)].
  destruct (tok_v2 t Hok E) as (Hp & _). rewrite Hp, Hv. cbn. pose proof (rdy_v2 t Hrdy E) as Hr. unfold v2_ready in Hr.
  rewrite E, Hv in Hr. cbn in Hr. apply Z.eqb_eq in Hr. rewrite Hr. symmetry. apply Z.div_small.
  destruct (tok_piece_length t Hok). lia.
Qed.

(** A v1 piece ends where the next begins, or with the torrent. *)
Lemma v1_piece_length i len :
  v2_pieces t = [] -> 0 <= i < zlen (pieces t) -> piece_len t i = Some len ->
  i * t_piece_length t < Torrent.total_length t /\
  len = Z.min ((i + 1) * t_piece_length t) (Torrent.total_length t) - i * t_piece_length t.
Proof using All.
  intros Hv Hi Hlen. pose proof (v1_count Hv) as Hn. destruct (tok_piece_length t (rdy_ok t Hrdy)) as [Hp0 _].
  unfold piece_len in Hlen. rewrite Hv in Hlen. unfold u_saturating_sub in Hlen. rewrite Z.max_r in Hlen by lia.
  assert (i * t_piece_length t < Torrent.total_length t) as Hlt by (apply lt_div_ceil; lia). split; [done |].
  destruct (Z.eqb_spec i (zlen (pieces t) - 1)) as [He | Hne].
  - destruct (_ <? 0); [done |]. injection Hlen as <-.
    assert (Torrent.total_length t <= (i + 1) * t_piece_length t) by (apply div_ceil_le; lia). rewrite <- He. lia.
  - injection Hlen as <-. assert ((i + 1) * t_piece_length t < Torrent.total_length t) by (apply lt_div_ceil; lia). lia.
Qed.

(** The pieces selected are pieces of the torrent, and the bytes counted are
    the bytes the queue counts for them. *)
Lemma selected_account mask works :
  build_work_queue t = Some works ->
  let '(found, bytes) := selected_pieces_of t mask in
  (forall i, i ∈ found -> 0 <= i < zlen (pieces t)) /\ bytes = sum (pw_length <$> filter (fun w => pw_index w ∈ found) works).
Proof using All.
  intros Hw. destruct works_of as (works' & Hw' & Hidx & Hlens & Hsum). rewrite Hw in Hw'. injection Hw' as <-.
  destruct files_sum as (Hf & Hfs & Hmax). pose proof (rdy_ok t Hrdy) as Hok. destruct (tok_piece_length t Hok) as [Hp0 Hp].
  pose proof (rdy_count t Hrdy) as Hcnt.
  assert (forall X : gset Z, 0 <= sum (pw_length <$> filter (fun w => pw_index w ∈ X) works) < 2 ^ 64) as Hfit.
  { intros X. pose proof (sum_filter_le pw_length (fun w => pw_index w ∈ X) works) as H. rewrite Hsum in H.
    assert (Forall (fun w => 0 <= pw_length w) works) as H0 by (apply (Forall_impl _ _ _ Hlens); intros w [_ ?]; cbn; lia). specialize (H H0). lia. }
  assert (forall (X : gset Z) (f : Z -> Z), (forall i, i ∈ X -> 0 <= i < zlen (pieces t)) ->
    (forall w, w ∈ works -> f (pw_index w) = pw_length w) ->
    sum (f <$> elements X) = sum (pw_length <$> filter (fun w => pw_index w ∈ X) works)) as Hover.
  { intros X f HX Hfw. rewrite (sum_perm _ (f <$> filter (fun x => x ∈ X) (seqZ 0 (zlen (pieces t))))).
    - rewrite <- Hidx. clear -Hfw. induction works as [| w ws IH]; [done |]. rewrite fmap_cons, !filter_cons.
      assert (forall w', w' ∈ ws -> f (pw_index w') = pw_length w') as Hws by (intros w' H; apply Hfw; by right).
      destruct (decide (pw_index w ∈ X)); [| by apply IH]. rewrite !fmap_cons. cbn [foldr]. rewrite IH by done. rewrite (Hfw w) by (by left). done.
    - apply Permutation_map, elements_filter; [apply NoDup_seqZ |]. intros x Hx. apply elem_of_seqZ. specialize (HX x Hx). lia. }
  unfold selected_pieces_of. destruct (v2_pieces t) as [| vp vps] eqn:Hv2.
  - assert (wrap 64 (t_piece_length t) = t_piece_length t) as -> by (unfold wrap; apply Z.mod_small; unfold MAX_PIECE_LENGTH in Hp; lia).
    pose proof (v1_count Hv2) as Hn.
    assert (forall i, i ∈ (selected_pieces (t_files t) (t_piece_length t) mask).1 -> 0 <= i < zlen (pieces t)) as Hin.
    { intros i Hi. apply selected_pieces_elem in Hi as (j & f & g & Hj & _ & Hg & <-); [| done | lia | done | rewrite Hfs, <- Hn; lia].
      pose proof (file_start_bounds _ j Hf). pose proof (file_start_bounds _ (S j) Hf). destruct f as [parts len]. rewrite (file_start_S _ _ _ _ Hj) in *.
      cbn [snd] in Hg. split; [apply Z.div_pos; lia |]. rewrite Hn. apply lt_div_ceil; [done |]. pose proof (Z.mul_div_le g (t_piece_length t) Hp0). lia. }
    unfold selected_pieces in *. cbn [fst] in Hin. split; [done |]. set (found := pieces_from _ _ _ _) in *.
    assert (total_len (t_files t) = Torrent.total_length t) as ->.
    { unfold total_len. assert ((fun f : list (list Z) * Z => wrap 64 f.2) <$> t_files t = snd <$> t_files t) as ->.
      - apply list_fmap_ext. intros i f Hi. unfold wrap. apply Z.mod_small. pose proof (file_start_bounds _ i Hf). pose proof (file_start_bounds _ (S i) Hf).
        destruct f as [parts len]. rewrite (file_start_S _ _ _ _ Hi) in *. rewrite Forall_lookup in Hf. specialize (Hf i _ Hi). cbn in *. lia.
      - rewrite Hfs. unfold wrap. apply Z.mod_small. assert (0 <= Torrent.total_length t) by (rewrite <- Hfs; apply sum_nonneg, Forall_fmap, Hf). lia. }
    rewrite (Hover found); [unfold wrap; by rewrite Z.mod_small by apply Hfit | done |]. intros w Hww.
    rewrite Forall_forall in Hlens. destruct (Hlens w Hww) as [Hpw Hlw].
    assert (0 <= pw_index w < zlen (pieces t)) as Hiw.
    { assert (pw_index w ∈ pw_index <$> works) as H by (by apply list_elem_of_fmap_2). rewrite Hidx in H. apply elem_of_seqZ in H. lia. }
    destruct (v1_piece_length _ _ Hv2 Hiw Hpw) as [Hlt ->].
    unfold bytes_of_piece, u_saturating_sub, wrap. assert (pw_index w * t_piece_length t + t_piece_length t < 2 ^ 64) by (unfold u_max, MAX_PIECE_LENGTH in *; nia).
    rewrite (Z.mod_small (pw_index w * _)), Z.mod_small by nia. lia.
  - assert (is_v2_only t = true) as Ev.
    { destruct (is_v2_only t) eqn:E; [done |]. destruct (tok_v1 t Hok E) as [H _]. by rewrite Hv2 in H. }
    destruct (tok_v2 t Hok Ev) as (Hpc & _). rewrite Hv2 in Hpc. set (ps := vp :: vps) in *.
    assert (zlen (pieces t) = zlen ps) as Hn by (rewrite Hpc; unfold zlen; by rewrite length_fmap).
    assert (forall e, e ∈ v2_wanted mask ps -> ps !! e.1 = Some e.2 /\ Z.of_nat e.1 < zlen ps) as Hwant.
    { intros [i p] He. apply list_elem_of_filter in He as [_ He]. apply list_elem_of_lookup in He as [k Hk]. rewrite list_lookup_imap in Hk.
      destruct (ps !! k) eqn:E; [| done]. injection Hk as <- <-. split; [done |]. apply lookup_lt_Some in E. unfold zlen. cbn [fst]. lia. }
    assert ((fun e : nat * V2Piece => wrap 32 (Z.of_nat e.1)) <$> v2_wanted mask ps = (fun e : nat * V2Piece => Z.of_nat e.1) <$> v2_wanted mask ps) as ->.
    { apply list_fmap_ext. intros i e He. apply list_elem_of_lookup_2, Hwant in He as [_ He]. unfold wrap. apply Z.mod_small. unfold u_max in Hcnt. lia. }
    set (idx := (fun e : nat * V2Piece => Z.of_nat e.1) <$> v2_wanted mask ps).
    assert (forall i, i ∈ (list_to_set idx : gset Z) -> 0 <= i < zlen (pieces t)) as Hin.
    { intros i Hi. apply elem_of_list_to_set, list_elem_of_fmap in Hi as (e & -> & He). apply Hwant in He as [_ He]. lia. }
    split; [done |]. set (f := fun i => default 0 (p_length <$> zget ps i)).
    assert ((fun e : nat * V2Piece => p_length e.2) <$> v2_wanted mask ps = f <$> idx) as ->.
    { unfold idx. rewrite <- list_fmap_compose. apply list_fmap_ext. intros i e He. apply list_elem_of_lookup_2, Hwant in He as [He _].
      cbn. unfold f. rewrite zget_nat, Nat2Z.id, He by lia. done. }
    rewrite (sum_perm (f <$> idx) (f <$> elements (list_to_set idx : gset Z))).
    2: { apply Permutation_map. symmetry. apply elements_list_to_set. apply numbers_distinct. }
    rewrite (Hover (list_to_set idx) f Hin); [unfold wrap; by rewrite Z.mod_small by apply Hfit |].
    intros w Hww. rewrite Forall_forall in Hlens. destruct (Hlens w Hww) as [Hpw _]. unfold piece_len in Hpw. rewrite Hv2 in Hpw. fold ps in Hpw.
    injection Hpw as <-. unfold f. by destruct (zget ps (pw_index w)).
Qed.

Lemma size_selected (X : gset Z) works :
  pw_index <$> works = seqZ 0 (zlen (pieces t)) -> (forall i, i ∈ X -> 0 <= i < zlen (pieces t)) ->
  Z.of_nat (size X) = zlen (filter (fun w => pw_index w ∈ X) works).
Proof using Type.
  intros Hidx HX. unfold size, set_size. cbn. unfold zlen. f_equal.
  rewrite (Permutation_length (elements_filter X (seqZ 0 (zlen (pieces t))) (NoDup_seqZ _ _) ltac:(intros x Hx; apply elem_of_seqZ; specialize (HX x Hx); lia))).
  rewrite <- Hidx. clear. induction works as [| w ws IH]; [done |]. rewrite fmap_cons, !filter_cons. destruct (decide (pw_index w ∈ X)); cbn; by rewrite IH.
Qed.
End account.

(** What the plan leaves to fetch and what it counts as done. *)
Lemma outstanding_account (t : TorrentFile) (mask : list bool) (resumed : gset Z) :
  ready t -> (forall i, i ∈ resumed -> 0 <= i < zlen (pieces t)) ->
  let p := new_plan t mask in
  exists works out, build_work_queue t = Some works /\ outstanding p t resumed = Some out /\
    o_work out = filter (fun w => plan_wants p (pw_index w) = true /\ pw_index w ∉ resumed) works /\
    pieces_done out + zlen (o_work out) = goal_pieces p /\
    bytes_done out + sum (pw_length <$> o_work out) = display_total p.
Proof.
  intros Hrdy Hres p. destruct (works_of t Hrdy) as (works & Hw & Hidx & Hlens & Hsum).
  pose proof (selected_account t Hrdy mask works Hw) as Hsel. destruct (selected_pieces_of t mask) as [found bytes] eqn:Hfound.
  destruct Hsel as [Hin Hbytes]. set (wants := fun w => plan_wants p (pw_index w) = true).
  unfold outstanding. rewrite Hw. cbn [mbind option_bind]. eexists works, _. split; [done |]. split; [done |].
  cbn [o_work pieces_done bytes_done]. split; [done |].
  set (dw := filter (fun i => plan_wants p i = true) resumed).
  assert (forall w, w ∈ works -> wants w <-> pw_index w ∈ dw \/ (plan_wants p (pw_index w) = true /\ pw_index w ∉ resumed)) as Hsplit.
  { intros w _. unfold dw, wants. rewrite elem_of_filter. destruct (decide (pw_index w ∈ resumed)); naive_solver. }
  assert (forall w, w ∈ works -> pw_index w ∈ dw -> plan_wants p (pw_index w) = true /\ pw_index w ∉ resumed -> False) as Hdisj.
  { intros w _ [_ H]%elem_of_filter [_ H']. done. }
  assert (forall i, i ∈ dw -> 0 <= i < zlen (pieces t)) as Hdw by (intros i [_ Hi]%elem_of_filter; by apply Hres).
  pose proof (sum_filter_split pw_length _ _ wants works Hsplit Hdisj) as Hb.
  pose proof (sum_filter_split (fun _ => 1) _ _ wants works Hsplit Hdisj) as Hc.
  assert (forall l : list PieceWork, sum ((fun _ => 1) <$> l) = zlen l) as Hones
    by (induction l as [| w l IH]; [done | rewrite fmap_cons, zlen_cons; cbn [foldr]; lia]).
  rewrite !Hones in Hc. rewrite (size_selected t dw works Hidx Hdw).
  assert (Forall (fun w => 0 <= pw_length w) works) as Hpos by (apply (Forall_impl _ _ _ Hlens); intros w [_ ?]; cbn; lia).
  pose proof (sum_filter_le pw_length (fun w => pw_index w ∈ dw) works Hpos) as Hle. destruct (files_sum t Hrdy) as (_ & _ & Hmax).
  unfold wrap. rewrite (Z.mod_small (sum _)) by lia. rewrite Hb, Hc. unfold wants, p, new_plan, plan_wants. rewrite Hfound.
  cbn [selective selected goal_pieces display_total]. destruct (selects_everything t mask); cbn [negb orb].
  - assert (filter (fun w : PieceWork => true = true) works = works) as Hall.
    { clear. induction works as [| w ws IH]; [done |]. rewrite filter_cons, decide_True, IH by done. done. }
    rewrite Hall, Hsum. split; [| done]. apply (f_equal length) in Hidx. rewrite length_fmap, length_seqZ in Hidx. unfold zlen in *. lia.
  - rewrite (size_selected t found works Hidx Hin), Hbytes.
    assert (filter (fun w : PieceWork => bool_decide (pw_index w ∈ found) = true) works = filter (fun w => pw_index w ∈ found) works) as ->; [| done].
    apply list_filter_iff. intros w. by rewrite bool_decide_eq_true.
Qed.

Lemma v2_selected (t : TorrentFile) (mask : list bool) ps i :
  ready t -> v2_pieces t = ps -> ps <> [] ->
  i ∈ (list_to_set ((fun e : nat * V2Piece => wrap 32 (Z.of_nat e.1)) <$> v2_wanted mask ps) : gset Z) <->
  exists vp, zget ps i = Some vp /\ mask !! p_file vp = Some true.
Proof.
  intros Hrdy Hv Hne. pose proof (rdy_ok t Hrdy) as Hok.
  assert (zlen ps <= u_max 32) as Hn.
  { destruct (is_v2_only t) eqn:E.
    - destruct (tok_v2 t Hok E) as (Hpc & _). pose proof (rdy_count t Hrdy) as H. rewrite Hpc, Hv in H. unfold zlen in *. by rewrite length_fmap in H.
    - destruct (tok_v1 t Hok E) as [H _]. congruence. }
  assert (forall k (vp : V2Piece), ps !! k = Some vp -> wrap 32 (Z.of_nat k) = Z.of_nat k) as Hwrap.
  { intros k vp Hk. apply lookup_lt_Some in Hk. unfold wrap. apply Z.mod_small. unfold zlen, u_max in Hn. lia. }
  rewrite elem_of_list_to_set, list_elem_of_fmap. split.
  - intros ([k vp] & -> & He). apply list_elem_of_filter in He as [Hm He]. apply list_elem_of_lookup in He as [j Hj].
    rewrite list_lookup_imap in Hj. destruct (ps !! j) as [q |] eqn:E; [| done]. injection Hj as <- <-. cbn [fst snd] in *.
    rewrite (Hwrap _ _ E), zget_nat, Nat2Z.id by lia. exists q. split; [done |]. by destruct (mask !! p_file q) as [[] |].
  - intros (vp & Hz & Hm). pose proof (zget_Some _ _ _ Hz) as Hi. rewrite zget_nat in Hz by lia. exists (Z.to_nat i, vp). cbn [fst].
    rewrite (Hwrap _ _ Hz), Z2Nat.id by lia. split; [done |]. apply list_elem_of_filter. cbn [snd]. rewrite Hm. split; [done |].
    apply list_elem_of_lookup. exists (Z.to_nat i). by rewrite list_lookup_imap, Hz.
Qed.

(** ** Properties *)

(** C23: A selection fetches what it must and accounts for all of it.  In a
    torrent a session takes on, the pieces of a plan are exactly those in which
    a byte of a selected file lies (for a v2 torrent, those of the selected
    files); with any set of its pieces found on disk, what is left to fetch is
    exactly the wanted pieces not found there, in the torrent's order; and the
    pieces and bytes done and left add up to the totals shown. *)
Theorem plan_accounts (t : TorrentFile) (mask : list bool) (resumed : gset Z)
    (Hrdy : ready t) (Hres : forall i, i ∈ resumed -> 0 <= i < zlen (pieces t)) :
  let p := new_plan t mask in
  (forall i, i ∈ selected p <->
     match v2_pieces t with
     | [] => exists k f g, t_files t !! k = Some f /\ mask !! k = Some true /\
               file_start (t_files t) k <= g < file_start (t_files t) k + f.2 /\ g / t_piece_length t = i
     | vps => exists vp, zget vps i = Some vp /\ mask !! p_file vp = Some true
     end) /\
  exists works out, build_work_queue t = Some works /\ outstanding p t resumed = Some out /\
    o_work out = filter (fun w => plan_wants p (pw_index w) = true /\ pw_index w ∉ resumed) works /\
    pieces_done out + zlen (o_work out) = goal_pieces p /\
    bytes_done out + sum (pw_length <$> o_work out) = display_total p.
Proof.
  split; [| by apply outstanding_account].
  intros i. destruct (files_sum t Hrdy) as (Hf & Hfs & Hmax). destruct (tok_piece_length t (rdy_ok t Hrdy)) as [Hp0 Hp].
  unfold new_plan, selected_pieces_of. destruct (v2_pieces t) as [| vp vps] eqn:Hv2.
  - assert (wrap 64 (t_piece_length t) = t_piece_length t) as -> by (unfold wrap; apply Z.mod_small; unfold MAX_PIECE_LENGTH in Hp; lia).
    cbn [selected]. apply selected_pieces_elem; [done | lia | done |]. rewrite Hfs, <- (v1_count t Hrdy Hv2). apply Hrdy.
  - cbn [selected]. by apply (v2_selected t).
Qed.

Lemma example_parsed_ready : ready example_parsed.
Proof. split; [apply example_parsed_ok | done | vm_compute; discriminate]. Qed.

Lemma plan_accounts_witness :
  exists works out, build_work_queue example_parsed = Some works /\ outstanding (new_plan example_parsed [true]) example_parsed {[1]} = Some out /\
    bytes_done out + sum (pw_length <$> o_work out) = 20000 /\ pieces_done out + zlen (o_work out) = 2.
Proof.
  destruct (plan_accounts example_parsed [true] {[1]} example_parsed_ready) as (_ & works & out & H1 & H2 & _ & H3 & H4).
  - intros i Hi. apply elem_of_singleton in Hi as ->. vm_compute. split; [discriminate | reflexivity].
  - exists works, out. split_and!; [exact H1 | exact H2 | rewrite H4; reflexivity | rewrite H3; reflexivity].
Defined.
