(* ===== verification/Prepare.v ===== *)
(** * Starting a download where the last run left it

    Models the part of [prepare] ([src/src/session/prepare.rs]) that reads the
    disk and fills the queue, the bookkeeping of [src/src/session/progress.rs],
    and the files of [src/src/downloader/partial.rs]: what is on disk is
    found, recorded and advertised, the rest of what is wanted becomes the
    queue, and the blocks of unfinished pieces are handed back to it.  The
    listener, trackers and peers [prepare] starts, and what it logs, are not
    here.  A [None] is a panic. *)

From stdpp Require Import gmap.
From S2P Require Import Prelude Str Numeral Text Bytes Bencode Io Tracker Merkle V2Hashes FileWriter Torrent PieceAssembler Partial Queue Serving Resume Selection.

(** ** Unfinished pieces *)

Definition MAX_FILE : Z := 80 * 2 ^ 20.

Definition partial_file_path (out_dir : Path) (hash : list Z) : Path :=
  join out_dir ([46] ++ info_hash_hex hash ++ str ".partial").

(** How the writing of the file beside and the rename turn out. *)
Definition save_partials (w : Wrote) (renamed : bool) (fs : Fs) (p : Path) (ps : list (Z * PartialPiece)) : Fs * result unit ErrorKind :=
  match ps with
  | [] => (delete p fs, Ok tt)
  | _ =>
      let beside := p ++ str ".part" in
      let '(content, r) := wrote w (save_bytes ps) in
      let fs := <[beside := content]> fs in
      match r with
      | Err e => (fs, Err e)
      | Ok _ => if renamed then (<[p := content]> (delete beside fs), Ok tt) else (fs, Err OtherError)
      end
  end.

Definition load_partials (fs : Fs) (p : Path) : list (Z * PartialPiece) :=
  match fs !! p with
  | Some bytes => if zlen bytes <=? MAX_FILE then default [] (Partial.parse bytes) else []
  | None => []
  end.

(** ** Preparing *)

Record Options : Type := mkOptions {
  out_dir : Path;
  recheck : bool;
  sequential : bool;
  prefer : list bool
}.

Inductive PrepareError : Type :=
| NoPieceLayers
| WritingResumeFile (e : ErrorKind).

Record Prepared : Type := mkPrepared {
  pr_fs : Fs;
  pr_confirmed : gset Z;
  pr_have : HaveMap;
  pr_plan : DownloadPlan;
  pr_out : Outstanding;
  pr_queue : WorkQueue
}.

Definition base_dir_of (o : Options) (t : TorrentFile) : Path :=
  if multi_file t then join (out_dir o) (t_name t) else out_dir o.

Definition spans_of (o : Options) (t : TorrentFile) : list FileSpan := file_spans t (base_dir_of o t).

Definition stash_kept (q : WorkQueue) (kept : list (Z * PartialPiece)) : WorkQueue :=
  fold_left (fun q e => stash_partial q e.1 e.2) (filter (fun e : Z * PartialPiece => is_wanted q e.1 = true) kept) q.

(** The queue of a run: what is outstanding, in the order asked for, and the
    blocks a stopped run had received. *)
Definition queue_for (o : Options) (t : TorrentFile) (out : Outstanding) (fs : Fs) : WorkQueue :=
  let preferred := if existsb id (prefer o) then (selected_pieces_of t (prefer o)).1 else ∅ in
  let queue := Queue.with_preferred (Queue.with_order (Queue.new (o_work out) (length (pieces t))) (if sequential o then Sequential else RarestFirst)) preferred in
  stash_kept queue (load_partials fs (partial_file_path (out_dir o) (t_info_hash t))).

Section prepare.
Context (sha1 : list Z -> list Z).

(** What is on disk, by the resume file or by checking everything. *)
Definition find_on_disk (o : Options) (t : TorrentFile) (fs : Fs) : option (gset Z) :=
  let path := progress_file_path (out_dir o) (t_info_hash t) in
  let full_scan := recheck o || (bool_decide (fs !! path = None) && any_data_on_disk (spans_of o t) fs) in
  if full_scan then scan_all sha1 (spans_of o t) fs t else load_and_verify sha1 fs path (spans_of o t) t.

Definition prepare (o : Options) (t : TorrentFile) (mask : list bool) (w : Wrote) (fs : Fs) : option (Fs * result Prepared PrepareError) :=
  if is_v2_only t && negb (v2_ready t) then Some (fs, Err NoPieceLayers)
  else
    let plan := new_plan t mask in
    let fs := (create_empty_files (spans_of o t) (fun file => default false (mask !! file)) fs).1 in
    let path := progress_file_path (out_dir o) (t_info_hash t) in
    confirmed ← find_on_disk o t fs;
    let '(fs, r) := if bool_decide (confirmed = ∅) then (fs, Ok tt) else rewrite_compact w fs path (elements confirmed) in
    match r with
    | Err e => Some (fs, Err (WritingResumeFile e))
    | Ok _ =>
        let fs := open_resume fs path in
        let have := fold_left have_set (elements confirmed) (have_new (length (pieces t))) in
        out ← outstanding plan t confirmed;
        let queue := queue_for o t out fs in
        let fs := clear fs (partial_file_path (out_dir o) (t_info_hash t)) in
        Some (fs, Ok (mkPrepared fs confirmed have plan out queue))
    end.

End prepare.

(** ** Progress *)

Record Progress : Type := mkProgress {
  pg_have : HaveMap;
  pg_goal : Z;
  verified : Z;
  bytes_already_done : Z;
  bytes_this_run : Z
}.

Definition new_progress (h : HaveMap) (goal verified_ already : Z) : Progress := mkProgress h goal verified_ already 0.

(** [absorb]: a failure to record is only reported. *)
Definition absorb (w : Wrote) (fs : Fs) (path : Path) (p : Progress) (index : Z) (data : list Z) : Fs * Progress :=
  ((record w fs path index).1,
   mkProgress (have_set (pg_have p) index) (pg_goal p) (wrap 64 (verified p + 1)) (bytes_already_done p) (wrap 64 (bytes_this_run p + zlen data))).

Definition progress_bytes_done (p : Progress) : Z := wrap 64 (bytes_already_done p + bytes_this_run p).

(** ** What the other files do not touch *)

Definition not_a_span (spans : list FileSpan) (p : Path) : Prop := Forall (fun s => padding s = false -> path s <> p) spans.

Lemma span_at_elem spans g s : span_at spans g = Some s -> s ∈ spans.
Proof.
  unfold span_at. destruct (spans !! _) as [s' |] eqn:E; [| done]. destruct (_ <=? _); [| done]. intros [= <-]. by eapply list_elem_of_lookup_2.
Qed.

Lemma byte_at_insert spans fs p c g : not_a_span spans p -> byte_at spans (<[p := c]> fs) g = byte_at spans fs g.
Proof.
  intros Hp. unfold byte_at. destruct (span_at spans g) as [s |] eqn:E; [| done]. cbn [mbind option_bind]. destruct (padding s) eqn:Hpad; [done |].
  apply span_at_elem in E. unfold not_a_span in Hp. rewrite Forall_forall in Hp. by rewrite lookup_insert_ne by (symmetry; by apply Hp).
Qed.

Lemma byte_at_delete spans fs p g : not_a_span spans p -> byte_at spans (delete p fs) g = byte_at spans fs g.
Proof.
  intros Hp. unfold byte_at. destruct (span_at spans g) as [s |] eqn:E; [| done]. cbn [mbind option_bind]. destruct (padding s) eqn:Hpad; [done |].
  apply span_at_elem in E. unfold not_a_span in Hp. rewrite Forall_forall in Hp. by rewrite lookup_delete_ne by (symmetry; by apply Hp).
Qed.

Lemma held_same sha1 spans t fs fs' w : (forall g, byte_at spans fs' g = byte_at spans fs g) -> held sha1 spans t fs w -> held sha1 spans t fs' w.
Proof. intros H (data & Hl & Hb & Hm). exists data. split_and!; [done | | done]. intros i Hi. rewrite H. by apply Hb. Qed.

(** ** The pieces advertised *)

Lemma have_set_get h i j : have_get (have_set h i) j = have_get h j || ((i =? j) && bool_decide (is_Some (zget (bits h) j))).
Proof.
  unfold have_get, have_set. destruct (zget (bits h) i) as [[] |] eqn:E; cbn [bits].
  - destruct (Z.eqb_spec i j) as [<- |]; [by rewrite E | by rewrite orb_false_r].
  - pose proof (zget_Some _ _ _ E) as Hi. destruct (Z.eqb_spec i j) as [<- |].
    + rewrite E. cbn. rewrite zget_nat by lia. rewrite list_lookup_insert_eq; [done |]. unfold zlen in Hi. lia.
    + rewrite orb_false_r. unfold zget. destruct (Z.ltb_spec j 0); [done |]. by rewrite list_lookup_insert_ne by lia.
  - destruct (Z.eqb_spec i j) as [<- |]; [by rewrite E | by rewrite orb_false_r].
Qed.

Lemma have_set_total h i : zlen (bits (have_set h i)) = zlen (bits h).
Proof. unfold have_set. destruct (zget (bits h) i) as [[] |]; [done | | done]. unfold zlen. cbn. by rewrite length_insert. Qed.

Lemma have_of_list is_ h j :
  0 <= j < zlen (bits h) -> have_get (fold_left have_set is_ h) j = have_get h j || bool_decide (j ∈ is_).
Proof.
  revert h. induction is_ as [| i is_ IH]; intros h Hj; [by rewrite orb_false_r |]. cbn [fold_left]. rewrite IH by (by rewrite have_set_total).
  rewrite have_set_get. rewrite (bool_decide_true (is_Some _)) by (by apply zget_lt). rewrite andb_true_r, <- orb_assoc. f_equal.
  destruct (Z.eqb_spec i j) as [-> |]; cbn [orb]; symmetry; [apply bool_decide_true; by left |]. apply bool_decide_ext. set_solver.
Qed.

Lemma have_new_get n j : have_get (have_new n) j = false.
Proof. unfold have_get, have_new, zget. cbn [bits]. destruct (j <? 0); [done |]. destruct (replicate n false !! Z.to_nat j) eqn:E; [| done]. by apply lookup_replicate in E as [-> _]. Qed.

(** ** The queue *)

Lemma stash_kept_reachable works total o p q kept :
  Queue.reachable works total o p q -> Queue.reachable works total o p (stash_kept q kept).
Proof.
  unfold stash_kept. generalize (filter (fun e : Z * PartialPiece => is_wanted q e.1 = true) kept). intros l. revert q.
  induction l as [| e l IH]; intros q Hq; [done |]. cbn [fold_left]. apply IH. unfold Queue.reachable in *.
  eapply rtc_r; [exact Hq |]. apply step_stash.
Qed.

Lemma stash_kept_pending q kept : pending (stash_kept q kept) = pending q.
Proof.
  unfold stash_kept. generalize (filter (fun e : Z * PartialPiece => is_wanted q e.1 = true) kept). intros l. revert q.
  induction l as [| e l IH]; intros q; [done |]. cbn [fold_left]. rewrite IH. unfold stash_partial.
  destruct (bool_decide _); [done |]. destruct (_ <? _); [done |]. destruct (partial q !! e.1); [by destruct (_ <=? _) | done].
Qed.

Section found.
Context (sha1 : list Z -> list Z) (o : Options) (t : TorrentFile) (Hrdy : ready t) (Hord : ordered 0 (spans_of o t)).

Definition sidecar : Path := progress_file_path (out_dir o) (t_info_hash t).
Definition stash_file : Path := partial_file_path (out_dir o) (t_info_hash t).

(** Only pieces whose bytes are there are found; all of them, when everything
    is checked, and all the resume file claims, when it is read. *)
Lemma find_on_disk_iff fs works :
  build_work_queue t = Some works ->
  exists found, find_on_disk sha1 o t fs = Some found /\
    (forall i, i ∈ found -> exists w, zget works i = Some w /\ held sha1 (spans_of o t) t fs w) /\
    (forall i w, zget works i = Some w -> held sha1 (spans_of o t) t fs w ->
       (recheck o = true \/ (is_Some (fs !! sidecar) /\ i ∈ read_claimed_indices fs sidecar)) -> i ∈ found) /\
    (recheck o = false -> is_Some (fs !! sidecar) -> forall i, i ∈ found -> i ∈ read_claimed_indices fs sidecar).
Proof using All.
  intros Hw. unfold find_on_disk. fold sidecar. destruct (works_of t Hrdy) as (works' & Hw' & Hidx & _). rewrite Hw in Hw'. injection Hw' as <-.
  set (full := recheck o || _).
  assert (exists indices, (if full then scan_all sha1 (spans_of o t) fs t else load_and_verify sha1 fs sidecar (spans_of o t) t) =
      on_disk_among sha1 (spans_of o t) fs t indices /\ Forall (fun i => 0 <= i) indices /\
      (forall i w, zget works i = Some w -> (recheck o = true \/ (is_Some (fs !! sidecar) /\ i ∈ read_claimed_indices fs sidecar)) -> i ∈ indices) /\
      (recheck o = false -> is_Some (fs !! sidecar) -> forall i, i ∈ indices -> i ∈ read_claimed_indices fs sidecar))
    as (indices & -> & Hpos & Hall & Honly).
  { destruct full eqn:Hfull.
    - exists (seqZ 0 (wrap 32 (zlen (pieces t)))). split; [done |]. split; [apply Forall_forall; intros i Hi%elem_of_seqZ; lia |]. split.
      2: { intros Hre [c Hc]. unfold full in Hfull. by rewrite Hre, Hc in Hfull. }
      intros i w Hi _. assert (pw_index <$> works !! Z.to_nat i = Some i) as Hii.
      { pose proof (zget_Some _ _ _ Hi) as Hz. rewrite <- list_lookup_fmap, Hidx. apply lookup_seqZ. apply (f_equal length) in Hidx.
        rewrite length_fmap, length_seqZ in Hidx. unfold zlen in *. lia. }
      rewrite <- list_lookup_fmap, Hidx in Hii. apply list_elem_of_lookup_2 in Hii. unfold wrap. rewrite Z.mod_small; [done |].
      pose proof (rdy_count t Hrdy). pose proof (zlen_nonneg (pieces t)). unfold u_max in *. lia.
    - exists (elements (read_claimed_indices fs sidecar)). split; [done |]. split; [apply claimed_nonneg |]. split; [| intros _ _ i; by rewrite elem_of_elements].
      intros i w _ [Hr | [_ Hc]]; [unfold full in Hfull; by rewrite Hr in Hfull | by apply elem_of_elements]. }
  destruct (on_disk_among_iff sha1 (spans_of o t) 0 Hord t Hrdy fs works indices Hw Hpos) as (found & Hf & Hiff).
  exists found. split; [done |]. split; [intros i Hi; by apply Hiff |]. split; [| intros Hre Hc i Hi; apply Hiff in Hi as [Hi _]; by apply Honly].
  intros i w Hi Hh Hc. apply Hiff. split; [by apply (Hall i w) | eauto].
Qed.
End found.

Lemma found_in_range (t : TorrentFile) works i w : ready t -> build_work_queue t = Some works -> zget works i = Some w -> 0 <= i < zlen (pieces t).
Proof.
  intros Hrdy Hw Hi. destruct (works_of t Hrdy) as (works' & Hw' & Hidx & _). rewrite Hw in Hw'. injection Hw' as <-.
  apply zget_Some in Hi as [Hi _]. apply (f_equal length) in Hidx. rewrite length_fmap, length_seqZ in Hidx. unfold zlen in *. lia.
Qed.

(** The two sidecar files of a torrent are not one. *)
Lemma sidecar_ne_stash o t : stash_file o t <> sidecar o t.
Proof.
  unfold sidecar, stash_file, progress_file_path, partial_file_path, join. cbn [app]. change (46 =? slash) with false. cbv iota.
  assert (forall l : list Z, l ++ str ".partial" <> l ++ str ".resume") as Hne by (intros l H; by apply app_inv_head in H).
  destruct (last (out_dir o)) as [l |]; [destruct (l =? slash) |]; intros H; [apply app_inv_head in H | apply app_inv_head in H |];
    injection H as H; by apply Hne in H.
Qed.

(** The run of [prepare], step by step. *)
Section prepared.
Context (sha1 : list Z -> list Z) (o : Options) (t : TorrentFile) (mask : list bool) (Hrdy : ready t) (Hord : ordered 0 (spans_of o t)).
Context (Hside : not_a_span (spans_of o t) (sidecar o t)) (Hstash : not_a_span (spans_of o t) (stash_file o t)).

(** The files once the empty ones are made. *)
Definition with_empty (fs : Fs) : Fs := (create_empty_files (spans_of o t) (fun file => default false (mask !! file)) fs).1.

Lemma prepare_steps w fs works :
  build_work_queue t = Some works ->
  exists found fs' r, find_on_disk sha1 o t (with_empty fs) = Some found /\ prepare sha1 o t mask w fs = Some (fs', r) /\
    (forall g, byte_at (spans_of o t) fs' g = byte_at (spans_of o t) (with_empty fs) g) /\
    match r with
    | Err e => exists n k, w = Part n k /\ e = WritingResumeFile k
    | Ok pr => pr_fs pr = fs' /\ pr_confirmed pr = found /\ pr_have pr = fold_left have_set (elements found) (have_new (length (pieces t))) /\
        pr_plan pr = new_plan t mask /\ outstanding (new_plan t mask) t found = Some (pr_out pr) /\
        (exists pref, Queue.reachable (o_work (pr_out pr)) (length (pieces t)) (if sequential o then Sequential else RarestFirst) pref (pr_queue pr)) /\
        pending (pr_queue pr) = o_work (pr_out pr) /\
        (found <> ∅ -> fs' !! sidecar o t = Some (concat (line_of <$> elements found)))
    end.
Proof using All.
  intros Hw. destruct (find_on_disk_iff sha1 o t Hrdy Hord (with_empty fs) works Hw) as (found & Hf & Hheld & _).
  assert (forall i, i ∈ found -> 0 <= i < zlen (pieces t)) as Hrange.
  { intros i Hi. destruct (Hheld i Hi) as (wk & Hz & _). by apply (found_in_range t works i wk). }
  destruct (outstanding_account t mask found Hrdy Hrange) as (works' & out & _ & Hout & _).
  exists found. unfold prepare, queue_for. fold (sidecar o t) (stash_file o t) (with_empty fs).
  assert (is_v2_only t && negb (v2_ready t) = false) as ->.
  { destruct (is_v2_only t) eqn:E; [| done]. by rewrite (rdy_v2 t Hrdy E). }
  rewrite Hf. cbn [mbind option_bind]. set (fs1 := with_empty fs).
  set (step := if bool_decide (found = ∅) then (fs1, Ok tt) else rewrite_compact w fs1 (sidecar o t) (elements found)).
  assert (forall g, byte_at (spans_of o t) step.1 g = byte_at (spans_of o t) fs1 g) as Hb1.
  { intros g. unfold step. case_bool_decide; [done |]. unfold rewrite_compact. destruct (wrote w _). by apply byte_at_insert. }
  assert (match step.2 with
          | Ok _ => found <> ∅ -> step.1 !! sidecar o t = Some (concat (line_of <$> elements found))
          | Err e => exists n, w = Part n e
          end) as Hstep.
  { unfold step. case_bool_decide as Hne; [cbn; intros; contradiction |]. unfold rewrite_compact. destruct w as [| n e]; cbn; [intros _; apply lookup_insert_eq | eauto]. }
  destruct step as [fs2 [[] | e]] eqn:Es; cbn [fst snd] in Hb1, Hstep.
  2: { eexists _, _. split; [done |]. split; [done |]. split; [done |]. destruct Hstep as [n ->]. eauto. }
  rewrite Hout. cbn [mbind option_bind]. eexists _, _. split; [done |]. split; [done |].
  unfold clear, open_resume. split.
  { intros g. rewrite byte_at_delete by done. rewrite byte_at_insert by done. apply Hb1. }
  cbn [pr_fs pr_confirmed pr_have pr_plan pr_out pr_queue]. split_and!; try done.
  - eexists. apply stash_kept_reachable. unfold Queue.reachable. reflexivity.
  - apply stash_kept_pending.
  - intros Hne. rewrite lookup_delete_ne by apply sidecar_ne_stash. rewrite lookup_insert_eq. by rewrite (Hstep Hne).
Qed.
End prepared.

(** ** A run that is stopped *)

(** What a run does with the pieces it verifies: the worker writes each, and the
    session records it. *)
Fixpoint download (spans : list FileSpan) (p : Path) (data : list Z) (pl : Z) (idxs : list Z) (fs : Fs) : option (Fs * result unit ErrorKind) :=
  match idxs with
  | [] => Some (fs, Ok tt)
  | k :: rest =>
      '(fs, r) ← write_piece spans fs k pl (piece_of data pl k);
      match r with
      | Err e => Some (fs, Err e)
      | Ok _ => download spans p data pl rest (record All fs p k).1
      end
  end.

Lemma write_loop_insert spans p c fuel fs offset rem :
  not_a_span spans p ->
  write_loop fuel spans (<[p := c]> fs) offset rem = (fun x : Fs * result unit ErrorKind => (<[p := c]> x.1, x.2)) <$> write_loop fuel spans fs offset rem.
Proof.
  intros Hp. revert fs offset rem. induction fuel as [| fuel IH]; intros fs offset rem; destruct rem as [| b rem]; try done.
  cbn [write_loop]. destruct (span_at spans offset) as [s |] eqn:E; [| done]. apply span_at_elem in E.
  unfold not_a_span in Hp. rewrite Forall_forall in Hp. specialize (Hp s E). destruct (padding s); [apply IH |].
  rewrite lookup_insert_ne, insert_insert_ne by (symmetry; by apply Hp) || (by apply Hp). apply IH.
Qed.

Lemma write_loop_other spans p (Hp : not_a_span spans p) fuel fs offset rem fs' r : write_loop fuel spans fs offset rem = Some (fs', r) -> fs' !! p = fs !! p.
Proof.
  revert fs offset rem. induction fuel as [| fuel IH]; intros fs offset rem H; destruct rem as [| b rem]; try done; try by injection H as <- <-.
  cbn [write_loop] in H. destruct (span_at spans offset) as [s |] eqn:E; [| by injection H as <- <-]. apply span_at_elem in E.
  unfold not_a_span in Hp. rewrite Forall_forall in Hp. specialize (Hp s E). apply IH in H. rewrite H.
  destruct (padding s); [done |]. by rewrite lookup_insert_ne by by apply Hp.
Qed.

Lemma write_pieces_insert spans p c data pl idxs fs :
  not_a_span spans p ->
  write_pieces spans (<[p := c]> fs) data pl idxs = (fun x : Fs * result unit ErrorKind => (<[p := c]> x.1, x.2)) <$> write_pieces spans fs data pl idxs.
Proof.
  intros Hp. revert fs. induction idxs as [| k idxs IH]; intros fs; [done |]. cbn [write_pieces]. unfold write_piece, write_at_global_offset.
  rewrite write_loop_insert by done. destruct (write_loop _ _ _ _ _) as [[fs' [[] | e]] |]; [| done | done]. cbn. apply IH.
Qed.

(** Recording does not disturb the pieces, nor they the record. *)
Lemma download_writes spans p data pl idxs fs fsw :
  not_a_span spans p -> write_pieces spans fs data pl idxs = Some (fsw, Ok tt) ->
  exists fs', download spans p data pl idxs fs = Some (fs', Ok tt) /\
    fs' = if bool_decide (idxs = []) then fsw else <[p := default [] (fs !! p) ++ concat (line_of <$> idxs)]> fsw.
Proof.
  intros Hp. revert fs fsw. induction idxs as [| k idxs IH]; intros fs fsw H.
  { injection H as <-. by exists fs. }
  cbn [write_pieces download] in *. unfold write_piece, write_at_global_offset in *.
  destruct (write_loop (length (piece_of data pl k)) spans fs (wrap 64 (k * pl)) (piece_of data pl k)) as [[fs1 [[] | e]] |] eqn:E; [| done | done].
  cbn [mbind option_bind] in *. unfold record. cbn [wrote fst].
  assert (fs1 !! p = fs !! p) as Hsame by (by apply (write_loop_other spans p Hp) in E).
  destruct (IH (<[p := default [] (fs1 !! p) ++ line_of k]> fs1) (<[p := default [] (fs1 !! p) ++ line_of k]> fsw)) as (fs' & Hd & ->).
  { rewrite write_pieces_insert by done. by rewrite H. }
  eexists. split; [exact Hd |]. rewrite lookup_insert_eq, Hsame. cbn [default id]. rewrite (bool_decide_false (k :: idxs = [])) by done.
  case_bool_decide as Hn; [by subst; cbn; rewrite app_nil_r |].
  rewrite insert_insert_eq. rewrite fmap_cons. cbn [concat]. by rewrite <- app_assoc.
Qed.

Lemma found_claims (t : TorrentFile) works (found : gset Z) :
  ready t -> build_work_queue t = Some works -> (forall i, i ∈ found -> exists w, zget works i = Some w) ->
  Forall (fun i => 0 <= i <= u_max 32) (elements found).
Proof.
  intros Hrdy Hw Hf. apply Forall_forall. intros i Hi%elem_of_elements. destruct (Hf i Hi) as (w & Hz).
  pose proof (found_in_range t works i w Hrdy Hw Hz). pose proof (rdy_count t Hrdy). lia.
Qed.

Lemma have_found (t : TorrentFile) works (found : gset Z) :
  ready t -> build_work_queue t = Some works -> (forall i, i ∈ found -> exists w, zget works i = Some w) ->
  forall i, have_get (fold_left have_set (elements found) (have_new (length (pieces t)))) i = true <-> i ∈ found.
Proof.
  intros Hrdy Hw Hf i.
  assert (zlen (bits (have_new (length (pieces t)))) = zlen (pieces t)) as Hn by (unfold zlen; cbn; by rewrite length_replicate).
  assert (forall is_ h, zlen (bits (fold_left have_set is_ h)) = zlen (bits h)) as Hlen.
  { induction is_ as [| k is_ IH]; intros h; [done |]. cbn [fold_left]. by rewrite IH, have_set_total. }
  split.
  - intros Hg. assert (0 <= i < zlen (pieces t)) as Hi.
    { unfold have_get in Hg. destruct (zget (bits _) i) as [b |] eqn:E; [| done]. apply zget_Some in E as [E _]. rewrite Hlen in E. lia. }
    rewrite have_of_list, have_new_get in Hg by lia. apply bool_decide_eq_true in Hg. by apply elem_of_elements in Hg.
  - intros Hi. destruct (Hf i Hi) as (w & Hz). pose proof (found_in_range t works i w Hrdy Hw Hz).
    rewrite have_of_list by lia. rewrite (bool_decide_true (i ∈ _)) by (by apply elem_of_elements). apply orb_true_r.
Qed.

(** The files as a run that verified the pieces [idxs] leaves them. *)
Lemma v1_files_ok_sum t : ready t -> files_ok (t_files t) /\ FileWriter.total_length (t_files t) = Torrent.total_length t.
Proof.
  intros Hrdy. destruct (files_sum t Hrdy) as (Hf & Hs & Hmax).
  assert (FileWriter.total_length (t_files t) = Torrent.total_length t) as E.
  { unfold FileWriter.total_length, Torrent.total_length. clear. induction (t_files t) as [| f l IH]; [done |]. cbn in *. lia. }
  split; [| done]. split; [done | lia].
Qed.

Lemma v1_spans_ordered o t : ready t -> is_v2_only t = false -> ordered 0 (spans_of o t).
Proof. intros Hrdy Hv. unfold spans_of, file_spans. rewrite Hv. apply built_ordered. by apply v1_files_ok_sum. Qed.

Lemma with_empty_keeps o t mask fs :
  (forall p c, fs !! p = Some c -> with_empty o t mask fs !! p = Some c) /\
  (forall g x, byte_at (spans_of o t) fs g = Some x -> byte_at (spans_of o t) (with_empty o t mask fs) g = Some x).
Proof.
  unfold with_empty, create_empty_files. destruct (create_empty_from _ _ _ _) as [fs' n] eqn:E. apply create_empty_spec in E as [Hkeep _].
  split; [done |]. intros g x. unfold byte_at. destruct (span_at _ g) as [s |]; [| done]. cbn [mbind option_bind fst]. destruct (padding s); [done |].
  destruct (fs !! path s) as [c |] eqn:Ec; [| done]. by rewrite (Hkeep _ _ Ec).
Qed.

Lemma held_kept sha1 spans t fs fs' w :
  (forall g x, byte_at spans fs g = Some x -> byte_at spans fs' g = Some x) -> held sha1 spans t fs w -> held sha1 spans t fs' w.
Proof.
  intros H (data & Hl & Hb & Hm). exists data. split_and!; [done | | done]. intros i Hi. specialize (Hb i Hi).
  destruct (zget_lt data i ltac:(lia)) as [x Hx]. rewrite Hx in *. symmetry. by apply H.
Qed.

Lemma run_leaves sha1 o t data idxs fs :
  ready t -> is_v2_only t = false -> distinct_paths (spans_of o t) -> not_a_span (spans_of o t) (sidecar o t) ->
  zlen data = Torrent.total_length t -> fits_padding (spans_of o t) 0 data -> fs !! sidecar o t = None -> idxs <> [] ->
  Forall (fun k => 0 <= k /\ zget (pieces t) k = Some (sha1 (piece_of data (t_piece_length t) k))) idxs ->
  forall works, build_work_queue t = Some works ->
  exists fs1, download (spans_of o t) (sidecar o t) data (t_piece_length t) idxs fs = Some (fs1, Ok tt) /\
    fs1 !! sidecar o t = Some (concat (line_of <$> idxs)) /\
    forall k, k ∈ idxs -> exists w, zget works k = Some w /\ held sha1 (spans_of o t) t fs1 w.
Proof.
  intros Hrdy Hv1 Hpaths Hside Hdata Hpad Hnew Hidx Hgood works Hw. pose proof (v1_spans_ordered o t Hrdy Hv1) as Hord.
  destruct (tok_piece_length t (rdy_ok t Hrdy)) as [Hp0 _]. destruct (tok_v1 t (rdy_ok t Hrdy) Hv1) as [Hv2 Hcount].
  destruct (v1_files_ok_sum t Hrdy) as [Hfok Hftot]. destruct (files_sum t Hrdy) as (_ & _ & Hmax).
  set (pl := t_piece_length t) in *.
  assert (Forall (fun k => 0 <= k /\ k * pl < zlen data) idxs) as Hrange.
  { apply (Forall_impl _ _ _ Hgood). intros k [Hk0 Hk]. apply zget_Some in Hk as [Hk _]. split; [done |]. rewrite Hdata. apply lt_div_ceil; lia. }
  destruct (write_pieces_spec (spans_of o t) 0 Hord (fun s u => distinct_paths_inj _ s u Hpaths) fs data pl idxs) as (fsw & Hwp & Hbytes);
    [done | lia | done | | done |].
  { intros g Hg. unfold spans_of, file_spans. rewrite Hv1. apply built_covers; [done | lia]. }
  destruct (download_writes (spans_of o t) (sidecar o t) data pl idxs fs fsw Hside Hwp) as (fs1 & Hd & Hfs1).
  rewrite bool_decide_false, Hnew in Hfs1 by done. cbn [default app] in Hfs1. exists fs1. split; [done |]. split; [rewrite Hfs1; apply lookup_insert_eq |].
  intros k Hk. rewrite Forall_forall in Hgood, Hrange. destruct (Hgood k Hk) as [Hk0 Hhash]. destruct (Hrange k Hk) as [_ Hkl].
  pose proof (zget_Some _ _ _ Hhash) as [Hkn _].
  destruct (works_of t Hrdy) as (works' & Hw' & Hix & Hlens & _). rewrite Hw in Hw'. injection Hw' as <-.
  destruct (ready_lens t Hrdy) as (lens & Hpl & Hin & _). rewrite (build_work_queue_eq t lens Hrdy Hpl Hin) in Hw. injection Hw as <-.
  exists (the_work t lens (Z.to_nat k) (sha1 (piece_of data pl k))).
  assert (zget (imap (the_work t lens) (pieces t)) k = Some (the_work t lens (Z.to_nat k) (sha1 (piece_of data pl k)))) as Hz.
  { rewrite zget_nat by done. rewrite list_lookup_imap. rewrite zget_nat in Hhash by done. by rewrite Hhash. }
  split; [done |]. rewrite Forall_lookup in Hlens. rewrite zget_nat in Hz by done. destruct (Hlens _ _ Hz) as [Hlen _].
  cbn [pw_index the_work] in Hlen. rewrite Z2Nat.id in Hlen by done. destruct (v1_piece_length t Hrdy k _ Hv2 ltac:(lia) Hlen) as [_ Hpw].
  fold pl in Hpw. rewrite <- Hdata in Hpw. exists (piece_of data pl k).
  assert (zlen (piece_of data pl k) = Z.min ((k + 1) * pl) (zlen data) - k * pl) as Hzl by (unfold piece_of; rewrite zlen_slice; nia).
  split; [lia |]. split.
  - intros i Hi. rewrite Hpw in Hi. cbn [pw_index the_work]. rewrite Z2Nat.id by done. fold pl. rewrite Hfs1, byte_at_insert by done.
    rewrite Hbytes; [unfold piece_of; rewrite zget_slice by nia; done | nia |].
    left. assert ((k * pl + i) / pl = k) as ->; [| done]. symmetry. apply (Z.div_unique_pos _ _ _ i); nia.
  - unfold PieceAssembler.matches, the_work. cbn [pw_merkle pw_hash]. rewrite Hv2. cbn. by rewrite bool_decide_true.
Qed.

(** ** Properties *)

(** C4: Nothing is trusted that is not on disk.  Whatever the files and the
    resume file hold, preparing a download never panics, and fails only when
    the resume file cannot be written; every piece it takes as done, and only
    those it advertises to peers, has all its bytes in the files as it leaves
    them, and they are bytes a download of that piece would have accepted; with
    a recheck it finds every such piece; the queue the workers start from holds
    exactly the wanted pieces that are not there; the counts of what is done
    and what is left add up to the totals; and the resume file then claims what
    was confirmed. *)
Theorem restart_sound (sha1 : list Z -> list Z) (o : Options) (t : TorrentFile) (mask : list bool) (w : Wrote) (fs : Fs)
    (Hrdy : ready t) (Hord : ordered 0 (spans_of o t))
    (Hside : not_a_span (spans_of o t) (sidecar o t)) (Hstash : not_a_span (spans_of o t) (stash_file o t)) :
  exists works fs' r, build_work_queue t = Some works /\ prepare sha1 o t mask w fs = Some (fs', r) /\
    match r with
    | Err e => exists n k, w = Part n k /\ e = WritingResumeFile k
    | Ok pr =>
        let found := pr_confirmed pr in let out := pr_out pr in
        (forall i, i ∈ found -> exists wk, zget works i = Some wk /\ held sha1 (spans_of o t) t fs' wk) /\
        (recheck o = true -> forall i wk, zget works i = Some wk -> held sha1 (spans_of o t) t fs' wk -> i ∈ found) /\
        (forall i, have_get (pr_have pr) i = true <-> i ∈ found) /\
        o_work out = filter (fun wk => plan_wants (new_plan t mask) (pw_index wk) = true /\ pw_index wk ∉ found) works /\
        (exists pref, Queue.reachable (o_work out) (length (pieces t)) (if sequential o then Sequential else RarestFirst) pref (pr_queue pr)) /\ pending (pr_queue pr) = o_work out /\
        pieces_done out + zlen (o_work out) = goal_pieces (pr_plan pr) /\
        bytes_done out + sum (pw_length <$> o_work out) = display_total (pr_plan pr) /\
        (found <> ∅ -> read_claimed_indices fs' (sidecar o t) = found)
    end.
Proof.
  destruct (works_of t Hrdy) as (works & Hw & _).
  destruct (prepare_steps sha1 o t mask Hrdy Hord Hside Hstash w fs works Hw) as (found & fs' & r & Hf & Hp & Hbytes & Hr).
  exists works, fs', r. split; [done |]. split; [done |]. destruct r as [pr | e]; [| done]. cbv zeta.
  destruct Hr as (_ & -> & -> & -> & Hout & Hq & Hpend & Hclaim).
  destruct (find_on_disk_iff sha1 o t Hrdy Hord (with_empty o t mask fs) works Hw) as (found' & Hf' & Hheld & Hall & _).
  rewrite Hf in Hf'. injection Hf' as <-.
  assert (forall i, i ∈ found -> exists wk, zget works i = Some wk) as Hz by (intros i Hi; destruct (Hheld i Hi) as (wk & ? & _); eauto).
  destruct (outstanding_account t mask found Hrdy) as (works' & out & Hw' & Hout' & Hwork & Hpieces & Hbd).
  { intros i Hi. destruct (Hz i Hi) as (wk & Hwk). by apply (found_in_range t works i wk). }
  rewrite Hw in Hw'. injection Hw' as <-. rewrite Hout in Hout'. injection Hout' as <-. split_and!; try done.
  - intros i Hi. destruct (Hheld i Hi) as (wk & Hwk & Hh). exists wk. split; [done |]. by apply (held_same sha1 _ _ (with_empty o t mask fs)).
  - intros Hre i wk Hwk Hh. apply (Hall i wk Hwk); [| by left]. by apply (held_same sha1 _ _ fs').
  - by apply (have_found t works).
  - intros Hne. rewrite (claimed_recorded fs' (sidecar o t) (elements found) (Hclaim Hne)) by (by apply (found_claims t works)). apply set_eq. intros i.
    by rewrite elem_of_list_to_set, elem_of_elements.
Qed.

(** C13: A stopped download goes on where it stopped.  Take a v1 torrent whose
    files have distinct paths, and a run that verified some of its pieces, in
    any order, writing and recording each.  Started again, the session confirms
    exactly those pieces, advertises exactly them, and puts exactly the other
    wanted pieces in the queue. *)
Theorem restart_continues (sha1 : list Z -> list Z) (o : Options) (t : TorrentFile) (mask : list bool) (data : list Z) (idxs : list Z) (fs : Fs)
    (Hrdy : ready t) (Hv1 : is_v2_only t = false) (Hpaths : distinct_paths (spans_of o t))
    (Hside : not_a_span (spans_of o t) (sidecar o t)) (Hstash : not_a_span (spans_of o t) (stash_file o t))
    (Hdata : zlen data = Torrent.total_length t) (Hpad : fits_padding (spans_of o t) 0 data) (Hnew : fs !! sidecar o t = None) (Hre : recheck o = false)
    (Hidx : idxs <> []) (Hgood : Forall (fun k => 0 <= k /\ zget (pieces t) k = Some (sha1 (piece_of data (t_piece_length t) k))) idxs) :
  exists works fs1 fs2 pr, build_work_queue t = Some works /\
    download (spans_of o t) (sidecar o t) data (t_piece_length t) idxs fs = Some (fs1, Ok tt) /\
    prepare sha1 o t mask All fs1 = Some (fs2, Ok pr) /\
    pr_confirmed pr = list_to_set idxs /\ (forall i, have_get (pr_have pr) i = true <-> i ∈ idxs) /\
    o_work (pr_out pr) = filter (fun wk => plan_wants (new_plan t mask) (pw_index wk) = true /\ pw_index wk ∉ (list_to_set idxs : gset Z)) works /\
    pending (pr_queue pr) = o_work (pr_out pr).
Proof.
  destruct (works_of t Hrdy) as (works & Hw & _).
  destruct (run_leaves sha1 o t data idxs fs Hrdy Hv1 Hpaths Hside Hdata Hpad Hnew Hidx Hgood works Hw) as (fs1 & Hd & Hlines & Hheld1).
  pose proof (v1_spans_ordered o t Hrdy Hv1) as Hord.
  destruct (prepare_steps sha1 o t mask Hrdy Hord Hside Hstash All fs1 works Hw) as (found & fs2 & r & Hf & Hp & _ & Hr).
  destruct r as [pr | e]; [| by destruct Hr as (n & k & ? & _)]. destruct Hr as (_ & Hc & Hhave & _ & Hout & _ & Hpend & _).
  destruct (find_on_disk_iff sha1 o t Hrdy Hord (with_empty o t mask fs1) works Hw) as (found' & Hf' & Hz & Hall & Honly).
  rewrite Hf in Hf'. injection Hf' as <-.
  destruct (with_empty_keeps o t mask fs1) as [Hkeep Hbytes].
  assert (with_empty o t mask fs1 !! sidecar o t = Some (concat (line_of <$> idxs))) as Hlines' by (by apply Hkeep).
  assert (Forall (fun i => 0 <= i <= u_max 32) idxs) as Hfit.
  { apply (Forall_impl _ _ _ Hgood). intros k [Hk0 Hk]. apply zget_Some in Hk as [Hk _]. pose proof (rdy_count t Hrdy). lia. }
  pose proof (claimed_recorded _ _ _ Hlines' Hfit) as Hclaims.
  assert (found = list_to_set idxs) as ->.
  { apply set_eq. intros i. rewrite elem_of_list_to_set. split.
    - intros Hi. apply (Honly Hre) in Hi; [| by eexists]. rewrite Hclaims in Hi. by apply elem_of_list_to_set in Hi.
    - intros Hi. destruct (Hheld1 i Hi) as (wk & Hwk & Hh). apply (Hall i wk Hwk).
      + by apply (held_kept sha1 _ _ fs1).
      + right. split; [by eexists |]. rewrite Hclaims. by apply elem_of_list_to_set. }
  destruct (outstanding_account t mask (list_to_set idxs) Hrdy) as (works' & out & Hw' & Hout' & Hwork & _).
  { intros i Hi. apply elem_of_list_to_set in Hi. destruct (Hheld1 i Hi) as (wk & Hwk & _). by apply (found_in_range t works i wk). }
  rewrite Hw in Hw'. injection Hw' as <-. rewrite Hout in Hout'. injection Hout' as <-.
  exists works, fs1, fs2, pr. split_and!; try done. intros i. rewrite Hhave, (have_found t works), elem_of_list_to_set; [done | done | done |].
  intros j Hj. destruct (Hz j Hj) as (wk & Hwk & _). eauto.
Qed.

Definition plain_options : Options := mkOptions (str "/d") false false [].

Lemma example_side :
  not_a_span (spans_of plain_options example_parsed) (sidecar plain_options example_parsed) /\
  not_a_span (spans_of plain_options example_parsed) (stash_file plain_options example_parsed).
Proof. split; apply Forall_cons; (split; [intros _; vm_compute; discriminate | constructor]). Qed.

Lemma restart_sound_witness :
  exists works fs' pr, build_work_queue example_parsed = Some works /\
    prepare no_sha1 plain_options example_parsed [true] All ∅ = Some (fs', Ok pr) /\
    pieces_done (pr_out pr) + zlen (o_work (pr_out pr)) = goal_pieces (pr_plan pr) /\ pending (pr_queue pr) = o_work (pr_out pr).
Proof.
  destruct (restart_sound no_sha1 plain_options example_parsed [true] All ∅ example_parsed_ready
    (v1_spans_ordered _ _ example_parsed_ready eq_refl) (proj1 example_side) (proj2 example_side)) as (works & fs' & r & Hw & Hp & Hr).
  destruct r as [pr | e]; [| destruct Hr as (n & k & Hn & _); discriminate].
  exists works, fs', pr. cbv zeta in Hr. destruct Hr as (_ & _ & _ & _ & _ & Hpend & Hdone & _).
  split; [exact Hw |]. split; [exact Hp |]. split; [exact Hdone | exact Hpend].
Defined.

Definition example_bytes_of (n : nat) : list Z := replicate n 1.

Definition sevens (_ : list Z) : list Z := replicate 20 7.

Lemma example_no_padding data : fits_padding (spans_of plain_options example_parsed) 0 data.
Proof.
  intros i _ Hp. exfalso. unfold is_padding in Hp. destruct (span_at _ _) as [s |] eqn:E; [| done]. apply span_at_elem in E.
  apply elem_of_cons in E as [-> | E]; [discriminate | by apply not_elem_of_nil in E].
Qed.

Lemma restart_continues_witness :
  exists fs1 fs2 pr,
    download (spans_of plain_options example_parsed) (sidecar plain_options example_parsed) (example_bytes_of (Z.to_nat 20000)) 16384 [1] ∅ = Some (fs1, Ok tt) /\
    prepare sevens plain_options example_parsed [true] All fs1 = Some (fs2, Ok pr) /\ pr_confirmed pr = list_to_set [1] /\
    (forall i, have_get (pr_have pr) i = true <-> i ∈ [1]).
Proof.
  destruct (restart_continues sevens plain_options example_parsed [true] (example_bytes_of (Z.to_nat 20000)) [1] ∅ example_parsed_ready)
    as (works & fs1 & fs2 & pr & _ & H1 & H2 & H3 & H4 & _).
  - reflexivity.
  - apply NoDup_singleton.
  - exact (proj1 example_side).
  - exact (proj2 example_side).
  - unfold example_bytes_of. rewrite zlen_replicate. reflexivity.
  - apply example_no_padding.
  - apply lookup_empty.
  - reflexivity.
  - discriminate.
  - apply Forall_singleton. split; [lia | reflexivity].
  - exists fs1, fs2, pr. split_and!; [exact H1 | exact H2 | exact H3 | exact H4].
Defined.
