(* ===== verification/Magnet.v ===== *)
(** * Magnet links

    Models [src/src/magnet.rs]: reading the parameters of a [magnet:?] link,
    the info hash in hexadecimal or base32, the selection of BEP 53, and the
    mutable pointers of BEP 46.  Strings are their UTF-8 bytes; the characters
    an error names are left out.  What the code uses of [std]'s
    [SocketAddr::from_str] is written out.  A [None] of the outer option is a
    panic. *)

From stdpp Require Import sorting.
From S2P Require Import Bignum.
From S2P Require Import Prelude Str Numeral Text Bytes Net Bencode Tracker Torrent.

(** ** [SocketAddr::from_str] *)

Definition digit_of (radix b : Z) : option Z := d ← hex_value b; if d <? radix then Some d else None.

Fixpoint take_digits (radix : Z) (s : list Z) : list Z * list Z :=
  match s with
  | b :: r => match digit_of radix b with Some d => let '(ds, rest) := take_digits radix r in (d :: ds, rest) | None => ([], s) end
  | [] => ([], [])
  end.

(** [Parser::read_number] into [w] bits. *)
Definition read_number (radix w : Z) (max_digits : option nat) (allow_zero_prefix : bool) (s : list Z) : option (Z * list Z) :=
  let '(ds, rest) := take_digits radix s in
  let value := fold_left (fun acc d => acc * radix + d) ds 0 in
  if bool_decide (ds = []) then None
  else if match max_digits with Some m => (m <? length ds)%nat | None => false end then None
  else if u_max w <? value then None
  else if negb allow_zero_prefix && bool_decide (head ds = Some 0) && (1 <? length ds)%nat then None
  else Some (value, rest).

Definition read_char (c : Z) (s : list Z) : option (list Z) :=
  match s with b :: r => if b =? c then Some r else None | [] => None end.

(** [read_separator]: the separator, but before the first. *)
Definition read_sep (c : Z) (i : nat) (s : list Z) : option (list Z) := match i with O => Some s | _ => read_char c s end.

Fixpoint read_octets (n i : nat) (s : list Z) : option (list Z * list Z) :=
  match n with
  | O => Some ([], s)
  | S n' =>
      s ← read_sep 46 i s;
      '(v, s) ← read_number 10 8 (Some 3%nat) false s;
      '(vs, s) ← read_octets n' (S i) s;
      Some (v :: vs, s)
  end.

Definition read_ipv4 (s : list Z) : option (list Z * list Z) := read_octets 4 0 s.

(** [read_groups] of [limit] groups: what it read, and whether it ended in an
    IPv4 address. *)
Fixpoint read_groups (n i limit : nat) (s : list Z) : list Z * bool * list Z :=
  match n with
  | O => ([], false, s)
  | S n' =>
      match (if (i <? limit - 1)%nat then s' ← read_sep 58 i s; read_ipv4 s' else None) with
      | Some ([a; b; c; d], rest) => ([a * 256 + b; c * 256 + d], true, rest)
      | _ =>
          match (s' ← read_sep 58 i s; read_number 16 16 (Some 4%nat) true s') with
          | Some (g, rest) => let '(gs, v4, rest) := read_groups n' (S i) limit rest in (g :: gs, v4, rest)
          | None => ([], false, s)
          end
      end
  end.

Definition group_bytes (g : Z) : list Z := [g / 256; g mod 256].

Definition read_ipv6 (s : list Z) : option (list Z * list Z) :=
  let '(head_, head_ipv4, rest) := read_groups 8 0 8 s in
  if (length head_ =? 8)%nat then Some (flat_map group_bytes head_, rest)
  else if head_ipv4 : bool then None
  else
    rest ← read_char 58 rest;
    rest ← read_char 58 rest;
    let limit := (8 - (length head_ + 1))%nat in
    let '(tail_, _, rest) := read_groups limit 0 limit rest in
    Some (flat_map group_bytes (head_ ++ replicate (8 - length head_ - length tail_) 0 ++ tail_), rest).

Definition read_port (s : list Z) : option (Z * list Z) := s ← read_char 58 s; read_number 10 16 None true s.

Definition read_socket_v4 (s : list Z) : option (SocketAddr * list Z) :=
  '(ip, s) ← read_ipv4 s; '(p, s) ← read_port s; Some (V4 ip p, s).

Definition read_socket_v6 (s : list Z) : option (SocketAddr * list Z) :=
  s ← read_char 91 s;
  '(ip, s) ← read_ipv6 s;
  let '(scope, s) := default (0, s) (s' ← read_char 37 s; read_number 10 32 None true s') in
  s ← read_char 93 s;
  '(p, s) ← read_port s;
  Some (V6 ip p 0 scope, s).

Definition parse_socket_addr (s : list Z) : option SocketAddr :=
  '(a, rest) ← match read_socket_v4 s with Some r => Some r | None => read_socket_v6 s end;
  match rest with [] => Some a | _ => None end.

(** ** The link *)

Record MagnetLink : Type := mkMagnetLink {
  m_info_hash : list Z;
  m_info_hash_v2 : option (list Z);
  display_name : option (list Z);
  m_trackers : list (list Z);
  m_peers : list SocketAddr;
  m_web_seeds : list (list Z);
  select_only : list Z
}.

Definition MAX_SELECTED_FILES : Z := 2 ^ 16.

(** One part of an [so] value: a number, or a range. *)
Definition parse_range (part : list Z) : option (Z * Z) :=
  match split_once [45] part with
  | Some (first, last) => f ← parse_u 64 first; l ← parse_u 64 last; Some (f, l)
  | None => i ← parse_u 64 part; Some (i, i)
  end.

Fixpoint select_parts (parts : list (list Z)) (indices : list Z) : option (list Z) :=
  match parts with
  | [] => Some indices
  | part :: rest =>
      '(first, last) ← parse_range part;
      if (last <? first) || (wrap 64 (MAX_SELECTED_FILES - zlen indices) <=? last - first) then None
      else select_parts rest (indices ++ seqZ first (last - first + 1))
  end.

(** [Vec::dedup] of numbers. *)
Fixpoint dedup_Z (l : list Z) : list Z :=
  match l with
  | x :: (y :: _) as r => if x =? y then dedup_Z r else x :: dedup_Z r
  | _ => l
  end.

Definition parse_select_only (value : list Z) : option (list Z) :=
  indices ← select_parts (split_on 44 value) [];
  Some (dedup_Z (merge_sort Z.le indices)).

Inductive MagnetError : Type :=
| NotAMagnetUri
| MissingInfoHash
| BadInfoHashEncoding (s : list Z)
| BadInfoHashLength (got : Z)
| InvalidBase32Char
| InvalidHexChar
| InvalidPercentEncoding.

(** ** Hexadecimal, base32 and percent encoding *)

Definition hex_nibble (c : Z) : result Z MagnetError :=
  if (48 <=? c) && (c <=? 57) then Ok (c - 48)
  else if (97 <=? c) && (c <=? 102) then Ok (c - 97 + 10)
  else if (65 <=? c) && (c <=? 70) then Ok (c - 65 + 10)
  else Err InvalidHexChar.

Fixpoint hex_pairs (bytes : list Z) : result (list Z) MagnetError :=
  match bytes with
  | a :: b :: rest =>
      let? hi := hex_nibble a in
      let? lo := hex_nibble b in
      let? out := hex_pairs rest in
      Ok (Z.lor (Z.shiftl hi 4) lo :: out)
  | _ => Ok []
  end.

Definition decode_hex_20 (s : list Z) : result (list Z) MagnetError := hex_pairs (take 40 s).

Definition BASE32_ALPHABET : list Z := str "ABCDEFGHIJKLMNOPQRSTUVWXYZ234567".

Definition to_ascii_uppercase (b : Z) : Z := if (97 <=? b) && (b <=? 122) then b - 32 else b.

(** [lut[c]], or a character that is not ASCII: a position, or [None] for -1. *)
Definition base32_index (c : Z) : option Z :=
  if c <? 128 then (fun e : nat * Z => Z.of_nat e.1) <$> list_find (fun x => x = c) BASE32_ALPHABET else None.

Fixpoint base32_loop (s : list Z) (bit_buf bit_count : Z) (out : list Z) : result (list Z) MagnetError :=
  match s with
  | [] => Ok out
  | c :: rest =>
      match base32_index (to_ascii_uppercase c) with
      | None => Err InvalidBase32Char
      | Some idx =>
          let bit_buf := Z.lor (wrap 64 (Z.shiftl bit_buf 5)) idx in
          let bit_count := bit_count + 5 in
          if 8 <=? bit_count then
            let bit_count := bit_count - 8 in
            base32_loop rest bit_buf bit_count (out ++ [Z.land (Z.shiftr bit_buf bit_count) 255])
          else base32_loop rest bit_buf bit_count out
      end
  end.

(** [&out[..20]] panics when there are fewer. *)
Definition decode_base32_20 (s : list Z) : option (result (list Z) MagnetError) :=
  match base32_loop s 0 0 [] with
  | Err e => Some (Err e)
  | Ok out => if zlen out <? 20 then None else Some (Ok (take 20 out))
  end.

Definition decode_info_hash (s : list Z) : option (result (list Z) MagnetError) :=
  if zlen s =? 40 then Some (decode_hex_20 s)
  else if zlen s =? 32 then decode_base32_20 s
  else Some (Err (BadInfoHashLength (zlen s))).

Definition decode_multihash_sha256 (text : list Z) : option (list Z) :=
  digits ← strip_prefix (str "1220") text;
  if negb (zlen digits =? 64) || negb (forallb (fun b => b <? 128) digits) then None
  else mapM (parse_hex 8) (as_chunks (length digits) 2 digits).

Fixpoint percent_decode_bytes (s : list Z) : result (list Z) MagnetError :=
  match s with
  | [] => Ok []
  | c :: rest =>
      if c =? 37 then
        match rest with
        | a :: b :: rest =>
            let? hi := match hex_nibble a with Ok d => Ok d | Err _ => Err InvalidPercentEncoding end in
            let? lo := match hex_nibble b with Ok d => Ok d | Err _ => Err InvalidPercentEncoding end in
            let? out := percent_decode_bytes rest in
            Ok (Z.lor (Z.shiftl hi 4) lo :: out)
        | _ => Err InvalidPercentEncoding
        end
      else let? out := percent_decode_bytes rest in Ok (c :: out)
  end.

Definition percent_decode (s : list Z) : result (list Z) MagnetError :=
  let? out := percent_decode_bytes s in Ok (from_utf8_lossy out).

(** ** The parameters *)

(** What the loop over the parameters has found so far. *)
Record Found : Type := mkFound {
  f_hash : option (list Z);
  f_other : option (list Z);
  f_v2 : option (list Z);
  f_name : option (list Z);
  f_trackers : list (list Z);
  f_peers : list SocketAddr;
  f_seeds : list (list Z);
  f_select : list Z
}.

Definition nothing_found : Found := mkFound None None None None [] [] [] [].

(** [if !list.contains(&x) { list.push(x) }]. *)
Definition push_new {A} `{EqDecision A} (l : list A) (x : A) : list A := if bool_decide (x ∈ l) then l else l ++ [x].

Definition base_key (key : list Z) : list Z :=
  match rsplit_once 46 key with
  | Some (k, n) => if negb (bool_decide (n = [])) && forallb is_ascii_digit n then k else key
  | None => key
  end.

Definition set_xt (f : Found) (value : list Z) : option (result Found MagnetError) :=
  let lower := to_ascii_lowercase value in
  match strip_prefix (str "urn:btih:") lower with
  | Some hash_str =>
      match f_hash f with
      | None =>
          let! h := decode_info_hash hash_str in
          Some (Ok (mkFound (Some h) (f_other f) (f_v2 f) (f_name f) (f_trackers f) (f_peers f) (f_seeds f) (f_select f)))
      | Some _ => Some (Ok f)
      end
  | None =>
      match (m ← strip_prefix (str "urn:btmh:") lower; decode_multihash_sha256 m) with
      | Some h =>
          Some (Ok (match f_v2 f with
                    | None => mkFound (f_hash f) (f_other f) (Some h) (f_name f) (f_trackers f) (f_peers f) (f_seeds f) (f_select f)
                    | Some _ => f
                    end))
      | None => Some (Ok (mkFound (f_hash f) (Some value) (f_v2 f) (f_name f) (f_trackers f) (f_peers f) (f_seeds f) (f_select f)))
      end
  end.

Definition is_http (u : list Z) : bool := starts_with (str "http://") u || starts_with (str "https://") u.

Definition take_param (f : Found) (key value : list Z) : option (result Found MagnetError) :=
  let k := base_key key in
  if bool_decide (k = str "xt") then set_xt f value
  else Some (Ok (
    if bool_decide (k = str "dn") then
      mkFound (f_hash f) (f_other f) (f_v2 f) (Some value) (f_trackers f) (f_peers f) (f_seeds f) (f_select f)
    else if bool_decide (k = str "tr") then
      mkFound (f_hash f) (f_other f) (f_v2 f) (f_name f) (push_new (f_trackers f) value) (f_peers f) (f_seeds f) (f_select f)
    else if bool_decide (k = str "x.pe") then
      match parse_socket_addr value with
      | Some a => mkFound (f_hash f) (f_other f) (f_v2 f) (f_name f) (f_trackers f) (push_new (f_peers f) a) (f_seeds f) (f_select f)
      | None => f
      end
    else if bool_decide (k = str "ws") then
      if is_http value then mkFound (f_hash f) (f_other f) (f_v2 f) (f_name f) (f_trackers f) (f_peers f) (push_new (f_seeds f) value) (f_select f) else f
    else if bool_decide (k = str "so") && bool_decide (f_select f = []) then
      mkFound (f_hash f) (f_other f) (f_v2 f) (f_name f) (f_trackers f) (f_peers f) (f_seeds f) (default [] (parse_select_only value))
    else f)).

Definition key_and_value (param : list Z) : list Z * list Z := default (param, []) (split_once [61] param).

Fixpoint params_loop (pairs : list (list Z)) (f : Found) : option (result Found MagnetError) :=
  match pairs with
  | [] => Some (Ok f)
  | param :: rest =>
      match param with
      | [] => params_loop rest f
      | _ =>
          let '(key, raw_value) := key_and_value param in
          let! value := Some (percent_decode raw_value) in
          let! f := take_param f key value in
          params_loop rest f
      end
  end.

Definition parse_magnet_uri (uri : list Z) : option (result MagnetLink MagnetError) :=
  let! query := Some (ok_or (strip_prefix (str "magnet:?") uri) NotAMagnetUri) in
  let! f := params_loop (split_on 38 query) nothing_found in
  let! h := Some (match f_hash f, f_v2 f, f_other f with
                  | Some h, _, _ => Ok h
                  | None, Some h2, _ => Ok (take 20 h2)
                  | None, None, Some other => Err (BadInfoHashEncoding other)
                  | None, None, None => Err MissingInfoHash
                  end) in
  Some (Ok (mkMagnetLink h (f_v2 f) (f_name f) (f_trackers f) (f_peers f) (f_seeds f) (f_select f))).

(** ** Mutable pointers (BEP 46) *)

Record MutablePointer : Type := mkMutablePointer {
  public_key : list Z;
  salt : option (list Z)
}.

Definition ok {A E} (r : result A E) : option A := match r with Ok a => Some a | Err _ => None end.

Definition decode_hex_bytes (s : list Z) : option (list Z) :=
  if negb (zlen s mod 2 =? 0) then None else ok (hex_pairs s).

Definition decode_hex_32 (s : list Z) : option (list Z) :=
  bytes ← decode_hex_bytes s; if zlen bytes =? 32 then Some bytes else None.

Fixpoint pointer_loop (pairs : list (list Z)) (key_ : option (list Z)) (salt_ : option (list Z)) : option (option (list Z) * option (list Z)) :=
  match pairs with
  | [] => Some (key_, salt_)
  | param :: rest =>
      match param with
      | [] => pointer_loop rest key_ salt_
      | _ =>
          let '(key, raw_value) := key_and_value param in
          value ← ok (percent_decode raw_value);
          if bool_decide (key = str "xs") && bool_decide (key_ = None) then
            digits ← strip_prefix (str "urn:btpk:") (to_ascii_lowercase value);
            if negb (zlen digits =? 64) then None
            else k ← decode_hex_32 digits; pointer_loop rest (Some k) salt_
          else if bool_decide (key = str "s") && bool_decide (salt_ = None) then
            s ← decode_hex_bytes value; pointer_loop rest key_ (Some s)
          else pointer_loop rest key_ salt_
      end
  end.

Definition parse_mutable_pointer (uri : list Z) : option MutablePointer :=
  query ← strip_prefix (str "magnet:?") uri;
  '(k, s) ← pointer_loop (split_on 38 query) None None;
  k ← k;
  Some (mkMutablePointer k s).

Example socket_addrs :
  parse_socket_addr (str "127.0.0.1:6881") = Some (V4 [127; 0; 0; 1] 6881) /\
  parse_socket_addr (str "[::1]:80") = Some (V6 [0; 0; 0; 0; 0; 0; 0; 0; 0; 0; 0; 0; 0; 0; 0; 1] 80 0 0) /\
  parse_socket_addr (str "[1:2::ffff:1.2.3.4%7]:65535") = Some (V6 [0; 1; 0; 2; 0; 0; 0; 0; 0; 0; 255; 255; 1; 2; 3; 4] 65535 0 7) /\
  parse_socket_addr (str "256.0.0.1:1") = None /\ parse_socket_addr (str "1.2.3.4:65536") = None /\ parse_socket_addr (str "01.2.3.4:5") = None.
Proof. vm_compute. done. Qed.

Example magnet_example :
  match parse_magnet_uri (str "magnet:?xt=urn:btih:0123456789abcdef0123456789ABCDEF01234567&dn=a%20b&tr.1=http%3A%2F%2Ft&x.pe=1.2.3.4:5&so=4-6,0,5") with
  | Some (Ok l) => display_name l = Some (str "a b") /\ m_trackers l = [str "http://t"] /\ m_peers l = [V4 [1; 2; 3; 4] 5] /\ select_only l = [0; 4; 5; 6]
  | _ => False
  end.
Proof. vm_compute. done. Qed.

(** ** Reading back what is written *)

Lemma nibbles b : u_ok 8 b -> 0 <= b / 16 < 16 /\ 0 <= b mod 16 < 16 /\ Z.lor (Z.shiftl (b / 16) 4) (b mod 16) = b.
Proof.
  unfold u_ok. change (2 ^ 8) with 256. intros Hb.
  assert (0 <= b / 16 < 16) by (split; [apply Z.div_pos; lia | apply Z.div_lt_upper_bound; lia]).
  pose proof (Z.mod_pos_bound b 16 ltac:(lia)). split_and!; try lia.
  rewrite Z.lor_comm, lor_high by (change (2 ^ 4) with 16; lia). change (2 ^ 4) with 16. pose proof (Z.div_mod b 16). lia.
Qed.

Lemma hex_nibble_16 d : 0 <= d < 16 -> hex_nibble (hex_upper d) = Ok d /\ hex_nibble (hex_digit d) = Ok d.
Proof.
  intros Hd. assert (forallb (fun d => bool_decide (ok (hex_nibble (hex_upper d)) = Some d) && bool_decide (ok (hex_nibble (hex_digit d)) = Some d)) (seqZ 0 16) = true) as H by done.
  rewrite forallb_forall in H. specialize (H d ltac:(apply list_elem_of_In, elem_of_seqZ; lia)).
  apply andb_true_iff in H as [H1%bool_decide_eq_true H2%bool_decide_eq_true].
  split; [destruct (hex_nibble (hex_upper d)) | destruct (hex_nibble (hex_digit d))]; by try injection H1 as ->; try injection H2 as ->.
Qed.

Lemma hex_pairs_hex h : bytes_ok h -> hex_pairs (info_hash_hex h) = Ok h.
Proof.
  induction 1 as [| b h Hb Hh IH]; [done |]. change (info_hash_hex (b :: h)) with (hex_digit (b / 16) :: hex_digit (b mod 16) :: info_hash_hex h).
  destruct (nibbles b Hb) as (H1 & H2 & H3). cbn [hex_pairs]. rewrite (proj2 (hex_nibble_16 _ H1)), (proj2 (hex_nibble_16 _ H2)). cbn [result_bind].
  rewrite IH. cbn [result_bind]. by rewrite H3.
Qed.

Lemma percent_decode_encode bs : bytes_ok bs -> percent_decode_bytes (percent_encode_bytes bs) = Ok bs.
Proof.
  induction 1 as [| b bs Hb Hbs IH]; [done |]. unfold percent_encode_bytes in *. cbn [flat_map]. destruct (unreserved b) eqn:E; cbn [app percent_decode_bytes].
  - rewrite (proj2 (Z.eqb_neq b 37)) by (by apply unreserved_not_percent). by rewrite IH.
  - destruct (nibbles b Hb) as (H1 & H2 & H3). rewrite (proj1 (hex_nibble_16 _ H1)), (proj1 (hex_nibble_16 _ H2)). cbn [Z.eqb Pos.eqb result_bind].
    rewrite IH. cbn [result_bind]. by rewrite H3.
Qed.

(** Characters that stand for themselves in a parameter. *)
Definition plain (b : Z) : Prop := 0 <= b < 128 /\ b <> 37 /\ b <> 38.

Lemma percent_decode_plain s : Forall plain s -> percent_decode_bytes s = Ok s.
Proof.
  induction 1 as [| b s (Hb & H37 & _) Hs IH]; [done |]. cbn [percent_decode_bytes]. rewrite (proj2 (Z.eqb_neq b 37)) by done. by rewrite IH.
Qed.

Lemma lossy_ascii s : Forall (fun b => 0 <= b < 128) s -> from_utf8_lossy s = s.
Proof.
  unfold from_utf8_lossy. induction 1 as [| b s Hb Hs IH]; [done |]. cbn [length lossy]. unfold utf8_step.
  rewrite (proj2 (Z.ltb_lt b 128)) by lia. cbn [take drop app]. by rewrite drop_0, take_0, IH.
Qed.

Lemma split_on_part c part rest : Forall (fun b => b <> c) part -> split_on c (part ++ c :: rest) = part :: split_on c rest.
Proof.
  induction 1 as [| b part Hb Hp IH]; [cbn; by rewrite Z.eqb_refl |]. cbn [app split_on]. rewrite (proj2 (Z.eqb_neq _ _)) by done. by rewrite IH.
Qed.

(** The parameters of a query, put together with [&], are taken apart. *)
Lemma split_on_join c parts : parts <> [] -> Forall (Forall (fun b => b <> c)) parts ->
  split_on c (match parts with p :: rest => p ++ concat ((fun q => c :: q) <$> rest) | [] => [] end) = parts.
Proof.
  intros Hne H. destruct H as [| p parts Hp H]; [done |]. clear Hne. revert p Hp. induction H as [| q parts Hq H IH]; intros p Hp.
  - cbn. rewrite app_nil_r. apply split_on_none. apply (Forall_impl _ _ _ Hp). intros b Hb. by apply Z.eqb_neq.
  - rewrite fmap_cons. cbn [concat app]. rewrite split_on_part by done. f_equal. by apply IH.
Qed.

Lemma encoded_plain bs : bytes_ok bs -> Forall (fun b => b <> 38 /\ 0 <= b < 128) (percent_encode_bytes bs).
Proof.
  intros H. unfold percent_encode_bytes. induction H as [| b bs Hb H IH]; [done |]. cbn [flat_map]. apply Forall_app. split; [| done].
  assert (forall x, unreserved x = true -> x <> 38 /\ 0 <= x < 128) as Hun.
  { intros x Hx. split; [by intros -> |]. unfold unreserved, is_ascii_alphanumeric, is_ascii_digit in Hx. lia. }
  destruct (unreserved b) eqn:E; [constructor; [by apply Hun | done] |]. destruct (nibbles b Hb) as (H1 & H2 & _).
  repeat constructor; try (apply Hun; by apply hex_upper_unreserved); lia.
Qed.

(** ** Base32 *)

Definition base32_value (s : list Z) : option Z :=
  fold_left (fun acc c => a ← acc; i ← base32_index (to_ascii_uppercase c); Some (a * 32 + i)) s (Some 0).

Lemma base32_index_bound c i : base32_index c = Some i -> 0 <= i < 32.
Proof.
  unfold base32_index. destruct (c <? 128); [| done]. destruct (list_find _ _) as [[k x] |] eqn:E; [| done]. intros [= <-].
  apply list_find_Some in E as (E & _). apply lookup_lt_Some in E. change (length BASE32_ALPHABET) with 32%nat in E. cbn. lia.
Qed.

(** A byte out of the top of the buffer. *)
Lemma split_byte x k : 0 <= k -> x mod 2 ^ (k + 8) = Z.land (Z.shiftr x k) 255 * 2 ^ k + x mod 2 ^ k.
Proof.
  intros Hk. rewrite Z.shiftr_div_pow2 by done. change 255 with (Z.ones 8). rewrite Z.land_ones by lia.
  rewrite Z.pow_add_r by lia. rewrite Z.rem_mul_r by (try apply Z.pow_nonzero; lia). lia.
Qed.

(** Five bits into the bottom of it. *)
Lemma push_bits buf cnt idx :
  0 <= cnt < 8 -> 0 <= idx < 32 ->
  Z.lor (wrap 64 (Z.shiftl buf 5)) idx mod 2 ^ (cnt + 5) = buf mod 2 ^ cnt * 32 + idx.
Proof.
  intros Hc Hi. rewrite Z.shiftl_mul_pow2 by lia. change (2 ^ 5) with 32. unfold wrap.
  replace (buf * 32 mod 2 ^ 64) with (Z.shiftl (buf mod 2 ^ 59) 5).
  2: { rewrite Z.shiftl_mul_pow2 by lia. change (2 ^ 64) with (2 ^ 59 * 2 ^ 5). change 32 with (2 ^ 5). by rewrite Z.mul_mod_distr_r by lia. }
  rewrite Z.lor_comm, lor_high by lia. change (2 ^ 5) with 32. rewrite Z.add_comm.
  assert (0 < 2 ^ cnt) by (apply Z.pow_pos_nonneg; lia). rewrite Z.pow_add_r by lia. change (2 ^ 5) with 32.
  assert ((buf mod 2 ^ 59) mod 2 ^ cnt = buf mod 2 ^ cnt) as Hmm.
  { rewrite <- Znumtheory.Zmod_div_mod; [done | done | lia |]. exists (2 ^ (59 - cnt)). rewrite <- Z.pow_add_r by lia. f_equal. lia. }
  rewrite <- Hmm. set (m := buf mod 2 ^ 59). symmetry. apply (Z.mod_unique_pos _ _ (m / 2 ^ cnt)).
  - pose proof (Z.mod_pos_bound m (2 ^ cnt)). nia.
  - pose proof (Z.div_mod m (2 ^ cnt)). nia.
Qed.

Lemma from_be_bytes_snoc out b : from_be_bytes (out ++ [b]) = from_be_bytes out * 256 + b.
Proof.
  assert (from_be_bytes [] = 0) as H0 by exact eq_refl.
  induction out as [| x out IH]; [cbn [app]; rewrite from_be_bytes_cons, H0, zlen_nil, Z.pow_0_r; lia |]. cbn [app]. rewrite !from_be_bytes_cons, IH, zlen_app.
  change (zlen [b]) with 1. pose proof (zlen_nonneg out). rewrite Z.pow_add_r by lia. change (256 ^ 1) with 256. ring.
Qed.

Lemma base32_none s : fold_left (fun acc c => a ← acc; i ← base32_index (to_ascii_uppercase c); Some (a * 32 + i)) s None = None.
Proof. by induction s. Qed.

(** The loop reads the digits as one number, most significant first. *)
Lemma base32_loop_value s buf cnt out v n :
  0 <= cnt < 8 -> bytes_ok out -> from_be_bytes out * 2 ^ cnt + buf mod 2 ^ cnt = v -> 8 * zlen out + cnt = 5 * n ->
  match fold_left (fun acc c => a ← acc; i ← base32_index (to_ascii_uppercase c); Some (a * 32 + i)) s (Some v) with
  | Some v' => exists out' cnt' buf', base32_loop s buf cnt out = Ok out' /\ bytes_ok out' /\ 0 <= cnt' < 8 /\
      from_be_bytes out' * 2 ^ cnt' + buf' mod 2 ^ cnt' = v' /\ 8 * zlen out' + cnt' = 5 * (n + zlen s)
  | None => base32_loop s buf cnt out = Err InvalidBase32Char
  end.
Proof.
  revert buf cnt out v n. induction s as [| c s IH]; intros buf cnt out v n Hc Hout Hv Hn; cbn [fold_left base32_loop].
  { exists out, cnt, buf. split_and!; try done; try lia. rewrite Hn. change (zlen (@nil Z)) with 0. lia. }
  cbn [mbind option_bind]. destruct (base32_index (to_ascii_uppercase c)) as [idx |] eqn:Hi; cbn [mbind option_bind]; [| by rewrite base32_none].
  apply base32_index_bound in Hi. set (buf1 := Z.lor (wrap 64 (Z.shiftl buf 5)) idx).
  pose proof (push_bits buf cnt idx Hc Hi) as Hb. fold buf1 in Hb. rewrite zlen_cons. replace (n + (1 + zlen s)) with (n + 1 + zlen s) by lia.
  assert (2 ^ (cnt + 5) = 2 ^ cnt * 32) as Hpow by (rewrite Z.pow_add_r by lia; done).
  destruct (Z.leb_spec 8 (cnt + 5)).
  - set (k := cnt + 5 - 8). pose proof (split_byte buf1 k ltac:(lia)) as Hs. replace (k + 8) with (cnt + 5) in Hs by lia.
    apply IH; [lia | | | rewrite zlen_app; change (zlen [Z.land (Z.shiftr buf1 k) 255]) with 1; lia].
    + apply Forall_app. split; [done |]. apply Forall_singleton. change 255 with (Z.ones 8). rewrite Z.land_ones by lia. apply Z.mod_pos_bound. lia.
    + rewrite from_be_bytes_snoc. assert (2 ^ k * 256 = 2 ^ (cnt + 5)) by (change 256 with (2 ^ 8); rewrite <- Z.pow_add_r by lia; f_equal; lia). nia.
  - apply IH; [lia | done | rewrite Hb; nia | lia].
Qed.

Lemma decode_base32_iff s h :
  zlen s = 32 -> length h = 20%nat -> bytes_ok h ->
  decode_base32_20 s = Some (Ok h) <-> base32_value s = Some (from_be_bytes h).
Proof.
  intros Hs Hh Hb. pose proof (base32_loop_value s 0 0 [] 0 0 ltac:(lia) ltac:(constructor) eq_refl eq_refl) as H. fold (base32_value s) in H.
  unfold decode_base32_20. destruct (base32_value s) as [v |]; [| rewrite H; split; done].
  destruct H as (out & cnt & buf & Hl & Ho & Hc & Hv & Hn). rewrite Hl. assert (cnt = 0 /\ zlen out = 20) as [-> Hlen] by lia.
  rewrite Hlen. cbn [Z.ltb Z.compare Pos.compare Pos.compare_cont]. rewrite take_ge by (unfold zlen in Hlen; lia).
  rewrite Z.mod_1_r, Z.add_0_r, Z.mul_1_r in Hv. split.
  - by intros [= ->]; rewrite Hv.
  - intros [= Heq]. do 2 f_equal. rewrite <- (to_from_be_bytes out Ho), <- (to_from_be_bytes h Hb), Hv, Heq. f_equal. unfold zlen in Hlen. lia.
Qed.

Lemma decode_base32_total s : zlen s = 32 -> exists r, decode_base32_20 s = Some r /\ match r with Ok h => length h = 20%nat /\ bytes_ok h | Err _ => True end.
Proof.
  intros Hs. pose proof (base32_loop_value s 0 0 [] 0 0 ltac:(lia) ltac:(constructor) eq_refl eq_refl) as H. unfold decode_base32_20.
  destruct (fold_left _ s (Some 0)) as [v |]; [| rewrite H; by eexists]. destruct H as (out & cnt & buf & -> & Ho & Hc & _ & Hn).
  assert (zlen out = 20) as Hlen by lia. rewrite Hlen. eexists. split; [done |].
  rewrite take_ge by (unfold zlen in Hlen; lia). split; [unfold zlen in Hlen; lia | done].
Qed.

(** ** What a link can hold *)

Lemma hex_pairs_bytes n s h : length s = (2 * n)%nat -> hex_pairs s = Ok h -> length h = n /\ bytes_ok h.
Proof.
  revert s h. induction n as [| n IH]; intros s h Hs H.
  - destruct s; [| simpl in Hs; lia]. injection H as <-. by split; [| constructor].
  - destruct s as [| a [| b s]]; [simpl in Hs; lia.. |]. cbn [hex_pairs] in H. apply result_bind_Ok in H as (hi & Hhi & H).
    apply result_bind_Ok in H as (lo & Hlo & H). apply result_bind_Ok in H as (out & Hout & H). injection H as <-.
    assert (forall c d, hex_nibble c = Ok d -> 0 <= d < 16) as Hnib.
    { intros c d. unfold hex_nibble. destruct ((48 <=? c) && (c <=? 57)) eqn:E1; [intros [= <-]; lia |].
      destruct ((97 <=? c) && (c <=? 102)) eqn:E2; [intros [= <-]; lia |]. destruct ((65 <=? c) && (c <=? 70)) eqn:E3; [intros [= <-]; lia | done]. }
    apply Hnib in Hhi, Hlo. destruct (IH s out) as [Hl Hb]; [simpl in Hs; lia | done |]. split; [simpl; lia |].
    constructor; [| done]. unfold u_ok. rewrite Z.lor_comm, lor_high by (change (2 ^ 4) with 16; lia). change (2 ^ 4) with 16. change (2 ^ 8) with 256. lia.
Qed.

Lemma decode_info_hash_total s : exists r, decode_info_hash s = Some r /\ match r with Ok h => length h = 20%nat /\ bytes_ok h | Err _ => True end.
Proof.
  unfold decode_info_hash. destruct (Z.eqb_spec (zlen s) 40) as [H40 |].
  - eexists. split; [done |]. destruct (decode_hex_20 s) as [h |] eqn:E; [| done]. unfold decode_hex_20 in E.
    apply (hex_pairs_bytes 20) in E; [done |]. rewrite length_take. unfold zlen in H40. lia.
  - destruct (Z.eqb_spec (zlen s) 32); [by apply decode_base32_total | by eexists].
Qed.

Lemma hex_digits_nonneg s acc z : 0 <= acc -> hex_digits acc s = Some z -> 0 <= z.
Proof.
  revert acc. induction s as [| b s IH]; intros acc Ha H; cbn in H; [by injection H as <- |].
  destruct (hex_value b) as [d |] eqn:E; [| done]. apply IH in H; [done |].
  unfold hex_value, is_ascii_digit in E. destruct ((48 <=? b) && (b <=? 57)) eqn:E1; [injection E as <-; lia |].
  destruct ((97 <=? b) && (b <=? 102)) eqn:E2; [injection E as <-; lia |]. destruct ((65 <=? b) && (b <=? 70)) eqn:E3; [injection E as <-; lia | done].
Qed.

Lemma parse_hex_byte s z : parse_hex 8 s = Some z -> u_ok 8 z.
Proof.
  unfold parse_hex. generalize (match s with 43 :: r => r | _ => s end). intros ds H. destruct ds as [| b ds]; [done |].
  destruct (hex_digits 0 (b :: ds)) as [v |] eqn:E; [| done]. destruct (Z.leb_spec v (u_max 8)); [| done]. injection H as <-.
  apply hex_digits_nonneg in E; [| done]. unfold u_ok, u_max in *. lia.
Qed.

Lemma multihash_bytes text h : decode_multihash_sha256 text = Some h -> length h = 32%nat /\ bytes_ok h.
Proof.
  unfold decode_multihash_sha256. intros H. apply bind_Some in H as (ds & _ & H). destruct (Z.eqb_spec (zlen ds) 64) as [Hl |]; [| done].
  cbn [negb orb] in H. destruct (forallb _ _); [| done]. cbn [negb] in H. apply mapM_Some in H as Hm.
  assert (length (as_chunks (length ds) 2 ds) = 32%nat) as Hc.
  { unfold zlen in Hl. assert (length ds = 64%nat) as H64 by lia. rewrite H64. do 64 (destruct ds as [| ? ds]; [simpl in H64; lia |]). destruct ds; [done | simpl in H64; lia]. }
  split; [by rewrite <- (Forall2_length _ _ _ Hm) |]. apply Forall_lookup. intros i z Hz.
  destruct (Forall2_lookup_r _ _ _ i z Hm Hz) as (c & _ & Hp). by apply parse_hex_byte in Hp.
Qed.

(** A selection: in order, without repeats, and no longer than it may be. *)
Definition selection_ok (l : list Z) : Prop := StronglySorted Z.lt l /\ Forall (fun i => 0 <= i) l /\ zlen l <= MAX_SELECTED_FILES.

Lemma parse_u_nonneg w s z : parse_u w s = Some z -> 0 <= z <= u_max w.
Proof.
  unfold parse_u. generalize (match s with 43 :: r => r | _ => s end). intros ds H. destruct (parse_digits ds) as [v |] eqn:E; [| done].
  destruct (Z.leb_spec v (u_max w)); [| done]. injection H as <-. split; [| done]. unfold parse_digits in E. destruct ds as [| b r]; [done |].
  destruct (forallb is_ascii_digit (b :: r)) eqn:Hf; [| done]. injection E as <-.
  apply digits_value_nonneg, Forall_forall. intros x Hx. rewrite forallb_forall in Hf. by apply Hf, list_elem_of_In.
Qed.

Lemma parse_range_nonneg part a b : parse_range part = Some (a, b) -> 0 <= a <= u_max 64 /\ 0 <= b <= u_max 64.
Proof.
  unfold parse_range. destruct (split_once _ _) as [[x y] |]; intros H.
  - apply bind_Some in H as (f & Hf & H). apply bind_Some in H as (l & Hl & H). injection H as <- <-. split; by eapply parse_u_nonneg.
  - apply bind_Some in H as (i & Hi & H). injection H as <- <-. split; by eapply parse_u_nonneg.
Qed.

Lemma select_parts_ok parts acc l :
  Forall (fun i => 0 <= i) acc -> zlen acc <= MAX_SELECTED_FILES -> select_parts parts acc = Some l ->
  Forall (fun i => 0 <= i) l /\ zlen l <= MAX_SELECTED_FILES.
Proof.
  revert acc. induction parts as [| part parts IH]; intros acc Hacc Hlen H; cbn [select_parts] in H; [by injection H as <- |].
  apply bind_Some in H as ([a b] & Hr & H). apply parse_range_nonneg in Hr as [Ha Hb].
  destruct (Z.ltb_spec b a); [done |]. cbn [orb] in H. pose proof (zlen_nonneg acc). unfold wrap, MAX_SELECTED_FILES in *.
  rewrite Z.mod_small in H by lia. destruct (Z.leb_spec (2 ^ 16 - zlen acc) (b - a)); [done |]. apply IH in H; [done | |].
  - apply Forall_app. split; [done |]. apply Forall_forall. intros i Hi%elem_of_seqZ. lia.
  - rewrite zlen_app. unfold zlen at 2. rewrite length_seqZ. lia.
Qed.

Lemma dedup_Z_cons x l : dedup_Z (x :: l) = match l with y :: _ => if x =? y then dedup_Z l else x :: dedup_Z l | [] => [x] end.
Proof. by destruct l. Qed.

Lemma dedup_Z_sorted l :
  StronglySorted Z.le l -> StronglySorted Z.lt (dedup_Z l) /\ (forall x, x ∈ dedup_Z l <-> x ∈ l) /\ (length (dedup_Z l) <= length l)%nat.
Proof.
  induction 1 as [| x l Hl (IHs & IHe & IHn) Hx]; [split_and!; [constructor | done | done] |]. rewrite dedup_Z_cons. destruct l as [| y l].
  { split_and!; [by repeat constructor | done | done]. }
  destruct (Z.eqb_spec x y) as [-> | Hne].
  - split_and!; [done | | simpl in *; lia]. intros z. rewrite IHe, !elem_of_cons. naive_solver.
  - split_and!; [| | simpl in *; lia].
    + constructor; [done |]. apply Forall_forall. intros z Hz. apply IHe in Hz. rewrite Forall_forall in Hx. pose proof (Hx z Hz).
      assert (x <> z); [| lia]. intros <-. apply elem_of_cons in Hz as [Hz | Hz]; [done |]. pose proof (Hx y ltac:(by left)).
      apply StronglySorted_inv in Hl as [_ Hy]. rewrite Forall_forall in Hy. pose proof (Hy x Hz). lia.
    + intros z. rewrite !elem_of_cons, IHe, elem_of_cons. done.
Qed.

Lemma parse_select_only_ok v l : parse_select_only v = Some l -> selection_ok l.
Proof.
  unfold parse_select_only. intros H. apply bind_Some in H as (is_ & His & H). injection H as <-.
  apply select_parts_ok in His as [Hpos Hlen]; [| constructor | done].
  pose proof (merge_sort_Permutation Z.le is_) as Hp.
  assert (StronglySorted Z.le (merge_sort Z.le is_)) as Hs by (apply StronglySorted_merge_sort; apply _).
  destruct (dedup_Z_sorted _ Hs) as (H1 & H2 & H3). split; [done |]. split.
  - apply Forall_forall. intros i Hi. apply H2 in Hi. rewrite Hp in Hi. rewrite Forall_forall in Hpos. by apply Hpos.
  - apply Permutation_length in Hp. unfold zlen in *. lia.
Qed.

Record found_ok (f : Found) : Prop := {
  fok_hash : match f_hash f with Some h => length h = 20%nat /\ bytes_ok h | None => True end;
  fok_v2 : match f_v2 f with Some h => length h = 32%nat /\ bytes_ok h | None => True end;
  fok_trackers : NoDup (f_trackers f);
  fok_peers : NoDup (f_peers f);
  fok_seeds : NoDup (f_seeds f) /\ Forall (fun u => is_http u = true) (f_seeds f);
  fok_select : selection_ok (f_select f)
}.

Lemma push_new_list_nodup {A} `{EqDecision A} (l : list A) x : NoDup l -> NoDup (push_new l x).
Proof.
  intros H. unfold push_new. case_bool_decide; [done |]. apply NoDup_app. split_and!; [done | | apply NoDup_singleton].
  intros y Hy Hy'. apply list_elem_of_singleton in Hy' as ->. done.
Qed.

Lemma set_xt_ok f v : found_ok f -> exists r, set_xt f v = Some r /\ match r with Ok f' => found_ok f' | Err _ => True end.
Proof.
  intros Hf. unfold set_xt. destruct (strip_prefix (str "urn:btih:") _) as [hs |].
  - destruct (f_hash f); [by eexists |]. destruct (decode_info_hash_total hs) as (r & -> & Hr). destruct r as [h |]; [| by eexists].
    eexists. split; [done |]. destruct Hf. by split.
  - destruct (m ← _; decode_multihash_sha256 m) as [h |] eqn:E.
    + eexists. split; [done |]. destruct (f_v2 f) eqn:Ev; [done |]. apply bind_Some in E as (m & _ & E). apply multihash_bytes in E. destruct Hf. by split.
    + eexists. split; [done |]. destruct Hf. by split.
Qed.

Lemma take_param_ok f k v : found_ok f -> exists r, take_param f k v = Some r /\ match r with Ok f' => found_ok f' | Err _ => True end.
Proof.
  intros Hf. unfold take_param. destruct (bool_decide _); [by apply set_xt_ok |]. eexists. split; [done |].
  destruct (bool_decide _); [destruct Hf; by split |]. destruct (bool_decide _); [destruct Hf; split; try done; by apply push_new_list_nodup |].
  destruct (bool_decide _). { destruct (parse_socket_addr v); [| done]. destruct Hf; split; try done; by apply push_new_list_nodup. }
  destruct (bool_decide _).
  { destruct (is_http v) eqn:Hh; [| done]. destruct Hf as [? ? ? ? [Hn Ha] ?]; split; try done; cbn [f_seeds]. split; [by apply push_new_list_nodup |].
    unfold push_new. case_bool_decide; [done |]. apply Forall_app. split; [done | by constructor]. }
  destruct (_ && _); [| done]. destruct Hf; split; try done. cbn [f_select]. destruct (parse_select_only v) as [l |] eqn:E; [by apply parse_select_only_ok in E |].
  split; [constructor |]. split; [constructor | done].
Qed.

Lemma params_loop_ok pairs f : found_ok f -> exists r, params_loop pairs f = Some r /\ match r with Ok f' => found_ok f' | Err _ => True end.
Proof.
  revert f. induction pairs as [| p pairs IH]; intros f Hf; [by eexists |]. cbn [params_loop]. destruct p as [| c p]; [by apply IH |].
  destruct (key_and_value (c :: p)) as [k raw]. destruct (percent_decode raw) as [v |]; [| by eexists]. cbn [fuelled_bind].
  destruct (take_param_ok f k v Hf) as (r & -> & Hr). destruct r as [f' |]; [by apply IH | by eexists].
Qed.

(** ** A link made for a torrent *)

Definition magnet_parts (text : list Z) (trs : list (list Z)) : list (list Z) :=
  (str "xt=urn:btih:" ++ text) :: ((fun u => str "tr=" ++ percent_encode_bytes u) <$> trs).

Definition magnet_of (text : list Z) (trs : list (list Z)) : list Z :=
  str "magnet:?xt=urn:btih:" ++ text ++ concat ((fun u => str "&tr=" ++ percent_encode_bytes u) <$> trs).

(** The hash in hexadecimal, or any base32 text of it. *)
Definition hash_text (h text : list Z) : Prop :=
  text = info_hash_hex h \/ (zlen text = 32 /\ base32_value text = Some (from_be_bytes h)).

Lemma upper_lower b : to_ascii_uppercase (if (65 <=? b) && (b <=? 90) then b + 32 else b) = to_ascii_uppercase b.
Proof. unfold to_ascii_uppercase. destruct ((65 <=? b) && (b <=? 90)) eqn:E; [| done]. destruct ((97 <=? b + 32) && (b + 32 <=? 122)) eqn:E1; destruct ((97 <=? b) && (b <=? 122)) eqn:E2; lia. Qed.

Lemma base32_value_lower s : base32_value (to_ascii_lowercase s) = base32_value s.
Proof.
  unfold base32_value, to_ascii_lowercase. generalize (Some 0). induction s as [| b s IH]; intros acc; [done |].
  rewrite fmap_cons. cbn [fold_left]. by rewrite upper_lower.
Qed.

Lemma base32_chars s v : base32_value s = Some v -> Forall plain s.
Proof.
  unfold base32_value. generalize 0. induction s as [| b s IH]; intros a H; [done |]. cbn [fold_left mbind option_bind] in H.
  destruct (base32_index (to_ascii_uppercase b)) as [i |] eqn:E; cbn [mbind option_bind] in H; [| by rewrite base32_none in H].
  constructor; [| by eapply IH]. unfold base32_index in E. destruct (_ <? 128); [| done]. destruct (list_find _ _) as [[k x] |] eqn:F; [| done].
  apply list_find_Some in F as (F & -> & _). assert (forallb (fun x => (50 <=? x) && (x <=? 90)) BASE32_ALPHABET = true) as Hr by done.
  rewrite forallb_forall in Hr. apply list_elem_of_lookup_2, list_elem_of_In, Hr in F. unfold to_ascii_uppercase in F. unfold plain. destruct ((97 <=? b) && (b <=? 122)) eqn:E2; lia.
Qed.

Lemma info_hash_hex_chars h : bytes_ok h -> Forall plain (info_hash_hex h) /\ to_ascii_lowercase (info_hash_hex h) = info_hash_hex h.
Proof.
  intros Hb. assert (Forall (fun b => 48 <= b <= 57 \/ 97 <= b <= 102) (info_hash_hex h)) as Hc.
  { unfold info_hash_hex. induction Hb as [| b h Hb Hh IH]; [done |]. cbn [flat_map]. apply Forall_app. split; [| done].
    destruct (nibbles b Hb) as (H1 & H2 & _). unfold hex_digit. destruct (Z.ltb_spec (b / 16) 10), (Z.ltb_spec (b mod 16) 10); repeat constructor; lia. }
  split; [apply (Forall_impl _ _ _ Hc); unfold plain; intros b Hb'; lia |].
  unfold to_ascii_lowercase. clear Hb. induction Hc as [| b s Hb Hs IH]; [done |]. rewrite fmap_cons, IH. f_equal.
  destruct ((65 <=? b) && (b <=? 90)) eqn:E; [lia | done].
Qed.

Lemma length_info_hash_hex h : length (info_hash_hex h) = (2 * length h)%nat.
Proof. unfold info_hash_hex. induction h as [| b h IH]; [done |]. cbn [flat_map]. rewrite length_app, IH. cbn. lia. Qed.

(** Either text is read as the hash. *)
Lemma hash_text_read h text :
  length h = 20%nat -> bytes_ok h -> hash_text h text -> Forall plain text /\ decode_info_hash (to_ascii_lowercase text) = Some (Ok h).
Proof.
  intros Hl Hb [-> | [Hlen Hv]].
  - destruct (info_hash_hex_chars h Hb) as [Hp ->]. split; [done |]. unfold decode_info_hash, decode_hex_20. unfold zlen. rewrite length_info_hash_hex, Hl.
    cbn [Z.of_nat]. rewrite take_ge by (rewrite length_info_hash_hex; lia). by rewrite hex_pairs_hex.
  - split; [by apply (base32_chars text (from_be_bytes h)) |]. unfold decode_info_hash.
    assert (zlen (to_ascii_lowercase text) = 32) as Hz by (unfold zlen, to_ascii_lowercase; by rewrite length_fmap).
    rewrite Hz. cbn [Z.eqb Pos.eqb]. apply decode_base32_iff; [done | done | done |]. by rewrite base32_value_lower.
Qed.

Lemma forallb_ne c s : forallb (fun b => negb (b =? c)) s = true -> Forall (fun b => b <> c) s.
Proof. intros H. apply Forall_forall. intros b Hb. rewrite forallb_forall in H. apply list_elem_of_In, H in Hb. lia. Qed.

Lemma forallb_plain s : forallb (fun b => (0 <=? b) && (b <? 128) && negb (b =? 37) && negb (b =? 38)) s = true -> Forall plain s.
Proof. intros H. apply Forall_forall. intros b Hb. rewrite forallb_forall in H. apply list_elem_of_In, H in Hb. unfold plain. lia. Qed.

Definition found_with (h : list Z) (trs : list (list Z)) : Found := mkFound (Some h) None None None trs [] [] [].

Lemma trackers_read h trs before :
  NoDup (before ++ trs) -> Forall (fun u => bytes_ok u /\ utf8_valid (length u) u = true) trs ->
  params_loop ((fun u => str "tr=" ++ percent_encode_bytes u) <$> trs) (found_with h before) = Some (Ok (found_with h (before ++ trs))).
Proof.
  revert before. induction trs as [| u trs IH]; intros before Hn Hu; [by rewrite app_nil_r |]. apply Forall_cons in Hu as [[Hb Hutf] Hu].
  rewrite fmap_cons. change (str "tr=" ++ percent_encode_bytes u) with (116 :: 114 :: 61 :: percent_encode_bytes u).
  cbn [params_loop]. change (key_and_value _) with (str "tr", percent_encode_bytes u).
  unfold percent_decode. rewrite percent_decode_encode by done. cbn [result_bind fuelled_bind]. unfold from_utf8_lossy. rewrite lossy_valid by done.
  change (take_param (found_with h before) (str "tr") u) with (Some (Ok (found_with h (push_new before u)) : result Found MagnetError)).
  cbn [fuelled_bind]. unfold push_new. rewrite bool_decide_false.
  - cbv iota. rewrite IH; [by rewrite <- app_assoc | by rewrite <- app_assoc | done].
  - intros Hin. apply NoDup_app in Hn as (_ & Hd & _). apply (Hd u Hin). by left.
Qed.

(** What the parser returns on any string. *)
Lemma parse_magnet_ok (uri : list Z) :
  exists r, parse_magnet_uri uri = Some r /\
    match r with
    | Err _ => True
    | Ok l => length (m_info_hash l) = 20%nat /\ bytes_ok (m_info_hash l) /\
        match m_info_hash_v2 l with Some h2 => length h2 = 32%nat /\ bytes_ok h2 | None => True end /\
        NoDup (m_trackers l) /\ NoDup (m_peers l) /\ NoDup (m_web_seeds l) /\ Forall (fun u => is_http u = true) (m_web_seeds l) /\
        StronglySorted Z.lt (select_only l) /\ Forall (fun i => 0 <= i) (select_only l) /\ zlen (select_only l) <= MAX_SELECTED_FILES
    end.
Proof.
  unfold parse_magnet_uri. destruct (strip_prefix (str "magnet:?") uri) as [q |]; [| by eexists]. cbn [ok_or fuelled_bind].
  destruct (params_loop_ok (split_on 38 q) nothing_found) as (r & -> & Hr).
  { split; try done; try constructor; try constructor; try constructor. done. }
  destruct r as [f |]; [| by eexists]. cbn [fuelled_bind]. destruct Hr as [Hh Hv Ht Hp [Hs Hw] (Hl1 & Hl2 & Hl3)].
  destruct (f_hash f) as [h |]; [eexists; split; [done |]; cbn; by split_and!; try apply Hh |].
  destruct (f_v2 f) as [h2 |] eqn:E2; [| destruct (f_other f); by eexists].
  eexists. split; [done |]. cbn [m_info_hash m_info_hash_v2 m_trackers m_peers m_web_seeds select_only fuelled_bind]. destruct Hv as [Hv1 Hv2].
  split_and!; try done; [rewrite length_take; lia | by apply Forall_take].
Qed.

(** ** Properties *)

(** C38: No link, however hostile, panics the parser or makes it hold more than
    it may: [parse_magnet_uri] ends on every string, and a link it accepts has
    an info hash of 20 bytes (and of 32 for v2), no tracker, peer or web seed
    twice, web seeds only over HTTP, and a selection in strictly increasing
    order of at most 65536 files, whatever ranges it was written with. *)
Theorem magnet_link_bounded (uri : list Z) :
  exists r, parse_magnet_uri uri = Some r /\
    match r with
    | Err _ => True
    | Ok l => length (m_info_hash l) = 20%nat /\ bytes_ok (m_info_hash l) /\
        match m_info_hash_v2 l with Some h2 => length h2 = 32%nat /\ bytes_ok h2 | None => True end /\
        NoDup (m_trackers l) /\ NoDup (m_peers l) /\ NoDup (m_web_seeds l) /\ Forall (fun u => is_http u = true) (m_web_seeds l) /\
        StronglySorted Z.lt (select_only l) /\ Forall (fun i => 0 <= i) (select_only l) /\ zlen (select_only l) <= MAX_SELECTED_FILES
    end.
Proof. apply parse_magnet_ok. Qed.

(** A link to a torrent is read as that torrent.  For any info hash, the
    link made of it in hexadecimal (as [info_hash_hex] prints it) or in base32,
    in either case of letters, with any distinct tracker URLs
    percent-encoded, is parsed to that hash and those trackers, in order. *)
Theorem magnet_roundtrip (h text : list Z) (trs : list (list Z))
    (Hl : length h = 20%nat) (Hb : bytes_ok h) (Ht : hash_text h text)
    (Hn : NoDup trs) (Hu : Forall (fun u => bytes_ok u /\ utf8_valid (length u) u = true) trs) :
  parse_magnet_uri (magnet_of text trs) = Some (Ok (mkMagnetLink h None None trs [] [] [])).
Proof.
  destruct (hash_text_read h text Hl Hb Ht) as [Hp Hd]. unfold parse_magnet_uri, magnet_of.
  change (str "magnet:?xt=urn:btih:") with (str "magnet:?" ++ str "xt=urn:btih:"). rewrite <- app_assoc, strip_prefix_app. cbn [ok_or fuelled_bind].
  assert (split_on 38 (str "xt=urn:btih:" ++ text ++ concat ((fun u => str "&tr=" ++ percent_encode_bytes u) <$> trs)) = magnet_parts text trs) as ->.
  { rewrite app_assoc. etransitivity; [| apply (split_on_join 38 (magnet_parts text trs)); [done |]].
    - unfold magnet_parts. by rewrite <- list_fmap_compose.
    - unfold magnet_parts. constructor.
      + apply Forall_app. split; [by apply (forallb_ne 38) |]. apply (Forall_impl _ _ _ Hp). by intros b (_ & _ & ?).
      + apply Forall_fmap, (Forall_impl _ _ _ Hu). intros u [Hbu _]. apply Forall_app. split; [by apply (forallb_ne 38) |].
        apply (Forall_impl _ _ _ (encoded_plain u Hbu)). by intros b [? _]. }
  unfold magnet_parts. change (str "xt=urn:btih:" ++ text) with (120 :: 116 :: 61 :: (str "urn:btih:" ++ text)).
  cbn [params_loop]. change (key_and_value _) with (str "xt", str "urn:btih:" ++ text).
  assert (Forall plain (str "urn:btih:" ++ text)) as Hpv by (apply Forall_app; split; [by apply forallb_plain | done]).
  unfold percent_decode. rewrite percent_decode_plain by done. cbn [result_bind fuelled_bind].
  rewrite lossy_ascii by (apply (Forall_impl _ _ _ Hpv); by intros b [? _]).
  assert (take_param nothing_found (str "xt") (str "urn:btih:" ++ text) = Some (Ok (found_with h []))) as ->.
  { change (take_param nothing_found (str "xt") (str "urn:btih:" ++ text)) with (set_xt nothing_found (str "urn:btih:" ++ text)). unfold set_xt.
    unfold to_ascii_lowercase at 1. rewrite fmap_app. fold (to_ascii_lowercase text).
    change (fmap _ (str "urn:btih:")) with (str "urn:btih:"). rewrite strip_prefix_app. cbn [f_hash nothing_found]. by rewrite Hd. }
  cbn [fuelled_bind]. rewrite trackers_read by done. done.
Qed.

Lemma magnet_roundtrip_witness :
  parse_magnet_uri (magnet_of (info_hash_hex (replicate 20 171)) [str "http://t/announce?k=%"; str "udp://u:80"]) =
    Some (Ok (mkMagnetLink (replicate 20 171) None None [str "http://t/announce?k=%"; str "udp://u:80"] [] [] [])) /\
  parse_magnet_uri (magnet_of (str "aaaaaaaaaaaaaaaaaaaaaaaaaaaaaaaa") []) = Some (Ok (mkMagnetLink (replicate 20 0) None None [] [] [] [])).
Proof.
  split; apply magnet_roundtrip; try reflexivity.
  - apply Forall_replicate. unfold u_ok. lia.
  - left. reflexivity.
  - apply NoDup_cons. split; [| apply NoDup_singleton]. intros H%list_elem_of_singleton. discriminate.
  - repeat constructor; vm_compute; try discriminate; reflexivity.
  - apply Forall_replicate. unfold u_ok. lia.
  - right. split; reflexivity.
  - constructor.
  - constructor.
Defined.

(** A multihash of plus signs: [u8::from_str_radix] takes a sign where a digit
    should be. *)
Lemma multihash_takes_signs : decode_multihash_sha256 (str "1220" ++ concat (replicate 32 (str "+a"))) = Some (replicate 32 10).
Proof. reflexivity. Qed.
