(* ===== verification/Json.v ===== *)
(** * Flat JSON objects

    Models [src/src/json.rs]: the writer of one-line objects and the strict
    reader of the same.  A string is the list of its characters' code points.
    The texts of errors are left out: a failure is [None].  The digits Rust
    prints for a float are the parameter [format_float]. *)

From Stdlib Require Import SpecFloat.
From S2P Require Import Prelude Str Numeral BTree F64.

(** ** Writing *)

Definition hex_lower (d : Z) : Z := if d <? 10 then 48 + d else 87 + d.

(** [{:04x}] of a character below 32. *)
Definition escape_char (c : Z) : list Z :=
  if c =? 34 then [92; 34]
  else if c =? 92 then [92; 92]
  else if c =? 10 then [92; 110]
  else if c =? 13 then [92; 114]
  else if c =? 9 then [92; 116]
  else if c =? 8 then [92; 98]
  else if c =? 12 then [92; 102]
  else if c <? 32 then [92; 117; 48; 48; hex_lower (c / 16); hex_lower (c mod 16)]
  else [c].

Definition escape (s : list Z) : list Z := flat_map escape_char s.

(** [Object]: what is written so far. *)
Definition obj_new : list Z := [].

Definition obj_key (buf key : list Z) : list Z :=
  buf ++ (match buf with [] => [] | _ => [44] end) ++ [34] ++ escape key ++ [34; 58].

Definition obj_string (buf key value : list Z) : list Z := obj_key buf key ++ [34] ++ escape value ++ [34].
Definition obj_null (buf key : list Z) : list Z := obj_key buf key ++ str "null".
Definition obj_opt_string (buf key : list Z) (value : option (list Z)) : list Z :=
  match value with Some v => obj_string buf key v | None => obj_null buf key end.
Definition obj_uint (buf key : list Z) (value : Z) : list Z := obj_key buf key ++ u_to_string value.
Definition obj_opt_uint (buf key : list Z) (value : option Z) : list Z :=
  match value with Some v => obj_uint buf key v | None => obj_null buf key end.
Definition obj_boolean (buf key : list Z) (value : bool) : list Z := obj_key buf key ++ (if value then str "true" else str "false").

Definition f_is_finite (x : f64) : bool := match x with S754_zero _ | S754_finite _ _ _ => true | _ => false end.

Definition obj_float (format_float : f64 -> nat -> list Z) (buf key : list Z) (value : f64) (decimals : nat) : list Z :=
  if f_is_finite value then obj_key buf key ++ format_float value decimals else obj_null buf key.

Definition obj_finish (buf : list Z) : list Z := [123] ++ buf ++ [125].

(** ** Reading *)

Inductive Value : Type :=
| VString (s : list Z)
| VNumber (n : f64)
| VBool (b : bool)
| VNull.

Definition v_as_str (v : Value) : option (list Z) := match v with VString s => Some s | _ => None end.
Definition v_as_f64 (v : Value) : option f64 := match v with VNumber n => Some n | _ => None end.
Definition v_as_bool (v : Value) : option bool := match v with VBool b => Some b | _ => None end.

(** [text.parse::<f64>()] of [m * 10^e]: the nearest double.  A quotient keeps
    more bits than a double has, and a last bit for what is left over. *)
Definition f_of_decimal (m e : Z) : f64 :=
  if 0 <=? e then f_of_Z (m * 10 ^ e)
  else
    let d := 10 ^ (- e) in
    let s := Z.max 0 (Z.log2 d - Z.log2 m + 66) in
    let q := m * 2 ^ s / d in
    f_scaled (2 * q + (if m * 2 ^ s mod d =? 0 then 0 else 1)) (- s - 1).

Definition is_ws (c : Z) : bool := (c =? 32) || (c =? 9) || (c =? 10) || (c =? 13).

Fixpoint skip_ws (s : list Z) : list Z := match s with c :: r => if is_ws c then skip_ws r else s | [] => [] end.

Definition expect (want : Z) (s : list Z) : option (list Z) := match s with c :: r => if c =? want then Some r else None | [] => None end.

Fixpoint literal (word s : list Z) : option (list Z) :=
  match word with
  | [] => Some s
  | w :: word' => s ← expect w s; literal word' s
  end.

Fixpoint digits (s : list Z) : list Z * list Z :=
  match s with
  | c :: r => if is_ascii_digit c then let '(ds, rest) := digits r in (c :: ds, rest) else ([], s)
  | [] => ([], [])
  end.

(** Digits where at least one must be. *)
Definition some_digits (s : list Z) : option (list Z * list Z) :=
  match digits s with ([], _) => None | r => Some r end.

Definition int_part (s : list Z) : option (list Z * list Z) :=
  match s with
  | 48 :: r => match r with c :: _ => if is_ascii_digit c then None else Some ([48], r) | [] => Some ([48], r) end
  | _ => some_digits s
  end.

Definition frac_part (s : list Z) : option (list Z * list Z) :=
  match s with 46 :: r => some_digits r | _ => Some ([], s) end.

Definition exp_part (s : list Z) : option (Z * list Z) :=
  match s with
  | c :: r =>
      if (c =? 101) || (c =? 69) then
        let '(neg, r) := match r with 45 :: r' => (true, r') | 43 :: r' => (false, r') | _ => (false, r) end in
        '(ds, rest) ← some_digits r;
        Some ((if (neg : bool) then - digits_value ds else digits_value ds), rest)
      else Some (0, s)
  | [] => Some (0, s)
  end.

Definition f_neg (x : f64) : f64 := SFopp x.

Definition number (s : list Z) : option (Value * list Z) :=
  let '(neg, s) := match s with 45 :: r => (true, r) | _ => (false, s) end in
  '(int_, s) ← int_part s;
  '(frac, s) ← frac_part s;
  '(e, s) ← exp_part s;
  let x := f_of_decimal (digits_value (int_ ++ frac)) (e - zlen frac) in
  Some (VNumber (if (neg : bool) then f_neg x else x), s).

Definition to_digit16 (c : Z) : option Z :=
  if is_ascii_digit c then Some (c - 48)
  else if (97 <=? c) && (c <=? 102) then Some (c - 87)
  else if (65 <=? c) && (c <=? 70) then Some (c - 55)
  else None.

Definition hex4 (s : list Z) : option (Z * list Z) :=
  match s with
  | a :: b :: c :: d :: r =>
      a ← to_digit16 a; b ← to_digit16 b; c ← to_digit16 c; d ← to_digit16 d;
      Some (((a * 16 + b) * 16 + c) * 16 + d, r)
  | _ => None
  end.

(** [char::from_u32]. *)
Definition is_scalar (c : Z) : bool := (0 <=? c) && (c <=? 0x10FFFF) && negb ((0xD800 <=? c) && (c <=? 0xDFFF)).

Definition unicode_escape (s : list Z) : option (Z * list Z) :=
  '(first, s) ← hex4 s;
  '(code, s) ←
    (if (0xD800 <=? first) && (first <=? 0xDBFF) then
       s ← expect 92 s;
       s ← expect 117 s;
       '(second, s) ← hex4 s;
       if (0xDC00 <=? second) && (second <=? 0xDFFF) then Some (0x10000 + Z.shiftl (first - 0xD800) 10 + (second - 0xDC00), s) else None
     else if (0xDC00 <=? first) && (first <=? 0xDFFF) then None
     else Some (first, s));
  if is_scalar code then Some (code, s) else None.

(** The character an escape other than [\u] stands for. *)
Definition simple_escape (c : Z) : option Z :=
  if c =? 34 then Some 34 else if c =? 92 then Some 92 else if c =? 47 then Some 47 else if c =? 98 then Some 8
  else if c =? 102 then Some 12 else if c =? 110 then Some 10 else if c =? 114 then Some 13 else if c =? 116 then Some 9 else None.

(** The loop of [string], after the opening quote; each pass takes a character
    or more. *)
Fixpoint string_loop (fuel : nat) (s out : list Z) : option (option (list Z * list Z)) :=
  match fuel with
  | O => None
  | S fuel' =>
      match s with
      | [] => Some None
      | c :: r =>
          if c =? 34 then Some (Some (out, r))
          else if c =? 92 then
            match r with
            | [] => Some None
            | d :: r' =>
                if d =? 117 then
                  match unicode_escape r' with
                  | Some (x, rest) => string_loop fuel' rest (out ++ [x])
                  | None => Some None
                  end
                else match simple_escape d with Some x => string_loop fuel' r' (out ++ [x]) | None => Some None end
            end
          else if c <? 32 then Some None
          else string_loop fuel' r (out ++ [c])
      end
  end.

Definition read_string (s : list Z) : option (option (list Z * list Z)) :=
  match expect 34 s with
  | None => Some None
  | Some r => string_loop (S (length r)) r []
  end.

Definition read_value (s : list Z) : option (option (Value * list Z)) :=
  match s with
  | 34 :: _ => match read_string s with Some (Some (x, r)) => Some (Some (VString x, r)) | Some None => Some None | None => None end
  | 116 :: _ => Some (r ← literal (str "true") s; Some (VBool true, r))
  | 102 :: _ => Some (r ← literal (str "false") s; Some (VBool false, r))
  | 110 :: _ => Some (r ← literal (str "null") s; Some (VNull, r))
  | c :: _ => if (c =? 45) || is_ascii_digit c then Some (number s) else Some None
  | [] => Some None
  end.

Abbreviation Fields := (list (list Z * Value)).

(** The loop of [parse_object]. *)
Fixpoint fields_loop (fuel : nat) (s : list Z) (map : Fields) : option (option (Fields * list Z)) :=
  match fuel with
  | O => None
  | S fuel' =>
      match read_string (skip_ws s) with
      | None => None
      | Some None => Some None
      | Some (Some (key, s)) =>
          match expect 58 (skip_ws s) with
          | None => Some None
          | Some s =>
              match read_value (skip_ws s) with
              | None => None
              | Some None => Some None
              | Some (Some (value, s)) =>
                  if bool_decide (is_Some (bt_get map key)) then Some None
                  else
                    let map := bt_insert map key value in
                    match skip_ws s with
                    | 44 :: s => fields_loop fuel' s map
                    | 125 :: s => Some (Some (map, s))
                    | _ => Some None
                    end
              end
          end
      end
  end.

Definition parse_object (text : list Z) : option (option Fields) :=
  match expect 123 (skip_ws text) with
  | None => Some None
  | Some s =>
      match (match skip_ws s with 125 :: s => Some (Some ([], s)) | s => fields_loop (S (length s)) s [] end) with
      | None => None
      | Some None => Some None
      | Some (Some (map, s)) => Some (match skip_ws s with [] => Some map | _ => None end)
      end
  end.

Example json_example :
  parse_object (str "{ 'a' : 1.5e1, 'b':-0.25 }") = Some None /\
  parse_object (obj_finish (obj_boolean (obj_uint (obj_string obj_new (str "event") [34; 10; 1; 233]) (str "n") 18446744073709551615) (str "ok") true)) =
    Some (Some [(str "event", VString [34; 10; 1; 233]); (str "n", VNumber (f_of_Z 18446744073709551615)); (str "ok", VBool true)]) /\
  number (str "1.5e1,") = Some (VNumber (f_of_Z 15), [44]) /\ number (str "-0.25") = Some (VNumber (f_neg (f_scaled 1 (-2))), []).
Proof. vm_compute. done. Qed.

(** ** What is written reads back

    [Object]'s methods as data: a field, the method that writes it, and the
    value a reader should find. *)

Inductive Field : Type :=
| FString (s : list Z)
| FUint (n : Z)
| FBool (b : bool)
| FNull.

Definition write_field (buf : list Z) (f : list Z * Field) : list Z :=
  match f.2 with
  | FString s => obj_string buf f.1 s
  | FUint n => obj_uint buf f.1 n
  | FBool b => obj_boolean buf f.1 b
  | FNull => obj_null buf f.1
  end.

Definition field_value (f : Field) : Value :=
  match f with FString s => VString s | FUint n => VNumber (f_of_Z n) | FBool b => VBool b | FNull => VNull end.

(** A Rust string holds scalar values; a [u64] is one. *)
Definition text_ok (s : list Z) : Prop := Forall (fun c => is_scalar c = true) s.
Definition field_ok (f : list Z * Field) : Prop :=
  text_ok f.1 /\ match f.2 with FString s => text_ok s | FUint n => 0 <= n < 2 ^ 64 | _ => True end.

(** The text of a value, and of a field without its comma. *)
Definition value_text (f : Field) : list Z :=
  match f with
  | FString s => [34] ++ escape s ++ [34]
  | FUint n => u_to_string n
  | FBool b => if b then str "true" else str "false"
  | FNull => str "null"
  end.
Definition field_text (f : list Z * Field) : list Z := [34] ++ escape f.1 ++ [34; 58] ++ value_text f.2.

Lemma write_field_text buf f : write_field buf f = buf ++ (match buf with [] => [] | _ => [44] end) ++ field_text f.
Proof.
  destruct f as [k []]; unfold write_field, obj_string, obj_uint, obj_boolean, obj_null, obj_key, field_text, value_text; cbn [fst snd];
    by rewrite <- ?app_assoc.
Qed.

Definition more_text (fs : list (list Z * Field)) : list Z := flat_map (fun f => 44 :: field_text f) fs.

Lemma write_fields_more fs buf : buf <> [] -> fold_left write_field fs buf = buf ++ more_text fs.
Proof.
  revert buf. induction fs as [| f fs IH]; intros buf Hb; cbn [fold_left more_text flat_map]; [by rewrite app_nil_r |].
  rewrite IH, write_field_text; [| rewrite write_field_text; by destruct buf].
  destruct buf; [done |]. fold (more_text fs). by rewrite <- !app_assoc.
Qed.

Lemma write_fields_text f fs : fold_left write_field (f :: fs) obj_new = field_text f ++ more_text fs.
Proof. cbn [fold_left]. rewrite write_fields_more, write_field_text; [done | by rewrite write_field_text]. Qed.

(** One character, written and read. *)
Lemma escape_char_read c fuel t out : is_scalar c = true ->
  string_loop (S fuel) (escape_char c ++ t) out = string_loop fuel t (out ++ [c]).
Proof.
  intros Hc. destruct (Z.ltb_spec c 32) as [H32 | H32].
  - assert (0 <= c) by (unfold is_scalar in Hc; lia).
    assert (c ∈ seqZ 0 32) as Hin by (apply elem_of_seqZ; lia). cbv in Hin.
    repeat (apply elem_of_cons in Hin as [-> | Hin]; [reflexivity |]). by apply elem_of_nil in Hin.
  - unfold escape_char. destruct (Z.eqb_spec c 34) as [-> | ?]; [reflexivity |].
    destruct (Z.eqb_spec c 92) as [-> | ?]; [reflexivity |].
    rewrite !(proj2 (Z.eqb_neq c _)) by lia. rewrite (proj2 (Z.ltb_ge c 32)) by lia. cbn [app string_loop].
    rewrite !(proj2 (Z.eqb_neq c _)) by lia. by rewrite (proj2 (Z.ltb_ge c 32)) by lia.
Qed.

Lemma string_loop_escape s : forall fuel rest out, text_ok s -> (length s < fuel)%nat ->
  string_loop fuel (escape s ++ 34 :: rest) out = Some (Some (out ++ s, rest)).
Proof.
  induction s as [| c s IH]; intros fuel rest out Hs Hf; (destruct fuel as [| fuel]; [cbn in Hf; lia |]).
  - by rewrite app_nil_r.
  - apply Forall_cons in Hs as [Hc Hs]. unfold escape. cbn [flat_map]. rewrite <- app_assoc, escape_char_read by done.
    fold (escape s). rewrite IH; [by rewrite <- app_assoc | done | cbn in Hf; lia].
Qed.

Lemma escape_length s : (length s <= length (escape s))%nat.
Proof.
  induction s as [| c s IH]; [done |]. unfold escape. cbn [flat_map]. rewrite length_app. fold (escape s). cbn [length].
  assert (1 <= length (escape_char c))%nat; [| lia]. unfold escape_char. repeat case_match; cbn; lia.
Qed.

Lemma read_string_escape s rest : text_ok s -> read_string (34 :: escape s ++ 34 :: rest) = Some (Some (s, rest)).
Proof.
  intros Hs. unfold read_string. cbn [expect]. rewrite Z.eqb_refl. rewrite string_loop_escape; [done | done |].
  rewrite length_app. pose proof (escape_length s). lia.
Qed.

(** What may follow a value: a comma or the closing brace. *)
Definition closes (c : Z) : Prop := c = 44 \/ c = 125.

Lemma digits_app ds c rest : Forall (fun d => is_ascii_digit d = true) ds -> closes c -> digits (ds ++ c :: rest) = (ds, c :: rest).
Proof.
  intros Hd Hc. induction Hd as [| d ds Hd _ IH]; cbn [app digits].
  - by destruct Hc as [-> | ->].
  - by rewrite Hd, IH.
Qed.

Lemma number_uint n c rest : 0 <= n -> closes c -> number (u_to_string n ++ c :: rest) = Some (VNumber (f_of_Z n), c :: rest).
Proof.
  intros Hn Hc. pose proof (u_to_string_value n Hn) as Hv. destruct (u_to_string_canonical n Hn) as (Hne & Hd & Hz).
  destruct (u_to_string n) as [| d ds]; [done |].
  assert (int_part ((d :: ds) ++ c :: rest) = Some (d :: ds, c :: rest)) as Hi.
  { destruct (decide (d = 48)) as [-> | Hd0].
    - assert (ds = []) as -> by naive_solver. by destruct Hc as [-> | ->].
    - transitivity (some_digits ((d :: ds) ++ c :: rest)).
      + unfold int_part. cbn [app]. repeat (case_match; try done).
      + unfold some_digits. by rewrite digits_app. }
  apply Forall_cons in Hd as [Hd _]. apply is_ascii_digit_iff in Hd.
  assert (match (d :: ds) ++ c :: rest with 45 :: r => (true, r) | _ => (false, (d :: ds) ++ c :: rest) end = (false, (d :: ds) ++ c :: rest)) as Hm.
  { cbn [app]. repeat (case_match; try done); lia. }
  unfold number. rewrite Hm, Hi. cbn [mbind option_bind].
  assert (frac_part (c :: rest) = Some ([], c :: rest)) as -> by (by destruct Hc as [-> | ->]). cbn [mbind option_bind].
  assert (exp_part (c :: rest) = Some (0, c :: rest)) as -> by (by destruct Hc as [-> | ->]). cbn [mbind option_bind].
  rewrite app_nil_r, Hv. unfold f_of_decimal. cbn. by rewrite Z.mul_1_r.
Qed.

Lemma read_value_digit d r : is_ascii_digit d = true -> read_value (d :: r) = Some (number (d :: r)).
Proof.
  intros Hd%is_ascii_digit_iff. assert (d ∈ seqZ 48 10) as Hin by (apply elem_of_seqZ; lia). cbv in Hin.
  repeat (apply elem_of_cons in Hin as [-> | Hin]; [reflexivity |]). by apply elem_of_nil in Hin.
Qed.

Lemma read_value_text f c rest : match f with FString s => text_ok s | FUint n => 0 <= n < 2 ^ 64 | _ => True end -> closes c ->
  read_value (value_text f ++ c :: rest) = Some (Some (field_value f, c :: rest)).
Proof.
  intros Hf Hc. destruct f as [s | n | [] |]; [| | done..].
  - cbn [value_text app field_value]. rewrite <- app_assoc. unfold read_value. cbn [app]. by rewrite read_string_escape.
  - cbn [value_text field_value]. pose proof (number_uint n c rest (proj1 Hf) Hc) as Hn.
    destruct (u_to_string_canonical n (proj1 Hf)) as (Hne & Hd & _).
    destruct (u_to_string n) as [| d ds]; [done |]. apply Forall_cons in Hd as [Hd _].
    cbn [app] in *. by rewrite read_value_digit, Hn.
Qed.

(** No white space where the reader looks for some. *)
Lemma skip_ws_value f rest : match f with FString s => text_ok s | FUint n => 0 <= n < 2 ^ 64 | _ => True end ->
  skip_ws (value_text f ++ rest) = value_text f ++ rest.
Proof.
  intros Hf. destruct f as [s | n | [] |]; try done. cbn [value_text].
  destruct (u_to_string_canonical n (proj1 Hf)) as (Hne & Hd & _). destruct (u_to_string n) as [| d ds]; [done |].
  apply Forall_cons in Hd as [Hd _]. apply is_ascii_digit_iff in Hd. cbn [app skip_ws]. unfold is_ws.
  by rewrite !(proj2 (Z.eqb_neq d _)) by lia.
Qed.

Lemma expect_same c r : expect c (c :: r) = Some r.
Proof. cbn. by rewrite Z.eqb_refl. Qed.

(** One pass of the loop reads one field. *)
Lemma fields_loop_field fuel f c rest map : field_ok f -> closes c -> bt_get map f.1 = None ->
  fields_loop (S fuel) (field_text f ++ c :: rest) map =
    (if c =? 44 then fields_loop fuel rest (bt_insert map f.1 (field_value f.2))
     else Some (Some (bt_insert map f.1 (field_value f.2), rest))).
Proof.
  intros [Hk Hv] Hc Hm. destruct f as [k f]. cbn [fst snd] in *. unfold field_text. cbn [fst snd fields_loop].
  rewrite <- !app_assoc. cbn [app]. change (skip_ws (34 :: ?x)) with (34 :: x).
  rewrite read_string_escape by done. change (skip_ws (58 :: ?x)) with (58 :: x). rewrite expect_same.
  rewrite skip_ws_value, read_value_text by done. rewrite bool_decide_eq_false_2 by (rewrite Hm; by intros []).
  by destruct Hc as [-> | ->].
Qed.

Definition read_fields (fs : list (list Z * Field)) (map : Fields) : Fields :=
  fold_left (fun m f => bt_insert m f.1 (field_value f.2)) fs map.

Lemma fields_loop_text fs : forall fuel f map, Forall field_ok (f :: fs) -> NoDup (f :: fs).*1 -> bt_sorted map ->
  (forall k, k ∈ (f :: fs).*1 -> bt_get map k = None) -> (length fs < fuel)%nat ->
  fields_loop fuel (field_text f ++ more_text fs ++ [125]) map = Some (Some (read_fields (f :: fs) map, [])).
Proof.
  induction fs as [| g fs IH]; intros fuel f map Hok Hnd Hs Hm Hf; (destruct fuel as [| fuel]; [cbn in Hf; lia |]);
    apply Forall_cons in Hok as [Hf1 Hok]; cbn [more_text flat_map app].
  - rewrite fields_loop_field; [done | done | by right | apply Hm; set_solver].
  - fold (more_text fs). rewrite <- app_assoc. rewrite fields_loop_field; [| done | by left | apply Hm; set_solver].
    rewrite Z.eqb_refl. cbn [fmap list_fmap] in Hnd. apply NoDup_cons in Hnd as [Hnf Hnd].
    rewrite IH; [done | done | done | by apply bt_insert_sorted | | cbn in Hf; lia].
    intros k Hk. assert (f.1 <> k) by (intros <-; contradiction). rewrite bt_get_insert_ne; [apply Hm; set_solver | done | done].
Qed.

Lemma read_fields_get fs : forall map, bt_sorted map -> NoDup fs.*1 ->
  bt_sorted (read_fields fs map) /\
  (forall k f, (k, f) ∈ fs -> bt_get (read_fields fs map) k = Some (field_value f)) /\
  (forall k, k ∉ fs.*1 -> bt_get (read_fields fs map) k = bt_get map k).
Proof.
  induction fs as [| [k0 f0] fs IH]; intros map Hs Hnd; [split; [done |]; split; [set_solver | done] |].
  cbn [fmap list_fmap fst] in Hnd. apply NoDup_cons in Hnd as [Hn Hnd].
  destruct (IH (bt_insert map k0 (field_value f0)) (bt_insert_sorted _ _ _ Hs) Hnd) as (H1 & H2 & H3).
  split; [done |]. split.
  - intros k f [[= -> ->] | Hin]%elem_of_cons; [| by apply H2]. cbn [read_fields fold_left fst snd].
    etransitivity; [by apply H3 | apply bt_get_insert_eq].
  - intros k Hk. cbn [fmap list_fmap fst] in Hk. apply not_elem_of_cons in Hk as [Hk0 Hk].
    etransitivity; [by apply H3 |]. by apply bt_get_insert_ne.
Qed.

(** No escape leaves a newline in the text. *)
Definition no_newline (s : list Z) : Prop := Forall (fun c => c <> 10) s.

Lemma escape_char_one_line c : is_scalar c = true -> no_newline (escape_char c).
Proof.
  intros Hc. destruct (Z.ltb_spec c 32) as [H32 | H32].
  - assert (0 <= c) by (unfold is_scalar in Hc; lia).
    assert (c ∈ seqZ 0 32) as Hin by (apply elem_of_seqZ; lia). cbv in Hin.
    repeat (apply elem_of_cons in Hin as [-> | Hin]; [by repeat constructor |]). by apply elem_of_nil in Hin.
  - unfold escape_char. rewrite (proj2 (Z.ltb_ge c 32)) by lia. unfold no_newline.
    repeat case_match; repeat (apply Forall_cons; split); try apply Forall_nil; lia.
Qed.

Lemma escape_one_line s : text_ok s -> no_newline (escape s).
Proof.
  unfold no_newline, escape. induction 1 as [| c s Hc _ IH]; [done |]. cbn [flat_map]. apply Forall_app.
  split; [by apply escape_char_one_line | done].
Qed.

Lemma field_text_one_line f : field_ok f -> no_newline (field_text f).
Proof.
  intros [Hk Hv]. destruct f as [k f]. cbn [fst snd] in *. unfold field_text, no_newline. cbn [fst snd].
  repeat (apply Forall_app; split); try (by repeat constructor); [by apply escape_one_line |].
  destruct f as [s | n | [] |]; cbn [value_text]; try (by repeat constructor).
  - repeat (apply Forall_app; split); try (by repeat constructor). by apply escape_one_line.
  - destruct (u_to_string_canonical n (proj1 Hv)) as (_ & Hd & _).
    eapply Forall_impl; [exact Hd |]. intros d Hd'. apply is_ascii_digit_iff in Hd'. lia.
Qed.

Lemma more_text_one_line fs : Forall field_ok fs -> no_newline (more_text fs).
Proof.
  unfold no_newline, more_text. induction 1 as [| f fs Hf _ IH]; [done |]. cbn [flat_map]. apply Forall_app. split; [| done].
  apply Forall_cons. split; [lia | by apply field_text_one_line].
Qed.

Lemma more_text_length fs : (length fs <= length (more_text fs))%nat.
Proof.
  induction fs as [| f fs IH]; [done |]. cbn [more_text flat_map]. rewrite length_app. cbn [length]. unfold more_text in IH. lia.
Qed.

(** Writing an object and reading it back. *)
Lemma object_read_back (fs : list (list Z * Field)) :
  Forall field_ok fs -> NoDup fs.*1 ->
  let line := obj_finish (fold_left write_field fs obj_new) in
  no_newline line /\
  exists map, parse_object line = Some (Some map) /\
    (forall k f, (k, f) ∈ fs -> bt_get map k = Some (field_value f)) /\
    (forall k, k ∉ fs.*1 -> bt_get map k = None).
Proof.
  intros Hok Hnd. cbn zeta. destruct fs as [| f fs].
  { split; [by repeat constructor |]. exists []. split; [done |]. split; [set_solver | done]. }
  rewrite write_fields_text. pose proof Hok as [Hf Hfs]%Forall_cons. split.
  - unfold obj_finish, no_newline. rewrite !Forall_app.
    split_and!; [by repeat constructor | by apply field_text_one_line | by apply more_text_one_line | by repeat constructor].
  - exists (read_fields (f :: fs) []).
    destruct (read_fields_get (f :: fs) [] I Hnd) as (_ & H2 & H3). split; [| by split].
    unfold obj_finish, parse_object. cbn [app]. change (skip_ws (123 :: ?x)) with (123 :: x). rewrite expect_same, <- app_assoc.
    assert (skip_ws (field_text f ++ more_text fs ++ [125]) = field_text f ++ more_text fs ++ [125]) as -> by done.
    unfold field_text at 1. cbn [app].
    change (34 :: (escape f.1 ++ 34 :: 58 :: value_text f.2) ++ more_text fs ++ [125]) with (field_text f ++ more_text fs ++ [125]).
    rewrite fields_loop_text; [done | done | done | done | done |].
    rewrite !length_app. pose proof (more_text_length fs). lia.
Qed.

(** Whatever fields a status line is given, it is one line, the reader
    takes it, and it reads back exactly what was written: each key with its
    string, boolean, null or the double nearest its integer, and no other key. *)
Theorem json_roundtrip (fs : list (list Z * Field)) :
  Forall field_ok fs -> NoDup fs.*1 ->
  let line := obj_finish (fold_left write_field fs obj_new) in
  no_newline line /\
  exists map, parse_object line = Some (Some map) /\
    (forall k f, (k, f) ∈ fs -> bt_get map k = Some (field_value f)) /\
    (forall k, k ∉ fs.*1 -> bt_get map k = None).
Proof. apply object_read_back. Qed.

Lemma json_roundtrip_witness :
  let fs := [(str "event", FString [34; 10; 92; 233; 0x1F3AC]); (str "done", FUint 18446744073709551615); (str "endgame", FBool false); (str "eta", FNull)] in
  exists map, parse_object (obj_finish (fold_left write_field fs obj_new)) = Some (Some map) /\
    bt_get map (str "event") = Some (VString [34; 10; 92; 233; 0x1F3AC]).
Proof.
  intros fs. destruct (json_roundtrip fs) as (_ & map & Hm & Hg & _).
  - repeat constructor; by cbn.
  - repeat (apply NoDup_cons; split; [set_solver |]). apply NoDup_nil_2.
  - exists map. split; [exact Hm |]. exact (Hg (str "event") _ (list_elem_of_here _ _)).
Defined.

(** ** The reader ends on any text *)

Lemma expect_length c s r : expect c s = Some r -> length s = S (length r).
Proof. unfold expect. intros. repeat case_match; simplify_eq. done. Qed.

Lemma skip_ws_length s : (length (skip_ws s) <= length s)%nat.
Proof. induction s as [| c s IH]; cbn; [done |]. case_match; cbn; lia. Qed.

Lemma hex4_length s n r : hex4 s = Some (n, r) -> (length r < length s)%nat.
Proof.
  unfold hex4. intros H. destruct s as [| a [| b [| c [| d s]]]]; try done.
  destruct (to_digit16 a), (to_digit16 b), (to_digit16 c), (to_digit16 d); cbn in H; try done. injection H as <- <-. cbn. lia.
Qed.

Lemma unicode_escape_length s n r : unicode_escape s = Some (n, r) -> (length r < length s)%nat.
Proof.
  unfold unicode_escape. intros ([first s1] & H1 & H)%bind_Some. apply hex4_length in H1.
  apply bind_Some in H as ([code s2] & H2 & H). case_match; simplify_eq. repeat case_match; simplify_eq; [| done].
  apply bind_Some in H2 as (s3 & H3%expect_length & H2). apply bind_Some in H2 as (s4 & H4%expect_length & H2).
  apply bind_Some in H2 as ([second s5] & H5%hex4_length & H2). case_match; simplify_eq. lia.
Qed.

(** Each pass of a reader ends, and takes from the text what it reads. *)
Definition reads {A} (s : list Z) (x : option (option (A * list Z))) : Prop :=
  exists r, x = Some r /\ forall a rest, r = Some (a, rest) -> (length rest < length s)%nat.

Lemma string_loop_reads fuel : forall s out, (length s < fuel)%nat -> reads s (string_loop fuel s out).
Proof.
  induction fuel as [| fuel IH]; intros s out Hf; [lia |]. cbn [string_loop].
  destruct s as [| c s]; [by eexists |]. cbn [length] in *.
  destruct (c =? 34); [eexists; split; [done |]; intros ?? [= <- <-]; cbn; lia |].
  assert (forall s' out', (length s' <= length s)%nat -> reads (c :: s) (string_loop fuel s' out')) as Hrec.
  { intros s' out' Hl. destruct (IH s' out' ltac:(lia)) as (r & -> & Hr). eexists. split; [done |].
    intros a rest E. specialize (Hr _ _ E). cbn. lia. }
  destruct (c =? 92); [| destruct (c <? 32); [by eexists | by apply Hrec]].
  destruct s as [| d s]; [by eexists |]. destruct (d =? 117).
  - destruct (unicode_escape s) as [[x rest] |] eqn:E; [| by eexists]. apply Hrec. apply unicode_escape_length in E. cbn. lia.
  - destruct (simple_escape d); [| by eexists]. apply Hrec. cbn. lia.
Qed.

Lemma read_string_reads s : reads s (read_string s).
Proof.
  unfold read_string. destruct (expect 34 s) as [r |] eqn:E; [| by eexists]. apply expect_length in E.
  destruct (string_loop_reads (S (length r)) r [] ltac:(lia)) as (x & -> & Hx). eexists. split; [done |].
  intros a rest Ea. specialize (Hx _ _ Ea). lia.
Qed.

Lemma literal_length w : forall s r, literal w s = Some r -> length s = (length w + length r)%nat.
Proof.
  induction w as [| c w IH]; intros s r H; [by injection H as -> |]. cbn in H.
  apply bind_Some in H as (s1 & H1%expect_length & H2%IH). cbn. lia.
Qed.

Lemma digits_length s : length s = (length (digits s).1 + length (digits s).2)%nat.
Proof. induction s as [| c s IH]; [done |]. cbn [digits]. destruct (is_ascii_digit c); [| done]. destruct (digits s). cbn in *. lia. Qed.

Lemma some_digits_length s ds r : some_digits s = Some (ds, r) -> (length r < length s)%nat.
Proof. unfold some_digits. pose proof (digits_length s). destruct (digits s) as [[| d ds'] r']; [done |]. intros [= <- <-]. cbn in *. lia. Qed.

Lemma int_part_length s ds r : int_part s = Some (ds, r) -> (length r < length s)%nat.
Proof.
  unfold int_part. intros H. repeat (case_match; simplify_eq; try (cbn; lia)); by apply some_digits_length in H.
Qed.

Lemma frac_part_length s ds r : frac_part s = Some (ds, r) -> (length r <= length s)%nat.
Proof.
  unfold frac_part. intros H. repeat (case_match; simplify_eq; try done); apply some_digits_length in H; cbn in *; lia.
Qed.

Lemma exp_part_length s e r : exp_part s = Some (e, r) -> (length r <= length s)%nat.
Proof.
  unfold exp_part. intros H. destruct s as [| c s]; [by simplify_eq |]. destruct (_ || _) in H; [| by simplify_eq].
  set (signed := match s with 45 :: r' => (true, r') | 43 :: r' => (false, r') | _ => (false, s) end) in H.
  assert (length signed.2 <= length s)%nat as Hs by (subst signed; repeat case_match; simplify_eq; cbn; lia).
  destruct signed as [neg s']. apply bind_Some in H as ([ds r'] & H1%some_digits_length & H2). simplify_eq. cbn in *. lia.
Qed.

Lemma number_length s v r : number s = Some (v, r) -> (length r < length s)%nat.
Proof.
  unfold number. set (signed := match s with 45 :: r' => (true, r') | _ => (false, s) end). intros H.
  assert (length signed.2 <= length s)%nat as Hs by (subst signed; repeat case_match; simplify_eq; cbn; lia).
  destruct signed as [neg s']. apply bind_Some in H as ([i s1] & H1%int_part_length & H).
  apply bind_Some in H as ([f s2] & H2%frac_part_length & H). apply bind_Some in H as ([e s3] & H3%exp_part_length & H).
  simplify_eq. cbn in *. lia.
Qed.

Lemma literal_reads w (v : Value) s : w <> [] -> reads s (Some (r ← literal w s; Some (v, r))).
Proof.
  intros Hw. eexists. split; [done |]. intros a rest (r & Hr%literal_length & E)%bind_Some. simplify_eq.
  destruct w; [done |]. cbn in Hr. lia.
Qed.

Lemma read_value_reads s : reads s (read_value s).
Proof.
  assert (reads s (match read_string s with Some (Some (x, r)) => Some (Some (VString x, r)) | Some None => Some None | None => None end)) as Hstr.
  { destruct (read_string_reads s) as ([[x r] |] & -> & Hr); (eexists; split; [done |]); [| done].
    intros a rest [= <- <-]. by eapply Hr. }
  assert (reads s (Some (number s))) as Hnum by (eexists; split; [done |]; intros a rest; apply number_length).
  assert (reads s (Some (@None (Value * list Z)))) as Hnone by (by eexists).
  unfold read_value. repeat (case_match; try done); by apply literal_reads.
Qed.

Lemma fields_loop_ends fuel : forall s map, (length s < fuel)%nat -> is_Some (fields_loop fuel s map).
Proof.
  induction fuel as [| fuel IH]; intros s map Hf; [lia |]. cbn [fields_loop]. pose proof (skip_ws_length s).
  destruct (read_string_reads (skip_ws s)) as ([[key s1] |] & -> & H1); [| done]. specialize (H1 _ _ eq_refl).
  destruct (expect 58 (skip_ws s1)) as [s2 |] eqn:E2; [| done]. apply expect_length in E2. pose proof (skip_ws_length s1).
  destruct (read_value_reads (skip_ws s2)) as ([[v s3] |] & -> & H3); [| done]. specialize (H3 _ _ eq_refl). pose proof (skip_ws_length s2).
  case_match; [done |]. pose proof (skip_ws_length s3). repeat (case_match; try done). apply IH. cbn in *. lia.
Qed.

(** Reading is total: on any text, however long or broken, the reader
    comes to an object or to an error, and never runs out of passes. *)
Theorem parse_object_total text : is_Some (parse_object text).
Proof.
  unfold parse_object. destruct (expect 123 (skip_ws text)) as [s |]; [| done].
  assert (is_Some (fields_loop (S (length (skip_ws s))) (skip_ws s) [])) as Hl by (apply fields_loop_ends; lia).
  assert (forall x : option (option (Fields * list Z)), is_Some x ->
    is_Some (match x with Some (Some (map, s)) => Some (match skip_ws s with [] => Some map | _ => None end) | Some None => Some None | None => None end)) as Hx.
  { intros x [y ->]. by destruct y as [[] |]. }
  apply Hx. repeat (case_match; try done).
Qed.
