(* ===== verification/Utf8.v ===== *)
(** * Text and its bytes

    A [str] as its characters' code points, for the parts of the program that
    work by character ([json.rs], [daemon/]), and as the UTF-8 bytes it is in
    memory and on disk: [String::into_bytes], and [fs::read_to_string] of a
    file.  [str::trim] by character. *)

From S2P Require Import Prelude Str Json.

(** The bytes of a character. *)
Definition encode_char (c : Z) : list Z :=
  if c <? 0x80 then [c]
  else if c <? 0x800 then [192 + c / 64; 128 + c mod 64]
  else if c <? 0x10000 then [224 + c / 4096; 128 + c / 64 mod 64; 128 + c mod 64]
  else [240 + c / 262144; 128 + c / 4096 mod 64; 128 + c / 64 mod 64; 128 + c mod 64].

Definition utf8_encode (s : list Z) : list Z := flat_map encode_char s.

(** The character a well-formed sequence is. *)
Definition char_of (bs : list Z) : Z :=
  match bs with
  | [b] => b
  | [b; c1] => (b - 192) * 64 + (c1 - 128)
  | [b; c1; c2] => (b - 224) * 4096 + (c1 - 128) * 64 + (c2 - 128)
  | [b; c1; c2; c3] => (b - 240) * 262144 + (c1 - 128) * 4096 + (c2 - 128) * 64 + (c3 - 128)
  | _ => 0
  end.

(** [String::from_utf8]: [None] for bytes that are not UTF-8. *)
Fixpoint decode_chars (fuel : nat) (bs : list Z) : option (list Z) :=
  match bs with
  | [] => Some []
  | b :: r =>
      match fuel with
      | O => None
      | S fuel' =>
          let '(n, ok) := utf8_step b r in
          if ok then s ← decode_chars fuel' (drop n bs); Some (char_of (take n bs) :: s) else None
      end
  end.

Definition from_utf8 (bs : list Z) : option (list Z) := decode_chars (length bs) bs.

(** [char::is_whitespace], and [str::trim]. *)
Definition is_whitespace (c : Z) : bool :=
  ((9 <=? c) && (c <=? 13)) || (c =? 32) || (c =? 0x85) || (c =? 0xA0) || (c =? 0x1680) || ((0x2000 <=? c) && (c <=? 0x200A))
  || (c =? 0x2028) || (c =? 0x2029) || (c =? 0x202F) || (c =? 0x205F) || (c =? 0x3000).

Fixpoint trim_left (s : list Z) : list Z := match s with c :: r => if is_whitespace c then trim_left r else s | [] => [] end.

Definition trim_chars (s : list Z) : list Z := reverse (trim_left (reverse (trim_left s))).

(** ** Bytes written are read back *)

Lemma encode_char_step c rest : is_scalar c = true -> exists b r,
  encode_char c = b :: r /\ utf8_step b (r ++ rest) = (length (encode_char c), true) /\ char_of (encode_char c) = c.
Proof.
  intros Hc. assert (0 <= c <= 0x10FFFF /\ ~ (0xD800 <= c <= 0xDFFF)) as [Hr Hs] by (unfold is_scalar in Hc; lia).
  unfold encode_char, utf8_step, utf8_second, utf8_tail.
  destruct (Z.ltb_spec c 0x80); [| destruct (Z.ltb_spec c 0x800); [| destruct (Z.ltb_spec c 0x10000)]];
    (eexists _, _; split; [done |]; cbn [app length char_of]; split; [| Z.div_mod_to_equations; lia]);
    repeat match goal with |- context [if ?b then _ else _] =>
      let E := fresh in destruct b eqn:E; try done; try (exfalso; Z.div_mod_to_equations; lia) end;
    exfalso; repeat match goal with H : (if ?b then _ else _) = _ |- _ => let E := fresh in destruct b eqn:E end; Z.div_mod_to_equations; lia.
Qed.

Lemma encode_char_length c : (1 <= length (encode_char c))%nat.
Proof. unfold encode_char. repeat case_match; cbn; lia. Qed.

Lemma decode_chars_encode fuel s : Forall (fun c => is_scalar c = true) s -> (length (utf8_encode s) <= fuel)%nat ->
  decode_chars fuel (utf8_encode s) = Some s.
Proof.
  intros Hs. revert fuel. induction Hs as [| c s Hc _ IH]; intros fuel Hf; [by destruct fuel |].
  cbn [utf8_encode flat_map] in Hf |- *. fold (utf8_encode s) in Hf |- *. rewrite length_app in Hf.
  destruct (encode_char_step c (utf8_encode s) Hc) as (b & r & E & Hstep & Hch). pose proof (encode_char_length c).
  destruct fuel as [| fuel]; [lia |].
  assert (decode_chars (S fuel) (encode_char c ++ utf8_encode s) =
    (s' ← decode_chars fuel (drop (length (encode_char c)) (encode_char c ++ utf8_encode s));
     Some (char_of (take (length (encode_char c)) (encode_char c ++ utf8_encode s)) :: s'))) as ->.
  { rewrite E at 1. cbn [app decode_chars]. rewrite Hstep, E. done. }
  rewrite drop_app_length, take_app_length, Hch, IH by lia. done.
Qed.

Lemma from_utf8_encode s : Forall (fun c => is_scalar c = true) s -> from_utf8 (utf8_encode s) = Some s.
Proof. intros Hs. by apply decode_chars_encode. Qed.

(** Text of ASCII characters is its bytes. *)
Lemma utf8_encode_ascii s : Forall (fun c => 0 <= c < 128) s -> utf8_encode s = s.
Proof.
  induction 1 as [| c s Hc _ IH]; [done |]. cbn [utf8_encode flat_map]. fold (utf8_encode s). rewrite IH.
  unfold encode_char. rewrite (proj2 (Z.ltb_lt c 0x80)) by lia. done.
Qed.
