(* ===== verification/Entries.v ===== *)
(** * What the daemon remembers

    Models [src/src/daemon/state.rs]: the torrents a daemon has been given, one
    flat JSON object to a line, and the state directory they are kept in.
    [JobOptions], [Source] and [JobState] are [daemon/job.rs]'s.

    A text is its characters.  A path is a text (one that is not Unicode is not
    modelled).  The texts of errors and warnings are constructors.  The disk is
    [Create.v]'s: paths, contents, and writes and renames that may fail.  A
    [None] of the outer option is a reader out of passes, which never
    happens. *)

From S2P Require Import Create CreateFacts Magnet.
From S2P Require Import Prelude Str Numeral Text BTree F64 Io Tracker Torrent Resume Selection Json Utf8.

Inductive Source : Type :=
| Magnet (uri : list Z)
| File (path : list Z).

Record JobOptions : Type := mkJobOptions {
  files : list Z;
  only : list (list Z);
  prefer : list (list Z);
  sequential : bool;
  max_up : option Z;
  max_down : option Z
}.

Inductive JobState : Type :=
| Resolving
| Checking
| Downloading
| Seeding
| Finished (reason : list Z)
| Failed (reason : list Z)
| Stopped
| Paused.

Definition job_state_name (s : JobState) : list Z :=
  match s with
  | Resolving => str "resolving" | Checking => str "checking" | Downloading => str "downloading" | Seeding => str "seeding"
  | Finished _ => str "finished" | Failed _ => str "failed" | Stopped => str "stopped" | Paused => str "paused"
  end.

Definition is_over (s : JobState) : bool :=
  match s with Finished _ | Failed _ | Stopped | Paused => true | _ => false end.

Inductive Dormant : Type :=
| DPaused
| DFinished (reason : list Z).

Definition dormant_state (d : Dormant) : JobState :=
  match d with DPaused => Paused | DFinished reason => Finished reason end.

Record Entry : Type := mkEntry {
  e_info_hash : list Z;
  e_source : Source;
  e_out_dir : list Z;
  e_options : JobOptions;
  e_dormant : option Dormant
}.

Definition join_lines (l : list (list Z)) : list Z := join_with 10 l.

Definition split_lines (text : list Z) : list (list Z) := filter (fun l => l <> []) (lines text).

(** What is written of the options, here and in a request to the daemon. *)
Definition write_options (o : JobOptions) (object : list Z) : list Z :=
  let object := match files o with [] => object | _ => obj_string object (str "files") (format_indices (files o)) end in
  let object := match only o with [] => object | _ => obj_string object (str "only") (join_lines (only o)) end in
  let object := match prefer o with [] => object | _ => obj_string object (str "prefer") (join_lines (prefer o)) end in
  let object := if sequential o then obj_boolean object (str "sequential") true else object in
  let object := match max_up o with Some rate => obj_uint object (str "max_up") rate | None => object end in
  match max_down o with Some rate => obj_uint object (str "max_down") rate | None => object end.

Definition to_line (e : Entry) : list Z :=
  let object := obj_string (obj_string obj_new (str "id") (info_hash_hex (e_info_hash e))) (str "out") (e_out_dir e) in
  let object := match e_source e with
                | Magnet uri => obj_string object (str "magnet") uri
                | File path => obj_string object (str "file") path
                end in
  let object := write_options (e_options e) object in
  let object := match e_dormant e with
                | Some DPaused => obj_boolean object (str "paused") true
                | Some (DFinished reason) => obj_string object (str "finished") reason
                | None => object
                end in
  obj_finish object.

Inductive EntryError : Type :=
| NotAnObject
| NotAString (key : list Z)
| NotABoolean (key : list Z)
| NotARate (key : list Z)
| NoId
| NotAnInfoHash (id : list Z)
| NoOut
| NotOneSource
| BadFiles (e : SelectError)
| PausedAndFinished.

Definition text (fields : Fields) (key : list Z) : result (option (list Z)) EntryError :=
  match bt_get fields key with
  | None | Some VNull => Ok None
  | Some (VString s) => Ok (Some s)
  | Some _ => Err (NotAString key)
  end.

Definition flag (fields : Fields) (key : list Z) : result bool EntryError :=
  match bt_get fields key with
  | None | Some VNull => Ok false
  | Some (VBool b) => Ok b
  | Some _ => Err (NotABoolean key)
  end.

(** [*n >= 1.0 && n.fract() == 0.0 && *n < 1e15]. *)
Definition is_rate (n : f64) : bool := f_ge n (f_of_Z 1) && f_is_whole n && f_lt n (f_of_Z (10 ^ 15)).

Definition rate (fields : Fields) (key : list Z) : result (option Z) EntryError :=
  match bt_get fields key with
  | None | Some VNull => Ok None
  | Some (VNumber n) => if is_rate n then Ok (Some (f_to_usize n)) else Err (NotARate key)
  | Some _ => Err (NotARate key)
  end.

(** [u8::from_str_radix] of each pair of digits. *)
Fixpoint hex_bytes (s : list Z) : option (list Z) :=
  match s with
  | a :: b :: r => x ← parse_hex 8 [a; b]; xs ← hex_bytes r; Some (x :: xs)
  | _ => Some []
  end.

Definition parse_hex20 (s : list Z) : option (list Z) :=
  if negb (zlen s =? 40) || negb (forallb (fun c => c <? 128) s) then None else hex_bytes s.

Definition entry_of (fields : Fields) : result Entry EntryError :=
  let? id := text fields (str "id") in
  let? id := ok_or id NoId in
  let? info_hash := ok_or (parse_hex20 id) (NotAnInfoHash id) in
  let? out := text fields (str "out") in
  let? out_dir := ok_or out NoOut in
  let? magnet := text fields (str "magnet") in
  let? file := text fields (str "file") in
  let? source := match magnet, file with
                 | Some uri, None => Ok (Magnet uri)
                 | None, Some path => Ok (File path)
                 | _, _ => Err NotOneSource
                 end in
  let? listed := text fields (str "files") in
  let? files := match parse_indices (utf8_encode (default [] listed)) with Ok is_ => Ok is_ | Err e => Err (BadFiles e) end in
  let? only := text fields (str "only") in
  let? prefer := text fields (str "prefer") in
  let? sequential := flag fields (str "sequential") in
  let? max_up := rate fields (str "max_up") in
  let? max_down := rate fields (str "max_down") in
  let options := mkJobOptions files (split_lines (default [] only)) (split_lines (default [] prefer)) sequential max_up max_down in
  let? paused := flag fields (str "paused") in
  let? finished := text fields (str "finished") in
  let? dormant := match paused, finished with
                  | false, None => Ok None
                  | true, None => Ok (Some DPaused)
                  | false, Some reason => Ok (Some (DFinished reason))
                  | true, Some _ => Err PausedAndFinished
                  end in
  Ok (mkEntry info_hash source out_dir options dormant).

Definition from_line (line : list Z) : option (result Entry EntryError) :=
  fields ← parse_object line;
  Some (match fields with None => Err NotAnObject | Some fields => entry_of fields end).

Inductive Warning : Type :=
| ThereTwice (line : nat) (info_hash : list Z)
| Unreadable (line : nat) (e : EntryError)
| Reading (e : ErrorKind).

(** The loop over the lines; [number] counts all of them, blank ones too. *)
Fixpoint read_entries (number : nat) (ls : list (list Z)) (entries : list Entry) (warnings : list Warning) :
    option (list Entry * list Warning) :=
  match ls with
  | [] => Some (entries, warnings)
  | line :: rest =>
      match trim_chars line with
      | [] => read_entries (S number) rest entries warnings
      | _ =>
          r ← from_line line;
          match r with
          | Ok entry =>
              if existsb (fun e => bool_decide (e_info_hash e = e_info_hash entry)) entries
              then read_entries (S number) rest entries (warnings ++ [ThereTwice number (e_info_hash entry)])
              else read_entries (S number) rest (entries ++ [entry]) warnings
          | Err reason => read_entries (S number) rest entries (warnings ++ [Unreadable number reason])
          end
      end
  end.

Definition parse_entries (s : list Z) : option (list Entry * list Warning) := read_entries 1 (lines s) [] [].

(** ** The state directory *)

Definition ENTRIES_FILE : list Z := str "torrents.jsonl".
Definition TORRENTS_DIR : list Z := str "torrents".

(** [Path::join] of a relative name. *)
Definition under (dir name : list Z) : list Z := FileWriter.join dir name.

Definition torrent_path (dir info_hash : list Z) : list Z :=
  under (under dir TORRENTS_DIR) (info_hash_hex info_hash ++ str ".torrent").

(** [reads] is the error, other than the file not being there, that reading it
    meets; text that is not UTF-8 is one. *)
Definition load (dir : list Z) (reads : option ErrorKind) (fs : Files) : option (list Entry * list Warning) :=
  match reads with
  | Some e => Some ([], [Reading e])
  | None =>
      match fs (under dir ENTRIES_FILE) with
      | None => Some ([], [])
      | Some bytes => match from_utf8 bytes with None => Some ([], [Reading OtherError]) | Some s => parse_entries s end
      end
  end.

Definition entries_text (es : list Entry) : list Z := flat_map (fun e => to_line e ++ [10]) es.

Definition save (dir : list Z) (w : Write) (renamed : option ErrorKind) (es : list Entry) (fs : Files) : Files * result unit CreateError :=
  let path := under dir ENTRIES_FILE in
  let partial_ := under dir (ENTRIES_FILE ++ str ".part") in
  let '(fs, r) := write_file w fs partial_ (utf8_encode (entries_text es)) in
  match r with
  | Err e => (fs, Err e)
  | Ok _ => rename_file renamed false fs partial_ path
  end.

(** ** Lists as lines, numbers and hashes as text *)

Lemma join_with_concat c p rest : join_with c (p :: rest) = p ++ concat ((fun q => c :: q) <$> rest).
Proof.
  revert p. induction rest as [| q rest IH]; intros p; [cbn; by rewrite app_nil_r |].
  change (join_with c (p :: q :: rest)) with (p ++ c :: join_with c (q :: rest)). rewrite IH. by rewrite fmap_cons.
Qed.

Lemma split_on_join_with c parts : parts <> [] -> Forall (Forall (fun b => b <> c)) parts -> split_on c (join_with c parts) = parts.
Proof.
  intros Hne H. pose proof (split_on_join c parts Hne H) as E. destruct parts as [| p rest]; [done |]. by rewrite join_with_concat.
Qed.

(** A pattern that is a line of its own. *)
Definition pattern_ok (p : list Z) : Prop := p <> [] /\ text_ok p /\ Forall (fun c => c <> 10) p /\ last p <> Some 13.

Lemma strip_cr_none p : last p <> Some 13 -> strip_cr p = p.
Proof. unfold strip_cr. repeat case_match; congruence. Qed.

Lemma lines_of_kept ps : Forall (fun p => p <> [] /\ last p <> Some 13) ps -> lines_of ps = ps.
Proof.
  induction 1 as [| p ps [Hne Hcr] Hps IH]; [done |]. destruct ps as [| q ps]; [cbn; by destruct p |].
  change (lines_of (p :: q :: ps)) with (strip_cr p :: lines_of (q :: ps)). by rewrite IH, strip_cr_none.
Qed.

Lemma split_lines_join ps : Forall pattern_ok ps -> split_lines (join_lines ps) = ps.
Proof.
  intros H. unfold split_lines, join_lines, lines. destruct ps as [| p ps]; [done |].
  rewrite split_on_join_with; [| done | apply (Forall_impl _ _ _ H); by intros q (_ & _ & ? & _)].
  rewrite lines_of_kept by (apply (Forall_impl _ _ _ H); by intros q (? & _ & _ & ?)).
  clear -H. induction H as [| q qs (Hq & _) _ IH]; [done |]. by rewrite filter_cons_True, IH.
Qed.

Lemma format_indices_ascii is_ : Forall (u_ok 64) is_ -> Forall (fun c => 48 <= c <= 57 \/ c = 44) (format_indices is_).
Proof.
  intros H. unfold format_indices. destruct H as [| i is_ Hi H]; [done |]. rewrite fmap_cons, join_with_concat.
  assert (forall z, u_ok 64 z -> Forall (fun c => 48 <= c <= 57 \/ c = 44) (u_to_string z)) as Hd.
  { intros z [Hz _]. destruct (u_to_string_digits z Hz) as [_ Hd]. apply (Forall_impl _ _ _ Hd). intros c Hc. by left. }
  apply Forall_app. split; [by apply Hd |]. apply Forall_concat, Forall_fmap, Forall_fmap, (Forall_impl _ _ _ H).
  intros z Hz. constructor; [by right | by apply Hd].
Qed.

Lemma parse_indices_format is_ : Forall (u_ok 64) is_ -> parse_indices (format_indices is_) = Ok is_.
Proof.
  intros H. unfold parse_indices, format_indices. destruct is_ as [| i is_]; [done |].
  rewrite split_on_join_with; [| done |].
  - induction H as [| z zs Hz _ IH]; [done |]. rewrite fmap_cons. cbn [parse_parts].
    destruct (u_to_string_digits z (proj1 Hz)) as [Hne Hd]. rewrite trim_hex by (by apply digits_are_hex).
    pose proof (parse_u_to_string 64 z ltac:(destruct Hz; unfold u_max; lia)) as Hp.
    destruct (u_to_string z); [done |]. rewrite Hp. cbn [ok_or result_bind]. by rewrite IH.
  - apply Forall_fmap, (Forall_impl _ _ _ H). intros z Hz. destruct (u_to_string_digits z (proj1 Hz)) as [_ Hd].
    apply (Forall_impl _ _ _ Hd). cbn. lia.
Qed.

Lemma hex_value_digit d : 0 <= d < 16 -> hex_value (hex_digit d) = Some d /\ hex_digit d <> 43.
Proof.
  intros Hd. unfold hex_value, hex_digit, is_ascii_digit. destruct (Z.ltb_spec d 10).
  - rewrite (proj2 (Z.leb_le 48 _)), (proj2 (Z.leb_le _ 57)) by lia. cbn [andb]. split; [f_equal |]; lia.
  - replace ((48 <=? 87 + d) && (87 + d <=? 57)) with false by lia.
    replace ((97 <=? 87 + d) && (87 + d <=? 102)) with true by lia. split; [f_equal |]; lia.
Qed.

Lemma parse_hex_pair b : u_ok 8 b -> parse_hex 8 [hex_digit (b / 16); hex_digit (b mod 16)] = Some b.
Proof.
  intros Hb. destruct (nibbles b Hb) as (H1 & H2 & _). destruct (hex_value_digit _ H1) as [E1 N1], (hex_value_digit _ H2) as [E2 _].
  unfold parse_hex. rewrite not_plus by done. cbn [hex_digits]. rewrite E1, E2.
  replace ((0 * 16 + b / 16) * 16 + b mod 16) with b by (pose proof (Z.div_mod b 16); lia). rewrite (proj2 (Z.leb_le _ _)); [done |]. destruct Hb. unfold u_max. lia.
Qed.

Lemma parse_hex20_hex h : length h = 20%nat -> bytes_ok h -> parse_hex20 (info_hash_hex h) = Some h.
Proof.
  intros Hl Hb. unfold parse_hex20. destruct (info_hash_hex_chars h Hb) as [Hc _].
  unfold zlen. rewrite length_info_hash_hex, Hl. change (Z.of_nat (2 * 20) =? 40) with true.
  replace (forallb (fun c => c <? 128) (info_hash_hex h)) with true; cycle 1.
  { symmetry. apply forallb_forall. intros c Hin%list_elem_of_In. rewrite Forall_forall in Hc. destruct (Hc c Hin). lia. }
  cbn [negb orb]. clear Hl Hc. induction Hb as [| b h Hb Hh IH]; [done |].
  change (info_hash_hex (b :: h)) with (hex_digit (b / 16) :: hex_digit (b mod 16) :: info_hash_hex h).
  cbn [hex_bytes]. rewrite parse_hex_pair by done. cbn [mbind option_bind]. by rewrite IH.
Qed.

Lemma rate_read n : 1 <= n < 10 ^ 15 -> is_rate (f_of_Z n) = true /\ f_to_usize (f_of_Z n) = n.
Proof.
  intros Hn. assert (0 < n < 2 ^ 53) as Hn' by lia. split; [| by apply f_to_usize_exact].
  unfold is_rate, f_ge, f_lt. rewrite !f_compare_exact, f_whole_exact by lia.
  destruct (Z.compare_spec n 1), (Z.compare_spec n (10 ^ 15)); done || lia.
Qed.

(** ** An object whose keys may be left out *)

(** A key and what is written under it, if anything. *)
Abbreviation Slot := (list Z * option Field)%type.

Definition slot_fields (slots : list Slot) : list (list Z * Field) := omap (fun s : Slot => pair s.1 <$> s.2) slots.

Definition slot_line (slots : list Slot) : list Z := obj_finish (fold_left write_field (slot_fields slots) obj_new).

Definition slot_ok (s : Slot) : Prop := match s.2 with Some f => field_ok (s.1, f) | None => True end.

Lemma slot_fields_elem slots k f : (k, f) ∈ slot_fields slots <-> (k, Some f) ∈ slots.
Proof.
  unfold slot_fields. rewrite list_elem_of_omap. split.
  - intros ([k' [f' |]] & Hin & [= -> ->]). done.
  - intros Hin. by exists (k, Some f).
Qed.

Lemma slot_fields_keys slots : NoDup slots.*1 -> NoDup (slot_fields slots).*1.
Proof.
  induction slots as [| [k [f |]] slots IH]; [done | |]; cbn [fmap list_fmap fst]; intros [Hn Hnd]%NoDup_cons; [| by apply IH].
  change (slot_fields ((k, Some f) :: slots)) with ((k, f) :: slot_fields slots). cbn [fmap list_fmap fst].
  apply NoDup_cons. split; [| by apply IH]. intros ([k' f'] & E & Hin)%list_elem_of_fmap. cbn in E. subst k'.
  apply slot_fields_elem in Hin. apply Hn, list_elem_of_fmap. by exists (k, Some f').
Qed.

(** What is read back under each key is what was written there. *)
Lemma slots_read slots : NoDup slots.*1 -> Forall slot_ok slots ->
  no_newline (slot_line slots) /\
  exists map, parse_object (slot_line slots) = Some (Some map) /\
    (forall k o, (k, o) ∈ slots -> bt_get map k = field_value <$> o) /\ (forall k, k ∉ slots.*1 -> bt_get map k = None).
Proof.
  intros Hnd Hok. assert (Forall field_ok (slot_fields slots)) as Hf.
  { apply Forall_forall. intros [k f] Hin%slot_fields_elem. rewrite Forall_forall in Hok. exact (Hok _ Hin). }
  destruct (object_read_back _ Hf (slot_fields_keys _ Hnd)) as (Hl & map & Hm & Hg & Hn). split; [exact Hl |].
  exists map. split; [exact Hm |].
  assert (forall k, (forall f, (k, Some f) ∉ slots) -> bt_get map k = None) as Hnone.
  { intros k Hk. apply Hn. intros ([k' f] & E & Hin)%list_elem_of_fmap. cbn in E. subst k'. by apply slot_fields_elem, Hk in Hin. }
  split.
  - intros k [f |] Hin; [by apply Hg, slot_fields_elem |]. apply Hnone. intros f Hin'.
    apply list_elem_of_lookup in Hin as [i Hi], Hin' as [j Hj].
    assert (i = j) as <- by (eapply (NoDup_lookup slots.*1); [done | rewrite list_lookup_fmap, Hi; done | rewrite list_lookup_fmap, Hj; done]).
    congruence.
  - intros k Hk. apply Hnone. intros f Hin. apply Hk, list_elem_of_fmap. by exists (k, Some f).
Qed.

(** ** The line of an entry *)

(** The slots of the options, in the order they are written. *)
Definition option_slots (o : JobOptions) : list Slot :=
  [(str "files", match files o with [] => None | _ => Some (FString (format_indices (files o))) end);
   (str "only", match only o with [] => None | _ => Some (FString (join_lines (only o))) end);
   (str "prefer", match prefer o with [] => None | _ => Some (FString (join_lines (prefer o))) end);
   (str "sequential", if sequential o then Some (FBool true) else None);
   (str "max_up", FUint <$> max_up o);
   (str "max_down", FUint <$> max_down o)].

Definition entry_slots (e : Entry) : list Slot :=
  [(str "id", Some (FString (info_hash_hex (e_info_hash e)))); (str "out", Some (FString (e_out_dir e)));
   (str "magnet", match e_source e with Magnet uri => Some (FString uri) | File _ => None end);
   (str "file", match e_source e with Magnet _ => None | File path => Some (FString path) end)]
  ++ option_slots (e_options e) ++
  [(str "paused", match e_dormant e with Some DPaused => Some (FBool true) | _ => None end);
   (str "finished", match e_dormant e with Some (DFinished reason) => Some (FString reason) | _ => None end)].

Lemma write_options_slots o buf : write_options o buf = fold_left write_field (slot_fields (option_slots o)) buf.
Proof.
  unfold write_options, option_slots. destruct o as [fs os ps sq up down]. cbn [files only prefer sequential max_up max_down].
  destruct fs, os, ps, sq, up, down; reflexivity.
Qed.

Lemma slot_fields_app a b : slot_fields (a ++ b) = slot_fields a ++ slot_fields b.
Proof. unfold slot_fields. by rewrite omap_app. Qed.

Lemma to_line_slots e : to_line e = slot_line (entry_slots e).
Proof.
  unfold to_line, slot_line, entry_slots. rewrite !slot_fields_app, !fold_left_app, <- write_options_slots.
  destruct e as [h [uri | path] out o [[| reason] |]]; reflexivity.
Qed.

Definition rate_ok (r : option Z) : Prop := match r with Some n => 1 <= n < 10 ^ 15 | None => True end.

(** Options a request can carry, and a line keep. *)
Definition options_ok (o : JobOptions) : Prop :=
  Forall (u_ok 64) (files o) /\ Forall pattern_ok (only o) /\ Forall pattern_ok (prefer o) /\ rate_ok (max_up o) /\ rate_ok (max_down o).

Definition entry_ok (e : Entry) : Prop :=
  length (e_info_hash e) = 20%nat /\ bytes_ok (e_info_hash e) /\ text_ok (e_out_dir e) /\
  text_ok (match e_source e with Magnet s | File s => s end) /\ options_ok (e_options e) /\
  match e_dormant e with Some (DFinished reason) => text_ok reason | _ => True end.

Lemma join_lines_text ps : Forall pattern_ok ps -> text_ok (join_lines ps).
Proof.
  intros H. unfold join_lines, text_ok. destruct H as [| p ps (_ & Hp & _) H]; [done |]. rewrite join_with_concat.
  apply Forall_app. split; [done |]. apply Forall_concat, Forall_fmap, (Forall_impl _ _ _ H). intros q (_ & Hq & _). by constructor.
Qed.

Lemma scalar_ascii c : 0 <= c < 128 -> is_scalar c = true.
Proof. unfold is_scalar. lia. Qed.

Lemma option_slots_ok o : options_ok o -> Forall slot_ok (option_slots o).
Proof.
  intros (Hf & Ho & Hp & Hu & Hd). unfold option_slots, slot_ok.
  assert (forall k : String.string, Forall (fun a => 0 <= a < 128) (str k) -> text_ok (str k)) as Hk.
  { intros k Hk. apply (Forall_impl _ _ _ Hk). intros c Hc. by apply scalar_ascii. }
  assert (text_ok (format_indices (files o))) as Hfi.
  { apply (Forall_impl _ _ _ (format_indices_ascii _ Hf)). intros c Hc. apply scalar_ascii. lia. }
  pose proof (join_lines_text _ Ho). pose proof (join_lines_text _ Hp).
  destruct o as [fs os ps sq up down]. cbn [files only prefer sequential max_up max_down] in *.
  repeat constructor; cbn [fst snd]; [destruct fs | destruct os | destruct ps | destruct sq | destruct up | destruct down];
    cbn [fmap option_fmap option_map]; unfold field_ok; cbn [fst snd]; try done; try (split; [apply Hk; by repeat constructor |]; first [done | cbn in Hu, Hd; lia]).
Qed.

Lemma entry_slots_keys e : NoDup (entry_slots e).*1.
Proof. apply (bool_decide_unpack (NoDup (entry_slots e).*1)). by vm_compute. Qed.

Lemma entry_slots_ok e : entry_ok e -> Forall slot_ok (entry_slots e).
Proof.
  intros (_ & Hb & Ho & Hs & Hopt & Hd). unfold entry_slots. apply Forall_app. split; [| apply Forall_app; split; [by apply option_slots_ok |]].
  - assert (text_ok (info_hash_hex (e_info_hash e))) as Hh.
    { apply (Forall_impl _ _ _ (proj1 (info_hash_hex_chars _ Hb))). intros c Hc. apply scalar_ascii. by destruct Hc. }
    destruct (e_source e) as [uri | path]; repeat constructor; done.
  - destruct (e_dormant e) as [[| reason] |]; repeat constructor; done.
Qed.

(** A key of the entry, by its place among the slots. *)
Local Ltac slot Hg e i name := pose proof (Hg _ _ (list_elem_of_lookup_2 (entry_slots e) i _ eq_refl)) as name.

Lemma rate_slot map key r : bt_get map key = field_value <$> (FUint <$> r) -> rate_ok r -> rate map key = Ok r.
Proof.
  intros Hg Hr. unfold rate. rewrite Hg. destruct r as [n |]; [| done]. cbn [fmap option_fmap option_map field_value].
  destruct (rate_read n Hr) as [-> ->]. done.
Qed.

Lemma entry_of_map e map : entry_ok e -> (forall k o, (k, o) ∈ entry_slots e -> bt_get map k = field_value <$> o) -> entry_of map = Ok e.
Proof.
  intros (Hl & Hb & _ & _ & (Hf & Hon & Hpr & Hu & Hd) & _) Hg. unfold entry_of.
  slot Hg e 0%nat G0. slot Hg e 1%nat G1.
  slot Hg e 2%nat G2. slot Hg e 3%nat G3.
  slot Hg e 4%nat G4. slot Hg e 5%nat G5.
  slot Hg e 6%nat G6. slot Hg e 7%nat G7.
  slot Hg e 8%nat G8. slot Hg e 9%nat G9.
  slot Hg e 10%nat G10. slot Hg e 11%nat G11.
  clear Hg. rewrite (rate_slot _ _ _ G8 Hu), (rate_slot _ _ _ G9 Hd).
  assert (forall l key, Forall pattern_ok l -> bt_get map key = field_value <$> (match l with [] => None | _ => Some (FString (join_lines l)) end) ->
    exists o, text map key = Ok o /\ split_lines (default [] o) = l) as Hlist.
  { intros l key Hl' Hg. unfold text. rewrite Hg. destruct l as [| p l]; [by exists None |].
    exists (Some (join_lines (p :: l))). split; [done |]. by apply split_lines_join. }
  destruct (Hlist _ _ Hon G5) as (o5 & -> & E5), (Hlist _ _ Hpr G6) as (o6 & -> & E6).
  assert (exists o, text map (str "files") = Ok o /\ parse_indices (utf8_encode (default [] o)) = Ok (files (e_options e))) as (o4 & -> & E4).
  { unfold text. rewrite G4. pose proof (parse_indices_format _ Hf) as E. pose proof (format_indices_ascii _ Hf) as Ha.
    destruct (files (e_options e)) as [| i is_]; [by exists None |]. eexists (Some _). split; [done |]. cbn [default].
    rewrite utf8_encode_ascii; [done |]. apply (Forall_impl _ _ _ Ha). intros c Hc. cbn in Hc |- *. lia. }
  unfold text, flag. rewrite G0, G1, G2, G3, G7, G10, G11. cbn [fmap option_fmap option_map field_value result_bind ok_or].
  rewrite parse_hex20_hex by done. cbn [ok_or result_bind].
  destruct e as [h src out [fs os ps sq up down] dor]. cbn [e_source e_options e_dormant files only prefer sequential max_up max_down e_info_hash e_out_dir] in *.
  destruct src as [uri | path]; cbn [fmap option_fmap option_map field_value result_bind]; rewrite E4; cbn [result_bind]; rewrite E5, E6;
    destruct sq, dor as [[| reason] |]; reflexivity.
Qed.

Lemma from_line_to_line e : entry_ok e -> from_line (to_line e) = Some (Ok e).
Proof.
  intros He. unfold from_line. rewrite to_line_slots.
  destruct (slots_read _ (entry_slots_keys e) (entry_slots_ok e He)) as (_ & map & -> & Hg & _).
  cbn [mbind option_bind]. by rewrite (entry_of_map e).
Qed.

(** ** The file of entries *)

Lemma to_line_shape e : exists s, to_line e = [123] ++ s ++ [125].
Proof. rewrite to_line_slots. by eexists. Qed.

Lemma to_line_one_line e : entry_ok e -> Forall (fun c => c <> 10) (to_line e).
Proof. intros He. rewrite to_line_slots. apply (slots_read _ (entry_slots_keys e) (entry_slots_ok e He)). Qed.

Lemma entries_lines es : Forall entry_ok es -> lines (entries_text es) = to_line <$> es.
Proof.
  unfold lines, entries_text. induction 1 as [| e es He _ IH]; [done |]. cbn [flat_map]. rewrite <- app_assoc.
  change ([10] ++ ?x) with (10 :: x). rewrite split_on_part by (by apply to_line_one_line).
  destruct (split_on_cons 10 (flat_map (fun e => to_line e ++ [10]) es)) as (part & parts & E). rewrite E in *.
  change (strip_cr (to_line e) :: lines_of (part :: parts) = to_line e :: (to_line <$> es)). rewrite IH. f_equal.
  apply strip_cr_none. destruct (to_line_shape e) as [s ->]. rewrite app_assoc, last_snoc. done.
Qed.

Lemma to_line_not_blank e : trim_chars (to_line e) <> [].
Proof.
  destruct (to_line_shape e) as [s ->]. unfold trim_chars. intros H. apply (f_equal length) in H. revert H.
  assert (forall l x, is_whitespace x = false -> trim_left (x :: l) = x :: l) as Ht by (intros l x E; cbn [trim_left]; by rewrite E).
  cbn [app]. rewrite Ht by done. rewrite app_comm_cons, reverse_app. change (reverse [125]) with [125]. cbn [app].
  rewrite Ht by done. rewrite length_reverse. cbn. lia.
Qed.

Lemma read_entries_lines es : forall number before, Forall entry_ok es -> NoDup (e_info_hash <$> before ++ es) ->
  read_entries number (to_line <$> es) before [] = Some (before ++ es, []).
Proof.
  induction es as [| e es IH]; intros number before Hok Hnd; [by rewrite app_nil_r |]. apply Forall_cons in Hok as [He Hes].
  rewrite fmap_cons. cbn [read_entries]. pose proof (to_line_not_blank e) as Hb. destruct (trim_chars (to_line e)) as [| c r]; [done |].
  rewrite from_line_to_line by done. cbn [mbind option_bind].
  replace (existsb _ before) with false; cycle 1.
  { symmetry. apply not_true_iff_false. intros (e' & Hin%list_elem_of_In & E%bool_decide_eq_true)%existsb_exists.
    rewrite fmap_app in Hnd. apply NoDup_app in Hnd as (_ & Hdis & _). apply (Hdis (e_info_hash e')); [by apply list_elem_of_fmap_2 |].
    rewrite fmap_cons, E. left. }
  rewrite IH; [by rewrite <- app_assoc | done | by rewrite <- app_assoc].
Qed.

Lemma parse_entries_text es : Forall entry_ok es -> NoDup (e_info_hash <$> es) -> parse_entries (entries_text es) = Some (es, []).
Proof. intros Hok Hnd. unfold parse_entries. rewrite entries_lines by done. by apply (read_entries_lines es 1 []). Qed.

(** What is written is text. *)
Lemma escape_text s : text_ok s -> text_ok (escape s).
Proof.
  unfold text_ok, escape. induction 1 as [| c s Hc _ IH]; [done |]. cbn [flat_map]. apply Forall_app. split; [| done].
  assert (0 <= c) by (unfold is_scalar in Hc; lia).
  assert (c < 32 -> 0 <= c / 16 < 2 /\ 0 <= c mod 16 < 16) as Hn by (intros; Z.div_mod_to_equations; lia).
  unfold escape_char. repeat case_match; repeat constructor; try done; apply scalar_ascii; unfold hex_lower; repeat case_match; lia.
Qed.

Lemma field_text_text f : field_ok f -> text_ok (field_text f).
Proof.
  intros [Hk Hv]. destruct f as [k f]. cbn [fst snd] in *. unfold field_text, text_ok. cbn [fst snd].
  repeat (apply Forall_app; split); try (by repeat constructor); [by apply escape_text |].
  destruct f as [s | n | [] |]; cbn [value_text]; try (by repeat constructor).
  - repeat (apply Forall_app; split); try (by repeat constructor). by apply escape_text.
  - destruct (u_to_string_digits n (proj1 Hv)) as [_ Hd]. apply (Forall_impl _ _ _ Hd). intros c Hc. apply scalar_ascii. lia.
Qed.

Lemma to_line_text e : entry_ok e -> text_ok (to_line e).
Proof.
  intros He. rewrite to_line_slots. unfold slot_line, obj_finish, text_ok.
  repeat (apply Forall_app; split); try (by repeat constructor).
  assert (Forall field_ok (slot_fields (entry_slots e))) as Hf.
  { pose proof (entry_slots_ok e He) as Hok. apply Forall_forall. intros [k f] Hin%slot_fields_elem. rewrite Forall_forall in Hok. exact (Hok _ Hin). }
  destruct Hf as [| f fs Hf Hfs]; [by constructor |]. rewrite write_fields_text. apply Forall_app. split; [by apply field_text_text |].
  unfold more_text. clear Hf. induction Hfs as [| g gs Hg _ IH]; [by constructor |]. cbn [flat_map]. apply Forall_app. split; [| done].
  constructor; [done | by apply field_text_text].
Qed.

Lemma entries_text_text es : Forall entry_ok es -> text_ok (entries_text es).
Proof.
  unfold text_ok, entries_text. induction 1 as [| e es He _ IH]; [by constructor |]. cbn [flat_map].
  apply Forall_app. split; [apply Forall_app; split; [by apply to_line_text | by repeat constructor] | done].
Qed.

Lemma under_ne dir : under dir (ENTRIES_FILE ++ str ".part") <> under dir ENTRIES_FILE.
Proof.
  unfold under, FileWriter.join. change (ENTRIES_FILE ++ str ".part") with (116 :: str "orrents.jsonl.part").
  change ENTRIES_FILE with (116 :: str "orrents.jsonl"). cbn [Z.eqb Pos.eqb FileWriter.slash].
  destruct (last dir) as [l |]; [| done]. destruct (l =? FileWriter.slash); intros E%app_inv_head; done.
Qed.

(** What [save] leaves: the new entries whole, or the file as it was. *)
Lemma save_leaves dir w renamed es fs : let '(fs', r) := save dir w renamed es fs in
  fs' (under dir ENTRIES_FILE) = (match r with Ok _ => Some (utf8_encode (entries_text es)) | Err _ => fs (under dir ENTRIES_FILE) end) /\
  (w = Written -> renamed = None -> r = Ok tt) /\
  forall p, p <> under dir ENTRIES_FILE -> p <> under dir (ENTRIES_FILE ++ str ".part") -> fs' p = fs p.
Proof.
  pose proof (under_ne dir) as Hne. unfold save, write_file, rename_file.
  destruct w as [| e [n |]]; [destruct renamed as [k |] | |]; cbv beta iota zeta;
    (split; [| split; [done |]; intros p H1 H2]);
    by rewrite ?(set_file_ne (under dir ENTRIES_FILE)), ?(set_file_eq (under dir ENTRIES_FILE)), ?set_file_eq, ?set_file_ne by done.
Qed.

(** Entries saved are the entries loaded. *)
Lemma save_load dir w renamed es fs : Forall entry_ok es -> NoDup (e_info_hash <$> es) ->
  let '(fs', r) := save dir w renamed es fs in
  load dir None fs' = match r with Ok _ => Some (es, []) | Err _ => load dir None fs end.
Proof.
  intros Hok Hnd. pose proof (save_leaves dir w renamed es fs) as H. destruct (save dir w renamed es fs) as [fs' r].
  destruct H as (Hf & _ & _). unfold load. rewrite Hf. destruct r as [u | e]; [| done].
  rewrite from_utf8_encode by (by apply entries_text_text). by apply parse_entries_text.
Qed.

(** ** Properties *)

(** C22: what the daemon was given survives a restart.  Entries saved, whatever
    texts, patterns and limits they carry, are loaded as they were, in order,
    with no warning; and when the write or the rename fails, wherever it fails,
    what is loaded is what would have been loaded before.  Nothing else in the
    directory changes but the [.part] file. *)
Theorem state_survives (dir : list Z) (w : Write) (renamed : option ErrorKind) (es : list Entry) (fs : Files)
    (Hok : Forall entry_ok es) (Hnd : NoDup (e_info_hash <$> es)) :
  let '(fs', r) := save dir w renamed es fs in
  load dir None fs' = (match r with Ok _ => Some (es, []) | Err _ => load dir None fs end) /\
  (w = Written -> renamed = None -> r = Ok tt) /\
  forall p, p <> under dir ENTRIES_FILE -> p <> under dir (ENTRIES_FILE ++ str ".part") -> fs' p = fs p.
Proof.
  pose proof (save_leaves dir w renamed es fs) as H. pose proof (save_load dir w renamed es fs Hok Hnd) as Hl.
  destruct (save dir w renamed es fs) as [fs' r]. by destruct H.
Qed.

Definition example_entry : Entry :=
  mkEntry (replicate 20 171) (Magnet (str "magnet:?xt=urn:btih:" ++ [233])) (str "/d/with " ++ [34; 92; 0x1F3AC])
    (mkJobOptions [1; 3] [str ".mkv"; str "a b"] [] true (Some 50000) None) (Some (DFinished (str "ratio 2"))).

Lemma state_survives_witness :
  let '(fs', r) := save (str "/s") Written None [example_entry] (fun _ => None) in
  r = Ok tt /\ load (str "/s") None fs' = Some ([example_entry], []).
Proof.
  pose proof (state_survives (str "/s") Written None [example_entry] (fun _ => None)
    ltac:(repeat constructor; cbn; try done; intros [=]) ltac:(apply NoDup_singleton)) as H.
  destruct (save (str "/s") Written None [example_entry] (fun _ => None)) as [fs' r].
  destruct H as (Hl & Hr & _). specialize (Hr eq_refl eq_refl). subst r. by split.
Defined.
