(* ===== verification/Manager.v ===== *)
(** * The torrents a daemon runs

    Models [src/src/daemon/manager.rs]: adding, removing, pausing and resuming
    torrents, and keeping the state directory up to date with them; and what
    [src/src/daemon/job.rs] has of a job as the manager sees it (its
    specification, its state, whether its thread runs).

    A command is the steps it takes under its locks, in order: each step is a
    function, so what other threads do between two of them can be put there.
    What a job's thread does in the meantime, what reading a file gives and
    whether writes succeed are arguments.  The name, progress and log a status
    shows are left out.  SHA-1 and [str::to_lowercase] are parameters.  A
    [None] is a panic. *)

From S2P Require Import Create CreateFacts Magnet.
From S2P Require Import Prelude Str Bytes Numeral Text BTree Bencode Io Sha256 Torrent Selection Json Utf8 Entries.

Definition MIN_ID_LEN : Z := 4.

Record Job : Type := mkJob {
  j_id : nat;
  j_info_hash : list Z;
  j_source : Source;
  j_out_dir : list Z;
  j_options : JobOptions;
  j_state : JobState;
  j_running : bool
}.

(** [jobs] and [entries], the files, the number the next job gets, and the jobs
    whose threads run although they are in no list any more. *)
Record Manager : Type := mkManager {
  jobs : list Job;
  entries : list Entry;
  m_files : Files;
  next_id : nat;
  loose : list Job
}.

Definition set_jobs (js : list Job) (m : Manager) : Manager := mkManager js (entries m) (m_files m) (next_id m) (loose m).
Definition set_entries (es : list Entry) (m : Manager) : Manager := mkManager (jobs m) es (m_files m) (next_id m) (loose m).
Definition set_m_files (fs : Files) (m : Manager) : Manager := mkManager (jobs m) (entries m) fs (next_id m) (loose m).

(** A job dropped from every list: its thread, if it runs, runs on. *)
Definition let_loose (j : Job) (m : Manager) : Manager :=
  mkManager (jobs m) (entries m) (m_files m) (next_id m) (if j_running j then loose m ++ [j] else loose m).

Inductive ManagerError : Type :=
| OutNotAbsolute
| BadLink (e : MagnetError)
| SourceNotAbsolute
| ReadingTorrent (e : ErrorKind)
| ParsingTorrent (e : TorrentError)
| BadSelection (e : SelectError)
| KeepingCopy (e : CreateError)
| AlreadyAdded (info_hash : list Z)
| SavingState (e : CreateError)
| IdTooShort (id : list Z)
| NoTorrent (id : list Z)
| MoreThanOne (id : list Z)
| PausedAlready
| IsRunning
| WasRemoved.

(** How the writes of one command turn out. *)
Record Disk : Type := mkDisk {
  d_write : Write;
  d_rename : option ErrorKind
}.

Definition fine : Disk := mkDisk Written None.

Section manager.
Context (sha1 : list Z -> list Z) (to_lowercase : list Z -> list Z).
(** The state directory, if there is one. *)
Context (store : option (list Z)).

Definition save_state (d : Disk) (m : Manager) : Manager * result unit ManagerError :=
  match store with
  | None => (m, Ok tt)
  | Some dir =>
      let '(fs, r) := save dir (d_write d) (d_rename d) (entries m) (m_files m) in
      (set_m_files fs m, match r with Ok _ => Ok tt | Err e => Err (SavingState e) end)
  end.

(** [job_for]: a thread, unless it is dormant. *)
Definition job_for (e : Entry) (m : Manager) : Job * Manager :=
  (mkJob (next_id m) (e_info_hash e) (e_source e) (e_out_dir e) (e_options e)
     (match e_dormant e with Some d => dormant_state d | None => Checking end)
     (match e_dormant e with Some _ => false | None => true end),
   mkManager (jobs m) (entries m) (m_files m) (S (next_id m)) (loose m)).

Fixpoint restore_each (es : list Entry) (m : Manager) : Manager :=
  match es with
  | [] => m
  | e :: rest =>
      let '(job, m) := job_for e m in
      restore_each rest (set_entries (entries m ++ [e]) (set_jobs (jobs m ++ [job]) m))
  end.

Definition restore (reads : option ErrorKind) (m : Manager) : option (Manager * list Warning) :=
  match store with
  | None => Some (m, [])
  | Some dir => '(es, warnings) ← load dir reads (m_files m); Some (restore_each es m, warnings)
  end.

(** ** Adding *)

Definition is_absolute (p : list Z) : bool := match p with c :: _ => c =? 47 | [] => false end.

Definition add_magnet (source : list Z) (o : JobOptions) : option (result (list Z * Source * JobOptions) ManagerError) :=
  r ← parse_magnet_uri (utf8_encode source);
  Some (match r with
        | Err e => Err (BadLink e)
        | Ok magnet =>
            let o := match files o, only o with
                     | [], [] => mkJobOptions ((fun i => wrap 64 (i + 1)) <$> select_only magnet) (only o) (prefer o) (sequential o) (max_up o) (max_down o)
                     | _, _ => o
                     end in
            Ok (m_info_hash magnet, Entries.Magnet source, o)
        end).

(** The checks of [options] against a torrent. *)
Definition check_options (t : TorrentFile) (o : JobOptions) : result unit ManagerError :=
  match build_mask_for to_lowercase t (files o) (utf8_encode <$> only o) with
  | Err e => Err (BadSelection e)
  | Ok _ =>
      match prefer o with
      | [] => Ok tt
      | _ => match build_prefer_mask_for to_lowercase t (utf8_encode <$> prefer o) with Err e => Err (BadSelection e) | Ok _ => Ok tt end
      end
  end.

(** The copy the daemon keeps. *)
Definition keep_copy (w : Write) (path info_hash bytes : list Z) (m : Manager) : Manager * result (list Z) ManagerError :=
  match store with
  | None => (m, Ok path)
  | Some dir =>
      let kept := torrent_path dir info_hash in
      let '(fs, r) := write_file w (m_files m) kept bytes in
      (set_m_files fs m, match r with Ok _ => Ok kept | Err e => Err (KeepingCopy e) end)
  end.

(** [read] is what [fs::read] of the path gives. *)
Definition add_file (path : list Z) (read : result (list Z) ErrorKind) (w : Write) (o : JobOptions) (m : Manager) :
    option (Manager * result (list Z * Source * JobOptions) ManagerError) :=
  if negb (is_absolute path) then Some (m, Err SourceNotAbsolute)
  else
    match read with
    | Err e => Some (m, Err (ReadingTorrent e))
    | Ok bytes =>
        r ← parse_torrent_file sha1 bytes;
        match r with
        | Err e => Some (m, Err (ParsingTorrent e))
        | Ok t =>
            match check_options t o with
            | Err e => Some (m, Err e)
            | Ok _ =>
                let '(m, r) := keep_copy w path (t_info_hash t) bytes m in
                Some (m, match r with Err e => Err e | Ok kept => Ok (t_info_hash t, File kept, o) end)
            end
        end
    end.

(** What [add] does before it takes its locks. *)
Definition add_source (source out_dir : list Z) (read : result (list Z) ErrorKind) (w : Write) (o : JobOptions) (m : Manager) :
    option (Manager * result (list Z * Source * JobOptions) ManagerError) :=
  if negb (is_absolute out_dir) then Some (m, Err OutNotAbsolute)
  else if starts_with (str "magnet:?") source then r ← add_magnet source o; Some (m, r)
  else add_file source read w o m.

(** What it does holding them. *)
Definition add_entry (info_hash : list Z) (source : Source) (out_dir : list Z) (o : JobOptions) (d : Disk) (m : Manager) :
    Manager * result Job ManagerError :=
  if existsb (fun j => bool_decide (j_info_hash j = info_hash)) (jobs m) then (m, Err (AlreadyAdded info_hash))
  else
    let entry := mkEntry info_hash source out_dir o None in
    let '(job, m) := job_for entry m in
    let '(m, r) := save_state d (set_entries (entries m ++ [entry]) m) in
    match r with
    | Err e => (let_loose job m, Err e)
    | Ok _ => (set_jobs (jobs m ++ [job]) m, Ok job)
    end.

Definition add (source out_dir : list Z) (o : JobOptions) (read : result (list Z) ErrorKind) (w : Write) (d : Disk) (m : Manager) :
    option (Manager * result Job ManagerError) :=
  '(m, r) ← add_source source out_dir read w o m;
  Some (match r with
        | Err e => (m, Err e)
        | Ok (info_hash, source, o) => add_entry info_hash source out_dir o d m
        end).

(** ** Finding *)

Definition matching (js : list Job) (id : list Z) : list nat :=
  filter (fun i => match js !! i with Some j => starts_with id (info_hash_hex (j_info_hash j)) | None => false end = true) (seq 0 (length js)).

Definition find (js : list Job) (id : list Z) : result nat ManagerError :=
  let id := to_ascii_lowercase (trim_chars id) in
  if zlen (utf8_encode id) <? MIN_ID_LEN then Err (IdTooShort id)
  else match matching js id with
       | [one] => Ok one
       | [] => Err (NoTorrent id)
       | _ => Err (MoreThanOne id)
       end.

(** ** What a job's thread tells *)

Fixpoint update_first (f : Entry -> bool) (g : Entry -> Entry) (es : list Entry) : option (list Entry) :=
  match es with
  | [] => None
  | e :: rest => if f e then Some (g e :: rest) else rest' ← update_first f g rest; Some (e :: rest')
  end.

Definition with_dormant (d : option Dormant) (e : Entry) : Entry := mkEntry (e_info_hash e) (e_source e) (e_out_dir e) (e_options e) d.
Definition with_source (s : Source) (e : Entry) : Entry := mkEntry (e_info_hash e) s (e_out_dir e) (e_options e) (e_dormant e).

Definition has_hash (h : list Z) (e : Entry) : bool := bool_decide (e_info_hash e = h).
Definition is_magnet (s : Source) : bool := match s with Entries.Magnet _ => true | File _ => false end.

Definition finished (info_hash reason : list Z) (d : Disk) (m : Manager) : Manager :=
  match update_first (has_hash info_hash) (with_dormant (Some (DFinished reason))) (entries m) with
  | Some es => (save_state d (set_entries es m)).1
  | None => m
  end.

(** [w], [renamed] and [removed] are how saving the torrent goes. *)
Definition resolved (t : TorrentFile) (w : Write) (renamed : option ErrorKind) (removed : bool) (d : Disk) (m : Manager) : Manager :=
  match store with
  | None => m
  | Some dir =>
      let path := torrent_path dir (t_info_hash t) in
      let '(fs, r) := save_torrent sha1 w renamed removed (m_files m) t path in
      let m := set_m_files fs m in
      match r with
      | Err _ => m
      | Ok _ =>
          match update_first (fun e => has_hash (t_info_hash t) e && is_magnet (e_source e)) (with_source (File path)) (entries m) with
          | Some es => (save_state d (set_entries es m)).1
          | None => m
          end
      end
  end.

(** How a thread ends, and what of it the manager is told. *)
Inductive JobEnd : Type :=
| EndsFinished (reason : list Z)
| EndsFailed (reason : list Z)
| EndsStopped.

Definition end_state (e : JobEnd) : JobState :=
  match e with EndsFinished r => Finished r | EndsFailed r => Failed r | EndsStopped => Stopped end.

Definition ended (e : JobEnd) (j : Job) : Job :=
  mkJob (j_id j) (j_info_hash j) (j_source j) (j_out_dir j) (j_options j) (end_state e) false.

Definition tell_finished (e : JobEnd) (j : Job) (d : Disk) (m : Manager) : Manager :=
  match e with EndsFinished reason => finished (j_info_hash j) reason d m | _ => m end.

(** The thread of the job at [i] ends by itself. *)
Definition job_ends (i : nat) (e : JobEnd) (d : Disk) (m : Manager) : Manager :=
  match jobs m !! i with
  | Some j => if j_running j then tell_finished e j d (set_jobs (<[i := ended e j]> (jobs m)) m) else m
  | None => m
  end.

(** It gets on: resolving, checking, downloading, seeding. *)
Definition job_gets_on (i : nat) (s : JobState) (m : Manager) : Manager :=
  match jobs m !! i with
  | Some j =>
      if j_running j && negb (is_over s) then
        set_jobs (<[i := mkJob (j_id j) (j_info_hash j) (j_source j) (j_out_dir j) (j_options j) s true]> (jobs m)) m
      else m
  | None => m
  end.

(** ** Removing, pausing, resuming *)

(** [Job::stop] of a job, wherever it is: its thread is told to end and waited
    for.  A failure after being told to stop counts as stopped. *)
Definition stop_end (e : JobEnd) : JobEnd := match e with EndsFailed _ => EndsStopped | _ => e end.

Definition stop_job (j : Job) (e : JobEnd) (d : Disk) (m : Manager) : Manager * Job :=
  if j_running j then
    let j' := ended (stop_end e) j in
    let m := set_jobs ((fun k => if (j_id k =? j_id j)%nat then j' else k) <$> jobs m) m in
    (tell_finished (stop_end e) j d m, j')
  else (m, j).

Definition take_job (id : list Z) (m : Manager) : Manager * result Job ManagerError :=
  match find (jobs m) id with
  | Err e => (m, Err e)
  | Ok i => match jobs m !! i with Some j => (set_jobs (delete i (jobs m)) m, Ok j) | None => (m, Err (NoTorrent id)) end
  end.

Definition forget (info_hash : list Z) (d : Disk) (m : Manager) : Manager * result unit ManagerError :=
  save_state d (set_entries (filter (fun e => e_info_hash e <> info_hash) (entries m)) m).

Definition remove_copy (info_hash : list Z) (goes : bool) (m : Manager) : Manager :=
  match store with
  | Some dir => if goes then set_m_files (set_file (m_files m) (torrent_path dir info_hash) None) m else m
  | None => m
  end.

Definition remove (id : list Z) (e : JobEnd) (goes : bool) (d d' : Disk) (m : Manager) : Manager * result Job ManagerError :=
  let '(m, r) := take_job id m in
  match r with
  | Err e => (m, Err e)
  | Ok job =>
      let '(m, r) := forget (j_info_hash job) d m in
      match r with
      | Err e => (let_loose job m, Err e)
      | Ok _ =>
          let '(m, job) := stop_job job e d' m in
          (remove_copy (j_info_hash job) goes m, Ok job)
      end
  end.

Definition find_job (id : list Z) (m : Manager) : result Job ManagerError :=
  let? i := find (jobs m) id in ok_or (jobs m !! i) (NoTorrent id).

Definition replace (old : Job) (dormant : option Dormant) (d : Disk) (m : Manager) : Manager * result Job ManagerError :=
  match list_find (fun j => j_id j = j_id old) (jobs m), list_find (fun e => e_info_hash e = j_info_hash old) (entries m) with
  | Some (at_, _), Some (k, entry) =>
      let entry := with_dormant dormant entry in
      let m := set_entries (<[k := entry]> (entries m)) m in
      let '(job, m) := job_for entry m in
      let '(m, r) := save_state d m in
      match r with
      | Err e => (let_loose job m, Err e)
      | Ok _ => (set_jobs (<[at_ := job]> (jobs m)) m, Ok job)
      end
  | _, _ => (m, Err WasRemoved)
  end.

Definition is_paused (s : JobState) : bool := match s with Paused => true | _ => false end.

Definition pause (id : list Z) (e : JobEnd) (d d' : Disk) (m : Manager) : Manager * result Job ManagerError :=
  match find_job id m with
  | Err e => (m, Err e)
  | Ok job =>
      if is_paused (j_state job) then (m, Err PausedAlready)
      else let '(m, job) := stop_job job e d m in replace job (Some DPaused) d' m
  end.

Definition resume (id : list Z) (e : JobEnd) (d d' : Disk) (m : Manager) : Manager * result Job ManagerError :=
  match find_job id m with
  | Err e => (m, Err e)
  | Ok job =>
      if negb (is_over (j_state job)) then (m, Err IsRunning)
      else let '(m, job) := stop_job job e d m in replace job None d' m
  end.

End manager.

(** ** Info hashes are twenty bytes *)

Lemma sha256_bytes data : length (sha256 data) = 32%nat /\ bytes_ok (sha256 data).
Proof.
  unfold sha256, finalize. set (h := update (update new data) _).
  assert (length (state h) = 8%nat) as Hl.
  { assert (forall s b, length s = 8%nat -> length (compress s b) = 8%nat) as Hc.
    { intros s b Hs. unfold compress. rewrite length_zip_with.
      enough (length (foldl (round (schedule b)) s (seq 0 64)) = 8%nat) as -> by lia. revert Hs. generalize (seq 0 64), s.
      induction l as [| i l IH]; intros v Hv; [done |]. cbn [foldl]. apply IH.
      do 8 (destruct v as [| ? v]; [done |]). by destruct v. }
    assert (absorbed h (data ++ tail_of (update new data))) as [-> _ _ _ _]
      by (apply update_absorbed; apply (update_absorbed _ [] data), new_absorbed).
    generalize (as_chunks (length (data ++ tail_of (update new data))) 64 (data ++ tail_of (update new data))).
    assert (length INITIAL = 8%nat) as Hi by done. revert Hi. generalize INITIAL. intros s Hs l. revert s Hs.
    induction l as [| b l IH]; intros s Hs; [done |]. cbn [foldl]. by apply IH, Hc. }
  split.
  - revert Hl. generalize (state h). intros s Hs. do 8 (destruct s as [| ? s]; [done |]). by destruct s.
  - generalize (state h). induction l as [| z l IH]; [by constructor |]. cbn [flat_map]. apply Forall_app. split; [apply to_be_bytes_ok | done].
Qed.

Definition hash_ok (h : list Z) : Prop := length h = 20%nat /\ bytes_ok h.

Lemma torrent_hash (sha1 : list Z -> list Z) data : (forall d, hash_ok (sha1 d)) -> zlen data <= i64_max ->
  exists r, parse_torrent_file sha1 data = Some r /\ forall t, r = Ok t -> hash_ok (t_info_hash t).
Proof.
  intros Hsha Hlen. destruct (parse_torrent_ok sha1 data Hlen) as (r & Hr & Hok). exists r. split; [done |].
  intros t Ht. destruct (Hok t Ht) as (_ & raw & ->). destruct (is_v2_only t); [| apply Hsha].
  destruct (sha256_bytes raw) as [Hl Hb]. split; [rewrite length_take; lia | by apply Forall_take].
Qed.

(** ** Paths of the state directory *)

Lemma torrent_path_other dir h suffix : bytes_ok h -> torrent_path dir h ++ suffix <> under dir ENTRIES_FILE.
Proof.
  intros Hb. unfold torrent_path, under.
  assert (exists pre, (forall name, FileWriter.join dir (116 :: name) = pre ++ 116 :: name)) as [pre Hpre].
  { unfold FileWriter.join. cbn [Z.eqb Pos.eqb FileWriter.slash]. destruct (last dir) as [l |]; [| by exists []].
    destruct (l =? FileWriter.slash); [by exists dir |]. exists (dir ++ [FileWriter.slash]). intros name. by rewrite <- app_assoc. }
  change TORRENTS_DIR with (116 :: str "orrents"). change ENTRIES_FILE with (116 :: str "orrents.jsonl"). rewrite !Hpre.
  set (name := info_hash_hex h ++ str ".torrent").
  assert (exists more, FileWriter.join (pre ++ 116 :: str "orrents") name = pre ++ str "torrents/" ++ more) as [more ->].
  { assert (last (pre ++ 116 :: str "orrents") = Some 115) as Hlast by (by rewrite last_app). unfold FileWriter.join.
    assert (exists c r, name = c :: r /\ c <> 47) as (c & r & -> & Hc).
    { unfold name. destruct Hb as [| b h Hb _]; [by eexists _, _ |]. exists (hex_digit (b / 16)). eexists. split; [done |].
      destruct (nibbles b Hb) as (H1 & _). unfold hex_digit. case_match; lia. }
    rewrite (proj2 (Z.eqb_neq c FileWriter.slash)), Hlast by done. cbn [Z.eqb Pos.eqb FileWriter.slash].
    exists (c :: r). by rewrite <- app_assoc. }
  rewrite <- app_assoc. intros E%app_inv_head. done.
Qed.

(** ** Entries by place *)

Lemma update_first_at f g es i e : NoDup (e_info_hash <$> es) -> es !! i = Some e -> f e = true ->
  (forall e', f e' = true -> e_info_hash e' = e_info_hash e) -> update_first f g es = Some (<[i := g e]> es).
Proof.
  revert i. induction es as [| e0 es IH]; intros i Hnd Hi Hf Hu; [done |]. rewrite fmap_cons in Hnd. apply NoDup_cons in Hnd as [Hn Hnd].
  cbn [update_first]. destruct i as [| i]; cbn in Hi; [injection Hi as ->; by rewrite Hf |].
  destruct (f e0) eqn:E0.
  - exfalso. apply Hn. rewrite (Hu _ E0). by apply list_elem_of_fmap_2, list_elem_of_lookup_2 with i.
  - rewrite (IH i) by done. done.
Qed.

Lemma update_first_Some f g es es' : update_first f g es = Some es' -> exists i e, es !! i = Some e /\ f e = true /\ es' = <[i := g e]> es.
Proof.
  revert es'. induction es as [| e es IH]; intros es' H; [done |]. cbn [update_first] in H. destruct (f e) eqn:E.
  - injection H as <-. by exists 0%nat, e.
  - apply bind_Some in H as (es0 & H & [= <-]). destruct (IH _ H) as (i & e' & Hi & Hf & ->). by exists (S i), e'.
Qed.

Lemma update_first_None f g es : (forall e, e ∈ es -> f e = false) -> update_first f g es = None.
Proof.
  induction es as [| e es IH]; intros H; [done |]. cbn [update_first]. rewrite H by left. rewrite IH; [done |]. intros e' He. apply H. by right.
Qed.

Lemma filter_hash_delete es i e : NoDup (e_info_hash <$> es) -> es !! i = Some e ->
  filter (fun e' => e_info_hash e' <> e_info_hash e) es = delete i es.
Proof.
  revert i. induction es as [| e0 es IH]; intros i Hnd Hi; [done |]. rewrite fmap_cons in Hnd. apply NoDup_cons in Hnd as [Hn Hnd].
  destruct i as [| i]; cbn in Hi.
  - injection Hi as ->. change (delete 0%nat (e :: es)) with es. rewrite filter_cons_False by (intros H; by apply H). clear IH.
    induction es as [| e1 es IH]; [done |]. rewrite fmap_cons in Hn, Hnd. apply NoDup_cons in Hnd as [_ Hnd].
    rewrite filter_cons_True; [rewrite IH; [done | set_solver | done] |]. intros E. apply Hn. rewrite E. left.
  - change (delete (S i) (e0 :: es)) with (e0 :: delete i es).
    rewrite filter_cons_True; [by rewrite (IH i) |]. intros E. apply Hn. rewrite E. by apply list_elem_of_fmap_2, list_elem_of_lookup_2 with i.
Qed.

(** ** In step *)

Section in_step.
Context (store : option (list Z)).

(** A job and what is remembered of it. *)
Record same (j : Job) (e : Entry) : Prop := {
  same_hash : j_info_hash j = e_info_hash e;
  same_out : j_out_dir j = e_out_dir e;
  same_options : j_options j = e_options e;
  same_source : e_source e = j_source j \/
    exists dir, store = Some dir /\ is_magnet (j_source j) = true /\ e_source e = File (torrent_path dir (e_info_hash e));
  same_running : j_running j = true -> is_over (j_state j) = false;
  same_paused : e_dormant e = Some DPaused <-> j_state j = Paused;
  same_finished : forall r, e_dormant e = Some (DFinished r) <-> j_state j = Finished r
}.

Definition saved (m : Manager) : Prop := forall dir, store = Some dir -> load dir None (m_files m) = Some (entries m, []).

Record in_step (m : Manager) : Prop := {
  st_same : Forall2 same (jobs m) (entries m);
  st_ids : NoDup (j_id <$> jobs m);
  st_below : Forall (fun j => (j_id j < next_id m)%nat) (jobs m);
  st_hashes : NoDup (e_info_hash <$> entries m);
  st_ok : Forall entry_ok (entries m);
  st_loose : loose m = [];
  st_saved : saved m
}.

Lemma load_same dir fs fs' : fs' (under dir ENTRIES_FILE) = fs (under dir ENTRIES_FILE) -> load dir None fs' = load dir None fs.
Proof. intros E. unfold load. by rewrite E. Qed.

Lemma save_fine m : Forall entry_ok (entries m) -> NoDup (e_info_hash <$> entries m) ->
  exists fs, save_state store fine m = (set_m_files fs m, Ok tt) /\ saved (set_m_files fs m).
Proof.
  intros Hok Hnd. unfold save_state, saved. destruct store as [dir |]; [| exists (m_files m); split; [by destruct m | done]].
  pose proof (save_leaves dir Written None (entries m) (m_files m)) as H. pose proof (save_load dir Written None (entries m) (m_files m) Hok Hnd) as Hl.
  cbn [d_write d_rename fine]. destruct (save dir Written None (entries m) (m_files m)) as [fs r]. destruct H as (_ & Hr & _).
  rewrite (Hr eq_refl eq_refl) in *. exists fs. split; [done |]. intros dir' [= <-]. exact Hl.
Qed.

(** A job just made for an entry goes with it. *)
Lemma job_for_same e m : same (job_for e m).1 e.
Proof.
  unfold job_for. split; cbn; try done; [by left | by destruct (e_dormant e) as [[] |] | |];
    destruct (e_dormant e) as [[| r'] |]; cbn; naive_solver.
Qed.

(** The same place in both lists. *)
Lemma entry_at m i j : in_step m -> jobs m !! i = Some j -> exists e, entries m !! i = Some e /\ same j e.
Proof. intros H Hi. destruct (Forall2_lookup_l _ _ _ _ _ (st_same _ H) Hi) as (e & He & Hs). by exists e. Qed.

Lemma ids_insert m i j j' : jobs m !! i = Some j -> j_id j' = j_id j -> j_id <$> <[i := j']> (jobs m) = j_id <$> jobs m.
Proof. intros Hi Hid. rewrite list_fmap_insert, Hid. apply list_insert_id. by rewrite list_lookup_fmap, Hi. Qed.

Lemma hashes_insert (es : list Entry) i e e' : es !! i = Some e -> e_info_hash e' = e_info_hash e ->
  e_info_hash <$> <[i := e']> es = e_info_hash <$> es.
Proof. intros Hi Hh. rewrite list_fmap_insert, Hh. apply list_insert_id. by rewrite list_lookup_fmap, Hi. Qed.

(** Both lists changed in one place, to a job and an entry that go together,
    and saved. *)
Lemma change_at m i j e j' e' fs : in_step m -> jobs m !! i = Some j -> entries m !! i = Some e ->
  e_info_hash e' = e_info_hash e -> entry_ok e' -> same j' e' ->
  (j_id j' = j_id j \/ j_id j' = next_id m) ->
  let m' := mkManager (<[i := j']> (jobs m)) (<[i := e']> (entries m)) fs (if bool_decide (j_id j' = j_id j) then next_id m else S (next_id m)) (loose m) in
  saved m' -> in_step m'.
Proof.
  intros H Hi He Hh Hok Hs Hid m' Hsav. pose proof (lookup_lt_Some _ _ _ Hi) as Hlt.
  assert (forall k x, jobs m !! k = Some x -> (j_id x < next_id m)%nat) as Hb.
  { intros k x Hk. pose proof (st_below _ H) as Hbl. rewrite Forall_lookup in Hbl. by apply (Hbl k). }
  split; unfold m'; cbn; [| | | | | exact (st_loose _ H) | exact Hsav].
  - apply Forall2_insert; [exact (st_same _ H) | done].
  - destruct (bool_decide (j_id j' = j_id j)) eqn:E; [apply bool_decide_eq_true in E; rewrite (ids_insert _ _ j) by done; exact (st_ids _ H) |].
    apply bool_decide_eq_false in E. destruct Hid as [? | Hid]; [done |]. rewrite list_fmap_insert.
    apply NoDup_alt. intros a b x Ha Hb'. pose proof (st_ids _ H) as Hnd. rewrite NoDup_alt in Hnd.
    apply list_lookup_insert_Some in Ha as [(<- & <- & Hla) | [Hna Ha]]; apply list_lookup_insert_Some in Hb' as [(<- & Ex & Hlb) | [Hnb Hb']]; try done.
    + rewrite list_lookup_fmap in Hb'. apply fmap_Some in Hb' as (y & Hy & E'). specialize (Hb _ _ Hy). lia.
    + subst x. rewrite list_lookup_fmap in Ha. apply fmap_Some in Ha as (y & Hy & E'). specialize (Hb _ _ Hy). lia.
    + by eapply Hnd.
  - apply Forall_insert; [| destruct Hid as [-> | ->]; case_bool_decide; try lia; specialize (Hb _ _ Hi); lia].
    apply (Forall_impl _ _ _ (st_below _ H)). intros x Hx. case_bool_decide; lia.
  - rewrite (hashes_insert _ _ e) by done. exact (st_hashes _ H).
  - apply Forall_insert; [exact (st_ok _ H) | done].
Qed.

Lemma entry_ok_at m i e : in_step m -> entries m !! i = Some e -> entry_ok e.
Proof. intros H He. pose proof (st_ok _ H) as Hok. rewrite Forall_lookup in Hok. by apply (Hok i). Qed.

Lemma with_dormant_ok d e : entry_ok e -> match d with Some (DFinished r) => text_ok r | _ => True end -> entry_ok (with_dormant d e).
Proof. intros (H1 & H2 & H3 & H4 & H5 & _) Hd. by split_and!. Qed.

(** *** A job's thread *)

Definition end_ok (e : JobEnd) : Prop := match e with EndsFinished r | EndsFailed r => text_ok r | EndsStopped => True end.

(** The entry's part when the thread of the job at its place ends. *)
Definition end_entry (en : JobEnd) (e : Entry) : Entry :=
  match en with EndsFinished r => with_dormant (Some (DFinished r)) e | _ => e end.

Lemma running_not_dormant j e : same j e -> j_running j = true -> e_dormant e = None.
Proof.
  intros H Hr. apply (same_running _ _ H) in Hr. destruct (e_dormant e) as [[| r] |] eqn:E; [| | done]; exfalso.
  - apply (proj1 (same_paused _ _ H)) in E. by rewrite E in Hr.
  - apply (proj1 (same_finished _ _ H r)) in E. by rewrite E in Hr.
Qed.

Lemma ended_same j e en : same j e -> j_running j = true -> same (ended en j) (end_entry en e).
Proof.
  intros H Hr. pose proof (running_not_dormant _ _ H Hr) as Hd. destruct H as [H1 H2 H3 H4 _ _ _].
  destruct en as [r | r |]; split; cbn; try done; rewrite ?Hd; try (split; naive_solver).
  all: intros r'; naive_solver.
Qed.

Lemma tell_ends m i j en : in_step m -> jobs m !! i = Some j -> j_running j = true -> end_ok en ->
  let m' := tell_finished store en j fine (set_jobs (<[i := ended en j]> (jobs m)) m) in
  in_step m' /\ jobs m' = <[i := ended en j]> (jobs m) /\ next_id m' = next_id m.
Proof.
  intros H Hi Hr Hok. destruct (entry_at _ _ _ H Hi) as (e & He & Hs). pose proof (ended_same _ _ en Hs Hr) as Hs'.
  assert (forall fs, saved (mkManager (<[i := ended en j]> (jobs m)) (<[i := end_entry en e]> (entries m)) fs (next_id m) (loose m)) ->
    in_step (mkManager (<[i := ended en j]> (jobs m)) (<[i := end_entry en e]> (entries m)) fs (next_id m) (loose m))) as Hch.
  { intros fs Hsav. pose proof (change_at m i j e (ended en j) (end_entry en e) fs H Hi He) as Hc. cbn in Hc.
    rewrite bool_decide_true in Hc by done. apply Hc; try done; [by destruct en | | by left].
    destruct en as [r | r |]; cbn; [apply with_dormant_ok; [by eapply entry_ok_at | done] | by eapply entry_ok_at..]. }
  destruct en as [r | r |]; cbn [tell_finished end_entry] in *;
    [| split; [| done]; specialize (Hch (m_files m)); rewrite (list_insert_id (entries m) i e He) in Hch; apply Hch; exact (st_saved _ H)..].
  unfold finished. cbn [entries set_jobs jobs].
  rewrite (update_first_at (has_hash (j_info_hash j)) _ _ i e); [| exact (st_hashes _ H) | done | | ]; cycle 1.
  { unfold has_hash. apply bool_decide_eq_true. symmetry. exact (same_hash _ _ Hs). }
  { intros e' E%bool_decide_eq_true. rewrite E. exact (same_hash _ _ Hs). }
  destruct (save_fine (set_entries (<[i := with_dormant (Some (DFinished r)) e]> (entries m)) (set_jobs (<[i := ended (EndsFinished r) j]> (jobs m)) m))) as (fs & -> & Hsav).
  - cbn. apply Forall_insert; [exact (st_ok _ H) |]. apply with_dormant_ok; [by eapply entry_ok_at | done].
  - cbn. rewrite (hashes_insert _ _ e) by done. exact (st_hashes _ H).
  - cbn. split; [by apply Hch | done].
Qed.

Lemma job_ends_in_step m i en : in_step m -> end_ok en -> in_step (job_ends store i en fine m).
Proof.
  intros H Hok. unfold job_ends. destruct (jobs m !! i) as [j |] eqn:Hi; [| done]. destruct (j_running j) eqn:Hr; [| done].
  by apply tell_ends.
Qed.

Lemma job_gets_on_in_step m i s : in_step m -> in_step (job_gets_on i s m).
Proof.
  intros H. unfold job_gets_on. destruct (jobs m !! i) as [j |] eqn:Hi; [| done].
  destruct (j_running j) eqn:Hr; [| done]. destruct (is_over s) eqn:Ho; [done |]. cbn [negb andb].
  destruct (entry_at _ _ _ H Hi) as (e & He & Hs). pose proof (running_not_dormant _ _ Hs Hr) as Hd.
  pose proof (change_at m i j e (mkJob (j_id j) (j_info_hash j) (j_source j) (j_out_dir j) (j_options j) s true) e (m_files m) H Hi He) as Hc.
  cbn in Hc. rewrite bool_decide_true, (list_insert_id (entries m) i e He) in Hc by done.
  apply Hc; [done | by eapply entry_ok_at | | by left | exact (st_saved _ H)].
  destruct Hs as [H1 H2 H3 H4 _ _ _]. split; cbn; try done; rewrite Hd; destruct s; try done; naive_solver.
Qed.

(** *** Commands *)

Lemma find_lt js id i : find js id = Ok i -> exists j, js !! i = Some j.
Proof.
  unfold find. destruct (_ <? _); [done |]. destruct (matching js _) as [| i' []] eqn:E; try done. intros [= ->].
  assert (i ∈ matching js (to_ascii_lowercase (trim_chars id))) as Hin by (rewrite E; left).
  unfold matching in Hin. apply list_elem_of_filter in Hin as [H _]. destruct (js !! i) as [j |]; [by exists j | done].
Qed.

(** Files other than the entries' may be written at will. *)
Lemma other_file m fs : in_step m -> (forall dir, store = Some dir -> fs (under dir ENTRIES_FILE) = m_files m (under dir ENTRIES_FILE)) ->
  in_step (set_m_files fs m).
Proof.
  intros H Hf. destruct H as [H1 H2 H3 H4 H5 H6 H7]. split; try done. intros dir Hd. cbn. rewrite <- (H7 dir Hd). by apply load_same, Hf.
Qed.

Lemma keep_copy_in_step m path h bytes : in_step m -> hash_ok h ->
  exists m', keep_copy store Written path h bytes m = (m', Ok (match store with Some dir => torrent_path dir h | None => path end)) /\
    in_step m' /\ jobs m' = jobs m /\ entries m' = entries m.
Proof.
  intros H [_ Hb]. unfold keep_copy. destruct store as [dir |] eqn:Es; [| by exists m]. cbn [write_file].
  eexists. split; [done |]. split; [| done]. apply other_file; [done |]. intros dir' Hd'. rewrite Es in Hd'. injection Hd' as <-.
  apply set_file_ne. intros E. apply (torrent_path_other dir h [] Hb). by rewrite app_nil_r.
Qed.

Lemma torrent_path_text dir h : text_ok dir -> bytes_ok h -> text_ok (torrent_path dir h).
Proof.
  intros Hd Hb. unfold torrent_path, under, text_ok.
  assert (forall a b, Forall (fun c => is_scalar c = true) a -> Forall (fun c => is_scalar c = true) b -> Forall (fun c => is_scalar c = true) (FileWriter.join a b)) as Hj.
  { intros a b Ha Hb'. unfold FileWriter.join. repeat case_match; rewrite ?Forall_app, ?Forall_cons, ?Forall_nil; try done; by rewrite Forall_cons in Hb'. }
  apply Hj; [apply Hj; [done | by repeat constructor] |]. apply Forall_app. split; [| by repeat constructor].
  apply (Forall_impl _ _ _ (proj1 (info_hash_hex_chars _ Hb))). intros c Hc. apply scalar_ascii. by destruct Hc.
Qed.

Context (sha1 : list Z -> list Z) (to_lowercase : list Z -> list Z).

(** Digests are twenty bytes, and the directory's path is text. *)
Definition given : Prop := (forall d, hash_ok (sha1 d)) /\ forall dir, store = Some dir -> text_ok dir.

(** What a command is given. *)
Definition add_ok (source out_dir : list Z) (o : JobOptions) (read : result (list Z) ErrorKind) : Prop :=
  text_ok source /\ text_ok out_dir /\ options_ok o /\ match read with Ok bytes => zlen bytes <= i64_max | Err _ => True end.

Lemma add_source_in_step m source out o read : given -> in_step m -> add_ok source out o read ->
  exists m' r, add_source sha1 to_lowercase store source out read Written o m = Some (m', r) /\
    in_step m' /\ jobs m' = jobs m /\ entries m' = entries m /\
    forall h s o', r = Ok (h, s, o') -> entry_ok (mkEntry h s out o' None).
Proof.
  intros [Hsha Hdir] H (Hs & Ho & Hop & Hrd). unfold add_source. destruct (is_absolute out); [| by eexists _, _]. cbn [negb].
  destruct (starts_with _ source).
  - unfold add_magnet. destruct (parse_magnet_ok (utf8_encode source)) as (r & -> & Hr). cbn [mbind option_bind]. eexists _, _. split; [done |].
    split_and!; try done. intros h s o' E. destruct r as [l |]; [| done]. injection E as <- <- <-. destruct Hr as (Hl & Hb & _).
    split_and!; try done. destruct Hop as (Hf & Hon & Hp & Hu & Hd). cbn [e_options].
    destruct (files o) as [| f fs] eqn:Ef; [| by split_and!; rewrite ?Ef]. destruct (only o) as [| p ps] eqn:Eo; [| by split_and!; rewrite ?Ef, ?Eo].
    split_and!; cbn; try done. apply Forall_fmap, Forall_true. intros i. unfold u_ok, wrap. cbn. apply Z.mod_pos_bound. lia.
  - unfold add_file. destruct (is_absolute source) eqn:Ea; [| by eexists _, _]. cbn [negb]. destruct read as [bytes | e]; [| by eexists _, _].
    destruct (torrent_hash sha1 bytes Hsha Hrd) as (r & -> & Hr). cbn [mbind option_bind]. destruct r as [t | e]; [| by eexists _, _].
    destruct (check_options to_lowercase t o); [| by eexists _, _]. specialize (Hr t eq_refl).
    destruct (keep_copy_in_step m source (t_info_hash t) bytes H Hr) as (m' & -> & H' & Hj & He). eexists _, _. split; [done |].
    split_and!; try done. intros h s o' [= <- <- <-]. destruct Hr as [Hl Hb]. split_and!; try done; cbn.
    destruct store as [dir |] eqn:Es; [| done]. apply torrent_path_text; [by apply Hdir | done].
Qed.

Lemma add_entry_in_step m h s out o : in_step m -> entry_ok (mkEntry h s out o None) -> in_step (add_entry store h s out o fine m).1.
Proof.
  intros H Hok. unfold add_entry. destruct (existsb _ (jobs m)) eqn:Ex; [done |].
  set (entry := mkEntry h s out o None). pose proof (job_for_same entry m) as Hs. destruct (job_for entry m) as [job m1] eqn:Ej.
  injection Ej as <- <-. cbn [fst] in Hs. set (job := mkJob _ _ _ _ _ _ _) in *.
  assert (h ∉ e_info_hash <$> entries m) as Hnew.
  { intros (e & E & (i & Hi)%list_elem_of_lookup)%list_elem_of_fmap. destruct (Forall2_lookup_r _ _ _ _ _ (st_same _ H) Hi) as (j & Hj & Hsj).
    apply not_true_iff_false in Ex. apply Ex, existsb_exists. exists j. split; [apply list_elem_of_In; by eapply list_elem_of_lookup_2 |].
    apply bool_decide_eq_true. rewrite (same_hash _ _ Hsj). done. }
  cbn [entries set_entries jobs m_files next_id loose].
  destruct (save_fine (set_entries (entries m ++ [entry]) (mkManager (jobs m) (entries m) (m_files m) (S (next_id m)) (loose m)))) as (fs & E & Hsav).
  { cbn. apply Forall_app. split; [exact (st_ok _ H) | by constructor]. }
  { cbn. rewrite fmap_app. apply NoDup_app. split; [exact (st_hashes _ H) |]. split; [| apply NoDup_singleton].
    intros x Hx Hx'. apply list_elem_of_singleton in Hx' as ->. done. }
  cbn in E. cbn. rewrite E. destruct H as [H1 H2 H3 H4 H5 H6 H7]. split; cbn; [| | | | | done | exact Hsav].
  - apply Forall2_app; [done | by repeat constructor].
  - rewrite fmap_app. apply NoDup_app. split; [done |]. split; [| apply NoDup_singleton]. intros x (j & -> & Hj)%list_elem_of_fmap Hx.
    rewrite Forall_forall in H3. specialize (H3 _ Hj). apply list_elem_of_singleton in Hx. cbn in Hx. lia.
  - apply Forall_app. split; [apply (Forall_impl _ _ _ H3); intros; lia | constructor; [cbn; lia | done]].
  - rewrite fmap_app. apply NoDup_app. split; [done |]. split; [| apply NoDup_singleton]. intros x Hx Hx'. apply list_elem_of_singleton in Hx' as ->. done.
  - apply Forall_app. split; [done | by constructor].
Qed.

Lemma stop_job_in_step m i j en : in_step m -> jobs m !! i = Some j -> end_ok en ->
  exists m' j', stop_job store j en fine m = (m', j') /\ in_step m' /\ jobs m' !! i = Some j' /\ j_running j' = false.
Proof.
  intros H Hi Hok. unfold stop_job. destruct (j_running j) eqn:Hr; [| by exists m, j].
  assert ((fun k => if (j_id k =? j_id j)%nat then ended (stop_end en) j else k) <$> jobs m = <[i := ended (stop_end en) j]> (jobs m)) as ->.
  { apply list_eq. intros k. rewrite list_lookup_fmap. destruct (decide (k = i)) as [-> | Hne].
    - rewrite Hi, list_lookup_insert_eq by (by eapply lookup_lt_Some). cbn. by rewrite Nat.eqb_refl.
    - rewrite list_lookup_insert_ne by done. destruct (jobs m !! k) as [x |] eqn:Hk; [| done]. cbn.
      destruct (Nat.eqb_spec (j_id x) (j_id j)) as [E |]; [| done]. exfalso. apply Hne. eapply (NoDup_lookup (j_id <$> jobs m)); [exact (st_ids _ H) | |];
        rewrite list_lookup_fmap; [by rewrite Hk | rewrite Hi; cbn; by rewrite E]. }
  assert (end_ok (stop_end en)) as Hok' by (by destruct en).
  destruct (tell_ends m i j (stop_end en) H Hi Hr Hok') as (H' & Hj & _). eexists _, _. split; [done |]. split; [exact H' |].
  rewrite Hj, list_lookup_insert_eq by (by eapply lookup_lt_Some). done.
Qed.

Lemma replace_in_step m i j dor : in_step m -> jobs m !! i = Some j -> match dor with Some (DFinished r) => text_ok r | _ => True end ->
  in_step (replace store j dor fine m).1.
Proof.
  intros H Hi Hd. destruct (entry_at _ _ _ H Hi) as (e & He & Hs). unfold replace.
  assert (list_find (fun x => j_id x = j_id j) (jobs m) = Some (i, j)) as ->.
  { apply list_find_Some. split_and!; try done. intros k x Hk Hlt E. assert (k = i); [| lia].
    eapply (NoDup_lookup (j_id <$> jobs m)); [exact (st_ids _ H) | |]; rewrite list_lookup_fmap; [by rewrite Hk | rewrite Hi; cbn; by rewrite E]. }
  assert (list_find (fun x => e_info_hash x = j_info_hash j) (entries m) = Some (i, e)) as ->.
  { apply list_find_Some. split_and!; [done | symmetry; exact (same_hash _ _ Hs) |]. intros k x Hk Hlt E. assert (k = i); [| lia].
    eapply (NoDup_lookup (e_info_hash <$> entries m)); [exact (st_hashes _ H) | |]; rewrite list_lookup_fmap; [by rewrite Hk |].
    rewrite He. cbn. by rewrite E, (same_hash _ _ Hs). }
  set (e' := with_dormant dor e). assert (entry_ok e') as Hok by (apply with_dormant_ok; [by eapply entry_ok_at | done]).
  pose proof (job_for_same e' (set_entries (<[i := e']> (entries m)) m)) as Hs'. destruct (job_for e' _) as [job m1] eqn:Ej. injection Ej as <- <-. cbn [fst] in Hs'.
  cbn [set_entries jobs entries m_files next_id loose] in *. set (job := mkJob _ _ _ _ _ _ _) in *.
  destruct (save_fine (mkManager (jobs m) (<[i := e']> (entries m)) (m_files m) (S (next_id m)) (loose m))) as (fs & E & Hsav).
  { cbn. apply Forall_insert; [exact (st_ok _ H) | done]. }
  { cbn. rewrite (hashes_insert _ _ e) by done. exact (st_hashes _ H). }
  rewrite E. cbn. assert (j_id job <> j_id j) as Hne.
  { cbn. pose proof (st_below _ H) as Hb. rewrite Forall_lookup in Hb. specialize (Hb i j Hi). lia. }
  pose proof (change_at m i j e job e' fs H Hi He) as Hc. cbn in Hc. rewrite bool_decide_false in Hc by done.
  apply Hc; try done. by right.
Qed.

Lemma find_job_at m id j : find_job id m = Ok j -> exists i, jobs m !! i = Some j.
Proof.
  unfold find_job. intros (i & _ & Hj)%result_bind_Ok. apply ok_or_Ok in Hj. by exists i.
Qed.

Lemma pause_in_step m id en : in_step m -> end_ok en -> in_step (pause store id en fine fine m).1.
Proof.
  intros H Hok. unfold pause. destruct (find_job id m) as [j |] eqn:Ef; [| done]. destruct (is_paused (j_state j)); [done |].
  destruct (find_job_at _ _ _ Ef) as (i & Hi). destruct (stop_job_in_step m i j en H Hi Hok) as (m' & j' & -> & H' & Hj' & _).
  by apply (replace_in_step m' i).
Qed.

Lemma resume_in_step m id en : in_step m -> end_ok en -> in_step (resume store id en fine fine m).1.
Proof.
  intros H Hok. unfold resume. destruct (find_job id m) as [j |] eqn:Ef; [| done]. destruct (negb (is_over (j_state j))); [done |].
  destruct (find_job_at _ _ _ Ef) as (i & Hi). destruct (stop_job_in_step m i j en H Hi Hok) as (m' & j' & -> & H' & Hj' & _).
  by apply (replace_in_step m' i).
Qed.

Lemma Forall2_drop_at {A B} (P : A -> B -> Prop) l k i : Forall2 P l k -> Forall2 P (delete i l) (delete i k).
Proof. intros H. rewrite !delete_take_drop. apply Forall2_app; [by apply Forall2_take | by apply Forall2_drop]. Qed.

Lemma NoDup_fmap_delete {A B} (f : A -> B) l i : NoDup (f <$> l) -> NoDup (f <$> delete i l).
Proof. intros H. rewrite list_fmap_delete. eapply sublist_NoDup; [exact H | apply sublist_delete]. Qed.

(** A job and its entry taken out together. *)
Lemma drop_at m i fs : in_step m ->
  let m' := mkManager (delete i (jobs m)) (delete i (entries m)) fs (next_id m) (loose m) in saved m' -> in_step m'.
Proof.
  intros [H1 H2 H3 H4 H5 H6 H7] m' Hs. split; try done; cbn; [by apply Forall2_drop_at | by apply NoDup_fmap_delete | by apply Forall_delete | by apply NoDup_fmap_delete | by apply Forall_delete].
Qed.

Lemma not_deleted (es : list Entry) i e x : NoDup (e_info_hash <$> es) -> es !! i = Some e -> x ∈ delete i es -> e_info_hash x <> e_info_hash e.
Proof. intros Hnd Hi. rewrite <- (filter_hash_delete es i e) by done. by intros [? _]%list_elem_of_filter. Qed.

Lemma not_deleted_job l i j x : NoDup (j_id <$> l) -> l !! i = Some j -> x ∈ delete i l -> j_id x <> j_id j.
Proof.
  revert i. induction l as [| y l IH]; intros i Hnd Hi Hx; [done |]. rewrite fmap_cons in Hnd. apply NoDup_cons in Hnd as [Hn Hnd].
  destruct i as [| i]; cbn in Hi, Hx.
  - injection Hi as ->. intros E. apply Hn. rewrite <- E. by apply list_elem_of_fmap_2.
  - apply elem_of_cons in Hx as [-> | Hx]; [| by eapply IH]. intros E. apply Hn. rewrite E. by apply list_elem_of_fmap_2, list_elem_of_lookup_2 with i.
Qed.

Lemma update_absent (l : list Job) n j' : (forall x, x ∈ l -> j_id x <> n) -> (fun k => if (j_id k =? n)%nat then j' else k) <$> l = l.
Proof.
  induction l as [| x l IH]; intros H; [done |]. rewrite fmap_cons, IH by (intros y Hy; apply H; by right).
  destruct (Nat.eqb_spec (j_id x) n) as [E |]; [| done]. exfalso. by apply (H x); [left |].
Qed.

Lemma remove_in_step m id en goes : in_step m -> end_ok en -> in_step (remove store id en goes fine fine m).1.
Proof.
  intros H Hok. unfold remove, take_job. destruct (find (jobs m) id) as [i |] eqn:Ef; [| done].
  destruct (find_lt _ _ _ Ef) as (j & Hi). rewrite Hi. destruct (entry_at _ _ _ H Hi) as (e & He & Hs).
  unfold forget. cbn [entries set_jobs]. rewrite (same_hash _ _ Hs), (filter_hash_delete _ i e); [| exact (st_hashes _ H) | done].
  destruct (save_fine (set_entries (delete i (entries m)) (set_jobs (delete i (jobs m)) m))) as (fs & -> & Hsav).
  { cbn. apply Forall_delete. exact (st_ok _ H). } { cbn. apply NoDup_fmap_delete. exact (st_hashes _ H). }
  set (m1 := set_m_files fs _) in *.
  assert (in_step m1) as H1 by (by apply (drop_at m i fs)).
  assert (exists j', stop_job store j en fine m1 = (m1, j') /\ j_info_hash j' = j_info_hash j) as (j' & -> & Hh).
  { unfold stop_job. destruct (j_running j); [| by exists j]. exists (ended (stop_end en) j). split; [| done]. f_equal.
    unfold set_jobs at 1. rewrite update_absent by (intros x Hx; eapply not_deleted_job; [exact (st_ids _ H) | exact Hi | exact Hx]).
    unfold tell_finished. destruct (stop_end en) as [r | |]; try done. unfold finished. rewrite update_first_None; [done |].
    intros x Hx. unfold has_hash. apply bool_decide_eq_false. rewrite (same_hash _ _ Hs). eapply not_deleted; [exact (st_hashes _ H) | done | exact Hx]. }
  cbn [fst]. unfold remove_copy. destruct store as [dir |] eqn:Es; [| done]. destruct goes; [| done]. apply other_file; [done |].
  intros dir' Hd'. rewrite Es in Hd'. injection Hd' as <-. apply set_file_ne. intros E.
  apply (torrent_path_other dir (j_info_hash j') []); [| by rewrite app_nil_r].
  rewrite Hh, (same_hash _ _ Hs). by destruct (entry_ok_at _ _ _ H He) as (_ & ? & _).
Qed.

Lemma resolved_in_step m t w renamed removed : given -> in_step m -> hash_ok (t_info_hash t) -> in_step (resolved sha1 store t w renamed removed fine m).
Proof.
  intros [_ Hdir] H [Hl Hb]. unfold resolved. destruct store as [dir |] eqn:Es; [| done].
  set (path := torrent_path dir (t_info_hash t)).
  assert (forall fs r, save_torrent sha1 w renamed removed (m_files m) t path = (fs, r) -> in_step (set_m_files fs m)) as Hfs.
  { intros fs r E. apply other_file; [done |]. intros dir' Hd'. rewrite Es in Hd'. injection Hd' as <-.
    pose proof (torrent_path_other dir (t_info_hash t) [] Hb) as Hn1. rewrite app_nil_r in Hn1.
    pose proof (torrent_path_other dir (t_info_hash t) (str ".part") Hb) as Hn2. fold path in Hn1, Hn2.
    unfold save_torrent, write_file, rename_file in E. destruct (torrent_file_bytes sha1 t); [| by injection E as <- <-].
    destruct w as [| k [n |]]; [destruct renamed, removed | |]; cbv beta iota zeta in E; injection E as <- <-;
      rewrite ?(set_file_ne (under dir ENTRIES_FILE)) by (by intros <- || done); done. }
  destruct (save_torrent sha1 w renamed removed (m_files m) t path) as [fs r]. specialize (Hfs fs r eq_refl). cbn beta iota.
  destruct r as [u | e]; [| done]. destruct (update_first _ _ _) as [es |] eqn:Eu; [| done].
  apply update_first_Some in Eu as (i & e & He & [Hh Hm]%andb_true_iff & ->). apply bool_decide_eq_true in Hh. cbn in He.
  destruct (Forall2_lookup_r _ _ _ _ _ (st_same _ H) He) as (j & Hj & Hs). set (e' := with_source (File path) e).
  assert (entry_ok e') as Hok.
  { destruct (entry_ok_at _ _ _ H He) as (A1 & A2 & A3 & _ & A5 & A6). split_and!; try done. cbn. apply torrent_path_text; [by apply Hdir | done]. }
  assert (same j e') as Hs'.
  { destruct Hs as [B1 B2 B3 B4 B5 B6 B7]. split; try done. right. exists dir. split_and!; [done | | cbn; by rewrite Hh].
    destruct B4 as [<- | (? & _ & ? & _)]; done. }
  destruct (save_fine (set_entries (<[i := e']> (entries (set_m_files fs m))) (set_m_files fs m))) as (fs' & E & Hsav).
  { cbn. apply Forall_insert; [exact (st_ok _ H) | done]. } { cbn. rewrite (hashes_insert _ _ e) by done. exact (st_hashes _ H). }
  rewrite Es in E. rewrite E. cbn. pose proof (change_at m i j e j e' fs' H Hj He) as Hc. cbn in Hc.
  rewrite bool_decide_true, (list_insert_id (jobs m) i j Hj) in Hc by done. apply Hc; try done. by left.
Qed.

(** *** Any course of events *)

Inductive Op : Type :=
| OAdd (source out_dir : list Z) (o : JobOptions) (read : result (list Z) ErrorKind)
| ORemove (id : list Z) (en : JobEnd) (goes : bool)
| OPause (id : list Z) (en : JobEnd)
| OResume (id : list Z) (en : JobEnd)
| OEnds (i : nat) (en : JobEnd)
| OGetsOn (i : nat) (s : JobState)
| OResolved (t : TorrentFile) (w : Write) (renamed : option ErrorKind) (removed : bool).

Definition apply_op (op : Op) (m : Manager) : option Manager :=
  match op with
  | OAdd source out o read => fst <$> add sha1 to_lowercase store source out o read Written fine m
  | ORemove id en goes => Some (remove store id en goes fine fine m).1
  | OPause id en => Some (pause store id en fine fine m).1
  | OResume id en => Some (resume store id en fine fine m).1
  | OEnds i en => Some (job_ends store i en fine m)
  | OGetsOn i s => Some (job_gets_on i s m)
  | OResolved t w renamed removed => Some (resolved sha1 store t w renamed removed fine m)
  end.

Fixpoint run_ops (ops : list Op) (m : Manager) : option Manager :=
  match ops with [] => Some m | op :: rest => m ← apply_op op m; run_ops rest m end.

Definition op_ok (op : Op) : Prop :=
  match op with
  | OAdd source out o read => add_ok source out o read
  | ORemove _ en _ | OPause _ en | OResume _ en | OEnds _ en => end_ok en
  | OGetsOn _ _ => True
  | OResolved t _ _ _ => hash_ok (t_info_hash t)
  end.

Lemma apply_op_in_step op m : given -> in_step m -> op_ok op -> exists m', apply_op op m = Some m' /\ in_step m'.
Proof.
  intros Hg H Hok. destruct op; cbn [apply_op op_ok] in *; try (eexists; split; [done |]).
  - unfold add. destruct (add_source_in_step m source out_dir o read Hg H Hok) as (m' & r & -> & H' & _ & _ & He). cbn [mbind option_bind fmap option_fmap option_map].
    eexists. split; [done |]. destruct r as [[[h s] o'] | e]; [| done]. by apply add_entry_in_step, He.
  - by apply remove_in_step.
  - by apply pause_in_step.
  - by apply resume_in_step.
  - by apply job_ends_in_step.
  - by apply job_gets_on_in_step.
  - by apply resolved_in_step.
Qed.

Lemma run_ops_in_step ops m : given -> in_step m -> Forall op_ok ops -> exists m', run_ops ops m = Some m' /\ in_step m'.
Proof.
  intros Hg H Hok. revert m H. induction Hok as [| op ops Hop _ IH]; intros m H; [by exists m |].
  destruct (apply_op_in_step op m Hg H Hop) as (m1 & E & H1). cbn [run_ops]. rewrite E. by apply IH.
Qed.

(** *** Starting again *)

(** A manager that has started nothing yet. *)
Definition fresh (fs : Files) : Manager := mkManager [] [] fs 0 [].

Definition started (e : Entry) (j : Job) : Prop := exists m, j = (job_for e m).1.

Lemma restore_each_spec es : forall m, Forall2 same (jobs m) (entries m) -> NoDup (j_id <$> jobs m) ->
  Forall (fun j => (j_id j < next_id m)%nat) (jobs m) ->
  exists js n, restore_each es m = mkManager (jobs m ++ js) (entries m ++ es) (m_files m) n (loose m) /\ Forall2 started es js /\
    Forall2 same (jobs m ++ js) (entries m ++ es) /\ NoDup (j_id <$> jobs m ++ js) /\ Forall (fun j => (j_id j < n)%nat) (jobs m ++ js).
Proof using store.
  induction es as [| e es IH]; intros m Hs Hnd Hb.
  { exists [], (next_id m). rewrite !app_nil_r. split_and!; try done. by destruct m. }
  cbn [restore_each]. destruct (job_for e m) as [job m1] eqn:Ej. pose proof (job_for_same e m) as Hj. rewrite Ej in Hj. cbn [fst] in Hj.
  assert (started e job) as Hst by (exists m; by rewrite Ej). injection Ej as Ejob <-. assert (j_id job = next_id m) as Hid by (by subst job).
  destruct (IH (set_entries (entries m ++ [e]) (set_jobs (jobs m ++ [job]) (mkManager (jobs m) (entries m) (m_files m) (S (next_id m)) (loose m)))))
    as (js & n & E & H1 & H2 & H3 & H4); cbn.
  - apply Forall2_app; [done | constructor; [done | constructor]].
  - rewrite fmap_app. apply NoDup_app. split; [done |]. split; [| apply NoDup_singleton]. intros x (j & -> & Hin)%list_elem_of_fmap Hx.
    rewrite Forall_forall in Hb. specialize (Hb _ Hin). apply list_elem_of_singleton in Hx. lia.
  - apply Forall_app. split; [apply (Forall_impl _ _ _ Hb); intros; lia | constructor; [lia | done]].
  - cbn [jobs entries set_entries set_jobs m_files loose] in *. rewrite <- !app_assoc in *. exists (job :: js), n. split_and!; try done. by constructor.
Qed.

Lemma restore_in_step fs es dir : store = Some dir -> load dir None fs = Some (es, []) -> Forall entry_ok es -> NoDup (e_info_hash <$> es) ->
  exists m, restore store None (fresh fs) = Some (m, []) /\ in_step m /\ entries m = es /\ Forall2 started es (jobs m).
Proof using store.
  intros Hst Hl Hok Hnd. unfold restore. rewrite Hst. cbn [m_files fresh]. rewrite Hl. cbn [mbind option_bind].
  destruct (restore_each_spec es (fresh fs)) as (js & n & E & H1 & H2 & H3 & H4); try by constructor. rewrite E. cbn in *.
  eexists. split; [done |]. split_and!; try done. split; try done. intros dir' Hd. rewrite Hst in Hd. injection Hd as <-. exact Hl.
Qed.

End in_step.

(** ** Properties *)


Definition example_link (c : Z) : list Z := str "magnet:?xt=urn:btih:" ++ replicate 40 c.
Definition example_options : JobOptions := mkJobOptions [] [] [str "nfo"] false (Some 50000) None.
Definition example_ops : list Op :=
  [OAdd (example_link 97) (str "/d") example_options (Err NotFound); OAdd (example_link 98) (str "/d") example_options (Err NotFound);
   OGetsOn 0 Resolving; OPause (str "bbbb") EndsStopped; OEnds 0 (EndsFinished (str "ratio"))].


(** ** Where lists and memory part *)

(** Saving fails as a torrent is added: the command fails and the torrent is in
    no list, but it is remembered and its thread runs; added again it is
    remembered twice. *)
Lemma failed_add_is_kept :
  let full := mkDisk (Create.Stopped OtherError None) None in
  exists m m' job, add no_sha1 (fun s => s) (Some (str "/s")) (example_link 97) (str "/d") example_options (Err NotFound) Written full (fresh (fun _ => None)) =
      Some (m, Err (SavingState (IoError OtherError))) /\
    jobs m = [] /\ loose m = [job] /\ length (entries m) = 1%nat /\
    add no_sha1 (fun s => s) (Some (str "/s")) (example_link 97) (str "/d") example_options (Err NotFound) Written fine m = Some (m', Ok (mkJob 1 (j_info_hash job) (j_source job) (j_out_dir job) (j_options job) Checking true)) /\
    (e_info_hash <$> entries m') = [j_info_hash job; j_info_hash job].
Proof. eexists _, _, _. split; [by vm_compute |]. split_and!; by vm_compute. Qed.

(** A torrent added while it is being removed, between the two locks [remove]
    takes: both commands succeed, the torrent runs, and it is not remembered. *)
Lemma added_while_removed :
  exists m m1 m2 m3 job, add no_sha1 (fun s => s) (Some (str "/s")) (example_link 97) (str "/d") example_options (Err NotFound) Written fine (fresh (fun _ => None)) = Some (m, Ok job) /\
    take_job (str "aaaa") m = (m1, Ok job) /\
    (exists job', add no_sha1 (fun s => s) (Some (str "/s")) (example_link 97) (str "/d") example_options (Err NotFound) Written fine m1 = Some (m2, Ok job')) /\
    forget (Some (str "/s")) (j_info_hash job) fine m2 = (m3, Ok tt) /\
    length (jobs m3) = 1%nat /\ entries m3 = [].
Proof. eexists _, _, _, _, _. split; [by vm_compute |]. split; [by vm_compute |]. split; [eexists; by vm_compute |]. split_and!; by vm_compute. Qed.
