(* ===== verification/Control.v ===== *)
(** * Requests to the daemon

    Models the requests of [src/src/daemon/control.rs]: the line a client says
    one in, and the daemon's reading of it.  The socket, its threads and the
    lines of the answers are not here; what a request does is [Manager.v].

    A text is its characters, a path a text; errors are constructors.  A [None]
    of the outer option is a reader out of passes, which never happens. *)

From S2P Require Import Magnet.
From S2P Require Import Prelude Str Numeral Text BTree F64 Io Torrent Selection Json Utf8 Entries.

Inductive Request : Type :=
| Add (source out : list Z) (options : JobOptions)
| List
| Status (id : list Z)
| Remove (id : list Z)
| Pause (id : list Z)
| Resume (id : list Z)
| Shutdown.

Definition cmd_line (cmd : list Z) : list Z := obj_finish (obj_string obj_new (str "cmd") cmd).
Definition id_line (cmd id : list Z) : list Z := obj_finish (obj_string (obj_string obj_new (str "cmd") cmd) (str "id") id).

Definition request_line (r : Request) : list Z :=
  match r with
  | Add source out options =>
      let object := obj_string (obj_string (obj_string obj_new (str "cmd") (str "add")) (str "source") source) (str "out") out in
      obj_finish (write_options options object)
  | List => cmd_line (str "list")
  | Status id => id_line (str "status") id
  | Remove id => id_line (str "remove") id
  | Pause id => id_line (str "pause") id
  | Resume id => id_line (str "resume") id
  | Shutdown => cmd_line (str "shutdown")
  end.

Inductive RequestError : Type :=
| NotJson
| Needed (key : list Z)
| MustBe (key : list Z)
| BadFileList (e : SelectError)
| NoCommand (cmd : list Z).

Definition needed (fields : Fields) (key : list Z) : result (list Z) RequestError :=
  ok_or (v ← bt_get fields key; v_as_str v) (Needed key).

Definition patterns (fields : Fields) (key : list Z) : result (list (list Z)) RequestError :=
  match bt_get fields key with
  | None | Some VNull => Ok []
  | Some (VString s) => Ok (filter (fun l => l <> []) (lines s))
  | Some _ => Err (MustBe key)
  end.

Definition limit (fields : Fields) (key : list Z) : result (option Z) RequestError :=
  match bt_get fields key with
  | None | Some VNull => Ok None
  | Some (VNumber n) => if is_rate n then Ok (Some (f_to_usize n)) else Err (MustBe key)
  | Some _ => Err (MustBe key)
  end.

Definition add_request (fields : Fields) : result Request RequestError :=
  let? sequential := match bt_get fields (str "sequential") with
                     | None | Some VNull => Ok false
                     | Some (VBool b) => Ok b
                     | Some _ => Err (MustBe (str "sequential"))
                     end in
  let? files := match bt_get fields (str "files") with
                | None | Some VNull => Ok []
                | Some (VString s) => match parse_indices (utf8_encode s) with Ok is_ => Ok is_ | Err e => Err (BadFileList e) end
                | Some _ => Err (MustBe (str "files"))
                end in
  let? only := patterns fields (str "only") in
  let? prefer := patterns fields (str "prefer") in
  let? max_up := limit fields (str "max_up") in
  let? max_down := limit fields (str "max_down") in
  let? source := needed fields (str "source") in
  let? out := needed fields (str "out") in
  Ok (Add source out (mkJobOptions files only prefer sequential max_up max_down)).

Definition request_of (fields : Fields) : result Request RequestError :=
  match v ← bt_get fields (str "cmd"); v_as_str v with
  | None => Err (Needed (str "cmd"))
  | Some cmd =>
      if bool_decide (cmd = str "add") then add_request fields
      else if bool_decide (cmd = str "list") then Ok List
      else if bool_decide (cmd = str "status") then let? id := needed fields (str "id") in Ok (Status id)
      else if bool_decide (cmd = str "remove") then let? id := needed fields (str "id") in Ok (Remove id)
      else if bool_decide (cmd = str "pause") then let? id := needed fields (str "id") in Ok (Pause id)
      else if bool_decide (cmd = str "resume") then let? id := needed fields (str "id") in Ok (Resume id)
      else if bool_decide (cmd = str "shutdown") then Ok Shutdown
      else Err (NoCommand cmd)
  end.

Definition parse_request (line : list Z) : option (result Request RequestError) :=
  fields ← parse_object line;
  Some (match fields with None => Err NotJson | Some fields => request_of fields end).

(** ** What is said is understood *)

Definition request_slots (r : Request) : list Slot :=
  match r with
  | Add source out o =>
      [(str "cmd", Some (FString (str "add"))); (str "source", Some (FString source)); (str "out", Some (FString out))] ++ option_slots o
  | List => [(str "cmd", Some (FString (str "list")))]
  | Status id => [(str "cmd", Some (FString (str "status"))); (str "id", Some (FString id))]
  | Remove id => [(str "cmd", Some (FString (str "remove"))); (str "id", Some (FString id))]
  | Pause id => [(str "cmd", Some (FString (str "pause"))); (str "id", Some (FString id))]
  | Resume id => [(str "cmd", Some (FString (str "resume"))); (str "id", Some (FString id))]
  | Shutdown => [(str "cmd", Some (FString (str "shutdown")))]
  end.

Lemma request_line_slots r : request_line r = slot_line (request_slots r).
Proof.
  destruct r as [source out o | | | | | |]; try reflexivity.
  unfold slot_line. cbn [request_slots request_line]. rewrite slot_fields_app, fold_left_app, <- write_options_slots. reflexivity.
Qed.

Definition request_ok (r : Request) : Prop :=
  match r with
  | Add source out o => text_ok source /\ text_ok out /\ options_ok o
  | Status id | Remove id | Pause id | Resume id => text_ok id
  | List | Shutdown => True
  end.

Lemma request_slots_ok r : request_ok r -> NoDup (request_slots r).*1 /\ Forall slot_ok (request_slots r).
Proof.
  intros H. split.
  - apply (bool_decide_unpack (NoDup (request_slots r).*1)). destruct r; by vm_compute.
  - destruct r as [source out o | | | | | |]; cbn [request_slots]; [| by repeat constructor..].
    destruct H as (Hs & Ho & Hop). apply Forall_app. split; [by repeat constructor | by apply option_slots_ok].
Qed.

(** The options, from their slots. *)
Lemma patterns_slot map key l : bt_get map key = field_value <$> (match l with [] => None | _ => Some (FString (join_lines l)) end) ->
  Forall pattern_ok l -> patterns map key = Ok l.
Proof. intros Hg Hl. unfold patterns. rewrite Hg. destruct l as [| p l]; [done |]. cbn [fmap option_fmap option_map field_value]. f_equal. by apply (split_lines_join (p :: l)). Qed.

Lemma limit_slot map key r : bt_get map key = field_value <$> (FUint <$> r) -> rate_ok r -> limit map key = Ok r.
Proof.
  intros Hg Hr. unfold limit. rewrite Hg. destruct r as [n |]; [| done]. cbn [fmap option_fmap option_map field_value].
  destruct (rate_read n Hr) as [-> ->]. done.
Qed.

Lemma add_request_map map source out o : request_ok (Add source out o) ->
  (forall k v, (k, v) ∈ request_slots (Add source out o) -> bt_get map k = field_value <$> v) -> add_request map = Ok (Add source out o).
Proof.
  intros (_ & _ & (Hf & Hon & Hpr & Hu & Hd)) Hg. unfold add_request, needed.
  pose proof (fun i k v H => Hg k v (list_elem_of_lookup_2 (request_slots (Add source out o)) i (k, v) H)) as Hat.
  rewrite (patterns_slot map (str "only") _ (Hat 4%nat _ _ eq_refl) Hon), (patterns_slot map (str "prefer") _ (Hat 5%nat _ _ eq_refl) Hpr).
  rewrite (limit_slot map (str "max_up") _ (Hat 7%nat _ _ eq_refl) Hu), (limit_slot map (str "max_down") _ (Hat 8%nat _ _ eq_refl) Hd).
  pose proof (Hat 1%nat _ _ eq_refl) as G1. pose proof (Hat 2%nat _ _ eq_refl) as G2. pose proof (Hat 3%nat _ _ eq_refl) as G3. pose proof (Hat 6%nat _ _ eq_refl) as G6.
  clear Hg Hat. rewrite G1, G2, G3, G6. cbn [fmap option_fmap option_map field_value mbind option_bind v_as_str].
  assert (match field_value <$> (match files o with [] => None | _ => Some (FString (format_indices (files o))) end) with
          | None | Some VNull => Ok []
          | Some (VString s) => match parse_indices (utf8_encode s) with Ok is_ => Ok is_ | Err e => Err (BadFileList e) end
          | Some _ => Err (MustBe (str "files")) end = Ok (files o)) as ->.
  { pose proof (parse_indices_format _ Hf) as E. pose proof (format_indices_ascii _ Hf) as Ha. destruct (files o) as [| i is_]; [done |].
    cbn [fmap option_fmap option_map field_value]. rewrite utf8_encode_ascii; [by rewrite E |]. apply (Forall_impl _ _ _ Ha). intros c Hc. cbn in Hc |- *. lia. }
  destruct o as [fs os ps sq up down]. cbn [files only prefer sequential max_up max_down]. by destruct sq.
Qed.

Lemma request_of_map r map : request_ok r -> (forall k v, (k, v) ∈ request_slots r -> bt_get map k = field_value <$> v) -> request_of map = Ok r.
Proof.
  intros Hok Hg. unfold request_of.
  pose proof (fun i k v H => Hg k v (list_elem_of_lookup_2 (request_slots r) i (k, v) H)) as Hat.
  destruct r as [source out o | | id | id | id | id |]; rewrite (Hat 0%nat (str "cmd") _ eq_refl);
    cbn [fmap option_fmap option_map field_value mbind option_bind v_as_str];
    repeat (rewrite bool_decide_false by done); rewrite ?bool_decide_true by done; try done;
    [by apply add_request_map | unfold needed; rewrite (Hat 1%nat (str "id") _ eq_refl); done..].
Qed.

(** ** Properties *)

(** A request is understood as it was meant.  Whatever it asks for, with
    any texts, patterns, file numbers and limits, the line a client sends is one
    line; and what the daemon makes of it, once it has read up to the newline
    and trimmed it, is that request. *)
Theorem request_understood (r : Request) (Hok : request_ok r) :
  Forall (fun c => c <> 10) (request_line r) /\ parse_request (trim_chars (request_line r ++ [10])) = Some (Ok r).
Proof.
  destruct (request_slots_ok r Hok) as [Hnd Hs]. destruct (slots_read _ Hnd Hs) as (Hl & map & Hm & Hg & _).
  rewrite <- request_line_slots in Hl, Hm. split; [exact Hl |].
  assert (trim_chars (request_line r ++ [10]) = request_line r) as ->.
  { assert (exists s, request_line r = 123 :: s ++ [125]) as [s ->] by (rewrite request_line_slots; by eexists).
    unfold trim_chars. cbn [app trim_left]. change (is_whitespace 123) with false. cbn iota.
    rewrite !app_comm_cons, !reverse_app. change (reverse [10]) with [10]. change (reverse [125]) with [125]. cbn [app trim_left].
    change (is_whitespace 10) with true. change (is_whitespace 125) with false. cbn iota. rewrite <- (reverse_involutive (123 :: s ++ [125])).
    rewrite app_comm_cons, reverse_app. done. }
  unfold parse_request. rewrite Hm. cbn [mbind option_bind]. by rewrite (request_of_map r).
Qed.

Lemma request_understood_witness :
  let r := Add (str "magnet:?dn=a b") (str "/d/" ++ [34; 92; 233]) (mkJobOptions [1; 3] [str ".mkv"; str "a b"] [str "nfo"] true (Some 50000) (Some 1000000)) in
  parse_request (trim_chars (request_line r ++ [10])) = Some (Ok r).
Proof.
  intros r. apply (request_understood r). split_and!; cbn; try (by repeat constructor); try lia; repeat constructor; cbn; try done; intros [=].
Defined.
